(* ===== verification/_CoqProject ===== *)
-Q . S2P
Prelude.v
Bytes.v
NetworkId.v
Script.v
Address.v
KsptModel.v
KsptWire.v
KsptDoc.v
KsptEncode.v
KsptDecode.v
KsptRoundTrip.v
Amounts.v
Transaction.v
Mass.v
Selection.v
Json.v
Plan.v
Pskb.v
Planner.v
IndexerModel.v
IndexerStore.v
IndexerEngine.v
IndexerProofs.v
IndexerSafety.v
Qr.v
QrProofs.v
Covenants.v
Contracts.v
ContractProofs.v
ContractFacts.v
Branch.v
BranchProofs.v
TxModel.v
Sighash.v
SigCheck.v
SigProofs.v
KsptCodec.v
KsptCodecProofs.v
KsptCopy.v
KsptAgree.v
Hd.v
HdProofs.v
Keys.v
KeysProofs.v
WalletKeys.v
Slots.v
Descriptor.v
MultisigWallet.v
MultisigProofs.v
DescriptorProofs.v
Schnorr.v
Signing.v
SigningProofs.v
SigningComplete.v
PsktSyntax.v
PsktParser.v
PsktSerializer.v
PsktGrammar.v
PsktMeaning.v
PsktTokens.v
PsktObjects.v
PsktFields.v
PsktInputs.v
PsktParserProofs.v
Wordlist.v
Mnemonic.v
MnemonicProofs.v
TimePolicy.v
TimePolicyProofs.v
Adaptor.v
AdaptorProofs.v
CovenantKeys.v
SigningMessages.v
CovenantMessageProofs.v
SwapMessageProofs.v
KleptoMessageProofs.v
AntiKleptoSigning.v
AntiKleptoProofs.v
AntiKleptoSession.v
Stealth.v
