(* ===== verification/Prelude.v ===== *)
(** * Verification of kaspa-portal

    A shallow embedding of the Rust library under [src/src], with the theorems
    that make it correct. Paths below are relative to [src/src].

    ** How the program fits together

    A wallet derives keys ([wallet/derivation], [wallet/key]), names its
    outputs by addresses and scripts ([primitives], [contract]), selects coins
    and plans a transaction ([transaction/builder]), hands the plan to a
    signing device as a PSKB document or a KSPT envelope, by file or by
    animated QR codes ([transaction/interchange]), and checks what comes back
    ([transaction/signature_verification], [transaction/sighash],
    [transaction/model]) before it is materialized into a consensus
    transaction. The indexer ([indexer]) follows the chain and remembers the
    transactions that match the wallet's filters.

    ** Conventions

    - An integer of any width is a [Z]; every wrap, check and saturation is
      written where the code has it. Bytes are [Z] in [0, 256), text is the
      list of its UTF-8 bytes, a fixed array is a list whose length is part of
      a [typed_] or [valid_] predicate, a slice access out of range is a panic.
    - [result] is Rust's [Result]; [Comp S E A] is a computation over the state
      [S] that keeps what it changed before an error, like [&mut self] in Rust.
      A panic is the constructor [Panics] of [Fault] where it matters, and the
      theorems exclude it for the states that occur.
    - A function that fills a caller's buffer returns its result and the buffer.
    - Code that is not under [src/src] is a parameter: SHA-256, SHA-512,
      RIPEMD-160, (keyed) BLAKE2b, BIP-340 signing and verification (class
      [Schnorr.Bip340] with its laws [Schnorr.Bip340Laws]), the secp256k1 group
      (class [Hd.Curve] with its laws [Hd.CurveLaws], which speak of encodings in the
      compressed form with tag 2 or 3 only, extended by [Adaptor.Group] with
      [Adaptor.GroupLaws]), the JSON serializer, the hexadecimal codec of the QR path and of stealth
      metadata. What a theorem assumes
      of one is a named hypothesis of its section, and its witness instantiates
      it with a concrete function. Memory allocation succeeds, wiping memory
      has no counterpart.

    ** Files

    - Primitives. [Bytes] ([primitives/bytes.rs], [qr_payload.rs],
      [decimal_u64.rs]); [NetworkId] ([primitives/mod.rs]); [Script]
      ([primitives/script.rs], [multisig_script.rs], [contract/script]);
      [Address] ([primitives/address]).
    - KSPT wire format ([transaction/interchange/kspt/wire]). [KsptModel] the
      data and the interfaces [EncodeSource] and [DecodeSink]; [KsptWire] the
      reader, writer, encoder and decoder; [KsptDoc] the abstract documents;
      [KsptEncode], [KsptDecode], [KsptRoundTrip] the proofs that both
      directions implement the documents.
    - Transactions on the device. [TxModel] ([transaction/model]), [Sighash]
      ([transaction/sighash]), [SigCheck] ([kspt/validation.rs],
      [kspt/script.rs], [signature_verification]), [KsptCodec] ([kspt/codec],
      [kssn.rs]) with [SigProofs], [KsptCodecProofs], [KsptCopy], [KsptAgree].
    - Planning ([transaction/builder], [transaction/mass.rs]). [Amounts],
      [Selection], [Mass], [Planner], with [Transaction] (verified and
      consensus transactions, witness materialization), [Plan], [Json] and
      [Pskb] (the PSKB document of a plan).
    - Contracts ([contract]). [Covenants] and [Contracts] the templates,
      [Branch] the branch resolver and the witness tracer; [ContractProofs],
      [ContractFacts], [BranchProofs].
    - Indexer ([indexer]). [IndexerModel], [IndexerStore], [IndexerEngine];
      [IndexerProofs], [IndexerSafety].
    - QR transfer ([transaction/interchange/qr]). [Qr], [QrProofs].
    - Keys ([wallet]). [Hd] (HMAC, BIP-32, KIP-22) with [HdProofs]; [Keys]
      (Base58, account key texts) with [KeysProofs].
    - Key use ([crypto/adaptor.rs], [crypto/anti_klepto.rs],
      [wallet/derivation/covenant.rs]). [Adaptor] adaptor signatures and
      host-assisted nonces with [AdaptorProofs]; [CovenantKeys] the keys and
      binding records of covenants and swaps.
    - Wallets ([wallet/public_key], [wallet/multisig]). [WalletKeys]
      (watch-only address indexing); [Slots] and
      [Descriptor] (the texts of multisig descriptors), [MultisigWallet]
      (device and host derivation of multisig scripts, change outputs) with
      [MultisigProofs] and [DescriptorProofs].
    - Signing ([crypto/schnorr], [kspt/signing], [sighash/signing.rs]).
      [Schnorr] the interface [Bip340] and the wrapper around it; [Signing] the
      signing of a device; [SigningProofs] soundness, [SigningComplete]
      completeness and the witnesses.

    - PSKT documents ([transaction/interchange/pskt/standard], [schema],
      [shared.rs]). [PsktSyntax] the tokenizer, the JSON validator, the schema
      and the record of preserved fields; [PsktParser] and [PsktSerializer];
      [PsktGrammar] the texts of JSON trees, [PsktMeaning] what a tree says;
      [PsktTokens], [PsktObjects], [PsktFields], [PsktInputs] and
      [PsktParserProofs] the proof that the parser implements that meaning.
    - Mnemonics ([wallet/mnemonic], [wallet/derivation/bip85.rs]). [Wordlist]
      the words, [Mnemonic] phrases, checksums, seeds and BIP-85 children, with
      [MnemonicProofs].
    - Time policy ([transaction/policy/time.rs]). [TimePolicy] and
      [TimePolicyProofs].
    - Signing protocols ([transaction/signing], [kspt/signing/anti_klepto]).
      [SigningMessages] the messages of covenant signing, private swaps and
      host-assisted signing, and what a parser and an encoder of a message
      promise each other; [CovenantMessageProofs], [SwapMessageProofs]
      and [KleptoMessageProofs]; [AntiKleptoSigning] the device's and the
      host's part of host-assisted signing, [AntiKleptoProofs] what the host's
      checks establish, [AntiKleptoSession] a whole session.
    - Stealth addresses ([privacy/stealth]). [Stealth].

    This file holds what they share: the result type and its notations, the
    computations, machine integers, byte lists and their lemmas, the tactics
    and the rewriting database [blen].

    ** What the theorems show

    - Formats are exact: the KSPT decoder accepts exactly the bytes of valid
      documents and replays them, the encoder writes exactly those bytes (and
      those of documents with a covenant that names no input, which the decoder
      refuses), addresses, account key texts, redeem scripts, contract
      templates, QR frames and persisted indexes are read back as they were
      written, and nothing else is accepted; a contract term that is read by
      walking the script is read back below [2^63] and refused from there on.
    - Signatures mean what they claim: equal signature hashes commit to equal
      fields or exhibit a hash collision, a transaction reported as fully
      signed holds valid signatures of exactly the keys its scripts ask for,
      the branch resolver's answer follows from the witness tracer's tree and
      the keys the script checks, and a witness trace asks for exactly the keys
      its selectors reach.
    - Money is conserved: change, selection, fees and mass estimates are
      compared with their definitions on unbounded integers; the storage mass
      is KIP-9's, stated apart from the code.
    - The indexer refines bounded queues with cascading removal and keeps its
      invariant through every operation, failed and half-applied ones and
      restores of any data included; the two facts that depend on what was
      restored are stated under [Trust]. A batch or a reconciliation changes
      the stored records and the dedupe window exactly as ingesting its records
      one by one does, after the removals, or changes nothing.
    - Keys derived in public are the public keys of those derived in private.
    - A host and a signing device derive the same multisig scripts from one
      descriptor on every chain a wallet has, a device vouches for a change output only if it derives the
      output itself, and a descriptor's text is read back as it was written.
    - A signing device adds only valid signatures of its own keys, at most one
      per key and input, and an account that holds the keys of every input
      leaves a transaction the codec reports as completely signed.
    - The streaming parser of PSKT documents is equal to a specification on
      JSON trees: it accepts exactly the documents that have a meaning, keeps
      every field the model does not hold, and cannot panic. Its loops have the
      text's length as fuel and read a byte each round; the validator's fuel is
      twice the length, one unit per value and one per list.
    - A phrase validates exactly when some entropy has it, a word has exactly
      one index, and a seed derived in slices is the one derived at once.
    - The calendar conversions agree with a clock that ticks second by second,
      and a signing policy allows exactly the times it describes. The loops
      over years and months have fuel for 131 years and 13 months; dates end
      with 2099.
    - An adaptor signature is completed by the adaptor secret to a valid
      signature, any completion reveals the secret, a covenant exchange ends
      with a valid signature whose nonce holds the host's contribution, and a
      binding record names one instance, script and key.
    - Every message of the signing protocols has exactly one text. The host
      accepts only its own transaction with new signatures that are valid and
      hold its contribution, and a session with a device that signs for one
      key ends with a transaction the host accepts.
    - A stealth payment pays to a key the receiver finds and the receiver's
      device can sign for.

    ** Fuel

    Recursion that is not structural carries fuel that is proved or visibly
    enough: script readers and resolvers advance at least one byte per step and
    have the script's length as fuel; the growing encoders double their buffer
    and 64 rounds exceed any [usize]; trailers are at least one byte each;
    Merkle levels and chunk loops have the length of their list; the Base58
    digit loop has the digit array itself as fuel, and running out is the panic
    of the code; descriptor lines and fields have the text's length; fee iterations have the code's own bound of passes.

    ** Not modelled

    Platform bindings (FFI, WASM, files, clocks), the network client
    ([network], [chain]), random numbers, the host's review
    of JSON documents, the
    covenant and multisig transaction builders, the zero-knowledge provers and the text formatting of reports:
    each is listed as a component of its own with its reason. Unit tests and
    examples are not part of the program. *)

From stdpp Require Export base list numbers gmap strings sorting.
From Stdlib Require Export ZArith Lia Bool.

#[export] Set Default Goal Selector "!".

Global Open Scope Z_scope.

(** ** Results: Rust's [Result<A, E>] *)

Inductive result (A E : Type) : Type :=
  | Ok (a : A)
  | Err (e : E).
Arguments Ok {A E} a.
Arguments Err {A E} e.

#[export] Instance result_eq_dec `{EqDecision A, EqDecision E} : EqDecision (result A E).
Proof. solve_decision. Defined.

(** ** The state-and-error monad

    A computation over a mutable state [S] that may stop with an error [E].
    The state survives an error, as every [&mut] argument does in Rust: a
    caller that receives [Err] still owns whatever the callee changed. *)

Definition Comp (S E A : Type) : Type := S -> result A E * S.

Definition ret {S E A} (a : A) : Comp S E A := fun s => (Ok a, s).
Definition throw {S E A} (e : E) : Comp S E A := fun s => (Err e, s).
Definition bind {S E A B} (m : Comp S E A) (k : A -> Comp S E B) : Comp S E B :=
  fun s => match m s with
           | (Ok a, s') => k a s'
           | (Err e, s') => (Err e, s')
           end.
Definition of_result {S E A} (r : result A E) : Comp S E A := fun s => (r, s).
Definition map_err {S E E' A} (f : E -> E') (m : Comp S E A) : Comp S E' A :=
  fun s => match m s with
           | (Ok a, s') => (Ok a, s')
           | (Err e, s') => (Err (f e), s')
           end.
Definition reject_if {S E} (b : bool) (e : E) : Comp S E unit :=
  if b then throw e else ret tt.

(** [for item in items { body(item)?; }] *)
Fixpoint for_each {S E A} (l : list A) (body : A -> Comp S E unit) : Comp S E unit :=
  match l with
  | [] => ret tt
  | x :: l' => bind (body x) (fun _ => for_each l' body)
  end.

Declare Scope comp_scope.
Delimit Scope comp_scope with comp.
Notation "'let*' x ':=' m 'in' k" := (bind m (fun x => k))
  (at level 10, x pattern, m at level 100, k at level 200) : comp_scope.
Global Open Scope comp_scope.

(** The stateless part of the same language: [r?] on a [Result]. *)
Definition rbind {A B E} (r : result A E) (k : A -> result B E) : result B E :=
  match r with Ok a => k a | Err e => Err e end.
Notation "'let?' x ':=' m 'in' k" := (rbind m (fun x => k))
  (at level 10, x pattern, m at level 100, k at level 200) : comp_scope.

Definition ok_or {A E} (o : option A) (e : E) : result A E :=
  match o with Some a => Ok a | None => Err e end.
Definition rmap_err {A E E'} (f : E -> E') (r : result A E) : result A E' :=
  match r with Ok a => Ok a | Err e => Err (f e) end.
Definition is_ok {A E} (r : result A E) : bool :=
  match r with Ok _ => true | Err _ => false end.

(** [iter.try_fold(init, step)] *)
Fixpoint try_fold {A B E} (f : B -> A -> result B E) (acc : B) (l : list A) : result B E :=
  match l with
  | [] => Ok acc
  | x :: l' => rbind (f acc x) (fun acc' => try_fold f acc' l')
  end.

Section comp_lemmas.
Context {S E : Type}.
Implicit Types s : S.

Lemma bind_Ok_inv {A B} (m : Comp S E A) (k : A -> Comp S E B) s b s'' :
  bind m k s = (Ok b, s'') -> exists a s', m s = (Ok a, s') /\ k a s' = (Ok b, s'').
Proof. unfold bind. destruct (m s) as [[a|e] s']; naive_solver. Qed.

Lemma bind_step {A B} (m : Comp S E A) (k : A -> Comp S E B) s a s' :
  m s = (Ok a, s') -> bind m k s = k a s'.
Proof. unfold bind. by intros ->. Qed.

Lemma bind_fail {A B} (m : Comp S E A) (k : A -> Comp S E B) s e s' :
  m s = (Err e, s') -> bind m k s = (Err e, s').
Proof. unfold bind. by intros ->. Qed.

Lemma reject_if_Ok_inv b (e : E) s u s' :
  reject_if b e s = (Ok u, s') -> b = false /\ s' = s.
Proof. unfold reject_if. destruct b; cbv [throw ret]; naive_solver. Qed.

Lemma ret_Ok_inv {A} (a a' : A) s s' :
  @ret S E A a s = (Ok a', s') -> a' = a /\ s' = s.
Proof. cbv [ret]. naive_solver. Qed.

Lemma bind_assoc {A B C} (m : Comp S E A) (f : A -> Comp S E B) (g : B -> Comp S E C) s :
  bind (bind m f) g s = bind m (fun a => bind (f a) g) s.
Proof. unfold bind. by destruct (m s) as [[]]. Qed.

Lemma for_each_app {A} (l1 l2 : list A) (body : A -> Comp S E unit) s :
  for_each (l1 ++ l2) body s = bind (for_each l1 body) (fun _ => for_each l2 body) s.
Proof.
  revert s. induction l1 as [|x l1 IH]; intros s; [done|].
  cbn [app for_each]. rewrite bind_assoc.
  destruct (body x s) as [[u|e] s'] eqn:Hx.
  - rewrite !(bind_step _ _ _ _ _ Hx). apply IH.
  - by rewrite !(bind_fail _ _ _ _ _ Hx).
Qed.
Lemma for_each_cons {A} (x : A) l (body : A -> Comp S E unit) s :
  for_each (x :: l) body s =
    match body x s with
    | (Ok _, s') => for_each l body s'
    | (Err e, s') => (Err e, s')
    end.
Proof. cbn [for_each]. unfold bind. by destruct (body x s) as [[]]. Qed.
End comp_lemmas.

Lemma rbind_Ok_inv {A B E} (r : result A E) (k : A -> result B E) b :
  rbind r k = Ok b -> exists a, r = Ok a /\ k a = Ok b.
Proof. destruct r; naive_solver. Qed.

Lemma ok_or_Ok {A E} (o : option A) (e : E) a : ok_or o e = Ok a <-> o = Some a.
Proof. destruct o; naive_solver. Qed.

Lemma try_fold_app {A B E} (f : B -> A -> result B E) acc l1 l2 :
  try_fold f acc (l1 ++ l2) = rbind (try_fold f acc l1) (fun acc' => try_fold f acc' l2).
Proof.
  revert acc. induction l1 as [|x l1 IH]; intros acc; [done|].
  cbn. destruct (f acc x); cbn; auto.
Qed.

(** Repeatedly split the successful runs of a computation in the context. *)
Ltac comp_inv :=
  repeat match goal with
  | H : bind _ _ _ = (Ok _, _) |- _ => apply bind_Ok_inv in H as (? & ? & ? & ?)
  | H : reject_if _ _ _ = (Ok _, _) |- _ => apply reject_if_Ok_inv in H as [? ?]
  | H : ret _ _ = (Ok _, _) |- _ => apply ret_Ok_inv in H as [? ?]
  | H : throw _ _ = (Ok _, _) |- _ => discriminate H
  | H : rbind _ _ = Ok _ |- _ => apply rbind_Ok_inv in H as (? & ? & ?)
  | H : ok_or _ _ = Ok _ |- _ => apply ok_or_Ok in H
  | H : Ok _ = Ok _ |- _ => injection H as H
  | H : Err _ = Ok _ |- _ => discriminate H
  | H : (_, _) = (_, _) |- _ => injection H as H
  end; try subst.

(** ** Machine integers

    Unsigned integers are kept as [Z] with their ranges written out. [usize]
    is the 64-bit one of the native targets. *)

Definition u8_max : Z := 255.
Definition u16_max : Z := 65535.
Definition u32_max : Z := 4294967295.
Definition u64_max : Z := 18446744073709551615.
Definition usize_max : Z := u64_max.

Definition byte_ok (b : Z) : Prop := 0 <= b < 256.
Definition u16_ok (z : Z) : Prop := 0 <= z < 65536.
Definition u32_ok (z : Z) : Prop := 0 <= z < 4294967296.
Definition u64_ok (z : Z) : Prop := 0 <= z < 18446744073709551616.
Abbreviation bytes_ok := (Forall byte_ok).

#[export] Instance byte_ok_dec b : Decision (byte_ok b).
Proof. unfold byte_ok. apply _. Defined.
#[export] Instance u16_ok_dec z : Decision (u16_ok z).
Proof. unfold u16_ok. apply _. Defined.
#[export] Instance u32_ok_dec z : Decision (u32_ok z).
Proof. unfold u32_ok. apply _. Defined.
#[export] Instance u64_ok_dec z : Decision (u64_ok z).
Proof. unfold u64_ok. apply _. Defined.

(** Prove a closed decidable proposition by evaluating its decision. *)
Ltac by_decide := apply (bool_decide_unpack _); vm_compute; exact I.

(** The range test behind every [checked_*] operation on [u64]/[usize]. *)
Definition checked_u64 (z : Z) : option Z :=
  if (0 <=? z) && (z <=? u64_max) then Some z else None.
Definition checked_add (a b : Z) : option Z := checked_u64 (a + b).
Definition checked_sub (a b : Z) : option Z := checked_u64 (a - b).
Definition checked_mul (a b : Z) : option Z := checked_u64 (a * b).
Definition saturating_add (a b : Z) : Z := Z.min u64_max (a + b).
Definition saturating_sub (a b : Z) : Z := Z.max 0 (a - b).
Definition saturating_mul (a b : Z) : Z := Z.min u64_max (a * b).
(** [u64::div_ceil] (the divisors in the code are non-zero constants). *)
Definition div_ceil (a b : Z) : Z := (a + b - 1) / b.

Lemma checked_u64_Some z r : checked_u64 z = Some r <-> r = z /\ u64_ok z.
Proof.
  unfold checked_u64, u64_ok, u64_max.
  destruct (Z.leb_spec 0 z), (Z.leb_spec z 18446744073709551615); naive_solver lia.
Qed.

Lemma checked_u64_None z : checked_u64 z = None <-> ~ u64_ok z.
Proof.
  unfold checked_u64, u64_ok, u64_max.
  destruct (Z.leb_spec 0 z), (Z.leb_spec z 18446744073709551615); naive_solver lia.
Qed.

Lemma checked_u64_id z : u64_ok z -> checked_u64 z = Some z.
Proof. intros. by apply checked_u64_Some. Qed.

Lemma bytes_ok_app l1 l2 : bytes_ok (l1 ++ l2) <-> bytes_ok l1 /\ bytes_ok l2.
Proof. apply Forall_app. Qed.
Lemma bytes_ok_cons b l : bytes_ok (b :: l) <-> byte_ok b /\ bytes_ok l.
Proof. apply Forall_cons. Qed.

(** Turn the outcome of checked arithmetic into ranges. *)
Ltac checked_inv :=
  repeat match goal with
  | H : checked_add _ _ = Some _ |- _ => unfold checked_add in H; apply checked_u64_Some in H as [? ?]
  | H : checked_sub _ _ = Some _ |- _ => unfold checked_sub in H; apply checked_u64_Some in H as [? ?]
  | H : checked_mul _ _ = Some _ |- _ => unfold checked_mul in H; apply checked_u64_Some in H as [? ?]
  | H : checked_u64 _ = Some _ |- _ => apply checked_u64_Some in H as [? ?]
  | H : checked_add _ _ = None |- _ => unfold checked_add in H; apply checked_u64_None in H
  | H : checked_sub _ _ = None |- _ => unfold checked_sub in H; apply checked_u64_None in H
  | H : checked_mul _ _ = None |- _ => unfold checked_mul in H; apply checked_u64_None in H
  end.

(** ** Slices

    Lengths and offsets are [Z]; [slice] is Rust's [data.get(i..j)] and
    [get_at] is [data.get(i)]. *)

Definition blen {A} (l : list A) : Z := Z.of_nat (length l).
Definition slice {A} (l : list A) (i j : Z) : option (list A) :=
  if (0 <=? i) && (i <=? j) && (j <=? blen l)
  then Some (take (Z.to_nat (j - i)) (drop (Z.to_nat i) l))
  else None.
Definition get_at {A} (l : list A) (i : Z) : option A :=
  if 0 <=? i then l !! Z.to_nat i else None.

Lemma blen_nonneg {A} (l : list A) : 0 <= blen l.
Proof. unfold blen. lia. Qed.
Lemma blen_nil {A} : blen (@nil A) = 0.
Proof. done. Qed.
Lemma blen_cons {A} (x : A) l : blen (x :: l) = 1 + blen l.
Proof. unfold blen. cbn [length]. lia. Qed.
Lemma blen_app {A} (l1 l2 : list A) : blen (l1 ++ l2) = blen l1 + blen l2.
Proof. unfold blen. rewrite length_app. lia. Qed.
Lemma blen_length {A B} (l1 : list A) (l2 : list B) : blen l1 = blen l2 -> length l1 = length l2.
Proof. unfold blen. lia. Qed.
Create Rewrite HintDb blen.
#[export] Hint Rewrite @blen_nil @blen_cons @blen_app : blen.

(** A slice that covers exactly the middle of a three-part list. *)
Lemma slice_app {A} (l1 l2 l3 : list A) i j :
  i = blen l1 -> j = blen l1 + blen l2 -> slice (l1 ++ l2 ++ l3) i j = Some l2.
Proof.
  intros -> ->. unfold slice. rewrite !blen_app.
  pose proof (blen_nonneg l1). pose proof (blen_nonneg l2). pose proof (blen_nonneg l3).
  rewrite !(proj2 (Z.leb_le _ _)) by lia. cbn.
  replace (Z.to_nat (blen l1)) with (length l1) by (unfold blen; lia).
  replace (Z.to_nat _) with (length l2) by (unfold blen; lia).
  by rewrite drop_app_length, take_app_length.
Qed.

(** Close an equation between lists that differ by re-association. *)
Ltac app_eq := repeat (rewrite <- app_assoc || cbn [app]); reflexivity.
(** Solve a length side condition. *)
Ltac len := autorewrite with blen; lia.

Lemma slice_split {A} (l l1 l2 l3 : list A) i j :
  l = l1 ++ l2 ++ l3 -> i = blen l1 -> j = blen l1 + blen l2 -> slice l i j = Some l2.
Proof. intros ->. apply slice_app. Qed.

Lemma get_at_split {A} (l l1 l2 : list A) x i :
  l = l1 ++ x :: l2 -> i = blen l1 -> get_at l i = Some x.
Proof.
  intros -> ->. unfold get_at. pose proof (blen_nonneg l1). rewrite (proj2 (Z.leb_le _ _)) by lia.
  replace (Z.to_nat (blen l1)) with (length l1) by (unfold blen; lia).
  by rewrite list_lookup_middle.
Qed.

Lemma slice_Some {A} (l : list A) i j l2 :
  slice l i j = Some l2 ->
  exists l1 l3, l = l1 ++ l2 ++ l3 /\ blen l1 = i /\ j = i + blen l2.
Proof.
  unfold slice. destruct (Z.leb_spec 0 i), (Z.leb_spec i j), (Z.leb_spec j (blen l)); cbn; try done.
  intros [= <-]. exists (take (Z.to_nat i) l), (drop (Z.to_nat (j - i)) (drop (Z.to_nat i) l)).
  rewrite take_drop, take_drop. unfold blen in *.
  rewrite !length_take, length_drop. split_and!; [done|lia|lia].
Qed.

Lemma slice_None {A} (l : list A) i j :
  0 <= i <= j -> slice l i j = None -> blen l < j.
Proof.
  unfold slice. intros ?.
  destruct (Z.leb_spec 0 i), (Z.leb_spec i j), (Z.leb_spec j (blen l)); cbn; try done; lia.
Qed.

Lemma get_at_Some {A} (l : list A) i x :
  get_at l i = Some x -> exists l1 l2, l = l1 ++ x :: l2 /\ blen l1 = i.
Proof.
  unfold get_at. destruct (Z.leb_spec 0 i); [|done]. intros Hl.
  exists (take (Z.to_nat i) l), (drop (S (Z.to_nat i)) l).
  pose proof (lookup_lt_Some _ _ _ Hl). split.
  - by rewrite take_drop_middle.
  - unfold blen. rewrite length_take. lia.
Qed.

Lemma get_at_lt {A} (l : list A) i : 0 <= i < blen l -> exists x, get_at l i = Some x.
Proof. intros Hi. unfold get_at. rewrite (proj2 (Z.leb_le 0 i)) by lia. apply lookup_lt_is_Some. unfold blen in Hi. lia. Qed.

(** [slice::split_last] and [as_chunks::<N>().0]: the full chunks of [n]. *)
Definition split_last {A} (l : list A) : option (A * list A) :=
  match reverse l with
  | [] => None
  | x :: l' => Some (x, reverse l')
  end.

Fixpoint chunks_of {A} (fuel n : nat) (l : list A) : list (list A) :=
  match fuel with
  | O => []
  | S fuel' =>
      if (length l <? n)%nat then [] else take n l :: chunks_of fuel' n (drop n l)
  end.
Definition as_chunks {A} (n : nat) (l : list A) : list (list A) := chunks_of (length l) n l.

Lemma split_last_snoc {A} (l : list A) x : split_last (l ++ [x]) = Some (x, l).
Proof. unfold split_last. by rewrite reverse_snoc, reverse_involutive. Qed.

Lemma split_last_Some {A} (l : list A) x l' : split_last l = Some (x, l') -> l = l' ++ [x].
Proof.
  destruct l as [|y l _] using rev_ind; [done|]. rewrite split_last_snoc. by intros [= <- <-].
Qed.

Lemma chunks_of_concat {A} (ls : list (list A)) n fuel :
  (0 < n)%nat -> Forall (fun l => length l = n) ls -> (length (concat ls) <= fuel)%nat ->
  chunks_of fuel n (concat ls) = ls.
Proof.
  intros Hn Hls. revert fuel. induction Hls as [|l ls Hl _ IH]; intros fuel Hf.
  - destruct fuel; [done|]. cbn. by destruct n; [lia|].
  - cbn in *. rewrite length_app in Hf. destruct fuel as [|fuel]; [lia|]. cbn [chunks_of].
    rewrite (proj2 (Nat.ltb_ge _ _)) by (rewrite length_app; lia).
    subst n. rewrite take_app_length, drop_app_length. f_equal. apply IH. lia.
Qed.

Lemma as_chunks_concat {A} (ls : list (list A)) n :
  (0 < n)%nat -> Forall (fun l => length l = n) ls -> as_chunks n (concat ls) = ls.
Proof. intros. unfold as_chunks. by apply chunks_of_concat. Qed.

Lemma concat_chunks_of {A} (l : list A) n fuel k :
  (0 < n)%nat -> length l = (k * n)%nat -> (length l <= fuel)%nat ->
  concat (chunks_of fuel n l) = l /\ length (chunks_of fuel n l) = k /\
  Forall (fun c => length c = n) (chunks_of fuel n l).
Proof.
  intros Hn. revert l fuel. induction k as [|k IH]; intros l fuel Hl Hf.
  - destruct l; [|cbn in Hl; lia]. destruct fuel; [done|]. cbn. by destruct n; [lia|].
  - destruct fuel as [|fuel]; [lia|]. cbn [chunks_of].
    rewrite (proj2 (Nat.ltb_ge _ _)) by lia.
    destruct (IH (drop n l) fuel) as (Hc & Hlen & Hall); [rewrite length_drop; lia..|].
    cbn. rewrite Hc, take_drop, Hlen. split_and!; [done|done|].
    constructor; [rewrite length_take; lia | done].
Qed.

Lemma concat_as_chunks {A} (l : list A) n k :
  (0 < n)%nat -> length l = (k * n)%nat ->
  concat (as_chunks n l) = l /\ length (as_chunks n l) = k /\
  Forall (fun c => length c = n) (as_chunks n l).
Proof. intros. by apply concat_chunks_of. Qed.

(** Decide the integer comparisons whose outcome follows from the context. *)
Ltac decide_tests :=
  repeat (match goal with
  | |- context [Z.leb ?a ?b] =>
      first [rewrite (proj2 (Z.leb_le a b)) by lia | rewrite (proj2 (Z.leb_gt a b)) by lia]
  | |- context [Z.ltb ?a ?b] =>
      first [rewrite (proj2 (Z.ltb_lt a b)) by lia | rewrite (proj2 (Z.ltb_ge a b)) by lia]
  | |- context [Z.eqb ?a ?b] =>
      first [rewrite (proj2 (Z.eqb_eq a b)) by lia | rewrite (proj2 (Z.eqb_neq a b)) by lia]
  | H : context [Z.leb ?a ?b] |- _ =>
      first [rewrite (proj2 (Z.leb_le a b)) in H by lia | rewrite (proj2 (Z.leb_gt a b)) in H by lia]
  | H : context [Z.ltb ?a ?b] |- _ =>
      first [rewrite (proj2 (Z.ltb_lt a b)) in H by lia | rewrite (proj2 (Z.ltb_ge a b)) in H by lia]
  | H : context [Z.eqb ?a ?b] |- _ =>
      first [rewrite (proj2 (Z.eqb_eq a b)) in H by lia | rewrite (proj2 (Z.eqb_neq a b)) in H by lia]
  end; cbn [andb orb negb] in *).

(** ** Little-endian integers: [to_le_bytes] and [from_le_bytes] *)

Fixpoint le_bytes (n : nat) (z : Z) : list Z :=
  match n with
  | O => []
  | S n' => z mod 256 :: le_bytes n' (z / 256)
  end.
Fixpoint le_val (l : list Z) : Z :=
  match l with
  | [] => 0
  | b :: l' => b + 256 * le_val l'
  end.

Lemma length_le_bytes n z : length (le_bytes n z) = n.
Proof. revert z. induction n; intros; cbn; auto. Qed.
Lemma blen_le_bytes n z : blen (le_bytes n z) = Z.of_nat n.
Proof. unfold blen. by rewrite length_le_bytes. Qed.
#[export] Hint Rewrite blen_le_bytes : blen.

Lemma le_bytes_ok n z : bytes_ok (le_bytes n z).
Proof.
  revert z. induction n; intros z; cbn; constructor; [|done].
  unfold byte_ok. pose proof (Z.mod_pos_bound z 256). lia.
Qed.

Lemma le_val_bound l : bytes_ok l -> 0 <= le_val l < 256 ^ blen l.
Proof.
  induction 1 as [|b l Hb _ IH]; [done|]. cbn [le_val].
  rewrite blen_cons, Z.pow_add_r, Z.pow_1_r by (pose proof (blen_nonneg l); lia).
  unfold byte_ok in Hb. nia.
Qed.

Lemma le_val_le_bytes n z : 0 <= z < 256 ^ Z.of_nat n -> le_val (le_bytes n z) = z.
Proof.
  revert z. induction n as [|n IH]; intros z Hz; cbn [le_bytes le_val].
  - cbn in Hz. lia.
  - rewrite IH.
    + pose proof (Z.div_mod z 256). lia.
    + rewrite Nat2Z.inj_succ, Z.pow_succ_r in Hz by lia.
      split; [apply Z.div_pos; lia | apply Z.div_lt_upper_bound; lia].
Qed.

Lemma le_bytes_le_val l n : bytes_ok l -> length l = n -> le_bytes n (le_val l) = l.
Proof.
  intros Hl <-. induction Hl as [|b l Hb _ IH]; [done|]. cbn [le_val length le_bytes].
  unfold byte_ok in Hb. f_equal.
  - rewrite Z.mul_comm, Z.mod_add by lia. apply Z.mod_small. lia.
  - rewrite Z.mul_comm, Z.div_add, (Z.div_small b), Z.add_0_l by lia. done.
Qed.

Lemma le_bytes_inj n a b :
  0 <= a < 256 ^ Z.of_nat n -> 0 <= b < 256 ^ Z.of_nat n -> le_bytes n a = le_bytes n b -> a = b.
Proof. intros Ha Hb Heq. rewrite <- (le_val_le_bytes n a), <- (le_val_le_bytes n b) by done. by rewrite Heq. Qed.

(** Two equal concatenations whose heads are fixed-width numbers. *)
Lemma le_bytes_app_inj n a b (l1 l2 : list Z) :
  0 <= a < 256 ^ Z.of_nat n -> 0 <= b < 256 ^ Z.of_nat n ->
  le_bytes n a ++ l1 = le_bytes n b ++ l2 -> a = b /\ l1 = l2.
Proof.
  intros Ha Hb Heq. apply app_inj_1 in Heq as [Heq ->]; [|by rewrite !length_le_bytes].
  split; [by eapply le_bytes_inj|done].
Qed.

(** ** Text: a Rust [&str] is the list of its UTF-8 bytes *)

Definition str (s : string) : list Z :=
  map (fun c => Z.of_N (Ascii.N_of_ascii c)) (String.list_ascii_of_string s).

Definition list_Z_eqb (a b : list Z) : bool := bool_decide (a = b).

Lemma list_Z_eqb_eq a b : list_Z_eqb a b = true <-> a = b.
Proof. unfold list_Z_eqb. apply bool_decide_eq_true. Qed.

Lemma forallb_map {A B} (p : B -> bool) (f : A -> B) l : forallb p (map f l) = forallb (fun x => p (f x)) l.
Proof. induction l as [|x l IH]; cbn; [done | by rewrite IH]. Qed.

Lemma if_Ok_iff {A E} (b : bool) (a a' : A) (e : E) :
  (if b then Ok a else Err e) = Ok a' <-> b = true /\ a' = a.
Proof. destruct b; split; intros H; [injection H as <-; auto | by destruct H as [_ ->] | done | by destruct H]. Qed.

(** [iter.map(f).collect::<Result<Vec<_>, _>>()] *)
Fixpoint try_map {A B E} (f : A -> result B E) (l : list A) : result (list B) E :=
  match l with
  | [] => Ok []
  | x :: l' => rbind (f x) (fun y => rbind (try_map f l') (fun ys => Ok (y :: ys)))
  end.

Lemma try_map_Ok {A B E} (f : A -> result B E) l ys :
  try_map f l = Ok ys <-> Forall2 (fun x y => f x = Ok y) l ys.
Proof.
  revert ys. induction l as [|x l IH]; intros ys; cbn [try_map].
  - split; [intros [= <-]; constructor | by inversion 1].
  - split.
    + intros H. apply rbind_Ok_inv in H as (y & Hy & H). apply rbind_Ok_inv in H as (ys' & Hys & H).
      injection H as <-. constructor; [done | by apply IH].
    + inversion 1 as [|? y ? ys' Hy Hys]; subst. rewrite Hy. cbn. by rewrite (proj2 (IH ys') Hys).
Qed.

(** ** Checked totals

    Most totals in the code are a [try_fold] whose step adds one item with
    [checked_add]; these lemmas turn such a fold into the plain sum. *)

Definition sum_by {A} (g : A -> Z) (l : list A) : Z := foldr (fun x total => g x + total) 0 l.

Section sum_by.
Context {A : Type}.
Implicit Types (g : A -> Z) (l : list A).

Lemma sum_by_nil g : sum_by g [] = 0.
Proof. done. Qed.
Lemma sum_by_cons g x l : sum_by g (x :: l) = g x + sum_by g l.
Proof. done. Qed.

Lemma sum_by_app g l1 l2 : sum_by g (l1 ++ l2) = sum_by g l1 + sum_by g l2.
Proof. induction l1 as [|x l1 IH]; cbn; [done|]. unfold sum_by in *. lia. Qed.

Lemma sum_by_nonneg g l : Forall (fun x => 0 <= g x) l -> 0 <= sum_by g l.
Proof. induction 1; cbn; unfold sum_by in *; lia. Qed.

Lemma sum_by_Permutation g l1 l2 : l1 ≡ₚ l2 -> sum_by g l1 = sum_by g l2.
Proof. induction 1; cbn; unfold sum_by in *; lia. Qed.

Lemma sum_by_map {B} (f : B -> A) g (l : list B) : sum_by g (map f l) = sum_by (fun x => g (f x)) l.
Proof. induction l; cbn; unfold sum_by in *; lia. Qed.

Lemma sum_by_le g h l : Forall (fun x => g x <= h x) l -> sum_by g l <= sum_by h l.
Proof. induction 1; cbn; unfold sum_by in *; lia. Qed.

Lemma sum_by_const c l : sum_by (fun _ => c) l = c * blen l.
Proof.
  induction l as [|x l IH]; [unfold blen; cbn; lia|].
  rewrite sum_by_cons, blen_cons, IH. lia.
Qed.

Context {E : Type} (step : Z -> A -> result Z E).

Lemma try_fold_sum_Ok g l acc r :
  (forall t x t', step t x = Ok t' -> t' = t + g x /\ u64_ok t') ->
  try_fold step acc l = Ok r -> r = acc + sum_by g l /\ (u64_ok acc -> u64_ok r).
Proof.
  intros Hstep. revert acc. induction l as [|x l IH]; cbn [try_fold]; intros acc.
  - intros [= <-]. rewrite sum_by_nil. split; [lia | done].
  - intros H. apply rbind_Ok_inv in H as (t & Ht & H). apply Hstep in Ht as [-> Ht].
    apply IH in H as [-> Hr]. rewrite sum_by_cons. split; [lia | auto].
Qed.

Lemma try_fold_sum_total g l acc :
  (forall t x, x ∈ l -> 0 <= t -> u64_ok (t + g x) -> step t x = Ok (t + g x)) ->
  Forall (fun x => 0 <= g x) l -> 0 <= acc -> acc + sum_by g l <= u64_max ->
  try_fold step acc l = Ok (acc + sum_by g l).
Proof.
  intros Hstep Hg. revert acc. induction Hg as [|x l Hx Hl IH]; intros acc Hacc Hsum.
  - cbn [try_fold]. rewrite sum_by_nil. f_equal. lia.
  - cbn [try_fold]. rewrite sum_by_cons in *. pose proof (sum_by_nonneg g l Hl).
    rewrite Hstep; [|by left|done|unfold u64_ok, u64_max in *; lia]. cbn [rbind].
    rewrite IH; [f_equal; lia | intros; apply Hstep; [by right|done..] | lia..].
Qed.
End sum_by.

Lemma checked_add_Ok {E} a b (e : E) r : ok_or (checked_add a b) e = Ok r -> r = a + b /\ u64_ok r.
Proof. intros H. apply ok_or_Ok in H. by checked_inv; subst. Qed.

Lemma checked_add_total {E} a b (e : E) : u64_ok (a + b) -> ok_or (checked_add a b) e = Ok (a + b).
Proof. intros H. apply ok_or_Ok. by apply checked_u64_id. Qed.

(** A concrete function for the hash parameters. *)
Definition toy_hash (bytes : list Z) : list Z := take 32 (bytes ++ replicate 32 0).
Lemma toy_hash_size bytes : blen (toy_hash bytes) = 32.
Proof. unfold toy_hash, blen. rewrite length_take, length_app, length_replicate. lia. Qed.

(** Two different messages of two computations with one digest. *)
Definition collision_between (hash : list Z -> list Z) (messages1 messages2 : list (list Z)) : Prop :=
  exists x y, x ∈ messages1 /\ y ∈ messages2 /\ x <> y /\ hash x = hash y.

(** A fixed-size byte array [[u8; n]]. *)
Definition bytes_of (n : Z) (l : list Z) : Prop := bytes_ok l /\ blen l = n.
#[export] Instance bytes_of_dec n l : Decision (bytes_of n l).
Proof. unfold bytes_of. apply _. Defined.

Lemma bytes_of_replicate n b : byte_ok b -> bytes_of (Z.of_nat n) (replicate n b).
Proof. intros Hb. split; [by apply Forall_replicate|]. unfold blen. by rewrite length_replicate. Qed.
