(* ===== verification/Bytes.v ===== *)
(** * Byte-level primitives ([src/src/primitives])

  Hexadecimal text, constant-time comparison, the raw QR payload frame,
  canonical decimal text for [u64] and the network identifiers. *)

From S2P Require Import Prelude.

(** ** [primitives/bytes.rs] *)

Module Hex.

Definition decode_hex_nibble (value : Z) : option Z :=
  if (48 <=? value) && (value <=? 57) then Some (value - 48)
  else if (97 <=? value) && (value <=? 102) then Some (value - 97 + 10)
  else if (65 <=? value) && (value <=? 70) then Some (value - 65 + 10)
  else None.

Definition decode_lower_hex_nibble (value : Z) : option Z :=
  if (48 <=? value) && (value <=? 57) then Some (value - 48)
  else if (97 <=? value) && (value <=? 102) then Some (value - 97 + 10)
  else None.

Definition strict_forward_progress (before_remaining after_remaining : Z) : bool :=
  after_remaining <? before_remaining.

Definition DIGITS : list Z := str "0123456789abcdef".
Definition digit (nibble : Z) : Z := default 0 (DIGITS !! Z.to_nat nibble).

(** The body of the loop of [encode_lower_hex]: two digits per byte. *)
Fixpoint write_digits (index : nat) (source destination : list Z) : list Z :=
  match source with
  | [] => destination
  | value :: source' =>
      write_digits (S index) source'
        (<[(2 * index + 1)%nat := digit (Z.land value 15)]>
           (<[(2 * index)%nat := digit (Z.shiftr value 4)]> destination))
  end.

(** Returns the length written and the destination buffer afterwards. *)
Definition encode_lower_hex (source destination : list Z) : option Z * list Z :=
  match checked_mul (blen source) 2 with
  | None => (None, destination)
  | Some required =>
      if blen destination <? required then (None, destination)
      else (Some required, write_digits 0 source destination)
  end.

(** The loop of [decode_hex_with]; an invalid digit stops it with the bytes
    already written left in the destination. *)
Fixpoint read_pairs (nibble : Z -> option Z) (index : nat) (source destination : list Z)
  : option unit * list Z :=
  match source with
  | high :: low :: source' =>
      match nibble high, nibble low with
      | Some h, Some l =>
          read_pairs nibble (S index) source'
            (<[index := (Z.shiftl h 4 mod 256 + l) mod 256]> destination)
      | _, _ => (None, destination)
      end
  | _ => (Some tt, destination)
  end.

Definition decode_hex_with (source destination : list Z) (nibble : Z -> option Z)
  : option Z * list Z :=
  if negb (Z.land (blen source) 1 =? 0) then (None, destination)
  else
    let required := blen source / 2 in
    if blen destination <? required then (None, destination)
    else match read_pairs nibble 0 source destination with
         | (Some _, destination') => (Some required, destination')
         | (None, destination') => (None, destination')
         end.

Definition decode_lower_hex (source destination : list Z) : option Z * list Z :=
  decode_hex_with source destination decode_lower_hex_nibble.
Definition decode_hex (source destination : list Z) : option Z * list Z :=
  decode_hex_with source destination decode_hex_nibble.

(** [difference |= left[i] ^ right[i]] over all positions. *)
Fixpoint difference (acc : Z) (left right : list Z) : Z :=
  match left, right with
  | l :: left', r :: right' => difference (Z.lor acc (Z.lxor l r)) left' right'
  | _, _ => acc
  end.
Definition constant_time_eq (left right : list Z) : bool :=
  if negb (blen left =? blen right) then false
  else difference 0 left right =? 0.

Definition volatile_clear {T} (values : list T) (zero : T) : list T :=
  map (fun _ => zero) values.
Definition zeroize_bytes (values : list Z) : list Z := volatile_clear values 0.
Definition zeroize_u16 (values : list Z) : list Z := volatile_clear values 0.

(** [hex::encode]: the lowercase text of a byte string. *)
Definition hex_text (source : list Z) : list Z :=
  flat_map (fun value => [digit (Z.shiftr value 4); digit (Z.land value 15)]) source.

End Hex.

(** ** [primitives/qr_payload.rs] *)

Module QrPayload.

Definition PAYLOAD_V1_RAW : Z := 1.
Definition MAX_RAW_LEN : Z := 2953.

Definition unwrap_v1_raw (blob : list Z) : option (list Z) :=
  match blob with
  | version :: body =>
      if (version =? PAYLOAD_V1_RAW) && negb (bool_decide (body = [])) then Some body else None
  | [] => None
  end.

Definition wrap_v1_raw (data out : list Z) : option Z * list Z :=
  if bool_decide (data = []) || (MAX_RAW_LEN <? blen data) then (None, out)
  else
    let needed := blen data + 1 in
    if blen out <? needed then (None, out)
    else (Some needed, (PAYLOAD_V1_RAW :: data) ++ drop (Z.to_nat needed) out).

End QrPayload.

(** [data.split(|byte| byte == separator)] *)
Fixpoint split_byte (separator : Z) (data : list Z) : list (list Z) :=
  match data with
  | [] => [[]]
  | byte :: data =>
      if byte =? separator then [] :: split_byte separator data
      else match split_byte separator data with
           | part :: parts => (byte :: part) :: parts
           | [] => [[byte]]
           end
  end.

(** ** [primitives/serialization/decimal_u64.rs] *)

Module Decimal.

Definition is_ascii_digit (byte : Z) : bool := (48 <=? byte) && (byte <=? 57).

(** [str::parse] of an unsigned type whose largest value is [max], on text
    that holds only ASCII digits. *)
Fixpoint parse_digits (max acc : Z) (text : list Z) : option Z :=
  match text with
  | [] => Some acc
  | byte :: text' =>
      let value := acc * 10 + (byte - 48) in
      if value <=? max then parse_digits max value text' else None
  end.

(** [to_string] of an unsigned integer; 20 digits hold every [u64]. *)
Fixpoint to_digits (fuel : nat) (value : Z) : list Z :=
  match fuel with
  | O => []
  | S fuel' =>
      if value <? 10 then [48 + value]
      else to_digits fuel' (value / 10) ++ [48 + value mod 10]
  end.
Definition to_string (value : Z) : list Z := to_digits 20 value.

Inductive DecimalError := ExpectedUnsignedDecimal | LeadingZeroes | ExceedsU64.

Definition parse_canonical_decimal (text : list Z) : result Z DecimalError :=
  if bool_decide (text = []) || negb (forallb is_ascii_digit text)
  then Err ExpectedUnsignedDecimal
  else if (1 <? blen text) && (default 0 (head text) =? 48)
  then Err LeadingZeroes
  else ok_or (parse_digits u64_max 0 text) ExceedsU64.

(** The JSON string written for a [u64] and read back. *)
Definition serialize (value : Z) : list Z := to_string value.
Definition deserialize (text : list Z) : result Z DecimalError := parse_canonical_decimal text.

(** [decimal_opt_u64]: [None] is the JSON null. *)
Definition serialize_opt (value : option Z) : option (list Z) := to_string <$> value.
Definition deserialize_opt (value : option (list Z)) : result (option Z) DecimalError :=
  match value with
  | None => Ok None
  | Some text =>
      match parse_canonical_decimal text with
      | Ok v => Ok (Some v)
      | Err e => Err e
      end
  end.

End Decimal.

(** * Theorems *)

Import Hex QrPayload Decimal.

(** ** Hexadecimal text *)

Definition hex_digit_value (c : Z) : Z :=
  default 0 (decode_lower_hex_nibble c).

Lemma lower_hex_nibble_hex c v :
  decode_lower_hex_nibble c = Some v -> decode_hex_nibble c = Some v.
Proof. unfold decode_lower_hex_nibble, decode_hex_nibble. by repeat case_match. Qed.

Lemma hex_nibble_range c v : decode_hex_nibble c = Some v -> 0 <= v < 16.
Proof.
  unfold decode_hex_nibble. intros H.
  repeat case_match; simplify_eq; lia.
Qed.

(** A statement about the sixteen nibbles, checked one by one. *)
Lemma nibble_cases (P : Z -> Prop) n :
  0 <= n < 16 -> Forall P (map Z.of_nat (seq 0 16)) -> P n.
Proof.
  intros Hn Hall. rewrite List.Forall_forall in Hall. apply Hall.
  apply in_map_iff. exists (Z.to_nat n). split; [lia|]. apply in_seq. lia.
Qed.

Lemma decode_digit n : 0 <= n < 16 -> decode_lower_hex_nibble (digit n) = Some n.
Proof.
  intros Hn. apply (nibble_cases (fun n => decode_lower_hex_nibble (digit n) = Some n)); [done|].
  repeat constructor.
Qed.

Lemma digit_decode c v : decode_lower_hex_nibble c = Some v -> digit v = c.
Proof.
  intros H. pose proof (hex_nibble_range _ _ (lower_hex_nibble_hex _ _ H)) as Hv.
  assert (c = if v <? 10 then v + 48 else v + 87) as ->.
  { unfold decode_lower_hex_nibble in H.
    repeat case_match; simplify_eq; lia. }
  apply (nibble_cases (fun v => digit v = if v <? 10 then v + 48 else v + 87)); [done|].
  repeat constructor.
Qed.

Lemma byte_nibbles b : byte_ok b ->
  0 <= Z.shiftr b 4 < 16 /\ 0 <= Z.land b 15 < 16 /\
  (Z.shiftl (Z.shiftr b 4) 4 mod 256 + Z.land b 15) mod 256 = b.
Proof.
  unfold byte_ok. intros Hb.
  rewrite Z.shiftr_div_pow2, Z.shiftl_mul_pow2 by lia. change 15 with (Z.ones 4).
  rewrite Z.land_ones by lia. change (2 ^ 4) with 16.
  pose proof (Z_div_mod_eq_full b 16). pose proof (Z.mod_pos_bound b 16 ltac:(lia)).
  rewrite (Z.mod_small (_ * 16)), (Z.mod_small (_ + _)) by lia. lia.
Qed.

Lemma length_hex_text l : length (hex_text l) = (2 * length l)%nat.
Proof. unfold hex_text. induction l; cbn in *; lia. Qed.

Lemma write_digits_spec source index pre mid post :
  length pre = (2 * index)%nat -> length mid = (2 * length source)%nat ->
  write_digits index source (pre ++ mid ++ post) = pre ++ hex_text source ++ post.
Proof.
  revert index pre mid. induction source as [|v source IH]; intros index pre mid Hpre Hmid.
  - destruct mid; [done | cbn in Hmid; lia].
  - destruct mid as [|x [|y mid]]; [cbn in Hmid; lia.. |]. cbn [write_digits].
    rewrite !insert_app_r_alt by lia.
    replace (2 * index - length pre)%nat with O by lia.
    replace (2 * index + 1 - length pre)%nat with 1%nat by lia.
    change (hex_text (v :: source)) with ([digit (Z.shiftr v 4); digit (Z.land v 15)] ++ hex_text source).
    cbn. set (ds := [digit (Z.shiftr v 4); digit (Z.land v 15)]).
    transitivity (write_digits (S index) source ((pre ++ ds) ++ mid ++ post)); [by rewrite <- app_assoc|].
    rewrite IH; [by rewrite <- app_assoc | rewrite length_app; cbn; lia | cbn in Hmid; lia].
Qed.

(** What [encode_lower_hex] does to its buffer. *)
Lemma encode_lower_hex_spec source destination :
  2 * blen source <= usize_max -> 2 * blen source <= blen destination ->
  encode_lower_hex source destination =
    (Some (2 * blen source), hex_text source ++ drop (2 * length source) destination).
Proof.
  intros Hmax Hlen. unfold encode_lower_hex, checked_mul.
  pose proof (blen_nonneg source).
  rewrite checked_u64_id by (unfold u64_ok, usize_max, u64_max in *; lia).
  rewrite (proj2 (Z.ltb_ge _ _)) by lia. f_equal; [f_equal; lia|].
  rewrite <- (take_drop (2 * length source) destination) at 1.
  apply (write_digits_spec source 0 []); [done|]. rewrite length_take. unfold blen in *. lia.
Qed.

Lemma read_pairs_spec nibble source bytes index pre mid post :
  (forall b, byte_ok b -> nibble (digit (Z.shiftr b 4)) = Some (Z.shiftr b 4) /\
                          nibble (digit (Z.land b 15)) = Some (Z.land b 15)) ->
  bytes_ok bytes -> source = hex_text bytes ->
  length pre = index -> length mid = length bytes ->
  read_pairs nibble index source (pre ++ mid ++ post) = (Some tt, pre ++ bytes ++ post).
Proof.
  intros Hn Hok -> Hpre Hmid. revert index pre mid Hpre Hmid.
  induction Hok as [|b bytes Hb _ IH]; intros index pre mid Hpre Hmid.
  - destruct mid; [done | cbn in Hmid; lia].
  - destruct mid as [|x mid]; [cbn in Hmid; lia|].
    change (hex_text (b :: bytes)) with (digit (Z.shiftr b 4) :: digit (Z.land b 15) :: hex_text bytes).
    cbn [read_pairs]. destruct (Hn b Hb) as [-> ->].
    destruct (byte_nibbles b Hb) as (_ & _ & ->).
    rewrite insert_app_r_alt by lia. replace (index - length pre)%nat with O by lia. cbn.
    transitivity (read_pairs nibble (S index) (hex_text bytes) ((pre ++ [b]) ++ mid ++ post)); [by rewrite <- app_assoc|].
    rewrite IH; [by rewrite <- app_assoc | rewrite length_app; cbn; lia | cbn in Hmid; lia].
Qed.

Lemma even_length_parity (n : nat) : Z.land (Z.of_nat (2 * n)) 1 = 0 /\ Z.of_nat (2 * n) / 2 = Z.of_nat n.
Proof.
  change 1 with (Z.ones 1). rewrite Z.land_ones by lia. change (2 ^ 1) with 2.
  replace (Z.of_nat (2 * n)) with (Z.of_nat n * 2) by lia.
  by rewrite Z.mod_mul, Z.div_mul by lia.
Qed.

Lemma decode_hex_with_spec nibble bytes destination :
  (forall c v, decode_lower_hex_nibble c = Some v -> nibble c = Some v) ->
  bytes_ok bytes -> blen bytes <= blen destination ->
  decode_hex_with (hex_text bytes) destination nibble =
    (Some (blen bytes), bytes ++ drop (length bytes) destination).
Proof.
  intros Hn Hok Hlen. unfold decode_hex_with, blen. rewrite length_hex_text.
  destruct (even_length_parity (length bytes)) as [-> ->].
  unfold blen in *. cbn. rewrite (proj2 (Z.ltb_ge _ _)) by lia.
  rewrite <- (take_drop (length bytes) destination) at 1.
  pose proof (read_pairs_spec nibble (hex_text bytes) bytes 0 [] (take (length bytes) destination)
                (drop (length bytes) destination)) as Hrun. cbn in Hrun. rewrite Hrun; try done.
  - intros b Hb. destruct (byte_nibbles b Hb) as (? & ? & _).
    split; apply Hn, decode_digit; done.
  - rewrite length_take. lia.
Qed.

(** Encoding bytes as lowercase hexadecimal and decoding the written
    prefix gives the bytes back, with either decoder and buffers of any
    sufficient size; nothing past the written prefix is touched. *)
Theorem hex_round_trip (source text_buffer byte_buffer : list Z) :
  bytes_ok source -> 2 * blen source <= usize_max ->
  2 * blen source <= blen text_buffer -> blen source <= blen byte_buffer ->
  exists text,
    encode_lower_hex source text_buffer =
      (Some (blen text), text ++ drop (length text) text_buffer) /\
    decode_lower_hex text byte_buffer =
      (Some (blen source), source ++ drop (length source) byte_buffer) /\
    decode_hex text byte_buffer =
      (Some (blen source), source ++ drop (length source) byte_buffer).
Proof.
  intros Hok Hmax Htext Hbytes. exists (hex_text source). split_and!.
  - rewrite encode_lower_hex_spec by done. unfold blen. rewrite length_hex_text.
    repeat f_equal. lia.
  - by apply decode_hex_with_spec.
  - apply decode_hex_with_spec; auto using lower_hex_nibble_hex.
Qed.

Lemma read_pairs_inv index source pre mid post out :
  length pre = index -> length source = (2 * length mid)%nat ->
  read_pairs decode_lower_hex_nibble index source (pre ++ mid ++ post) = (Some tt, out) ->
  exists bytes, out = pre ++ bytes ++ post /\ length bytes = length mid /\
    bytes_ok bytes /\ source = hex_text bytes.
Proof.
  revert index source pre. induction mid as [|x mid IH]; intros index source pre Hpre Hlen Hrun.
  - destruct source; [|cbn in Hlen; lia]. cbn in Hrun. simplify_eq. by exists [].
  - destruct source as [|h [|l source]]; [cbn in Hlen; lia..|]. cbn [read_pairs] in Hrun.
    destruct (decode_lower_hex_nibble h) as [vh|] eqn:Hh; [|done].
    destruct (decode_lower_hex_nibble l) as [vl|] eqn:Hl; [|done].
    rewrite insert_app_r_alt in Hrun by lia.
    replace (index - length pre)%nat with O in Hrun by lia. cbn in Hrun.
    set (b := (Z.shiftl vh 4 mod 256 + vl) mod 256) in *.
    replace (pre ++ b :: mid ++ post) with ((pre ++ [b]) ++ mid ++ post) in Hrun by (by rewrite <- app_assoc).
    apply IH in Hrun as (bytes & -> & Hbytes & Hok & ->); [|rewrite length_app; cbn; lia | cbn in Hlen; lia].
    pose proof (hex_nibble_range _ _ (lower_hex_nibble_hex _ _ Hh)).
    pose proof (hex_nibble_range _ _ (lower_hex_nibble_hex _ _ Hl)).
    assert (Hb : b = vh * 16 + vl).
    { unfold b. rewrite Z.shiftl_mul_pow2 by lia. change (2 ^ 4) with 16.
      rewrite (Z.mod_small (vh * 16)), Z.mod_small by lia. lia. }
    exists (b :: bytes). split_and!; [by rewrite <- app_assoc | cbn; lia | |].
    + constructor; [unfold byte_ok; lia | done].
    + change (hex_text (b :: bytes)) with (digit (Z.shiftr b 4) :: digit (Z.land b 15) :: hex_text bytes).
      rewrite Z.shiftr_div_pow2 by lia. change 15 with (Z.ones 4). rewrite Z.land_ones by lia.
      change (2 ^ 4) with 16. rewrite Hb.
      rewrite Z.div_add_l, Z.div_small, Z.add_0_r by lia.
      rewrite Z.add_comm, Z.mod_add, Z.mod_small by lia.
      by rewrite (digit_decode _ _ Hh), (digit_decode _ _ Hl).
Qed.

Lemma odd_length_parity (n : nat) : Z.land (Z.of_nat n) 1 = 0 -> n = (2 * Z.to_nat (Z.of_nat n / 2))%nat.
Proof.
  change 1 with (Z.ones 1). rewrite Z.land_ones by lia. change (2 ^ 1) with 2. intros.
  pose proof (Z_div_mod_eq_full (Z.of_nat n) 2). lia.
Qed.

(** The strict decoder accepts exactly the canonical texts: whatever
    [decode_lower_hex] accepts is the lowercase text of the bytes it wrote, so
    two different texts never decode to the same bytes. *)
Theorem decode_lower_hex_canonical (source destination out : list Z) (n : Z) :
  decode_lower_hex source destination = (Some n, out) ->
  exists bytes, out = bytes ++ drop (length bytes) destination /\ n = blen bytes /\
    bytes_ok bytes /\ source = hex_text bytes.
Proof.
  unfold decode_lower_hex, decode_hex_with.
  destruct (Z.eqb_spec (Z.land (blen source) 1) 0) as [Hodd|]; cbn; [|done].
  destruct (Z.ltb_spec (blen destination) (blen source / 2)) as [|Hlen]; [done|].
  pose proof (odd_length_parity _ Hodd) as Hhalf. unfold blen in Hhalf.
  set (k := Z.to_nat (Z.of_nat (length source) / 2)) in *.
  assert (Hk : blen source / 2 = Z.of_nat k).
  { unfold k, blen. rewrite Z2Nat.id; [done|]. apply Z.div_pos; lia. }
  rewrite <- (take_drop k destination) at 1.
  destruct (read_pairs _ 0 source _) as [[[]|] out'] eqn:Hrun; [|done]. intros [= <- <-].
  unfold blen in Hlen, Hk.
  assert (Ht : length (take k destination) = k) by (rewrite length_take; lia).
  apply (read_pairs_inv 0 source []) in Hrun as (bytes & -> & Hbytes & Hok & ->); [|done|lia].
  exists bytes. unfold blen in *. rewrite Hbytes, Ht. split_and!; [done|lia|done|done].
Qed.

(** ** Constant-time comparison *)

Lemma difference_zero acc left right :
  0 <= acc -> bytes_ok left -> bytes_ok right -> length left = length right ->
  difference acc left right = 0 <-> acc = 0 /\ left = right.
Proof.
  intros Hacc Hl. revert acc Hacc right. induction Hl as [|l left Hl0 _ IH]; intros acc Hacc [|r right] Hr Hlen;
    try done; cbn [difference].
  - naive_solver.
  - inversion Hr; subst. cbn in Hlen. unfold byte_ok in *.
    assert (0 <= Z.lxor l r) by (apply Z.lxor_nonneg; lia).
    rewrite IH by (try done; try lia; apply Z.lor_nonneg; lia).
    rewrite Z.lor_eq_0_iff, Z.lxor_eq_0_iff. naive_solver.
Qed.

(** [constant_time_eq] decides equality of byte strings. *)
Theorem constant_time_eq_spec (left right : list Z) :
  bytes_ok left -> bytes_ok right -> constant_time_eq left right = true <-> left = right.
Proof.
  intros Hl Hr. unfold constant_time_eq, blen.
  destruct (Z.eqb_spec (Z.of_nat (length left)) (Z.of_nat (length right))) as [Hlen|Hlen]; cbn.
  - rewrite Z.eqb_eq, difference_zero by (done || lia). naive_solver.
  - split; [done|]. by intros ->.
Qed.

(** ** The raw QR payload frame *)

(** A payload that [wrap_v1_raw] frames is returned unchanged by
    [unwrap_v1_raw] on the framed prefix of the buffer, and the bytes past
    that prefix are untouched. *)
Theorem qr_payload_round_trip (data out out' : list Z) (n : Z) :
  wrap_v1_raw data out = (Some n, out') ->
  unwrap_v1_raw (take (Z.to_nat n) out') = Some data /\
  drop (Z.to_nat n) out' = drop (Z.to_nat n) out /\ 1 <= blen data <= MAX_RAW_LEN.
Proof.
  unfold wrap_v1_raw. case_bool_decide as Hnil; [done|].
  destruct (Z.ltb_spec MAX_RAW_LEN (blen data)); cbn [orb]; [done|].
  destruct (Z.ltb_spec (blen out) (blen data + 1)); [done|]. intros [= <- <-].
  assert (Hn : Z.to_nat (blen data + 1) = length (PAYLOAD_V1_RAW :: data)) by (unfold blen; cbn [length]; lia).
  rewrite Hn, app_comm_cons, take_app_length, drop_app_length.
  split_and!; [|done| |done].
  - cbn [unwrap_v1_raw]. rewrite Z.eqb_refl, bool_decide_eq_false_2 by done. done.
  - unfold blen in *. destruct data; [done|]. cbn [length]. lia.
Qed.

(** ** Decimal text *)

Lemma parse_digits_snoc max acc l d :
  parse_digits max acc (l ++ [d]) =
  parse_digits max acc l ≫= (fun a => let v := a * 10 + (d - 48) in if v <=? max then Some v else None).
Proof.
  revert acc. induction l as [|x l IH]; intros acc; cbn; [done|].
  destruct (_ <=? max); [apply IH | done].
Qed.

Lemma parse_digits_le max acc l v : l <> [] -> parse_digits max acc l = Some v -> v <= max.
Proof.
  destruct l as [|d l _] using rev_ind; [congruence|]. intros _.
  rewrite parse_digits_snoc. destruct (parse_digits max acc l) as [a|]; cbn; [|done].
  destruct (Z.leb_spec (a * 10 + (d - 48)) max); naive_solver.
Qed.

Lemma is_ascii_digit_true b : is_ascii_digit b = true <-> 48 <= b <= 57.
Proof. unfold is_ascii_digit. rewrite andb_true_iff, !Z.leb_le. lia. Qed.

Lemma to_digits_ok fuel v :
  0 <= v < 10 ^ Z.of_nat fuel -> (0 < fuel)%nat ->
  forallb is_ascii_digit (to_digits fuel v) = true /\
  to_digits fuel v <> [] /\
  (1 < blen (to_digits fuel v) -> default 0 (head (to_digits fuel v)) <> 48) /\
  (0 < v -> default 0 (head (to_digits fuel v)) <> 48) /\
  forall max, v <= max -> parse_digits max 0 (to_digits fuel v) = Some v.
Proof.
  revert v. induction fuel as [|fuel IH]; intros v Hv Hf; [lia|]. cbn [to_digits].
  destruct (Z.ltb_spec v 10).
  - split_and!; cbn; try done; [|lia|intros max Hm].
    + rewrite andb_true_r. apply is_ascii_digit_true. lia.
    + rewrite (proj2 (Z.leb_le _ _)) by lia. f_equal. lia.
  - rewrite Nat2Z.inj_succ, Z.pow_succ_r in Hv by lia.
    assert (Hq : 0 < v / 10 < 10 ^ Z.of_nat fuel)
      by (split; [apply Z.div_str_pos; lia | apply Z.div_lt_upper_bound; lia]).
    destruct fuel as [|fuel]; [change (10 ^ Z.of_nat 0) with 1 in Hq; lia|].
    destruct (IH (v / 10)) as (Hd & Hne & _ & Hhd & Hp); [lia..|].
    destruct (to_digits (S fuel) (v / 10)) as [|x l] eqn:El; [done|]. clear El.
    pose proof (Z_div_mod_eq_full v 10). pose proof (Z.mod_pos_bound v 10 ltac:(lia)).
    split_and!; try done.
    + rewrite forallb_app, Hd. cbn. rewrite andb_true_r. apply is_ascii_digit_true. lia.
    + intros _. apply Hhd. lia.
    + intros _. apply Hhd. lia.
    + intros max Hm. rewrite parse_digits_snoc, Hp by lia. cbn.
      rewrite (proj2 (Z.leb_le _ _)) by lia. f_equal. lia.
Qed.

Lemma to_digits_parse max fuel l v :
  forallb is_ascii_digit l = true -> l <> [] ->
  (1 < blen l -> default 0 (head l) <> 48) ->
  parse_digits max 0 l = Some v -> 0 <= v /\ (default 0 (head l) <> 48 -> 0 < v) /\
  (v < 10 ^ Z.of_nat fuel -> (0 < fuel)%nat -> to_digits fuel v = l).
Proof.
  revert v fuel. induction l as [|d l IH] using rev_ind; intros v fuel Hd Hne Hz Hp; [done|].
  rewrite forallb_app in Hd. cbn in Hd. rewrite !andb_true_iff, is_ascii_digit_true in Hd.
  destruct Hd as [Hd [Hd0 _]]. rewrite parse_digits_snoc in Hp.
  destruct (parse_digits max 0 l) as [a|] eqn:Ha; [|done]. cbn in Hp.
  destruct (Z.leb_spec (a * 10 + (d - 48)) max); [|done]. injection Hp as <-.
  destruct l as [|x l].
  - cbn in Ha. injection Ha as <-. cbn in *. split_and!; [lia | lia |].
    intros Hv Hf. destruct fuel as [|fuel]; [lia|]. cbn [to_digits].
    rewrite (proj2 (Z.ltb_lt _ _)) by lia. repeat f_equal. lia.
  - assert (Hx : x <> 48).
    { apply Hz. rewrite blen_app, blen_cons, blen_cons, blen_nil. pose proof (blen_nonneg l). lia. }
    destruct (IH a (pred fuel)) as (H0 & Hpos & Heq); [done|done|by intros|done|].
    specialize (Hpos Hx). split_and!; [lia|lia|]. intros Hv Hf. destruct fuel as [|fuel]; [lia|].
    cbn [to_digits]. rewrite (proj2 (Z.ltb_ge _ _)) by lia.
    assert ((a * 10 + (d - 48)) / 10 = a) as ->.
    { rewrite Z.div_add_l, Z.div_small by lia. lia. }
    assert ((a * 10 + (d - 48)) mod 10 = d - 48) as ->.
    { rewrite Z.add_comm, Z.mod_add, Z.mod_small by lia. done. }
    rewrite Nat2Z.inj_succ, Z.pow_succ_r in Hv by lia.
    destruct fuel as [|fuel]; [change (10 ^ Z.of_nat 0) with 1 in Hv; lia|].
    cbn [pred] in Heq. rewrite Heq by lia. repeat f_equal. lia.
Qed.

(** Canonical decimal text is a bijection with [u64]: every [u64] is read
    back from the text written for it, and every accepted text is the one
    text written for its value (no leading zero, no sign, no overflow). *)
Theorem decimal_u64_bijection (value : Z) (text : list Z) :
  (u64_ok value /\ text = serialize value) <-> deserialize text = Ok value.
Proof.
  unfold serialize, deserialize, to_string, parse_canonical_decimal. split.
  - intros [Hv ->]. unfold u64_ok in Hv.
    destruct (to_digits_ok 20 value) as (Hd & Hne & Hz & _ & Hp); [cbn; lia|lia|].
    generalize dependent (to_digits 20 value). intros text Hd Hne Hz Hp.
    rewrite bool_decide_eq_false_2, Hd by done. cbn [negb orb].
    rewrite Hp by (unfold u64_max; lia).
    destruct (Z.ltb_spec 1 (blen text)) as [Hl|]; cbn [andb]; [|done].
    by rewrite (proj2 (Z.eqb_neq _ _) (Hz Hl)).
  - case_bool_decide as Hnil; [done|].
    destruct (forallb is_ascii_digit text) eqn:Hd; cbn [negb orb]; [|done].
    destruct (Z.ltb_spec 1 (blen text)), (Z.eqb_spec (default 0 (head text)) 48); cbn [andb];
      try done; intros Hp; apply ok_or_Ok in Hp;
      destruct (to_digits_parse u64_max 20 text value) as (H0 & _ & Heq); try done; try lia.
    all: pose proof (parse_digits_le _ _ _ _ Hnil Hp).
    all: unfold u64_max in *; split; [unfold u64_ok; lia | symmetry; apply Heq; [change (10 ^ Z.of_nat 20) with 100000000000000000000; lia | lia]].
Qed.

(** ** Instances of the theorems above *)

Lemma hex_round_trip_witness : exists text,
  Hex.encode_lower_hex [0; 171; 255] (replicate 8 9) = (Some (blen text), text ++ drop (length text) (replicate 8 9)) /\
  Hex.decode_lower_hex text [1; 2; 3; 4] = (Some 3, [0; 171; 255; 4]) /\
  Hex.decode_hex text [1; 2; 3; 4] = (Some 3, [0; 171; 255; 4]).
Proof. apply (hex_round_trip [0; 171; 255] (replicate 8 9) [1; 2; 3; 4]); [by_decide|by_decide|by_decide|by_decide]. Defined.

Lemma qr_payload_round_trip_witness :
  QrPayload.unwrap_v1_raw (take 4 (QrPayload.PAYLOAD_V1_RAW :: [7; 8; 9; 0; 0])) = Some [7; 8; 9] /\
  drop 4 (QrPayload.PAYLOAD_V1_RAW :: [7; 8; 9; 0; 0]) = drop 4 [0; 0; 0; 0; 0; 0] /\
  1 <= 3 <= QrPayload.MAX_RAW_LEN.
Proof. apply (qr_payload_round_trip [7; 8; 9] [0; 0; 0; 0; 0; 0] _ 4). reflexivity. Defined.

Lemma decode_lower_hex_canonical_witness : exists bytes,
  [171; 205] = bytes ++ drop (length bytes) [0; 0] /\ 2 = blen bytes /\ bytes_ok bytes /\ str "abcd" = Hex.hex_text bytes.
Proof. apply (decode_lower_hex_canonical (str "abcd") [0; 0]). reflexivity. Defined.
