(* ===== verification/NetworkId.v ===== *)
(** * Network identifiers

    [NetworkId] of [src/src/primitives/mod.rs] and [KaspaNetwork] of
    [src/src/primitives/address/mod.rs]: names, address prefixes and wire
    codes. Text is a list of UTF-8 bytes; error values name the messages. *)

From S2P Require Import Prelude Bytes.
Import Decimal.

Module NetworkId.

Inductive NetworkId := Mainnet | Testnet (suffix : Z) | Simnet | Devnet.

#[global] Instance NetworkId_eq_dec : EqDecision NetworkId.
Proof. solve_decision. Defined.

Definition address_prefix (n : NetworkId) : list Z :=
  match n with
  | Mainnet => str "kaspa"
  | Simnet => str "kaspasim"
  | Devnet => str "kaspadev"
  | Testnet _ => str "kaspatest"
  end.

Definition testnet_suffix (n : NetworkId) : option Z :=
  match n with Testnet suffix => Some suffix | _ => None end.

(** The UTF-8 encodings of the characters [str::trim] removes (Unicode
    [White_Space]). On valid UTF-8 a byte-wise prefix or suffix test against
    them is the character-wise one. *)
Definition whitespace : list (list Z) :=
  [[9]; [10]; [11]; [12]; [13]; [32]; [194; 133]; [194; 160]; [225; 154; 128];
   [226; 128; 128]; [226; 128; 129]; [226; 128; 130]; [226; 128; 131]; [226; 128; 132];
   [226; 128; 133]; [226; 128; 134]; [226; 128; 135]; [226; 128; 136]; [226; 128; 137];
   [226; 128; 138]; [226; 128; 168]; [226; 128; 169]; [226; 128; 175]; [226; 129; 159];
   [227; 128; 128]].

(** [str::strip_prefix] *)
Fixpoint strip_prefix (p l : list Z) : option (list Z) :=
  match p, l with
  | [], _ => Some l
  | x :: p', y :: l' => if x =? y then strip_prefix p' l' else None
  | _ :: _, [] => None
  end.

Fixpoint first_stripped (ps : list (list Z)) (l : list Z) : option (list Z) :=
  match ps with
  | [] => None
  | p :: ps' => match strip_prefix p l with Some l' => Some l' | None => first_stripped ps' l end
  end.

Fixpoint strip_all (fuel : nat) (ps : list (list Z)) (l : list Z) : list Z :=
  match fuel with
  | O => l
  | S fuel' => match first_stripped ps l with Some l' => strip_all fuel' ps l' | None => l end
  end.

(** [str::trim] *)
Definition trim (l : list Z) : list Z :=
  let started := strip_all (length l) whitespace l in
  reverse (strip_all (length started) (map reverse whitespace) (reverse started)).

Definition to_ascii_lowercase (l : list Z) : list Z :=
  map (fun b => if (65 <=? b) && (b <=? 90) then b + 32 else b) l.

Inductive NetworkError := UnsupportedKaspaNetwork | InvalidTestnetSuffix | SuffixOutOfRange.

Definition one_of (value : list Z) (names : list string) : bool :=
  existsb (fun name => list_Z_eqb value (str name)) names.

Definition parse (value : list Z) : result NetworkId NetworkError :=
  let normalized := to_ascii_lowercase (trim value) in
  if one_of normalized ["mainnet"; "kaspa:mainnet"]%string then Ok Mainnet
  else if one_of normalized ["simnet"; "kaspa:simnet"]%string then Ok Simnet
  else if one_of normalized ["devnet"; "kaspa:devnet"]%string then Ok Devnet
  else
    let? testnet :=
      ok_or (strip_prefix (str "testnet") (default normalized (strip_prefix (str "kaspa:") normalized)))
        UnsupportedKaspaNetwork in
    let suffix := default testnet (strip_prefix (str "-") testnet) in
    if bool_decide (suffix = []) || negb (forallb is_ascii_digit suffix)
    then Err UnsupportedKaspaNetwork
    else
      let? n := ok_or (parse_digits u16_max 0 suffix) InvalidTestnetSuffix in
      if negb ((1 <=? n) && (n <=? 127)) then Err SuffixOutOfRange else Ok (Testnet n).

Definition canonical_name (n : NetworkId) : list Z :=
  match n with
  | Mainnet => str "mainnet"
  | Testnet suffix => str "testnet-" ++ to_string suffix
  | Simnet => str "simnet"
  | Devnet => str "devnet"
  end.

(** [Debug], which is also the JSON form ([Serialize]). *)
Definition debug_name (n : NetworkId) : list Z :=
  match n with
  | Mainnet => str "Mainnet"
  | Testnet suffix => str "Testnet" ++ to_string suffix
  | Simnet => str "Simnet"
  | Devnet => str "Devnet"
  end.
Definition serialize_network (n : NetworkId) : list Z := debug_name n.
Definition deserialize_network (value : list Z) : result NetworkId NetworkError := parse value.

(** The values the rest of the program builds: suffixes [1..=127]. *)
Definition valid_network_id (n : NetworkId) : bool :=
  match n with Testnet s => (1 <=? s) && (s <=? 127) | _ => true end.

End NetworkId.

Module KaspaNetwork.

Inductive KaspaNetwork := Unknown | Mainnet | Testnet | Devnet | Simnet.

#[global] Instance KaspaNetwork_eq_dec : EqDecision KaspaNetwork.
Proof. solve_decision. Defined.

Definition discriminant (n : KaspaNetwork) : Z :=
  match n with Unknown => 0 | Mainnet => 1 | Testnet => 2 | Devnet => 3 | Simnet => 4 end.

Definition hrp (n : KaspaNetwork) : option (list Z) :=
  match n with
  | Unknown => None
  | Mainnet => Some (str "kaspa")
  | Testnet => Some (str "kaspatest")
  | Devnet => Some (str "kaspadev")
  | Simnet => Some (str "kaspasim")
  end.

Definition label (n : KaspaNetwork) : list Z :=
  match n with
  | Unknown => str "NETWORK UNKNOWN"
  | Mainnet => str "MAINNET"
  | Testnet => str "TESTNET"
  | Devnet => str "DEVNET"
  | Simnet => str "SIMNET"
  end.

Definition from_hrp (value : list Z) : option KaspaNetwork :=
  List.find (fun network => bool_decide (hrp network = Some value)) [Mainnet; Testnet; Devnet; Simnet].

Definition from_name (name : list Z) : option KaspaNetwork :=
  if NetworkId.one_of name ["mainnet"]%string then Some Mainnet
  else if NetworkId.one_of name ["testnet"; "kaspatest"]%string then Some Testnet
  else if NetworkId.one_of name ["devnet"; "kaspadev"]%string then Some Devnet
  else if NetworkId.one_of name ["simnet"; "kaspasim"]%string then Some Simnet
  else
    match NetworkId.parse name with
    | Ok network =>
        if bool_decide (is_Some (NetworkId.testnet_suffix network))
           && list_Z_eqb (NetworkId.canonical_name network) name
        then Some Testnet else None
    | Err _ => None
    end.

Definition from_wire (value : Z) : option KaspaNetwork :=
  if value =? 1 then Some Mainnet
  else if value =? 2 then Some Testnet
  else if value =? 3 then Some Devnet
  else if value =? 4 then Some Simnet
  else None.

End KaspaNetwork.

(** * Theorems *)

Lemma testnet_cases (P : Z -> Prop) n :
  1 <= n <= 127 -> Forall P (map Z.of_nat (seq 1 127)) -> P n.
Proof.
  intros Hn Hall. rewrite List.Forall_forall in Hall. apply Hall.
  apply in_map_iff. exists (Z.to_nat n). split; [lia|]. apply in_seq. lia.
Qed.

Lemma network_parse_valid text n :
  NetworkId.parse text = Ok n -> NetworkId.valid_network_id n = true.
Proof.
  unfold NetworkId.parse. repeat case_match; try (by intros [= <-]).
  intros Hp. comp_inv. case_match; [done|]. comp_inv. case_match eqn:Hrange; [done|]. comp_inv.
  cbn [NetworkId.valid_network_id]. by apply negb_false_iff.
Qed.

(** Every network the program can name is read back from its canonical
    name, from that name with the [kaspa:] prefix, and from its JSON form; and
    [parse] only ever yields such networks. *)
Theorem network_name_round_trip (n : NetworkId.NetworkId) :
  NetworkId.valid_network_id n = true <->
  NetworkId.parse (NetworkId.canonical_name n) = Ok n /\
  NetworkId.parse (str "kaspa:" ++ NetworkId.canonical_name n) = Ok n /\
  NetworkId.deserialize_network (NetworkId.serialize_network n) = Ok n.
Proof.
  split.
  - destruct n as [|s| |]; [by vm_compute | | by vm_compute..].
    cbn [NetworkId.valid_network_id]. rewrite andb_true_iff, !Z.leb_le. intros Hs.
    pattern s. apply (testnet_cases _ s Hs).
    repeat (constructor; [split_and!; vm_compute; reflexivity|]). constructor.
  - intros [Hp _]. by eapply network_parse_valid.
Qed.

(** Prefixes and wire codes identify the four real networks: both decoders
    invert the corresponding encoder on them and accept nothing else. *)
Theorem kaspa_network_codes (n : KaspaNetwork.KaspaNetwork) (prefix : list Z) (code : Z) :
  (KaspaNetwork.from_hrp prefix = Some n <-> KaspaNetwork.hrp n = Some prefix) /\
  (KaspaNetwork.from_wire code = Some n <->
     n <> KaspaNetwork.Unknown /\ code = KaspaNetwork.discriminant n).
Proof.
  split.
  - unfold KaspaNetwork.from_hrp. cbn [List.find]. repeat case_bool_decide; destruct n; naive_solver.
  - unfold KaspaNetwork.from_wire.
    repeat match goal with |- context [Z.eqb ?a ?b] => destruct (Z.eqb_spec a b) end;
      destruct n; cbn; naive_solver.
Qed.
