(* ===== verification/Script.v ===== *)
(** * Kaspa scripts

    The element reader of [src/src/primitives/script.rs], the script builders
    and walkers of [src/src/contract/script], the multisig redeem script codec
    of [src/src/primitives/multisig_script.rs] and the standard locking
    scripts of [src/src/primitives/address/mod.rs]. *)

From S2P Require Import Prelude.

(** ** [primitives/opcode.rs] *)

Module Opcode.

Definition OP_0 : Z := 0x00.
Definition OP_PUSHDATA1 : Z := 0x4c.
Definition OP_PUSHDATA2 : Z := 0x4d.
Definition OP_PUSHDATA4 : Z := 0x4e.
Definition OP_IF : Z := 0x63.
Definition OP_ELSE : Z := 0x67.
Definition OP_ENDIF : Z := 0x68.
Definition OP_VERIFY : Z := 0x69.
Definition OP_DROP : Z := 0x75.
Definition OP_DUP : Z := 0x76.
Definition OP_PICK : Z := 0x79.
Definition OP_SWAP : Z := 0x7c.
Definition OP_CAT : Z := 0x7e.
Definition OP_SUBSTR : Z := 0x7f.
Definition OP_EQUAL : Z := 0x87.
Definition OP_EQUALVERIFY : Z := 0x88.
Definition OP_NOT : Z := 0x91.
Definition OP_ADD : Z := 0x93.
Definition OP_SUB : Z := 0x94.
Definition OP_NUMEQUALVERIFY : Z := 0x9d.
Definition OP_LESSTHANOREQUAL : Z := 0xa1.
Definition OP_GREATERTHANOREQUAL : Z := 0xa2.
Definition OP_ZK_PRECOMPILE : Z := 0xa6.
Definition OP_SHA256 : Z := 0xa8.
Definition OP_BLAKE2B : Z := 0xaa.
Definition OP_CHECKSIG : Z := 0xac.
Definition OP_DATA_32 : Z := 0x20.
Definition OP_CHECKSIGVERIFY : Z := 0xad.
Definition OP_CHECKMULTISIG : Z := 0xae.
Definition OP_CHECKLOCKTIMEVERIFY : Z := 0xb0.
Definition OP_CHECKSEQUENCEVERIFY : Z := 0xb1.
Definition OP_TX_INPUT_COUNT : Z := 0xb3.
Definition OP_TX_OUTPUT_COUNT : Z := 0xb4.
Definition OP_TX_INPUT_INDEX : Z := 0xb9.
Definition OP_TX_INPUT_SCRIPT_SIG_SUBSTR : Z := 0xbc.
Definition OP_TX_INPUT_AMOUNT : Z := 0xbe.
Definition OP_TX_INPUT_SPK : Z := 0xbf.
Definition OP_TX_OUTPUT_AMOUNT : Z := 0xc2.
Definition OP_TX_OUTPUT_SPK : Z := 0xc3.
Definition OP_TX_INPUT_SCRIPT_SIG_LEN : Z := 0xc9.
Definition OP_AUTH_OUTPUT_COUNT : Z := 0xcb.
Definition OP_INPUT_COVENANT_ID : Z := 0xcf.
Definition OP_COV_INPUT_COUNT : Z := 0xd0.
Definition OP_COV_OUTPUT_COUNT : Z := 0xd2.
Definition OP_COV_OUTPUT_IDX : Z := 0xd3.
Definition OP_OUTPUT_COVENANT_ID : Z := 0xd5.
Definition OP_CHECKSIGFROMSTACK : Z := 0xd7.
Definition OP_1 : Z := 0x51.
Definition OP_2 : Z := 0x52.
Definition OP_3 : Z := 0x53.
Definition OP_4 : Z := 0x54.
Definition OP_5 : Z := 0x55.
Definition OP_16 : Z := 0x60.

End Opcode.
Import Opcode.

(** ** [primitives/script.rs] *)

Record Element := { opcode : Z; data : list Z }.

Definition is_push (e : Element) : bool := opcode e <=? OP_PUSHDATA4.

Definition little (script : list Z) (n at_ : Z) : option (list Z) :=
  end_ ← checked_add at_ n; slice script at_ end_.

(** The header length and the data length announced at [at_]. *)
Definition element_header (script : list Z) (at_ op : Z) : option (Z * Z) :=
  if (1 <=? op) && (op <=? 0x4b) then Some (1, op)
  else if op =? OP_PUSHDATA1 then
    length ← get_at script (at_ + 1); Some (2, length)
  else if op =? OP_PUSHDATA2 then
    length ← little script 2 (at_ + 1); Some (3, le_val length)
  else if op =? OP_PUSHDATA4 then
    length ← little script 4 (at_ + 1); Some (5, le_val length)
  else Some (1, 0).

Definition read_element (script : list Z) (at_ : Z) : option (Element * Z) :=
  op ← get_at script at_;
  '(header, length) ← element_header script at_ op;
  start ← checked_add at_ header;
  end_ ← checked_add start length;
  data ← slice script start end_;
  Some ({| opcode := op; data := data |}, end_).

(** The iterator [Elements]. *)
Record Elements := { el_script : list Z; el_at : Z; el_malformed : bool }.

Definition elements (script : list Z) : Elements :=
  {| el_script := script; el_at := 0; el_malformed := false |}.

Definition is_complete (it : Elements) : bool :=
  negb (el_malformed it) && (el_at it =? blen (el_script it)).

Definition next (it : Elements) : option Element * Elements :=
  if el_malformed it || (el_at it =? blen (el_script it)) then (None, it)
  else
    match read_element (el_script it) (el_at it) with
    | Some (element, next) =>
        (Some element, {| el_script := el_script it; el_at := next; el_malformed := el_malformed it |})
    | None => (None, {| el_script := el_script it; el_at := el_at it; el_malformed := true |})
    end.

(** [by_ref().collect()]: every element moves at least one byte, so one step
    per byte and a last one that sees the end are enough. *)
Fixpoint collect (fuel : nat) (it : Elements) : list Element * Elements :=
  match fuel with
  | O => ([], it)
  | S fuel' =>
      match next it with
      | (Some element, it') => let '(rest, last) := collect fuel' it' in (element :: rest, last)
      | (None, it') => ([], it')
      end
  end.

(** ** [contract/script/mod.rs], [push.rs], [number.rs], [locktime.rs], [walk.rs] *)

Definition complete_elements (script : list Z) : option (list Element) :=
  let '(collected, walker) := collect (S (length script)) (elements script) in
  if is_complete walker then Some collected else None.

(** The bytes [push_data] appends; lengths past [u32::MAX] panic there. *)
Definition push_data (script data : list Z) : list Z :=
  let length := blen data in
  let header :=
    if length <=? 75 then [length]
    else if length <=? u8_max then [0x4c; length]
    else if length <=? u16_max then 0x4d :: le_bytes 2 length
    else 0x4e :: le_bytes 4 length in
  script ++ header ++ data.

Definition push_pubkey (script public_key : list Z) : list Z :=
  script ++ [0x20] ++ public_key.

(** [while bytes.last() == Some(&0) { bytes.pop(); }] on reversed bytes. *)
Fixpoint pop_zeros (reversed : list Z) : list Z :=
  match reversed with
  | 0 :: reversed' => pop_zeros reversed'
  | _ => reversed
  end.

Definition push_int (script : list Z) (value : Z) : list Z :=
  if value =? 0 then script ++ [OP_0]
  else if value <=? 16 then script ++ [0x50 + value]
  else
    let bytes := reverse (pop_zeros (reverse (le_bytes 8 value))) in
    let bytes :=
      match last bytes with
      | Some top => if negb (Z.land top 0x80 =? 0) then bytes ++ [0] else bytes
      | None => bytes
      end in
    script ++ [blen bytes] ++ bytes.

Inductive ScriptItem := OpcodeItem | Integer (value : Z) | OversizedInteger.

Definition read_script_int (data : list Z) : Z := le_val data.

Definition classify_push (data : list Z) : ScriptItem :=
  if 8 <? blen data then OversizedInteger else Integer (read_script_int data).

Definition classify_element (element : Element) : ScriptItem :=
  if is_push element then classify_push (data element)
  else if (OP_1 <=? opcode element) && (opcode element <=? OP_16)
  then Integer (opcode element - OP_1 + 1)
  else OpcodeItem.

Inductive ScriptError := TruncatedScriptItem | IntegerExceeds8Bytes.

Definition next_script_item (script : list Z) (position : Z) : result (Z * ScriptItem) ScriptError :=
  match read_element script position with
  | None => Err TruncatedScriptItem
  | Some (element, next) => Ok (next, classify_element element)
  end.

Definition element_integer (element : Element) : option Z :=
  let element :=
    match split_last (data element) with
    | Some (0, value) => {| opcode := opcode element; data := value |}
    | _ => element
    end in
  match classify_element element with
  | Integer value => Some value
  | _ => None
  end.

(** The bounded loop of [find_preceding_script_integer]: [fuel] is the
    script length, its iteration count. *)
Fixpoint find_preceding_from (fuel : nat) (script : list Z) (target_opcode position : Z)
    (previous : ScriptItem) : result (option Z) ScriptError :=
  match fuel with
  | O => Ok None
  | S fuel' =>
      match get_at script position with
      | None => Ok None
      | Some current_opcode =>
          if current_opcode =? target_opcode then
            match previous with
            | Integer value => Ok (Some value)
            | OversizedInteger => Err IntegerExceeds8Bytes
            | OpcodeItem => Ok None
            end
          else
            let? (next, item) := next_script_item script position in
            find_preceding_from fuel' script target_opcode next item
      end
  end.

Definition find_preceding_script_integer (script : list Z) (target_opcode : Z)
  : result (option Z) ScriptError :=
  find_preceding_from (length script) script target_opcode 0 OpcodeItem.

Definition extract_cltv_locktime (script : list Z) : result (option Z) ScriptError :=
  find_preceding_script_integer script OP_CHECKLOCKTIMEVERIFY.
Definition extract_csv_sequence (script : list Z) : result (option Z) ScriptError :=
  find_preceding_script_integer script OP_CHECKSEQUENCEVERIFY.

Definition item_end (script : list Z) (offset : Z) : option Z :=
  snd <$> read_element script offset.

Fixpoint contains_pair_from (fuel : nat) (script : list Z) (first second offset : Z) : bool :=
  match fuel with
  | O => false
  | S fuel' =>
      match get_at script offset with
      | None => false
      | Some op =>
          if (op =? first) && bool_decide (get_at script (saturating_add offset 1) = Some second)
          then true
          else
            match item_end script offset with
            | None => false
            | Some next => contains_pair_from fuel' script first second next
            end
      end
  end.
Definition contains_opcode_pair (script : list Z) (first second : Z) : bool :=
  contains_pair_from (length script) script first second 0.

(** ** [primitives/multisig_script.rs] *)

Module Multisig.

Definition MAX_SCRIPT_KEYS : Z := 16.
Definition KEY_RECORD_LEN : Z := 33.

Record MultisigScript := { threshold : Z; records : list Z }.

Definition key_count (m : MultisigScript) : Z := (blen (records m) / KEY_RECORD_LEN) mod 256.

Definition key (m : MultisigScript) (position : Z) : option (list Z) :=
  let start := position * KEY_RECORD_LEN + 1 in
  slice (records m) start (start + 32).

Definition keys (m : MultisigScript) : list (list Z) :=
  map (drop 1) (as_chunks 33 (records m)).

(** [Iterator::position] followed by the conversion to [u8]. *)
Fixpoint position_from (i : Z) (candidates : list (list Z)) (k : list Z) : option Z :=
  match candidates with
  | [] => None
  | candidate :: rest => if list_Z_eqb candidate k then Some i else position_from (i + 1) rest k
  end.
Definition position_of (m : MultisigScript) (k : list Z) : option Z :=
  position ← position_from 0 (keys m) k;
  if position <=? u8_max then Some position else None.

Definition small_int (op : Z) : option Z :=
  if (OP_1 <=? op) && (op <=? OP_16) then Some (op - OP_1 + 1) else None.

Definition parse (script : list Z) : option MultisigScript :=
  match script with
  | [] => None
  | first :: rest =>
      '(last, rest) ← split_last rest;
      '(declared, records) ← split_last rest;
      threshold ← small_int first;
      count ← small_int declared;
      let canonical :=
        (last =? OP_CHECKMULTISIG) && (threshold <=? count)
        && (blen records =? count * KEY_RECORD_LEN)
        && forallb (fun record => default (-1) (head record) =? OP_DATA_32) (as_chunks 33 records) in
      if canonical then Some {| threshold := threshold; records := records |} else None
  end.

Definition encoded_len (key_count : Z) : Z := key_count * KEY_RECORD_LEN + 3.

(** The length written, and the buffer afterwards. *)
Definition encode (threshold : Z) (keys : list (list Z)) (out : list Z) : option Z * list Z :=
  if u8_max <? blen keys then (None, out)
  else
    let count := blen keys in
    let valid := (1 <=? threshold) && (threshold <=? count) && (blen keys <=? MAX_SCRIPT_KEYS) in
    let length := encoded_len (blen keys) in
    if (blen out <? length) || negb valid then (None, out)
    else
      (Some length,
       [OP_1 + threshold - 1] ++ concat (map (fun key => OP_DATA_32 :: key) keys)
         ++ [OP_1 + count - 1; OP_CHECKMULTISIG] ++ drop (Z.to_nat length) out).

End Multisig.

(** ** Standard locking scripts ([primitives/address/mod.rs]) *)

Module Standard.

Definition p2pk_script (xonly : list Z) : list Z := [OP_DATA_32] ++ xonly ++ [OP_CHECKSIG].
Definition p2sh_script (script_hash : list Z) : list Z :=
  [OP_BLAKE2B; OP_DATA_32] ++ script_hash ++ [OP_EQUAL].

(** [key.try_into().ok()] for a [[u8; 32]]. *)
Definition array32 (bytes : list Z) : option (list Z) :=
  if blen bytes =? 32 then Some bytes else None.

Definition p2pk_xonly (script : list Z) : option (list Z) :=
  match script with
  | first :: rest =>
      '(last, key) ← split_last rest;
      if (first =? OP_DATA_32) && (last =? OP_CHECKSIG) then array32 key else None
  | [] => None
  end.

Definition p2sh_hash (script : list Z) : option (list Z) :=
  match script with
  | first :: second :: rest =>
      '(last, hash) ← split_last rest;
      if (first =? OP_BLAKE2B) && (second =? OP_DATA_32) && (last =? OP_EQUAL)
      then array32 hash else None
  | _ => None
  end.

End Standard.

(** * Theorems *)

(** ** Elements and their bytes *)

(** The bytes an element occupies, and the opcode/data pairs that occur. *)
Definition element_prefix (e : Element) : list Z :=
  if opcode e =? OP_PUSHDATA1 then [blen (data e)]
  else if opcode e =? OP_PUSHDATA2 then le_bytes 2 (blen (data e))
  else if opcode e =? OP_PUSHDATA4 then le_bytes 4 (blen (data e))
  else [].
Definition element_bytes (e : Element) : list Z :=
  [opcode e] ++ element_prefix e ++ data e.
Definition element_capacity (e : Element) : Z :=
  if (1 <=? opcode e) && (opcode e <=? 0x4b) then opcode e
  else if opcode e =? OP_PUSHDATA1 then u8_max
  else if opcode e =? OP_PUSHDATA2 then u16_max
  else if opcode e =? OP_PUSHDATA4 then u32_max
  else 0.
Definition element_exact (e : Element) : bool := (1 <=? opcode e) && (opcode e <=? 0x4b).
Definition wf_element (e : Element) : Prop :=
  byte_ok (opcode e) /\ bytes_ok (data e) /\
  if element_exact e then blen (data e) = element_capacity e else blen (data e) <= element_capacity e.

Ltac opcode_cases op :=
  unfold element_exact, element_capacity, element_prefix, element_header in *;
  unfold OP_PUSHDATA1, OP_PUSHDATA2, OP_PUSHDATA4, u8_max, u16_max, u32_max in *;
  cbn [opcode data] in *;
  let H := fresh in
  assert (1 <= op <= 75 \/ op = 76 \/ op = 77 \/ op = 78 \/ op < 1 \/ 78 < op) as H by lia;
  destruct H as [H|[H|[H|[H|[H|H]]]]]; decide_tests.

Lemma element_header_wf script pre rest e :
  wf_element e -> script = pre ++ element_bytes e ++ rest -> blen script <= usize_max ->
  element_header script (blen pre) (opcode e) = Some (1 + blen (element_prefix e), blen (data e)).
Proof.
  intros (Hop & Hdata & Hlen) -> Hmax. unfold element_bytes in *.
  pose proof (blen_nonneg pre). pose proof (blen_nonneg (data e)). pose proof (blen_nonneg rest).
  unfold byte_ok in Hop. autorewrite with blen in Hmax.
  assert (Hlittle : forall n, element_prefix e = le_bytes n (blen (data e)) ->
            0 <= blen (data e) < 256 ^ Z.of_nat n ->
            le_val <$> little (pre ++ ([opcode e] ++ element_prefix e ++ data e) ++ rest) (Z.of_nat n) (blen pre + 1)
              = Some (blen (data e))).
  { intros n Hpre Hb. unfold little, checked_add. rewrite Hpre in Hmax |- *. autorewrite with blen in Hmax.
    rewrite checked_u64_id by (unfold u64_ok, usize_max, u64_max in *; lia). cbn [mbind option_bind].
    rewrite (slice_split _ (pre ++ [opcode e]) (le_bytes n (blen (data e))) (data e ++ rest)); [|app_eq|len|len].
    cbn. f_equal. by apply le_val_le_bytes. }
  destruct e as [op d]. opcode_cases op.
  - autorewrite with blen. do 2 f_equal; lia.
  - rewrite (get_at_split _ (pre ++ [op]) (d ++ rest) (blen d)); [|app_eq|len].
    cbn [mbind option_bind]. by autorewrite with blen.
  - specialize (Hlittle 2%nat eq_refl ltac:(cbn; lia)). cbn [Z.of_nat Pos.of_succ_nat Pos.succ] in Hlittle.
    destruct (little _ _ _) as [bs|]; [|done]. cbn [mbind option_bind fmap option_fmap option_map] in Hlittle |- *.
    injection Hlittle as ->. do 2 f_equal; try len.
  - specialize (Hlittle 4%nat eq_refl ltac:(cbn; lia)). cbn [Z.of_nat Pos.of_succ_nat Pos.succ] in Hlittle.
    destruct (little _ _ _) as [bs|]; [|done]. cbn [mbind option_bind fmap option_fmap option_map] in Hlittle |- *.
    injection Hlittle as ->. do 2 f_equal; try len.
  - autorewrite with blen. do 2 f_equal; lia.
  - autorewrite with blen. do 2 f_equal; lia.
Qed.

Lemma read_element_wf script pre rest e :
  wf_element e -> script = pre ++ element_bytes e ++ rest -> blen script <= usize_max ->
  read_element script (blen pre) = Some (e, blen pre + blen (element_bytes e)).
Proof.
  intros Hwf Hs Hmax. unfold read_element.
  rewrite (get_at_split script pre (element_prefix e ++ data e ++ rest) (opcode e)); [|rewrite Hs; unfold element_bytes; app_eq|done].
  cbn [mbind option_bind]. rewrite (element_header_wf script pre rest e) by done. cbn [mbind option_bind].
  rewrite Hs in Hmax. unfold element_bytes in *. autorewrite with blen in *.
  pose proof (blen_nonneg pre). pose proof (blen_nonneg (data e)). pose proof (blen_nonneg rest).
  pose proof (blen_nonneg (element_prefix e)). unfold usize_max, u64_max in *.
  unfold checked_add. rewrite checked_u64_id by (unfold u64_ok; lia). cbn [mbind option_bind].
  rewrite checked_u64_id by (unfold u64_ok; lia). cbn [mbind option_bind].
  rewrite (slice_split script (pre ++ [opcode e] ++ element_prefix e) (data e) rest); [|rewrite Hs; app_eq|len|len].
  cbn. destruct e. do 2 f_equal. cbn. lia.
Qed.

Lemma get_at_range {A} (l : list A) i x : get_at l i = Some x -> 0 <= i < blen l.
Proof.
  intros (l1 & l2 & -> & <-)%get_at_Some. rewrite blen_app, blen_cons.
  pose proof (blen_nonneg l1). pose proof (blen_nonneg l2). lia.
Qed.

Lemma le_bytes_of_val l n : bytes_ok l -> blen l = Z.of_nat n -> le_bytes n (le_val l) = l.
Proof. intros Hl Hn. apply le_bytes_le_val; [done|]. unfold blen in Hn. lia. Qed.

(** The header read at [at_] is the prefix of the element that follows. *)
Lemma element_header_inv pre op rest h len :
  bytes_ok (op :: rest) -> element_header (pre ++ op :: rest) (blen pre) op = Some (h, len) ->
  exists hdr tail, rest = hdr ++ tail /\ h = 1 + blen hdr /\ 0 <= len /\
    (forall d, blen d = len -> bytes_ok d -> element_prefix {| opcode := op; data := d |} = hdr /\
       wf_element {| opcode := op; data := d |}).
Proof.
  intros [Hop Hrest]%bytes_ok_cons. pose proof (blen_nonneg pre).
  assert (Hlittle : forall n l, little (pre ++ op :: rest) (Z.of_nat n) (blen pre + 1) = Some l ->
            exists tail, rest = l ++ tail /\ blen l = Z.of_nat n /\ bytes_ok l).
  { intros n l. unfold little. destruct (checked_add _ _) as [e|] eqn:He; [|done]. cbn. checked_inv.
    intros (l1 & l3 & Heq & Hl1 & Hl2)%slice_Some.
    rewrite (cons_middle op pre rest), app_assoc in Heq. apply app_inj_1 in Heq as [<- ->].
    - apply bytes_ok_app in Hrest as [??]. exists l3. split_and!; [done|lia|done].
    - unfold blen in *. rewrite length_app. cbn [length]. lia. }
  unfold wf_element. unfold byte_ok in Hop. opcode_cases op; intros Hh.
  - injection Hh as <- <-. exists [], rest. split_and!; [done|done|lia|]. intros d ? ?. decide_tests.
    split_and!; auto. all: unfold byte_ok; lia.
  - destruct (get_at _ _) as [b|] eqn:Hb; [|done]. cbn in Hh. injection Hh as <- <-.
    apply get_at_Some in Hb as (l1 & l2 & Heq & Hl1).
    rewrite (cons_middle op pre rest), app_assoc in Heq. apply app_inj_1 in Heq as [<- ->];
      [|unfold blen in *; rewrite length_app; cbn [length]; lia].
    apply bytes_ok_cons in Hrest as [Hb ?]. unfold byte_ok in Hb.
    exists [b], l2. split_and!; [done|done|lia|]. intros d <- ?. decide_tests.
    split_and!; auto; unfold byte_ok; lia.
  - destruct (little _ _ _) as [l|] eqn:Hl; [|done]. cbn in Hh. injection Hh as <- <-.
    apply (Hlittle 2%nat) in Hl as (tail & -> & Hlen & Hok). pose proof (le_val_bound l Hok).
    rewrite Hlen in *. exists l, tail. split_and!; [done|lia|lia|]. intros d Hd ?. decide_tests.
    rewrite Hd, le_bytes_of_val by done. split_and!; auto; unfold byte_ok; cbn in *; lia.
  - destruct (little _ _ _) as [l|] eqn:Hl; [|done]. cbn in Hh. injection Hh as <- <-.
    apply (Hlittle 4%nat) in Hl as (tail & -> & Hlen & Hok). pose proof (le_val_bound l Hok).
    rewrite Hlen in *. exists l, tail. split_and!; [done|lia|lia|]. intros d Hd ?. decide_tests.
    rewrite Hd, le_bytes_of_val by done. split_and!; auto; unfold byte_ok; cbn in *; lia.
  - injection Hh as <- <-. exists [], rest. split_and!; [done|done|lia|]. intros d ? ?. decide_tests.
    split_and!; auto; unfold byte_ok; lia.
  - injection Hh as <- <-. exists [], rest. split_and!; [done|done|lia|]. intros d ? ?. decide_tests.
    split_and!; auto; unfold byte_ok; lia.
Qed.

Lemma read_element_inv script at_ e next :
  bytes_ok script -> read_element script at_ = Some (e, next) ->
  exists pre rest, script = pre ++ element_bytes e ++ rest /\ blen pre = at_ /\
    next = at_ + blen (element_bytes e) /\ wf_element e.
Proof.
  intros Hok. unfold read_element. destruct (get_at script at_) as [op|] eqn:Hat; [|done]. cbn.
  destruct (element_header script at_ op) as [[h len]|] eqn:Hh; [|done]. cbn.
  destruct (checked_add at_ h) as [start|] eqn:Hs; [|done]. cbn.
  destruct (checked_add start len) as [end_|] eqn:He; [|done]. cbn.
  destruct (slice script start end_) as [d|] eqn:Hd; [|done]. cbn. intros [= <- <-]. checked_inv.
  apply get_at_Some in Hat as (pre & rest & -> & <-).
  apply bytes_ok_app in Hok as [_ Hok].
  destruct (element_header_inv _ _ _ _ _ Hok Hh) as (hdr & tail & -> & -> & ? & Hwf).
  apply slice_Some in Hd as (l1 & l3 & Heq & Hl1 & Hend).
  replace (pre ++ op :: hdr ++ tail) with ((pre ++ [op] ++ hdr) ++ tail) in Heq by app_eq.
  apply app_inj_1 in Heq as [<- ->];
    [|unfold blen in *; rewrite !length_app; cbn [length]; lia].
  apply bytes_ok_cons in Hok as [_ Hok]. rewrite !bytes_ok_app in Hok.
  destruct (Hwf d) as [Hpre ?]; [lia|naive_solver|].
  exists pre, l3. unfold element_bytes. cbn [opcode data] in *. rewrite Hpre.
  split_and!; [app_eq|done| |done]. autorewrite with blen. lia.
Qed.

Lemma element_bytes_pos e : 0 < blen (element_bytes e).
Proof.
  pose proof (blen_nonneg (element_prefix e)). pose proof (blen_nonneg (data e)). unfold element_bytes. len.
Qed.

Definition script_of (es : list Element) : list Z := concat (map element_bytes es).

Lemma script_of_cons e es : script_of (e :: es) = element_bytes e ++ script_of es.
Proof. done. Qed.

Lemma collect_script_of es script pre fuel :
  script = pre ++ script_of es -> Forall wf_element es -> blen script <= usize_max ->
  (length es < fuel)%nat ->
  collect fuel {| el_script := script; el_at := blen pre; el_malformed := false |} =
    (es, {| el_script := script; el_at := blen script; el_malformed := false |}).
Proof.
  intros Hs Hwf Hmax. revert pre fuel Hs. induction Hwf as [|e es He Hes IH]; intros pre fuel Hs Hf;
    (destruct fuel as [|fuel]; [cbn in Hf; lia|]); cbn [collect]; unfold next; cbn [el_malformed el_at el_script].
  - assert (blen pre = blen script) as -> by (subst; cbn; by rewrite app_nil_r).
    by rewrite Z.eqb_refl.
  - assert (Hlt : blen pre <> blen script).
    { subst. rewrite script_of_cons, !blen_app. pose proof (element_bytes_pos e).
      pose proof (blen_nonneg (script_of es)). lia. }
    rewrite (proj2 (Z.eqb_neq _ _) Hlt). cbn [orb].
    rewrite (read_element_wf script pre (script_of es) e) by (subst; done).
    rewrite <- blen_app, (IH (pre ++ element_bytes e)); [done| |cbn in Hf; lia].
    subst. by rewrite script_of_cons, app_assoc.
Qed.

Lemma collect_complete script fuel at_ es it :
  bytes_ok script -> 0 <= at_ ->
  collect fuel {| el_script := script; el_at := at_; el_malformed := false |} = (es, it) ->
  is_complete it = true ->
  Forall wf_element es /\ exists pre, blen pre = at_ /\ script = pre ++ script_of es.
Proof.
  intros Hok. revert at_ es. induction fuel as [|fuel IH]; intros at_ es Hat; cbn [collect].
  - intros [= <- <-]. unfold is_complete. cbn. rewrite Z.eqb_eq. intros ->.
    split; [constructor|]. exists script. by rewrite app_nil_r.
  - unfold next. cbn [el_malformed el_at el_script orb]. destruct (Z.eqb_spec at_ (blen script)) as [->|].
    + intros [= <- <-] _. split; [constructor|]. exists script. by rewrite app_nil_r.
    + destruct (read_element script at_) as [[e nx]|] eqn:Hr; [|by intros [= <- <-]].
      apply read_element_inv in Hr as (pre & rest & Hs & Hpre & -> & Hwf); [|done].
      destruct (collect fuel _) as [es' it'] eqn:Hc. intros [= <- <-] Hcomp.
      apply IH in Hc as (Hall & pre' & Hpre' & Hs'); [|pose proof (element_bytes_pos e); lia|done].
      split; [by constructor|]. exists pre. split; [done|].
      assert (pre' = pre ++ element_bytes e) as Heq.
      { rewrite Hs', app_assoc in Hs. apply app_inj_1 in Hs as [-> _]; [done|].
        unfold blen in *. rewrite length_app. lia. }
      by rewrite Hs', Heq, script_of_cons, app_assoc.
Qed.

Lemma length_script_of es : (length es <= length (script_of es))%nat.
Proof.
  induction es as [|e es IH]; [done|]. rewrite script_of_cons, length_app. cbn [length].
  pose proof (element_bytes_pos e). unfold blen in *. lia.
Qed.

Lemma script_of_app es1 es2 : script_of (es1 ++ es2) = script_of es1 ++ script_of es2.
Proof. unfold script_of. by rewrite map_app, concat_app. Qed.

Lemma complete_script_of es :
  Forall wf_element es -> blen (script_of es) <= usize_max -> complete_elements (script_of es) = Some es.
Proof.
  intros Hall Hmax. unfold complete_elements, elements.
  rewrite (collect_script_of es (script_of es) []); try done.
  - unfold is_complete. cbn [el_malformed el_at el_script]. by rewrite Z.eqb_refl.
  - pose proof (length_script_of es). lia.
Qed.

(** [complete_elements] is the exact inverse of printing: it succeeds on a
    script precisely with the list of well-formed elements whose bytes, in
    order, are the script; so decoding never invents, drops or reorders a byte
    and a script has at most one decoding. *)
Theorem complete_elements_spec (script : list Z) (es : list Element) :
  bytes_ok script -> blen script <= usize_max ->
  complete_elements script = Some es <-> script = script_of es /\ Forall wf_element es.
Proof.
  intros Hok Hmax. unfold complete_elements, elements. split.
  - destruct (collect _ _) as [es' it] eqn:Hc. destruct (is_complete it) eqn:Hcomp; [|done]. intros [= ->].
    apply collect_complete in Hc as (Hall & pre & Hpre & Hs); [|done|lia|done].
    destruct pre; [done|]. rewrite blen_cons in Hpre. pose proof (blen_nonneg pre). lia.
  - intros [-> Hall]. by apply complete_script_of.
Qed.

(** ** Builders: pushed data and integers *)

(** The element [push_data] appends. *)
Definition push_element (data : list Z) : Element :=
  {| opcode := if blen data <=? 75 then blen data
               else if blen data <=? u8_max then OP_PUSHDATA1
               else if blen data <=? u16_max then OP_PUSHDATA2
               else OP_PUSHDATA4;
     data := data |}.

Lemma push_data_element script data :
  push_data script data = script ++ element_bytes (push_element data).
Proof.
  pose proof (blen_nonneg data).
  unfold push_data, element_bytes, element_prefix, push_element. cbn [opcode Script.data].
  unfold u8_max, u16_max, OP_PUSHDATA1, OP_PUSHDATA2, OP_PUSHDATA4 in *.
  destruct (Z.leb_spec (blen data) 75); [decide_tests; done|].
  destruct (Z.leb_spec (blen data) 255); [done|].
  destruct (Z.leb_spec (blen data) 65535); done.
Qed.

Lemma push_element_wf data :
  bytes_ok data -> blen data <= u32_max -> wf_element (push_element data).
Proof.
  intros Hok Hlen. pose proof (blen_nonneg data). unfold wf_element, element_exact, element_capacity, push_element.
  unfold u8_max, u16_max, u32_max, OP_PUSHDATA1, OP_PUSHDATA2, OP_PUSHDATA4, byte_ok in *. cbn [opcode Script.data].
  destruct (Z.leb_spec (blen data) 75);
    [|destruct (Z.leb_spec (blen data) 255); [|destruct (Z.leb_spec (blen data) 65535)]];
    cbn; (split_and!; [lia|lia|done|]); try lia.
  destruct (Z.leb_spec 1 (blen data)); decide_tests; lia.
Qed.

(** Data pushed with [push_data] at the end of any script is read back at
    that offset, as one push element holding exactly the data, for every
    length up to [u32::MAX]; the reader stops exactly where the push ends. *)
Theorem push_data_read_back (script data rest : list Z) :
  bytes_ok data -> blen data <= u32_max ->
  blen (push_data script data ++ rest) <= usize_max ->
  exists e, read_element (push_data script data ++ rest) (blen script) =
              Some (e, blen (push_data script data)) /\
    Script.data e = data /\ is_push e = true.
Proof.
  intros Hok Hlen Hmax. exists (push_element data).
  rewrite push_data_element in *. rewrite (blen_app script). split_and!; [|done|].
  - apply (read_element_wf _ script rest); [by apply push_element_wf | app_eq | done].
  - unfold is_push, push_element, u8_max, u16_max, OP_PUSHDATA1, OP_PUSHDATA2, OP_PUSHDATA4. cbn [opcode].
    destruct (Z.leb_spec (blen data) 75); [decide_tests; done|].
    by repeat case_match.
Qed.

Lemma pop_zeros_spec l : exists k, l = replicate k 0 ++ pop_zeros l /\ head (pop_zeros l) <> Some 0.
Proof.
  induction l as [|b l (k & IH & Hh)]; [by exists O|]. destruct (Z.eq_dec b 0) as [->|Hb].
  - exists (S k). cbn. by rewrite <- IH.
  - exists O. assert (pop_zeros (b :: l) = b :: l) as -> by (by destruct b). cbn. split; [done|congruence].
Qed.

Lemma le_val_zeros l k : le_val (l ++ replicate k 0) = le_val l.
Proof.
  induction l as [|b l IH]; cbn; [|by rewrite IH]. induction k; cbn; lia.
Qed.

Lemma le_val_snoc l b : le_val (l ++ [b]) = le_val l + 256 ^ blen l * b.
Proof.
  induction l as [|c l IH]; cbn [app le_val].
  - change (blen (@nil Z)) with 0. lia.
  - rewrite IH, blen_cons, Z.pow_add_r by (pose proof (blen_nonneg l); lia). lia.
Qed.

(** The minimal little-endian bytes of a positive integer. *)
Definition minimal_bytes (value : Z) : list Z := reverse (pop_zeros (reverse (le_bytes 8 value))).

Lemma minimal_bytes_spec value :
  0 < value -> u64_ok value ->
  exists l top, minimal_bytes value = l ++ [top] /\ byte_ok top /\ top <> 0 /\ bytes_ok l /\
    blen l <= 7 /\ le_val (l ++ [top]) = value /\ (128 <= top -> blen l = 7 -> 2 ^ 63 <= value) /\
    (top < 128 \/ blen l < 7 -> value < 2 ^ 63).
Proof.
  intros Hpos Hv. unfold u64_ok in Hv.
  destruct (pop_zeros_spec (reverse (le_bytes 8 value))) as (k & Hk & Hh).
  assert (Hl : le_bytes 8 value = minimal_bytes value ++ replicate k 0).
  { unfold minimal_bytes. rewrite <- (reverse_involutive (le_bytes 8 value)) at 1. rewrite Hk at 1.
    by rewrite reverse_app, reverse_replicate. }
  assert (Hval : le_val (minimal_bytes value) = value).
  { rewrite <- (le_val_zeros _ k), <- Hl. apply le_val_le_bytes. cbn. lia. }
  pose proof (le_bytes_ok 8 value) as Hok. pose proof (blen_le_bytes 8 value) as Hlen.
  rewrite Hl in Hok, Hlen. apply bytes_ok_app in Hok as [Hok _]. rewrite blen_app in Hlen.
  pose proof (blen_nonneg (replicate k 0)). change (Z.of_nat 8) with 8 in Hlen.
  destruct (minimal_bytes value) as [|top l _] using rev_ind; [cbn in Hval; lia|].
  exists l, top. apply bytes_ok_app in Hok as [Hokl Hoktop]. apply bytes_ok_cons in Hoktop as [Htop _].
  rewrite blen_app, blen_cons, blen_nil in Hlen. split_and!; try done.
  - intros ->. rewrite <- (reverse_involutive (pop_zeros _)) in Hh.
    assert (Hm : reverse (pop_zeros (reverse (le_bytes 8 value))) = l ++ [0]).
    { apply (app_inv_tail (replicate k 0)). by rewrite <- Hl, <- (reverse_replicate k 0), <- reverse_app, <- Hk, reverse_involutive. }
    rewrite Hm, reverse_snoc in Hh. done.
  - lia.
  - intros Ht H7. rewrite <- Hval, le_val_snoc, H7. pose proof (le_val_bound l Hokl). change (256 ^ 7) with (2 ^ 56). lia.
  - intros Ht. rewrite <- Hval, le_val_snoc. pose proof (le_val_bound l Hokl) as Hb. unfold byte_ok in Htop.
    destruct Ht as [Ht|Ht].
    + assert (256 ^ blen l <= 256 ^ 7) by (apply Z.pow_le_mono_r; lia). change (256 ^ 7) with (2 ^ 56) in *. nia.
    + assert (256 ^ blen l <= 256 ^ 6) by (apply Z.pow_le_mono_r; lia). change (256 ^ 6) with (2 ^ 48) in *. nia.
Qed.

Lemma high_bit_clear b : byte_ok b -> (Z.land b 0x80 =? 0) = (b <? 128).
Proof.
  intros Hb. unfold byte_ok in Hb.
  assert (Hall : Forall (fun b => (Z.land b 0x80 =? 0) = (b <? 128)) (seqZ 0 256)).
  { vm_compute. repeat constructor. }
  rewrite Forall_forall in Hall. apply Hall, elem_of_seqZ. lia.
Qed.

(** The element [push_int] appends. *)
Definition int_bytes (value : Z) : list Z :=
  let bytes := minimal_bytes value in
  match last bytes with
  | Some top => if 128 <=? top then bytes ++ [0] else bytes
  | None => bytes
  end.
Definition int_element (value : Z) : Element :=
  if value =? 0 then {| opcode := OP_0; data := [] |}
  else if value <=? 16 then {| opcode := 0x50 + value; data := [] |}
  else {| opcode := blen (int_bytes value); data := int_bytes value |}.

(** Everything the readers need to know about [int_bytes]. *)
Lemma int_bytes_spec value :
  0 < value -> u64_ok value ->
  bytes_ok (int_bytes value) /\ 1 <= blen (int_bytes value) <= 9 /\
  (blen (int_bytes value) <= 8 <-> value < 2 ^ 63) /\
  le_val (int_bytes value) = value /\
  (forall stripped, split_last (int_bytes value) = Some (0, stripped) ->
     blen stripped <= 8 /\ le_val stripped = value) /\
  int_bytes value = match last (minimal_bytes value) with
                    | Some top => if negb (Z.land top 0x80 =? 0)
                                  then minimal_bytes value ++ [0] else minimal_bytes value
                    | None => minimal_bytes value
                    end.
Proof.
  intros Hpos Hv.
  destruct (minimal_bytes_spec value Hpos Hv) as (l & top & Hm & Htop & Hnz & Hl & Hlen & Hval & Hhi & Hlo).
  unfold int_bytes. rewrite Hm, last_snoc. rewrite high_bit_clear by done. unfold byte_ok in Htop.
  pose proof (blen_nonneg l).
  destruct (Z.leb_spec 128 top) as [H128|H128]; decide_tests.
  - split_and!; try done.
    + rewrite !bytes_ok_app, !bytes_ok_cons. unfold byte_ok. split_and!; try done; lia.
    + len. + len.
    + autorewrite with blen. destruct (Z.eq_dec (blen l) 7); [specialize (Hhi H128 ltac:(done)); lia|].
      specialize (Hlo ltac:(lia)). lia.
    + rewrite le_val_snoc, Hval. lia.
    + rewrite split_last_snoc. intros stripped [= <-]. split; [len|done].
  - specialize (Hlo ltac:(lia)). split_and!; try done.
    + rewrite bytes_ok_app, bytes_ok_cons. unfold byte_ok. split_and!; try done; lia.
    + len. + len.
    + autorewrite with blen. lia.
    + rewrite split_last_snoc. intros stripped [= ??]. lia.
Qed.

Lemma push_int_element script value :
  u64_ok value -> push_int script value = script ++ element_bytes (int_element value).
Proof.
  intros Hv. unfold push_int, int_element, element_bytes.
  destruct (Z.eqb_spec value 0); [done|].
  destruct (Z.leb_spec value 16).
  - unfold u64_ok in Hv. unfold element_prefix, OP_PUSHDATA1, OP_PUSHDATA2, OP_PUSHDATA4. cbn [opcode data].
    decide_tests. done.
  - destruct (int_bytes_spec value) as (_ & Hlen & _ & _ & _ & Heq); [lia|done|].
    fold (minimal_bytes value). rewrite <- Heq.
    unfold element_prefix, OP_PUSHDATA1, OP_PUSHDATA2, OP_PUSHDATA4. cbn [opcode data]. decide_tests. done.
Qed.

Lemma int_element_spec value :
  u64_ok value ->
  wf_element (int_element value) /\ 0 <= opcode (int_element value) <= 0x60 /\
  element_integer (int_element value) = Some value /\
  classify_element (int_element value) = if value <? 2 ^ 63 then Integer value else OversizedInteger.
Proof.
  intros Hv. unfold u64_ok in Hv. unfold int_element. destruct (Z.eqb_spec value 0) as [->|].
  { by repeat split. }
  destruct (Z.leb_spec value 16).
  - unfold wf_element, element_integer, classify_element, is_push. opcode_cases (0x50 + value); try lia.
    unfold OP_1, OP_16, byte_ok. cbn [opcode data]. unfold split_last. cbn [reverse rev_append].
    cbn [opcode data]. decide_tests. cbn. split_and!; try done; try lia; do 2 f_equal; lia.
  - destruct (int_bytes_spec value) as (Hok & Hlen & H8 & Hval & Hstrip & _); [lia|done|].
    unfold wf_element, element_integer, classify_element, is_push. opcode_cases (blen (int_bytes value)); try lia.
    unfold classify_push, read_script_int, byte_ok. split_and!; try done; try lia.
    + destruct (split_last (int_bytes value)) as [[z stripped]|] eqn:Hsp.
      2:{ unfold split_last in Hsp. destruct (reverse (int_bytes value)) eqn:Hr; [|done].
          apply (f_equal length) in Hr. rewrite length_reverse in Hr. unfold blen in Hlen. cbn in Hr. lia. }
      destruct (Z.eq_dec z 0) as [->|Hz].
      * destruct (Hstrip _ eq_refl) as [? <-]. cbn [opcode data]. unfold OP_PUSHDATA4. by decide_tests.
      * assert (Htop : z <= 255 /\ blen (int_bytes value) <= 8).
        { apply split_last_Some in Hsp as Hsp'. rewrite Hsp' in Hok. apply bytes_ok_app in Hok as [_ Hz'%bytes_ok_cons].
          destruct Hz' as [Hz' _]. unfold byte_ok in Hz'. split; [lia|]. unfold int_bytes in *.
          destruct (minimal_bytes_spec value) as (l & top & Hm & ? & ? & ? & ? & ? & ? & ?); [lia|done|].
          rewrite Hm, last_snoc in *. destruct (Z.leb_spec 128 top); [rewrite split_last_snoc in Hsp; congruence|].
          autorewrite with blen in *. lia. }
        destruct z as [|p|p]; [done| |]; cbn [opcode data]; unfold OP_PUSHDATA4; decide_tests; by rewrite Hval.
    + unfold OP_PUSHDATA4. decide_tests. destruct (Z.ltb_spec value (2 ^ 63)); decide_tests; by rewrite ?Hval.
Qed.

(** An integer pushed with [push_int] is read back as the same integer for
    every 64-bit value, by [element_integer] (which drops the sign byte), and
    by the script walker for every value below [2^63]; from [2^63] on the sign
    byte makes the push nine bytes long and the walker reports it oversized. *)
Theorem push_int_read_back (script rest : list Z) (value : Z) :
  u64_ok value -> blen (push_int script value ++ rest) <= usize_max ->
  exists e, read_element (push_int script value ++ rest) (blen script) =
              Some (e, blen (push_int script value)) /\
    element_integer e = Some value /\
    classify_element e = if value <? 2 ^ 63 then Integer value else OversizedInteger.
Proof.
  intros Hv Hmax. destruct (int_element_spec value Hv) as (Hwf & _ & Hint & Hclass).
  exists (int_element value). split_and!; [|done..].
  rewrite push_int_element in * by done. rewrite (blen_app script).
  apply (read_element_wf _ script rest); [done|app_eq|done].
Qed.

(** ** The locktime walker *)

Lemma get_at_element script pre e rest :
  script = pre ++ element_bytes e ++ rest -> get_at script (blen pre) = Some (opcode e).
Proof.
  intros ->. apply (get_at_split _ pre (element_prefix e ++ data e ++ rest)); [unfold element_bytes; app_eq|done].
Qed.

Lemma find_preceding_skip es script pre rest target previous fuel :
  Forall wf_element es -> Forall (fun e => opcode e <> target) es ->
  script = pre ++ script_of es ++ rest -> blen script <= usize_max ->
  find_preceding_from (length es + fuel) script target (blen pre) previous =
    find_preceding_from fuel script target (blen pre + blen (script_of es))
      (default previous (classify_element <$> last es)).
Proof.
  intros Hwf. revert pre previous. induction Hwf as [|e es He Hes IH]; intros pre previous Ht Hs Hmax.
  - cbn. by rewrite Z.add_0_r.
  - apply Forall_cons in Ht as [Hop Ht]. rewrite script_of_cons in Hs |- *.
    cbn [length Nat.add find_preceding_from].
    rewrite (get_at_element script pre e (script_of es ++ rest)) by (rewrite Hs; app_eq).
    rewrite (proj2 (Z.eqb_neq _ _) Hop). unfold next_script_item.
    rewrite (read_element_wf script pre (script_of es ++ rest) e); [|done|rewrite Hs; app_eq|done].
    cbn [rbind]. rewrite <- blen_app, IH; [|done|rewrite Hs; app_eq|done].
    f_equal; [rewrite !blen_app; lia|].
    rewrite last_cons. by destruct (last es).
Qed.

(** The locktime walker finds the integer pushed right before the first
    occurrence of the lock opcode as an opcode: data bytes of earlier pushes
    are never mistaken for it, whatever they hold, and every 64-bit locktime
    below [2^63] is reported exactly; a nine-byte one is an error. *)
Theorem find_preceding_script_integer_spec (es : list Element) (value target : Z) (rest : list Z) :
  Forall wf_element es -> Forall (fun e => opcode e <> target) es ->
  u64_ok value -> 0x60 < target ->
  blen (push_int (script_of es) value ++ target :: rest) <= usize_max ->
  find_preceding_script_integer (push_int (script_of es) value ++ target :: rest) target =
    if value <? 2 ^ 63 then Ok (Some value) else Err IntegerExceeds8Bytes.
Proof.
  intros Hwf Hes Hv Htarget Hmax. destruct (int_element_spec value Hv) as (Hwfi & Hopi & _ & Hclass).
  rewrite push_int_element in * by done.
  set (all := es ++ [int_element value]).
  assert (Hall : script_of es ++ element_bytes (int_element value) = script_of all).
  { unfold all, script_of. rewrite map_app, concat_app. cbn. by rewrite app_nil_r. }
  rewrite Hall in *. unfold find_preceding_script_integer.
  pose proof (length_script_of all).
  replace (length (script_of all ++ target :: rest))
    with (length all + S (length (script_of all) - length all + length rest))%nat
    by (rewrite length_app; cbn [length]; lia).
  pose proof (find_preceding_skip all (script_of all ++ target :: rest) [] (target :: rest) target OpcodeItem) as Hskip.
  change (blen []) with 0 in Hskip. rewrite Hskip; [|..].
  - cbn [find_preceding_from].
    rewrite (get_at_split _ (script_of all) rest target) by done. rewrite Z.eqb_refl.
    unfold all. rewrite last_snoc. cbn [fmap option_fmap option_map default]. rewrite Hclass.
    by destruct (value <? 2 ^ 63).
  - unfold all. apply Forall_app. auto.
  - unfold all. apply Forall_app. split; [done|]. constructor; [lia|done].
  - done.
  - done.
Qed.

(** ** Multisig redeem scripts *)

Section multisig.
Import Multisig.

Definition multisig_script (threshold : Z) (keys : list (list Z)) : list Z :=
  [OP_1 + threshold - 1] ++ concat (map (fun key => OP_DATA_32 :: key) keys)
    ++ [OP_1 + blen keys - 1; OP_CHECKMULTISIG].
Definition valid_multisig (threshold : Z) (keys : list (list Z)) : Prop :=
  1 <= threshold <= blen keys /\ blen keys <= 16 /\ Forall (fun key => blen key = 32) keys.

Lemma blen_records keys :
  Forall (fun key => blen key = 32) keys ->
  blen (concat (map (fun key => OP_DATA_32 :: key) keys)) = blen keys * 33.
Proof. induction 1; cbn [map concat]; [done|]. autorewrite with blen. lia. Qed.

Lemma blen_multisig_script threshold keys :
  Forall (fun key => blen key = 32) keys -> blen (multisig_script threshold keys) = encoded_len (blen keys).
Proof.
  intros. unfold multisig_script, encoded_len, KEY_RECORD_LEN. autorewrite with blen.
  rewrite blen_records by done. lia.
Qed.

Lemma encode_spec threshold keys out :
  0 <= threshold -> Forall (fun key => blen key = 32) keys ->
  encode threshold keys out =
    if bool_decide (1 <= threshold <= blen keys /\ blen keys <= 16) && (encoded_len (blen keys) <=? blen out)
    then (Some (encoded_len (blen keys)),
          multisig_script threshold keys ++ drop (Z.to_nat (encoded_len (blen keys))) out)
    else (None, out).
Proof.
  intros Ht Hk. unfold encode, u8_max, MAX_SCRIPT_KEYS, encoded_len, KEY_RECORD_LEN.
  case_bool_decide as Hv.
  - decide_tests. destruct (Z.leb_spec (blen keys * 33 + 3) (blen out)); decide_tests; [|done].
    unfold multisig_script. f_equal. app_eq.
  - cbn [andb]. case_match; [done|].
    assert (Hf : (1 <=? threshold) && (threshold <=? blen keys) && (blen keys <=? 16) = false).
    { apply not_true_iff_false. rewrite !andb_true_iff, !Z.leb_le. lia. }
    by rewrite Hf, orb_true_r.
Qed.

Lemma as_chunks_records keys :
  Forall (fun key => blen key = 32) keys ->
  as_chunks 33 (concat (map (fun key => OP_DATA_32 :: key) keys)) = map (fun key => OP_DATA_32 :: key) keys.
Proof.
  intros Hk. apply as_chunks_concat; [lia|]. apply Forall_map. apply (Forall_impl _ _ _ Hk).
  clear. intros k Hk. unfold blen in Hk. cbn. lia.
Qed.

(** The canonical scripts and the parsed value of each. *)
Lemma parse_multisig_script threshold ks :
  valid_multisig threshold ks ->
  exists m, parse (multisig_script threshold ks) = Some m /\
    Multisig.threshold m = threshold /\ keys m = ks /\ key_count m = blen ks.
Proof.
  intros (Ht & Hn & Hk). unfold multisig_script, parse. cbn [app].
  change [OP_1 + blen ks - 1; OP_CHECKMULTISIG] with ([OP_1 + blen ks - 1] ++ [OP_CHECKMULTISIG]).
  rewrite app_assoc, split_last_snoc. cbn [mbind option_bind]. rewrite split_last_snoc. cbn [mbind option_bind].
  unfold small_int, OP_1, OP_16, KEY_RECORD_LEN. decide_tests. cbn [mbind option_bind].
  rewrite blen_records, as_chunks_records by done. decide_tests.
  assert (forallb (fun record => default (-1) (head record) =? OP_DATA_32)
    (map (fun key => OP_DATA_32 :: key) ks) = true) as ->.
  { apply forallb_forall. intros r (k & <- & _)%in_map_iff. done. }
  eexists. split; [done|]. unfold keys, key_count, KEY_RECORD_LEN. cbn [Multisig.threshold records].
  rewrite as_chunks_records, blen_records, Z.div_mul by (done || lia). rewrite map_map.
  split_and!; [lia| |].
  - rewrite <- (map_id ks) at 2. by apply map_ext.
  - apply Z.mod_small. pose proof (blen_nonneg ks). lia.
Qed.

Lemma parse_inv script m :
  parse script = Some m ->
  exists ks, valid_multisig (threshold m) ks /\ script = multisig_script (threshold m) ks /\ keys m = ks.
Proof.
  unfold parse. destruct script as [|first rest]; [done|].
  destruct (split_last rest) as [[lastb rest']|] eqn:H1; [|done]. cbn [mbind option_bind].
  destruct (split_last rest') as [[declared recs]|] eqn:H2; [|done]. cbn [mbind option_bind].
  apply split_last_Some in H1 as ->, H2 as ->. unfold small_int, OP_1, OP_16, KEY_RECORD_LEN.
  destruct (Z.leb_spec 0x51 first), (Z.leb_spec first 0x60); try done.
  destruct (Z.leb_spec 0x51 declared), (Z.leb_spec declared 0x60); try done. cbn [andb mbind option_bind].
  destruct (Z.eqb_spec lastb OP_CHECKMULTISIG) as [->|], (Z.leb_spec (first - 81 + 1) (declared - 81 + 1)); try done.
  destruct (Z.eqb_spec (blen recs) ((declared - 81 + 1) * 33)) as [Hlen|]; [|done]. cbn [andb].
  destruct (forallb _ _) eqn:Hall; [|done]. intros [= <-]. cbn [threshold records].
  destruct (concat_as_chunks recs 33 (Z.to_nat (declared - 81 + 1))) as (Hc & Hn & Hl);
    [lia|unfold blen in Hlen; lia|].
  rewrite forallb_forall in Hall. exists (map (drop 1) (as_chunks 33 recs)).
  assert (Hmap : map (fun key => OP_DATA_32 :: key) (map (drop 1) (as_chunks 33 recs)) = as_chunks 33 recs).
  { rewrite map_map. rewrite <- (map_id (as_chunks 33 recs)) at 2. apply map_ext_in. intros r Hr.
    specialize (Hall _ Hr). destruct r; [done|]. cbn in *. apply Z.eqb_eq in Hall as ->. done. }
  assert (Hb : blen (map (drop 1) (as_chunks 33 recs)) = declared - 81 + 1).
  { unfold blen. rewrite length_map, Hn. lia. }
  unfold valid_multisig, multisig_script. rewrite Hmap, Hc, Hb. split_and!; try lia.
  - apply Forall_map. apply (Forall_impl _ _ _ Hl). intros r Hr. unfold blen. rewrite length_drop. lia.
  - unfold OP_1. replace (81 + (first - 81 + 1) - 1) with first by lia.
    replace (81 + (declared - 81 + 1) - 1) with declared by lia. app_eq.
  - done.
Qed.

(** Every multisig redeem script [encode] writes is parsed back with the
    same threshold, the same keys in the same order and the right key count,
    and the rest of the caller's buffer is left alone. *)
Theorem multisig_round_trip (threshold length : Z) (ks : list (list Z)) (out out' : list Z) :
  0 <= threshold -> Forall (fun key => blen key = 32) ks ->
  encode threshold ks out = (Some length, out') ->
  (exists m, parse (take (Z.to_nat length) out') = Some m /\
     Multisig.threshold m = threshold /\ keys m = ks /\ key_count m = blen ks) /\
  drop (Z.to_nat length) out' = drop (Z.to_nat length) out.
Proof.
  intros Ht Hk. rewrite encode_spec by done. case_bool_decide as Hv; cbn [andb]; [|done].
  destruct (_ <=? _); [|done]. rewrite pair_equal_spec. intros [[= <-] <-].
  rewrite <- (blen_multisig_script threshold ks) by done.
  replace (Z.to_nat (blen (multisig_script threshold ks))) with (Datatypes.length (multisig_script threshold ks))
    by (unfold blen; lia).
  rewrite take_app_length, drop_app_length. split; [|done]. apply parse_multisig_script.
  by destruct Hv.
Qed.

(** Multisig parsing accepts only canonical scripts: whatever it accepts
    satisfies [1 <= m <= n <= 16] with 32-byte keys, and encoding the parsed
    threshold and keys reproduces the script byte for byte. *)
Theorem multisig_parse_canonical (script out : list Z) (m : MultisigScript) :
  parse script = Some m -> blen script <= blen out ->
  valid_multisig (threshold m) (keys m) /\
  encode (threshold m) (keys m) out = (Some (blen script), script ++ drop (length script) out).
Proof.
  intros (ks & Hv & Hs & Hk)%parse_inv Hout. rewrite Hk. split; [done|].
  destruct Hv as (Ht & Hn & Hks). rewrite encode_spec by (done || lia).
  rewrite bool_decide_true by done. rewrite <- (blen_multisig_script (threshold m) ks) by done.
  rewrite <- Hs. decide_tests. unfold blen. by rewrite Nat2Z.id.
Qed.

End multisig.

(** ** Standard locking scripts *)

Section standard.
Import Standard.

Lemma p2pk_xonly_spec script payload :
  p2pk_xonly script = Some payload <-> script = p2pk_script payload /\ blen payload = 32.
Proof.
  split.
  - unfold p2pk_xonly, array32, p2pk_script. destruct script as [|first rest]; [done|].
    destruct (split_last rest) as [[l key]|] eqn:H; [|done]. apply split_last_Some in H as ->. cbn.
    destruct (Z.eqb_spec first OP_DATA_32) as [->|], (Z.eqb_spec l OP_CHECKSIG) as [->|]; try done. cbn.
    destruct (Z.eqb_spec (blen key) 32); [|done]. by intros [= <-].
  - intros [-> Hlen]. unfold p2pk_xonly, p2pk_script. cbn [app]. rewrite split_last_snoc. cbn.
    unfold array32. by rewrite Hlen.
Qed.

Lemma p2sh_hash_spec script payload :
  p2sh_hash script = Some payload <-> script = p2sh_script payload /\ blen payload = 32.
Proof.
  split.
  - unfold p2sh_hash, array32, p2sh_script. destruct script as [|first [|second rest]]; [done..|].
    destruct (split_last rest) as [[l key]|] eqn:H; [|done]. apply split_last_Some in H as ->. cbn.
    destruct (Z.eqb_spec first OP_BLAKE2B) as [->|], (Z.eqb_spec second OP_DATA_32) as [->|],
      (Z.eqb_spec l OP_EQUAL) as [->|]; try done. cbn.
    destruct (Z.eqb_spec (blen key) 32); [|done]. by intros [= <-].
  - intros [-> Hlen]. unfold p2sh_hash, p2sh_script. cbn [app]. rewrite split_last_snoc. cbn.
    unfold array32. by rewrite Hlen.
Qed.

Lemma p2pk_xonly_p2sh payload : p2pk_xonly (p2sh_script payload) = None.
Proof.
  destruct (p2pk_xonly _) as [key|] eqn:H; [|done]. apply p2pk_xonly_spec in H as [H _]. discriminate H.
Qed.

End standard.

(** ** Instances of the theorems above *)

Lemma complete_elements_spec_witness :
  complete_elements [0x51; 0x02; 7; 8; 0xac] =
    Some [{| opcode := 0x51; data := [] |}; {| opcode := 2; data := [7; 8] |}; {| opcode := 0xac; data := [] |}] <->
  [0x51; 0x02; 7; 8; 0xac] =
    script_of [{| opcode := 0x51; data := [] |}; {| opcode := 2; data := [7; 8] |}; {| opcode := 0xac; data := [] |}] /\
  Forall wf_element [{| opcode := 0x51; data := [] |}; {| opcode := 2; data := [7; 8] |}; {| opcode := 0xac; data := [] |}].
Proof. apply complete_elements_spec; by_decide. Defined.

Lemma push_data_read_back_witness : exists e,
  read_element (push_data [0xac] (replicate 80 3) ++ [0x51]) 1 = Some (e, 83) /\
  Script.data e = replicate 80 3 /\ is_push e = true.
Proof. apply (push_data_read_back [0xac] (replicate 80 3) [0x51]); by_decide. Defined.

Lemma push_int_read_back_witness : exists e,
  read_element (push_int [0xac] 1700000000 ++ [0xb0]) 1 = Some (e, 6) /\
  element_integer e = Some 1700000000 /\ classify_element e = Integer 1700000000.
Proof. apply (push_int_read_back [0xac] [0xb0] 1700000000); by_decide. Defined.

Lemma find_preceding_script_integer_spec_witness :
  find_preceding_script_integer
    (push_int (script_of [{| opcode := 1; data := [0xb0] |}]) 500000 ++ OP_CHECKLOCKTIMEVERIFY :: [0x75]) OP_CHECKLOCKTIMEVERIFY
  = Ok (Some 500000).
Proof.
  apply (find_preceding_script_integer_spec [{| opcode := 1; data := [0xb0] |}] 500000 OP_CHECKLOCKTIMEVERIFY [0x75]).
  - constructor; [|constructor]. unfold wf_element. cbn. split; [by_decide|split; [by_decide|reflexivity]].
  - by_decide.
  - by_decide.
  - reflexivity.
  - by_decide.
Defined.

Lemma multisig_round_trip_witness :
  (exists m, Multisig.parse (take 69 (multisig_script 1 [replicate 32 4; replicate 32 5] ++ [1; 1])) = Some m /\
     Multisig.threshold m = 1 /\ Multisig.keys m = [replicate 32 4; replicate 32 5] /\ Multisig.key_count m = 2) /\
  drop 69 (multisig_script 1 [replicate 32 4; replicate 32 5] ++ [1; 1]) = drop 69 (replicate 71 1).
Proof.
  apply (multisig_round_trip 1 69 [replicate 32 4; replicate 32 5] (replicate 71 1)); [lia|by_decide|reflexivity].
Defined.

Lemma multisig_parse_canonical_witness :
  let m := {| Multisig.threshold := 1; Multisig.records := OP_DATA_32 :: replicate 32 4 |} in
  valid_multisig 1 [replicate 32 4] /\
  Multisig.encode 1 [replicate 32 4] (replicate 40 0) =
    (Some 36, multisig_script 1 [replicate 32 4] ++ drop 36 (replicate 40 0)).
Proof.
  apply (multisig_parse_canonical (multisig_script 1 [replicate 32 4]) (replicate 40 0)
    {| Multisig.threshold := 1; Multisig.records := OP_DATA_32 :: replicate 32 4 |}); [reflexivity|by_decide].
Defined.
