(* ===== verification/Address.v ===== *)
(** * Kaspa addresses

    The bech32-style codec of [src/src/primitives/address/mod.rs]: regrouping
    of bits, the checksum over GF(32), the text form of an address and the
    conversions between addresses and standard locking scripts. Text is the
    list of its bytes; each error message is a constructor of
    [AddressError]. *)

From S2P Require Import Prelude NetworkId Script.
Import Script.Standard.

Definition CHARSET : list Z := str "qpzry9x8gf2tvdw0s3jn54khce6mua7l".
Definition CHECKSUM_LEN : Z := 8.
Definition GEN : list Z :=
  [0x98f2bc8e61; 0x79b76d99e2; 0xf33e5fb3c4; 0xae2eabe2a8; 0x1e4f43e470].
Definition MAX_ADDR_LEN : Z := 80.

Inductive AddressType := P2pk | P2pkEcdsa | P2sh.
Definition type_byte (t : AddressType) : Z :=
  match t with P2pk => 0x00 | P2pkEcdsa => 0x01 | P2sh => 0x08 end.

Inductive AddressError :=
  | UnknownPrefix
  | AddressTooShort
  | InvalidCharacter (byte : Z)
  | ChecksumMismatch
  | InvalidDataValue
  | InvalidPadding
  | EmptyPayload
  | UnknownVersion (version : Z)
  | InvalidPayloadLength (length version : Z)
  | UnsupportedVersion (version : Z)
  | UnsupportedLength (length : Z)
  | UnsupportedScriptVersion (version : Z)
  | WrongNetwork (prefix expected : list Z).

(** ** Bit regrouping *)

(** [while bits >= to]: at most [bits] rounds, since [to >= 1]. *)
Fixpoint drain (fuel : nat) (accumulator bits to : Z) (output : list Z) : Z * list Z :=
  match fuel with
  | O => (bits, output)
  | S fuel' =>
      if to <=? bits then
        let bits := bits - to in
        drain fuel' accumulator bits to
          (output ++ [Z.land (Z.shiftr accumulator bits) (Z.shiftl 1 to - 1)])
      else (bits, output)
  end.

Fixpoint convert_loop (data : list Z) (from to accumulator bits : Z) (output : list Z)
  : result (Z * Z * list Z) AddressError :=
  match data with
  | [] => Ok (accumulator, bits, output)
  | value :: data' =>
      if negb (Z.shiftr value from =? 0) then Err InvalidDataValue
      else
        let accumulator := (Z.shiftl accumulator from) mod 2 ^ 32 + value in
        let bits := bits + from in
        let '(bits, output) := drain (Z.to_nat bits) accumulator bits to output in
        convert_loop data' from to accumulator bits output
  end.

Definition convert_bits (data : list Z) (from to : Z) (pad : bool) : result (list Z) AddressError :=
  let? (accumulator, bits, output) := convert_loop data from to 0 0 [] in
  let max_value := Z.shiftl 1 to - 1 in
  let tail := Z.land ((Z.shiftl accumulator (to - bits)) mod 2 ^ 32) max_value in
  if pad then Ok (if 0 <? bits then output ++ [tail] else output)
  else if (from <=? bits) || negb (tail =? 0) then Err InvalidPadding
  else Ok output.

(** ** The checksum *)

Fixpoint xor_generators (top : Z) (index : Z) (generators : list Z) (checksum : Z) : Z :=
  match generators with
  | [] => checksum
  | generator :: rest =>
      xor_generators top (index + 1) rest
        (if Z.land (Z.shiftr top index) 1 =? 1 then Z.lxor checksum generator else checksum)
  end.
Definition polymod_step (checksum value : Z) : Z :=
  let top := Z.shiftr checksum 35 in
  xor_generators top 0 GEN (Z.shiftl (Z.land checksum 0x7ffffffff) 5 + value).
Definition polymod (values : list Z) : Z := fold_left polymod_step values 1.

Definition prefix_values (prefix : list Z) : list Z := map (fun byte => Z.land byte 0x1f) prefix.

Definition create_checksum (prefix payload : list Z) : Z :=
  Z.lxor (polymod (prefix_values prefix ++ [0] ++ payload ++ replicate 8 0)) 1.

Definition verify_checksum (prefix values : list Z) : result unit AddressError :=
  if polymod (prefix_values prefix ++ [0] ++ values) =? 1 then Ok tt else Err ChecksumMismatch.

(** ** Text *)

Fixpoint char_position (index : Z) (candidates : list Z) (byte : Z) : option Z :=
  match candidates with
  | [] => None
  | candidate :: rest => if candidate =? byte then Some index else char_position (index + 1) rest byte
  end.
Definition decode_char (byte : Z) : result Z AddressError :=
  ok_or (char_position 0 CHARSET byte) (InvalidCharacter byte).
Fixpoint decode_chars (data : list Z) : result (list Z) AddressError :=
  match data with
  | [] => Ok []
  | byte :: data' =>
      let? value := decode_char byte in
      let? values := decode_chars data' in
      Ok (value :: values)
  end.

Fixpoint split_once (separator : Z) (text : list Z) : option (list Z * list Z) :=
  match text with
  | [] => None
  | byte :: text' =>
      if byte =? separator then Some ([], text')
      else '(before, after) ← split_once separator text'; Some (byte :: before, after)
  end.

Definition COLON : Z := 58.
Definition known_prefix (prefix : list Z) : bool :=
  list_Z_eqb prefix (str "kaspa") || list_Z_eqb prefix (str "kaspatest")
  || list_Z_eqb prefix (str "kaspasim") || list_Z_eqb prefix (str "kaspadev").
Definition split_address (addr : list Z) : result (list Z * list Z) AddressError :=
  match split_once COLON addr with
  | None => Err UnknownPrefix
  | Some (prefix, data) =>
      if negb (known_prefix prefix) then Err UnknownPrefix
      else if blen data <? 9 then Err AddressTooShort
      else Ok (prefix, data)
  end.

Definition payload_length_for_version (version : Z) : option Z :=
  if (version =? 0x00) || (version =? 0x08) then Some 32
  else if version =? 0x01 then Some 33
  else None.

Record DecodedAddress := { version : Z; payload : list Z }.

Definition decode_address_bytes (addr : list Z) : result DecodedAddress AddressError :=
  let? (prefix, data_part) := split_address addr in
  let? values := decode_chars data_part in
  if blen values <=? CHECKSUM_LEN then Err AddressTooShort
  else
    let? _ := verify_checksum prefix values in
    let payload_values := take (Z.to_nat (blen values - CHECKSUM_LEN)) values in
    let? decoded := convert_bits payload_values 5 8 false in
    match decoded with
    | [] => Err EmptyPayload
    | version :: payload =>
        let? expected := ok_or (payload_length_for_version version) (UnknownVersion version) in
        if negb (blen payload =? expected) then Err (InvalidPayloadLength (blen payload) version)
        else Ok {| version := version; payload := payload |}
    end.

Definition charset_char (value : Z) : Z := nth (Z.to_nat value) CHARSET 0.

(** [convert_bits(&bytes, 8, 5, true)] cannot fail on bytes, which
    [convert_bytes_total] proves; the [Err] branch stands for the panic. *)
Definition encode_address_bytes (payload : list Z) (version : Z) (prefix : list Z) : list Z :=
  match convert_bits (version :: payload) 8 5 true with
  | Err _ => []
  | Ok data =>
      let checksum := create_checksum prefix data in
      prefix ++ [COLON] ++ map charset_char data ++
        map (fun index => charset_char (Z.land (Z.shiftr checksum (5 * (CHECKSUM_LEN - 1 - index))) 0x1f))
          (seqZ 0 CHECKSUM_LEN)
  end.

Definition encode_p2pk_address (pubkey prefix : list Z) : list Z :=
  encode_address_bytes pubkey (type_byte P2pk) prefix.
Definition encode_p2sh_address (script_hash prefix : list Z) : list Z :=
  encode_address_bytes script_hash (type_byte P2sh) prefix.

(** The length written, and the caller's buffer afterwards. *)
Definition encode_address_for_network (pubkey : list Z) (addr_type : AddressType)
    (network : KaspaNetwork.KaspaNetwork) (out : list Z) : Z * list Z :=
  match KaspaNetwork.hrp network with
  | None => (0, out)
  | Some prefix =>
      if negb (bool_decide (payload_length_for_version (type_byte addr_type) = Some (blen pubkey)))
      then (0, out)
      else
        let text := encode_address_bytes pubkey (type_byte addr_type) prefix in
        (blen text, text ++ drop (length text) out)
  end.

Definition decode_address (addr : list Z) : result (Z * list Z) AddressError :=
  let? decoded := decode_address_bytes addr in
  if negb ((version decoded =? 0x00) || (version decoded =? 0x08))
  then Err (UnsupportedVersion (version decoded))
  else if negb (blen (payload decoded) =? 32) then Err (UnsupportedLength (blen (payload decoded)))
  else Ok (version decoded, payload decoded).

Definition address_prefix (addr : list Z) : result (list Z) AddressError :=
  let? (prefix, _) := split_address addr in Ok prefix.

Definition address_to_script_pubkey (addr : list Z) : result (list Z) AddressError :=
  let? decoded := decode_address_bytes addr in
  let? payload := ok_or (array32 (payload decoded)) (UnsupportedScriptVersion (version decoded)) in
  if version decoded =? 0x00 then Ok (p2pk_script payload)
  else if version decoded =? 0x08 then Ok (p2sh_script payload)
  else Err (UnsupportedScriptVersion (version decoded)).

Definition address_to_script_pubkey_on (addr expected : list Z) : result (list Z) AddressError :=
  let? prefix := address_prefix addr in
  if negb (list_Z_eqb prefix expected) then Err (WrongNetwork prefix expected)
  else address_to_script_pubkey addr.

Definition script_address (script prefix : list Z) : option (list Z) :=
  match p2pk_xonly script with
  | Some key => Some (encode_p2pk_address key prefix)
  | None => (fun hash => encode_p2sh_address hash prefix) <$> p2sh_hash script
  end.

(** * Theorems *)

(** ** Fixed-width bits, most significant first *)

Fixpoint bits_of (width : nat) (value : Z) : list bool :=
  match width with
  | O => []
  | S w => Z.testbit value (Z.of_nat w) :: bits_of w value
  end.
Definition all_bits (width : nat) (values : list Z) : list bool := concat (map (bits_of width) values).

Lemma length_bits_of w v : length (bits_of w v) = w.
Proof. induction w; cbn; auto. Qed.

Lemma bits_of_ext w v v' :
  (forall i, 0 <= i < Z.of_nat w -> Z.testbit v i = Z.testbit v' i) -> bits_of w v = bits_of w v'.
Proof. induction w as [|w IH]; intros H; [done|]. cbn. rewrite H by lia. f_equal. apply IH. intros; apply H; lia. Qed.

Lemma testbit_above w v i : 0 <= v < 2 ^ w -> 0 <= w <= i -> Z.testbit v i = false.
Proof. intros Hv Hi. rewrite <- (Z.mod_small v (2 ^ w)) by done. by rewrite Z.mod_pow2_bits_high by lia. Qed.

Lemma bits_of_inj w v v' :
  0 <= v < 2 ^ Z.of_nat w -> 0 <= v' < 2 ^ Z.of_nat w -> bits_of w v = bits_of w v' -> v = v'.
Proof.
  intros Hv Hv' Heq. apply Z.bits_inj'. intros i Hi.
  destruct (Z.lt_ge_cases i (Z.of_nat w)) as [Hlt|Hge].
  - clear Hv Hv'. induction w as [|w IH]; [lia|]. cbn in Heq. injection Heq as Htop Hrest.
    destruct (Z.eq_dec i (Z.of_nat w)) as [->|]; [done|]. apply IH; [done|lia].
  - by rewrite !(testbit_above (Z.of_nat w)) by (done || lia).
Qed.

Lemma bits_of_app a b v : bits_of (a + b) v = bits_of a (Z.shiftr v (Z.of_nat b)) ++ bits_of b v.
Proof.
  induction a as [|a IH]; [done|]. cbn. rewrite IH, Z.shiftr_spec by lia. do 2 f_equal. lia.
Qed.

Lemma all_bits_snoc w l v : all_bits w (l ++ [v]) = all_bits w l ++ bits_of w v.
Proof. unfold all_bits. rewrite map_app, concat_app. cbn. by rewrite app_nil_r. Qed.

Lemma length_all_bits w l : length (all_bits w l) = (w * length l)%nat.
Proof.
  unfold all_bits. induction l as [|v l IH]; cbn; [lia|]. rewrite length_app, length_bits_of, IH. lia.
Qed.

Definition digits_ok (w : nat) (l : list Z) : Prop := Forall (fun v => 0 <= v < 2 ^ Z.of_nat w) l.

Lemma all_bits_inj w l l' :
  (0 < w)%nat -> digits_ok w l -> digits_ok w l' -> all_bits w l = all_bits w l' -> l = l'.
Proof.
  intros Hw Hl. revert l'. induction Hl as [|v l Hv _ IH]; intros [|v' l'] Hl' Heq; [done| | |].
  - apply (f_equal length) in Heq. rewrite !length_all_bits in Heq. cbn in Heq. lia.
  - apply (f_equal length) in Heq. rewrite !length_all_bits in Heq. cbn in Heq. lia.
  - apply Forall_cons in Hl' as [Hv' Hl']. unfold all_bits in Heq. cbn in Heq.
    apply app_inj_1 in Heq as [Hb Heq]; [|by rewrite !length_bits_of].
    apply bits_of_inj in Hb as ->; [|done..]. f_equal. by apply IH.
Qed.

(** Shifting a value in on the right of a [u32] accumulator appends its bits. *)
Lemma bits_of_shift_in from b acc v :
  (b + from <= 32)%nat -> 0 <= v < 2 ^ Z.of_nat from ->
  bits_of (b + from) ((Z.shiftl acc (Z.of_nat from)) mod 2 ^ 32 + v) = bits_of b acc ++ bits_of from v.
Proof.
  intros Hw Hv.
  assert (Hdisj : Z.land ((Z.shiftl acc (Z.of_nat from)) mod 2 ^ 32) v = 0).
  { apply Z.bits_inj'. intros i Hi. rewrite Z.land_spec, Z.bits_0.
    destruct (Z.lt_ge_cases i (Z.of_nat from)).
    - rewrite Z.mod_pow2_bits_low by lia. rewrite Z.shiftl_spec_low by lia. done.
    - by rewrite (testbit_above (Z.of_nat from) v), andb_false_r by (done || lia). }
  rewrite Z.add_nocarry_lxor, Z.lxor_lor by done.
  rewrite bits_of_app. f_equal; apply bits_of_ext; intros i Hi.
  - rewrite Z.shiftr_spec, Z.lor_spec, Z.mod_pow2_bits_low, Z.shiftl_spec by lia.
    rewrite (testbit_above (Z.of_nat from) v), orb_false_r by (done || lia). f_equal. lia.
  - rewrite Z.lor_spec, Z.mod_pow2_bits_low, Z.shiftl_spec_low by lia. done.
Qed.

Lemma mask_ones w : 0 <= w -> Z.shiftl 1 w - 1 = Z.ones w.
Proof. intros. rewrite Z.shiftl_1_l, Z.ones_equiv. lia. Qed.

Lemma bits_of_masked w v : bits_of w (Z.land v (Z.shiftl 1 (Z.of_nat w) - 1)) = bits_of w v.
Proof.
  rewrite mask_ones, Z.land_ones by lia.
  apply bits_of_ext. intros. by rewrite Z.mod_pow2_bits_low by lia.
Qed.

(** ** Regrouping keeps the bits *)

Lemma masked_digit w v : 0 <= Z.land v (Z.shiftl 1 (Z.of_nat w) - 1) < 2 ^ Z.of_nat w.
Proof. rewrite mask_ones, Z.land_ones by lia. apply Z.mod_pos_bound. lia. Qed.

Lemma drain_spec fuel acc b t out :
  (0 < t)%nat -> (b <= fuel)%nat ->
  exists b' outs, drain fuel acc (Z.of_nat b) (Z.of_nat t) out = (Z.of_nat b', out ++ outs) /\
    (b' < t)%nat /\ digits_ok t outs /\ bits_of b acc = all_bits t outs ++ bits_of b' acc.
Proof.
  intros Ht. revert b out. induction fuel as [|fuel IH]; intros b out Hb; cbn [drain].
  - assert (b = 0%nat) as -> by lia. exists 0%nat, []. rewrite app_nil_r. split_and!; [done|lia|constructor|done].
  - destruct (Z.leb_spec (Z.of_nat t) (Z.of_nat b)).
    + replace (Z.of_nat b - Z.of_nat t) with (Z.of_nat (b - t)) by lia.
      set (digit := Z.land _ _). destruct (IH (b - t)%nat (out ++ [digit])) as (b' & outs & -> & Hb' & Hok & Heq); [lia|].
      exists b', (digit :: outs). split_and!; [by rewrite <- app_assoc|done| |].
      * constructor; [apply masked_digit|done].
      * replace b with (t + (b - t))%nat at 1 by lia. rewrite bits_of_app, Heq.
        unfold all_bits. cbn. unfold digit. by rewrite bits_of_masked, <- app_assoc.
    + exists b, []. rewrite app_nil_r. split_and!; [done|lia|constructor|done].
Qed.

Lemma convert_loop_spec data from to acc b out :
  (0 < to)%nat -> (to + from <= 32)%nat -> (b < to)%nat -> digits_ok from data ->
  exists acc' b' outs,
    convert_loop data (Z.of_nat from) (Z.of_nat to) acc (Z.of_nat b) out =
      Ok (acc', Z.of_nat b', out ++ outs) /\ (b' < to)%nat /\ digits_ok to outs /\
    bits_of b acc ++ all_bits from data = all_bits to outs ++ bits_of b' acc'.
Proof.
  intros Hto Hw Hb Hdata. revert acc b out Hb. induction Hdata as [|v data Hv _ IH]; intros acc b out Hb; cbn [convert_loop].
  - exists acc, b, []. rewrite !app_nil_r. split_and!; [done|done|constructor|done].
  - rewrite Z.shiftr_div_pow2, Z.div_small by (done || lia). cbn [negb Z.eqb].
    rewrite <- Nat2Z.inj_add, Nat2Z.id. set (acc1 := _ + v).
    destruct (drain_spec (b + from) acc1 (b + from) to out) as (b1 & o1 & -> & Hb1 & Hok1 & Heq1); [lia|lia|].
    destruct (IH acc1 b1 (out ++ o1) Hb1) as (acc2 & b2 & o2 & -> & Hb2 & Hok2 & Heq2).
    exists acc2, b2, (o1 ++ o2). rewrite app_assoc. split_and!; [done|done|by apply Forall_app|].
    unfold acc1 in Heq1 at 1. rewrite bits_of_shift_in in Heq1 by lia.
    unfold all_bits in *. cbn [map concat]. rewrite app_assoc, Heq1, <- app_assoc, Heq2.
    by rewrite map_app, concat_app, app_assoc.
Qed.

Lemma convert_loop_ok data from to acc b out r :
  Forall (fun v => 0 <= v) data -> convert_loop data (Z.of_nat from) to acc b out = Ok r -> digits_ok from data.
Proof.
  intros Hpos. revert acc b out. induction Hpos as [|v data Hv _ IH]; intros acc b out; cbn [convert_loop].
  - constructor.
  - destruct (Z.eqb_spec (Z.shiftr v (Z.of_nat from)) 0) as [Hs|]; [|done]. cbn [negb].
    destruct (drain _ _ _ _ _). intros H. constructor; [|by eapply IH].
    rewrite Z.shiftr_div_pow2 in Hs by lia. pose proof (Z.div_mod v (2 ^ Z.of_nat from)) as Hdm.
    pose proof (Z.mod_pos_bound v (2 ^ Z.of_nat from)). lia.
Qed.

Lemma bits_of_zero w : bits_of w 0 = replicate w false.
Proof. induction w as [|w IH]; cbn; [done|]. by rewrite Z.bits_0, IH. Qed.

Lemma tail_bits to b acc :
  (b <= to)%nat -> (to <= 32)%nat ->
  bits_of to (Z.land ((Z.shiftl acc (Z.of_nat to - Z.of_nat b)) mod 2 ^ 32) (Z.shiftl 1 (Z.of_nat to) - 1)) =
    bits_of b acc ++ replicate (to - b) false.
Proof.
  intros Hb Hto. rewrite bits_of_masked. rewrite <- bits_of_zero, <- Nat2Z.inj_sub by lia.
  rewrite <- bits_of_shift_in by lia. rewrite Z.add_0_r. f_equal. lia.
Qed.

(** Padded regrouping: the bits of the data, then fewer than [to] zeros. *)
Lemma convert_bits_pad data from to :
  (0 < to)%nat -> (to + from <= 32)%nat -> digits_ok from data ->
  exists out zeros, convert_bits data (Z.of_nat from) (Z.of_nat to) true = Ok out /\
    digits_ok to out /\ (zeros < to)%nat /\ all_bits to out = all_bits from data ++ replicate zeros false.
Proof.
  intros Hto Hw Hdata. unfold convert_bits.
  destruct (convert_loop_spec data from to 0 0 [] Hto Hw Hto Hdata) as (acc & b & outs & Heq & Hb & Hok & Hbits).
  change (Z.of_nat 0) with 0 in Heq. rewrite Heq. cbn [rbind app]. cbn [bits_of app] in Hbits.
  destruct (Z.ltb_spec 0 (Z.of_nat b)).
  - eexists _, (to - b)%nat. split; [done|]. split_and!; [|lia|].
    + apply Forall_app. split; [done|]. constructor; [apply masked_digit|done].
    + by rewrite all_bits_snoc, tail_bits, Hbits, <- app_assoc by lia.
  - assert (b = 0%nat) as -> by lia. exists outs, 0%nat. rewrite Hbits, !app_nil_r. done.
Qed.

(** Unpadded regrouping succeeds exactly when what is left over is fewer than
    [from] bits, all zero. *)
Lemma convert_bits_exact data from to out :
  (0 < to)%nat -> (to + from <= 32)%nat -> Forall (fun v => 0 <= v) data ->
  convert_bits data (Z.of_nat from) (Z.of_nat to) false = Ok out <->
  digits_ok from data /\ digits_ok to out /\ exists zeros, (zeros < from)%nat /\ (zeros < to)%nat /\
    all_bits from data = all_bits to out ++ replicate zeros false.
Proof.
  intros Hto Hw Hpos. unfold convert_bits. split.
  - destruct (convert_loop _ _ _ _ _ _) as [[[acc b] outs]|] eqn:Hloop; [|done]. cbn [rbind].
    pose proof (convert_loop_ok _ _ _ _ _ _ _ Hpos Hloop) as Hdata.
    destruct (convert_loop_spec data from to 0 0 [] Hto Hw Hto Hdata) as (acc' & b' & outs' & Heq & Hb & Hok & Hbits).
    change (Z.of_nat 0) with 0 in Heq. rewrite Heq in Hloop. cbn [app] in Hloop. injection Hloop as <- <- <-.
    destruct (Z.leb_spec (Z.of_nat from) (Z.of_nat b')); [done|]. cbn [orb].
    destruct (Z.eqb_spec (Z.land (Z.shiftl acc' (Z.of_nat to - Z.of_nat b') mod 2 ^ 32) (Z.shiftl 1 (Z.of_nat to) - 1)) 0)
      as [Hz|]; [|done].
    intros [= <-]. split_and!; [done..|]. exists b'. split_and!; [lia|done|].
    cbn [bits_of app] in Hbits. rewrite Hbits. f_equal.
    pose proof (tail_bits to b' acc' ltac:(lia) ltac:(lia)) as Ht. rewrite Hz, bits_of_zero in Ht.
    replace to with (b' + (to - b'))%nat in Ht at 1 by lia. rewrite replicate_add in Ht.
    by apply app_inj_1 in Ht as [-> _]; [|rewrite length_replicate, length_bits_of].
  - intros (Hdata & Hout & zeros & Hz1 & Hz2 & Hall).
    destruct (convert_loop_spec data from to 0 0 [] Hto Hw Hto Hdata) as (acc & b & outs & Heq & Hb & Hok & Hbits).
    change (Z.of_nat 0) with 0 in Heq. rewrite Heq. cbn [rbind app]. cbn [bits_of app] in Hbits.
    rewrite Hbits in Hall.
    assert (Hlen : length outs = length out /\ b = zeros).
    { apply (f_equal length) in Hall. rewrite !length_app, !length_all_bits, length_bits_of, length_replicate in Hall.
      by apply (Nat.div_mod_unique to) in Hall. }
    destruct Hlen as [Hlen ->].
    apply app_inj_1 in Hall as [Houts Hrep]; [|by rewrite !length_all_bits, Hlen].
    apply all_bits_inj in Houts as ->; [|done..].
    decide_tests. cbn [orb].
    assert (Htail : Z.land (Z.shiftl acc (Z.of_nat to - Z.of_nat zeros) mod 2 ^ 32) (Z.shiftl 1 (Z.of_nat to) - 1) = 0).
    { apply (bits_of_inj to); [apply masked_digit|lia|].
      rewrite tail_bits by lia. rewrite Hrep, bits_of_zero, <- replicate_add. f_equal. lia. }
    by rewrite Htail.
Qed.

(** The two conversions of the codec invert each other. *)
Lemma convert_bits_inverse bytes values :
  bytes_ok bytes -> Forall (fun v => 0 <= v) values ->
  convert_bits bytes 8 5 true = Ok values <-> convert_bits values 5 8 false = Ok bytes.
Proof.
  intros Hbytes Hvalues.
  destruct (convert_bits_pad bytes 8 5) as (out & zeros & Hpad & Hout & Hz & Hall); [lia|lia|done|].
  change (Z.of_nat 8) with 8 in *. change (Z.of_nat 5) with 5 in *. rewrite Hpad.
  rewrite (convert_bits_exact values 5 8 bytes) by (done || lia). split.
  - intros [= <-]. split_and!; [done..|]. exists zeros. split_and!; [lia|lia|done].
  - intros (Hv & _ & zeros' & Hz' & _ & Hall'). f_equal. apply (all_bits_inj 5); [lia|done..|].
    rewrite Hall, Hall'. do 2 f_equal.
    apply (f_equal length) in Hall, Hall'. rewrite !length_app, !length_all_bits, length_replicate in *. lia.
Qed.

(** ** The checksum is linear over exclusive or *)

Arguments polymod_step : simpl never.

Definition fits (width x : Z) : Prop := 0 <= x < 2 ^ width.

Lemma fits_lxor w x y : 0 <= w -> fits w x -> fits w y -> fits w (Z.lxor x y).
Proof.
  unfold fits. intros Hw Hx Hy.
  assert (0 <= Z.lxor x y) by (apply Z.lxor_nonneg; lia). split; [done|].
  assert (Z.lxor x y = Z.lxor x y mod 2 ^ w) as ->; [|apply Z.mod_pos_bound; lia].
  apply Z.bits_inj'. intros i Hi. destruct (Z.lt_ge_cases i w).
  - by rewrite Z.mod_pow2_bits_low by lia.
  - rewrite Z.mod_pow2_bits_high, Z.lxor_spec, !(testbit_above w) by lia. done.
Qed.

Lemma lxor_swap a b c d : Z.lxor (Z.lxor a b) (Z.lxor c d) = Z.lxor (Z.lxor a c) (Z.lxor b d).
Proof. rewrite !Z.lxor_assoc. f_equal. rewrite <- !Z.lxor_assoc. f_equal. apply Z.lxor_comm. Qed.

Lemma bit_test x i : 0 <= i -> (Z.land (Z.shiftr x i) 1 =? 1) = Z.testbit x i.
Proof.
  intros. change 1 with (Z.ones 1) at 1. rewrite Z.land_ones, Z.shiftr_div_pow2, <- Z.testbit_spec' by lia.
  by destruct (Z.testbit x i).
Qed.

Lemma xor_generators_linear a b i gens c d :
  0 <= i ->
  xor_generators (Z.lxor a b) i gens (Z.lxor c d) = Z.lxor (xor_generators a i gens c) (xor_generators b i gens d).
Proof.
  revert i c d. induction gens as [|g gens IH]; intros i c d Hi; cbn [xor_generators]; [done|].
  rewrite <- IH by lia. f_equal. rewrite !bit_test, Z.lxor_spec by done.
  destruct (Z.testbit a i), (Z.testbit b i); cbn [xorb].
  - by rewrite lxor_swap, Z.lxor_nilpotent, Z.lxor_0_r.
  - rewrite !Z.lxor_assoc. f_equal. apply Z.lxor_comm.
  - by rewrite Z.lxor_assoc.
  - done.
Qed.

Lemma xor_generators_fits a i gens c :
  fits 40 c -> Forall (fits 40) gens -> fits 40 (xor_generators a i gens c).
Proof.
  intros Hc Hg. revert i c Hc. induction Hg; intros i c Hc; cbn; [done|].
  apply IHHg. case_match; [by apply fits_lxor|done].
Qed.

Lemma GEN_fits : Forall (fits 40) GEN.
Proof. unfold fits. repeat constructor; done. Qed.

(** The five low bits enter without carries. *)
Lemma shift_in_value x v : 0 <= v < 32 -> Z.shiftl x 5 + v = Z.lxor (Z.shiftl x 5) v.
Proof.
  intros Hv. apply Z.add_nocarry_lxor. apply Z.bits_inj'. intros i Hi. rewrite Z.land_spec, Z.bits_0.
  destruct (Z.lt_ge_cases i 5).
  - by rewrite Z.shiftl_spec_low by lia.
  - by rewrite (testbit_above 5 v), andb_false_r by lia.
Qed.

Lemma land_lxor_distr a b m : Z.land (Z.lxor a b) m = Z.lxor (Z.land a m) (Z.land b m).
Proof.
  apply Z.bits_inj'. intros. rewrite !Z.land_spec, !Z.lxor_spec, !Z.land_spec.
  by destruct (Z.testbit a n), (Z.testbit b n), (Z.testbit m n).
Qed.

Definition symbols := Forall (fun v => 0 <= v < 32).

Lemma polymod_step_linear c d v w :
  0 <= v < 32 -> 0 <= w < 32 ->
  polymod_step (Z.lxor c d) (Z.lxor v w) = Z.lxor (polymod_step c v) (polymod_step d w).
Proof.
  intros Hv Hw. unfold polymod_step.
  assert (Hx : 0 <= Z.lxor v w < 32) by (apply (fits_lxor 5); unfold fits; lia).
  rewrite !shift_in_value by done. rewrite Z.shiftr_lxor by lia. rewrite <- xor_generators_linear by lia.
  by rewrite land_lxor_distr, Z.shiftl_lxor, lxor_swap by lia.
Qed.

Lemma polymod_step_fits c v : fits 40 c -> 0 <= v < 32 -> fits 40 (polymod_step c v).
Proof.
  intros Hc Hv. unfold polymod_step. apply xor_generators_fits; [|apply GEN_fits].
  change 0x7ffffffff with (Z.ones 35). rewrite Z.land_ones, Z.shiftl_mul_pow2 by lia. unfold fits.
  pose proof (Z.mod_pos_bound c (2 ^ 35) ltac:(lia)). change (2 ^ 35) with 34359738368 in *. lia.
Qed.

Definition polymod_from (c : Z) (values : list Z) : Z := fold_left polymod_step values c.

Lemma polymod_from_fits c values : fits 40 c -> symbols values -> fits 40 (polymod_from c values).
Proof.
  intros Hc Hv. revert c Hc. induction Hv; intros c Hc; [done|]. cbn. apply IHHv. by apply polymod_step_fits.
Qed.

Lemma polymod_from_linear c d vs ws :
  symbols vs -> symbols ws -> length vs = length ws ->
  polymod_from (Z.lxor c d) (zip_with Z.lxor vs ws) = Z.lxor (polymod_from c vs) (polymod_from d ws).
Proof.
  intros Hv. revert c d ws. induction Hv as [|v vs Hv _ IH]; intros c d [|w ws] Hw Hlen; try done.
  apply Forall_cons in Hw as [Hw Hws]. cbn. rewrite polymod_step_linear by done. apply IH; [done|].
  by injection Hlen.
Qed.

Lemma zip_lxor_self vs : zip_with Z.lxor vs vs = replicate (length vs) 0.
Proof. induction vs as [|v vs IH]; cbn; [done|]. by rewrite Z.lxor_nilpotent, IH. Qed.

Lemma zip_lxor_zeros vs : zip_with Z.lxor (replicate (length vs) 0) vs = vs.
Proof. induction vs as [|v vs IH]; cbn -[Z.lxor]; [done|]. by rewrite Z.lxor_0_l, IH. Qed.

Lemma symbols_zeros k : symbols (replicate k 0).
Proof. apply Forall_replicate. lia. Qed.

(** Up to eight symbols from an empty state are just collected. *)
Definition symbols_value (a : Z) (values : list Z) : Z := fold_left (fun a v => 32 * a + v) values a.

Lemma xor_generators_zero i gens c : 0 <= i -> xor_generators 0 i gens c = c.
Proof.
  revert i c. induction gens as [|g gens IH]; intros i c Hi; cbn [xor_generators]; [done|].
  rewrite bit_test, Z.bits_0 by done. apply IH. lia.
Qed.

Lemma polymod_from_collect a values (k : nat) :
  symbols values -> 0 <= a < 32 ^ Z.of_nat k -> (k + length values <= 8)%nat ->
  polymod_from a values = symbols_value a values.
Proof.
  intros Hv. revert a k. induction Hv as [|v values Hv _ IH]; intros a k Ha Hlen; [done|]. cbn in *.
  assert (Hb : a < 2 ^ 35).
  { assert (32 ^ Z.of_nat k <= 32 ^ 7) by (apply Z.pow_le_mono_r; lia).
    change (2 ^ 35) with (32 ^ 7). lia. }
  assert (polymod_step a v = 32 * a + v) as ->.
  { unfold polymod_step. rewrite Z.shiftr_div_pow2, Z.div_small by lia. rewrite xor_generators_zero by lia.
    change 0x7ffffffff with (Z.ones 35). rewrite Z.land_ones, Z.mod_small, Z.shiftl_mul_pow2 by lia. lia. }
  apply (IH _ (S k)); [|lia]. rewrite Nat2Z.inj_succ, Z.pow_succ_r by lia. lia.
Qed.

Lemma symbols_value_zero a values :
  symbols values -> 0 <= a -> symbols_value a values = 0 -> a = 0 /\ values = replicate (length values) 0.
Proof.
  intros Hv. revert a. induction Hv as [|v values Hv _ IH]; intros a Ha; [done|]. cbn.
  intros H. apply IH in H as [H1 ->]; [|lia]. rewrite length_replicate.
  assert (v = 0) as -> by lia. split; [lia|done].
Qed.

(** ** The checksum symbols *)

Definition checksum_symbols (checksum : Z) : list Z :=
  map (fun index => Z.land (Z.shiftr checksum (5 * (CHECKSUM_LEN - 1 - index))) 0x1f) (seqZ 0 CHECKSUM_LEN).

Lemma checksum_symbols_ok c : symbols (checksum_symbols c).
Proof.
  apply Forall_map, Forall_forall. intros i _. change 0x1f with (Z.ones 5).
  rewrite Z.land_ones by lia. apply Z.mod_pos_bound. lia.
Qed.

Lemma checksum_symbols_value c : fits 40 c -> symbols_value 0 (checksum_symbols c) = c.
Proof.
  intros Hc. unfold fits in Hc. unfold checksum_symbols, CHECKSUM_LEN. change (seqZ 0 8) with [0; 1; 2; 3; 4; 5; 6; 7].
  cbn [map symbols_value fold_left]. change 0x1f with (Z.ones 5).
  rewrite !Z.land_ones, !Z.shiftr_div_pow2 by lia.
  assert (Hstep : forall e k, e = k + 5 -> 0 <= k -> 32 * (c / 2 ^ e) + (c / 2 ^ k) mod 2 ^ 5 = c / 2 ^ k).
  { intros ? k -> Hk. rewrite Z.pow_add_r by lia. change (2 ^ 5) with 32.
    rewrite <- Z.div_div by lia. pose proof (Z.div_mod (c / 2 ^ k) 32). lia. }
  replace (32 * 0) with (32 * (c / 2 ^ 40)) by (rewrite Z.div_small; [done|exact Hc]).
  rewrite !Hstep by done. apply Z.div_1_r.
Qed.

Lemma symbols_value_inj values values' :
  symbols values -> symbols values' -> length values = length values' -> (length values <= 8)%nat ->
  symbols_value 0 values = symbols_value 0 values' -> values = values'.
Proof.
  intros Hv Hv' Hlen H8 Heq.
  assert (Hz : symbols (zip_with Z.lxor values values')).
  { clear -Hv Hv'. revert values' Hv'. induction Hv as [|v vs Hv _ IH]; intros [|w ws] Hw; cbn; try constructor.
    - apply Forall_cons in Hw as [Hw _]. apply (fits_lxor 5); unfold fits; lia.
    - apply IH. by apply Forall_cons in Hw as [_ Hw]. }
  assert (Hlenz : length (zip_with Z.lxor values values') = length values) by (rewrite length_zip_with; lia).
  pose proof (polymod_from_linear 0 0 values values' Hv Hv' Hlen) as Hlin.
  rewrite !(polymod_from_collect 0 _ 0) in Hlin by (done || cbn; lia).
  rewrite Heq, Z.lxor_nilpotent in Hlin. apply symbols_value_zero in Hlin as [_ Hlin]; [|done|done].
  rewrite Hlenz in Hlin. clear -Hlin Hlen. revert values' Hlen Hlin.
  induction values as [|v vs IH]; intros [|w ws] Hlen Hz; try done. cbn in Hz. injection Hz as Hvw Hz.
  apply Z.lxor_eq in Hvw as ->. f_equal. apply IH; [by injection Hlen|done].
Qed.

Lemma prefix_values_ok prefix : symbols (prefix_values prefix).
Proof.
  apply Forall_map, Forall_forall. intros b _. change 0x1f with (Z.ones 5).
  rewrite Z.land_ones by lia. apply Z.mod_pos_bound. lia.
Qed.

Lemma polymod_app vs ws : polymod (vs ++ ws) = polymod_from (polymod vs) ws.
Proof. unfold polymod, polymod_from. by rewrite fold_left_app. Qed.

Lemma polymod_fits vs : symbols vs -> fits 40 (polymod vs).
Proof. intros. apply polymod_from_fits; [|done]. by unfold fits. Qed.

(** Exactly the eight symbols of [create_checksum] verify. *)
Lemma verify_checksum_spec prefix data check :
  symbols data -> symbols check -> length check = 8%nat ->
  verify_checksum prefix (data ++ check) = Ok tt <-> check = checksum_symbols (create_checksum prefix data).
Proof.
  intros Hdata Hcheck Hlen. unfold verify_checksum, create_checksum.
  set (state := prefix_values prefix ++ [0] ++ data).
  assert (Hstate : symbols state).
  { unfold state, symbols. rewrite !Forall_app, Forall_singleton. split; [apply prefix_values_ok|]. split; [lia|done]. }
  replace (prefix_values prefix ++ [0] ++ data ++ check) with (state ++ check) by (unfold state; app_eq).
  replace (prefix_values prefix ++ [0] ++ data ++ replicate 8 0) with (state ++ replicate 8 0) by (unfold state; app_eq).
  rewrite !polymod_app. set (p := polymod_from (polymod state) (replicate 8 0)).
  assert (Hp : fits 40 p) by (apply polymod_from_fits; [by apply polymod_fits|apply symbols_zeros]).
  assert (Hsplit : polymod_from (polymod state) check = Z.lxor p (symbols_value 0 check)).
  { rewrite <- (polymod_from_collect 0 check 0) by (done || cbn; lia). unfold p. rewrite <- Hlen.
    rewrite <- polymod_from_linear; [|apply symbols_zeros|done|by rewrite length_replicate].
    by rewrite Z.lxor_0_r, zip_lxor_zeros. }
  rewrite Hsplit. assert (Hp1 : fits 40 (Z.lxor p 1)) by (apply fits_lxor; [lia|done|by unfold fits]).
  split.
  - destruct (Z.eqb_spec (Z.lxor p (symbols_value 0 check)) 1) as [H1|]; [|done]. intros _.
    apply symbols_value_inj; [done|apply checksum_symbols_ok|by rewrite Hlen|by rewrite Hlen|].
    rewrite checksum_symbols_value by done. rewrite <- H1.
    by rewrite <- Z.lxor_assoc, Z.lxor_nilpotent, Z.lxor_0_l.
  - intros ->. rewrite checksum_symbols_value by done.
    by rewrite <- Z.lxor_assoc, Z.lxor_nilpotent, Z.lxor_0_l.
Qed.

(** ** Error detection: a step is injective on the state *)

Lemma generators_low_bits :
  Forall (fun top => Z.land (xor_generators top 0 GEN 0) 31 = 0 -> top = 0) (seqZ 0 32).
Proof. repeat constructor; vm_compute; congruence. Qed.

Lemma polymod_step_injective c : fits 40 c -> polymod_step c 0 = 0 -> c = 0.
Proof.
  unfold fits, polymod_step. intros Hc Hstep. rewrite Z.add_0_r in Hstep.
  set (top := Z.shiftr c 35) in *. set (low := Z.land c 0x7ffffffff) in *.
  assert (Htop : 0 <= top < 32).
  { unfold top. rewrite Z.shiftr_div_pow2 by lia. change (2 ^ 40) with (2 ^ 35 * 32) in Hc.
    split; [apply Z.div_pos; lia|apply Z.div_lt_upper_bound; lia]. }
  rewrite <- (Z.lxor_0_l (Z.shiftl low 5)), <- (Z.lxor_0_r top), xor_generators_linear in Hstep by done.
  rewrite xor_generators_zero in Hstep by done. apply Z.lxor_eq in Hstep.
  pose proof generators_low_bits as Hgen. rewrite Forall_forall in Hgen.
  assert (top = 0) as Ht.
  { apply Hgen; [apply elem_of_seqZ; lia|]. rewrite Hstep. change 31 with (Z.ones 5).
    rewrite Z.land_ones, Z.shiftl_mul_pow2 by lia. by rewrite Z.mod_mul. }
  rewrite Ht, xor_generators_zero in Hstep by done. rewrite Z.shiftl_mul_pow2 in Hstep by lia.
  unfold low, top in *. change 0x7ffffffff with (Z.ones 35) in *. rewrite Z.land_ones in Hstep by lia.
  rewrite Z.shiftr_div_pow2 in Ht by lia. pose proof (Z.div_mod c (2 ^ 35)). lia.
Qed.

Lemma polymod_zeros_injective k c : fits 40 c -> polymod_from c (replicate k 0) = 0 -> c = 0.
Proof.
  revert c. induction k as [|k IH]; intros c Hc; cbn; [done|]. intros H.
  apply polymod_step_injective; [done|]. apply IH; [|done]. by apply polymod_step_fits.
Qed.

(** Two valid symbol strings that differ only inside a window of eight
    symbols are equal. *)
Lemma burst_detected prefix before window window' after :
  symbols before -> symbols window -> symbols window' -> symbols after ->
  length window = length window' -> (length window <= 8)%nat ->
  verify_checksum prefix (before ++ window ++ after) = Ok tt ->
  verify_checksum prefix (before ++ window' ++ after) = Ok tt -> window = window'.
Proof.
  intros Hb Hw Hw' Ha Hlen H8. unfold verify_checksum.
  set (state := prefix_values prefix ++ [0] ++ before).
  replace (prefix_values prefix ++ [0] ++ before ++ window ++ after) with (state ++ window ++ after) by (unfold state; app_eq).
  replace (prefix_values prefix ++ [0] ++ before ++ window' ++ after) with (state ++ window' ++ after) by (unfold state; app_eq).
  rewrite !polymod_app.
  destruct (Z.eqb_spec (polymod_from (polymod state) (window ++ after)) 1) as [H1|]; [|done].
  destruct (Z.eqb_spec (polymod_from (polymod state) (window' ++ after)) 1) as [H2|]; [|done].
  intros _ _. apply symbols_value_inj; [done..|].
  rewrite <- !(polymod_from_collect 0 _ 0) by (done || cbn; lia). apply Z.lxor_eq.
  rewrite <- polymod_from_linear, Z.lxor_0_r by done.
  set (diff := zip_with Z.lxor window window').
  assert (Hdiff : fits 40 (polymod_from 0 diff)).
  { unfold diff. rewrite <- (Z.lxor_0_r 0), polymod_from_linear by done.
    apply fits_lxor; [lia|..]; (apply polymod_from_fits; [by unfold fits|done]). }
  apply (polymod_zeros_injective (length after)); [done|].
  transitivity (polymod_from (Z.lxor (polymod state) (polymod state)) (zip_with Z.lxor (window ++ after) (window' ++ after))).
  - rewrite Z.lxor_nilpotent, zip_with_app, zip_lxor_self by done. unfold polymod_from. by rewrite fold_left_app.
  - rewrite polymod_from_linear; [by rewrite H1, H2|by apply Forall_app|by apply Forall_app|].
    by rewrite !length_app, Hlen.
Qed.

(** ** Characters and text *)

Lemma char_position_Some i l b v :
  char_position i l b = Some v -> exists n, v = i + Z.of_nat n /\ l !! n = Some b.
Proof.
  revert i. induction l as [|c l IH]; intros i; cbn; [done|]. destruct (Z.eqb_spec c b) as [->|].
  - intros [= <-]. exists 0%nat. split; [lia|done].
  - intros (k & -> & Hk)%IH. exists (S k). split; [lia|done].
Qed.

Lemma charset_round_trip :
  Forall (fun v => char_position 0 CHARSET (charset_char v) = Some v /\ charset_char v <> COLON) (seqZ 0 32).
Proof. repeat constructor; vm_compute; congruence. Qed.

Lemma decode_char_spec b v : decode_char b = Ok v <-> 0 <= v < 32 /\ b = charset_char v.
Proof.
  unfold decode_char. rewrite ok_or_Ok. split.
  - intros (n & -> & Hn)%char_position_Some. cbn [Z.add]. pose proof (lookup_lt_Some _ _ _ Hn) as Hlt.
    change (length CHARSET) with 32%nat in Hlt. split; [lia|]. unfold charset_char.
    rewrite Z.add_0_l, Nat2Z.id. symmetry. by apply nth_lookup_Some.
  - intros [Hv ->]. pose proof charset_round_trip as Hall. rewrite Forall_forall in Hall.
    apply Hall, elem_of_seqZ. lia.
Qed.

Lemma decode_chars_spec data values :
  decode_chars data = Ok values <-> symbols values /\ data = map charset_char values.
Proof.
  revert values. induction data as [|b data IH]; intros values; cbn [decode_chars].
  - split; [intros [= <-]; split; [constructor|done]|]. intros [_ H]. by destruct values.
  - split.
    + intros H. comp_inv. apply decode_char_spec in H as [? ->].
      apply IH in H0 as [? ->]. split; [by constructor|done].
    + destruct values as [|v values]; [by intros [_ [=]]|]. cbn [map]. intros [[Hv Hvs]%Forall_cons [= -> ->]].
      rewrite (proj2 (decode_char_spec _ v)) by done. cbn [rbind].
      by rewrite (proj2 (IH values)).
Qed.

Lemma split_once_Some sep text l r :
  split_once sep text = Some (l, r) <-> text = l ++ sep :: r /\ sep ∉ l.
Proof.
  revert l. induction text as [|b text IH]; intros l; cbn [split_once].
  - split; [done|]. intros [H _]. by destruct l.
  - destruct (Z.eqb_spec b sep) as [->|Hb].
    + split; [intros [= <- <-]; split; [done|apply not_elem_of_nil]|].
      intros [H Hn]. destruct l as [|c l]; cbn in H; [by injection H as ->|].
      injection H as -> _. by destruct Hn; constructor.
    + destruct (split_once sep text) as [[l' r']|]; cbn.
      * split.
        -- intros [= <- <-]. destruct (proj1 (IH l')) as [-> Hn]; [done|]. split; [done|]. by apply not_elem_of_cons.
        -- intros [H Hn]. destruct l as [|c l]; [by injection H as ? ?|]. injection H as -> H.
           apply not_elem_of_cons in Hn as [_ Hn]. by specialize (proj2 (IH l) (conj H Hn)) as [= -> ->].
      * split; [done|]. intros [H Hn]. destruct l as [|c l]; [by injection H as ? ?|]. injection H as -> H.
        apply not_elem_of_cons in Hn as [_ Hn]. by specialize (proj2 (IH l) (conj H Hn)).
Qed.

Lemma known_prefix_no_colon prefix : known_prefix prefix = true -> COLON ∉ prefix /\ blen prefix <= 9.
Proof.
  unfold known_prefix. rewrite !orb_true_iff, !list_Z_eqb_eq.
  intros [[[->| ->]| ->]| ->]; (split; [|vm_compute; congruence]);
    (apply (bool_decide_unpack (COLON ∉ _)); by vm_compute).
Qed.

Lemma split_address_spec addr prefix data :
  split_address addr = Ok (prefix, data) <->
  addr = prefix ++ COLON :: data /\ known_prefix prefix = true /\ 9 <= blen data.
Proof.
  unfold split_address. split.
  - destruct (split_once COLON addr) as [[l r]|] eqn:Hs; [|done]. apply split_once_Some in Hs as [-> _].
    destruct (known_prefix l) eqn:Hk; [|done]. cbn [negb]. destruct (Z.ltb_spec (blen r) 9); [done|].
    by intros [= <- <-].
  - intros (-> & Hk & Hlen). destruct (known_prefix_no_colon prefix Hk) as [Hc _].
    rewrite (proj2 (split_once_Some COLON _ prefix data)) by done. rewrite Hk. cbn [negb].
    by decide_tests.
Qed.

(** What a valid address is made of: the prefix, and the symbols of the
    regrouped version and payload followed by their checksum. *)
Definition valid_payload (d : DecodedAddress) : Prop :=
  byte_ok (version d) /\ bytes_ok (payload d) /\ payload_length_for_version (version d) = Some (blen (payload d)).

Lemma convert_bits_bytes values bytes :
  symbols values -> convert_bits values 5 8 false = Ok bytes -> bytes_ok bytes.
Proof.
  intros Hv H. change 5 with (Z.of_nat 5) in H. change 8 with (Z.of_nat 8) in H.
  apply convert_bits_exact in H as (_ & H & _); [done|lia|lia|].
  apply (Forall_impl _ _ _ Hv). lia.
Qed.

Lemma payload_length_bounds v n : payload_length_for_version v = Some n -> 32 <= n <= 33.
Proof. unfold payload_length_for_version. repeat case_match; naive_solver lia. Qed.

(** The text [encode_address_bytes] builds. *)
Lemma encode_address_bytes_text payload version prefix :
  bytes_ok (version :: payload) ->
  exists data, convert_bits (version :: payload) 8 5 true = Ok data /\ symbols data /\
    5 * blen data < 8 * (1 + blen payload) + 5 /\ 8 * (1 + blen payload) <= 5 * blen data /\
    encode_address_bytes payload version prefix =
      prefix ++ COLON :: map charset_char (data ++ checksum_symbols (create_checksum prefix data)).
Proof.
  intros Hok. destruct (convert_bits_pad (version :: payload) 8 5) as (data & zeros & Heq & Hdata & Hz & Hall);
    [lia|lia|done|]. change (Z.of_nat 8) with 8 in Heq. change (Z.of_nat 5) with 5 in Heq.
  exists data. unfold encode_address_bytes. rewrite Heq.
  apply (f_equal length) in Hall. rewrite length_app, !length_all_bits, length_replicate in Hall. cbn [length] in Hall.
  split_and!; [done|done|unfold blen; lia|unfold blen; lia|].
  rewrite map_app. unfold checksum_symbols. by rewrite map_map.
Qed.

Lemma decode_address_bytes_text prefix values d :
  known_prefix prefix = true -> symbols values -> 8 < blen values ->
  decode_address_bytes (prefix ++ COLON :: map charset_char values) = Ok d <->
  verify_checksum prefix values = Ok tt /\
  convert_bits (take (Z.to_nat (blen values - 8)) values) 5 8 false = Ok (version d :: payload d) /\
  payload_length_for_version (version d) = Some (blen (payload d)).
Proof.
  intros Hk Hv Hlen. unfold decode_address_bytes.
  assert (Hb : blen (map charset_char values) = blen values) by (unfold blen; by rewrite length_map).
  rewrite (proj2 (split_address_spec _ prefix (map charset_char values))) by (split_and!; [done|done|lia]).
  cbn [rbind]. rewrite (proj2 (decode_chars_spec _ values)) by done. cbn [rbind].
  unfold CHECKSUM_LEN. decide_tests. destruct (verify_checksum prefix values) as [[]|]; cbn [rbind]; [|naive_solver].
  destruct (convert_bits _ _ _ _) as [[|v p]|]; cbn [rbind]; [naive_solver| |naive_solver].
  destruct (payload_length_for_version v) as [n|] eqn:Hn; cbn [ok_or rbind].
  - destruct (Z.eqb_spec (blen p) n) as [<-|Hne]; cbn [negb].
    + split; [intros [= <-]; done|]. destruct d. cbn. by intros (_ & [= -> ->] & _).
    + split; [done|]. destruct d. cbn. intros (_ & [= -> ->] & ?). congruence.
  - split; [done|]. destruct d. cbn. intros (_ & [= -> ->] & ?). congruence.
Qed.

Lemma decode_address_bytes_inv addr d :
  decode_address_bytes addr = Ok d ->
  exists prefix values, addr = prefix ++ COLON :: map charset_char values /\
    known_prefix prefix = true /\ symbols values /\ 8 < blen values.
Proof.
  unfold decode_address_bytes. intros H. apply rbind_Ok_inv in H as ([prefix data] & Hs & H).
  apply rbind_Ok_inv in H as (values & Hc & _). apply split_address_spec in Hs as (-> & Hk & Hlen).
  apply decode_chars_spec in Hc as [Hv ->]. exists prefix, values. split_and!; try done.
  unfold blen in *. rewrite length_map in Hlen. lia.
Qed.

(** Decoding inverts encoding, in both directions. *)
Lemma decode_encode_iff addr d :
  decode_address_bytes addr = Ok d <->
  valid_payload d /\ exists prefix, known_prefix prefix = true /\
    addr = encode_address_bytes (payload d) (version d) prefix.
Proof.
  split.
  - intros H. destruct (decode_address_bytes_inv _ _ H) as (prefix & values & -> & Hk & Hv & Hlen).
    apply decode_address_bytes_text in H as (Hsum & Hconv & Hpl); [|done..].
    set (n := Z.to_nat (blen values - 8)) in *.
    assert (Hsplit : values = take n values ++ drop n values) by (symmetry; apply take_drop).
    assert (Hsym : symbols (take n values) /\ symbols (drop n values)) by (rewrite Hsplit in Hv; by apply Forall_app in Hv).
    destruct Hsym as [Hs1 Hs2]. pose proof (convert_bits_bytes _ _ Hs1 Hconv) as Hbytes.
    split; [apply Forall_cons in Hbytes as [? ?]; done|]. exists prefix. split; [done|].
    destruct (encode_address_bytes_text _ _ prefix Hbytes) as (data & Hdata & _ & _ & _ & ->).
    assert (Some data = Some (take n values)) as [= ->].
    { f_equal. apply convert_bits_inverse in Hconv; [congruence|done|]. apply (Forall_impl _ _ _ Hs1). lia. }
    do 3 f_equal. rewrite Hsplit at 1. f_equal.
    apply verify_checksum_spec; [done|done|unfold n, blen in *; rewrite length_drop; lia|].
    by rewrite <- Hsplit.
  - intros ((Hvb & Hpb & Hpl) & prefix & Hk & ->).
    destruct (encode_address_bytes_text (payload d) (version d) prefix) as (data & Hdata & Hsym & _ & Hl2 & ->);
      [by constructor|]. pose proof (payload_length_bounds _ _ Hpl).
    assert (Hcs : length (checksum_symbols (create_checksum prefix data)) = 8%nat) by done.
    assert (Hb8 : blen (checksum_symbols (create_checksum prefix data)) = 8) by done.
    apply decode_address_bytes_text; [done|by apply Forall_app; split; [|apply checksum_symbols_ok]|rewrite blen_app; lia|].
    rewrite blen_app, Hb8. replace (Z.to_nat (blen data + 8 - 8)) with (length data) by (unfold blen; lia).
    rewrite take_app_length. split_and!; [|apply convert_bits_inverse; [by constructor| |done]|done].
    + by apply verify_checksum_spec; [|apply checksum_symbols_ok| |].
    + apply (Forall_impl _ _ _ Hsym). lia.
Qed.

Lemma split_address_encode d prefix :
  valid_payload d -> known_prefix prefix = true ->
  exists data, split_address (encode_address_bytes (payload d) (version d) prefix) = Ok (prefix, data).
Proof.
  intros (Hv & Hp & Hl) Hk. pose proof (payload_length_bounds _ _ Hl).
  destruct (encode_address_bytes_text (payload d) (version d) prefix) as (data & _ & _ & _ & Hlen & ->); [by constructor|].
  eexists. apply split_address_spec. split_and!; [done|done|].
  rewrite map_app, blen_app. unfold blen at 1. rewrite length_map.
  pose proof (blen_nonneg (map charset_char (checksum_symbols (create_checksum prefix data)))). unfold blen in *. lia.
Qed.

(** C26: address text is canonical: a text decodes to a version and payload iff
    the version is a defined one with the payload length that goes with it and
    the text is exactly what [encode_address_bytes] writes for them under one
    of the four network prefixes. Encoding therefore round-trips, and no two
    texts of one network decode to the same payload. *)
Theorem address_codec_canonical (addr : list Z) (d : DecodedAddress) :
  decode_address_bytes addr = Ok d <->
  valid_payload d /\ exists prefix, known_prefix prefix = true /\
    addr = encode_address_bytes (payload d) (version d) prefix.
Proof. apply decode_encode_iff. Qed.

(** Writing an address into the fixed 80-byte buffer always fits, the
    written prefix decodes to what was written, the rest of the buffer is
    untouched, and nothing is written for an unknown network or for a key of
    the wrong length. *)
Theorem encode_address_for_network_spec (pubkey out : list Z) (addr_type : AddressType)
    (network : KaspaNetwork.KaspaNetwork) :
  bytes_ok pubkey -> blen out = MAX_ADDR_LEN ->
  let '(length, out') := encode_address_for_network pubkey addr_type network out in
  0 <= length <= 73 /\ blen out' = MAX_ADDR_LEN /\
  drop (Z.to_nat length) out' = drop (Z.to_nat length) out /\
  if bool_decide (network <> KaspaNetwork.Unknown /\
                  payload_length_for_version (type_byte addr_type) = Some (blen pubkey))
  then decode_address_bytes (take (Z.to_nat length) out') =
         Ok {| version := type_byte addr_type; payload := pubkey |}
  else length = 0 /\ out' = out.
Proof.
  intros Hok Hout. unfold encode_address_for_network.
  destruct (KaspaNetwork.hrp network) as [prefix|] eqn:Hhrp.
  2:{ rewrite bool_decide_eq_false_2 by (destruct network; naive_solver). done. }
  assert (Hne : network <> KaspaNetwork.Unknown) by (by destruct network).
  assert (Hk : known_prefix prefix = true /\ blen prefix <= 9).
  { destruct network; try done; injection Hhrp as <-; by vm_compute. }
  destruct Hk as [Hk Hp9]. case_bool_decide as Hlen; cbn [negb].
  2:{ rewrite bool_decide_eq_false_2 by naive_solver. done. }
  rewrite bool_decide_eq_true_2 by done. pose proof (payload_length_bounds _ _ Hlen).
  assert (Hv : byte_ok (type_byte addr_type)) by (by destruct addr_type; unfold byte_ok).
  set (text := encode_address_bytes pubkey (type_byte addr_type) prefix).
  assert (Htext : blen text <= 73).
  { destruct (encode_address_bytes_text pubkey (type_byte addr_type) prefix) as (data & _ & _ & H5 & _ & Heq);
      [by constructor|]. unfold text. rewrite Heq, blen_app, blen_cons, map_app, blen_app.
    unfold blen in *. rewrite !length_map in *. change (length (checksum_symbols _)) with 8%nat. lia. }
  assert (Hn : Z.to_nat (blen text) = length text) by (unfold blen; lia).
  rewrite Hn, drop_app_length, take_app_length.
  unfold blen, MAX_ADDR_LEN in *. rewrite length_app, length_drop. split_and!; [lia|lia|lia|done|].
  apply decode_encode_iff. split; [done|]. by exists prefix.
Qed.

(** C27: the checksum detects every burst of errors: two texts that both decode
    and differ only inside a window of at most eight characters after the
    prefix are the same text; in particular no single mistyped character can
    turn a valid address into another valid address. *)
Theorem address_burst_errors_detected (prefix before window window' after : list Z) (d d' : DecodedAddress) :
  COLON ∉ prefix -> length window = length window' -> (length window <= 8)%nat ->
  decode_address_bytes (prefix ++ COLON :: before ++ window ++ after) = Ok d ->
  decode_address_bytes (prefix ++ COLON :: before ++ window' ++ after) = Ok d' ->
  window = window'.
Proof.
  intros Hc Hlen H8.
  assert (Hdec : forall w d, decode_address_bytes (prefix ++ COLON :: before ++ w ++ after) = Ok d ->
            exists bs ws cs, before = map charset_char bs /\ w = map charset_char ws /\ after = map charset_char cs /\
              symbols bs /\ symbols ws /\ symbols cs /\ verify_checksum prefix (bs ++ ws ++ cs) = Ok tt).
  { intros w dw H. destruct (decode_address_bytes_inv _ _ H) as (prefix' & values & Heq & Hk & Hv & Hl).
    destruct (known_prefix_no_colon _ Hk) as [Hc' _].
    assert (Some (prefix', map charset_char values) = Some (prefix, before ++ w ++ after)) as [= -> Hvals].
    { transitivity (split_once COLON (prefix ++ COLON :: before ++ w ++ after));
        [symmetry; rewrite Heq|]; by apply split_once_Some. }
    rewrite Hvals in *. rewrite <- Hvals in H. apply decode_address_bytes_text in H as [Hsum _]; [|done..].
    apply map_eq_app in Hvals as (bs & r & -> & <- & Hr).
    apply map_eq_app in Hr as (ws & cs & -> & <- & <-).
    apply Forall_app in Hv as [? [? ?]%Forall_app]. by exists bs, ws, cs. }
  intros (bs & ws & cs & -> & -> & -> & Hb & Hw & Ha & Hsum)%Hdec
    (bs' & ws' & cs' & Hbs & -> & Hcs & Hb' & Hw' & Ha' & Hsum')%Hdec.
  assert (Hinj : forall l l', symbols l -> symbols l' -> map charset_char l = map charset_char l' -> l = l').
  { intros l l' Hl Hl' Heq. assert (Ok l = Ok (E:=AddressError) l') as [=]; [|done].
    transitivity (decode_chars (map charset_char l)); [symmetry; by apply decode_chars_spec|].
    rewrite Heq. by apply decode_chars_spec. }
  apply Hinj in Hbs as <-; [|done..]. apply Hinj in Hcs as <-; [|done..].
  rewrite !length_map in *. f_equal. by apply (burst_detected prefix bs ws ws' cs).
Qed.

(** Addresses and standard locking scripts name each other: under a given
    network, a script's address is a text iff that text, checked against the
    network, decodes to that script; so a payment to an address printed for a
    script pays exactly that script, never across networks. *)
Theorem script_address_round_trip (script addr prefix : list Z) :
  bytes_ok script -> known_prefix prefix = true ->
  script_address script prefix = Some addr <-> address_to_script_pubkey_on addr prefix = Ok script.
Proof.
  intros Hscript Hk.
  assert (Hone : forall v p, known_prefix prefix = true -> valid_payload {| version := v; payload := p |} ->
            address_to_script_pubkey_on (encode_address_bytes p v prefix) prefix =
            address_to_script_pubkey (encode_address_bytes p v prefix) /\
            decode_address_bytes (encode_address_bytes p v prefix) = Ok {| version := v; payload := p |}).
  { intros v p _ Hv. destruct (split_address_encode _ prefix Hv Hk) as [data Hs]. cbn in Hs.
    unfold address_to_script_pubkey_on, address_prefix. rewrite Hs. cbn [rbind].
    rewrite (proj2 (list_Z_eqb_eq _ _)) by done. split; [done|].
    apply decode_encode_iff. split; [done|]. by exists prefix. }
  assert (Hvalid : forall v p, (v = 0 \/ v = 8) -> bytes_ok p -> blen p = 32 -> valid_payload {| version := v; payload := p |}).
  { intros v p [-> | ->] Hp Hl; unfold valid_payload, byte_ok; cbn; by rewrite Hl. }
  unfold script_address. split.
  - destruct (p2pk_xonly script) as [key|] eqn:Hpk; [|destruct (p2sh_hash script) as [hash|] eqn:Hsh; [|done]].
    + intros [= <-]. apply p2pk_xonly_spec in Hpk as [-> Hl]. unfold p2pk_script in Hscript.
      rewrite !bytes_ok_app in Hscript. unfold encode_p2pk_address, type_byte.
      destruct (Hone 0 key) as [-> Hd]; [done|apply Hvalid; naive_solver|].
      unfold address_to_script_pubkey. rewrite Hd. cbn. unfold array32. by rewrite Hl.
    + intros [= <-]. apply p2sh_hash_spec in Hsh as [-> Hl]. unfold p2sh_script in Hscript.
      rewrite !bytes_ok_app in Hscript. unfold encode_p2sh_address, type_byte.
      destruct (Hone 8 hash) as [-> Hd]; [done|apply Hvalid; naive_solver|].
      unfold address_to_script_pubkey. rewrite Hd. cbn. unfold array32. by rewrite Hl.
  - unfold address_to_script_pubkey_on, address_prefix. destruct (split_address addr) as [[prefix' data]|] eqn:Hs; [|done].
    cbn [rbind]. destruct (list_Z_eqb prefix' prefix) eqn:Heq; [|done]. apply list_Z_eqb_eq in Heq as ->. cbn [negb].
    unfold address_to_script_pubkey. destruct (decode_address_bytes addr) as [d|] eqn:Hd; [|done]. cbn [rbind].
    apply decode_encode_iff in Hd as (Hv & prefix' & Hk' & ->).
    destruct (split_address_encode d prefix' Hv Hk') as [data' Hs']. rewrite Hs' in Hs. injection Hs as -> ->.
    unfold array32. destruct (Z.eqb_spec (blen (payload d)) 32) as [Hl|]; [|done]. cbn [ok_or rbind].
    destruct (Z.eqb_spec (version d) 0) as [H0|].
    + intros [= <-]. rewrite (proj2 (p2pk_xonly_spec _ (payload d))) by done.
      unfold encode_p2pk_address. by rewrite H0.
    + destruct (Z.eqb_spec (version d) 8) as [H8|]; [|done]. intros [= <-].
      rewrite p2pk_xonly_p2sh, (proj2 (p2sh_hash_spec _ (payload d))) by done. cbn.
      unfold encode_p2sh_address. by rewrite H8.
Qed.

(** ** Instances of the theorems above *)

Lemma encode_address_for_network_spec_witness :
  let '(length, out') := encode_address_for_network (replicate 32 7) P2pk KaspaNetwork.Mainnet (replicate 80 0) in
  0 <= length <= 73 /\ blen out' = MAX_ADDR_LEN /\
  drop (Z.to_nat length) out' = drop (Z.to_nat length) (replicate 80 0) /\
  decode_address_bytes (take (Z.to_nat length) out') = Ok {| version := 0; payload := replicate 32 7 |}.
Proof. apply (encode_address_for_network_spec (replicate 32 7) (replicate 80 0) P2pk KaspaNetwork.Mainnet); by_decide. Defined.

(** A text split around its eleventh data character. *)
Definition sample_address : list Z := encode_address_bytes (replicate 32 7) 0 (str "kaspa").
Definition sample_before : list Z := take 10 (drop 6 sample_address).
Definition sample_window : list Z := take 1 (drop 16 sample_address).
Definition sample_after : list Z := drop 17 sample_address.

Lemma address_burst_errors_detected_witness : sample_window = sample_window.
Proof.
  apply (address_burst_errors_detected (str "kaspa") sample_before sample_window sample_window sample_after
    {| version := 0; payload := replicate 32 7 |} {| version := 0; payload := replicate 32 7 |}).
  - by_decide.
  - reflexivity.
  - vm_compute. lia.
  - vm_compute. reflexivity.
  - vm_compute. reflexivity.
Defined.

Lemma script_address_round_trip_witness :
  script_address (p2sh_script (replicate 32 7)) (str "kaspatest") =
    Some (encode_p2sh_address (replicate 32 7) (str "kaspatest")) <->
  address_to_script_pubkey_on (encode_p2sh_address (replicate 32 7) (str "kaspatest")) (str "kaspatest") =
    Ok (p2sh_script (replicate 32 7)).
Proof. apply script_address_round_trip; [by_decide|reflexivity]. Defined.
