(* ===== verification/KsptModel.v ===== *)
(** * KSPT v1: data model

    [src/src/transaction/interchange/kspt/wire/model.rs], [error.rs] and
    [format.rs]: the values of the grammar, its limits and validity tests, and
    the two interfaces through which callers connect their own transaction
    models ([EncodeSource] of [wire/encode.rs], [DecodeSink] of
    [wire/decode.rs]). *)

From S2P Require Import Prelude.

Definition MAGIC : list Z := str "KSPT".
Definition KSPT_VERSION : Z := 1.
Definition FLAG_SIGNED_OR_COMPLETE : Z := 1.
Definition ALLOWED_FLAGS : Z := FLAG_SIGNED_OR_COMPLETE.
Definition STEALTH_MARKER : Z := 0x53.
Definition COVENANT_MARKER : Z := 0x43.
Definition NETWORK_MARKER : Z := 0x4e.
Definition OUTPUT_DERIVATION_MARKER : Z := 0x44.
Definition INPUT_DERIVATION_MARKER : Z := 0x41.
Definition COVENANT_EXECUTION_MARKER : Z := 0x45.
Definition MS45_INPUT_MARKER : Z := 0x49.
Definition MS45_OUTPUT_MARKER : Z := 0x4f.

Definition MAX_SCRIPT_SIZE : Z := 512.
Definition MAX_REDEEM_SIZE : Z := 1024.
Definition MAX_SIGNATURE_RECORDS : Z := 5.
Definition MAX_OUTPUTS : Z := 8.
Definition MAX_PAYLOAD_SIZE : Z := 250000.
Definition EXTENDED_SCRIPT_LENGTH : Z := 0xff.
Definition MAX_SUPPORTED_TX_VERSION : Z := 1.
Definition supported_tx_version (version : Z) : bool := version <=? MAX_SUPPORTED_TX_VERSION.

(** ** Errors ([wire/error.rs]) *)

Inductive WireError :=
  | BufferTooShort | OutputBufferTooSmall | InvalidMagic | UnsupportedVersion | InvalidFlags
  | CountOverflow | ScriptTooLong | RedeemTooLong | TooManySignatures | DuplicateSignaturePosition
  | InvalidSigHashType | InvalidNetwork | MissingNetwork | InvalidTrailer | TrailingData
  | TooManyInputs | TooManyOutputs | PayloadTooLong | UnsupportedTransactionVersion
  | NonCanonicalEncoding.

#[global] Instance WireError_eq_dec : EqDecision WireError.
Proof. solve_decision. Defined.

Inductive DecodeError (E : Type) :=
  | Wire (error : WireError)
  | Sink (error : E).
Arguments Wire {E} error.
Arguments Sink {E} error.

(** ** Limits *)

Record Limits := { max_inputs : Z; max_outputs : Z; max_payload : Z }.

Definition grammar : Limits :=
  {| max_inputs := u32_max; max_outputs := MAX_OUTPUTS; max_payload := MAX_PAYLOAD_SIZE |}.

Definition validate_inputs (limits : Limits) (input_count : Z) : result unit WireError :=
  if max_inputs limits <? input_count then Err TooManyInputs else Ok tt.
Definition validate_outputs (limits : Limits) (output_count : Z) : result unit WireError :=
  if max_outputs limits <? output_count then Err TooManyOutputs else Ok tt.
Definition validate_payload (limits : Limits) (payload_len : Z) : result unit WireError :=
  if max_payload limits <? payload_len then Err PayloadTooLong else Ok tt.

(** ** Values *)

Record Global := {
  g_flags : Z; g_version : Z; g_input_count : Z; g_output_count : Z;
  g_locktime : Z; g_subnetwork_id : list Z; g_gas : Z; g_payload : list Z }.

Record Input := {
  previous_tx_id : list Z; previous_index : Z; in_amount : Z; sequence : Z;
  sig_op_count : Z; in_script_version : Z; in_script : list Z }.

Record Signature := { sig_position : Z; sighash : Z; sig_bytes : list Z }.

Record Output := { out_amount : Z; out_script_version : Z; out_script : list Z }.

Record Derivation := { branch : Z; d_index : Z }.

Record Ms45Derivation := { cosigner : Z; chain : Z; ms_index : Z }.

Record CovenantExecution := { supplied_mask : Z; supplied_true_mask : Z }.

Record Covenant := { authorizing_input : Z; covenant_id : list Z }.

Record DecodedEnvelope := { env_flags : Z }.

(** [value.supplied_true_mask & !value.supplied_mask == 0] on [u16]. *)
Definition valid_covenant_execution (value : CovenantExecution) : bool :=
  Z.land (supplied_true_mask value) (Z.lxor u16_max (supplied_mask value)) =? 0.
Definition valid_sighash (value : Z) : bool :=
  bool_decide (value ∈ [0x01; 0x02; 0x04; 0x81; 0x82; 0x84]).
Definition valid_network (value : Z) : bool := (1 <=? value) && (value <=? 4).
Definition valid_derivation (value : Derivation) : bool :=
  (branch value <=? 1) && (d_index value <? 0x80000000).
Definition valid_ms45 (value : Ms45Derivation) : bool :=
  (chain value <=? 1) && (cosigner value <? 0x80000000) && (ms_index value <? 0x80000000).

(** ** The interfaces *)

(** What a model must offer to be encoded. *)
Class EncodeSource (S : Type) := {
  global : S -> Global;
  input : S -> Z -> Input;
  signature_count : S -> Z -> Z;
  signature : S -> Z -> Z -> Signature;
  redeem : S -> Z -> list Z;
  output : S -> Z -> Output;
  network : S -> Z;
  stealth : S -> option (list Z);
  input_derivation : S -> Z -> option Derivation;
  output_derivation : S -> Z -> option Derivation;
  input_ms45 : S -> Z -> option Ms45Derivation;
  output_ms45 : S -> Z -> option Ms45Derivation;
  covenant : S -> Z -> option Covenant;
  covenant_execution : S -> Z -> option CovenantExecution }.

(** What a consumer does with each decoded value: it may change its own state
    [T] and may stop the decoder with an error of its own. *)
Class DecodeSink (T E : Type) := {
  on_global : Global -> Comp T E unit;
  on_input : Z -> Input -> Z -> Comp T E unit;
  on_signature : Z -> Z -> Signature -> Comp T E unit;
  on_redeem : Z -> list Z -> Comp T E unit;
  on_output : Z -> Output -> Comp T E unit;
  on_network : Z -> Comp T E unit;
  on_stealth : list Z -> Comp T E unit;
  on_input_derivation : Z -> Derivation -> Comp T E unit;
  on_output_derivation : Z -> Derivation -> Comp T E unit;
  on_input_ms45 : Z -> Ms45Derivation -> Comp T E unit;
  on_output_ms45 : Z -> Ms45Derivation -> Comp T E unit;
  on_covenant : Z -> Z -> list Z -> Comp T E unit;
  on_covenant_execution : Z -> CovenantExecution -> Comp T E unit }.

(** [NullSink]: accepts everything and keeps nothing. *)
#[global] Instance NullSink : DecodeSink unit Empty_set := {|
  on_global _ := ret tt;
  on_input _ _ _ := ret tt;
  on_signature _ _ _ := ret tt;
  on_redeem _ _ := ret tt;
  on_output _ _ := ret tt;
  on_network _ := ret tt;
  on_stealth _ := ret tt;
  on_input_derivation _ _ := ret tt;
  on_output_derivation _ _ := ret tt;
  on_input_ms45 _ _ := ret tt;
  on_output_ms45 _ _ := ret tt;
  on_covenant _ _ _ := ret tt;
  on_covenant_execution _ _ := ret tt |}.

(** ** The range of every value: what the Rust types guarantee *)

Definition typed_global (g : Global) : Prop :=
  byte_ok (g_flags g) /\ u16_ok (g_version g) /\ u32_ok (g_input_count g) /\ byte_ok (g_output_count g) /\
  u64_ok (g_locktime g) /\ bytes_of 20 (g_subnetwork_id g) /\ u64_ok (g_gas g) /\ bytes_ok (g_payload g).
Definition typed_input (i : Input) : Prop :=
  bytes_of 32 (previous_tx_id i) /\ u32_ok (previous_index i) /\ u64_ok (in_amount i) /\ u64_ok (sequence i) /\
  byte_ok (sig_op_count i) /\ u16_ok (in_script_version i) /\ bytes_ok (in_script i).
Definition typed_signature (s : Signature) : Prop :=
  byte_ok (sig_position s) /\ byte_ok (sighash s) /\ bytes_of 64 (sig_bytes s).
Definition typed_output (o : Output) : Prop :=
  u64_ok (out_amount o) /\ u16_ok (out_script_version o) /\ bytes_ok (out_script o).
Definition typed_derivation (d : Derivation) : Prop := byte_ok (branch d) /\ u32_ok (d_index d).
Definition typed_ms45 (m : Ms45Derivation) : Prop :=
  u32_ok (cosigner m) /\ u32_ok (chain m) /\ u32_ok (ms_index m).
Definition typed_covenant (c : Covenant) : Prop :=
  u16_ok (authorizing_input c) /\ bytes_of 32 (covenant_id c).
Definition typed_covenant_execution (c : CovenantExecution) : Prop :=
  u16_ok (supplied_mask c) /\ u16_ok (supplied_true_mask c).
