(* ===== verification/KsptWire.v ===== *)
(** * KSPT v1: reader, writer, encoder and decoder

    [src/src/transaction/interchange/kspt/wire/io.rs], [encode.rs],
    [decode.rs], [decode/inputs.rs], [decode/trailers.rs] and the growing
    encoder of [mod.rs], function by function. The writer's state is the
    caller's buffer and the position in it; the decoder's state is the reader
    paired with the sink's own state. Arrays of 256 flags indexed by a byte are
    the sets of the positions that are [true]. *)

From S2P Require Import Prelude KsptModel.

(** ** [wire/io.rs] *)

Module Reader.

Record Reader := { r_data : list Z; r_pos : Z }.

Definition new (data : list Z) : Reader := {| r_data := data; r_pos := 0 |}.
Definition remaining (r : Reader) : Z := saturating_sub (blen (r_data r)) (r_pos r).
Definition peek (r : Reader) : option Z := get_at (r_data r) (r_pos r).

Definition bytes (count : Z) : Comp Reader WireError (list Z) := fun r =>
  match checked_add (r_pos r) count with
  | None => (Err BufferTooShort, r)
  | Some end_ =>
      match slice (r_data r) (r_pos r) end_ with
      | None => (Err BufferTooShort, r)
      | Some bytes => (Ok bytes, {| r_data := r_data r; r_pos := end_ |})
      end
  end.

Definition array (n : Z) : Comp Reader WireError (list Z) := bytes n.
Definition u8 : Comp Reader WireError Z := let* l := bytes 1 in ret (hd 0 l).
Definition u16 : Comp Reader WireError Z := let* l := array 2 in ret (le_val l).
Definition u32 : Comp Reader WireError Z := let* l := array 4 in ret (le_val l).
Definition u64 : Comp Reader WireError Z := let* l := array 8 in ret (le_val l).

Definition script_length (prefix : Z) : Comp Reader WireError Z :=
  if prefix =? EXTENDED_SCRIPT_LENGTH then
    let* len := u16 in
    let* _ := reject_if (len <? EXTENDED_SCRIPT_LENGTH) NonCanonicalEncoding in
    ret len
  else ret prefix.
Definition script : Comp Reader WireError (list Z) :=
  let* prefix := u8 in
  let* len := script_length prefix in
  let* _ := reject_if (MAX_SCRIPT_SIZE <? len) ScriptTooLong in
  bytes len.

End Reader.

Module Writer.

Record Writer := { w_output : list Z; w_pos : Z }.

Definition new (output : list Z) : Writer := {| w_output := output; w_pos := 0 |}.

(** [copy_from_slice] into [output[pos..end]]. *)
Definition write_at (output : list Z) (pos : Z) (value : list Z) : list Z :=
  take (Z.to_nat pos) output ++ value ++ drop (Z.to_nat pos + length value) output.

Definition bytes (value : list Z) : Comp Writer WireError unit := fun w =>
  match checked_add (w_pos w) (blen value) with
  | None => (Err OutputBufferTooSmall, w)
  | Some end_ =>
      if end_ <=? blen (w_output w)
      then (Ok tt, {| w_output := write_at (w_output w) (w_pos w) value; w_pos := end_ |})
      else (Err OutputBufferTooSmall, w)
  end.

Definition u8 (value : Z) : Comp Writer WireError unit := bytes [value].
Definition u16 (value : Z) : Comp Writer WireError unit := bytes (le_bytes 2 value).
Definition u32 (value : Z) : Comp Writer WireError unit := bytes (le_bytes 4 value).
Definition u64 (value : Z) : Comp Writer WireError unit := bytes (le_bytes 8 value).

(** The [u16::try_from] cannot fail below [MAX_SCRIPT_SIZE]. *)
Definition script (value : list Z) : Comp Writer WireError unit :=
  let* _ := reject_if (MAX_SCRIPT_SIZE <? blen value) ScriptTooLong in
  let* _ :=
    if blen value <? EXTENDED_SCRIPT_LENGTH then u8 (blen value)
    else
      let* _ := u8 EXTENDED_SCRIPT_LENGTH in
      let* _ := reject_if (u16_max <? blen value) ScriptTooLong in
      u16 (blen value) in
  bytes value.

End Writer.
Import Reader Writer.

(** ** [wire/encode.rs] *)

Module Encode.

Abbreviation Write := (Comp Writer WireError unit).

Definition validate_global (value : Global) (limits : Limits) : result unit WireError :=
  if negb (supported_tx_version (g_version value)) then Err UnsupportedTransactionVersion
  else if negb (Z.land (g_flags value) (Z.lxor u8_max ALLOWED_FLAGS) =? 0) then Err InvalidFlags
  else
    let? _ := validate_inputs limits (g_input_count value) in
    let? _ := validate_outputs limits (g_output_count value) in
    validate_payload limits (blen (g_payload value)).

Definition write_header (flags : Z) : Write :=
  let* _ := Writer.bytes MAGIC in
  let* _ := Writer.u8 KSPT_VERSION in
  Writer.u8 flags.

Definition write_global (value : Global) : Write :=
  let* _ := Writer.u16 (g_version value) in
  let* _ := Writer.u32 (g_input_count value) in
  let* _ := Writer.u8 (g_output_count value) in
  let* _ := Writer.u64 (g_locktime value) in
  let* _ := Writer.bytes (g_subnetwork_id value) in
  let* _ := Writer.u64 (g_gas value) in
  let* _ := reject_if (u32_max <? blen (g_payload value)) CountOverflow in
  let* _ := Writer.u32 (blen (g_payload value)) in
  Writer.bytes (g_payload value).

Definition write_input_value (value : Input) : Write :=
  let* _ := reject_if (MAX_SIGNATURE_RECORDS <? sig_op_count value) TooManySignatures in
  let* _ := Writer.bytes (previous_tx_id value) in
  let* _ := Writer.u32 (previous_index value) in
  let* _ := Writer.u64 (in_amount value) in
  let* _ := Writer.u64 (sequence value) in
  let* _ := Writer.u8 (sig_op_count value) in
  let* _ := Writer.u16 (in_script_version value) in
  Writer.script (in_script value).

(** Writes one record and returns the updated [seen]. *)
Definition write_signature (value : Signature) (seen : gset Z) : Comp Writer WireError (gset Z) :=
  let* _ := reject_if (bool_decide (sig_position value ∈ seen)) DuplicateSignaturePosition in
  let seen := {[sig_position value]} ∪ seen in
  let* _ := reject_if (negb (valid_sighash (sighash value))) InvalidSigHashType in
  let* _ := Writer.u8 (sig_position value) in
  let* _ := Writer.u8 (sighash value) in
  let* _ := Writer.bytes (sig_bytes value) in
  ret seen.

Fixpoint write_signature_slots (records : Z -> Signature) (slots : list Z) (seen : gset Z) : Write :=
  match slots with
  | [] => ret tt
  | slot :: slots' =>
      let* seen := write_signature (records slot) seen in
      write_signature_slots records slots' seen
  end.

Definition write_redeem (value : list Z) : Write :=
  let* _ := reject_if (MAX_REDEEM_SIZE <? blen value) RedeemTooLong in
  let* _ := reject_if (u16_max <? blen value) RedeemTooLong in
  let* _ := Writer.u16 (blen value) in
  Writer.bytes value.

Definition write_output (value : Output) : Write :=
  let* _ := Writer.u64 (out_amount value) in
  let* _ := Writer.u16 (out_script_version value) in
  Writer.script (out_script value).

Definition position (index : Z) : result Z WireError :=
  if u8_max <? index then Err CountOverflow else Ok index.

Definition write_network (code : Z) : Write :=
  let* _ := reject_if (negb (valid_network code)) InvalidNetwork in
  let* _ := Writer.u8 NETWORK_MARKER in
  Writer.u8 code.

Definition write_derivation (marker index : Z) (value : Derivation) : Write :=
  let* _ := reject_if (negb (valid_derivation value)) InvalidTrailer in
  let* _ := Writer.u8 marker in
  let* p := of_result (position index) in
  let* _ := Writer.u8 p in
  let* _ := Writer.u8 (branch value) in
  Writer.u32 (d_index value).

Definition write_ms45 (marker index : Z) (value : Ms45Derivation) : Write :=
  let* _ := reject_if (negb (valid_ms45 value)) InvalidTrailer in
  let* _ := Writer.u8 marker in
  let* p := of_result (position index) in
  let* _ := Writer.u8 p in
  let* _ := Writer.u32 (cosigner value) in
  let* _ := Writer.u32 (chain value) in
  Writer.u32 (ms_index value).

Definition write_covenant (index : Z) (value : Covenant) : Write :=
  let* _ := Writer.u8 COVENANT_MARKER in
  let* p := of_result (position index) in
  let* _ := Writer.u8 p in
  let* _ := Writer.u16 (authorizing_input value) in
  Writer.bytes (covenant_id value).

Definition write_stealth (value : option (list Z)) : Write :=
  match value with
  | None => ret tt
  | Some value =>
      let* _ := Writer.u8 STEALTH_MARKER in
      Writer.bytes value
  end.

Definition write_covenant_execution (index : Z) (value : CovenantExecution) : Write :=
  let* _ := reject_if (negb (valid_covenant_execution value)) InvalidTrailer in
  let* _ := Writer.u8 COVENANT_EXECUTION_MARKER in
  let* p := of_result (position index) in
  let* _ := Writer.u8 p in
  let* _ := Writer.u16 (supplied_mask value) in
  Writer.u16 (supplied_true_mask value).

(** [for index in 0..count { if let Some(value) = get(index) { .. } }] *)
Definition write_present {A} (count : Z) (get : Z -> option A) (write : Z -> A -> Write) : Write :=
  for_each (seqZ 0 count) (fun index =>
    match get index with
    | Some value => write index value
    | None => ret tt
    end).

Section source.
Context {S : Type} `{EncodeSource S}.

Definition write_signatures (source : S) (index : Z) : Write :=
  let count := signature_count source index in
  let* _ := reject_if (MAX_SIGNATURE_RECORDS <? count) TooManySignatures in
  let* _ := Writer.u8 count in
  write_signature_slots (signature source index) (seqZ 0 count) ∅.

Definition write_input (source : S) (index : Z) : Write :=
  let* _ := write_input_value (input source index) in
  let* _ := write_signatures source index in
  write_redeem (redeem source index).

Definition write_ms45_trailers (source : S) (inputs outputs : Z) : Write :=
  let* _ := write_present inputs (input_ms45 source) (write_ms45 MS45_INPUT_MARKER) in
  write_present outputs (output_ms45 source) (write_ms45 MS45_OUTPUT_MARKER).

Definition write_covenant_trailers (source : S) (outputs : Z) : Write :=
  write_present outputs (covenant source) write_covenant.

Definition write_covenant_execution_trailers (source : S) (inputs : Z) : Write :=
  write_present inputs (covenant_execution source) write_covenant_execution.

Definition write_derivation_trailers (source : S) (inputs outputs : Z) : Write :=
  let* _ := write_present inputs (input_derivation source) (write_derivation INPUT_DERIVATION_MARKER) in
  write_present outputs (output_derivation source) (write_derivation OUTPUT_DERIVATION_MARKER).

Definition write_trailers (source : S) (value : Global) : Write :=
  let inputs := g_input_count value in
  let outputs := g_output_count value in
  let* _ := write_network (network source) in
  let* _ := write_ms45_trailers source inputs outputs in
  let* _ := write_stealth (stealth source) in
  let* _ := write_covenant_trailers source outputs in
  let* _ := write_covenant_execution_trailers source inputs in
  write_derivation_trailers source inputs outputs.

(** Everything [encode] does with its writer. *)
Definition write_envelope (source : S) : Write :=
  let value := global source in
  let* _ := write_header (g_flags value) in
  let* _ := write_global value in
  let* _ := for_each (seqZ 0 (g_input_count value)) (write_input source) in
  let* _ := for_each (seqZ 0 (g_output_count value)) (fun index => write_output (output source index)) in
  write_trailers source value.

(** The bytes written (or the error), and the caller's buffer afterwards. *)
Definition encode (source : S) (output : list Z) (limits : Limits) : result Z WireError * list Z :=
  match validate_global (global source) limits with
  | Err error => (Err error, output)
  | Ok _ =>
      match write_envelope source (Writer.new output) with
      | (Ok _, writer) => (Ok (w_pos writer), w_output writer)
      | (Err error, writer) => (Err error, w_output writer)
      end
  end.

(** [encode_vec]'s loop: the capacity doubles from at least 1024, so it
    leaves the range of [usize] within 54 rounds. *)
Fixpoint encode_growing (fuel : nat) (source : S) (limits : Limits) (capacity : Z)
  : option (result (list Z) WireError) :=
  match fuel with
  | O => None
  | Datatypes.S fuel' =>
      match encode source (replicate (Z.to_nat capacity) 0) limits with
      | (Ok length, output) => Some (Ok (take (Z.to_nat length) output))
      | (Err OutputBufferTooSmall, _) =>
          match checked_mul capacity 2 with
          | None => Some (Err OutputBufferTooSmall)
          | Some capacity => encode_growing fuel' source limits capacity
          end
      | (Err error, _) => Some (Err error)
      end
  end.

Definition initial_capacity (source : S) : Z :=
  let value := global source in
  saturating_add
    (saturating_add (saturating_add 1024 (saturating_mul (g_input_count value) 192))
       (saturating_mul (g_output_count value) 640))
    (blen (g_payload value)).

Definition encode_vec (source : S) (limits : Limits) : option (result (list Z) WireError) :=
  encode_growing 64 source limits (initial_capacity source).

End source.
End Encode.

(** ** [wire/decode.rs], [decode/inputs.rs] *)

Module Decode.

Definition read_header : Comp Reader WireError Z :=
  let* magic := Reader.bytes 4 in
  let* _ := reject_if (negb (list_Z_eqb magic MAGIC)) InvalidMagic in
  let* version := Reader.u8 in
  let* _ := reject_if (negb (version =? KSPT_VERSION)) UnsupportedVersion in
  let* flags := Reader.u8 in
  let* _ := reject_if (negb (Z.land flags (Z.lxor u8_max ALLOWED_FLAGS) =? 0)) InvalidFlags in
  ret flags.

Record GlobalPrefix := {
  p_version : Z; p_input_count : Z; p_output_count : Z;
  p_locktime : Z; p_subnetwork_id : list Z; p_gas : Z; p_payload_len : Z }.

Definition read_global_counts (limits : Limits) : Comp Reader WireError (Z * Z * Z) :=
  let* version := Reader.u16 in
  let* _ := reject_if (negb (supported_tx_version version)) UnsupportedTransactionVersion in
  let* input_count := Reader.u32 in
  let* _ := of_result (validate_inputs limits input_count) in
  let* output_count := Reader.u8 in
  let* _ := of_result (validate_outputs limits output_count) in
  ret (version, input_count, output_count).

Definition read_global_tail (limits : Limits) : Comp Reader WireError (Z * list Z * Z * Z) :=
  let* locktime := Reader.u64 in
  let* subnetwork_id := Reader.array 20 in
  let* gas := Reader.u64 in
  let* payload_len := Reader.u32 in
  let* _ := of_result (validate_payload limits payload_len) in
  ret (locktime, subnetwork_id, gas, payload_len).

Definition read_global_prefix (limits : Limits) : Comp Reader WireError GlobalPrefix :=
  let* (version, input_count, output_count) := read_global_counts limits in
  let* (locktime, subnetwork_id, gas, payload_len) := read_global_tail limits in
  ret {| p_version := version; p_input_count := input_count; p_output_count := output_count;
         p_locktime := locktime; p_subnetwork_id := subnetwork_id; p_gas := gas; p_payload_len := payload_len |}.

Definition read_global (flags : Z) (prefix : GlobalPrefix) : Comp Reader WireError Global :=
  let* payload := Reader.bytes (p_payload_len prefix) in
  ret {| g_flags := flags; g_version := p_version prefix; g_input_count := p_input_count prefix;
         g_output_count := p_output_count prefix; g_locktime := p_locktime prefix;
         g_subnetwork_id := p_subnetwork_id prefix; g_gas := p_gas prefix; g_payload := payload |}.

Definition MIN_INPUT_WIRE_BYTES : Z := 59.
Definition validate_input_capacity (count remaining : Z) : result unit WireError :=
  let? minimum := ok_or (checked_mul count MIN_INPUT_WIRE_BYTES) CountOverflow in
  if remaining <? minimum then Err CountOverflow else Ok tt.

Definition read_input_value : Comp Reader WireError Input :=
  let* previous_tx_id := Reader.array 32 in
  let* previous_index := Reader.u32 in
  let* amount := Reader.u64 in
  let* sequence := Reader.u64 in
  let* sig_op_count := Reader.u8 in
  let* _ := reject_if (MAX_SIGNATURE_RECORDS <? sig_op_count) TooManySignatures in
  let* script_version := Reader.u16 in
  let* script := Reader.script in
  ret {| previous_tx_id := previous_tx_id; previous_index := previous_index; in_amount := amount;
         sequence := sequence; sig_op_count := sig_op_count; in_script_version := script_version;
         in_script := script |}.

Definition read_signature_count : Comp Reader WireError Z :=
  let* count := Reader.u8 in
  let* _ := reject_if (MAX_SIGNATURE_RECORDS <? count) TooManySignatures in
  ret count.

(** One record and the updated [seen]. *)
Definition read_signature (seen : gset Z) : Comp Reader WireError (Signature * gset Z) :=
  let* position := Reader.u8 in
  let* _ := reject_if (bool_decide (position ∈ seen)) DuplicateSignaturePosition in
  let seen := {[position]} ∪ seen in
  let* sighash := Reader.u8 in
  let* _ := reject_if (negb (valid_sighash sighash)) InvalidSigHashType in
  let* bytes := Reader.array 64 in
  ret ({| sig_position := position; sighash := sighash; sig_bytes := bytes |}, seen).

Definition read_redeem_bytes : Comp Reader WireError (list Z) :=
  let* redeem_len := Reader.u16 in
  let* _ := reject_if (MAX_REDEEM_SIZE <? redeem_len) RedeemTooLong in
  Reader.bytes redeem_len.

Definition read_output : Comp Reader WireError Output :=
  let* amount := Reader.u64 in
  let* script_version := Reader.u16 in
  let* script := Reader.script in
  ret {| out_amount := amount; out_script_version := script_version; out_script := script |}.

(** The trailer section keeps its own state. *)
Record TrailerState := {
  ts_network : bool; ts_stealth : bool; last_rank : Z;
  last_input_derivation : option Z; last_output_derivation : option Z;
  last_input_ms45 : option Z; last_output_ms45 : option Z;
  last_covenant : option Z; last_covenant_execution : option Z;
  seen_input_derivation : gset Z; seen_output_derivation : gset Z;
  seen_input_ms45 : gset Z; seen_output_ms45 : gset Z;
  seen_covenant : gset Z; seen_covenant_execution : gset Z }.

Definition new_trailer_state : TrailerState := {|
  ts_network := false; ts_stealth := false; last_rank := 0;
  last_input_derivation := None; last_output_derivation := None;
  last_input_ms45 := None; last_output_ms45 := None;
  last_covenant := None; last_covenant_execution := None;
  seen_input_derivation := ∅; seen_output_derivation := ∅;
  seen_input_ms45 := ∅; seen_output_ms45 := ∅;
  seen_covenant := ∅; seen_covenant_execution := ∅ |}.

Definition marker_rank (marker : Z) : option Z :=
  if marker =? NETWORK_MARKER then Some 0
  else if marker =? MS45_INPUT_MARKER then Some 1
  else if marker =? MS45_OUTPUT_MARKER then Some 2
  else if marker =? STEALTH_MARKER then Some 3
  else if marker =? COVENANT_MARKER then Some 4
  else if marker =? COVENANT_EXECUTION_MARKER then Some 5
  else if marker =? INPUT_DERIVATION_MARKER then Some 6
  else if marker =? OUTPUT_DERIVATION_MARKER then Some 7
  else None.

Definition set_rank (st : TrailerState) (rank : Z) : TrailerState := {|
  ts_network := ts_network st; ts_stealth := ts_stealth st; last_rank := rank;
  last_input_derivation := last_input_derivation st; last_output_derivation := last_output_derivation st;
  last_input_ms45 := last_input_ms45 st; last_output_ms45 := last_output_ms45 st;
  last_covenant := last_covenant st; last_covenant_execution := last_covenant_execution st;
  seen_input_derivation := seen_input_derivation st; seen_output_derivation := seen_output_derivation st;
  seen_input_ms45 := seen_input_ms45 st; seen_output_ms45 := seen_output_ms45 st;
  seen_covenant := seen_covenant st; seen_covenant_execution := seen_covenant_execution st |}.

Definition require_canonical_marker_order (marker : Z) (st : TrailerState) : result TrailerState WireError :=
  let? rank := ok_or (marker_rank marker) TrailingData in
  if negb (ts_network st) && negb (marker =? NETWORK_MARKER) then Err InvalidTrailer
  else if rank <? last_rank st then Err InvalidTrailer
  else Ok (set_rank st rank).

(** The new value of [last]. *)
Definition require_increasing (position : Z) (last : option Z) : result (option Z) WireError :=
  match last with
  | Some prior => if position <=? prior then Err InvalidTrailer else Ok (Some position)
  | None => Ok (Some position)
  end.

Definition read_derivation_body : Comp Reader WireError Derivation :=
  let* branch := Reader.u8 in
  let* index := Reader.u32 in
  let value := {| branch := branch; d_index := index |} in
  let* _ := reject_if (negb (valid_derivation value)) InvalidTrailer in
  ret value.

Definition read_ms45_body : Comp Reader WireError Ms45Derivation :=
  let* cosigner := Reader.u32 in
  let* chain := Reader.u32 in
  let* index := Reader.u32 in
  let value := {| cosigner := cosigner; chain := chain; ms_index := index |} in
  let* _ := reject_if (negb (valid_ms45 value)) InvalidTrailer in
  ret value.

(** What each trailer reader does before it calls the sink: the position, the
    checks, the body. The positions seen so far are those of its own kind. *)
Definition read_position (last : option Z) (seen : gset Z) (count : Z) : Comp Reader WireError (Z * option Z) :=
  let* position := Reader.u8 in
  let* last := of_result (require_increasing position last) in
  let* _ := reject_if ((count <=? position) || bool_decide (position ∈ seen)) InvalidTrailer in
  ret (position, last).

Section sink.
Context {T E : Type} `{DecodeSink T E}.
Abbreviation Decoder A := (Comp (Reader * T) (DecodeError E) A).

(** [reader?] and [sink.call(..).map_err(DecodeError::Sink)]. *)
Definition wire {A} (m : Comp Reader WireError A) : Decoder A := fun '(r, t) =>
  match m r with
  | (Ok a, r') => (Ok a, (r', t))
  | (Err e, r') => (Err (Wire e), (r', t))
  end.
Definition sink {A} (m : Comp T E A) : Decoder A := fun '(r, t) =>
  match m t with
  | (Ok a, t') => (Ok a, (r, t'))
  | (Err e, t') => (Err (Sink e), (r, t'))
  end.

Fixpoint read_signature_slots (index : Z) (slots : list Z) (seen : gset Z) : Decoder unit :=
  match slots with
  | [] => ret tt
  | slot :: slots' =>
      let* (signature, seen) := wire (read_signature seen) in
      let* _ := sink (on_signature index slot signature) in
      read_signature_slots index slots' seen
  end.
Definition read_signatures (index count : Z) : Decoder unit :=
  read_signature_slots index (seqZ 0 count) ∅.

Definition read_redeem (index : Z) : Decoder unit :=
  let* redeem := wire read_redeem_bytes in
  sink (on_redeem index redeem).

Definition read_input (index : Z) : Decoder unit :=
  let* input := wire read_input_value in
  let* signature_count := wire read_signature_count in
  let* _ := sink (on_input index input signature_count) in
  let* _ := read_signatures index signature_count in
  read_redeem index.

Definition read_inputs (count : Z) : Decoder unit := for_each (seqZ 0 count) read_input.

Definition read_outputs (count : Z) : Decoder unit :=
  for_each (seqZ 0 count) (fun index =>
    let* output := wire read_output in
    sink (on_output index output)).

(** *** [decode/trailers.rs] *)

Definition read_network (st : TrailerState) : Decoder TrailerState :=
  let* code := wire Reader.u8 in
  let* _ := wire (reject_if (ts_network st || negb (valid_network code)) InvalidNetwork) in
  let* _ := sink (on_network code) in
  ret {| ts_network := true; ts_stealth := ts_stealth st; last_rank := last_rank st;
    last_input_derivation := last_input_derivation st; last_output_derivation := last_output_derivation st;
    last_input_ms45 := last_input_ms45 st; last_output_ms45 := last_output_ms45 st;
    last_covenant := last_covenant st; last_covenant_execution := last_covenant_execution st;
    seen_input_derivation := seen_input_derivation st; seen_output_derivation := seen_output_derivation st;
    seen_input_ms45 := seen_input_ms45 st; seen_output_ms45 := seen_output_ms45 st;
    seen_covenant := seen_covenant st; seen_covenant_execution := seen_covenant_execution st |}.

Definition read_stealth (st : TrailerState) : Decoder TrailerState :=
  let* _ := wire (reject_if (ts_stealth st) InvalidTrailer) in
  let* tweak := wire (Reader.array 32) in
  let* _ := sink (on_stealth tweak) in
  ret {| ts_network := ts_network st; ts_stealth := true; last_rank := last_rank st;
    last_input_derivation := last_input_derivation st; last_output_derivation := last_output_derivation st;
    last_input_ms45 := last_input_ms45 st; last_output_ms45 := last_output_ms45 st;
    last_covenant := last_covenant st; last_covenant_execution := last_covenant_execution st;
    seen_input_derivation := seen_input_derivation st; seen_output_derivation := seen_output_derivation st;
    seen_input_ms45 := seen_input_ms45 st; seen_output_ms45 := seen_output_ms45 st;
    seen_covenant := seen_covenant st; seen_covenant_execution := seen_covenant_execution st |}.

Definition read_input_derivation (inputs : Z) (st : TrailerState) : Decoder TrailerState :=
  let* (position, last) := wire (read_position (last_input_derivation st) (seen_input_derivation st) inputs) in
  let* value := wire read_derivation_body in
  let* _ := sink (on_input_derivation position value) in
  ret {| ts_network := ts_network st; ts_stealth := ts_stealth st; last_rank := last_rank st;
    last_input_derivation := last; last_output_derivation := last_output_derivation st;
    last_input_ms45 := last_input_ms45 st; last_output_ms45 := last_output_ms45 st;
    last_covenant := last_covenant st; last_covenant_execution := last_covenant_execution st;
    seen_input_derivation := {[position]} ∪ seen_input_derivation st; seen_output_derivation := seen_output_derivation st;
    seen_input_ms45 := seen_input_ms45 st; seen_output_ms45 := seen_output_ms45 st;
    seen_covenant := seen_covenant st; seen_covenant_execution := seen_covenant_execution st |}.

Definition read_output_derivation (outputs : Z) (st : TrailerState) : Decoder TrailerState :=
  let* (position, last) := wire (read_position (last_output_derivation st) (seen_output_derivation st) outputs) in
  let* value := wire read_derivation_body in
  let* _ := sink (on_output_derivation position value) in
  ret {| ts_network := ts_network st; ts_stealth := ts_stealth st; last_rank := last_rank st;
    last_input_derivation := last_input_derivation st; last_output_derivation := last;
    last_input_ms45 := last_input_ms45 st; last_output_ms45 := last_output_ms45 st;
    last_covenant := last_covenant st; last_covenant_execution := last_covenant_execution st;
    seen_input_derivation := seen_input_derivation st; seen_output_derivation := {[position]} ∪ seen_output_derivation st;
    seen_input_ms45 := seen_input_ms45 st; seen_output_ms45 := seen_output_ms45 st;
    seen_covenant := seen_covenant st; seen_covenant_execution := seen_covenant_execution st |}.

Definition read_ms45_input (inputs : Z) (st : TrailerState) : Decoder TrailerState :=
  let* (position, last) := wire (read_position (last_input_ms45 st) (seen_input_ms45 st) inputs) in
  let* value := wire read_ms45_body in
  let* _ := sink (on_input_ms45 position value) in
  ret {| ts_network := ts_network st; ts_stealth := ts_stealth st; last_rank := last_rank st;
    last_input_derivation := last_input_derivation st; last_output_derivation := last_output_derivation st;
    last_input_ms45 := last; last_output_ms45 := last_output_ms45 st;
    last_covenant := last_covenant st; last_covenant_execution := last_covenant_execution st;
    seen_input_derivation := seen_input_derivation st; seen_output_derivation := seen_output_derivation st;
    seen_input_ms45 := {[position]} ∪ seen_input_ms45 st; seen_output_ms45 := seen_output_ms45 st;
    seen_covenant := seen_covenant st; seen_covenant_execution := seen_covenant_execution st |}.

Definition read_ms45_output (outputs : Z) (st : TrailerState) : Decoder TrailerState :=
  let* (position, last) := wire (read_position (last_output_ms45 st) (seen_output_ms45 st) outputs) in
  let* value := wire read_ms45_body in
  let* _ := sink (on_output_ms45 position value) in
  ret {| ts_network := ts_network st; ts_stealth := ts_stealth st; last_rank := last_rank st;
    last_input_derivation := last_input_derivation st; last_output_derivation := last_output_derivation st;
    last_input_ms45 := last_input_ms45 st; last_output_ms45 := last;
    last_covenant := last_covenant st; last_covenant_execution := last_covenant_execution st;
    seen_input_derivation := seen_input_derivation st; seen_output_derivation := seen_output_derivation st;
    seen_input_ms45 := seen_input_ms45 st; seen_output_ms45 := {[position]} ∪ seen_output_ms45 st;
    seen_covenant := seen_covenant st; seen_covenant_execution := seen_covenant_execution st |}.

(** The covenant reader reads the authorizing input before its range checks. *)
Definition read_covenant (inputs outputs : Z) (st : TrailerState) : Decoder TrailerState :=
  let* position := wire Reader.u8 in
  let* last := wire (of_result (require_increasing position (last_covenant st))) in
  let* authorizing := wire Reader.u16 in
  let* _ := wire (reject_if ((outputs <=? position) || (inputs <=? authorizing)
                               || bool_decide (position ∈ seen_covenant st)) InvalidTrailer) in
  let* id := wire (Reader.array 32) in
  let* _ := sink (on_covenant position authorizing id) in
  ret {| ts_network := ts_network st; ts_stealth := ts_stealth st; last_rank := last_rank st;
    last_input_derivation := last_input_derivation st; last_output_derivation := last_output_derivation st;
    last_input_ms45 := last_input_ms45 st; last_output_ms45 := last_output_ms45 st;
    last_covenant := last; last_covenant_execution := last_covenant_execution st;
    seen_input_derivation := seen_input_derivation st; seen_output_derivation := seen_output_derivation st;
    seen_input_ms45 := seen_input_ms45 st; seen_output_ms45 := seen_output_ms45 st;
    seen_covenant := {[position]} ∪ seen_covenant st; seen_covenant_execution := seen_covenant_execution st |}.

Definition read_covenant_execution (inputs : Z) (st : TrailerState) : Decoder TrailerState :=
  let* (position, last) := wire (read_position (last_covenant_execution st) (seen_covenant_execution st) inputs) in
  let* supplied_mask := wire Reader.u16 in
  let* supplied_true_mask := wire Reader.u16 in
  let value := {| supplied_mask := supplied_mask; supplied_true_mask := supplied_true_mask |} in
  let* _ := wire (reject_if (negb (valid_covenant_execution value)) InvalidTrailer) in
  let* _ := sink (on_covenant_execution position value) in
  ret {| ts_network := ts_network st; ts_stealth := ts_stealth st; last_rank := last_rank st;
    last_input_derivation := last_input_derivation st; last_output_derivation := last_output_derivation st;
    last_input_ms45 := last_input_ms45 st; last_output_ms45 := last_output_ms45 st;
    last_covenant := last_covenant st; last_covenant_execution := last;
    seen_input_derivation := seen_input_derivation st; seen_output_derivation := seen_output_derivation st;
    seen_input_ms45 := seen_input_ms45 st; seen_output_ms45 := seen_output_ms45 st;
    seen_covenant := seen_covenant st; seen_covenant_execution := {[position]} ∪ seen_covenant_execution st |}.

Definition read_base_trailer (marker inputs outputs : Z) (st : TrailerState) : Decoder TrailerState :=
  if marker =? NETWORK_MARKER then read_network st
  else if marker =? MS45_INPUT_MARKER then read_ms45_input inputs st
  else if marker =? MS45_OUTPUT_MARKER then read_ms45_output outputs st
  else if marker =? STEALTH_MARKER then read_stealth st
  else throw (Wire TrailingData).

Definition read_extended_trailer (marker inputs outputs : Z) (st : TrailerState) : Decoder TrailerState :=
  if marker =? COVENANT_MARKER then read_covenant inputs outputs st
  else if marker =? COVENANT_EXECUTION_MARKER then read_covenant_execution inputs st
  else if marker =? INPUT_DERIVATION_MARKER then read_input_derivation inputs st
  else if marker =? OUTPUT_DERIVATION_MARKER then read_output_derivation outputs st
  else throw (Wire TrailingData).

Definition read_trailer (marker inputs outputs : Z) (st : TrailerState) : Decoder TrailerState :=
  let* st := wire (of_result (require_canonical_marker_order marker st)) in
  if (marker =? NETWORK_MARKER) || (marker =? MS45_INPUT_MARKER) || (marker =? MS45_OUTPUT_MARKER)
     || (marker =? STEALTH_MARKER)
  then read_base_trailer marker inputs outputs st
  else read_extended_trailer marker inputs outputs st.

(** [while reader.peek().is_some()]: every round consumes its marker, so the
    number of bytes bounds the rounds. *)
Fixpoint read_trailer_loop (fuel : nat) (inputs outputs : Z) (st : TrailerState) : Decoder TrailerState :=
  fun '(r, t) =>
    match fuel, Reader.peek r with
    | _, None => (Ok st, (r, t))
    | O, Some _ => (Ok st, (r, t))
    | S fuel', Some _ =>
        (let* marker := wire Reader.u8 in
         let* st := read_trailer marker inputs outputs st in
         read_trailer_loop fuel' inputs outputs st) (r, t)
    end.

Definition read_trailers (inputs outputs : Z) : Decoder unit := fun '(r, t) =>
  (let* st := read_trailer_loop (length (r_data r)) inputs outputs new_trailer_state in
   wire (reject_if (negb (ts_network st)) MissingNetwork)) (r, t).

Definition decode_envelope (limits : Limits) : Decoder Z :=
  let* flags := wire read_header in
  let* prefix := wire (read_global_prefix limits) in
  let* value := wire (read_global flags prefix) in
  let* _ := wire (fun r => (validate_input_capacity (g_input_count value) (Reader.remaining r), r)) in
  let* _ := sink (on_global value) in
  let* _ := read_inputs (g_input_count value) in
  let* _ := read_outputs (g_output_count value) in
  let* _ := read_trailers (g_input_count value) (g_output_count value) in
  ret flags.

(** The result, and the sink's state afterwards. *)
Definition decode (data : list Z) (limits : Limits) (t : T) : result DecodedEnvelope (DecodeError E) * T :=
  match decode_envelope limits (Reader.new data, t) with
  | (Ok flags, (_, t')) => (Ok {| env_flags := flags |}, t')
  | (Err e, (_, t')) => (Err e, t')
  end.

End sink.

(** [validate]: decoding into the [NullSink], whose error type is empty. *)
Definition validate (data : list Z) (limits : Limits) : result DecodedEnvelope WireError :=
  match decode (T:=unit) (E:=Empty_set) data limits tt with
  | (Ok envelope, _) => Ok envelope
  | (Err (Wire error), _) => Err error
  | (Err (Sink error), _) => match error with end
  end.

End Decode.
