(* ===== verification/KsptDoc.v ===== *)
(** * KSPT v1: the documents of the grammar

    An abstract description of the format, independent of the reader and the
    writer: what a document is, which documents are valid under given limits,
    the bytes of each, and the calls a decoder owes its sink. The encoder and
    the decoder are proved against it in [KsptEncode] and [KsptDecode]. *)

From S2P Require Import Prelude KsptModel.

(** ** Documents *)

Inductive Trailer :=
  | TNetwork (code : Z)
  | TMs45Input (position : Z) (value : Ms45Derivation)
  | TMs45Output (position : Z) (value : Ms45Derivation)
  | TStealth (tweak : list Z)
  | TCovenant (position : Z) (value : Covenant)
  | TCovenantExecution (position : Z) (value : CovenantExecution)
  | TInputDerivation (position : Z) (value : Derivation)
  | TOutputDerivation (position : Z) (value : Derivation).

Record DocInput := { di_input : Input; di_signatures : list Signature; di_redeem : list Z }.

Record Doc := {
  d_global : Global; d_inputs : list DocInput; d_outputs : list Output; d_trailers : list Trailer }.

(** ** Their bytes *)

Definition script_bytes (s : list Z) : list Z :=
  (if blen s <? EXTENDED_SCRIPT_LENGTH then [blen s] else EXTENDED_SCRIPT_LENGTH :: le_bytes 2 (blen s)) ++ s.

Definition header_bytes (flags : Z) : list Z := MAGIC ++ [KSPT_VERSION] ++ [flags].

Definition global_bytes (g : Global) : list Z :=
  le_bytes 2 (g_version g) ++ le_bytes 4 (g_input_count g) ++ [g_output_count g] ++
  le_bytes 8 (g_locktime g) ++ g_subnetwork_id g ++ le_bytes 8 (g_gas g) ++
  le_bytes 4 (blen (g_payload g)) ++ g_payload g.

Definition input_bytes (i : Input) : list Z :=
  previous_tx_id i ++ le_bytes 4 (previous_index i) ++ le_bytes 8 (in_amount i) ++
  le_bytes 8 (sequence i) ++ [sig_op_count i] ++ le_bytes 2 (in_script_version i) ++ script_bytes (in_script i).

Definition signature_bytes (s : Signature) : list Z := [sig_position s] ++ [sighash s] ++ sig_bytes s.
Definition redeem_bytes (r : list Z) : list Z := le_bytes 2 (blen r) ++ r.

Definition doc_input_bytes (d : DocInput) : list Z :=
  input_bytes (di_input d) ++ [blen (di_signatures d)] ++
  concat (map signature_bytes (di_signatures d)) ++ redeem_bytes (di_redeem d).

Definition output_bytes (o : Output) : list Z :=
  le_bytes 8 (out_amount o) ++ le_bytes 2 (out_script_version o) ++ script_bytes (out_script o).

Definition derivation_bytes (d : Derivation) : list Z := [branch d] ++ le_bytes 4 (d_index d).
Definition ms45_bytes (m : Ms45Derivation) : list Z :=
  le_bytes 4 (cosigner m) ++ le_bytes 4 (chain m) ++ le_bytes 4 (ms_index m).
Definition covenant_bytes (c : Covenant) : list Z := le_bytes 2 (authorizing_input c) ++ covenant_id c.
Definition covenant_execution_bytes (c : CovenantExecution) : list Z :=
  le_bytes 2 (supplied_mask c) ++ le_bytes 2 (supplied_true_mask c).

Definition trailer_marker (t : Trailer) : Z :=
  match t with
  | TNetwork _ => NETWORK_MARKER
  | TMs45Input _ _ => MS45_INPUT_MARKER
  | TMs45Output _ _ => MS45_OUTPUT_MARKER
  | TStealth _ => STEALTH_MARKER
  | TCovenant _ _ => COVENANT_MARKER
  | TCovenantExecution _ _ => COVENANT_EXECUTION_MARKER
  | TInputDerivation _ _ => INPUT_DERIVATION_MARKER
  | TOutputDerivation _ _ => OUTPUT_DERIVATION_MARKER
  end.
Definition trailer_body (t : Trailer) : list Z :=
  match t with
  | TNetwork code => [code]
  | TMs45Input p m | TMs45Output p m => [p] ++ ms45_bytes m
  | TStealth tweak => tweak
  | TCovenant p c => [p] ++ covenant_bytes c
  | TCovenantExecution p c => [p] ++ covenant_execution_bytes c
  | TInputDerivation p d | TOutputDerivation p d => [p] ++ derivation_bytes d
  end.
Definition trailer_bytes (t : Trailer) : list Z := [trailer_marker t] ++ trailer_body t.

Definition doc_bytes (d : Doc) : list Z :=
  header_bytes (g_flags (d_global d)) ++ global_bytes (d_global d) ++
  concat (map doc_input_bytes (d_inputs d)) ++ concat (map output_bytes (d_outputs d)) ++
  concat (map trailer_bytes (d_trailers d)).

(** ** Validity *)

Definition valid_global (limits : Limits) (g : Global) : Prop :=
  typed_global g /\ supported_tx_version (g_version g) = true /\
  Z.land (g_flags g) (Z.lxor u8_max ALLOWED_FLAGS) = 0 /\
  g_input_count g <= max_inputs limits /\ g_output_count g <= max_outputs limits /\
  blen (g_payload g) <= max_payload limits /\ blen (g_payload g) <= u32_max.

Definition valid_input (i : Input) : Prop :=
  typed_input i /\ sig_op_count i <= MAX_SIGNATURE_RECORDS /\ blen (in_script i) <= MAX_SCRIPT_SIZE.
Definition valid_signatures (l : list Signature) : Prop :=
  Forall (fun s => typed_signature s /\ valid_sighash (sighash s) = true) l /\
  NoDup (map sig_position l) /\ blen l <= MAX_SIGNATURE_RECORDS.
Definition valid_redeem (r : list Z) : Prop := bytes_ok r /\ blen r <= MAX_REDEEM_SIZE.
Definition valid_doc_input (d : DocInput) : Prop :=
  valid_input (di_input d) /\ valid_signatures (di_signatures d) /\ valid_redeem (di_redeem d).
Definition valid_output (o : Output) : Prop := typed_output o /\ blen (out_script o) <= MAX_SCRIPT_SIZE.

(** What the encoder checks of one trailer record ([outputs] and [inputs] are
    the declared counts). *)
Definition encodable_trailer (inputs outputs : Z) (t : Trailer) : Prop :=
  match t with
  | TNetwork code => byte_ok code /\ valid_network code = true
  | TMs45Input p m => byte_ok p /\ p < inputs /\ typed_ms45 m /\ valid_ms45 m = true
  | TMs45Output p m => byte_ok p /\ p < outputs /\ typed_ms45 m /\ valid_ms45 m = true
  | TStealth tweak => bytes_of 32 tweak
  | TCovenant p c => byte_ok p /\ p < outputs /\ typed_covenant c
  | TCovenantExecution p c =>
      byte_ok p /\ p < inputs /\ typed_covenant_execution c /\ valid_covenant_execution c = true
  | TInputDerivation p d => byte_ok p /\ p < inputs /\ typed_derivation d /\ valid_derivation d = true
  | TOutputDerivation p d => byte_ok p /\ p < outputs /\ typed_derivation d /\ valid_derivation d = true
  end.

(** The one check that only the decoder makes: a covenant is authorized by an
    input of the transaction. *)
Definition authorized (inputs : Z) (t : Trailer) : Prop :=
  match t with TCovenant _ c => authorizing_input c < inputs | _ => True end.
#[global] Instance authorized_dec inputs t : Decision (authorized inputs t).
Proof. destruct t; unfold authorized; apply _. Defined.

(** The trailer records before the first unauthorized covenant. *)
Fixpoint authorized_prefix (inputs : Z) (l : list Trailer) : list Trailer :=
  match l with
  | [] => []
  | t :: l' => if decide (authorized inputs t) then t :: authorized_prefix inputs l' else []
  end.

Definition trailer_rank (t : Trailer) : Z :=
  match t with
  | TNetwork _ => 0 | TMs45Input _ _ => 1 | TMs45Output _ _ => 2 | TStealth _ => 3
  | TCovenant _ _ => 4 | TCovenantExecution _ _ => 5 | TInputDerivation _ _ => 6 | TOutputDerivation _ _ => 7
  end.
Definition trailer_position (t : Trailer) : Z :=
  match t with
  | TNetwork _ | TStealth _ => 0
  | TMs45Input p _ | TMs45Output p _ | TCovenant p _ | TCovenantExecution p _
  | TInputDerivation p _ | TOutputDerivation p _ => p
  end.

(** The one order of trailer records: by kind, then by position; no record
    twice. *)
Definition trailer_lt (a b : Trailer) : Prop :=
  trailer_rank a < trailer_rank b \/
  (trailer_rank a = trailer_rank b /\ trailer_position a < trailer_position b).
Definition canonical_trailers (l : list Trailer) : Prop :=
  (exists code l', l = TNetwork code :: l') /\ StronglySorted trailer_lt l.

Definition encodable_doc (limits : Limits) (d : Doc) : Prop :=
  valid_global limits (d_global d) /\
  Forall valid_doc_input (d_inputs d) /\ blen (d_inputs d) = g_input_count (d_global d) /\
  Forall valid_output (d_outputs d) /\ blen (d_outputs d) = g_output_count (d_global d) /\
  Forall (encodable_trailer (g_input_count (d_global d)) (g_output_count (d_global d))) (d_trailers d) /\
  canonical_trailers (d_trailers d).
Definition valid_doc (limits : Limits) (d : Doc) : Prop :=
  encodable_doc limits d /\ Forall (authorized (g_input_count (d_global d))) (d_trailers d).

(** ** What a decoder delivers *)

Inductive Event :=
  | EGlobal (value : Global)
  | EInput (index : Z) (value : Input) (signature_count : Z)
  | ESignature (input slot : Z) (value : Signature)
  | ERedeem (input : Z) (value : list Z)
  | EOutput (index : Z) (value : Output)
  | ETrailer (value : Trailer).

Definition deliver {T E} `{DecodeSink T E} (event : Event) : Comp T E unit :=
  match event with
  | EGlobal g => on_global g
  | EInput i v n => on_input i v n
  | ESignature i s v => on_signature i s v
  | ERedeem i v => on_redeem i v
  | EOutput i v => on_output i v
  | ETrailer (TNetwork code) => on_network code
  | ETrailer (TMs45Input p v) => on_input_ms45 p v
  | ETrailer (TMs45Output p v) => on_output_ms45 p v
  | ETrailer (TStealth v) => on_stealth v
  | ETrailer (TCovenant p c) => on_covenant p (authorizing_input c) (covenant_id c)
  | ETrailer (TCovenantExecution p v) => on_covenant_execution p v
  | ETrailer (TInputDerivation p v) => on_input_derivation p v
  | ETrailer (TOutputDerivation p v) => on_output_derivation p v
  end.

Fixpoint signature_events (input slot : Z) (l : list Signature) : list Event :=
  match l with
  | [] => []
  | s :: l' => ESignature input slot s :: signature_events input (slot + 1) l'
  end.
Definition doc_input_events (index : Z) (d : DocInput) : list Event :=
  EInput index (di_input d) (blen (di_signatures d)) ::
  signature_events index 0 (di_signatures d) ++ [ERedeem index (di_redeem d)].
Fixpoint input_events (index : Z) (l : list DocInput) : list Event :=
  match l with
  | [] => []
  | d :: l' => doc_input_events index d ++ input_events (index + 1) l'
  end.
Fixpoint output_events (index : Z) (l : list Output) : list Event :=
  match l with
  | [] => []
  | o :: l' => EOutput index o :: output_events (index + 1) l'
  end.
(** What comes before the trailers. *)
Definition body_events (d : Doc) : list Event :=
  EGlobal (d_global d) :: input_events 0 (d_inputs d) ++ output_events 0 (d_outputs d).
Definition doc_events (d : Doc) : list Event :=
  EGlobal (d_global d) :: input_events 0 (d_inputs d) ++ output_events 0 (d_outputs d) ++
  map ETrailer (d_trailers d).

(** A sink that records every call it receives. *)
#[global] Instance TraceSink : DecodeSink (list Event) Empty_set := {|
  on_global g := fun t => (Ok tt, t ++ [EGlobal g]);
  on_input i v n := fun t => (Ok tt, t ++ [EInput i v n]);
  on_signature i s v := fun t => (Ok tt, t ++ [ESignature i s v]);
  on_redeem i v := fun t => (Ok tt, t ++ [ERedeem i v]);
  on_output i v := fun t => (Ok tt, t ++ [EOutput i v]);
  on_network code := fun t => (Ok tt, t ++ [ETrailer (TNetwork code)]);
  on_stealth v := fun t => (Ok tt, t ++ [ETrailer (TStealth v)]);
  on_input_derivation p v := fun t => (Ok tt, t ++ [ETrailer (TInputDerivation p v)]);
  on_output_derivation p v := fun t => (Ok tt, t ++ [ETrailer (TOutputDerivation p v)]);
  on_input_ms45 p v := fun t => (Ok tt, t ++ [ETrailer (TMs45Input p v)]);
  on_output_ms45 p v := fun t => (Ok tt, t ++ [ETrailer (TMs45Output p v)]);
  on_covenant p a id := fun t => (Ok tt, t ++ [ETrailer (TCovenant p {| authorizing_input := a; covenant_id := id |})]);
  on_covenant_execution p v := fun t => (Ok tt, t ++ [ETrailer (TCovenantExecution p v)]) |}.

(** ** Facts about documents *)

Lemma script_bytes_len s : blen s <= MAX_SCRIPT_SIZE -> 1 <= blen (script_bytes s) <= 3 + MAX_SCRIPT_SIZE.
Proof.
  intros Hs. pose proof (blen_nonneg s). unfold script_bytes, MAX_SCRIPT_SIZE in *. case_match; len.
Qed.

(** The decoder's 59-byte floor under every input. *)
Lemma doc_input_min d : valid_doc_input d -> 59 <= blen (doc_input_bytes d).
Proof.
  intros ((Ht & _ & Hs) & _ & _). destruct Ht as ([_ Htx] & _).
  unfold doc_input_bytes, input_bytes, redeem_bytes. autorewrite with blen. rewrite Htx.
  pose proof (script_bytes_len _ Hs). pose proof (blen_nonneg (concat (map signature_bytes (di_signatures d)))).
  pose proof (blen_nonneg (di_redeem d)). lia.
Qed.

Lemma doc_inputs_min l : Forall valid_doc_input l -> 59 * blen l <= blen (concat (map doc_input_bytes l)).
Proof.
  induction 1 as [|d l Hd _ IH]; [done|]. cbn [map concat]. autorewrite with blen.
  pose proof (doc_input_min d Hd). lia.
Qed.

Lemma trace_deliver events t :
  for_each events (deliver (T:=list Event) (E:=Empty_set)) t = (Ok tt, t ++ events).
Proof.
  revert t. induction events as [|e events IH]; intros t; cbn [for_each]; [by rewrite app_nil_r|].
  assert (deliver e t = (Ok tt, t ++ [e])) as He by (by destruct e as [| | | | |[| | | |? []| | |]]).
  rewrite (bind_step _ _ _ _ _ He), IH. by rewrite <- app_assoc.
Qed.

Lemma null_deliver events : for_each events (deliver (T:=unit) (E:=Empty_set)) tt = (Ok tt, tt).
Proof.
  induction events as [|e events IH]; [done|]. cbn [for_each].
  assert (deliver e tt = (Ok tt, tt)) as He by (by destruct e as [| | | | |[]]).
  by rewrite (bind_step _ _ _ _ _ He).
Qed.
