(* ===== verification/KsptEncode.v ===== *)
(** * KSPT v1: the encoder writes exactly the documents

    Every function of the encoder is characterized by [writes]: whether it
    accepts its value, and the bytes it writes if it does, independently of the
    buffer, which only decides whether there is room. The component's theorems
    state that [encode] refines [doc_bytes] of the source's document. *)

From S2P Require Import Prelude KsptModel KsptWire KsptDoc.
Import Writer Encode.

(** ** Buffer-independent descriptions of writers *)

Definition writer_ok (w : Writer) : Prop :=
  0 <= w_pos w <= blen (w_output w) /\ blen (w_output w) <= usize_max.

(** What [m] does on any buffer: write [bs] and return [r] if [bs] fits, and
    report a short buffer otherwise. *)
Definition tracks {A} (m : Comp Writer WireError A) (bs : list Z) (r : result A WireError) : Prop :=
  forall w, writer_ok w ->
    if w_pos w + blen bs <=? blen (w_output w)
    then m w = (r, {| w_output := write_at (w_output w) (w_pos w) bs; w_pos := w_pos w + blen bs |})
    else exists w', m w = (Err OutputBufferTooSmall, w') /\ blen (w_output w') = blen (w_output w).

Definition writes {A} (m : Comp Writer WireError A) (accepted : bool) (bs : list Z) (a : A) : Prop :=
  if accepted then tracks m bs (Ok a)
  else exists bs' e, e <> OutputBufferTooSmall /\ tracks m bs' (Err e).

Arguments writes : simpl never.

Lemma write_at_len out pos v :
  0 <= pos -> pos + blen v <= blen out -> blen (write_at out pos v) = blen out.
Proof.
  intros. unfold write_at, blen in *. rewrite !length_app, length_take, length_drop. lia.
Qed.

Lemma write_at_nil out pos : write_at out pos [] = out.
Proof. unfold write_at. cbn [app length]. rewrite Nat.add_0_r. apply take_drop. Qed.

Lemma write_at_app out pos v1 v2 :
  0 <= pos -> pos + blen (v1 ++ v2) <= blen out ->
  write_at (write_at out pos v1) (pos + blen v1) v2 = write_at out pos (v1 ++ v2).
Proof.
  intros Hp Hf. unfold write_at, blen in *. rewrite length_app in Hf.
  replace (Z.to_nat (pos + Z.of_nat (length v1))) with (Z.to_nat pos + length v1)%nat by lia.
  assert (Ht : length (take (Z.to_nat pos) out) = Z.to_nat pos) by (rewrite length_take; lia).
  assert (Hl : length (take (Z.to_nat pos) out ++ v1) = (Z.to_nat pos + length v1)%nat) by (rewrite length_app; lia).
  rewrite !(app_assoc (take _ out) v1), <- Hl, take_app_length.
  rewrite drop_app_add, drop_drop, Hl, length_app. rewrite <- !app_assoc.
  do 4 f_equal. lia.
Qed.

Lemma tracks_bytes v : tracks (bytes v) v (Ok tt).
Proof.
  intros [out pos] [Hp Hm]. cbn in *. unfold bytes. cbn. pose proof (blen_nonneg v).
  unfold checked_add. unfold usize_max in Hm.
  destruct (Z.leb_spec (pos + blen v) (blen out)) as [Hle|Hgt].
  - rewrite checked_u64_id by (unfold u64_ok, u64_max in *; lia). by decide_tests.
  - destruct (checked_u64 (pos + blen v)) as [e|] eqn:He; [|by eexists]. checked_inv. subst.
    decide_tests. by eexists.
Qed.

Lemma tracks_ret {A} (a : A) : tracks (ret a) [] (Ok a).
Proof.
  intros [out pos] [Hp Hm]. cbn in *. change (blen []) with 0. rewrite Z.add_0_r. decide_tests.
  by rewrite write_at_nil.
Qed.

Lemma tracks_throw {A} e : @tracks A (throw e) [] (Err e).
Proof.
  intros [out pos] [Hp Hm]. cbn in *. change (blen []) with 0. rewrite Z.add_0_r. decide_tests.
  by rewrite write_at_nil.
Qed.

Lemma tracks_bind {A B} (m : Comp Writer WireError A) (k : A -> Comp Writer WireError B) b1 b2 a r :
  tracks m b1 (Ok a) -> tracks (k a) b2 r -> tracks (bind m k) (b1 ++ b2) r.
Proof.
  intros Hm Hk w [Hp Hu]. specialize (Hm w (conj Hp Hu)). rewrite blen_app.
  pose proof (blen_nonneg b1). pose proof (blen_nonneg b2).
  destruct (Z.leb_spec (w_pos w + blen b1) (blen (w_output w))).
  - rewrite (bind_step _ _ _ _ _ Hm).
    set (w1 := {| w_output := _; w_pos := _ |}) in *.
    assert (Hlen : blen (w_output w1) = blen (w_output w)) by (apply write_at_len; lia).
    assert (Hw1 : writer_ok w1) by (unfold writer_ok; rewrite Hlen; cbn [w_pos w1]; lia).
    specialize (Hk w1 Hw1). rewrite Hlen in Hk. cbn [w_pos w_output w1] in Hk.
    rewrite <- Z.add_assoc in Hk.
    destruct (Z.leb_spec (w_pos w + (blen b1 + blen b2)) (blen (w_output w))).
    + rewrite Hk. rewrite write_at_app by (rewrite ?blen_app; lia). done.
    + destruct Hk as (w' & Hk & Hl). exists w'. done.
  - decide_tests. destruct Hm as (w' & Hm & Hl). exists w'. by rewrite (bind_fail _ _ _ _ _ Hm).
Qed.

Lemma tracks_bind_err {A B} (m : Comp Writer WireError A) (k : A -> Comp Writer WireError B) bs e :
  tracks m bs (Err e) -> tracks (bind m k) bs (Err e).
Proof.
  intros Hm w Hw. specialize (Hm w Hw). case_match.
  - by apply bind_fail.
  - destruct Hm as (w' & Hm & ?). exists w'. by rewrite (bind_fail _ _ _ _ _ Hm).
Qed.

(** *** Composition of [writes] *)

Lemma writes_bytes v : writes (bytes v) true v tt.
Proof. apply tracks_bytes. Qed.

Lemma writes_ret {A} (a : A) : writes (ret a) true [] a.
Proof. apply tracks_ret. Qed.

Lemma writes_reject_if b e : e <> OutputBufferTooSmall -> writes (reject_if b e) (negb b) [] tt.
Proof. intros. unfold writes. destruct b; cbn; [exists [], e; split; [done|apply tracks_throw]|apply tracks_ret]. Qed.

Lemma writes_of_result {A} (r : result A WireError) a :
  (forall e, r = Err e -> e <> OutputBufferTooSmall) -> (forall a', r = Ok a' -> a' = a) ->
  writes (of_result r) (is_ok r) [] a.
Proof.
  intros He Ha. unfold writes. destruct r as [a'|e]; cbn; [rewrite (Ha a' eq_refl); apply tracks_ret|].
  exists [], e. split; [by apply He|apply tracks_throw].
Qed.

Lemma writes_bind {A B} (m : Comp Writer WireError A) (k : A -> Comp Writer WireError B) v1 v2 b1 b2 a b :
  writes m v1 b1 a -> writes (k a) v2 b2 b -> writes (bind m k) (v1 && v2) (b1 ++ b2) b.
Proof.
  intros Hm Hk. unfold writes in *. destruct v1; cbn in *.
  - destruct v2; cbn in *; [by eapply tracks_bind|].
    destruct Hk as (b2' & e & He & Hk). exists (b1 ++ b2'), e. split; [done|by eapply tracks_bind].
  - destruct Hm as (bs' & e & He & Hm). exists bs', e. split; [done|by apply tracks_bind_err].
Qed.

Lemma writes_for_each {A} (l : list A) (body : A -> Comp Writer WireError unit) v b :
  (forall x, x ∈ l -> writes (body x) (v x) (b x) tt) ->
  writes (for_each l body) (forallb v l) (concat (map b l)) tt.
Proof.
  induction l as [|x l IH]; intros Hl; [apply writes_ret|]. cbn [for_each forallb map concat].
  apply (writes_bind _ _ _ _ _ _ tt); [apply Hl; by left|]. apply IH. intros y Hy. apply Hl. by right.
Qed.

Lemma writes_eq {A} (m : Comp Writer WireError A) v v' b b' a :
  writes m v b a -> v = v' -> (v' = true -> b = b') -> writes m v' b' a.
Proof. intros H <- Hb. unfold writes in *. destruct v; [|done]. by rewrite <- Hb. Qed.

Create HintDb writes.
#[export] Hint Resolve writes_bytes writes_ret : writes.
#[export] Hint Extern 1 (writes (Writer.u8 _) _ _ _) => apply writes_bytes : writes.
#[export] Hint Extern 1 (writes (Writer.u16 _) _ _ _) => apply writes_bytes : writes.
#[export] Hint Extern 1 (writes (Writer.u32 _) _ _ _) => apply writes_bytes : writes.
#[export] Hint Extern 1 (writes (Writer.u64 _) _ _ _) => apply writes_bytes : writes.
#[export] Hint Extern 1 (writes (reject_if _ _) _ _ _) => (apply writes_reject_if; discriminate) : writes.

(** Follow the binds of a writer, solving each step from the hints. *)
Ltac follow :=
  cbv beta;
  lazymatch goal with
  | |- writes (bind _ _) _ _ _ => eapply writes_bind; [follow|follow]
  | _ => solve [eauto with writes]
  end.
(** Describe a writer, leaving its acceptance test and its bytes to check. *)
Ltac describe := eapply writes_eq; [follow|..].

(** ** The writers of values *)

Lemma writes_script s : writes (Writer.script s) (blen s <=? MAX_SCRIPT_SIZE) (script_bytes s) tt.
Proof.
  unfold Writer.script, script_bytes, MAX_SCRIPT_SIZE, EXTENDED_SCRIPT_LENGTH, u16_max.
  destruct (Z.ltb_spec (blen s) 0xff); describe; try (cbn; intros; app_eq);
    repeat match goal with |- context [Z.ltb ?a ?b] => destruct (Z.ltb_spec a b) end; cbn; decide_tests; (done || lia).
Qed.
#[export] Hint Resolve writes_script : writes.

Lemma writes_header flags : writes (write_header flags) true (header_bytes flags) tt.
Proof. unfold write_header, header_bytes. describe; done. Qed.
#[export] Hint Resolve writes_header : writes.

Lemma writes_global g : writes (write_global g) (blen (g_payload g) <=? u32_max) (global_bytes g) tt.
Proof.
  unfold write_global, global_bytes. describe; [|intros; app_eq].
  cbn. destruct (Z.ltb_spec u32_max (blen (g_payload g))); by decide_tests.
Qed.
#[export] Hint Resolve writes_global : writes.

Lemma writes_input_value i :
  writes (write_input_value i)
    ((sig_op_count i <=? MAX_SIGNATURE_RECORDS) && (blen (in_script i) <=? MAX_SCRIPT_SIZE)) (input_bytes i) tt.
Proof.
  unfold write_input_value, input_bytes. describe; [|intros; app_eq].
  cbn. by destruct (Z.ltb_spec MAX_SIGNATURE_RECORDS (sig_op_count i)); decide_tests.
Qed.
#[export] Hint Resolve writes_input_value : writes.

Lemma writes_output o : writes (write_output o) (blen (out_script o) <=? MAX_SCRIPT_SIZE) (output_bytes o) tt.
Proof. unfold write_output, output_bytes. describe; [|intros; app_eq]. done. Qed.
#[export] Hint Resolve writes_output : writes.

Lemma writes_redeem r : writes (write_redeem r) (blen r <=? MAX_REDEEM_SIZE) (redeem_bytes r) tt.
Proof.
  unfold write_redeem, redeem_bytes. describe; [|intros; app_eq].
  unfold MAX_REDEEM_SIZE, u16_max. cbn.
  destruct (Z.ltb_spec 1024 (blen r)), (Z.ltb_spec 65535 (blen r)); decide_tests; try done; lia.
Qed.
#[export] Hint Resolve writes_redeem : writes.

Lemma writes_signature s seen :
  writes (write_signature s seen)
    (bool_decide (sig_position s ∉ seen) && valid_sighash (sighash s)) (signature_bytes s)
    ({[sig_position s]} ∪ seen).
Proof.
  unfold write_signature, signature_bytes. describe; [|intros; rewrite ?app_nil_r; app_eq].
  rewrite negb_involutive, bool_decide_not. cbn. by rewrite andb_true_r.
Qed.
#[export] Hint Resolve writes_signature : writes.

Fixpoint signatures_accepted (l : list Signature) (seen : gset Z) : bool :=
  match l with
  | [] => true
  | s :: l' =>
      (bool_decide (sig_position s ∉ seen) && valid_sighash (sighash s))
        && signatures_accepted l' ({[sig_position s]} ∪ seen)
  end.

Lemma signatures_accepted_spec l seen :
  signatures_accepted l seen = true <->
  Forall (fun s => valid_sighash (sighash s) = true /\ sig_position s ∉ seen) l /\ NoDup (map sig_position l).
Proof.
  revert seen. induction l as [|s l IH]; intros seen; cbn.
  - split; [intros _; split; constructor|done].
  - rewrite !andb_true_iff, bool_decide_eq_true, IH, Forall_cons, NoDup_cons, list_elem_of_fmap.
    rewrite !Forall_forall. set_solver.
Qed.

Lemma writes_signature_slots records slots seen :
  writes (write_signature_slots records slots seen) (signatures_accepted (map records slots) seen)
    (concat (map signature_bytes (map records slots))) tt.
Proof.
  revert seen. induction slots as [|i slots IH]; intros seen; [apply writes_ret|].
  cbn [write_signature_slots map signatures_accepted concat]. by eapply writes_bind; [apply writes_signature|].
Qed.
#[export] Hint Resolve writes_signature_slots : writes.

(** ** The writers of trailer records *)

Lemma writes_position i : writes (of_result (position i)) (i <=? u8_max) [] i.
Proof.
  eapply writes_eq; [apply writes_of_result| |done].
  - unfold position. intros e. case_match; [by intros [= <-]|done].
  - unfold position. intros a. case_match; [done|by intros [= <-]].
  - unfold position, u8_max. destruct (Z.ltb_spec 255 i); by decide_tests.
Qed.
#[export] Hint Resolve writes_position : writes.

Lemma writes_network code :
  writes (write_network code) (valid_network code) (trailer_bytes (TNetwork code)) tt.
Proof. unfold write_network. describe; [by rewrite negb_involutive, !andb_true_r|done]. Qed.
#[export] Hint Resolve writes_network : writes.

Lemma writes_stealth v :
  writes (write_stealth v) true (concat (map trailer_bytes (TStealth <$> option_list v))) tt.
Proof. destruct v as [tweak|]; cbn; [describe; [done|intros; cbn; by rewrite app_nil_r]|apply writes_ret]. Qed.

Definition accepts_trailer (t : Trailer) : bool :=
  (trailer_position t <=? u8_max) &&
  match t with
  | TNetwork code => valid_network code
  | TStealth _ | TCovenant _ _ => true
  | TMs45Input _ m | TMs45Output _ m => valid_ms45 m
  | TCovenantExecution _ c => valid_covenant_execution c
  | TInputDerivation _ d | TOutputDerivation _ d => valid_derivation d
  end.

Lemma writes_derivation (mk : Z -> Derivation -> Trailer) i d :
  mk = TInputDerivation \/ mk = TOutputDerivation ->
  writes (write_derivation (trailer_marker (mk i d)) i d) (accepts_trailer (mk i d)) (trailer_bytes (mk i d)) tt.
Proof.
  intros Hmk. unfold write_derivation. describe; [|intros; by destruct Hmk as [-> | ->]].
  rewrite negb_involutive. destruct Hmk as [-> | ->]; cbn; rewrite ?andb_true_r; apply andb_comm.
Qed.

Lemma writes_ms45 (mk : Z -> Ms45Derivation -> Trailer) i m :
  mk = TMs45Input \/ mk = TMs45Output ->
  writes (write_ms45 (trailer_marker (mk i m)) i m) (accepts_trailer (mk i m)) (trailer_bytes (mk i m)) tt.
Proof.
  intros Hmk. unfold write_ms45. describe; [|intros; by destruct Hmk as [-> | ->]].
  rewrite negb_involutive. destruct Hmk as [-> | ->]; cbn; rewrite ?andb_true_r; apply andb_comm.
Qed.

Lemma writes_covenant i c :
  writes (write_covenant i c) (accepts_trailer (TCovenant i c)) (trailer_bytes (TCovenant i c)) tt.
Proof. unfold write_covenant. describe; reflexivity. Qed.

Lemma writes_covenant_execution i c :
  writes (write_covenant_execution i c) (accepts_trailer (TCovenantExecution i c))
    (trailer_bytes (TCovenantExecution i c)) tt.
Proof.
  unfold write_covenant_execution. describe; [|reflexivity].
  rewrite negb_involutive. cbn. rewrite ?andb_true_r. apply andb_comm.
Qed.

(** The records of one kind: those present among the first [count] slots. *)
Definition present {A} (count : Z) (get : Z -> option A) (mk : Z -> A -> Trailer) : list Trailer :=
  omap (fun i => mk i <$> get i) (seqZ 0 count).

Lemma writes_present {A} count (get : Z -> option A) write mk :
  (forall i a, writes (write i a) (accepts_trailer (mk i a)) (trailer_bytes (mk i a)) tt) ->
  writes (write_present count get write) (forallb accepts_trailer (present count get mk))
    (concat (map trailer_bytes (present count get mk))) tt.
Proof.
  intros Hw. unfold write_present, present. induction (seqZ 0 count) as [|i l IH]; [apply writes_ret|].
  cbn [for_each omap list_omap]. destruct (get i) as [a|]; cbn [fmap option_fmap option_map].
  - cbn [forallb map concat]. by apply (writes_bind _ _ _ _ _ _ tt).
  - change (writes (bind (ret tt) (fun _ => for_each l (fun index =>
      match get index with Some value => write index value | None => ret tt end))) 
      (true && forallb accepts_trailer (omap (fun i => mk i <$> get i) l))
      ([] ++ concat (map trailer_bytes (omap (fun i => mk i <$> get i) l))) tt).
    apply (writes_bind _ _ _ _ _ _ tt); [apply writes_ret|done].
Qed.

(** ** The document of a source *)

Section source.
Context {S : Type} `{EncodeSource S}.
Implicit Types (source : S) (limits : Limits).

Definition doc_input_of source (i : Z) : DocInput := {|
  di_input := input source i;
  di_signatures := map (signature source i) (seqZ 0 (signature_count source i));
  di_redeem := redeem source i |}.

Definition doc_of source : Doc :=
  let g := global source in
  let inputs := g_input_count g in
  let outputs := g_output_count g in
  {| d_global := g;
     d_inputs := map (doc_input_of source) (seqZ 0 inputs);
     d_outputs := map (output source) (seqZ 0 outputs);
     d_trailers :=
       [TNetwork (network source)]
       ++ (present inputs (input_ms45 source) TMs45Input ++ present outputs (output_ms45 source) TMs45Output)
       ++ (TStealth <$> option_list (stealth source))
       ++ present outputs (covenant source) TCovenant
       ++ present inputs (covenant_execution source) TCovenantExecution
       ++ (present inputs (input_derivation source) TInputDerivation
           ++ present outputs (output_derivation source) TOutputDerivation) |}.

(** What the Rust types of a source guarantee. *)
Definition typed_source source : Prop :=
  let g := global source in
  typed_global g /\
  (forall i, 0 <= i < g_input_count g ->
     typed_input (input source i) /\ 0 <= signature_count source i /\
     (forall j, typed_signature (signature source i j)) /\ bytes_ok (redeem source i) /\
     (forall v, input_ms45 source i = Some v -> typed_ms45 v) /\
     (forall v, covenant_execution source i = Some v -> typed_covenant_execution v) /\
     (forall v, input_derivation source i = Some v -> typed_derivation v)) /\
  (forall i, 0 <= i < g_output_count g ->
     typed_output (output source i) /\
     (forall v, output_ms45 source i = Some v -> typed_ms45 v) /\
     (forall v, covenant source i = Some v -> typed_covenant v) /\
     (forall v, output_derivation source i = Some v -> typed_derivation v)) /\
  byte_ok (network source) /\ (forall v, stealth source = Some v -> bytes_of 32 v).

Definition accepts_doc_input (d : DocInput) : bool :=
  (sig_op_count (di_input d) <=? MAX_SIGNATURE_RECORDS) && (blen (in_script (di_input d)) <=? MAX_SCRIPT_SIZE)
  && ((blen (di_signatures d) <=? MAX_SIGNATURE_RECORDS) && signatures_accepted (di_signatures d) ∅)
  && (blen (di_redeem d) <=? MAX_REDEEM_SIZE).

Definition accepts_doc (d : Doc) : bool :=
  (blen (g_payload (d_global d)) <=? u32_max) && (forallb accepts_doc_input (d_inputs d))
  && (forallb (fun o => blen (out_script o) <=? MAX_SCRIPT_SIZE) (d_outputs d))
  && forallb accepts_trailer (d_trailers d).

Lemma blen_seqZ m n : 0 <= n -> blen (seqZ m n) = n.
Proof. intros. unfold blen. rewrite length_seqZ. lia. Qed.

Lemma blen_map {A B} (f : A -> B) l : blen (map f l) = blen l.
Proof. unfold blen. by rewrite length_map. Qed.

Lemma writes_input source i :
  0 <= signature_count source i ->
  writes (write_input source i) (accepts_doc_input (doc_input_of source i)) (doc_input_bytes (doc_input_of source i)) tt.
Proof.
  intros Hc. unfold write_input, write_signatures. describe.
  - unfold accepts_doc_input. cbn [doc_input_of di_input di_signatures di_redeem].
    rewrite blen_map, blen_seqZ by done. rewrite (Z.ltb_antisym (signature_count source i)), negb_involutive.
    rewrite andb_true_l. by rewrite <- !andb_assoc.
  - intros _. unfold doc_input_bytes. cbn [doc_input_of di_input di_signatures di_redeem].
    rewrite blen_map, blen_seqZ by done. app_eq.
Qed.

Lemma writes_trailers source :
  writes (write_trailers source (global source)) (forallb accepts_trailer (d_trailers (doc_of source)))
    (concat (map trailer_bytes (d_trailers (doc_of source)))) tt.
Proof.
  unfold write_trailers, write_ms45_trailers, write_covenant_trailers, write_covenant_execution_trailers,
    write_derivation_trailers. cbn [doc_of d_trailers].
  eapply writes_eq.
  - eapply writes_bind; [apply writes_network|].
    eapply writes_bind; [eapply writes_bind|].
    + apply writes_present. intros. by apply (writes_ms45 TMs45Input); left.
    + apply writes_present. intros. by apply (writes_ms45 TMs45Output); right.
    + eapply writes_bind; [apply writes_stealth|].
      eapply writes_bind; [apply writes_present, writes_covenant|].
      eapply writes_bind; [apply writes_present, writes_covenant_execution|].
      eapply writes_bind.
      * apply writes_present. intros. by apply (writes_derivation TInputDerivation); left.
      * apply writes_present. intros. by apply (writes_derivation TOutputDerivation); right.
  - rewrite !forallb_app. f_equal; [cbn; by rewrite andb_true_r|]. f_equal.
    by destruct (stealth source).
  - intros _. rewrite !map_app, !concat_app. f_equal.
Qed.

Lemma writes_envelope source :
  typed_source source ->
  writes (write_envelope source) (accepts_doc (doc_of source)) (doc_bytes (doc_of source)) tt.
Proof.
  intros (Hg & Hin & _). destruct Hg as (_ & _ & Hic & _). unfold write_envelope. eapply writes_eq.
  - eapply writes_bind; [apply writes_header|]. eapply writes_bind; [apply writes_global|].
    eapply writes_bind; [apply writes_for_each; intros i Hi; apply writes_input; apply elem_of_seqZ in Hi; apply Hin; lia|].
    eapply writes_bind; [apply writes_for_each; intros; apply writes_output|]. apply writes_trailers.
  - unfold accepts_doc. cbn [doc_of d_global d_inputs d_outputs d_trailers]. rewrite !forallb_map.
    cbn [andb]. by rewrite <- !andb_assoc.
  - intros _. unfold doc_bytes. cbn [doc_of d_global d_inputs d_outputs d_trailers].
    by rewrite !map_map.
Qed.

(** *** The records of a source are in canonical order *)

Lemma seqZ_sorted m (n : nat) : StronglySorted Z.lt (seqZ m (Z.of_nat n)).
Proof.
  revert m. induction n as [|n IH]; intros m; [constructor|]. rewrite seqZ_cons by lia.
  replace (Z.pred (Z.of_nat (Datatypes.S n))) with (Z.of_nat n) by lia.
  constructor; [apply IH|]. apply Forall_forall. intros x Hx%elem_of_seqZ. lia.
Qed.

Lemma seqZ_sorted' m n : StronglySorted Z.lt (seqZ m n).
Proof.
  destruct (Z.le_gt_cases 0 n); [rewrite <- (Z2Nat.id n) by done; apply seqZ_sorted|].
  rewrite seqZ_nil by lia. constructor.
Qed.

Lemma present_elem {A} count (get : Z -> option A) mk t :
  t ∈ present count get mk <-> exists i a, 0 <= i < count /\ get i = Some a /\ t = mk i a.
Proof.
  unfold present. rewrite list_elem_of_omap. split.
  - intros (i & Hi%elem_of_seqZ & Ht). destruct (get i) as [a|] eqn:Ha; [|done]. injection Ht as <-.
    exists i, a. split_and!; [lia|lia|done|done].
  - intros (i & a & Hi & Ha & ->). exists i. rewrite elem_of_seqZ, Ha. split; [lia|done].
Qed.

(** A segment: sorted records of one kind. *)
Definition segment (rank : Z) (l : list Trailer) : Prop :=
  StronglySorted trailer_lt l /\ Forall (fun t => trailer_rank t = rank) l.

Lemma present_segment {A} count (get : Z -> option A) mk rank :
  (forall i a, trailer_rank (mk i a) = rank /\ trailer_position (mk i a) = i) ->
  segment rank (present count get mk).
Proof.
  intros Hmk. split; [|apply Forall_forall; intros t (i & a & _ & _ & ->)%present_elem; apply Hmk].
  unfold present. pose proof (seqZ_sorted' 0 count) as Hs.
  induction Hs as [|i l Hs IH Hall]; [constructor|]. cbn [omap list_omap].
  destruct (get i) as [a|]; cbn [fmap option_fmap option_map]; [|done]. constructor; [done|].
  apply Forall_forall. intros t (j & Hj & Ht)%list_elem_of_omap. rewrite Forall_forall in Hall. specialize (Hall _ Hj).
  destruct (get j) as [b|]; [|done]. injection Ht as <-. right.
  destruct (Hmk i a) as [-> ->], (Hmk j b) as [-> ->]. done.
Qed.

(** Segments of increasing rank concatenate to a sorted list. *)
Lemma segments_sorted ranks segments :
  Forall2 segment ranks segments -> StronglySorted Z.lt ranks -> StronglySorted trailer_lt (concat segments).
Proof.
  intros Hseg. induction Hseg as [|r l ranks ls [Hl Hr] Hls IH]; intros Hs; [constructor|].
  apply StronglySorted_inv in Hs as [Hs Hlt]. cbn [concat]. apply StronglySorted_app_2; [|done|by apply IH].
  intros t1 t2 Ht1 Ht2. left. apply list_elem_of_In, in_concat in Ht2 as (l2 & Hl2 & Ht2).
  apply list_elem_of_In in Hl2, Ht2. rewrite Forall_forall in Hr. rewrite Forall_forall in Hlt. rewrite (Hr _ Ht1).
  apply list_elem_of_lookup in Hl2 as [i Hi]. destruct (Forall2_lookup_r _ _ _ _ _ Hls Hi) as (r2 & Hr2 & _ & Hall).
  rewrite Forall_forall in Hall. rewrite (Hall _ Ht2). by apply Hlt, (list_elem_of_lookup_2 _ i).
Qed.

Lemma doc_of_canonical source : canonical_trailers (d_trailers (doc_of source)).
Proof.
  cbn [doc_of d_trailers]. split; [by eexists _, _|].
  set (g := global source). set (inputs := g_input_count g). set (outputs := g_output_count g).
  pose (segments := [[TNetwork (network source)]; present inputs (input_ms45 source) TMs45Input;
    present outputs (output_ms45 source) TMs45Output; TStealth <$> option_list (stealth source);
    present outputs (covenant source) TCovenant; present inputs (covenant_execution source) TCovenantExecution;
    present inputs (input_derivation source) TInputDerivation;
    present outputs (output_derivation source) TOutputDerivation]).
  assert (Hseg : Forall2 segment (seqZ 0 8) segments).
  { change (seqZ 0 8) with [0; 1; 2; 3; 4; 5; 6; 7]. unfold segments.
    repeat (apply Forall2_cons; split); try (by apply present_segment); [..|constructor].
    - repeat constructor.
    - destruct (stealth source); repeat constructor. }
  pose proof (segments_sorted _ _ Hseg (seqZ_sorted' 0 8)) as Hs. unfold segments in Hs. cbn [concat] in Hs.
  rewrite app_nil_r in Hs. by rewrite <- !app_assoc.
Qed.

(** *** Acceptance is validity *)

(** What holds of every record of a typed source, checked or not. *)
Definition typed_trailer (inputs outputs : Z) (t : Trailer) : Prop :=
  match t with
  | TNetwork code => byte_ok code
  | TStealth tweak => bytes_of 32 tweak
  | TMs45Input p m => 0 <= p < inputs /\ typed_ms45 m
  | TMs45Output p m => 0 <= p < outputs /\ typed_ms45 m
  | TCovenant p c => 0 <= p < outputs /\ typed_covenant c
  | TCovenantExecution p c => 0 <= p < inputs /\ typed_covenant_execution c
  | TInputDerivation p d => 0 <= p < inputs /\ typed_derivation d
  | TOutputDerivation p d => 0 <= p < outputs /\ typed_derivation d
  end.

Lemma accepts_encodable inputs outputs t :
  typed_trailer inputs outputs t -> accepts_trailer t = true <-> encodable_trailer inputs outputs t.
Proof.
  unfold accepts_trailer, u8_max.
  destruct t; cbn [typed_trailer trailer_position encodable_trailer];
    rewrite andb_true_iff, Z.leb_le; unfold byte_ok; intuition lia.
Qed.

Lemma doc_of_typed source :
  typed_source source ->
  Forall (typed_trailer (g_input_count (global source)) (g_output_count (global source))) (d_trailers (doc_of source)).
Proof.
  intros (Hg & Hin & Hout & Hnet & Hst). apply Forall_forall. intros t. cbn [doc_of d_trailers].
  rewrite !elem_of_app, list_elem_of_singleton, list_elem_of_fmap.
  intros [->|[[Ht|Ht]|[(tw & -> & Htw)|[Ht|[Ht|[Ht|Ht]]]]]]; cbn;
    try (apply present_elem in Ht as (i & a & Hi & Ha & ->); cbn; split; [done|];
         first [specialize (Hin i Hi)|specialize (Hout i Hi)]; naive_solver).
  - done.
  - destruct (stealth source) as [v|]; [|by apply elem_of_nil in Htw]. apply list_elem_of_singleton in Htw as ->. by apply Hst.
Qed.

Lemma forallb_Forall {A} (p : A -> bool) (P Q : A -> Prop) l :
  Forall Q l -> (forall x, Q x -> p x = true <-> P x) -> forallb p l = true <-> Forall P l.
Proof.
  intros HQ Hiff. induction HQ as [|x l Hx _ IH]; cbn; [by split|].
  rewrite andb_true_iff, Forall_cons, IH. by rewrite Hiff.
Qed.

Lemma accepts_doc_input_spec d :
  typed_input (di_input d) -> Forall typed_signature (di_signatures d) -> bytes_ok (di_redeem d) ->
  accepts_doc_input d = true <-> valid_doc_input d.
Proof.
  intros Hi Hs Hr. unfold accepts_doc_input, valid_doc_input, valid_input, valid_signatures, valid_redeem.
  rewrite !andb_true_iff, !Z.leb_le, signatures_accepted_spec, !Forall_and, !Forall_forall.
  rewrite Forall_forall in Hs. rewrite Forall_forall in Hr.
  pose proof (fun x : Signature => not_elem_of_empty (C:=gset Z) (sig_position x)). naive_solver.
Qed.

Lemma validate_global_spec g limits :
  validate_global g limits = Ok tt <->
  supported_tx_version (g_version g) = true /\ Z.land (g_flags g) (Z.lxor u8_max ALLOWED_FLAGS) = 0 /\
  g_input_count g <= max_inputs limits /\ g_output_count g <= max_outputs limits /\
  blen (g_payload g) <= max_payload limits.
Proof.
  unfold validate_global, validate_inputs, validate_outputs, validate_payload.
  destruct (supported_tx_version _); cbn [negb]; [|naive_solver].
  destruct (Z.eqb_spec (Z.land (g_flags g) (Z.lxor u8_max ALLOWED_FLAGS)) 0); cbn [negb]; [|naive_solver].
  destruct (Z.ltb_spec (max_inputs limits) (g_input_count g)); cbn [rbind]; [naive_solver lia|].
  destruct (Z.ltb_spec (max_outputs limits) (g_output_count g)); cbn [rbind]; [naive_solver lia|].
  destruct (Z.ltb_spec (max_payload limits) (blen (g_payload g))); naive_solver lia.
Qed.

Lemma accepts_doc_spec source limits :
  typed_source source ->
  validate_global (global source) limits = Ok tt /\ accepts_doc (doc_of source) = true <->
  encodable_doc limits (doc_of source).
Proof.
  intros Ht. pose proof (doc_of_canonical source) as Hcan. pose proof (doc_of_typed source Ht) as Htyped.
  destruct Ht as (Hg & Hin & Hout & _).
  assert (Hins : forallb accepts_doc_input (d_inputs (doc_of source)) = true <->
                 Forall valid_doc_input (d_inputs (doc_of source))).
  { apply (forallb_Forall _ _ (fun d => typed_input (di_input d) /\ Forall typed_signature (di_signatures d) /\ bytes_ok (di_redeem d))).
    - apply Forall_map, Forall_forall. intros i Hi%elem_of_seqZ. destruct (Hin i ltac:(lia)) as (? & _ & ? & ? & _).
      split_and!; [done| |done]. apply Forall_map, Forall_forall. auto.
    - intros d (? & ? & ?). by apply accepts_doc_input_spec. }
  assert (Houts : forallb (fun o => blen (out_script o) <=? MAX_SCRIPT_SIZE) (d_outputs (doc_of source)) = true <->
                  Forall valid_output (d_outputs (doc_of source))).
  { apply (forallb_Forall _ _ typed_output).
    - apply Forall_map, Forall_forall. intros i Hi%elem_of_seqZ. apply Hout. lia.
    - intros o Ho. unfold valid_output. rewrite Z.leb_le. naive_solver. }
  unfold accepts_doc, encodable_doc, valid_global.
  rewrite !andb_true_iff, validate_global_spec, Hins, Houts, Z.leb_le.
  rewrite (forallb_Forall _ _ _ _ Htyped (fun t => accepts_encodable _ _ t)).
  cbn [doc_of d_global d_inputs d_outputs d_trailers] in *. rewrite !blen_map.
  destruct Hg as (? & ? & Hic & Hoc & ?). unfold u32_ok, byte_ok in Hic, Hoc.
  rewrite !blen_seqZ by lia. unfold typed_global, u32_ok, byte_ok. naive_solver.
Qed.

(** ** [encode] *)

(** What [encode] returns on every buffer: for an encodable document its bytes
    or a short buffer; otherwise one fixed error, once the buffer is long
    enough to reach it. *)
Definition encode_outcome source limits : Prop :=
  let bytes := doc_bytes (doc_of source) in
  (encodable_doc limits (doc_of source) /\
   forall out, blen out <= usize_max ->
     if blen bytes <=? blen out
     then encode source out limits = (Ok (blen bytes), bytes ++ drop (length bytes) out)
     else exists out', encode source out limits = (Err OutputBufferTooSmall, out') /\ blen out' = blen out) \/
  (~ encodable_doc limits (doc_of source) /\
   exists n e, e <> OutputBufferTooSmall /\
     forall out, blen out <= usize_max ->
       exists out', encode source out limits = (Err (if n <=? blen out then e else OutputBufferTooSmall), out')).

Lemma encode_has_outcome source limits : typed_source source -> encode_outcome source limits.
Proof.
  intros Ht. pose proof (accepts_doc_spec source limits Ht) as Hacc.
  pose proof (writes_envelope source Ht) as Hw. unfold encode_outcome, encode.
  assert (Hok : forall out, blen out <= usize_max -> writer_ok (Writer.new out)).
  { intros out. unfold writer_ok. cbn. pose proof (blen_nonneg out). lia. }
  destruct (validate_global (global source) limits) as [[]|e] eqn:Hv.
  2:{ right. split; [intros Henc; by apply Hacc in Henc as [? _]|].
      exists 0, e. split.
      - clear -Hv. intros ->. unfold validate_global, validate_inputs, validate_outputs, validate_payload in Hv.
        repeat (case_match; [try done|]); try done; cbn in Hv; repeat case_match; done.
      - intros out _. exists out. pose proof (blen_nonneg out). by decide_tests. }
  unfold writes in Hw. destruct (accepts_doc (doc_of source)) eqn:Ha.
  - left. split; [by apply Hacc|]. intros out Hu.
    specialize (Hw _ (Hok _ Hu)). cbn [Writer.new w_pos w_output] in Hw. rewrite Z.add_0_l in Hw.
    destruct (_ <=? _).
    + rewrite Hw. cbn [w_pos w_output]. unfold write_at. cbn [Z.to_nat take app Nat.add]. done.
    + destruct Hw as (w' & -> & Hl). by eexists.
  - right. split; [intros Henc; by apply Hacc in Henc as [_ ?]|].
    destruct Hw as (bs & e & He & Hw). exists (blen bs), e. split; [done|]. intros out Hu.
    specialize (Hw _ (Hok _ Hu)). cbn [Writer.new w_pos w_output] in Hw. rewrite Z.add_0_l in Hw. case_match.
    + rewrite Hw. by eexists.
    + destruct Hw as (w' & -> & _). by eexists.
Qed.

(** C3: [encode] refines the grammar. For a source whose document is encodable
    under the limits it writes exactly the bytes of that document at the start
    of the buffer, leaves the rest alone and returns their number, or reports
    a short buffer when they do not fit. Any other source is rejected with one
    error that does not depend on the buffer (or as a short buffer). *)
Theorem encode_refines_grammar source limits : typed_source source -> encode_outcome source limits.
Proof. apply encode_has_outcome. Qed.

(** ** [encode_vec] *)

Lemma encode_growing_spec fuel source limits capacity :
  typed_source source -> 1 <= capacity <= u64_max -> u64_max < capacity * 2 ^ Z.of_nat fuel ->
  blen (doc_bytes (doc_of source)) <= 2 ^ 63 ->
  (encodable_doc limits (doc_of source) ->
     encode_growing fuel source limits capacity = Some (Ok (doc_bytes (doc_of source)))) /\
  (~ encodable_doc limits (doc_of source) ->
     exists e, encode_growing fuel source limits capacity = Some (Err e)).
Proof.
  intros Ht. pose proof (encode_has_outcome source limits Ht) as Hout.
  revert capacity. induction fuel as [|fuel IH]; intros capacity Hc Hf Hlen; [cbn in Hf; lia|].
  rewrite Nat2Z.inj_succ, Z.pow_succ_r in Hf by lia. cbn [encode_growing].
  assert (Hcap : blen (replicate (Z.to_nat capacity) 0) = capacity) by (unfold blen; rewrite length_replicate; lia).
  assert (Hstep : forall z, checked_mul capacity 2 = Some z -> 1 <= z <= u64_max /\ u64_max < z * 2 ^ Z.of_nat fuel).
  { intros z Hz. checked_inv. unfold u64_ok, u64_max in *. lia. }
  assert (Hu : blen (replicate (Z.to_nat capacity) 0) <= usize_max) by (rewrite Hcap; unfold usize_max; lia).
  destruct Hout as [[Henc Hout]|[Hnenc (n & e & He & Hout)]].
  - specialize (Hout _ Hu). rewrite Hcap in Hout. split; [intros _|by intros []].
    destruct (Z.leb_spec (blen (doc_bytes (doc_of source))) capacity).
    + rewrite Hout. unfold blen at 1. by rewrite Nat2Z.id, take_app_length.
    + destruct Hout as (out' & -> & _). destruct (checked_mul capacity 2) as [z|] eqn:Hz.
      * destruct (Hstep _ eq_refl). by apply IH.
      * checked_inv. unfold u64_ok, u64_max in *. lia.
  - split; [by intros|intros _]. destruct (Hout _ Hu) as (out' & ->). rewrite Hcap. destruct (n <=? capacity).
    + destruct e; [by eexists|done|by eexists..].
    + destruct (checked_mul capacity 2) as [z|] eqn:Hz; [|by eexists].
      destruct (Hstep _ eq_refl). by apply IH.
Qed.

Lemma initial_capacity_range source :
  typed_global (global source) -> 1024 <= initial_capacity source <= u64_max.
Proof.
  intros (_ & _ & Hi & Ho & _). unfold initial_capacity, saturating_add, saturating_mul, u64_max, u32_ok, byte_ok in *.
  pose proof (blen_nonneg (g_payload (global source))). lia.
Qed.

(** C4: the growing encoder always returns: with an encodable source (and a
    document that a 64-bit machine can hold) it returns the bytes of the
    document, whatever the first capacity was, and otherwise an error; the
    doubling loop never runs out of rounds. *)
Theorem encode_vec_total source limits :
  typed_source source -> blen (doc_bytes (doc_of source)) <= 2 ^ 63 ->
  (encodable_doc limits (doc_of source) -> encode_vec source limits = Some (Ok (doc_bytes (doc_of source)))) /\
  (~ encodable_doc limits (doc_of source) -> exists e, encode_vec source limits = Some (Err e)).
Proof.
  intros Ht Hlen. unfold encode_vec. pose proof (initial_capacity_range source (proj1 Ht)) as Hc.
  apply encode_growing_spec; [done|lia| |done]. change (2 ^ Z.of_nat 64) with 18446744073709551616.
  unfold u64_max. lia.
Qed.

End source.
