(* ===== verification/KsptDecode.v ===== *)
(** * KSPT v1: the decoder accepts exactly the documents

    For every reader: which bytes it accepts and with which value
    ([reads]/[accepts], and [decodes]/[admits] for the readers that feed a
    sink). The theorems state that [decode] accepts exactly the bytes of the
    valid documents and replays the document's calls into any sink. *)

From S2P Require Import Prelude KsptModel KsptWire KsptDoc.
Import Reader Decode.

(** ** Readers *)

(** The reader's unread input. *)
Definition reader_at (r : Reader) (rest : list Z) : Prop :=
  exists pre, r = {| r_data := pre ++ rest; r_pos := blen pre |} /\ blen (pre ++ rest) <= usize_max.

Definition reads {A} (m : Comp Reader WireError A) (bs : list Z) (a : A) : Prop :=
  forall r rest, reader_at r (bs ++ rest) -> exists r', m r = (Ok a, r') /\ reader_at r' rest.

(** A success consumed bytes that satisfy [P] with the value read. *)
Definition accepts {A} (m : Comp Reader WireError A) (P : A -> list Z -> Prop) : Prop :=
  forall r rest a r', reader_at r rest -> bytes_ok rest -> m r = (Ok a, r') ->
    exists bs rest', rest = bs ++ rest' /\ bytes_ok bs /\ bytes_ok rest' /\ reader_at r' rest' /\ P a bs.

Lemma reader_at_new data : blen data <= usize_max -> reader_at (Reader.new data) data.
Proof. intros. by exists []. Qed.

Lemma reads_bytes bs n : blen bs = n -> reads (bytes n) bs bs.
Proof.
  intros <- r rest (pre & -> & Hu). unfold bytes. cbn [r_pos r_data].
  pose proof (blen_nonneg pre). pose proof (blen_nonneg bs). pose proof (blen_nonneg rest).
  autorewrite with blen in Hu. unfold usize_max, u64_max in Hu.
  unfold checked_add. rewrite checked_u64_id by (unfold u64_ok; lia).
  rewrite (slice_split _ pre bs rest) by (done || lia). eexists. split; [done|].
  exists (pre ++ bs). rewrite <- app_assoc, blen_app. split; [done|]. autorewrite with blen. unfold usize_max, u64_max. lia.
Qed.

Lemma accepts_bytes n : 0 <= n -> accepts (bytes n) (fun a bs => a = bs /\ blen bs = n).
Proof.
  intros Hn r rest a r' (pre & -> & Hu) Hok. unfold bytes. cbn [r_pos r_data].
  destruct (checked_add (blen pre) n) as [e|] eqn:He; [|done]. checked_inv. subst.
  destruct (slice _ _ _) as [bs|] eqn:Hs; [|done]. intros [= <- <-].
  apply slice_Some in Hs as (l1 & l3 & Heq & Hl1 & Hend).
  apply app_inj_1 in Heq as [<- ->]; [|unfold blen in *; lia]. apply Forall_app in Hok as [? ?].
  exists bs, l3. split_and!; [done..| |done|lia].
  exists (pre ++ bs). rewrite <- app_assoc, blen_app. split; [by replace n with (blen bs) by lia|done].
Qed.

Lemma reads_bind {A B} (m : Comp Reader WireError A) (k : A -> Comp Reader WireError B) b1 b2 a b :
  reads m b1 a -> reads (k a) b2 b -> reads (bind m k) (b1 ++ b2) b.
Proof.
  intros Hm Hk r rest Hr. rewrite <- app_assoc in Hr. destruct (Hm _ _ Hr) as (r1 & H1 & Hr1).
  rewrite (bind_step _ _ _ _ _ H1). by apply Hk.
Qed.

Lemma reads_bind_nil {A B} (m : Comp Reader WireError A) (k : A -> Comp Reader WireError B) bs a b :
  reads m [] a -> reads (k a) bs b -> reads (bind m k) bs b.
Proof. apply (reads_bind _ _ []). Qed.

Lemma reads_ret {A} (a : A) : reads (ret a) [] a.
Proof. intros r rest Hr. by exists r. Qed.

Lemma reads_bind_last {A B} (m : Comp Reader WireError A) (k : A -> Comp Reader WireError B) bs a b :
  reads m bs a -> k a = ret b -> reads (bind m k) bs b.
Proof. intros Hm Hk. rewrite <- (app_nil_r bs). eapply reads_bind; [done|]. rewrite Hk. apply reads_ret. Qed.

Lemma reads_reject_if b e : b = false -> reads (reject_if b e) [] tt.
Proof. intros ->. apply reads_ret. Qed.

Lemma reads_of_result {A} (r : result A WireError) a : r = Ok a -> reads (of_result r) [] a.
Proof. intros ->. apply reads_ret. Qed.

Lemma reads_u8 b : reads Reader.u8 [b] b.
Proof. by eapply reads_bind_last; [apply reads_bytes|]. Qed.

Lemma reads_le n v : 0 <= v < 256 ^ Z.of_nat n ->
  reads (let* l := array (Z.of_nat n) in ret (le_val l)) (le_bytes n v) v.
Proof.
  intros Hv. eapply reads_bind_last; [apply reads_bytes, blen_le_bytes|]. cbv beta. by rewrite le_val_le_bytes.
Qed.
Lemma reads_u16 v : u16_ok v -> reads Reader.u16 (le_bytes 2 v) v.
Proof. intros Hv. by apply (reads_le 2). Qed.
Lemma reads_u32 v : u32_ok v -> reads Reader.u32 (le_bytes 4 v) v.
Proof. intros Hv. by apply (reads_le 4). Qed.
Lemma reads_u64 v : u64_ok v -> reads Reader.u64 (le_bytes 8 v) v.
Proof. intros Hv. by apply (reads_le 8). Qed.
Lemma reads_array n l : bytes_of n l -> reads (array n) l l.
Proof. intros [_ Hl]. by apply reads_bytes. Qed.

Create HintDb reads.
#[export] Hint Resolve reads_u8 reads_u16 reads_u32 reads_u64 reads_array reads_ret : reads.

(** Read the next part of a right-associated list of parts; side conditions
    are left to [auto]. *)
Ltac read_step :=
  cbv beta;
  lazymatch goal with
  | |- reads (bind (reject_if _ _) _) _ _ => eapply reads_bind_nil; [apply reads_reject_if|]
  | |- reads (bind (of_result _) _) _ _ => eapply reads_bind_nil; [apply reads_of_result|]
  | |- reads (bind _ _) (_ ++ _) _ => eapply reads_bind; [solve [eauto with reads]|cbv beta]
  | |- reads (bind _ _) _ _ => eapply reads_bind_last; [solve [eauto with reads]|cbv beta]
  | |- reads _ _ _ => solve [eauto with reads]
  end.

(** *** Inversion of successful reads *)

Lemma accepts_mono {A} (m : Comp Reader WireError A) (P Q : A -> list Z -> Prop) :
  accepts m P -> (forall a bs, bytes_ok bs -> P a bs -> Q a bs) -> accepts m Q.
Proof.
  intros Hm HPQ r rest a r' Hr Hok H.
  destruct (Hm _ _ _ _ Hr Hok H) as (bs & rest' & -> & ? & ? & ? & ?). exists bs, rest'. auto 6.
Qed.

Lemma accepts_bind {A B} (m : Comp Reader WireError A) (k : A -> Comp Reader WireError B) P Q :
  accepts m P -> (forall a bs, P a bs -> accepts (k a) (Q a)) ->
  accepts (bind m k) (fun b bs => exists a b1 b2, P a b1 /\ Q a b b2 /\ bs = b1 ++ b2).
Proof.
  intros Hm Hk r rest b r' Hr Hok (a & r1 & H1 & H2)%bind_Ok_inv.
  destruct (Hm _ _ _ _ Hr Hok H1) as (b1 & rest1 & -> & ? & ? & ? & HP).
  destruct (Hk _ _ HP _ _ _ _ ltac:(done) ltac:(done) H2) as (b2 & rest2 & -> & ? & ? & ? & HQ).
  exists (b1 ++ b2), rest2. split_and!; [app_eq|by apply Forall_app_2|done|done|]. by exists a, b1, b2.
Qed.

Lemma accepts_ret {A} (a : A) : accepts (ret a) (fun a' bs => a' = a /\ bs = []).
Proof. intros r rest a' r' Hr Hok [-> ->]%ret_Ok_inv. exists [], rest. split_and!; try done; constructor. Qed.

Lemma accepts_reject_if b e : accepts (reject_if b e) (fun _ bs => b = false /\ bs = []).
Proof.
  intros r rest u r' Hr Hok [-> ->]%reject_if_Ok_inv. exists [], rest. split_and!; try done; constructor.
Qed.

Lemma accepts_of_result {A} (x : result A WireError) : accepts (of_result x) (fun a bs => x = Ok a /\ bs = []).
Proof.
  intros r rest a r' Hr Hok [= -> ->]. exists [], rest. split_and!; done.
Qed.

Lemma accepts_array n : 0 <= n -> accepts (array n) (fun a bs => bytes_of n a /\ bs = a).
Proof.
  intros Hn. eapply accepts_mono; [by apply accepts_bytes|]. by intros a bs Hok [-> Hl].
Qed.

Create HintDb accepts.
#[export] Hint Extern 1 (accepts (ret _) _) => apply accepts_ret : accepts.
#[export] Hint Extern 1 (accepts (reject_if _ _) _) => apply accepts_reject_if : accepts.
#[export] Hint Extern 1 (accepts (of_result _) _) => apply accepts_of_result : accepts.
#[export] Hint Extern 1 (accepts (bytes _) _) => (apply accepts_bytes; unfold u16_ok, u32_ok, byte_ok in *; lia) : accepts.
#[export] Hint Extern 1 (accepts (array _) _) => (apply accepts_array; lia) : accepts.

(** Collect what a reader accepts, part by part. *)
Ltac collect_accepts :=
  cbv beta zeta;
  lazymatch goal with
  | |- accepts (bind _ _) _ => eapply accepts_bind; [collect_accepts|];
      let H := fresh in intros ? ? H; cbv beta in H; destruct_and? H; collect_accepts
  | |- _ => solve [eauto with accepts]
  end.
(** Turn the collected parts into hypotheses and equations. *)
Ltac unpack_parts :=
  repeat match goal with
  | H : exists _, _ |- _ => destruct H
  | H : _ /\ _ |- _ => destruct H
  end; subst; rewrite ?app_nil_r, ?app_nil_l in *.
(** Reduce [accepts m Q] to the facts about the parts that [m] reads. *)
Ltac invert_reader :=
  eapply accepts_mono; [collect_accepts|]; cbv beta; intros; unpack_parts.

Lemma blen_one {A} (l : list A) : blen l = 1 -> exists x, l = [x].
Proof. destruct l as [|x []]; unfold blen; cbn [length]; intros; [lia|by exists x|lia]. Qed.

Lemma accepts_u8 : accepts Reader.u8 (fun a bs => byte_ok a /\ bs = [a]).
Proof.
  unfold Reader.u8. invert_reader.
  match goal with H : blen _ = 1 |- _ => apply blen_one in H as [b ->] end. cbn [hd]. 
  split; [|done]. by match goal with H : bytes_ok [_] |- _ => apply Forall_cons in H as [? _] end.
Qed.

Lemma accepts_le n : accepts (let* l := array (Z.of_nat n) in ret (le_val l))
  (fun a bs => 0 <= a < 256 ^ Z.of_nat n /\ bs = le_bytes n a).
Proof.
  invert_reader. match goal with H : bytes_of _ _ |- _ => destruct H as [? Hlen]; rewrite <- Hlen end.
  split; [by apply le_val_bound|]. symmetry. apply le_bytes_le_val; [done|]. unfold blen in Hlen. lia.
Qed.
Lemma accepts_u16 : accepts Reader.u16 (fun a bs => u16_ok a /\ bs = le_bytes 2 a).
Proof. apply (accepts_le 2). Qed.
Lemma accepts_u32 : accepts Reader.u32 (fun a bs => u32_ok a /\ bs = le_bytes 4 a).
Proof. apply (accepts_le 4). Qed.
Lemma accepts_u64 : accepts Reader.u64 (fun a bs => u64_ok a /\ bs = le_bytes 8 a).
Proof. apply (accepts_le 8). Qed.
#[export] Hint Extern 1 (accepts Reader.u8 _) => apply accepts_u8 : accepts.
#[export] Hint Extern 1 (accepts Reader.u16 _) => apply accepts_u16 : accepts.
#[export] Hint Extern 1 (accepts Reader.u32 _) => apply accepts_u32 : accepts.
#[export] Hint Extern 1 (accepts Reader.u64 _) => apply accepts_u64 : accepts.

(** ** Values *)

Lemma reads_script s : bytes_ok s -> blen s <= MAX_SCRIPT_SIZE -> reads Reader.script (script_bytes s) s.
Proof.
  intros Hok Hs. unfold Reader.script, script_bytes, script_length, MAX_SCRIPT_SIZE, EXTENDED_SCRIPT_LENGTH in *.
  pose proof (blen_nonneg s). destruct (Z.ltb_spec (blen s) 0xff).
  - read_step. decide_tests. eapply reads_bind_nil; [apply reads_ret|]. read_step; [by decide_tests|].
    by apply reads_bytes.
  - cbn [app]. change (255 :: le_bytes 2 (blen s) ++ s) with ([255] ++ le_bytes 2 (blen s) ++ s).
    read_step. change (255 =? 255) with true. cbn [bytes_of].
    eapply reads_bind.
    + eapply reads_bind_last; [apply reads_u16; unfold u16_ok; lia|]. cbv beta. by decide_tests.
    + read_step; [by decide_tests|by apply reads_bytes].
Qed.
#[export] Hint Resolve reads_script : reads.

Lemma accepts_script_length prefix :
  byte_ok prefix ->
  accepts (script_length prefix) (fun len bs =>
    0 <= len /\ [prefix] ++ bs = if len <? 0xff then [len] else 0xff :: le_bytes 2 len).
Proof.
  intros Hp. unfold script_length, EXTENDED_SCRIPT_LENGTH, byte_ok in *. destruct (Z.eqb_spec prefix 0xff) as [->|].
  - invert_reader. unfold u16_ok in *. split; [lia|by decide_tests].
  - invert_reader. split; [lia|]. by decide_tests.
Qed.
#[export] Hint Extern 1 (accepts (script_length _) _) => (apply accepts_script_length; assumption) : accepts.

Lemma accepts_script :
  accepts Reader.script (fun a bs => (bytes_ok a /\ blen a <= MAX_SCRIPT_SIZE) /\ bs = script_bytes a).
Proof.
  unfold Reader.script. invert_reader. unfold script_bytes, EXTENDED_SCRIPT_LENGTH.
  match goal with H : [_] ++ _ = _ |- _ => rewrite app_assoc, H in * end.
  match goal with H : bytes_ok (_ ++ _) |- _ => apply Forall_app in H as [_ ?] end.
  split; [split; [done|lia]|done].
Qed.
#[export] Hint Extern 1 (accepts Reader.script _) => apply accepts_script : accepts.

(** The outcome of a reader's check, from validity. *)
Ltac check_ok := first [done | lia | apply negb_false_iff; first [done | by apply Z.eqb_eq] | by apply Z.ltb_ge].

Definition valid_flags (flags : Z) : Prop := byte_ok flags /\ Z.land flags (Z.lxor u8_max ALLOWED_FLAGS) = 0.

Lemma reads_header flags : valid_flags flags -> reads read_header (header_bytes flags) flags.
Proof.
  intros [_ Hf]. unfold read_header, header_bytes.
  eapply reads_bind; [by apply reads_bytes|]. read_step; [check_ok|].
  read_step. read_step; [check_ok|]. eapply reads_bind_last; [apply reads_u8|]. by rewrite Hf.
Qed.

Lemma accepts_header : accepts read_header (fun flags bs => valid_flags flags /\ bs = header_bytes flags).
Proof.
  unfold read_header. invert_reader.
  repeat match goal with H : negb _ = false |- _ => apply negb_false_iff in H end.
  match goal with H : list_Z_eqb _ _ = true |- _ => apply list_Z_eqb_eq in H as -> end.
  repeat match goal with H : (_ =? _) = true |- _ => apply Z.eqb_eq in H end. subst. done.
Qed.

(** The fixed part of the global section. *)
Definition prefix_bytes (p : GlobalPrefix) : list Z :=
  le_bytes 2 (p_version p) ++ le_bytes 4 (p_input_count p) ++ [p_output_count p] ++
  le_bytes 8 (p_locktime p) ++ p_subnetwork_id p ++ le_bytes 8 (p_gas p) ++ le_bytes 4 (p_payload_len p).
Definition valid_prefix (limits : Limits) (p : GlobalPrefix) : Prop :=
  u16_ok (p_version p) /\ u32_ok (p_input_count p) /\ byte_ok (p_output_count p) /\ u64_ok (p_locktime p) /\
  bytes_of 20 (p_subnetwork_id p) /\ u64_ok (p_gas p) /\ u32_ok (p_payload_len p) /\
  supported_tx_version (p_version p) = true /\ p_input_count p <= max_inputs limits /\
  p_output_count p <= max_outputs limits /\ p_payload_len p <= max_payload limits.
Definition prefix_of (g : Global) : GlobalPrefix := {|
  p_version := g_version g; p_input_count := g_input_count g; p_output_count := g_output_count g;
  p_locktime := g_locktime g; p_subnetwork_id := g_subnetwork_id g; p_gas := g_gas g;
  p_payload_len := blen (g_payload g) |}.

Lemma validate_counts limits n :
  (validate_inputs limits n = Ok tt <-> n <= max_inputs limits) /\
  (validate_outputs limits n = Ok tt <-> n <= max_outputs limits) /\
  (validate_payload limits n = Ok tt <-> n <= max_payload limits).
Proof.
  unfold validate_inputs, validate_outputs, validate_payload.
  repeat match goal with |- context [Z.ltb ?a ?b] => destruct (Z.ltb_spec a b) end; split_and!; split; try done; lia.
Qed.

Lemma reads_global_prefix limits p :
  valid_prefix limits p -> reads (read_global_prefix limits) (prefix_bytes p) p.
Proof.
  intros (? & ? & ? & ? & ? & ? & ? & Hs & Hi & Ho & Hp).
  apply validate_counts in Hi. apply validate_counts in Ho. apply validate_counts in Hp.
  unfold read_global_prefix, prefix_bytes.
  rewrite 2!app_assoc, <- (app_assoc (le_bytes 2 _)).
  eapply reads_bind.
  { unfold read_global_counts. read_step. read_step; [by rewrite Hs|]. read_step. read_step; [done|].
    eapply reads_bind_last; [apply reads_u8|]. cbv beta. by rewrite Ho. }
  eapply reads_bind_last.
  { unfold read_global_tail. read_step. read_step. read_step.
    eapply reads_bind_last; [by apply reads_u32|]. cbv beta. by rewrite Hp. }
  by destruct p.
Qed.

Lemma of_validate {A} (r : result unit A) u : r = Ok u -> r = Ok tt.
Proof. by destruct u. Qed.

Lemma accepts_global_counts limits :
  accepts (read_global_counts limits) (fun c bs =>
    u16_ok c.1.1 /\ u32_ok c.1.2 /\ byte_ok c.2 /\ supported_tx_version c.1.1 = true /\
    c.1.2 <= max_inputs limits /\ c.2 <= max_outputs limits /\
    bs = le_bytes 2 c.1.1 ++ le_bytes 4 c.1.2 ++ [c.2]).
Proof.
  unfold read_global_counts. invert_reader.
  repeat match goal with H : validate_inputs _ _ = _ |- _ => apply of_validate, validate_counts in H end.
  repeat match goal with H : validate_outputs _ _ = _ |- _ => apply of_validate, validate_counts in H end.
  repeat match goal with H : negb _ = false |- _ => apply negb_false_iff in H end.
  cbn [fst snd]. done.
Qed.

Lemma accepts_global_tail limits :
  accepts (read_global_tail limits) (fun c bs =>
    u64_ok c.1.1.1 /\ bytes_of 20 c.1.1.2 /\ u64_ok c.1.2 /\ u32_ok c.2 /\ c.2 <= max_payload limits /\
    bs = le_bytes 8 c.1.1.1 ++ c.1.1.2 ++ le_bytes 8 c.1.2 ++ le_bytes 4 c.2).
Proof.
  unfold read_global_tail. invert_reader.
  match goal with H : validate_payload _ _ = _ |- _ => apply of_validate, validate_counts in H end.
  cbn [fst snd]. rewrite !bytes_ok_app in *. destruct_and!. done.
Qed.

Lemma accepts_global_prefix limits :
  accepts (read_global_prefix limits) (fun p bs => valid_prefix limits p /\ bs = prefix_bytes p).
Proof.
  intros r rest p r' Hr Hok H. unfold read_global_prefix in H.
  apply bind_Ok_inv in H as ([[version ic] oc] & r1 & H1 & H). cbv beta iota in H.
  apply bind_Ok_inv in H as ([[[lt sn] gas] pl] & r2 & H2 & [-> ->]%ret_Ok_inv).
  destruct (accepts_global_counts limits _ _ _ _ Hr Hok H1) as (b1 & rest1 & -> & ? & ? & Hr1 & HP1).
  destruct (accepts_global_tail limits _ _ _ _ Hr1 ltac:(done) H2) as (b2 & rest2 & -> & ? & ? & Hr2 & HP2).
  cbn [fst snd] in *. exists (b1 ++ b2), rest2.
  split_and!; [app_eq|by apply Forall_app_2|done|done|unfold valid_prefix; naive_solver|].
  unfold prefix_bytes. cbn. destruct_and!. subst. app_eq.
Qed.

Lemma reads_global flags g :
  valid_flags flags -> flags = g_flags g -> reads (read_global flags (prefix_of g)) (g_payload g) g.
Proof.
  intros _ ->. unfold read_global. eapply reads_bind_last; [by apply reads_bytes|]. by destruct g.
Qed.

Lemma accepts_global flags prefix :
  u32_ok (p_payload_len prefix) ->
  accepts (read_global flags prefix) (fun g bs => g_flags g = flags /\ prefix_of g = prefix /\ bytes_ok (g_payload g) /\ bs = g_payload g).
Proof.
  intros Hp. unfold u32_ok in Hp. unfold read_global. eapply accepts_mono.
  - eapply accepts_bind; [apply accepts_bytes; lia|]. intros ? ? ?. collect_accepts.
  - cbv beta. intros. unpack_parts. cbn. split_and!; try done. destruct prefix. cbn in *. by subst.
Qed.

Lemma reads_input_value i : valid_input i -> reads read_input_value (input_bytes i) i.
Proof.
  intros ((? & ? & ? & ? & ? & ? & ?) & Hc & Hs). unfold read_input_value, input_bytes.
  do 5 read_step. read_step; [check_ok|]. read_step. read_step. by destruct i.
Qed.


Lemma accepts_input_value : accepts read_input_value (fun i bs => valid_input i /\ bs = input_bytes i).
Proof.
  unfold read_input_value. invert_reader. rewrite !bytes_ok_app in *. destruct_and!.
  unfold valid_input, typed_input. cbn. split_and!; try done; try lia; by apply Z.ltb_ge.
Qed.

Lemma reads_signature_count n : 0 <= n <= MAX_SIGNATURE_RECORDS -> reads read_signature_count [n] n.
Proof.
  intros Hn. unfold read_signature_count. eapply reads_bind_last; [apply reads_u8|]. cbv beta. by decide_tests.
Qed.
Lemma accepts_signature_count :
  accepts read_signature_count (fun n bs => 0 <= n <= MAX_SIGNATURE_RECORDS /\ bs = [n]).
Proof. unfold read_signature_count. invert_reader. unfold byte_ok in *. split; [lia|done]. Qed.

Definition valid_signature (s : Signature) : Prop := typed_signature s /\ valid_sighash (sighash s) = true.

Lemma reads_signature s seen :
  valid_signature s -> sig_position s ∉ seen ->
  reads (read_signature seen) (signature_bytes s) (s, {[sig_position s]} ∪ seen).
Proof.
  intros [(? & ? & ?) Hs] Hseen. unfold read_signature, signature_bytes. read_step.
  read_step; [by apply bool_decide_eq_false|]. read_step. read_step; [check_ok|]. read_step. by destruct s.
Qed.

Lemma accepts_signature seen :
  accepts (read_signature seen) (fun x bs =>
    (valid_signature x.1 /\ sig_position x.1 ∉ seen /\ x.2 = {[sig_position x.1]} ∪ seen) /\ bs = signature_bytes x.1).
Proof.
  unfold read_signature. invert_reader. rewrite !bytes_ok_app in *. destruct_and!.
  match goal with H : negb _ = false |- _ => apply negb_false_iff in H end.
  match goal with H : bool_decide _ = false |- _ => apply bool_decide_eq_false in H end.
  unfold valid_signature, typed_signature. cbn. done.
Qed.

Lemma reads_redeem r : valid_redeem r -> reads read_redeem_bytes (redeem_bytes r) r.
Proof.
  intros [Hok Hr]. pose proof (blen_nonneg r). unfold read_redeem_bytes, redeem_bytes, MAX_REDEEM_SIZE in *.
  eapply reads_bind; [apply reads_u16; unfold u16_ok; lia|]. cbv beta. read_step; [check_ok|]. by apply reads_bytes.
Qed.
Lemma accepts_redeem : accepts read_redeem_bytes (fun r bs => valid_redeem r /\ bs = redeem_bytes r).
Proof.
  unfold read_redeem_bytes. invert_reader. rewrite !bytes_ok_app in *. destruct_and!.
  unfold valid_redeem. split; [split; [done|lia]|done].
Qed.

Lemma reads_output o : valid_output o -> reads read_output (output_bytes o) o.
Proof.
  intros ((? & ? & ?) & ?). unfold read_output, output_bytes. read_step. read_step. read_step. by destruct o.
Qed.
Lemma accepts_output : accepts read_output (fun o bs => valid_output o /\ bs = output_bytes o).
Proof. unfold read_output. invert_reader. done. Qed.

(** ** Bodies of trailer records *)

Lemma reads_derivation d : typed_derivation d -> valid_derivation d = true -> reads read_derivation_body (derivation_bytes d) d.
Proof.
  intros [? ?] Hd. unfold read_derivation_body, derivation_bytes. read_step.
  eapply reads_bind_last; [by apply reads_u32|]. destruct d. cbn in *. by rewrite Hd.
Qed.
Lemma accepts_derivation :
  accepts read_derivation_body (fun d bs => (typed_derivation d /\ valid_derivation d = true) /\ bs = derivation_bytes d).
Proof.
  unfold read_derivation_body. invert_reader.
  match goal with H : negb _ = false |- _ => apply negb_false_iff in H end. done.
Qed.

Lemma reads_ms45 m : typed_ms45 m -> valid_ms45 m = true -> reads read_ms45_body (ms45_bytes m) m.
Proof.
  intros (? & ? & ?) Hm. unfold read_ms45_body, ms45_bytes. read_step. read_step.
  eapply reads_bind_last; [by apply reads_u32|]. destruct m. cbn in *. by rewrite Hm.
Qed.
Lemma accepts_ms45 :
  accepts read_ms45_body (fun m bs => (typed_ms45 m /\ valid_ms45 m = true) /\ bs = ms45_bytes m).
Proof.
  unfold read_ms45_body. invert_reader.
  match goal with H : negb _ = false |- _ => apply negb_false_iff in H end. done.
Qed.

(** ** Decoders that feed a sink *)

Section sink.
Context {T E : Type} `{DecodeSink T E}.
Abbreviation Decoder A := (Comp (Reader * T) (DecodeError E) A).

(** The run of a decoder over [bs] that delivers [events] on the way. *)
Definition decodes {A} (m : Decoder A) (bs : list Z) (events : list Event) (a : A) : Prop :=
  forall r t rest, reader_at r (bs ++ rest) ->
  exists r', m (r, t) = match for_each events deliver t with
                        | (Ok _, t') => (Ok a, (r', t'))
                        | (Err e, t') => (Err (Sink e), (r', t'))
                        end /\ (is_ok (fst (for_each events deliver t)) = true -> reader_at r' rest).

(** The run of a decoder over [bs] that fails with [e] and delivers nothing. *)
Definition refuses {A} (m : Decoder A) (bs : list Z) (e : DecodeError E) : Prop :=
  forall r t rest, reader_at r (bs ++ rest) -> exists r', m (r, t) = (Err e, (r', t)).

Definition admits {A} (m : Decoder A) (P : A -> list Z -> Prop) : Prop :=
  forall r t rest a r' t', reader_at r rest -> bytes_ok rest -> m (r, t) = (Ok a, (r', t')) ->
    exists bs rest', rest = bs ++ rest' /\ bytes_ok bs /\ bytes_ok rest' /\ reader_at r' rest' /\ P a bs.

Lemma decodes_wire {A} (m : Comp Reader WireError A) bs a : reads m bs a -> decodes (wire m) bs [] a.
Proof.
  intros Hm r t rest Hr. destruct (Hm _ _ Hr) as (r' & H1 & Hr'). exists r'. cbn.
  unfold wire. by rewrite H1.
Qed.

Lemma decodes_sink e : decodes (sink (deliver e)) [] [e] tt.
Proof.
  intros r t rest Hr. exists r. cbn [for_each]. unfold sink, bind.
  destruct (deliver e t) as [[[]|err] t']; cbn; done.
Qed.

Lemma decodes_ret {A} (a : A) : decodes (ret a) [] [] a.
Proof. intros r t rest Hr. by exists r. Qed.

Lemma decodes_bind {A B} (m : Decoder A) (k : A -> Decoder B) b1 b2 e1 e2 a b :
  decodes m b1 e1 a -> decodes (k a) b2 e2 b -> decodes (bind m k) (b1 ++ b2) (e1 ++ e2) b.
Proof.
  intros Hm Hk r t rest Hr. rewrite <- app_assoc in Hr. destruct (Hm r t _ Hr) as (r1 & H1 & Hr1).
  rewrite for_each_app. unfold bind at 2 3. destruct (for_each e1 deliver t) as [[u|e] t1]; cbn in Hr1.
  - destruct (Hk r1 t1 rest (Hr1 eq_refl)) as (r2 & H2 & Hr2). exists r2.
    by rewrite (bind_step _ _ _ _ _ H1).
  - exists r1. by rewrite (bind_fail _ _ _ _ _ H1).
Qed.

Lemma decodes_wire_bind {A B} (m : Comp Reader WireError A) (k : A -> Decoder B) b1 b2 es a b :
  reads m b1 a -> decodes (k a) b2 es b -> decodes (bind (wire m) k) (b1 ++ b2) es b.
Proof. intros Hm. apply (decodes_bind _ _ _ _ []). by apply decodes_wire. Qed.

Lemma decodes_wire_last {A B} (m : Comp Reader WireError A) (k : A -> Decoder B) bs es a b :
  reads m bs a -> decodes (k a) [] es b -> decodes (bind (wire m) k) bs es b.
Proof. intros Hm Hk. rewrite <- (app_nil_r bs). by eapply decodes_wire_bind. Qed.

Lemma decodes_wire_check {A B} (m : Comp Reader WireError A) (k : A -> Decoder B) bs es a b :
  reads m [] a -> decodes (k a) bs es b -> decodes (bind (wire m) k) bs es b.
Proof. intros Hm Hk. by apply (decodes_wire_bind _ _ [] bs _ a). Qed.

Lemma decodes_sink_bind {B} (k : unit -> Decoder B) e bs es b :
  decodes (k tt) bs es b -> decodes (bind (sink (deliver e)) k) bs (e :: es) b.
Proof. intros Hk. apply (decodes_bind _ _ [] _ [e] _ tt); [apply decodes_sink|done]. Qed.

Lemma refuses_wire_bind {A B} (m : Comp Reader WireError A) (k : A -> Decoder B) b1 b2 a e :
  reads m b1 a -> refuses (k a) b2 e -> refuses (bind (wire m) k) (b1 ++ b2) e.
Proof.
  intros Hm Hk r t rest Hr. rewrite <- app_assoc in Hr. destruct (Hm _ _ Hr) as (r1 & H1 & Hr1).
  assert (Hw : wire (E:=E) m (r, t) = (Ok a, (r1, t))) by (unfold wire; by rewrite H1).
  rewrite (bind_step _ _ _ _ _ Hw). by apply (Hk _ _ rest).
Qed.

Lemma refuses_wire_check {A B} (m : Comp Reader WireError A) (k : A -> Decoder B) bs a e :
  reads m [] a -> refuses (k a) bs e -> refuses (bind (wire m) k) bs e.
Proof. intros Hm Hk. by apply (refuses_wire_bind _ _ [] bs a). Qed.

Lemma refuses_reject {B} (k : unit -> Decoder B) b bs e :
  b = true -> refuses (bind (wire (reject_if b e)) k) bs (Wire e).
Proof. intros -> r t rest _. by exists r. Qed.

Lemma admits_wire {A} (m : Comp Reader WireError A) P : accepts m P -> admits (wire m) P.
Proof.
  intros Hm r t rest a r' t' Hr Hok Hw. unfold wire in Hw.
  destruct (m r) as [[a1|e] r1] eqn:H1; [|done]. injection Hw as -> -> ->. by eapply Hm.
Qed.

Lemma admits_sink {A} (m : Comp T E A) : admits (sink m) (fun _ bs => bs = []).
Proof.
  intros r t rest a r' t' Hr Hok Hs. unfold sink in Hs.
  destruct (m t) as [[a1|e] t1]; [|done]. injection Hs as -> -> ->.
  exists [], rest. split_and!; try done; constructor.
Qed.

Lemma admits_ret {A} (a : A) : admits (ret a) (fun a' bs => a' = a /\ bs = []).
Proof.
  intros r t rest a' r' t' Hr Hok Hs. injection Hs as <- <- <-. exists [], rest. split_and!; try done; constructor.
Qed.

Lemma admits_mono {A} (m : Decoder A) (P Q : A -> list Z -> Prop) :
  admits m P -> (forall a bs, bytes_ok bs -> P a bs -> Q a bs) -> admits m Q.
Proof.
  intros Hm HPQ r t rest a r' t' Hr Hok Hs.
  destruct (Hm _ _ _ _ _ _ Hr Hok Hs) as (bs & rest' & -> & ? & ? & ? & ?). exists bs, rest'. auto 6.
Qed.

Lemma admits_bind {A B} (m : Decoder A) (k : A -> Decoder B) P Q :
  admits m P -> (forall a bs, P a bs -> admits (k a) (Q a)) ->
  admits (bind m k) (fun b bs => exists a b1 b2, P a b1 /\ Q a b b2 /\ bs = b1 ++ b2).
Proof.
  intros Hm Hk r t rest b r' t' Hr Hok (a & [r1 t1] & H1 & H2)%bind_Ok_inv.
  destruct (Hm _ _ _ _ _ _ Hr Hok H1) as (b1 & rest1 & -> & ? & ? & ? & HP).
  destruct (Hk _ _ HP _ _ _ _ _ _ ltac:(done) ltac:(done) H2) as (b2 & rest2 & -> & ? & ? & ? & HQ).
  exists (b1 ++ b2), rest2. split_and!; [app_eq|by apply Forall_app_2|done|done|]. by exists a, b1, b2.
Qed.

Lemma admits_wire_bind {A B} (m : Comp Reader WireError A) (k : A -> Decoder B) P Q :
  accepts m P -> (forall a bs, P a bs -> admits (k a) (Q a)) ->
  admits (bind (wire m) k) (fun b bs => exists a b1 b2, P a b1 /\ Q a b b2 /\ bs = b1 ++ b2).
Proof. intros Hm Hk. apply admits_bind; [by apply admits_wire|done]. Qed.

Lemma admits_sink_bind {A B} (m : Comp T E A) (k : A -> Decoder B) Q :
  (forall a, admits (k a) Q) -> admits (bind (sink m) k) Q.
Proof.
  intros Hk. eapply admits_mono.
  - apply admits_bind; [apply admits_sink|]. intros a bs _. apply Hk.
  - cbv beta. intros b bs _ (a & b1 & b2 & -> & HQ & ->). done.
Qed.

(** *** Inputs and outputs *)

Lemma decodes_signature_slots index slot seen l :
  Forall valid_signature l -> NoDup (map sig_position l) -> Forall (fun s => sig_position s ∉ seen) l ->
  decodes (read_signature_slots index (seqZ slot (blen l)) seen) (concat (map signature_bytes l))
    (signature_events index slot l) tt.
Proof.
  intros Hv. revert slot seen. induction Hv as [|s l Hs Hl IH]; intros slot seen Hnd Hseen; [apply decodes_ret|].
  cbn [map] in Hnd. apply NoDup_cons in Hnd as [Hni Hnd]. apply Forall_cons in Hseen as [Hs' Hseen].
  rewrite blen_cons, seqZ_cons by (pose proof (blen_nonneg l); lia).
  cbn [read_signature_slots map concat signature_events].
  eapply decodes_wire_bind; [by apply reads_signature|]. cbv beta iota.
  apply (decodes_sink_bind _ (ESignature index slot s)).
  replace (Z.pred (1 + blen l)) with (blen l) by lia. replace (Z.succ slot) with (slot + 1) by lia.
  apply IH; [done|]. rewrite Forall_forall in *. intros s' Hs''.
  apply not_elem_of_union. split; [|by apply Hseen]. apply not_elem_of_singleton. intros Heq.
  apply Hni. rewrite <- Heq. by apply list_elem_of_fmap_2.
Qed.

Definition slots_read {A} (slots : list A) (seen : gset Z) (bs : list Z) : Prop := exists l,
  length l = length slots /\ Forall valid_signature l /\ NoDup (map sig_position l) /\
  Forall (fun s => sig_position s ∉ seen) l /\ bs = concat (map signature_bytes l).

Lemma admits_signature_slots index slots seen :
  admits (read_signature_slots index slots seen) (fun _ bs => slots_read slots seen bs).
Proof.
  revert seen. induction slots as [|slot slots IH]; intros seen; cbn [read_signature_slots].
  - eapply admits_mono; [apply admits_ret|]. intros ? ? _ [_ ->]. exists []. split_and!; try done; constructor.
  - eapply admits_mono.
    + eapply (admits_wire_bind _ _ _ (fun x _ bs => slots_read slots x.2 bs)); [apply accepts_signature|].
      intros [s seen'] bs _. cbn [snd]. apply admits_sink_bind. intros _. apply IH.
    + cbv beta. intros u bs _ ([s seen'] & b1 & b2 & [(Hs & Hni & Heq) ->] & (l & Hlen & Hv & Hnd & Hseen & ->) & ->).
      cbn [fst snd] in *. subst seen'. exists (s :: l). cbn [length map concat].
      split_and!; [by rewrite Hlen|by constructor| | |done].
      * apply NoDup_cons. split; [|done]. intros (s' & Heq & Hs')%list_elem_of_fmap.
        rewrite Forall_forall in Hseen. apply (Hseen _ Hs'). rewrite <- Heq. set_solver.
      * constructor; [done|]. apply (Forall_impl _ _ _ Hseen). intros s'. set_solver.
Qed.

Lemma decodes_input index d :
  valid_doc_input d -> decodes (read_input index) (doc_input_bytes d) (doc_input_events index d) tt.
Proof.
  intros (Hi & (Hs & Hnd & Hlen) & Hr). pose proof (blen_nonneg (di_signatures d)).
  unfold read_input, doc_input_bytes, doc_input_events.
  eapply decodes_wire_bind; [by apply reads_input_value|]. cbv beta.
  eapply decodes_wire_bind; [by apply reads_signature_count|]. cbv beta.
  apply (decodes_sink_bind _ (EInput index (di_input d) (blen (di_signatures d)))).
  eapply decodes_bind.
  - apply decodes_signature_slots; [done|done|]. apply Forall_forall. intros s _. apply not_elem_of_empty.
  - unfold read_redeem. rewrite <- (app_nil_r (redeem_bytes _)).
    eapply decodes_wire_bind; [by apply reads_redeem|]. apply (decodes_sink (ERedeem index (di_redeem d))).
Qed.

Lemma admits_input index :
  admits (read_input index) (fun _ bs => exists d, valid_doc_input d /\ bs = doc_input_bytes d).
Proof.
  unfold read_input, read_redeem. eapply admits_mono.
  - eapply admits_wire_bind; [apply accepts_input_value|]. intros i ? _. cbv beta.
    eapply admits_wire_bind; [apply accepts_signature_count|]. intros n ? _. cbv beta.
    apply admits_sink_bind. intros _. eapply admits_bind; [apply admits_signature_slots|]. intros ? ? _. cbv beta.
    eapply admits_wire_bind; [apply accepts_redeem|]. intros r ? _. apply admits_sink.
  - cbv beta. intros u bs _ (i & b1 & ? & [Hi ->] & (n & b2 & ? & [Hn ->] & (? & b3 & ? & Hl & Hrest & ->) & ->) & ->).
    destruct Hl as (l & Hlen & Hv & Hnd & _ & ->). destruct Hrest as (r & b4 & ? & [Hr ->] & -> & ->).
    exists {| di_input := i; di_signatures := l; di_redeem := r |}.
    assert (Hbl : blen l = n) by (rewrite length_seqZ in Hlen; unfold blen; lia).
    unfold valid_doc_input, valid_signatures, doc_input_bytes. cbn [di_input di_signatures di_redeem].
    rewrite Hbl, app_nil_r. unfold valid_signature in Hv. split_and!; try done; lia.
Qed.

Lemma decodes_inputs index l :
  Forall valid_doc_input l ->
  decodes (for_each (seqZ index (blen l)) read_input) (concat (map doc_input_bytes l)) (input_events index l) tt.
Proof.
  intros Hl. revert index. induction Hl as [|d l Hd _ IH]; intros index; [apply decodes_ret|].
  rewrite blen_cons, seqZ_cons by (pose proof (blen_nonneg l); lia). cbn [for_each map concat input_events].
  replace (Z.pred (1 + blen l)) with (blen l) by lia. replace (Z.succ index) with (index + 1) by lia.
  eapply decodes_bind; [by apply decodes_input|]. apply IH.
Qed.

(** A loop admits the concatenation of what its body admits. *)
Lemma admits_for_each {A B} (items : list A) (body : A -> Decoder unit) (P : B -> Prop) (f : B -> list Z) :
  (forall x, admits (body x) (fun _ bs => exists d, P d /\ bs = f d)) ->
  admits (for_each items body) (fun _ bs => exists l, length l = length items /\ Forall P l /\ bs = concat (map f l)).
Proof.
  intros Hb. induction items as [|x items IH]; cbn [for_each].
  - eapply admits_mono; [apply admits_ret|]. intros ? ? _ [_ ->]. exists []. split_and!; try done; constructor.
  - eapply admits_mono; [eapply admits_bind; [apply Hb|intros; apply IH]|].
    cbv beta. intros u bs _ (? & b1 & b2 & (d & Hd & ->) & (l & Hlen & Hl & ->) & ->).
    exists (d :: l). cbn. split_and!; [by rewrite Hlen|by constructor|done].
Qed.

Lemma decodes_outputs index l :
  Forall valid_output l ->
  decodes (for_each (seqZ index (blen l)) (fun index => let* output := wire read_output in sink (on_output index output)))
    (concat (map output_bytes l)) (output_events index l) tt.
Proof.
  intros Hl. revert index. induction Hl as [|o l Ho _ IH]; intros index; [apply decodes_ret|].
  rewrite blen_cons, seqZ_cons by (pose proof (blen_nonneg l); lia). cbn [for_each map concat output_events].
  replace (Z.pred (1 + blen l)) with (blen l) by lia. replace (Z.succ index) with (index + 1) by lia.
  eapply (decodes_bind _ _ _ _ [EOutput index o]); [|apply IH].
  rewrite <- (app_nil_r (output_bytes o)). eapply decodes_wire_bind; [by apply reads_output|].
  apply (decodes_sink (EOutput index o)).
Qed.

Lemma admits_output index :
  admits (let* output := wire read_output in sink (on_output index output))
    (fun _ bs => exists o, valid_output o /\ bs = output_bytes o).
Proof.
  eapply admits_mono; [eapply admits_wire_bind; [apply accepts_output|intros; apply admits_sink]|].
  cbv beta. intros u bs _ (o & b1 & b2 & [Ho ->] & -> & ->). exists o. by rewrite app_nil_r.
Qed.

End sink.

(** ** The trailer section *)

(** The trailer state seen through ranks: the last position of a kind and the
    positions of that kind read so far. *)
Definition last_of (st : TrailerState) (rank : Z) : option Z :=
  match rank with
  | 0 => if ts_network st then Some 0 else None
  | 1 => last_input_ms45 st
  | 2 => last_output_ms45 st
  | 3 => if ts_stealth st then Some 0 else None
  | 4 => last_covenant st
  | 5 => last_covenant_execution st
  | 6 => last_input_derivation st
  | 7 => last_output_derivation st
  | _ => None
  end.
Definition marked (st : TrailerState) (rank : Z) : gset Z :=
  match rank with
  | 1 => seen_input_ms45 st
  | 2 => seen_output_ms45 st
  | 4 => seen_covenant st
  | 5 => seen_covenant_execution st
  | 6 => seen_input_derivation st
  | 7 => seen_output_derivation st
  | _ => ∅
  end.

Definition is_network (t : Trailer) : bool := match t with TNetwork _ => true | _ => false end.

(** The state after a record was accepted. *)
Definition note (st : TrailerState) (t : Trailer) : TrailerState :=
  let r := trailer_rank t in
  let p := trailer_position t in
  let set_last rank old := if r =? rank then Some p else old in
  let set_seen rank (old : gset Z) := if r =? rank then {[p]} ∪ old else old in
  {| ts_network := (r =? 0) || ts_network st; ts_stealth := (r =? 3) || ts_stealth st; last_rank := r;
     last_input_derivation := set_last 6 (last_input_derivation st);
     last_output_derivation := set_last 7 (last_output_derivation st);
     last_input_ms45 := set_last 1 (last_input_ms45 st);
     last_output_ms45 := set_last 2 (last_output_ms45 st);
     last_covenant := set_last 4 (last_covenant st);
     last_covenant_execution := set_last 5 (last_covenant_execution st);
     seen_input_derivation := set_seen 6 (seen_input_derivation st);
     seen_output_derivation := set_seen 7 (seen_output_derivation st);
     seen_input_ms45 := set_seen 1 (seen_input_ms45 st);
     seen_output_ms45 := set_seen 2 (seen_output_ms45 st);
     seen_covenant := set_seen 4 (seen_covenant st);
     seen_covenant_execution := set_seen 5 (seen_covenant_execution st) |}.

Section trailers.
Context {T E : Type} `{DecodeSink T E} (inputs outputs : Z).

(** What the decoder demands of the next record. *)
Definition acceptable (st : TrailerState) (t : Trailer) : Prop :=
  (ts_network st || is_network t = true) /\ last_rank st <= trailer_rank t /\
  (forall p, last_of st (trailer_rank t) = Some p -> p < trailer_position t) /\
  trailer_position t ∉ marked st (trailer_rank t) /\
  encodable_trailer inputs outputs t /\ authorized inputs t.

(** The same but for the authorization. *)
Definition well_placed (st : TrailerState) (t : Trailer) : Prop :=
  (ts_network st || is_network t = true) /\ last_rank st <= trailer_rank t /\
  (forall p, last_of st (trailer_rank t) = Some p -> p < trailer_position t) /\
  trailer_position t ∉ marked st (trailer_rank t) /\ encodable_trailer inputs outputs t.

Lemma acceptable_placed st t : acceptable st t <-> well_placed st t /\ authorized inputs t.
Proof. unfold acceptable, well_placed. tauto. Qed.

Lemma require_increasing_spec p last last' :
  require_increasing p last = Ok last' <-> last' = Some p /\ (forall q, last = Some q -> q < p).
Proof.
  unfold require_increasing. destruct last as [q|]; [destruct (Z.leb_spec p q)|]; split; naive_solver lia.
Qed.

Lemma reads_position last seen count p :
  (forall q, last = Some q -> q < p) -> p ∉ seen -> p < count ->
  reads (read_position last seen count) [p] (p, Some p).
Proof.
  intros Hl Hs Hc. unfold read_position. eapply reads_bind_last; [apply reads_u8|]. cbv beta.
  rewrite (proj2 (require_increasing_spec p last (Some p))) by done. cbn.
  decide_tests. by rewrite bool_decide_eq_false_2.
Qed.

Lemma accepts_position last seen count :
  accepts (read_position last seen count) (fun x bs =>
    byte_ok x.1 /\ x.2 = Some x.1 /\ (forall q, last = Some q -> q < x.1) /\ x.1 ∉ seen /\ x.1 < count /\ bs = [x.1]).
Proof.
  unfold read_position. invert_reader.
  match goal with H : require_increasing _ _ = _ |- _ => apply require_increasing_spec in H as [-> ?] end.
  match goal with H : _ || _ = false |- _ => apply orb_false_iff in H as [? Hs%bool_decide_eq_false] end.
  cbn. split_and!; try done; lia.
Qed.

Lemma reads_marker_order {A} st t (m : TrailerState -> Comp (Reader * T) (DecodeError E) A) bs es a :
  ts_network st || is_network t = true -> last_rank st <= trailer_rank t ->
  decodes (m (set_rank st (trailer_rank t))) bs es a ->
  decodes (bind (wire (of_result (require_canonical_marker_order (trailer_marker t) st))) m) bs es a.
Proof.
  intros Hn Hr Hm. apply (decodes_wire_check _ _ _ _ (set_rank st (trailer_rank t))); [|done].
  apply reads_of_result. unfold require_canonical_marker_order.
  assert (Hrank : marker_rank (trailer_marker t) = Some (trailer_rank t)) by (by destruct t).
  rewrite Hrank. cbn [ok_or rbind]. decide_tests.
  replace (trailer_marker t =? NETWORK_MARKER) with (is_network t) by (by destruct t).
  by destruct (ts_network st), (is_network t).
Qed.

Lemma decodes_finish {A} e (a : A) : decodes (T:=T) (E:=E) (bind (sink (deliver e)) (fun _ => ret a)) [] [e] a.
Proof. apply (decodes_sink_bind _ e [] []). apply decodes_ret. Qed.

(** Read the last part, deliver the record and finish. *)
Ltac finish_trailer t :=
  eapply decodes_wire_last; [solve [eauto with reads]|cbv beta iota; apply (decodes_finish (ETrailer t))].
#[local] Hint Resolve reads_derivation reads_ms45 : reads.

(** One record: its body is read back and delivered, and the state notes it. *)
Lemma decodes_body st t :
  acceptable st t ->
  decodes (T:=T) (E:=E)
    (match t with
     | TNetwork _ => read_network (set_rank st 0)
     | TMs45Input _ _ => read_ms45_input inputs (set_rank st 1)
     | TMs45Output _ _ => read_ms45_output outputs (set_rank st 2)
     | TStealth _ => read_stealth (set_rank st 3)
     | TCovenant _ _ => read_covenant inputs outputs (set_rank st 4)
     | TCovenantExecution _ _ => read_covenant_execution inputs (set_rank st 5)
     | TInputDerivation _ _ => read_input_derivation inputs (set_rank st 6)
     | TOutputDerivation _ _ => read_output_derivation outputs (set_rank st 7)
     end) (trailer_body t) [ETrailer t] (note st t).
Proof.
  intros (Hn & Hr & Hlast & Hseen & Henc & Hauth).
  destruct t; cbn [trailer_body trailer_rank trailer_position last_of marked encodable_trailer authorized is_network] in *.
  - destruct Henc as [? Hv]. unfold read_network.
    eapply decodes_wire_last; [apply reads_u8|]. cbv beta.
    apply (decodes_wire_check _ _ _ _ tt); [|apply (decodes_finish (ETrailer (TNetwork code)))].
    apply reads_reject_if. rewrite Hv. cbn. destruct (ts_network st); [|done]. specialize (Hlast 0 eq_refl). lia.
  - destruct Henc as (? & ? & ? & ?). unfold read_ms45_input.
    eapply decodes_wire_bind; [by apply reads_position|]. cbv beta iota. finish_trailer (TMs45Input position value).
  - destruct Henc as (? & ? & ? & ?). unfold read_ms45_output.
    eapply decodes_wire_bind; [by apply reads_position|]. cbv beta iota. finish_trailer (TMs45Output position value).
  - unfold read_stealth. apply (decodes_wire_check _ _ _ _ tt); [|finish_trailer (TStealth tweak)].
    apply reads_reject_if. cbn. destruct (ts_stealth st); [|done]. specialize (Hlast 0 eq_refl). lia.
  - destruct Henc as (? & ? & ? & ?). unfold read_covenant, covenant_bytes.
    eapply decodes_wire_bind; [apply reads_u8|]. cbv beta.
    apply (decodes_wire_check _ _ _ _ (Some position)); [by apply reads_of_result, require_increasing_spec|].
    eapply decodes_wire_bind; [by apply reads_u16|]. cbv beta.
    apply (decodes_wire_check _ _ _ _ tt); [|].
    + apply reads_reject_if. decide_tests. by apply bool_decide_eq_false_2.
    + finish_trailer (TCovenant position value).
  - destruct value as [mask true_mask], Henc as (? & ? & (? & ?) & Hv).
    cbn [supplied_mask supplied_true_mask] in *. unfold read_covenant_execution, covenant_execution_bytes.
    cbn [supplied_mask supplied_true_mask].
    eapply decodes_wire_bind; [by apply reads_position|]. cbv beta iota.
    eapply decodes_wire_bind; [by apply reads_u16|]. cbv beta.
    eapply decodes_wire_last; [by apply reads_u16|]. cbv beta.
    apply (decodes_wire_check _ _ _ _ tt).
    + by apply reads_reject_if, negb_false_iff.
    + apply (decodes_finish (ETrailer (TCovenantExecution position
        {| supplied_mask := mask; supplied_true_mask := true_mask |}))).
  - destruct Henc as (? & ? & ? & ?). unfold read_input_derivation.
    eapply decodes_wire_bind; [by apply reads_position|]. cbv beta iota. finish_trailer (TInputDerivation position value).
  - destruct Henc as (? & ? & ? & ?). unfold read_output_derivation.
    eapply decodes_wire_bind; [by apply reads_position|]. cbv beta iota. finish_trailer (TOutputDerivation position value).
Qed.

Lemma decodes_trailer st t :
  acceptable st t ->
  decodes (T:=T) (E:=E) (read_trailer (trailer_marker t) inputs outputs st) (trailer_body t) [ETrailer t] (note st t).
Proof.
  intros Hacc. unfold read_trailer. apply reads_marker_order; [apply Hacc..|].
  pose proof (decodes_body st t Hacc) as Hb. by destruct t.
Qed.

(** *** What one record admits *)

Definition accepted_as (st : TrailerState) (marker : Z) (st' : TrailerState) (bs : list Z) : Prop :=
  exists t, acceptable st t /\ marker = trailer_marker t /\ bs = trailer_body t /\ st' = note st t.

Lemma admits_sink_ret {A} (m : Comp T E unit) (a : A) :
  admits (T:=T) (E:=E) (bind (sink m) (fun _ => ret a)) (fun a' bs => a' = a /\ bs = []).
Proof. apply admits_sink_bind. intros _. apply admits_ret. Qed.

(** A reader of a position and a body. *)
Lemma admits_positioned {A} last seen count (body : Comp Reader WireError A) B (V : A -> Prop)
    (deliver_at : Z -> A -> Comp T E unit) (after : Z -> option Z -> TrailerState) :
  accepts body (fun a bs => V a /\ bs = B a) ->
  admits (T:=T) (E:=E) (let* (position, last) := wire (read_position last seen count) in
          let* value := wire body in
          let* _ := sink (deliver_at position value) in
          ret (after position last))
    (fun st' bs => exists p a, byte_ok p /\ (forall q, last = Some q -> q < p) /\ p ∉ seen /\ p < count /\ V a /\
       bs = [p] ++ B a /\ st' = after p (Some p)).
Proof.
  intros Hbody. eapply admits_mono.
  - eapply (admits_wire_bind _ _ _ (fun x st' bs => exists a b1 b2, (V a /\ b1 = B a) /\
      (st' = after x.1 x.2 /\ b2 = []) /\ bs = b1 ++ b2)); [apply accepts_position|].
    intros [p l] ? _. cbn [fst snd].
    apply (admits_wire_bind body _ _ (fun _ st' bs => st' = after p l /\ bs = [])); [done|].
    intros a ? _. apply admits_sink_ret.
  - cbv beta. intros st' bs _ ([p l] & b1 & b2 & (Hp & Hl & Hlt & Hs & Hc & ->) & (a & ? & ? & [Ha ->] & [-> ->] & ->) & ->).
    cbn [fst snd] in *. subst l. exists p, a. rewrite app_nil_r. done.
Qed.

Lemma admits_covenant_execution_body :
  accepts (let* supplied_mask := Reader.u16 in
           let* supplied_true_mask := Reader.u16 in
           let value := {| supplied_mask := supplied_mask; supplied_true_mask := supplied_true_mask |} in
           let* _ := reject_if (negb (valid_covenant_execution value)) InvalidTrailer in
           ret value)
    (fun v bs => (typed_covenant_execution v /\ valid_covenant_execution v = true) /\ bs = covenant_execution_bytes v).
Proof.
  invert_reader. match goal with H : negb _ = false |- _ => apply negb_false_iff in H end. done.
Qed.

Lemma admits_network st :
  last_rank st <= 0 -> admits (T:=T) (E:=E) (read_network (set_rank st 0)) (accepted_as st NETWORK_MARKER).
Proof.
  intros Hr. unfold read_network. eapply admits_mono.
  - eapply admits_wire_bind; [apply accepts_u8|]. intros code ? _. cbv beta.
    eapply admits_wire_bind; [apply accepts_reject_if|]. intros ? ? _. apply admits_sink_ret.
  - cbv beta. intros st' bs _ (code & b1 & b2 & [Hc ->] & (? & b3 & b4 & [Hf ->] & [-> ->] & ->) & ->).
    apply orb_false_iff in Hf as [Hn Hv%negb_false_iff]. cbn in Hn. exists (TNetwork code).
    split_and!; [|done|done|done]. split_and!; cbn; try done.
    + by rewrite orb_true_r.
    + by rewrite Hn.
Qed.

Lemma admits_stealth st :
  ts_network st = true -> last_rank st <= 3 ->
  admits (T:=T) (E:=E) (read_stealth (set_rank st 3)) (accepted_as st STEALTH_MARKER).
Proof.
  intros Hn Hr. unfold read_stealth. eapply admits_mono.
  - eapply admits_wire_bind; [apply accepts_reject_if|]. intros ? ? _. cbv beta.
    eapply admits_wire_bind; [apply (accepts_array 32); lia|]. intros tw ? _. apply admits_sink_ret.
  - cbv beta. intros st' bs _ (? & b1 & b2 & [Hf ->] & (tw & b3 & b4 & [Ht ->] & [-> ->] & ->) & ->).
    exists (TStealth tw). rewrite app_nil_r. split_and!; [|done|done|done].
    split_and!; cbn; try done; [by rewrite Hn|]. cbn in Hf. by rewrite Hf.
Qed.

Lemma admits_covenant st :
  ts_network st = true -> last_rank st <= 4 ->
  admits (T:=T) (E:=E) (read_covenant inputs outputs (set_rank st 4)) (accepted_as st COVENANT_MARKER).
Proof.
  intros Hn Hr. unfold read_covenant. eapply admits_mono.
  - eapply admits_wire_bind; [apply accepts_u8|]. intros p ? _. cbv beta.
    eapply admits_wire_bind; [apply accepts_of_result|]. intros l ? _. cbv beta.
    eapply admits_wire_bind; [apply accepts_u16|]. intros a ? _. cbv beta.
    eapply admits_wire_bind; [apply accepts_reject_if|]. intros ? ? _. cbv beta.
    eapply admits_wire_bind; [apply (accepts_array 32); lia|]. intros id ? _. apply admits_sink_ret.
  - cbv beta. intros st' bs _ H0. unpack_parts. cbn in *.
    match goal with H : require_increasing _ _ = _ |- _ => apply require_increasing_spec in H as [-> ?] end.
    match goal with H : _ || _ = false |- _ => apply orb_false_iff in H as [[? ?]%orb_false_iff Hs%bool_decide_eq_false] end.
    eexists (TCovenant _ {| authorizing_input := _; covenant_id := _ |}).
    split_and!; [|done|cbn; done|done]. split_and!; cbn; try done; [by rewrite Hn| |lia].
    split_and!; [done|lia|done].
Qed.

Lemma admits_covenant_execution st :
  ts_network st = true -> last_rank st <= 5 ->
  admits (T:=T) (E:=E) (read_covenant_execution inputs (set_rank st 5)) (accepted_as st COVENANT_EXECUTION_MARKER).
Proof.
  intros Hn Hr. unfold read_covenant_execution. eapply admits_mono.
  - eapply (admits_wire_bind _ _ _ (fun x st' bs => exists v b, (typed_covenant_execution v /\ valid_covenant_execution v = true) /\
      b = covenant_execution_bytes v /\ bs = b /\ (x.2 = Some x.1 -> st' = note st (TCovenantExecution x.1 v)))); [apply accepts_position|].
    intros [p l] b0 _. cbn [fst snd]. eapply admits_mono.
    + eapply admits_wire_bind; [apply accepts_u16|]. intros mask ? _. cbv beta zeta.
      eapply admits_wire_bind; [apply accepts_u16|]. intros tmask ? _. cbv beta zeta.
      eapply admits_wire_bind; [apply accepts_reject_if|]. intros ? ? _. apply admits_sink_ret.
    + cbv beta. intros st' bs _ (mask & ? & ? & [Hm ->] & (tmask & ? & ? & [Ht ->] & (? & ? & ? & [Hv ->] & [-> ->] & ->) & ->) & ->).
      apply negb_false_iff in Hv. eexists _, _. split_and!; [|done|done|done|by intros ->]; done.
  - cbv beta. intros st' bs _ ([p l] & ? & ? & (Hp & Hl & Hlt & Hs & Hc & ->) & (v & ? & [Ht Hv] & -> & -> & Hst) & ->).
    cbn [fst snd] in *. exists (TCovenantExecution p v).
    split_and!; [|done|done|by apply Hst]. split_and!; cbn; try done. by rewrite Hn.
Qed.

(** The six-byte and thirteen-byte derivation records. *)
Lemma admits_derivation_record {A} st marker rank (mk : Z -> A -> Trailer) m P :
  ts_network st = true -> last_rank st <= rank ->
  admits (T:=T) (E:=E) m P ->
  (forall st' bs, P st' bs -> exists p a, bs = trailer_body (mk p a) /\ st' = note st (mk p a) /\
     (forall q, last_of st rank = Some q -> q < p) /\ p ∉ marked st rank /\ encodable_trailer inputs outputs (mk p a)) ->
  (forall p a, trailer_rank (mk p a) = rank /\ trailer_position (mk p a) = p /\
     trailer_marker (mk p a) = marker /\ authorized inputs (mk p a)) ->
  admits m (accepted_as st marker).
Proof.
  intros Hn Hr Hm HP Hmk. eapply admits_mono; [done|]. intros st' bs _ (p & a & -> & -> & Hl & Hs & Henc)%HP.
  destruct (Hmk p a) as (Hrk & Hp & Hmark & Hauth). exists (mk p a). split_and!; [|done..].
  unfold acceptable. rewrite Hrk, Hp, Hn. done.
Qed.

Lemma admits_derivations st :
  ts_network st = true ->
  (last_rank st <= 1 -> admits (T:=T) (E:=E) (read_ms45_input inputs (set_rank st 1)) (accepted_as st MS45_INPUT_MARKER)) /\
  (last_rank st <= 2 -> admits (T:=T) (E:=E) (read_ms45_output outputs (set_rank st 2)) (accepted_as st MS45_OUTPUT_MARKER)) /\
  (last_rank st <= 6 -> admits (T:=T) (E:=E) (read_input_derivation inputs (set_rank st 6)) (accepted_as st INPUT_DERIVATION_MARKER)) /\
  (last_rank st <= 7 -> admits (T:=T) (E:=E) (read_output_derivation outputs (set_rank st 7)) (accepted_as st OUTPUT_DERIVATION_MARKER)).
Proof.
  intros Hn. split_and!; intros Hr.
  - eapply (admits_derivation_record _ _ 1 TMs45Input); [done|done|apply admits_positioned, accepts_ms45| |done].
    cbv beta. intros st' bs (p & a & ? & ? & ? & ? & [? ?] & -> & ->). by exists p, a.
  - eapply (admits_derivation_record _ _ 2 TMs45Output); [done|done|apply admits_positioned, accepts_ms45| |done].
    cbv beta. intros st' bs (p & a & ? & ? & ? & ? & [? ?] & -> & ->). by exists p, a.
  - eapply (admits_derivation_record _ _ 6 TInputDerivation); [done|done|apply admits_positioned, accepts_derivation| |done].
    cbv beta. intros st' bs (p & a & ? & ? & ? & ? & [? ?] & -> & ->). by exists p, a.
  - eapply (admits_derivation_record _ _ 7 TOutputDerivation); [done|done|apply admits_positioned, accepts_derivation| |done].
    cbv beta. intros st' bs (p & a & ? & ? & ? & ? & [? ?] & -> & ->). by exists p, a.
Qed.

Lemma admits_throw {A} e P : admits (T:=T) (E:=E) (@throw _ _ A e) P.
Proof. by intros r t rest a r' t' _ _ [=]. Qed.

Lemma marker_order_inv marker st m :
  require_canonical_marker_order marker st = Ok m ->
  exists rank, marker_rank marker = Some rank /\ m = set_rank st rank /\ last_rank st <= rank /\
    (marker = NETWORK_MARKER \/ ts_network st = true).
Proof.
  unfold require_canonical_marker_order. intros H0. comp_inv. exists x.
  destruct (ts_network st), (Z.eqb_spec marker NETWORK_MARKER); cbn in *; try done;
    destruct (Z.ltb_spec x (last_rank st)); try done; injection H1 as <-; auto.
Qed.

Lemma admits_trailer marker st :
  admits (T:=T) (E:=E) (read_trailer marker inputs outputs st) (accepted_as st marker).
Proof.
  unfold read_trailer. eapply admits_mono.
  - eapply (admits_wire_bind _ _ _ (fun _ => accepted_as st marker)); [apply accepts_of_result|].
    intros m ? [Hm _]. apply marker_order_inv in Hm as (rank & Hrank & -> & Hr & Hn).
    unfold marker_rank, read_base_trailer, read_extended_trailer in *.
    destruct (Z.eqb_spec marker NETWORK_MARKER) as [->|?].
    { injection Hrank as <-. by apply admits_network. }
    destruct Hn as [?|Hn]; [done|]. destruct (admits_derivations st Hn) as (Hd1 & Hd2 & Hd6 & Hd7).
    repeat match type of Hrank with
    | context [Z.eqb marker ?b] => destruct (Z.eqb_spec marker b) as [->|?];
        [cbn [orb]; injection Hrank as <-; by auto using admits_stealth, admits_covenant, admits_covenant_execution|]
    end. done.
  - cbv beta. intros st' bs _ (m & b1 & b2 & [_ ->] & H0 & ->). done.
Qed.

(** *** Sequences of records *)

Fixpoint chain (st : TrailerState) (l : list Trailer) : Prop :=
  match l with
  | [] => True
  | t :: l' => acceptable st t /\ chain (note st t) l'
  end.

Lemma peek_rest r rest : reader_at r rest -> Reader.peek r = head rest.
Proof.
  intros (pre & -> & _). unfold Reader.peek, get_at. cbn. pose proof (blen_nonneg pre). decide_tests.
  unfold blen. rewrite Nat2Z.id. rewrite lookup_app_r by lia. rewrite Nat.sub_diag. by destruct rest.
Qed.

Lemma trailer_bytes_cons t l rest :
  concat (map trailer_bytes (t :: l)) ++ rest = [trailer_marker t] ++ trailer_body t ++ concat (map trailer_bytes l) ++ rest.
Proof. cbn [map concat]. unfold trailer_bytes at 1. app_eq. Qed.

(** A run of acceptable records is consumed, and the loop goes on after it. *)
Lemma trailer_loop_run fuel st l rest r (t : T) :
  reader_at r (concat (map trailer_bytes l) ++ rest) -> chain st l ->
  exists r', match for_each (map ETrailer l) deliver t with
    | (Ok _, t') =>
        read_trailer_loop (E:=E) (length l + fuel) inputs outputs st (r, t)
          = read_trailer_loop fuel inputs outputs (foldl note st l) (r', t') /\ reader_at r' rest
    | (Err e, t') => read_trailer_loop (E:=E) (length l + fuel) inputs outputs st (r, t) = (Err (Sink e), (r', t'))
    end.
Proof.
  revert st r t. induction l as [|tr l IH]; intros st r t Hr Hc; [by exists r|].
  destruct Hc as [Hacc Hc]. rewrite trailer_bytes_cons in Hr.
  pose proof (peek_rest _ _ Hr) as Hp. cbn [head app] in Hp. cbn [length Nat.add read_trailer_loop]. rewrite Hp.
  destruct (reads_u8 (trailer_marker tr) r _ Hr) as (r1 & H1 & Hr1).
  assert (Hw : wire (E:=E) Reader.u8 (r, t) = (Ok (trailer_marker tr), (r1, t))) by (unfold wire; by rewrite H1).
  rewrite (bind_step _ _ _ _ _ Hw).
  destruct (decodes_trailer st tr Hacc r1 t _ Hr1) as (r2 & H2 & Hr2).
  rewrite for_each_cons in H2, Hr2. cbn [map]. rewrite for_each_cons. cbv beta.
  destruct (deliver (ETrailer tr) t) as [[u|e] t1]; cbn in Hr2.
  - rewrite (bind_step _ _ _ _ _ H2). cbn [foldl]. apply IH; [by apply Hr2|done].
  - rewrite (bind_fail _ _ _ _ _ H2). by exists r2.
Qed.

Lemma trailer_loop_decodes fuel st l r (t : T) :
  reader_at r (concat (map trailer_bytes l)) -> (length l <= fuel)%nat -> chain st l ->
  exists r', read_trailer_loop (E:=E) fuel inputs outputs st (r, t) =
    match for_each (map ETrailer l) deliver t with
    | (Ok _, t') => (Ok (foldl note st l), (r', t'))
    | (Err e, t') => (Err (Sink e), (r', t'))
    end.
Proof.
  intros Hr Hf Hc. rewrite <- (app_nil_r (concat _)) in Hr.
  destruct (trailer_loop_run (fuel - length l) st l [] r t Hr Hc) as (r' & Hrun). exists r'.
  replace (length l + (fuel - length l))%nat with fuel in Hrun by lia.
  destruct (for_each (map ETrailer l) deliver t) as [[u|e] t']; [|done]. destruct Hrun as [-> Hr'].
  pose proof (peek_rest _ _ Hr') as Hp. cbn in Hp. destruct (fuel - length l)%nat; cbn [read_trailer_loop]; by rewrite Hp.
Qed.

(** A covenant record whose authorizing input is not an input of the
    transaction is refused before anything of it is delivered. *)
Lemma refuses_unauthorized st tr :
  well_placed st tr -> ~ authorized inputs tr ->
  refuses (T:=T) (E:=E) (read_trailer (trailer_marker tr) inputs outputs st) (trailer_body tr) (Wire InvalidTrailer).
Proof.
  intros (Hn & Hrank & Hlast & _ & Henc) Hauth. destruct tr as [| | | |p c| | |]; try done.
  cbn [authorized trailer_rank trailer_position last_of encodable_trailer trailer_marker trailer_body is_network] in *.
  destruct Henc as (Hp & Ho & Hc & Hid). unfold read_trailer.
  apply (refuses_wire_check _ _ _ (set_rank st 4)).
  { apply reads_of_result. unfold require_canonical_marker_order. cbn [ok_or rbind marker_rank Z.eqb]. cbn.
    rewrite orb_false_r in Hn. rewrite Hn. cbn. by decide_tests. }
  change (refuses (read_covenant inputs outputs (set_rank st 4)) ([p] ++ le_bytes 2 (authorizing_input c) ++ covenant_id c)
    (Wire InvalidTrailer)). unfold read_covenant.
  eapply refuses_wire_bind; [apply reads_u8|]. cbv beta.
  apply (refuses_wire_check _ _ _ (Some p)); [by apply reads_of_result, require_increasing_spec|].
  eapply refuses_wire_bind; [by apply reads_u16|]. cbv beta.
  apply refuses_reject. apply orb_true_iff. left. apply orb_true_iff. right. lia.
Qed.

Lemma trailer_loop_refuses fuel st tr rest r (t : T) :
  well_placed st tr -> ~ authorized inputs tr -> reader_at r (trailer_bytes tr ++ rest) ->
  exists r', read_trailer_loop (E:=E) (S fuel) inputs outputs st (r, t) = (Err (Wire InvalidTrailer), (r', t)).
Proof.
  intros Hw Hauth Hr. unfold trailer_bytes in Hr. rewrite <- app_assoc in Hr.
  cbn [read_trailer_loop]. rewrite (peek_rest _ _ Hr). cbn [head app].
  destruct (reads_u8 (trailer_marker tr) r _ Hr) as (r1 & H1 & Hr1).
  rewrite (bind_step _ _ (r, t) (trailer_marker tr) (r1, t)) by (unfold wire; by rewrite H1).
  destruct (refuses_unauthorized st tr Hw Hauth r1 t rest Hr1) as (r2 & H2).
  rewrite (bind_fail _ _ _ _ _ H2). by exists r2.
Qed.

Lemma trailer_loop_admits fuel st r (t : T) rest st' r' t' :
  reader_at r rest -> bytes_ok rest -> (length rest <= fuel)%nat ->
  read_trailer_loop (E:=E) fuel inputs outputs st (r, t) = (Ok st', (r', t')) ->
  exists l, rest = concat (map trailer_bytes l) /\ chain st l /\ st' = foldl note st l.
Proof.
  revert st r t rest. induction fuel as [|fuel IH]; intros st r t rest Hr Hok Hf;
    cbn [read_trailer_loop]; rewrite (peek_rest _ _ Hr); destruct rest as [|b rest]; cbn [head].
  - intros [= <- <- <-]. by exists [].
  - cbn in Hf. lia.
  - intros [= <- <- <-]. by exists [].
  - intros (marker & [r1 t1] & H1 & H2)%bind_Ok_inv.
    destruct (admits_wire (T:=T) (E:=E) _ _ accepts_u8 _ _ _ _ _ _ Hr Hok H1) as (b1 & rest1 & Heq & _ & Hok1 & Hr1 & Hm & ->).
    apply bind_Ok_inv in H2 as (st1 & [r2 t2] & H2 & H3).
    destruct (admits_trailer marker st _ _ _ _ _ _ Hr1 Hok1 H2) as (b2 & rest2 & -> & _ & Hok2 & Hr2 & tr & Hacc & -> & -> & ->).
    apply (f_equal length) in Heq as Hlen. rewrite !length_app in Hlen. cbn in Hlen, Hf.
    destruct (IH _ _ _ _ Hr2 Hok2 ltac:(lia) H3) as (l & -> & Hc & ->).
    exists (tr :: l). rewrite Heq. split_and!; [|done|done]. 
    rewrite <- (app_nil_r (concat (map trailer_bytes (tr :: l)))), trailer_bytes_cons. by rewrite app_nil_r.
Qed.

(** *** The accepted sequences are the canonical ones *)

(** The trailer state after a sequence whose last record is [prev]. *)
Definition tracks_state (prev : option Trailer) (st : TrailerState) : Prop :=
  match prev with
  | None => st = new_trailer_state
  | Some t0 =>
      ts_network st = true /\ last_rank st = trailer_rank t0 /\
      last_of st (trailer_rank t0) = Some (trailer_position t0) /\
      (forall p, p ∈ marked st (trailer_rank t0) -> p <= trailer_position t0) /\
      (forall rank, trailer_rank t0 < rank -> last_of st rank = None /\ marked st rank = ∅)
  end.
(** What may follow [prev]. *)
Definition may_follow (prev : option Trailer) (t : Trailer) : Prop :=
  match prev with None => is_network t = true | Some t0 => trailer_lt t0 t end.

Lemma well_placed_spec prev st t :
  tracks_state prev st -> well_placed st t <-> may_follow prev t /\ encodable_trailer inputs outputs t.
Proof.
  unfold well_placed, may_follow, trailer_lt. destruct prev as [t0|]; cbn.
  - intros (Hn & Hr & Hl & Hm & Hgt). rewrite Hn, Hr. cbn [orb]. split.
    + intros (_ & Hle & Hlast & _ & ?). split_and!; [|done..].
      destruct (Z.eq_dec (trailer_rank t0) (trailer_rank t)) as [Heq|]; [right|left; lia].
      split; [done|]. apply Hlast. by rewrite <- Heq.
    + intros ([Hlt|[Heq Hp]] & ?).
      * destruct (Hgt _ Hlt) as [-> ->]. split_and!; [done|lia|done|apply not_elem_of_empty|done].
      * rewrite <- Heq, Hl. split_and!; [done|lia|by intros ? [= <-]| |done].
        intros Hin. specialize (Hm _ Hin). lia.
  - intros ->. cbn. split; [naive_solver|]. intros (Hn & ?). by destruct t.
Qed.

Lemma acceptable_spec prev st t :
  tracks_state prev st ->
  acceptable st t <-> may_follow prev t /\ encodable_trailer inputs outputs t /\ authorized inputs t.
Proof. intros Htr. rewrite acceptable_placed, (well_placed_spec prev) by done. tauto. Qed.

Lemma note_other st t rank :
  rank <> trailer_rank t ->
  last_of (note st t) rank = last_of st rank /\ marked (note st t) rank = marked st rank.
Proof.
  intros Hr. destruct t; cbn [trailer_rank] in Hr; destruct rank as [|p|p]; try done;
    repeat (match goal with q : positive |- _ => destruct q end; try done).
Qed.

Lemma tracks_note prev st t :
  tracks_state prev st -> may_follow prev t -> tracks_state (Some t) (note st t).
Proof.
  intros Htr Hf.
  assert (Hbelow : forall p, p ∈ marked st (trailer_rank t) -> p <= trailer_position t).
  { destruct prev as [t0|]; cbn in *.
    - destruct Htr as (_ & _ & _ & Hm & Hgt). destruct Hf as [Hlt|[Heq Hp]].
      + destruct (Hgt _ Hlt) as [_ ->]. by intros p ?%not_elem_of_empty.
      + rewrite <- Heq. intros p Hin. specialize (Hm _ Hin). lia.
    - subst. intros p Hin. exfalso. revert Hin. destruct t; cbn; apply not_elem_of_empty. }
  assert (Habove : forall rank, trailer_rank t < rank -> last_of st rank = None /\ marked st rank = ∅).
  { destruct prev as [t0|]; cbn in *.
    - destruct Htr as (_ & _ & _ & _ & Hgt). intros rank Hr. apply Hgt. destruct Hf as [?|[? ?]]; lia.
    - subst. intros rank _. destruct rank as [|p|p]; [done| |done].
      repeat (match goal with q : positive |- _ => destruct q end; try done). }
  assert (Hnet : (trailer_rank t =? 0) || ts_network st = true).
  { destruct prev as [t0|]; cbn in *; [destruct Htr as [-> _]; apply orb_true_r|by destruct t]. }
  cbn [tracks_state]. split_and!; [done|done| | |].
  - destruct t; done.
  - destruct t; cbn in *; intros p; rewrite ?elem_of_union, ?elem_of_singleton; try (by intros ?%not_elem_of_empty);
      (intros [->|Hin]; [lia|by apply Hbelow]).
  - intros rank Hr. destruct (note_other st t rank) as [-> ->]; [lia|]. by apply Habove.
Qed.

Lemma trailer_lt_trans a b c : trailer_lt a b -> trailer_lt b c -> trailer_lt a c.
Proof. unfold trailer_lt. lia. Qed.

Lemma chain_spec prev st l :
  tracks_state prev st ->
  chain st l <->
  Forall (encodable_trailer inputs outputs) l /\ Forall (authorized inputs) l /\
  StronglySorted trailer_lt l /\
  match prev with
  | None => l = [] \/ exists code l', l = TNetwork code :: l'
  | Some t0 => Forall (trailer_lt t0) l
  end.
Proof.
  revert prev st. induction l as [|t l IH]; intros prev st Htr; cbn [chain].
  - split; [intros _|done]. split_and!; try constructor. destruct prev; [constructor|by left].
  - rewrite (acceptable_spec prev) by done. split.
    + intros ((Hf & Henc & Hauth) & Hc). apply (IH (Some t)) in Hc as (? & ? & ? & Hlt); [|by eapply tracks_note].
      split_and!; [by constructor..|]. destruct prev as [t0|]; cbn in Hf.
      * constructor; [done|]. apply (Forall_impl _ _ _ Hlt). intros. by eapply trailer_lt_trans.
      * destruct t; try done. right. by eexists _, _.
    + intros ([? ?]%Forall_cons & [? ?]%Forall_cons & [Hs Hlt]%StronglySorted_inv & Hp).
      assert (Hf : may_follow prev t).
      { destruct prev as [t0|]; [by apply Forall_cons in Hp as [? _]|]. destruct Hp as [|(code & l' & Heq)]; [done|].
        by injection Heq as -> _. }
      split; [done|]. apply (IH (Some t)); [by eapply tracks_note|done].
Qed.

Lemma foldl_note_network st l : ts_network st = true -> ts_network (foldl note st l) = true.
Proof.
  revert st. induction l as [|t l IH]; intros st Hn; [done|]. cbn [foldl]. apply IH. cbn. rewrite Hn. apply orb_true_r.
Qed.

Lemma chain_canonical l :
  chain new_trailer_state l /\ ts_network (foldl note new_trailer_state l) = true <->
  Forall (encodable_trailer inputs outputs) l /\ Forall (authorized inputs) l /\ canonical_trailers l.
Proof.
  rewrite (chain_spec None) by done. unfold canonical_trailers. split.
  - intros [(? & ? & ? & [->|Hn]) Hnet]; [done|]. done.
  - intros (? & ? & (code & l' & ->) & ?). split; [split_and!; try done; right; by eexists _, _|].
    cbn [foldl]. apply foldl_note_network. done.
Qed.

(** *** The whole section *)

Lemma trailers_decode l r (t : T) :
  reader_at r (concat (map trailer_bytes l)) ->
  Forall (encodable_trailer inputs outputs) l -> Forall (authorized inputs) l -> canonical_trailers l ->
  exists r', read_trailers (E:=E) inputs outputs (r, t) =
    match for_each (map ETrailer l) deliver t with
    | (Ok _, t') => (Ok tt, (r', t'))
    | (Err e, t') => (Err (Sink e), (r', t'))
    end.
Proof.
  intros Hr Henc Hauth Hcan.
  destruct (proj2 (chain_canonical l)) as [Hc Hn]; [done|].
  assert (Hf : (length l <= length (r_data r))%nat).
  { destruct Hr as (pre & -> & _). cbn. rewrite length_app. clear. induction l as [|tr l IH]; cbn; [lia|].
    rewrite length_app. lia. }
  destruct (trailer_loop_decodes (length (r_data r)) new_trailer_state l r t Hr Hf Hc) as (r' & H1).
  unfold read_trailers. unfold bind at 1. rewrite H1.
  destruct (for_each (map ETrailer l) deliver t) as [[u|e] t'].
  - exists r'. unfold wire. cbn [negb]. by rewrite Hn.
  - by exists r'.
Qed.

(** Up to the first record that no input of the transaction authorizes. *)
Lemma prefix_placed prev st l1 tr l2 :
  tracks_state prev st -> StronglySorted trailer_lt (l1 ++ tr :: l2) ->
  match prev with
  | None => exists code l', l1 ++ tr :: l2 = TNetwork code :: l'
  | Some t0 => Forall (trailer_lt t0) (l1 ++ tr :: l2)
  end ->
  Forall (encodable_trailer inputs outputs) (l1 ++ tr :: l2) -> Forall (authorized inputs) l1 ->
  chain st l1 /\ well_placed (foldl note st l1) tr.
Proof.
  revert prev st. induction l1 as [|t l1 IH]; intros prev st Htr Hs Hp Henc Hauth; cbn [app foldl chain] in *.
  - split; [done|]. apply (well_placed_spec prev); [done|]. apply Forall_cons in Henc as [Henc _]. split; [|done].
    destruct prev as [t0|]; [by apply Forall_cons in Hp as [? _]|]. destruct Hp as (code & l' & Heq). by injection Heq as -> _.
  - apply Forall_cons in Hauth as [Hat Hauth], Henc as [Het Henc]. apply StronglySorted_inv in Hs as [Hs Hlt].
    assert (Hf : may_follow prev t).
    { destruct prev as [t0|]; [by apply Forall_cons in Hp as [? _]|]. destruct Hp as (code & l' & Heq). by injection Heq as -> _. }
    rewrite (acceptable_spec prev) by done.
    destruct (IH (Some t) (note st t)) as [Hc Hw]; [by eapply tracks_note|done..|]. done.
Qed.

Lemma authorized_prefix_split l :
  ~ Forall (authorized inputs) l ->
  exists tr l2, l = authorized_prefix inputs l ++ tr :: l2 /\ Forall (authorized inputs) (authorized_prefix inputs l) /\
    ~ authorized inputs tr.
Proof.
  induction l as [|t l IH]; intros Hn; [by destruct Hn|]. cbn [authorized_prefix].
  destruct (decide (authorized inputs t)) as [Ht|Ht].
  - destruct IH as (tr & l2 & Heq & Hl & Htr); [by intros Hl; apply Hn; constructor|].
    exists tr, l2. cbn [app]. rewrite <- Heq. by repeat constructor.
  - by exists t, l.
Qed.

Lemma trailers_refuse l r (t : T) :
  reader_at r (concat (map trailer_bytes l)) ->
  Forall (encodable_trailer inputs outputs) l -> ~ Forall (authorized inputs) l -> canonical_trailers l ->
  exists r', read_trailers (E:=E) inputs outputs (r, t) =
    match for_each (map ETrailer (authorized_prefix inputs l)) deliver t with
    | (Ok _, t') => (Err (Wire InvalidTrailer), (r', t'))
    | (Err e, t') => (Err (Sink e), (r', t'))
    end.
Proof.
  intros Hr Henc Hn [(code & l' & Hhd) Hs]. destruct (authorized_prefix_split l Hn) as (tr & l2 & Heq & Hauth & Htr).
  remember (authorized_prefix inputs l) as l1 eqn:Hl1. clear Hl1.
  destruct (prefix_placed None new_trailer_state l1 tr l2) as [Hc Hw]; [done|by rewrite <- Heq..| |by rewrite <- Heq|done|].
  { rewrite <- Heq. by eexists _, _. }
  assert (Hf : exists k, length (r_data r) = (length l1 + S k)%nat).
  { exists (length (r_data r) - S (length l1))%nat. enough (S (length l1) <= length (r_data r))%nat by lia.
    destruct Hr as (pre & -> & _). cbn [r_data]. rewrite length_app.
    transitivity (length l); [rewrite Heq, length_app; cbn; lia|]. clear. induction l as [|tr l IH]; cbn; [lia|].
    rewrite length_app. lia. }
  destruct Hf as [k Hk]. rewrite Heq, map_app, concat_app in Hr. cbn [map concat] in Hr.
  destruct (trailer_loop_run (S k) new_trailer_state l1 _ r t Hr Hc) as (r1 & H1).
  unfold read_trailers. rewrite Hk. unfold bind at 1.
  destruct (for_each (map ETrailer l1) deliver t) as [[u|e] t'].
  - destruct H1 as [-> Hr1]. destruct (trailer_loop_refuses k _ tr _ r1 t' Hw Htr Hr1) as (r2 & ->). by exists r2.
  - rewrite H1. by exists r1.
Qed.

Lemma trailers_admit r (t : T) rest r' t' u :
  reader_at r rest -> bytes_ok rest -> read_trailers (E:=E) inputs outputs (r, t) = (Ok u, (r', t')) ->
  exists l, rest = concat (map trailer_bytes l) /\
    Forall (encodable_trailer inputs outputs) l /\ Forall (authorized inputs) l /\ canonical_trailers l.
Proof.
  intros Hr Hok. unfold read_trailers. intros (st & [r1 t1] & H1 & H2)%bind_Ok_inv.
  assert (Hf : (length rest <= length (r_data r))%nat).
  { destruct Hr as (pre & -> & _). cbn. rewrite length_app. lia. }
  destruct (trailer_loop_admits _ _ _ _ _ _ _ _ Hr Hok Hf H1) as (l & -> & Hc & ->).
  exists l. split; [done|]. apply chain_canonical. split; [done|].
  unfold wire in H2. by destruct (ts_network _).
Qed.

End trailers.

(** ** The envelope *)

Section envelope.
Context {T E : Type} `{DecodeSink T E}.
Implicit Types (t : T) (limits : Limits) (d : Doc).

Lemma capacity_ok count rest :
  u32_ok count -> 59 * count <= rest -> validate_input_capacity count rest = Ok tt.
Proof.
  intros Hc Hr. unfold validate_input_capacity, checked_mul, MIN_INPUT_WIRE_BYTES, u32_ok in *.
  rewrite checked_u64_id by (unfold u64_ok; lia). cbn. by decide_tests.
Qed.

Lemma reader_remaining r rest : reader_at r rest -> Reader.remaining r = blen rest.
Proof.
  intros (pre & -> & _). unfold Reader.remaining, saturating_sub. cbn. rewrite blen_app.
  pose proof (blen_nonneg rest). lia.
Qed.

Lemma wire_step {A} (m : Comp Reader WireError A) r a r' t :
  m r = (Ok a, r') -> wire (T:=T) (E:=E) m (r, t) = (Ok a, (r', t)).
Proof. intros Hm. unfold wire. by rewrite Hm. Qed.

Lemma run_bind {A B} (m : Comp (Reader * T) (DecodeError E) A) (k : A -> Comp (Reader * T) (DecodeError E) B)
    rt (o : result unit E * T) a r' :
  m rt = match o with (Ok _, t') => (Ok a, (r', t')) | (Err e, t') => (Err (Sink e), (r', t')) end ->
  bind m k rt = match o with (Ok _, t') => k a (r', t') | (Err e, t') => (Err (Sink e), (r', t')) end.
Proof. destruct o as [[u|e] t']; intros Hm; [by apply bind_step|by apply bind_fail]. Qed.

Lemma deliver_app (l1 l2 : list Event) t :
  for_each (l1 ++ l2) deliver t =
    match for_each (E:=E) l1 deliver t with (Ok _, t') => for_each l2 deliver t' | (Err e, t') => (Err e, t') end.
Proof. rewrite for_each_app. unfold bind. by destruct (for_each l1 deliver t) as [[u|e] t']. Qed.

Lemma global_bytes_split g : global_bytes g = prefix_bytes (prefix_of g) ++ g_payload g.
Proof. unfold global_bytes, prefix_bytes, prefix_of. cbn. app_eq. Qed.

Lemma valid_global_prefix limits g : valid_global limits g -> valid_prefix limits (prefix_of g).
Proof.
  intros ((? & ? & ? & ? & ? & ? & ? & ?) & ? & ? & ? & ? & ? & ?). unfold valid_prefix. cbn.
  pose proof (blen_nonneg (g_payload g)). unfold u32_ok, u32_max in *. split_and!; try done; lia.
Qed.

(** Everything before the trailers is delivered, and the trailers are read
    next. *)
Lemma envelope_body limits d t :
  encodable_doc limits d -> blen (doc_bytes d) <= usize_max ->
  exists r', match for_each (body_events d) deliver t with
    | (Ok _, t') =>
        decode_envelope (T:=T) (E:=E) limits (Reader.new (doc_bytes d), t)
          = (let* _ := read_trailers (g_input_count (d_global d)) (g_output_count (d_global d)) in ret (g_flags (d_global d))) (r', t') /\
        reader_at r' (concat (map trailer_bytes (d_trailers d)))
    | (Err e, t') => decode_envelope (T:=T) (E:=E) limits (Reader.new (doc_bytes d), t) = (Err (Sink e), (r', t'))
    end.
Proof.
  intros (Hg & Hin & Hic & Hout & Hoc & Htr & Hcan) Hu.
  pose proof (reader_at_new _ Hu) as Hr0. unfold doc_bytes in Hr0. rewrite global_bytes_split, <- app_assoc in Hr0.
  destruct (reads_header (g_flags (d_global d)) ltac:(split; apply Hg) _ _ Hr0) as (r1 & H1 & Hr1).
  destruct (reads_global_prefix limits _ (valid_global_prefix _ _ Hg) _ _ Hr1) as (r2 & H2 & Hr2).
  destruct (reads_global (g_flags (d_global d)) (d_global d) ltac:(split; apply Hg) eq_refl _ _ Hr2) as (r3 & H3 & Hr3).
  assert (Hcap : validate_input_capacity (g_input_count (d_global d)) (Reader.remaining r3) = Ok tt).
  { rewrite (reader_remaining _ _ Hr3), blen_app, <- Hic. apply capacity_ok; [rewrite Hic; apply Hg|].
    pose proof (doc_inputs_min _ Hin). pose proof (blen_nonneg (concat (map output_bytes (d_outputs d)) ++ concat (map trailer_bytes (d_trailers d)))).
    lia. }
  unfold decode_envelope. unfold doc_bytes. rewrite global_bytes_split, <- app_assoc.
  rewrite (bind_step _ _ _ _ _ (wire_step _ _ _ _ _ H1)), (bind_step _ _ _ _ _ (wire_step _ _ _ _ _ H2)).
  rewrite (bind_step _ _ _ _ _ (wire_step _ _ _ _ _ H3)). rewrite (bind_step _ _ (r3, t) tt (r3, t)).
  2:{ unfold wire. by rewrite Hcap. }
  unfold body_events. rewrite for_each_cons. cbn [deliver].
  destruct (on_global (d_global d) t) as [[[]|e] t1] eqn:Hdel; cbv beta.
  2:{ exists r3. unfold bind, sink. by rewrite Hdel. }
  rewrite (bind_step _ _ (r3, t) tt (r3, t1)) by (unfold sink; by rewrite Hdel).
  rewrite deliver_app. unfold read_inputs, read_outputs. rewrite <- Hic.
  destruct (decodes_inputs (T:=T) (E:=E) 0 (d_inputs d) Hin r3 t1 _ Hr3) as (r4 & H4 & Hr4).
  rewrite (run_bind _ _ _ _ _ _ H4).
  destruct (for_each (input_events 0 (d_inputs d)) deliver t1) as [[[]|e] t2]; [|by exists r4].
  specialize (Hr4 eq_refl). rewrite <- Hoc.
  destruct (decodes_outputs (T:=T) (E:=E) 0 (d_outputs d) Hout r4 t2 _ Hr4) as (r5 & H5 & Hr5).
  rewrite (run_bind _ _ _ _ _ _ H5).
  destruct (for_each (output_events 0 (d_outputs d)) deliver t2) as [[[]|e] t3]; exists r5; [|done].
  split; [done|]. by apply Hr5.
Qed.

Lemma doc_events_body d t :
  for_each (doc_events d) deliver t =
    match for_each (E:=E) (body_events d) deliver t with
    | (Ok _, t') => for_each (map ETrailer (d_trailers d)) deliver t'
    | (Err e, t') => (Err e, t')
    end.
Proof. rewrite <- deliver_app. unfold doc_events, body_events. cbn [app]. by rewrite <- app_assoc. Qed.

(** A valid document is decoded into exactly its events. *)
Lemma envelope_decodes limits d t :
  valid_doc limits d -> blen (doc_bytes d) <= usize_max ->
  exists r', decode_envelope (T:=T) (E:=E) limits (Reader.new (doc_bytes d), t) =
    match for_each (doc_events d) deliver t with
    | (Ok _, t') => (Ok (g_flags (d_global d)), (r', t'))
    | (Err e, t') => (Err (Sink e), (r', t'))
    end.
Proof.
  intros [Henc Hauth] Hu. destruct (envelope_body limits d t Henc Hu) as (r1 & H1). rewrite doc_events_body.
  destruct (for_each (body_events d) deliver t) as [[u|e] t1]; [destruct H1 as [-> Hr1]|by exists r1].
  destruct Henc as (_ & _ & _ & _ & _ & Htr & Hcan).
  destruct (trailers_decode (T:=T) (E:=E) _ _ (d_trailers d) r1 t1 Hr1 Htr Hauth Hcan) as (r2 & H2).
  rewrite (run_bind _ _ _ _ _ _ H2). destruct (for_each (map ETrailer (d_trailers d)) deliver t1) as [[v|e] t2]; by exists r2.
Qed.

(** A document with an unauthorized covenant is decoded up to it, and refused
    there. *)
Lemma envelope_refuses limits d t :
  encodable_doc limits d -> ~ Forall (authorized (g_input_count (d_global d))) (d_trailers d) ->
  blen (doc_bytes d) <= usize_max ->
  exists r', decode_envelope (T:=T) (E:=E) limits (Reader.new (doc_bytes d), t) =
    match for_each (body_events d ++ map ETrailer (authorized_prefix (g_input_count (d_global d)) (d_trailers d))) deliver t with
    | (Ok _, t') => (Err (Wire InvalidTrailer), (r', t'))
    | (Err e, t') => (Err (Sink e), (r', t'))
    end.
Proof.
  intros Henc Hauth Hu. destruct (envelope_body limits d t Henc Hu) as (r1 & H1). rewrite deliver_app.
  destruct (for_each (body_events d) deliver t) as [[u|e] t1]; [destruct H1 as [-> Hr1]|by exists r1].
  destruct Henc as (_ & _ & _ & _ & _ & Htr & Hcan).
  destruct (trailers_refuse (T:=T) (E:=E) _ _ (d_trailers d) r1 t1 Hr1 Htr Hauth Hcan) as (r2 & H2).
  unfold bind. rewrite H2.
  destruct (for_each (map ETrailer (authorized_prefix _ (d_trailers d))) deliver t1) as [[v|e] t2]; by exists r2.
Qed.

(** Whatever the decoder accepts is the bytes of a valid document. *)
Lemma envelope_admits limits data t r' t' flags :
  bytes_ok data -> blen data <= usize_max -> max_payload limits <= u32_max ->
  decode_envelope (T:=T) (E:=E) limits (Reader.new data, t) = (Ok flags, (r', t')) ->
  exists d, valid_doc limits d /\ data = doc_bytes d /\ flags = g_flags (d_global d).
Proof.
  intros Hok Hu Hmax. pose proof (reader_at_new _ Hu) as Hr0. unfold decode_envelope.
  intros (fl & [r1 t1] & H1 & H0)%bind_Ok_inv.
  destruct (admits_wire _ _ accepts_header _ _ _ _ _ _ Hr0 Hok H1) as (b1 & d1 & -> & _ & Hok1 & Hr1 & Hf & ->).
  apply bind_Ok_inv in H0 as (pre & [r2 t2] & H2 & H0).
  destruct (admits_wire _ _ (accepts_global_prefix limits) _ _ _ _ _ _ Hr1 Hok1 H2) as (b2 & d2 & -> & _ & Hok2 & Hr2 & Hp & ->).
  apply bind_Ok_inv in H0 as (g & [r3 t3] & H3 & H0).
  destruct (admits_wire _ _ (accepts_global fl pre ltac:(apply Hp)) _ _ _ _ _ _ Hr2 Hok2 H3)
    as (b3 & d3 & -> & _ & Hok3 & Hr3 & Hfl & Hpre & Hpay & ->).
  apply bind_Ok_inv in H0 as (? & [r4 t4] & H4 & H0).
  assert (r4 = r3) as ->. { unfold wire in H4. destruct (validate_input_capacity _ _); by injection H4. }
  apply bind_Ok_inv in H0 as (? & [r5 t5] & H5 & H0).
  destruct (admits_sink _ _ _ _ _ _ _ Hr3 Hok3 H5) as (b5 & d5 & -> & _ & Hok5 & Hr5 & ->).
  apply bind_Ok_inv in H0 as (? & [r6 t6] & H6 & H0).
  destruct (admits_for_each _ _ _ _ admits_input _ _ _ _ _ _ Hr5 Hok5 H6)
    as (b6 & d6 & -> & _ & Hok6 & Hr6 & ins & Hni & Hins & ->).
  apply bind_Ok_inv in H0 as (? & [r7 t7] & H7 & H0).
  destruct (admits_for_each _ _ _ _ admits_output _ _ _ _ _ _ Hr6 Hok6 H7)
    as (b7 & d7 & -> & _ & Hok7 & Hr7 & outs & Hno & Houts & ->).
  apply bind_Ok_inv in H0 as (? & [r8 t8] & H8 & H0).
  destruct (trailers_admit _ _ _ _ _ _ _ _ Hr7 Hok7 H8) as (trs & -> & Htr & Hauth & Hcan).
  injection H0 as -> _ _.
  exists {| d_global := g; d_inputs := ins; d_outputs := outs; d_trailers := trs |}.
  destruct Hf as [Hfb Hfl'].
  destruct Hp as (? & Hic & Hoc & ? & ? & ? & Hpl & ? & ? & ? & ?).
  rewrite <- Hpre in *. cbn in Hic, Hoc, Hpl. cbn [d_global d_inputs d_outputs d_trailers]. rewrite length_seqZ in Hni, Hno. unfold u32_ok, byte_ok in Hic, Hoc.
  split; [split; [|done]|split; [|by rewrite Hfl]].
  - split; [|split_and!; try done; cbn; unfold blen; lia].
    unfold valid_global, typed_global. cbn in *. rewrite Hfl. unfold u32_max, u32_ok in *. split_and!; try done; lia.
  - unfold doc_bytes. cbn [d_global d_inputs d_outputs d_trailers]. rewrite Hfl, global_bytes_split. app_eq.
Qed.

(** Decoding replays a valid document: whatever the consumer's sink does,
    [decode] on the document's bytes makes exactly the document's calls, in
    order, each with the decoded values; it stops at the first call that
    fails, with the sink's own error and state, and otherwise returns the
    document's flags. *)
Theorem decode_replays limits d t :
  valid_doc limits d -> blen (doc_bytes d) <= usize_max ->
  decode (T:=T) (E:=E) (doc_bytes d) limits t =
    match for_each (doc_events d) deliver t with
    | (Ok _, t') => (Ok {| env_flags := g_flags (d_global d) |}, t')
    | (Err e, t') => (Err (Sink e), t')
    end.
Proof.
  intros Hv Hu. unfold decode. destruct (envelope_decodes limits d t Hv Hu) as (r' & ->).
  by destruct (for_each (doc_events d) deliver t) as [[u|e] t'].
Qed.

(** The decoder accepts only canonical documents: if any consumer's decode
    succeeds, the data are, byte for byte and with nothing left over, the
    encoding of a document that is valid under the limits, and the returned
    flags are its flags. *)
Theorem decode_canonical limits data t t' envelope :
  bytes_ok data -> blen data <= usize_max -> max_payload limits <= u32_max ->
  decode (T:=T) (E:=E) data limits t = (Ok envelope, t') ->
  exists d, valid_doc limits d /\ data = doc_bytes d /\ env_flags envelope = g_flags (d_global d).
Proof.
  intros Hok Hu Hmax. unfold decode.
  destruct (decode_envelope limits (Reader.new data, t)) as [[flags|e] [r1 t1]] eqn:Henv; [|done].
  intros [= <- <-]. by eapply envelope_admits.
Qed.

End envelope.

(** C2: [validate] accepts exactly the encodings of the valid documents: the
    grammar of the documents and the language of the validator are the same
    set of byte strings. *)
Theorem validate_language limits data :
  bytes_ok data -> blen data <= usize_max -> max_payload limits <= u32_max ->
  (exists envelope, validate data limits = Ok envelope) <-> exists d, valid_doc limits d /\ data = doc_bytes d.
Proof.
  intros Hok Hu Hmax. unfold validate, decode. split.
  - intros [envelope H0]. destruct (decode_envelope limits (Reader.new data, tt)) as [[flags|[e|[]]] [r1 t1]] eqn:Henv; [|done].
    apply envelope_admits in Henv as (d & Hd & -> & _); [|done..]. by exists d.
  - intros (d & Hd & ->). destruct (envelope_decodes (T:=unit) (E:=Empty_set) limits d tt Hd Hu) as (r' & ->).
    rewrite null_deliver. by eexists.
Qed.
