(* ===== verification/KsptRoundTrip.v ===== *)
(** * KSPT v1: the two directions together

    Encoding a model and decoding the result replays the model, and the one
    document kind that separates the two directions. *)

From S2P Require Import Prelude KsptModel KsptWire KsptDoc KsptEncode KsptDecode.
Import Encode Decode.

(** A transaction with one input and one output, one signature, and a
    covenant on the output whose authorizing input is a parameter. *)
Definition example_input : Input := {|
  previous_tx_id := replicate 32 7; previous_index := 1; in_amount := 5000; sequence := 0;
  sig_op_count := 1; in_script_version := 0; in_script := replicate 34 9 |}.
Definition example_signature : Signature :=
  {| sig_position := 3; sighash := 1; sig_bytes := replicate 64 5 |}.
Definition example_output : Output := {| out_amount := 4000; out_script_version := 0; out_script := replicate 300 2 |}.

#[global] Instance ExampleSource : EncodeSource Z := {|
  global _ := {| g_flags := 1; g_version := 1; g_input_count := 1; g_output_count := 1; g_locktime := 77;
                 g_subnetwork_id := replicate 20 0; g_gas := 0; g_payload := [1; 2; 3] |};
  input _ _ := example_input;
  signature_count _ _ := 1;
  signature _ _ _ := example_signature;
  redeem _ _ := [0x51];
  output _ _ := example_output;
  network _ := 1;
  stealth _ := Some (replicate 32 1);
  input_derivation _ _ := Some {| branch := 1; d_index := 12 |};
  output_derivation _ _ := None;
  input_ms45 _ _ := None;
  output_ms45 _ _ := None;
  covenant authorizing _ := Some {| authorizing_input := authorizing; covenant_id := replicate 32 8 |};
  covenant_execution _ _ := None |}.

Section round_trip.
Context {S : Type} `{EncodeSource S}.

(** C1: what [encode] writes for a model, and what [decode] makes of it under
    the same limits. When every covenant of the model names an input of the
    transaction, decoding succeeds, returns the model's flags and makes exactly
    the calls of the model's document. The encoder does not check that, the
    decoder does: otherwise decoding fails with [InvalidTrailer] after exactly
    the calls that come before the first unauthorized covenant. *)
Theorem kspt_round_trip (source : S) (limits : Limits) (out out' : list Z) (n : Z) :
  typed_source source -> blen out <= usize_max -> encode source out limits = (Ok n, out') ->
  let d := doc_of source in
  let inputs := g_input_count (global source) in
  decode (T:=list Event) (E:=Empty_set) (take (Z.to_nat n) out') limits [] =
    if decide (Forall (authorized inputs) (d_trailers d))
    then (Ok {| env_flags := g_flags (global source) |}, doc_events d)
    else (Err (Wire InvalidTrailer), body_events d ++ map ETrailer (authorized_prefix inputs (d_trailers d))).
Proof.
  intros Ht Hu Henc d inputs. subst d inputs.
  destruct (encode_has_outcome source limits Ht) as [[Hdoc Hout]|[_ (k & e & _ & Hout)]].
  2:{ destruct (Hout out Hu) as (out1 & Heq). rewrite Heq in Henc. done. }
  specialize (Hout out Hu). destruct (Z.leb_spec (blen (doc_bytes (doc_of source))) (blen out)) as [Hle|].
  2:{ destruct Hout as (out1 & Heq & _). rewrite Heq in Henc. done. }
  rewrite Hout in Henc. apply pair_equal_spec in Henc as [[= <-] <-].
  replace (Z.to_nat (blen (doc_bytes (doc_of source)))) with (length (doc_bytes (doc_of source))) by (unfold blen; lia).
  rewrite take_app_length. unfold decode. case_decide as Hauth.
  - destruct (envelope_decodes (T:=list Event) (E:=Empty_set) limits (doc_of source) []) as (r' & Hrun); [split; assumption|lia|].
    by rewrite Hrun, trace_deliver.
  - destruct (envelope_refuses (T:=list Event) (E:=Empty_set) limits (doc_of source) []) as (r' & Hrun); [done|done|lia|].
    by rewrite Hrun, trace_deliver.
Qed.

End round_trip.

(** The bytes of a valid document determine it: the replay of any two valid
    documents with the same bytes is the same list of calls. *)
Lemma doc_bytes_events limits d d' :
  valid_doc limits d -> valid_doc limits d' -> blen (doc_bytes d) <= usize_max ->
  doc_bytes d = doc_bytes d' -> doc_events d = doc_events d'.
Proof.
  intros Hd Hd' Hu Heq.
  destruct (envelope_decodes (T:=list Event) (E:=Empty_set) limits d [] Hd Hu) as (r1 & H1).
  destruct (envelope_decodes (T:=list Event) (E:=Empty_set) limits d' [] Hd') as (r2 & H2); [by rewrite <- Heq|].
  rewrite Heq, H2, !trace_deliver in H1. cbn [app] in H1. congruence.
Qed.

Lemma example_values :
  typed_input example_input /\ typed_signature example_signature /\ typed_output example_output /\
  typed_global (global (S:=Z) 0) /\ bytes_of 32 (replicate 32 1) /\ bytes_of 32 (replicate 32 8) /\ byte_ok 1.
Proof. unfold typed_input, typed_signature, typed_output, typed_global, bytes_of. by_decide. Qed.

Lemma example_typed a : u16_ok a -> typed_source a.
Proof.
  intros Ha. destruct example_values as (? & ? & ? & ? & ? & ? & ?). unfold typed_source. cbn -[replicate].
  split_and!; [done..| | |done|by intros ? [= <-]].
  - intros i _. split_and!; try done; [by_decide|]. intros ? [= <-]. by_decide.
  - intros i _. split_and!; try done. by intros ? [= <-].
Qed.

(** The bytes the encoder makes of the example (none when it fails). *)
Definition example_bytes (authorizing : Z) : list Z :=
  match encode_vec authorizing grammar with Some (Ok bytes) => bytes | _ => [] end.

(** The encoder accepts a covenant whose authorizing input is not an input
    of the transaction, and the decoder rejects the document it writes. *)
Theorem encode_unauthorized_covenant :
  encode_vec (S:=Z) 9 grammar = Some (Ok (example_bytes 9)) /\ blen (example_bytes 9) = 607 /\
  validate (example_bytes 9) grammar = Err InvalidTrailer.
Proof. split_and!; vm_compute; reflexivity. Qed.

(** ** Instances of the theorems of this format *)

Lemma example_encodable : encodable_doc grammar (doc_of 0).
Proof.
  destruct (encode_has_outcome (S:=Z) 0 grammar (example_typed 0 ltac:(by_decide))) as [[Hd _]|[_ (n & e & He & Hout)]]; [done|].
  destruct (Hout (replicate 700 0) ltac:(by_decide)) as (out' & Heq).
  assert (Hok : is_ok (fst (encode (S:=Z) 0 (replicate 700 0) grammar)) = true) by (vm_compute; reflexivity).
  by rewrite Heq in Hok.
Qed.

Lemma example_valid : valid_doc grammar (doc_of 0).
Proof.
  split; [apply example_encodable|]. cbn -[replicate]. repeat constructor.
Qed.

Lemma encode_refines_grammar_witness : encode_outcome (S:=Z) 0 grammar.
Proof. apply encode_refines_grammar. apply example_typed. by_decide. Defined.

Lemma encode_vec_total_witness :
  (encodable_doc grammar (doc_of 0) -> encode_vec (S:=Z) 0 grammar = Some (Ok (doc_bytes (doc_of 0)))) /\
  (~ encodable_doc grammar (doc_of 0) -> exists e, encode_vec (S:=Z) 0 grammar = Some (Err e)).
Proof. apply encode_vec_total; [apply example_typed; by_decide|by_decide]. Defined.

Lemma decode_replays_witness :
  decode (T:=list Event) (E:=Empty_set) (doc_bytes (doc_of 0)) grammar [] =
    match for_each (doc_events (doc_of 0)) deliver [] with
    | (Ok _, t') => (Ok {| env_flags := g_flags (d_global (doc_of 0)) |}, t')
    | (Err e, t') => (Err (Sink e), t')
    end.
Proof. apply (decode_replays (T:=list Event) (E:=Empty_set) grammar (doc_of 0) []); [apply example_valid|by_decide]. Defined.

Lemma decode_canonical_witness :
  exists d, valid_doc grammar d /\ example_bytes 0 = doc_bytes d /\ 1 = g_flags (d_global d).
Proof.
  apply (decode_canonical (T:=unit) (E:=Empty_set) grammar (example_bytes 0) tt tt {| env_flags := 1 |});
    [by_decide|by_decide|by_decide|vm_compute; reflexivity].
Defined.

Lemma validate_language_witness :
  (exists envelope, validate (example_bytes 0) grammar = Ok envelope) <->
  exists d, valid_doc grammar d /\ example_bytes 0 = doc_bytes d.
Proof. apply validate_language; by_decide. Defined.

Lemma kspt_round_trip_witness :
  decode (T:=list Event) (E:=Empty_set) (take (Z.to_nat 607) (doc_bytes (doc_of 0) ++ replicate 93 0)) grammar [] =
    (Ok {| env_flags := g_flags (global (S:=Z) 0) |}, doc_events (doc_of 0)) /\
  decode (T:=list Event) (E:=Empty_set) (take (Z.to_nat 607) (doc_bytes (doc_of 9) ++ replicate 93 0)) grammar [] =
    (Err (Wire InvalidTrailer), body_events (doc_of 9) ++ [ETrailer (TNetwork 1); ETrailer (TStealth (replicate 32 1))]).
Proof.
  split.
  - etrans; [apply (kspt_round_trip (S:=Z) 0 grammar (replicate 700 0) (doc_bytes (doc_of 0) ++ replicate 93 0) 607);
      [apply example_typed; by_decide|by_decide|vm_compute; reflexivity]|].
    rewrite decide_True; [reflexivity|apply example_valid].
  - etrans; [apply (kspt_round_trip (S:=Z) 9 grammar (replicate 700 0) (doc_bytes (doc_of 9) ++ replicate 93 0) 607);
      [apply example_typed; by_decide|by_decide|vm_compute; reflexivity]|].
    rewrite decide_False; [reflexivity|]. intros Hall. by pose proof (Forall_lookup_1 _ _ 2%nat _ Hall eq_refl).
Defined.
