(* ===== verification/Amounts.v ===== *)
(** * Monetary arithmetic of the transaction builder

    The dust rule, checked totals, KIP-9 storage mass and change computation of
    [src/src/transaction/builder/planning/amounts.rs] and [change.rs]. Amounts
    are [u64] values; every addition and multiplication the code checks is
    checked here, and the error texts are constructors of [BuildError]. *)

From S2P Require Import Prelude Address.

(** The two labels that [format!("{kind} ...")] receives. *)
Inductive EntryKind := OutputEntry | InputEntry.

(** The [Err(String)] values of the transaction builder, one constructor per
    message, with the values the message prints. *)
Inductive BuildError :=
  | AmountPlusFeeOverflow
  | AmountTotalOverflow
  | PluralityOverflow (kind : EntryKind)
  | StorageMassOverflow (kind : EntryKind)
  | StorageTermOverflow (kind : EntryKind)
  | InputAmountOverflow
  | ArithmeticMassOverflow
  | SpendPlusFeeOverflow
  | SelectedTooSmall (selected_total required : Z)
  | UtxoTotalOverflow
  | SelectionLimitZero
  | InsufficientFunds (max_inputs available required : Z)
  | NothingToConsolidate (count : Z)
  | DuplicateIndex (index : Z)
  | IndexOutOfRange (index have : Z)
  | TooManyMultisigInputs (count : Z)
  | NoChangeAddress
  | ChangeIndexOverflow
  | BalanceTooLow
  | NoReceiveAddress
  | AddressFailure (error : AddressError)
  | AmountZero
  | AmountTooSmall (amount : Z)
  | NoUtxos
  | BelowPayment
  | MissingScriptLength
  | StorageFeeOverflow
  | FeeNotConverged
  | InsufficientForMassFees (available minimum_required : Z)
  | MassFailure (what : list Z)
  | InsufficientKip22 (total required : Z).

Definition STORAGE_MASS_C : Z := 1000000000000.
Definition MAX_STANDARD_MASS : Z := 100000.
Definition DUST_THRESHOLD : Z := 20000000.

Definition is_dust (amount : Z) : bool :=
  if amount =? 0 then true
  else if DUST_THRESHOLD <=? amount then false
  else MAX_STANDARD_MASS <? STORAGE_MASS_C / amount.

Definition checked_required (amount fee : Z) : result Z BuildError :=
  ok_or (checked_add amount fee) AmountPlusFeeOverflow.

Definition checked_sum (values : list Z) : result Z BuildError :=
  try_fold (fun total value => ok_or (checked_add total value) AmountTotalOverflow) 0 values.

(** Script lengths are lengths of allocated vectors, so the [usize] sum stays
    far below its range. *)
Definition utxo_plurality (script_len : Z) (has_covenant_id : bool) : Z :=
  let covenant_bytes := if has_covenant_id then 32 else 0 in
  div_ceil (63 + script_len + covenant_bytes) 100.

(** A cell is an amount with its plurality. *)
Abbreviation Cell := (Z * Z)%type.

Definition plurality_total (entries : list Cell) (kind : EntryKind) : result Z BuildError :=
  try_fold (fun total entry => ok_or (checked_add total entry.2) (PluralityOverflow kind)) 0 entries.

Definition storage_mass_term (amount plurality : Z) (kind : EntryKind) : result Z BuildError :=
  ok_or (value ← checked_mul STORAGE_MASS_C plurality;
         weighted ← checked_mul value plurality;
         Some (weighted / Z.max amount 1))
        (StorageTermOverflow kind).

Definition harmonic_mass (entries : list Cell) (kind : EntryKind) : result Z BuildError :=
  try_fold (fun total entry =>
    let? term := storage_mass_term entry.1 entry.2 kind in
    ok_or (checked_add total term) (StorageMassOverflow kind)) 0 entries.

Definition uses_relaxed_storage_mass (inputs_plurality outputs_plurality : Z) : bool :=
  (inputs_plurality =? 1) || (outputs_plurality =? 1)
  || ((inputs_plurality =? 2) && (outputs_plurality =? 2)).

Definition arithmetic_input_mass (ins : list Cell) (inputs_plurality : Z) : result Z BuildError :=
  let? input_sum :=
    match checked_sum (map fst ins) with Ok sum => Ok sum | Err _ => Err InputAmountOverflow end in
  let mean_input := Z.max (input_sum / Z.max inputs_plurality 1) 1 in
  ok_or (checked_mul inputs_plurality (STORAGE_MASS_C / mean_input)) ArithmeticMassOverflow.

Definition storage_mass_estimate (ins outs : list Cell) : result Z BuildError :=
  let? outputs_plurality := plurality_total outs OutputEntry in
  let? inputs_plurality := plurality_total ins InputEntry in
  let? harmonic_outputs := harmonic_mass outs OutputEntry in
  let? input_mass :=
    if uses_relaxed_storage_mass inputs_plurality outputs_plurality
    then harmonic_mass ins InputEntry
    else arithmetic_input_mass ins inputs_plurality in
  Ok (saturating_sub harmonic_outputs input_mass).

(** [change.rs] *)
Definition calculate_change (selected_total spend_total fee : Z) : result Z BuildError :=
  let? required := ok_or (checked_add spend_total fee) SpendPlusFeeOverflow in
  let? change := ok_or (checked_sub selected_total required) (SelectedTooSmall selected_total required) in
  Ok (if is_dust change then 0 else change).

(** * Theorems *)

Lemma is_dust_iff amount : u64_ok amount -> is_dust amount = true <-> amount <= 9999900.
Proof.
  unfold is_dust, u64_ok, DUST_THRESHOLD, MAX_STANDARD_MASS, STORAGE_MASS_C. intros ?.
  destruct (Z.eqb_spec amount 0); [split; [lia|done]|].
  destruct (Z.leb_spec 20000000 amount); [split; [done|lia]|].
  rewrite Z.ltb_lt. split; intros H1.
  - apply Z.le_ngt. intros H2.
    assert (1000000000000 / amount < 100001); [|lia]. apply Z.div_lt_upper_bound; lia.
  - assert (100001 <= 1000000000000 / amount); [|lia]. apply Z.div_le_lower_bound; lia.
Qed.

Lemma is_dust_false amount : u64_ok amount -> is_dust amount = false <-> 9999900 < amount.
Proof.
  intros H. pose proof (is_dust_iff amount H). destruct (is_dust amount); split; [done|lia|lia|done].
Qed.

Lemma checked_sum_Ok values r : checked_sum values = Ok r -> r = sum_by id values /\ u64_ok r.
Proof.
  intros H. apply (try_fold_sum_Ok _ id) in H as [-> Hr].
  - split; [done | apply Hr; done].
  - intros. by apply checked_add_Ok in H0.
Qed.

Lemma checked_sum_total values :
  Forall (fun v => 0 <= v) values -> sum_by id values <= u64_max -> checked_sum values = Ok (sum_by id values).
Proof.
  intros Hv Hs. unfold checked_sum. rewrite (try_fold_sum_total _ id); [done| |done|done|done].
  intros. by apply checked_add_total.
Qed.

(** The change computation conserves value: what is selected is exactly
    the payment, the fee, the change output and an amount given up only when
    it is dust; a change output is never dust; and the two errors are exactly
    the overflow of payment plus fee and a selection that does not cover it. *)
Theorem calculate_change_conserves (selected_total spend_total fee : Z) :
  u64_ok selected_total -> u64_ok spend_total -> u64_ok fee ->
  match calculate_change selected_total spend_total fee with
  | Ok change =>
      exists dropped, selected_total = spend_total + fee + change + dropped /\
        0 <= dropped <= 9999900 /\ (change = 0 \/ 9999900 < change /\ dropped = 0)
  | Err e =>
      e = SpendPlusFeeOverflow /\ u64_max < spend_total + fee \/
      e = SelectedTooSmall selected_total (spend_total + fee) /\ selected_total < spend_total + fee
  end.
Proof.
  intros Hs Hp Hf. unfold calculate_change, u64_ok, u64_max in *.
  destruct (checked_add spend_total fee) as [required|] eqn:Ha; cbn [ok_or rbind].
  2: { left. checked_inv. unfold u64_ok in *. split; [done|lia]. }
  checked_inv. subst.
  destruct (checked_sub selected_total (spend_total + fee)) as [change|] eqn:Hc; cbn [ok_or rbind].
  2: { right. checked_inv. unfold u64_ok in *. split; [done|lia]. }
  checked_inv. subst. destruct (is_dust _) eqn:Hd.
  - apply is_dust_iff in Hd; [|done]. unfold u64_ok in *.
    exists (selected_total - (spend_total + fee)). split_and!; [lia..|by left].
  - apply is_dust_false in Hd; [|done]. exists 0. split_and!; [lia..|by right].
Qed.

(** ** The KIP-9 formula on unbounded integers

    Stated from the proposal, not from the code: the constant is [10^12]; a
    cell of amount [a] and plurality [p] weighs [10^12 * p^2 / a]; the outputs
    count their weights; the inputs discount theirs when one side has
    plurality one or both sides have plurality two, and otherwise discount
    their plurality times [10^12] over their mean amount. Amounts and means
    below one count as one. *)
Definition kip9_term (entry : Cell) : Z := 10 ^ 12 * entry.2 ^ 2 / Z.max 1 entry.1.

Definition kip9_relaxed (ins outs : Z) : Prop := ins = 1 \/ outs = 1 \/ ins = 2 /\ outs = 2.

Definition kip9_mean (ins : list Cell) : Z := Z.max 1 (sum_by fst ins / Z.max 1 (sum_by snd ins)).

Definition kip9_input_mass (ins : list Cell) (outputs_plurality : Z) : Z :=
  if decide (kip9_relaxed (sum_by snd ins) outputs_plurality)
  then sum_by kip9_term ins
  else sum_by snd ins * (10 ^ 12 / kip9_mean ins).

Definition kip9_storage_mass (ins outs : list Cell) : Z :=
  Z.max 0 (sum_by kip9_term outs - kip9_input_mass ins (sum_by snd outs)).

(** The code takes the relaxed branch exactly when the proposal does. *)
Lemma uses_relaxed_if {A} (relaxed strict : A) (ins outs : Z) :
  (if uses_relaxed_storage_mass ins outs then relaxed else strict)
  = if decide (kip9_relaxed ins outs) then relaxed else strict.
Proof.
  unfold uses_relaxed_storage_mass, kip9_relaxed.
  destruct (Z.eqb_spec ins 1), (Z.eqb_spec outs 1), (Z.eqb_spec ins 2), (Z.eqb_spec outs 2);
    cbn [orb andb]; case_decide; naive_solver lia.
Qed.

(** The code's weight of a cell and mean are the proposal's. *)
Lemma kip9_term_code v p : kip9_term (v, p) = STORAGE_MASS_C * p * p / Z.max v 1.
Proof. unfold kip9_term. cbn [fst snd]. rewrite (Z.max_comm 1 v), <- Z.mul_assoc, <- Z.pow_2_r. reflexivity. Qed.

Lemma kip9_mean_code ins : kip9_mean ins = Z.max (sum_by fst ins / Z.max (sum_by snd ins) 1) 1.
Proof. unfold kip9_mean. by rewrite (Z.max_comm 1 (sum_by snd ins)), Z.max_comm. Qed.

Definition cell_ok (entry : Cell) : Prop := u64_ok entry.1 /\ u64_ok entry.2.

(** The squared pluralities of a list whose harmonic mass cannot overflow,
    whatever the amounts: 18,446,744 units, where a transaction under the
    mass limits has a few thousand. *)
Definition squares_bounded (entries : list Cell) : Prop :=
  sum_by (fun entry => entry.2 * entry.2) entries <= 18446744.

Lemma plurality_total_Ok entries kind p : plurality_total entries kind = Ok p -> p = sum_by snd entries.
Proof. intros H. apply (try_fold_sum_Ok _ snd) in H as [-> _]; [done|]. intros. by apply checked_add_Ok in H0. Qed.

Lemma plurality_total_total entries kind :
  Forall cell_ok entries -> squares_bounded entries -> plurality_total entries kind = Ok (sum_by snd entries).
Proof.
  intros Hok Hsq. unfold plurality_total. rewrite (try_fold_sum_total _ snd); [done| | |done|].
  - intros. by apply checked_add_total.
  - eapply Forall_impl; [exact Hok|]. intros ? [? H]. apply H.
  - unfold squares_bounded in Hsq. etransitivity; [|transitivity 18446744; [exact Hsq | done]].
    rewrite Z.add_0_l. apply sum_by_le. eapply Forall_impl; [exact Hok|].
    intros [v p] [_ Hp]. unfold u64_ok in Hp. cbn in *. nia.
Qed.

Lemma storage_mass_term_Ok v p kind t : storage_mass_term v p kind = Ok t -> t = kip9_term (v, p).
Proof.
  unfold storage_mass_term. intros H. apply ok_or_Ok in H.
  destruct (checked_mul STORAGE_MASS_C p) as [a|] eqn:Ha; cbn in H; [|done].
  destruct (checked_mul a p) as [b|] eqn:Hb; cbn in H; [|done].
  checked_inv. subst. injection H as <-. by rewrite kip9_term_code.
Qed.

Lemma storage_mass_term_total v p kind :
  u64_ok p -> p * p <= 18446744 -> storage_mass_term v p kind = Ok (kip9_term (v, p)).
Proof.
  intros Hp Hsq. rewrite kip9_term_code. unfold storage_mass_term, checked_mul, STORAGE_MASS_C, u64_ok in *.
  rewrite (checked_u64_id (1000000000000 * p)) by (unfold u64_ok; nia). cbn.
  by rewrite (checked_u64_id (1000000000000 * p * p)) by (unfold u64_ok; nia).
Qed.

Lemma kip9_term_bound e : cell_ok e -> 0 <= kip9_term e <= STORAGE_MASS_C * (e.2 * e.2).
Proof.
  destruct e as [v p]. intros [Hv Hp]. rewrite kip9_term_code. unfold u64_ok, STORAGE_MASS_C in *. cbn in *.
  assert (0 <= 1000000000000 * p * p) by nia. split.
  - apply Z.div_pos; lia.
  - etransitivity; [apply Z.div_le_upper_bound with (q := 1000000000000 * p * p); nia | nia].
Qed.

Lemma harmonic_mass_Ok entries kind m : harmonic_mass entries kind = Ok m -> m = sum_by kip9_term entries /\ u64_ok m.
Proof.
  intros H. apply (try_fold_sum_Ok _ kip9_term) in H as [-> H]; [split; [done | by apply H]|].
  intros t [v p] t' Ht. apply rbind_Ok_inv in Ht as (a & Ha & Ht).
  apply storage_mass_term_Ok in Ha as ->. by apply checked_add_Ok in Ht.
Qed.

Lemma squares_nonneg entries : 0 <= sum_by (fun entry : Cell => entry.2 * entry.2) entries.
Proof. apply sum_by_nonneg, Forall_forall. intros ? _. apply Z.square_nonneg. Qed.

Lemma harmonic_mass_total entries kind :
  Forall cell_ok entries -> squares_bounded entries -> harmonic_mass entries kind = Ok (sum_by kip9_term entries).
Proof.
  intros Hok Hsq. unfold squares_bounded, harmonic_mass in *.
  assert (Hmul : sum_by (fun e : Cell => STORAGE_MASS_C * (e.2 * e.2)) entries
    = STORAGE_MASS_C * sum_by (fun e => e.2 * e.2) entries).
  { clear. induction entries as [|e l IH]; [by rewrite !sum_by_nil|]. rewrite !sum_by_cons, IH. lia. }
  rewrite (try_fold_sum_total _ kip9_term); [done| | |done|].
  - intros t [v p] Hin Ht Hsum.
    assert (Hp : u64_ok p) by (rewrite Forall_forall in Hok; by destruct (Hok _ Hin)).
    rewrite storage_mass_term_total; [by apply checked_add_total | done |].
    apply list_elem_of_In, in_split in Hin as (l1 & l2 & ->).
    rewrite sum_by_app, sum_by_cons in Hsq. cbv beta in Hsq. cbn [fst snd] in *.
    pose proof (squares_nonneg l1). pose proof (squares_nonneg l2). lia.
  - eapply Forall_impl; [exact Hok|]. intros. by apply kip9_term_bound.
  - rewrite Z.add_0_l. etransitivity; [apply (sum_by_le _ (fun e : Cell => STORAGE_MASS_C * (e.2 * e.2)))|].
    + eapply Forall_impl; [exact Hok|]. intros. by apply kip9_term_bound.
    + rewrite Hmul. unfold STORAGE_MASS_C, u64_max. lia.
Qed.

(** The input side of the formula, exact whenever it is computed at all. *)
Lemma input_mass_Ok ins op m :
  (if uses_relaxed_storage_mass (sum_by snd ins) op
   then harmonic_mass ins InputEntry else arithmetic_input_mass ins (sum_by snd ins)) = Ok m ->
  m = kip9_input_mass ins op.
Proof.
  unfold kip9_input_mass. rewrite uses_relaxed_if. case_decide as Hrelaxed.
  - by intros [-> _]%harmonic_mass_Ok.
  - unfold arithmetic_input_mass. intros (s & Hs & H)%rbind_Ok_inv.
    destruct (checked_sum (map fst ins)) as [s'|] eqn:E; [|done]. injection Hs as ->.
    apply checked_sum_Ok in E as [-> _]. rewrite sum_by_map in H. apply ok_or_Ok in H. rewrite kip9_mean_code. by checked_inv.
Qed.

Lemma arithmetic_input_mass_total ins :
  Forall cell_ok ins -> squares_bounded ins -> sum_by fst ins <= u64_max ->
  arithmetic_input_mass ins (sum_by snd ins)
  = Ok (sum_by snd ins * (10 ^ 12 / kip9_mean ins)).
Proof.
  intros Hok Hsq Hsum. rewrite kip9_mean_code. change (10 ^ 12) with STORAGE_MASS_C. unfold arithmetic_input_mass.
  rewrite checked_sum_total; rewrite ?sum_by_map; [cbn [rbind]|..|done].
  2: { rewrite Forall_map. eapply Forall_impl; [exact Hok|]. intros ? [Hv _]. apply Hv. }
  change (sum_by (fun x => id x.1) ins) with (sum_by fst ins).
  apply ok_or_Ok, checked_u64_id. set (mean := Z.max _ 1).
  assert (0 <= STORAGE_MASS_C / mean <= STORAGE_MASS_C).
  { unfold STORAGE_MASS_C. subst mean. split; [apply Z.div_pos; lia|].
    apply Z.div_le_upper_bound; lia. }
  assert (0 <= sum_by snd ins <= 18446744).
  { split; [apply sum_by_nonneg; eapply Forall_impl; [exact Hok|]; intros ? [_ H']; apply H'|].
    unfold squares_bounded in Hsq. etransitivity; [|exact Hsq]. apply sum_by_le.
    eapply Forall_impl; [exact Hok|]. intros [v p] [_ Hp]. unfold u64_ok in Hp. cbn in *. nia. }
  unfold u64_ok, STORAGE_MASS_C in *. nia.
Qed.

(** C34: the storage-mass estimate, when it returns a mass, returns exactly the
    KIP-9 formula on unbounded integers, floored at zero: the constant, the
    weights and the rule that chooses how inputs count are the proposal's, as
    [kip9_storage_mass] states them without the code's functions. For every
    transaction with at most 18,446,744 squared plurality units a side and
    input amounts that sum to a [u64], it does return one. *)
Theorem storage_mass_estimate_spec (ins outs : list Cell) :
  Forall cell_ok ins -> Forall cell_ok outs ->
  (forall m, storage_mass_estimate ins outs = Ok m -> m = kip9_storage_mass ins outs /\ u64_ok m) /\
  (squares_bounded ins -> squares_bounded outs -> sum_by fst ins <= u64_max ->
   storage_mass_estimate ins outs = Ok (kip9_storage_mass ins outs)).
Proof.
  intros Hins Houts. split.
  - intros m H. unfold storage_mass_estimate in H. comp_inv.
    repeat match goal with
    | H : plurality_total _ _ = Ok _ |- _ => apply plurality_total_Ok in H as ->
    | H : harmonic_mass outs _ = Ok _ |- _ => apply harmonic_mass_Ok in H as [-> ?]
    | H : (if _ then _ else _) = Ok _ |- _ => apply input_mass_Ok in H as ->
    end.
    assert (0 <= kip9_input_mass ins (sum_by snd outs)).
    { unfold kip9_input_mass. case_decide.
      - apply sum_by_nonneg. eapply Forall_impl; [exact Hins|]. intros. by apply kip9_term_bound.
      - apply Z.mul_nonneg_nonneg.
        + apply sum_by_nonneg. eapply Forall_impl; [exact Hins|]. intros ? [_ H']. apply H'.
        + apply Z.div_pos; [done|]. unfold kip9_mean. lia. }
    split; [done|]. unfold saturating_sub, u64_ok in *. lia.
  - intros Hsi Hso Hsum. unfold storage_mass_estimate.
    rewrite !plurality_total_total, harmonic_mass_total by assumption. cbn [rbind].
    unfold kip9_storage_mass, kip9_input_mass, saturating_sub.
    rewrite uses_relaxed_if. case_decide.
    + rewrite harmonic_mass_total by assumption. reflexivity.
    + rewrite arithmetic_input_mass_total by assumption. reflexivity.
Qed.

(** ** Witnesses *)

Lemma calculate_change_conserves_witness :
  (calculate_change 100000000 60000000 300000 = Ok 39700000) /\
  exists dropped, 100000000 = 60000000 + 300000 + 39700000 + dropped.
Proof.
  assert (H : u64_ok 100000000 /\ u64_ok 60000000 /\ u64_ok 300000) by by_decide.
  destruct H as (H1 & H2 & H3).
  pose proof (calculate_change_conserves 100000000 60000000 300000 H1 H2 H3) as H.
  assert (E : calculate_change 100000000 60000000 300000 = Ok 39700000) by reflexivity.
  split; [exact E|]. rewrite E in H. destruct H as (dropped & H & _). exists dropped. exact H.
Defined.

Lemma storage_mass_estimate_spec_witness :
  storage_mass_estimate [(500000000, 1); (300000000, 1)] [(600000000, 1); (150000000, 2); (49000000, 1)]
  = Ok (kip9_storage_mass [(500000000, 1); (300000000, 1)] [(600000000, 1); (150000000, 2); (49000000, 1)]).
Proof.
  apply storage_mass_estimate_spec;
    [by repeat constructor | by repeat constructor | unfold squares_bounded; vm_compute; discriminate ..
    | vm_compute; discriminate].
Defined.
