(* ===== verification/Transaction.v ===== *)
(** * Authorized and consensus transactions

    The typed authorization result, its witness materialization and the
    consensus transaction built from it:
    [transaction/interchange/pskt/pipeline/verified.rs], [verified/witness.rs],
    [pipeline/consensus.rs], [pskt/scripts/common.rs] and
    [transaction/consensus/model.rs]. Getters are the record projections. *)

From S2P Require Import Prelude Script Address Amounts.

(** ** [pipeline/verified.rs] *)

Record VerifiedSignature := { position : Z; sighash : Z; bytes : list Z }.

Inductive VerifiedCovenantRoute :=
  | PrivateSwapClaim | OracleV1Claim | CommitRevealClaim | MerkleClaim.

Inductive VerifiedWitnessItem :=
  | Selector (value : bool)
  | Signature (signature : VerifiedSignature).

Inductive VerifiedWitnessPlan :=
  | P2pkWitness (signature : VerifiedSignature)
  | MultisigWitness (threshold : Z) (signatures : list VerifiedSignature) (redeem_script : list Z)
  | CovenantWitness (witness : list VerifiedWitnessItem) (redeem_script : list Z)
      (supplied_mask supplied_true_mask : Z)
  | SpecializedWitness (route : VerifiedCovenantRoute) (signature_script : list Z)
      (supplied_mask supplied_true_mask : Z).

Record VerifiedInput := {
  vi_previous_tx_id : list Z;
  vi_previous_index : Z;
  vi_amount : Z;
  vi_sequence : Z;
  vi_sig_op_count : Z;
  vi_script_version : Z;
  vi_script_public_key : list Z;
  vi_has_covenant_id : bool;
  vi_witness : VerifiedWitnessPlan;
}.

Record VerifiedOutput := {
  vo_amount : Z;
  vo_script_version : Z;
  vo_script_public_key : list Z;
  vo_covenant : option (Z * list Z);
}.

Record VerifiedTransaction := {
  vt_version : Z;
  vt_locktime : Z;
  vt_subnetwork_id : list Z;
  vt_gas : Z;
  vt_payload : list Z;
  vt_inputs : list VerifiedInput;
  vt_outputs : list VerifiedOutput;
}.

(** ** [verified/witness.rs]

    A [&mut Vec<u8>] script is threaded as an argument and a result. *)

Module Witness.

Inductive WitnessError :=
  | DataItemTooLarge
  | UnsupportedSighash
  | CardinalityChanged
  | SelectorPlanInvalid.

Definition SIGHASH_ALL : Z := 1.

Definition push_data_item (script data : list Z) : result (list Z) WitnessError :=
  if u16_max <? blen data then Err DataItemTooLarge else Ok (push_data script data).

Definition push_schnorr_signature (script bytes : list Z) (sighash : Z) : result (list Z) WitnessError :=
  if negb (sighash =? SIGHASH_ALL) then Err UnsupportedSighash
  else Ok (script ++ [65] ++ bytes ++ [sighash]).

Definition push_signature (script : list Z) (signature : VerifiedSignature) : result (list Z) WitnessError :=
  push_schnorr_signature script (bytes signature) (sighash signature).

Definition materialize_p2pk (signature : VerifiedSignature) : result (list Z) WitnessError :=
  push_signature [] signature.

Definition materialize_multisig (threshold : Z) (signatures : list VerifiedSignature)
    (redeem_script : list Z) : result (list Z) WitnessError :=
  if negb (blen signatures =? threshold) then Err CardinalityChanged
  else
    let? script := try_fold push_signature [] signatures in
    push_data_item script redeem_script.

Definition push_item (script : list Z) (item : VerifiedWitnessItem) : result (list Z) WitnessError :=
  match item with
  | Selector value => Ok (script ++ [if value then 0x51 else 0x00])
  | Signature signature => push_signature script signature
  end.

Definition materialize_covenant (witness : list VerifiedWitnessItem) (redeem_script : list Z)
  : result (list Z) WitnessError :=
  let? script := try_fold push_item [] (reverse witness) in
  push_data_item script redeem_script.

Definition materialize_specialized (signature_script : list Z) (supplied_mask supplied_true_mask : Z)
  : result (list Z) WitnessError :=
  if negb (Z.land supplied_true_mask (Z.lxor supplied_mask u16_max) =? 0) then Err SelectorPlanInvalid
  else Ok signature_script.

Definition materialize_signature_script (plan : VerifiedWitnessPlan) : result (list Z) WitnessError :=
  match plan with
  | P2pkWitness signature => materialize_p2pk signature
  | MultisigWitness threshold signatures redeem_script =>
      materialize_multisig threshold signatures redeem_script
  | CovenantWitness witness redeem_script _ _ => materialize_covenant witness redeem_script
  | SpecializedWitness _ signature_script supplied_mask supplied_true_mask =>
      materialize_specialized signature_script supplied_mask supplied_true_mask
  end.

End Witness.

(** ** [transaction/consensus/model.rs] *)

Record ConsensusInput := {
  ci_prev_tx_id : list Z;
  ci_prev_index : Z;
  ci_sig_script : list Z;
  ci_sequence : Z;
  ci_sig_op_count : Z;
}.

Record ConsensusOutput := {
  co_value : Z;
  co_spk_version : Z;
  co_spk_script : list Z;
  co_covenant : option (Z * list Z);
}.

Inductive InputEncoding := Compact | Budgeted.

Record ConsensusTransaction := {
  ct_tx_version : Z;
  ct_input_encoding : InputEncoding;
  ct_inputs : list ConsensusInput;
  ct_outputs : list ConsensusOutput;
  ct_locktime : Z;
  ct_subnetwork_id : list Z;
  ct_gas : Z;
  ct_payload : list Z;
  ct_storage_mass : Z;
}.

(** [(amount, script public key length, has covenant id)]. *)
Abbreviation SpentUtxo := (Z * Z * bool)%type.

Definition storage_mass_for (inputs : list SpentUtxo) (outputs : list ConsensusOutput)
  : result Z BuildError :=
  let input_cells := map (fun '(amount, script_len, covenant) =>
    (amount, utxo_plurality script_len covenant)) inputs in
  let output_cells := map (fun output =>
    (co_value output,
     utxo_plurality (blen (co_spk_script output)) (bool_decide (is_Some (co_covenant output))))) outputs in
  storage_mass_estimate input_cells output_cells.

(** ** [pipeline/consensus.rs] *)

Inductive ConsensusError :=
  | WitnessFailed (error : Witness.WitnessError)
  | StorageFailed (error : BuildError)
  | AmountOverflow (kind : EntryKind)
  | OutputsExceedInputs.

Definition consensus_input (input : VerifiedInput) : result ConsensusInput ConsensusError :=
  match Witness.materialize_signature_script (vi_witness input) with
  | Err e => Err (WitnessFailed e)
  | Ok sig_script => Ok {|
      ci_prev_tx_id := vi_previous_tx_id input;
      ci_prev_index := vi_previous_index input;
      ci_sig_script := sig_script;
      ci_sequence := vi_sequence input;
      ci_sig_op_count := vi_sig_op_count input;
    |}
  end.

Definition consensus_output (output : VerifiedOutput) : ConsensusOutput := {|
  co_value := vo_amount output;
  co_spk_version := vo_script_version output;
  co_spk_script := vo_script_public_key output;
  co_covenant := vo_covenant output;
|}.

Definition spent_utxo (input : VerifiedInput) : SpentUtxo :=
  (vi_amount input, blen (vi_script_public_key input), vi_has_covenant_id input).

Definition to_consensus (tx : VerifiedTransaction) : result ConsensusTransaction ConsensusError :=
  let? inputs := try_map consensus_input (vt_inputs tx) in
  let outputs := map consensus_output (vt_outputs tx) in
  let spent := map spent_utxo (vt_inputs tx) in
  let? storage_mass :=
    match storage_mass_for spent outputs with Ok m => Ok m | Err e => Err (StorageFailed e) end in
  Ok {|
    ct_tx_version := vt_version tx;
    ct_input_encoding := Budgeted;
    ct_inputs := inputs;
    ct_outputs := outputs;
    ct_locktime := vt_locktime tx;
    ct_subnetwork_id := vt_subnetwork_id tx;
    ct_gas := vt_gas tx;
    ct_payload := vt_payload tx;
    ct_storage_mass := storage_mass;
  |}.

Definition checked_total (amounts : list Z) (kind : EntryKind) : result Z ConsensusError :=
  try_fold (fun total amount => ok_or (checked_add total amount) (AmountOverflow kind)) 0 amounts.

Definition fee (tx : VerifiedTransaction) : result Z ConsensusError :=
  let? spent := checked_total (map vi_amount (vt_inputs tx)) InputEntry in
  let? created := checked_total (map vo_amount (vt_outputs tx)) OutputEntry in
  ok_or (checked_sub spent created) OutputsExceedInputs.

(** * Theorems *)

Import Witness.

(** ** What the materialized scripts contain *)

Definition signature_element (signature : VerifiedSignature) : Element :=
  {| opcode := 65; data := bytes signature ++ [sighash signature] |}.

Definition item_element (item : VerifiedWitnessItem) : Element :=
  match item with
  | Selector value => {| opcode := if value then 0x51 else 0x00; data := [] |}
  | Signature signature => signature_element signature
  end.

Definition item_authorized (item : VerifiedWitnessItem) : bool :=
  match item with Selector _ => true | Signature signature => sighash signature =? SIGHASH_ALL end.

(** The stack items the script of a plan pushes, and whether the plan may be
    materialized at all. A specialized witness is frozen bytes. *)
Definition plan_elements (plan : VerifiedWitnessPlan) : list Element :=
  match plan with
  | P2pkWitness signature => [signature_element signature]
  | MultisigWitness _ signatures redeem_script =>
      map signature_element signatures ++ [push_element redeem_script]
  | CovenantWitness witness redeem_script _ _ =>
      map item_element (reverse witness) ++ [push_element redeem_script]
  | SpecializedWitness _ _ _ _ => []
  end.

Definition plan_authorized (plan : VerifiedWitnessPlan) : bool :=
  match plan with
  | P2pkWitness signature => sighash signature =? SIGHASH_ALL
  | MultisigWitness threshold signatures redeem_script =>
      (blen signatures =? threshold) && forallb (fun s => sighash s =? SIGHASH_ALL) signatures
      && (blen redeem_script <=? u16_max)
  | CovenantWitness witness redeem_script _ _ =>
      forallb item_authorized (reverse witness) && (blen redeem_script <=? u16_max)
  | SpecializedWitness _ _ supplied supplied_true =>
      Z.land supplied_true (Z.lxor supplied u16_max) =? 0
  end.

Definition plan_script (plan : VerifiedWitnessPlan) : list Z :=
  match plan with
  | SpecializedWitness _ signature_script _ _ => signature_script
  | _ => script_of (plan_elements plan)
  end.

Definition signature_ok (s : VerifiedSignature) : Prop := blen (bytes s) = 64 /\ bytes_ok (bytes s).
Definition item_ok (item : VerifiedWitnessItem) : Prop :=
  match item with Selector _ => True | Signature s => signature_ok s end.
Definition plan_ok (plan : VerifiedWitnessPlan) : Prop :=
  match plan with
  | P2pkWitness s => signature_ok s
  | MultisigWitness _ ss redeem => Forall signature_ok ss /\ blen ss < 2 ^ 32 /\ bytes_ok redeem
  | CovenantWitness w redeem _ _ => Forall item_ok w /\ blen w < 2 ^ 32 /\ bytes_ok redeem
  | SpecializedWitness _ script _ _ => bytes_ok script
  end.

Lemma push_item_spec script item :
  push_item script item =
    if item_authorized item then Ok (script ++ element_bytes (item_element item)) else Err UnsupportedSighash.
Proof.
  destruct item as [[]|s]; cbn; [done|done|]. unfold push_signature, push_schnorr_signature.
  by destruct (sighash s =? SIGHASH_ALL).
Qed.

Lemma push_items_spec script items :
  try_fold push_item script items =
    if forallb item_authorized items then Ok (script ++ script_of (map item_element items))
    else Err UnsupportedSighash.
Proof.
  revert script. induction items as [|item items IH]; intros script; cbn [try_fold forallb].
  - cbn. by rewrite app_nil_r.
  - rewrite push_item_spec. destruct (item_authorized item); [|done]. cbn [rbind andb].
    rewrite IH. destruct (forallb _ _); [|done]. cbn [map]. by rewrite script_of_cons, app_assoc.
Qed.

Lemma push_signatures_spec script ss :
  try_fold push_signature script ss = try_fold push_item script (map Signature ss).
Proof.
  revert script. induction ss as [|s ss IH]; intros script; cbn [try_fold map]; [done|].
  change (push_item script (Signature s)) with (push_signature script s).
  by destruct (push_signature script s); cbn.
Qed.

Lemma push_data_item_spec es redeem :
  push_data_item (script_of es) redeem =
    if blen redeem <=? u16_max then Ok (script_of (es ++ [push_element redeem])) else Err DataItemTooLarge.
Proof.
  unfold push_data_item. destruct (Z.ltb_spec u16_max (blen redeem)).
  - by rewrite (proj2 (Z.leb_gt _ _)) by lia.
  - rewrite (proj2 (Z.leb_le _ _)) by lia. rewrite push_data_element, script_of_app. unfold script_of at 3.
    cbn [map concat]. by rewrite app_nil_r.
Qed.

Lemma item_element_wf item : item_ok item -> item_authorized item = true -> wf_element (item_element item).
Proof.
  destruct item as [[]|s]; cbn [item_ok item_authorized].
  - intros. by_decide.
  - intros. by_decide.
  - intros [Hlen Hok] Hs%Z.eqb_eq. unfold wf_element, item_element, signature_element. cbn [opcode data].
    rewrite Hs. split_and!; [done| |].
    + apply bytes_ok_app. split; [done | by repeat constructor].
    + unfold element_exact, element_capacity. cbn [opcode Script.data]. cbn. rewrite blen_app, Hlen. done.
Qed.

Lemma blen_script_of_items items :
  Forall item_ok items -> 0 <= blen (script_of (map item_element items)) <= 66 * blen items.
Proof.
  induction 1 as [|item items Hi _ IH]; [by_decide|].
  cbn [map]. rewrite script_of_cons, blen_app, blen_cons.
  enough (0 <= blen (element_bytes (item_element item)) <= 66) by lia.
  destruct item as [[]|s]; [by_decide..|]. destruct Hi as [Hlen _].
  unfold element_bytes, element_prefix, item_element, signature_element. cbn [opcode Script.data].
  change (65 =? _) with false. cbv iota. autorewrite with blen. lia.
Qed.

Lemma complete_items_redeem items redeem :
  Forall item_ok items -> forallb item_authorized items = true ->
  blen items < 2 ^ 32 -> bytes_ok redeem -> blen redeem <=? u16_max = true ->
  complete_elements (script_of (map item_element items ++ [push_element redeem]))
  = Some (map item_element items ++ [push_element redeem]).
Proof.
  intros Hi Ha Hn Hr Hlen%Z.leb_le. unfold u16_max in Hlen.
  pose proof (push_element_wf redeem Hr ltac:(unfold u32_max; lia)) as Hp.
  apply complete_script_of.
  - apply Forall_app. split; [|by apply Forall_singleton]. apply Forall_map.
    rewrite Forall_forall in *. intros x Hx. apply item_element_wf; [by apply Hi|].
    rewrite forallb_forall in Ha. by apply Ha, list_elem_of_In.
  - rewrite script_of_app, blen_app. pose proof (blen_script_of_items items Hi).
    enough (blen (script_of [push_element redeem]) <= 5 + blen redeem) by (unfold usize_max, u64_max; lia).
    unfold script_of. cbn [map concat]. rewrite app_nil_r. unfold element_bytes.
    change (data (push_element redeem)) with redeem.
    enough (blen (element_prefix (push_element redeem)) <= 4) by (autorewrite with blen; lia).
    unfold element_prefix. repeat destruct (_ =? _); autorewrite with blen; lia.
Qed.

(** Materializing a witness plan succeeds exactly for an authorized plan,
    and the script it returns is, for the three standard kinds, one that the
    element reader splits back into exactly the plan's signatures (each 64
    bytes and the sighash byte) and selectors, the first item consumed pushed
    last, followed by the redeem script as the top of the stack. *)
Theorem materialize_signature_script_spec (plan : VerifiedWitnessPlan) :
  plan_ok plan ->
  (forall script, materialize_signature_script plan = Ok script <->
     plan_authorized plan = true /\ script = plan_script plan) /\
  (plan_authorized plan = true -> (forall r s m t, plan <> SpecializedWitness r s m t) ->
   complete_elements (plan_script plan) = Some (plan_elements plan)).
Proof.
  intros Hok. split.
  - intros script. destruct plan as [s|th ss redeem|w redeem m t|r s m t]; cbn [materialize_signature_script].
    + unfold materialize_p2pk. change (push_signature [] s) with (push_item [] (Signature s)).
      rewrite push_item_spec, if_Ok_iff. cbn [app plan_script plan_elements]. unfold script_of.
      cbn [map concat]. by rewrite app_nil_r.
    + unfold materialize_multisig. cbn [plan_authorized plan_script plan_elements].
      destruct (Z.eqb_spec (blen ss) th); cbn [negb andb]; [|naive_solver].
      rewrite push_signatures_spec, push_items_spec, forallb_map, map_map. cbn [app item_authorized item_element].
      destruct (forallb _ _); cbn [rbind andb]; [|naive_solver].
      by rewrite push_data_item_spec, if_Ok_iff.
    + unfold materialize_covenant. cbn [plan_authorized plan_script plan_elements].
      rewrite push_items_spec. cbn [app]. destruct (forallb _ _); cbn [rbind andb]; [|naive_solver].
      by rewrite push_data_item_spec, if_Ok_iff.
    + unfold materialize_specialized. cbn [plan_authorized plan_script]. rewrite <- (if_Ok_iff _ s script SelectorPlanInvalid).
      by destruct (_ =? 0).
  - intros Ha Hne. destruct plan as [s|th ss redeem|w redeem m t|r s m t]; cbn [plan_script plan_elements] in *.
    + apply (complete_script_of [item_element (Signature s)]).
      * constructor; [by apply item_element_wf | constructor].
      * pose proof (blen_script_of_items [Signature s] ltac:(by constructor)) as Hb.
        cbn [map] in Hb. unfold usize_max, u64_max, blen in *. cbn in *. lia.
    + destruct Hok as (Hss & Hn & Hr). cbn in Ha. apply andb_prop in Ha as [[_ Ha]%andb_prop Hl].
      replace (map signature_element ss) with (map item_element (map Signature ss)) by (by rewrite map_map).
      apply complete_items_redeem; [by apply Forall_map | by rewrite forallb_map | unfold blen in *; by rewrite length_map | done | done].
    + destruct Hok as (Hw & Hn & Hr). cbn in Ha. apply andb_prop in Ha as [Ha Hl].
      apply complete_items_redeem; [by apply Forall_reverse | done | unfold blen in *; by rewrite length_reverse | done | done].
    + by destruct (Hne r s m t).
Qed.

(** ** The fee *)

Lemma checked_total_iff amounts kind total :
  Forall u64_ok amounts ->
  checked_total amounts kind = Ok total <-> total = sum_by id amounts /\ total <= u64_max.
Proof.
  intros Hok. split.
  - intros H. apply (try_fold_sum_Ok _ id) in H as [-> H].
    + specialize (H ltac:(done)). unfold u64_ok, u64_max in *. split; [done | lia].
    + intros. by apply checked_add_Ok in H0.
  - intros [-> Hle]. unfold checked_total. rewrite (try_fold_sum_total _ id); [done| | |done|done].
    + intros. by apply checked_add_total.
    + eapply Forall_impl; [exact Hok|]. intros ? H. apply H.
Qed.

(** The fee is what the inputs spend beyond the outputs, whenever both sides
    are representable; [fee] fails in every other case. *)
Lemma fee_iff tx f :
  Forall u64_ok (map vi_amount (vt_inputs tx)) -> Forall u64_ok (map vo_amount (vt_outputs tx)) ->
  fee tx = Ok f <->
    0 <= f /\ sum_by vi_amount (vt_inputs tx) = sum_by vo_amount (vt_outputs tx) + f /\
    sum_by vi_amount (vt_inputs tx) <= u64_max.
Proof.
  intros Hin Hout.
  assert (Hn : 0 <= sum_by vo_amount (vt_outputs tx)).
  { apply sum_by_nonneg. rewrite Forall_map in Hout. eapply Forall_impl; [exact Hout|]. intros ? H. apply H. }
  assert (HI : forall t, checked_total (map vi_amount (vt_inputs tx)) InputEntry = Ok t <->
    t = sum_by vi_amount (vt_inputs tx) /\ t <= u64_max)
    by (intros t; rewrite checked_total_iff, sum_by_map; done).
  assert (HO : forall t, checked_total (map vo_amount (vt_outputs tx)) OutputEntry = Ok t <->
    t = sum_by vo_amount (vt_outputs tx) /\ t <= u64_max)
    by (intros t; rewrite checked_total_iff, sum_by_map; done).
  unfold fee. split.
  - intros H. comp_inv. apply HI in H as [-> ?]. apply HO in H0 as [-> ?]. checked_inv. unfold u64_ok, u64_max in *. lia.
  - intros (H1 & H2 & H3).
    rewrite (proj2 (HI _) (conj eq_refl H3)). cbn [rbind].
    rewrite (proj2 (HO _)) by (split; [reflexivity | lia]). cbn [rbind].
    apply ok_or_Ok, checked_u64_Some. unfold u64_ok, u64_max in *. lia.
Qed.

Lemma materialize_signature_script_spec_witness :
  let s := {| position := 0; sighash := 1; bytes := replicate 64 9 |} in
  let plan := CovenantWitness [Signature s; Selector true] [0x51; 0xac] 1 1 in
  complete_elements (plan_script plan) = Some (plan_elements plan).
Proof.
  intros s plan. apply (materialize_signature_script_spec plan).
  - split_and!; [|reflexivity|by_decide]. repeat constructor; by_decide.
  - reflexivity.
  - discriminate.
Defined.
