(* ===== verification/Mass.v ===== *)
(** * Transaction mass and fee analysis

    [src/src/transaction/mass.rs]: the analysis of an authorized transaction,
    the planner's estimates, the covenant fee shape and the thread-withdrawal
    fee with its search for the largest withdrawal. All values are [u64]; the
    conversions from [usize] never fail on the 64-bit targets. *)

From S2P Require Import Prelude Script Amounts Transaction.

Definition MASS_PER_TX_BYTE : Z := 1.
Definition MASS_PER_SCRIPT_PUBLIC_KEY_BYTE : Z := 10.
Definition MASS_PER_SIG_OP : Z := 1000.
Definition TRANSIENT_BYTE_TO_MASS_FACTOR : Z := 4.
Definition MAX_COMPUTE_MASS : Z := 500000.
Definition MAX_STORAGE_MASS : Z := 500000.
Definition MAX_TRANSIENT_MASS : Z := 1000000.
Definition MIN_STANDARD_FEE_RATE_SOMPI_PER_GRAM : Z := 100.

Abbreviation mass_overflow text := (MassFailure (str text)).

Definition mass_validity (compute_mass transient_mass storage_mass : Z) : bool * bool * bool * bool :=
  let compute := compute_mass <=? MAX_COMPUTE_MASS in
  let transient := transient_mass <=? MAX_TRANSIENT_MASS in
  let storage := storage_mass <=? MAX_STORAGE_MASS in
  (compute, transient, storage, compute && transient && storage).

Definition normalize_mass (mass reference_limit dimension_limit : Z) : result Z BuildError :=
  ok_or (value ← checked_mul mass reference_limit; Some (div_ceil value dimension_limit))
        (mass_overflow "mass normalization overflow").

(** The mass of one output script, added to a running total. *)
Definition add_script_mass (total length : Z) : result Z BuildError :=
  let? script_bytes := ok_or (checked_add 2 length) (mass_overflow "script mass overflow") in
  let? mass := ok_or (checked_mul script_bytes MASS_PER_SCRIPT_PUBLIC_KEY_BYTE)
                     (mass_overflow "script mass overflow") in
  ok_or (checked_add total mass) (mass_overflow "script mass overflow").

(** ** Analysis of a materialized transaction *)

Definition estimated_serialized_size (transaction : ConsensusTransaction) : result Z BuildError :=
  let size := 2 + 8 + 8 + 8 + 20 + 8 + 32 + 8 in
  let? size := try_fold (fun size input =>
      let sig_len := blen (ci_sig_script input) in
      ok_or (checked_add size (32 + 4 + 8 + sig_len + 8 + if 1 <=? ct_tx_version transaction then 2 else 0))
            (mass_overflow "transaction size overflow")) size (ct_inputs transaction) in
  let? size := try_fold (fun size output =>
      let script_len := blen (co_spk_script output) in
      let binding := match co_covenant output with Some _ => 2 + 32 | None => 0 end in
      ok_or (checked_add size (8 + 2 + 8 + script_len + binding))
            (mass_overflow "transaction size overflow")) size (ct_outputs transaction) in
  ok_or (checked_add size (blen (ct_payload transaction))) (mass_overflow "transaction size overflow").

Definition compute_mass (transaction : ConsensusTransaction) (estimated_size : Z) : result Z BuildError :=
  let? script_mass := try_fold (fun total output => add_script_mass total (blen (co_spk_script output)))
    0 (ct_outputs transaction) in
  let? signature_mass := try_fold (fun total input =>
      ok_or (checked_add total (saturating_mul (ci_sig_op_count input) MASS_PER_SIG_OP))
            (mass_overflow "signature-operation mass overflow")) 0 (ct_inputs transaction) in
  ok_or (value ← checked_mul estimated_size MASS_PER_TX_BYTE;
         value ← checked_add value script_mass;
         checked_add value signature_mass)
        (mass_overflow "compute mass overflow").

Record TransactionAnalysis := {
  estimated_serialized_bytes : Z;
  an_compute_mass : Z;
  transient_mass : Z;
  normalized_transient_mass : Z;
  an_storage_mass : Z;
  normalized_mass : Z;
  maximum_mass : Z;
  fee_sompi : Z;
  fee_mass : Z;
  fee_rate_sompi_per_gram : Z;
  minimum_fee_sompi : Z;
  recommended_fee_rate_sompi_per_gram : Z;
  recommended_fee_sompi : Z;
  compute_mass_valid : bool;
  transient_mass_valid : bool;
  storage_mass_valid : bool;
  mass_valid : bool;
  fee_sufficient : bool;
}.

Inductive AnalysisError :=
  | FromConsensus (error : ConsensusError)
  | FromMass (error : BuildError).

Definition lift_mass {A} (r : result A BuildError) : result A AnalysisError :=
  match r with Ok a => Ok a | Err e => Err (FromMass e) end.
Definition lift_consensus {A} (r : result A ConsensusError) : result A AnalysisError :=
  match r with Ok a => Ok a | Err e => Err (FromConsensus e) end.

Definition analyze_verified (verified : VerifiedTransaction) (recommended_rate_request : Z)
  : result TransactionAnalysis AnalysisError :=
  let? transaction := lift_consensus (to_consensus verified) in
  let? fee_sompi := lift_consensus (fee verified) in
  let? estimated_serialized_bytes := lift_mass (estimated_serialized_size transaction) in
  let? compute_mass := lift_mass (compute_mass transaction estimated_serialized_bytes) in
  let? transient_mass := lift_mass
    (ok_or (checked_mul estimated_serialized_bytes TRANSIENT_BYTE_TO_MASS_FACTOR)
           (mass_overflow "transient mass overflow")) in
  let? normalized_transient_mass :=
    lift_mass (normalize_mass transient_mass MAX_COMPUTE_MASS MAX_TRANSIENT_MASS) in
  let storage_mass := ct_storage_mass transaction in
  let? normalized_storage_mass :=
    lift_mass (normalize_mass storage_mass MAX_COMPUTE_MASS MAX_STORAGE_MASS) in
  let normalized_mass := Z.max (Z.max compute_mass normalized_transient_mass) normalized_storage_mass in
  let fee_mass := Z.max compute_mass normalized_transient_mass in
  let? minimum_fee_sompi := lift_mass
    (ok_or (checked_mul fee_mass MIN_STANDARD_FEE_RATE_SOMPI_PER_GRAM) (mass_overflow "minimum fee overflow")) in
  let recommended_rate := Z.max recommended_rate_request MIN_STANDARD_FEE_RATE_SOMPI_PER_GRAM in
  let? recommended_fee_sompi := lift_mass
    (ok_or (checked_mul fee_mass recommended_rate) (mass_overflow "recommended fee overflow")) in
  let fee_rate_sompi_per_gram := if fee_mass =? 0 then 0 else fee_sompi / fee_mass in
  let '(compute_mass_valid, transient_mass_valid, storage_mass_valid, mass_valid) :=
    mass_validity compute_mass transient_mass storage_mass in
  Ok {|
    estimated_serialized_bytes := estimated_serialized_bytes;
    an_compute_mass := compute_mass;
    transient_mass := transient_mass;
    normalized_transient_mass := normalized_transient_mass;
    an_storage_mass := storage_mass;
    normalized_mass := normalized_mass;
    maximum_mass := MAX_COMPUTE_MASS;
    fee_sompi := fee_sompi;
    fee_mass := fee_mass;
    fee_rate_sompi_per_gram := fee_rate_sompi_per_gram;
    minimum_fee_sompi := minimum_fee_sompi;
    recommended_fee_rate_sompi_per_gram := recommended_rate;
    recommended_fee_sompi := recommended_fee_sompi;
    compute_mass_valid := compute_mass_valid;
    transient_mass_valid := transient_mass_valid;
    storage_mass_valid := storage_mass_valid;
    mass_valid := mass_valid;
    fee_sufficient := recommended_fee_sompi <=? fee_sompi;
  |}.

(** ** The planner's estimate, before anything is signed *)

Record SignedInputShape := { signature_script_len : Z; shape_sig_op_count : Z }.
Definition P2PK : SignedInputShape := {| signature_script_len := 66; shape_sig_op_count := 1 |}.

Definition estimated_plan_size (signature_script_len input_count : Z) (output_script_lengths : list Z)
    (payload_len : Z) : result Z BuildError :=
  let BASE_TRANSACTION_BYTES := 2 + 8 + 8 + 8 + 20 + 8 + 32 + 8 in
  let INPUT_FIXED_BYTES := 32 + 4 + 8 + 8 in
  let OUTPUT_FIXED_BYTES := 8 + 2 + 8 in
  let? input_bytes := ok_or (value ← checked_add INPUT_FIXED_BYTES signature_script_len;
                             checked_mul value input_count)
                            (mass_overflow "transaction size overflow") in
  let? size := ok_or (value ← checked_add BASE_TRANSACTION_BYTES payload_len;
                      checked_add value input_bytes)
                     (mass_overflow "transaction size overflow") in
  try_fold (fun size script_len =>
    let? output_bytes := ok_or (checked_add OUTPUT_FIXED_BYTES script_len)
                               (mass_overflow "transaction size overflow") in
    ok_or (checked_add size output_bytes) (mass_overflow "transaction size overflow"))
    size output_script_lengths.

Definition estimate_non_contextual_fee_for_shape (input_shape : SignedInputShape) (input_count : Z)
    (output_script_lengths : list Z) (payload_len fee_rate : Z) : result (Z * Z * Z) BuildError :=
  let? estimated_serialized_bytes :=
    estimated_plan_size (signature_script_len input_shape) input_count output_script_lengths payload_len in
  let? script_mass := try_fold add_script_mass 0 output_script_lengths in
  let? sig_op_mass := ok_or (value ← checked_mul input_count (shape_sig_op_count input_shape);
                             checked_mul value MASS_PER_SIG_OP)
                            (mass_overflow "signature-operation mass overflow") in
  let? compute := ok_or (value ← checked_mul estimated_serialized_bytes MASS_PER_TX_BYTE;
                         value ← checked_add value script_mass;
                         checked_add value sig_op_mass)
                        (mass_overflow "compute mass overflow") in
  let? transient := ok_or (checked_mul estimated_serialized_bytes TRANSIENT_BYTE_TO_MASS_FACTOR)
                          (mass_overflow "transient mass overflow") in
  let '(_, _, _, within_limits) := mass_validity compute transient 0 in
  if negb within_limits
  then Err (mass_overflow "planned transaction exceeds Kaspa non-contextual mass limits")
  else
    let? normalized_transient := normalize_mass transient MAX_COMPUTE_MASS MAX_TRANSIENT_MASS in
    let fee_mass := Z.max compute normalized_transient in
    let? fee := ok_or (checked_mul fee_mass (Z.max fee_rate MIN_STANDARD_FEE_RATE_SOMPI_PER_GRAM))
                      (mass_overflow "fee estimate overflow") in
    Ok (fee, compute, transient).

Definition estimate_non_contextual_fee (input_count : Z) (output_script_lengths : list Z)
    (payload_len fee_rate : Z) : result (Z * Z * Z) BuildError :=
  estimate_non_contextual_fee_for_shape P2PK input_count output_script_lengths payload_len fee_rate.

(** ** [CovenantFeeShape] *)

Record CovenantFeeShape := {
  p2pk_inputs : Z;
  redeem_bytes : Z;
  payload_bytes : Z;
  binding_bytes : Z;
}.

Definition covenant_fee (shape : CovenantFeeShape) : result Z BuildError :=
  let FEE_MARKUP_PERCENT := 115 in
  let MINIMUM_FEE := 100000 in
  let BASE_TRANSACTION_BYTES := 46 in
  let PER_P2PK_INPUT_BYTES := 45 + 66 + 4 in
  let P2SH_INPUT_FIXED_BYTES := 118 in
  let COVENANT_OUTPUT_BYTES := 35 in
  let CHANGE_OUTPUT_BYTES := 43 in
  let FRAMING_BYTES := 10 in
  let SCRIPT_PUBLIC_KEY_MASS := (35 + 34) * MASS_PER_SCRIPT_PUBLIC_KEY_BYTE in
  let has_p2sh_input := if 0 <? redeem_bytes shape then 1 else 0 in
  let? input_count := ok_or (checked_add (p2pk_inputs shape) has_p2sh_input)
    (mass_overflow "Covenant fee input-count overflow") in
  let? p2pk_bytes := ok_or (checked_mul (p2pk_inputs shape) PER_P2PK_INPUT_BYTES)
    (mass_overflow "Covenant fee input-byte estimate overflow") in
  let? p2sh_fixed := ok_or (checked_add P2SH_INPUT_FIXED_BYTES (redeem_bytes shape))
    (mass_overflow "Covenant P2SH input-byte estimate overflow") in
  let p2sh_bytes := p2sh_fixed * has_p2sh_input in
  let? covenant_output_bytes := ok_or (checked_add COVENANT_OUTPUT_BYTES (binding_bytes shape))
    (mass_overflow "Covenant fee output-byte estimate overflow") in
  let? estimated_transaction_bytes := ok_or (
      value ← checked_add BASE_TRANSACTION_BYTES p2pk_bytes;
      value ← checked_add value p2sh_bytes;
      value ← checked_add value covenant_output_bytes;
      value ← checked_add value CHANGE_OUTPUT_BYTES;
      value ← checked_add value (payload_bytes shape);
      checked_add value FRAMING_BYTES)
    (mass_overflow "Covenant transaction-byte estimate overflow") in
  let? signature_operation_mass := ok_or (checked_mul input_count MASS_PER_SIG_OP)
    (mass_overflow "Covenant signature-operation mass overflow") in
  let? compute_mass := ok_or (
      value ← checked_mul estimated_transaction_bytes MASS_PER_TX_BYTE;
      value ← checked_add value signature_operation_mass;
      checked_add value SCRIPT_PUBLIC_KEY_MASS)
    (mass_overflow "Covenant compute-mass estimate overflow") in
  let? fee := ok_or (
      value ← checked_mul compute_mass MIN_STANDARD_FEE_RATE_SOMPI_PER_GRAM;
      value ← checked_mul value FEE_MARKUP_PERCENT;
      Some (value / 100))
    (mass_overflow "Covenant fee estimate overflow") in
  Ok (Z.max fee MINIMUM_FEE).

(** ** [ThreadWithdrawFee] *)

Module Thread.

Record ThreadWithdrawFee := {
  thread_amount : Z;
  withdraw : Z;
  minimum_fee : Z;
  fee_rate : Z;
}.

Definition COMPUTE_MASS : Z := 2500.
Definition PAYOUT_SCRIPT_LEN : Z := 34.
Definition COVENANT_SCRIPT_LEN : Z := 35.

Definition remainder (t : ThreadWithdrawFee) : option Z :=
  value ← checked_sub (thread_amount t) (withdraw t);
  value ← checked_sub value (minimum_fee t);
  if (0 <? value) && (0 <? withdraw t) then Some value else None.

Definition calculate (t : ThreadWithdrawFee) : result Z BuildError :=
  match remainder t with
  | None => Ok (minimum_fee t)
  | Some remainder =>
      let covenant := utxo_plurality COVENANT_SCRIPT_LEN true in
      let? storage := storage_mass_estimate [(thread_amount t, covenant)]
        [(withdraw t, utxo_plurality PAYOUT_SCRIPT_LEN false); (remainder, covenant)] in
      if MAX_STORAGE_MASS <? storage
      then Err (mass_overflow "withdrawal leaves too small a remainder (storage mass)")
      else
        let? fee := ok_or (checked_mul (Z.max storage COMPUTE_MASS) (fee_rate t))
                          (mass_overflow "thread withdrawal fee overflow") in
        Ok (Z.max fee (minimum_fee t))
  end.

Definition with_withdraw (t : ThreadWithdrawFee) (amount : Z) : ThreadWithdrawFee :=
  {| thread_amount := thread_amount t; withdraw := amount;
     minimum_fee := minimum_fee t; fee_rate := fee_rate t |}.

Definition leaves_return (t : ThreadWithdrawFee) (withdraw minimum_return : Z) : bool :=
  match calculate (with_withdraw t withdraw) with
  | Ok fee =>
      match remaining ← checked_sub (thread_amount t) withdraw; checked_sub remaining fee with
      | Some remaining => minimum_return <=? remaining
      | None => false
      end
  | Err _ => false
  end.

(** [(0..u64::BITS).rev().fold(0, ...)] over the bits still to decide. *)
Fixpoint search_bits (bits : nat) (fits : Z -> bool) (best : Z) : Z :=
  match bits with
  | O => best
  | S bit =>
      let candidate := best + Z.shiftl 1 (Z.of_nat bit) in
      search_bits bit fits (if fits candidate then candidate else best)
  end.

Definition ceiling (t : ThreadWithdrawFee) (cap minimum_return : Z) : Z :=
  Z.min (saturating_sub (saturating_sub (thread_amount t) minimum_return) (minimum_fee t)) cap.

Definition maximum_withdraw (t : ThreadWithdrawFee) (cap minimum_return : Z) : Z :=
  search_bits 64 (fun candidate =>
    (candidate <=? ceiling t cap minimum_return) && leaves_return t candidate minimum_return) 0.

End Thread.

(** * Theorems *)

(** ** The planner's estimate *)

Section estimate.
Context (shape : SignedInputShape) (input_count payload_len : Z) (lengths : list Z).
Hypothesis shape_ok : u32_ok (signature_script_len shape) /\ byte_ok (shape_sig_op_count shape).
Hypothesis counts_ok : 0 <= input_count /\ 0 <= payload_len.
Hypothesis lengths_ok : Forall (fun l => 0 <= l) lengths.

Definition plan_bytes : Z :=
  94 + payload_len + (52 + signature_script_len shape) * input_count + sum_by (fun l => 18 + l) lengths.
Definition plan_script_mass : Z := sum_by (fun l => (2 + l) * 10) lengths.
Definition plan_compute_mass : Z :=
  plan_bytes + plan_script_mass + input_count * shape_sig_op_count shape * 1000.

Lemma add_script_mass_Ok t l t' : add_script_mass t l = Ok t' -> t' = t + (2 + l) * 10 /\ u64_ok t'.
Proof.
  unfold add_script_mass, MASS_PER_SCRIPT_PUBLIC_KEY_BYTE. intros (b & Hb & H)%rbind_Ok_inv.
  apply rbind_Ok_inv in H as (m & Hm%ok_or_Ok & H). apply checked_add_Ok in Hb as [-> _].
  checked_inv. subst. by apply checked_add_Ok in H.
Qed.

Lemma add_script_mass_total t l :
  0 <= l -> 0 <= t -> u64_ok (t + (2 + l) * 10) -> add_script_mass t l = Ok (t + (2 + l) * 10).
Proof.
  intros Hl Ht H. unfold add_script_mass, checked_mul, MASS_PER_SCRIPT_PUBLIC_KEY_BYTE, u64_ok in *.
  rewrite checked_add_total by (unfold u64_ok; lia). cbn [rbind].
  rewrite checked_u64_id by (unfold u64_ok; lia). cbn [ok_or rbind].
  by apply checked_add_total.
Qed.

Lemma script_masses_nonneg : 0 <= plan_script_mass.
Proof. apply sum_by_nonneg. eapply Forall_impl; [exact lengths_ok|]. cbv beta. lia. Qed.

Lemma output_bytes_nonneg : 0 <= sum_by (fun l => 18 + l) lengths.
Proof. apply sum_by_nonneg. eapply Forall_impl; [exact lengths_ok|]. cbv beta. lia. Qed.

Lemma estimated_plan_size_Ok size :
  estimated_plan_size (signature_script_len shape) input_count lengths payload_len = Ok size -> size = plan_bytes.
Proof.
  unfold estimated_plan_size, plan_bytes. intros (ib & Hib%ok_or_Ok & H)%rbind_Ok_inv.
  apply rbind_Ok_inv in H as (s0 & Hs0%ok_or_Ok & H).
  apply bind_Some in Hib as (? & ? & ?). apply bind_Some in Hs0 as (? & ? & ?). checked_inv. subst.
  apply (try_fold_sum_Ok _ (fun l => 18 + l)) in H as [-> _]; [lia|].
  intros t l t' (b & Hb & Ht)%rbind_Ok_inv. apply checked_add_Ok in Hb as [-> _].
  by apply checked_add_Ok in Ht.
Qed.

Lemma estimated_plan_size_total :
  plan_bytes <= u64_max ->
  estimated_plan_size (signature_script_len shape) input_count lengths payload_len = Ok plan_bytes.
Proof.
  pose proof output_bytes_nonneg as Hout. destruct shape_ok as [Hsl _].
  unfold plan_bytes, u64_max, u32_ok in *. intros Hmax.
  assert (0 <= (52 + signature_script_len shape) * input_count) by nia.
  unfold estimated_plan_size, checked_add, checked_mul.
  rewrite (checked_u64_id (32 + 4 + 8 + 8 + _)) by (unfold u64_ok; lia). cbn [mbind option_bind].
  rewrite checked_u64_id by (unfold u64_ok; lia). cbn [ok_or rbind].
  rewrite (checked_u64_id (_ + payload_len)) by (unfold u64_ok; lia). cbn [mbind option_bind].
  rewrite checked_u64_id by (unfold u64_ok; lia). cbn [ok_or rbind].
  rewrite (try_fold_sum_total _ (fun l => 18 + l)); [f_equal; lia | | | lia | unfold u64_max; lia].
  - intros t l Hin Ht Hsum. rewrite Forall_forall in lengths_ok. pose proof (lengths_ok l Hin).
    unfold u64_ok in *. rewrite checked_u64_id by (unfold u64_ok; lia). cbn [ok_or rbind].
    apply (checked_add_total t (8 + 2 + 8 + l)). unfold u64_ok. lia.
  - eapply Forall_impl; [exact lengths_ok|]. cbv beta. lia.
Qed.

Lemma normalize_transient b : 0 <= b -> 4 * b <= MAX_TRANSIENT_MASS ->
  normalize_mass (b * TRANSIENT_BYTE_TO_MASS_FACTOR) MAX_COMPUTE_MASS MAX_TRANSIENT_MASS = Ok (2 * b).
Proof.
  unfold normalize_mass, TRANSIENT_BYTE_TO_MASS_FACTOR, MAX_COMPUTE_MASS, MAX_TRANSIENT_MASS, checked_mul.
  intros H0 H1. rewrite checked_u64_id by (unfold u64_ok; lia). cbn. f_equal. unfold div_ceil.
  symmetry. apply (Z.div_unique_pos _ _ _ 999999); lia.
Qed.

Definition plan_fee (rate : Z) : Z :=
  Z.max plan_compute_mass (2 * plan_bytes) * Z.max rate MIN_STANDARD_FEE_RATE_SOMPI_PER_GRAM.

Lemma plan_bytes_bounds : 94 <= plan_bytes /\ 0 <= input_count * shape_sig_op_count shape.
Proof.
  pose proof output_bytes_nonneg as Hout. destruct shape_ok as [Hsl Hso]. unfold plan_bytes, u32_ok, byte_ok in *.
  split; nia.
Qed.

Lemma estimate_for_shape_Ok rate f c t :
  estimate_non_contextual_fee_for_shape shape input_count lengths payload_len rate = Ok (f, c, t) ->
    c = plan_compute_mass /\ t = 4 * plan_bytes /\ f = plan_fee rate /\
    c <= MAX_COMPUTE_MASS /\ t <= MAX_TRANSIENT_MASS /\ f <= u64_max.
Proof.
  destruct plan_bytes_bounds as [Hpb Hsm].
  unfold estimate_non_contextual_fee_for_shape. intros (b & Hb & H)%rbind_Ok_inv.
  apply estimated_plan_size_Ok in Hb as ->.
  apply rbind_Ok_inv in H as (sm & Hs & H). apply (try_fold_sum_Ok _ (fun l => (2 + l) * 10)) in Hs as [-> _];
    [|apply add_script_mass_Ok].
  apply rbind_Ok_inv in H as (so & Hso'%ok_or_Ok & H). apply bind_Some in Hso' as (? & ? & ?).
  apply rbind_Ok_inv in H as (cm & Hcm%ok_or_Ok & H). apply bind_Some in Hcm as (? & ? & Hcm).
  apply bind_Some in Hcm as (? & ? & ?).
  apply rbind_Ok_inv in H as (tm & Htm%ok_or_Ok & H). checked_inv. subst.
  cbn [mass_validity] in H. unfold mass_validity in H.
  destruct (Z.leb_spec (plan_bytes * MASS_PER_TX_BYTE + (0 + sum_by (fun l => (2 + l) * 10) lengths)
    + input_count * shape_sig_op_count shape * MASS_PER_SIG_OP) MAX_COMPUTE_MASS); [|done].
  destruct (Z.leb_spec (plan_bytes * TRANSIENT_BYTE_TO_MASS_FACTOR) MAX_TRANSIENT_MASS); [|done].
  cbn [andb negb Z.leb Z.compare MAX_STORAGE_MASS] in H.
  rewrite normalize_transient in H by (unfold TRANSIENT_BYTE_TO_MASS_FACTOR in *; lia). cbn [rbind] in H.
  apply rbind_Ok_inv in H as (ff & Hf%ok_or_Ok & [= <- <- <-]). checked_inv. subst.
  unfold plan_fee, plan_compute_mass, plan_script_mass, MASS_PER_TX_BYTE, MASS_PER_SIG_OP,
    TRANSIENT_BYTE_TO_MASS_FACTOR, u64_ok, u64_max in *.
  replace (plan_bytes * 1 + (0 + sum_by (fun l => (2 + l) * 10) lengths)
    + input_count * shape_sig_op_count shape * 1000) with
    (plan_bytes + sum_by (fun l => (2 + l) * 10) lengths + input_count * shape_sig_op_count shape * 1000) in * by lia.
  split_and!; lia.
Qed.

Lemma estimate_for_shape_total rate :
  plan_compute_mass <= MAX_COMPUTE_MASS -> 4 * plan_bytes <= MAX_TRANSIENT_MASS -> plan_fee rate <= u64_max ->
  estimate_non_contextual_fee_for_shape shape input_count lengths payload_len rate
  = Ok (plan_fee rate, plan_compute_mass, 4 * plan_bytes).
Proof.
  destruct plan_bytes_bounds as [Hpb Hsm]. pose proof script_masses_nonneg as Hscr.
  intros Hc Ht Hf. pose proof Hc as Hc'. unfold plan_compute_mass, MAX_COMPUTE_MASS in Hc.
  unfold estimate_non_contextual_fee_for_shape.
  rewrite estimated_plan_size_total by (unfold u64_max; lia). cbn [rbind].
  rewrite (try_fold_sum_total _ (fun l => (2 + l) * 10)); [| | |lia|unfold plan_script_mass, u64_max in *; lia].
  2: { rewrite Forall_forall in lengths_ok. intros. apply add_script_mass_total; auto. }
  2: { eapply Forall_impl; [exact lengths_ok|]. cbv beta. lia. }
  cbn [rbind]. rewrite Z.add_0_l. fold plan_script_mass. unfold checked_mul, checked_add, MASS_PER_SIG_OP, MASS_PER_TX_BYTE.
  rewrite (checked_u64_id (input_count * _)) by (unfold u64_ok; lia). cbn [mbind option_bind].
  rewrite checked_u64_id by (unfold u64_ok; lia). cbn [ok_or rbind].
  rewrite (checked_u64_id (plan_bytes * 1)) by (unfold u64_ok; lia). cbn [mbind option_bind].
  rewrite (checked_u64_id (plan_bytes * 1 + _)) by (unfold u64_ok; lia). cbn [mbind option_bind].
  replace (plan_bytes * 1 + plan_script_mass + input_count * shape_sig_op_count shape * 1000)
    with plan_compute_mass by (unfold plan_compute_mass; lia).
  rewrite checked_u64_id by (unfold u64_ok, plan_compute_mass; lia). cbn [ok_or rbind].
  unfold MAX_TRANSIENT_MASS in Ht.
  rewrite checked_u64_id by (unfold u64_ok, TRANSIENT_BYTE_TO_MASS_FACTOR; lia). cbn [ok_or rbind].
  unfold mass_validity. rewrite !(proj2 (Z.leb_le _ _));
    [|unfold MAX_STORAGE_MASS; lia|unfold TRANSIENT_BYTE_TO_MASS_FACTOR, MAX_TRANSIENT_MASS; lia|done].
  cbn [andb negb]. rewrite normalize_transient by (unfold MAX_TRANSIENT_MASS; lia). cbn [rbind].
  fold (plan_fee rate). rewrite checked_u64_id; [|unfold u64_ok, u64_max, plan_fee in *; split; [|lia]].
  - cbn [ok_or rbind]. unfold TRANSIENT_BYTE_TO_MASS_FACTOR. by rewrite (Z.mul_comm plan_bytes).
  - apply Z.mul_nonneg_nonneg; [lia | unfold MIN_STANDARD_FEE_RATE_SOMPI_PER_GRAM; lia].
Qed.
End estimate.

(** The planner's non-contextual estimate is exact. For every shape, count
    of inputs, output script lengths and payload, it returns the compute mass,
    transient mass and fee of the size formula, and does so precisely when the
    masses are within the limits and the fee is a [u64]: no input makes an
    intermediate value overflow first. *)
Theorem estimate_non_contextual_fee_spec (shape : SignedInputShape) (input_count payload_len rate : Z)
    (lengths : list Z) (f c t : Z) :
  u32_ok (signature_script_len shape) -> byte_ok (shape_sig_op_count shape) ->
  0 <= input_count -> 0 <= payload_len -> Forall (fun l => 0 <= l) lengths ->
  estimate_non_contextual_fee_for_shape shape input_count lengths payload_len rate = Ok (f, c, t) <->
    c = plan_compute_mass shape input_count payload_len lengths /\
    t = 4 * plan_bytes shape input_count payload_len lengths /\
    f = plan_fee shape input_count payload_len lengths rate /\
    c <= MAX_COMPUTE_MASS /\ t <= MAX_TRANSIENT_MASS /\ f <= u64_max.
Proof.
  intros. split.
  - by apply estimate_for_shape_Ok.
  - intros (-> & -> & -> & ? & ? & ?). by apply estimate_for_shape_total.
Qed.

(** ** The analysis of the signed transaction *)

Lemma serialized_size_Ok tx size :
  estimated_serialized_size tx = Ok size ->
  size = 94 + sum_by (fun i => 52 + blen (ci_sig_script i) + if 1 <=? ct_tx_version tx then 2 else 0) (ct_inputs tx)
         + sum_by (fun o => 18 + blen (co_spk_script o) + match co_covenant o with Some _ => 34 | None => 0 end)
             (ct_outputs tx)
         + blen (ct_payload tx).
Proof.
  unfold estimated_serialized_size. intros (s1 & H1 & H)%rbind_Ok_inv.
  apply rbind_Ok_inv in H as (s2 & H2 & H). apply checked_add_Ok in H as [-> _].
  apply (try_fold_sum_Ok _ (fun i => 52 + blen (ci_sig_script i) + if 1 <=? ct_tx_version tx then 2 else 0))
    in H1 as [-> _].
  2: { intros t i t' [-> ?]%checked_add_Ok. split; [lia|done]. }
  apply (try_fold_sum_Ok _ (fun o => 18 + blen (co_spk_script o) +
    match co_covenant o with Some _ => 34 | None => 0 end)) in H2 as [-> _]; [lia|].
  intros t o t' [-> ?]%checked_add_Ok. split; [destruct (co_covenant o); lia | done].
Qed.

Lemma compute_mass_Ok tx size mass :
  compute_mass tx size = Ok mass ->
  mass = size + sum_by (fun o => (2 + blen (co_spk_script o)) * 10) (ct_outputs tx)
         + sum_by (fun i => saturating_mul (ci_sig_op_count i) 1000) (ct_inputs tx).
Proof.
  unfold compute_mass. intros (sm & Hs & H)%rbind_Ok_inv. apply rbind_Ok_inv in H as (om & Ho & H).
  apply (try_fold_sum_Ok _ (fun o => (2 + blen (co_spk_script o)) * 10)) in Hs as [-> _];
    [|intros t o t'; apply add_script_mass_Ok].
  apply (try_fold_sum_Ok _ (fun i => saturating_mul (ci_sig_op_count i) 1000)) in Ho as [-> _];
    [|intros t i t'; apply checked_add_Ok].
  apply ok_or_Ok, bind_Some in H as (x & Hx & H). apply bind_Some in H as (y & Hy & H).
  checked_inv. subst. unfold MASS_PER_TX_BYTE. lia.
Qed.

Lemma normalize_mass_Ok b r :
  normalize_mass (b * TRANSIENT_BYTE_TO_MASS_FACTOR) MAX_COMPUTE_MASS MAX_TRANSIENT_MASS = Ok r -> r = 2 * b.
Proof.
  unfold normalize_mass, TRANSIENT_BYTE_TO_MASS_FACTOR, MAX_COMPUTE_MASS, MAX_TRANSIENT_MASS.
  intros H%ok_or_Ok. apply bind_Some in H as (x & Hx & H). checked_inv. subst. injection H as <-.
  unfold div_ceil. symmetry. apply (Z.div_unique_pos _ _ _ 999999); lia.
Qed.

(** What [analyze_verified] returns, in terms of the consensus transaction. *)
Lemma analyze_verified_Ok v rate a :
  analyze_verified v rate = Ok a ->
  exists tx size, to_consensus v = Ok tx /\ fee v = Ok (fee_sompi a) /\
    estimated_serialized_size tx = Ok size /\ compute_mass tx size = Ok (an_compute_mass a) /\
    transient_mass a = 4 * size /\ an_storage_mass a = ct_storage_mass tx /\
    fee_mass a = Z.max (an_compute_mass a) (2 * size) /\
    recommended_fee_sompi a = fee_mass a * Z.max rate MIN_STANDARD_FEE_RATE_SOMPI_PER_GRAM /\
    u64_ok (recommended_fee_sompi a) /\
    compute_mass_valid a = (an_compute_mass a <=? MAX_COMPUTE_MASS) /\
    transient_mass_valid a = (transient_mass a <=? MAX_TRANSIENT_MASS) /\
    fee_sufficient a = (recommended_fee_sompi a <=? fee_sompi a).
Proof.
  assert (Hm : forall A (r : result A BuildError) x, lift_mass r = Ok x -> r = Ok x)
    by (intros A [] x; cbn; congruence).
  assert (Hc : forall A (r : result A ConsensusError) x, lift_consensus r = Ok x -> r = Ok x)
    by (intros A [] x; cbn; congruence).
  unfold analyze_verified. intros H. apply rbind_Ok_inv in H as (tx & Htx%Hc & H).
  apply rbind_Ok_inv in H as (f & Hf%Hc & H). apply rbind_Ok_inv in H as (size & Hs%Hm & H).
  apply rbind_Ok_inv in H as (cm & Hcm%Hm & H). apply rbind_Ok_inv in H as (tm & Htm%Hm & H).
  apply rbind_Ok_inv in H as (nt & Hnt%Hm & H). apply rbind_Ok_inv in H as (ns & Hns%Hm & H).
  apply rbind_Ok_inv in H as (mf & Hmf%Hm & H). apply rbind_Ok_inv in H as (rf & Hrf%Hm & H).
  unfold mass_validity in H. injection H as <-. cbn.
  apply ok_or_Ok in Htm, Hrf. checked_inv. subst.
  apply normalize_mass_Ok in Hnt as ->. unfold TRANSIENT_BYTE_TO_MASS_FACTOR.
  exists tx, size. split_and!; try done; lia.
Qed.

(** A transaction as the standard planner builds and the wallet signs it. *)
Definition standard_input (i : VerifiedInput) : Prop :=
  vi_sig_op_count i = 1 /\ exists s, vi_witness i = P2pkWitness s /\ blen (bytes s) = 64.
Definition standard_transaction (v : VerifiedTransaction) : Prop :=
  vt_version v = 0 /\ Forall standard_input (vt_inputs v) /\
  Forall (fun o => vo_covenant o = None) (vt_outputs v).

Lemma to_consensus_Ok v tx :
  to_consensus v = Ok tx ->
  Forall2 (fun i c => consensus_input i = Ok c) (vt_inputs v) (ct_inputs tx) /\
  ct_outputs tx = map consensus_output (vt_outputs v) /\ ct_tx_version tx = vt_version v /\
  ct_payload tx = vt_payload v /\
  storage_mass_for (map spent_utxo (vt_inputs v)) (map consensus_output (vt_outputs v)) = Ok (ct_storage_mass tx).
Proof.
  unfold to_consensus. intros (ins & Hins%try_map_Ok & H)%rbind_Ok_inv.
  apply rbind_Ok_inv in H as (m & Hm & H). injection H as <-. cbn.
  destruct (storage_mass_for _ _); [by injection Hm as -> | done].
Qed.

Lemma standard_consensus_input i c :
  standard_input i -> consensus_input i = Ok c -> blen (ci_sig_script c) = 66 /\ ci_sig_op_count c = 1.
Proof.
  intros (Hops & s & Hw & Hlen). unfold consensus_input. rewrite Hw. cbn.
  unfold Witness.materialize_p2pk, Witness.push_signature, Witness.push_schnorr_signature.
  destruct (sighash s =? Witness.SIGHASH_ALL); cbn [negb]; [|done]. intros [= <-]. cbn [ci_sig_script ci_sig_op_count].
  split; [|done]. autorewrite with blen. rewrite Hlen. done.
Qed.

Lemma standard_inputs_sum (g : ConsensusInput -> Z) v ins c :
  (forall i, blen (ci_sig_script i) = 66 -> ci_sig_op_count i = 1 -> g i = c) ->
  Forall standard_input v -> Forall2 (fun i c => consensus_input i = Ok c) v ins ->
  sum_by g ins = c * blen v.
Proof.
  intros Hg Hv HF. induction HF as [|i o v ins Hi _ IH]; [rewrite sum_by_nil; unfold blen; cbn; lia|].
  inversion_clear Hv as [|? ? Hstd Hv']. apply standard_consensus_input in Hi as [H1 H2]; [|done].
  rewrite sum_by_cons, blen_cons, IH, Hg by done. lia.
Qed.

(** For a standard payment the planner's estimate made before signing and
    the analysis of the signed transaction agree exactly: the estimate returns
    a fee precisely when the analysis finds the compute and transient masses
    valid, and then its fee, compute mass and transient mass are the analysis's
    recommended fee, compute mass and transient mass. *)
Theorem estimate_matches_analysis (v : VerifiedTransaction) (rate : Z) (a : TransactionAnalysis)
    (r : Z * Z * Z) :
  standard_transaction v -> analyze_verified v rate = Ok a ->
  estimate_non_contextual_fee (blen (vt_inputs v)) (map (fun o => blen (vo_script_public_key o)) (vt_outputs v))
    (blen (vt_payload v)) rate = Ok r <->
  compute_mass_valid a && transient_mass_valid a = true /\
  r = (recommended_fee_sompi a, an_compute_mass a, transient_mass a).
Proof.
  intros (Hver & Hins & Houts) Ha.
  apply analyze_verified_Ok in Ha as (tx & size & Htx & _ & Hsize & Hcm & Htm & _ & Hfm & Hrf & Hrfok & -> & -> & _).
  apply to_consensus_Ok in Htx as (HI & HO & HV & HP & _).
  apply serialized_size_Ok in Hsize. apply compute_mass_Ok in Hcm.
  rewrite HV, Hver, (standard_inputs_sum _ (vt_inputs v) _ 118), HO, HP in Hsize by (assumption || (intros; cbn [Z.leb Z.compare]; lia)).
  rewrite (standard_inputs_sum _ (vt_inputs v) _ 1000), HO in Hcm
    by (assumption || (intros ? _ ->; reflexivity)).
  rewrite !sum_by_map in Hsize, Hcm. cbn [consensus_output co_spk_script co_covenant] in Hsize, Hcm.
  set (lens := map (fun o => blen (vo_script_public_key o)) (vt_outputs v)).
  assert (Hb : size = plan_bytes P2PK (blen (vt_inputs v)) (blen (vt_payload v)) lens).
  { unfold plan_bytes, lens. rewrite sum_by_map, Hsize. cbn [P2PK signature_script_len].
    enough (sum_by (fun o => 18 + blen (vo_script_public_key o) +
      match vo_covenant o with Some _ => 34 | None => 0 end) (vt_outputs v)
      = sum_by (fun o => 18 + blen (vo_script_public_key o)) (vt_outputs v)) as -> by lia.
    clear -Houts. induction Houts as [|o l Ho _ IH]; [done|]. by rewrite !sum_by_cons, IH, Ho, Z.add_0_r. }
  assert (Hc : an_compute_mass a = plan_compute_mass P2PK (blen (vt_inputs v)) (blen (vt_payload v)) lens).
  { unfold plan_compute_mass, plan_script_mass. rewrite <- Hb. subst lens. rewrite sum_by_map, Hcm.
    cbn [P2PK shape_sig_op_count]. lia. }
  assert (Hlens : Forall (fun l => 0 <= l) lens) by (subst lens; apply Forall_map, Forall_forall; intros; apply blen_nonneg).
  assert (Hfee : recommended_fee_sompi a = plan_fee P2PK (blen (vt_inputs v)) (blen (vt_payload v)) lens rate).
  { unfold plan_fee. by rewrite <- Hb, <- Hc, <- Hfm. }
  pose proof (blen_nonneg (vt_inputs v)). pose proof (blen_nonneg (vt_payload v)).
  unfold estimate_non_contextual_fee. destruct r as [[f c] t].
  rewrite andb_true_iff, !Z.leb_le, pair_equal_spec, pair_equal_spec, Hc, Htm, Hfee, Hb. split.
  - intros H1. apply estimate_for_shape_Ok in H1; [|by_decide|done|done]. naive_solver lia.
  - intros ([? ?] & (-> & ->) & ->). apply estimate_for_shape_total; try done.
    rewrite <- Hfee. unfold u64_ok, u64_max in *. lia.
Qed.

(** ** The covenant fee *)

Definition covenant_compute_mass (shape : CovenantFeeShape) : Z :=
  46 + p2pk_inputs shape * 115 + (if 0 <? redeem_bytes shape then 118 + redeem_bytes shape else 0)
  + (35 + binding_bytes shape) + 43 + payload_bytes shape + 10
  + (p2pk_inputs shape + if 0 <? redeem_bytes shape then 1 else 0) * 1000 + 690.

(** The 15% markup is exact: the fee is 115 sompi per gram. *)
Lemma covenant_fee_Ok shape f :
  covenant_fee shape = Ok f -> f = Z.max (covenant_compute_mass shape * 115) 100000.
Proof.
  unfold covenant_fee, covenant_compute_mass. intros H. repeat apply rbind_Ok_inv in H as (? & ?%ok_or_Ok & H).
  injection H as <-. f_equal.
  repeat match goal with H : (_ ← _; _) = Some _ |- _ => apply bind_Some in H as (? & ? & H) end.
  repeat match goal with H : Some _ = Some _ |- _ => injection H as <- end.
  checked_inv. subst. unfold MASS_PER_TX_BYTE, MASS_PER_SIG_OP, MIN_STANDARD_FEE_RATE_SOMPI_PER_GRAM,
    MASS_PER_SCRIPT_PUBLIC_KEY_BYTE.
  rewrite (Z.mul_comm _ 100), <- Z.mul_assoc, Z.mul_comm, Z.div_mul by done.
  destruct (0 <? redeem_bytes shape); lia.
Qed.

(** ** The thread withdrawal search *)

Section search.
Context (fits : Z -> bool).

Lemma search_bits_sound bits best :
  best <= Thread.search_bits bits fits best /\
  (Thread.search_bits bits fits best = best \/ fits (Thread.search_bits bits fits best) = true).
Proof.
  revert best. induction bits as [|bit IH]; intros best; cbn [Thread.search_bits]; [split; [lia | by left]|].
  rewrite Z.shiftl_1_l. pose proof (Z.pow_pos_nonneg 2 (Z.of_nat bit)).
  destruct (fits _) eqn:Hf; [|apply IH].
  destruct (IH (best + 2 ^ Z.of_nat bit)) as [Hle [->|Hfit]]; (split; [lia | auto]).
Qed.

(** Past a power of two that fits, with fits closed downwards to it, the
    search finds the largest value that fits. *)
Lemma search_bits_maximum k :
  fits (2 ^ Z.of_nat k) = true ->
  (forall a b, 2 ^ Z.of_nat k <= a <= b -> fits b = true -> fits a = true) ->
  forall bits best,
  (2 ^ Z.of_nat k <= best \/ best = 0 /\ (k < bits)%nat) ->
  (forall w, 2 ^ Z.of_nat k <= w -> fits w = true -> w < best + 2 ^ Z.of_nat bits) ->
  forall w, 2 ^ Z.of_nat k <= w -> fits w = true -> w <= Thread.search_bits bits fits best.
Proof.
  intros Hk Hdown. induction bits as [|bit IH]; intros best Hbest Hbound w Hw Hfit.
  - cbn. specialize (Hbound w Hw Hfit). cbn in Hbound. lia.
  - cbn [Thread.search_bits]. rewrite Z.shiftl_1_l.
    pose proof (Z.pow_pos_nonneg 2 (Z.of_nat bit)).
    assert (Hpow : 2 ^ Z.of_nat (S bit) = 2 ^ Z.of_nat bit + 2 ^ Z.of_nat bit).
    { rewrite Nat2Z.inj_succ, Z.pow_succ_r by lia. lia. }
    assert (Hcand : 2 ^ Z.of_nat k <= best + 2 ^ Z.of_nat bit).
    { destruct Hbest as [|[-> ?]]; [lia|]. pose proof (Z.pow_le_mono_r 2 (Z.of_nat k) (Z.of_nat bit)). lia. }
    destruct (fits (best + 2 ^ Z.of_nat bit)) eqn:Hf; apply IH; try done.
    + left. lia.
    + intros w' Hw' Hf'. specialize (Hbound w' Hw' Hf'). lia.
    + destruct Hbest as [|[-> ?]]; [by left|]. right. split; [done|].
      destruct (Nat.eq_dec k bit) as [->|]; [|lia]. rewrite Z.add_0_l in Hf. congruence.
    + intros w' Hw' Hf'. destruct (Z.lt_ge_cases w' (best + 2 ^ Z.of_nat bit)); [done|].
      rewrite (Hdown (best + 2 ^ Z.of_nat bit) w') in Hf; [done | lia | done].
Qed.

Lemma search_bits_spec bits best :
  (forall w, fits w = true -> w < 2 ^ Z.of_nat bits) ->
  best = Thread.search_bits bits fits 0 ->
  (best = 0 \/ 0 < best /\ fits best = true) /\
  (forall k, (k < bits)%nat -> fits (2 ^ Z.of_nat k) = true ->
     (forall a b, 2 ^ Z.of_nat k <= a <= b -> fits b = true -> fits a = true) ->
     forall w, 2 ^ Z.of_nat k <= w -> fits w = true -> w <= best).
Proof.
  intros Hmax ->. split.
  - destruct (search_bits_sound bits 0) as [Hle [H|Hfit]]; [by left|].
    destruct (Z.eq_dec (Thread.search_bits bits fits 0) 0); [by left | right; split; [lia | done]].
  - intros k Hk Hfk Hdown. apply (search_bits_maximum k Hfk Hdown); [right; lia|].
    intros w _ Hfit. by apply Hmax.
Qed.
End search.

Definition withdraw_fits (t : Thread.ThreadWithdrawFee) (cap minimum_return w : Z) : bool :=
  (w <=? Thread.ceiling t cap minimum_return) && Thread.leaves_return t w minimum_return.

Lemma maximum_withdraw_search t cap minimum_return :
  Thread.maximum_withdraw t cap minimum_return = Thread.search_bits 64 (withdraw_fits t cap minimum_return) 0.
Proof. reflexivity. Qed.

Lemma maximum_withdraw_core t cap minimum_return best :
  u64_ok cap -> best = Thread.search_bits 64 (withdraw_fits t cap minimum_return) 0 ->
  (best = 0 \/ 0 < best <= cap /\ exists fee,
     Thread.calculate (Thread.with_withdraw t best) = Ok fee /\
     best + fee + minimum_return <= Thread.thread_amount t) /\
  (forall k, (k < 64)%nat -> withdraw_fits t cap minimum_return (2 ^ Z.of_nat k) = true ->
     (forall a b, 2 ^ Z.of_nat k <= a <= b ->
        withdraw_fits t cap minimum_return b = true -> withdraw_fits t cap minimum_return a = true) ->
     forall w, 2 ^ Z.of_nat k <= w -> withdraw_fits t cap minimum_return w = true -> w <= best).
Proof.
  intros Hcap E.
  assert (Hlt : forall w, withdraw_fits t cap minimum_return w = true -> w < 2 ^ Z.of_nat 64).
  { intros w [Hc%Z.leb_le _]%andb_prop. unfold Thread.ceiling, u64_ok in *.
    change (2 ^ Z.of_nat 64) with 18446744073709551616. lia. }
  destruct (search_bits_spec _ 64 best Hlt E) as [Hsound Hmax].
  split; [|exact Hmax].
  destruct Hsound as [|[Hpos [Hc%Z.leb_le Hl]%andb_prop]]; [by left|]. right.
  unfold Thread.ceiling in Hc. split; [lia|].
  unfold Thread.leaves_return in Hl. destruct (Thread.calculate _) as [f|]; [|done]. exists f. split; [done|].
  destruct (checked_sub (Thread.thread_amount t) best) as [x|] eqn:Hx; cbn [mbind option_bind] in Hl; [|discriminate].
  destruct (checked_sub x f) as [y|] eqn:Hy; [|discriminate]. apply Z.leb_le in Hl.
  checked_inv. lia.
Qed.

(** The withdrawal search returns either zero or an amount within the cap
    whose priced fee leaves the minimum return in the covenant; and above any
    power of two that fits, if fitting is monotone from there on, no larger
    amount fits. *)
Theorem maximum_withdraw_spec (t : Thread.ThreadWithdrawFee) (cap minimum_return : Z) :
  u64_ok cap ->
  (Thread.maximum_withdraw t cap minimum_return = 0 \/ 0 < Thread.maximum_withdraw t cap minimum_return <= cap /\ exists fee,
     Thread.calculate (Thread.with_withdraw t (Thread.maximum_withdraw t cap minimum_return)) = Ok fee /\
     Thread.maximum_withdraw t cap minimum_return + fee + minimum_return <= Thread.thread_amount t) /\
  (forall k, (k < 64)%nat -> withdraw_fits t cap minimum_return (2 ^ Z.of_nat k) = true ->
     (forall a b, 2 ^ Z.of_nat k <= a <= b ->
        withdraw_fits t cap minimum_return b = true -> withdraw_fits t cap minimum_return a = true) ->
     forall w, 2 ^ Z.of_nat k <= w -> withdraw_fits t cap minimum_return w = true -> w <= Thread.maximum_withdraw t cap minimum_return).
Proof. intros Hcap. apply (maximum_withdraw_core t cap minimum_return _ Hcap), maximum_withdraw_search. Qed.

(** Fitting is not monotone in the amount, so the search can miss: from a
    thread of 1000 KAS a withdrawal of 2,050,000 sompi under that cap leaves
    the required return, yet the search reports that nothing fits, because
    every power of two below the cap is refused for its storage mass. *)
Theorem maximum_withdraw_misses :
  let t := {| Thread.thread_amount := 100000000000; Thread.withdraw := 0;
              Thread.minimum_fee := 100000; Thread.fee_rate := 100 |} in
  Thread.maximum_withdraw t 2050000 100000000 = 0 /\
  withdraw_fits t 2050000 100000000 2050000 = true /\
  withdraw_fits t 2050000 100000000 (2 ^ 20) = false.
Proof. vm_compute. auto. Qed.

(** ** Witnesses *)

Definition sample_thread : Thread.ThreadWithdrawFee :=
  {| Thread.thread_amount := 100000000000; Thread.withdraw := 0; Thread.minimum_fee := 100000; Thread.fee_rate := 100 |}.

Lemma maximum_withdraw_spec_witness :
  Thread.maximum_withdraw sample_thread u64_max 100000000 = 99896147700 /\
  (99896147700 = 0 \/ 0 < 99896147700 <= u64_max /\ exists fee,
     Thread.calculate (Thread.with_withdraw sample_thread 99896147700) = Ok fee /\
     99896147700 + fee + 100000000 <= 100000000000).
Proof.
  assert (E : Thread.maximum_withdraw sample_thread u64_max 100000000 = 99896147700) by (vm_compute; reflexivity).
  split; [exact E|].
  pose proof (proj1 (maximum_withdraw_spec sample_thread u64_max 100000000 ltac:(by_decide))) as H.
  rewrite E in H. exact H.
Defined.

Lemma estimate_non_contextual_fee_spec_witness :
  estimate_non_contextual_fee_for_shape P2PK 2 [34; 34] 10 100 = Ok (316400, 3164, 1776) <->
  3164 = plan_compute_mass P2PK 2 10 [34; 34] /\ 1776 = 4 * plan_bytes P2PK 2 10 [34; 34] /\
  316400 = plan_fee P2PK 2 10 [34; 34] 100 /\
  3164 <= MAX_COMPUTE_MASS /\ 1776 <= MAX_TRANSIENT_MASS /\ 316400 <= u64_max.
Proof. apply estimate_non_contextual_fee_spec; by_decide. Defined.

Definition sample_verified : VerifiedTransaction := {|
  vt_version := 0; vt_locktime := 0; vt_subnetwork_id := replicate 20 0; vt_gas := 0; vt_payload := [];
  vt_inputs := [{| vi_previous_tx_id := replicate 32 1; vi_previous_index := 0; vi_amount := 500000000;
                   vi_sequence := 0; vi_sig_op_count := 1; vi_script_version := 0;
                   vi_script_public_key := Standard.p2pk_script (replicate 32 5); vi_has_covenant_id := false;
                   vi_witness := P2pkWitness {| position := 0; sighash := 1; bytes := replicate 64 9 |} |}];
  vt_outputs := [{| vo_amount := 499000000; vo_script_version := 0;
                    vo_script_public_key := Standard.p2pk_script (replicate 32 6); vo_covenant := None |}];
|}.

Lemma estimate_matches_analysis_witness :
  exists a, analyze_verified sample_verified 100 = Ok a /\
    estimate_non_contextual_fee 1 [34] 0 100 = Ok (recommended_fee_sompi a, an_compute_mass a, transient_mass a).
Proof.
  destruct (analyze_verified sample_verified 100) as [a|e] eqn:E; [|vm_compute in E; discriminate E].
  exists a. split; [reflexivity|].
  apply (estimate_matches_analysis sample_verified 100 a _).
  - split; [reflexivity|]. split; [|by repeat constructor].
    constructor; [|constructor]. split; [reflexivity|]. eexists. split; reflexivity.
  - exact E.
  - vm_compute in E. injection E as <-. split; reflexivity.
Defined.
