(* ===== verification/Selection.v ===== *)
(** * Coin selection

    [src/src/primitives/utxo.rs] and [transaction/builder/selection]: sorting,
    automatic, explicit and consolidation selection of unspent outputs. The
    standard library's stable [sort_by] is modelled by stable insertion sort:
    a stable sort has one possible result. *)

From S2P Require Import Prelude Amounts.

Record UtxoEntry := {
  tx_id : list Z;
  index : Z;
  amount : Z;
  script_public_key : list Z;
  block_daa_score : Z;
  covenant_id : option (list Z);
}.

#[export] Instance UtxoEntry_eq_dec : EqDecision UtxoEntry.
Proof. solve_decision. Defined.

(** ** Stable sorting by a three-way comparison *)

Section stable_sort.
Context {A : Type} (cmp : A -> A -> comparison).

(** [x] goes before every later element it does not exceed. *)
Fixpoint insert_stable (x : A) (l : list A) : list A :=
  match l with
  | [] => [x]
  | y :: l' => match cmp x y with Gt => y :: insert_stable x l' | _ => x :: l end
  end.
Definition sort_by (l : list A) : list A := foldr insert_stable [] l.
End stable_sort.

(** [Ord for String]: bytewise lexicographic. *)
Fixpoint cmp_text (a b : list Z) : comparison :=
  match a, b with
  | [], [] => Eq
  | [], _ => Lt
  | _, [] => Gt
  | x :: a', y :: b' => match x ?= y with Eq => cmp_text a' b' | c => c end
  end.

(** [Ordering::then_with] *)
Definition then_with (c d : comparison) : comparison := match c with Eq => d | _ => c end.

Definition largest_first (left right : UtxoEntry) : comparison := amount right ?= amount left.
Definition smallest_first (left right : UtxoEntry) : comparison := amount left ?= amount right.
Definition display_order (left right : UtxoEntry) : comparison :=
  then_with (amount right ?= amount left)
    (then_with (cmp_text (tx_id left) (tx_id right)) (index left ?= index right)).

Definition sort_largest_first : list UtxoEntry -> list UtxoEntry := sort_by largest_first.
Definition sort_smallest_first : list UtxoEntry -> list UtxoEntry := sort_by smallest_first.
Definition sort_for_display : list UtxoEntry -> list UtxoEntry := sort_by display_order.

Definition checked_total (utxos : list UtxoEntry) : result Z BuildError :=
  try_fold (fun total utxo => ok_or (checked_add total (amount utxo)) UtxoTotalOverflow) 0 utxos.

(** The [for utxo in ...] loop of [select_automatic_with_limit]: [inl] is the
    early return, [inr] what the loop leaves in [selected] and [total]. *)
Fixpoint accumulate (utxos : list UtxoEntry) (required total : Z) (selected : list UtxoEntry)
  : result (list UtxoEntry + list UtxoEntry) BuildError :=
  match utxos with
  | [] => Ok (inr selected)
  | utxo :: utxos' =>
      let? total := ok_or (checked_add total (amount utxo)) UtxoTotalOverflow in
      let selected := selected ++ [utxo] in
      if required <=? total then Ok (inl selected) else accumulate utxos' required total selected
  end.

Definition take_Z {A} (count : Z) (l : list A) : list A := take (Z.to_nat count) l.

Definition select_automatic_with_limit (utxos : list UtxoEntry) (required max_inputs : Z)
  : result (list UtxoEntry) BuildError :=
  if max_inputs =? 0 then Err SelectionLimitZero
  else
    let? outcome := accumulate (take_Z max_inputs (sort_largest_first utxos)) required 0 [] in
    match outcome with
    | inl selected => Ok selected
    | inr selected =>
        let? available := checked_total selected in
        Err (InsufficientFunds max_inputs available required)
    end.

Definition select_automatic (utxos : list UtxoEntry) (required : Z) : result (list UtxoEntry) BuildError :=
  select_automatic_with_limit utxos required usize_max.

Definition select_for_consolidation (utxos : list UtxoEntry) (maximum_inputs : Z)
  : result (list UtxoEntry) BuildError :=
  match utxos with
  | [] => Err (NothingToConsolidate 0)
  | [_] => Err (NothingToConsolidate 1)
  | _ => Ok (take_Z maximum_inputs (sort_largest_first utxos))
  end.

(** The loop of [select_explicit]; [seen] is the hash set of indices. *)
Fixpoint pick (utxos : list UtxoEntry) (indices : list Z) (seen : gset Z) (selected : list UtxoEntry)
  : result (list UtxoEntry) BuildError :=
  match indices with
  | [] => Ok selected
  | index :: indices' =>
      if bool_decide (index ∈ seen) then Err (DuplicateIndex index)
      else
        let? utxo := ok_or (get_at utxos index) (IndexOutOfRange index (blen utxos)) in
        pick utxos indices' ({[index]} ∪ seen) (selected ++ [utxo])
  end.

Definition select_explicit (utxos : list UtxoEntry) (indices : list Z) : result (list UtxoEntry) BuildError :=
  pick (sort_for_display utxos) indices ∅ [].

(** * Theorems *)

(** ** Sorting *)

Section sorted.
Context {A : Type} (cmp : A -> A -> comparison).
Definition cmp_le (x y : A) : Prop := cmp x y <> Gt.
Hypothesis cmp_total : forall x y, cmp x y = Gt -> cmp_le y x.
Hypothesis cmp_trans : forall x y z, cmp_le x y -> cmp_le y z -> cmp_le x z.

Lemma insert_stable_Permutation x l : insert_stable cmp x l ≡ₚ x :: l.
Proof.
  induction l as [|y l IH]; cbn; [done|]. destruct (cmp x y); try done. rewrite IH. apply Permutation_swap.
Qed.

Lemma sort_by_Permutation l : sort_by cmp l ≡ₚ l.
Proof. induction l as [|x l IH]; cbn; [done|]. by rewrite insert_stable_Permutation, IH. Qed.

Lemma insert_stable_sorted x l :
  StronglySorted cmp_le l -> StronglySorted cmp_le (insert_stable cmp x l).
Proof.
  induction 1 as [|y l Hl IH Hy]; cbn; [repeat constructor|].
  destruct (cmp x y) eqn:Hxy.
  1, 2: constructor; [by constructor|]; constructor; [congruence|];
    eapply Forall_impl; [exact Hy|]; intros z Hz; eapply cmp_trans; [|exact Hz]; congruence.
  constructor; [done|]. rewrite insert_stable_Permutation. constructor; [by apply cmp_total | done].
Qed.

Lemma sort_by_sorted l : StronglySorted cmp_le (sort_by cmp l).
Proof. induction l as [|x l IH]; cbn; [constructor | by apply insert_stable_sorted]. Qed.

(** Elements that compare equal keep their order. *)
Lemma insert_stable_filter (P : A -> Prop) `{forall x, Decision (P x)} x l :
  (forall y z, P y -> P z -> cmp y z <> Gt) ->
  filter P (insert_stable cmp x l) = filter P (x :: l).
Proof.
  intros HP. induction l as [|y l IH]; cbn [insert_stable]; [done|].
  destruct (cmp x y) eqn:Hxy; try done.
  rewrite (filter_cons P y), IH, !filter_cons.
  destruct (decide (P y)), (decide (P x)); try done. by destruct (HP x y).
Qed.

Lemma sort_by_stable (P : A -> Prop) `{forall x, Decision (P x)} l :
  (forall y z, P y -> P z -> cmp y z <> Gt) -> filter P (sort_by cmp l) = filter P l.
Proof.
  intros HP. induction l as [|x l IH]; cbn [sort_by foldr]; [done|].
  rewrite insert_stable_filter by done. rewrite !filter_cons. fold (sort_by cmp l). by rewrite IH.
Qed.
End sorted.

Lemma largest_first_le x y : cmp_le largest_first x y <-> amount y <= amount x.
Proof. reflexivity. Qed.

Lemma sort_largest_first_sorted utxos :
  StronglySorted (fun x y => amount y <= amount x) (sort_largest_first utxos).
Proof.
  assert (H : StronglySorted (cmp_le largest_first) (sort_largest_first utxos)).
  { apply sort_by_sorted.
    - intros x y H%Z.compare_gt_iff. rewrite largest_first_le. lia.
    - intros x y z. rewrite !largest_first_le. lia. }
  induction H as [|x l _ IH H]; constructor; [done|].
  eapply Forall_impl; [exact H|]. intros y. by rewrite largest_first_le.
Qed.

(** ** Selections of a list sorted by decreasing amount *)

Definition total (l : list UtxoEntry) : Z := sum_by amount l.
Definition amounts_ok (l : list UtxoEntry) : Prop := Forall (fun u => u64_ok (amount u)) l.
Definition decreasing : list UtxoEntry -> Prop := StronglySorted (fun x y => amount y <= amount x).

Lemma total_nil : total [] = 0.
Proof. done. Qed.

Lemma total_nonneg l : amounts_ok l -> 0 <= total l.
Proof. intros H. apply sum_by_nonneg. eapply Forall_impl; [exact H|]. intros u Hu. apply Hu. Qed.

Lemma total_take_le l j k : amounts_ok l -> (j <= k)%nat -> total (take j l) <= total (take k l).
Proof.
  intros Hok Hjk. rewrite <- (take_drop j (take k l)), take_take, Nat.min_l by done.
  unfold total. rewrite sum_by_app.
  enough (0 <= sum_by amount (drop j (take k l))) by lia.
  apply total_nonneg. unfold amounts_ok. by apply Forall_drop, Forall_take.
Qed.

Lemma total_take_cons x s k :
  decreasing (x :: s) -> amounts_ok (x :: s) -> total (take k s) <= total (take k (x :: s)).
Proof.
  intros Hs Hok. inversion_clear Hs as [|? ? Hs' Hx]. inversion_clear Hok as [|? ? Hx0 Hok'].
  destruct k as [|k]; [done|]. cbn [take]. unfold total. rewrite sum_by_cons.
  destruct (s !! k) as [y|] eqn:Hy.
  - rewrite (take_S_r _ _ _ Hy), sum_by_app, sum_by_cons, sum_by_nil.
    rewrite Forall_forall in Hx. specialize (Hx y ltac:(by eapply list_elem_of_lookup_2)). lia.
  - apply lookup_ge_None in Hy. rewrite !take_ge by lia. unfold u64_ok in Hx0. lia.
Qed.

(** The largest [k] outputs hold the most any [k] outputs can. *)
Lemma total_submseteq_le s l :
  decreasing s -> amounts_ok s -> l ⊆+ s -> total l <= total (take (length l) s).
Proof.
  intros Hs. revert l. induction Hs as [|x s Hs IH Hx]; intros l Hok Hl.
  - apply submseteq_nil_r in Hl as ->. done.
  - inversion_clear Hok as [|? ? Hx0 Hok']. apply submseteq_cons_r in Hl as [Hl|(l' & Hl & Hl')].
    + etransitivity; [by apply IH|]. apply total_take_cons; by constructor.
    + unfold total at 1. rewrite (sum_by_Permutation _ _ _ Hl), Hl. cbn [length take].
      unfold total. rewrite !sum_by_cons. apply Zplus_le_compat_l. by apply IH.
Qed.

Lemma accumulate_spec s required t selected :
  amounts_ok s -> 0 <= t ->
  match accumulate s required t selected with
  | Ok (inl r) => exists k, (0 < k <= length s)%nat /\ r = selected ++ take k s /\
      required <= t + total (take k s) <= u64_max /\
      (forall j, (0 < j < k)%nat -> t + total (take j s) < required)
  | Ok (inr r) => r = selected ++ s /\ (s <> [] -> t + total s <= u64_max) /\
      (forall j, (0 < j <= length s)%nat -> t + total (take j s) < required)
  | Err e => e = UtxoTotalOverflow /\ u64_max < t + total s
  end.
Proof.
  intros Hok. revert t selected. induction Hok as [|u s Hu Hok IH]; intros t selected Ht.
  - cbn. rewrite app_nil_r. split_and!; [done|done|]. intros j ?. lia.
  - cbn [accumulate]. pose proof (total_nonneg s Hok) as Hn. unfold u64_ok in Hu.
    assert (Hcons : forall j, total (take (S j) (u :: s)) = amount u + total (take j s)) by done.
    assert (Hall : total (u :: s) = amount u + total s) by done.
    destruct (checked_add t (amount u)) as [t'|] eqn:Ha; cbn [ok_or rbind].
    2: { checked_inv. unfold u64_ok, u64_max in *. split; [done|lia]. }
    checked_inv. subst. unfold u64_ok in *. destruct (Z.leb_spec required (t + amount u)).
    + exists 1%nat. rewrite Hcons, take_0, total_nil. unfold u64_max.
      split_and!; [cbn; lia..|done|lia|lia|]. intros. lia.
    + specialize (IH (t + amount u) (selected ++ [u]) ltac:(lia)).
      assert (Hone : t + total (take 1 (u :: s)) < required) by (rewrite Hcons, take_0, total_nil; lia).
      destruct (accumulate _ _ _ _) as [[r|r]|e].
      * destruct IH as (k & Hk & -> & Hreq & Hmin). exists (S k). rewrite Hcons, <- app_assoc.
        split_and!; [cbn; lia..|done|lia|lia|]. intros j Hj. destruct j as [|[|j]]; [lia|done|].
        rewrite Hcons. specialize (Hmin (S j) ltac:(lia)). lia.
      * destruct IH as (-> & Hmax & Hmin). rewrite <- app_assoc. split_and!; [done| |].
        -- intros _. destruct s; [rewrite Hall, total_nil; unfold u64_max; lia | specialize (Hmax ltac:(done)); lia].
        -- intros j Hj. destruct j as [|[|j]]; [lia|done|].
           rewrite Hcons. specialize (Hmin (S j) ltac:(cbn in Hj; lia)). lia.
      * destruct IH as [-> H']. split; [done|lia].
Qed.

Lemma take_submseteq {A} k (l : list A) : take k l ⊆+ l.
Proof. rewrite <- (take_drop k l) at 2. apply submseteq_inserts_r. done. Qed.

Lemma amounts_ok_Permutation l l' : l ≡ₚ l' -> amounts_ok l -> amounts_ok l'.
Proof. unfold amounts_ok. by intros ->. Qed.

(** Taking fewer than the limit of a list already cut at the limit. *)
Lemma take_limit_submseteq {A} (l s : list A) k : l ⊆+ s -> (length l <= k)%nat -> (length l <= length (take k s))%nat.
Proof. intros H%submseteq_length Hk. rewrite length_take. lia. Qed.

Lemma select_automatic_prefix utxos required limit selected :
  amounts_ok utxos -> select_automatic_with_limit utxos required limit = Ok selected ->
  selected ⊆+ utxos /\ (0 <= limit -> blen selected <= limit) /\ required <= total selected <= u64_max.
Proof.
  intros Hok. unfold select_automatic_with_limit. destruct (limit =? 0); [done|].
  pose proof (sort_by_Permutation largest_first utxos) as Hperm. fold sort_largest_first in Hperm.
  set (s := sort_largest_first utxos) in *. clearbody s.
  pose proof (amounts_ok_Permutation _ _ (symmetry Hperm) Hok) as Hs.
  assert (Hcut : amounts_ok (take_Z limit s)) by (unfold amounts_ok, take_Z; by apply Forall_take).
  pose proof (accumulate_spec (take_Z limit s) required 0 [] Hcut ltac:(lia)) as Hacc.
  intros (out & Hout & H)%rbind_Ok_inv. rewrite Hout in Hacc.
  destruct out as [r|r]; [|by apply rbind_Ok_inv in H as (? & _ & ?)]. injection H as <-.
  destruct Hacc as (k & Hk & -> & Hr & _). cbn [app]. unfold take_Z in *. split_and!; [|intros|lia|lia].
  - rewrite <- Hperm. rewrite take_take. apply take_submseteq.
  - unfold blen. rewrite !length_take. lia.
Qed.

(** Automatic selection takes the largest outputs, in order, within the
    limit, covers the required amount, and uses as few outputs as any
    selection that covers it; it reports insufficient funds only when no
    selection within the limit covers the amount, and then with the most any
    selection can reach; and it reports overflow only when the sum of the
    candidates is not a [u64]. *)
Theorem select_automatic_spec (utxos : list UtxoEntry) (required limit : Z) :
  amounts_ok utxos -> u64_ok required -> 0 < limit ->
  match select_automatic_with_limit utxos required limit with
  | Ok selected =>
      selected = take (length selected) (sort_largest_first utxos) /\ selected ⊆+ utxos /\
      blen selected <= limit /\ required <= total selected <= u64_max /\
      (0 < required -> forall other, other ⊆+ utxos -> required <= total other ->
         (length selected <= length other)%nat)
  | Err (InsufficientFunds limit' available required') =>
      limit' = limit /\ required' = required /\ (available < required \/ utxos = []) /\
      (exists best, best ⊆+ utxos /\ blen best <= limit /\ total best = available) /\
      forall other, other ⊆+ utxos -> blen other <= limit -> total other <= available
  | Err e => e = UtxoTotalOverflow /\ u64_max < total (take_Z limit (sort_largest_first utxos))
  end.
Proof.
  intros Hok Hreq Hlimit. unfold select_automatic_with_limit.
  rewrite (proj2 (Z.eqb_neq _ _)) by lia.
  pose proof (sort_by_Permutation largest_first utxos) as Hperm. fold sort_largest_first in Hperm.
  pose proof (sort_largest_first_sorted utxos) as Hsorted. fold (decreasing (sort_largest_first utxos)) in Hsorted.
  set (s := sort_largest_first utxos) in *. clearbody s.
  pose proof (amounts_ok_Permutation _ _ (symmetry Hperm) Hok) as Hs.
  assert (Hcut : amounts_ok (take_Z limit s)) by (unfold amounts_ok, take_Z; by apply Forall_take).
  pose proof (accumulate_spec (take_Z limit s) required 0 [] Hcut ltac:(lia)) as Hacc.
  destruct (accumulate _ _ _ _) as [[r|r]|e]; cbn [rbind].
  - destruct Hacc as (k & Hk & -> & Hr & Hmin). unfold take_Z in *. rewrite length_take in Hk.
    cbn [app]. rewrite take_take, Nat.min_l in * by lia.
    assert (Hlen : length (take k s) = k) by (rewrite length_take; lia). rewrite Hlen.
    split_and!; [done|rewrite <- Hperm; apply take_submseteq|unfold blen; lia|lia|lia|].
    intros Hpos other Hother Hcover. apply Nat.nlt_ge. intros Hlt.
    rewrite <- Hperm in Hother. pose proof (total_submseteq_le s other Hsorted Hs Hother).
    destruct (length other) as [|j] eqn:Ej; [rewrite take_0, total_nil in *; lia|].
    specialize (Hmin (S j) ltac:(lia)). rewrite take_take, Nat.min_l in Hmin by lia. lia.
  - destruct Hacc as (-> & Hmax & Hmin). cbn [app].
    assert (Htot : checked_total (take_Z limit s) = Ok (total (take_Z limit s))).
    { unfold checked_total, total. rewrite (try_fold_sum_total _ amount); [done| | |done|].
      - intros. by apply checked_add_total.
      - eapply Forall_impl; [exact Hcut|]. intros u Hu. apply Hu.
      - destruct (take_Z limit s) eqn:E; [done | rewrite <- E in *]. rewrite Z.add_0_l. apply Hmax. congruence. }
    rewrite Htot. cbn [rbind]. split_and!; [done|done| | |].
    + destruct (decide (take_Z limit s = [])) as [He|Hne].
      * right. unfold take_Z in He. destruct s; [by apply Permutation_nil_l in Hperm|].
        destruct (Z.to_nat limit) eqn:El; [lia|done].
      * left. specialize (Hmin (length (take_Z limit s))).
        rewrite take_ge in Hmin by done. destruct (take_Z limit s); [done|]. apply Hmin. cbn. lia.
    + exists (take_Z limit s). unfold take_Z. rewrite <- Hperm at 1. split_and!; [apply take_submseteq| |done].
      unfold blen. rewrite length_take. lia.
    + intros other Hother Hlen. rewrite <- Hperm in Hother.
      etransitivity; [by apply (total_submseteq_le s)|]. unfold take_Z. apply total_take_le; [done|].
      unfold blen in Hlen. lia.
  - destruct Hacc as [-> H]. split; [done | lia].
Qed.

(** ** The display order *)

Lemma cmp_text_refl a : cmp_text a a = Eq.
Proof. induction a as [|x a IH]; cbn; [done|]. by rewrite Z.compare_refl. Qed.

Lemma cmp_text_Eq a b : cmp_text a b = Eq -> a = b.
Proof.
  revert b. induction a as [|x a IH]; intros [|y b]; cbn; try done.
  destruct (x ?= y) eqn:E; try done. apply Z.compare_eq in E as ->. intros H. f_equal. by apply IH.
Qed.

Lemma cmp_text_antisym a b : cmp_text b a = CompOpp (cmp_text a b).
Proof.
  revert b. induction a as [|x a IH]; intros [|y b]; cbn; try done.
  rewrite (Z.compare_antisym x y). destruct (x ?= y); cbn; auto.
Qed.

Lemma cmp_text_trans a b c : cmp_text a b <> Gt -> cmp_text b c <> Gt -> cmp_text a c <> Gt.
Proof.
  revert b c. induction a as [|x a IH]; intros [|y b] [|z c]; cbn; try done.
  destruct (Z.compare_spec x y), (Z.compare_spec y z), (Z.compare_spec x z); try done; try lia. apply IH.
Qed.

Lemma display_le x y :
  cmp_le display_order x y <->
    amount y < amount x \/ amount x = amount y /\
      (cmp_text (tx_id x) (tx_id y) = Lt \/ tx_id x = tx_id y /\ index x <= index y).
Proof.
  unfold cmp_le, display_order, then_with.
  destruct (Z.compare_spec (amount y) (amount x)) as [->| |].
  - destruct (cmp_text (tx_id x) (tx_id y)) eqn:E.
    + apply cmp_text_Eq in E as ->. change ((index x ?= index y) <> Gt) with (index x <= index y). naive_solver lia.
    + naive_solver lia.
    + split; [done|]. intros [?|[_ [?|[H _]]]]; [lia|done|]. rewrite H, cmp_text_refl in E. done.
  - naive_solver lia.
  - naive_solver lia.
Qed.

Lemma display_total x y : display_order x y = Gt -> cmp_le display_order y x.
Proof.
  intros H. rewrite display_le. unfold display_order, then_with in H.
  destruct (Z.compare_spec (amount y) (amount x)) as [E| |]; [|done|lia].
  destruct (cmp_text (tx_id x) (tx_id y)) eqn:Et; [|done|].
  - apply cmp_text_Eq in Et. apply Z.compare_gt_iff in H. right. split; [done|]. right. split; [done|lia].
  - right. split; [done|]. left. rewrite cmp_text_antisym, Et. done.
Qed.

Lemma display_trans x y z :
  cmp_le display_order x y -> cmp_le display_order y z -> cmp_le display_order x z.
Proof.
  rewrite !display_le.
  assert (Ht : cmp_text (tx_id x) (tx_id y) = Lt -> cmp_text (tx_id y) (tx_id z) = Lt ->
    cmp_text (tx_id x) (tx_id z) = Lt).
  { intros H1 H2. pose proof (cmp_text_trans (tx_id x) (tx_id y) (tx_id z)) as Ht.
    destruct (cmp_text (tx_id x) (tx_id z)) eqn:E; [|done|].
    - apply cmp_text_Eq in E. rewrite E, cmp_text_antisym, H2 in H1. done.
    - exfalso. apply Ht; [by rewrite H1 | by rewrite H2 | done]. }
  intros [?|(? & [H1|[H1 ?]])] [?|(? & [H2|[H2 ?]])]; try (left; lia).
  - right. split; [lia|]. left. by apply Ht.
  - right. split; [lia|]. left. by rewrite <- H2.
  - right. split; [lia|]. left. by rewrite H1.
  - right. split; [lia|]. right. split; [congruence|lia].
Qed.

Definition outpoint (u : UtxoEntry) : list Z * Z := (tx_id u, index u).

(** The positions a user picks from do not depend on the order the node
    returned the outputs in: any two listings of the same set of outpoints
    are displayed identically, largest amount first. *)
Theorem sort_for_display_canonical (utxos utxos' : list UtxoEntry) :
  NoDup (map outpoint utxos) -> utxos ≡ₚ utxos' ->
  sort_for_display utxos = sort_for_display utxos' /\
  StronglySorted (fun x y => amount y <= amount x) (sort_for_display utxos).
Proof.
  intros Hnd Hperm. pose proof (sort_by_sorted display_order display_total display_trans) as Hs. split.
  - apply (StronglySorted_unique_strong (cmp_le display_order)); [| apply Hs | apply Hs |].
    2: { unfold sort_for_display. by rewrite !sort_by_Permutation. }
    unfold sort_for_display. intros x y. rewrite !sort_by_Permutation, <- Hperm, !display_le. intros Hx Hy H1 H2.
    assert (Ho : outpoint x = outpoint y).
    { unfold outpoint. destruct H1 as [?|(? & [H1|[E1 ?]])], H2 as [?|(? & [H2|[E2 ?]])]; try lia.
      - rewrite cmp_text_antisym, H1 in H2. done.
      - rewrite E2, cmp_text_refl in H1. done.
      - rewrite E1, cmp_text_refl in H2. done.
      - f_equal; [done|lia]. }
    apply list_elem_of_lookup_1 in Hx as [i Hi]. apply list_elem_of_lookup_1 in Hy as [j Hj].
    assert (i = j) as ->; [|congruence].
    apply (NoDup_lookup _ _ _ (outpoint x) Hnd).
    + change (map outpoint utxos) with (outpoint <$> utxos). by rewrite list_lookup_fmap, Hi.
    + change (map outpoint utxos) with (outpoint <$> utxos). by rewrite list_lookup_fmap, Hj, Ho.
  - unfold sort_for_display. specialize (Hs utxos). induction Hs as [|x l _ IH H]; constructor; [done|].
    eapply Forall_impl; [exact H|]. intros y. rewrite display_le. lia.
Qed.

(** ** Explicit selection *)

Lemma omap_submseteq {A B} (f : A -> option B) l k : l ⊆+ k -> omap f l ⊆+ omap f k.
Proof.
  induction 1 as [|x l k _ IH|x y l|x l k _ IH|l k m _ IH1 _ IH2]; cbn.
  - done.
  - destruct (f x); [by apply submseteq_skip | done].
  - destruct (f x), (f y); try done. apply submseteq_swap.
  - destruct (f x); [by apply submseteq_cons | done].
  - by etransitivity.
Qed.

Lemma omap_lookup_seq {A} (l : list A) : omap (fun i => l !! i) (seq 0 (length l)) = l.
Proof.
  induction l as [|x l IH]; cbn; [done|]. f_equal. rewrite <- fmap_S_seq.
  transitivity (omap (fun i => l !! i) (seq 0 (length l))); [|exact IH].
  clear IH. generalize (seq 0 (length l)). intros s. induction s as [|i s IHs]; cbn; [done|].
  destruct (l !! i); [f_equal|]; done.
Qed.

(** Distinct positions of a list select a part of it. *)
Lemma distinct_lookups_submseteq {A} (l : list A) (ixs : list Z) us :
  NoDup ixs -> Forall2 (fun i u => get_at l i = Some u) ixs us -> us ⊆+ l.
Proof.
  intros Hnd HF.
  assert (Hus : us = omap (fun i => l !! i) (map Z.to_nat ixs) /\
    Forall (fun i => 0 <= i < Z.of_nat (length l)) ixs).
  { clear Hnd. induction HF as [|i u ixs us Hi _ [IH1 IH2]]; [done|].
    unfold get_at in Hi. destruct (Z.leb_spec 0 i); [|done]. cbn. rewrite Hi. split; [by f_equal|].
    constructor; [|done]. apply lookup_lt_Some in Hi. lia. }
  destruct Hus as [-> Hr].
  enough (omap (fun i => l !! i) (map Z.to_nat ixs) ⊆+ omap (fun i => l !! i) (seq 0 (length l))) as Hsub
    by by rewrite omap_lookup_seq in Hsub.
  apply omap_submseteq, NoDup_submseteq.
  - clear HF. induction Hnd as [|i ixs Hi _ IH]; cbn; [constructor|].
    inversion_clear Hr as [|? ? Hi0 Hr']. constructor; [|by apply IH].
    change (map Z.to_nat ixs) with (Z.to_nat <$> ixs). rewrite list_elem_of_fmap. intros (j & Hj & Hin).
    rewrite Forall_forall in Hr'. specialize (Hr' _ Hin). apply Hi. by replace i with j by lia.
  - intros j Hj. change (map Z.to_nat ixs) with (Z.to_nat <$> ixs) in Hj.
    apply list_elem_of_fmap in Hj as (i & -> & Hi). rewrite Forall_forall in Hr. specialize (Hr _ Hi).
    rewrite elem_of_seq. lia.
Qed.

Lemma pick_Ok utxos indices seen selected r :
  pick utxos indices seen selected = Ok r <->
    exists us, r = selected ++ us /\ Forall2 (fun i u => get_at utxos i = Some u) indices us /\
      NoDup indices /\ Forall (fun i => i ∉ seen) indices.
Proof.
  revert seen selected. induction indices as [|i ixs IH]; intros seen selected; cbn [pick].
  - split.
    + intros [= <-]. exists []. rewrite app_nil_r. split_and!; [done|constructor..].
    + intros (us & -> & HF & _). inversion HF. by rewrite app_nil_r.
  - split.
    + case_bool_decide as Hi; [done|].
      destruct (get_at utxos i) as [u|] eqn:Hu; cbn [ok_or rbind]; [|done].
      intros (us & -> & HF & Hnd & Hseen)%IH. exists (u :: us). rewrite <- app_assoc.
      split_and!; [done|by constructor| |].
      * constructor; [|done]. intros Hin. rewrite Forall_forall in Hseen. specialize (Hseen _ Hin). set_solver.
      * constructor; [done|]. eapply Forall_impl; [exact Hseen|]. set_solver.
    + intros (us & -> & HF & Hnd & Hseen). inversion HF as [|? u ? us' Hu HF']; subst.
      inversion_clear Hnd as [|? ? Hi Hnd']. inversion_clear Hseen as [|? ? Hi' Hseen'].
      rewrite bool_decide_eq_false_2 by done. rewrite Hu. cbn [ok_or rbind]. apply IH.
      exists us'. rewrite <- app_assoc. split_and!; [done..|].
      rewrite Forall_forall in *. intros j Hj. specialize (Hseen' j Hj). set_solver.
Qed.

(** Explicit selection succeeds exactly for distinct positions inside the
    displayed list, returns precisely the outputs at those positions in the
    order asked for, and never selects one output twice. *)
Theorem select_explicit_spec (utxos : list UtxoEntry) (indices : list Z) (selected : list UtxoEntry) :
  (select_explicit utxos indices = Ok selected <->
     NoDup indices /\ Forall2 (fun i u => get_at (sort_for_display utxos) i = Some u) indices selected) /\
  (select_explicit utxos indices = Ok selected -> selected ⊆+ utxos).
Proof.
  assert (H : select_explicit utxos indices = Ok selected <->
     NoDup indices /\ Forall2 (fun i u => get_at (sort_for_display utxos) i = Some u) indices selected).
  { unfold select_explicit. rewrite pick_Ok. split.
    - intros (us & -> & HF & Hnd & _). done.
    - intros [Hnd HF]. exists selected. split_and!; [done..|]. apply Forall_forall. set_solver. }
  split; [done|]. intros [Hnd HF]%H. rewrite <- (sort_by_Permutation display_order utxos).
  by apply (distinct_lookups_submseteq _ indices).
Qed.

(** Consolidation takes the largest outputs up to its limit from two or
    more, and refuses to consolidate fewer. *)
Lemma select_for_consolidation_spec (utxos selected : list UtxoEntry) (limit : Z) :
  select_for_consolidation utxos limit = Ok selected <->
    (2 <= length utxos)%nat /\ selected = take_Z limit (sort_largest_first utxos).
Proof.
  unfold select_for_consolidation. destruct utxos as [|u [|u' utxos]]; cbn [length].
  - split; [done | lia].
  - split; [done | lia].
  - split; [intros [= <-]; split; [lia|done] | by intros [_ ->]].
Qed.

(** ** Witnesses *)

Definition sample_utxo (i a : Z) : UtxoEntry :=
  {| tx_id := [97 + i]; index := i; amount := a; script_public_key := []; block_daa_score := 0; covenant_id := None |}.
Definition sample_utxos : list UtxoEntry := [sample_utxo 0 30; sample_utxo 1 50; sample_utxo 2 50; sample_utxo 3 10].

Lemma select_automatic_spec_witness :
  exists selected, select_automatic_with_limit sample_utxos 90 8 = Ok selected /\
    map index selected = [1; 2] /\
    (forall other, other ⊆+ sample_utxos -> 90 <= total other -> (2 <= length other)%nat).
Proof.
  assert (E : select_automatic_with_limit sample_utxos 90 8 = Ok [sample_utxo 1 50; sample_utxo 2 50])
    by reflexivity.
  exists [sample_utxo 1 50; sample_utxo 2 50]. split; [exact E|]. split; [reflexivity|].
  pose proof (select_automatic_spec sample_utxos 90 8 ltac:(by_decide) ltac:(by_decide) ltac:(reflexivity)) as H.
  rewrite E in H. destruct H as (_ & _ & _ & _ & H). exact (H ltac:(reflexivity)).
Defined.

Lemma sort_for_display_canonical_witness :
  sort_for_display sample_utxos = sort_for_display (reverse sample_utxos) /\
  StronglySorted (fun x y => amount y <= amount x) (sort_for_display sample_utxos).
Proof. apply sort_for_display_canonical; [by_decide | by rewrite reverse_Permutation]. Defined.

Lemma select_explicit_spec_witness :
  select_explicit sample_utxos [2; 0] = Ok [sample_utxo 0 30; sample_utxo 1 50] /\
  [sample_utxo 0 30; sample_utxo 1 50] ⊆+ sample_utxos.
Proof. split; [reflexivity|]. apply (select_explicit_spec sample_utxos [2; 0]). reflexivity. Defined.
