(* ===== verification/Json.v ===== *)
(** * JSON values

    The [serde_json::Value] trees that plans, documents and indexed records
    carry, and the accessors the code uses on them. *)

From S2P Require Import Prelude.

(** [serde_json::Value]. The numbers the encoders write are integers; the
    fields of an object are a list in insertion order, without duplicate
    names. *)
Inductive Value :=
  | Null
  | Bool (b : bool)
  | Number (n : Z)
  | String (text : list Z)
  | Array (items : list Value)
  | Object (fields : list (list Z * Value)).

(** ** Access *)

Definition get_field (name : list Z) (fields : list (list Z * Value)) : option Value :=
  snd <$> find (fun field => list_Z_eqb field.1 name) fields.

(** [object[name] = value] and [entry(name).or_insert(value)]. *)
Fixpoint set_field (name : list Z) (value : Value) (fields : list (list Z * Value)) : list (list Z * Value) :=
  match fields with
  | [] => [(name, value)]
  | (name', value') :: fields' =>
      if list_Z_eqb name' name then (name, value) :: fields' else (name', value') :: set_field name value fields'
  end.
Definition or_insert (name : list Z) (value : Value) (fields : list (list Z * Value)) : list (list Z * Value) :=
  match get_field name fields with Some _ => fields | None => fields ++ [(name, value)] end.

Definition as_object (v : Value) : option (list (list Z * Value)) :=
  match v with Object fields => Some fields | _ => None end.
Definition as_array (v : Value) : option (list Value) :=
  match v with Array items => Some items | _ => None end.
