(* ===== verification/Plan.v ===== *)
(** * Unsigned transaction plans

    The canonical plan shared by the encoders ([transaction/builder/model]). *)

From S2P Require Import Prelude Json Selection.

(** ** [builder/model] *)

Record PlannedInput := {
  utxo : UtxoEntry;
  sequence : Z;
  sig_op_count : Z;
  redeem_script : option (list Z);
  in_bip32_derivations : option Value;
}.

Definition p2pk (u : UtxoEntry) : PlannedInput :=
  {| utxo := u; sequence := 0; sig_op_count := 1; redeem_script := None; in_bip32_derivations := None |}.

Definition p2sh_multisig (u : UtxoEntry) (redeem : list Z) (sig_ops : Z) : PlannedInput :=
  {| utxo := u; sequence := 0; sig_op_count := sig_ops; redeem_script := Some redeem;
     in_bip32_derivations := None |}.

Record PlannedOutput := {
  po_amount : Z;
  po_script_public_key : list Z;
  derivation_hint : option (Z * Z);
  out_bip32_derivations : option Value;
}.

Definition new_output (amount : Z) (script_public_key : list Z) : PlannedOutput :=
  {| po_amount := amount; po_script_public_key := script_public_key; derivation_hint := None;
     out_bip32_derivations := None |}.

Definition with_derivation (o : PlannedOutput) (branch index : Z) : PlannedOutput :=
  {| po_amount := po_amount o; po_script_public_key := po_script_public_key o;
     derivation_hint := Some (branch, index); out_bip32_derivations := out_bip32_derivations o |}.

Record UnsignedTransactionPlan := {
  plan_tx_version : Z;
  plan_inputs : list PlannedInput;
  plan_outputs : list PlannedOutput;
  plan_payload : list Z;
}.

Definition standard (inputs : list UtxoEntry) (outputs : list PlannedOutput) : UnsignedTransactionPlan :=
  {| plan_tx_version := 0; plan_inputs := map p2pk inputs; plan_outputs := outputs; plan_payload := [] |}.

Definition multisig (inputs : list UtxoEntry) (outputs : list PlannedOutput) (redeem : list Z) (sig_ops : Z)
  : UnsignedTransactionPlan :=
  {| plan_tx_version := 0; plan_inputs := map (fun u => p2sh_multisig u redeem sig_ops) inputs;
     plan_outputs := outputs; plan_payload := [] |}.
