(* ===== verification/Pskb.v ===== *)
(** * The PSKB encoder

    [pskt/pskb/encoder.rs], [pskb/json.rs], [pskb/model.rs] and the exact
    integer check of [pskt/exact_json.rs]. [serde_json::to_vec] is a
    third-party serializer and stays a parameter; [hex::encode] is lowercase
    hexadecimal text. *)

From S2P Require Import Prelude Bytes Json Selection Plan.
Import Hex Decimal.

(** ** [exact_json.rs] *)

Inductive PskbError :=
  | NotDecimalString (field : list Z)
  | NotCanonicalDecimal (field : list Z)
  | InvalidDecimal (field : list Z)
  | NotAnObject (what : list Z)
  | MissingAmount
  | PayloadTooLarge
  | TooManyInputs
  | TooManyOutputs
  | MissingGlobal
  | SerializeFailed.

Definition parse_decimal_u64 (text field : list Z) : result Z PskbError :=
  if bool_decide (text = []) || negb (forallb is_ascii_digit text)
     || ((1 <? blen text) && (default 0 (head text) =? 48))
  then Err (NotCanonicalDecimal field)
  else ok_or (parse_digits u64_max 0 text) (InvalidDecimal field).

Definition parse_exact_u64 (value : Value) (field : list Z) : result Z PskbError :=
  match value with
  | String text => parse_decimal_u64 text field
  | _ => Err (NotDecimalString field)
  end.

Definition check_optional_field (object : list (list Z * Value)) (field : list Z) : result unit PskbError :=
  match get_field field object with
  | None | Some Null => Ok tt
  | Some value => let? _ := parse_exact_u64 value field in Ok tt
  end.

Definition validate_optional_fields (object : list (list Z * Value)) (fields : list (list Z))
  : result unit PskbError :=
  try_fold (fun _ field => check_optional_field object field) tt fields.

Definition array (document : list (list Z * Value)) (field : list Z) : list Value :=
  default [] (get_field field document ≫= as_array).

Definition validate_input (input : Value) : result unit PskbError :=
  let? object := ok_or (as_object input) (NotAnObject (str "input")) in
  let? _ := validate_optional_fields object [str "sequence"; str "minTime"] in
  match get_field (str "utxoEntry") object ≫= as_object with
  | Some utxo => validate_optional_fields utxo [str "amount"; str "blockDaaScore"]
  | None => Ok tt
  end.

Definition validate_output (output : Value) : result unit PskbError :=
  let? object := ok_or (as_object output) (NotAnObject (str "output")) in
  let? amount := ok_or (get_field (str "amount") object) MissingAmount in
  let? _ := parse_exact_u64 amount (str "amount") in Ok tt.

Definition validate_pskt_exact_fields (pskt : Value) : result unit PskbError :=
  let? document := ok_or (as_object pskt) (NotAnObject (str "PSKT")) in
  let? _ :=
    match get_field (str "global") document ≫= as_object with
    | Some global => validate_optional_fields global [str "fallbackLockTime"; str "gas"]
    | None => Ok tt
    end in
  let? _ := try_fold (fun _ input => validate_input input) tt (array document (str "inputs")) in
  try_fold (fun _ output => validate_output output) tt (array document (str "outputs")).

(** ** [pskb/model.rs] *)

Record PskbOutput := {
  pb_amount : Z;
  pb_script : list Z;
  pb_covenant : option (Z * list Z);
  pb_derivation_hint : option (Z * Z);
  pb_bip32_derivations : option Value;
}.

Definition plain (amount : Z) (script : list Z) : PskbOutput :=
  {| pb_amount := amount; pb_script := script; pb_covenant := None; pb_derivation_hint := None;
     pb_bip32_derivations := None |}.

Definition from_planned (o : PlannedOutput) : PskbOutput :=
  {| pb_amount := po_amount o; pb_script := po_script_public_key o; pb_covenant := None;
     pb_derivation_hint := derivation_hint o; pb_bip32_derivations := out_bip32_derivations o |}.

(** ** [pskb/json.rs] *)

Definition text (s : string) : Value := String (str s).
Definition decimal (n : Z) : Value := String (to_string n).
Definition versioned_script (script : list Z) : Value := String (str "0000" ++ hex_text script).
Definition SIGNER_DERIVATION_FIELD : list Z := str "kassignerDerivation".

Definition input_value (input : PlannedInput) : Value :=
  Object [
    (str "utxoEntry", Object [
      (str "amount", decimal (amount (utxo input)));
      (str "scriptPublicKey", versioned_script (script_public_key (utxo input)));
      (str "blockDaaScore", decimal (block_daa_score (utxo input)));
      (str "isCoinbase", Bool false)]);
    (str "previousOutpoint", Object [
      (str "transactionId", String (tx_id (utxo input)));
      (str "index", Number (index (utxo input)))]);
    (str "sequence", decimal (sequence input));
    (str "minTime", Null);
    (str "partialSigs", Object []);
    (str "sighashType", Number 1);
    (str "redeemScript",
      match redeem_script input with Some script => String (hex_text script) | None => Null end);
    (str "sigOpCount", Number (sig_op_count input));
    (str "bip32Derivations", default (Object []) (in_bip32_derivations input));
    (str "finalScriptSig", Null);
    (str "proprietaries", Object [])].

Definition output_value (output : PskbOutput) (include_covenant_binding : bool) : Value :=
  let covenant_binding :=
    match pb_covenant output with
    | Some (authorizing_input, covenant_id) =>
        Object [(str "authorizingInput", Number authorizing_input);
                (str "covenantId", String (hex_text covenant_id))]
    | None => Null
    end in
  let proprietaries :=
    match pb_derivation_hint output with
    | Some (branch, index) =>
        [(SIGNER_DERIVATION_FIELD, Object [(str "branch", Number branch); (str "index", decimal index)])]
    | None => []
    end in
  let derivations := default (Object []) (pb_bip32_derivations output) in
  if include_covenant_binding then
    Object [
      (str "amount", decimal (pb_amount output));
      (str "scriptPublicKey", versioned_script (pb_script output));
      (str "covenantBinding", covenant_binding);
      (str "redeemScript", Null);
      (str "bip32Derivations", derivations);
      (str "proprietaries", Object proprietaries)]
  else
    Object [
      (str "amount", decimal (pb_amount output));
      (str "scriptPublicKey", versioned_script (pb_script output));
      (str "redeemScript", Null);
      (str "bip32Derivations", derivations);
      (str "proprietaries", Object proprietaries)].

(** ** [pskb/encoder.rs] *)

Definition MAX_PAYLOAD_SIZE : Z := 250000.

Section encoder.
Variable json_to_vec : Value -> option (list Z).

Definition encode_pskt_document (pskt : Value) : result (list Z) PskbError :=
  let? document := ok_or (as_object pskt) MissingGlobal in
  let? global := ok_or (get_field (str "global") document ≫= as_object) MissingGlobal in
  let global := or_insert (str "subnetworkId") (String (concat (replicate 20 (str "00")))) global in
  let pskt := Object (set_field (str "global") (Object global) document) in
  let? _ := validate_pskt_exact_fields pskt in
  let? json_bytes := ok_or (json_to_vec (Array [pskt])) SerializeFailed in
  Ok (hex_text (str "PSKB" ++ hex_text json_bytes)).

Definition encode_document (tx_version : Z) (inputs : list PlannedInput) (outputs : list PskbOutput)
    (payload : option (list Z)) (include_covenant_binding : bool) : result (list Z) PskbError :=
  if match payload with Some value => MAX_PAYLOAD_SIZE <? blen value | None => false end
  then Err PayloadTooLarge
  else if u32_max <? blen inputs then Err TooManyInputs
  else if u16_max <? blen outputs then Err TooManyOutputs
  else
    let inputs_json := map input_value inputs in
    let outputs_json := map (fun output => output_value output include_covenant_binding) outputs in
    let global := [
      (str "version", Number 0);
      (str "txVersion", Number tx_version);
      (str "fallbackLockTime", Null);
      (str "inputsModifiable", Bool false);
      (str "outputsModifiable", Bool false);
      (str "inputCount", Number (blen inputs));
      (str "outputCount", Number (blen outputs));
      (str "xpubs", Object []);
      (str "id", Null);
      (str "proprietaries", Object [])] in
    let global :=
      match payload with
      | Some payload => set_field (str "txPayload") (String (hex_text payload)) global
      | None => global
      end in
    encode_pskt_document (Object [
      (str "global", Object global);
      (str "inputs", Array inputs_json);
      (str "outputs", Array outputs_json)]).

Definition encode_plan (plan : UnsignedTransactionPlan) : result (list Z) PskbError :=
  let payload := if bool_decide (plan_payload plan = []) then None else Some (plan_payload plan) in
  encode_document (plan_tx_version plan) (plan_inputs plan) (map from_planned (plan_outputs plan)) payload false.

Definition encode_covenant (inputs : list UtxoEntry) (outputs : list PskbOutput) : result (list Z) PskbError :=
  encode_document 1 (map p2pk inputs) outputs None true.

Definition encode_covenant_with_payload (inputs : list UtxoEntry) (outputs : list PskbOutput) (payload : list Z)
  : result (list Z) PskbError :=
  let tx_version := if existsb (fun o => bool_decide (is_Some (pb_covenant o))) outputs then 1 else 0 in
  encode_document tx_version (map p2pk inputs) outputs (Some payload) true.
End encoder.

Definition plain_output_value (amount : Z) (script : list Z) : Value := output_value (plain amount script) false.

(** * Theorems *)

Lemma parse_decimal_to_string n field : u64_ok n -> parse_decimal_u64 (to_string n) field = Ok n.
Proof.
  intros Hn. unfold parse_decimal_u64, to_string. unfold u64_ok in Hn.
  destruct (to_digits_ok 20 n) as (Hd & Hne & Hz & _ & Hp); [change (10 ^ Z.of_nat 20) with 100000000000000000000; lia|lia|].
  generalize dependent (to_digits 20 n). intros t Hd Hne Hz Hp.
  rewrite bool_decide_eq_false_2, Hd by done. cbn [negb orb].
  rewrite Hp by (unfold u64_max; lia).
  destruct (Z.ltb_spec 1 (blen t)) as [Hl|]; cbn [andb]; [|done].
  by rewrite (proj2 (Z.eqb_neq _ _) (Hz Hl)).
Qed.

Lemma check_decimal_field object field n :
  get_field field object = Some (decimal n) -> u64_ok n -> check_optional_field object field = Ok tt.
Proof.
  intros Hget Hn. unfold check_optional_field. rewrite Hget. unfold parse_exact_u64, decimal.
  by rewrite parse_decimal_to_string.
Qed.

Definition input_ok (i : PlannedInput) : Prop :=
  u64_ok (amount (utxo i)) /\ u64_ok (block_daa_score (utxo i)) /\ u64_ok (sequence i).
Definition output_ok (o : PskbOutput) : Prop := u64_ok (pb_amount o).

Lemma validate_input_value i : input_ok i -> validate_input (input_value i) = Ok tt.
Proof.
  intros (Ha & Hd & Hs). unfold validate_input, input_value. cbn [as_object ok_or rbind].
  set (fields := [_; _; _; _; _; _; _; _; _; _; _]).
  unfold validate_optional_fields. cbn [try_fold].
  rewrite (check_decimal_field fields (str "sequence") (sequence i)) by done. cbn [rbind].
  change (check_optional_field fields (str "minTime")) with (@Ok unit PskbError tt). cbn [rbind].
  change (get_field (str "utxoEntry") fields ≫= as_object) with
    (Some [(str "amount", decimal (amount (utxo i)));
           (str "scriptPublicKey", versioned_script (script_public_key (utxo i)));
           (str "blockDaaScore", decimal (block_daa_score (utxo i)));
           (str "isCoinbase", Bool false)]).
  cbv beta iota. clear fields. set (fields := [_; _; _; _]).
  rewrite (check_decimal_field fields (str "amount") (amount (utxo i))) by done. cbn [rbind].
  by rewrite (check_decimal_field fields (str "blockDaaScore") (block_daa_score (utxo i))) by done.
Qed.

(** The amount a reader of the document finds in one of its outputs. *)
Definition output_amount (v : Value) : option Z :=
  fields ← as_object v; amount ← get_field (str "amount") fields;
  match parse_exact_u64 amount (str "amount") with Ok n => Some n | Err _ => None end.

Lemma output_value_amount o b :
  output_ok o -> exists fields, as_object (output_value o b) = Some fields /\
    get_field (str "amount") fields = Some (decimal (pb_amount o)).
Proof. intros Ho. destruct b; eexists; (split; [reflexivity|reflexivity]). Qed.

Lemma validate_output_value o b :
  output_ok o -> validate_output (output_value o b) = Ok tt /\ output_amount (output_value o b) = Some (pb_amount o).
Proof.
  intros Ho. destruct (output_value_amount o b Ho) as (fields & Hf & Ha).
  unfold validate_output, output_amount. rewrite Hf. cbn [ok_or rbind mbind option_bind]. rewrite Ha.
  cbn [ok_or rbind mbind option_bind]. unfold parse_exact_u64, decimal. by rewrite parse_decimal_to_string.
Qed.

Lemma try_fold_unit {A E} (f : A -> result unit E) l :
  Forall (fun x => f x = Ok tt) l -> try_fold (fun _ x => f x) tt l = Ok tt.
Proof. induction 1 as [|x l Hx _ IH]; cbn [try_fold]; [done|]. by rewrite Hx. Qed.

(** The one document the encoder serializes. *)
Definition pskt_document (tx_version : Z) (inputs : list PlannedInput) (outputs : list PskbOutput)
    (payload : option (list Z)) (binding : bool) : Value :=
  Object [
    (str "global", Object ([
      (str "version", Number 0);
      (str "txVersion", Number tx_version);
      (str "fallbackLockTime", Null);
      (str "inputsModifiable", Bool false);
      (str "outputsModifiable", Bool false);
      (str "inputCount", Number (blen inputs));
      (str "outputCount", Number (blen outputs));
      (str "xpubs", Object []);
      (str "id", Null);
      (str "proprietaries", Object [])] ++
      (match payload with Some p => [(str "txPayload", String (hex_text p))] | None => [] end) ++
      [(str "subnetworkId", text "0000000000000000000000000000000000000000")]));
    (str "inputs", Array (map input_value inputs));
    (str "outputs", Array (map (fun o => output_value o binding) outputs))].

Lemma validate_document tx_version inputs outputs payload binding :
  Forall input_ok inputs -> Forall output_ok outputs ->
  validate_pskt_exact_fields (pskt_document tx_version inputs outputs payload binding) = Ok tt.
Proof.
  intros Hi Ho. unfold validate_pskt_exact_fields, pskt_document. cbn [as_object ok_or rbind].
  set (fields := [_; _; _]).
  change (array fields (str "inputs")) with (map input_value inputs).
  change (array fields (str "outputs")) with (map (fun o => output_value o binding) outputs).
  assert (Hg : match get_field (str "global") fields ≫= as_object with
    | Some global => validate_optional_fields global [str "fallbackLockTime"; str "gas"]
    | None => Ok tt end = @Ok unit PskbError tt) by (subst fields; destruct payload; reflexivity).
  rewrite Hg. cbn [rbind]. rewrite try_fold_unit.
  - cbn [rbind]. apply try_fold_unit, Forall_map. eapply Forall_impl; [exact Ho|].
    intros o H. by apply validate_output_value.
  - apply Forall_map. eapply Forall_impl; [exact Hi|]. apply validate_input_value.
Qed.

Lemma encode_document_spec json_to_vec tx_version inputs outputs payload binding :
  Forall input_ok inputs -> Forall output_ok outputs ->
  encode_document json_to_vec tx_version inputs outputs payload binding =
    if match payload with Some value => MAX_PAYLOAD_SIZE <? blen value | None => false end then Err PayloadTooLarge
    else if u32_max <? blen inputs then Err TooManyInputs
    else if u16_max <? blen outputs then Err TooManyOutputs
    else match json_to_vec (Array [pskt_document tx_version inputs outputs payload binding]) with
         | Some json => Ok (hex_text (str "PSKB" ++ hex_text json))
         | None => Err SerializeFailed
         end.
Proof.
  intros Hi Ho. pose proof (validate_document tx_version inputs outputs payload binding Hi Ho) as Hv.
  unfold encode_document. destruct (match payload with Some _ => _ | None => _ end); [done|].
  destruct (u32_max <? blen inputs); [done|]. destruct (u16_max <? blen outputs); [done|].
  transitivity (
    let? _ := validate_pskt_exact_fields (pskt_document tx_version inputs outputs payload binding) in
    let? json_bytes := ok_or (json_to_vec (Array [pskt_document tx_version inputs outputs payload binding]))
      SerializeFailed in
    Ok (hex_text (str "PSKB" ++ hex_text json_bytes))); [destruct payload; reflexivity|].
  rewrite Hv. cbn [rbind]. by destruct (json_to_vec _).
Qed.

(** What the document says about each output and input amount. *)
Definition document_outputs (pskt : Value) : list Value :=
  match as_object pskt with Some document => array document (str "outputs") | None => [] end.

(** Encoding a plan whose amounts, sequences and DAA scores are [u64]s
    fails only for a payload over the consensus limit, too many inputs or
    outputs, or a serializer failure: its own exact-integer check never
    refuses a plan. The wire is the hexadecimal text of the PSKB magic and the
    document's JSON, and every output amount of the document is read back
    exactly by the strict decimal parser. *)
Theorem encode_plan_exact (json_to_vec : Value -> option (list Z)) (plan : UnsignedTransactionPlan) :
  Forall input_ok (plan_inputs plan) -> Forall (fun o => u64_ok (po_amount o)) (plan_outputs plan) ->
  let payload := if bool_decide (plan_payload plan = []) then None else Some (plan_payload plan) in
  let document := pskt_document (plan_tx_version plan) (plan_inputs plan)
    (map from_planned (plan_outputs plan)) payload false in
  encode_plan json_to_vec plan =
    (if MAX_PAYLOAD_SIZE <? blen (plan_payload plan) then Err PayloadTooLarge
     else if u32_max <? blen (plan_inputs plan) then Err TooManyInputs
     else if u16_max <? blen (plan_outputs plan) then Err TooManyOutputs
     else match json_to_vec (Array [document]) with
          | Some json => Ok (hex_text (str "PSKB" ++ hex_text json))
          | None => Err SerializeFailed
          end) /\
  map output_amount (document_outputs document) = map (fun o => Some (po_amount o)) (plan_outputs plan).
Proof.
  intros Hi Ho payload document. split.
  - unfold encode_plan. rewrite encode_document_spec; [|done|by apply Forall_map]. fold payload. fold document.
    replace (blen (map from_planned (plan_outputs plan))) with (blen (plan_outputs plan))
      by (unfold blen; by rewrite length_map).
    replace (match payload with Some value => _ | None => _ end) with (MAX_PAYLOAD_SIZE <? blen (plan_payload plan)); [done|].
    subst payload. case_bool_decide as Hp; [by rewrite Hp | done].
  - change (document_outputs document) with
      (map (fun o => output_value o false) (map from_planned (plan_outputs plan))).
    rewrite !map_map. apply map_ext_in. intros o Hin%list_elem_of_In. rewrite Forall_forall in Ho.
    by destruct (validate_output_value (from_planned o) false (Ho o Hin)).
Qed.

(** ** Witness *)

Lemma encode_plan_exact_witness :
  let plan := standard [{| tx_id := str "ab"; index := 0; amount := 500; script_public_key := [1];
      block_daa_score := 7; covenant_id := None |}] [new_output 400 [2]] in
  encode_plan (fun _ => Some (str "json")) plan = Ok (hex_text (str "PSKB" ++ hex_text (str "json"))) /\
  map output_amount (document_outputs (pskt_document 0 (plan_inputs plan)
    (map from_planned (plan_outputs plan)) None false)) = [Some 400].
Proof.
  intros plan.
  destruct (encode_plan_exact (fun _ => Some (str "json")) plan) as [H1 H2].
  - constructor; [|constructor]. by_decide.
  - constructor; [|constructor]. by_decide.
  - split; [exact H1 | exact H2].
Defined.
