(* ===== verification/Planner.v ===== *)
(** * Transaction plans

    [builder/planning/standard.rs] and [multisig.rs], the synchronous half of
    [builder/standard.rs] with its storage-mass fee iteration, and the payload
    planner of [builder/standard/payload.rs]. The [async] functions only fetch
    the outputs these functions plan over. *)

From S2P Require Import Prelude Script Address Amounts Mass Json Selection Plan Pskb.

(** [wallet/account/derivation.rs] *)
Record WalletData := {
  kpub : list Z;
  receive_addresses : list (list Z);
  change_addresses : list (list Z);
  next_receive_index : Z;
  next_change_index : Z;
}.

Definition of_address {A} (r : result A AddressError) : result A BuildError :=
  match r with Ok a => Ok a | Err e => Err (AddressFailure e) end.

Definition wallet_prefix (wallet : WalletData) : result (list Z) BuildError :=
  let? first := ok_or (head (receive_addresses wallet)) NoReceiveAddress in
  of_address (address_prefix first).

(** ** [builder/planning] *)

Definition plan_payment (wallet : WalletData) (selected : list UtxoEntry) (recipients : list PlannedOutput)
    (fee : Z) : result UnsignedTransactionPlan BuildError :=
  let? selected_total := checked_total selected in
  let? spend_total := checked_sum (map po_amount recipients) in
  let? change := calculate_change selected_total spend_total fee in
  let? recipients :=
    if 0 <? change then
      let? address := ok_or (get_at (change_addresses wallet) (next_change_index wallet)) NoChangeAddress in
      let? script := of_address (address_to_script_pubkey address) in
      if u32_max <? next_change_index wallet then Err ChangeIndexOverflow
      else Ok (recipients ++ [with_derivation (new_output change script) 1 (next_change_index wallet)])
    else Ok recipients in
  Ok (standard selected recipients).

Definition plan_consolidation (wallet : WalletData) (selected : list UtxoEntry) (fee : Z)
  : result UnsignedTransactionPlan BuildError :=
  let? total := checked_total selected in
  let? amount := ok_or (checked_sub total fee) BalanceTooLow in
  if amount =? 0 then Err BalanceTooLow
  else
    let? address := ok_or (head (receive_addresses wallet)) NoReceiveAddress in
    let? script := of_address (address_to_script_pubkey address) in
    Ok (standard selected [with_derivation (new_output amount script) 0 0]).

Definition plan_multisig (selected : list UtxoEntry) (destination : PlannedOutput) (fee : Z)
    (approved_change_script redeem : list Z) (sig_ops : Z)
  : result (UnsignedTransactionPlan * Z) BuildError :=
  if 3 <? blen selected then Err (TooManyMultisigInputs (blen selected))
  else
    let? selected_total := checked_total selected in
    let? change := calculate_change selected_total (po_amount destination) fee in
    let outputs := [destination] ++ if 0 <? change then [new_output change approved_change_script] else [] in
    Ok (multisig selected outputs redeem sig_ops, change).

(** ** [builder/standard.rs] *)

Definition DEFAULT_PLANNER_FEE_RATE : Z := 110.
Definition MINIMUM_PLANNER_FEE : Z := 300000.

Record PreparedSend := { output : PlannedOutput; required : Z; prepared_fee : Z }.

Definition validate_recipient_amount (amount : Z) : result unit BuildError :=
  if amount =? 0 then Err AmountZero
  else if is_dust amount then Err (AmountTooSmall amount)
  else Ok tt.

Definition prepare_send (wallet : WalletData) (destination : list Z) (amount fee : Z)
  : result PreparedSend BuildError :=
  let? _ := validate_recipient_amount amount in
  let? required := checked_required amount fee in
  let? prefix := wallet_prefix wallet in
  let? script := of_address (address_to_script_pubkey_on destination prefix) in
  Ok {| output := new_output amount script; required := required; prepared_fee := fee |}.

Definition required_mass_fee_for_scripts (inputs : list Cell) (input_count : Z) (outputs : list Cell)
    (output_script_lengths : list Z) (payload_len fee_rate minimum_fee : Z) : result Z BuildError :=
  if negb (blen output_script_lengths =? blen outputs) then Err MissingScriptLength
  else
    let effective_fee_rate := Z.max fee_rate MIN_STANDARD_FEE_RATE_SOMPI_PER_GRAM in
    let? (non_contextual_fee, _, _) :=
      estimate_non_contextual_fee input_count output_script_lengths payload_len effective_fee_rate in
    let? storage_mass := storage_mass_estimate inputs outputs in
    let? storage_fee := ok_or (checked_mul storage_mass effective_fee_rate) StorageFeeOverflow in
    Ok (Z.max (Z.max non_contextual_fee storage_fee) minimum_fee).

Definition required_mass_fee (inputs : list Cell) (input_count : Z) (outputs : list Cell)
    (output_script_length payload_len fee_rate minimum_fee : Z) : result Z BuildError :=
  required_mass_fee_for_scripts inputs input_count outputs [output_script_length] payload_len fee_rate minimum_fee.

Section fee_passes.
Context (inputs : list Cell) (input_count amount available_fee payload_len fee_rate minimum_fee : Z)
  (output_script_lengths : list Z).

(** The [for _ in 0..MAX_FEE_PASSES] loop. *)
Fixpoint fee_passes (passes : nat) (fee : Z) : result Z BuildError :=
  match passes with
  | O => Err FeeNotConverged
  | S passes' =>
      if available_fee <? fee then Ok fee
      else
        let change := available_fee - fee in
        if is_dust change then
          let? first_length := ok_or (head output_script_lengths) MissingScriptLength in
          let? required_no_change := required_mass_fee inputs input_count [(amount, 1)]
            first_length payload_len fee_rate minimum_fee in
          Ok (if required_no_change <=? available_fee then available_fee else required_no_change)
        else
          let? script_lengths := ok_or (slice output_script_lengths 0 2) MissingScriptLength in
          let? required_fee := required_mass_fee_for_scripts inputs input_count [(amount, 1); (change, 1)]
            script_lengths payload_len fee_rate minimum_fee in
          if required_fee <=? fee then Ok fee else fee_passes passes' required_fee
  end.
End fee_passes.

Definition storage_mass_fee_with_payload (selected : list UtxoEntry) (selected_total amount requested_fee
    payload_len : Z) (output_script_lengths : list Z) (fee_rate : Z) : result Z BuildError :=
  let MAX_FEE_PASSES := 256%nat in
  let inputs := map (fun u => (Selection.amount u, 1)) selected in
  let minimum_fee := Z.max MINIMUM_PLANNER_FEE requested_fee in
  let? _ := checked_required amount minimum_fee in
  let? available_fee := ok_or (checked_sub selected_total amount) BelowPayment in
  fee_passes inputs (blen selected) amount available_fee payload_len fee_rate minimum_fee
    output_script_lengths MAX_FEE_PASSES minimum_fee.

Definition storage_mass_fee (selected : list UtxoEntry) (selected_total amount requested_fee : Z)
  : result Z BuildError :=
  storage_mass_fee_with_payload selected selected_total amount requested_fee 0 [34; 34] DEFAULT_PLANNER_FEE_RATE.

(** ** The [create_*] functions, down to the PSKB wire

    [json_to_vec] is the JSON serializer of the encoder. *)

Inductive CreateError :=
  | Planning (error : BuildError)
  | Encoding (error : PskbError).

Definition planning {A} (r : result A BuildError) : result A CreateError :=
  match r with Ok a => Ok a | Err e => Err (Planning e) end.

Section create.
Variable json_to_vec : Value -> option (list Z).

Definition encode (plan : UnsignedTransactionPlan) : result (list Z) CreateError :=
  match encode_plan json_to_vec plan with Ok wire => Ok wire | Err e => Err (Encoding e) end.

Definition encode_payment (wallet : WalletData) (selected : list UtxoEntry) (out : PlannedOutput) (fee : Z)
  : result (list Z) CreateError :=
  let? plan := planning (plan_payment wallet selected [out] fee) in
  encode plan.

Definition create_pskb_with_utxos (wallet : WalletData) (destination : list Z) (amount requested_fee : Z)
    (selected : list UtxoEntry) : result (list Z) CreateError :=
  let? prepared := planning (prepare_send wallet destination amount requested_fee) in
  match selected with
  | [] => Err (Planning NoUtxos)
  | _ =>
      let? selected_total := planning (checked_total selected) in
      let? fee := planning (storage_mass_fee selected selected_total amount requested_fee) in
      encode_payment wallet selected (output prepared) fee
  end.

Definition create_limited_send_from_utxos (wallet : WalletData) (prepared : PreparedSend)
    (utxos : list UtxoEntry) (max_inputs : Z) : result (list Z) CreateError :=
  let? selected := planning (select_automatic_with_limit utxos (required prepared) max_inputs) in
  encode_payment wallet selected (output prepared) (prepared_fee prepared).

Definition create_send_from_utxos (wallet : WalletData) (prepared : PreparedSend) (utxos : list UtxoEntry)
  : result (list Z) CreateError :=
  let? selected := planning (select_automatic_with_limit utxos (required prepared) 8) in
  encode_payment wallet selected (output prepared) (prepared_fee prepared).

Definition create_send_selected_from_utxos (wallet : WalletData) (prepared : PreparedSend)
    (indices : list Z) (utxos : list UtxoEntry) : result (list Z) CreateError :=
  let? selected := planning (select_explicit utxos indices) in
  encode_payment wallet selected (output prepared) (prepared_fee prepared).

Definition create_consolidation_from_utxos (wallet : WalletData) (fee : Z) (utxos : list UtxoEntry)
  : result (list Z) CreateError :=
  let? selected := planning (select_for_consolidation utxos 5) in
  let? plan := planning (plan_consolidation wallet selected fee) in
  encode plan.
End create.

(** ** [builder/standard/payload.rs] *)

Definition ok {A E} (r : result A E) : option A := match r with Ok a => Some a | Err _ => None end.

Definition with_payload (plan : UnsignedTransactionPlan) (payload : list Z) : UnsignedTransactionPlan :=
  {| plan_tx_version := plan_tx_version plan; plan_inputs := plan_inputs plan;
     plan_outputs := plan_outputs plan; plan_payload := payload |}.

Section payload.
Context (wallet : WalletData) (prepared : PreparedSend) (amount requested_fee : Z) (payload : list Z) (fee_rate : Z).

(** The [for _ in 0..MAX_FEE_PASSES] loop of [plan_payload_send]. *)
Fixpoint payload_passes (passes : nat) (selected : list UtxoEntry) (selected_total fee : Z)
  : option (Z * UnsignedTransactionPlan) :=
  match passes with
  | O => None
  | S passes' =>
      needed ← ok (checked_required amount fee);
      if selected_total <? needed then None
      else
        plan ← ok (plan_payment wallet selected [output prepared] fee);
        let plan := with_payload plan payload in
        let exact_script_lengths := map (fun o => blen (po_script_public_key o)) (plan_outputs plan) in
        '(non_contextual_fee, _, _) ← ok (estimate_non_contextual_fee (blen (plan_inputs plan))
          exact_script_lengths (blen (plan_payload plan)) fee_rate);
        if non_contextual_fee <=? fee then
          paid ← checked_sub selected_total (sum_by po_amount (plan_outputs plan));
          Some (paid, plan)
        else
          payload_passes passes' selected selected_total
            (Z.max (Z.max non_contextual_fee requested_fee) MINIMUM_PLANNER_FEE)
  end.

Definition potential_change_script_length : option (option Z) :=
  match get_at (change_addresses wallet) (next_change_index wallet) with
  | None => Some None
  | Some address => script ← ok (address_to_script_pubkey address); Some (Some (blen script))
  end.

Definition plan_payload_send (selected : list UtxoEntry) : option (Z * UnsignedTransactionPlan) :=
  selected_total ← ok (checked_total selected);
  change_script_length ← potential_change_script_length;
  let output_script_lengths := [blen (po_script_public_key (output prepared))] ++
    match change_script_length with Some length => [length] | None => [] end in
  fee ← ok (storage_mass_fee_with_payload selected selected_total amount requested_fee (blen payload)
    output_script_lengths fee_rate);
  payload_passes 8 selected selected_total fee.

(** The loop over the prefixes [1..=count] of the sorted outputs: [done] is
    the prefix already summed, [rest] what is left under the input limit. *)
Fixpoint best_prefix (rest done : list UtxoEntry) (total minimum_required : Z)
    (best : option (Z * UnsignedTransactionPlan)) : result (option (Z * UnsignedTransactionPlan)) BuildError :=
  match rest with
  | [] => Ok best
  | u :: rest' =>
      let? total := ok_or (checked_add total (Selection.amount u)) UtxoTotalOverflow in
      let done := done ++ [u] in
      if total <? minimum_required then best_prefix rest' done total minimum_required best
      else
        match plan_payload_send done with
        | None => best_prefix rest' done total minimum_required best
        | Some (fee, plan) =>
            let better := match best with None => true | Some (best_fee, _) => fee <? best_fee end in
            best_prefix rest' done total minimum_required (if better then Some (fee, plan) else best)
        end
  end.

Definition create_send_with_payload_from_utxos (json_to_vec : Value -> option (list Z)) (utxos : list UtxoEntry)
  : result (list Z) CreateError :=
  let MAX_INPUTS := 8 in
  let utxos := sort_largest_first utxos in
  let? minimum_required := planning (checked_required amount (Z.max MINIMUM_PLANNER_FEE requested_fee)) in
  let? best := planning (best_prefix (take_Z MAX_INPUTS utxos) [] 0 minimum_required None) in
  match best with
  | Some (_, plan) => encode json_to_vec plan
  | None =>
      let? available := planning (checked_total (take_Z MAX_INPUTS utxos)) in
      Err (Planning (InsufficientForMassFees available minimum_required))
  end.
End payload.

(** * Theorems *)

Definition spent (plan : UnsignedTransactionPlan) : Z :=
  sum_by (fun i => Selection.amount (utxo i)) (plan_inputs plan).
Definition created (plan : UnsignedTransactionPlan) : Z := sum_by po_amount (plan_outputs plan).

Lemma checked_total_Ok l t : Selection.checked_total l = Ok t -> t = total l /\ u64_ok t.
Proof.
  intros H. apply (try_fold_sum_Ok _ Selection.amount) in H as [-> H].
  - split; [done | by apply H].
  - intros. by apply checked_add_Ok in H0.
Qed.

(** The change output of a payment: none, or one to the wallet's next change
    address. *)
Definition payment_change (wallet : WalletData) (change : Z) (outputs : list PlannedOutput) : Prop :=
  change = 0 /\ outputs = [] \/
  9999900 < change /\ exists address script,
    get_at (change_addresses wallet) (next_change_index wallet) = Some address /\
    address_to_script_pubkey address = Ok script /\
    outputs = [with_derivation (new_output change script) 1 (next_change_index wallet)].

Lemma payment_change_amount wallet change outputs :
  payment_change wallet change outputs -> sum_by po_amount outputs = change /\ 0 <= change.
Proof.
  intros [[-> ->]|(H & address & script & _ & _ & ->)]; [done|].
  rewrite sum_by_cons, sum_by_nil. cbn. lia.
Qed.

Lemma calculate_change_Ok selected_total spend_total fee change :
  calculate_change selected_total spend_total fee = Ok change ->
  (change = 0 \/ 9999900 < change) /\ (change = if is_dust change then 0 else change) /\
  exists left, left = selected_total - (spend_total + fee) /\ u64_ok left /\
    change = (if is_dust left then 0 else left).
Proof.
  unfold calculate_change. intros (r & Hr & H)%rbind_Ok_inv. apply checked_add_Ok in Hr as [-> _].
  apply rbind_Ok_inv in H as (c & Hc%ok_or_Ok & [= <-]). checked_inv. subst.
  destruct (is_dust (selected_total - (spend_total + fee))) eqn:Hd.
  - split_and!; [by left|done|]. by eexists; split_and!; [done|done|rewrite Hd].
  - split_and!; [right; by apply is_dust_false in Hd | by rewrite Hd |].
    by eexists; split_and!; [done|done|rewrite Hd].
Qed.

Lemma plan_payment_Ok wallet selected recipients fee plan :
  plan_payment wallet selected recipients fee = Ok plan ->
  exists change outputs,
    plan = standard selected (recipients ++ outputs) /\
    calculate_change (total selected) (sum_by po_amount recipients) fee = Ok change /\
    payment_change wallet change outputs.
Proof.
  unfold plan_payment. intros (t & Ht%checked_total_Ok & H)%rbind_Ok_inv. destruct Ht as [-> _].
  apply rbind_Ok_inv in H as (s & Hs%checked_sum_Ok & H). destruct Hs as [-> _].
  apply rbind_Ok_inv in H as (change & Hc & H). rewrite sum_by_map in Hc.
  change (sum_by (fun x => id (po_amount x)) recipients) with (sum_by po_amount recipients) in Hc.
  apply rbind_Ok_inv in H as (outs & Ho & [= <-]).
  pose proof (calculate_change_Ok _ _ _ _ Hc) as [Hch _].
  destruct (Z.ltb_spec 0 change).
  - apply rbind_Ok_inv in Ho as (address & Ha%ok_or_Ok & Ho). apply rbind_Ok_inv in Ho as (script & Hscript & Ho).
    destruct (u32_max <? next_change_index wallet); [done|]. injection Ho as <-.
    eexists change, _. split_and!; [done|done|]. right. split; [lia|]. exists address, script.
    split_and!; [done| |done]. destruct (address_to_script_pubkey address); [by injection Hscript as ->|done].
  - injection Ho as <-. exists change, []. rewrite app_nil_r. split_and!; [done|done|]. left. split; [lia|done].
Qed.

Lemma spent_standard selected outputs : spent (standard selected outputs) = total selected.
Proof. unfold spent, standard. cbn [plan_inputs]. by rewrite sum_by_map. Qed.

(** ** The fee iteration *)

Definition cells (l : list UtxoEntry) : list Cell := map (fun u => (Selection.amount u, 1)) l.
Definition output_cells (l : list PlannedOutput) : list Cell := map (fun o => (po_amount o, 1)) l.

Lemma fee_passes_Ok inputs count amount available plen rate minimum lens passes fee f :
  minimum <= fee ->
  fee_passes inputs count amount available plen rate minimum lens passes fee = Ok f ->
  minimum <= f /\
  (available < f \/
   f = available /\ (exists l r, head lens = Some l /\ r <= f /\
     required_mass_fee_for_scripts inputs count [(amount, 1)] [l] plen rate minimum = Ok r) \/
   f <= available /\ is_dust (available - f) = false /\ (exists l2 r, slice lens 0 2 = Some l2 /\ r <= f /\
     required_mass_fee_for_scripts inputs count [(amount, 1); (available - f, 1)] l2 plen rate minimum = Ok r)).
Proof.
  revert fee. induction passes as [|passes IH]; intros fee Hmin; cbn [fee_passes]; [done|].
  destruct (Z.ltb_spec available fee); [intros [= <-]; split; [done | by left]|].
  destruct (is_dust (available - fee)) eqn:Hd.
  - intros (l & Hl%ok_or_Ok & Hr)%rbind_Ok_inv. apply rbind_Ok_inv in Hr as (r & Hr & [= <-]).
    unfold required_mass_fee in Hr. destruct (Z.leb_spec r available).
    + split; [lia|]. right. left. split; [done|]. by exists l, r.
    + split; [lia|]. left. lia.
  - intros (l2 & Hl2%ok_or_Ok & Hr)%rbind_Ok_inv. apply rbind_Ok_inv in Hr as (r & Hr & H').
    destruct (Z.leb_spec r fee).
    + injection H' as <-. split; [done|]. right. right. split_and!; [done|done|]. by exists l2, r.
    + apply IH in H'; [done | lia].
Qed.

(** A plan made with the fee of the iteration pays, in full, the mass fee of
    exactly the outputs it has, priced with the assumed script lengths. *)
Lemma fee_plan_covers wallet selected out requested plen lens rate f plan :
  storage_mass_fee_with_payload selected (total selected) (po_amount out) requested plen lens rate = Ok f ->
  plan_payment wallet selected [out] f = Ok plan ->
  exists change outputs r,
    plan = standard selected ([out] ++ outputs) /\ payment_change wallet change outputs /\
    spent plan = created plan + f /\ Z.max MINIMUM_PLANNER_FEE requested <= f /\ r <= f /\
    (length outputs < length lens)%nat /\
    required_mass_fee_for_scripts (cells selected) (blen selected) (output_cells (plan_outputs plan))
      (take (length (plan_outputs plan)) lens) plen rate (Z.max MINIMUM_PLANNER_FEE requested) = Ok r.
Proof.
  unfold storage_mass_fee_with_payload. intros (x & _ & H)%rbind_Ok_inv Hplan.
  apply rbind_Ok_inv in H as (available & Ha%ok_or_Ok & H). checked_inv. subst available.
  apply fee_passes_Ok in H as [Hmin H]; [|done].
  apply plan_payment_Ok in Hplan as (change & outputs & -> & Hc & Hout).
  rewrite sum_by_cons, sum_by_nil, Z.add_0_r in Hc.
  pose proof (calculate_change_Ok _ _ _ _ Hc) as (_ & _ & left & -> & Hleft & Hch).
  pose proof (payment_change_amount _ _ _ Hout) as [Hsum _]. unfold u64_ok in Hleft.
  rewrite spent_standard. unfold created. cbn [standard plan_outputs].
  rewrite sum_by_app, sum_by_cons, sum_by_nil, Hsum.
  replace (total selected - (po_amount out + f)) with (total selected - po_amount out - f) in * by lia.
  destruct H as [H|[(Hf & l & r & Hl & Hr & Hreq)|(Hf & Hd & l2 & r & Hl2 & Hr & Hreq)]]; [lia| |].
  - rewrite Hf, Z.sub_diag in Hch. cbn in Hch. subst change.
    destruct Hout as [[_ ->]|[? _]]; [|lia]. exists 0, [], r.
    split_and!; [done|by left|lia|done|done|by destruct lens; cbn in *; [|lia]|].
    destruct lens as [|l' lens]; [done|]. injection Hl as ->. exact Hreq.
  - rewrite Hd in Hch. destruct Hout as [[? _]|Hout].
    { subst change. rewrite <- Hch in Hd. done. }
    exists change, outputs, r. pose proof Hout as (_ & address & script & _ & _ & ->).
    apply slice_Some in Hl2 as (l1 & l3 & Hlens & Hl1 & Hlen).
    destruct l1; [|rewrite blen_cons in Hl1; pose proof (blen_nonneg l1); lia]. cbn [app] in Hlens.
    assert (length l2 = 2%nat) by (unfold blen in Hlen; lia).
    split_and!; [done|by right|lia|done|done|subst lens; rewrite length_app; cbn; lia|].
    cbn [app length]. subst lens. rewrite take_app_le, take_ge by lia. rewrite <- Hch in Hreq. exact Hreq.
Qed.

(** ** Sends *)

Lemma planning_Ok {A} (r : result A BuildError) a : planning r = Ok a -> r = Ok a.
Proof. destruct r; cbn; congruence. Qed.

Lemma encode_Ok json_to_vec plan wire :
  encode json_to_vec plan = Ok wire -> encode_plan json_to_vec plan = Ok wire.
Proof. unfold encode. destruct (encode_plan _ _); congruence. Qed.

Lemma encode_payment_Ok json_to_vec wallet selected out fee wire :
  encode_payment json_to_vec wallet selected out fee = Ok wire ->
  exists plan, plan_payment wallet selected [out] fee = Ok plan /\ encode_plan json_to_vec plan = Ok wire.
Proof. intros (plan & Hp%planning_Ok & H%encode_Ok)%rbind_Ok_inv. by exists plan. Qed.

Lemma prepare_send_Ok wallet destination amount fee prepared :
  prepare_send wallet destination amount fee = Ok prepared ->
  exists prefix script, wallet_prefix wallet = Ok prefix /\
    address_to_script_pubkey_on destination prefix = Ok script /\
    is_dust amount = false /\ required prepared = amount + fee /\ prepared_fee prepared = fee /\
    output prepared = new_output amount script.
Proof.
  unfold prepare_send, validate_recipient_amount, checked_required.
  intros (u & Hv & H)%rbind_Ok_inv. apply rbind_Ok_inv in H as (r & Hr & H).
  apply checked_add_Ok in Hr as [-> _]. apply rbind_Ok_inv in H as (prefix & Hp & H).
  apply rbind_Ok_inv in H as (script & Hs & [= <-]). exists prefix, script.
  destruct (amount =? 0); [done|]. destruct (is_dust amount); [done|].
  destruct (address_to_script_pubkey_on destination prefix); [|done]. by injection Hs as ->.
Qed.

(** C33: a send planned from the node's outputs spends a part of them within
    the input limit, pays exactly the requested amount, never dust, to the
    destination's script, which must be on the wallet's own network, returns
    the rest to the wallet's next change address, and conserves value: the
    only amount it gives up beyond the fee is change too small to relay. *)
Theorem create_limited_send_spec (json_to_vec : Value -> option (list Z)) (wallet : WalletData)
    (destination : list Z) (amount fee limit : Z) (utxos : list UtxoEntry) (prepared : PreparedSend)
    (wire : list Z) :
  amounts_ok utxos -> u64_ok amount -> 0 <= limit ->
  prepare_send wallet destination amount fee = Ok prepared ->
  create_limited_send_from_utxos json_to_vec wallet prepared utxos limit = Ok wire ->
  exists plan selected prefix script change outputs dropped,
    encode_plan json_to_vec plan = Ok wire /\
    plan = standard selected (new_output amount script :: outputs) /\
    selected ⊆+ utxos /\ blen selected <= limit /\
    wallet_prefix wallet = Ok prefix /\ address_to_script_pubkey_on destination prefix = Ok script /\
    payment_change wallet change outputs /\ 9999900 < amount /\
    spent plan = created plan + fee + dropped /\ 0 <= dropped <= 9999900 /\ (dropped = 0 \/ outputs = []).
Proof.
  intros Hok Ha Hlimit (prefix & script & Hprefix & Hscript & Hdust & Hreq & Hfee & Hout)%prepare_send_Ok.
  unfold create_limited_send_from_utxos. intros (selected & Hsel%planning_Ok & Hplan)%rbind_Ok_inv.
  apply encode_payment_Ok in Hplan as (plan & Hplan & Henc).
  apply select_automatic_prefix in Hsel as (Hsub & Hlen & _); [|done].
  apply plan_payment_Ok in Hplan as (change & outputs & Eplan & Hc & Hch). exists plan. subst plan.
  rewrite Hout, Hfee, sum_by_cons, sum_by_nil in Hc. cbn [new_output po_amount] in Hc.
  apply calculate_change_Ok in Hc as (_ & _ & left & -> & Hleft & Hval).
  pose proof (payment_change_amount _ _ _ Hch) as [Hsum _].
  rewrite spent_standard. unfold created. cbn [standard plan_outputs]. rewrite Hout. cbn [app].
  rewrite sum_by_cons, Hsum. cbn [new_output po_amount].
  set (rest := total selected - (amount + 0 + fee)) in *.
  exists selected, prefix, script, change, outputs, (rest - change).
  apply is_dust_false in Hdust; [|done].
  assert (Hd : 0 <= rest - change <= 9999900 /\ (change = rest \/ change = 0)).
  { destruct (is_dust rest) eqn:Hd; subst change; [|split; [lia | by left]].
    apply is_dust_iff in Hd; [|done]. unfold u64_ok in Hleft. split; [lia | by right]. }
  rewrite Hout in Henc.
  split_and!; [exact Henc|done|done|auto|done|done|done|done|subst rest; lia|lia|lia|].
  destruct (proj2 Hd) as [->| ->]; [left; lia|]. destruct Hch as [[_ ->]|[? _]]; [by right | lia].
Qed.

(** A plan over outputs the caller chose pays its mass in full: what the
    transaction gives up is at least the planner's minimum and the requested
    fee, and at least the larger of the size-based fee and the KIP-9 storage
    fee, both at the planner rate, of exactly the outputs it has. *)
Theorem create_pskb_with_utxos_pays (json_to_vec : Value -> option (list Z)) (wallet : WalletData)
    (destination : list Z) (amount requested_fee : Z) (selected : list UtxoEntry) (wire : list Z) :
  create_pskb_with_utxos json_to_vec wallet destination amount requested_fee selected = Ok wire ->
  exists plan paid needed,
    encode_plan json_to_vec plan = Ok wire /\ map utxo (plan_inputs plan) = selected /\
    spent plan = created plan + paid /\ MINIMUM_PLANNER_FEE <= paid /\ requested_fee <= paid /\
    required_mass_fee_for_scripts (cells selected) (blen selected) (output_cells (plan_outputs plan))
      (replicate (length (plan_outputs plan)) 34) 0 DEFAULT_PLANNER_FEE_RATE
      (Z.max MINIMUM_PLANNER_FEE requested_fee) = Ok needed /\ needed <= paid.
Proof.
  unfold create_pskb_with_utxos. intros (prepared & Hprep%planning_Ok & H)%rbind_Ok_inv.
  apply prepare_send_Ok in Hprep as (_ & script & _ & _ & _ & _ & _ & Hout).
  destruct selected as [|u selected]; [done|]. set (sel := u :: selected) in *. clearbody sel.
  apply rbind_Ok_inv in H as (t & Ht%planning_Ok & H). apply checked_total_Ok in Ht as [-> _].
  apply rbind_Ok_inv in H as (f & Hf%planning_Ok & Hplan). unfold storage_mass_fee in Hf.
  apply encode_payment_Ok in Hplan as (plan & Hplan & Henc).
  rewrite Hout in Hplan. change amount with (po_amount (new_output amount script)) in Hf.
  pose proof (fee_plan_covers _ _ _ _ _ _ _ _ _ Hf Hplan)
    as (change & outputs & r & Eplan & _ & Hspent & Hmin & Hr & Hlen & Hreq).
  exists plan, f, r. subst plan. split_and!; [exact Henc| |exact Hspent|lia|lia| |exact Hr].
  - cbn [standard plan_inputs]. rewrite map_map. cbn. apply map_id.
  - cbn [standard plan_outputs app] in *. rewrite <- Hreq. f_equal.
    destruct outputs as [|o [|o' outputs]]; [done|done|cbn in Hlen; lia].
Qed.

(** ** Payload sends *)

Lemma estimate_effective_rate count lens plen rate :
  estimate_non_contextual_fee count lens plen (Z.max rate MIN_STANDARD_FEE_RATE_SOMPI_PER_GRAM)
  = estimate_non_contextual_fee count lens plen rate.
Proof.
  unfold estimate_non_contextual_fee, estimate_non_contextual_fee_for_shape.
  by rewrite <- (Z.max_assoc rate), Z.max_id.
Qed.

Lemma required_mass_fee_size inputs count outputs lens plen rate minimum r :
  required_mass_fee_for_scripts inputs count outputs lens plen rate minimum = Ok r ->
  exists ncf c t, estimate_non_contextual_fee count lens plen rate = Ok (ncf, c, t) /\ ncf <= r.
Proof.
  unfold required_mass_fee_for_scripts. destruct (negb _); [done|]. rewrite estimate_effective_rate.
  intros ([[ncf c] t] & He & H)%rbind_Ok_inv. exists ncf, c, t. split; [done|].
  apply rbind_Ok_inv in H as (m & _ & H). apply rbind_Ok_inv in H as (s & _ & [= <-]). lia.
Qed.

Section payload_proofs.
Context (wallet : WalletData) (prepared : PreparedSend) (amount requested_fee : Z) (payload : list Z) (fee_rate : Z).
Hypothesis amount_prepared : po_amount (output prepared) = amount.

Definition script_lengths (outputs : list PlannedOutput) : list Z :=
  map (fun o => blen (po_script_public_key o)) outputs.

(** What a payload plan over [selected] is, with what it pays. *)
Definition pays_in_full (selected : list UtxoEntry) (paid : Z) (plan : UnsignedTransactionPlan) : Prop :=
  exists change outputs needed,
    plan = with_payload (standard selected (output prepared :: outputs)) payload /\
    payment_change wallet change outputs /\
    spent plan = created plan + paid /\ MINIMUM_PLANNER_FEE <= paid /\ requested_fee <= paid /\
    required_mass_fee_for_scripts (cells selected) (blen selected) (output_cells (plan_outputs plan))
      (script_lengths (plan_outputs plan)) (blen payload) fee_rate (Z.max MINIMUM_PLANNER_FEE requested_fee)
      = Ok needed /\ needed <= paid.

Lemma potential_change_length change outputs lengths :
  payment_change wallet change outputs ->
  potential_change_script_length wallet = Some lengths ->
  (length outputs < length (blen (po_script_public_key (output prepared)) ::
     match lengths with Some l => [l] | None => [] end))%nat ->
  take (length (output prepared :: outputs)) ([blen (po_script_public_key (output prepared))] ++
     match lengths with Some l => [l] | None => [] end)
  = script_lengths (output prepared :: outputs).
Proof.
  intros [[_ ->]|(_ & address & script & Hget & Hscript & ->)] Hl Hlen.
  - by destruct lengths.
  - unfold potential_change_script_length in Hl. rewrite Hget, Hscript in Hl. cbn in Hl. injection Hl as <-. done.
Qed.

Lemma plan_payload_send_Some selected paid plan :
  plan_payload_send wallet prepared amount requested_fee payload fee_rate selected = Some (paid, plan) ->
  pays_in_full selected paid plan.
Proof.
  unfold plan_payload_send. intros (t & Ht & H)%bind_Some.
  destruct (Selection.checked_total selected) as [t'|] eqn:Ec; [|done]. injection Ht as ->.
  apply checked_total_Ok in Ec as [-> Htok].
  apply bind_Some in H as (lengths & Hlengths & H). apply bind_Some in H as (f & Hf & H).
  destruct (storage_mass_fee_with_payload _ _ _ _ _ _ _) as [f'|] eqn:Ef; [|done]. injection Hf as ->.
  cbn [payload_passes] in H. apply bind_Some in H as (needed & Hn & H).
  destruct (total selected <? needed); [done|]. apply bind_Some in H as (plan' & Hp & H).
  destruct (plan_payment _ _ _ _) as [p|] eqn:Ep; [|done]. injection Hp as ->.
  rewrite <- amount_prepared in Ef.
  pose proof (fee_plan_covers _ _ _ _ _ _ _ _ _ Ef Ep) as
    (change & outputs & r & -> & Hch & Hspent & Hmin & Hr & Hlen & Hreq).
  cbn [standard plan_outputs app] in Hreq.
  replace (take _ _) with (script_lengths (output prepared :: outputs)) in Hreq
    by (symmetry; by apply (potential_change_length change)).
  cbn [with_payload standard plan_outputs plan_inputs plan_payload app] in H.
  replace (blen (map p2pk selected)) with (blen selected) in H by (unfold blen; by rewrite length_map).
  destruct (required_mass_fee_size _ _ _ _ _ _ _ _ Hreq) as (ncf & c & tr & He & Hle).
  change (map (fun o => blen (po_script_public_key o)) (output prepared :: outputs))
    with (script_lengths (output prepared :: outputs)) in H.
  rewrite He in H. cbn [ok mbind option_bind] in H. rewrite (proj2 (Z.leb_le ncf f)) in H by lia.
  apply bind_Some in H as (paid' & Hpaid & [= -> <-]). checked_inv. subst.
  exists change, outputs, r. rewrite spent_standard in Hspent.
  assert (Hs : spent (with_payload (standard selected (output prepared :: outputs)) payload) = total selected)
    by apply spent_standard.
  assert (Hc : created (with_payload (standard selected (output prepared :: outputs)) payload)
    = created (standard selected (output prepared :: outputs))) by reflexivity.
  change (sum_by po_amount (output prepared :: outputs))
    with (created (standard selected ([output prepared] ++ outputs))).
  cbn [app] in *. assert (total selected - created (standard selected (output prepared :: outputs)) = f) as -> by lia.
  split_and!; [done|done|rewrite Hs, Hc; lia|lia|lia|exact Hreq|done].
Qed.

(** The candidate plan of each prefix long enough to be considered. *)
Definition candidate (s : list UtxoEntry) (minimum_required : Z) (k : nat) : option (Z * UnsignedTransactionPlan) :=
  if total (take k s) <? minimum_required then None
  else plan_payload_send wallet prepared amount requested_fee payload fee_rate (take k s).

(** [best] is the cheapest candidate among the first [k] prefixes. *)
Definition best_upto (s : list UtxoEntry) (minimum_required : Z) (k : nat)
    (best : option (Z * UnsignedTransactionPlan)) : Prop :=
  (forall fee plan, best = Some (fee, plan) ->
     exists j, (0 < j <= k)%nat /\ candidate s minimum_required j = Some (fee, plan)) /\
  (forall j fee plan, (0 < j <= k)%nat -> candidate s minimum_required j = Some (fee, plan) ->
     exists best_fee best_plan, best = Some (best_fee, best_plan) /\ best_fee <= fee).

Lemma best_upto_step s m k best :
  best_upto s m k best ->
  best_upto s m (S k) (match candidate s m (S k) with
    | None => best
    | Some (fee, plan) =>
        if match best with None => true | Some (best_fee, _) => fee <? best_fee end
        then Some (fee, plan) else best
    end).
Proof.
  intros [Hsome Hmin]. destruct (candidate s m (S k)) as [[f p]|] eqn:Hc.
  - split.
    + intros fee plan H. destruct best as [[bf bp]|]; [destruct (f <? bf)|];
        try (injection H as <- <-; exists (S k); split; [lia|done]).
      destruct (Hsome fee plan H) as (j & ? & ?). exists j. split; [lia|done].
    + intros j fee plan Hj Hcj. destruct (Nat.eq_dec j (S k)) as [->|].
      * rewrite Hc in Hcj. injection Hcj as -> ->.
        destruct best as [[bf bp]|]; [destruct (Z.ltb_spec fee bf)|]; eexists _, _; (split; [done|lia]).
      * destruct (Hmin j fee plan ltac:(lia) Hcj) as (bf & bp & -> & Hle).
        destruct (Z.ltb_spec f bf); eexists _, _; (split; [done|lia]).
  - split.
    + intros fee plan H. destruct (Hsome fee plan H) as (j & ? & ?). exists j. split; [lia|done].
    + intros j fee plan Hj Hcj. destruct (Nat.eq_dec j (S k)) as [->|]; [congruence|].
      apply (Hmin j fee plan); [lia|done].
Qed.

Lemma best_prefix_spec s m rest done_ best r :
  s = done_ ++ rest -> best_upto s m (length done_) best ->
  best_prefix wallet prepared amount requested_fee payload fee_rate rest done_ (total done_) m best = Ok r ->
  best_upto s m (length s) r.
Proof.
  revert done_ best. induction rest as [|u rest IH]; intros done_ best Hs Hbest; cbn [best_prefix].
  - intros [= <-]. rewrite app_nil_r in Hs. subst s. exact Hbest.
  - intros (t & Ht & H)%rbind_Ok_inv. apply checked_add_Ok in Ht as [-> _].
    assert (Htot : total done_ + Selection.amount u = total (done_ ++ [u])).
    { unfold total. rewrite sum_by_app, sum_by_cons, sum_by_nil. lia. }
    assert (Htake : take (S (length done_)) s = done_ ++ [u]).
    { subst s. rewrite take_app_ge by lia. replace (_ - _)%nat with 1%nat by lia. done. }
    apply best_upto_step in Hbest. unfold candidate in Hbest. rewrite Htake in Hbest. rewrite Htot in H.
    replace (S (length done_)) with (length (done_ ++ [u])) in Hbest by (rewrite length_app; cbn; lia).
    assert (s = (done_ ++ [u]) ++ rest) as Hs' by (by rewrite <- app_assoc).
    destruct (total (done_ ++ [u]) <? m); [exact (IH _ _ Hs' Hbest H)|].
    destruct (plan_payload_send _ _ _ _ _ _ (done_ ++ [u])) as [[f p]|]; exact (IH _ _ Hs' Hbest H).
Qed.
End payload_proofs.

(** C32: a payload send spends a prefix of the outputs sorted by decreasing
    amount, at most eight, pays the prepared output and returns the change to
    the wallet, pays in full the mass of the transaction with its payload
    (the KIP-9 storage mass of its own outputs included) at the requested rate,
    and costs no more than the plan of any other such prefix. *)
Theorem create_send_with_payload_spec (json_to_vec : Value -> option (list Z)) (wallet : WalletData)
    (prepared : PreparedSend) (amount requested_fee : Z) (payload : list Z) (fee_rate : Z)
    (utxos : list UtxoEntry) (wire : list Z) :
  po_amount (output prepared) = amount ->
  create_send_with_payload_from_utxos wallet prepared amount requested_fee payload fee_rate json_to_vec utxos
    = Ok wire ->
  exists plan k paid,
    encode_plan json_to_vec plan = Ok wire /\ (0 < k <= 8)%nat /\
    pays_in_full wallet prepared requested_fee payload fee_rate (take k (sort_largest_first utxos)) paid plan /\
    (forall j other_paid other_plan, (0 < j <= 8)%nat -> (j <= length utxos)%nat ->
       amount + Z.max MINIMUM_PLANNER_FEE requested_fee <= total (take j (sort_largest_first utxos)) ->
       plan_payload_send wallet prepared amount requested_fee payload fee_rate
         (take j (sort_largest_first utxos)) = Some (other_paid, other_plan) ->
       paid <= other_paid).
Proof.
  intros Hamount. unfold create_send_with_payload_from_utxos.
  pose proof (Permutation_length (sort_by_Permutation largest_first utxos)) as Hlen. fold sort_largest_first in Hlen.
  set (s := sort_largest_first utxos) in *. clearbody s.
  intros (m & Hm%planning_Ok & H)%rbind_Ok_inv. apply checked_add_Ok in Hm as [-> _].
  apply rbind_Ok_inv in H as (best & Hbest%planning_Ok & H).
  destruct best as [[paid plan]|]; [|by apply rbind_Ok_inv in H as (? & _ & ?)]. apply encode_Ok in H as Henc.
  change 0 with (total []) in Hbest.
  apply (best_prefix_spec _ _ _ _ _ _ (take_Z 8 s)) in Hbest as [Hsome Hmin]; [|done|split; [done|intros; cbn in *; lia]].
  assert (Htake : forall j, (j <= 8)%nat -> take j (take_Z 8 s) = take j s).
  { intros j Hj. unfold take_Z. rewrite take_take. f_equal. lia. }
  assert (Hl : length (take_Z 8 s) = Nat.min 8 (length s)) by (unfold take_Z; by rewrite length_take).
  destruct (Hsome paid plan eq_refl) as (k & Hk & Hc). exists plan, k, paid.
  unfold candidate in Hc, Hmin. rewrite Htake in Hc by lia. split_and!; [exact Henc|lia|lia| |].
  - destruct (_ <? _); [done|]. by apply plan_payload_send_Some in Hc.
  - intros j op opl Hj Hj' Henough Hplan.
    destruct (Hmin j op opl ltac:(lia)) as (bf & bp & [= <- <-] & Hle); [|done].
    rewrite Htake by lia. by rewrite (proj2 (Z.ltb_ge _ _)) by lia.
Qed.

(** ** Witnesses *)

Definition sample_address (k : Z) : list Z := encode_address_bytes (replicate 32 k) 0 (str "kaspa").
Definition sample_wallet : WalletData := {|
  kpub := [];
  receive_addresses := [sample_address 1]; change_addresses := [sample_address 2];
  next_receive_index := 0; next_change_index := 0 |}.
Definition coin (i a : Z) : UtxoEntry :=
  {| tx_id := [97 + i]; index := i; Selection.amount := a; script_public_key := []; block_daa_score := 0;
     covenant_id := None |}.
Definition sample_coins : list UtxoEntry := [coin 0 300000000; coin 1 500000000; coin 2 40000000].
Definition sample_prepared : PreparedSend :=
  {| output := new_output 400000000 (Standard.p2pk_script (replicate 32 9)); required := 400300000;
     prepared_fee := 300000 |}.

Definition sample_json (_ : Value) : option (list Z) := Some [].

Lemma create_limited_send_spec_witness :
  exists wire, create_limited_send_from_utxos sample_json sample_wallet sample_prepared sample_coins 8 = Ok wire /\
    exists plan dropped, encode_plan sample_json plan = Ok wire /\
      spent plan = created plan + 300000 + dropped /\ 0 <= dropped <= 9999900.
Proof.
  destruct (create_limited_send_from_utxos sample_json sample_wallet sample_prepared sample_coins 8) as [wire|e] eqn:E;
    [|vm_compute in E; discriminate E].
  exists wire. split; [reflexivity|].
  destruct (create_limited_send_spec sample_json sample_wallet (sample_address 9) 400000000 300000 8 sample_coins
    sample_prepared wire ltac:(by_decide) ltac:(by_decide) ltac:(by_decide) ltac:(vm_compute; reflexivity) E)
    as (plan & _ & _ & _ & _ & _ & dropped & Henc & _ & _ & _ & _ & _ & _ & _ & Hspent & Hd & _).
  exists plan, dropped. split; [exact Henc|]. split; [exact Hspent | exact Hd].
Defined.

Lemma create_pskb_with_utxos_pays_witness :
  exists wire, create_pskb_with_utxos sample_json sample_wallet (sample_address 9) 400000000 0 sample_coins
      = Ok wire /\
    exists plan paid, encode_plan sample_json plan = Ok wire /\
      spent plan = created plan + paid /\ MINIMUM_PLANNER_FEE <= paid.
Proof.
  destruct (create_pskb_with_utxos sample_json sample_wallet (sample_address 9) 400000000 0 sample_coins)
    as [wire|e] eqn:E; [|vm_compute in E; discriminate E].
  exists wire. split; [reflexivity|].
  destruct (create_pskb_with_utxos_pays _ _ _ _ _ _ wire E) as (plan & paid & needed & Henc & _ & H1 & H2 & _).
  exists plan, paid. split; [exact Henc|]. split; [exact H1 | exact H2].
Defined.

Lemma create_send_with_payload_spec_witness :
  exists wire, create_send_with_payload_from_utxos sample_wallet sample_prepared 400000000 0 [1; 2; 3] 100
      sample_json sample_coins = Ok wire /\
    exists plan k paid, encode_plan sample_json plan = Ok wire /\
      pays_in_full sample_wallet sample_prepared 0 [1; 2; 3] 100 (take k (sort_largest_first sample_coins)) paid plan.
Proof.
  destruct (create_send_with_payload_from_utxos sample_wallet sample_prepared 400000000 0 [1; 2; 3] 100
    sample_json sample_coins) as [wire|e] eqn:E; [|vm_compute in E; discriminate E].
  exists wire. split; [reflexivity|].
  destruct (create_send_with_payload_spec sample_json sample_wallet sample_prepared 400000000 0 [1; 2; 3] 100
    sample_coins wire eq_refl E) as (plan & k & paid & Henc & _ & H & _).
  exists plan, k, paid. split; [exact Henc | exact H].
Defined.
