(* ===== verification/IndexerModel.v ===== *)
(** * The indexer's data, matching and queries

    [src/src/indexer]: [config.rs], [event.rs], [matcher/mod.rs],
    [scanner/mod.rs], [query/mod.rs], [metrics.rs], [sync/mod.rs] and the
    records of [storage/mod.rs]. Texts are UTF-8 byte lists; an error is the
    text the code returns. *)

From S2P Require Import Prelude Bytes Json Selection.

Abbreviation Text := (list Z).

(** [text.trim().is_empty()]: every character has the Unicode property
    White_Space. *)
Fixpoint is_blank (text : Text) : bool :=
  match text with
  | [] => true
  | b :: rest =>
      if (9 <=? b) && (b <=? 13) || (b =? 32) then is_blank rest
      else
        match rest with
        | [] => false
        | c :: rest' =>
            if (b =? 0xc2) && ((c =? 0x85) || (c =? 0xa0)) then is_blank rest'
            else
              match rest' with
              | [] => false
              | d :: rest'' =>
                  if (b =? 0xe1) && (c =? 0x9a) && (d =? 0x80)
                     || (b =? 0xe2) && (c =? 0x80)
                        && ((0x80 <=? d) && (d <=? 0x8a) || (d =? 0xa8) || (d =? 0xa9) || (d =? 0xaf))
                     || (b =? 0xe2) && (c =? 0x81) && (d =? 0x9f)
                     || (b =? 0xe3) && (c =? 0x80) && (d =? 0x80)
                  then is_blank rest''
                  else false
              end
        end
  end.

(** ** [config.rs] *)

Inductive IndexingMode :=
  | AllMode
  | TransactionsMode
  | MatchesMode
  | BlocksMode
  | CustomMode (transactions matches blocks : bool).

Definition retains_transactions (mode : IndexingMode) : bool :=
  match mode with
  | AllMode | TransactionsMode => true
  | MatchesMode | BlocksMode => false
  | CustomMode transactions _ _ => transactions
  end.
Definition retains_matches (mode : IndexingMode) : bool :=
  match mode with
  | AllMode | MatchesMode => true
  | TransactionsMode | BlocksMode => false
  | CustomMode _ matches _ => matches
  end.
Definition retains_blocks (mode : IndexingMode) : bool :=
  match mode with
  | AllMode | BlocksMode => true
  | TransactionsMode | MatchesMode => false
  | CustomMode _ _ blocks => blocks
  end.
Definition retains_transaction (mode : IndexingMode) (is_match : bool) : bool :=
  retains_transactions mode || (retains_matches mode && is_match).

Record IndexerConfig := {
  mode : IndexingMode;
  max_transactions : Z;
  max_blocks : Z;
  max_matches : Z;
  dedupe_window : Z;
  scanner_stale_after_ms : Z;
  transaction_ttl_ms : Z;
  max_payload_bytes : Z;
  max_addresses_per_transaction : Z;
  max_query_page : Z;
}.

Definition default_config : IndexerConfig := {|
  mode := AllMode;
  max_transactions := 50000;
  max_blocks := 5000;
  max_matches := 20000;
  dedupe_window := 4096;
  scanner_stale_after_ms := 60000;
  transaction_ttl_ms := 24 * 60 * 60 * 1000;
  max_payload_bytes := 250000;
  max_addresses_per_transaction := 256;
  max_query_page := 500;
|}.

Definition validate_limits (config : IndexerConfig) : result unit Text :=
  if (max_transactions config =? 0) || (max_blocks config =? 0) || (max_matches config =? 0)
  then Err (str "index limits must be > 0")
  else if 1000000 <? max_transactions config then Err (str "max_transactions exceeds hard safety bound")
  else if 100000 <? max_blocks config then Err (str "max_blocks exceeds hard safety bound")
  else if 1000000 <? max_matches config then Err (str "max_matches exceeds hard safety bound")
  else Ok tt.

Definition validate_config (config : IndexerConfig) : result unit Text :=
  let? _ := validate_limits config in
  if (dedupe_window config =? 0) || (1000000 <? dedupe_window config)
  then Err (str "dedupe_window must be 1..=1000000")
  else if (scanner_stale_after_ms config =? 0) || (86400000 <? scanner_stale_after_ms config)
  then Err (str "scanner_stale_after_ms must be 1..=86400000")
  else if negb ((1 <=? max_query_page config) && (max_query_page config <=? 4096))
  then Err (str "max_query_page must be 1..=4096")
  else if 1048576 <? max_payload_bytes config then Err (str "max_payload_bytes exceeds 1 MiB")
  else if 4096 <? max_addresses_per_transaction config
  then Err (str "max_addresses_per_transaction exceeds hard safety bound")
  else Ok tt.

(** ** [event.rs] *)

Record IndexedTransaction := {
  txid : Text;
  tx_block_hash : option Text;
  tx_daa_score : option Z;
  tx_observed_at_ms : Z;
  addresses : list Text;
  payload : list Z;
  tx_raw : Value;
}.

Record IndexedBlock := {
  hash : Text;
  bk_daa_score : option Z;
  bk_observed_at_ms : Z;
  txids : list Text;
  bk_raw : Value;
}.

Record IndexedMatch := {
  matcher_id : Z;
  match_txid : Text;
  match_observed_at_ms : Z;
}.

Record SyncCheckpoint := { virtual_daa_score : option Z; checkpoint_hash : option Text }.

Inductive IndexerEvent :=
  | TransactionEvent (txid : Text)
  | BlockEvent (hash : Text)
  | MatchEvent (matcher_id : Z) (txid : Text)
  | EvictedEvent (eviction_kind id : Text)
  | ReconciledEvent (removed_blocks accepted_blocks : Z)
  | CheckpointEvent (virtual_daa_score : option Z) (block_hash : option Text).

(** ** [matcher/mod.rs] *)

Inductive MatchRule :=
  | AddressRule (address : Text)
  | PayloadPrefix (value : list Z)
  | PayloadContains (value : list Z)
  | PayloadExact (value : list Z)
  | PayloadSuffix (value : list Z).

Record Matcher := { id : Z; rule : MatchRule }.

Definition validate_payload_matcher (value : list Z) : result unit Text :=
  if bool_decide (value = []) then Err (str "payload matcher cannot be empty")
  else if 4096 <? blen value then Err (str "payload matcher exceeds 4096 bytes")
  else Ok tt.

Definition validate_rule (rule : MatchRule) : result unit Text :=
  match rule with
  | AddressRule address =>
      if is_blank address then Err (str "address matcher cannot be empty") else Ok tt
  | PayloadPrefix value | PayloadContains value | PayloadExact value | PayloadSuffix value =>
      validate_payload_matcher value
  end.

(** [starts_with], [ends_with] and [windows(n)] of a slice, [n] positive. *)
Definition starts_with (l value : list Z) : bool := list_Z_eqb (take (length value) l) value.
Definition ends_with (l value : list Z) : bool :=
  (blen value <=? blen l) && list_Z_eqb (drop (length l - length value) l) value.
Definition windows (n : nat) (l : list Z) : list (list Z) :=
  map (fun i => take n (drop i l)) (seq 0 (length l + 1 - n)).

Definition contains (haystack needle : list Z) : bool :=
  (blen needle <=? blen haystack)
  && existsb (fun window => list_Z_eqb window needle) (windows (length needle) haystack).

Definition matches (rule : MatchRule) (transaction : IndexedTransaction) : bool :=
  match rule with
  | AddressRule address => existsb (fun item => list_Z_eqb item address) (addresses transaction)
  | PayloadPrefix value => starts_with (payload transaction) value
  | PayloadContains value => contains (payload transaction) value
  | PayloadExact value => list_Z_eqb (payload transaction) value
  | PayloadSuffix value => ends_with (payload transaction) value
  end.

(** ** [scanner/mod.rs] *)

Record BlockBatch := { block : IndexedBlock; transactions : list IndexedTransaction }.
Record BlockScanReport := {
  report_block_hash : Text;
  transactions_scanned : Z;
  report_matches : list IndexedMatch;
}.

Definition scan (transaction : IndexedTransaction) (matchers : list Matcher) : list IndexedMatch :=
  map (fun matcher => {| matcher_id := id matcher; match_txid := txid transaction;
                         match_observed_at_ms := tx_observed_at_ms transaction |})
      (List.filter (fun matcher => matches (rule matcher) transaction) matchers).

(** ** [query/mod.rs] *)

Record PageRequest := { offset : Z; limit : Z }.
Definition default_page : PageRequest := {| offset := 0; limit := 100 |}.

Record Page (T : Type) := {
  items : list T;
  page_offset : Z;
  page_limit : Z;
  page_total : Z;
  has_more : bool;
}.
Arguments items {T}. Arguments page_offset {T}. Arguments page_limit {T}.
Arguments page_total {T}. Arguments has_more {T}.

Definition page {T} (values : list T) (request : PageRequest) (max_page : Z) : result (Page T) Text :=
  if limit request =? 0 then Err (str "page limit must be > 0")
  else if max_page <? limit request
  then Err (str "page limit exceeds configured maximum " ++ Decimal.to_string max_page)
  else
    let start := Z.min (offset request) (blen values) in
    let end_ := Z.min (saturating_add start (limit request)) (blen values) in
    Ok {| items := take (Z.to_nat (end_ - start)) (drop (Z.to_nat start) values);
          page_offset := start;
          page_limit := limit request;
          page_total := blen values;
          has_more := end_ <? blen values |}.

Record TransactionQuery := {
  query_address : option Text;
  after_daa_score : option Z;
  query_page : PageRequest;
}.

Definition address_matches (transaction : IndexedTransaction) (address : option Text) : bool :=
  match address with
  | Some expected => existsb (fun item => list_Z_eqb item expected) (addresses transaction)
  | None => true
  end.

Definition daa_score_matches (transaction : IndexedTransaction) (after : option Z) : bool :=
  match after with
  | Some minimum => match tx_daa_score transaction with Some score => minimum <? score | None => false end
  | None => true
  end.

(** The sort key [(daa_score.unwrap_or(0), observed_at_ms)]. *)
Definition query_order (left right : IndexedTransaction) : comparison :=
  then_with (default 0 (tx_daa_score left) ?= default 0 (tx_daa_score right))
            (tx_observed_at_ms left ?= tx_observed_at_ms right).

Definition filter_transactions (values : list IndexedTransaction) (query : TransactionQuery)
  : list IndexedTransaction :=
  sort_by query_order
    (List.filter (fun value => address_matches value (query_address query)
                               && daa_score_matches value (after_daa_score query)) values).

(** ** [metrics.rs] *)

Record IndexerMetrics := {
  m_transactions : Z;
  m_blocks : Z;
  m_matches : Z;
  transactions_observed : Z;
  blocks_observed : Z;
  matches_observed : Z;
  duplicate_transactions : Z;
  cache_hits : Z;
  cache_misses : Z;
  evictions : Z;
  ttl_evictions : Z;
  size_evictions : Z;
  rejected_records : Z;
}.

Definition default_metrics : IndexerMetrics := Build_IndexerMetrics 0 0 0 0 0 0 0 0 0 0 0 0 0.

Record IndexerHealth := {
  h_running : bool;
  scanner_healthy : bool;
  h_last_block_at_ms : option Z;
  transaction_count : Z;
  block_count : Z;
  match_count : Z;
  matcher_count : Z;
}.

(** ** [sync/mod.rs] *)

Definition default_checkpoint : SyncCheckpoint := {| virtual_daa_score := None; checkpoint_hash := None |}.

Definition validate_checkpoint (checkpoint : SyncCheckpoint) : result unit Text :=
  match checkpoint_hash checkpoint with
  | Some hash => if is_blank hash then Err (str "checkpoint block hash cannot be empty") else Ok tt
  | None => Ok tt
  end.

Record SyncReport := {
  transactions_added : Z;
  blocks_added : Z;
  matches_added : Z;
  sync_checkpoint : SyncCheckpoint;
}.

Record VirtualChainDelta := {
  removed_block_hashes : list Text;
  accepted : list BlockBatch;
  delta_checkpoint : SyncCheckpoint;
}.

Definition validate_delta (delta : VirtualChainDelta) : result unit Text :=
  let? _ := validate_checkpoint (delta_checkpoint delta) in
  if existsb is_blank (removed_block_hashes delta)
  then Err (str "virtual-chain delta contains an empty removed block hash")
  else if (100000 <? blen (removed_block_hashes delta)) || (100000 <? blen (accepted delta))
  then Err (str "virtual-chain delta exceeds hard safety bound")
  else Ok tt.

Record ReconciliationReport := {
  removed_blocks : Z;
  removed_transactions : Z;
  removed_matches : Z;
  added_blocks : Z;
  added_transactions : Z;
  added_matches : Z;
  rec_checkpoint : SyncCheckpoint;
}.

(** * Theorems *)

(** ** What the rules mean *)

Lemma list_Z_eqb_false a b : list_Z_eqb a b = false <-> a <> b.
Proof. unfold list_Z_eqb. apply bool_decide_eq_false. Qed.

Lemma existsb_eqb l x : existsb (fun item => list_Z_eqb item x) l = true <-> x ∈ l.
Proof.
  rewrite existsb_exists. split.
  - intros (y & Hin%list_elem_of_In & ->%list_Z_eqb_eq). done.
  - intros Hin. exists x. split; [by apply list_elem_of_In | by apply list_Z_eqb_eq].
Qed.

Lemma starts_with_spec l value : starts_with l value = true <-> exists rest, l = value ++ rest.
Proof.
  unfold starts_with. rewrite list_Z_eqb_eq. split.
  - intros H. exists (drop (length value) l). pose proof (take_drop (length value) l) as E. by rewrite H in E.
  - intros [rest ->]. by rewrite take_app_length.
Qed.

Lemma ends_with_spec l value : ends_with l value = true <-> exists rest, l = rest ++ value.
Proof.
  unfold ends_with. rewrite andb_true_iff, Z.leb_le, list_Z_eqb_eq. split.
  - intros [_ H]. exists (take (length l - length value) l).
    pose proof (take_drop (length l - length value) l) as E. by rewrite H in E.
  - intros [rest ->]. rewrite blen_app. split; [pose proof (blen_nonneg rest); lia|].
    rewrite length_app, Nat.add_sub. by rewrite drop_app_length.
Qed.

Lemma contains_spec haystack needle :
  contains haystack needle = true <-> exists before after, haystack = before ++ needle ++ after.
Proof.
  unfold contains, windows. rewrite andb_true_iff, Z.leb_le, existsb_exists. split.
  - intros [_ (w & Hw & ->%list_Z_eqb_eq)]. apply in_map_iff in Hw as (i & Hi & _).
    exists (take i haystack), (drop (length needle) (drop i haystack)).
    pose proof (take_drop (length needle) (drop i haystack)) as E. rewrite Hi in E. by rewrite E, take_drop.
  - intros (before & after & ->). unfold blen. rewrite !length_app. split; [lia|].
    exists needle. split; [|by apply list_Z_eqb_eq]. apply in_map_iff. exists (length before). split.
    + by rewrite drop_app_length, take_app_length.
    + apply in_seq. lia.
Qed.

Lemma scan_elem tx matchers m :
  m ∈ scan tx matchers <-> exists matcher, matcher ∈ matchers /\ matches (rule matcher) tx = true /\
     m = {| matcher_id := id matcher; match_txid := txid tx; match_observed_at_ms := tx_observed_at_ms tx |}.
Proof.
  unfold scan. rewrite list_elem_of_In, in_map_iff. split.
  - intros (matcher & <- & Hin%filter_In). exists matcher. rewrite list_elem_of_In. naive_solver.
  - intros (matcher & Hin & Hm & ->). exists matcher. split; [done|]. apply filter_In. by rewrite <- list_elem_of_In.
Qed.

Lemma scan_ids_NoDup tx matchers : NoDup (map id matchers) -> NoDup (map matcher_id (scan tx matchers)).
Proof.
  unfold scan. rewrite map_map. cbn [matcher_id]. induction matchers as [|matcher matchers IH]; cbn; [constructor|].
  inversion_clear 1 as [|? ? Hnotin Hnd]. destruct (matches _ _); [|by apply IH]. cbn. constructor; [|by apply IH].
  intros Hin%list_elem_of_In. apply Hnotin, list_elem_of_In. apply in_map_iff in Hin as (x & <- & Hx%filter_In).
  apply in_map_iff. exists x. naive_solver.
Qed.

(** A matcher accepts a transaction exactly when its rule holds: the
    address is among the transaction's addresses, or the payload starts with,
    contains, equals or ends with the rule's bytes. The scan reports each
    accepting matcher once, with the transaction's id and time. *)
Theorem scan_spec (tx : IndexedTransaction) (matchers : list Matcher) :
  (forall rule, matches rule tx = true <->
     match rule with
     | AddressRule address => address ∈ addresses tx
     | PayloadPrefix value => exists rest, payload tx = value ++ rest
     | PayloadContains value => exists before after, payload tx = before ++ value ++ after
     | PayloadExact value => payload tx = value
     | PayloadSuffix value => exists rest, payload tx = rest ++ value
     end) /\
  (forall m, m ∈ scan tx matchers <-> exists matcher, matcher ∈ matchers /\ matches (rule matcher) tx = true /\
     m = {| matcher_id := id matcher; match_txid := txid tx; match_observed_at_ms := tx_observed_at_ms tx |}) /\
  (NoDup (map id matchers) -> NoDup (map matcher_id (scan tx matchers))).
Proof.
  split_and!.
  - intros []; cbn [matches].
    + apply existsb_eqb.
    + apply starts_with_spec.
    + apply contains_spec.
    + apply list_Z_eqb_eq.
    + apply ends_with_spec.
  - apply scan_elem.
  - apply scan_ids_NoDup.
Qed.

(** ** Pages *)

(** A page is the run of values at its offset, clipped to the list, never
    longer than the limit; the pages at consecutive offsets join without
    overlap or gap; and [has_more] holds exactly when values remain after the
    page, so paging until it is false visits every value once. *)
Theorem page_spec {T} (values : list T) (request : PageRequest) (max_page : Z) :
  u64_ok (offset request) -> u64_ok (limit request) -> blen values <= u64_max ->
  (forall p, page values request max_page = Ok p <->
     1 <= limit request <= max_page /\
     p = {| items := take (Z.to_nat (limit request)) (drop (Z.to_nat (offset request)) values);
            page_offset := Z.min (offset request) (blen values);
            page_limit := limit request;
            page_total := blen values;
            has_more := offset request + limit request <? blen values |}) /\
  take (Z.to_nat (limit request)) (drop (Z.to_nat (offset request)) values)
    ++ drop (Z.to_nat (offset request + limit request)) values = drop (Z.to_nat (offset request)) values.
Proof.
  intros Ho Hl Hmax. unfold u64_ok, u64_max in *. split.
  - intros p. unfold page. destruct (Z.eqb_spec (limit request) 0); [split; [done | lia]|].
    destruct (Z.ltb_spec max_page (limit request)); [split; [done | lia]|].
    pose proof (blen_nonneg values).
    set (start := Z.min (offset request) (blen values)).
    set (end_ := Z.min (saturating_add start (limit request)) (blen values)).
    assert (He : end_ = Z.min (start + limit request) (blen values)) by (subst end_; unfold saturating_add, u64_max; lia).
    assert (Hitems : take (Z.to_nat (end_ - start)) (drop (Z.to_nat start) values)
      = take (Z.to_nat (limit request)) (drop (Z.to_nat (offset request)) values)).
    { destruct (Z.le_ge_cases (blen values) (offset request)).
      - rewrite !drop_ge by (unfold blen in *; lia). by rewrite !take_nil.
      - subst start. rewrite (Z.min_l (offset request)) in * by lia.
        destruct (Z.le_ge_cases (offset request + limit request) (blen values)).
        + do 2 f_equal. lia.
        + rewrite !take_ge; [done|rewrite length_drop; unfold blen in *; lia..]. }
    assert (Hmore : (end_ <? blen values) = (offset request + limit request <? blen values)).
    { destruct (Z.ltb_spec (offset request + limit request) (blen values)), (Z.ltb_spec end_ (blen values)); done || lia. }
    rewrite Hitems, Hmore. split; [intros [= <-]; split; [lia | done] | by intros [_ ->]].
  - rewrite <- (take_drop (Z.to_nat (limit request)) (drop (Z.to_nat (offset request)) values)) at 2.
    rewrite drop_drop. do 2 f_equal. lia.
Qed.

Lemma page_spec_witness :
  page [10; 20; 30; 40; 50] {| offset := 1; limit := 3 |} 500
    = Ok {| items := [20; 30; 40]; page_offset := 1; page_limit := 3; page_total := 5; has_more := true |}.
Proof.
  apply (page_spec [10; 20; 30; 40; 50] {| offset := 1; limit := 3 |} 500);
    [by_decide | by_decide | by_decide | split; [by_decide | reflexivity]].
Defined.

Lemma scan_spec_witness :
  let tx := {| txid := [97]; tx_block_hash := None; tx_daa_score := None; tx_observed_at_ms := 5;
               addresses := [[1]]; payload := [7; 8; 9]; tx_raw := Null |} in
  let watchers := [{| id := 1; rule := PayloadContains [8] |}; {| id := 2; rule := AddressRule [2] |}] in
  map matcher_id (scan tx watchers) = [1] /\ NoDup (map matcher_id (scan tx watchers)).
Proof.
  intros tx watchers. split; [reflexivity|].
  apply (scan_spec tx watchers). apply (bool_decide_unpack _). reflexivity.
Defined.
