(* ===== verification/IndexerStore.v ===== *)
(** * The indexer's bounded stores

    [indexer/storage/dedupe.rs] and [storage/memory.rs]: the recent-key window
    and the in-memory store with its time and size evictions. A [HashMap] is a
    [gmap], a [HashSet] a [gset], a [VecDeque] the list of its elements from
    front to back. Each [while] loop pops one queue element a round and is
    recursion on the queue. *)

From S2P Require Import Prelude Bytes Json IndexerModel.

(** ** [storage/dedupe.rs] *)

Module RecentKeys.

Record RecentKeys := { capacity : Z; set : gset Text; order : list Text }.

Definition new (capacity : Z) : RecentKeys := {| capacity := capacity; set := ∅; order := [] |}.

(** [while order.len() > capacity { pop_front; set.remove }] *)
Fixpoint trim_loop (capacity : Z) (order : list Text) (set : gset Text) : list Text * gset Text :=
  if blen order <=? capacity then (order, set)
  else
    match order with
    | [] => (order, set)
    | key :: order' => trim_loop capacity order' (set ∖ {[key]})
    end.

Definition trim (k : RecentKeys) : RecentKeys :=
  let '(order, set) := trim_loop (capacity k) (order k) (set k) in
  {| capacity := capacity k; set := set; order := order |}.

Definition observe (k : RecentKeys) (key : Text) : bool * RecentKeys :=
  if bool_decide (key ∈ set k) then (false, k)
  else (true, trim {| capacity := capacity k; set := {[key]} ∪ set k; order := order k ++ [key] |}).

Definition clear (k : RecentKeys) : RecentKeys := {| capacity := capacity k; set := ∅; order := [] |}.

End RecentKeys.

(** ** [storage/memory.rs] *)

Record IndexerSnapshot := {
  snap_transactions : list IndexedTransaction;
  snap_blocks : list IndexedBlock;
  snap_matches : list IndexedMatch;
}.

Record StoreEviction := { kind : Text; evicted_id : Text }.

Record MemoryStore := {
  config : IndexerConfig;
  tx : gmap Text IndexedTransaction;
  tx_order : list Text;
  blocks : gmap Text IndexedBlock;
  block_order : list Text;
  stored_matches : list IndexedMatch;
  pending_evictions : list StoreEviction;
}.

Module Store.

Definition new (config : IndexerConfig) : MemoryStore :=
  {| config := config; tx := ∅; tx_order := []; blocks := ∅; block_order := []; stored_matches := [];
     pending_evictions := [] |}.

Definition map_size {A} (m : gmap Text A) : Z := Z.of_nat (size m).

(** [matches.retain(...)] *)
Definition retain_matches (keep : IndexedMatch -> bool) (l : list IndexedMatch) : list IndexedMatch :=
  List.filter keep l.

Fixpoint trim_transactions_loop (s : MemoryStore) (order : list Text) : MemoryStore :=
  if map_size (tx s) <=? max_transactions (config s)
  then {| config := config s; tx := tx s; tx_order := order; blocks := blocks s; block_order := block_order s;
          stored_matches := stored_matches s; pending_evictions := pending_evictions s |}
  else
    match order with
    | [] =>
        {| config := config s; tx := tx s; tx_order := []; blocks := blocks s; block_order := block_order s;
           stored_matches := stored_matches s; pending_evictions := pending_evictions s |}
    | id :: order' =>
        trim_transactions_loop
          {| config := config s; tx := delete id (tx s); tx_order := order'; blocks := blocks s;
             block_order := block_order s;
             stored_matches := retain_matches (fun m => negb (list_Z_eqb (match_txid m) id)) (stored_matches s);
             pending_evictions := pending_evictions s ++ [{| kind := str "transaction_size"; evicted_id := id |}] |}
          order'
    end.
Definition trim_transactions (s : MemoryStore) : MemoryStore := trim_transactions_loop s (tx_order s).

Fixpoint trim_blocks_loop (s : MemoryStore) (order : list Text) : MemoryStore :=
  if map_size (blocks s) <=? max_blocks (config s)
  then {| config := config s; tx := tx s; tx_order := tx_order s; blocks := blocks s; block_order := order;
          stored_matches := stored_matches s; pending_evictions := pending_evictions s |}
  else
    match order with
    | [] =>
        {| config := config s; tx := tx s; tx_order := tx_order s; blocks := blocks s; block_order := [];
           stored_matches := stored_matches s; pending_evictions := pending_evictions s |}
    | id :: order' =>
        trim_blocks_loop
          {| config := config s; tx := tx s; tx_order := tx_order s; blocks := delete id (blocks s);
             block_order := order'; stored_matches := stored_matches s;
             pending_evictions := pending_evictions s ++ [{| kind := str "block_size"; evicted_id := id |}] |}
          order'
    end.
Definition trim_blocks (s : MemoryStore) : MemoryStore := trim_blocks_loop s (block_order s).

Definition match_key (m : IndexedMatch) : Text := Decimal.to_string (matcher_id m) ++ str ":" ++ match_txid m.

Fixpoint trim_matches_loop (limit : Z) (l : list IndexedMatch) (evictions : list StoreEviction)
  : list IndexedMatch * list StoreEviction :=
  if blen l <=? limit then (l, evictions)
  else
    match l with
    | [] => (l, evictions)
    | m :: l' => trim_matches_loop limit l' (evictions ++ [{| kind := str "match_size"; evicted_id := match_key m |}])
    end.
Definition trim_matches (s : MemoryStore) : MemoryStore :=
  let '(l, evictions) := trim_matches_loop (max_matches (config s)) (stored_matches s) (pending_evictions s) in
  {| config := config s; tx := tx s; tx_order := tx_order s; blocks := blocks s; block_order := block_order s;
     stored_matches := l; pending_evictions := evictions |}.

Definition insert_transaction (s : MemoryStore) (value : IndexedTransaction) : bool * MemoryStore :=
  match tx s !! txid value with
  | Some _ => (false, s)
  | None =>
      (true, trim_transactions
        {| config := config s; tx := <[txid value := value]> (tx s); tx_order := tx_order s ++ [txid value];
           blocks := blocks s; block_order := block_order s; stored_matches := stored_matches s;
           pending_evictions := pending_evictions s |})
  end.

Definition insert_block (s : MemoryStore) (value : IndexedBlock) : bool * MemoryStore :=
  match blocks s !! hash value with
  | Some _ => (false, s)
  | None =>
      (true, trim_blocks
        {| config := config s; tx := tx s; tx_order := tx_order s; blocks := <[hash value := value]> (blocks s);
           block_order := block_order s ++ [hash value]; stored_matches := stored_matches s;
           pending_evictions := pending_evictions s |})
  end.

Definition insert_match (s : MemoryStore) (value : IndexedMatch) : MemoryStore :=
  trim_matches
    {| config := config s; tx := tx s; tx_order := tx_order s; blocks := blocks s; block_order := block_order s;
       stored_matches := stored_matches s ++ [value]; pending_evictions := pending_evictions s |}.

Definition transaction (s : MemoryStore) (id : Text) : option IndexedTransaction := tx s !! id.
Definition transactions (s : MemoryStore) : list IndexedTransaction := omap (fun id => tx s !! id) (tx_order s).
Definition all_blocks (s : MemoryStore) : list IndexedBlock := omap (fun id => blocks s !! id) (block_order s).
Definition counts (s : MemoryStore) : Z * Z * Z := (map_size (tx s), map_size (blocks s), blen (stored_matches s)).

Definition clear (s : MemoryStore) : MemoryStore := new (config s).

Definition snapshot (s : MemoryStore) : IndexerSnapshot :=
  {| snap_transactions := transactions s; snap_blocks := all_blocks s; snap_matches := stored_matches s |}.

Definition clear_evictions (s : MemoryStore) : MemoryStore :=
  {| config := config s; tx := tx s; tx_order := tx_order s; blocks := blocks s; block_order := block_order s;
     stored_matches := stored_matches s; pending_evictions := [] |}.

Definition restore (config : IndexerConfig) (snapshot : IndexerSnapshot) : MemoryStore :=
  let store := new config in
  let store := fold_left (fun s value => snd (insert_transaction s value)) (snap_transactions snapshot) store in
  let store := fold_left (fun s value => snd (insert_block s value)) (snap_blocks snapshot) store in
  let store := fold_left insert_match (snap_matches snapshot) store in
  clear_evictions store.

Definition remove_matches_for_transactions (l : list IndexedMatch) (ids : list Text) : list IndexedMatch :=
  if bool_decide (ids = []) then l
  else retain_matches (fun m => negb (existsb (fun id => list_Z_eqb id (match_txid m)) ids)) l.

(** The loop of [purge_expired]: what is left of the queue and the map, and
    the expired ids. *)
Fixpoint purge_loop (now_ms ttl : Z) (order : list Text) (m : gmap Text IndexedTransaction) (expired : list Text)
  : list Text * gmap Text IndexedTransaction * list Text :=
  match order with
  | [] => (order, m, expired)
  | id :: order' =>
      match m !! id with
      | None => purge_loop now_ms ttl order' m expired
      | Some transaction =>
          if saturating_sub now_ms (tx_observed_at_ms transaction) <=? ttl then (order, m, expired)
          else purge_loop now_ms ttl order' (delete id m) (expired ++ [id])
      end
  end.

Definition purge_expired (s : MemoryStore) (now_ms : Z) : list Text * MemoryStore :=
  let ttl := transaction_ttl_ms (config s) in
  if ttl =? 0 then ([], s)
  else
    let '(order, m, expired) := purge_loop now_ms ttl (tx_order s) (tx s) [] in
    (expired,
     {| config := config s; tx := m; tx_order := order; blocks := blocks s; block_order := block_order s;
        stored_matches := remove_matches_for_transactions (stored_matches s) expired;
        pending_evictions := pending_evictions s |}).

Definition in_removed (removed_hashes : gset Text) (t : IndexedTransaction) : Prop :=
  match tx_block_hash t with Some hash => hash ∈ removed_hashes | None => False end.
#[export] Instance in_removed_dec removed_hashes t : Decision (in_removed removed_hashes t).
Proof. unfold in_removed. destruct (tx_block_hash t); apply _. Defined.

Definition remove_chain_blocks (s : MemoryStore) (removed_hashes : gset Text) : Z * Z * Z * MemoryStore :=
  if bool_decide (removed_hashes = ∅) then (0, 0, 0, s)
  else
    let blocks' := filter (fun '(hash, _) => hash ∉ removed_hashes) (blocks s) in
    let block_order' := filter (fun hash => hash ∉ removed_hashes) (block_order s) in
    let removed_txids := dom (filter (fun '(_, t) => in_removed removed_hashes t) (tx s)) in
    let tx' := filter (fun '(id, _) => id ∉ removed_txids) (tx s) in
    let tx_order' := filter (fun id => id ∉ removed_txids) (tx_order s) in
    let matches' := filter (fun m => match_txid m ∉ removed_txids) (stored_matches s) in
    (map_size (blocks s) - map_size blocks', map_size (tx s) - map_size tx',
     blen (stored_matches s) - blen matches',
     {| config := config s; tx := tx'; tx_order := tx_order'; blocks := blocks'; block_order := block_order';
        stored_matches := matches'; pending_evictions := pending_evictions s |}).

Definition take_evictions (s : MemoryStore) : list StoreEviction * MemoryStore :=
  (pending_evictions s, clear_evictions s).

End Store.

(** * Theorems *)

(** ** The recent-key window *)

Module RecentKeysProofs.
Import RecentKeys.

(** The hash set holds exactly the queue, which has no repeats and fits. *)
Record window_ok (k : RecentKeys) : Prop := {
  window_nodup : NoDup (order k);
  window_set : set k = list_to_set (order k);
  window_bound : blen (order k) <= capacity k;
}.

Definition keep_last {A} (n : nat) (l : list A) : list A := drop (length l - n) l.

Lemma trim_loop_spec capacity order set :
  0 <= capacity -> NoDup order -> set = list_to_set order ->
  trim_loop capacity order set =
    (keep_last (Z.to_nat capacity) order, list_to_set (keep_last (Z.to_nat capacity) order)).
Proof.
  intros Hc Hnd ->. unfold keep_last. induction Hnd as [|key order Hkey Hnd IH].
  - cbn [trim_loop]. rewrite drop_nil. by destruct (_ <=? _).
  - cbn [trim_loop]. destruct (Z.leb_spec (blen (key :: order)) capacity) as [Hle|Hgt]; unfold blen in *.
    + by rewrite (proj2 (Nat.sub_0_le _ _)) by lia.
    + assert (list_to_set (key :: order) ∖ {[key]} = (list_to_set order : gset Text)) as ->
        by (apply set_eq; intros x; set_solver).
      rewrite IH. cbn [length] in *.
      replace (S (length order) - Z.to_nat capacity)%nat with (S (length order - Z.to_nat capacity)) by lia.
      done.
Qed.

Lemma observe_spec k key :
  window_ok k -> 0 <= capacity k ->
  observe k key =
    if bool_decide (key ∈ order k) then (false, k)
    else (true, {| capacity := capacity k;
                   set := list_to_set (keep_last (Z.to_nat (capacity k)) (order k ++ [key]));
                   order := keep_last (Z.to_nat (capacity k)) (order k ++ [key]) |}).
Proof.
  intros [Hnd Hset Hb] Hc. unfold observe. rewrite Hset.
  rewrite (bool_decide_ext (key ∈ (list_to_set (order k) : gset Text)) (key ∈ order k)) by apply elem_of_list_to_set.
  case_bool_decide as Hin; [done|]. unfold trim. cbn [RecentKeys.capacity RecentKeys.order RecentKeys.set].
  rewrite trim_loop_spec; [done|done| |].
  - apply NoDup_app. split_and!; [done|set_solver|]. apply NoDup_singleton.
  - rewrite list_to_set_app_L, list_to_set_singleton_L. apply (comm_L (∪)).
Qed.

Lemma keep_last_NoDup {A} n (l : list A) : NoDup l -> NoDup (keep_last n l).
Proof.
  unfold keep_last. intros H. rewrite <- (take_drop (length l - n) l) in H. by apply NoDup_app in H as (_ & _ & H).
Qed.

Lemma observe_ok k key : window_ok k -> 0 <= capacity k ->
  window_ok (observe k key).2 /\ capacity (observe k key).2 = capacity k.
Proof.
  intros Hk Hc. rewrite observe_spec by done. case_bool_decide as Hin; [done|]. cbn. split; [|done].
  split; cbn; [|done|].
  - apply keep_last_NoDup, NoDup_app. split_and!; [apply Hk|set_solver|apply NoDup_singleton].
  - unfold keep_last, blen. rewrite length_drop. lia.
Qed.

(** Observing a stream of keys, with what each observation answered. *)
Fixpoint observe_all (k : RecentKeys) (keys : list Text) : list bool * RecentKeys :=
  match keys with
  | [] => ([], k)
  | key :: keys' =>
      let '(fresh, k') := observe k key in
      let '(answers, k'') := observe_all k' keys' in (fresh :: answers, k'')
  end.

Lemma observe_all_ok k keys : window_ok k -> 0 <= capacity k ->
  window_ok (observe_all k keys).2 /\ capacity (observe_all k keys).2 = capacity k.
Proof.
  revert k. induction keys as [|key keys IH]; intros k Hk Hc; [done|]. cbn [observe_all].
  destruct (observe k key) as [fresh k'] eqn:E. pose proof (observe_ok k key Hk Hc) as [Hk' Hcap].
  rewrite E in *. cbn in *. specialize (IH k' Hk' ltac:(lia)). destruct (observe_all k' keys) as [answers k''].
  cbn in *. split; [apply IH | lia].
Qed.

(** The keys a window has let through, oldest first. *)
Definition accepted_keys (answers : list bool) (keys : list Text) : list Text :=
  omap (fun '(fresh, key) => if (fresh : bool) then Some key else None) (zip answers keys).

Lemma keep_last_app {A} n (l1 l2 : list A) : keep_last n (keep_last n l1 ++ l2) = keep_last n (l1 ++ l2).
Proof.
  unfold keep_last. rewrite !length_app, length_drop.
  destruct (decide (length l1 <= n)%nat) as [Hle|Hgt].
  - rewrite (proj2 (Nat.sub_0_le (length l1) n)) by done. cbn [drop]. f_equal. lia.
  - set (d := (length l1 - n)%nat).
    transitivity (drop (length l2) (drop d (l1 ++ l2))).
    + rewrite (drop_app_le l1 l2 d) by lia. f_equal. lia.
    + rewrite drop_drop. f_equal. lia.
Qed.

(** After any stream of keys the window holds exactly the last
    [capacity] keys it let through, in order; a key is let through exactly
    when it is not among those, so duplicates inside the window are always
    suppressed, a forgotten key is let through again, and the memory used
    never exceeds the capacity. *)
Theorem recent_keys_window (window : Z) (keys : list Text) (key : Text) :
  0 <= window ->
  let '(answers, k) := observe_all (new window) keys in
  order k = keep_last (Z.to_nat window) (accepted_keys answers keys) /\
  blen (order k) <= window /\ set k = list_to_set (order k) /\
  ((observe k key).1 = true <-> key ∉ order k).
Proof.
  intros Hw.
  assert (Hnew : window_ok (new window)) by (split; cbn; [constructor|done|unfold blen; cbn; lia]).
  destruct (observe_all (new window) keys) as [answers k] eqn:E.
  pose proof (observe_all_ok (new window) keys Hnew Hw) as [Hk Hcap]. rewrite E in Hk, Hcap. cbn in Hk, Hcap.
  split_and!; [|destruct Hk; lia|apply Hk|].
  2: { rewrite observe_spec by (done || lia). case_bool_decide; cbn; [split; [done|] | done]. intros ?. done. }
  assert (Hgen : forall k0, window_ok k0 -> capacity k0 = window -> forall answers k,
    observe_all k0 keys = (answers, k) -> order k = keep_last (Z.to_nat window) (order k0 ++ accepted_keys answers keys)).
  2: { rewrite (Hgen (new window) Hnew eq_refl _ _ E). done. }
  clear E Hk Hcap Hnew answers k. induction keys as [|x keys IH]; intros k0 Hk0 Hcap answers k E.
  - injection E as <- <-. cbn. rewrite app_nil_r. unfold keep_last. destruct Hk0 as [_ _ Hb].
    unfold blen in Hb. by rewrite (proj2 (Nat.sub_0_le _ _)) by lia.
  - cbn [observe_all] in E. destruct (observe k0 x) as [fresh k1] eqn:E1.
    destruct (observe_all k1 keys) as [answers' k2] eqn:E2. injection E as <- <-.
    pose proof (observe_ok k0 x Hk0 ltac:(lia)) as [Hk1 Hcap1]. rewrite E1 in Hk1, Hcap1. cbn in Hk1, Hcap1.
    rewrite (IH k1 Hk1 ltac:(lia) _ _ E2).
    rewrite observe_spec in E1 by (done || lia). case_bool_decide; injection E1 as <- <-; cbn [accepted_keys zip zip_with omap list_omap].
    + done.
    + cbn [RecentKeys.order]. rewrite Hcap, keep_last_app, <- app_assoc. done.
Qed.

Lemma recent_keys_window_witness :
  observe_all (new 2) [[1]; [2]; [1]; [3]; [1]] = ([true; true; false; true; true],
    {| capacity := 2; set := list_to_set [[3]; [1]]; order := [[3]; [1]] |}) /\
  ((observe {| capacity := 2; set := list_to_set [[3]; [1]]; order := [[3]; [1]] |} [2]).1 = true <->
     [2] ∉ [[3]; [1]]).
Proof.
  assert (E : observe_all (new 2) [[1]; [2]; [1]; [3]; [1]] = ([true; true; false; true; true],
    {| capacity := 2; set := list_to_set [[3]; [1]]; order := [[3]; [1]] |})) by (vm_compute; reflexivity).
  split; [exact E|].
  pose proof (recent_keys_window 2 [[1]; [2]; [1]; [3]; [1]] [2] ltac:(by_decide)) as H.
  rewrite E in H. apply H.
Defined.

End RecentKeysProofs.

(** ** A map with its insertion order is a list of records *)

Section indexed.
Context {A : Type} (key : A -> Text).
Implicit Types (m : gmap Text A) (order : list Text).

Definition values m order : list A := omap (fun k => m !! k) order.

Record indexed m order : Prop := {
  indexed_nodup : NoDup order;
  indexed_dom : forall k, k ∈ order <-> is_Some (m !! k);
  indexed_key : forall k a, m !! k = Some a -> key a = k;
}.

Lemma values_cons m k a order : m !! k = Some a -> values m (k :: order) = a :: values m order.
Proof. intros H. unfold values. cbn. by rewrite H. Qed.

Lemma values_app m o1 o2 : values m (o1 ++ o2) = values m o1 ++ values m o2.
Proof. unfold values. apply omap_app. Qed.

Lemma values_ext m m' order : (forall k, k ∈ order -> m !! k = m' !! k) -> values m order = values m' order.
Proof.
  induction order as [|k order IH]; intros H; [done|]. unfold values in *. cbn.
  rewrite (H k) by left. rewrite IH; [done|]. intros. apply H. by right.
Qed.

Lemma values_keys m order :
  (forall k, k ∈ order -> exists a, m !! k = Some a /\ key a = k) -> map key (values m order) = order.
Proof.
  induction order as [|k order IH]; intros H; [done|].
  destruct (H k ltac:(left)) as (a & Ha & Hk). rewrite (values_cons _ _ _ _ Ha). cbn. rewrite Hk. f_equal.
  apply IH. intros. apply H. by right.
Qed.

Lemma indexed_values_keys m order : indexed m order -> map key (values m order) = order.
Proof.
  intros [_ Hd Hk]. apply values_keys. intros k [a Ha]%Hd. exists a. split; [done | by apply Hk].
Qed.

Lemma indexed_size m order : indexed m order -> size m = length order.
Proof.
  intros [Hnd Hd _]. rewrite <- size_dom.
  assert (dom m = list_to_set order) as ->.
  { apply set_eq. intros k. rewrite elem_of_dom, elem_of_list_to_set. by rewrite Hd. }
  by apply size_list_to_set.
Qed.

Lemma indexed_length m order : indexed m order -> length (values m order) = length order.
Proof. intros H%indexed_values_keys. rewrite <- H at 2. by rewrite length_map. Qed.

Lemma indexed_empty : indexed ∅ [].
Proof. split; [constructor| |done]. intros k. rewrite lookup_empty. split; [set_solver | by intros []]. Qed.

Lemma indexed_insert m order a :
  indexed m order -> m !! key a = None ->
  indexed (<[key a := a]> m) (order ++ [key a]) /\
  values (<[key a := a]> m) (order ++ [key a]) = values m order ++ [a].
Proof.
  intros [Hnd Hd Hk] Hnone.
  assert (Hnotin : key a ∉ order) by (rewrite Hd, Hnone; by intros []). split.
  - split.
    + apply NoDup_app. split_and!; [done|set_solver|apply NoDup_singleton].
    + intros k. rewrite elem_of_app, list_elem_of_singleton, Hd.
      destruct (decide (k = key a)) as [->|Hne].
      * rewrite lookup_insert_eq. naive_solver.
      * rewrite lookup_insert_ne by done. naive_solver.
    + intros k b. destruct (decide (k = key a)) as [->|Hne].
      * rewrite lookup_insert_eq. by intros [= <-].
      * rewrite lookup_insert_ne by done. apply Hk.
  - rewrite values_app. f_equal.
    + apply values_ext. intros k Hin. rewrite lookup_insert_ne; [done|]. by intros <-.
    + unfold values. cbn. by rewrite lookup_insert_eq.
Qed.

Lemma indexed_delete m k order :
  indexed m (k :: order) ->
  indexed (delete k m) order /\
  exists a, m !! k = Some a /\ key a = k /\ values m (k :: order) = a :: values (delete k m) order.
Proof.
  intros [Hnd Hd Hk]. inversion_clear Hnd as [|? ? Hnotin Hnd'].
  destruct (proj1 (Hd k) ltac:(left)) as [a Ha]. split.
  - split; [done| |].
    + intros k'. destruct (decide (k' = k)) as [->|Hne].
      * rewrite lookup_delete_eq. split; [done | by intros []].
      * rewrite lookup_delete_ne by done. rewrite <- Hd. set_solver.
    + intros k' b. rewrite lookup_delete_Some. intros [_ ?]. by apply Hk.
  - exists a. split_and!; [done | by apply Hk |]. rewrite (values_cons _ _ _ _ Ha). f_equal.
    apply values_ext. intros k' Hin. rewrite lookup_delete_ne; [done|]. by intros ->.
Qed.

Lemma indexed_filter m order (P : Text -> Prop) `{forall k, Decision (P k)} :
  indexed m order ->
  indexed (filter (fun '(k, _) => P k) m) (filter P order) /\
  values (filter (fun '(k, _) => P k) m) (filter P order) = filter (fun a => P (key a)) (values m order).
Proof.
  intros [Hnd Hd Hk]. split.
  - split.
    + by apply NoDup_filter.
    + intros k. rewrite list_elem_of_filter, Hd. split.
      * intros [HP [a Ha]]. exists a. by apply map_lookup_filter_Some.
      * intros [a [Ha HP]%map_lookup_filter_Some]. split; [done | by exists a].
    + intros k a [Ha _]%map_lookup_filter_Some. by apply Hk.
  - assert (Hd' : forall k, k ∈ order -> is_Some (m !! k)) by (intros k; apply Hd). clear Hd Hnd.
    induction order as [|k order IH]; [done|].
    destruct (Hd' k ltac:(left)) as [a Ha]. rewrite (values_cons _ _ _ _ Ha).
    specialize (IH ltac:(intros; apply Hd'; by right)). pose proof (Hk k a Ha) as Hka.
    rewrite !filter_cons, Hka. destruct (decide (P k)).
    + rewrite (values_cons _ k a); [by rewrite IH|]. by apply map_lookup_filter_Some.
    + done.
Qed.
End indexed.
Arguments indexed {A} key m order.

(** ** The store refines two bounded queues of records and a match queue *)

Record Index := {
  ix_transactions : list IndexedTransaction;
  ix_blocks : list IndexedBlock;
  ix_matches : list IndexedMatch;
}.

Module StoreProofs.
Import Store.

Definition abs (s : MemoryStore) : Index :=
  {| ix_transactions := transactions s; ix_blocks := all_blocks s; ix_matches := stored_matches s |}.

(** The concrete invariant. *)
Record store_ok (s : MemoryStore) : Prop := {
  ok_tx : indexed txid (tx s) (tx_order s);
  ok_blocks : indexed hash (blocks s) (block_order s);
}.

Definition drop_oldest {A} (limit : Z) (l : list A) : nat := (length l - Z.to_nat limit)%nat.

Definition spec_insert_transaction (limit : Z) (value : IndexedTransaction) (x : Index) : bool * Index :=
  if bool_decide (txid value ∈ map txid (ix_transactions x)) then (false, x)
  else
    let l := ix_transactions x ++ [value] in
    let n := drop_oldest limit l in
    (true, {| ix_transactions := drop n l; ix_blocks := ix_blocks x;
              ix_matches := filter (fun m => match_txid m ∉ map txid (take n l)) (ix_matches x) |}).

Definition spec_insert_block (limit : Z) (value : IndexedBlock) (x : Index) : bool * Index :=
  if bool_decide (hash value ∈ map hash (ix_blocks x)) then (false, x)
  else
    let l := ix_blocks x ++ [value] in
    (true, {| ix_transactions := ix_transactions x; ix_blocks := drop (drop_oldest limit l) l;
              ix_matches := ix_matches x |}).

Definition spec_insert_match (limit : Z) (value : IndexedMatch) (x : Index) : Index :=
  let l := ix_matches x ++ [value] in
  {| ix_transactions := ix_transactions x; ix_blocks := ix_blocks x; ix_matches := drop (drop_oldest limit l) l |}.

(** The queue is in arrival order: expiry removes a prefix, up to the first
    record that is still fresh. *)
Fixpoint expired_prefix (now_ms ttl : Z) (l : list IndexedTransaction) : nat :=
  match l with
  | [] => O
  | t :: l' => if saturating_sub now_ms (tx_observed_at_ms t) <=? ttl then O else S (expired_prefix now_ms ttl l')
  end.

Definition spec_purge (now_ms ttl : Z) (x : Index) : list Text * Index :=
  if ttl =? 0 then ([], x)
  else
    let n := expired_prefix now_ms ttl (ix_transactions x) in
    let ids := map txid (take n (ix_transactions x)) in
    (ids, {| ix_transactions := drop n (ix_transactions x); ix_blocks := ix_blocks x;
             ix_matches := filter (fun m => match_txid m ∉ ids) (ix_matches x) |}).

Definition spec_remove_blocks (removed : gset Text) (x : Index) : Index :=
  let gone := map txid (filter (in_removed removed) (ix_transactions x)) in
  {| ix_transactions := filter (fun t => ~ in_removed removed t) (ix_transactions x);
     ix_blocks := filter (fun b => hash b ∉ removed) (ix_blocks x);
     ix_matches := filter (fun m => match_txid m ∉ gone) (ix_matches x) |}.

Lemma retain_matches_filter (P : IndexedMatch -> Prop) `{forall m, Decision (P m)} keep l :
  (forall m, keep m = bool_decide (P m)) -> retain_matches keep l = filter P l.
Proof.
  intros Hk. unfold retain_matches. induction l as [|m l IH]; [done|]. cbn [List.filter].
  rewrite Hk, IH, filter_cons. case_bool_decide; by case_decide.
Qed.

Lemma filter_ext_in {A} (P Q : A -> Prop) `{forall x, Decision (P x)} `{forall x, Decision (Q x)} (l : list A) :
  (forall x, x ∈ l -> P x <-> Q x) -> filter P l = filter Q l.
Proof.
  induction l as [|x l IH]; intros HPQ; [done|]. rewrite !filter_cons, IH by (intros; apply HPQ; by right).
  pose proof (HPQ x ltac:(left)). destruct (decide (P x)), (decide (Q x)); naive_solver.
Qed.

Lemma filter_all {A} (P : A -> Prop) `{forall x, Decision (P x)} (l : list A) : (forall x, x ∈ l -> P x) -> filter P l = l.
Proof.
  induction l as [|x l IH]; intros HP; [done|]. rewrite filter_cons, decide_True by (apply HP; left).
  f_equal. apply IH. intros. apply HP. by right.
Qed.

Lemma trim_transactions_loop_spec order s :
  indexed txid (tx s) order -> 0 <= max_transactions (config s) ->
  let n := drop_oldest (max_transactions (config s)) order in
  let s' := trim_transactions_loop s order in
  indexed txid (tx s') (drop n order) /\ tx_order s' = drop n order /\
  values (tx s') (drop n order) = drop n (values (tx s) order) /\
  stored_matches s' = filter (fun m => match_txid m ∉ take n order) (stored_matches s) /\
  config s' = config s /\ blocks s' = blocks s /\ block_order s' = block_order s.
Proof.
  revert s. induction order as [|k order IH]; intros s Hix Hmax; cbn zeta; unfold drop_oldest;
    cbn [trim_transactions_loop]; unfold map_size; rewrite (indexed_size _ _ _ Hix).
  - rewrite (proj2 (Z.leb_le _ _)) by (cbn; lia). cbn. split_and!; try done. by rewrite filter_all by set_solver.
  - destruct (Z.leb_spec (Z.of_nat (length (k :: order))) (max_transactions (config s))).
    + rewrite (proj2 (Nat.sub_0_le _ _)) by lia. cbn [drop take tx tx_order stored_matches config blocks block_order].
      split_and!; try done. by rewrite filter_all by set_solver.
    + destruct (indexed_delete _ _ _ _ Hix) as (Hix' & a & Ha & Hka & Hvals).
      set (s1 := {| config := config s; tx := delete k (tx s) |}) in *.
      specialize (IH s1 Hix' Hmax). cbn zeta in IH. unfold drop_oldest in IH. cbn [config s1] in IH.
      replace (length (k :: order) - Z.to_nat (max_transactions (config s)))%nat
        with (S (length order - Z.to_nat (max_transactions (config s)))) by (cbn in *; lia).
      cbn [drop take]. rewrite Hvals. cbn [drop].
      destruct IH as (H1 & H2 & H3 & H4 & H5 & H6 & H7). split_and!; try done.
      rewrite H4. cbn [stored_matches s1].
      rewrite (retain_matches_filter (fun m => match_txid m <> k)).
      2: { intros m. unfold list_Z_eqb. case_bool_decide; by case_bool_decide. }
      rewrite list_filter_filter. apply filter_ext_in. set_solver.
Qed.

Lemma map_take_drop {A B} (f : A -> B) n l : map f (take n l) = take n (map f l) /\ map f (drop n l) = drop n (map f l).
Proof. split; [apply (fmap_take f) | apply (fmap_drop f)]. Qed.

Lemma abs_keys s : store_ok s ->
  map txid (ix_transactions (abs s)) = tx_order s /\ map hash (ix_blocks (abs s)) = block_order s.
Proof. intros [H1 H2]. split; by apply indexed_values_keys. Qed.

Lemma insert_transaction_refines s value :
  store_ok s -> 0 <= max_transactions (config s) ->
  let '(fresh, s') := insert_transaction s value in
  store_ok s' /\ config s' = config s /\
  (fresh, abs s') = spec_insert_transaction (max_transactions (config s)) value (abs s).
Proof.
  intros Hok Hmax. pose proof (abs_keys s Hok) as [Hkeys _]. destruct Hok as [Htx Hbk].
  unfold insert_transaction, spec_insert_transaction. rewrite Hkeys.
  destruct (tx s !! txid value) as [t|] eqn:E.
  - rewrite bool_decide_eq_true_2 by (apply (indexed_dom _ _ _ Htx); by exists t). split_and!; done.
  - rewrite bool_decide_eq_false_2 by (rewrite (indexed_dom _ _ _ Htx), E; by intros []).
    destruct (indexed_insert txid (tx s) (tx_order s) value Htx E) as [Hix Hvals].
    set (s1 := {| config := config s; tx := <[txid value := value]> (tx s) |}).
    pose proof (trim_transactions_loop_spec (tx_order s ++ [txid value]) s1 Hix Hmax) as H.
    cbn zeta in H. unfold trim_transactions. change (tx_order s1) with (tx_order s ++ [txid value]).
    change (config s1) with (config s) in H. change (tx s1) with (<[txid value := value]> (tx s)) in H.
    destruct H as (H1 & H2 & H3 & H4 & H5 & H6 & H7).
    set (s' := trim_transactions_loop s1 _) in *. clearbody s'.
    split_and!; [split; [by rewrite H2 | by rewrite H6, H7] | done |].
    assert (Hlen : drop_oldest (max_transactions (config s)) (ix_transactions (abs s) ++ [value])
      = drop_oldest (max_transactions (config s)) (tx_order s ++ [txid value])).
    { unfold drop_oldest. rewrite !length_app, <- Hkeys, length_map. done. }
    rewrite Hlen. f_equal. unfold abs at 1. f_equal.
    + unfold transactions. rewrite H2. change (omap (fun id => tx s' !! id)) with (values (tx s')).
      rewrite H3, Hvals. done.
    + unfold all_blocks. by rewrite H6, H7.
    + rewrite H4. destruct (map_take_drop txid (drop_oldest (max_transactions (config s)) (tx_order s ++ [txid value]))
        (ix_transactions (abs s) ++ [value])) as [-> _].
      rewrite map_app, Hkeys. done.
Qed.

Lemma trim_blocks_loop_spec order s :
  indexed hash (blocks s) order -> 0 <= max_blocks (config s) ->
  let n := drop_oldest (max_blocks (config s)) order in
  let s' := trim_blocks_loop s order in
  indexed hash (blocks s') (drop n order) /\ block_order s' = drop n order /\
  values (blocks s') (drop n order) = drop n (values (blocks s) order) /\
  stored_matches s' = stored_matches s /\ config s' = config s /\ tx s' = tx s /\ tx_order s' = tx_order s.
Proof.
  revert s. induction order as [|k order IH]; intros s Hix Hmax; cbn zeta; unfold drop_oldest;
    cbn [trim_blocks_loop]; unfold map_size; rewrite (indexed_size _ _ _ Hix).
  - rewrite (proj2 (Z.leb_le _ _)) by (cbn; lia). done.
  - destruct (Z.leb_spec (Z.of_nat (length (k :: order))) (max_blocks (config s))).
    + by rewrite (proj2 (Nat.sub_0_le _ _)) by lia.
    + destruct (indexed_delete _ _ _ _ Hix) as (Hix' & a & Ha & Hka & Hvals).
      set (s1 := {| config := config s; tx := tx s |}) in *.
      specialize (IH s1 Hix' Hmax). cbn zeta in IH. unfold drop_oldest in IH. cbn [config s1] in IH.
      replace (length (k :: order) - Z.to_nat (max_blocks (config s)))%nat
        with (S (length order - Z.to_nat (max_blocks (config s)))) by (cbn in *; lia).
      cbn [drop]. rewrite Hvals. exact IH.
Qed.

Lemma insert_block_refines s value :
  store_ok s -> 0 <= max_blocks (config s) ->
  let '(fresh, s') := insert_block s value in
  store_ok s' /\ config s' = config s /\
  (fresh, abs s') = spec_insert_block (max_blocks (config s)) value (abs s).
Proof.
  intros Hok Hmax. pose proof (abs_keys s Hok) as [_ Hkeys]. destruct Hok as [Htx Hbk].
  unfold insert_block, spec_insert_block. rewrite Hkeys.
  destruct (blocks s !! hash value) as [t|] eqn:E.
  - rewrite bool_decide_eq_true_2 by (apply (indexed_dom _ _ _ Hbk); by exists t). split_and!; done.
  - rewrite bool_decide_eq_false_2 by (rewrite (indexed_dom _ _ _ Hbk), E; by intros []).
    destruct (indexed_insert hash (blocks s) (block_order s) value Hbk E) as [Hix Hvals].
    set (s1 := {| config := config s; tx := tx s |}).
    pose proof (trim_blocks_loop_spec (block_order s ++ [hash value]) s1 Hix Hmax) as H.
    cbn zeta in H. unfold trim_blocks. change (block_order s1) with (block_order s ++ [hash value]).
    change (config s1) with (config s) in H. change (blocks s1) with (<[hash value := value]> (blocks s)) in H.
    destruct H as (H1 & H2 & H3 & H4 & H5 & H6 & H7).
    set (s' := trim_blocks_loop s1 _) in *. clearbody s'.
    split_and!; [split; [by rewrite H6, H7 | by rewrite H2] | done |].
    assert (Hlen : drop_oldest (max_blocks (config s)) (ix_blocks (abs s) ++ [value])
      = drop_oldest (max_blocks (config s)) (block_order s ++ [hash value])).
    { unfold drop_oldest. rewrite !length_app, <- Hkeys, length_map. done. }
    cbv zeta. rewrite Hlen. f_equal. unfold abs at 1. f_equal.
    + unfold transactions. by rewrite H6, H7.
    + unfold all_blocks. rewrite H2. change (omap (fun id => blocks s' !! id)) with (values (blocks s')).
      by rewrite H3, Hvals.
    + by rewrite H4.
Qed.

Lemma trim_matches_loop_spec limit l evictions :
  0 <= limit -> (trim_matches_loop limit l evictions).1 = drop (drop_oldest limit l) l.
Proof.
  intros Hl. unfold drop_oldest. revert evictions. induction l as [|m l IH]; intros evictions; cbn [trim_matches_loop].
  - by destruct (_ <=? _); rewrite drop_nil.
  - destruct (Z.leb_spec (blen (m :: l)) limit); unfold blen in *.
    + by rewrite (proj2 (Nat.sub_0_le _ _)) by lia.
    + rewrite IH. cbn [length] in *.
      by replace (S (length l) - Z.to_nat limit)%nat with (S (length l - Z.to_nat limit)) by lia.
Qed.

Lemma insert_match_refines s value :
  store_ok s -> 0 <= max_matches (config s) ->
  store_ok (insert_match s value) /\ config (insert_match s value) = config s /\
  abs (insert_match s value) = spec_insert_match (max_matches (config s)) value (abs s).
Proof.
  intros [Htx Hbk] Hmax. unfold insert_match, trim_matches.
  cbn [config tx tx_order blocks block_order stored_matches pending_evictions].
  pose proof (trim_matches_loop_spec (max_matches (config s)) (stored_matches s ++ [value]) (pending_evictions s) Hmax) as H.
  destruct (trim_matches_loop _ _ _) as [l e]. cbn [fst] in H. subst l. split_and!; done.
Qed.

Lemma purge_loop_spec now_ms ttl order m expired :
  indexed txid m order ->
  let n := expired_prefix now_ms ttl (values m order) in
  let '(order', m', expired') := purge_loop now_ms ttl order m expired in
  order' = drop n order /\ indexed txid m' order' /\ values m' order' = drop n (values m order) /\
  expired' = expired ++ take n order.
Proof.
  revert m expired. induction order as [|k order IH]; intros m expired Hix; cbn zeta; cbn [purge_loop].
  - cbn. by rewrite app_nil_r.
  - destruct (indexed_delete _ _ _ _ Hix) as (Hix' & a & Ha & Hka & Hvals).
    rewrite Ha, Hvals. cbn [expired_prefix]. destruct (saturating_sub _ _ <=? ttl).
    + cbn [drop take]. by rewrite app_nil_r.
    + specialize (IH (delete k m) (expired ++ [k]) Hix'). cbn zeta in IH.
      destruct (purge_loop _ _ _ _ _) as [[order' m'] expired']. cbn [drop take].
      destruct IH as (H1 & H2 & H3 & ->). split_and!; [done|done|done|]. by rewrite <- app_assoc.
Qed.

Lemma remove_matches_filter l ids :
  remove_matches_for_transactions l ids = filter (fun m => match_txid m ∉ ids) l.
Proof.
  unfold remove_matches_for_transactions. case_bool_decide as H.
  - subst. rewrite filter_all; [done | set_solver].
  - apply retain_matches_filter. intros m.
    destruct (existsb (fun id => list_Z_eqb id (match_txid m)) ids) eqn:E; cbn; symmetry.
    + apply existsb_eqb in E. by apply bool_decide_eq_false_2; intros ?.
    + apply bool_decide_eq_true_2. intros Hin%existsb_eqb. congruence.
Qed.

Lemma purge_expired_refines s now_ms :
  store_ok s ->
  let '(ids, s') := purge_expired s now_ms in
  store_ok s' /\ config s' = config s /\
  (ids, abs s') = spec_purge now_ms (transaction_ttl_ms (config s)) (abs s).
Proof.
  intros Hok. pose proof (abs_keys s Hok) as [Hkeys _]. destruct Hok as [Htx Hbk].
  unfold purge_expired, spec_purge. destruct (_ =? 0); [done|].
  pose proof (purge_loop_spec now_ms (transaction_ttl_ms (config s)) (tx_order s) (tx s) [] Htx) as H.
  cbn zeta in H. destruct (purge_loop _ _ _ _ _) as [[order m] expired].
  destruct H as (-> & Hix & Hvals & ->). cbn [app]. split_and!; [done|done|].
  destruct (map_take_drop txid (expired_prefix now_ms (transaction_ttl_ms (config s)) (ix_transactions (abs s)))
    (ix_transactions (abs s))) as [-> _].
  rewrite Hkeys. cbn zeta. f_equal. unfold abs at 1. f_equal.
  - exact Hvals.
  - cbn [stored_matches]. by rewrite remove_matches_filter.
Qed.

Lemma map_filter_keys (P : Text -> Prop) `{forall k, Decision (P k)} (l : list IndexedTransaction) :
  map txid (filter (fun t => P (txid t)) l) = filter P (map txid l).
Proof.
  induction l as [|t l IH]; [done|]. cbn [map]. rewrite !filter_cons.
  destruct (decide (P (txid t))); cbn; by rewrite IH.
Qed.

Lemma remove_chain_blocks_refines s removed :
  store_ok s ->
  let '(nb, nt, nm, s') := remove_chain_blocks s removed in
  store_ok s' /\ config s' = config s /\ abs s' = spec_remove_blocks removed (abs s) /\
  nb = blen (ix_blocks (abs s)) - blen (ix_blocks (abs s')) /\
  nt = blen (ix_transactions (abs s)) - blen (ix_transactions (abs s')) /\
  nm = blen (ix_matches (abs s)) - blen (ix_matches (abs s')).
Proof.
  intros Hok. pose proof Hok as [Htx Hbk]. unfold remove_chain_blocks. case_bool_decide as Hempty.
  - subst removed. split_and!; try done; try lia. unfold spec_remove_blocks, abs; cbn [ix_transactions ix_blocks ix_matches].
    assert (Hnone : forall t : IndexedTransaction, ~ in_removed ∅ t)
      by (intros t; unfold in_removed; destruct (tx_block_hash t); set_solver).
    rewrite (filter_all (fun t => ~ in_removed ∅ t)) by auto.
    rewrite (filter_all (fun b => hash b ∉ ∅)) by set_solver.
    rewrite (filter_all (fun m => match_txid m ∉ _)); [done|].
    intros m _. assert (filter (in_removed ∅) (transactions s) = []) as ->; [|set_solver].
    { induction (transactions s) as [|t l IH]; [done|]. rewrite filter_cons, decide_False by apply Hnone. done. }
  - set (removed_txids := dom (filter (fun '(_, t) => in_removed removed t) (tx s))).
    assert (Hgone : forall t, t ∈ transactions s -> txid t ∈ removed_txids <-> in_removed removed t).
    { intros t Ht. unfold transactions in Ht. apply list_elem_of_omap in Ht as (k & _ & Hk).
      pose proof (indexed_key _ _ _ Htx k t Hk) as Ek. subst removed_txids. rewrite elem_of_dom, Ek. split.
      - intros [t' [Ht' HP]%map_lookup_filter_Some]. congruence.
      - intros HP. exists t. by apply map_lookup_filter_Some. }
    destruct (indexed_filter txid (tx s) (tx_order s) (fun k => k ∉ removed_txids) Htx) as [Hix Hvals].
    destruct (indexed_filter hash (blocks s) (block_order s) (fun k => k ∉ removed) Hbk) as [Hixb Hvalsb].
    assert (Htxs : filter (fun t => txid t ∉ removed_txids) (transactions s)
      = filter (fun t => ~ in_removed removed t) (transactions s)).
    { apply filter_ext_in. intros t Ht. by rewrite (Hgone t Ht). }
    assert (Hms : filter (fun m => match_txid m ∉ removed_txids) (stored_matches s)
      = filter (fun m => match_txid m ∉ map txid (filter (in_removed removed) (transactions s))) (stored_matches s)).
    { apply list_filter_iff. intros m. f_equiv. split.
      - subst removed_txids. rewrite elem_of_dom. intros [t [Ht HP]%map_lookup_filter_Some].
        change (map txid) with (fmap (M := list) txid). apply list_elem_of_fmap. exists t.
        split; [symmetry; by apply (indexed_key _ _ _ Htx)|].
        apply list_elem_of_filter. split; [done|]. apply list_elem_of_omap. exists (match_txid m). split; [|done].
        apply (indexed_dom _ _ _ Htx). by exists t.
      - change (map txid) with (fmap (M := list) txid). intros (t & -> & Ht)%list_elem_of_fmap.
        apply list_elem_of_filter in Ht as [HP Ht]. by apply Hgone. }
    set (s' := {| config := config s; tx := filter _ (tx s) |}).
    assert (Habs : abs s' = spec_remove_blocks removed (abs s)).
    { unfold spec_remove_blocks, abs at 1. f_equal.
      - etransitivity; [exact Hvals | exact Htxs].
      - exact Hvalsb.
      - exact Hms. }
    assert (Hsize : forall x, store_ok x -> map_size (tx x) = blen (transactions x) /\
        map_size (blocks x) = blen (all_blocks x)).
    { intros x [H1 H2]. unfold map_size, blen. rewrite (indexed_size _ _ _ H1), (indexed_size _ _ _ H2).
      rewrite <- (indexed_length _ _ _ H1), <- (indexed_length _ _ _ H2). done. }
    assert (Hok' : store_ok s') by (split; [exact Hix | exact Hixb]).
    destruct (Hsize s Hok) as [E1 E2]. destruct (Hsize s' Hok') as [E3 E4].
    split_and!; [exact Hok'|done|exact Habs| | |done].
    + unfold abs. cbn [ix_blocks]. rewrite <- E2, <- E4. done.
    + unfold abs. cbn [ix_transactions]. rewrite <- E1, <- E3. done.
Qed.

Lemma new_ok cfg : store_ok (new cfg).
Proof. split; apply indexed_empty. Qed.

(** C38: The hash maps with their order queues and eviction loops implement
    bounded first-in first-out queues of distinct records: an insert is
    refused exactly for a record whose key is present and otherwise appends it
    and drops the oldest records over the limit, with the matches of the
    transactions dropped; expiry drops the prefix of records older than the
    limit with their matches; removing blocks drops exactly their records,
    the transactions they carried and those transactions' matches. *)
Theorem store_refines_queues (s : MemoryStore) :
  store_ok s ->
  0 <= max_transactions (config s) -> 0 <= max_blocks (config s) -> 0 <= max_matches (config s) ->
  (forall value, store_ok (insert_transaction s value).2 /\
     ((insert_transaction s value).1, abs (insert_transaction s value).2)
       = spec_insert_transaction (max_transactions (config s)) value (abs s)) /\
  (forall value, store_ok (insert_block s value).2 /\
     ((insert_block s value).1, abs (insert_block s value).2)
       = spec_insert_block (max_blocks (config s)) value (abs s)) /\
  (forall value, store_ok (insert_match s value) /\
     abs (insert_match s value) = spec_insert_match (max_matches (config s)) value (abs s)) /\
  (forall now_ms, store_ok (purge_expired s now_ms).2 /\
     ((purge_expired s now_ms).1, abs (purge_expired s now_ms).2)
       = spec_purge now_ms (transaction_ttl_ms (config s)) (abs s)) /\
  (forall removed, store_ok (remove_chain_blocks s removed).2 /\
     abs (remove_chain_blocks s removed).2 = spec_remove_blocks removed (abs s)).
Proof.
  intros Hok H1 H2 H3. split_and!.
  - intros v. pose proof (insert_transaction_refines s v Hok H1) as H.
    destruct (insert_transaction s v). split; apply H.
  - intros v. pose proof (insert_block_refines s v Hok H2) as H. destruct (insert_block s v). split; apply H.
  - intros v. pose proof (insert_match_refines s v Hok H3) as H. split; apply H.
  - intros now. pose proof (purge_expired_refines s now Hok) as H. destruct (purge_expired s now). split; apply H.
  - intros removed. pose proof (remove_chain_blocks_refines s removed Hok) as H.
    destruct (remove_chain_blocks s removed) as [[[? ?] ?] ?]. split; apply H.
Qed.

Definition sample_tx (k t : Z) : IndexedTransaction :=
  {| txid := [k]; tx_block_hash := None; tx_daa_score := None; tx_observed_at_ms := t; addresses := [];
     payload := []; tx_raw := Null |}.

Lemma store_refines_queues_witness :
  let s := (insert_transaction (new default_config) (sample_tx 97 5)).2 in
  store_ok s /\
  ((insert_transaction s (sample_tx 98 6)).1, abs (insert_transaction s (sample_tx 98 6)).2)
    = spec_insert_transaction 50000 (sample_tx 98 6) (abs s).
Proof.
  intros s.
  assert (Hs : store_ok s).
  { apply (store_refines_queues (new default_config) (new_ok default_config)); by_decide. }
  split; [exact Hs|]. apply (store_refines_queues s Hs); by_decide.
Defined.

End StoreProofs.
