(* ===== verification/IndexerEngine.v ===== *)
(** * The indexer engine

    [src/src/indexer/engine.rs] and the atomic operations of [facade.rs]. An
    operation on [&mut self] is a computation over the engine that may return
    an error text; what it changed before the error stays changed, unless the
    facade runs it on a copy. *)

From S2P Require Import Prelude Bytes Json Selection IndexerModel IndexerStore.

Record IndexerEngine := {
  e_config : IndexerConfig;
  store : MemoryStore;
  recent_txids : RecentKeys.RecentKeys;
  matchers : gmap Z Matcher;
  next_matcher_id : Z;
  running : bool;
  last_block_at_ms : option Z;
  metrics : IndexerMetrics;
  checkpoint : SyncCheckpoint;
  events : list IndexerEvent;
}.

(** ** Field updates *)

Definition set_store (s : MemoryStore) (e : IndexerEngine) : IndexerEngine :=
  let '(Build_IndexerEngine c _ r m n ru l me ch ev) := e in Build_IndexerEngine c s r m n ru l me ch ev.
Definition set_recent (r : RecentKeys.RecentKeys) (e : IndexerEngine) : IndexerEngine :=
  let '(Build_IndexerEngine c s _ m n ru l me ch ev) := e in Build_IndexerEngine c s r m n ru l me ch ev.
Definition set_matchers (m : gmap Z Matcher) (e : IndexerEngine) : IndexerEngine :=
  let '(Build_IndexerEngine c s r _ n ru l me ch ev) := e in Build_IndexerEngine c s r m n ru l me ch ev.
Definition set_next_id (n : Z) (e : IndexerEngine) : IndexerEngine :=
  let '(Build_IndexerEngine c s r m _ ru l me ch ev) := e in Build_IndexerEngine c s r m n ru l me ch ev.
Definition set_running (ru : bool) (e : IndexerEngine) : IndexerEngine :=
  let '(Build_IndexerEngine c s r m n _ l me ch ev) := e in Build_IndexerEngine c s r m n ru l me ch ev.
Definition set_last_block (l : option Z) (e : IndexerEngine) : IndexerEngine :=
  let '(Build_IndexerEngine c s r m n ru _ me ch ev) := e in Build_IndexerEngine c s r m n ru l me ch ev.
Definition set_metrics (me : IndexerMetrics) (e : IndexerEngine) : IndexerEngine :=
  let '(Build_IndexerEngine c s r m n ru l _ ch ev) := e in Build_IndexerEngine c s r m n ru l me ch ev.
Definition put_checkpoint (ch : SyncCheckpoint) (e : IndexerEngine) : IndexerEngine :=
  let '(Build_IndexerEngine c s r m n ru l me _ ev) := e in Build_IndexerEngine c s r m n ru l me ch ev.
Definition set_events (ev : list IndexerEvent) (e : IndexerEngine) : IndexerEngine :=
  let '(Build_IndexerEngine c s r m n ru l me ch _) := e in Build_IndexerEngine c s r m n ru l me ch ev.

Definition push_event (event : IndexerEvent) (e : IndexerEngine) : IndexerEngine :=
  set_events (events e ++ [event]) e.

(** One counter of the metrics changed with [saturating_add] or
    [saturating_sub]. *)
Inductive Counter :=
  | Transactions | Blocks | Matches | TransactionsObserved | BlocksObserved | MatchesObserved
  | DuplicateTransactions | CacheHits | CacheMisses | Evictions | TtlEvictions | SizeEvictions | RejectedRecords.

Definition update_counter (counter : Counter) (f : Z -> Z) (m : IndexerMetrics) : IndexerMetrics :=
  let '(Build_IndexerMetrics a b c d e g h i j k l n o) := m in
  match counter with
  | Transactions => Build_IndexerMetrics (f a) b c d e g h i j k l n o
  | Blocks => Build_IndexerMetrics a (f b) c d e g h i j k l n o
  | Matches => Build_IndexerMetrics a b (f c) d e g h i j k l n o
  | TransactionsObserved => Build_IndexerMetrics a b c (f d) e g h i j k l n o
  | BlocksObserved => Build_IndexerMetrics a b c d (f e) g h i j k l n o
  | MatchesObserved => Build_IndexerMetrics a b c d e (f g) h i j k l n o
  | DuplicateTransactions => Build_IndexerMetrics a b c d e g (f h) i j k l n o
  | CacheHits => Build_IndexerMetrics a b c d e g h (f i) j k l n o
  | CacheMisses => Build_IndexerMetrics a b c d e g h i (f j) k l n o
  | Evictions => Build_IndexerMetrics a b c d e g h i j (f k) l n o
  | TtlEvictions => Build_IndexerMetrics a b c d e g h i j k (f l) n o
  | SizeEvictions => Build_IndexerMetrics a b c d e g h i j k l (f n) o
  | RejectedRecords => Build_IndexerMetrics a b c d e g h i j k l n (f o)
  end.

Definition add_to (counter : Counter) (amount : Z) (e : IndexerEngine) : IndexerEngine :=
  set_metrics (update_counter counter (fun v => saturating_add v amount) (metrics e)) e.
Definition sub_from (counter : Counter) (amount : Z) (e : IndexerEngine) : IndexerEngine :=
  set_metrics (update_counter counter (fun v => saturating_sub v amount) (metrics e)) e.

(** ** Validation *)

Definition validate_transaction (config : IndexerConfig) (t : IndexedTransaction) : result unit Text :=
  if is_blank (txid t) then Err (str "transaction id cannot be empty")
  else if max_payload_bytes config <? blen (payload t)
  then Err (str "transaction payload exceeds configured bound")
  else if max_addresses_per_transaction config <? blen (addresses t)
  then Err (str "transaction address count exceeds configured bound")
  else if existsb (fun address => 256 <? blen address) (addresses t)
  then Err (str "indexed address exceeds 256 bytes")
  else Ok tt.

Definition validate_snapshot (config : IndexerConfig) (snapshot : IndexerSnapshot) : result unit Text :=
  let? _ := try_fold (fun _ t => validate_transaction config t) tt (snap_transactions snapshot) in
  if existsb (fun b => is_blank (hash b)) (snap_blocks snapshot)
  then Err (str "snapshot contains an empty block hash")
  else Ok tt.

(** [ids] is the hash set of the loop. *)
Definition validate_matchers (l : list Matcher) : result unit Text :=
  if 4096 <? blen l then Err (str "persisted matcher count exceeds 4096")
  else
    let? _ := try_fold (fun (ids : gset Z) m =>
      let? _ := validate_rule (rule m) in
      if (id m =? 0) || bool_decide (id m ∈ ids)
      then Err (str "persisted matcher ids must be non-zero and unique")
      else Ok ({[id m]} ∪ ids)) ∅ l in
    Ok tt.

Definition max_id (m : gmap Z Matcher) : Z := set_fold Z.max 0 (dom m).

Definition compute_next_matcher_id (m : gmap Z Matcher) : result Z Text :=
  ok_or (checked_add (max_id m) 1) (str "matcher id exhausted").

Definition scanner_is_healthy (running : bool) (last_block_at_ms : option Z) (now_ms stale_after_ms : Z) : bool :=
  if negb running then true
  else match last_block_at_ms with
       | Some last => saturating_sub now_ms last <=? stale_after_ms
       | None => false
       end.

(** ** The engine *)

Definition new (config : IndexerConfig) : result IndexerEngine Text :=
  let? _ := validate_config config in
  Ok {| e_config := config; store := Store.new config; recent_txids := RecentKeys.new (dedupe_window config);
        matchers := ∅; next_matcher_id := 1; running := false; last_block_at_ms := None;
        metrics := default_metrics; checkpoint := default_checkpoint; events := [] |}.

Definition start (now_ms : Z) (e : IndexerEngine) : IndexerEngine :=
  let e := set_running true e in
  match last_block_at_ms e with Some _ => e | None => set_last_block (Some now_ms) e end.

Definition stop (e : IndexerEngine) : IndexerEngine := set_running false e.

Definition add_matcher (r : MatchRule) : Comp IndexerEngine Text Z := fun e =>
  match validate_rule r with
  | Err error => (Err error, e)
  | Ok _ =>
      if 4096 <=? Z.of_nat (size (matchers e)) then (Err (str "matcher limit reached"), e)
      else
        let id := next_matcher_id e in
        match checked_add (next_matcher_id e) 1 with
        | None => (Err (str "matcher id exhausted"), e)
        | Some next =>
            (Ok id, set_matchers (<[id := {| IndexerModel.id := id; rule := r |}]> (matchers e)) (set_next_id next e))
        end
  end.

Definition remove_matcher (id : Z) (e : IndexerEngine) : bool * IndexerEngine :=
  (bool_decide (is_Some (matchers e !! id)), set_matchers (delete id (matchers e)) e).

Definition purge_expired (now_ms : Z) (e : IndexerEngine) : IndexerEngine :=
  let '(ids, s) := Store.purge_expired (store e) now_ms in
  fold_left (fun e id =>
    push_event (EvictedEvent (str "transaction_ttl") id) (add_to TtlEvictions 1 (add_to Evictions 1 e)))
    ids (set_store s e).

Definition record_size_evictions (e : IndexerEngine) : IndexerEngine :=
  let '(evicted, s) := Store.take_evictions (store e) in
  fold_left (fun e eviction =>
    push_event (EvictedEvent (kind eviction) (evicted_id eviction)) (add_to SizeEvictions 1 (add_to Evictions 1 e)))
    evicted (set_store s e).

Definition retain_transaction (t : IndexedTransaction) (is_match : bool) (e : IndexerEngine) : IndexerEngine :=
  if negb (IndexerModel.retains_transaction (mode (e_config e)) is_match) then e
  else
    let '(fresh, s) := Store.insert_transaction (store e) t in
    if fresh then push_event (TransactionEvent (txid t)) (add_to Transactions 1 (set_store s e))
    else add_to DuplicateTransactions 1 (set_store s e).

Definition publish_match (e : IndexerEngine) (m : IndexedMatch) : IndexerEngine :=
  let e :=
    if retains_matches (mode (e_config e))
    then add_to Matches 1 (set_store (Store.insert_match (store e) m) e) else e in
  push_event (MatchEvent (matcher_id m) (match_txid m)) e.
Definition publish_matches (l : list IndexedMatch) (e : IndexerEngine) : IndexerEngine := fold_left publish_match l e.

Section engine.
(** [HashMap::values()]: the values in the order of the hasher. *)
Variable matcher_values : gmap Z Matcher -> list Matcher.

Definition ingest_transaction (t : IndexedTransaction) : Comp IndexerEngine Text (list IndexedMatch) := fun e =>
  match validate_transaction (e_config e) t with
  | Err error => (Err error, add_to RejectedRecords 1 e)
  | Ok _ =>
      let e := add_to TransactionsObserved 1 e in
      let e := purge_expired (tx_observed_at_ms t) e in
      let '(fresh, recent) := RecentKeys.observe (recent_txids e) (txid t) in
      let e := set_recent recent e in
      if negb fresh then (Ok [], add_to CacheHits 1 (add_to DuplicateTransactions 1 e))
      else
        let e := add_to CacheMisses 1 e in
        let found := scan t (matcher_values (matchers e)) in
        let is_match := negb (bool_decide (found = [])) in
        let e := add_to MatchesObserved (blen found) e in
        let e := retain_transaction t is_match e in
        let e := publish_matches found e in
        (Ok found, record_size_evictions e)
  end.

Definition ingest_block (b : IndexedBlock) : Comp IndexerEngine Text unit := fun e =>
  if is_blank (hash b) then (Err (str "block hash cannot be empty"), add_to RejectedRecords 1 e)
  else
    let e := add_to BlocksObserved 1 e in
    let e := purge_expired (bk_observed_at_ms b) e in
    let e := set_last_block (Some (bk_observed_at_ms b)) e in
    let e :=
      if retains_blocks (mode (e_config e)) then
        let '(fresh, s) := Store.insert_block (store e) b in
        let e := set_store s e in
        if fresh then add_to Blocks 1 e else e
      else e in
    let e := push_event (BlockEvent (hash b)) e in
    (Ok tt, record_size_evictions e).

Definition set_checkpoint (c : SyncCheckpoint) : Comp IndexerEngine Text unit := fun e =>
  match validate_checkpoint c with
  | Err error => (Err error, e)
  | Ok _ => (Ok tt, push_event (CheckpointEvent (virtual_daa_score c) (checkpoint_hash c)) (put_checkpoint c e))
  end.

(** The transactions of a batch, with the number of their matches added to
    [count]. *)
Fixpoint ingest_transactions (l : list IndexedTransaction) (count : Z) : Comp IndexerEngine Text Z :=
  match l with
  | [] => ret count
  | t :: l' =>
      let* found := ingest_transaction t in
      ingest_transactions l' (saturating_add count (blen found))
  end.

Fixpoint ingest_batches (l : list BlockBatch) (count : Z) : Comp IndexerEngine Text Z :=
  match l with
  | [] => ret count
  | batch :: l' =>
      let* _ := ingest_block (block batch) in
      let* count := ingest_transactions (transactions batch) count in
      ingest_batches l' count
  end.

Definition get_counts : Comp IndexerEngine Text (Z * Z * Z) := fun e => (Ok (Store.counts (store e)), e).

Definition apply_sync_batches (batches : list BlockBatch) (c : SyncCheckpoint) : Comp IndexerEngine Text SyncReport :=
  let* _ := of_result (validate_checkpoint c) in
  let* _ := reject_if (100000 <? blen batches) (str "sync batch count exceeds hard safety bound") in
  let* (tx_before, bk_before, _) := get_counts in
  let* matches_added := ingest_batches batches 0 in
  let* (tx_after, bk_after, _) := get_counts in
  let* _ := set_checkpoint c in
  ret {| transactions_added := saturating_sub tx_after tx_before;
         blocks_added := saturating_sub bk_after bk_before;
         matches_added := matches_added;
         sync_checkpoint := c |}.

Definition rebuild_recent_txids (e : IndexerEngine) : IndexerEngine :=
  set_recent
    (fold_left (fun recent t => snd (RecentKeys.observe recent (txid t))) (Store.transactions (store e))
       (RecentKeys.clear (recent_txids e))) e.

(** The accepted blocks of a delta, with the running totals of blocks,
    transactions and matches added. *)
Fixpoint accept_batches (l : list BlockBatch) (added : Z * Z * Z) : Comp IndexerEngine Text (Z * Z * Z) :=
  match l with
  | [] => ret added
  | batch :: l' =>
      let '(added_blocks, added_transactions, added_matches) := added in
      let* (tx_before, bk_before, _) := get_counts in
      let* _ := ingest_block (block batch) in
      let* added_matches := ingest_transactions (transactions batch) added_matches in
      let* (tx_after, bk_after, _) := get_counts in
      accept_batches l'
        (saturating_add added_blocks (saturating_sub bk_after bk_before),
         saturating_add added_transactions (saturating_sub tx_after tx_before), added_matches)
  end.

Definition remove_blocks (hashes : list Text) : Comp IndexerEngine Text (Z * Z * Z) := fun e =>
  let '(nb, nt, nm, s) := Store.remove_chain_blocks (store e) (list_to_set hashes) in
  let e := set_store s e in
  let e := sub_from Matches nm (sub_from Transactions nt (sub_from Blocks nb e)) in
  (Ok (nb, nt, nm), rebuild_recent_txids e).

Definition push (event : IndexerEvent) : Comp IndexerEngine Text unit := fun e => (Ok tt, push_event event e).

Definition reconcile_virtual_chain (delta : VirtualChainDelta) : Comp IndexerEngine Text ReconciliationReport :=
  let* _ := of_result (validate_delta delta) in
  let* (nb, nt, nm) := remove_blocks (removed_block_hashes delta) in
  let* (ab, at_, am) := accept_batches (accepted delta) (0, 0, 0) in
  let* _ := set_checkpoint (delta_checkpoint delta) in
  let* _ := push (ReconciledEvent nb ab) in
  ret {| removed_blocks := nb; removed_transactions := nt; removed_matches := nm;
         added_blocks := ab; added_transactions := at_; added_matches := am;
         rec_checkpoint := delta_checkpoint delta |}.

(** ** Persistence *)

Definition INDEXER_STATE_SCHEMA : Z := 1.

Record PersistedIndexerState := {
  schema : Z;
  ps_snapshot : IndexerSnapshot;
  ps_checkpoint : SyncCheckpoint;
  ps_matchers : list Matcher;
}.

Definition validate_schema (state : PersistedIndexerState) : result unit Text :=
  if schema state =? INDEXER_STATE_SCHEMA then Ok tt
  else Err (str "storage error: unsupported indexer state schema " ++ Decimal.to_string (schema state)
            ++ str " (expected " ++ Decimal.to_string INDEXER_STATE_SCHEMA ++ str ")").

Definition persisted_state (e : IndexerEngine) : PersistedIndexerState :=
  {| schema := INDEXER_STATE_SCHEMA; ps_snapshot := Store.snapshot (store e); ps_checkpoint := checkpoint e;
     ps_matchers := sort_by (fun a b => id a ?= id b) (matcher_values (matchers e)) |}.

Definition rebuild_runtime_state (e : IndexerEngine) : IndexerEngine :=
  let e := rebuild_recent_txids e in
  let '(nt, nb, nm) := Store.counts (store e) in
  let e := set_metrics (Build_IndexerMetrics nt nb nm 0 0 0 0 0 0 0 0 0 0) e in
  set_last_block (bk_observed_at_ms <$> last (Store.all_blocks (store e))) e.

Definition restore_snapshot (snapshot : IndexerSnapshot) : Comp IndexerEngine Text unit := fun e =>
  match validate_snapshot (e_config e) snapshot with
  | Err error => (Err error, e)
  | Ok _ =>
      let e := set_store (Store.restore (e_config e) snapshot) e in
      (Ok tt, set_events [] (rebuild_runtime_state e))
  end.

Definition restore_state (state : PersistedIndexerState) : Comp IndexerEngine Text unit :=
  let* _ := of_result (validate_schema state) in
  let* _ := of_result (validate_checkpoint (ps_checkpoint state)) in
  let* _ := of_result (validate_matchers (ps_matchers state)) in
  fun e =>
    match validate_snapshot (e_config e) (ps_snapshot state) with
    | Err error => (Err error, e)
    | Ok _ =>
        let e := set_store (Store.restore (e_config e) (ps_snapshot state)) e in
        let e := set_matchers (list_to_map (map (fun m => (id m, m)) (reverse (ps_matchers state)))) e in
        match compute_next_matcher_id (matchers e) with
        | Err error => (Err error, e)
        | Ok next =>
            let e := set_next_id next e in
            let e := put_checkpoint (ps_checkpoint state) e in
            (Ok tt, set_events [] (rebuild_runtime_state e))
        end
    end.

Definition drain_events (e : IndexerEngine) : list IndexerEvent * IndexerEngine := (events e, set_events [] e).

Definition clear (e : IndexerEngine) : IndexerEngine :=
  let e := set_store (Store.clear (store e)) e in
  let e := set_recent (RecentKeys.clear (recent_txids e)) e in
  let e := set_events [] e in
  let e := set_metrics default_metrics e in
  let e := put_checkpoint default_checkpoint e in
  set_last_block None e.

Definition health (now_ms : Z) (e : IndexerEngine) : IndexerHealth :=
  let '(nt, nb, nm) := Store.counts (store e) in
  {| h_running := running e;
     scanner_healthy := scanner_is_healthy (running e) (last_block_at_ms e) now_ms
       (scanner_stale_after_ms (e_config e));
     h_last_block_at_ms := last_block_at_ms e;
     transaction_count := nt; block_count := nb; match_count := nm;
     matcher_count := Z.of_nat (size (matchers e)) |}.

(** ** [facade.rs] *)

(** Run on a copy; keep it only on success. *)
Definition with_atomic {A} (action : Comp IndexerEngine Text A) : Comp IndexerEngine Text A := fun e =>
  match action e with
  | (Ok a, staged) => (Ok a, staged)
  | (Err error, _) => (Err error, e)
  end.

(** Drop what has expired at the clock's time, then run. *)
Definition with_fresh {A} (now_ms : result Z Text) (action : Comp IndexerEngine Text A) : Comp IndexerEngine Text A :=
  fun e => match now_ms with
           | Err error => (Err error, e)
           | Ok now => action (purge_expired now e)
           end.

Fixpoint ingest_collect (l : list IndexedTransaction) (found : list IndexedMatch)
  : Comp IndexerEngine Text (list IndexedMatch) :=
  match l with
  | [] => ret found
  | t :: l' => let* more := ingest_transaction t in ingest_collect l' (found ++ more)
  end.

Definition ingest_block_batch (batch : BlockBatch) : Comp IndexerEngine Text BlockScanReport :=
  with_atomic (
    let* _ := ingest_block (block batch) in
    let* found := ingest_collect (transactions batch) [] in
    ret {| report_block_hash := hash (block batch);
           transactions_scanned := blen (transactions batch);
           report_matches := found |}).

Definition query_transactions (now_ms : result Z Text) (query : TransactionQuery)
  : Comp IndexerEngine Text (Page IndexedTransaction) :=
  with_fresh now_ms (fun e =>
    (page (filter_transactions (Store.transactions (store e)) query) (query_page query)
       (max_query_page (config (store e))), e)).

(** The other reads of the facade, each after expiry at the clock's time. *)
Definition read {A} (now_ms : result Z Text) (f : IndexerEngine -> A) : Comp IndexerEngine Text A :=
  with_fresh now_ms (fun e => (Ok (f e), e)).

Definition find_transaction (now_ms : result Z Text) (txid : Text) : Comp IndexerEngine Text (option IndexedTransaction) :=
  read now_ms (fun e => Store.transaction (store e) txid).

Definition query_blocks (now_ms : result Z Text) (request : PageRequest) : Comp IndexerEngine Text (Page IndexedBlock) :=
  with_fresh now_ms (fun e => (page (Store.all_blocks (store e)) request (max_query_page (config (store e))), e)).

Definition query_matches (now_ms : result Z Text) (request : PageRequest) : Comp IndexerEngine Text (Page IndexedMatch) :=
  with_fresh now_ms (fun e => (page (stored_matches (store e)) request (max_query_page (config (store e))), e)).

Definition read_metrics (now_ms : result Z Text) : Comp IndexerEngine Text IndexerMetrics := read now_ms metrics.
Definition read_snapshot (now_ms : result Z Text) : Comp IndexerEngine Text IndexerSnapshot :=
  read now_ms (fun e => Store.snapshot (store e)).
Definition read_checkpoint (now_ms : result Z Text) : Comp IndexerEngine Text SyncCheckpoint := read now_ms checkpoint.
Definition read_persisted (now_ms : result Z Text) : Comp IndexerEngine Text PersistedIndexerState :=
  read now_ms persisted_state.

Definition read_health (now_ms : result Z Text) : Comp IndexerEngine Text IndexerHealth := fun e =>
  match now_ms with
  | Err error => (Err error, e)
  | Ok now => let e := purge_expired now e in (Ok (health now e), e)
  end.

Definition facade_drain_events (now_ms : result Z Text) : Comp IndexerEngine Text (list IndexerEvent) :=
  with_fresh now_ms (fun e => let '(events, e) := drain_events e in (Ok events, e)).

End engine.
