(* ===== verification/IndexerProofs.v ===== *)
(** * The indexer engine keeps its promises

    Theorems about [IndexerEngine]: the invariant every operation keeps, what
    an ingested transaction does to the index, the atomic batches, chain
    reconciliation and the persistence round trip. *)

From S2P Require Import Prelude Bytes Json Selection IndexerModel IndexerStore IndexerEngine.
Import StoreProofs RecentKeysProofs.

(** ** What a stored index satisfies *)

(** The fields of a configuration are [usize] and [u64] values. *)
Record config_range (cfg : IndexerConfig) : Prop := {
  range_transactions : 0 <= max_transactions cfg;
  range_blocks : 0 <= max_blocks cfg;
  range_matches : 0 <= max_matches cfg;
  range_window : 0 <= dedupe_window cfg;
}.

Record index_fits (cfg : IndexerConfig) (x : Index) : Prop := {
  fits_transactions : blen (ix_transactions x) <= max_transactions cfg;
  fits_valid : Forall (fun t => validate_transaction cfg t = Ok tt) (ix_transactions x);
  fits_blocks : blen (ix_blocks x) <= max_blocks cfg;
  fits_hashes : Forall (fun b => is_blank (hash b) = false) (ix_blocks x);
  fits_matches : blen (ix_matches x) <= max_matches cfg;
}.

(** Every match points at a stored transaction. *)
Definition closed (x : Index) : Prop :=
  Forall (fun m => match_txid m ∈ map txid (ix_transactions x)) (ix_matches x).

Lemma validate_config_limits cfg :
  config_range cfg -> validate_config cfg = Ok tt ->
  1 <= max_transactions cfg /\ 1 <= max_blocks cfg /\ 1 <= max_matches cfg /\ 1 <= dedupe_window cfg.
Proof.
  intros [H1 H2 H3 H4] H. unfold validate_config in H. apply rbind_Ok_inv in H as ([] & Hl & H).
  unfold validate_limits in Hl.
  destruct (Z.eqb_spec (max_transactions cfg) 0); [done|].
  destruct (Z.eqb_spec (max_blocks cfg) 0); [done|].
  destruct (Z.eqb_spec (max_matches cfg) 0); [done|].
  destruct (Z.eqb_spec (dedupe_window cfg) 0); [done|]. lia.
Qed.

Lemma drop_oldest_bound {A} limit (l : list A) : 0 <= limit -> blen (drop (drop_oldest limit l) l) <= limit.
Proof. intros. unfold drop_oldest, blen. rewrite length_drop. lia. Qed.

Lemma drop_oldest_id {A} limit (l : list A) : blen l <= limit -> drop (drop_oldest limit l) l = l.
Proof. unfold drop_oldest, blen. intros. by rewrite (proj2 (Nat.sub_0_le _ _)) by lia. Qed.

Lemma map_txid_split n l k :
  k ∈ map txid l -> k ∉ map txid (take n l) -> k ∈ map txid (drop n l).
Proof. intros Hin Hout. rewrite <- (take_drop n l), map_app, elem_of_app in Hin. by destruct Hin. Qed.

(** Records dropped with their matches leave no dangling match. *)
Lemma filter_closed (l kept gone : list IndexedTransaction) (ms : list IndexedMatch) :
  (forall k, k ∈ map txid l -> k ∉ map txid gone -> k ∈ map txid kept) ->
  Forall (fun m => match_txid m ∈ map txid l) ms ->
  Forall (fun m => match_txid m ∈ map txid kept) (filter (fun m => match_txid m ∉ map txid gone) ms).
Proof.
  intros Hsplit Hms. apply Forall_forall. intros m Hm%list_elem_of_filter. destruct Hm as [Hg Hin].
  apply Hsplit; [|done]. by apply (proj1 (Forall_forall _ _) Hms m Hin).
Qed.

Lemma spec_insert_transaction_closed limit value x : closed x -> closed (spec_insert_transaction limit value x).2.
Proof.
  intros Hx. unfold spec_insert_transaction. case_bool_decide; [done|]. cbn. unfold closed; cbn.
  apply (filter_closed (ix_transactions x ++ [value])).
  - intros k. apply map_txid_split.
  - eapply Forall_impl; [exact Hx|]. intros m Hm. rewrite map_app. by apply elem_of_app; left.
Qed.

Lemma spec_insert_transaction_present limit value x :
  1 <= limit -> txid value ∈ map txid (ix_transactions (spec_insert_transaction limit value x).2).
Proof.
  intros Hl. unfold spec_insert_transaction. case_bool_decide as Hin; [done|]. cbn.
  rewrite drop_app_le by (unfold drop_oldest; rewrite length_app; cbn; lia).
  rewrite map_app. apply elem_of_app. right. cbn. left.
Qed.

Lemma spec_insert_match_closed limit value x :
  match_txid value ∈ map txid (ix_transactions x) -> closed x -> closed (spec_insert_match limit value x).
Proof.
  intros Hin Hx. unfold closed; cbn. apply Forall_drop, Forall_app. split; [done|]. by apply Forall_singleton.
Qed.

Lemma spec_purge_closed now ttl x : closed x -> closed (spec_purge now ttl x).2.
Proof.
  intros Hx. unfold spec_purge. destruct (ttl =? 0); [done|]. unfold closed; cbn.
  apply (filter_closed (ix_transactions x)); [|done]. intros k. apply map_txid_split.
Qed.

Lemma spec_remove_blocks_closed removed x : closed x -> closed (spec_remove_blocks removed x).
Proof.
  intros Hx. unfold closed; cbn. apply (filter_closed (ix_transactions x)); [|done].
  intros k. change (map txid) with (fmap (M := list) txid). rewrite !list_elem_of_fmap.
  intros (t & -> & Ht) Hnot. exists t. split; [done|]. apply list_elem_of_filter. split; [|done].
  intros Hr. apply Hnot. exists t. split; [done|]. by apply list_elem_of_filter.
Qed.

Lemma blen_filter {A} (P : A -> Prop) `{forall x, Decision (P x)} (l : list A) : blen (filter P l) <= blen l.
Proof. unfold blen. pose proof (length_filter P l). lia. Qed.
Lemma blen_drop {A} n (l : list A) : blen (drop n l) <= blen l.
Proof. unfold blen. rewrite length_drop. lia. Qed.

Lemma Forall_filter_sub {A} (P Q : A -> Prop) `{forall x, Decision (P x)} (l : list A) :
  Forall Q l -> Forall Q (filter P l).
Proof. rewrite !Forall_forall. intros HQ x [_ Hx]%list_elem_of_filter. by apply HQ. Qed.

Section fits.
Context (cfg : IndexerConfig) (Hcfg : config_range cfg).

Lemma spec_insert_transaction_fits value x :
  validate_transaction cfg value = Ok tt -> index_fits cfg x ->
  index_fits cfg (spec_insert_transaction (max_transactions cfg) value x).2.
Proof.
  intros Hv [H1 H2 H3 H4 H5]. unfold spec_insert_transaction. case_bool_decide; [done|]. split; cbn; try done.
  - apply drop_oldest_bound, Hcfg.
  - apply Forall_drop, Forall_app. split; [done | by apply Forall_singleton].
  - etransitivity; [apply blen_filter | done].
Qed.

Lemma spec_insert_block_fits value x :
  is_blank (hash value) = false -> index_fits cfg x ->
  index_fits cfg (spec_insert_block (max_blocks cfg) value x).2.
Proof.
  intros Hv [H1 H2 H3 H4 H5]. unfold spec_insert_block. case_bool_decide; [done|]. split; cbn; try done.
  - apply drop_oldest_bound, Hcfg.
  - apply Forall_drop, Forall_app. split; [done | by apply Forall_singleton].
Qed.

Lemma spec_insert_match_fits value x : index_fits cfg x -> index_fits cfg (spec_insert_match (max_matches cfg) value x).
Proof. intros [H1 H2 H3 H4 H5]. split; cbn; try done. apply drop_oldest_bound, Hcfg. Qed.

Lemma spec_purge_fits now ttl x : index_fits cfg x -> index_fits cfg (spec_purge now ttl x).2.
Proof.
  intros [H1 H2 H3 H4 H5]. unfold spec_purge. destruct (ttl =? 0); [done|]. split; cbn; try done.
  - etransitivity; [apply blen_drop | done].
  - by apply Forall_drop.
  - etransitivity; [apply blen_filter | done].
Qed.

Lemma spec_remove_blocks_fits removed x : index_fits cfg x -> index_fits cfg (spec_remove_blocks removed x).
Proof.
  intros [H1 H2 H3 H4 H5]. split; cbn; (etransitivity; [apply blen_filter | done]) || (apply Forall_filter_sub; done).
Qed.

(** ** The concrete store under the engine's configuration *)

Record good (s : MemoryStore) : Prop := {
  good_ok : store_ok s;
  good_config : config s = cfg;
  good_fits : index_fits cfg (abs s);
}.

Lemma new_good : good (Store.new cfg).
Proof.
  split; [apply new_ok | done |]. destruct Hcfg. split; cbn; try done; constructor.
Qed.

Lemma insert_transaction_good s value :
  validate_transaction cfg value = Ok tt -> good s ->
  good (Store.insert_transaction s value).2 /\
  ((Store.insert_transaction s value).1, abs (Store.insert_transaction s value).2)
    = spec_insert_transaction (max_transactions cfg) value (abs s).
Proof.
  intros Hv [Hok Hc Hf]. pose proof (insert_transaction_refines s value Hok) as H. rewrite Hc in H.
  specialize (H (range_transactions _ Hcfg)). destruct (Store.insert_transaction s value) as [fresh s']. cbn.
  destruct H as (H1 & H2 & H3). split; [|done]. split; [done | congruence |].
  pose proof (spec_insert_transaction_fits value (abs s) Hv Hf) as Hfit. by rewrite <- H3 in Hfit.
Qed.

Lemma insert_block_good s value :
  is_blank (hash value) = false -> good s ->
  good (Store.insert_block s value).2 /\
  ((Store.insert_block s value).1, abs (Store.insert_block s value).2)
    = spec_insert_block (max_blocks cfg) value (abs s).
Proof.
  intros Hv [Hok Hc Hf]. pose proof (insert_block_refines s value Hok) as H. rewrite Hc in H.
  specialize (H (range_blocks _ Hcfg)). destruct (Store.insert_block s value) as [fresh s']. cbn.
  destruct H as (H1 & H2 & H3). split; [|done]. split; [done | congruence |].
  pose proof (spec_insert_block_fits value (abs s) Hv Hf) as Hfit. by rewrite <- H3 in Hfit.
Qed.

Lemma insert_match_good s value :
  good s -> good (Store.insert_match s value) /\
  abs (Store.insert_match s value) = spec_insert_match (max_matches cfg) value (abs s).
Proof.
  intros [Hok Hc Hf]. pose proof (insert_match_refines s value Hok) as H. rewrite Hc in H.
  destruct (H (range_matches _ Hcfg)) as (H1 & H2 & H3). split; [|done]. split; [done | congruence |].
  rewrite H3. by apply spec_insert_match_fits.
Qed.

Lemma purge_expired_good s now :
  good s -> good (Store.purge_expired s now).2 /\
  ((Store.purge_expired s now).1, abs (Store.purge_expired s now).2)
    = spec_purge now (transaction_ttl_ms cfg) (abs s).
Proof.
  intros [Hok Hc Hf]. pose proof (purge_expired_refines s now Hok) as H. rewrite Hc in H.
  destruct (Store.purge_expired s now) as [ids s']. cbn. destruct H as (H1 & H2 & H3).
  split; [|done]. split; [done | congruence |].
  pose proof (spec_purge_fits now (transaction_ttl_ms cfg) (abs s) Hf) as Hfit. by rewrite <- H3 in Hfit.
Qed.

Lemma remove_chain_blocks_good s removed :
  good s -> good (Store.remove_chain_blocks s removed).2 /\
  abs (Store.remove_chain_blocks s removed).2 = spec_remove_blocks removed (abs s).
Proof.
  intros [Hok Hc Hf]. pose proof (remove_chain_blocks_refines s removed Hok) as H.
  destruct (Store.remove_chain_blocks s removed) as [[[nb nt] nm] s']. cbn. destruct H as (H1 & H2 & H3 & _).
  split; [|done]. split; [done | congruence |]. rewrite H3. by apply spec_remove_blocks_fits.
Qed.

End fits.

(** ** The counters *)

(** The eviction counter is the sum of its two causes, and every accepted
    observation, but for the [open] ones still being worked on, is a hit or a
    miss; both up to saturation. *)
Record metrics_ok (open : Z) (m : IndexerMetrics) : Prop := {
  metrics_nonneg : 0 <= cache_hits m /\ 0 <= cache_misses m /\ 0 <= ttl_evictions m /\ 0 <= size_evictions m;
  metrics_evictions : evictions m = Z.min u64_max (ttl_evictions m + size_evictions m);
  metrics_cache : transactions_observed m = Z.min u64_max (cache_hits m + cache_misses m + open);
}.

Lemma default_metrics_ok : metrics_ok 0 default_metrics.
Proof. split; [cbn; lia | reflexivity..]. Qed.

Ltac metrics_step :=
  match goal with |- metrics_ok _ ?m -> _ => destruct m end;
  intros [Hn He Hc]; cbn in Hn, He, Hc; split; cbn; unfold saturating_add, u64_max in *; lia.

(** A counter outside the two sums. *)
Definition plain_counter (c : Counter) : bool :=
  match c with
  | Transactions | Blocks | Matches | BlocksObserved | MatchesObserved | DuplicateTransactions | RejectedRecords => true
  | _ => false
  end.

Lemma plain_metrics_ok c f d m : plain_counter c = true -> metrics_ok d m -> metrics_ok d (update_counter c f m).
Proof. destruct c, m; try done; intros _ [Hn He Hc]; split; done. Qed.

Lemma evict_metrics_ok c d m :
  c = TtlEvictions \/ c = SizeEvictions -> metrics_ok d m ->
  metrics_ok d (update_counter c (fun v => saturating_add v 1) (update_counter Evictions (fun v => saturating_add v 1) m)).
Proof. intros [-> | ->]; metrics_step. Qed.

Lemma observed_metrics_ok d m :
  0 <= d -> metrics_ok d m -> metrics_ok (d + 1) (update_counter TransactionsObserved (fun v => saturating_add v 1) m).
Proof. intros Hd. metrics_step. Qed.

Lemma cached_metrics_ok c d m :
  c = CacheHits \/ c = CacheMisses -> 0 <= d -> metrics_ok (d + 1) m ->
  metrics_ok d (update_counter c (fun v => saturating_add v 1) m).
Proof. intros [-> | ->] Hd; metrics_step. Qed.

(** ** Parts of an operation that touch only the store, the log and counters *)

Record moves (d d' : Z) (s : MemoryStore) (e e' : IndexerEngine) : Prop := {
  moves_store : store e' = s;
  moves_config : e_config e' = e_config e;
  moves_recent : recent_txids e' = recent_txids e;
  moves_matchers : matchers e' = matchers e;
  moves_next : next_matcher_id e' = next_matcher_id e;
  moves_checkpoint : checkpoint e' = checkpoint e;
  moves_metrics : metrics_ok d (metrics e) -> metrics_ok d' (metrics e');
}.
Notation quiet d e e' := (moves d d (store e) e e').

Lemma moves_trans d1 d2 d3 s1 s2 e1 e2 e3 : moves d1 d2 s1 e1 e2 -> moves d2 d3 s2 e2 e3 -> moves d1 d3 s2 e1 e3.
Proof. intros [] []. split; try congruence. auto. Qed.

Lemma set_store_moves d s e : moves d d s e (set_store s e).
Proof. by destruct e. Qed.

Lemma add_to_quiet c n d e : plain_counter c = true -> quiet d e (add_to c n e).
Proof. intros Hc. destruct e. split; try done. by apply plain_metrics_ok. Qed.

Lemma sub_from_quiet c n d e : plain_counter c = true -> quiet d e (sub_from c n e).
Proof. intros Hc. destruct e. split; try done. by apply plain_metrics_ok. Qed.

Lemma push_event_quiet d ev e : quiet d e (push_event ev e).
Proof. by destruct e. Qed.

Lemma set_last_block_quiet d l e : quiet d e (set_last_block l e).
Proof. by destruct e. Qed.

Lemma note_quiet {A} (ev : A -> IndexerEvent) c d l e :
  c = TtlEvictions \/ c = SizeEvictions ->
  quiet d e (fold_left (fun e x => push_event (ev x) (add_to c 1 (add_to Evictions 1 e))) l e).
Proof.
  intros Hc. revert e. induction l as [|x l IH]; intros e; [done|]. cbn [fold_left].
  assert (H1 : quiet d e (push_event (ev x) (add_to c 1 (add_to Evictions 1 e)))).
  { destruct e. split; try done. by apply evict_metrics_ok. }
  pose proof (IH (push_event (ev x) (add_to c 1 (add_to Evictions 1 e)))) as H2.
  rewrite (moves_store _ _ _ _ _ H1) in H2. by apply (moves_trans _ _ _ _ _ _ _ _ H1 H2).
Qed.

Lemma purge_moves now d e : moves d d (Store.purge_expired (store e) now).2 e (IndexerEngine.purge_expired now e).
Proof.
  unfold IndexerEngine.purge_expired. destruct (Store.purge_expired (store e) now) as [ids s]. cbn.
  pose proof (note_quiet (fun id => EvictedEvent (str "transaction_ttl") id) TtlEvictions d ids (set_store s e)
    (or_introl eq_refl)) as H.
  rewrite (moves_store _ _ _ _ _ (set_store_moves d s e)) in H. eapply moves_trans; [apply set_store_moves | exact H].
Qed.

Lemma record_moves d e : moves d d (Store.clear_evictions (store e)) e (record_size_evictions e).
Proof.
  unfold record_size_evictions. cbn [Store.take_evictions].
  pose proof (note_quiet (fun x => EvictedEvent (kind x) (evicted_id x)) SizeEvictions d (pending_evictions (store e))
    (set_store (Store.clear_evictions (store e)) e) (or_intror eq_refl)) as H.
  rewrite (moves_store _ _ _ _ _ (set_store_moves d _ e)) in H. eapply moves_trans; [apply set_store_moves | exact H].
Qed.

Lemma retain_moves t is_match d e :
  moves d d (if IndexerModel.retains_transaction (mode (e_config e)) is_match
             then (Store.insert_transaction (store e) t).2 else store e) e (retain_transaction t is_match e).
Proof.
  unfold retain_transaction. destruct (IndexerModel.retains_transaction _ _); [|by destruct e].
  cbn [negb]. destruct (Store.insert_transaction (store e) t) as [[] s]; cbn [snd].
  all: destruct e; split; try done; by apply plain_metrics_ok.
Qed.

Lemma publish_moves l d e :
  moves d d (if retains_matches (mode (e_config e)) then fold_left Store.insert_match l (store e) else store e)
    e (publish_matches l e).
Proof.
  unfold publish_matches. revert e. induction l as [|m l IH]; intros e; cbn [fold_left].
  { by destruct (retains_matches _), e. }
  assert (H1 : moves d d (if retains_matches (mode (e_config e)) then Store.insert_match (store e) m else store e)
    e (publish_match e m)).
  { unfold publish_match. destruct (retains_matches _).
    - destruct e. split; try done. by apply plain_metrics_ok.
    - apply push_event_quiet. }
  pose proof (IH (publish_match e m)) as H2. rewrite (moves_store _ _ _ _ _ H1), (moves_config _ _ _ _ _ H1) in H2.
  pose proof (moves_trans _ _ _ _ _ _ _ _ H1 H2) as H. by destruct (retains_matches _).
Qed.

(** ** The engine's invariant *)

Record engine_inv (open : Z) (e : IndexerEngine) : Prop := {
  inv_range : config_range (e_config e);
  inv_config : validate_config (e_config e) = Ok tt;
  inv_store : good (e_config e) (store e);
  inv_window : window_ok (recent_txids e);
  inv_capacity : RecentKeys.capacity (recent_txids e) = dedupe_window (e_config e);
  inv_matchers : map_Forall (fun i m => id m = i /\ 1 <= i <= u64_max /\ validate_rule (rule m) = Ok tt) (matchers e);
  inv_count : Z.of_nat (size (matchers e)) <= 4096;
  inv_next : 1 <= next_matcher_id e <= u64_max;
  inv_checkpoint : validate_checkpoint (checkpoint e) = Ok tt;
  inv_metrics : metrics_ok open (metrics e);
}.
Abbreviation engine_ok := (engine_inv 0).

Definition index (e : IndexerEngine) : Index := abs (store e).
(** Every eviction has been reported. *)
Definition settled (e : IndexerEngine) : Prop := pending_evictions (store e) = [].

Lemma inv_moves d d' s e e' : engine_inv d e -> moves d d' s e e' -> good (e_config e) s -> engine_inv d' e'.
Proof.
  intros [] [E1 E2 E3 E4 E5 E6 E7] Hs. split; rewrite ?E1, ?E2, ?E3, ?E4, ?E5, ?E6; auto.
Qed.

Lemma inv_recent d e r :
  engine_inv d e -> window_ok r -> RecentKeys.capacity r = RecentKeys.capacity (recent_txids e) ->
  engine_inv d (set_recent r e).
Proof. intros [] Hr Hc. destruct e. split; try done. by cbn in *; rewrite Hc. Qed.

Lemma inv_limits d e : engine_inv d e ->
  1 <= max_transactions (e_config e) /\ 1 <= max_blocks (e_config e) /\ 1 <= max_matches (e_config e) /\
  1 <= dedupe_window (e_config e).
Proof. intros [Hr Hv]. by apply validate_config_limits. Qed.

(** ** What one transaction does to the index *)

Definition spec_ingest (cfg : IndexerConfig) (seen : bool) (found : list IndexedMatch) (t : IndexedTransaction)
    (x : Index) : Index :=
  let x := (spec_purge (tx_observed_at_ms t) (transaction_ttl_ms cfg) x).2 in
  if seen then x
  else
    let x := if IndexerModel.retains_transaction (mode cfg) (negb (bool_decide (found = [])))
             then (spec_insert_transaction (max_transactions cfg) t x).2 else x in
    if retains_matches (mode cfg) then fold_left (fun x m => spec_insert_match (max_matches cfg) m x) found x else x.

Lemma insert_matches_good cfg (Hcfg : config_range cfg) l s :
  good cfg s -> good cfg (fold_left Store.insert_match l s) /\
  abs (fold_left Store.insert_match l s) = fold_left (fun x m => spec_insert_match (max_matches cfg) m x) l (abs s).
Proof.
  revert s. induction l as [|m l IH]; intros s Hs; [done|]. cbn [fold_left].
  destruct (insert_match_good cfg Hcfg s m Hs) as [H1 H2]. rewrite <- H2. by apply IH.
Qed.

Lemma insert_matches_closed limit l x :
  (forall m, m ∈ l -> match_txid m ∈ map txid (ix_transactions x)) -> closed x ->
  closed (fold_left (fun x m => spec_insert_match limit m x) l x).
Proof.
  revert x. induction l as [|m l IH]; intros x Hl Hx; [done|]. cbn [fold_left]. apply IH.
  - intros m' Hm'. cbn. apply Hl. by right.
  - apply spec_insert_match_closed; [|done]. apply Hl. left.
Qed.

Lemma spec_ingest_closed cfg seen found t x :
  1 <= max_transactions cfg -> (forall m, m ∈ found -> match_txid m = txid t) -> closed x ->
  closed (spec_ingest cfg seen found t x).
Proof.
  intros Hl Hf Hx. unfold spec_ingest. pose proof (spec_purge_closed (tx_observed_at_ms t) (transaction_ttl_ms cfg) x Hx) as Hp.
  set (x1 := (spec_purge _ _ x).2) in *. clearbody x1. destruct seen; [done|].
  unfold IndexerModel.retains_transaction. set (ins := (spec_insert_transaction (max_transactions cfg) t x1).2).
  assert (Hins : closed ins) by (by apply spec_insert_transaction_closed).
  destruct (retains_matches (mode cfg)) eqn:Hm.
  - case_bool_decide as Hnil; [subst found; cbn; by destruct (_ || _)|].
    rewrite andb_true_r, orb_true_r. apply insert_matches_closed; [|done].
    intros m Hin. rewrite (Hf m Hin). by apply spec_insert_transaction_present.
  - by destruct (_ || _).
Qed.

Lemma scan_txid t ms m : m ∈ scan t ms -> match_txid m = txid t.
Proof.
  unfold scan. change (map ?f) with (fmap (M := list) f). by intros (y & -> & _)%list_elem_of_fmap.
Qed.

Lemma engine_observe d e key :
  engine_inv d e ->
  let seen := bool_decide (key ∈ RecentKeys.order (recent_txids e)) in
  let r := (RecentKeys.observe (recent_txids e) key).2 in
  (RecentKeys.observe (recent_txids e) key).1 = negb seen /\ engine_inv d (set_recent r e) /\
  RecentKeys.order r = (if seen then RecentKeys.order (recent_txids e)
                        else keep_last (Z.to_nat (dedupe_window (e_config e))) (RecentKeys.order (recent_txids e) ++ [key])).
Proof.
  intros He. pose proof (inv_window _ _ He) as Hw. pose proof (inv_capacity _ _ He) as Hc.
  pose proof (inv_limits _ _ He) as (_ & _ & _ & Hl).
  destruct (observe_ok _ key Hw ltac:(lia)) as [Hw' Hc']. split_and!.
  - rewrite observe_spec by (done || lia). by case_bool_decide.
  - by apply inv_recent.
  - rewrite observe_spec by (done || lia). case_bool_decide; [done|]. cbn. by rewrite Hc.
Qed.

(** What is left of the engine outside its index, its window and its log. *)
Record same_setup (e e' : IndexerEngine) : Prop := {
  same_config : e_config e' = e_config e;
  same_matchers : matchers e' = matchers e;
  same_next : next_matcher_id e' = next_matcher_id e;
  same_checkpoint : checkpoint e' = checkpoint e;
}.

#[export] Instance same_setup_preorder : PreOrder same_setup.
Proof. split; [by intros e | by intros e1 e2 e3 [] []; split; congruence]. Qed.

Lemma moves_setup d d' s e e' : moves d d' s e e' -> same_setup e e'.
Proof. by intros []. Qed.

Lemma set_recent_setup r e : same_setup e (set_recent r e).
Proof. by destruct e. Qed.

Lemma set_recent_store r e : store (set_recent r e) = store e.
Proof. by destruct e. Qed.
Lemma set_recent_recent r e : recent_txids (set_recent r e) = r.
Proof. by destruct e. Qed.
Lemma set_recent_events r e : e_config (set_recent r e) = e_config e.
Proof. by destruct e. Qed.

(** Retaining, publishing and reporting a scanned transaction. *)
Lemma retain_publish_spec t found d e :
  validate_transaction (e_config e) t = Ok tt -> engine_inv d e ->
  let e' := record_size_evictions (publish_matches found (retain_transaction t (negb (bool_decide (found = []))) e)) in
  engine_inv d e' /\ same_setup e e' /\ recent_txids e' = recent_txids e /\ settled e' /\
  index e' =
    (let x := if IndexerModel.retains_transaction (mode (e_config e)) (negb (bool_decide (found = [])))
              then (spec_insert_transaction (max_transactions (e_config e)) t (index e)).2 else index e in
     if retains_matches (mode (e_config e))
     then fold_left (fun x m => spec_insert_match (max_matches (e_config e)) m x) found x else x).
Proof.
  intros Hv He e'. pose proof (inv_range _ _ He) as Hr. set (b := negb (bool_decide (found = []))) in *.
  pose proof (retain_moves t b d e) as M1.
  pose proof (insert_transaction_good _ Hr (store e) t Hv (inv_store _ _ He)) as [G1 A1].
  set (s1 := if IndexerModel.retains_transaction _ b then _ else store e) in M1.
  assert (Hs1 : good (e_config e) s1 /\ abs s1 = if IndexerModel.retains_transaction (mode (e_config e)) b
      then (spec_insert_transaction (max_transactions (e_config e)) t (index e)).2 else index e).
  { subst s1. destruct (IndexerModel.retains_transaction _ _); [|split; [apply He | done]].
    split; [done | exact (f_equal snd A1)]. }
  clearbody s1. destruct Hs1 as [Hs1 As1].
  pose proof (publish_moves found d (retain_transaction t b e)) as M2.
  rewrite (moves_store _ _ _ _ _ M1), (moves_config _ _ _ _ _ M1) in M2.
  destruct (insert_matches_good _ Hr found s1 Hs1) as [G2 A2].
  set (s2 := if retains_matches _ then _ else s1) in M2.
  assert (Hs2 : good (e_config e) s2 /\ abs s2 = if retains_matches (mode (e_config e))
      then fold_left (fun x m => spec_insert_match (max_matches (e_config e)) m x) found (abs s1) else abs s1).
  { subst s2. by destruct (retains_matches _). }
  clearbody s2. destruct Hs2 as [Hs2 As2].
  pose proof (moves_trans _ _ _ _ _ _ _ _ M1 M2) as M.
  pose proof (record_moves d (publish_matches found (retain_transaction t b e))) as M3.
  rewrite (moves_store _ _ _ _ _ M2) in M3. pose proof (moves_trans _ _ _ _ _ _ _ _ M M3) as M4. fold e' in M4.
  split_and!.
  - apply (inv_moves _ _ _ _ _ He M4). destruct Hs2 as [[] ? ?]. by split.
  - apply (moves_setup _ _ _ _ _ M4).
  - apply (moves_recent _ _ _ _ _ M4).
  - unfold settled. by rewrite (moves_store _ _ _ _ _ M4).
  - unfold index at 1. rewrite (moves_store _ _ _ _ _ M4). change (abs (Store.clear_evictions s2)) with (abs s2).
    rewrite As2, As1. done.
Qed.

Lemma purge_inv now d e :
  engine_inv d e ->
  let e' := IndexerEngine.purge_expired now e in
  engine_inv d e' /\ same_setup e e' /\ recent_txids e' = recent_txids e /\ (settled e -> settled e') /\
  index e' = (spec_purge now (transaction_ttl_ms (e_config e)) (index e)).2.
Proof.
  intros He e'. pose proof (purge_moves now d e) as M. fold e' in M.
  destruct (purge_expired_good (e_config e) (store e) now (inv_store _ _ He)) as [G A].
  split_and!.
  - by apply (inv_moves _ _ _ _ _ He M).
  - apply (moves_setup _ _ _ _ _ M).
  - apply (moves_recent _ _ _ _ _ M).
  - unfold settled. rewrite (moves_store _ _ _ _ _ M). unfold Store.purge_expired. destruct (_ =? 0); [done|].
    by destruct (Store.purge_loop _ _ _ _ _) as [[? ?] ?].
  - unfold index at 1. rewrite (moves_store _ _ _ _ _ M). exact (f_equal snd A).
Qed.

Lemma observed_inv d e : 0 <= d -> engine_inv d e -> engine_inv (d + 1) (add_to TransactionsObserved 1 e).
Proof. intros Hd []. destruct e. split; try done. by apply observed_metrics_ok. Qed.

Lemma cached_inv c d e :
  c = CacheHits \/ c = CacheMisses -> 0 <= d -> engine_inv (d + 1) e -> engine_inv d (add_to c 1 e).
Proof. intros Hc Hd []. destruct e. split; try done. by apply cached_metrics_ok. Qed.

Lemma counted_inv c n d e : plain_counter c = true -> engine_inv d e -> engine_inv d (add_to c n e).
Proof. intros Hc He. apply (inv_moves d d _ _ _ He (add_to_quiet c n d e Hc)). apply He. Qed.

Lemma add_to_setup c n e : same_setup e (add_to c n e).
Proof. by destruct e. Qed.
Lemma add_to_store c n e : store (add_to c n e) = store e.
Proof. by destruct e. Qed.
Lemma add_to_recent c n e : recent_txids (add_to c n e) = recent_txids e.
Proof. by destruct e. Qed.
Lemma add_to_index c n e : index (add_to c n e) = index e.
Proof. by destruct e. Qed.

Section with_values.
Context (matcher_values : gmap Z Matcher -> list Matcher).
Abbreviation ingest_transaction := (IndexerEngine.ingest_transaction matcher_values).

(** Whether the window still remembers the transaction. *)
Definition seen (e : IndexerEngine) (t : IndexedTransaction) : bool :=
  bool_decide (txid t ∈ RecentKeys.order (recent_txids e)).

Lemma ingest_transaction_spec e t :
  engine_ok e ->
  match validate_transaction (e_config e) t with
  | Err error => ingest_transaction t e = (Err error, add_to RejectedRecords 1 e)
  | Ok _ =>
      let found := if seen e t then [] else scan t (matcher_values (matchers e)) in
      exists e', ingest_transaction t e = (Ok found, e') /\ engine_ok e' /\ same_setup e e' /\
        (settled e -> settled e') /\
        index e' = spec_ingest (e_config e) (seen e t) found t (index e) /\
        RecentKeys.order (recent_txids e') =
          (if seen e t then RecentKeys.order (recent_txids e)
           else keep_last (Z.to_nat (dedupe_window (e_config e))) (RecentKeys.order (recent_txids e) ++ [txid t]))
  end.
Proof.
  intros He. unfold IndexerEngine.ingest_transaction.
  destruct (validate_transaction (e_config e) t) as [[]|] eqn:Hv; [|done]. cbn zeta.
  pose proof (observed_inv 0 e ltac:(done) He) as H0. set (e0 := add_to TransactionsObserved 1 e) in *.
  destruct (purge_inv (tx_observed_at_ms t) (0 + 1) e0 H0) as (H1 & S1 & R1 & P1 & I1).
  set (e1 := IndexerEngine.purge_expired (tx_observed_at_ms t) e0) in *. clearbody e1.
  destruct (engine_observe (0 + 1) e1 (txid t) H1) as (Hfresh & H2 & Ho).
  pose proof (set_recent_setup (RecentKeys.observe (recent_txids e1) (txid t)).2 e1) as S2.
  destruct (RecentKeys.observe (recent_txids e1) (txid t)) as [fresh r] eqn:Eobs. cbn [fst snd] in *.
  assert (E0 : same_setup e e0) by (subst e0; by destruct e).
  assert (Er : recent_txids e1 = recent_txids e) by (rewrite R1; subst e0; by destruct e).
  assert (S12 : same_setup e (set_recent r e1)) by (etransitivity; [exact E0|]; by etransitivity).
  assert (Ec : e_config e1 = e_config e) by (etransitivity; [apply S1 | apply E0]).
  assert (Ix : index e1 = (spec_purge (tx_observed_at_ms t) (transaction_ttl_ms (e_config e)) (index e)).2)
    by (rewrite I1; subst e0; by destruct e).
  assert (Hset : settled e -> settled (set_recent r e1)).
  { intros Hs. unfold settled. rewrite set_recent_store. apply P1. subst e0. by destruct e. }
  rewrite Er, Ec in Ho. rewrite Er in Hfresh. fold (seen e t) in Ho, Hfresh. subst fresh. rewrite negb_involutive.
  unfold spec_ingest. destruct (seen e t).
  - eexists. split; [reflexivity|]. split_and!.
    + apply cached_inv; [by left|done|]. by apply counted_inv.
    + etransitivity; [exact S12|]. etransitivity; apply add_to_setup.
    + intros Hs. unfold settled. rewrite !add_to_store. by apply Hset.
    + rewrite !add_to_index, <- Ix. unfold index. by rewrite set_recent_store.
    + by rewrite !add_to_recent, set_recent_recent.
  - assert (H3 : engine_ok (add_to CacheMisses 1 (set_recent r e1))) by (apply cached_inv; [by right | done | done]).
    set (e3 := add_to CacheMisses 1 (set_recent r e1)) in *.
    assert (S3 : same_setup e e3) by (etransitivity; [exact S12 | apply add_to_setup]).
    rewrite (same_matchers _ _ S3). set (found := scan t (matcher_values (matchers e))).
    set (e4 := add_to MatchesObserved (blen found) e3).
    assert (H4 : engine_ok e4) by (by apply counted_inv).
    assert (S4 : same_setup e e4) by (etransitivity; [exact S3 | apply add_to_setup]).
    destruct (retain_publish_spec t found 0 e4) as (H5 & S5 & R5 & P5 & I5);
      [by rewrite (same_config _ _ S4) | done |]. rewrite (same_config _ _ S4) in I5.
    assert (I4 : index e4 = (spec_purge (tx_observed_at_ms t) (transaction_ttl_ms (e_config e)) (index e)).2).
    { rewrite <- Ix. subst e4 e3. rewrite !add_to_index. unfold index. by rewrite set_recent_store. }
    eexists. split; [reflexivity|]. split_and!; [done | by etransitivity | done | | ].
    + rewrite I5, I4. done.
    + rewrite R5. subst e4 e3. by rewrite !add_to_recent, set_recent_recent.
Qed.

End with_values.

(** ** The other operations *)

(** What every state that was restored is known to satisfy: its matcher
    identifiers leave room for a next one, and its snapshot has no match
    without its transaction. *)
Record Trust := { fresh_ids : bool; linked : bool }.
Definition trusted : Trust := {| fresh_ids := true; linked := true |}.

(** The installed identifiers have all been given out. *)
Definition ids_below_next (e : IndexerEngine) : Prop := map_Forall (fun i _ => i < next_matcher_id e) (matchers e).

(** Between operations: the invariant, no unreported eviction and, unless a
    state that breaks this was restored, matchers with identifiers below the
    next one and no match without its transaction. *)
Record sound (c : Trust) (e : IndexerEngine) : Prop := {
  sound_ok : engine_ok e;
  sound_settled : settled e;
  sound_fresh : fresh_ids c = true -> ids_below_next e;
  sound_closed : linked c = true -> closed (index e);
}.

Lemma setup_fresh e e' : same_setup e e' -> ids_below_next e -> ids_below_next e'.
Proof. unfold ids_below_next. intros [_ -> -> _]. done. Qed.

Definition preserves {A} (P : IndexerEngine -> Prop) (m : Comp IndexerEngine Text A) : Prop :=
  forall e, P e -> P (m e).2.

Lemma preserves_ret {A} P (a : A) : preserves P (ret a).
Proof. by intros e. Qed.
Lemma preserves_of_result {A} P (r : result A Text) : preserves P (of_result r).
Proof. by intros e. Qed.
Lemma preserves_reject P b (error : Text) : preserves P (reject_if b error).
Proof. by intros e; destruct b. Qed.
Lemma preserves_bind {A B} P (m : Comp IndexerEngine Text A) (k : A -> Comp IndexerEngine Text B) :
  preserves P m -> (forall a, preserves P (k a)) -> preserves P (bind m k).
Proof.
  intros Hm Hk e He. unfold bind. specialize (Hm e He). destruct (m e) as [[a|error] e']; [by apply Hk | done].
Qed.
Lemma preserves_atomic {A} P (m : Comp IndexerEngine Text A) : preserves P m -> preserves P (with_atomic m).
Proof. intros Hm e He. unfold with_atomic. specialize (Hm e He). by destruct (m e) as [[a|error] e']. Qed.

Lemma sound_quiet c e e' : quiet 0 e e' -> sound c e -> sound c e'.
Proof.
  intros M [H1 H2 H4 H3]. split.
  - apply (inv_moves _ _ _ _ _ H1 M), H1.
  - unfold settled. by rewrite (moves_store _ _ _ _ _ M).
  - intros Hx. apply (setup_fresh e); [apply (moves_setup _ _ _ _ _ M) | auto].
  - unfold index. by rewrite (moves_store _ _ _ _ _ M).
Qed.

Lemma set_checkpoint_sound c ch : preserves (sound c) (set_checkpoint ch).
Proof.
  intros e [[] Hs Hf Hc]. unfold set_checkpoint. destruct (validate_checkpoint ch) as [[]|] eqn:E; [|by split].
  destruct e. by split.
Qed.

Lemma purge_sound c now e : sound c e -> sound c (IndexerEngine.purge_expired now e).
Proof.
  intros [He Hs Hf Hc]. destruct (purge_inv now 0 e He) as (H1 & S1 & _ & P1 & I1). split; [done | auto | |].
  { intros Hx. apply (setup_fresh e); auto. }
  intros Hx. rewrite I1. apply spec_purge_closed; auto.
Qed.

Lemma add_matcher_sound c r : preserves (sound c) (add_matcher r).
Proof.
  intros e He. unfold add_matcher. destruct (validate_rule r) as [[]|] eqn:Hr; [|done].
  destruct (Z.leb_spec 4096 (Z.of_nat (size (matchers e)))) as [|Hlt]; [done|].
  destruct (checked_add (next_matcher_id e) 1) as [next|] eqn:Hn; [|done].
  checked_inv. subst next. destruct He as [[] Hs Hf Hc]. destruct e. cbn in *. unfold u64_ok, u64_max in *.
  split; [|done| |done].
  - split; cbn; try done.
    + apply map_Forall_insert_2; [split_and!; [done|unfold u64_max; lia..|done]|done].
    + rewrite map_size_insert. destruct (_ !! _); unfold Datatypes.id; lia.
    + unfold u64_max. lia.
  - intros Hx. specialize (Hf Hx). unfold ids_below_next in *. cbn in *.
    apply map_Forall_insert_2; [lia|]. intros i m Hm. specialize (Hf i m Hm). cbn in Hf. lia.
Qed.

Lemma remove_matcher_sound c i e : sound c e -> sound c (remove_matcher i e).2.
Proof.
  intros [[] Hs Hf Hc]. destruct e. split; [|done| |done].
  - split; cbn in *; try done.
    + by apply map_Forall_delete.
    + rewrite map_size_delete. destruct (_ !! i); unfold Datatypes.id; lia.
  - intros Hx. apply map_Forall_delete, (Hf Hx).
Qed.

Lemma clear_sound c e : sound c e -> sound c (IndexerEngine.clear e).
Proof.
  intros [[] Hs Hf Hc]. destruct e. cbn in *. split; [|done|done|by intros _; constructor].
  pose proof (good_config _ _ inv_store0) as Hcfg. cbn in Hcfg.
  split; cbn; try done.
  - unfold Store.clear. cbn. rewrite Hcfg. by apply new_good.
  - split; cbn; [constructor|done|]. unfold blen; cbn. rewrite inv_capacity0. apply inv_range0.
Qed.

Lemma observe_stored_ok l r :
  window_ok r -> 0 <= RecentKeys.capacity r ->
  let r' := fold_left (fun recent t => snd (RecentKeys.observe recent (txid t))) l r in
  window_ok r' /\ RecentKeys.capacity r' = RecentKeys.capacity r.
Proof.
  revert r. induction l as [|t l IH]; intros r Hr Hc; [done|]. cbn [fold_left].
  destruct (observe_ok r (txid t) Hr Hc) as [H1 H2].
  destruct (IH (RecentKeys.observe r (txid t)).2 H1 ltac:(lia)) as [H3 H4]. split; [done | congruence].
Qed.

(** Observing distinct new keys appends them, within the capacity. *)
Lemma observe_stored_order l r :
  window_ok r -> 0 <= RecentKeys.capacity r -> NoDup (RecentKeys.order r ++ map txid l) ->
  RecentKeys.order (fold_left (fun recent t => snd (RecentKeys.observe recent (txid t))) l r)
  = keep_last (Z.to_nat (RecentKeys.capacity r)) (RecentKeys.order r ++ map txid l).
Proof.
  revert r. induction l as [|t l IH]; intros r Hr Hc Hnd; cbn [fold_left map].
  - rewrite app_nil_r. destruct Hr as [_ _ Hb]. unfold keep_last, blen in *.
    by replace (length (RecentKeys.order r) - Z.to_nat (RecentKeys.capacity r))%nat with 0%nat by lia.
  - cbn [map] in Hnd. rewrite (cons_middle (txid t)), app_assoc in Hnd.
    assert (Hnew : txid t ∉ RecentKeys.order r).
    { apply NoDup_app in Hnd as (Hnd & _ & _). apply NoDup_app in Hnd as (_ & Hd & _). intros Hin. apply (Hd _ Hin). left. }
    destruct (observe_ok r (txid t) Hr Hc) as [H1 H2].
    rewrite observe_spec, bool_decide_eq_false_2 in * by done. cbn [snd RecentKeys.capacity] in *.
    rewrite IH; cbn [RecentKeys.order RecentKeys.capacity]; [|done|done|].
    + by rewrite keep_last_app, <- app_assoc.
    + unfold keep_last at 1. rewrite <- (take_drop (length (RecentKeys.order r ++ [txid t]) - Z.to_nat (RecentKeys.capacity r))
        (RecentKeys.order r ++ [txid t])), <- app_assoc in Hnd. by apply NoDup_app in Hnd as (_ & _ & Hnd).
Qed.

Lemma index_txids_NoDup d e : engine_inv d e -> NoDup (map txid (ix_transactions (index e))).
Proof.
  intros He. pose proof (good_ok _ _ (inv_store _ _ He)) as Hok. unfold index.
  rewrite (proj1 (abs_keys _ Hok)). apply (indexed_nodup _ _ _ (ok_tx _ Hok)).
Qed.

(** The window that remembers the stored transactions, newest last. *)
Definition remembered (cfg : IndexerConfig) (x : Index) : list Text :=
  keep_last (Z.to_nat (dedupe_window cfg)) (map txid (ix_transactions x)).

Lemma rebuild_window d e :
  engine_inv d e -> RecentKeys.order (recent_txids (rebuild_recent_txids e)) = remembered (e_config e) (index e).
Proof.
  intros He. unfold rebuild_recent_txids. rewrite set_recent_recent.
  pose proof (inv_capacity _ _ He) as Hcap. pose proof (inv_range _ _ He) as [_ _ _ Hw].
  rewrite observe_stored_order; cbn [RecentKeys.clear RecentKeys.order RecentKeys.capacity app].
  - by rewrite Hcap.
  - split; cbn; [constructor|done|]. unfold blen; cbn. lia.
  - lia.
  - apply (index_txids_NoDup d e He).
Qed.

Lemma rebuild_inv d e :
  engine_inv d e -> engine_inv d (rebuild_recent_txids e) /\ store (rebuild_recent_txids e) = store e.
Proof.
  intros He. unfold rebuild_recent_txids. split; [|apply set_recent_store].
  pose proof (inv_capacity _ _ He) as Hcap. pose proof (inv_range _ _ He) as [_ _ _ Hw].
  destruct (observe_stored_ok (Store.transactions (store e)) (RecentKeys.clear (recent_txids e))) as [H1 H2].
  - split; cbn; [constructor|done|]. unfold blen; cbn. lia.
  - cbn. lia.
  - by apply inv_recent.
Qed.

Lemma remove_blocks_spec c hashes e :
  sound c e ->
  let e' := (remove_blocks hashes e).2 in
  let x := spec_remove_blocks (list_to_set hashes) (index e) in
  (remove_blocks hashes e).1 =
    Ok (blen (ix_blocks (index e)) - blen (ix_blocks x), blen (ix_transactions (index e)) - blen (ix_transactions x),
        blen (ix_matches (index e)) - blen (ix_matches x)) /\
  sound c e' /\ same_setup e e' /\ index e' = x /\
  RecentKeys.order (recent_txids e') = remembered (e_config e) x.
Proof.
  intros [He Hs Hf Hc]. unfold remove_blocks.
  destruct (remove_chain_blocks_good (e_config e) (store e) (list_to_set hashes) (inv_store _ _ He)) as [G A].
  assert (P : pending_evictions (Store.remove_chain_blocks (store e) (list_to_set hashes)).2 = pending_evictions (store e)).
  { unfold Store.remove_chain_blocks. by case_bool_decide. }
  pose proof (remove_chain_blocks_refines (store e) (list_to_set hashes) (good_ok _ _ (inv_store _ _ He))) as R.
  destruct (Store.remove_chain_blocks (store e) (list_to_set hashes)) as [[[nb nt] nm] s]. cbn [snd] in *.
  destruct R as (_ & _ & _ & -> & -> & ->).
  set (e1 := sub_from Matches _ _).
  assert (M : moves 0 0 s e e1).
  { subst e1. destruct e. split; try done. intros. by repeat apply plain_metrics_ok. }
  pose proof (inv_moves _ _ _ _ _ He M G) as H0. destruct (rebuild_inv 0 e1 H0) as [H1 H2].
  pose proof (rebuild_window 0 e1 H0) as W. rewrite (moves_config _ _ _ _ _ M) in W. unfold index at 1 in W.
  rewrite (moves_store _ _ _ _ _ M) in H2, W. rewrite A in W. cbn zeta.
  assert (I : index (rebuild_recent_txids e1) = spec_remove_blocks (list_to_set hashes) (index e))
    by (unfold index at 1; by rewrite H2).
  assert (S1 : same_setup e (rebuild_recent_txids e1)).
  { transitivity e1; [apply (moves_setup _ _ _ _ _ M) | apply set_recent_setup]. }
  split_and!; [|split|done|done|done].
  - cbn [fst]. by rewrite A.
  - done.
  - unfold settled. by rewrite H2, P.
  - intros Hx. apply (setup_fresh e); auto.
  - intros Hx. rewrite I. apply spec_remove_blocks_closed; auto.
Qed.

Section with_values.
Context (matcher_values : gmap Z Matcher -> list Matcher).
Abbreviation ingest_transaction := (IndexerEngine.ingest_transaction matcher_values).

Lemma ingest_transaction_sound c t : preserves (sound c) (ingest_transaction t).
Proof.
  intros e He. pose proof (ingest_transaction_spec matcher_values e t (sound_ok _ _ He)) as H.
  destruct (validate_transaction _ t).
  - destruct H as (e' & -> & H1 & H4 & H2 & H3 & _). cbn [snd]. split; [done | apply H2, He | |].
    { intros Hx. apply (setup_fresh e); [done | by apply He]. }
    intros Hc. rewrite H3.
    apply spec_ingest_closed; [apply (inv_limits 0), He | | by apply He].
    intros m Hm. destruct (seen e t); [set_solver | by eapply scan_txid].
  - rewrite H. apply (sound_quiet c e); [by apply add_to_quiet | done].
Qed.

Definition spec_ingest_block (cfg : IndexerConfig) (b : IndexedBlock) (x : Index) : Index :=
  let x := (spec_purge (bk_observed_at_ms b) (transaction_ttl_ms cfg) x).2 in
  if retains_blocks (mode cfg) then (spec_insert_block (max_blocks cfg) b x).2 else x.

Lemma spec_insert_block_closed limit b x : closed x -> closed (spec_insert_block limit b x).2.
Proof. intros Hx. unfold spec_insert_block. by case_bool_decide. Qed.

Lemma ingest_block_spec c b e :
  sound c e ->
  if is_blank (hash b)
  then ingest_block b e = (Err (str "block hash cannot be empty"), add_to RejectedRecords 1 e)
  else exists e', ingest_block b e = (Ok tt, e') /\ sound c e' /\ same_setup e e' /\
    index e' = spec_ingest_block (e_config e) b (index e) /\ recent_txids e' = recent_txids e.
Proof.
  intros He. unfold ingest_block, spec_ingest_block. destruct (is_blank (hash b)) eqn:Hb; [done|].
  set (e0 := add_to BlocksObserved 1 e).
  assert (H0 : sound c e0) by (apply (sound_quiet c e); [by apply add_to_quiet | done]).
  destruct (purge_inv (bk_observed_at_ms b) 0 e0 (sound_ok _ _ H0)) as (H1 & S1 & R1 & P1 & I1).
  replace (e_config e0) with (e_config e) in I1 by (by destruct e).
  replace (index e0) with (index e) in I1 by (by destruct e).
  assert (S01 : same_setup e e0) by (apply add_to_setup).
  replace (recent_txids e0) with (recent_txids e) in R1 by (by destruct e).
  pose proof (sound_settled _ _ H0) as Hset0.
  set (e1 := IndexerEngine.purge_expired (bk_observed_at_ms b) e0) in *. clearbody e1.
  set (e2 := set_last_block (Some (bk_observed_at_ms b)) e1).
  pose proof (set_last_block_quiet 0 (Some (bk_observed_at_ms b)) e1) as M2. fold e2 in M2.
  assert (H2 : engine_ok e2) by (apply (inv_moves _ _ _ _ _ H1 M2), H1).
  assert (Ec : e_config e2 = e_config e) by (rewrite (moves_config _ _ _ _ _ M2); etransitivity; [apply S1 | apply S01]).
  destruct (insert_block_good (e_config e2) (inv_range _ _ H2) (store e2) b Hb (inv_store _ _ H2)) as [G A].
  set (e3 := if retains_blocks (mode (e_config e2)) then _ else e2).
  assert (M3 : exists s, moves 0 0 s e2 e3 /\ good (e_config e2) s /\
    abs s = if retains_blocks (mode (e_config e)) then (spec_insert_block (max_blocks (e_config e)) b (index e1)).2
            else index e1).
  { replace (index e1) with (index e2) by (unfold index; by rewrite (moves_store _ _ _ _ _ M2)).
    rewrite <- Ec. subst e3. destruct (retains_blocks _).
    - exists (Store.insert_block (store e2) b).2. pose proof (f_equal snd A) as A2. cbn [snd] in A2.
      destruct (Store.insert_block (store e2) b) as [[] s]; cbn [fst snd] in *.
      + split_and!; [|done|done]. destruct e2. split; try done. by apply plain_metrics_ok.
      + split_and!; [apply set_store_moves|done|done].
    - exists (store e2). split_and!; [by destruct e2 | apply H2 | done]. }
  destruct M3 as (s & M3 & Gs & As).
  pose proof (push_event_quiet 0 (BlockEvent (hash b)) e3) as M4.
  rewrite (moves_store _ _ _ _ _ M3) in M4. pose proof (moves_trans _ _ _ _ _ _ _ _ M3 M4) as M.
  pose proof (record_moves 0 (push_event (BlockEvent (hash b)) e3)) as M5.
  rewrite (moves_store _ _ _ _ _ M4) in M5. pose proof (moves_trans _ _ _ _ _ _ _ _ M M5) as M6.
  set (e' := record_size_evictions _) in *.
  assert (I' : index e' = abs s) by (unfold index; by rewrite (moves_store _ _ _ _ _ M6)).
  assert (S' : same_setup e e').
  { etransitivity; [exact S01|]. etransitivity; [exact S1|].
    etransitivity; [apply (moves_setup _ _ _ _ _ M2) | apply (moves_setup _ _ _ _ _ M6)]. }
  exists e'. split; [done|]. split_and!; [split|done| |].
  - apply (inv_moves _ _ _ _ _ H2 M6). destruct Gs as [[] ? ?]. by split.
  - unfold settled. by rewrite (moves_store _ _ _ _ _ M6).
  - intros Hx. apply (setup_fresh e); [done | by apply He].
  - intros Hc. rewrite I', As, I1. assert (closed (spec_purge (bk_observed_at_ms b) (transaction_ttl_ms (e_config e)) (index e)).2)
      by (apply spec_purge_closed; by apply He).
    destruct (retains_blocks (mode (e_config e))); [by apply spec_insert_block_closed | done].
  - by rewrite I', As, I1.
  - by rewrite (moves_recent _ _ _ _ _ M6), (moves_recent _ _ _ _ _ M2), R1.
Qed.

Lemma ingest_block_sound c b : preserves (sound c) (ingest_block b).
Proof.
  intros e He. pose proof (ingest_block_spec c b e He) as H. destruct (is_blank (hash b)).
  - rewrite H. apply (sound_quiet c e); [by apply add_to_quiet | done].
  - by destruct H as (e' & -> & H & _).
Qed.

(** ** Batches and reconciliation *)

Lemma ingest_transactions_preserves P l count :
  (forall t, preserves P (ingest_transaction t)) -> preserves P (ingest_transactions matcher_values l count).
Proof.
  intros HP. revert count. induction l as [|t l IH]; intros count; cbn; [apply preserves_ret|].
  apply preserves_bind; [apply HP | intros found; apply IH].
Qed.

Lemma ingest_collect_preserves P l found :
  (forall t, preserves P (ingest_transaction t)) -> preserves P (ingest_collect matcher_values l found).
Proof.
  intros HP. revert found. induction l as [|t l IH]; intros found; cbn; [apply preserves_ret|].
  apply preserves_bind; [apply HP | intros more; apply IH].
Qed.

Lemma get_counts_preserves P : preserves P get_counts.
Proof. by intros e. Qed.

Lemma ingest_batches_preserves P l count :
  (forall t, preserves P (ingest_transaction t)) -> (forall b, preserves P (ingest_block b)) ->
  preserves P (ingest_batches matcher_values l count).
Proof.
  intros HP HB. revert count. induction l as [|batch l IH]; intros count; cbn; [apply preserves_ret|].
  apply preserves_bind; [apply HB|]. intros _. apply preserves_bind; [by apply ingest_transactions_preserves|].
  intros c'. apply IH.
Qed.

Lemma accept_batches_preserves P l added :
  (forall t, preserves P (ingest_transaction t)) -> (forall b, preserves P (ingest_block b)) ->
  preserves P (accept_batches matcher_values l added).
Proof.
  intros HP HB. revert added. induction l as [|batch l IH]; intros [[ab at_] am]; cbn [accept_batches]; [apply preserves_ret|].
  apply preserves_bind; [apply get_counts_preserves|]. intros [[? ?] ?].
  apply preserves_bind; [apply HB|]. intros _. apply preserves_bind; [by apply ingest_transactions_preserves|].
  intros c'. apply preserves_bind; [apply get_counts_preserves|]. intros [[? ?] ?]. apply IH.
Qed.

Lemma push_sound c event : preserves (sound c) (push event).
Proof. intros e He. by apply (sound_quiet c e); [apply push_event_quiet|]. Qed.

#[local] Hint Resolve push_sound preserves_ret preserves_of_result preserves_reject get_counts_preserves ingest_transaction_sound
  ingest_block_sound set_checkpoint_sound ingest_batches_preserves accept_batches_preserves ingest_collect_preserves : preserves.

Lemma apply_sync_batches_sound c batches ch : preserves (sound c) (apply_sync_batches matcher_values batches ch).
Proof.
  unfold apply_sync_batches. repeat (apply preserves_bind; [auto with preserves|]; intros ?);
  repeat match goal with x : _ * _ |- _ => destruct x end; auto with preserves.
  repeat (apply preserves_bind; [auto with preserves|]; intros ?);
  repeat match goal with x : _ * _ |- _ => destruct x end; auto with preserves.
  repeat (apply preserves_bind; [auto with preserves|]; intros ?); auto with preserves.
Qed.

Lemma reconcile_sound c delta : preserves (sound c) (reconcile_virtual_chain matcher_values delta).
Proof.
  unfold reconcile_virtual_chain. apply preserves_bind; [auto with preserves|]. intros _.
  apply preserves_bind; [intros e He; by apply remove_blocks_spec|]. intros [[nb nt] nm].
  apply preserves_bind; [auto with preserves|]. intros [[ab at_] am].
  repeat (apply preserves_bind; [auto with preserves|]; intros ?). auto with preserves.
Qed.

Lemma ingest_block_batch_sound c batch : preserves (sound c) (ingest_block_batch matcher_values batch).
Proof.
  unfold ingest_block_batch. apply preserves_atomic.
  repeat (apply preserves_bind; [auto with preserves|]; intros ?). auto with preserves.
Qed.

End with_values.

(** ** Restoring *)

Definition index_of (snapshot : IndexerSnapshot) : Index :=
  {| ix_transactions := snap_transactions snapshot; ix_blocks := snap_blocks snapshot;
     ix_matches := snap_matches snapshot |}.

Lemma validate_snapshot_Ok cfg snapshot :
  validate_snapshot cfg snapshot = Ok tt ->
  Forall (fun t => validate_transaction cfg t = Ok tt) (snap_transactions snapshot) /\
  Forall (fun b => is_blank (hash b) = false) (snap_blocks snapshot).
Proof.
  unfold validate_snapshot. intros H. apply rbind_Ok_inv in H as ([] & H1 & H2). split.
  - clear H2. induction (snap_transactions snapshot) as [|t l IH]; [constructor|]. cbn in H1.
    destruct (validate_transaction cfg t) as [[]|] eqn:E; [|done]. constructor; [done | by apply IH].
  - destruct (existsb _ _) eqn:E; [done|]. apply Forall_forall. intros b Hb.
    destruct (is_blank (hash b)) eqn:Eb; [|done].
    assert (existsb (fun b => is_blank (hash b)) (snap_blocks snapshot) = true); [|congruence].
    apply existsb_exists. exists b. split; [by apply list_elem_of_In | done].
Qed.

Lemma validate_snapshot_intro cfg snapshot :
  Forall (fun t => validate_transaction cfg t = Ok tt) (snap_transactions snapshot) ->
  Forall (fun b => is_blank (hash b) = false) (snap_blocks snapshot) -> validate_snapshot cfg snapshot = Ok tt.
Proof.
  intros H1 H2. unfold validate_snapshot.
  assert (E1 : try_fold (fun _ t => validate_transaction cfg t) tt (snap_transactions snapshot) = Ok tt).
  { induction H1 as [|t l Ht _ IH]; [done|]. cbn. by rewrite Ht. }
  rewrite E1. cbn [rbind].
  assert (E2 : existsb (fun b => is_blank (hash b)) (snap_blocks snapshot) = false).
  { induction H2 as [|b l Hb _ IH]; [done|]. cbn. by rewrite Hb. }
  by rewrite E2.
Qed.

Lemma restore_transactions_good cfg (Hr : config_range cfg) l s :
  Forall (fun t => validate_transaction cfg t = Ok tt) l -> good cfg s ->
  let s' := fold_left (fun s value => snd (Store.insert_transaction s value)) l s in
  good cfg s' /\ (NoDup (map txid (ix_transactions (abs s) ++ l)) ->
    blen (ix_transactions (abs s) ++ l) <= max_transactions cfg -> ix_matches (abs s) = [] ->
    abs s' = {| ix_transactions := ix_transactions (abs s) ++ l; ix_blocks := ix_blocks (abs s); ix_matches := [] |}).
Proof.
  intros Hl. revert s. induction Hl as [|t l Ht Hl IH]; intros s Hs; cbn [fold_left].
  - split; [done|]. intros _ _ Hm. rewrite app_nil_r. rewrite <- Hm. by destruct (abs s).
  - destruct (insert_transaction_good cfg Hr s t Ht Hs) as [G A].
    destruct (IH _ G) as [G' E']. split; [done|]. intros Hnd Hb Hm.
    assert (A' : abs (Store.insert_transaction s t).2 =
      {| ix_transactions := ix_transactions (abs s) ++ [t]; ix_blocks := ix_blocks (abs s); ix_matches := [] |}).
    { rewrite (f_equal snd A : abs _ = _). unfold spec_insert_transaction. rewrite bool_decide_eq_false_2.
      - cbn [snd]. rewrite Hm, drop_oldest_id; [done|]. rewrite !blen_app, blen_cons in *. pose proof (blen_nonneg l). rewrite blen_nil. lia.
      - rewrite map_app in Hnd. apply NoDup_app in Hnd as (_ & Hd & _). intros Hin. apply (Hd _ Hin). left. }
    cbn zeta in E'. rewrite A' in E'. cbn [ix_transactions ix_blocks ix_matches] in E'.
    rewrite <- app_assoc in E'. by apply E'.
Qed.

Lemma restore_blocks_good cfg (Hr : config_range cfg) l s :
  Forall (fun b => is_blank (hash b) = false) l -> good cfg s ->
  let s' := fold_left (fun s value => snd (Store.insert_block s value)) l s in
  good cfg s' /\ (NoDup (map hash (ix_blocks (abs s) ++ l)) -> blen (ix_blocks (abs s) ++ l) <= max_blocks cfg ->
    abs s' = {| ix_transactions := ix_transactions (abs s); ix_blocks := ix_blocks (abs s) ++ l;
                ix_matches := ix_matches (abs s) |}).
Proof.
  intros Hl. revert s. induction Hl as [|b l Hb Hl IH]; intros s Hs; cbn [fold_left].
  - split; [done|]. intros _ _. rewrite app_nil_r. by destruct (abs s).
  - destruct (insert_block_good cfg Hr s b Hb Hs) as [G A].
    destruct (IH _ G) as [G' E']. split; [done|]. intros Hnd Hlen.
    assert (A' : abs (Store.insert_block s b).2 =
      {| ix_transactions := ix_transactions (abs s); ix_blocks := ix_blocks (abs s) ++ [b];
         ix_matches := ix_matches (abs s) |}).
    { rewrite (f_equal snd A : abs _ = _). unfold spec_insert_block. rewrite bool_decide_eq_false_2.
      - cbn [snd]. rewrite drop_oldest_id; [done|]. rewrite !blen_app, blen_cons in *. pose proof (blen_nonneg l). rewrite blen_nil. lia.
      - rewrite map_app in Hnd. apply NoDup_app in Hnd as (_ & Hd & _). intros Hin. apply (Hd _ Hin). left. }
    cbn zeta in E'. rewrite A' in E'. cbn [ix_transactions ix_blocks ix_matches] in E'.
    rewrite <- app_assoc in E'. by apply E'.
Qed.

Lemma insert_matches_exact limit l x :
  blen (ix_matches x ++ l) <= limit ->
  fold_left (fun x m => spec_insert_match limit m x) l x =
    {| ix_transactions := ix_transactions x; ix_blocks := ix_blocks x; ix_matches := ix_matches x ++ l |}.
Proof.
  revert x. induction l as [|m l IH]; intros x Hb; cbn [fold_left].
  - rewrite app_nil_r. by destruct x.
  - assert (E : spec_insert_match limit m x =
      {| ix_transactions := ix_transactions x; ix_blocks := ix_blocks x; ix_matches := ix_matches x ++ [m] |}).
    { unfold spec_insert_match. rewrite drop_oldest_id; [done|].
      rewrite !blen_app, blen_cons in *. pose proof (blen_nonneg l). rewrite blen_nil. lia. }
    rewrite E, IH; cbn; rewrite <- app_assoc; done.
Qed.

Lemma restore_good cfg (Hr : config_range cfg) snapshot :
  validate_snapshot cfg snapshot = Ok tt ->
  good cfg (Store.restore cfg snapshot) /\ pending_evictions (Store.restore cfg snapshot) = [] /\
  (index_fits cfg (index_of snapshot) -> NoDup (map txid (snap_transactions snapshot)) ->
   NoDup (map hash (snap_blocks snapshot)) -> abs (Store.restore cfg snapshot) = index_of snapshot).
Proof.
  intros Hv. apply validate_snapshot_Ok in Hv as [Ht Hb]. unfold Store.restore.
  destruct (restore_transactions_good cfg Hr _ (Store.new cfg) Ht (new_good cfg Hr)) as [G1 E1].
  set (s1 := fold_left _ (snap_transactions snapshot) _) in *.
  destruct (restore_blocks_good cfg Hr _ s1 Hb G1) as [G2 E2].
  set (s2 := fold_left _ (snap_blocks snapshot) _) in *.
  destruct (insert_matches_good cfg Hr (snap_matches snapshot) s2 G2) as [G3 E3].
  set (s3 := fold_left _ (snap_matches snapshot) _) in *. split_and!.
  - destruct G3 as [[] ? ?]. by split.
  - done.
  - intros [F1 _ F2 _ F3] Hnd1 Hnd2. change (abs (Store.clear_evictions s3)) with (abs s3).
    rewrite E3, (E2 : NoDup _ -> _ -> _ = _), (E1 : NoDup _ -> _ -> _ -> _ = _);
      rewrite ?E1; try done. by apply insert_matches_exact.
Qed.

Lemma restored_sound c e s :
  engine_ok e -> good (e_config e) s -> pending_evictions s = [] ->
  (fresh_ids c = true -> ids_below_next e) -> (linked c = true -> closed (abs s)) ->
  let e' := set_events [] (rebuild_runtime_state (set_store s e)) in
  sound c e' /\ index e' = abs s /\ same_setup e e' /\ events e' = [].
Proof.
  intros He Hs Hp Hf Hc e'.
  pose proof (inv_moves 0 0 s e (set_store s e) He (set_store_moves 0 s e) Hs) as H1.
  destruct (rebuild_inv 0 _ H1) as [H2 E2].
  assert (S2 : same_setup e (rebuild_recent_txids (set_store s e))).
  { etransitivity; [apply (moves_setup _ _ _ _ _ (set_store_moves 0 s e))|]. apply set_recent_setup. }
  subst e'. unfold rebuild_runtime_state. set (e2 := rebuild_recent_txids (set_store s e)) in *. clearbody e2.
  assert (E3 : store e2 = s) by (rewrite E2; by destruct e).
  destruct (Store.counts (store e2)) as [[nt nb] nm].
  split_and!; [split| | |].
  - destruct H2, e2. by split.
  - unfold settled. destruct e2. cbn in *. congruence.
  - intros Hx. apply (setup_fresh e); [|auto]. etransitivity; [exact S2 | by destruct e2].
  - intros Hx. unfold index. destruct e2. cbn in *. rewrite E3. auto.
  - unfold index. destruct e2. cbn in *. by rewrite E3.
  - etransitivity; [exact S2 | by destruct e2].
  - by destruct e2.
Qed.

(** A snapshot the engine can hold as it is: within the limits, without
    repeated keys and without dangling matches. *)
Record faithful (cfg : IndexerConfig) (snapshot : IndexerSnapshot) : Prop := {
  faithful_fits : index_fits cfg (index_of snapshot);
  faithful_txids : NoDup (map txid (snap_transactions snapshot));
  faithful_hashes : NoDup (map hash (snap_blocks snapshot));
  faithful_closed : closed (index_of snapshot);
}.

Lemma faithful_restore cfg (Hr : config_range cfg) snapshot :
  validate_snapshot cfg snapshot = Ok tt -> faithful cfg snapshot -> closed (abs (Store.restore cfg snapshot)).
Proof. intros Hv []. destruct (restore_good cfg Hr snapshot Hv) as (_ & _ & ->); done. Qed.

Lemma restore_snapshot_sound c snapshot e :
  (linked c = true -> faithful (e_config e) snapshot) -> sound c e -> sound c (restore_snapshot snapshot e).2.
Proof.
  intros Hf [He Hs Hn Hc]. unfold restore_snapshot. destruct (validate_snapshot _ _) as [[]|] eqn:Hv; [|done]. cbn [snd].
  destruct (restore_good _ (inv_range _ _ He) snapshot Hv) as (G & P & _).
  apply restored_sound; try done. intros Hx. apply faithful_restore; [apply He | done | auto].
Qed.

Lemma validate_matchers_Ok l :
  validate_matchers l = Ok tt <->
  blen l <= 4096 /\ Forall (fun m => validate_rule (rule m) = Ok tt /\ id m <> 0) l /\ NoDup (map id l).
Proof.
  unfold validate_matchers. destruct (Z.ltb_spec 4096 (blen l)); [split; [done|lia]|].
  set (step := fun (ids : gset Z) m => _).
  assert (H' : forall ids, (exists ids', try_fold step ids l = Ok ids') <->
    Forall (fun m => validate_rule (rule m) = Ok tt /\ id m <> 0) l /\ NoDup (map id l) /\ forall m, m ∈ l -> id m ∉ ids).
  { clear H. induction l as [|m l IH]; intros ids; cbn [try_fold map].
    { split; [|eauto]. intros _. split_and!; [constructor..|set_solver]. }
    rewrite Forall_cons, NoDup_cons. unfold step at 1.
    destruct (validate_rule (rule m)) as [[]|]; cbn [rbind]; [|naive_solver].
    destruct (Z.eqb_spec (id m) 0); cbn [orb]; [naive_solver|].
    case_bool_decide as Hin; cbn [rbind].
    { split; [naive_solver|]. intros (_ & _ & Hx). by destruct (Hx m ltac:(left)). }
    rewrite IH. change (map id) with (fmap (M := list) id). rewrite list_elem_of_fmap. set_solver. }
  specialize (H' ∅). destruct (try_fold step ∅ l) as [ids'|error]; cbn [rbind].
  - split; [|done]. intros _. destruct (proj1 H' ltac:(eauto)) as (? & ? & _). done.
  - split; [done|]. intros (_ & ? & ?). destruct (proj2 H') as [? ?]; [|done]. split_and!; [done|done|set_solver].
Qed.

Lemma max_id_bound (m : gmap Z Matcher) : 0 <= max_id m /\ forall i, is_Some (m !! i) -> i <= max_id m.
Proof.
  unfold max_id. assert (H : 0 <= set_fold Z.max 0 (dom m) /\ forall i, i ∈ dom m -> i <= set_fold Z.max 0 (dom m)).
  { apply (set_fold_ind_L (fun r X => 0 <= r /\ forall i, i ∈ X -> i <= r)); [set_solver by lia|].
    intros i X r Hi [H1 H2]. split; [lia|]. intros j [->%elem_of_singleton | Hj]%elem_of_union; [lia|].
    specialize (H2 j Hj). lia. }
  destruct H as [H1 H2]. split; [done|]. intros i Hi. apply H2. by apply elem_of_dom.
Qed.

Lemma max_id_attained (m : gmap Z Matcher) bound : 0 <= bound -> (forall i, is_Some (m !! i) -> i <= bound) -> max_id m <= bound.
Proof.
  intros Hb H. unfold max_id. assert (H' : forall i, i ∈ dom m -> i <= bound) by (intros i ?%elem_of_dom; auto).
  revert H'. apply (set_fold_ind_L (fun r X => (forall i, i ∈ X -> i <= bound) -> r <= bound)); [done|].
  intros i X r Hi IH H'. specialize (IH ltac:(set_solver)). specialize (H' i ltac:(set_solver)). lia.
Qed.

(** The map [restore_state] collects. *)
Definition matcher_map (l : list Matcher) : gmap Z Matcher := list_to_map (map (fun m => (id m, m)) (reverse l)).

Lemma matcher_map_lookup l i m : matcher_map l !! i = Some m -> m ∈ l /\ id m = i.
Proof.
  unfold matcher_map. change (map ?f) with (fmap (M := list) f). intros H%elem_of_list_to_map_2.
  apply list_elem_of_fmap in H as (x & [= -> ->] & Hx). by rewrite elem_of_reverse in Hx.
Qed.

Lemma matcher_map_size l : (size (matcher_map l) <= length l)%nat.
Proof.
  unfold matcher_map. rewrite <- (length_reverse l), <- (length_map (fun m => (id m, m)) (reverse l)).
  induction (map _ (reverse l)) as [|[i m] l' IH]; [done|]. cbn [list_to_map foldr]. rewrite map_size_insert.
  destruct (_ !! _); cbn; lia.
Qed.
