(* ===== verification/IndexerSafety.v ===== *)
(** * What the indexer guarantees

    The theorems a user of the indexer relies on: the invariant of every
    reachable engine, ingestion against the abstract index, atomic batches,
    chain reconciliation, and persistence. *)

From S2P Require Import Prelude Bytes Json Selection IndexerModel IndexerStore IndexerEngine IndexerProofs.
Import StoreProofs RecentKeysProofs.

(** ** Restoring a persisted state *)

(** The engine whose store and runtime state [restore_state] then rebuilds. *)
Definition restored_base (state : PersistedIndexerState) (e : IndexerEngine) : IndexerEngine :=
  put_checkpoint (ps_checkpoint state)
    (set_next_id (max_id (matcher_map (ps_matchers state)) + 1) (set_matchers (matcher_map (ps_matchers state)) e)).

Lemma restored_base_config state e : e_config (restored_base state e) = e_config e.
Proof. by destruct e. Qed.
Lemma restored_base_matchers state e : matchers (restored_base state e) = matcher_map (ps_matchers state).
Proof. by destruct e. Qed.
Lemma restored_base_checkpoint state e : checkpoint (restored_base state e) = ps_checkpoint state.
Proof. by destruct e. Qed.

(** The matchers of a state that passed validation, as a map. *)
Definition matchers_valid (m : gmap Z Matcher) : Prop :=
  map_Forall (fun i m => id m = i /\ 1 <= i <= u64_max /\ validate_rule (rule m) = Ok tt) m.

Lemma matcher_map_valid l :
  Forall (fun m => 0 <= id m <= u64_max) l -> validate_matchers l = Ok tt ->
  matchers_valid (matcher_map l) /\ Z.of_nat (size (matcher_map l)) <= 4096.
Proof.
  intros Hids Hm. destruct (proj1 (validate_matchers_Ok _) Hm) as (Hlen & Hrules & _). split.
  - intros i m [Hin <-]%matcher_map_lookup. rewrite Forall_forall in Hids, Hrules.
    specialize (Hids m Hin). destruct (Hrules m Hin). split_and!; [done|lia..|done].
  - pose proof (matcher_map_size l). unfold blen in Hlen. lia.
Qed.

Lemma max_id_range (m : gmap Z Matcher) : matchers_valid m -> 0 <= max_id m <= u64_max.
Proof.
  intros Hall. destruct (max_id_bound m) as [H0 _]. split; [exact H0|]. apply max_id_attained; [done|].
  intros i [x Hi]. by destruct (Hall i x Hi) as (_ & [_ ?] & _).
Qed.

(** The next identifier exists unless the last one is taken. *)
Lemma compute_next_spec m :
  matchers_valid m ->
  compute_next_matcher_id m = if max_id m <? u64_max then Ok (max_id m + 1) else Err (str "matcher id exhausted").
Proof.
  intros Hall. pose proof (max_id_range m Hall) as Hr. unfold compute_next_matcher_id, checked_add.
  destruct (Z.ltb_spec (max_id m) u64_max) as [Hlt|Hge].
  - rewrite checked_u64_id; [done|]. unfold u64_ok, u64_max in *. lia.
  - destruct (checked_u64 (max_id m + 1)) eqn:E; [|done]. checked_inv. unfold u64_ok, u64_max in *. lia.
Qed.

Lemma restored_base_ok state e :
  engine_ok e -> validate_checkpoint (ps_checkpoint state) = Ok tt ->
  matchers_valid (matcher_map (ps_matchers state)) -> Z.of_nat (size (matcher_map (ps_matchers state))) <= 4096 ->
  max_id (matcher_map (ps_matchers state)) < u64_max ->
  engine_ok (restored_base state e) /\ ids_below_next (restored_base state e).
Proof.
  intros He Hch Hall Hsize Hmax. pose proof (max_id_range _ Hall) as Hr.
  unfold restored_base. set (ms := matcher_map (ps_matchers state)) in *. split.
  - destruct He, e. split; cbn in *; try done. lia.
  - destruct e. intros i m Hi. cbn in *. pose proof (proj2 (max_id_bound ms) i ltac:(by eexists)). lia.
Qed.

Lemma restore_state_run state e :
  validate_schema state = Ok tt -> validate_checkpoint (ps_checkpoint state) = Ok tt ->
  validate_matchers (ps_matchers state) = Ok tt -> validate_snapshot (e_config e) (ps_snapshot state) = Ok tt ->
  compute_next_matcher_id (matcher_map (ps_matchers state)) = Ok (max_id (matcher_map (ps_matchers state)) + 1) ->
  restore_state state e =
    (Ok tt, set_events [] (rebuild_runtime_state
      (set_store (Store.restore (e_config e) (ps_snapshot state)) (restored_base state e)))).
Proof.
  intros E1 E2 E3 E4 E5. unfold restore_state, bind, of_result. rewrite E1, E2, E3, E4.
  fold (matcher_map (ps_matchers state)). cbn zeta.
  replace (matchers (set_matchers _ _)) with (matcher_map (ps_matchers state)) by (by destruct e).
  rewrite E5. repeat f_equal. by destruct e.
Qed.

(** A state whose largest identifier is the last one fails only after its
    records and matchers have replaced the engine's. *)
Lemma restore_state_half state e :
  validate_schema state = Ok tt -> validate_checkpoint (ps_checkpoint state) = Ok tt ->
  validate_matchers (ps_matchers state) = Ok tt -> validate_snapshot (e_config e) (ps_snapshot state) = Ok tt ->
  compute_next_matcher_id (matcher_map (ps_matchers state)) = Err (str "matcher id exhausted") ->
  restore_state state e =
    (Err (str "matcher id exhausted"),
     set_matchers (matcher_map (ps_matchers state)) (set_store (Store.restore (e_config e) (ps_snapshot state)) e)).
Proof.
  intros E1 E2 E3 E4 E5. unfold restore_state, bind, of_result. rewrite E1, E2, E3, E4.
  fold (matcher_map (ps_matchers state)). cbn zeta.
  replace (matchers (set_matchers _ _)) with (matcher_map (ps_matchers state)) by (by destruct e).
  by rewrite E5.
Qed.

Lemma half_restored_sound c m s e :
  engine_ok e -> good (e_config e) s -> pending_evictions s = [] -> (linked c = true -> closed (abs s)) ->
  matchers_valid m -> Z.of_nat (size m) <= 4096 -> (fresh_ids c = true -> False) ->
  sound c (set_matchers m (set_store s e)).
Proof.
  intros [] Hs Hp Hc Hm Hsize Hfresh. destruct e. cbn in *. split; [|done|by intros ?%Hfresh|done]. by split.
Qed.

Lemma restore_state_sound c state e :
  Forall (fun m => 0 <= id m <= u64_max) (ps_matchers state) ->
  (fresh_ids c = true -> Forall (fun m => id m < u64_max) (ps_matchers state)) ->
  (linked c = true -> faithful (e_config e) (ps_snapshot state)) -> sound c e -> sound c (restore_state state e).2.
Proof.
  intros Hids Hfresh Hf Hsound. pose proof Hsound as [He _ _ _].
  destruct (validate_schema state) as [[]|] eqn:Hsch; [|by unfold restore_state, bind, of_result; rewrite Hsch].
  destruct (validate_checkpoint (ps_checkpoint state)) as [[]|] eqn:Hch;
    [|by unfold restore_state, bind, of_result; rewrite Hsch, Hch].
  destruct (validate_matchers (ps_matchers state)) as [[]|] eqn:Hm;
    [|by unfold restore_state, bind, of_result; rewrite Hsch, Hch, Hm].
  destruct (validate_snapshot (e_config e) (ps_snapshot state)) as [[]|] eqn:Hv;
    [|by unfold restore_state, bind, of_result; rewrite Hsch, Hch, Hm, Hv].
  destruct (matcher_map_valid _ Hids Hm) as [Hall Hsize]. pose proof (compute_next_spec _ Hall) as Hnext.
  destruct (restore_good _ (inv_range _ _ He) (ps_snapshot state) Hv) as (G & P & _).
  assert (Hclosed : linked c = true -> closed (abs (Store.restore (e_config e) (ps_snapshot state)))).
  { intros Hx. apply faithful_restore; [apply He | done | auto]. }
  destruct (Z.ltb_spec (max_id (matcher_map (ps_matchers state))) u64_max) as [Hlt|Hge].
  - destruct (restored_base_ok state e He Hch Hall Hsize Hlt) as [H1 H2].
    rewrite (restore_state_run state e Hsch Hch Hm Hv Hnext). cbn [snd].
    by apply restored_sound; [|rewrite restored_base_config|..].
  - rewrite (restore_state_half state e Hsch Hch Hm Hv Hnext). cbn [snd]. apply half_restored_sound; try done.
    intros Hx. specialize (Hfresh Hx). rewrite Forall_forall in Hfresh.
    assert (max_id (matcher_map (ps_matchers state)) <= u64_max - 1); [|lia].
    apply max_id_attained; [by unfold u64_max|]. intros i [m [Hin <-]%matcher_map_lookup]. specialize (Hfresh m Hin). lia.
Qed.

Section with_values.
Context (matcher_values : gmap Z Matcher -> list Matcher).
Context (values_perm : forall m, matcher_values m ≡ₚ (map_to_list m).*2).

Lemma matcher_values_elem m x : x ∈ matcher_values m <-> exists i, m !! i = Some x.
Proof.
  rewrite values_perm, list_elem_of_fmap. split.
  - intros ([i y] & -> & H%elem_of_map_to_list). by exists i.
  - intros [i H]. exists (i, x). split; [done | by apply elem_of_map_to_list].
Qed.

Lemma keyed_values (m : gmap Z Matcher) :
  (forall i x, m !! i = Some x -> id x = i) ->
  map (fun x => (id x, x)) (matcher_values m) ≡ₚ map_to_list m.
Proof.
  intros Hid. change (map ?f) with (fmap (M := list) f). rewrite values_perm, <- list_fmap_compose.
  rewrite <- (list_fmap_id (map_to_list m)) at 2. apply Permutation_refl', list_fmap_ext.
  intros n [i x] Hx. cbn. rewrite (Hid i x); [done|]. apply elem_of_map_to_list. by eapply list_elem_of_lookup_2.
Qed.

Lemma matcher_map_values (m : gmap Z Matcher) l :
  (forall i x, m !! i = Some x -> id x = i) -> l ≡ₚ matcher_values m ->
  NoDup (map id l) /\ matcher_map l = m.
Proof.
  intros Hid Hl.
  assert (Hk : map (fun x => (id x, x)) (reverse l) ≡ₚ map_to_list m).
  { rewrite <- (keyed_values m Hid), <- Hl. by rewrite reverse_Permutation. }
  assert (Hnd : NoDup (map id l)).
  { assert (E : map id (reverse l) = (map (fun x => (id x, x)) (reverse l)).*1)
      by (change (map ?f) with (fmap (M := list) f); rewrite <- list_fmap_compose; done).
    rewrite <- (reverse_Permutation l) at 1. rewrite E, Hk. apply NoDup_fst_map_to_list. }
  split; [done|]. unfold matcher_map. rewrite (list_to_map_proper _ (map_to_list m)); [|by rewrite Hk; apply NoDup_fst_map_to_list|done].
  apply list_to_map_to_list.
Qed.

(** ** Histories *)

(** Every operation of the facade that can change the engine. *)
Inductive Operation :=
  | Start (now : Z)
  | Stop
  | AddMatcher (r : MatchRule)
  | RemoveMatcher (i : Z)
  | IngestTransaction (t : IndexedTransaction)
  | IngestBlock (b : IndexedBlock)
  | IngestBatch (batch : BlockBatch)
  | Purge (now : Z)
  | SetCheckpoint (ch : SyncCheckpoint)
  | Sync (batches : list BlockBatch) (ch : SyncCheckpoint)
  | Reconcile (delta : VirtualChainDelta)
  | RestoreSnapshot (snapshot : IndexerSnapshot)
  | RestoreState (state : PersistedIndexerState)
  | Drain
  | Clear.

(** The engine after an operation, whether it succeeded or not. *)
Definition run (op : Operation) (e : IndexerEngine) : IndexerEngine :=
  match op with
  | Start now => start now e
  | Stop => stop e
  | AddMatcher r => (add_matcher r e).2
  | RemoveMatcher i => (remove_matcher i e).2
  | IngestTransaction t => (ingest_transaction matcher_values t e).2
  | IngestBlock b => (ingest_block b e).2
  | IngestBatch batch => (ingest_block_batch matcher_values batch e).2
  | Purge now => IndexerEngine.purge_expired now e
  | SetCheckpoint ch => (set_checkpoint ch e).2
  | Sync batches ch => (with_atomic (apply_sync_batches matcher_values batches ch) e).2
  | Reconcile delta => (with_atomic (reconcile_virtual_chain matcher_values delta) e).2
  | RestoreSnapshot snapshot => (restore_snapshot snapshot e).2
  | RestoreState state => (restore_state state e).2
  | Drain => (drain_events e).2
  | Clear => IndexerEngine.clear e
  end.

(** Restored matcher identifiers are [u64] values. What is trusted of the
    restored data is asked besides: identifiers that leave room for a next
    one, and a snapshot the engine could have written. *)
Definition op_ok (c : Trust) (cfg : IndexerConfig) (op : Operation) : Prop :=
  match op with
  | RestoreSnapshot snapshot => linked c = true -> faithful cfg snapshot
  | RestoreState state =>
      Forall (fun m => 0 <= id m <= u64_max) (ps_matchers state) /\
      (fresh_ids c = true -> Forall (fun m => id m < u64_max) (ps_matchers state)) /\
      (linked c = true -> faithful cfg (ps_snapshot state))
  | _ => True
  end.

Inductive reachable (c : Trust) (cfg : IndexerConfig) : IndexerEngine -> Prop :=
  | reach_new e : IndexerEngine.new cfg = Ok e -> reachable c cfg e
  | reach_run e op : reachable c cfg e -> op_ok c cfg op -> reachable c cfg (run op e).

Lemma new_sound c cfg e : config_range cfg -> IndexerEngine.new cfg = Ok e -> sound c e /\ e_config e = cfg.
Proof.
  intros Hr H. unfold IndexerEngine.new in H. apply rbind_Ok_inv in H as ([] & Hv & [= <-]).
  split; [|done]. split; [|done|done|by intros _; constructor]. split; cbn; try done.
  - by apply new_good.
  - split; cbn; [constructor|done|]. apply Hr.
Qed.

Lemma run_sound c op e :
  op_ok c (e_config e) op -> sound c e -> sound c (run op e).
Proof.
  intros Hop He. destruct op; cbn [run op_ok] in *.
  - eapply sound_quiet; [|exact He]. unfold start. destruct e as [? ? ? ? ? ? [] ? ? ?]; by split.
  - eapply sound_quiet; [|exact He]. by destruct e.
  - by apply add_matcher_sound.
  - by apply remove_matcher_sound.
  - by apply ingest_transaction_sound.
  - by apply ingest_block_sound.
  - by apply ingest_block_batch_sound.
  - by apply purge_sound.
  - by apply set_checkpoint_sound.
  - apply (preserves_atomic (sound c)); [|done]. apply apply_sync_batches_sound.
  - apply (preserves_atomic (sound c)); [|done]. apply reconcile_sound.
  - by apply restore_snapshot_sound.
  - destruct Hop as (? & ? & ?). by apply restore_state_sound.
  - eapply sound_quiet; [|exact He]. by destruct e.
  - by apply clear_sound.
Qed.

(** The configuration is only set when an engine is made. *)
Lemma purge_config now e : e_config (IndexerEngine.purge_expired now e) = e_config e.
Proof. exact (moves_config _ _ _ _ _ (purge_moves now 0 e)). Qed.
Lemma record_config e : e_config (record_size_evictions e) = e_config e.
Proof. exact (moves_config _ _ _ _ _ (record_moves 0 e)). Qed.
Lemma publish_config l e : e_config (publish_matches l e) = e_config e.
Proof. exact (moves_config _ _ _ _ _ (publish_moves l 0 e)). Qed.
Lemma retain_config t is_match e : e_config (retain_transaction t is_match e) = e_config e.
Proof. exact (moves_config _ _ _ _ _ (retain_moves t is_match 0 e)). Qed.
Lemma push_event_config event e : e_config (push_event event e) = e_config e.
Proof. by destruct e. Qed.

Section config_kept.
Context (cfg : IndexerConfig).
Let kept (e : IndexerEngine) : Prop := e_config e = cfg.

Lemma ingest_transaction_config t : preserves kept (ingest_transaction matcher_values t).
Proof.
  intros e He. unfold ingest_transaction, kept in *. destruct (validate_transaction _ t); [|by destruct e].
  set (e0 := add_to TransactionsObserved 1 e). pose proof (purge_config (tx_observed_at_ms t) e0) as E.
  replace (e_config e0) with cfg in E by (subst e0; by destruct e).
  set (e1 := IndexerEngine.purge_expired _ e0) in *. clearbody e1.
  destruct (RecentKeys.observe (recent_txids e1) (txid t)) as [[] r]; cbn [negb snd]; [|by destruct e1].
  set (e2 := add_to CacheMisses 1 (set_recent r e1)). set (e3 := add_to MatchesObserved _ e2).
  assert (E3 : e_config e3 = cfg) by (subst e3 e2; by destruct e1).
  cbn [snd]. rewrite record_config, publish_config, retain_config. exact E3.
Qed.

Lemma ingest_block_config b : preserves kept (ingest_block b).
Proof.
  intros e He. unfold ingest_block, kept in *. destruct (is_blank (hash b)); [by destruct e|]. cbn [snd].
  rewrite record_config, push_event_config.
  pose proof (purge_config (bk_observed_at_ms b) (add_to BlocksObserved 1 e)) as E.
  replace (e_config (add_to _ 1 e)) with cfg in E by (by destruct e).
  set (e1 := IndexerEngine.purge_expired _ _) in *. clearbody e1.
  destruct (retains_blocks _); [|by destruct e1].
  destruct (Store.insert_block _ b) as [[] ?]; by destruct e1.
Qed.

Lemma remove_blocks_config hashes : preserves kept (remove_blocks hashes).
Proof.
  intros e He. unfold remove_blocks, kept in *. destruct (Store.remove_chain_blocks _ _) as [[[? ?] ?] ?].
  cbn [snd]. unfold rebuild_recent_txids. rewrite set_recent_events. by destruct e.
Qed.

Lemma set_checkpoint_config ch : preserves kept (set_checkpoint ch).
Proof. intros e He. unfold set_checkpoint, kept in *. destruct (validate_checkpoint ch); by destruct e. Qed.

Lemma push_config event : preserves kept (push event).
Proof. intros e He. by destruct e. Qed.

Lemma set_events_config l e : e_config (set_events l e) = e_config e.
Proof. by destruct e. Qed.

Lemma rebuild_config e : e_config (rebuild_runtime_state e) = e_config e.
Proof.
  assert (E : e_config (rebuild_recent_txids e) = e_config e) by apply set_recent_events.
  rewrite <- E. unfold rebuild_runtime_state. set (e2 := rebuild_recent_txids e). clearbody e2.
  destruct (Store.counts (store e2)) as [[? ?] ?]. by destruct e2.
Qed.

#[local] Hint Resolve preserves_ret preserves_of_result preserves_reject get_counts_preserves ingest_transaction_config
  ingest_block_config set_checkpoint_config remove_blocks_config push_config ingest_batches_preserves
  accept_batches_preserves ingest_collect_preserves : kept.
Ltac kept_tac :=
  repeat first
    [ apply preserves_atomic
    | apply preserves_bind; [solve [auto with kept]|]; intros ?
    | match goal with x : _ * _ |- _ => destruct x end
    | solve [auto with kept] ].

Lemma run_config op : (forall e, kept e -> kept (run op e)).
Proof.
  intros e He. destruct op; cbn [run].
  - unfold start. destruct e as [? ? ? ? ? ? [] ? ? ?]; done.
  - by destruct e.
  - unfold add_matcher. destruct (validate_rule r); [|done]. destruct (_ <=? _); [done|].
    destruct (checked_add _ _); [by destruct e | done].
  - by destruct e.
  - by apply ingest_transaction_config.
  - by apply ingest_block_config.
  - revert e He. change (preserves kept (ingest_block_batch matcher_values batch)). unfold ingest_block_batch. kept_tac.
  - unfold kept. by rewrite purge_config.
  - by apply set_checkpoint_config.
  - revert e He. change (preserves kept (with_atomic (apply_sync_batches matcher_values batches ch))).
    unfold apply_sync_batches. kept_tac.
  - revert e He. change (preserves kept (with_atomic (reconcile_virtual_chain matcher_values delta))).
    unfold reconcile_virtual_chain. kept_tac.
  - unfold restore_snapshot. destruct (validate_snapshot _ _); [|done]. cbn [snd]. unfold kept.
    rewrite set_events_config, rebuild_config. by destruct e.
  - unfold restore_state, bind, of_result.
    destruct (validate_schema state); [|done]. destruct (validate_checkpoint (ps_checkpoint state)); [|done].
    destruct (validate_matchers (ps_matchers state)); [|done].
    destruct (validate_snapshot _ (ps_snapshot state)); [|done]. cbn zeta.
    match goal with |- context [compute_next_matcher_id ?m] => destruct (compute_next_matcher_id m) end; cbn [snd]; unfold kept.
    + rewrite set_events_config, rebuild_config. by destruct e.
    + by destruct e.
  - by destruct e.
  - by destruct e.
Qed.
End config_kept.

(** C36: whatever operations have run, from a new engine on, with whatever
    restored data, and failed and half-applied ones included, the engine keeps
    its configuration and satisfies its invariant: the stored records are
    distinct, valid and within the configured limits; the dedupe window holds
    distinct keys within its size; the matchers are valid, at most 4096 and
    keyed by their identifiers; the checkpoint is valid; the counters add up;
    and every eviction has been reported. Two more facts depend on what was
    restored, and are claimed apart: when no restored matcher had the last
    [u64] as its identifier, all identifiers lie below the next one to be
    given out, and when every restored snapshot was one an engine could have
    written, every stored match points at a stored transaction. *)
Theorem engine_invariant (c : Trust) (cfg : IndexerConfig) (e : IndexerEngine) :
  config_range cfg -> reachable c cfg e ->
  e_config e = cfg /\ engine_ok e /\ settled e /\
  (fresh_ids c = true -> ids_below_next e) /\ (linked c = true -> closed (index e)).
Proof.
  intros Hr H. enough (sound c e /\ e_config e = cfg) as [[] ?] by done.
  induction H as [e Hnew | e op _ [IH Hc] Hop]; [by apply new_sound|]. split.
  - apply run_sound; [by rewrite Hc | done].
  - by apply run_config.
Qed.

(** ** Ingestion *)

(** C37: ingesting a transaction either rejects it, changing one counter, or
    returns the match of every installed matcher that accepts it and moves the
    abstract index: expire, then, unless the window still remembers the
    transaction, store it when the mode retains it and store its matches when
    the mode retains matches. A remembered transaction returns no match. *)
Theorem ingest_transaction_refines (c : Trust) (e : IndexerEngine) (t : IndexedTransaction) :
  sound c e ->
  match validate_transaction (e_config e) t with
  | Err error => ingest_transaction matcher_values t e = (Err error, add_to RejectedRecords 1 e)
  | Ok _ =>
      exists found e', ingest_transaction matcher_values t e = (Ok found, e') /\ sound c e' /\
        (forall m, m ∈ found <-> seen e t = false /\ exists i w, matchers e !! i = Some w /\ matches (rule w) t = true /\
           m = {| matcher_id := i; match_txid := txid t; match_observed_at_ms := tx_observed_at_ms t |}) /\
        NoDup (map matcher_id found) /\
        index e' = spec_ingest (e_config e) (seen e t) found t (index e)
  end.
Proof.
  intros He. pose proof (sound_ok _ _ He) as Hok. pose proof (ingest_transaction_spec matcher_values e t Hok) as H.
  pose proof (ingest_transaction_sound matcher_values c t e He) as Hs.
  destruct (validate_transaction _ t); [|done]. destruct H as (e' & E & _ & _ & _ & Hix & _).
  rewrite E in *. cbn [snd] in Hs. eexists _, e'. split; [done|].
  assert (Hid : forall i x, matchers e !! i = Some x -> id x = i) by (intros i x Hx; by apply (inv_matchers _ _ Hok i x Hx)).
  destruct (seen e t); split_and!; try done.
  - set_solver.
  - constructor.
  - intros m. rewrite scan_elem. split.
    + intros (w & Hw%matcher_values_elem & Hm & ->). destruct Hw as [i Hi]. split; [done|]. exists i, w.
      rewrite (Hid i w Hi). done.
    + intros (_ & i & w & Hi & Hm & ->). exists w. rewrite matcher_values_elem. rewrite (Hid i w Hi). eauto.
  - apply scan_ids_NoDup. by apply (matcher_map_values (matchers e) (matcher_values (matchers e))).
Qed.

(** ** What an operation does to the records it works on

    Everything an ingesting operation does to the records is a function of the
    stored index and of the dedupe window, given the configuration and the
    installed matchers. *)

Record View := { v_index : Index; v_window : list Text }.
Definition view (e : IndexerEngine) : View := {| v_index := index e; v_window := RecentKeys.order (recent_txids e) |}.

Section views.
Context (cfg : IndexerConfig) (installed : list Matcher).

(** A transaction the window remembers only expires old records. Any other is
    scanned, indexed and remembered. *)
Definition view_transaction (t : IndexedTransaction) (v : View) : list IndexedMatch * View :=
  let seen := bool_decide (txid t ∈ v_window v) in
  let found := if seen then [] else scan t installed in
  (found, {| v_index := spec_ingest cfg seen found t (v_index v);
             v_window := if seen then v_window v
                         else keep_last (Z.to_nat (dedupe_window cfg)) (v_window v ++ [txid t]) |}).

Fixpoint view_transactions (l : list IndexedTransaction) (v : View) : list IndexedMatch * View :=
  match l with
  | [] => ([], v)
  | t :: l =>
      let '(found, v) := view_transaction t v in
      let '(more, v) := view_transactions l v in
      (found ++ more, v)
  end.

(** A batch is its block, then its transactions in order. *)
Definition view_batch (batch : BlockBatch) (v : View) : list IndexedMatch * View :=
  view_transactions (transactions batch)
    {| v_index := spec_ingest_block cfg (block batch) (v_index v); v_window := v_window v |}.

Fixpoint view_batches (l : list BlockBatch) (v : View) : list IndexedMatch * View :=
  match l with
  | [] => ([], v)
  | batch :: l =>
      let '(found, v) := view_batch batch v in
      let '(more, v) := view_batches l v in
      (found ++ more, v)
  end.

(** The removed blocks, the transactions they carried and those transactions'
    matches are gone, and the window remembers what is left. *)
Definition view_removed (hashes : list Text) (v : View) : View :=
  let x := spec_remove_blocks (list_to_set hashes) (v_index v) in
  {| v_index := x; v_window := remembered cfg x |}.

Definition valid_transactions (l : list IndexedTransaction) : bool := forallb (fun t => is_ok (validate_transaction cfg t)) l.
Definition valid_batch (batch : BlockBatch) : bool :=
  negb (is_blank (hash (block batch))) && valid_transactions (transactions batch).

(** *** Which records a batch can leave behind *)

Section contents.
Context (P : IndexedTransaction -> Prop) (Q : IndexedBlock -> Prop).

Definition holds (x : Index) : Prop := Forall P (ix_transactions x) /\ Forall Q (ix_blocks x).

Lemma holds_purge now ttl x : holds x -> holds (spec_purge now ttl x).2.
Proof.
  intros [H1 H2]. unfold spec_purge. destruct (ttl =? 0); [done|]. split; [by apply Forall_drop | done].
Qed.

Lemma holds_insert_matches limit l x : holds x -> holds (fold_left (fun x m => spec_insert_match limit m x) l x).
Proof. revert x. induction l as [|m l IH]; intros x Hx; [done|]. by apply IH. Qed.

Lemma holds_ingest s found t x : P t -> holds x -> holds (spec_ingest cfg s found t x).
Proof.
  intros Ht Hx. unfold spec_ingest. pose proof (holds_purge (tx_observed_at_ms t) (transaction_ttl_ms cfg) x Hx) as Hp.
  destruct s; [done|].
  set (y := if IndexerModel.retains_transaction _ _ then _ else _).
  assert (Hy : holds y).
  { subst y. destruct (IndexerModel.retains_transaction _ _); [|done]. unfold spec_insert_transaction.
    case_bool_decide; [done|]. destruct Hp. split; [|done]. apply Forall_drop, Forall_app. split; [done|]. by apply Forall_singleton. }
  destruct (retains_matches _); [by apply holds_insert_matches | done].
Qed.

Lemma holds_ingest_block b x : Q b -> holds x -> holds (spec_ingest_block cfg b x).
Proof.
  intros Hb Hx. unfold spec_ingest_block. pose proof (holds_purge (bk_observed_at_ms b) (transaction_ttl_ms cfg) x Hx) as Hp.
  destruct (retains_blocks _); [|done]. unfold spec_insert_block. case_bool_decide; [done|]. destruct Hp.
  split; [done|]. apply Forall_drop, Forall_app. split; [done|]. by apply Forall_singleton.
Qed.

Lemma holds_transactions l v : Forall P l -> holds (v_index v) -> holds (v_index (view_transactions l v).2).
Proof.
  intros Hl. revert v. induction Hl as [|t l Ht Hl IH]; intros v Hv; [done|]. cbn [view_transactions].
  assert (H1 : holds (v_index (view_transaction t v).2)) by (by apply holds_ingest).
  destruct (view_transaction t v) as [found v1]. specialize (IH v1 H1). by destruct (view_transactions l v1).
Qed.

Lemma holds_batch batch v :
  Q (block batch) -> Forall P (transactions batch) -> holds (v_index v) -> holds (v_index (view_batch batch v).2).
Proof. intros Hb Ht Hv. apply holds_transactions; [done|]. by apply holds_ingest_block. Qed.

Lemma holds_batches l v :
  Forall (fun batch => Q (block batch) /\ Forall P (transactions batch)) l ->
  holds (v_index v) -> holds (v_index (view_batches l v).2).
Proof.
  intros Hl. revert v. induction Hl as [|batch l [Hb Ht] Hl IH]; intros v Hv; [done|]. cbn [view_batches].
  pose proof (holds_batch batch v Hb Ht Hv) as H1. destruct (view_batch batch v) as [found v1]. cbn [snd] in H1.
  specialize (IH v1 H1). by destruct (view_batches l v1).
Qed.
End contents.
End views.

(** *** The operations compute it *)

Section performs.
Context (c : Trust) (e0 : IndexerEngine).
Abbreviation cfg := (e_config e0).
Abbreviation installed := (matcher_values (matchers e0)).

(** From any sound engine with the setup of [e0], the computation succeeds
    exactly when [ok], and then its result and the view move as [R] says. *)
Definition performs {A} (m : Comp IndexerEngine Text A) (ok : bool) (R : View -> A -> View -> Prop) : Prop :=
  forall e, sound c e -> same_setup e0 e ->
  if ok then exists a e', m e = (Ok a, e') /\ R (view e) a (view e') /\ sound c e' /\ same_setup e0 e'
  else exists error e', m e = (Err error, e').

Lemma performs_ret {A} (a : A) : performs (ret a) true (fun v a' v' => a' = a /\ v' = v).
Proof. intros e He Hs. by exists a, e. Qed.

Lemma performs_bind {A B} (m : Comp IndexerEngine Text A) (k : A -> Comp IndexerEngine Text B) b1 b2 R1 R2 :
  performs m b1 R1 -> (forall a, performs (k a) b2 (R2 a)) ->
  performs (bind m k) (b1 && b2) (fun v b v' => exists a v1, R1 v a v1 /\ R2 a v1 b v').
Proof.
  intros Hm Hk e He Hs. specialize (Hm e He Hs). destruct b1; cbn [andb].
  - destruct Hm as (a & e1 & H1 & HR1 & He1 & Hs1). rewrite (bind_step _ _ _ _ _ H1).
    specialize (Hk a e1 He1 Hs1). destruct b2; [|done]. destruct Hk as (b & e2 & H2 & HR2 & He2 & Hs2).
    exists b, e2. split_and!; try done. by exists a, (view e1).
  - destruct Hm as (error & e1 & H1). exists error, e1. by rewrite (bind_fail _ _ _ _ _ H1).
Qed.

Lemma performs_weaken {A} (m : Comp IndexerEngine Text A) b b' (R R' : View -> A -> View -> Prop) :
  performs m b R -> b = b' -> (forall v a v', R v a v' -> R' v a v') -> performs m b' R'.
Proof. intros Hm <- HR e He Hs. specialize (Hm e He Hs). destruct b; naive_solver. Qed.

Lemma performs_transaction t :
  performs (ingest_transaction matcher_values t) (is_ok (validate_transaction cfg t))
    (fun v found v' => (found, v') = view_transaction cfg installed t v).
Proof.
  intros e He Hs. pose proof (ingest_transaction_spec matcher_values e t (sound_ok _ _ He)) as H.
  pose proof (ingest_transaction_sound matcher_values c t e He) as Hsound.
  rewrite (same_config _ _ Hs), (same_matchers _ _ Hs) in H.
  destruct (validate_transaction cfg t) as [[]|error]; cbn [is_ok].
  - destruct H as (e' & E & _ & Hsetup & _ & Hix & Hw). rewrite E in Hsound. eexists _, e'. split; [exact E|].
    split_and!; [|done|by etransitivity]. unfold view_transaction, view. cbn [v_index v_window].
    fold (seen e t). by rewrite Hix, Hw.
  - by eexists _, _.
Qed.

Lemma performs_block b :
  performs (ingest_block b) (negb (is_blank (hash b)))
    (fun v _ v' => v' = {| v_index := spec_ingest_block cfg b (v_index v); v_window := v_window v |}).
Proof.
  intros e He Hs. pose proof (ingest_block_spec c b e He) as H. rewrite (same_config _ _ Hs) in H.
  destruct (is_blank (hash b)); cbn [negb]; [by eexists _, _|]. destruct H as (e' & E & Hsound & Hsetup & Hix & Hw).
  exists tt, e'. split_and!; [done| |done|by etransitivity]. unfold view. cbn [v_index v_window]. by rewrite Hix, Hw.
Qed.

Lemma performs_collect l found :
  performs (ingest_collect matcher_values l found) (valid_transactions cfg l)
    (fun v a v' => exists more, a = found ++ more /\ (more, v') = view_transactions cfg installed l v).
Proof.
  revert found. induction l as [|t l IH]; intros found; cbn [ingest_collect view_transactions].
  - eapply performs_weaken; [apply performs_ret|done|]. intros v a v' [-> ->]. exists []. by rewrite app_nil_r.
  - eapply performs_weaken; [eapply performs_bind; [apply performs_transaction|intros more; apply IH]|done|].
    intros v a v' (one & v1 & E1 & more & -> & E2). rewrite <- E1, <- E2. exists (one ++ more). by rewrite app_assoc.
Qed.

(** A running total of matches, up to saturation. *)
Definition totals (count a : Z) (more : list IndexedMatch) : Prop :=
  0 <= count <= u64_max -> a = Z.min u64_max (count + blen more).

Lemma totals_app count a b l1 l2 : totals count a l1 -> totals a b l2 -> totals count b (l1 ++ l2).
Proof.
  unfold totals. intros H1 H2 Hc. specialize (H1 Hc). rewrite blen_app. pose proof (blen_nonneg l1). pose proof (blen_nonneg l2).
  rewrite H2 by (unfold u64_max in *; lia). unfold u64_max in *. lia.
Qed.

Lemma totals_add count l : totals count (saturating_add count (blen l)) l.
Proof. unfold totals, saturating_add, u64_max. intros Hc. pose proof (blen_nonneg l). lia. Qed.

Lemma totals_nil count : totals count count [].
Proof. unfold totals. change (blen []) with 0. lia. Qed.

Lemma performs_transactions l count :
  performs (ingest_transactions matcher_values l count) (valid_transactions cfg l)
    (fun v a v' => exists more, totals count a more /\ (more, v') = view_transactions cfg installed l v).
Proof.
  revert count. induction l as [|t l IH]; intros count; cbn [ingest_transactions view_transactions].
  - eapply performs_weaken; [apply performs_ret|done|]. intros v a v' [-> ->]. exists []. split; [apply totals_nil|done].
  - eapply performs_weaken; [eapply performs_bind; [apply performs_transaction|intros more; apply IH]|done|].
    intros v a v' (one & v1 & E1 & more & Ht & E2). rewrite <- E1, <- E2. exists (one ++ more). split; [|done].
    eapply totals_app; [apply totals_add|done].
Qed.

(** Reading the counts moves nothing. *)
Lemma performs_counts {A} (k : Z * Z * Z -> Comp IndexerEngine Text A) ok R :
  (forall nt nb nm, performs (k (nt, nb, nm)) ok R) -> performs (bind get_counts k) ok R.
Proof.
  intros Hk e He Hs. unfold bind, get_counts. destruct (Store.counts (store e)) as [[nt nb] nm]. by apply Hk.
Qed.

Lemma performs_accept l ab at_ am :
  performs (accept_batches matcher_values l (ab, at_, am)) (forallb (valid_batch cfg) l)
    (fun v a v' => exists more, totals am a.2 more /\ (more, v') = view_batches cfg installed l v).
Proof.
  revert ab at_ am. induction l as [|batch l IH]; intros ab at_ am; cbn [accept_batches view_batches forallb].
  - eapply performs_weaken; [apply performs_ret|done|]. intros v a v' [-> ->]. exists []. split; [apply totals_nil|done].
  - eapply performs_weaken.
    + apply performs_counts. intros tx_before bk_before nm_before.
      eapply performs_bind; [apply performs_block|]. intros u.
      eapply performs_bind; [apply performs_transactions|]. intros am'.
      apply performs_counts. intros tx_after bk_after nm_after. apply IH.
    + unfold valid_batch. by rewrite andb_assoc.
    + intros v a v' ([] & v2 & -> & am' & v3 & (m1 & T1 & E1) & m2 & T2 & E2).
      unfold view_batch. rewrite <- E1, <- E2. exists (m1 ++ m2). split; [by eapply totals_app|done].
Qed.
End performs.

(** C40: a block batch is ingested as a whole or not at all. It succeeds
    exactly when the block has a hash and every transaction is valid. Then the
    report lists the matches of its transactions, and the stored records and
    the dedupe window are those that ingesting the block and then each
    transaction in order makes of the engine's, as [view_batch] computes them
    from the abstract index and the window; the configuration, the matchers
    and the checkpoint stay, the invariant holds, and only records of the
    batch were gained. Otherwise the engine is unchanged, whatever part of the
    batch had been processed. *)
Theorem ingest_block_batch_atomic (c : Trust) (e : IndexerEngine) (batch : BlockBatch) :
  sound c e ->
  let '(r, e') := ingest_block_batch matcher_values batch e in
  is_ok r = valid_batch (e_config e) batch /\
  match r with
  | Err _ => e' = e
  | Ok report =>
      report_block_hash report = hash (block batch) /\ transactions_scanned report = blen (transactions batch) /\
      (report_matches report, view e') = view_batch (e_config e) (matcher_values (matchers e)) batch (view e) /\
      sound c e' /\ same_setup e e' /\
      (forall t, t ∈ ix_transactions (index e') -> t ∈ ix_transactions (index e) \/ t ∈ transactions batch) /\
      (forall b, b ∈ ix_blocks (index e') -> b ∈ ix_blocks (index e) \/ b = block batch)
  end.
Proof.
  intros He. unfold ingest_block_batch, with_atomic.
  pose proof (performs_bind c e _ _ _ _ _ _ (performs_block c e (block batch)) (fun _ =>
    performs_bind c e _ _ _ _ _ _ (performs_collect c e (transactions batch) []) (fun found =>
      performs_ret c e {| report_block_hash := hash (block batch); transactions_scanned := blen (transactions batch);
                          report_matches := found |}))) as D.
  specialize (D e He ltac:(reflexivity)). rewrite andb_true_r in D. fold (valid_batch (e_config e) batch) in D.
  destruct (valid_batch (e_config e) batch); [|by destruct D as (error & e' & ->)].
  destruct D as (report & e' & -> & HR & Hsound & Hsetup). split; [done|].
  destruct HR as (u & v1 & Hv1 & found & v2 & (more & -> & Hv2) & -> & Hv'). rewrite Hv1 in Hv2. rewrite <- Hv' in Hv2.
  cbn [report_block_hash transactions_scanned report_matches app].
  split_and!; [done|done|done|done|done| |].
  all: set (P := fun t => t ∈ ix_transactions (index e) \/ t ∈ transactions batch);
    set (Q := fun b => b ∈ ix_blocks (index e) \/ b = block batch);
    assert (Hh : holds P Q (index e')) by
      (change (index e') with (v_index (more, view e').2); rewrite Hv2;
       apply (holds_batch (e_config e) (matcher_values (matchers e)) P Q batch (view e));
         [by right | apply Forall_forall; intros t Ht; by right | split; apply Forall_forall; intros x Hx; by left]).
  - apply Forall_forall, Hh.
  - apply Forall_forall, Hh.
Qed.

Definition sane_delta (cfg : IndexerConfig) (delta : VirtualChainDelta) : bool :=
  is_ok (validate_delta delta) && forallb (valid_batch cfg) (accepted delta).

(** What the delta allows to be stored afterwards. *)
Lemma reconciled_holds cfg installed (delta : VirtualChainDelta) (v : View) :
  holds (fun t => (exists batch, batch ∈ accepted delta /\ t ∈ transactions batch) \/
      (t ∈ ix_transactions (v_index v) /\ forall h, tx_block_hash t = Some h -> h ∉ removed_block_hashes delta))
    (fun b => (exists batch, batch ∈ accepted delta /\ b = block batch) \/
      (b ∈ ix_blocks (v_index v) /\ hash b ∉ removed_block_hashes delta))
    (v_index (view_batches cfg installed (accepted delta) (view_removed cfg (removed_block_hashes delta) v)).2).
Proof.
  apply holds_batches.
  - apply Forall_forall. intros batch Hin. split; [by left; exists batch|].
    apply Forall_forall. intros t Ht. left. by exists batch.
  - split; apply Forall_forall; intros x Hx; right; cbn in Hx; apply list_elem_of_filter in Hx as [Hx ?]; split; try done.
    + intros h Hh Hin. apply Hx. unfold Store.in_removed. rewrite Hh. by apply elem_of_list_to_set.
    + intros Hin. apply Hx. by apply elem_of_list_to_set.
Qed.


(** ** Persistence *)

Lemma persisted_matchers_perm (e : IndexerEngine) :
  ps_matchers (persisted_state matcher_values e) ≡ₚ matcher_values (matchers e).
Proof. apply sort_by_Permutation. Qed.

Lemma snapshot_index e : index_of (Store.snapshot (store e)) = index e.
Proof. done. Qed.

(** The persisted state of a running index whose identifiers lie below the next
    one restores it: in any engine of the same configuration [restore_state] succeeds and yields the same
    transactions, blocks and matches in the same order, the same matchers and
    the same checkpoint, with no pending event, in an engine that satisfies the
    invariant again. *)
Theorem persistence_round_trip (c : Trust) (e target : IndexerEngine) :
  sound c e -> ids_below_next e -> engine_ok target -> settled target -> e_config target = e_config e ->
  exists restored, restore_state (persisted_state matcher_values e) target = (Ok tt, restored) /\
    sound c restored /\ ids_below_next restored /\ index restored = index e /\ matchers restored = matchers e /\
    checkpoint restored = checkpoint e /\ e_config restored = e_config e /\ events restored = [].
Proof.
  intros [He Hs _ Hc] Hfresh Ht Hts Ecfg.
  assert (Hid : forall i x, matchers e !! i = Some x -> id x = i) by (intros i x Hx; by apply (inv_matchers _ _ He i x Hx)).
  destruct (matcher_map_values (matchers e) _ Hid (persisted_matchers_perm e)) as [Hnd Hmap].
  assert (Hms : validate_matchers (ps_matchers (persisted_state matcher_values e)) = Ok tt).
  { apply validate_matchers_Ok. split_and!; [| |done].
    - unfold blen. rewrite persisted_matchers_perm, values_perm, length_fmap, length_map_to_list. apply (inv_count _ _ He).
    - apply Forall_forall. intros w Hw. rewrite persisted_matchers_perm in Hw. apply matcher_values_elem in Hw as [i Hi].
      destruct (inv_matchers _ _ He i w Hi) as (<- & Hlt & Hrule). split; [done | lia]. }
  assert (Hsnap : validate_snapshot (e_config target) (ps_snapshot (persisted_state matcher_values e)) = Ok tt).
  { rewrite Ecfg. apply validate_snapshot_intro; apply (good_fits _ _ (inv_store _ _ He)). }
  destruct (restore_good _ (inv_range _ _ Ht) _ Hsnap) as (G & Pe & A). rewrite Ecfg in A.
  destruct (abs_keys (store e) (good_ok _ _ (inv_store _ _ He))) as [K1 K2].
  specialize (A (good_fits _ _ (inv_store _ _ He))).
  change (map txid (snap_transactions _)) with (map txid (ix_transactions (abs (store e)))) in A.
  change (map hash (snap_blocks _)) with (map hash (ix_blocks (abs (store e)))) in A. rewrite K1, K2 in A.
  specialize (A (indexed_nodup _ _ _ (ok_tx _ (good_ok _ _ (inv_store _ _ He))))
    (indexed_nodup _ _ _ (ok_blocks _ (good_ok _ _ (inv_store _ _ He))))).
  set (state := persisted_state matcher_values e) in *. unfold matcher_map in Hmap. fold (matcher_map (ps_matchers state)) in Hmap.
  assert (Hall : matchers_valid (matcher_map (ps_matchers state))) by (rewrite Hmap; apply He).
  assert (Hsize : Z.of_nat (size (matcher_map (ps_matchers state))) <= 4096) by (rewrite Hmap; apply He).
  assert (Hmax : max_id (matcher_map (ps_matchers state)) < u64_max).
  { rewrite Hmap. assert (max_id (matchers e) <= u64_max - 1); [|lia].
    apply max_id_attained; [by unfold u64_max|]. intros i [w Hi]. specialize (Hfresh i w Hi). pose proof (inv_next _ _ He).
    cbn in Hfresh. lia. }
  destruct (restored_base_ok state target Ht (inv_checkpoint _ _ He) Hall Hsize Hmax) as [H1 H2].
  pose proof (compute_next_spec _ Hall) as Hnext. rewrite (proj2 (Z.ltb_lt _ _) Hmax) in Hnext.
  rewrite (restore_state_run state target eq_refl (inv_checkpoint _ _ He) Hms Hsnap Hnext).
  set (s := Store.restore (e_config target) (ps_snapshot state)) in *.
  assert (As : abs s = index e) by (subst s; rewrite Ecfg; exact A).
  destruct (restored_sound c (restored_base state target) s H1) as (R1 & R2 & R3 & R4).
  { by rewrite restored_base_config. }
  { done. }
  { done. }
  { intros Hx. rewrite As. by apply Hc. }
  eexists. split; [reflexivity|]. split_and!; [done|by apply (setup_fresh (restored_base state target))|by rewrite R2, As| | | |done].
  - by rewrite (same_matchers _ _ R3), restored_base_matchers, Hmap.
  - by rewrite (same_checkpoint _ _ R3), restored_base_checkpoint.
  - by rewrite (same_config _ _ R3), restored_base_config.
Qed.
End with_values.

(** ** Concrete runs *)

(** One order a hash map may have. *)
Definition key_order (m : gmap Z Matcher) : list Matcher := (map_to_list m).*2.
Lemma key_order_perm m : key_order m ≡ₚ (map_to_list m).*2.
Proof. done. Qed.

Definition fresh_engine : IndexerEngine := {|
  e_config := default_config; store := Store.new default_config;
  recent_txids := RecentKeys.new (dedupe_window default_config); matchers := ∅; next_matcher_id := 1;
  running := false; last_block_at_ms := None; metrics := default_metrics; checkpoint := default_checkpoint;
  events := [] |}.

Lemma default_range : config_range default_config.
Proof. by split. Qed.

Lemma fresh_reachable c : reachable key_order c default_config fresh_engine.
Proof. apply reach_new. reflexivity. Qed.

Lemma fresh_sound c : sound c fresh_engine.
Proof. by apply (new_sound c default_config); [apply default_range|]. Qed.

Definition tx_in (block : option Text) (k : Z) (bytes : list Z) : IndexedTransaction :=
  {| txid := [k]; tx_block_hash := block; tx_daa_score := None; tx_observed_at_ms := 5; addresses := [];
     payload := bytes; tx_raw := Null |}.
Definition block_of (k : Z) : IndexedBlock :=
  {| hash := [k]; bk_daa_score := None; bk_observed_at_ms := 5; txids := []; bk_raw := Null |}.

(** An engine that watches a payload prefix and has seen one match. *)
Definition busy_engine : IndexerEngine :=
  run key_order (IngestBatch {| block := block_of 65; transactions := [tx_in (Some [65]) 97 [7; 8]] |})
    (run key_order (AddMatcher (PayloadPrefix [7])) fresh_engine).

Lemma busy_reachable c : reachable key_order c default_config busy_engine.
Proof. apply reach_run; [|done]. apply reach_run; [|done]. apply fresh_reachable. Qed.

Lemma busy_sound c : sound c busy_engine.
Proof.
  apply run_sound; [done|]. apply run_sound; [done|]. apply fresh_sound.
Qed.

(** A state that fails to restore, and yet replaces the matchers. *)
Definition last_id_state : PersistedIndexerState := {|
  schema := 1; ps_snapshot := {| snap_transactions := []; snap_blocks := []; snap_matches := [] |};
  ps_checkpoint := default_checkpoint;
  ps_matchers := [{| id := 1; rule := PayloadPrefix [7] |}; {| id := u64_max; rule := PayloadPrefix [8] |}] |}.

Definition half_restored : IndexerEngine := run key_order (RestoreState last_id_state) busy_engine.

Lemma half_restored_reachable : reachable key_order {| fresh_ids := false; linked := true |} default_config half_restored.
Proof.
  apply reach_run; [apply busy_reachable|]. cbn [op_ok fresh_ids linked]. split_and!; [by_decide|done|].
  intros _. split; cbn; try constructor; by vm_compute.
Qed.

Lemma engine_invariant_witness :
  (e_config busy_engine = default_config /\ engine_ok busy_engine /\ ids_below_next busy_engine /\ closed (index busy_engine)) /\
  engine_ok half_restored /\ size (matchers half_restored) = 2%nat.
Proof.
  destruct (engine_invariant key_order trusted default_config busy_engine default_range (busy_reachable trusted))
    as (H1 & H2 & _ & H3 & H4).
  destruct (engine_invariant key_order _ default_config half_restored default_range half_restored_reachable) as (_ & H5 & _).
  split; [exact (conj H1 (conj H2 (conj (H3 eq_refl) (H4 eq_refl))))|]. split; [exact H5|vm_compute; reflexivity].
Defined.

Lemma ingest_transaction_refines_witness :
  exists found e', ingest_transaction key_order (tx_in None 98 [7]) busy_engine = (Ok found, e') /\
    map matcher_id found = [1] /\ sound trusted e'.
Proof.
  pose proof (ingest_transaction_refines key_order key_order_perm trusted busy_engine (tx_in None 98 [7]) (busy_sound trusted)) as H.
  assert (E : validate_transaction (e_config busy_engine) (tx_in None 98 [7]) = Ok tt) by (vm_compute; reflexivity).
  rewrite E in H. destruct H as (found & e' & H1 & H2 & _). exists found, e'. split; [exact H1|]. split; [|exact H2].
  assert (Ef : (ingest_transaction key_order (tx_in None 98 [7]) busy_engine).1 = Ok found) by (by rewrite H1).
  assert (Ev : rmap_err Datatypes.id (ingest_transaction key_order (tx_in None 98 [7]) busy_engine).1
    = Ok [{| matcher_id := 1; match_txid := [98]; match_observed_at_ms := 5 |}]) by (vm_compute; reflexivity).
  rewrite Ef in Ev. cbn in Ev. injection Ev as ->. reflexivity.
Defined.

Lemma ingest_block_batch_atomic_witness :
  let bad := {| block := block_of 66; transactions := [tx_in None 98 [7]; tx_in None 32 [7]] |} in
  let good := {| block := block_of 66; transactions := [tx_in None 98 [7]; tx_in None 99 [8]] |} in
  (ingest_block_batch key_order bad busy_engine).2 = busy_engine /\
  map txid (ix_transactions (index (ingest_block_batch key_order good busy_engine).2)) = [[97]; [98]; [99]] /\
  view (ingest_block_batch key_order good busy_engine).2
    = (view_batch default_config (key_order (matchers busy_engine)) good (view busy_engine)).2.
Proof.
  intros bad good. split; [|split; [vm_compute; reflexivity|]].
  - pose proof (ingest_block_batch_atomic key_order trusted busy_engine bad (busy_sound trusted)) as H.
    assert (E : is_ok (ingest_block_batch key_order bad busy_engine).1 = false) by (vm_compute; reflexivity).
    destruct (ingest_block_batch key_order bad busy_engine) as [[report|error] e']; [discriminate E|]. apply H.
  - pose proof (ingest_block_batch_atomic key_order trusted busy_engine good (busy_sound trusted)) as H.
    assert (E : is_ok (ingest_block_batch key_order good busy_engine).1 = true) by (vm_compute; reflexivity).
    destruct (ingest_block_batch key_order good busy_engine) as [[report|error] e']; [|discriminate E].
    destruct H as (_ & _ & _ & H & _). exact (f_equal snd H).
Defined.


Lemma persistence_round_trip_witness :
  exists restored, restore_state (persisted_state key_order busy_engine) fresh_engine = (Ok tt, restored) /\
    index restored = index busy_engine /\ map txid (ix_transactions (index busy_engine)) = [[97]].
Proof.
  destruct (persistence_round_trip key_order key_order_perm trusted busy_engine fresh_engine) as (r & H1 & _ & _ & H2 & _).
  - apply busy_sound.
  - by apply (sound_fresh trusted), eq_refl; apply busy_sound.
  - apply (sound_ok trusted), fresh_sound.
  - reflexivity.
  - vm_compute. reflexivity.
  - exists r. split; [exact H1|]. split; [exact H2 | vm_compute; reflexivity].
Defined.

(** ** What the invariant's side conditions exclude *)

(** A failed [restore_state] is not undone. A state whose largest
    matcher identifier is the last [u64] passes every check and replaces the
    store and the matchers before the identifier overflow is noticed; the call
    reports an error, and the engine goes on with the new matchers and its old
    next identifier, so that the next [add_matcher] overwrites a restored
    matcher. *)
Theorem restore_state_half_applied :
  let kept := {| id := 1; rule := PayloadPrefix [7] |} in
  let state := {| schema := 1; ps_snapshot := {| snap_transactions := []; snap_blocks := []; snap_matches := [] |};
                  ps_checkpoint := default_checkpoint;
                  ps_matchers := [kept; {| id := u64_max; rule := PayloadPrefix [8] |}] |} in
  let '(r, e) := restore_state state fresh_engine in
  r = Err (str "matcher id exhausted") /\ matchers fresh_engine = ∅ /\ matchers e !! 1 = Some kept /\
  let '(added, e') := add_matcher (PayloadPrefix [9]) e in
  added = Ok 1 /\ matchers e' !! 1 = Some {| id := 1; rule := PayloadPrefix [9] |}.
Proof. vm_compute. split_and!; reflexivity. Qed.

(** A restored snapshot may hold matches of transactions it does not hold. *)
Lemma restore_snapshot_dangling :
  let snapshot := {| snap_transactions := []; snap_blocks := [];
                     snap_matches := [{| matcher_id := 1; match_txid := [97]; match_observed_at_ms := 0 |}] |} in
  let '(r, e) := restore_snapshot snapshot fresh_engine in
  r = Ok tt /\ length (ix_matches (index e)) = 1%nat /\ Store.transaction (store e) [97] = None.
Proof. vm_compute. split_and!; reflexivity. Qed.

(** The gauge documented as the number of retained records only counts
    insertions: it is not lowered when a record is evicted. *)
Definition tight_config : IndexerConfig := {|
  mode := AllMode; max_transactions := 1; max_blocks := 1; max_matches := 1; dedupe_window := 16;
  scanner_stale_after_ms := 60000; transaction_ttl_ms := 0; max_payload_bytes := 100;
  max_addresses_per_transaction := 4; max_query_page := 10 |}.
Lemma transactions_gauge_overcounts :
  match IndexerEngine.new tight_config with
  | Ok e =>
      let e := run key_order (IngestTransaction (tx_in None 98 [])) (run key_order (IngestTransaction (tx_in None 97 [])) e) in
      m_transactions (metrics e) = 2 /\ length (ix_transactions (index e)) = 1%nat
  | Err _ => False
  end.
Proof. vm_compute. split; reflexivity. Qed.
