(* ===== verification/Qr.v ===== *)
(** * Animated QR transfer

    [src/src/transaction/interchange/qr]: the session-bound frame format of
    [frame.rs], the session check of [security.rs], and the fragmenting
    producer and the assembling decoder of [codec.rs]. The digest and the
    hexadecimal codec of the QR path are third-party code and parameters; the
    drawing of a code as SVG is not modelled. *)

From S2P Require Import Prelude Bytes.

(** Write [bytes] into a buffer at [i]: [output[i..j].copy_from_slice(..)]. *)
Definition copy_at (output : list Z) (i : Z) (bytes : list Z) : list Z :=
  take (Z.to_nat i) output ++ bytes ++ drop (Z.to_nat i + length bytes) output.

(** [slice::chunks(n)], [n] positive: the last chunk may be shorter. *)
Fixpoint chunks_loop {A} (fuel n : nat) (l : list A) : list (list A) :=
  match fuel, l with
  | _, [] => []
  | O, _ => []
  | S fuel', _ => take n l :: chunks_loop fuel' n (drop n l)
  end.
Definition chunks {A} (n : Z) (l : list A) : list (list A) := chunks_loop (length l) (Z.to_nat n) l.

(** Big-endian bytes: [to_be_bytes]. *)
Definition be_bytes (n : nat) (z : Z) : list Z := rev (le_bytes n z).

(** ** [frame.rs] *)

Module Frame.

Definition FRAME_MAGIC : list Z := str "KQ".
Definition FRAME_VERSION : Z := 1.
Definition SESSION_ID_LEN : Z := 12.
Definition FRAME_HEADER_LEN : Z := 2 + 1 + SESSION_ID_LEN + 1 + 1 + 1.
Definition MIN_ENCODED_FRAME_LEN : Z := 20.
Definition MAX_FRAMES : Z := 64.

Inductive FrameError :=
  | BufferTooSmall
  | InvalidHeader
  | InvalidIndex
  | InvalidLength
  | NonCanonicalPadding.

Record ParsedFrame := {
  session_id : list Z;
  frame_index : Z;
  total_frames : Z;
  fragment : list Z;
}.

Definition encode_frame (identifier : list Z) (frame_index total_frames : Z) (fragment output : list Z)
  : result Z FrameError * list Z :=
  if (total_frames <? 2) || (MAX_FRAMES <? total_frames) || (total_frames <=? frame_index)
     || bool_decide (fragment = []) || (u8_max <? blen fragment)
  then (Err InvalidIndex, output)
  else
    match checked_add FRAME_HEADER_LEN (blen fragment) with
    | None => (Err InvalidLength, output)
    | Some encoded_len =>
        let display_len := Z.max encoded_len MIN_ENCODED_FRAME_LEN in
        if blen output <? display_len then (Err BufferTooSmall, output)
        else
          let output := copy_at output 0 (replicate (Z.to_nat display_len) 0) in
          let output := copy_at output 0 FRAME_MAGIC in
          let output := copy_at output 2 [FRAME_VERSION] in
          let output := copy_at output 3 identifier in
          let output := copy_at output (3 + SESSION_ID_LEN) [frame_index] in
          let output := copy_at output (4 + SESSION_ID_LEN) [total_frames] in
          let output := copy_at output (5 + SESSION_ID_LEN) [blen fragment mod 256] in
          let output := copy_at output FRAME_HEADER_LEN fragment in
          (Ok display_len, output)
    end.

Definition validate_frame_header (data : list Z) : result unit FrameError :=
  if (blen data <? FRAME_HEADER_LEN) || negb (list_Z_eqb (take 2 data) FRAME_MAGIC) then Err InvalidHeader
  else if negb (default 0 (data !! 2%nat) =? FRAME_VERSION) then Err InvalidHeader
  else Ok tt.

Definition validate_frame_index (total_frames frame_index fragment_len : Z) : result unit FrameError :=
  if (total_frames <? 2) || (MAX_FRAMES <? total_frames) then Err InvalidIndex
  else if (total_frames <=? frame_index) || (fragment_len =? 0) then Err InvalidIndex
  else Ok tt.

(** The indexings are in range: the header check fixes the length. *)
Definition byte_at (data : list Z) (i : Z) : Z := default 0 (data !! Z.to_nat i).

Definition parse_frame (data : list Z) : result ParsedFrame FrameError :=
  let? _ := validate_frame_header data in
  let identifier := take (Z.to_nat SESSION_ID_LEN) (drop 3 data) in
  let frame_index := byte_at data (3 + SESSION_ID_LEN) in
  let total_frames := byte_at data (4 + SESSION_ID_LEN) in
  let fragment_len := byte_at data (5 + SESSION_ID_LEN) in
  let? _ := validate_frame_index total_frames frame_index fragment_len in
  let? end_ := ok_or (checked_add FRAME_HEADER_LEN fragment_len) InvalidLength in
  if blen data <? end_ then Err InvalidLength
  else if existsb (fun byte => negb (byte =? 0)) (drop (Z.to_nat end_) data) then Err NonCanonicalPadding
  else Ok {| session_id := identifier; frame_index := frame_index; total_frames := total_frames;
             fragment := take (Z.to_nat fragment_len) (drop (Z.to_nat FRAME_HEADER_LEN) data) |}.

Definition is_session_frame (data : list Z) : bool :=
  (FRAME_HEADER_LEN <=? blen data) && list_Z_eqb (take 2 data) FRAME_MAGIC
  && (default 0 (data !! 2%nat) =? FRAME_VERSION).

Section digest.
Variable sha256 : list Z -> list Z.

Definition compute_session_id (payload : list Z) : list Z :=
  take (Z.to_nat SESSION_ID_LEN)
    (sha256 (str "KaspaPortal/multi-frame/v1" ++ be_bytes 8 (blen payload mod 2 ^ 64) ++ payload)).

Definition verify_session (payload expected : list Z) : bool := list_Z_eqb (compute_session_id payload) expected.
End digest.
End Frame.

(** ** [security.rs] *)

Module Security.

Inductive SessionError :=
  | MixedSession
  | FrameCountChanged.

Definition authorize_frame_session (session_active : bool) (current_session_id : list Z) (current_total_frames : Z)
    (incoming_session_id : list Z) (incoming_total_frames : Z) : result unit SessionError :=
  if negb session_active then Ok tt
  else if negb (list_Z_eqb current_session_id incoming_session_id) then Err MixedSession
  else if negb (current_total_frames =? incoming_total_frames) then Err FrameCountChanged
  else Ok tt.
End Security.

(** ** [codec.rs] *)

Module Codec.
Import Frame.

Definition MAX_FRAME_DATA : Z := 91.
Definition SINGLE_FRAME_DATA : Z := 134.

(** The error texts. *)
Inductive QrError :=
  | InvalidHex
  | EmptyData
  | TooLarge (length frames max : Z)
  | FrameEncodingFailed (error : FrameError)
  | InvalidFrame (error : FrameError)
  | MixedSessionRejected
  | ConflictingDuplicate
  | DigestMismatch.

Section codec.
Variable sha256 : list Z -> list Z.

Definition encode_fragment (identifier : list Z) (total : Z) (item : list Z * Z) : result (list Z) QrError :=
  let '(fragment, frame_num) := item in
  match encode_frame identifier frame_num total fragment (replicate (Z.to_nat SINGLE_FRAME_DATA) 0) with
  | (Ok length, payload) => Ok (take (Z.to_nat length) payload)
  | (Err error, _) => Err (FrameEncodingFailed error)
  end.

(** [zip(0u8..)]: there are at most [MAX_FRAMES] fragments, so the counter
    does not overflow. *)
Definition numbered (l : list (list Z)) : list (list Z * Z) := zip l (seqZ 0 (blen l)).

Definition frame_payloads (data : list Z) : result (list (list Z)) QrError :=
  if bool_decide (data = []) then Err EmptyData
  else if blen data <=? SINGLE_FRAME_DATA then Ok [data]
  else
    let total_frames := div_ceil (blen data) MAX_FRAME_DATA in
    if MAX_FRAMES <? total_frames then Err (TooLarge (blen data) total_frames MAX_FRAMES)
    else
      let identifier := compute_session_id sha256 data in
      let fragments := chunks (div_ceil (blen data) total_frames) data in
      let total := blen fragments mod 256 in
      try_map (encode_fragment identifier total) (numbered fragments).

Record DecoderState := {
  d_session_id : list Z;
  session_active : bool;
  d_total_frames : Z;
  received : list bool;
  fragments : list (list Z);
}.

Definition new_decoder : DecoderState := {|
  d_session_id := replicate (Z.to_nat SESSION_ID_LEN) 0; session_active := false; d_total_frames := 0;
  received := replicate (Z.to_nat MAX_FRAMES) false; fragments := replicate (Z.to_nat MAX_FRAMES) [] |}.

(** Every field is set to its initial value; the fragments are cleared in
    place. *)
Definition reset (s : DecoderState) : DecoderState := {|
  d_session_id := replicate (length (d_session_id s)) 0; session_active := false; d_total_frames := 0;
  received := replicate (Z.to_nat MAX_FRAMES) false; fragments := map (fun _ => []) (fragments s) |}.

Definition accept_session (session_id : list Z) (total_frames : Z) : Comp DecoderState QrError unit := fun s =>
  if negb (is_ok (Security.authorize_frame_session (session_active s) (d_session_id s) (d_total_frames s)
                    session_id total_frames))
  then (Err MixedSessionRejected, s)
  else if negb (session_active s)
  then (Ok tt, {| d_session_id := session_id; session_active := true; d_total_frames := total_frames;
                  received := received s; fragments := fragments s |})
  else (Ok tt, s).

Definition assembled (s : DecoderState) : result (option (list Z)) QrError :=
  let total := Z.to_nat (d_total_frames s) in
  if negb (forallb (fun received => received) (take total (received s))) then Ok None
  else
    let complete := concat (take total (fragments s)) in
    if negb (verify_session sha256 complete (d_session_id s)) then Err DigestMismatch
    else Ok (Some complete).

Definition absorb (frame : ParsedFrame) : Comp DecoderState QrError (option (list Z)) :=
  let* _ := accept_session (session_id frame) (total_frames frame) in
  fun s =>
    let index := Z.to_nat (frame_index frame) in
    if default false (received s !! index) then
      ((if list_Z_eqb (default [] (fragments s !! index)) (fragment frame) then Ok None
        else Err ConflictingDuplicate), s)
    else
      let s := {| d_session_id := d_session_id s; session_active := session_active s;
                  d_total_frames := d_total_frames s; received := <[index := true]> (received s);
                  fragments := <[index := fragment frame]> (fragments s) |} in
      (assembled s, s).

(** [decode_frame] after the hexadecimal decoding. *)
Definition decode_payload (payload : list Z) : Comp DecoderState QrError (option (list Z)) := fun state =>
  match parse_frame payload with
  | Err error => (Err (InvalidFrame error), state)
  | Ok frame =>
      match absorb frame state with
      | (Ok None, state) => (Ok None, state)
      | (outcome, state) => (outcome, reset state)
      end
  end.

Section hex.
Variables (hex_decode : list Z -> option (list Z)) (hex_encode : list Z -> list Z).

Definition decode_frame (frame_hex : list Z) : Comp DecoderState QrError (option (list Z)) := fun state =>
  match hex_decode frame_hex with
  | None => (Err InvalidHex, state)
  | Some payload =>
      match decode_payload payload state with
      | (Ok complete, state) => (Ok (hex_encode <$> complete), state)
      | (Err error, state) => (Err error, state)
      end
  end.
End hex.

Fixpoint join (separator : list Z) (l : list (list Z)) : list Z :=
  match l with
  | [] => []
  | [x] => x
  | x :: l' => x ++ separator ++ join separator l'
  end.

Definition decoder_progress (state : DecoderState) : list Z :=
  let total := d_total_frames state in
  if total =? 0 then str "0/0"
  else
    let flags := take (Z.to_nat total) (received state) in
    let count := blen (List.filter (fun received => received) flags) in
    let bits := map (fun received : bool => if received then str "1" else str "0") flags in
    str "{" ++ [34] ++ str "total" ++ [34] ++ str ":" ++ Decimal.to_string total ++ str "," ++ [34] ++ str "count"
      ++ [34] ++ str ":" ++ Decimal.to_string count ++ str "," ++ [34] ++ str "bits" ++ [34] ++ str ":["
      ++ join (str ",") bits ++ str "]}".

End codec.
End Codec.
