(* ===== verification/QrProofs.v ===== *)
(** * Animated QR transfer: frames arrive in any order

    Theorems about [Qr]: frames parse back canonically, every payload that fits
    is delivered by any stream that shows each of its frames, and the decoder
    returns nothing but payloads of the announced digest. *)

From S2P Require Import Prelude Bytes Qr.
Import Frame Codec.

(** ** Buffers and chunks *)

Lemma copy_at_app (l1 l2 l3 bytes : list Z) i :
  i = blen l1 -> length l2 = length bytes -> copy_at (l1 ++ l2 ++ l3) i bytes = l1 ++ bytes ++ l3.
Proof.
  intros -> Hl. unfold copy_at. rewrite <- Hl. replace (Z.to_nat (blen l1)) with (length l1) by (unfold blen; lia).
  by rewrite take_app_length, <- drop_drop, drop_app_length, drop_app_length.
Qed.

Lemma copy_at_split (l l1 l2 l3 bytes : list Z) i :
  l = l1 ++ l2 ++ l3 -> i = blen l1 -> length l2 = length bytes -> copy_at l i bytes = l1 ++ bytes ++ l3.
Proof. intros ->. apply copy_at_app. Qed.

Lemma concat_chunks_loop {A} fuel n (l : list A) :
  (0 < n)%nat -> (length l <= fuel)%nat ->
  concat (chunks_loop fuel n l) = l /\ Forall (fun c => c <> [] /\ (length c <= n)%nat) (chunks_loop fuel n l).
Proof.
  intros Hn. revert l. induction fuel as [|fuel IH]; intros l Hl; destruct l as [|x l]; try done; [cbn in Hl; lia|].
  cbn [chunks_loop]. destruct n as [|n]; [lia|].
  destruct (IH (drop (S n) (x :: l))) as [E HF]; [rewrite length_drop; cbn in *; lia|]. split.
  - cbn [concat]. by rewrite E, take_drop.
  - constructor; [|done]. split; [done|]. rewrite length_take. lia.
Qed.

Lemma length_chunks_loop {A} fuel n (l : list A) :
  (0 < n)%nat -> (length l <= fuel)%nat -> length (chunks_loop fuel n l) = ((length l + n - 1) / n)%nat.
Proof.
  intros Hn. revert l. induction fuel as [|fuel IH]; intros l Hl; destruct l as [|x l].
  1, 3: cbn; rewrite Nat.div_small by lia; done.
  { cbn in Hl; lia. }
  cbn [chunks_loop length]. rewrite IH by (rewrite length_drop; cbn in *; lia). rewrite length_drop. cbn [length] in *.
  destruct (decide (S (length l) <= n)%nat).
  - replace (S (length l) - n + n - 1)%nat with (n - 1)%nat by lia. rewrite Nat.div_small by lia.
    apply (Nat.div_unique _ _ _ (length l)); lia.
  - replace (S (length l) + n - 1)%nat with ((S (length l) - n + n - 1) + 1 * n)%nat by lia.
    rewrite Nat.div_add by lia. lia.
Qed.

(** ** Frames *)

Definition frame_bytes (f : ParsedFrame) : list Z :=
  FRAME_MAGIC ++ [FRAME_VERSION] ++ session_id f ++ [frame_index f] ++ [total_frames f] ++ [blen (fragment f)] ++ fragment f.

Record frame_ok (f : ParsedFrame) : Prop := {
  ok_id : length (session_id f) = 12%nat;
  ok_total : 2 <= total_frames f <= 64;
  ok_index : 0 <= frame_index f < total_frames f;
  ok_fragment : 1 <= blen (fragment f) <= 255;
}.

Lemma blen_frame_bytes f : frame_ok f -> blen (frame_bytes f) = 18 + blen (fragment f).
Proof.
  intros [H _ _ _]. assert (E : blen (session_id f) = 12) by (unfold blen; by rewrite H).
  unfold frame_bytes. rewrite !blen_app, E. change (blen FRAME_MAGIC) with 2. rewrite !blen_cons, !blen_nil. lia.
Qed.

Lemma encode_frame_spec f output :
  frame_ok f -> Z.max (18 + blen (fragment f)) 20 <= blen output ->
  encode_frame (session_id f) (frame_index f) (total_frames f) (fragment f) output =
    (Ok (Z.max (18 + blen (fragment f)) 20),
     frame_bytes f ++ replicate (Z.to_nat (Z.max (18 + blen (fragment f)) 20 - (18 + blen (fragment f)))) 0
       ++ drop (Z.to_nat (Z.max (18 + blen (fragment f)) 20)) output).
Proof.
  intros [Hid Ht Hi Hf] Hout. destruct f as [sid idx tot frag]. cbn [session_id frame_index total_frames fragment] in *.
  unfold encode_frame, MAX_FRAMES, u8_max. decide_tests. rewrite bool_decide_eq_false_2 by (intros ->; rewrite blen_nil in Hf; lia). cbn [orb].
  unfold checked_add. rewrite checked_u64_id by (unfold u64_ok, FRAME_HEADER_LEN, SESSION_ID_LEN; lia).
  unfold FRAME_HEADER_LEN, SESSION_ID_LEN, MIN_ENCODED_FRAME_LEN.
  change (2 + 1 + 12 + 1 + 1 + 1) with 18. set (d := Z.max (18 + blen frag) 20) in *. decide_tests.
  f_equal. rewrite (Z.mod_small (blen frag)) by lia.
  assert (Hsplit : exists zs, length zs = length frag /\
    copy_at output 0 (replicate (Z.to_nat d) 0) = [0; 0] ++ [0] ++ replicate 12 0 ++ [0] ++ [0] ++ [0] ++ zs ++
      replicate (Z.to_nat (d - (18 + blen frag))) 0 ++ drop (Z.to_nat d) output).
  { exists (replicate (length frag) 0). split; [apply length_replicate|]. unfold copy_at. cbn [Z.to_nat].
    rewrite take_0, length_replicate. cbn [app]. change (0 :: 0 :: 0 :: ?l) with (replicate 3 0 ++ l).
    replace (Z.to_nat d) with (3 + (12 + (3 + (length frag + Z.to_nat (d - (18 + blen frag))))))%nat at 1
      by (unfold blen in *; lia).
    rewrite !replicate_add, <- !app_assoc. done. }
  destruct Hsplit as (zs & Hzs & ->).
  set (T := replicate (Z.to_nat (d - _)) 0 ++ _).
  assert (Esid : blen sid = 12) by (unfold blen; by rewrite Hid).
  assert (Emag : blen FRAME_MAGIC = 2) by done.
  rewrite (copy_at_split _ [] [0; 0] ([0] ++ replicate 12 0 ++ [0] ++ [0] ++ [0] ++ zs ++ T) FRAME_MAGIC) by done.
  rewrite (copy_at_split _ FRAME_MAGIC [0] (replicate 12 0 ++ [0] ++ [0] ++ [0] ++ zs ++ T) [FRAME_VERSION]) by done.
  rewrite (copy_at_split _ (FRAME_MAGIC ++ [FRAME_VERSION]) (replicate 12 0) ([0] ++ [0] ++ [0] ++ zs ++ T) sid)
    by (done || app_eq || (rewrite length_replicate; done)).
  rewrite (copy_at_split _ (FRAME_MAGIC ++ [FRAME_VERSION] ++ sid) [0] ([0] ++ [0] ++ zs ++ T) [idx])
    by (done || app_eq || (rewrite !blen_app, Esid; done)).
  rewrite (copy_at_split _ (FRAME_MAGIC ++ [FRAME_VERSION] ++ sid ++ [idx]) [0] ([0] ++ zs ++ T) [tot])
    by (done || app_eq || (rewrite !blen_app, Esid; done)).
  rewrite (copy_at_split _ (FRAME_MAGIC ++ [FRAME_VERSION] ++ sid ++ [idx] ++ [tot]) [0] (zs ++ T) [blen frag])
    by (done || app_eq || (rewrite !blen_app, Esid; done)).
  rewrite (copy_at_split _ (FRAME_MAGIC ++ [FRAME_VERSION] ++ sid ++ [idx] ++ [tot] ++ [blen frag]) zs T frag)
    by (done || app_eq || (rewrite !blen_app, Esid; done)).
  unfold frame_bytes. cbn [session_id frame_index total_frames fragment]. by rewrite <- !app_assoc.
Qed.

Lemma existsb_nonzero_replicate k : existsb (fun byte => negb (byte =? 0)) (replicate k 0) = false.
Proof. induction k; done. Qed.

Lemma parse_frame_bytes f k : frame_ok f -> parse_frame (frame_bytes f ++ replicate k 0) = Ok f.
Proof.
  intros Hok. pose proof (blen_frame_bytes f Hok) as Hlen. destruct Hok as [Hid Ht Hi Hf].
  destruct f as [sid idx tot frag]. cbn [session_id frame_index total_frames fragment] in *.
  unfold parse_frame. set (data := frame_bytes _ ++ _).
  assert (Hd : data = FRAME_MAGIC ++ [FRAME_VERSION] ++ sid ++ [idx] ++ [tot] ++ [blen frag] ++ frag ++ replicate k 0).
  { subst data. unfold frame_bytes. cbn [session_id frame_index total_frames fragment]. by rewrite <- !app_assoc. }
  assert (Hblen : 18 + blen frag <= blen data) by (subst data; rewrite blen_app; pose proof (blen_nonneg (replicate k 0)); lia).
  assert (Hhead : validate_frame_header data = Ok tt).
  { unfold validate_frame_header, FRAME_HEADER_LEN, SESSION_ID_LEN. decide_tests. by rewrite Hd. }
  rewrite Hhead. cbn [rbind].
  assert (Hdrop : forall j, drop (3 + j) data = drop j (sid ++ [idx] ++ [tot] ++ [blen frag] ++ frag ++ replicate k 0))
    by (intros j; by rewrite Hd).
  assert (Hnth : forall j, data !! (15 + j)%nat = ([idx] ++ [tot] ++ [blen frag] ++ frag ++ replicate k 0) !! j).
  { intros j. rewrite Hd. change (FRAME_MAGIC ++ ?a ++ ?l) with (75 :: 81 :: 1 :: l). cbn [lookup list_lookup Nat.add].
    rewrite (lookup_app_r sid) by (rewrite Hid; lia). f_equal. rewrite Hid. lia. }
  unfold byte_at, SESSION_ID_LEN, FRAME_HEADER_LEN, SESSION_ID_LEN.
  change (Z.to_nat (3 + 12)) with (15 + 0)%nat. change (Z.to_nat (4 + 12)) with (15 + 1)%nat.
  change (Z.to_nat (5 + 12)) with (15 + 2)%nat. rewrite (Hnth 0%nat), (Hnth 1%nat), (Hnth 2%nat). cbn [lookup list_lookup default from_option Datatypes.id app].
  unfold validate_frame_index, MAX_FRAMES. decide_tests. cbn [rbind orb].
  unfold checked_add. rewrite checked_u64_id by (unfold u64_ok; lia). cbn [ok_or rbind].
  change (2 + 1 + 12 + 1 + 1 + 1) with 18. decide_tests.
  assert (Hend : drop (Z.to_nat (18 + blen frag)) data = replicate k 0).
  { subst data. rewrite drop_app_length'; [done|]. unfold blen in *. lia. }
  rewrite Hend, existsb_nonzero_replicate. f_equal. f_equal.
  - change 3%nat with (3 + 0)%nat. rewrite Hdrop, drop_0, take_app_length'; [done | by rewrite Hid].
  - change (Z.to_nat 18) with (3 + 15)%nat. rewrite Hdrop. rewrite drop_app_ge by lia. rewrite Hid. cbn.
    rewrite drop_0, take_app_length'; [done | unfold blen; lia].
Qed.

(** ** The producer *)

Section transfer.
Context (sha256 : list Z -> list Z).
Context (sha256_length : forall l, length (sha256 l) = 32%nat).
Abbreviation sid := (compute_session_id sha256).
Abbreviation frame_payloads := (Codec.frame_payloads sha256).
Abbreviation decode_payload := (Codec.decode_payload sha256).

Lemma length_sid data : length (sid data) = 12%nat.
Proof. unfold compute_session_id. rewrite length_take, sha256_length. done. Qed.

(** The pieces of a payload and the frame that carries each. *)
Definition pieces (data : list Z) : list (list Z) :=
  chunks (div_ceil (blen data) (div_ceil (blen data) MAX_FRAME_DATA)) data.
Definition piece_frame (data : list Z) (i : nat) : ParsedFrame :=
  {| session_id := sid data; frame_index := Z.of_nat i; total_frames := blen (pieces data);
     fragment := default [] (pieces data !! i) |}.
Definition piece_payload (data : list Z) (i : nat) : list Z :=
  frame_bytes (piece_frame data i) ++
  replicate (Z.to_nat (Z.max (18 + blen (fragment (piece_frame data i))) 20 - (18 + blen (fragment (piece_frame data i))))) 0.

Lemma pieces_spec data :
  134 < blen data <= 5824 ->
  concat (pieces data) = data /\ 2 <= blen (pieces data) <= 64 /\
  Forall (fun c => 1 <= blen c <= 91) (pieces data).
Proof.
  intros Hd. unfold pieces, chunks, div_ceil, MAX_FRAME_DATA. set (n := blen data) in *.
  set (tf := (n + 91 - 1) / 91). assert (Htf : 2 <= tf <= 64).
  { subst tf. split; [apply Z.div_le_lower_bound; lia|]. apply Z.lt_succ_r, Z.div_lt_upper_bound; lia. }
  assert (Htf2 : n <= 91 * tf) by (subst tf; pose proof (Z.div_mod (n + 91 - 1) 91); pose proof (Z.mod_pos_bound (n + 91 - 1) 91); lia).
  set (c := (n + tf - 1) / tf).
  assert (Hc : n <= tf * c /\ tf * c <= n + tf - 1).
  { subst c. pose proof (Z.div_mod (n + tf - 1) tf). pose proof (Z.mod_pos_bound (n + tf - 1) tf). lia. }
  assert (Hc1 : 1 <= c <= 91) by nia. assert (Hcn : c < n) by nia.
  destruct (concat_chunks_loop (length data) (Z.to_nat c) data) as [H1 H2]; [lia|lia|].
  split_and!; [done| | |].
  - unfold blen at 1. rewrite length_chunks_loop by lia. rewrite Nat2Z.inj_div.
    apply Z.div_le_lower_bound; unfold blen in *; subst n; lia.
  - unfold blen at 1. rewrite length_chunks_loop by lia. rewrite Nat2Z.inj_div.
    apply Z.lt_succ_r, Z.div_lt_upper_bound; [lia|]. unfold blen in *. subst n. nia.
  - eapply Forall_impl; [exact H2|]. intros l [Hne Hl]. unfold blen. destruct l; [done|]. cbn [length] in *. lia.
Qed.

Lemma piece_frame_ok data i :
  134 < blen data <= 5824 -> (i < length (pieces data))%nat -> frame_ok (piece_frame data i) /\ blen (fragment (piece_frame data i)) <= 91.
Proof.
  intros Hd Hi. destruct (pieces_spec data Hd) as (_ & Hn & HF).
  destruct (lookup_lt_is_Some_2 _ _ Hi) as [c Hc]. pose proof (proj1 (Forall_lookup _ _) HF i c Hc) as Hlen. cbn in Hlen.
  unfold piece_frame. rewrite Hc. cbn. split; [|lia]. split; cbn; [apply length_sid|lia| |lia]. unfold blen. lia.
Qed.

Lemma frame_payloads_pieces data :
  134 < blen data <= 5824 ->
  frame_payloads data = Ok (map (piece_payload data) (seq 0 (length (pieces data)))).
Proof.
  intros Hd. destruct (pieces_spec data Hd) as (_ & Hn & HF). unfold Codec.frame_payloads, SINGLE_FRAME_DATA.
  rewrite bool_decide_eq_false_2 by (intros ->; rewrite blen_nil in Hd; lia). decide_tests.
  assert (Htf : div_ceil (blen data) MAX_FRAME_DATA <= MAX_FRAMES).
  { unfold div_ceil, MAX_FRAME_DATA, MAX_FRAMES. apply Z.lt_succ_r, Z.div_lt_upper_bound; lia. }
  rewrite (proj2 (Z.ltb_ge _ _)) by lia. fold (pieces data). rewrite (Z.mod_small (blen (pieces data))) by lia.
  apply try_map_Ok. apply Forall2_same_length_lookup_2.
  - rewrite length_map, length_seq. unfold numbered. rewrite length_zip_with, length_seqZ. unfold blen. lia.
  - intros i [c j] payload Hl Hp. apply lookup_zip_with_Some in Hl as (c' & j' & [= -> ->] & Hc & Hj).
    apply lookup_seqZ in Hj as [-> Hj]. change (map (piece_payload data)) with (fmap (M := list) (piece_payload data)) in Hp.
    rewrite list_lookup_fmap_Some in Hp. destruct Hp as (i' & -> & Hi'). apply lookup_seq in Hi' as [-> Hi']. cbn [Nat.add].
    destruct (piece_frame_ok data i Hd Hi') as [Hok Hlen].
    pose proof (encode_frame_spec (piece_frame data i) (replicate (Z.to_nat SINGLE_FRAME_DATA) 0) Hok) as E.
    assert (Ef : fragment (piece_frame data i) = c') by (unfold piece_frame; cbn; by rewrite Hc).
    unfold encode_fragment. unfold piece_payload. rewrite !Ef in *.
    change (session_id (piece_frame data i)) with (sid data) in E.
    change (frame_index (piece_frame data i)) with (0 + Z.of_nat i) in E.
    change (total_frames (piece_frame data i)) with (blen (pieces data)) in E.
    rewrite E by (unfold blen at 2; rewrite length_replicate; unfold SINGLE_FRAME_DATA; lia).
    f_equal. rewrite app_assoc. apply take_app_length'. rewrite length_app, length_replicate.
    pose proof (blen_frame_bytes _ Hok) as Hb. rewrite Ef in Hb. unfold blen in *. lia.
Qed.

Lemma piece_parses data i :
  134 < blen data <= 5824 -> (i < length (pieces data))%nat -> parse_frame (piece_payload data i) = Ok (piece_frame data i).
Proof. intros Hd Hi. destruct (piece_frame_ok data i Hd Hi). by apply parse_frame_bytes. Qed.

(** ** The assembler *)

(** The decoder once the pieces in [S] have been seen. *)
Definition collected (data : list Z) (S : gset nat) : DecoderState := {|
  d_session_id := sid data; session_active := true; d_total_frames := blen (pieces data);
  received := map (fun i => bool_decide (i ∈ S)) (seq 0 64);
  fragments := map (fun i => if bool_decide (i ∈ S) then default [] (pieces data !! i) else []) (seq 0 64) |}.
Definition state_of (data : list Z) (S : gset nat) : DecoderState :=
  if bool_decide (S = ∅) then new_decoder else collected data S.

Lemma lookup_map_seq {A} (f : nat -> A) n i : (i < n)%nat -> map f (seq 0 n) !! i = Some (f i).
Proof.
  intros Hi. change (map f) with (fmap (M := list) f). apply list_lookup_fmap_Some. exists i. split; [done|].
  by apply lookup_seq.
Qed.

Lemma insert_map_seq {A} (f g : nat -> A) n i :
  (forall j, j <> i -> f j = g j) -> <[i := g i]> (map f (seq 0 n)) = map g (seq 0 n).
Proof.
  intros Hfg. apply list_eq. intros j. destruct (decide (j < n)%nat) as [Hj|Hj].
  - rewrite (lookup_map_seq g) by done. destruct (decide (i = j)) as [->|Hne].
    + apply list_lookup_insert_eq. by rewrite length_map, length_seq.
    + rewrite list_lookup_insert_ne by done. rewrite lookup_map_seq by done. by rewrite Hfg.
  - rewrite !lookup_ge_None_2; [done| |]; rewrite ?length_insert, length_map, length_seq; lia.
Qed.

Lemma accept_piece data S :
  accept_session (sid data) (blen (pieces data)) (state_of data S) = (Ok tt, collected data S).
Proof.
  unfold state_of, accept_session. case_bool_decide as HS; cbn [session_active].
  - subst S. reflexivity.
  - cbn [collected session_active d_session_id d_total_frames]. unfold Security.authorize_frame_session. cbn [negb].
    rewrite (proj2 (list_Z_eqb_eq _ _)) by done. by rewrite Z.eqb_refl.
Qed.

Definition full (data : list Z) (S : gset nat) : Prop := forall i, (i < length (pieces data))%nat -> i ∈ S.

Lemma take_map_seq {A} (f : nat -> A) n m : (n <= m)%nat -> take n (map f (seq 0 m)) = map f (seq 0 n).
Proof. intros Hn. rewrite firstn_map. f_equal. rewrite take_seq. f_equal. lia. Qed.

Lemma all_received data S :
  blen (pieces data) <= 64 ->
  forallb (fun received => received) (take (length (pieces data)) (received (collected data S))) = true <-> full data S.
Proof.
  intros Hn. cbn [collected received]. rewrite take_map_seq by (unfold blen in Hn; lia).
  rewrite forallb_map, forallb_forall. unfold full. split.
  - intros H i Hi. apply (bool_decide_eq_true (i ∈ S)), H, in_seq. lia.
  - intros H i Hi%in_seq. apply bool_decide_eq_true, H. lia.
Qed.

Lemma collected_fragments data S :
  blen (pieces data) <= 64 -> full data S ->
  take (length (pieces data)) (fragments (collected data S)) = pieces data.
Proof.
  intros Hn Hf. cbn [collected fragments]. rewrite take_map_seq by (unfold blen in Hn; lia).
  apply list_eq. intros i. destruct (decide (i < length (pieces data))%nat) as [Hi|Hi].
  - rewrite lookup_map_seq by done. rewrite bool_decide_eq_true_2 by (by apply Hf).
    destruct (lookup_lt_is_Some_2 _ _ Hi) as [c Hc]. by rewrite Hc.
  - rewrite !lookup_ge_None_2; [done|lia|]. rewrite length_map, length_seq. lia.
Qed.

Lemma reset_collected data S : reset (collected data S) = new_decoder.
Proof.
  unfold reset, new_decoder, collected. cbn [d_session_id fragments]. rewrite length_sid. f_equal.
Qed.

Lemma step_collected data S i :
  (i < 64)%nat ->
  {| d_session_id := d_session_id (collected data S); session_active := session_active (collected data S);
     d_total_frames := d_total_frames (collected data S); received := <[i := true]> (received (collected data S));
     fragments := <[i := fragment (piece_frame data i)]> (fragments (collected data S)) |}
  = collected data ({[i]} ∪ S).
Proof.
  intros Hi. unfold collected. cbn [d_session_id session_active d_total_frames received fragments]. f_equal.
  - rewrite <- (bool_decide_eq_true_2 (i ∈ ({[i]} ∪ S : gset nat))) by set_solver.
    set (g := fun j : nat => bool_decide (j ∈ ({[i]} ∪ S : gset nat))). change (bool_decide _) with (g i) at 1.
    apply insert_map_seq. subst g. cbn beta. intros j Hj. apply bool_decide_ext. set_solver.
  - assert (E : fragment (piece_frame data i)
      = if bool_decide (i ∈ ({[i]} ∪ S : gset nat)) then default [] (pieces data !! i) else []).
    { rewrite bool_decide_eq_true_2 by set_solver. done. }
    set (g := fun j : nat => if bool_decide (j ∈ ({[i]} ∪ S : gset nat)) then default [] (pieces data !! j) else []).
    rewrite E. change (if bool_decide _ then _ else _) with (g i) at 1.
    apply insert_map_seq. subst g. cbn beta. intros j Hj. rewrite (bool_decide_ext (j ∈ S) (j ∈ ({[i]} ∪ S : gset nat))); [done|set_solver].
Qed.

(** One frame of the payload. *)
Lemma decode_piece data S i :
  134 < blen data <= 5824 -> (i < length (pieces data))%nat ->
  (i ∈ S -> decode_payload (piece_payload data i) (state_of data S) = (Ok None, state_of data S)) /\
  (i ∉ S -> full data ({[i]} ∪ S) ->
    decode_payload (piece_payload data i) (state_of data S) = (Ok (Some data), new_decoder)) /\
  (i ∉ S -> ~ full data ({[i]} ∪ S) ->
    decode_payload (piece_payload data i) (state_of data S) = (Ok None, state_of data ({[i]} ∪ S))).
Proof.
  intros Hd Hi. destruct (pieces_spec data Hd) as (Hcat & Hn & _).
  assert (Hi64 : (i < 64)%nat) by (unfold blen in Hn; lia).
  unfold Codec.decode_payload. rewrite (piece_parses data i Hd Hi). unfold Codec.absorb, bind.
  change (session_id (piece_frame data i)) with (sid data). change (total_frames (piece_frame data i)) with (blen (pieces data)).
  rewrite accept_piece. replace (Z.to_nat (frame_index (piece_frame data i))) with i by (cbn; lia).
  assert (Hrec : received (collected data S) !! i = Some (bool_decide (i ∈ S))) by (by apply (lookup_map_seq (fun i => bool_decide (i ∈ S)))).
  rewrite Hrec. cbn [default from_option]. unfold Datatypes.id. split_and!.
  - intros HiS. rewrite bool_decide_eq_true_2 by done.
    assert (Hfrag : fragments (collected data S) !! i = Some (fragment (piece_frame data i))).
    { cbn [collected fragments]. rewrite lookup_map_seq by done. by rewrite bool_decide_eq_true_2. }
    rewrite Hfrag. cbn [default from_option]. unfold Datatypes.id. rewrite (proj2 (list_Z_eqb_eq _ _)) by done.
    unfold state_of. rewrite bool_decide_eq_false_2 by set_solver. done.
  - intros HiS Hf. rewrite bool_decide_eq_false_2 by done. rewrite step_collected by done.
    unfold Codec.assembled. cbn [d_total_frames collected].
    replace (Z.to_nat (blen (pieces data))) with (length (pieces data)) by (unfold blen; lia).
    fold (collected data ({[i]} ∪ S)).
    rewrite (proj2 (all_received data ({[i]} ∪ S) ltac:(lia)) Hf). cbn [negb].
    rewrite (collected_fragments data ({[i]} ∪ S)) by (lia || done). rewrite Hcat.
    unfold verify_session. cbn [d_session_id collected]. rewrite (proj2 (list_Z_eqb_eq _ _)) by done. cbn [negb].
    fold (collected data ({[i]} ∪ S)). by rewrite reset_collected.
  - intros HiS Hf. rewrite bool_decide_eq_false_2 by done. rewrite step_collected by done.
    unfold Codec.assembled. cbn [d_total_frames collected].
    replace (Z.to_nat (blen (pieces data))) with (length (pieces data)) by (unfold blen; lia).
    fold (collected data ({[i]} ∪ S)).
    destruct (forallb _ _) eqn:E; [by apply all_received in E; [|lia]|]. cbn [negb].
    unfold state_of. rewrite bool_decide_eq_false_2 by set_solver. done.
Qed.
(** ** Streams of scans *)

Fixpoint feed (stream : list (list Z)) (st : DecoderState) : list (result (option (list Z)) QrError) * DecoderState :=
  match stream with
  | [] => ([], st)
  | payload :: stream' =>
      let '(answer, st) := decode_payload payload st in
      let '(answers, st) := feed stream' st in (answer :: answers, st)
  end.

Lemma feed_pieces data js S :
  134 < blen data <= 5824 -> Forall (fun j => (j < length (pieces data))%nat) js -> ~ full data (list_to_set js ∪ S) ->
  feed (map (piece_payload data) js) (state_of data S)
    = (replicate (length js) (Ok None), state_of data (list_to_set js ∪ S)).
Proof.
  intros Hd Hjs. revert S. induction Hjs as [|j js Hj _ IH]; intros S Hf; cbn [map feed list_to_set length replicate].
  - by rewrite union_empty_l_L.
  - destruct (decode_piece data S j Hd Hj) as (D1 & _ & D3).
    assert (E : decode_payload (piece_payload data j) (state_of data S) = (Ok None, state_of data ({[j]} ∪ S))).
    { destruct (decide (j ∈ S)) as [Hin|Hout].
      - rewrite D1 by done. by rewrite (subseteq_union_1_L {[j]} S) by set_solver.
      - apply D3; [done|]. intros Hx. apply Hf. intros i Hi. specialize (Hx i Hi). set_solver. }
    rewrite E.
    assert (Es : list_to_set js ∪ ({[j]} ∪ S) = {[j]} ∪ list_to_set js ∪ S) by set_solver.
    rewrite IH by (by rewrite Es). by rewrite Es.
Qed.

Lemma piece_payload_inj data i j :
  134 < blen data <= 5824 -> (i < length (pieces data))%nat -> (j < length (pieces data))%nat ->
  piece_payload data i = piece_payload data j -> i = j.
Proof.
  intros Hd Hi Hj E. pose proof (piece_parses data i Hd Hi) as H1. rewrite E, (piece_parses data j Hd Hj) in H1.
  injection H1 as H1 _. lia.
Qed.

Lemma stream_indices data stream :
  Forall (fun f => f ∈ map (piece_payload data) (seq 0 (length (pieces data)))) stream ->
  exists js, stream = map (piece_payload data) js /\ Forall (fun j => (j < length (pieces data))%nat) js.
Proof.
  induction 1 as [|f stream Hf _ (js & -> & Hjs)]; [by exists []|].
  change (map (piece_payload data)) with (fmap (M := list) (piece_payload data)) in Hf.
  apply list_elem_of_fmap in Hf as (j & -> & Hj). exists (j :: js). split; [done|]. constructor; [|done].
  apply list_elem_of_In, in_seq in Hj. lia.
Qed.

Lemma frame_payloads_domain data : is_ok (frame_payloads data) = (1 <=? blen data) && (blen data <=? 5824).
Proof.
  destruct (decide (134 < blen data <= 5824)) as [Hd|Hd].
  { rewrite frame_payloads_pieces by done. by decide_tests. }
  unfold Codec.frame_payloads, SINGLE_FRAME_DATA. case_bool_decide as Hnil; [by subst|].
  assert (1 <= blen data) by (destruct data; [done|]; rewrite blen_cons; pose proof (blen_nonneg data); lia).
  destruct (Z.leb_spec (blen data) 134); [by decide_tests|].
  assert (Htf : MAX_FRAMES < div_ceil (blen data) MAX_FRAME_DATA).
  { unfold div_ceil, MAX_FRAME_DATA, MAX_FRAMES. apply Z.lt_le_trans with 65; [lia|]. apply Z.div_le_lower_bound; lia. }
  rewrite (proj2 (Z.ltb_lt _ _)) by done. by decide_tests.
Qed.

(** C29: every payload of 1 to 5824 bytes, and no other, is turned into
    codes; one that needs several is cut into codes of at most 134 bytes, and
    whoever scans them in any order, with any repetition, gets no answer
    until the last missing code, then exactly the payload, and a decoder
    ready for the next transfer. *)
Theorem qr_transfer_any_order (data : list Z) :
  is_ok (frame_payloads data) = (1 <=? blen data) && (blen data <=? 5824) /\
  (134 < blen data <= 5824 ->
   exists frames, frame_payloads data = Ok frames /\ Forall (fun f => blen f <= 134) frames /\
     forall stream, Forall (fun f => f ∈ frames) stream ->
       (exists f, f ∈ frames /\ f ∉ stream) ->
       let '(answers, st) := feed stream new_decoder in
       answers = replicate (length stream) (Ok None) /\
       forall last, last ∈ frames -> last ∉ stream -> (forall g, g ∈ frames -> g = last \/ g ∈ stream) ->
         decode_payload last st = (Ok (Some data), new_decoder)).
Proof.
  split; [apply frame_payloads_domain|]. intros Hd. eexists. split; [by apply frame_payloads_pieces|].
  change (map (piece_payload data) (seq 0 ?n)) with (piece_payload data <$> seq 0 n).
  assert (Hel : forall f, f ∈ piece_payload data <$> seq 0 (length (pieces data)) <->
    exists i, f = piece_payload data i /\ (i < length (pieces data))%nat).
  { intros f. rewrite list_elem_of_fmap. split; intros (i & -> & Hi); exists i; (split; [done|]).
    - apply list_elem_of_In, in_seq in Hi. lia.
    - apply list_elem_of_In, in_seq. lia. }
  split.
  { apply Forall_forall. intros f (i & -> & Hi)%Hel. destruct (piece_frame_ok data i Hd Hi) as [Hok Hlen].
    unfold piece_payload. rewrite blen_app, blen_frame_bytes by done. unfold blen at 2. rewrite length_replicate.
    pose proof (ok_fragment _ Hok). lia. }
  intros stream Hst (f & (i & -> & Hi)%Hel & Hmiss). destruct (stream_indices data stream Hst) as (js & -> & Hjs).
  assert (Hnotin : forall k, (k < length (pieces data))%nat -> piece_payload data k ∉ map (piece_payload data) js -> k ∉ js).
  { intros k Hk Hn Hin. apply Hn. change (map ?f) with (fmap (M := list) f). by apply list_elem_of_fmap_2. }
  assert (Hnf : ~ full data (list_to_set js ∪ ∅)).
  { intros Hf. specialize (Hf i Hi). rewrite union_empty_r_L in Hf. apply elem_of_list_to_set in Hf. by apply (Hnotin i). }
  change new_decoder with (state_of data ∅) at 1. rewrite feed_pieces by done. rewrite length_map. split; [done|].
  intros last (k & -> & Hk)%Hel Hlast Hall. apply (decode_piece data _ k Hd Hk).
  - rewrite union_empty_r_L, elem_of_list_to_set. by apply Hnotin.
  - intros g Hg. rewrite union_empty_r_L. apply elem_of_union. specialize (Hall (piece_payload data g)).
    destruct Hall as [E | Hin]; [apply Hel; by exists g | left | right].
    + apply elem_of_singleton. by apply (piece_payload_inj data).
    + apply elem_of_list_to_set. change (map ?f) with (fmap (M := list) f) in Hin.
      apply list_elem_of_fmap in Hin as (g' & E & Hin'). rewrite (piece_payload_inj data g g' Hd Hg); [done| |done].
      by apply (proj1 (Forall_forall _ _) Hjs).
Qed.

(** ** Hostile scans *)

(** What every reachable decoder satisfies. *)
Record decoder_ok (st : DecoderState) : Prop := {
  dec_id : length (d_session_id st) = 12%nat;
  dec_received : length (received st) = 64%nat;
  dec_fragments : length (fragments st) = 64%nat;
  dec_total : 0 <= d_total_frames st <= 64;
}.

Lemma reset_new st : decoder_ok st -> reset st = new_decoder.
Proof.
  intros [H1 _ H3 _]. unfold reset, new_decoder. rewrite H1. f_equal.
  apply list_eq. intros i. destruct (decide (i < 64)%nat).
  - change (map (fun _ : list Z => []) (fragments st)) with ((fun _ : list Z => @nil Z) <$> fragments st).
    rewrite list_lookup_fmap. destruct (lookup_lt_is_Some_2 (fragments st) i) as [x ->]; [lia|]. cbn.
    symmetry. by apply lookup_replicate_2.
  - rewrite !lookup_ge_None_2; [done| |]; rewrite ?length_replicate, ?length_map;
      change (Z.to_nat MAX_FRAMES) with 64%nat; lia.
Qed.

Lemma byte_at_nonneg data i : bytes_ok data -> 0 <= byte_at data i.
Proof.
  intros Hb. unfold byte_at. destruct (data !! Z.to_nat i) as [b|] eqn:E; [|apply Z.le_refl].
  pose proof (proj1 (Forall_lookup _ _) Hb _ _ E) as Hbyte. unfold byte_ok in Hbyte. apply Hbyte.
Qed.

Lemma parse_frame_ranges payload f :
  bytes_ok payload -> parse_frame payload = Ok f ->
  length (session_id f) = 12%nat /\ 2 <= total_frames f <= 64 /\ 0 <= frame_index f < total_frames f.
Proof.
  intros Hb H. unfold parse_frame in H. apply rbind_Ok_inv in H as ([] & Hh & H). apply rbind_Ok_inv in H as ([] & Hx & H).
  apply rbind_Ok_inv in H as (e & He & H). destruct (blen payload <? e); [done|]. destruct (existsb _ _); [done|].
  injection H as <-. cbn [session_id total_frames frame_index]. unfold validate_frame_header in Hh.
  destruct (Z.ltb_spec (blen payload) FRAME_HEADER_LEN) as [|Hlen]; [done|]. unfold FRAME_HEADER_LEN, SESSION_ID_LEN in Hlen.
  unfold validate_frame_index in Hx. set (tot := byte_at payload (4 + SESSION_ID_LEN)) in *.
  set (idx := byte_at payload (3 + SESSION_ID_LEN)) in *.
  pose proof (byte_at_nonneg payload (3 + SESSION_ID_LEN) Hb) as Hidx. fold idx in Hidx.
  unfold MAX_FRAMES in Hx. destruct (Z.ltb_spec tot 2), (Z.ltb_spec 64 tot), (Z.leb_spec tot idx); try done.
  split_and!; [|lia..]. rewrite length_take, length_drop. unfold SESSION_ID_LEN. unfold blen in Hlen. lia.
Qed.

Lemma absorb_spec f st :
  length (session_id f) = 12%nat -> 2 <= total_frames f <= 64 -> 0 <= frame_index f < total_frames f -> decoder_ok st ->
  let '(r, st') := Codec.absorb sha256 f st in
  decoder_ok st' /\
  (forall p, r = Ok (Some p) -> sid p = session_id f /\
     exists F, length F = Z.to_nat (total_frames f) /\ p = concat F /\ F !! Z.to_nat (frame_index f) = Some (fragment f)).
Proof.
  intros Hid Ht Hi Hok. unfold Codec.absorb, bind, accept_session.
  destruct (Security.authorize_frame_session _ _ _ _ _) as [[]|] eqn:Ha; cbn [is_ok negb]; [|done].
  assert (Hst : exists st1, (if negb (session_active st) then (Ok tt : result unit QrError, {| d_session_id := session_id f;
      session_active := true; d_total_frames := total_frames f; received := received st; fragments := fragments st |})
      else (Ok tt, st)) = (Ok tt, st1) /\ decoder_ok st1 /\ d_session_id st1 = session_id f /\ d_total_frames st1 = total_frames f).
  { destruct Hok. destruct (session_active st) eqn:Hact; cbn [negb]; eexists; (split; [reflexivity|]).
    - unfold Security.authorize_frame_session in Ha. cbn [negb] in Ha.
      destruct (list_Z_eqb (d_session_id st) (session_id f)) eqn:E1; [|done].
      destruct (Z.eqb_spec (d_total_frames st) (total_frames f)); [|done]. apply list_Z_eqb_eq in E1. done.
    - split_and!; [split; cbn; try done; lia|done|done]. }
  destruct Hst as (st1 & -> & Hok1 & E1 & E2). destruct (default false _); [split; [done|]|].
  { intros p Hp. by destruct (list_Z_eqb _ _). }
  set (st2 := {| received := <[_ := true]> _ |}).
  assert (Hok2 : decoder_ok st2) by (destruct Hok1; split; cbn; rewrite ?length_insert; done).
  split; [done|]. intros p Hp. unfold Codec.assembled in Hp. destruct (negb (forallb _ _)); [done|].
  destruct (verify_session _ _ _) eqn:Hv; [|done]. cbn [negb] in Hp. injection Hp as <-.
  apply list_Z_eqb_eq in Hv. change (d_session_id st2) with (d_session_id st1) in Hv. split; [by rewrite <- E1 |].
  eexists. split; [|split; [reflexivity|]]; cbn [d_total_frames fragments st2]; rewrite E2.
  - rewrite length_take, length_insert, (dec_fragments _ Hok1). lia.
  - rewrite lookup_take_lt by lia. apply list_lookup_insert_eq. rewrite (dec_fragments _ Hok1). lia.
Qed.

Lemma decode_payload_ok payload st :
  bytes_ok payload -> decoder_ok st -> decoder_ok (decode_payload payload st).2.
Proof.
  intros Hb Hok. unfold Codec.decode_payload. destruct (parse_frame payload) as [f|] eqn:E; [|done].
  destruct (parse_frame_ranges payload f Hb E) as (H1 & H2 & H3). pose proof (absorb_spec f st H1 H2 H3 Hok) as H.
  destruct (Codec.absorb sha256 f st) as [r st']. destruct H as [Hok' _].
  assert (Hnew : decoder_ok new_decoder) by (split; cbn; (done || lia)).
  destruct r as [[p|]|]; cbn [snd]; rewrite ?(reset_new st') by done; done.
Qed.

(** Whatever is scanned, the decoder stays within its arrays, and it
    only ever returns a payload whose digest is the identifier of the frames
    it was made of and that holds the last frame's fragment at that frame's
    place. A returned payload or a rejected frame empties the decoder; a scan
    that is no frame changes nothing. *)
Theorem qr_decoder_integrity (stream : list (list Z)) (payload : list Z) :
  Forall bytes_ok stream -> bytes_ok payload ->
  let st := (feed stream new_decoder).2 in
  decoder_ok st /\
  match parse_frame payload with
  | Err error => decode_payload payload st = (Err (InvalidFrame error), st)
  | Ok f =>
      let '(r, st') := decode_payload payload st in
      match r with
      | Ok None => decoder_ok st'
      | Ok (Some p) => st' = new_decoder /\ sid p = session_id f /\
          exists F, length F = Z.to_nat (total_frames f) /\ p = concat F /\ F !! Z.to_nat (frame_index f) = Some (fragment f)
      | Err _ => st' = new_decoder
      end
  end.
Proof.
  intros Hs Hb st.
  assert (Hst : decoder_ok st).
  { subst st. assert (Hnew : decoder_ok new_decoder) by (split; cbn; (done || lia)). revert Hnew. generalize new_decoder.
    induction Hs as [|x stream Hx _ IH]; intros st Hok; cbn [feed]; [done|].
    pose proof (decode_payload_ok x st Hx Hok) as Hok'. destruct (decode_payload x st) as [answer st']. cbn [snd] in Hok'.
    specialize (IH st' Hok'). by destruct (feed stream st'). }
  clearbody st. split; [done|]. unfold Codec.decode_payload. destruct (parse_frame payload) as [f|] eqn:E; [|done].
  destruct (parse_frame_ranges payload f Hb E) as (H1 & H2 & H3). pose proof (absorb_spec f st H1 H2 H3 Hst) as H.
  destruct (Codec.absorb sha256 f st) as [r st']. destruct H as [Hok' H].
  destruct r as [[p|]|]; rewrite ?(reset_new st') by done; [|done|done].
  destruct (H p eq_refl) as [? ?]. done.
Qed.
End transfer.

(** A digest of the right length, for concrete runs. *)
Definition sum_digest (l : list Z) : list Z := replicate 32 (fold_left Z.add l 0 mod 256).
Lemma sum_digest_length l : length (sum_digest l) = 32%nat.
Proof. apply length_replicate. Qed.
Definition sample_data : list Z := map (fun i => i mod 251) (seqZ 0 200).

Lemma qr_transfer_any_order_witness :
  exists f0 f1 f2, frame_payloads sum_digest sample_data = Ok [f0; f1; f2] /\
    (feed sum_digest [f2; f1; f2] new_decoder).1 = [Ok None; Ok None; Ok None] /\
    decode_payload sum_digest f0 (feed sum_digest [f2; f1; f2] new_decoder).2 = (Ok (Some sample_data), new_decoder).
Proof.
  destruct (qr_transfer_any_order sum_digest sum_digest_length sample_data) as [_ H].
  destruct (H ltac:(by_decide)) as (frames & E & _ & Hrun).
  assert (E' : exists f0 f1 f2, frame_payloads sum_digest sample_data = Ok [f0; f1; f2] /\ bool_decide (f0 ∈ [f2; f1; f2]) = false).
  { eexists _, _, _. split; [vm_compute; reflexivity | vm_compute; reflexivity]. }
  destruct E' as (f0 & f1 & f2 & E' & Hd%bool_decide_eq_false). exists f0, f1, f2. split; [exact E'|].
  rewrite E' in E. injection E as <-.
  specialize (Hrun [f2; f1; f2]). destruct (feed sum_digest [f2; f1; f2] new_decoder) as [answers st].
  destruct Hrun as [-> Hlast].
  - clear. repeat constructor; set_solver.
  - exists f0. split; [left | exact Hd].
  - split; [reflexivity|]. apply Hlast; [left | exact Hd | clear; set_solver].
Defined.

Lemma qr_decoder_integrity_witness :
  decoder_ok (feed sum_digest [str "KQ"; []] new_decoder).2 /\
  decode_payload sum_digest [1; 2; 3] new_decoder = (Err (InvalidFrame InvalidHeader), new_decoder).
Proof.
  split.
  - apply (qr_decoder_integrity sum_digest [str "KQ"; []] []); [by_decide | by_decide].
  - pose proof (qr_decoder_integrity sum_digest [] [1; 2; 3] ltac:(by_decide) ltac:(by_decide)) as [_ H].
    assert (E : parse_frame [1; 2; 3] = Err InvalidHeader) by reflexivity. rewrite E in H. exact H.
Defined.
