(* ===== verification/Covenants.v ===== *)
(** * Covenant redeem scripts

    The builders and recognizers of [src/src/contract/covenant/script]:
    escrow, time-locked escrow, Piggy Bank, time-locked savings, allowance and
    global allowance, spending limit, dead man's switch, Oracle-v1, PayJoin
    and Private Swap. A builder appends to one script buffer; it is modelled
    as the list of its calls on that buffer, in source order. *)

From S2P Require Import Prelude Script.
Import Script.Opcode.

(** ** Writing on a script buffer *)

(** One call: [s.push(byte)], [s.extend_from_slice(bytes)], [push_pubkey],
    [push_data] or [push_int]. *)
Inductive Piece :=
  | Op (byte : Z)
  | Extend (bytes : list Z)
  | Pubkey (key : list Z)
  | Data (bytes : list Z)
  | Int (value : Z).

Definition emit (script : list Z) (piece : Piece) : list Z :=
  match piece with
  | Op byte => script ++ [byte]
  | Extend bytes => script ++ bytes
  | Pubkey key => push_pubkey script key
  | Data bytes => push_data script bytes
  | Int value => push_int script value
  end.

Definition assemble (pieces : list Piece) : list Z := foldl emit [] pieces.

(** ** Reading recognized fields *)

(** [slice.try_into().ok()] for a [[u8; n]]. *)
Definition array (n : Z) (bytes : list Z) : option (list Z) :=
  if blen bytes =? n then Some bytes else None.

(** [elements.get(at)?.data]. *)
Definition data_at (elements : list Element) (at_ : nat) : option (list Z) :=
  data <$> elements !! at_.
Definition array_at (n : Z) (elements : list Element) (at_ : nat) : option (list Z) :=
  data ← data_at elements at_; array n data.
Definition integer_at (elements : list Element) (at_ : nat) : option Z :=
  element ← elements !! at_; element_integer element.
(** [data.get(i..)]. *)
Definition get_from (bytes : list Z) (i : Z) : option (list Z) := slice bytes i (blen bytes).

(** [.ok()?] on a walk over the script, then the integer if there is one. *)
Definition walked {E} (r : result (option Z) E) : option (option Z) :=
  match r with Ok found => Some found | Err _ => None end.

(** [(rebuilt == script).then_some(fields)]. *)
Definition if_rebuilt {F} (rebuilt script : list Z) (fields : F) : option F :=
  if list_Z_eqb rebuilt script then Some fields else None.

(** ** [escrow.rs] *)

Module Escrow.

Record EscrowFields := {
  alice_pubkey : list Z;
  bob_pubkey : list Z;
  arbiter_pubkey : list Z;
  alice_spk : list Z;
  bob_spk : list Z;
  salt : list Z;
}.

Definition build_escrow_script (alice_pubkey bob_pubkey arbiter_pubkey alice_spk bob_spk salt : list Z) : list Z :=
  let bob_spk_full := [0x00; 0x00] ++ bob_spk in
  let alice_spk_full := [0x00; 0x00] ++ alice_spk in
  assemble [
    Op 0x08; Extend salt; Op OP_DROP;
    Op OP_IF; Pubkey alice_pubkey; Op OP_CHECKSIGVERIFY;
    Int 0; Op OP_TX_OUTPUT_SPK; Data bob_spk_full; Op OP_EQUALVERIFY; Op 0x51;
    Op OP_ELSE;
    Op OP_IF; Pubkey bob_pubkey; Op OP_CHECKSIGVERIFY;
    Int 0; Op OP_TX_OUTPUT_SPK; Data alice_spk_full; Op OP_EQUALVERIFY; Op 0x51;
    Op OP_ELSE;
    Op OP_IF; Pubkey arbiter_pubkey; Op OP_CHECKSIGVERIFY;
    Op OP_IF; Int 0; Op OP_TX_OUTPUT_SPK; Data bob_spk_full; Op OP_EQUALVERIFY; Op 0x51;
    Op OP_ELSE; Int 0; Op OP_TX_OUTPUT_SPK; Data alice_spk_full; Op OP_EQUALVERIFY; Op 0x51;
    Op OP_ENDIF;
    Op OP_ELSE;
    Op OP_IF; Pubkey alice_pubkey; Op OP_CHECKSIGVERIFY;
    Op OP_ELSE; Pubkey bob_pubkey; Op OP_CHECKSIGVERIFY;
    Op OP_ENDIF;
    Op OP_TX_INPUT_INDEX; Op OP_TX_INPUT_SPK; Int 0; Op OP_TX_OUTPUT_SPK; Op OP_EQUALVERIFY; Op 0x51;
    Op OP_ENDIF; Op OP_ENDIF; Op OP_ENDIF].

Definition escrow_script_fields (script : list Z) : option EscrowFields :=
  elements ← complete_elements script;
  salt ← array_at 8 elements 0;
  alice_pubkey ← array_at 32 elements 3;
  bob_spk ← (data ← data_at elements 7; get_from data 2);
  bob_pubkey ← array_at 32 elements 12;
  alice_spk ← (data ← data_at elements 16; get_from data 2);
  arbiter_pubkey ← array_at 32 elements 21;
  if_rebuilt (build_escrow_script alice_pubkey bob_pubkey arbiter_pubkey alice_spk bob_spk salt) script
    {| alice_pubkey := alice_pubkey; bob_pubkey := bob_pubkey; arbiter_pubkey := arbiter_pubkey;
       alice_spk := alice_spk; bob_spk := bob_spk; salt := salt |}.

Definition build_timelocked_escrow_script (alice_pubkey bob_pubkey alice_spk bob_spk : list Z)
    (locktime_daa : Z) : list Z :=
  let bob_spk_full := [0x00; 0x00] ++ bob_spk in
  let alice_spk_full := [0x00; 0x00] ++ alice_spk in
  assemble [
    Op OP_IF; Pubkey alice_pubkey; Op OP_CHECKSIGVERIFY;
    Int 0; Op OP_TX_OUTPUT_SPK; Data bob_spk_full; Op OP_EQUAL;
    Op OP_ELSE;
    Op OP_IF; Pubkey bob_pubkey; Op OP_CHECKSIGVERIFY;
    Int 0; Op OP_TX_OUTPUT_SPK; Data alice_spk_full; Op OP_EQUAL;
    Op OP_ELSE; Int locktime_daa; Op OP_CHECKLOCKTIMEVERIFY;
    Int 0; Op OP_TX_OUTPUT_SPK; Data alice_spk_full; Op OP_EQUAL;
    Op OP_ENDIF; Op OP_ENDIF].

End Escrow.

(** ** [savings.rs] *)

Module Savings.

Definition build_piggy_bank_script (owner_pubkey : list Z) (threshold_sompi deadline_daa : Z)
    (salt : list Z) : list Z :=
  let has_conditions := (0 <? threshold_sompi) || (0 <? deadline_daa) in
  assemble (
    [Op 0x08; Extend salt; Op OP_DROP; Op OP_IF; Pubkey owner_pubkey] ++
    (if has_conditions then
       [Op OP_CHECKSIGVERIFY; Op OP_IF] ++
       (if 0 <? threshold_sompi
        then [Op 0x00; Op OP_TX_OUTPUT_AMOUNT; Int threshold_sompi; Op OP_GREATERTHANOREQUAL]
        else [Op 0x00]) ++
       [Op OP_ELSE] ++
       (if 0 <? deadline_daa
        then [Int deadline_daa; Op OP_CHECKLOCKTIMEVERIFY; Op 0x51]
        else [Op 0x00]) ++
       [Op OP_ENDIF]
     else [Op OP_CHECKSIG]) ++
    [Op OP_ELSE; Op OP_TX_INPUT_INDEX; Op OP_TX_INPUT_SPK; Op OP_TX_INPUT_INDEX; Op OP_TX_OUTPUT_SPK;
     Op OP_EQUALVERIFY; Op OP_TX_INPUT_INDEX; Op OP_TX_OUTPUT_AMOUNT; Op OP_TX_INPUT_INDEX;
     Op OP_TX_INPUT_AMOUNT; Op OP_GREATERTHANOREQUAL; Op OP_ENDIF]).

Definition build_timelocked_savings_script (wallet1_pubkey wallet2_pubkey : list Z) (locktime_daa : Z) : list Z :=
  assemble [
    Op OP_IF; Pubkey wallet1_pubkey; Op OP_CHECKSIGVERIFY;
    Int locktime_daa; Op OP_CHECKLOCKTIMEVERIFY; Op OP_1;
    Op OP_ELSE; Pubkey wallet2_pubkey; Op OP_CHECKSIGVERIFY;
    Int locktime_daa; Op OP_CHECKLOCKTIMEVERIFY; Op OP_1;
    Op OP_ENDIF].

Record PiggyBankFields := {
  owner_pubkey : list Z;
  threshold_sompi : Z;
  deadline_daa : Z;
  salt : list Z;
}.

Definition piggy_bank_script_fields (script : list Z) : option PiggyBankFields :=
  elements ← complete_elements script;
  salt ← array_at 8 elements 0;
  owner_pubkey ← array_at 32 elements 3;
  goal ← walked (find_preceding_script_integer script OP_GREATERTHANOREQUAL);
  deadline ← walked (extract_cltv_locktime script);
  let threshold_sompi := default 0 goal in
  let deadline_daa := default 0 deadline in
  if_rebuilt (build_piggy_bank_script owner_pubkey threshold_sompi deadline_daa salt) script
    {| owner_pubkey := owner_pubkey; threshold_sompi := threshold_sompi; deadline_daa := deadline_daa;
       salt := salt |}.

Record TimelockedSavingsFields := {
  wallet1_pubkey : list Z;
  wallet2_pubkey : list Z;
  locktime_daa : Z;
}.

Definition timelocked_savings_script_fields (script : list Z) : option TimelockedSavingsFields :=
  elements ← complete_elements script;
  wallet1_pubkey ← array_at 32 elements 1;
  locktime_daa ← integer_at elements 3;
  wallet2_pubkey ← array_at 32 elements 7;
  if_rebuilt (build_timelocked_savings_script wallet1_pubkey wallet2_pubkey locktime_daa) script
    {| wallet1_pubkey := wallet1_pubkey; wallet2_pubkey := wallet2_pubkey; locktime_daa := locktime_daa |}.

End Savings.

(** ** [global_thread.rs] *)

Definition append_global_thread_enforcement (max_withdraw_sompi : Z) : list Piece :=
  [Op OP_TX_INPUT_INDEX; Op OP_INPUT_COVENANT_ID; Op OP_DUP; Op OP_COV_OUTPUT_COUNT; Op OP_DUP;
   Int 1; Op OP_EQUAL;
   Op OP_IF; Op OP_DROP; Int 0; Op OP_COV_OUTPUT_IDX; Op OP_DUP; Op OP_TX_OUTPUT_SPK;
   Op OP_TX_INPUT_INDEX; Op OP_TX_INPUT_SPK; Op OP_EQUALVERIFY; Op OP_TX_OUTPUT_AMOUNT;
   Op OP_TX_INPUT_INDEX; Op OP_TX_INPUT_AMOUNT; Int max_withdraw_sompi; Op OP_SUB;
   Op OP_GREATERTHANOREQUAL; Op OP_VERIFY;
   Op OP_ELSE; Int 0; Op OP_EQUALVERIFY; Op OP_DROP; Op OP_TX_INPUT_INDEX; Op OP_TX_INPUT_AMOUNT;
   Int max_withdraw_sompi; Op OP_LESSTHANOREQUAL; Op OP_VERIFY; Op OP_ENDIF; Op OP_1].

(** ** [allowance.rs] *)

Module Allowance.

Record GlobalAllowanceFields := {
  owner_pubkey : list Z;
  beneficiary_pubkey : list Z;
  max_withdraw_sompi : Z;
  cooldown_daa : Z;
  start_daa : Z;
  salt : list Z;
}.

Definition build_global_allowance_script (owner_pubkey beneficiary_pubkey : list Z)
    (max_withdraw_sompi cooldown_daa start_daa : Z) (salt : list Z) : list Z :=
  assemble (
    [Op 0x08; Extend salt; Op OP_DROP; Op OP_IF; Pubkey owner_pubkey; Op OP_CHECKSIG;
     Op OP_ELSE; Pubkey beneficiary_pubkey; Op OP_CHECKSIGVERIFY] ++
    (if 0 <? start_daa then [Int start_daa; Op OP_CHECKLOCKTIMEVERIFY] else []) ++
    (if 0 <? cooldown_daa then [Int cooldown_daa; Op OP_CHECKSEQUENCEVERIFY] else []) ++
    append_global_thread_enforcement max_withdraw_sompi ++
    [Op OP_ENDIF]).

Definition global_allowance_script_fields (script : list Z) : option GlobalAllowanceFields :=
  elements ← complete_elements script;
  salt ← array_at 8 elements 0;
  owner_pubkey ← array_at 32 elements 3;
  beneficiary_pubkey ← array_at 32 elements 6;
  cap ← walked (find_preceding_script_integer script OP_SUB);
  max_withdraw_sompi ← cap;
  cooldown ← walked (extract_csv_sequence script);
  start ← walked (extract_cltv_locktime script);
  let cooldown_daa := default 0 cooldown in
  let start_daa := default 0 start in
  if_rebuilt (build_global_allowance_script owner_pubkey beneficiary_pubkey max_withdraw_sompi
                cooldown_daa start_daa salt) script
    {| owner_pubkey := owner_pubkey; beneficiary_pubkey := beneficiary_pubkey;
       max_withdraw_sompi := max_withdraw_sompi; cooldown_daa := cooldown_daa; start_daa := start_daa;
       salt := salt |}.

Definition build_allowance_script (owner_pubkey beneficiary_pubkey : list Z)
    (max_withdraw_sompi min_sequence start_daa : Z) : list Z :=
  assemble (
    [Op OP_IF; Pubkey owner_pubkey; Op OP_CHECKSIG;
     Op OP_ELSE; Pubkey beneficiary_pubkey; Op OP_CHECKSIGVERIFY] ++
    (if 0 <? start_daa then [Int start_daa; Op OP_CHECKLOCKTIMEVERIFY] else []) ++
    [Op OP_TX_INPUT_INDEX; Op OP_TX_INPUT_SPK; Int 0; Op OP_TX_OUTPUT_SPK; Op OP_EQUALVERIFY;
     Int 0; Op OP_TX_OUTPUT_AMOUNT; Op OP_TX_INPUT_INDEX; Op OP_TX_INPUT_AMOUNT; Int max_withdraw_sompi;
     Op OP_SUB; Op OP_GREATERTHANOREQUAL; Op OP_VERIFY] ++
    (if 0 <? min_sequence then [Int min_sequence; Op OP_CHECKSEQUENCEVERIFY] else []) ++
    [Op OP_TX_OUTPUT_COUNT; Int 2; Op OP_EQUAL; Op OP_ENDIF]).

End Allowance.

(** ** [spending_limit.rs] *)

Module SpendingLimit.

Record GlobalSpendingLimitFields := {
  owner_pubkey : list Z;
  max_withdraw_sompi : Z;
  cooldown_daa : Z;
  salt : list Z;
}.

Definition build_global_spending_limit_script (owner_pubkey : list Z) (max_withdraw_sompi cooldown_daa : Z)
    (salt : list Z) : list Z :=
  assemble (
    [Op 0x08; Extend salt; Op OP_DROP; Pubkey owner_pubkey; Op OP_CHECKSIGVERIFY;
     Int cooldown_daa; Op OP_CHECKSEQUENCEVERIFY] ++
    append_global_thread_enforcement max_withdraw_sompi).

Definition global_spending_limit_script_fields (script : list Z) : option GlobalSpendingLimitFields :=
  elements ← complete_elements script;
  salt ← array_at 8 elements 0;
  owner_pubkey ← array_at 32 elements 2;
  cooldown_daa ← integer_at elements 4;
  cap ← walked (find_preceding_script_integer script OP_SUB);
  max_withdraw_sompi ← cap;
  if_rebuilt (build_global_spending_limit_script owner_pubkey max_withdraw_sompi cooldown_daa salt) script
    {| owner_pubkey := owner_pubkey; max_withdraw_sompi := max_withdraw_sompi;
       cooldown_daa := cooldown_daa; salt := salt |}.

End SpendingLimit.

(** ** [dms.rs] *)

Module Dms.

Record DmsFields := {
  owner_pubkey : list Z;
  heir_pubkey : list Z;
  inactivity_daa : Z;
}.

Definition build_dms_csv_script (owner_pubkey heir_pubkey : list Z) (inactivity_daa : Z) : list Z :=
  assemble [
    Op OP_IF; Pubkey owner_pubkey; Op OP_CHECKSIG;
    Op OP_ELSE; Int inactivity_daa; Op OP_CHECKSEQUENCEVERIFY; Pubkey heir_pubkey; Op OP_CHECKSIG;
    Op OP_ENDIF].

Definition dms_script_fields (script : list Z) : option DmsFields :=
  elements ← complete_elements script;
  owner_pubkey ← array_at 32 elements 1;
  inactivity_daa ← integer_at elements 4;
  heir_pubkey ← array_at 32 elements 6;
  if_rebuilt (build_dms_csv_script owner_pubkey heir_pubkey inactivity_daa) script
    {| owner_pubkey := owner_pubkey; heir_pubkey := heir_pubkey; inactivity_daa := inactivity_daa |}.

End Dms.

(** ** [oracle_v1.rs] *)

Module OracleV1.

Definition ORACLE_V1_SIG_OP_COUNT : Z := 2.

Record OracleV1Fields := {
  owner_pubkey : list Z;
  beneficiary_pubkey : list Z;
  oracle_pubkey : list Z;
  message_commitment : list Z;
  locktime_daa : Z;
  salt : list Z;
}.

Definition build_oracle_v1_covenant_script
    (owner_pubkey beneficiary_pubkey oracle_pubkey expected_message_commitment : list Z)
    (locktime_daa : Z) (salt : list Z) : list Z :=
  assemble [
    Op 0x10; Extend salt; Op OP_DROP;
    Op OP_IF; Pubkey owner_pubkey; Op OP_CHECKSIGVERIFY;
    Int locktime_daa; Op OP_CHECKLOCKTIMEVERIFY; Op OP_1;
    Op OP_ELSE;
    Pubkey beneficiary_pubkey; Op OP_CHECKSIGVERIFY; Data expected_message_commitment; Pubkey oracle_pubkey;
    Op OP_CHECKSIGFROMSTACK; Op OP_VERIFY; Op OP_1;
    Op OP_ENDIF].

Definition oracle_v1_script_fields (script : list Z) : option OracleV1Fields :=
  elements ← complete_elements script;
  salt ← array_at 16 elements 0;
  owner_pubkey ← array_at 32 elements 3;
  locktime_daa ← integer_at elements 5;
  beneficiary_pubkey ← array_at 32 elements 9;
  message_commitment ← array_at 32 elements 11;
  oracle_pubkey ← array_at 32 elements 12;
  if_rebuilt (build_oracle_v1_covenant_script owner_pubkey beneficiary_pubkey oracle_pubkey message_commitment
                locktime_daa salt) script
    {| owner_pubkey := owner_pubkey; beneficiary_pubkey := beneficiary_pubkey; oracle_pubkey := oracle_pubkey;
       message_commitment := message_commitment; locktime_daa := locktime_daa; salt := salt |}.

Definition oracle_v1_attestation_binding (script : list Z) : option (list Z * list Z * list Z) :=
  (fun fields => (beneficiary_pubkey fields, message_commitment fields, oracle_pubkey fields))
    <$> oracle_v1_script_fields script.

Definition oracle_v1_script_commits_to (script commitment oracle_pubkey : list Z) : bool :=
  match oracle_v1_attestation_binding script with
  | Some (_, embedded_commitment, embedded_oracle) =>
      list_Z_eqb embedded_commitment commitment && list_Z_eqb embedded_oracle oracle_pubkey
  | None => false
  end.

End OracleV1.

(** ** [payjoin.rs] *)

Module Payjoin.

Record PayjoinFields := {
  owner_pubkey : list Z;
  beneficiary_pubkey : list Z;
  locktime_daa : Z;
  min_inputs : Z;
  min_outputs : Z;
}.

Definition build_payjoin_covenant_script (owner_pubkey beneficiary_pubkey : list Z)
    (locktime_daa min_inputs min_outputs : Z) : list Z :=
  assemble [
    Op OP_IF; Pubkey owner_pubkey; Op OP_CHECKSIGVERIFY;
    Int locktime_daa; Op OP_CHECKLOCKTIMEVERIFY; Op OP_1;
    Op OP_ELSE;
    Pubkey beneficiary_pubkey; Op OP_CHECKSIGVERIFY;
    Op OP_TX_INPUT_COUNT; Int min_inputs; Op OP_GREATERTHANOREQUAL; Op OP_VERIFY;
    Op OP_TX_OUTPUT_COUNT; Int min_outputs; Op OP_GREATERTHANOREQUAL; Op OP_VERIFY;
    Int 0; Op OP_TX_INPUT_SPK; Int 1; Op OP_TX_INPUT_SPK; Op OP_EQUAL; Op OP_NOT; Op OP_VERIFY;
    Op OP_1; Op OP_ENDIF].

Definition payjoin_script_fields (script : list Z) : option PayjoinFields :=
  elements ← complete_elements script;
  owner_pubkey ← array_at 32 elements 1;
  locktime_daa ← integer_at elements 3;
  beneficiary_pubkey ← array_at 32 elements 7;
  min_inputs ← integer_at elements 10;
  min_outputs ← integer_at elements 14;
  if_rebuilt (build_payjoin_covenant_script owner_pubkey beneficiary_pubkey locktime_daa min_inputs min_outputs)
    script
    {| owner_pubkey := owner_pubkey; beneficiary_pubkey := beneficiary_pubkey; locktime_daa := locktime_daa;
       min_inputs := min_inputs; min_outputs := min_outputs |}.

End Payjoin.

(** ** [private_swap.rs] *)

Module PrivateSwap.

Definition PRIVATE_SWAP_MAX_FEE_SOMPI : Z := 500000000.

Inductive PrivateSwapError :=
  | TimeoutMustBeNonzero
  | SaltMustBeNonzero
  | UnsupportedDestinationLength
  | KeysMustDiffer.

Record PrivateSwapFields := {
  owner_pubkey : list Z;
  claimer_pubkey : list Z;
  claimer_output_spk : list Z;
  refund_locktime_daa : Z;
  salt : list Z;
}.

Definition versioned_destination (script : list Z) : list Z := [0x00; 0x00] ++ script.

Definition fields_versioned_destination (fields : PrivateSwapFields) : list Z :=
  versioned_destination (claimer_output_spk fields).

Definition append_claim_fee_bound : list Piece :=
  [Int 0; Op OP_TX_INPUT_AMOUNT; Op OP_DUP; Int 0; Op OP_TX_OUTPUT_AMOUNT; Op OP_GREATERTHANOREQUAL; Op OP_VERIFY;
   Int 0; Op OP_TX_OUTPUT_AMOUNT; Op OP_SUB; Int PRIVATE_SWAP_MAX_FEE_SOMPI; Op OP_LESSTHANOREQUAL;
   Op OP_VERIFY].

Definition build_private_swap_script (owner_pubkey claimer_pubkey claimer_output_spk : list Z)
    (refund_locktime_daa : Z) (salt : list Z) : result (list Z) PrivateSwapError :=
  if refund_locktime_daa =? 0 then Err TimeoutMustBeNonzero
  else if forallb (fun byte => byte =? 0) salt then Err SaltMustBeNonzero
  else if (blen claimer_output_spk <? 3) || (73 <? blen claimer_output_spk) then Err UnsupportedDestinationLength
  else if list_Z_eqb owner_pubkey claimer_pubkey then Err KeysMustDiffer
  else
    let destination_spk := versioned_destination claimer_output_spk in
    Ok (assemble (
      [Data salt; Op OP_DROP;
       Op OP_IF; Pubkey claimer_pubkey; Op OP_CHECKSIGVERIFY;
       Op OP_TX_INPUT_COUNT; Int 1; Op OP_NUMEQUALVERIFY;
       Op OP_TX_OUTPUT_COUNT; Int 1; Op OP_NUMEQUALVERIFY;
       Int 0; Op OP_TX_OUTPUT_SPK; Data destination_spk; Op OP_EQUALVERIFY] ++
      append_claim_fee_bound ++
      [Op OP_1;
       Op OP_ELSE; Pubkey owner_pubkey; Op OP_CHECKSIGVERIFY;
       Int refund_locktime_daa; Op OP_CHECKLOCKTIMEVERIFY; Op OP_1;
       Op OP_ENDIF])).

Definition private_swap_script_fields (script : list Z) : option PrivateSwapFields :=
  elements ← complete_elements script;
  salt ← array_at 16 elements 0;
  claimer_pubkey ← array_at 32 elements 3;
  claimer_output_spk ← (data ← data_at elements 13; get_from data 2);
  owner_pubkey ← array_at 32 elements 30;
  refund_locktime_daa ← integer_at elements 32;
  match build_private_swap_script owner_pubkey claimer_pubkey claimer_output_spk refund_locktime_daa salt with
  | Err _ => None
  | Ok rebuilt =>
      if_rebuilt rebuilt script
        {| owner_pubkey := owner_pubkey; claimer_pubkey := claimer_pubkey;
           claimer_output_spk := claimer_output_spk; refund_locktime_daa := refund_locktime_daa; salt := salt |}
  end.

End PrivateSwap.
