(* ===== verification/Contracts.v ===== *)
(** * Contract templates

    The contracts of [src/src/contract] outside the covenant directory: the
    tagged and split vaults, the crowdfunding covenant, commit-reveal, the
    shipment escrow, the Model-B oracle, the Merkle whitelist with its tree,
    the Groth16 cost model, the sequence-commit lane, the Kasplex envelope,
    the spend path of a two-branch covenant and the KIP-20 covenant identity.
    BLAKE2b is third-party code and a parameter. *)

From S2P Require Import Prelude Script Covenants.
Import Script.Opcode.

(** ** [zk/cost.rs] *)

Module Zk.

(** The arithmetic stays below [2^64] for the arguments the code passes. *)
Definition groth16_script_units (public_inputs : Z) : Z :=
  let TAG := 14000000 in
  let VK_ELEMENT := 250000 in
  let BLAKE2B_VK := 640 in
  let PUSH_BYTES := 2000 in
  let SAFETY := 50000 in
  TAG + (public_inputs + 1) * VK_ELEMENT + BLAKE2B_VK + PUSH_BYTES + SAFETY.

Definition groth16_sig_op_count (public_inputs : Z) : Z :=
  let FREE := 9999 in
  let needed := groth16_script_units public_inputs in
  let sigops := div_ceil (needed - FREE) 100000 in
  if u8_max <? sigops then u8_max else sigops mod 256.

Definition groth16_min_fee_sompi (public_inputs : Z) : Z :=
  let SCRIPT_UNITS_PER_GRAM := 100 in
  let MIN_FEERATE_SOMPI_PER_GRAM := 100 in
  let SIZE_MARGIN_GRAMS := 20000 in
  let script_grams := groth16_script_units public_inputs / SCRIPT_UNITS_PER_GRAM in
  (script_grams + SIZE_MARGIN_GRAMS) * MIN_FEERATE_SOMPI_PER_GRAM.

Definition GROTH16_TAG : Z := 0x20.
Definition GROTH16_SIG_OP_COUNT : Z := groth16_sig_op_count 1.
Definition RISC0_TAG : Z := 0x21.
Definition RISC0_SIG_OP_COUNT : Z := u8_max.

End Zk.

(** ** [vault/script.rs] *)

Module Vault.

Definition build_tagged_vault_script (owner_pubkey : list Z) : list Z :=
  assemble [
    Pubkey owner_pubkey; Op OP_CHECKSIGVERIFY;
    Op OP_TX_INPUT_INDEX; Op OP_INPUT_COVENANT_ID; Op OP_0; Op OP_OUTPUT_COVENANT_ID; Op OP_EQUALVERIFY; Op OP_1].

Definition build_split_vault_script (owner_pubkey : list Z) : list Z :=
  assemble [
    Pubkey owner_pubkey; Op OP_CHECKSIGVERIFY;
    Op OP_TX_INPUT_INDEX; Op OP_INPUT_COVENANT_ID; Op OP_DUP; Op OP_COV_OUTPUT_COUNT; Op 0x52; Op OP_EQUALVERIFY;
    Op OP_TX_INPUT_INDEX; Op OP_AUTH_OUTPUT_COUNT; Op 0x52; Op OP_EQUALVERIFY; Op OP_DROP; Op OP_1].

End Vault.

(** ** [crowdfund/script.rs] *)

Module Crowdfund.

Definition CROWDFUND_MAX_CONTRIBUTORS : Z := 8.
Definition CROWDFUND_MAX_TX_INPUTS : Z := CROWDFUND_MAX_CONTRIBUTORS.
Definition CROWDFUND_MAX_SWEEP_FEE_SOMPI : Z := 500000000.
Definition CROWDFUND_SIG_OP_COUNT : Z := Zk.GROTH16_SIG_OP_COUNT.
Definition CAMPAIGN_TAIL_LEN : Z := 35.
Definition CAMPAIGN_ID_START_FROM_END : Z := 34.
Definition CAMPAIGN_ID_END_FROM_END : Z := 2.

Record CrowdfundScript := {
  contributor_pubkey : list Z;
  goal_sompi : Z;
  locktime_daa : Z;
  verifying_key_hash : list Z;
  organizer_output_spk : list Z;
  salt : list Z;
}.

Inductive CrowdfundError :=
  | GoalMustBePositive
  | TimeoutMustBePositive
  | UnsupportedOrganizerLength
  | SaltMustNotBeZero.

Definition validate_config (config : CrowdfundScript) : result unit CrowdfundError :=
  if goal_sompi config =? 0 then Err GoalMustBePositive
  else if locktime_daa config =? 0 then Err TimeoutMustBePositive
  else if (blen (organizer_output_spk config) <? 3) || (260 <? blen (organizer_output_spk config))
  then Err UnsupportedOrganizerLength
  else if forallb (fun byte => byte =? 0) (salt config) then Err SaltMustNotBeZero
  else Ok tt.

Definition append_proof_verification (verifying_key_hash : list Z) : list Piece :=
  [Op OP_DUP; Op OP_BLAKE2B; Data verifying_key_hash; Op OP_EQUALVERIFY; Data [Zk.GROTH16_TAG];
   Op OP_ZK_PRECOMPILE; Op OP_VERIFY].

Definition append_input_bounds : list Piece :=
  [Op OP_TX_INPUT_COUNT; Int 1; Op OP_GREATERTHANOREQUAL; Op OP_VERIFY;
   Op OP_TX_INPUT_COUNT; Int CROWDFUND_MAX_TX_INPUTS; Op OP_LESSTHANOREQUAL; Op OP_VERIFY].

Definition append_campaign_isolation (index : Z) (campaign_id : list Z) : list Piece :=
  [Int index; Int index; Op OP_TX_INPUT_SCRIPT_SIG_LEN; Op OP_DUP; Int CAMPAIGN_TAIL_LEN;
   Op OP_GREATERTHANOREQUAL; Op OP_VERIFY; Op OP_DUP; Int CAMPAIGN_ID_START_FROM_END; Op OP_SUB;
   Op OP_SWAP; Int CAMPAIGN_ID_END_FROM_END; Op OP_SUB; Op OP_TX_INPUT_SCRIPT_SIG_SUBSTR; Data campaign_id;
   Op OP_EQUALVERIFY].

Definition append_campaign_inputs_total (campaign_id : list Z) : list Piece :=
  Int 0 :: concat (map (fun index =>
    [Op OP_TX_INPUT_COUNT; Int (index + 1); Op OP_GREATERTHANOREQUAL; Op OP_IF] ++
    append_campaign_isolation index campaign_id ++
    [Int index; Op OP_TX_INPUT_AMOUNT; Op OP_ADD; Op OP_ENDIF])
    (seqZ 0 CROWDFUND_MAX_TX_INPUTS)).

Definition append_sweep_constraints (goal_sompi : Z) (organizer_spk : list Z) : list Piece :=
  [Op OP_DUP; Int goal_sompi; Op OP_GREATERTHANOREQUAL; Op OP_VERIFY;
   Op OP_TX_OUTPUT_COUNT; Int 1; Op OP_NUMEQUALVERIFY; Int 0; Op OP_TX_OUTPUT_SPK; Data organizer_spk;
   Op OP_EQUALVERIFY;
   Op OP_DUP; Int 0; Op OP_TX_OUTPUT_AMOUNT; Op OP_GREATERTHANOREQUAL; Op OP_VERIFY;
   Int 0; Op OP_TX_OUTPUT_AMOUNT; Op OP_SUB; Int CROWDFUND_MAX_SWEEP_FEE_SOMPI; Op OP_LESSTHANOREQUAL;
   Op OP_VERIFY].

Section hash.
(** The keyed BLAKE2b-256 digest of the bytes fed by its updates. *)
Variable keyed : list Z -> list Z -> list Z.

Definition crowdfund_campaign_id (goal_sompi locktime_daa : Z) (verifying_key_hash organizer_output_spk : list Z)
  : list Z :=
  keyed (str "KaspaPortalCrowdfundV1")
    (verifying_key_hash ++ le_bytes 8 goal_sompi ++ le_bytes 8 locktime_daa
     ++ le_bytes 8 (blen organizer_output_spk) ++ organizer_output_spk).

Definition crowdfund_redeem_script (config : CrowdfundScript) : result (list Z) CrowdfundError :=
  let? _ := validate_config config in
  let campaign_id := crowdfund_campaign_id (goal_sompi config) (locktime_daa config)
                       (verifying_key_hash config) (organizer_output_spk config) in
  Ok (assemble (
    [Data (salt config); Op OP_DROP;
     Op OP_IF; Pubkey (contributor_pubkey config); Op OP_CHECKSIGVERIFY; Int (locktime_daa config);
     Op OP_CHECKLOCKTIMEVERIFY;
     Op OP_ELSE] ++
    append_proof_verification (verifying_key_hash config) ++
    append_input_bounds ++
    append_campaign_inputs_total campaign_id ++
    append_sweep_constraints (goal_sompi config) (organizer_output_spk config) ++
    [Op OP_ENDIF; Data campaign_id; Op OP_DROP; Op OP_1])).
End hash.
End Crowdfund.

(** ** [commit_reveal/script.rs] and [commit_reveal/reveal.rs] *)

Module CommitReveal.

Record CommitRevealFields := {
  owner_pubkey : list Z;
  committed_hash : list Z;
  locktime_daa : Z;
}.

Definition build_commit_reveal_script (owner_pubkey committed_hash : list Z) (locktime_daa : Z) : list Z :=
  assemble [
    Op OP_IF; Pubkey owner_pubkey; Op OP_CHECKSIGVERIFY;
    Int locktime_daa; Op OP_CHECKLOCKTIMEVERIFY; Op OP_1;
    Op OP_ELSE; Pubkey owner_pubkey; Op OP_CHECKSIGVERIFY;
    Op OP_CAT; Op OP_BLAKE2B; Data committed_hash; Op OP_EQUALVERIFY; Op OP_1;
    Op OP_ENDIF].

Definition commit_reveal_script_fields (script : list Z) : option CommitRevealFields :=
  elements ← complete_elements script;
  owner_pubkey ← array_at 32 elements 1;
  locktime_daa ← integer_at elements 3;
  committed_hash ← array_at 32 elements 11;
  if_rebuilt (build_commit_reveal_script owner_pubkey committed_hash locktime_daa) script
    {| owner_pubkey := owner_pubkey; committed_hash := committed_hash; locktime_daa := locktime_daa |}.

Record CommitRevealReveal := { preimage : list Z; fields : CommitRevealFields }.

Definition reveal_matches (blake2b_256 : list Z -> list Z) (reveal : CommitRevealReveal) : bool :=
  list_Z_eqb (blake2b_256 (preimage reveal)) (committed_hash (fields reveal)).

Definition read_commit_reveal_reveal (signature_script : list Z) : option CommitRevealReveal :=
  elements ← complete_elements signature_script;
  match elements with
  | [part_a; part_b; signature; selector; redeem] =>
      let pushes := [part_a; part_b; signature; redeem] in
      if negb (opcode selector =? OP_0) || negb (forallb is_push pushes) then None
      else
        fields ← commit_reveal_script_fields (data redeem);
        Some {| preimage := data part_a ++ data part_b; fields := fields |}
  | _ => None
  end.

End CommitReveal.

(** ** [shipping_escrow] *)

Module ShippingEscrow.

Record ShippingEscrowTerms := {
  seller_pubkey : list Z;
  deliverer_pubkey : list Z;
  buyer_pubkey : list Z;
  arbiter_pubkey : list Z;
  product_sompi : Z;
  fee_sompi : Z;
  cltv1_deadline : Z;
  cltv2_deadline : Z;
  salt : list Z;
}.

Record ShippingEscrowTranches := { total : Z; first : Z; second : Z; remainder : Z }.

Inductive ShippingError := TotalExceedsRange | TrancheUnderflow.

Definition new_tranches (product_sompi fee_sompi : Z) : result ShippingEscrowTranches ShippingError :=
  let? total := ok_or (checked_add product_sompi fee_sompi) TotalExceedsRange in
  let first_tranche := product_sompi / 2 in
  let? second := ok_or (checked_sub product_sompi first_tranche) TrancheUnderflow in
  let? remainder := ok_or (checked_sub total first_tranche) TrancheUnderflow in
  Ok {| total := total; first := first_tranche; second := second; remainder := remainder |}.

Definition p2pk_script_public_key (pubkey : list Z) : list Z :=
  [0x00; 0x00] ++ [0x20] ++ pubkey ++ [OP_CHECKSIG].

Record StateZeroConfig := {
  z_total : Z;
  z_remainder : Z;
  z_fee_sompi : Z;
  pickup_deadline : Z;
  z_delivery_deadline : Z;
  z_seller_spk : list Z;
  z_deliverer_spk : list Z;
  z_buyer_spk : list Z;
  z_deliverer_pubkey : list Z;
  z_buyer_pubkey : list Z;
  z_arbiter_pubkey : list Z;
}.

Record StateOneConfig := {
  o_remainder : Z;
  o_fee_sompi : Z;
  delivery_deadline : Z;
  seller_spk : list Z;
  deliverer_spk : list Z;
  buyer_spk : list Z;
  o_buyer_pubkey : list Z;
  o_arbiter_pubkey : list Z;
}.

Definition append_delivery_or_refund (config : StateOneConfig) : list Piece :=
  [Op OP_IF;
   Op OP_IF; Pubkey (o_buyer_pubkey config); Op OP_CHECKSIGVERIFY;
   Op OP_ELSE; Op OP_IF; Pubkey (o_arbiter_pubkey config); Op OP_CHECKSIGVERIFY;
   Op OP_ELSE; Int (delivery_deadline config); Op OP_CHECKLOCKTIMEVERIFY;
   Op OP_ENDIF; Op OP_ENDIF;
   Int 0; Op OP_TX_OUTPUT_SPK; Data (seller_spk config); Op OP_EQUALVERIFY;
   Int 1; Op OP_TX_OUTPUT_SPK; Data (deliverer_spk config); Op OP_EQUALVERIFY;
   Int 1; Op OP_TX_OUTPUT_AMOUNT; Int (o_fee_sompi config); Op OP_EQUALVERIFY;
   Op OP_TX_OUTPUT_COUNT; Int 2; Op OP_EQUALVERIFY; Op 0x51;
   Op OP_ELSE; Pubkey (o_arbiter_pubkey config); Op OP_CHECKSIGVERIFY;
   Int 0; Op OP_TX_OUTPUT_SPK; Data (buyer_spk config); Op OP_EQUALVERIFY;
   Op OP_TX_OUTPUT_COUNT; Int 1; Op OP_EQUALVERIFY; Op 0x51;
   Op OP_ENDIF].

Definition state_one_dispatch (config : StateOneConfig) : list Piece :=
  [Op OP_DUP; Int (o_remainder config); Op OP_EQUAL; Op OP_IF; Op OP_DROP] ++
  append_delivery_or_refund config ++
  [Op OP_ELSE; Op OP_DROP; Op OP_0; Op OP_ENDIF].

Definition append_pickup_or_refund (config : StateZeroConfig) : list Piece :=
  [Op OP_IF; Pubkey (z_deliverer_pubkey config); Op OP_CHECKSIGVERIFY;
   Int 0; Op OP_TX_OUTPUT_SPK; Op OP_TX_INPUT_INDEX; Op OP_TX_INPUT_SPK; Op OP_EQUALVERIFY;
   Int 0; Op OP_TX_OUTPUT_AMOUNT; Int (z_remainder config); Op OP_EQUALVERIFY;
   Int 1; Op OP_TX_OUTPUT_SPK; Data (z_seller_spk config); Op OP_EQUALVERIFY;
   Op OP_TX_OUTPUT_COUNT; Int 2; Op OP_EQUALVERIFY; Op 0x51;
   Op OP_ELSE; Op OP_IF; Pubkey (z_arbiter_pubkey config); Op OP_CHECKSIGVERIFY;
   Op OP_ELSE; Int (pickup_deadline config); Op OP_CHECKLOCKTIMEVERIFY; Op OP_ENDIF;
   Int 0; Op OP_TX_OUTPUT_SPK; Data (z_buyer_spk config); Op OP_EQUALVERIFY;
   Op OP_TX_OUTPUT_COUNT; Int 1; Op OP_EQUALVERIFY; Op 0x51;
   Op OP_ENDIF].

Definition state_zero_dispatch (config : StateZeroConfig) : list Piece :=
  [Op OP_DUP; Int (z_total config); Op OP_EQUAL; Op OP_IF; Op OP_DROP] ++
  append_pickup_or_refund config ++
  [Op OP_ELSE] ++
  state_one_dispatch {|
    o_remainder := z_remainder config; o_fee_sompi := z_fee_sompi config;
    delivery_deadline := z_delivery_deadline config; seller_spk := z_seller_spk config;
    deliverer_spk := z_deliverer_spk config; buyer_spk := z_buyer_spk config;
    o_buyer_pubkey := z_buyer_pubkey config; o_arbiter_pubkey := z_arbiter_pubkey config |} ++
  [Op OP_ENDIF].

(** The request is the terms: [ShippingEscrowScriptRequest] borrows the same
    nine fields. *)
Definition build_ship_escrow_script (request : ShippingEscrowTerms) : result (list Z) ShippingError :=
  let? tranches := new_tranches (product_sompi request) (fee_sompi request) in
  let seller_spk := p2pk_script_public_key (seller_pubkey request) in
  let deliverer_spk := p2pk_script_public_key (deliverer_pubkey request) in
  let buyer_spk := p2pk_script_public_key (buyer_pubkey request) in
  Ok (assemble (
    [Op 0x08; Extend (salt request); Op OP_DROP; Op OP_TX_INPUT_INDEX; Op OP_TX_INPUT_AMOUNT] ++
    state_zero_dispatch {|
      z_total := total tranches; z_remainder := remainder tranches; z_fee_sompi := fee_sompi request;
      pickup_deadline := cltv1_deadline request; z_delivery_deadline := cltv2_deadline request;
      z_seller_spk := seller_spk; z_deliverer_spk := deliverer_spk; z_buyer_spk := buyer_spk;
      z_deliverer_pubkey := deliverer_pubkey request; z_buyer_pubkey := buyer_pubkey request;
      z_arbiter_pubkey := arbiter_pubkey request |})).

Definition SALT : nat := 0.
Definition TOTAL : nat := 5.
Definition DELIVERER_PUBKEY : nat := 10.
Definition SELLER_SPK : nat := 23.
Definition ARBITER_PUBKEY : nat := 31.
Definition PICKUP_DEADLINE : nat := 34.
Definition BUYER_SPK : nat := 39.
Definition DELIVERY_DEADLINE : nat := 61.
Definition FEE : nat := 75.

Definition spk_pubkey (element : Element) : option (list Z) :=
  key ← slice (data element) 3 35; array 32 key.

Definition ship_escrow_terms (script : list Z) : option ShippingEscrowTerms :=
  elements ← complete_elements script;
  fee_sompi ← integer_at elements FEE;
  seller_pubkey ← (element ← elements !! SELLER_SPK; spk_pubkey element);
  deliverer_pubkey ← array_at 32 elements DELIVERER_PUBKEY;
  buyer_pubkey ← (element ← elements !! BUYER_SPK; spk_pubkey element);
  arbiter_pubkey ← array_at 32 elements ARBITER_PUBKEY;
  total ← integer_at elements TOTAL;
  product_sompi ← checked_sub total fee_sompi;
  cltv1_deadline ← integer_at elements PICKUP_DEADLINE;
  cltv2_deadline ← integer_at elements DELIVERY_DEADLINE;
  salt ← array_at 8 elements SALT;
  let terms := {|
    seller_pubkey := seller_pubkey; deliverer_pubkey := deliverer_pubkey; buyer_pubkey := buyer_pubkey;
    arbiter_pubkey := arbiter_pubkey; product_sompi := product_sompi; fee_sompi := fee_sompi;
    cltv1_deadline := cltv1_deadline; cltv2_deadline := cltv2_deadline; salt := salt |} in
  match build_ship_escrow_script terms with
  | Err _ => None
  | Ok rebuilt => if_rebuilt rebuilt script terms
  end.

Definition tranches (terms : ShippingEscrowTerms) : result ShippingEscrowTranches ShippingError :=
  new_tranches (product_sompi terms) (fee_sompi terms).

End ShippingEscrow.

(** ** [oracle/script] *)

Module Oracle.

Definition OP_WITHIN : Z := 0xa5.
Definition ORACLE_MB_HEARTBEAT_SIG_OP_COUNT : Z := 0.
Definition ORACLE_MB_MAX_FEE_SOMPI : Z := 1000000.
Definition ORACLE_MB_BODY_LEN : Z := 288.
Definition ORACLE_MB_SIG_OP_COUNT : Z := Zk.RISC0_SIG_OP_COUNT.
Definition ORACLE_MB_REDEEM_LEN : Z := 308.

Definition build_oracle_mb_consumer_sig_script (redeem : list Z) : list Z := assemble [Data redeem].

Definition build_oracle_mb_heartbeat_script : list Z :=
  assemble [
    Op OP_TX_INPUT_INDEX; Op OP_INPUT_COVENANT_ID; Op OP_DUP; Op OP_COV_INPUT_COUNT; Int 1; Op OP_NUMEQUALVERIFY;
    Op OP_DUP; Op OP_COV_OUTPUT_COUNT; Int 1; Op OP_NUMEQUALVERIFY;
    Int 0; Op OP_COV_OUTPUT_IDX;
    Op OP_DUP; Op OP_TX_OUTPUT_SPK; Op OP_TX_INPUT_INDEX; Op OP_TX_INPUT_SPK; Op OP_EQUALVERIFY;
    Op OP_TX_OUTPUT_AMOUNT; Op OP_TX_INPUT_INDEX; Op OP_TX_INPUT_AMOUNT; Op OP_GREATERTHANOREQUAL; Op OP_VERIFY;
    Op OP_1].

Definition build_oracle_mb_heartbeat_sig_script (redeem : list Z) : list Z := assemble [Data redeem].

Definition oracle_mb_prefix (price t : Z) : list Z :=
  assemble [Op 0x08; Extend (le_bytes 8 price); Op 0x75; Op 0x08; Extend (le_bytes 8 t); Op 0x75].

Definition push_oracle_mb_singleton_strict : list Piece :=
  [Op OP_TX_INPUT_INDEX; Op OP_INPUT_COVENANT_ID; Op OP_DUP; Op OP_COV_INPUT_COUNT; Int 1; Op OP_NUMEQUALVERIFY;
   Op OP_COV_OUTPUT_COUNT; Int 1; Op OP_NUMEQUALVERIFY].

Definition push_oracle_roll_branch (image_id control_id set_root : list Z) (hashfn : Z)
    (heartbeat_cov_id : list Z) : list Piece :=
  [Data heartbeat_cov_id; Op OP_COV_INPUT_COUNT; Int 1; Op OP_NUMEQUALVERIFY] ++
  (* 1 *)
  [Int 0; Op OP_PICK; Int 16; Int 48; Op OP_SUBSTR; Data set_root; Op OP_EQUALVERIFY] ++
  (* 2 *)
  [Int 0; Op OP_PICK; Int 0; Int 8; Op OP_SUBSTR; Int 1; Int (Z.shiftl 1 60 + 1); Op OP_WITHIN; Op OP_VERIFY] ++
  (* 2b *)
  [Int 0; Op OP_PICK; Int 8; Int 16; Op OP_SUBSTR;
   Op OP_TX_INPUT_INDEX; Op OP_TX_INPUT_INDEX; Op OP_TX_INPUT_SCRIPT_SIG_LEN; Op OP_DUP;
   Int (ORACLE_MB_REDEEM_LEN - 11); Op OP_SUB; Op OP_SWAP; Int (ORACLE_MB_REDEEM_LEN - 19); Op OP_SUB;
   Op OP_TX_INPUT_SCRIPT_SIG_SUBSTR; Op OP_GREATERTHANOREQUAL; Op OP_VERIFY] ++
  (* 3 *)
  [Data [0x08]; Int 1; Op OP_PICK; Int 0; Int 8; Op OP_SUBSTR; Op OP_CAT; Data [0x75; 0x08]; Op OP_CAT;
   Int 1; Op OP_PICK; Int 8; Int 16; Op OP_SUBSTR; Op OP_CAT; Data [0x75]; Op OP_CAT] ++
  (* 4 *)
  [Op OP_TX_INPUT_INDEX; Op OP_TX_INPUT_INDEX; Op OP_TX_INPUT_SCRIPT_SIG_LEN; Op OP_DUP; Int ORACLE_MB_BODY_LEN;
   Op OP_SUB; Op OP_SWAP; Op OP_TX_INPUT_SCRIPT_SIG_SUBSTR; Op OP_CAT] ++
  (* 5a *)
  push_oracle_mb_singleton_strict ++
  (* 5b *)
  [Op OP_BLAKE2B; Data [0x87]; Op OP_CAT; Data [0xAA; 0x20]; Op OP_SWAP; Op OP_CAT; Data [0x00; 0x00]; Op OP_SWAP;
   Op OP_CAT; Int 0; Op OP_TX_OUTPUT_SPK; Op OP_EQUALVERIFY] ++
  (* 5c *)
  [Int 0; Op OP_TX_OUTPUT_AMOUNT; Op OP_TX_INPUT_INDEX; Op OP_TX_INPUT_AMOUNT; Int ORACLE_MB_MAX_FEE_SOMPI;
   Op OP_SUB; Op OP_GREATERTHANOREQUAL; Op OP_VERIFY] ++
  (* 6 *)
  [Op OP_SHA256; Data image_id; Data control_id; Data [hashfn]; Data [Zk.RISC0_TAG]; Op OP_ZK_PRECOMPILE;
   Op OP_VERIFY] ++
  (* 7 *)
  [Op OP_1].

Definition push_oracle_passthrough_branch : list Piece :=
  [Op OP_TX_INPUT_INDEX; Op OP_INPUT_COVENANT_ID; Op OP_DUP; Op OP_COV_INPUT_COUNT; Int 1; Op OP_NUMEQUALVERIFY;
   Op OP_DUP; Op OP_COV_OUTPUT_COUNT; Int 1; Op OP_NUMEQUALVERIFY; Int 0; Op OP_COV_OUTPUT_IDX;
   Op OP_DUP; Op OP_TX_OUTPUT_SPK; Op OP_TX_INPUT_INDEX; Op OP_TX_INPUT_SPK; Op OP_EQUALVERIFY;
   Op OP_TX_OUTPUT_AMOUNT; Op OP_TX_INPUT_INDEX; Op OP_TX_INPUT_AMOUNT; Int ORACLE_MB_MAX_FEE_SOMPI; Op OP_SUB;
   Op OP_GREATERTHANOREQUAL; Op OP_VERIFY; Op OP_1].

Definition build_oracle_mb_publish_body (image_id control_id set_root : list Z) (hashfn : Z)
    (heartbeat_cov_id : list Z) : list Z :=
  assemble (
    [Op OP_IF] ++ push_oracle_roll_branch image_id control_id set_root hashfn heartbeat_cov_id ++
    [Op OP_ELSE] ++ push_oracle_passthrough_branch ++ [Op OP_ENDIF]).

Definition build_oracle_mb_redeem (price t : Z) (image_id control_id set_root : list Z) (hashfn : Z)
    (heartbeat_cov_id : list Z) : list Z :=
  oracle_mb_prefix price t ++ build_oracle_mb_publish_body image_id control_id set_root hashfn heartbeat_cov_id.

Definition build_oracle_mb_publish_sig_script
    (redeem claim control_index control_digests seal raw_journal : list Z) : list Z :=
  assemble [Data claim; Data control_index; Data control_digests; Data seal; Data raw_journal; Data [0x01];
            Data redeem].

Definition build_oracle_mb_passthrough_sig_script (redeem : list Z) : list Z :=
  assemble [Op OP_0; Data redeem].

Definition build_oracle_mb_genesis_redeem (genesis_price genesis_t : Z) (image_id control_id set_root : list Z)
    (hashfn : Z) (heartbeat_cov_id : list Z) : list Z :=
  build_oracle_mb_redeem genesis_price genesis_t image_id control_id set_root hashfn heartbeat_cov_id.

End Oracle.

(** ** [merkle/script.rs] *)

Module Merkle.

Definition append_owner_refund_branch (owner_pubkey : list Z) (locktime_daa : Z) : list Piece :=
  [Op OP_IF; Pubkey owner_pubkey; Op OP_CHECKSIGVERIFY; Int locktime_daa; Op OP_CHECKLOCKTIMEVERIFY; Op OP_1;
   Op OP_ELSE].

Definition append_whitelist_branch (owner_pubkey merkle_root : list Z) (depth : Z) : list Piece :=
  [Pubkey owner_pubkey; Op OP_CHECKSIGVERIFY; Op OP_BLAKE2B] ++
  concat (replicate (Z.to_nat depth) [Op OP_SWAP; Op OP_IF; Op OP_SWAP; Op OP_ENDIF; Op OP_CAT; Op OP_BLAKE2B]) ++
  [Data merkle_root; Op OP_EQUALVERIFY; Int 0; Op OP_TX_OUTPUT_SPK; Op OP_EQUALVERIFY; Op OP_1].

Definition build_merkle_whitelist_script (owner_pubkey merkle_root : list Z) (depth locktime_daa : Z) : list Z :=
  assemble (append_owner_refund_branch owner_pubkey locktime_daa
            ++ append_whitelist_branch owner_pubkey merkle_root depth ++ [Op OP_ENDIF]).

Record MerkleWhitelistFields := {
  owner_pubkey : list Z;
  merkle_root : list Z;
  depth : Z;
  locktime_daa : Z;
}.

Definition FIXED_ELEMENTS : Z := 17.
Definition LAYER_ELEMENTS : Z := 6.

Definition merkle_whitelist_script_fields (script : list Z) : option MerkleWhitelistFields :=
  elements ← complete_elements script;
  extra ← checked_sub (blen elements) FIXED_ELEMENTS;
  let layers := extra / LAYER_ELEMENTS in
  owner_pubkey ← array_at 32 elements 1;
  locktime_daa ← integer_at elements 3;
  merkle_root ← array_at 32 elements (Z.to_nat (10 + layers * LAYER_ELEMENTS));
  depth ← (if layers <=? u8_max then Some layers else None);
  if_rebuilt (build_merkle_whitelist_script owner_pubkey merkle_root depth locktime_daa) script
    {| owner_pubkey := owner_pubkey; merkle_root := merkle_root; depth := depth; locktime_daa := locktime_daa |}.

Section tree.
Variable blake2b_256 : list Z -> list Z.

Definition zero_hash : list Z := replicate 32 0.

Fixpoint next_power_from (fuel : nat) (power n : Z) : Z :=
  match fuel with
  | O => power
  | S fuel' => if n <=? power then power else next_power_from fuel' (2 * power) n
  end.
(** [usize::next_power_of_two]. *)
Definition next_power_of_two (n : Z) : Z := next_power_from (Z.to_nat n) 1 n.

(** The hashed leaves, padded. *)
Definition leaf_level (leaves : list (list Z)) : list (list Z) :=
  let level := map blake2b_256 leaves in
  let target := next_power_of_two (blen level) in
  level ++ replicate (Z.to_nat (target - blen level)) zero_hash.

(** One pass over [level.chunks(2)]; a level has an even length there. *)
Fixpoint next_level (level : list (list Z)) : list (list Z) :=
  match level with
  | left_hash :: right_hash :: rest => blake2b_256 (left_hash ++ right_hash) :: next_level rest
  | _ => []
  end.

(** [while level.len() > 1]; a pass halves the level, so its length bounds
    the passes. *)
Fixpoint root_from (fuel : nat) (level : list (list Z)) : list Z :=
  match fuel with
  | O => default [] (head level)
  | S fuel' => if 1 <? blen level then root_from fuel' (next_level level) else default [] (head level)
  end.

Definition compute_merkle_root (leaves : list (list Z)) : list Z :=
  if bool_decide (leaves = []) then zero_hash
  else let level := leaf_level leaves in root_from (length level) level.

Fixpoint proof_from (fuel : nat) (level : list (list Z)) (idx : Z) : list (list Z * Z) :=
  match fuel with
  | O => []
  | S fuel' =>
      if 1 <? blen level then
        let sibling_idx := if Z.even idx then idx + 1 else idx - 1 in
        let direction := if Z.even idx then 1 else 0 in
        (default [] (level !! Z.to_nat sibling_idx), direction) :: proof_from fuel' (next_level level) (idx / 2)
      else []
  end.

Definition generate_merkle_proof (leaves : list (list Z)) (leaf_index : Z) : list (list Z * Z) :=
  if bool_decide (leaves = []) || (blen leaves <=? leaf_index) then []
  else let level := leaf_level leaves in proof_from (length level) level leaf_index.
End tree.
End Merkle.

(** ** [seq_commit/proof.rs] *)

Module SeqCommit.

Definition KSTL_SUBNETWORK_ID_HEX : list Z := str "4b53544c00000000000000000000000000000000".
Definition KSTL_GAS : Z := 0.
Definition KSTL_TRANSACTION_VERSION : Z := 1.
Definition STEALTH_PROOF_VERSION : Z := 1.
Definition STEALTH_PROOF_LENGTH : Z := 34.

Record SequenceCommitProof := {
  subnetwork_id_hex : list Z;
  gas : Z;
  transaction_version : Z;
  payload : list Z;
}.

Definition stealth_proof (ephemeral_public_key : list Z) (view_tag : Z) : SequenceCommitProof := {|
  subnetwork_id_hex := KSTL_SUBNETWORK_ID_HEX; gas := KSTL_GAS; transaction_version := KSTL_TRANSACTION_VERSION;
  payload := [STEALTH_PROOF_VERSION] ++ ephemeral_public_key ++ [view_tag] |}.

End SeqCommit.

(** ** [krc20.rs] *)

Module Krc20.

Definition PROTOCOL_TAG : list Z := str "kasplex".

(** Position of the first window of three elements that opens an envelope. *)
Fixpoint envelope_start (items : list Element) : option nat :=
  match items with
  | a :: rest =>
      let opens :=
        match rest with
        | b :: c :: _ => (opcode a =? OP_0) && (opcode b =? OP_IF) && list_Z_eqb (data c) PROTOCOL_TAG
        | _ => false
        end in
      if opens then Some O else S <$> envelope_start rest
  | [] => None
  end.

Definition envelope_payload (script : list Z) : option (list Z) :=
  let items := fst (collect (S (length script)) (elements script)) in
  start ← envelope_start items;
  let body := drop (start + 3) items in
  end_ ← fst <$> list_find (fun item => opcode item = OP_ENDIF) body;
  data <$> head (List.filter (fun item => is_push item && negb (bool_decide (data item = [])))
                   (reverse (take end_ body))).

End Krc20.

(** ** [covenant/spend_path.rs] *)

Module SpendPath.

Inductive Path := Owner | Other.

Definition salted_body_offset (script : list Z) : Z :=
  match read_element script 0 with
  | Some (salt, next) =>
      if (opcode salt =? 8) && bool_decide (get_at script next = Some OP_DROP) then next + 1 else 0
  | None => 0
  end.

Definition is_single_path (redeem_script : list Z) : bool :=
  match read_element redeem_script (salted_body_offset redeem_script) with
  | Some (element, next) =>
      (opcode element =? 32) && bool_decide (get_at redeem_script next = Some OP_CHECKSIGVERIFY)
  | None => false
  end.

Definition spend_path (signature_script redeem_script : list Z) : option Path :=
  if is_single_path redeem_script then Some Owner
  else
    elements ← complete_elements signature_script;
    '(redeem, before) ← split_last elements;
    '(selector, _) ← split_last before;
    if negb (list_Z_eqb (data redeem) redeem_script) then None
    else if opcode selector =? OP_1 then Some Owner
    else if opcode selector =? OP_0 then Some Other
    else None.

End SpendPath.

(** ** [covenant/identity.rs] *)

Module Identity.

Definition COVENANT_ID_DOMAIN : list Z := str "CovenantID".

Record GenesisOutpoint := { transaction_id : list Z; outpoint_index : Z }.

Record AuthorizedOutput := { index : Z; value : Z; spk_version : Z; spk_script : list Z }.

Inductive CovenantProofError :=
  | NoAuthorizedOutputs
  | OutputsNotOrdered
  | IdMismatch
  | MixedAuthorizingInputs
  | NoSuchInput (input : Z)
  | NotPayToScriptHash
  | RedeemScriptMismatch.

Section hash.
Variables (keyed : list Z -> list Z -> list Z) (script_hash : list Z -> list Z).

Definition output_preimage (output : AuthorizedOutput) : list Z :=
  le_bytes 4 (index output) ++ le_bytes 8 (value output) ++ le_bytes 2 (spk_version output)
  ++ le_bytes 8 (blen (spk_script output)) ++ spk_script output.

(** The bytes fed to the hasher. *)
Definition covenant_preimage (genesis : GenesisOutpoint) (outputs : list AuthorizedOutput) : list Z :=
  transaction_id genesis ++ le_bytes 4 (outpoint_index genesis) ++ le_bytes 8 (blen outputs)
  ++ concat (map output_preimage outputs).

Definition covenant_id (genesis : GenesisOutpoint) (outputs : list AuthorizedOutput) : list Z :=
  keyed COVENANT_ID_DOMAIN (covenant_preimage genesis outputs).

(** [outputs.windows(2).all(|pair| pair[0].index < pair[1].index)]. *)
Fixpoint ascending (outputs : list AuthorizedOutput) : bool :=
  match outputs with
  | a :: (b :: _) as rest => (index a <? index b) && ascending rest
  | _ => true
  end.

Definition verify_genesis (claimed : list Z) (genesis : GenesisOutpoint) (outputs : list AuthorizedOutput)
  : result unit CovenantProofError :=
  if bool_decide (outputs = []) then Err NoAuthorizedOutputs
  else if negb (ascending outputs) then Err OutputsNotOrdered
  else if negb (list_Z_eqb (covenant_id genesis outputs) claimed) then Err IdMismatch
  else Ok tt.

Definition verify_redeem_script (output : AuthorizedOutput) (redeem_script : list Z)
  : result unit CovenantProofError :=
  match (if spk_version output =? 0 then Standard.p2sh_hash (spk_script output) else None) with
  | None => Err NotPayToScriptHash
  | Some committed =>
      if negb (list_Z_eqb committed (script_hash redeem_script)) then Err RedeemScriptMismatch else Ok tt
  end.
End hash.
End Identity.
