(* ===== verification/ContractProofs.v ===== *)
(** * Contract templates are recognized exactly

    Every recognizer of a contract script accepts exactly the scripts its
    builder makes, and reads back the fields the builder was given; no script
    is recognized as two contracts. The templates are instances of one class,
    whose laws each of them discharges from the printing lemmas below. *)

From S2P Require Import Prelude Script Covenants Contracts.
Import Script.Opcode.

(** ** The elements a builder prints *)

(** A [push] of a length byte followed by [extend_from_slice] is one data
    element; every other call is an element of its own. *)
Fixpoint elements_of (pieces : list Piece) : list Element :=
  match pieces with
  | [] => []
  | Op byte :: rest =>
      match rest with
      | Extend bytes :: rest' => {| opcode := byte; data := bytes |} :: elements_of rest'
      | _ => {| opcode := byte; data := [] |} :: elements_of rest
      end
  | Extend _ :: rest => elements_of rest
  | Pubkey key :: rest => {| opcode := 0x20; data := key |} :: elements_of rest
  | Data bytes :: rest => push_element bytes :: elements_of rest
  | Int value :: rest => int_element value :: elements_of rest
  end.

(** A byte array of a fixed length, and bytes that fit one push. *)
Definition bytes_n (n : Z) (bytes : list Z) : Prop := blen bytes = n /\ bytes_ok bytes.
Definition pushable (bytes : list Z) : Prop := bytes_ok bytes /\ blen bytes <= u32_max.

Fixpoint pieces_ok (pieces : list Piece) : Prop :=
  match pieces with
  | [] => True
  | Op byte :: rest =>
      match rest with
      | Extend bytes :: rest' => 1 <= byte <= 75 /\ bytes_n byte bytes /\ pieces_ok rest'
      | _ => (byte = 0 \/ 0x4e < byte < 256) /\ pieces_ok rest
      end
  | Extend _ :: _ => False
  | Pubkey key :: rest => bytes_n 32 key /\ pieces_ok rest
  | Data bytes :: rest => pushable bytes /\ pieces_ok rest
  | Int value :: rest => u64_ok value /\ pieces_ok rest
  end.

Lemma emit_app pieces script : foldl emit script pieces = script ++ assemble pieces.
Proof.
  unfold assemble. revert script. assert (Hcons : forall piece script, emit script piece = script ++ emit [] piece).
  { intros [] script; cbn; try done. unfold push_int.
    destruct (_ =? 0); [done|]. by destruct (_ <=? 16). }
  induction pieces as [|piece pieces IH]; intros script; cbn [foldl]; [by rewrite app_nil_r|].
  rewrite (IH (emit script piece)), (IH (emit [] piece)), Hcons. by rewrite app_assoc.
Qed.

Lemma assemble_app left_ right_ : assemble (left_ ++ right_) = assemble left_ ++ assemble right_.
Proof. unfold assemble. by rewrite foldl_app, emit_app. Qed.

(** A plain opcode, and a length byte with its data, are elements. *)
Lemma plain_element byte :
  byte = 0 \/ 0x4e < byte < 256 ->
  wf_element {| opcode := byte; data := [] |} /\ element_bytes {| opcode := byte; data := [] |} = [byte].
Proof.
  intros Hb. unfold element_bytes, wf_element. opcode_cases byte; unfold byte_ok; cbn; try lia.
  all: split; [|done]; split_and!; try lia; done.
Qed.

Lemma data_element byte bytes :
  1 <= byte <= 75 -> bytes_n byte bytes ->
  wf_element {| opcode := byte; data := bytes |} /\
  element_bytes {| opcode := byte; data := bytes |} = byte :: bytes.
Proof.
  intros Hb [Hlen Hok]. unfold element_bytes, wf_element. opcode_cases byte; unfold byte_ok; cbn; try lia.
  split; [|done]. split_and!; try done; lia.
Qed.

(** The builder's bytes are its elements' bytes. *)
Lemma assemble_elements pieces :
  pieces_ok pieces -> assemble pieces = script_of (elements_of pieces) /\ Forall wf_element (elements_of pieces).
Proof.
  assert (Hcons : forall piece rest, assemble (piece :: rest) = emit [] piece ++ assemble rest).
  { intros. unfold assemble at 1. cbn [foldl]. apply emit_app. }
  assert (Hlen : (length pieces <= length pieces)%nat) by done. revert Hlen.
  generalize (length pieces) at 2 as n. intros n. revert pieces.
  induction n as [|n IH]; intros [|piece rest] Hn Hok; [by split|cbn in Hn; lia|by split|]. cbn [length] in Hn.
  assert (Hstep : forall e, emit [] piece = element_bytes e -> wf_element e -> pieces_ok rest ->
            assemble (piece :: rest) = script_of (e :: elements_of rest) /\ Forall wf_element (e :: elements_of rest)).
  { intros e He Hwf Hr. destruct (IH rest ltac:(lia) Hr) as [Heq Hall].
    rewrite Hcons, He, script_of_cons, Heq. by split; [|constructor]. }
  destruct piece as [byte|bytes|key|bytes|value]; cbn [pieces_ok elements_of] in Hok |- *.
  - destruct rest as [|[byte'|bytes|key|bytes|value] rest'].
    2-6: cbn [length] in Hn; destruct Hok as [Hb Hok].
    3: { destruct Hok as [Hbytes Hok]. destruct (data_element byte bytes Hb Hbytes) as [Hwf Hbs].
         destruct (IH rest' ltac:(lia) Hok) as [Heq Hall]. rewrite !Hcons, script_of_cons, Heq, Hbs. cbn [emit app].
         by split; [|constructor]. }
    1: destruct Hok as [Hb Hok].
    all: destruct (plain_element byte Hb) as [Hwf Hbs]; apply Hstep; [by rewrite Hbs|done|done].
  - done.
  - destruct Hok as [Hk Hok]. destruct (data_element 32 key) as [Hwf Hbs]; [lia|done|].
    apply Hstep; [by rewrite Hbs|done|done].
  - destruct Hok as [[Hb Hl] Hok]. apply Hstep; [|by apply push_element_wf|done].
    cbn [emit]. by rewrite push_data_element.
  - destruct Hok as [Hv Hok]. destruct (int_element_spec value Hv) as (Hwf & _).
    apply Hstep; [|done|done]. cbn [emit]. by rewrite push_int_element.
Qed.

Lemma complete_assemble pieces :
  pieces_ok pieces -> blen (assemble pieces) <= usize_max ->
  complete_elements (assemble pieces) = Some (elements_of pieces).
Proof. intros [Heq Hwf]%assemble_elements Hmax. rewrite Heq in *. by apply complete_script_of. Qed.

(** ** Walking over elements *)

(** What [find_preceding_script_integer] does, on elements. *)
Fixpoint walk (es : list Element) (target : Z) (previous : ScriptItem) : result (option Z) ScriptError :=
  match es with
  | [] => Ok None
  | e :: es' =>
      if opcode e =? target then
        match previous with
        | Integer value => Ok (Some value)
        | OversizedInteger => Err IntegerExceeds8Bytes
        | OpcodeItem => Ok None
        end
      else walk es' target (classify_element e)
  end.

Lemma find_preceding_walk es pre script target previous fuel :
  Forall wf_element es -> script = pre ++ script_of es -> blen script <= usize_max ->
  (length es <= fuel)%nat ->
  find_preceding_from fuel script target (blen pre) previous = walk es target previous.
Proof.
  intros Hwf. revert pre previous fuel.
  induction Hwf as [|e es He Hes IH]; intros pre previous fuel Hs Hmax Hfuel.
  - destruct fuel as [|fuel]; [done|]. cbn. destruct (get_at script (blen pre)) eqn:Hget; [|done].
    apply get_at_range in Hget. rewrite Hs, app_nil_r in Hget. lia.
  - rewrite script_of_cons in Hs. cbn [length] in Hfuel. destruct fuel as [|fuel]; [lia|].
    cbn [find_preceding_from walk]. rewrite (get_at_element script pre e (script_of es)) by done.
    destruct (_ =? _); [done|]. unfold next_script_item.
    rewrite (read_element_wf script pre (script_of es) e) by done. cbn [rbind].
    rewrite <- blen_app. apply IH; [by rewrite Hs, app_assoc|done|lia].
Qed.

Lemma find_preceding_elements es target :
  Forall wf_element es -> blen (script_of es) <= usize_max ->
  find_preceding_script_integer (script_of es) target = walk es target OpcodeItem.
Proof.
  intros Hwf Hmax. apply (find_preceding_walk es []); try done. apply length_script_of.
Qed.

Lemma find_preceding_assemble pieces target :
  pieces_ok pieces -> blen (assemble pieces) <= usize_max ->
  find_preceding_script_integer (assemble pieces) target = walk (elements_of pieces) target OpcodeItem.
Proof. intros [Heq Hwf]%assemble_elements Hmax. rewrite Heq in *. by apply find_preceding_elements. Qed.

Lemma walk_hit e es target previous :
  opcode e = target ->
  walk (e :: es) target previous =
    match previous with
    | Integer value => Ok (Some value)
    | OversizedInteger => Err IntegerExceeds8Bytes
    | OpcodeItem => Ok None
    end.
Proof. intros Hop. cbn. by rewrite Hop, Z.eqb_refl. Qed.

Lemma walk_skip e es target previous :
  opcode e <> target -> walk (e :: es) target previous = walk es target (classify_element e).
Proof. intros Hne%Z.eqb_neq. cbn. by rewrite Hne. Qed.

Lemma int_opcode_ne value target : u64_ok value -> 0x60 < target -> opcode (int_element value) <> target.
Proof. intros (_ & Hop & _)%int_element_spec Ht. lia. Qed.

Lemma classify_int value :
  u64_ok value -> classify_element (int_element value) = if value <? 2 ^ 63 then Integer value else OversizedInteger.
Proof. by intros (_ & _ & _ & ?)%int_element_spec. Qed.

Lemma integer_int value : u64_ok value -> element_integer (int_element value) = Some value.
Proof. by intros (_ & _ & ? & _)%int_element_spec. Qed.

(** ** What the readers return is well formed *)

Lemma le_val_u64 bytes : bytes_ok bytes -> blen bytes <= 8 -> u64_ok (le_val bytes).
Proof.
  intros Hok Hlen. pose proof (le_val_bound bytes Hok). pose proof (blen_nonneg bytes).
  assert (256 ^ blen bytes <= 256 ^ 8) by (apply Z.pow_le_mono_r; lia).
  change (256 ^ 8) with 18446744073709551616 in *. unfold u64_ok. lia.
Qed.

Lemma classify_u64 e value : bytes_ok (data e) -> classify_element e = Integer value -> u64_ok value.
Proof.
  intros Hok. unfold classify_element, classify_push, read_script_int.
  destruct (is_push e).
  - destruct (Z.ltb_spec 8 (blen (data e))); [done|]. intros [= <-]. by apply le_val_u64.
  - destruct (_ && _) eqn:Hrange; [|done]. intros [= <-]. apply andb_true_iff in Hrange.
    rewrite !Z.leb_le in Hrange. unfold u64_ok, OP_1, OP_16 in *. lia.
Qed.

Lemma walk_u64 es target previous value :
  Forall wf_element es -> (forall v, previous = Integer v -> u64_ok v) ->
  walk es target previous = Ok (Some value) -> u64_ok value.
Proof.
  intros Hwf. revert previous. induction Hwf as [|e es (_ & Hok & _) _ IH]; intros previous Hprev; cbn; [done|].
  destruct (_ =? _).
  - destruct previous; try done. intros [= ->]. by apply Hprev.
  - apply IH. intros v. by apply classify_u64.
Qed.

Lemma integer_at_ok es at_ value : Forall wf_element es -> integer_at es at_ = Some value -> u64_ok value.
Proof.
  intros Hwf (e & He & Hint)%bind_Some. eapply Forall_lookup_1 in Hwf as (_ & Hok & _); [|done].
  unfold element_integer in Hint.
  destruct (split_last (data e)) as [[[|?|?] stripped]|] eqn:Hsplit.
  1: { apply split_last_Some in Hsplit. rewrite Hsplit in Hok. apply bytes_ok_app in Hok as [Hok _].
       destruct (classify_element _) eqn:Hc in Hint; try done. injection Hint as <-. refine (classify_u64 _ _ _ Hc); done. }
  all: destruct (classify_element _) eqn:Hc in Hint; try done; injection Hint as <-; refine (classify_u64 _ _ _ Hc); done.
Qed.

Lemma data_at_ok es at_ bytes :
  Forall wf_element es -> data_at es at_ = Some bytes -> pushable bytes.
Proof.
  unfold data_at. intros Hwf (e & He & ->)%fmap_Some. eapply Forall_lookup_1 in Hwf as (Hop & Hok & Hlen); [|done].
  split; [done|]. destruct e as [op d]. unfold byte_ok in Hop. revert Hlen.
  opcode_cases op; unfold u8_max, u16_max, u32_max; lia.
Qed.

Lemma array_Some n bytes a : array n bytes = Some a <-> a = bytes /\ blen bytes = n.
Proof. unfold array. destruct (Z.eqb_spec (blen bytes) n); naive_solver. Qed.

Lemma array_at_ok n es at_ a : Forall wf_element es -> array_at n es at_ = Some a -> bytes_n n a.
Proof.
  intros Hwf (bytes & Hbytes & [-> Hn]%array_Some)%bind_Some.
  destruct (data_at_ok _ _ _ Hwf Hbytes). by split.
Qed.

Lemma get_from_ok bytes i tail : 0 <= i -> pushable bytes -> get_from bytes i = Some tail ->
  bytes_ok tail /\ blen tail + i <= u32_max.
Proof.
  intros Hi [Hok Hlen] (l1 & l3 & -> & Hl1 & Hl2)%slice_Some.
  apply bytes_ok_app in Hok as [_ [Hok _]%bytes_ok_app]. autorewrite with blen in *.
  pose proof (blen_nonneg l3). split; [done|lia].
Qed.

Lemma if_rebuilt_Some {F} rebuilt script (fields f : F) :
  if_rebuilt rebuilt script fields = Some f <-> rebuilt = script /\ fields = f.
Proof.
  unfold if_rebuilt. destruct (list_Z_eqb rebuilt script) eqn:Heq.
  - apply list_Z_eqb_eq in Heq. naive_solver.
  - split; [done|]. intros [Hs _]. apply list_Z_eqb_eq in Hs. congruence.
Qed.

Lemma walked_Some {E} (r : result (option Z) E) found : walked r = Some found <-> r = Ok found.
Proof. destruct r; naive_solver. Qed.

Lemma array_ok n bytes : bytes_n n bytes -> array n bytes = Some bytes.
Proof. intros [Hn _]. by apply array_Some. Qed.

(** ** Templates *)

(** What a contract template promises: a builder (where the template has
    conditions on its fields, [None] when they fail), a recognizer, and the
    fields that are values of their types. *)
Class Template (F : Type) := {
  build : F -> option (list Z);
  recognize : list Z -> option F;
  well_formed : F -> Prop;
}.

Class LawfulTemplate (F : Type) {template : Template F} : Prop := {
  recognize_build f script :
    well_formed f -> build f = Some script -> blen script <= usize_max -> recognize script = Some f;
  recognize_inv script f :
    bytes_ok script -> blen script <= usize_max -> recognize script = Some f ->
    well_formed f /\ build f = Some script;
}.

(** Values below [2^63] are the ones the script walkers report. *)
Definition walkable (value : Z) : Prop := 0 <= value < 2 ^ 63.
Definition spk_ok (spk : list Z) : Prop := bytes_ok spk /\ blen spk + 2 <= u32_max.

Lemma walkable_u64 value : walkable value -> u64_ok value.
Proof. unfold walkable, u64_ok. lia. Qed.

Lemma pushable_versioned spk : spk_ok spk -> pushable (0x00 :: 0x00 :: spk).
Proof.
  intros [Hok Hlen]. split; [|len]. repeat (apply bytes_ok_cons; split; [unfold byte_ok; lia|]). done.
Qed.

Lemma pushable_n n bytes : n <= u32_max -> bytes_n n bytes -> pushable bytes.
Proof. intros Hn [Hlen Hok]. split; [done|lia]. Qed.

Lemma get_from_versioned spk : get_from (0x00 :: 0x00 :: spk) 2 = Some spk.
Proof.
  unfold get_from. pose proof (blen_nonneg spk).
  apply (slice_split _ [0x00; 0x00] spk []); [by rewrite app_nil_r|done|len].
Qed.

Lemma spk_ok_get_from bytes spk : pushable bytes -> get_from bytes 2 = Some spk -> spk_ok spk.
Proof. intros Hb Hget. apply (get_from_ok bytes 2); [lia|done|done]. Qed.

(** Side conditions: a literal opcode or integer, or a hypothesis. *)
Ltac piece_ok :=
  lazymatch goal with
  | |- _ \/ _ => first [left; reflexivity | right; split; reflexivity]
  | |- _ <= _ <= _ => split; discriminate
  | |- bytes_n _ _ => assumption
  | |- pushable (0x00 :: 0x00 :: _) => apply pushable_versioned; assumption
  | |- pushable _ =>
      first [ apply (pushable_n 32); [discriminate | assumption]
            | apply (pushable_n 16); [discriminate | assumption]
            | assumption ]
  | |- u64_ok _ => first [assumption | apply walkable_u64; assumption | split; [discriminate | reflexivity]]
  end.

(** [pieces_ok] of a literal piece list. *)
Ltac pieces_ok := cbn [pieces_ok app append_global_thread_enforcement]; repeat (split; [piece_ok|]); try exact I.

(** The elements of a literal piece list, read at literal positions. *)
Ltac read_fields :=
  cbn [elements_of app append_global_thread_enforcement];
  unfold array_at, integer_at, data_at;
  repeat first
    [ rewrite array_ok by assumption
    | rewrite integer_int by piece_ok
    | rewrite get_from_versioned
    | progress cbn [lookup list_lookup fmap option_fmap option_map mbind option_bind data opcode push_element] ];
  try (apply if_rebuilt_Some; split; [reflexivity|]).

(** One element of a walk over a literal piece list. *)
Ltac walk_elements :=
  cbn [elements_of app append_global_thread_enforcement];
  repeat first
    [ rewrite walk_hit by reflexivity
    | rewrite walk_skip by first [apply int_opcode_ne; [piece_ok | reflexivity] | vm_compute; discriminate] ].

(** Build direction of a law: the goal recognizes [assemble pieces]. *)
Ltac assemble_pieces :=
  match goal with
  | |- context [complete_elements (assemble ?pieces)] =>
      assert (Hpieces : pieces_ok pieces) by pieces_ok;
      rewrite complete_assemble by assumption; cbn [mbind option_bind]
  end.

(** The law when every field is read at a fixed position. *)
Ltac recognize_built template fields builder :=
  let f := fresh "f" in let script := fresh "script" in let Hwf := fresh "Hwf" in let Hmax := fresh "Hmax" in
  intros f script Hwf [= <-] Hmax; unfold recognize, well_formed, template, fields, builder in *;
  destruct_and? Hwf; assemble_pieces; read_fields; by destruct f.

(** Inverse direction: the elements, and each field read from them. *)
Ltac read_inv H :=
  repeat (let x := fresh "x" in let Hx := fresh "Hx" in apply bind_Some in H as (x & Hx & H)).

Lemma complete_inv script es :
  bytes_ok script -> blen script <= usize_max -> complete_elements script = Some es ->
  script = script_of es /\ Forall wf_element es.
Proof. intros Hok Hmax Hes. by apply (complete_elements_spec script es). Qed.

Ltac field_ok :=
  solve
    [ eapply array_at_ok; eassumption
    | eapply integer_at_ok; eassumption
    | match goal with
      | Hx : _ = Some ?spk |- spk_ok ?spk =>
          let bytes := fresh "bytes" in let Hb := fresh "Hb" in let Hget := fresh "Hget" in
          apply bind_Some in Hx as (bytes & Hb & Hget);
          apply (spk_ok_get_from bytes); [eapply data_at_ok; eassumption | exact Hget]
      end ].

(** Open a recognition hypothesis: the elements, each field and the rebuilt
    script. *)
Ltac open_fields template fields :=
  let script := fresh "script" in let f := fresh "f" in let Hok := fresh "Hok" in let Hmax := fresh "Hmax" in
  let H := fresh "H" in
  intros script f Hok Hmax H; unfold recognize, build, well_formed, template, fields in *; read_inv H;
  match goal with
  | Hes : complete_elements script = Some ?es |- _ =>
      destruct (complete_inv script es Hok Hmax Hes) as [Hscript Hwf]
  end;
  apply if_rebuilt_Some in H as [Hrebuilt <-].

Ltac close_fields :=
  split; [|match goal with Hr : _ = _ |- _ => exact (f_equal Some Hr) end];
  split_and!; cbn; first [assumption | field_ok].

Ltac recognize_inverse template fields := open_fields template fields; close_fields.

(** ** The instances *)


#[export] Instance escrow_template : Template Escrow.EscrowFields := {
  build f := Some (Escrow.build_escrow_script (Escrow.alice_pubkey f) (Escrow.bob_pubkey f)
                     (Escrow.arbiter_pubkey f) (Escrow.alice_spk f) (Escrow.bob_spk f) (Escrow.salt f));
  recognize := Escrow.escrow_script_fields;
  well_formed f := bytes_n 32 (Escrow.alice_pubkey f) /\ bytes_n 32 (Escrow.bob_pubkey f) /\
    bytes_n 32 (Escrow.arbiter_pubkey f) /\ spk_ok (Escrow.alice_spk f) /\ spk_ok (Escrow.bob_spk f) /\
    bytes_n 8 (Escrow.salt f);
}.
#[export] Instance escrow_lawful : LawfulTemplate Escrow.EscrowFields.
Proof.
  split.
  - recognize_built escrow_template Escrow.escrow_script_fields Escrow.build_escrow_script.
  - recognize_inverse escrow_template Escrow.escrow_script_fields.
Qed.

#[export] Instance savings_template : Template Savings.TimelockedSavingsFields := {
  build f := Some (Savings.build_timelocked_savings_script (Savings.wallet1_pubkey f) (Savings.wallet2_pubkey f)
                     (Savings.locktime_daa f));
  recognize := Savings.timelocked_savings_script_fields;
  well_formed f := bytes_n 32 (Savings.wallet1_pubkey f) /\ bytes_n 32 (Savings.wallet2_pubkey f) /\
    u64_ok (Savings.locktime_daa f);
}.
#[export] Instance savings_lawful : LawfulTemplate Savings.TimelockedSavingsFields.
Proof.
  split.
  - recognize_built savings_template Savings.timelocked_savings_script_fields
      Savings.build_timelocked_savings_script.
  - recognize_inverse savings_template Savings.timelocked_savings_script_fields.
Qed.

#[export] Instance dms_template : Template Dms.DmsFields := {
  build f := Some (Dms.build_dms_csv_script (Dms.owner_pubkey f) (Dms.heir_pubkey f) (Dms.inactivity_daa f));
  recognize := Dms.dms_script_fields;
  well_formed f := bytes_n 32 (Dms.owner_pubkey f) /\ bytes_n 32 (Dms.heir_pubkey f) /\ u64_ok (Dms.inactivity_daa f);
}.
#[export] Instance dms_lawful : LawfulTemplate Dms.DmsFields.
Proof.
  split.
  - recognize_built dms_template Dms.dms_script_fields Dms.build_dms_csv_script.
  - recognize_inverse dms_template Dms.dms_script_fields.
Qed.

#[export] Instance oracle_v1_template : Template OracleV1.OracleV1Fields := {
  build f := Some (OracleV1.build_oracle_v1_covenant_script (OracleV1.owner_pubkey f) (OracleV1.beneficiary_pubkey f)
                     (OracleV1.oracle_pubkey f) (OracleV1.message_commitment f) (OracleV1.locktime_daa f)
                     (OracleV1.salt f));
  recognize := OracleV1.oracle_v1_script_fields;
  well_formed f := bytes_n 32 (OracleV1.owner_pubkey f) /\ bytes_n 32 (OracleV1.beneficiary_pubkey f) /\
    bytes_n 32 (OracleV1.oracle_pubkey f) /\ bytes_n 32 (OracleV1.message_commitment f) /\
    u64_ok (OracleV1.locktime_daa f) /\ bytes_n 16 (OracleV1.salt f);
}.
#[export] Instance oracle_v1_lawful : LawfulTemplate OracleV1.OracleV1Fields.
Proof.
  split.
  - recognize_built oracle_v1_template OracleV1.oracle_v1_script_fields OracleV1.build_oracle_v1_covenant_script.
  - recognize_inverse oracle_v1_template OracleV1.oracle_v1_script_fields.
Qed.

#[export] Instance payjoin_template : Template Payjoin.PayjoinFields := {
  build f := Some (Payjoin.build_payjoin_covenant_script (Payjoin.owner_pubkey f) (Payjoin.beneficiary_pubkey f)
                     (Payjoin.locktime_daa f) (Payjoin.min_inputs f) (Payjoin.min_outputs f));
  recognize := Payjoin.payjoin_script_fields;
  well_formed f := bytes_n 32 (Payjoin.owner_pubkey f) /\ bytes_n 32 (Payjoin.beneficiary_pubkey f) /\
    u64_ok (Payjoin.locktime_daa f) /\ u64_ok (Payjoin.min_inputs f) /\ u64_ok (Payjoin.min_outputs f);
}.
#[export] Instance payjoin_lawful : LawfulTemplate Payjoin.PayjoinFields.
Proof.
  split.
  - recognize_built payjoin_template Payjoin.payjoin_script_fields Payjoin.build_payjoin_covenant_script.
  - recognize_inverse payjoin_template Payjoin.payjoin_script_fields.
Qed.

#[export] Instance commit_reveal_template : Template CommitReveal.CommitRevealFields := {
  build f := Some (CommitReveal.build_commit_reveal_script (CommitReveal.owner_pubkey f)
                     (CommitReveal.committed_hash f) (CommitReveal.locktime_daa f));
  recognize := CommitReveal.commit_reveal_script_fields;
  well_formed f := bytes_n 32 (CommitReveal.owner_pubkey f) /\ bytes_n 32 (CommitReveal.committed_hash f) /\
    u64_ok (CommitReveal.locktime_daa f);
}.
#[export] Instance commit_reveal_lawful : LawfulTemplate CommitReveal.CommitRevealFields.
Proof.
  split.
  - recognize_built commit_reveal_template CommitReveal.commit_reveal_script_fields
      CommitReveal.build_commit_reveal_script.
  - recognize_inverse commit_reveal_template CommitReveal.commit_reveal_script_fields.
Qed.

(** *** Templates with optional clauses, read by the script walker *)

(** What the walker reports for a pushed integer. *)
Definition reported (value : Z) : result (option Z) ScriptError :=
  if value <? 2 ^ 63 then Ok (Some value) else Err IntegerExceeds8Bytes.

Lemma reported_walkable value : walkable value -> reported value = Ok (Some value).
Proof. unfold walkable, reported. intros. by decide_tests. Qed.

Lemma reported_int value :
  u64_ok value ->
  match classify_element (int_element value) with
  | Integer found => Ok (Some found)
  | OversizedInteger => Err IntegerExceeds8Bytes
  | OpcodeItem => Ok None
  end = reported value.
Proof. intros Hv. rewrite classify_int by done. unfold reported. by destruct (_ <? _). Qed.

(** The walker's answer on a script it decoded is a [u64]. *)
Lemma walked_u64 script es target found value :
  script = script_of es -> Forall wf_element es -> blen script <= usize_max ->
  walked (find_preceding_script_integer script target) = Some found -> found = Some value -> u64_ok value.
Proof.
  intros -> Hwf Hmax Hwalk%walked_Some ->. rewrite find_preceding_elements in Hwalk by done.
  by eapply walk_u64 in Hwalk.
Qed.

Lemma walked_default_u64 script es target found :
  script = script_of es -> Forall wf_element es -> blen script <= usize_max ->
  walked (find_preceding_script_integer script target) = Some found -> u64_ok (default 0 found).
Proof.
  intros Hs Hwf Hmax Hwalk. destruct found as [value|]; [|done]. by eapply walked_u64.
Qed.

Lemma walkable_reported value found :
  u64_ok value -> walked (reported value) = Some found -> walkable value.
Proof.
  unfold walkable, reported, u64_ok. intros Hv. destruct (Z.ltb_spec value (2 ^ 63)); [lia|done].
Qed.

Lemma spending_limit_walk owner cap cooldown salt :
  bytes_n 32 owner -> u64_ok cap -> u64_ok cooldown -> bytes_n 8 salt ->
  blen (SpendingLimit.build_global_spending_limit_script owner cap cooldown salt) <= usize_max ->
  find_preceding_script_integer (SpendingLimit.build_global_spending_limit_script owner cap cooldown salt) OP_SUB
    = reported cap.
Proof.
  intros. unfold SpendingLimit.build_global_spending_limit_script in *.
  rewrite find_preceding_assemble by first [done|pieces_ok]. walk_elements. by apply reported_int.
Qed.

#[export] Instance spending_limit_template : Template SpendingLimit.GlobalSpendingLimitFields := {
  build f := Some (SpendingLimit.build_global_spending_limit_script (SpendingLimit.owner_pubkey f)
                     (SpendingLimit.max_withdraw_sompi f) (SpendingLimit.cooldown_daa f) (SpendingLimit.salt f));
  recognize := SpendingLimit.global_spending_limit_script_fields;
  well_formed f := bytes_n 32 (SpendingLimit.owner_pubkey f) /\ walkable (SpendingLimit.max_withdraw_sompi f) /\
    u64_ok (SpendingLimit.cooldown_daa f) /\ bytes_n 8 (SpendingLimit.salt f);
}.
#[export] Instance spending_limit_lawful : LawfulTemplate SpendingLimit.GlobalSpendingLimitFields.
Proof.
  split.
  - intros f script (Howner & Hcap & Hcooldown & Hsalt) [= <-] Hmax.
    unfold recognize, spending_limit_template, SpendingLimit.global_spending_limit_script_fields.
    rewrite spending_limit_walk, reported_walkable by first [assumption | by apply walkable_u64].
    unfold SpendingLimit.build_global_spending_limit_script in *. assemble_pieces. read_fields. by destruct f.
  - open_fields spending_limit_template SpendingLimit.global_spending_limit_script_fields.
    assert (Hcap : walkable x4); [|close_fields].
    assert (Hv : u64_ok x4) by (eapply walked_u64; eassumption).
    rewrite <- Hrebuilt, spending_limit_walk in Hx3 by first [assumption | field_ok | by rewrite Hrebuilt].
    by eapply walkable_reported.
Qed.

(** The walker's answer for an optional clause. *)
Definition reported_opt (value : Z) : result (option Z) ScriptError :=
  if 0 <? value then reported value else Ok None.

Lemma reported_opt_walkable value :
  walkable value -> exists found, reported_opt value = Ok found /\ default 0 found = value.
Proof.
  unfold reported_opt. intros Hv. destruct (Z.ltb_spec 0 value).
  - exists (Some value). by rewrite reported_walkable.
  - exists None. split; [done|]. unfold walkable in Hv. cbn. lia.
Qed.

Lemma walkable_reported_opt value found :
  u64_ok value -> walked (reported_opt value) = Some found -> walkable value.
Proof.
  unfold reported_opt. intros Hv. destruct (Z.ltb_spec 0 value); [by apply walkable_reported|].
  unfold walkable, u64_ok in *. lia.
Qed.

(** Case analysis on the optional clauses, then a walk over literal pieces. *)
Ltac walk_clauses :=
  unfold reported_opt;
  repeat match goal with |- context [0 <? ?value] => destruct (0 <? value) end;
  cbn [orb app]; intros Hmax;
  rewrite find_preceding_assemble by first [done | pieces_ok]; walk_elements;
  first [by apply reported_int | reflexivity].

Lemma piggy_bank_walk owner threshold deadline salt :
  bytes_n 32 owner -> u64_ok threshold -> u64_ok deadline -> bytes_n 8 salt ->
  blen (Savings.build_piggy_bank_script owner threshold deadline salt) <= usize_max ->
  find_preceding_script_integer (Savings.build_piggy_bank_script owner threshold deadline salt) OP_GREATERTHANOREQUAL
    = reported_opt threshold /\
  extract_cltv_locktime (Savings.build_piggy_bank_script owner threshold deadline salt) = reported_opt deadline.
Proof.
  intros Howner Hthreshold Hdeadline Hsalt. unfold Savings.build_piggy_bank_script, extract_cltv_locktime.
  intros Hlen. split; revert Hlen; walk_clauses.
Qed.

#[export] Instance piggy_bank_template : Template Savings.PiggyBankFields := {
  build f := Some (Savings.build_piggy_bank_script (Savings.owner_pubkey f) (Savings.threshold_sompi f)
                     (Savings.deadline_daa f) (Savings.salt f));
  recognize := Savings.piggy_bank_script_fields;
  well_formed f := bytes_n 32 (Savings.owner_pubkey f) /\ walkable (Savings.threshold_sompi f) /\
    walkable (Savings.deadline_daa f) /\ bytes_n 8 (Savings.salt f);
}.
#[export] Instance piggy_bank_lawful : LawfulTemplate Savings.PiggyBankFields.
Proof.
  split.
  - intros f script (Howner & Hgoal & Hdeadline & Hsalt) [= <-] Hmax.
    unfold recognize, piggy_bank_template, Savings.piggy_bank_script_fields.
    destruct (piggy_bank_walk (Savings.owner_pubkey f) (Savings.threshold_sompi f) (Savings.deadline_daa f)
                (Savings.salt f)) as [Hw1 Hw2]; [by try apply walkable_u64..|].
    rewrite Hw1, Hw2.
    destruct (reported_opt_walkable (Savings.threshold_sompi f) Hgoal) as (found1 & -> & Hf1).
    destruct (reported_opt_walkable (Savings.deadline_daa f) Hdeadline) as (found2 & -> & Hf2).
    clear Hw1 Hw2. cbn [walked mbind option_bind]. rewrite Hf1, Hf2. clear found1 found2 Hf1 Hf2.
    unfold Savings.build_piggy_bank_script in *.
    destruct (0 <? Savings.threshold_sompi f), (0 <? Savings.deadline_daa f); cbn [orb app] in *;
      assemble_pieces; read_fields; by destruct f.
  - open_fields piggy_bank_template Savings.piggy_bank_script_fields.
    assert (Hv : u64_ok (default 0 x2)) by (eapply walked_default_u64; eassumption).
    assert (Hv' : u64_ok (default 0 x3)) by (eapply walked_default_u64; eassumption).
    destruct (piggy_bank_walk x1 (default 0 x2) (default 0 x3) x0) as [Hw1 Hw2];
      [field_ok|done|done|field_ok|by rewrite Hrebuilt|].
    rewrite Hrebuilt in Hw1, Hw2. rewrite Hw1 in Hx2. rewrite Hw2 in Hx3.
    assert (walkable (default 0 x2)) by by eapply walkable_reported_opt.
    assert (walkable (default 0 x3)) by by eapply walkable_reported_opt.
    clear Hw1 Hw2. close_fields.
Qed.

Lemma global_allowance_walk owner beneficiary cap cooldown start salt :
  bytes_n 32 owner -> bytes_n 32 beneficiary -> u64_ok cap -> u64_ok cooldown -> u64_ok start -> bytes_n 8 salt ->
  let script := Allowance.build_global_allowance_script owner beneficiary cap cooldown start salt in
  blen script <= usize_max ->
  find_preceding_script_integer script OP_SUB = reported cap /\
  extract_csv_sequence script = reported_opt cooldown /\
  extract_cltv_locktime script = reported_opt start.
Proof.
  intros ? ? ? ? ? ?. cbv zeta.
  unfold Allowance.build_global_allowance_script, extract_csv_sequence, extract_cltv_locktime.
  intros Hlen. split_and!; revert Hlen; walk_clauses.
Qed.

#[export] Instance global_allowance_template : Template Allowance.GlobalAllowanceFields := {
  build f := Some (Allowance.build_global_allowance_script (Allowance.owner_pubkey f) (Allowance.beneficiary_pubkey f)
                     (Allowance.max_withdraw_sompi f) (Allowance.cooldown_daa f) (Allowance.start_daa f)
                     (Allowance.salt f));
  recognize := Allowance.global_allowance_script_fields;
  well_formed f := bytes_n 32 (Allowance.owner_pubkey f) /\ bytes_n 32 (Allowance.beneficiary_pubkey f) /\
    walkable (Allowance.max_withdraw_sompi f) /\ walkable (Allowance.cooldown_daa f) /\
    walkable (Allowance.start_daa f) /\ bytes_n 8 (Allowance.salt f);
}.
#[export] Instance global_allowance_lawful : LawfulTemplate Allowance.GlobalAllowanceFields.
Proof.
  split.
  - intros f script (Howner & Hbeneficiary & Hcap & Hcooldown & Hstart & Hsalt) [= <-] Hmax.
    unfold recognize, global_allowance_template, Allowance.global_allowance_script_fields.
    destruct (global_allowance_walk (Allowance.owner_pubkey f) (Allowance.beneficiary_pubkey f)
                (Allowance.max_withdraw_sompi f) (Allowance.cooldown_daa f) (Allowance.start_daa f)
                (Allowance.salt f)) as (Hw1 & Hw2 & Hw3); [by try apply walkable_u64..|].
    rewrite Hw1, Hw2, Hw3, reported_walkable by done.
    destruct (reported_opt_walkable (Allowance.cooldown_daa f) Hcooldown) as (found1 & -> & Hf1).
    destruct (reported_opt_walkable (Allowance.start_daa f) Hstart) as (found2 & -> & Hf2).
    clear Hw1 Hw2 Hw3. cbn [walked mbind option_bind]. rewrite Hf1, Hf2. clear found1 found2 Hf1 Hf2.
    unfold Allowance.build_global_allowance_script in *.
    destruct (0 <? Allowance.start_daa f), (0 <? Allowance.cooldown_daa f); cbn [app] in *;
      assemble_pieces; read_fields; by destruct f.
  - open_fields global_allowance_template Allowance.global_allowance_script_fields.
    assert (Hv1 : u64_ok x4) by (eapply (walked_u64 _ _ OP_SUB); eassumption).
    assert (Hv2 : u64_ok (default 0 x5)) by (eapply walked_default_u64; eassumption).
    assert (Hv3 : u64_ok (default 0 x6)) by (eapply walked_default_u64; eassumption).
    destruct (global_allowance_walk x1 x2 x4 (default 0 x5) (default 0 x6) x0) as (Hw1 & Hw2 & Hw3);
      [field_ok|field_ok|done|done|done|field_ok|by rewrite Hrebuilt|].
    rewrite Hrebuilt in Hw1, Hw2, Hw3. rewrite Hw1 in Hx3. rewrite Hw2 in Hx5. rewrite Hw3 in Hx6.
    assert (walkable x4) by by eapply walkable_reported.
    assert (walkable (default 0 x5)) by by eapply walkable_reported_opt.
    assert (walkable (default 0 x6)) by by eapply walkable_reported_opt.
    clear Hw1 Hw2 Hw3. close_fields.
Qed.

(** *** Templates whose builder checks its request *)

(** The request a Private Swap builder accepts, besides field types. *)
#[export] Instance private_swap_template : Template PrivateSwap.PrivateSwapFields := {
  build f := match PrivateSwap.build_private_swap_script (PrivateSwap.owner_pubkey f) (PrivateSwap.claimer_pubkey f)
                     (PrivateSwap.claimer_output_spk f) (PrivateSwap.refund_locktime_daa f) (PrivateSwap.salt f) with
             | Ok script => Some script
             | Err _ => None
             end;
  recognize := PrivateSwap.private_swap_script_fields;
  well_formed f := bytes_n 32 (PrivateSwap.owner_pubkey f) /\ bytes_n 32 (PrivateSwap.claimer_pubkey f) /\
    spk_ok (PrivateSwap.claimer_output_spk f) /\ u64_ok (PrivateSwap.refund_locktime_daa f) /\
    bytes_n 16 (PrivateSwap.salt f);
}.
Definition swap_pieces (f : PrivateSwap.PrivateSwapFields) : list Piece :=
  [Data (PrivateSwap.salt f); Op OP_DROP;
   Op OP_IF; Pubkey (PrivateSwap.claimer_pubkey f); Op OP_CHECKSIGVERIFY;
   Op OP_TX_INPUT_COUNT; Int 1; Op OP_NUMEQUALVERIFY; Op OP_TX_OUTPUT_COUNT; Int 1; Op OP_NUMEQUALVERIFY;
   Int 0; Op OP_TX_OUTPUT_SPK; Data (0x00 :: 0x00 :: PrivateSwap.claimer_output_spk f); Op OP_EQUALVERIFY] ++
  PrivateSwap.append_claim_fee_bound ++
  [Op OP_1;
   Op OP_ELSE; Pubkey (PrivateSwap.owner_pubkey f); Op OP_CHECKSIGVERIFY;
   Int (PrivateSwap.refund_locktime_daa f); Op OP_CHECKLOCKTIMEVERIFY; Op OP_1; Op OP_ENDIF].

Lemma swap_built f script :
  well_formed f -> build f = Some script -> script = assemble (swap_pieces f) /\ pieces_ok (swap_pieces f).
Proof.
  intros (Howner & Hclaimer & Hspk & Hlock & Hsalt). unfold build, private_swap_template.
  unfold PrivateSwap.build_private_swap_script.
  repeat match goal with |- context [if ?b then _ else _] => destruct b; [done|] end.
  intros [= <-]. split; [done|]. unfold swap_pieces, PrivateSwap.append_claim_fee_bound. pieces_ok.
Qed.

#[export] Instance private_swap_lawful : LawfulTemplate PrivateSwap.PrivateSwapFields.
Proof.
  split.
  - intros f script Hwf Hbuild Hmax. destruct (swap_built f script Hwf Hbuild) as [Hs Hpieces].
    assert (Hes : complete_elements script = Some (elements_of (swap_pieces f)))
      by (rewrite Hs in *; by apply complete_assemble).
    destruct Hwf as (Howner & Hclaimer & Hspk & Hlock & Hsalt).
    unfold recognize, build, private_swap_template, PrivateSwap.private_swap_script_fields in *. rewrite Hes.
    unfold swap_pieces, PrivateSwap.append_claim_fee_bound. read_fields.
    destruct (PrivateSwap.build_private_swap_script _ _ _ _ _); [|done]. injection Hbuild as ->.
    apply if_rebuilt_Some. split; [done|by destruct f].
  - intros script f Hok Hmax H.
    unfold recognize, build, well_formed, private_swap_template, PrivateSwap.private_swap_script_fields in *.
    read_inv H. destruct (complete_inv script x Hok Hmax Hx) as [Hscript Hwf].
    destruct (PrivateSwap.build_private_swap_script _ _ _ _ _) as [s|] eqn:Hb in H; [|done].
    apply if_rebuilt_Some in H as [-> <-]. cbn. rewrite Hb. split; [|done]. split_and!; field_ok.
Qed.

Section shipping.
Import ShippingEscrow.

#[export] Instance shipping_template : Template ShippingEscrowTerms := {
  build f := match build_ship_escrow_script f with Ok script => Some script | Err _ => None end;
  recognize := ship_escrow_terms;
  well_formed f := bytes_n 32 (seller_pubkey f) /\ bytes_n 32 (deliverer_pubkey f) /\ bytes_n 32 (buyer_pubkey f) /\
    bytes_n 32 (arbiter_pubkey f) /\ u64_ok (product_sompi f) /\ u64_ok (fee_sompi f) /\
    u64_ok (cltv1_deadline f) /\ u64_ok (cltv2_deadline f) /\ bytes_n 8 (salt f);
}.

Lemma new_tranches_spec product fee t :
  u64_ok product -> u64_ok fee ->
  new_tranches product fee = Ok t <->
  u64_ok (product + fee) /\
  t = {| total := product + fee; first := product / 2; second := product - product / 2;
         remainder := product + fee - product / 2 |}.
Proof.
  intros Hp Hf. unfold new_tranches, checked_add, checked_sub. unfold u64_ok in *.
  assert (0 <= product / 2 <= product) by (split; [apply Z.div_pos; lia|apply Z.div_le_upper_bound; lia]).
  destruct (checked_u64 (product + fee)) as [total|] eqn:Ht.
  - apply checked_u64_Some in Ht as [-> Ht]. unfold u64_ok in Ht. cbn [ok_or rbind].
    rewrite !checked_u64_id by (unfold u64_ok; lia). cbn [ok_or rbind]. naive_solver.
  - apply checked_u64_None in Ht. unfold u64_ok in Ht. cbn [ok_or rbind]. naive_solver lia.
Qed.

Lemma spk_pubkey_p2pk key : bytes_n 32 key -> spk_pubkey (push_element (p2pk_script_public_key key)) = Some key.
Proof.
  intros [Hlen Hok]. unfold spk_pubkey, p2pk_script_public_key. cbn [data push_element].
  rewrite (slice_split _ [0; 0; 32] key [OP_CHECKSIG]) by (try app_eq; try len; done).
  cbn [mbind option_bind]. by apply array_ok.
Qed.

Lemma spk_pubkey_ok e key : wf_element e -> spk_pubkey e = Some key -> bytes_n 32 key.
Proof.
  intros (_ & Hok & _) (bytes & Hb & [-> Hlen]%array_Some)%bind_Some.
  apply slice_Some in Hb as (l1 & l3 & Hd & _ & _). rewrite Hd in Hok.
  apply bytes_ok_app in Hok as [_ [Hok _]%bytes_ok_app]. by split.
Qed.

Lemma pushable_p2pk key : bytes_n 32 key -> pushable (p2pk_script_public_key key).
Proof.
  intros [Hlen Hok]. unfold p2pk_script_public_key. split; [|unfold u32_max; len].
  rewrite !bytes_ok_app, !bytes_ok_cons. unfold byte_ok, OP_CHECKSIG. split_and!; try done; lia.
Qed.

Lemma lookup_spk es at_ key :
  Forall wf_element es -> (element ← es !! at_; spk_pubkey element) = Some key -> bytes_n 32 key.
Proof.
  intros Hwf (e & He & Hkey)%bind_Some. eapply Forall_lookup_1 in Hwf; [|done]. by eapply spk_pubkey_ok.
Qed.

(** What an accepted request appends. *)
Definition shipping_pieces (f : ShippingEscrowTerms) : list Piece :=
  [Op 0x08; Extend (salt f); Op OP_DROP; Op OP_TX_INPUT_INDEX; Op OP_TX_INPUT_AMOUNT] ++
  state_zero_dispatch {|
    z_total := product_sompi f + fee_sompi f; z_remainder := product_sompi f + fee_sompi f - product_sompi f / 2;
    z_fee_sompi := fee_sompi f; pickup_deadline := cltv1_deadline f; z_delivery_deadline := cltv2_deadline f;
    z_seller_spk := p2pk_script_public_key (seller_pubkey f);
    z_deliverer_spk := p2pk_script_public_key (deliverer_pubkey f);
    z_buyer_spk := p2pk_script_public_key (buyer_pubkey f); z_deliverer_pubkey := deliverer_pubkey f;
    z_buyer_pubkey := buyer_pubkey f; z_arbiter_pubkey := arbiter_pubkey f |}.

Lemma shipping_built f script :
  well_formed f -> build_ship_escrow_script f = Ok script ->
  u64_ok (product_sompi f + fee_sompi f) /\ script = assemble (shipping_pieces f) /\ pieces_ok (shipping_pieces f).
Proof.
  intros (Hseller & Hdeliverer & Hbuyer & Harbiter & Hproduct & Hfee & Hpickup & Hdelivery & Hsalt) Hs.
  unfold build_ship_escrow_script in Hs. destruct (new_tranches _ _) as [t|] eqn:Ht in Hs; [|done].
  cbn [rbind] in Hs. injection Hs as <-. apply new_tranches_spec in Ht as [Htotal ->]; [|done..].
  split_and!; [done|done|].
  pose proof (pushable_p2pk _ Hseller). pose proof (pushable_p2pk _ Hdeliverer). pose proof (pushable_p2pk _ Hbuyer).
  assert (Hrest : u64_ok (product_sompi f + fee_sompi f - product_sompi f / 2)).
  { unfold u64_ok in *. assert (0 <= product_sompi f / 2 <= product_sompi f)
      by (split; [apply Z.div_pos; lia|apply Z.div_le_upper_bound; lia]). lia. }
  unfold shipping_pieces, state_zero_dispatch, append_pickup_or_refund, state_one_dispatch, append_delivery_or_refund.
  cbn [z_total z_remainder z_fee_sompi pickup_deadline z_delivery_deadline z_seller_spk z_deliverer_spk z_buyer_spk
    z_deliverer_pubkey z_buyer_pubkey z_arbiter_pubkey o_remainder o_fee_sompi delivery_deadline seller_spk
    deliverer_spk buyer_spk o_buyer_pubkey o_arbiter_pubkey].
  pieces_ok.
Qed.

#[export] Instance shipping_lawful : LawfulTemplate ShippingEscrowTerms.
Proof.
  split.
  - intros f script Hwf Hbuild Hmax. unfold recognize, build, shipping_template, ship_escrow_terms in *.
    destruct (build_ship_escrow_script f) as [s|] eqn:Hb; [|done]. injection Hbuild as ->.
    destruct (shipping_built f script Hwf Hb) as (Htotal & Hs & Hpieces).
    assert (Hes : complete_elements script = Some (elements_of (shipping_pieces f)))
      by (rewrite Hs in *; by apply complete_assemble).
    destruct Hwf as (Hseller & Hdeliverer & Hbuyer & Harbiter & Hproduct & Hfee & Hpickup & Hdelivery & Hsalt).
    rewrite Hes. unfold FEE, SELLER_SPK, DELIVERER_PUBKEY, BUYER_SPK, ARBITER_PUBKEY, TOTAL, PICKUP_DEADLINE,
      DELIVERY_DEADLINE, SALT.
    unfold shipping_pieces, state_zero_dispatch, append_pickup_or_refund, state_one_dispatch,
      append_delivery_or_refund.
    cbn [z_total z_remainder z_fee_sompi pickup_deadline z_delivery_deadline z_seller_spk z_deliverer_spk z_buyer_spk
      z_deliverer_pubkey z_buyer_pubkey z_arbiter_pubkey o_remainder o_fee_sompi delivery_deadline seller_spk
      deliverer_spk buyer_spk o_buyer_pubkey o_arbiter_pubkey].
    read_fields. rewrite !spk_pubkey_p2pk by done. read_fields.
    unfold checked_sub. rewrite Z.add_simpl_r, checked_u64_id by done. read_fields.
    match goal with |- context [build_ship_escrow_script ?g] => replace g with f by (by destruct f) end.
    rewrite Hb. by apply if_rebuilt_Some.
  - intros script f Hok Hmax H. unfold recognize, build, well_formed, shipping_template, ship_escrow_terms in *.
    read_inv H. destruct (complete_inv script x Hok Hmax Hx) as [Hscript Hwf].
    destruct (build_ship_escrow_script _) as [s|] eqn:Hb in H; [|done].
    apply if_rebuilt_Some in H as [-> <-]. rewrite Hb. split; [|done]. cbn.
    unfold checked_sub in *. checked_inv. split_and!; first [congruence | field_ok | by eapply lookup_spk].
Qed.
End shipping.

(** *** The Merkle whitelist *)

Section merkle.
Import Merkle.

Definition layer : list Piece := [Op OP_SWAP; Op OP_IF; Op OP_SWAP; Op OP_ENDIF; Op OP_CAT; Op OP_BLAKE2B].

#[export] Instance merkle_template : Template MerkleWhitelistFields := {
  build f := Some (build_merkle_whitelist_script (owner_pubkey f) (merkle_root f) (depth f) (locktime_daa f));
  recognize := merkle_whitelist_script_fields;
  well_formed f := bytes_n 32 (owner_pubkey f) /\ bytes_n 32 (merkle_root f) /\ 0 <= depth f <= u8_max /\
    u64_ok (locktime_daa f);
}.

(** A list whose head is not the data of a preceding length byte. *)
Definition starts_fresh (pieces : list Piece) : Prop :=
  match pieces with Extend _ :: _ => False | _ => True end.

Lemma op_fresh byte rest :
  starts_fresh rest -> (byte = 0 \/ 0x4e < byte < 256) -> pieces_ok rest ->
  pieces_ok (Op byte :: rest) /\ elements_of (Op byte :: rest) = {| opcode := byte; data := [] |} :: elements_of rest.
Proof. intros Hfresh Hb Hok. by destruct rest as [|[] rest]. Qed.

Lemma layers_elements n rest :
  starts_fresh rest -> pieces_ok rest ->
  starts_fresh (concat (replicate n layer) ++ rest) /\
  pieces_ok (concat (replicate n layer) ++ rest) /\
  elements_of (concat (replicate n layer) ++ rest) = concat (replicate n (elements_of layer)) ++ elements_of rest.
Proof.
  intros Hfresh Hrest. induction n as [|n (IHf & IHok & IHeq)]; [done|].
  cbn [replicate concat]. rewrite <- !app_assoc. revert IHf IHok IHeq.
  generalize (concat (replicate n layer) ++ rest) as tail. intros tail IHf IHok IHeq.
  destruct (op_fresh OP_BLAKE2B tail IHf) as [Hok Heq]; [piece_ok|done|].
  unfold layer at 1 2 3. cbn [app]. split_and!; [done|..].
  - cbn -[OP_BLAKE2B pieces_ok]. change (pieces_ok (layer ++ tail)). unfold layer. cbn [app].
    cbn [pieces_ok] in Hok |- *. repeat (split; [piece_ok|]). exact Hok.
  - cbn [elements_of layer app] in Heq |- *. rewrite Heq, IHeq. done.
Qed.

Lemma length_layers n : length (concat (replicate n (elements_of layer))) = (6 * n)%nat.
Proof. induction n as [|n IH]; [done|]. cbn [replicate concat]. rewrite length_app, IH. cbn. lia. Qed.

Lemma whitelist_elements owner root depth lock :
  bytes_n 32 owner -> bytes_n 32 root -> u64_ok lock ->
  blen (build_merkle_whitelist_script owner root depth lock) <= usize_max ->
  complete_elements (build_merkle_whitelist_script owner root depth lock) =
    Some (elements_of (append_owner_refund_branch owner lock ++ [Pubkey owner; Op OP_CHECKSIGVERIFY; Op OP_BLAKE2B])
          ++ concat (replicate (Z.to_nat depth) (elements_of layer))
          ++ elements_of [Data root; Op OP_EQUALVERIFY; Int 0; Op OP_TX_OUTPUT_SPK; Op OP_EQUALVERIFY; Op OP_1;
                          Op OP_ENDIF]).
Proof.
  intros Howner Hroot Hlock. unfold build_merkle_whitelist_script, append_whitelist_branch.
  change [Op OP_SWAP; Op OP_IF; Op OP_SWAP; Op OP_ENDIF; Op OP_CAT; Op OP_BLAKE2B] with layer.
  rewrite <- !app_assoc.
  destruct (layers_elements (Z.to_nat depth)
              ([Data root; Op OP_EQUALVERIFY; Int 0; Op OP_TX_OUTPUT_SPK; Op OP_EQUALVERIFY; Op OP_1] ++ [Op OP_ENDIF]))
    as (Hf & Hok & Heq); [done|pieces_ok|].
  revert Hf Hok Heq. generalize (concat (replicate (Z.to_nat depth) layer) ++
    [Data root; Op OP_EQUALVERIFY; Int 0; Op OP_TX_OUTPUT_SPK; Op OP_EQUALVERIFY; Op OP_1] ++ [Op OP_ENDIF]) as tail.
  intros tail Hf Hok Heq Hmax. destruct (op_fresh OP_BLAKE2B tail Hf) as [Hok' Heq']; [piece_ok|done|].
  rewrite complete_assemble; [|cbn [pieces_ok app append_owner_refund_branch] in *|done].
  - f_equal. cbn [append_owner_refund_branch app elements_of] in *. by rewrite Heq', Heq.
  - repeat (split; [piece_ok|]). exact Hok'.
Qed.

#[export] Instance merkle_lawful : LawfulTemplate MerkleWhitelistFields.
Proof.
  split.
  - intros f script (Howner & Hroot & Hdepth & Hlock) [= <-] Hmax.
    unfold recognize, merkle_template, merkle_whitelist_script_fields.
    rewrite whitelist_elements by done. cbn [mbind option_bind].
    set (es := elements_of _ ++ _ ++ _).
    assert (Hlen : blen es = 17 + 6 * depth f).
    { unfold es, blen. rewrite !length_app, length_layers. cbn. lia. }
    unfold checked_sub. rewrite checked_u64_id by (unfold u64_ok, u8_max, FIXED_ELEMENTS in *; lia).
    cbn [mbind option_bind]. unfold FIXED_ELEMENTS, LAYER_ELEMENTS.
    replace ((blen es - 17) / 6) with (depth f) by (rewrite Hlen, Z.add_simpl_l, Z.mul_comm; by rewrite Z.div_mul).
    assert (Hroot_at : es !! Z.to_nat (10 + depth f * 6) = Some (push_element (merkle_root f))).
    { unfold es. rewrite lookup_app_r; cbn [elements_of append_owner_refund_branch app length]; [|lia].
      rewrite lookup_app_r; rewrite length_layers; [|lia].
      replace (_ - _)%nat with 0%nat by lia. done. }
    assert (Howner_at : array_at 32 es 1 = Some (owner_pubkey f)) by by apply array_ok.
    assert (Hlock_at : integer_at es 3 = Some (locktime_daa f)) by by apply integer_int.
    rewrite Howner_at, Hlock_at. unfold array_at, data_at. rewrite Hroot_at.
    cbn [fmap option_fmap option_map mbind option_bind data push_element]. rewrite array_ok by done.
    decide_tests. cbn [mbind option_bind]. apply if_rebuilt_Some. split; [done|by destruct f].
  - open_fields merkle_template merkle_whitelist_script_fields.
    destruct (Z.leb_spec (x0 / LAYER_ELEMENTS) u8_max); [|done]. injection Hx4 as <-.
    unfold checked_sub in *. checked_inv. assert (0 <= (blen x - FIXED_ELEMENTS) / LAYER_ELEMENTS)
      by (apply Z.div_pos; [unfold u64_ok in *; lia|done]).
    subst x0. split; [|exact (f_equal Some Hrebuilt)]. cbn [owner_pubkey merkle_root depth locktime_daa].
    split_and!; first [assumption | field_ok].
Qed.
End merkle.

(** ** All recognizable contracts *)

Inductive Contract :=
  | EscrowC (fields : Escrow.EscrowFields)
  | SavingsC (fields : Savings.TimelockedSavingsFields)
  | PiggyBankC (fields : Savings.PiggyBankFields)
  | DmsC (fields : Dms.DmsFields)
  | OracleC (fields : OracleV1.OracleV1Fields)
  | PayjoinC (fields : Payjoin.PayjoinFields)
  | CommitRevealC (fields : CommitReveal.CommitRevealFields)
  | SpendingLimitC (fields : SpendingLimit.GlobalSpendingLimitFields)
  | AllowanceC (fields : Allowance.GlobalAllowanceFields)
  | PrivateSwapC (fields : PrivateSwap.PrivateSwapFields)
  | ShippingC (fields : ShippingEscrow.ShippingEscrowTerms)
  | MerkleC (fields : Merkle.MerkleWhitelistFields).

(** The script the contract's builder makes of its fields. *)
Definition build_contract (c : Contract) : option (list Z) :=
  match c with
  | EscrowC f => build f | SavingsC f => build f | PiggyBankC f => build f | DmsC f => build f
  | OracleC f => build f | PayjoinC f => build f | CommitRevealC f => build f | SpendingLimitC f => build f
  | AllowanceC f => build f | PrivateSwapC f => build f | ShippingC f => build f | MerkleC f => build f
  end.

Definition contract_ok (c : Contract) : Prop :=
  match c with
  | EscrowC f => well_formed f | SavingsC f => well_formed f | PiggyBankC f => well_formed f | DmsC f => well_formed f
  | OracleC f => well_formed f | PayjoinC f => well_formed f | CommitRevealC f => well_formed f
  | SpendingLimitC f => well_formed f | AllowanceC f => well_formed f | PrivateSwapC f => well_formed f
  | ShippingC f => well_formed f | MerkleC f => well_formed f
  end.

(** Run the recognizer of [c]'s kind. *)
Definition recognize_like (c : Contract) (script : list Z) : option Contract :=
  match c with
  | EscrowC _ => EscrowC <$> recognize script
  | SavingsC _ => SavingsC <$> recognize script
  | PiggyBankC _ => PiggyBankC <$> recognize script
  | DmsC _ => DmsC <$> recognize script
  | OracleC _ => OracleC <$> recognize script
  | PayjoinC _ => PayjoinC <$> recognize script
  | CommitRevealC _ => CommitRevealC <$> recognize script
  | SpendingLimitC _ => SpendingLimitC <$> recognize script
  | AllowanceC _ => AllowanceC <$> recognize script
  | PrivateSwapC _ => PrivateSwapC <$> recognize script
  | ShippingC _ => ShippingC <$> recognize script
  | MerkleC _ => MerkleC <$> recognize script
  end.

Lemma lawful_exact {F} `{LawfulTemplate F} {C} (wrap : F -> C) script f :
  (forall a b, wrap a = wrap b -> a = b) ->
  bytes_ok script -> blen script <= usize_max ->
  wrap <$> recognize script = Some (wrap f) <-> well_formed f /\ build f = Some script.
Proof.
  intros Hinj Hok Hmax. rewrite fmap_Some. split.
  - intros (f' & Hf & ->%Hinj). by apply recognize_inv.
  - intros [Hwf Hb]. exists f. split; [by apply recognize_build|done].
Qed.

Lemma recognized_iff script c :
  bytes_ok script -> blen script <= usize_max ->
  recognize_like c script = Some c <-> contract_ok c /\ build_contract c = Some script.
Proof.
  intros Hok Hmax. destruct c; cbn [recognize_like contract_ok build_contract].
  - apply (lawful_exact EscrowC); [congruence|done..].
  - apply (lawful_exact SavingsC); [congruence|done..].
  - apply (lawful_exact PiggyBankC); [congruence|done..].
  - apply (lawful_exact DmsC); [congruence|done..].
  - apply (lawful_exact OracleC); [congruence|done..].
  - apply (lawful_exact PayjoinC); [congruence|done..].
  - apply (lawful_exact CommitRevealC); [congruence|done..].
  - apply (lawful_exact SpendingLimitC); [congruence|done..].
  - apply (lawful_exact AllowanceC); [congruence|done..].
  - apply (lawful_exact PrivateSwapC); [congruence|done..].
  - apply (lawful_exact ShippingC); [congruence|done..].
  - apply (lawful_exact MerkleC); [congruence|done..].
Qed.

(** The terms a builder is given: values of their types. *)
Definition terms_ok (c : Contract) : Prop :=
  match c with
  | PiggyBankC f => bytes_n 32 (Savings.owner_pubkey f) /\ u64_ok (Savings.threshold_sompi f) /\
      u64_ok (Savings.deadline_daa f) /\ bytes_n 8 (Savings.salt f)
  | SpendingLimitC f => bytes_n 32 (SpendingLimit.owner_pubkey f) /\ u64_ok (SpendingLimit.max_withdraw_sompi f) /\
      u64_ok (SpendingLimit.cooldown_daa f) /\ bytes_n 8 (SpendingLimit.salt f)
  | AllowanceC f => bytes_n 32 (Allowance.owner_pubkey f) /\ bytes_n 32 (Allowance.beneficiary_pubkey f) /\
      u64_ok (Allowance.max_withdraw_sompi f) /\ u64_ok (Allowance.cooldown_daa f) /\
      u64_ok (Allowance.start_daa f) /\ bytes_n 8 (Allowance.salt f)
  | _ => contract_ok c
  end.

(** The terms that the recognizer finds by walking the script, and that the
    walker reports only below [2^63]. *)
Definition walked_terms (c : Contract) : list Z :=
  match c with
  | PiggyBankC f => [Savings.threshold_sompi f; Savings.deadline_daa f]
  | SpendingLimitC f => [SpendingLimit.max_withdraw_sompi f]
  | AllowanceC f => [Allowance.max_withdraw_sompi f; Allowance.cooldown_daa f; Allowance.start_daa f]
  | _ => []
  end.
Definition readable (c : Contract) : Prop := Forall (fun value => value < 2 ^ 63) (walked_terms c).

Lemma walkable_iff value : walkable value <-> u64_ok value /\ value < 2 ^ 63.
Proof. unfold walkable, u64_ok. lia. Qed.

Lemma contract_ok_terms c : contract_ok c <-> terms_ok c /\ readable c.
Proof.
  unfold readable. destruct c; cbn [terms_ok walked_terms contract_ok]; rewrite ?Forall_cons, ?Forall_nil;
    try tauto; unfold well_formed, piggy_bank_template, spending_limit_template, global_allowance_template;
    rewrite ?walkable_iff; tauto.
Qed.

(** A script built from terms the walker does not report is refused. *)
Lemma piggy_bank_refused script (f found : Savings.PiggyBankFields) :
  terms_ok (PiggyBankC f) -> build f = Some script -> blen script <= usize_max -> recognize script = Some found ->
  readable (PiggyBankC f).
Proof.
  cbn [build recognize piggy_bank_template terms_ok]. unfold readable. cbn [walked_terms].
  intros (Ho & Ht & Hd & Hs) [= <-] Hmax H. unfold Savings.piggy_bank_script_fields in H. read_inv H.
  destruct (piggy_bank_walk (Savings.owner_pubkey f) (Savings.threshold_sompi f) (Savings.deadline_daa f)
              (Savings.salt f)) as [Hw1 Hw2]; [done..|].
  rewrite Hw1 in Hx2. rewrite Hw2 in Hx3.
  apply walkable_reported_opt in Hx2; [|done]. apply walkable_reported_opt in Hx3; [|done].
  unfold walkable in *. repeat constructor; lia.
Qed.

Lemma spending_limit_refused script (f found : SpendingLimit.GlobalSpendingLimitFields) :
  terms_ok (SpendingLimitC f) -> build f = Some script -> blen script <= usize_max -> recognize script = Some found ->
  readable (SpendingLimitC f).
Proof.
  cbn [build recognize spending_limit_template terms_ok]. unfold readable. cbn [walked_terms].
  intros (Ho & Hc & Hd & Hs) [= <-] Hmax H. unfold SpendingLimit.global_spending_limit_script_fields in H. read_inv H.
  rewrite spending_limit_walk in Hx3 by done. apply walkable_reported in Hx3; [|done].
  unfold walkable in *. repeat constructor; lia.
Qed.

Lemma global_allowance_refused script (f found : Allowance.GlobalAllowanceFields) :
  terms_ok (AllowanceC f) -> build f = Some script -> blen script <= usize_max -> recognize script = Some found ->
  readable (AllowanceC f).
Proof.
  cbn [build recognize global_allowance_template terms_ok]. unfold readable. cbn [walked_terms].
  intros (Ho & Hb & Hc & Hd & He & Hs) [= <-] Hmax H. unfold Allowance.global_allowance_script_fields in H. read_inv H.
  destruct (global_allowance_walk (Allowance.owner_pubkey f) (Allowance.beneficiary_pubkey f)
              (Allowance.max_withdraw_sompi f) (Allowance.cooldown_daa f) (Allowance.start_daa f)
              (Allowance.salt f)) as (Hw1 & Hw2 & Hw3); [done..|].
  rewrite Hw1 in Hx3. rewrite Hw2 in Hx5. rewrite Hw3 in Hx6.
  apply walkable_reported in Hx3; [|done]. apply walkable_reported_opt in Hx5; [|done].
  apply walkable_reported_opt in Hx6; [|done]. unfold walkable in *. repeat constructor; lia.
Qed.

Lemma unreadable_refused script c :
  blen script <= usize_max -> terms_ok c -> build_contract c = Some script -> ~ readable c ->
  recognize_like c script = None.
Proof.
  intros Hmax Hterms Hb Hn. destruct (recognize_like c script) as [found|] eqn:H; [|done]. destruct Hn.
  destruct c; cbn [recognize_like build_contract] in *; try (by constructor);
    apply fmap_Some in H as (f' & H & _).
  - by eapply piggy_bank_refused.
  - by eapply spending_limit_refused.
  - by eapply global_allowance_refused.
Qed.

(** C30: a contract recognizer accepts exactly what its builder makes of terms
    it can read. For every script and every one of the twelve recognizable
    contracts, recognition answers these terms if and only if they are values
    of their types, the terms it reads by walking the script (a piggy bank's
    goal and deadline, a spending limit's cap, an allowance's cap, cooldown and
    start) are below [2^63], and the builder makes this very script of them;
    so no byte of an imported script is left unexplained. A script built from
    a walked term of [2^63] or above is not recognized at all. *)
Theorem contracts_recognized_exactly (script : list Z) (c : Contract) :
  bytes_ok script -> blen script <= usize_max ->
  (recognize_like c script = Some c <-> terms_ok c /\ readable c /\ build_contract c = Some script) /\
  (terms_ok c -> build_contract c = Some script -> ~ readable c -> recognize_like c script = None).
Proof.
  intros Hok Hmax. split; [|by apply unreadable_refused].
  rewrite recognized_iff, contract_ok_terms by done. tauto.
Qed.

(** A number that tells the kinds apart, read from opcodes at fixed
    positions. *)
Definition shape (es : list Element) : nat :=
  let op at_ := default (-1) (opcode <$> es !! at_) in
  if op 0%nat =? 8 then
    if op 2%nat =? 0x20 then 7
    else if op 2%nat =? OP_TX_INPUT_INDEX then 10
    else if op 4%nat =? OP_CHECKSIG then if op 6%nat =? 0x20 then 8 else 2
    else if op 5%nat =? OP_IF then 2
    else 0
  else if op 0%nat =? 16 then if op 5%nat =? OP_TX_INPUT_COUNT then 9 else 4
  else if op 2%nat =? OP_CHECKSIG then 3
  else if op 9%nat =? OP_TX_INPUT_COUNT then 5
  else if op 9%nat =? OP_CAT then 6
  else if op 9%nat =? OP_BLAKE2B then 11
  else 1.

Definition kind (c : Contract) : nat :=
  match c with
  | EscrowC _ => 0 | SavingsC _ => 1 | PiggyBankC _ => 2 | DmsC _ => 3 | OracleC _ => 4 | PayjoinC _ => 5
  | CommitRevealC _ => 6 | SpendingLimitC _ => 7 | AllowanceC _ => 8 | PrivateSwapC _ => 9 | ShippingC _ => 10
  | MerkleC _ => 11
  end.

Lemma int_opcode_test value target : u64_ok value -> 0x60 < target -> opcode (int_element value) =? target = false.
Proof. intros Hv Ht. by apply Z.eqb_neq, int_opcode_ne. Qed.

Lemma kind_inj_recognize c1 c2 script :
  kind c1 = kind c2 -> recognize_like c1 script = recognize_like c2 script.
Proof. by destruct c1, c2. Qed.

(** The shape of a built script, once its pieces are literal. *)
Ltac shape_of_pieces :=
  rewrite complete_assemble by first [done | pieces_ok]; eexists; split; [reflexivity|];
  cbn [elements_of app append_global_thread_enforcement]; unfold shape;
  cbn [lookup list_lookup fmap option_fmap option_map default from_option id opcode];
  rewrite ?int_opcode_test by first [piece_ok | reflexivity]; reflexivity.

Lemma built_shape c script :
  contract_ok c -> build_contract c = Some script -> blen script <= usize_max ->
  exists es, complete_elements script = Some es /\ shape es = kind c.
Proof.
  destruct c as [f|f|f|f|f|f|f|f|f|f|f|f]; cbn [contract_ok build_contract kind].
  - intros (? & ? & ? & ? & ? & ?) [= <-] Hmax. cbn [build escrow_template] in *.
    unfold Escrow.build_escrow_script in *. shape_of_pieces.
  - intros (? & ? & ?) [= <-] Hmax. cbn [build savings_template] in *.
    unfold Savings.build_timelocked_savings_script in *. shape_of_pieces.
  - intros (? & ? & ? & ?) [= <-]. cbn [build piggy_bank_template].
    unfold Savings.build_piggy_bank_script.
    destruct (0 <? Savings.threshold_sompi f), (0 <? Savings.deadline_daa f); cbn [orb app]; intros Hmax;
      shape_of_pieces.
  - intros (? & ? & ?) [= <-] Hmax. cbn [build dms_template] in *. unfold Dms.build_dms_csv_script in *.
    shape_of_pieces.
  - intros (? & ? & ? & ? & ? & ?) [= <-] Hmax. cbn [build oracle_v1_template] in *.
    unfold OracleV1.build_oracle_v1_covenant_script in *. shape_of_pieces.
  - intros (? & ? & ? & ? & ?) [= <-] Hmax. cbn [build payjoin_template] in *.
    unfold Payjoin.build_payjoin_covenant_script in *. shape_of_pieces.
  - intros (? & ? & ?) [= <-] Hmax. cbn [build commit_reveal_template] in *.
    unfold CommitReveal.build_commit_reveal_script in *. shape_of_pieces.
  - intros (? & ? & ? & ?) [= <-] Hmax. cbn [build spending_limit_template] in *.
    unfold SpendingLimit.build_global_spending_limit_script in *. shape_of_pieces.
  - intros (? & ? & ? & ? & ? & ?) [= <-]. cbn [build global_allowance_template].
    unfold Allowance.build_global_allowance_script.
    destruct (0 <? Allowance.start_daa f), (0 <? Allowance.cooldown_daa f); cbn [app]; intros Hmax;
      shape_of_pieces.
  - intros Hwf Hbuild Hmax. destruct (swap_built f script Hwf Hbuild) as [-> Hpieces].
    rewrite complete_assemble by done. eexists. split; [done|]. destruct Hwf as (_ & _ & _ & _ & [Hsalt _]).
    unfold shape, swap_pieces, push_element. cbn. unfold push_element. rewrite Hsalt. reflexivity.
  - cbn [build shipping_template]. intros Hwf Hbuild Hmax.
    destruct (ShippingEscrow.build_ship_escrow_script f) as [s|] eqn:Hb; [|done]. injection Hbuild as ->.
    destruct (shipping_built f script Hwf Hb) as (_ & -> & Hpieces).
    rewrite complete_assemble by done. by eexists.
  - intros (? & ? & ? & ?) [= <-] Hmax. cbn [build merkle_template] in *.
    rewrite whitelist_elements by done. by eexists.
Qed.

(** No script is two contracts: whichever recognizers accept a script, they
    answer the same contract with the same fields, so a spend is never planned
    under the rules of another contract than the one its builder meant. *)
Theorem contracts_disjoint (script : list Z) (c1 c2 : Contract) :
  bytes_ok script -> blen script <= usize_max ->
  recognize_like c1 script = Some c1 -> recognize_like c2 script = Some c2 -> c1 = c2.
Proof.
  intros Hok Hmax H1 H2.
  destruct (proj1 (recognized_iff _ _ Hok Hmax) H1) as [Hwf1 Hb1].
  destruct (proj1 (recognized_iff _ _ Hok Hmax) H2) as [Hwf2 Hb2].
  destruct (built_shape c1 script Hwf1 Hb1 Hmax) as (es1 & He1 & Hs1).
  destruct (built_shape c2 script Hwf2 Hb2 Hmax) as (es2 & He2 & Hs2).
  rewrite (kind_inj_recognize c1 c2) in H1 by congruence. congruence.
Qed.

(** ** Witnesses *)

Definition demo_contract : Contract :=
  PiggyBankC {| Savings.owner_pubkey := replicate 32 7; Savings.threshold_sompi := 500;
                Savings.deadline_daa := 0; Savings.salt := replicate 8 1 |}.
Definition demo_script : list Z := default [] (build_contract demo_contract).

(** A goal no recognizer can read back. *)
Definition huge_contract : Contract :=
  PiggyBankC {| Savings.owner_pubkey := replicate 32 7; Savings.threshold_sompi := 2 ^ 63;
                Savings.deadline_daa := 0; Savings.salt := replicate 8 1 |}.
Definition huge_script : list Z := default [] (build_contract huge_contract).

Lemma contracts_recognized_exactly_witness :
  recognize_like demo_contract demo_script = Some demo_contract /\ recognize_like huge_contract huge_script = None.
Proof.
  split.
  - apply (contracts_recognized_exactly demo_script demo_contract); [by_decide|vm_compute; discriminate|].
    unfold demo_contract, terms_ok, readable, walked_terms, bytes_n, u64_ok.
    cbn [Savings.owner_pubkey Savings.threshold_sompi Savings.deadline_daa Savings.salt].
    split_and!; first [by_decide | reflexivity | lia].
  - apply (contracts_recognized_exactly huge_script huge_contract); [by_decide|vm_compute; discriminate| |reflexivity|].
    + unfold huge_contract, terms_ok, bytes_n, u64_ok.
      cbn [Savings.owner_pubkey Savings.threshold_sompi Savings.deadline_daa Savings.salt].
      split_and!; first [by_decide | lia].
    + unfold readable, huge_contract, walked_terms. cbn [Savings.threshold_sompi Savings.deadline_daa].
      intros Hall. apply Forall_cons in Hall as [Hlt _]. lia.
Defined.

Lemma contracts_disjoint_witness : demo_contract = demo_contract.
Proof.
  apply (contracts_disjoint demo_script demo_contract demo_contract);
    [by_decide|vm_compute; discriminate|vm_compute; reflexivity|vm_compute; reflexivity].
Defined.
