(* ===== verification/ContractFacts.v ===== *)
(** * Merkle whitelists, oracle redeem layout and covenant identity

    The Merkle proofs of [contract/merkle/script.rs] open the root the
    whitelist script commits to, and only whitelisted leaves have one; the
    bytes the oracle's roll branch cuts out of its own redeem script are the
    ones the builder put there; a covenant identity commits to its genesis. *)

From S2P Require Import Prelude Script Covenants Contracts ContractProofs.
Import Script.Opcode.

(** ** The Merkle tree *)

Section tree.
Import Merkle.
Context (blake2b_256 : list Z -> list Z).

(** One level of the whitelist script: the stack ends with the sibling, the
    direction and the current hash; [OP_SWAP OP_IF OP_SWAP OP_ENDIF OP_CAT
    OP_BLAKE2B] swaps the pair on a true direction, joins it and hashes. *)
Definition joined (current : list Z) (step : list Z * Z) : list Z :=
  let '(sibling, direction) := step in if direction =? 0 then sibling ++ current else current ++ sibling.
Definition climb (current : list Z) (step : list Z * Z) : list Z := blake2b_256 (joined current step).

(** The hash the script compares with the committed root. *)
Definition opened_root (leaf : list Z) (proof : list (list Z * Z)) : list Z :=
  foldl climb (blake2b_256 leaf) proof.

Definition tree_depth (leaves : list (list Z)) : Z := Z.log2 (next_power_of_two (blen leaves)).

(** The messages hashed above a hash by a proof, and above a level by the
    tree. *)
Fixpoint climbed_messages (h : list Z) (proof : list (list Z * Z)) : list (list Z) :=
  match proof with
  | [] => []
  | step :: proof => joined h step :: climbed_messages (climb h step) proof
  end.
Fixpoint pair_messages (level : list (list Z)) : list (list Z) :=
  match level with
  | left_hash :: right_hash :: rest => (left_hash ++ right_hash) :: pair_messages rest
  | _ => []
  end.
Fixpoint tree_messages (d : nat) (level : list (list Z)) : list (list Z) :=
  match d with
  | O => []
  | S d' => pair_messages level ++ tree_messages d' (next_level blake2b_256 level)
  end.
(** Everything hashed to open a root, and everything hashed to compute it. *)
Definition opening_messages (leaf : list Z) (proof : list (list Z * Z)) : list (list Z) :=
  leaf :: climbed_messages (blake2b_256 leaf) proof.
Definition root_messages (leaves : list (list Z)) : list (list Z) :=
  leaves ++ tree_messages (Z.to_nat (tree_depth leaves)) (leaf_level blake2b_256 leaves).

(** The root and the proof of a level of [2 ^ d] hashes, by recursion on the
    depth. *)
Fixpoint root_of (d : nat) (level : list (list Z)) : list Z :=
  match d with
  | O => default [] (head level)
  | S d' => root_of d' (next_level blake2b_256 level)
  end.
Fixpoint proof_of (d : nat) (level : list (list Z)) (idx : Z) : list (list Z * Z) :=
  match d with
  | O => []
  | S d' =>
      (default [] (level !! Z.to_nat (if Z.even idx then idx + 1 else idx - 1)), if Z.even idx then 1 else 0)
        :: proof_of d' (next_level blake2b_256 level) (idx / 2)
  end.

Lemma next_level_pairs level :
  forall k x y, level !! (2 * k)%nat = Some x -> level !! (2 * k + 1)%nat = Some y ->
  next_level blake2b_256 level !! k = Some (blake2b_256 (x ++ y)).
Proof.
  assert (Hlen : (length level <= length level)%nat) by done. revert Hlen.
  generalize (length level) at 2 as n. intros n. revert level.
  induction n as [|n IH]; intros [|a [|b level]] Hn k x y Hx Hy; cbn [length] in Hn; try done; try lia.
  { destruct k; [done|]. cbn in Hx. replace (k + S (k + 0))%nat with (S (k + k)) in Hx by lia. done. }
  destruct k as [|k]; cbn [next_level].
  - cbn in *. congruence.
  - replace (2 * S k)%nat with (S (S (2 * k))) in Hx by lia.
    replace (2 * S k + 1)%nat with (S (S (2 * k + 1))) in Hy by lia. cbn [lookup list_lookup] in *.
    apply IH; [lia|done|done].
Qed.

Lemma length_next_level level : length (next_level blake2b_256 level) = Nat.div2 (length level).
Proof.
  assert (Hlen : (length level <= length level)%nat) by done. revert Hlen.
  generalize (length level) at 2 as n. intros n. revert level.
  induction n as [|n IH]; intros [|a [|b level]] Hn; cbn [length] in Hn; try done; try lia.
  cbn [next_level length Nat.div2]. rewrite IH by lia. done.
Qed.

Lemma next_level_power d level :
  length level = (2 ^ S d)%nat -> length (next_level blake2b_256 level) = (2 ^ d)%nat.
Proof. intros Hl. rewrite length_next_level, Hl. cbn [Nat.pow]. apply Nat.div2_double. Qed.

(** Every hash of the next level joins two neighbours of this one. *)
Lemma next_level_elem level h :
  h ∈ next_level blake2b_256 level ->
  exists x y, x ∈ level /\ y ∈ level /\ h = blake2b_256 (x ++ y) /\ x ++ y ∈ pair_messages level.
Proof.
  assert (Hlen : (length level <= length level)%nat) by done. revert Hlen.
  generalize (length level) at 2 as n. intros n. revert level.
  induction n as [|n IH]; intros [|a [|b level]] Hn; cbn [length] in Hn; try lia; cbn [next_level pair_messages];
    try (intros Hin; by apply not_elem_of_nil in Hin).
  intros [->|Hin]%elem_of_cons.
  - exists a, b. set_solver.
  - apply IH in Hin as (x & y & Hx & Hy & -> & Hpair); [|lia]. exists x, y. set_solver.
Qed.

Lemma root_from_depth d fuel level :
  length level = (2 ^ d)%nat -> (d <= fuel)%nat -> root_from blake2b_256 fuel level = root_of d level.
Proof.
  revert fuel level. induction d as [|d IH]; intros fuel level Hl Hf.
  - destruct fuel; cbn [root_from root_of]; [done|]. unfold blen. rewrite Hl. done.
  - destruct fuel as [|fuel]; [lia|]. cbn [root_from root_of].
    assert (Hpos : (1 <= 2 ^ d)%nat) by (pose proof (Nat.pow_nonzero 2 d); lia).
    destruct (Z.ltb_spec 1 (blen level)) as [_|Hle]; [|unfold blen in Hle; rewrite Hl in Hle; cbn in Hle; lia].
    apply IH; [by apply next_level_power|lia].
Qed.

Lemma proof_from_depth d fuel level idx :
  length level = (2 ^ d)%nat -> (d <= fuel)%nat -> proof_from blake2b_256 fuel level idx = proof_of d level idx.
Proof.
  revert fuel level idx. induction d as [|d IH]; intros fuel level idx Hl Hf.
  - destruct fuel; cbn [proof_from proof_of]; [done|]. unfold blen. rewrite Hl. done.
  - destruct fuel as [|fuel]; [lia|]. cbn [proof_from proof_of].
    assert (Hpos : (1 <= 2 ^ d)%nat) by (pose proof (Nat.pow_nonzero 2 d); lia).
    destruct (Z.ltb_spec 1 (blen level)) as [_|Hle]; [|unfold blen in Hle; rewrite Hl in Hle; cbn in Hle; lia].
    f_equal. apply IH; [by apply next_level_power|lia].
Qed.

Lemma length_proof_of d level idx : length (proof_of d level idx) = d.
Proof. revert level idx. induction d as [|d IH]; intros level idx; cbn; [done|]. by rewrite IH. Qed.

(** The generated proof climbs to the root. *)
Lemma proof_of_opens d level (i : nat) h :
  length level = (2 ^ d)%nat -> level !! i = Some h ->
  foldl climb h (proof_of d level (Z.of_nat i)) = root_of d level.
Proof.
  revert level i h. induction d as [|d IH]; intros level i h Hl Hi.
  - destruct level as [|a [|]]; try done. destruct i; [|done]. cbn in *. congruence.
  - cbn [proof_of foldl root_of]. pose proof (lookup_lt_Some _ _ _ Hi) as Hlt. rewrite Hl in Hlt.
    assert (Hhalf : Z.of_nat i / 2 = Z.of_nat (i / 2)) by (by rewrite Nat2Z.inj_div). rewrite Hhalf.
    pose proof (Nat.div_mod_eq i 2) as Hdiv. pose proof (Nat.mod_upper_bound i 2) as Hmod. cbn [Nat.pow] in *.
    apply IH; [by apply next_level_power|]. destruct (Z.even (Z.of_nat i)) eqn:Hpar.
    + assert (Hi2 : i = (2 * (i / 2))%nat).
      { apply Z.even_spec in Hpar as [k Hk]. assert (Hr : (i mod 2 = 0)%nat)
          by (apply Nat2Z.inj; rewrite Nat2Z.inj_mod, Hk, Z.mul_comm; by rewrite Z.mod_mul). lia. }
      destruct (lookup_lt_is_Some_2 level (2 * (i / 2) + 1)) as [s Hs]; [rewrite Hl; lia|].
      replace (Z.to_nat (Z.of_nat i + 1)) with (2 * (i / 2) + 1)%nat by lia. rewrite Hs. cbn [climb default].
      apply next_level_pairs; [by rewrite <- Hi2|done].
    + assert (Hi2 : i = (2 * (i / 2) + 1)%nat).
      { assert (Hr : (i mod 2 <> 0)%nat).
        { intros Hr. assert (Hev : Z.even (Z.of_nat i) = true); [|congruence].
          apply Z.even_spec. exists (Z.of_nat (i / 2)). lia. } lia. }
      destruct (lookup_lt_is_Some_2 level (2 * (i / 2))) as [s Hs]; [rewrite Hl; lia|].
      replace (Z.to_nat (Z.of_nat i - 1)) with (2 * (i / 2))%nat by lia. rewrite Hs. cbn [climb default].
      apply next_level_pairs; [done|by rewrite <- Hi2].
Qed.

(** A proof of full depth that opens the root starts from a hash of the level,
    unless a message of the opening collides with one of the tree. *)
Lemma opening_sound d level h proof :
  (forall x, blen (blake2b_256 x) = 32) -> Forall (fun x => blen x = 32) level -> blen h = 32 ->
  length level = (2 ^ d)%nat -> length proof = d ->
  foldl climb h proof = root_of d level ->
  h ∈ level \/ collision_between blake2b_256 (climbed_messages h proof) (tree_messages d level).
Proof.
  intros Hsize. revert level h proof. induction d as [|d IH]; intros level h proof Hall Hh Hl Hp Hroot.
  - destruct proof; [|done]. destruct level as [|a [|]]; try done. cbn in Hroot. left. set_solver.
  - destruct proof as [|step proof]; [done|]. injection Hp as Hp. cbn [foldl root_of] in Hroot.
    cbn [climbed_messages tree_messages].
    apply IH in Hroot as [Hin|Hcol]; [| | |by apply Hsize|by apply next_level_power|done].
    + apply next_level_elem in Hin as (x & y & Hx & Hy & Heq & Hpair).
      rewrite Forall_forall in Hall. apply Hall in Hx as Hlx. apply Hall in Hy as Hly.
      destruct (decide (joined h step = x ++ y)) as [Hj|Hne].
      2:{ right. exists (joined h step), (x ++ y). set_solver. }
      left. destruct step as [sibling direction]. cbn [joined] in Hj. destruct (direction =? 0).
      * apply app_inj_2 in Hj as [_ ->]; [done|unfold blen in *; lia].
      * apply app_inj_1 in Hj as [-> _]; [done|unfold blen in *; lia].
    + right. destruct Hcol as (x & y & Hx & Hy & Hne & Heq). exists x, y. set_solver.
    + apply Forall_forall. intros z Hz. apply next_level_elem in Hz as (x & y & _ & _ & -> & _). apply Hsize.
Qed.

(** [next_power_of_two] is the least power of two that is large enough. *)
Lemma next_power_from_spec fuel k n :
  0 <= k -> 1 <= n -> n <= 2 ^ (k + Z.of_nat fuel) -> (k = 0 \/ 2 ^ (k - 1) < n) ->
  exists d, 0 <= d /\ next_power_from fuel (2 ^ k) n = 2 ^ d /\ n <= 2 ^ d /\ (d = 0 \/ 2 ^ (d - 1) < n).
Proof.
  revert k. induction fuel as [|fuel IH]; intros k Hk Hn Hle Hmin; cbn [next_power_from].
  - exists k. rewrite Z.add_0_r in Hle. done.
  - destruct (Z.leb_spec n (2 ^ k)); [by exists k|].
    replace (2 * 2 ^ k) with (2 ^ (k + 1)) by (rewrite Z.pow_add_r by lia; lia).
    apply IH; [lia|lia| |].
    + replace (k + 1 + Z.of_nat fuel) with (k + Z.of_nat (S fuel)) by lia. done.
    + right. by replace (k + 1 - 1) with k by lia.
Qed.

Lemma next_power_spec n :
  1 <= n -> exists d, 0 <= d /\ next_power_of_two n = 2 ^ d /\ n <= 2 ^ d /\ (d = 0 \/ 2 ^ (d - 1) < n).
Proof.
  intros Hn. apply (next_power_from_spec (Z.to_nat n) 0 n); [lia|done| |by left].
  rewrite Z2Nat.id by lia. rewrite Z.add_0_l. pose proof (Z.pow_gt_lin_r 2 n). lia.
Qed.

Lemma leaf_level_spec leaves :
  leaves <> [] ->
  exists d, length (leaf_level blake2b_256 leaves) = (2 ^ d)%nat /\ tree_depth leaves = Z.of_nat d /\
    leaf_level blake2b_256 leaves = map blake2b_256 leaves
      ++ replicate (Z.to_nat (2 ^ Z.of_nat d - blen leaves)) zero_hash.
Proof.
  intros Hne. assert (Hn : 1 <= blen leaves) by (destruct leaves; [done|]; unfold blen; cbn; lia).
  destruct (next_power_spec (blen leaves) Hn) as (d & Hd & Hpow & Hle & _).
  exists (Z.to_nat d). rewrite Z2Nat.id by done. unfold tree_depth, leaf_level.
  assert (Hlen : blen (map blake2b_256 leaves) = blen leaves) by (unfold blen; by rewrite length_map).
  rewrite Hlen, Hpow. split_and!; [|by apply Z.log2_pow2|done].
  rewrite length_app, length_replicate, length_map. unfold blen in *.
  apply Nat2Z.inj. rewrite Nat2Z.inj_add, Nat2Z.inj_pow, !Z2Nat.id by lia. cbn. lia.
Qed.

(** Every whitelisted leaf has a proof: for any leaf of a list the
    generated proof has one step per layer of the tree, and climbing it the
    way the whitelist script does (swap on direction 1, join, hash) from the
    leaf's hash ends in the computed root the script commits to. *)
Theorem merkle_proof_opens_root (leaves : list (list Z)) (index : nat) (leaf : list Z) :
  leaves !! index = Some leaf ->
  opened_root leaf (generate_merkle_proof blake2b_256 leaves (Z.of_nat index))
    = compute_merkle_root blake2b_256 leaves /\
  blen (generate_merkle_proof blake2b_256 leaves (Z.of_nat index)) = tree_depth leaves.
Proof.
  intros Hleaf. pose proof (lookup_lt_Some _ _ _ Hleaf) as Hlt.
  assert (Hne : leaves <> []) by (by intros ->).
  destruct (leaf_level_spec leaves Hne) as (d & Hlen & Hdepth & Hlevel).
  assert (Hd : (d <= length (leaf_level blake2b_256 leaves))%nat)
    by (rewrite Hlen; pose proof (Nat.pow_gt_lin_r 2 d); lia).
  unfold generate_merkle_proof, compute_merkle_root. rewrite !bool_decide_eq_false_2 by done.
  destruct (Z.leb_spec (blen leaves) (Z.of_nat index)); [unfold blen in *; lia|]. cbn [orb].
  rewrite proof_from_depth with (d := d), root_from_depth with (d := d) by done. split.
  - unfold opened_root. apply proof_of_opens; [done|]. rewrite Hlevel.
    rewrite lookup_app_l by (rewrite length_map; done). change (map blake2b_256) with (fmap (M := list) blake2b_256).
    by rewrite list_lookup_fmap, Hleaf.
  - unfold blen. by rewrite length_proof_of.
Qed.

(** Only whitelisted leaves have a proof: if any siblings and directions of
    the tree's depth, chosen by the spender, lead from some leaf to the
    committed root, then the leaf is on the list, or hashes to the zero hash
    that pads the tree, or a message hashed by the spender's opening differs
    from one hashed to compute the root and has its digest. The siblings may
    have any length: only the hashes' 32 bytes are relied on. *)
Theorem merkle_whitelist_sound (leaves : list (list Z)) (leaf : list Z) (proof : list (list Z * Z)) :
  (forall x, blen (blake2b_256 x) = 32) -> leaves <> [] -> blen proof = tree_depth leaves ->
  opened_root leaf proof = compute_merkle_root blake2b_256 leaves ->
  leaf ∈ leaves \/ blake2b_256 leaf = zero_hash \/
  collision_between blake2b_256 (opening_messages leaf proof) (root_messages leaves).
Proof.
  intros Hsize Hne Hproof Hroot. destruct (leaf_level_spec leaves Hne) as (d & Hlen & Hdepth & Hlevel).
  unfold compute_merkle_root in Hroot. rewrite bool_decide_eq_false_2 in Hroot by done.
  rewrite root_from_depth with (d := d) in Hroot
    by (try done; rewrite Hlen; pose proof (Nat.pow_gt_lin_r 2 d); lia).
  apply opening_sound in Hroot as [Hin|Hcol]; [| |done| |by apply Hsize|done|unfold blen in *; lia].
  - rewrite Hlevel in Hin. apply elem_of_app in Hin as [Hin|Hin].
    + change (map blake2b_256) with (fmap (M := list) blake2b_256) in Hin.
      apply list_elem_of_fmap in Hin as (other & Heq & Hother).
      destruct (decide (leaf = other)) as [->|Hdiff]; [by left|]. right; right. exists leaf, other.
      unfold opening_messages, root_messages. set_solver.
    + apply elem_of_replicate in Hin as [-> _]. by right; left.
  - right; right. destruct Hcol as (x & y & Hx & Hy & Hdiff & Heq). exists x, y.
    unfold opening_messages, root_messages. rewrite Hdepth, Nat2Z.id. set_solver.
  - rewrite Hlevel. apply Forall_app. split.
    + apply Forall_forall. intros x Hx. change (map blake2b_256) with (fmap (M := list) blake2b_256) in Hx.
      apply list_elem_of_fmap in Hx as (y & -> & _). apply Hsize.
    + by apply Forall_replicate.
Qed.
End tree.

(** ** Script lengths and tails *)

Definition piece_len (piece : Piece) : Z := blen (emit [] piece).

Lemma blen_assemble pieces : blen (assemble pieces) = sum_by piece_len pieces.
Proof.
  induction pieces as [|piece pieces IH]; [done|]. unfold assemble. cbn [foldl].
  rewrite emit_app, blen_app, sum_by_cons, IH. done.
Qed.

Lemma piece_len_data bytes : blen bytes <= 75 -> piece_len (Data bytes) = 1 + blen bytes.
Proof. intros Hlen. unfold piece_len, emit, push_data. decide_tests. cbn [app]. by rewrite blen_cons. Qed.

Lemma push_data_tail script data : exists before, push_data script data = before ++ data.
Proof. unfold push_data. eexists (script ++ _). by rewrite <- app_assoc. Qed.

(** The part of a signature script at fixed offsets from its end. *)
Lemma slice_tail {A} (before front middle back : list A) i j :
  i = blen (middle ++ back) -> j = blen back ->
  slice (before ++ front ++ middle ++ back) (blen (before ++ front ++ middle ++ back) - i)
    (blen (before ++ front ++ middle ++ back) - j) = Some middle.
Proof.
  intros -> ->. apply (slice_split _ (before ++ front) middle back); [app_eq|len|len].
Qed.

(** ** The oracle's rolling redeem script *)

Section oracle.
Import Oracle.
Context (image_id control_id set_root heartbeat_cov_id : list Z) (hashfn : Z).
Context (Himage : blen image_id = 32) (Hcontrol : blen control_id = 32) (Hroot : blen set_root = 32)
  (Hheartbeat : blen heartbeat_cov_id = 32).

Local Notation body := (build_oracle_mb_publish_body image_id control_id set_root hashfn heartbeat_cov_id).
Local Notation redeem price t := (build_oracle_mb_redeem price t image_id control_id set_root hashfn heartbeat_cov_id).

Lemma prefix_bytes price t :
  oracle_mb_prefix price t = [0x08] ++ le_bytes 8 price ++ [0x75; 0x08] ++ le_bytes 8 t ++ [0x75].
Proof. unfold oracle_mb_prefix, assemble. cbn [foldl emit]. app_eq. Qed.

Lemma blen_body : blen body = ORACLE_MB_BODY_LEN.
Proof.
  unfold build_oracle_mb_publish_body. rewrite blen_assemble, !sum_by_app.
  unfold push_oracle_roll_branch. rewrite !sum_by_app, !sum_by_cons.
  rewrite (piece_len_data image_id), (piece_len_data control_id), (piece_len_data set_root),
    (piece_len_data heartbeat_cov_id) by lia.
  rewrite Himage, Hcontrol, Hroot, Hheartbeat. vm_compute. reflexivity.
Qed.

(** The oracle's roll reproduces the oracle: the redeem script is exactly
    [ORACLE_MB_REDEEM_LEN] bytes, and from the signature script that reveals it
    the roll branch's fixed offsets cut out the stored publish time and the
    constant body; gluing the journal's price and time around that body, as
    the branch does, gives byte for byte the redeem script the builder makes
    for the new price and time, so the output it demands is the oracle again. *)
Theorem oracle_roll_reproduces_redeem (price t price' t' : Z)
    (claim control_index control_digests seal raw_journal : list Z) :
  take 16 raw_journal = le_bytes 8 price' ++ le_bytes 8 t' ->
  let sig := build_oracle_mb_publish_sig_script (redeem price t) claim control_index control_digests seal
               raw_journal in
  blen (redeem price t) = ORACLE_MB_REDEEM_LEN /\
  slice sig (blen sig - (ORACLE_MB_REDEEM_LEN - 11)) (blen sig - (ORACLE_MB_REDEEM_LEN - 19)) = Some (le_bytes 8 t) /\
  exists self_body,
    slice sig (blen sig - ORACLE_MB_BODY_LEN) (blen sig) = Some self_body /\
    [0x08] ++ take 8 raw_journal ++ [0x75; 0x08] ++ take 8 (drop 8 raw_journal) ++ [0x75] ++ self_body
      = redeem price' t'.
Proof.
  intros Hjournal sig. pose proof blen_body as Hbody.
  assert (Hsig : exists before, sig = before ++ redeem price t).
  { unfold sig, build_oracle_mb_publish_sig_script, assemble. cbn [foldl emit]. apply push_data_tail. }
  destruct Hsig as [before ->]. unfold build_oracle_mb_redeem. rewrite !prefix_bytes.
  split_and!.
  - autorewrite with blen. rewrite Hbody. reflexivity.
  - rewrite <- !app_assoc. rewrite (app_assoc [0x08]), (app_assoc ([0x08] ++ _)).
    apply slice_tail; autorewrite with blen; rewrite Hbody, ?blen_le_bytes; reflexivity.
  - exists body. split.
    + set (prefix := [8] ++ le_bytes 8 price ++ [0x75; 0x08] ++ le_bytes 8 t ++ [0x75]).
      apply (slice_split _ (before ++ prefix) body []); [by rewrite app_nil_r, <- app_assoc|len|len].
    + assert (Hprice : take 8 raw_journal = le_bytes 8 price').
      { rewrite <- (take_app_length (le_bytes 8 price') (le_bytes 8 t')), <- Hjournal, take_take.
        by rewrite length_le_bytes. }
      assert (Htime : take 8 (drop 8 raw_journal) = le_bytes 8 t').
      { rewrite firstn_skipn_comm. change (8 + 8)%nat with 16%nat. rewrite Hjournal.
        by rewrite drop_app_length' by by rewrite length_le_bytes. }
      rewrite Hprice, Htime. app_eq.
Qed.
End oracle.

(** ** The campaign tail of a crowdfunding redeem script *)

Section crowdfund.
Import Crowdfund.
Context (keyed : list Z -> list Z -> list Z) (Hsize : forall key bytes, blen (keyed key bytes) = 32).

Definition campaign (config : CrowdfundScript) : list Z :=
  crowdfund_campaign_id keyed (goal_sompi config) (locktime_daa config) (verifying_key_hash config)
    (organizer_output_spk config).

Lemma Ok_eq {A E} (a b : A) : @Ok A E a = Ok b -> a = b.
Proof. congruence. Qed.

Lemma redeem_tail config script :
  crowdfund_redeem_script keyed config = Ok script ->
  exists front, script = front ++ [0x20] ++ campaign config ++ [OP_DROP; OP_1].
Proof.
  intros (u & _ & <-%Ok_eq)%rbind_Ok_inv. fold (campaign config).
  rewrite !app_assoc, assemble_app. set (front := assemble (_ ++ _)). exists (front ++ [OP_ENDIF]).
  rewrite <- app_assoc. f_equal. unfold assemble. cbn [foldl emit]. unfold push_data.
  unfold campaign, crowdfund_campaign_id. rewrite Hsize. cbn [Z.leb]. app_eq.
Qed.

(** The campaign check of a sweep reads the right bytes: whatever precedes
    it in a signature script, a redeem script made for a campaign shows that
    campaign's fingerprint at the fixed offsets from the end at which every
    other crowdfunding input looks, so the comparison with a campaign's own
    fingerprint succeeds exactly for inputs of the same fingerprint. *)
Theorem crowdfund_tail_identifies (config other : CrowdfundScript) (before script : list Z) :
  crowdfund_redeem_script keyed other = Ok script ->
  let sig := before ++ script in
  CAMPAIGN_TAIL_LEN <= blen sig /\
  exists shown : list Z,
    slice sig (blen sig - CAMPAIGN_ID_START_FROM_END) (blen sig - CAMPAIGN_ID_END_FROM_END) = Some shown /\
    (shown = campaign config <-> campaign other = campaign config).
Proof.
  intros [front ->]%redeem_tail sig. unfold sig.
  assert (Hlen : blen (campaign other) = 32) by apply Hsize. split.
  - autorewrite with blen. pose proof (blen_nonneg before). pose proof (blen_nonneg front).
    unfold CAMPAIGN_TAIL_LEN. lia.
  - exists (campaign other). split; [|done]. rewrite (app_assoc front).
    apply slice_tail; autorewrite with blen; rewrite ?Hlen; reflexivity.
Qed.
End crowdfund.

(** ** Covenant identities *)

Section identity.
Import Identity.
Context (keyed : list Z -> list Z -> list Z).

Definition outpoint_ok (genesis : GenesisOutpoint) : Prop :=
  blen (transaction_id genesis) = 32 /\ u32_ok (outpoint_index genesis).
Definition output_ok (output : AuthorizedOutput) : Prop :=
  u32_ok (index output) /\ u64_ok (value output) /\ u16_ok (spk_version output) /\
  blen (spk_script output) <= u64_max.

Lemma output_preimage_inj o1 o2 (l1 l2 : list Z) :
  output_ok o1 -> output_ok o2 -> output_preimage o1 ++ l1 = output_preimage o2 ++ l2 -> o1 = o2 /\ l1 = l2.
Proof.
  intros (Hi1 & Hv1 & Hs1 & Hl1) (Hi2 & Hv2 & Hs2 & Hl2). unfold output_preimage. rewrite <- !app_assoc. intros Heq.
  unfold u16_ok, u32_ok, u64_ok, u64_max in *.
  pose proof (blen_nonneg (spk_script o1)). pose proof (blen_nonneg (spk_script o2)).
  apply le_bytes_app_inj in Heq as [Hindex Heq]; [|cbn; lia..].
  apply le_bytes_app_inj in Heq as [Hvalue Heq]; [|cbn; lia..].
  apply le_bytes_app_inj in Heq as [Hversion Heq]; [|cbn; lia..].
  apply le_bytes_app_inj in Heq as [Hlen Heq]; [|cbn; lia..].
  apply app_inj_1 in Heq as [Hscript ->]; [|unfold blen in *; lia].
  destruct o1, o2. cbn in *. by subst.
Qed.

Lemma outputs_preimage_inj os1 os2 :
  Forall output_ok os1 -> Forall output_ok os2 -> length os1 = length os2 ->
  concat (map output_preimage os1) = concat (map output_preimage os2) -> os1 = os2.
Proof.
  intros Hall. revert os2. induction Hall as [|o1 os1 Ho1 Hos1 IH]; intros [|o2 os2] Hall2 Hlen Heq; try done.
  apply Forall_cons in Hall2 as [Ho2 Hall2]. injection Hlen as Hlen. cbn [map concat] in Heq.
  apply output_preimage_inj in Heq as [-> Heq]; [|done..]. f_equal. by apply IH.
Qed.

Lemma covenant_preimage_inj g1 g2 os1 os2 :
  outpoint_ok g1 -> outpoint_ok g2 -> Forall output_ok os1 -> Forall output_ok os2 ->
  blen os1 <= u64_max -> blen os2 <= u64_max ->
  covenant_preimage g1 os1 = covenant_preimage g2 os2 -> g1 = g2 /\ os1 = os2.
Proof.
  intros [Ht1 Hi1] [Ht2 Hi2] Hos1 Hos2 Hl1 Hl2 Heq. unfold covenant_preimage in Heq.
  unfold u32_ok, u64_max in *. pose proof (blen_nonneg os1). pose proof (blen_nonneg os2).
  apply app_inj_1 in Heq as [Hid Heq]; [|unfold blen in *; lia].
  apply le_bytes_app_inj in Heq as [Hindex Heq]; [|cbn; lia..].
  apply le_bytes_app_inj in Heq as [Hlen Heq]; [|cbn; lia..].
  split; [destruct g1, g2; cbn in *; by subst|].
  apply outputs_preimage_inj; [done|done|unfold blen in Hlen; lia|done].
Qed.

(** A covenant identity names one genesis: if two genesis groups, with
    fields of their widths, both verify against one claimed identity, they
    are the same outpoint with the same outputs, index by index and script by
    script, or the two bytes strings hashed for them differ and collide. So a proof of a covenant's creation cannot be replayed for another
    outpoint, other values, or a reordered or re-cut list of scripts. *)
Theorem covenant_identity_binding (claimed : list Z) (g1 g2 : GenesisOutpoint) (os1 os2 : list AuthorizedOutput) :
  outpoint_ok g1 -> outpoint_ok g2 -> Forall output_ok os1 -> Forall output_ok os2 ->
  blen os1 <= u64_max -> blen os2 <= u64_max ->
  verify_genesis keyed claimed g1 os1 = Ok tt -> verify_genesis keyed claimed g2 os2 = Ok tt ->
  (g1 = g2 /\ os1 = os2) \/
  (covenant_preimage g1 os1 <> covenant_preimage g2 os2 /\
   keyed COVENANT_ID_DOMAIN (covenant_preimage g1 os1) = keyed COVENANT_ID_DOMAIN (covenant_preimage g2 os2)).
Proof.
  intros Hg1 Hg2 Hos1 Hos2 Hl1 Hl2. unfold verify_genesis, covenant_id.
  destruct (bool_decide (os1 = [])); [done|]. destruct (ascending os1); [|done]. cbn [negb].
  destruct (list_Z_eqb _ claimed) eqn:H1; [|done]. intros _.
  destruct (bool_decide (os2 = [])); [done|]. destruct (ascending os2); [|done]. cbn [negb].
  destruct (list_Z_eqb (keyed _ (covenant_preimage g2 os2)) claimed) eqn:H2; [|done]. intros _.
  apply list_Z_eqb_eq in H1, H2.
  destruct (decide (covenant_preimage g1 os1 = covenant_preimage g2 os2)) as [Heq|Hne].
  - left. by apply covenant_preimage_inj in Heq.
  - right. split; [done|congruence].
Qed.
End identity.

(** ** Witnesses *)

Definition demo_leaves : list (list Z) := [[1; 2]; [3]; [4; 5; 6]].

Lemma merkle_proof_opens_root_witness :
  opened_root toy_hash [3] (Merkle.generate_merkle_proof toy_hash demo_leaves 1)
    = Merkle.compute_merkle_root toy_hash demo_leaves /\
  blen (Merkle.generate_merkle_proof toy_hash demo_leaves 1) = tree_depth demo_leaves.
Proof. apply (merkle_proof_opens_root toy_hash demo_leaves 1 [3]). reflexivity. Defined.

Lemma merkle_whitelist_sound_witness :
  [3] ∈ demo_leaves \/ toy_hash [3] = Merkle.zero_hash \/
  collision_between toy_hash (opening_messages toy_hash [3] (Merkle.generate_merkle_proof toy_hash demo_leaves 1))
    (root_messages toy_hash demo_leaves).
Proof.
  apply (merkle_whitelist_sound toy_hash demo_leaves [3] (Merkle.generate_merkle_proof toy_hash demo_leaves 1));
    [exact toy_hash_size|discriminate|vm_compute; reflexivity|vm_compute; reflexivity].
Defined.

Lemma oracle_roll_reproduces_redeem_witness :
  let redeem price t := Oracle.build_oracle_mb_redeem price t (replicate 32 1) (replicate 32 2) (replicate 32 3) 1
                          (replicate 32 4) in
  blen (redeem 5 6) = Oracle.ORACLE_MB_REDEEM_LEN.
Proof.
  refine (proj1 (oracle_roll_reproduces_redeem (replicate 32 1) (replicate 32 2) (replicate 32 3) (replicate 32 4) 1
                   _ _ _ _ 5 6 7 8 [9] [10] [11] [12] (le_bytes 8 7 ++ le_bytes 8 8 ++ replicate 32 3) _));
    reflexivity.
Defined.

Definition demo_campaign : Crowdfund.CrowdfundScript := {|
  Crowdfund.contributor_pubkey := replicate 32 1; Crowdfund.goal_sompi := 1000; Crowdfund.locktime_daa := 5;
  Crowdfund.verifying_key_hash := replicate 32 2; Crowdfund.organizer_output_spk := replicate 36 3;
  Crowdfund.salt := replicate 8 4 |}.

Lemma crowdfund_tail_identifies_witness : exists script,
  Crowdfund.crowdfund_redeem_script (fun _ => toy_hash) demo_campaign = Ok script /\
  Crowdfund.CAMPAIGN_TAIL_LEN <= blen ([1; 2] ++ script).
Proof.
  eexists. split; [vm_compute; reflexivity|].
  refine (proj1 (crowdfund_tail_identifies (fun _ => toy_hash) (fun _ => toy_hash_size) demo_campaign demo_campaign
                   [1; 2] _ _)).
  vm_compute. reflexivity.
Defined.

Definition demo_outpoint : Identity.GenesisOutpoint :=
  {| Identity.transaction_id := replicate 32 1; Identity.outpoint_index := 3 |}.
Definition demo_output : Identity.AuthorizedOutput :=
  {| Identity.index := 0; Identity.value := 1000; Identity.spk_version := 0; Identity.spk_script := [0x51] |}.

Lemma covenant_identity_binding_witness :
  (demo_outpoint = demo_outpoint /\ [demo_output] = [demo_output]) \/
  (Identity.covenant_preimage demo_outpoint [demo_output] <> Identity.covenant_preimage demo_outpoint [demo_output] /\
   toy_hash (Identity.covenant_preimage demo_outpoint [demo_output])
     = toy_hash (Identity.covenant_preimage demo_outpoint [demo_output])).
Proof.
  apply (covenant_identity_binding (fun _ => toy_hash)
           (Identity.covenant_id (fun _ => toy_hash) demo_outpoint [demo_output]) demo_outpoint demo_outpoint
           [demo_output] [demo_output]);
    try (split; [reflexivity|by_decide]); try (repeat constructor; by_decide); try (vm_compute; discriminate).
  all: vm_compute; reflexivity.
Defined.
