(* ===== verification/Branch.v ===== *)
(** * Covenant branches and their witness traces

    The branch and key resolver of [src/src/contract/covenant/branch.rs] and
    the witness tracer of [src/src/contract/covenant/execution.rs]. Both parse
    one redeem script: the resolver numbers the key checks and records the
    selector bits that reach each, the tracer builds the tree of branches and
    walks the path a full selector assignment takes. *)

From S2P Require Import Prelude Script.
Import Script.Opcode.

Definition MAX_COVENANT_BRANCH_DEPTH : Z := 16.
Definition MAX_COVENANT_BRANCH_KEYS : Z := 16.

(** ** [branch.rs] *)

Module Resolver.

Inductive BranchResolveError :=
  | MalformedScript
  | BranchDepthExceeded
  | TooManyKeys
  | AmbiguousKey
  | KeyNotFound
  | PositionOutOfRange.

Record BranchKey := { key : list Z; decision_mask : Z; if_mask : Z }.
#[export] Instance branch_key_eq_dec : EqDecision BranchKey.
Proof. solve_decision. Defined.

(** [keys] is the used part of the code's array and its length. *)
Record BranchResolution := { keys : list BranchKey; selector_mask : Z }.

Definition matches_selectors (self : BranchKey) (supplied_mask supplied_true_mask : Z) : bool :=
  (Z.land supplied_mask (decision_mask self) =? decision_mask self)
  && (Z.land (Z.lxor supplied_true_mask (if_mask self)) (decision_mask self) =? 0).

Definition key_at (r : BranchResolution) (position : Z) : result BranchKey BranchResolveError :=
  ok_or (get_at (keys r) position) PositionOutOfRange.

Definition truth_reaching_key (r : BranchResolution) (position : Z) : result Z BranchResolveError :=
  let? key := key_at r position in
  Ok (Z.land (if_mask key) (decision_mask key)).

(** The searches over [0..self.len], with the position reached and the match
    found so far. *)
Fixpoint search (wanted : BranchKey -> bool) (keys : list BranchKey) (position : Z) (found : option Z)
  : result Z BranchResolveError :=
  match keys with
  | [] => ok_or found KeyNotFound
  | binding :: rest =>
      if negb (wanted binding) then search wanted rest (position + 1) found
      else
        match found with
        | Some _ => Err AmbiguousKey
        | None =>
            if u8_max <? position then Err TooManyKeys else search wanted rest (position + 1) (Some position)
        end
  end.

Definition unique_position_for_key (r : BranchResolution) (wanted : list Z) : result Z BranchResolveError :=
  search (fun binding => list_Z_eqb (key binding) wanted) (keys r) 0 None.

Definition position_for_key_with_selectors (r : BranchResolution) (wanted : list Z)
    (supplied_mask supplied_true_mask : Z) : result Z BranchResolveError :=
  search (fun binding => list_Z_eqb (key binding) wanted
                         && matches_selectors binding supplied_mask supplied_true_mask) (keys r) 0 None.

Record Frame := { bit : Z; in_else : bool }.

(** [frames] holds the open branches, the innermost first. *)
Record BranchParser := {
  out : BranchResolution;
  frames : list Frame;
  next_branch : Z;
  p_decision_mask : Z;
  p_if_mask : Z;
}.

Definition new_parser : BranchParser := {|
  out := {| keys := []; selector_mask := 0 |}; frames := []; next_branch := 0; p_decision_mask := 0; p_if_mask := 0 |}.

Definition push (item : BranchKey) : Comp BranchParser BranchResolveError unit := fun p =>
  if bool_decide (item ∈ keys (out p)) then (Err AmbiguousKey, p)
  else if MAX_COVENANT_BRANCH_KEYS <=? blen (keys (out p)) then (Err TooManyKeys, p)
  else (Ok tt, {| out := {| keys := keys (out p) ++ [item]; selector_mask := selector_mask (out p) |};
                  frames := frames p; next_branch := next_branch p; p_decision_mask := p_decision_mask p;
                  p_if_mask := p_if_mask p |}).

Definition enter_branch (opcode : Z) : Comp BranchParser BranchResolveError unit := fun p =>
  if MAX_COVENANT_BRANCH_DEPTH <=? next_branch p then (Err BranchDepthExceeded, p)
  else
    let bit := Z.shiftl 1 (next_branch p) in
    (Ok tt, {| out := {| keys := keys (out p); selector_mask := Z.lor (selector_mask (out p)) bit |};
               frames := {| bit := bit; in_else := false |} :: frames p; next_branch := next_branch p + 1;
               p_decision_mask := Z.lor (p_decision_mask p) bit;
               p_if_mask := if opcode =? 0x63 then Z.lor (p_if_mask p) bit else p_if_mask p |}).

Definition enter_else : Comp BranchParser BranchResolveError unit := fun p =>
  match frames p with
  | [] => (Err MalformedScript, p)
  | frame :: outer =>
      if in_else frame then (Err MalformedScript, p)
      else (Ok tt, {| out := out p; frames := {| bit := bit frame; in_else := true |} :: outer;
                      next_branch := next_branch p; p_decision_mask := p_decision_mask p;
                      p_if_mask := Z.lxor (p_if_mask p) (bit frame) |})
  end.

Definition leave_branch : Comp BranchParser BranchResolveError unit := fun p =>
  match frames p with
  | [] => (Err MalformedScript, p)
  | frame :: outer =>
      (Ok tt, {| out := out p; frames := outer; next_branch := next_branch p;
                 p_decision_mask := Z.ldiff (p_decision_mask p) (bit frame);
                 p_if_mask := Z.ldiff (p_if_mask p) (bit frame) |})
  end.

Definition inspect_key_push (rest : list Z) : Comp BranchParser BranchResolveError unit := fun p =>
  match slice rest 1 33 with
  | None => (Err MalformedScript, p)
  | Some key =>
      match get_at rest 33 with
      | Some check =>
          if (check =? 0xac) || (check =? 0xad)
          then push {| key := key; decision_mask := p_decision_mask p; if_mask := p_if_mask p |} p
          else (Ok tt, p)
      | None => (Ok tt, p)
      end
  end.

(** The bytes the opcode at the start of [rest] spans. *)
Definition step (rest : list Z) (opcode : Z) : Comp BranchParser BranchResolveError Z :=
  if (opcode =? 0x63) || (opcode =? 0x64) then let* _ := enter_branch opcode in ret 1
  else if opcode =? 0x67 then let* _ := enter_else in ret 1
  else if opcode =? 0x68 then let* _ := leave_branch in ret 1
  else if opcode =? 0x20 then let* _ := inspect_key_push rest in ret 33
  else if (0x01 <=? opcode) && (opcode <=? 0x4e) then
    match read_element rest 0 with
    | Some (_, end_) => ret end_
    | None => throw MalformedScript
    end
  else ret 1.

Definition finish (p : BranchParser) : result BranchResolution BranchResolveError :=
  if bool_decide (frames p = []) then Ok (out p) else Err MalformedScript.

(** [while let Some(&opcode) = rest.first()]: a step spans at least one byte,
    so the script's length bounds the rounds. *)
Fixpoint resolve_loop (fuel : nat) (rest : list Z) : Comp BranchParser BranchResolveError unit :=
  match fuel, rest with
  | _, [] => ret tt
  | O, _ => ret tt
  | S fuel', opcode :: _ =>
      let* width := step rest opcode in
      match slice rest width (blen rest) with
      | None => throw MalformedScript
      | Some rest => resolve_loop fuel' rest
      end
  end.

Definition resolve_covenant_branches (script : list Z) : result BranchResolution BranchResolveError :=
  match resolve_loop (length script) script new_parser with
  | (Ok _, parser) => finish parser
  | (Err error, _) => Err error
  end.

End Resolver.

(** ** [execution.rs] *)

Module Tracer.

Definition OP_NOTIF : Z := 0x64.
Definition SIGNATURE_CHECKS : list Z := [0xab; OP_CHECKSIG; OP_CHECKSIGVERIFY; 0xae; 0xaf; 0xd7].

Inductive WitnessItem :=
  | Selector (value : bool)
  | Signature (position : Z).

Inductive ExecutionError :=
  | MalformedScript
  | BranchDepthExceeded
  | TooManyKeys
  | IncompleteSelectors
  | UnsupportedSignatureCheck
  | UnsupportedOpcode
  | WitnessDataRequired
  | DataDependentBranch.

Inductive Node :=
  | Push
  | KeyCheck (position : Z) (verify : bool)
  | OpNode (opcode : Z)
  | BranchNode (bit : Z) (notif : bool) (then_ otherwise : list Node).

Record OpenBranch := {
  o_bit : Z;
  o_notif : bool;
  o_then : list Node;
  o_otherwise : option (list Node);
}.

(** [opened] holds the open branches, the innermost first. *)
Record Parser := {
  opened : list OpenBranch;
  root : list Node;
  next_branch : Z;
  next_key : Z;
}.

Definition new_parser : Parser := {| opened := []; root := []; next_branch := 0; next_key := 0 |}.

Definition push_open (branch : OpenBranch) (node : Node) : OpenBranch :=
  match o_otherwise branch with
  | Some otherwise =>
      {| o_bit := o_bit branch; o_notif := o_notif branch; o_then := o_then branch;
         o_otherwise := Some (otherwise ++ [node]) |}
  | None =>
      {| o_bit := o_bit branch; o_notif := o_notif branch; o_then := o_then branch ++ [node];
         o_otherwise := None |}
  end.

(** [self.current().push(node)]. *)
Definition push_current (node : Node) (p : Parser) : Parser :=
  match opened p with
  | [] => {| opened := []; root := root p ++ [node]; next_branch := next_branch p; next_key := next_key p |}
  | branch :: outer =>
      {| opened := push_open branch node :: outer; root := root p; next_branch := next_branch p;
         next_key := next_key p |}
  end.

Definition enter_branch (opcode : Z) : Comp Parser ExecutionError unit := fun p =>
  if (MAX_COVENANT_BRANCH_DEPTH <=? blen (opened p)) || (16 <=? next_branch p) then (Err BranchDepthExceeded, p)
  else
    (Ok tt, {| opened := {| o_bit := Z.shiftl 1 (next_branch p); o_notif := opcode =? OP_NOTIF; o_then := [];
                            o_otherwise := None |} :: opened p;
               root := root p; next_branch := next_branch p + 1; next_key := next_key p |}).

Definition enter_else : Comp Parser ExecutionError unit := fun p =>
  match opened p with
  | branch :: outer =>
      match o_otherwise branch with
      | None =>
          (Ok tt, {| opened := {| o_bit := o_bit branch; o_notif := o_notif branch; o_then := o_then branch;
                                  o_otherwise := Some [] |} :: outer;
                     root := root p; next_branch := next_branch p; next_key := next_key p |})
      | Some _ => (Err MalformedScript, p)
      end
  | [] => (Err MalformedScript, p)
  end.

Definition leave_branch : Comp Parser ExecutionError unit := fun p =>
  match opened p with
  | [] => (Err MalformedScript, p)
  | branch :: outer =>
      let node := BranchNode (o_bit branch) (o_notif branch) (o_then branch) (default [] (o_otherwise branch)) in
      (Ok tt, push_current node {| opened := outer; root := root p; next_branch := next_branch p;
                                   next_key := next_key p |})
  end.

Definition key_push (script : list Z) (position : Z) : Comp Parser ExecutionError Z := fun p =>
  match checked_add position 33 with
  | None => (Err MalformedScript, p)
  | Some end_ =>
      if blen script <? end_ then (Err MalformedScript, p)
      else
        let check := default (-1) (get_at script end_) in
        if negb ((check =? OP_CHECKSIG) || (check =? OP_CHECKSIGVERIFY)) then (Ok end_, push_current Push p)
        else if MAX_COVENANT_BRANCH_KEYS <=? next_key p then (Err TooManyKeys, p)
        else
          let position := next_key p in
          let verify := check =? OP_CHECKSIGVERIFY in
          (Ok (end_ + 1), push_current (KeyCheck position verify)
                            {| opened := opened p; root := root p; next_branch := next_branch p;
                               next_key := next_key p + 1 |})
  end.

Definition data_push (script : list Z) (position : Z) : Comp Parser ExecutionError Z := fun p =>
  match read_element script position with
  | None => (Err MalformedScript, p)
  | Some (_, end_) => (Ok end_, push_current Push p)
  end.

(** The offset the operands end at, 0 when there are none. *)
Definition element (script : list Z) (position opcode : Z) : Comp Parser ExecutionError Z :=
  if (opcode =? OP_IF) || (opcode =? OP_NOTIF) then let* _ := enter_branch opcode in ret 0
  else if opcode =? OP_ELSE then let* _ := enter_else in ret 0
  else if opcode =? OP_ENDIF then let* _ := leave_branch in ret 0
  else if opcode =? OP_DATA_32 then key_push script position
  else if (0x01 <=? opcode) && (opcode <=? 0x4e) then data_push script position
  else if (opcode =? 0x00) || (opcode =? 0x4f) || ((0x51 <=? opcode) && (opcode <=? 0x60))
  then fun p => (Ok 0, push_current Push p)
  else fun p => (Ok 0, push_current (OpNode opcode) p).

(** [for (position, &opcode) in self.script.iter().enumerate()]. *)
Fixpoint parse_loop (script rest : list Z) (position operands_end : Z) : Comp Parser ExecutionError unit :=
  match rest with
  | [] => ret tt
  | opcode :: rest' =>
      if operands_end <=? position then
        let* operands_end := element script position opcode in
        parse_loop script rest' (position + 1) operands_end
      else parse_loop script rest' (position + 1) operands_end
  end.

Definition parse (script : list Z) : result (list Node * Z) ExecutionError :=
  match parse_loop script script 0 0 new_parser with
  | (Err error, _) => Err error
  | (Ok _, p) =>
      if bool_decide (opened p = [])
      then Ok (root p, (Z.shiftl 1 (next_branch p) - 1) mod 2 ^ 16)
      else Err MalformedScript
  end.

Definition in_range (lo hi opcode : Z) : bool := (lo <=? opcode) && (opcode <=? hi).
Definition one_of (opcodes : list Z) (opcode : Z) : bool := existsb (Z.eqb opcode) opcodes.

Definition stack_effect (opcode : Z) : option (Z * Z) :=
  if opcode =? 0x61 then Some (0, 0)
  else if one_of [0x69; 0x75; 0xb0; 0xb1] opcode then Some (1, 0)
  else if opcode =? 0x6d then Some (2, 0)
  else if opcode =? 0x6e then Some (2, 4)
  else if one_of [0x76; 0x82] opcode then Some (1, 2)
  else if opcode =? 0x77 then Some (2, 1)
  else if one_of [0x78; 0x7d] opcode then Some (2, 3)
  else if opcode =? 0x7b then Some (3, 3)
  else if opcode =? 0x7c then Some (2, 2)
  else if one_of [0x7f; 0xa5; 0xbc] opcode then Some (3, 1)
  else if one_of [0x88; 0x9d] opcode then Some (2, 0)
  else if one_of [0x8b; 0x8c] opcode || in_range 0x8f 0x92 opcode || one_of [0xa8; 0xaa] opcode then Some (1, 1)
  else if one_of [0x7e; 0x87; 0x93; 0x94] opcode || in_range 0x9a 0x9c opcode || in_range 0x9e 0xa4 opcode
  then Some (2, 1)
  else if one_of [0xb3; 0xb4; 0xb9] opcode then Some (0, 1)
  else if one_of [0xbe; 0xbf; 0xc2; 0xc3; 0xc9; 0xcb; 0xcf; 0xd0; 0xd2; 0xd5] opcode then Some (1, 1)
  else if opcode =? 0xd3 then Some (2, 1)
  else None.

Definition opcode_error (opcode : Z) : ExecutionError :=
  if one_of SIGNATURE_CHECKS opcode then UnsupportedSignatureCheck else UnsupportedOpcode.

(** One node of [pure_effect]: the need and the depth reached so far. The
    blocks of a branch are folded by the same function. *)
Fixpoint pure_node (node : Node) (state : Z * Z) : result (Z * Z) ExecutionError :=
  let block := fix block (nodes : list Node) (state : Z * Z) : result (Z * Z) ExecutionError :=
    match nodes with
    | [] => Ok state
    | node :: nodes => let? state := pure_node node state in block nodes state
    end in
  let '(need, depth) := state in
  let apply pops pushes :=
    let depth := depth - pops in
    Ok (Z.max need (- depth), depth + pushes) in
  match node with
  | Push => apply 0 1
  | KeyCheck _ _ => Err DataDependentBranch
  | OpNode opcode =>
      match stack_effect opcode with
      | Some (pops, pushes) => apply pops pushes
      | None => Err (opcode_error opcode)
      end
  | BranchNode _ _ then_ otherwise =>
      let depth := depth - 1 in
      let? (then_need, then_delta) := block then_ (0, 0) in
      let? (else_need, else_delta) := block otherwise (0, 0) in
      if negb (then_delta =? else_delta) then Err DataDependentBranch
      else Ok (Z.max need (Z.max then_need else_need - depth), depth + then_delta)
  end.

Fixpoint pure_block (nodes : list Node) (state : Z * Z) : result (Z * Z) ExecutionError :=
  match nodes with
  | [] => Ok state
  | node :: nodes => let? state := pure_node node state in pure_block nodes state
  end.
Definition pure_effect (nodes : list Node) : result (Z * Z) ExecutionError := pure_block nodes (0, 0).

Definition arms_effect (then_ otherwise : list Node) : result (Z * Z) ExecutionError :=
  let? (then_need, then_delta) := pure_effect then_ in
  let? (else_need, else_delta) := pure_effect otherwise in
  if negb (then_delta =? else_delta) then Err DataDependentBranch
  else Ok (Z.max then_need else_need, then_delta).

Fixpoint node_holds_key_check (node : Node) : bool :=
  match node with
  | KeyCheck _ _ => true
  | BranchNode _ _ then_ otherwise => existsb node_holds_key_check then_ || existsb node_holds_key_check otherwise
  | Push | OpNode _ => false
  end.
Definition holds_key_check (nodes : list Node) : bool := existsb node_holds_key_check nodes.

Record Walk := { produced : Z; items : list WitnessItem }.

Definition pop (count : Z) : Comp Walk ExecutionError unit := fun w =>
  if produced w <? count then (Err WitnessDataRequired, w)
  else (Ok tt, {| produced := produced w - count; items := items w |}).

Section walk.
Variable supplied_true_mask : Z.

Definition selected (bit : Z) : bool := negb (Z.land supplied_true_mask bit =? 0).

(** [step], with [run] on the blocks of a branch and [branch] in place. *)
Fixpoint walk_node (node : Node) : Comp Walk ExecutionError unit :=
  let run := fix run (nodes : list Node) : Comp Walk ExecutionError unit :=
    match nodes with
    | [] => ret tt
    | node :: nodes => let* _ := walk_node node in run nodes
    end in
  match node with
  | Push => fun w => (Ok tt, {| produced := produced w + 1; items := items w |})
  | KeyCheck position verify => fun w =>
      if negb (produced w =? 0) then (Err UnsupportedSignatureCheck, w)
      else (Ok tt, {| produced := (if verify then 0 else 1); items := items w ++ [Signature position] |})
  | OpNode opcode =>
      match stack_effect opcode with
      | Some (pops, pushes) =>
          let* _ := pop pops in
          fun w => (Ok tt, {| produced := produced w + pushes; items := items w |})
      | None => throw (opcode_error opcode)
      end
  | BranchNode bit notif then_ otherwise => fun w =>
      if produced w =? 0 then
        let value := selected bit in
        let w := {| produced := produced w; items := items w ++ [Selector value] |} in
        run (if negb (Bool.eqb value notif) then then_ else otherwise) w
      else
        match pop 1 w with
        | (Err error, w) => (Err error, w)
        | (Ok _, w) =>
            if holds_key_check then_ || holds_key_check otherwise then
              let value := selected bit in
              run (if negb (Bool.eqb value notif) then then_ else otherwise) w
            else
              match arms_effect then_ otherwise with
              | Err error => (Err error, w)
              | Ok (need, delta) =>
                  if produced w <? need then (Err WitnessDataRequired, w)
                  else (Ok tt, {| produced := produced w + delta; items := items w |})
              end
        end
  end.

Fixpoint run (nodes : list Node) : Comp Walk ExecutionError unit :=
  match nodes with
  | [] => ret tt
  | node :: nodes => let* _ := walk_node node in run nodes
  end.
End walk.

Definition trace_witness (script : list Z) (supplied_mask supplied_true_mask : Z)
  : result (list WitnessItem) ExecutionError :=
  let? (program, selector_mask) := parse script in
  if negb (supplied_mask =? selector_mask) || negb (Z.ldiff supplied_true_mask supplied_mask =? 0)
  then Err IncompleteSelectors
  else
    match run supplied_true_mask program {| produced := 0; items := [] |} with
    | (Ok _, walk) => Ok (items walk)
    | (Err error, _) => Err error
    end.

End Tracer.
