(* ===== verification/BranchProofs.v ===== *)
(** * The resolver and the tracer agree

    The branch resolver and the witness tracer parse a redeem script element by
    element into related states, so that the resolver's keys follow from the
    tracer's tree and the keys the script checks; a traced witness asks only
    for signatures of keys that the supplied selectors reach. *)

From S2P Require Import Prelude Script Branch.
Import Script.Opcode.

#[local] Existing Instance Resolver.branch_key_eq_dec.

(** ** Masks *)

Lemma testbit_small x j n : 0 <= x < 2 ^ j -> j <= n -> Z.testbit x n = false.
Proof.
  intros [Hx0 Hx] Hn. destruct (Z.eq_dec x 0) as [->|Hne]; [apply Z.testbit_0_l|].
  apply Z.bits_above_log2; [done|]. apply Z.log2_lt_pow2; [lia|].
  assert (2 ^ j <= 2 ^ n) by (apply Z.pow_le_mono_r; lia). lia.
Qed.

(** Equality of masks, bit by bit; [bits] decides each bit. *)
Ltac mask_bits :=
  apply Z.bits_inj'; let n := fresh "n" in let Hn := fresh "Hn" in intros n Hn;
  repeat first [rewrite Z.ldiff_spec | rewrite Z.lor_spec | rewrite Z.lxor_spec | rewrite Z.land_spec];
  rewrite ?Z.pow2_bits_eqb by lia.

Lemma ldiff_lor_bit x j : 0 <= j -> 0 <= x < 2 ^ j -> Z.ldiff (Z.lor x (2 ^ j)) (2 ^ j) = x.
Proof.
  intros Hj Hx. mask_bits. destruct (Z.eqb_spec j n) as [->|].
  - rewrite (testbit_small x n n) by lia. done.
  - by rewrite orb_false_r, andb_true_r.
Qed.

Lemma ldiff_small x j : 0 <= j -> 0 <= x < 2 ^ j -> Z.ldiff x (2 ^ j) = x.
Proof.
  intros Hj Hx. mask_bits. destruct (Z.eqb_spec j n) as [->|].
  - rewrite (testbit_small x n n) by lia. done.
  - by rewrite andb_true_r.
Qed.

Lemma lxor_lor_bit x j : 0 <= j -> 0 <= x < 2 ^ j -> Z.lxor (Z.lor x (2 ^ j)) (2 ^ j) = x.
Proof.
  intros Hj Hx. mask_bits. destruct (Z.eqb_spec j n) as [->|].
  - rewrite (testbit_small x n n) by lia. done.
  - by rewrite orb_false_r, xorb_false_r.
Qed.

Lemma lxor_small x j : 0 <= j -> 0 <= x < 2 ^ j -> Z.lxor x (2 ^ j) = Z.lor x (2 ^ j).
Proof.
  intros Hj Hx. mask_bits. destruct (Z.eqb_spec j n) as [->|].
  - rewrite (testbit_small x n n) by lia. done.
  - by rewrite orb_false_r, xorb_false_r.
Qed.

Lemma lor_bound x y j : 0 <= j -> 0 <= x < 2 ^ j -> 0 <= y < 2 ^ j -> 0 <= Z.lor x y < 2 ^ j.
Proof.
  intros Hj Hx Hy. assert (Hnn : 0 <= Z.lor x y) by (apply Z.lor_nonneg; lia). split; [done|].
  destruct (Z.eq_dec (Z.lor x y) 0) as [->|Hne]; [lia|]. apply Z.log2_lt_pow2; [lia|].
  rewrite Z.log2_lor by lia.
  assert (Hlog : forall z, 0 <= z < 2 ^ j -> z <> 0 -> Z.log2 z < j) by (intros; apply Z.log2_lt_pow2; lia).
  assert (Hpos : 0 < j).
  { destruct (Z.eq_dec j 0) as [->|]; [|lia]. change (2 ^ 0) with 1 in *.
    assert (x = 0) as -> by lia. assert (y = 0) as -> by lia. done. }
  destruct (Z.eq_dec x 0) as [->|]; [|destruct (Z.eq_dec y 0) as [->|]]; cbn [Z.log2]; apply Z.max_lub_lt;
    first [done | by apply Hlog].
Qed.

(** ** The key checks of a tree, with the selector bits above each *)

Section flat.
Import Tracer.

(** The masks of an arm: the branch's bit decided, to the value that takes
    the arm. *)
Definition arm_mask (bit : Z) (value : bool) (path : Z * Z) : Z * Z :=
  (Z.lor path.1 bit, if value then Z.lor path.2 bit else path.2).

Fixpoint flat_node (path : Z * Z) (node : Node) : list (Z * (Z * Z)) :=
  match node with
  | KeyCheck position _ => [(position, path)]
  | BranchNode bit notif then_ otherwise =>
      concat (map (flat_node (arm_mask bit (negb notif) path)) then_)
      ++ concat (map (flat_node (arm_mask bit notif path)) otherwise)
  | Push | OpNode _ => []
  end.
Definition flat (path : Z * Z) (nodes : list Node) : list (Z * (Z * Z)) := concat (map (flat_node path) nodes).

Lemma flat_app path nodes1 nodes2 : flat path (nodes1 ++ nodes2) = flat path nodes1 ++ flat path nodes2.
Proof. unfold flat. by rewrite map_app, concat_app. Qed.

Lemma flat_snoc path nodes node : flat path (nodes ++ [node]) = flat path nodes ++ flat_node path node.
Proof. rewrite flat_app. unfold flat at 2. cbn. by rewrite app_nil_r. Qed.

(** The value that takes the arm being filled. *)
Definition arm_value (branch : OpenBranch) : bool :=
  match o_otherwise branch with None => negb (o_notif branch) | Some _ => o_notif branch end.

Fixpoint path_of (opened : list OpenBranch) : Z * Z :=
  match opened with
  | [] => (0, 0)
  | branch :: outer => arm_mask (o_bit branch) (arm_value branch) (path_of outer)
  end.

(** The key checks parsed so far, in script order. *)
Fixpoint flat_open (root : list Node) (opened : list OpenBranch) : list (Z * (Z * Z)) :=
  match opened with
  | [] => flat (0, 0) root
  | branch :: outer =>
      flat_open root outer
      ++ flat (arm_mask (o_bit branch) (negb (o_notif branch)) (path_of outer)) (o_then branch)
      ++ flat (arm_mask (o_bit branch) (o_notif branch) (path_of outer)) (default [] (o_otherwise branch))
  end.

(** Branches carry single bits, and inner branches higher ones. *)
Fixpoint node_ok (lo : Z) (node : Node) : Prop :=
  match node with
  | BranchNode bit _ then_ otherwise =>
      exists j, lo <= j /\ bit = 2 ^ j /\ foldr and True (map (node_ok (j + 1)) then_)
        /\ foldr and True (map (node_ok (j + 1)) otherwise)
  | _ => True
  end.
Definition nodes_ok (lo : Z) (nodes : list Node) : Prop := foldr and True (map (node_ok lo) nodes).

Lemma nodes_ok_snoc lo nodes node : nodes_ok lo (nodes ++ [node]) <-> nodes_ok lo nodes /\ node_ok lo node.
Proof. unfold nodes_ok. induction nodes as [|n nodes IH]; cbn in *; tauto. Qed.

(** Open branches carry increasing bits, outermost first, below [2 ^ limit]. *)
Fixpoint open_ok (limit : Z) (opened : list OpenBranch) : Prop :=
  match opened with
  | [] => 0 <= limit
  | branch :: outer =>
      exists j, 0 <= j < limit /\ o_bit branch = 2 ^ j /\ open_ok j outer
        /\ nodes_ok (j + 1) (o_then branch) /\ nodes_ok (j + 1) (default [] (o_otherwise branch))
  end.

(** The lowest bit a node appended now may carry. *)
Definition floor_of (opened : list OpenBranch) : Z :=
  match opened with [] => 0 | branch :: _ => Z.log2 (o_bit branch) + 1 end.

Lemma open_ok_weaken limit limit' opened : limit <= limit' -> open_ok limit opened -> open_ok limit' opened.
Proof. destruct opened; cbn; [lia|]. intros Hle (j & Hj & H). exists j. split; [lia|done]. Qed.

Lemma open_ok_length limit opened : open_ok limit opened -> blen opened <= limit.
Proof.
  revert limit. induction opened as [|branch outer IH]; cbn; intros limit; [done|].
  intros (j & Hj & _ & Ho%IH & _). rewrite blen_cons. lia.
Qed.

Lemma path_bound limit opened :
  open_ok limit opened -> 0 <= (path_of opened).1 < 2 ^ limit /\ 0 <= (path_of opened).2 < 2 ^ limit.
Proof.
  revert limit. induction opened as [|branch outer IH]; intros limit; cbn [open_ok path_of].
  - intros Hl. assert (1 <= 2 ^ limit) by (apply (Z.pow_le_mono_r 2 0); lia). cbn. lia.
  - intros (j & Hj & Hbit & Hok%IH & _). destruct Hok as [H1 H2].
    assert (2 ^ j < 2 ^ limit) by (apply Z.pow_lt_mono_r; lia). pose proof (Z.pow_nonneg 2 j).
    unfold arm_mask. rewrite Hbit. cbn [fst snd].
    split; [apply lor_bound; lia|]. destruct (arm_value branch); [apply lor_bound|]; lia.
Qed.

Lemma path_push_open branch node outer : path_of (push_open branch node :: outer) = path_of (branch :: outer).
Proof. destruct branch as [bit notif then_ [otherwise|]]; done. Qed.

Lemma floor_below limit opened : open_ok limit opened -> floor_of opened <= limit.
Proof.
  destruct opened as [|branch outer]; [done|]. intros (j & Hj & Hbit & _). cbn [floor_of].
  rewrite Hbit, Z.log2_pow2; lia.
Qed.

Lemma open_ok_push_open limit branch node outer :
  node_ok (floor_of (branch :: outer)) node ->
  open_ok limit (branch :: outer) -> open_ok limit (push_open branch node :: outer).
Proof.
  intros Hnode (j & Hj & Hbit & Ho & Ht & He). exists j. cbn [floor_of] in Hnode.
  rewrite Hbit, Z.log2_pow2 in Hnode by lia.
  destruct branch as [bit notif then_ [otherwise|]]; cbn in *; split_and!; try done; try lia;
    by apply nodes_ok_snoc.
Qed.

Lemma flat_push_current node p :
  flat_open (root (push_current node p)) (opened (push_current node p))
    = flat_open (root p) (opened p) ++ flat_node (path_of (opened p)) node.
Proof.
  unfold push_current. destruct p as [[|[bit notif then_ [otherwise|]] outer] root nb nk];
    cbn [opened Tracer.root flat_open push_open o_otherwise o_then o_bit o_notif default from_option id path_of arm_value].
  - apply flat_snoc.
  - by rewrite flat_snoc, !app_assoc.
  - rewrite flat_snoc. change (flat (arm_mask bit notif (path_of outer)) []) with (@nil (Z * (Z * Z))).
    by rewrite !app_nil_r, app_assoc.
Qed.
End flat.

(** ** One state of the resolver for one state of the tracer *)

Definition frame_of (branch : Tracer.OpenBranch) : Resolver.Frame :=
  {| Resolver.bit := Tracer.o_bit branch; Resolver.in_else := bool_decide (is_Some (Tracer.o_otherwise branch)) |}.

(** The numbered masks of resolved keys. *)
Definition numbered_masks (keys : list Resolver.BranchKey) : list (Z * (Z * Z)) :=
  imap (fun i key => (Z.of_nat i, (Resolver.decision_mask key, Resolver.if_mask key))) keys.

Lemma numbered_snoc keys key :
  numbered_masks (keys ++ [key])
    = numbered_masks keys ++ [(blen keys, (Resolver.decision_mask key, Resolver.if_mask key))].
Proof. unfold numbered_masks. rewrite imap_app. cbn. unfold blen. by rewrite Nat.add_0_r. Qed.

Record related (r : Resolver.BranchParser) (t : Tracer.Parser) : Prop := {
  rel_frames : Resolver.frames r = map frame_of (Tracer.opened t);
  rel_branches : Resolver.next_branch r = Tracer.next_branch t;
  rel_limit : 0 <= Tracer.next_branch t <= 16;
  rel_open : open_ok (Tracer.next_branch t) (Tracer.opened t);
  rel_root : nodes_ok 0 (Tracer.root t);
  rel_path : (Resolver.p_decision_mask r, Resolver.p_if_mask r) = path_of (Tracer.opened t);
  rel_keys : flat_open (Tracer.root t) (Tracer.opened t) = numbered_masks (Resolver.keys (Resolver.out r));
  rel_next_key : Tracer.next_key t = blen (Resolver.keys (Resolver.out r));
  rel_mask : Resolver.selector_mask (Resolver.out r) = 2 ^ Tracer.next_branch t - 1;
  rel_decided : Forall (fun key => 0 <= Resolver.decision_mask key < 2 ^ Tracer.next_branch t)
                  (Resolver.keys (Resolver.out r));
}.

Lemma related_new : related Resolver.new_parser Tracer.new_parser.
Proof. split; cbn; try done; lia. Qed.

(** Outcomes of the two parsers on one prefix: both go on in related states,
    both fail, or the resolver refuses a repeated binding. *)
Definition agree {A B} (P : A -> B -> Prop)
    (r : result A Resolver.BranchResolveError * Resolver.BranchParser)
    (t : result B Tracer.ExecutionError * Tracer.Parser) : Prop :=
  match r, t with
  | (Ok a, r), (Ok b, t) => P a b /\ related r t
  | (Err Resolver.AmbiguousKey, _), _ => True
  | (Err _, _), (Err _, _) => True
  | _, _ => False
  end.

Lemma related_push_current r t node :
  related r t -> flat_node (path_of (Tracer.opened t)) node = [] -> node_ok (floor_of (Tracer.opened t)) node ->
  related r (Tracer.push_current node t).
Proof.
  intros [] Hflat Hnode. pose proof (flat_push_current node t) as Hpush. rewrite Hflat, app_nil_r, rel_keys0 in Hpush.
  destruct t as [[|branch outer] root nb nk]; unfold Tracer.push_current in *; cbn in *; split; cbn; try done.
  - by apply nodes_ok_snoc.
  - rewrite rel_frames0. f_equal. by destruct branch as [? ? ? [|]].
  - by apply (open_ok_push_open nb branch node outer).
  - rewrite rel_path0. by destruct branch as [? ? ? [|]].
Qed.

Lemma full_mask_step n : 0 <= n -> Z.lor (2 ^ n - 1) (2 ^ n) = 2 ^ (n + 1) - 1.
Proof.
  intros Hn. rewrite !Z.sub_1_r, <- !Z.ones_equiv. mask_bits. rewrite !Z.testbit_ones_nonneg by lia.
  destruct (Z.ltb_spec n0 n), (Z.eqb_spec n n0), (Z.ltb_spec n0 (n + 1)); try done; lia.
Qed.

Lemma agree_enter opcode r t :
  opcode = 0x63 \/ opcode = 0x64 -> related r t ->
  agree (fun _ _ => True) (Resolver.enter_branch opcode r) (Tracer.enter_branch opcode t).
Proof.
  intros Hop Hrel. pose proof Hrel as [].
  pose proof (open_ok_length _ _ rel_open0) as Hlen. unfold Resolver.enter_branch, Tracer.enter_branch, agree.
  unfold MAX_COVENANT_BRANCH_DEPTH. rewrite rel_branches0.
  destruct (Z.leb_spec 16 (Tracer.next_branch t)).
  { by rewrite orb_true_r. }
  destruct (Z.leb_spec 16 (blen (Tracer.opened t))); [lia|]. cbn [orb]. split; [done|].
  destruct t as [opened root nb nk]. cbn [Tracer.opened Tracer.next_branch Tracer.next_key Tracer.root] in *.
  rewrite !Z.shiftl_1_l.
  split; cbn [Resolver.frames Resolver.next_branch Resolver.out Resolver.p_decision_mask Resolver.p_if_mask
    Resolver.keys Resolver.selector_mask Tracer.opened Tracer.next_branch Tracer.next_key Tracer.root map open_ok
    path_of flat_open Tracer.o_bit Tracer.o_notif Tracer.o_then Tracer.o_otherwise].
  - by rewrite rel_frames0.
  - done.
  - lia.
  - exists nb. split_and!; try done; lia.
  - done.
  - unfold arm_mask, arm_value. cbn [Tracer.o_otherwise Tracer.o_notif].
    destruct (path_of opened) as [dm im]. cbn [fst snd] in *. injection rel_path0 as -> ->.
    by destruct Hop as [-> | ->].
  - rewrite rel_keys0. cbn. by rewrite app_nil_r.
  - done.
  - rewrite rel_mask0. apply full_mask_step. lia.
  - apply (Forall_impl _ _ _ rel_decided0). intros key Hkey.
    assert (2 ^ nb < 2 ^ (nb + 1)) by (apply Z.pow_lt_mono_r; lia). lia.
Qed.

Lemma agree_else r t :
  related r t -> agree (fun _ _ => True) (Resolver.enter_else r) (Tracer.enter_else t).
Proof.
  intros Hrel. pose proof Hrel as []. unfold Resolver.enter_else, Tracer.enter_else, agree. rewrite rel_frames0.
  destruct t as [[|[bit notif then_ [otherwise|]] outer] root nb nk]; cbn in *; try done.
  split; [done|]. destruct rel_open0 as (j & Hj & -> & Hok & Ht & _). destruct (path_bound j outer Hok) as [Hb1 Hb2].
  split; cbn; try done.
  - by exists j.
  - unfold arm_mask, arm_value in *. cbn in *. destruct (path_of outer) as [dm im]. cbn [fst snd] in *.
    injection rel_path0 as -> ->. f_equal. destruct notif; cbn.
    + apply lxor_small; lia.
    + apply lxor_lor_bit; lia.
Qed.

Lemma agree_leave r t :
  related r t -> agree (fun _ _ => True) (Resolver.leave_branch r) (Tracer.leave_branch t).
Proof.
  intros Hrel. pose proof Hrel as []. unfold Resolver.leave_branch, Tracer.leave_branch, agree. rewrite rel_frames0.
  destruct t as [[|branch outer] root nb nk]; [done|].
  cbn [Tracer.opened Tracer.root Tracer.next_branch Tracer.next_key map] in *. split; [done|].
  destruct rel_open0 as (j & Hj & Hbit & Hok & Ht & He). destruct (path_bound j outer Hok) as [Hb1 Hb2].
  set (node := Tracer.BranchNode _ _ _ _).
  assert (Hnode : node_ok (floor_of outer) node) by (exists j; split; [by apply floor_below|done]).
  set (t' := {| Tracer.opened := outer; Tracer.root := root; Tracer.next_branch := nb; Tracer.next_key := nk |}).
  assert (Hpath : path_of (Tracer.opened (Tracer.push_current node t')) = path_of outer).
  { unfold t', Tracer.push_current. destruct outer as [|b o]; [done|]. apply path_push_open. }
  assert (Hkeep : Tracer.next_branch (Tracer.push_current node t') = nb /\
            Tracer.next_key (Tracer.push_current node t') = nk /\
            map frame_of (Tracer.opened (Tracer.push_current node t')) = map frame_of outer /\
            open_ok j (Tracer.opened (Tracer.push_current node t')) /\
            nodes_ok 0 (Tracer.root (Tracer.push_current node t'))).
  { unfold t', Tracer.push_current. destruct outer as [|b o]; cbn [Tracer.opened Tracer.root].
    - split_and!; try done. by apply nodes_ok_snoc.
    - split_and!; [done|done| |by apply open_ok_push_open|done]. cbn. by destruct b as [? ? ? [|]]. }
  destruct Hkeep as (Hnb & Hnk & Hframes & Hopen & Hroot).
  split; cbn [Resolver.frames Resolver.next_branch Resolver.out Resolver.p_decision_mask Resolver.p_if_mask];
    rewrite ?Hnb, ?Hnk, ?Hframes, ?Hpath; try done.
  - eapply open_ok_weaken; [|exact Hopen]. cbn in *. lia.
  - cbn [path_of] in rel_path0. unfold arm_mask in rel_path0. destruct (path_of outer) as [dm im].
    cbn [fst snd] in *. injection rel_path0 as -> ->. unfold frame_of. cbn [Resolver.bit]. rewrite Hbit.
    rewrite ldiff_lor_bit by lia. f_equal.
    destruct (arm_value branch); [apply ldiff_lor_bit|apply ldiff_small]; lia.
  - rewrite flat_push_current. unfold t'. cbn [Tracer.root Tracer.opened] in *. rewrite <- rel_keys0.
    reflexivity.
Qed.

(** A key check recorded by both. *)
Lemma agree_key key verify r t :
  related r t ->
  agree (fun _ _ => True)
    (Resolver.push {| Resolver.key := key; Resolver.decision_mask := Resolver.p_decision_mask r;
                      Resolver.if_mask := Resolver.p_if_mask r |} r)
    (if MAX_COVENANT_BRANCH_KEYS <=? Tracer.next_key t then (Err Tracer.TooManyKeys, t)
     else (Ok tt, Tracer.push_current (Tracer.KeyCheck (Tracer.next_key t) verify)
                    {| Tracer.opened := Tracer.opened t; Tracer.root := Tracer.root t;
                       Tracer.next_branch := Tracer.next_branch t; Tracer.next_key := Tracer.next_key t + 1 |})).
Proof.
  intros Hrel. pose proof Hrel as []. unfold Resolver.push, agree. set (item := Resolver.Build_BranchKey _ _ _).
  destruct (bool_decide (item ∈ _)); [done|]. rewrite rel_next_key0.
  destruct (_ <=? _); [done|]. split; [done|].
  destruct t as [opened root nb nk]. cbn [Tracer.opened Tracer.root Tracer.next_branch Tracer.next_key] in *.
  set (node := Tracer.KeyCheck _ _).
  set (t' := Tracer.Build_Parser opened root nb _). pose proof (flat_push_current node t') as Hflat.
  assert (Hkeep : Tracer.next_branch (Tracer.push_current node t') = nb /\
            Tracer.next_key (Tracer.push_current node t') = blen (Resolver.keys (Resolver.out r)) + 1 /\
            map frame_of (Tracer.opened (Tracer.push_current node t')) = map frame_of opened /\
            open_ok nb (Tracer.opened (Tracer.push_current node t')) /\
            nodes_ok 0 (Tracer.root (Tracer.push_current node t')) /\
            path_of (Tracer.opened (Tracer.push_current node t')) = path_of opened).
  { unfold t', Tracer.push_current. destruct opened as [|b o]; cbn [Tracer.opened Tracer.root].
    - split_and!; try done. by apply nodes_ok_snoc.
    - split_and!; [done|done| |by apply open_ok_push_open|done|apply path_push_open].
      cbn. by destruct b as [? ? ? [|]]. }
  destruct Hkeep as (Hnb & Hnk & Hframes & Hopen & Hroot & Hpath).
  split; cbn [Resolver.frames Resolver.next_branch Resolver.out Resolver.p_decision_mask Resolver.p_if_mask
    Resolver.keys Resolver.selector_mask]; rewrite ?Hnb, ?Hnk, ?Hframes, ?Hpath; try done.
  - rewrite Hflat, numbered_snoc. unfold t'. cbn [Tracer.root Tracer.opened flat_node node]. rewrite rel_keys0.
    cbn [flat_node item Resolver.decision_mask Resolver.if_mask]. by rewrite rel_path0.
  - rewrite blen_app. done.
  - apply Forall_app; split; [done|]. apply Forall_singleton. cbn [item Resolver.decision_mask].
    pose proof (path_bound nb opened rel_open0) as [Hb _]. by rewrite <- rel_path0 in Hb.
Qed.

(** ** The two loops, element by element *)

Lemma slice_cons {A} (x : A) l : slice (x :: l) 1 (blen (x :: l)) = Some l.
Proof. apply (slice_split _ [x] l []); [by rewrite app_nil_r|done|len]. Qed.

Lemma slice_suffix {A} (l1 l2 : list A) : slice (l1 ++ l2) (blen l1) (blen (l1 ++ l2)) = Some l2.
Proof. apply (slice_split _ l1 l2 []); [by rewrite app_nil_r|done|len]. Qed.

(** Reading an element does not depend on what precedes it. *)
Lemma read_element_suffix pre rest :
  bytes_ok (pre ++ rest) -> blen (pre ++ rest) <= usize_max ->
  match read_element rest 0, read_element (pre ++ rest) (blen pre) with
  | Some (e, n), Some (e', n') =>
      e = e' /\ n' = blen pre + n /\ exists tail, rest = element_bytes e ++ tail /\ n = blen (element_bytes e)
  | None, None => True
  | _, _ => False
  end.
Proof.
  intros Hok Hmax. apply bytes_ok_app in Hok as Hok'. destruct Hok' as [_ Hrest].
  pose proof (blen_nonneg pre). autorewrite with blen in Hmax.
  destruct (read_element rest 0) as [[e n]|] eqn:Hr.
  - apply read_element_inv in Hr as (p0 & tail & Hs & Hp0 & -> & Hwf); [|done].
    destruct p0 as [|x p0]; [|rewrite blen_cons in Hp0; pose proof (blen_nonneg p0); lia]. cbn [app] in Hs.
    rewrite (read_element_wf (pre ++ rest) pre tail e Hwf); [|by rewrite Hs|by autorewrite with blen].
    split_and!; [done|lia|]. exists tail. split; [done|lia].
  - destruct (read_element (pre ++ rest) (blen pre)) as [[e n]|] eqn:Hr'; [|done].
    apply read_element_inv in Hr' as (p0 & tail & Hs & Hp0 & -> & Hwf); [|done].
    apply app_inj_1 in Hs as [-> Hs]; [|unfold blen in *; lia].
    assert (Hr0 : read_element rest (blen []) = Some (e, blen [] + blen (element_bytes e)))
      by (apply (read_element_wf rest [] tail e Hwf); [done|lia]).
    change (blen []) with 0 in Hr0. congruence.
Qed.

Lemma parse_skip script rest position operands_end t :
  position <= operands_end -> operands_end <= position + blen rest ->
  Tracer.parse_loop script rest position operands_end t
    = Tracer.parse_loop script (drop (Z.to_nat (operands_end - position)) rest) operands_end operands_end t.
Proof.
  revert position. induction rest as [|x rest IH]; intros position Hle Hend.
  - by rewrite drop_nil.
  - rewrite blen_cons in Hend. destruct (Z.eq_dec position operands_end) as [->|Hne].
    + rewrite Z.sub_diag. done.
    + cbn [Tracer.parse_loop]. destruct (Z.leb_spec operands_end position); [lia|].
      rewrite IH by lia.
      replace (Z.to_nat (operands_end - position)) with (S (Z.to_nat (operands_end - (position + 1)))) by lia.
      done.
Qed.

Lemma parse_loop_end script rest position oe oe' t :
  oe <= position -> oe' <= position ->
  Tracer.parse_loop script rest position oe t = Tracer.parse_loop script rest position oe' t.
Proof. intros H1 H2. destruct rest as [|x rest]; [done|]. cbn [Tracer.parse_loop]. by decide_tests. Qed.

(** A signature check, as the next byte and as the next element. *)
Definition check_opcode (op : Z) : bool := (op =? OP_CHECKSIG) || (op =? OP_CHECKSIGVERIFY).
Definition check_byte (rest : list Z) : bool := match rest with op :: _ => check_opcode op | [] => false end.
Definition is_check (es : list Element) : bool := match es with e :: _ => check_opcode (opcode e) | [] => false end.

(** The keys a script checks, in order: every 32-byte push that a signature
    check follows. *)
Fixpoint checked_keys (es : list Element) : list (list Z) :=
  match es with
  | [] => []
  | e :: es => if (opcode e =? OP_DATA_32) && is_check es then data e :: checked_keys es else checked_keys es
  end.

(** One element of the resolver; [check] says whether a check follows. *)
Definition relem (e : Element) (check : bool) : Comp Resolver.BranchParser Resolver.BranchResolveError unit := fun p =>
  if (opcode e =? 0x63) || (opcode e =? 0x64) then Resolver.enter_branch (opcode e) p
  else if opcode e =? 0x67 then Resolver.enter_else p
  else if opcode e =? 0x68 then Resolver.leave_branch p
  else if (opcode e =? 0x20) && check
  then Resolver.push {| Resolver.key := data e; Resolver.decision_mask := Resolver.p_decision_mask p;
                        Resolver.if_mask := Resolver.p_if_mask p |} p
  else (Ok tt, p).

Fixpoint rsteps (es : list Element) : Comp Resolver.BranchParser Resolver.BranchResolveError unit :=
  match es with
  | [] => ret tt
  | e :: es => let* _ := relem e (is_check es) in rsteps es
  end.

(** One element of the tracer, and a key with its check. *)
Definition telem (e : Element) : Comp Tracer.Parser Tracer.ExecutionError unit := fun p =>
  if (opcode e =? 0x63) || (opcode e =? 0x64) then Tracer.enter_branch (opcode e) p
  else if opcode e =? 0x67 then Tracer.enter_else p
  else if opcode e =? 0x68 then Tracer.leave_branch p
  else (Ok tt, Tracer.push_current
          (if (0x00 <=? opcode e) && (opcode e <=? 0x4f) || ((0x51 <=? opcode e) && (opcode e <=? 0x60))
           then Tracer.Push else Tracer.OpNode (opcode e)) p).

Definition record_key (verify : bool) : Comp Tracer.Parser Tracer.ExecutionError unit := fun t =>
  if MAX_COVENANT_BRANCH_KEYS <=? Tracer.next_key t then (Err Tracer.TooManyKeys, t)
  else (Ok tt, Tracer.push_current (Tracer.KeyCheck (Tracer.next_key t) verify)
                 {| Tracer.opened := Tracer.opened t; Tracer.root := Tracer.root t;
                    Tracer.next_branch := Tracer.next_branch t; Tracer.next_key := Tracer.next_key t + 1 |}).

Fixpoint tsteps (es : list Element) : Comp Tracer.Parser Tracer.ExecutionError unit :=
  match es with
  | [] => ret tt
  | e :: es =>
      if (opcode e =? OP_DATA_32) && is_check es then
        match es with
        | c :: es => let* _ := record_key (opcode c =? OP_CHECKSIGVERIFY) in tsteps es
        | [] => ret tt
        end
      else let* _ := telem e in tsteps es
  end.

(** *** Elements and bytes *)

Lemma plain_bytes e : wf_element e -> opcode e = 0 \/ 0x4e < opcode e -> element_bytes e = [opcode e].
Proof.
  intros (_ & _ & Hlen) Hop. unfold element_bytes. destruct e as [op d]. revert Hlen.
  opcode_cases op; try lia; intros Hlen; cbn in *; pose proof (blen_nonneg d); by destruct d; [|rewrite blen_cons in *; pose proof (blen_nonneg d); lia].
Qed.

Lemma key_bytes e : wf_element e -> opcode e = 0x20 -> element_bytes e = 0x20 :: data e /\ blen (data e) = 32.
Proof. destruct e as [op d]. intros (_ & _ & Hlen) Hop. cbn in Hop. subst op. done. Qed.

Lemma check_byte_script es junk :
  Forall wf_element es -> check_byte junk = false -> check_byte (script_of es ++ junk) = is_check es.
Proof. intros Hwf Hj. by destruct Hwf as [|e es]. Qed.

(** *** One step of each loop *)

(** The resolver reads one element and keeps what follows. *)
Lemma resolve_element fuel e rest r :
  wf_element e -> blen (element_bytes e ++ rest) <= usize_max ->
  Resolver.resolve_loop (S fuel) (element_bytes e ++ rest) r
    = (let* _ := relem e (check_byte rest) in Resolver.resolve_loop fuel rest) r.
Proof.
  intros Hwf Hmax.
  assert (Hstep : Resolver.step (element_bytes e ++ rest) (opcode e) r
            = (let* _ := relem e (check_byte rest) in ret (blen (element_bytes e))) r).
  { unfold Resolver.step, relem.
    assert (Hplain : opcode e = 0 \/ 0x4e < opcode e -> blen (element_bytes e) = 1) by (intros H; by rewrite (plain_bytes e Hwf H)).
    destruct (Z.eqb_spec (opcode e) 0x63); [rewrite Hplain by lia; done|].
    destruct (Z.eqb_spec (opcode e) 0x64); [rewrite Hplain by lia; done|]. cbn [orb].
    destruct (Z.eqb_spec (opcode e) 0x67); [rewrite Hplain by lia; done|].
    destruct (Z.eqb_spec (opcode e) 0x68); [rewrite Hplain by lia; done|].
    destruct (Z.eqb_spec (opcode e) 0x20) as [Hkey|]; cbn [andb].
    - destruct (key_bytes e Hwf Hkey) as [Hb Hlen]. rewrite Hb, blen_cons, Hlen. unfold bind, Resolver.inspect_key_push.
      cbn [app]. rewrite (slice_split (0x20 :: data e ++ rest) [0x20] (data e) rest) by (try app_eq; try len; done).
      destruct rest as [|check rest]; cbn [check_byte].
      + assert (Hnone : get_at (0x20 :: data e ++ []) 33 = None).
        { unfold get_at. cbn [Z.leb Z.compare]. rewrite app_nil_r. apply lookup_ge_None. cbn [length]. unfold blen in Hlen. lia. }
        by rewrite Hnone.
      + rewrite (get_at_split (0x20 :: data e ++ check :: rest) (0x20 :: data e) rest check)
          by (try done; rewrite blen_cons; lia).
        unfold check_opcode, OP_CHECKSIG, OP_CHECKSIGVERIFY. by destruct (_ || _).
    - destruct ((0x01 <=? opcode e) && (opcode e <=? 0x4e)) eqn:Hdata.
      + pose proof (read_element_wf (element_bytes e ++ rest) [] rest e Hwf eq_refl Hmax) as Hread.
        change (blen []) with 0 in Hread. rewrite Hread. unfold bind, ret. by rewrite Z.add_0_l.
      + rewrite Hplain; [done|]. destruct Hwf as [Hb _]. unfold byte_ok in Hb. lia. }
  change (element_bytes e ++ rest) with (opcode e :: (element_prefix e ++ data e) ++ rest) at 1.
  cbn [Resolver.resolve_loop].
  change (opcode e :: (element_prefix e ++ data e) ++ rest) with (element_bytes e ++ rest).
  unfold bind at 1. rewrite Hstep. unfold bind, ret. destruct (relem e (check_byte rest) r) as [[u|error] r']; [|done].
  by rewrite slice_suffix.
Qed.

(** The operands of an element are skipped. *)
Lemma parse_operands script pre first rest t :
  first <> [] ->
  Tracer.parse_loop script (tail (first ++ rest)) (blen pre + 1) (blen (pre ++ first)) t
  = Tracer.parse_loop script rest (blen (pre ++ first)) 0 t.
Proof.
  intros Hne. destruct first as [|x first]; [done|]. cbn [app tail].
  rewrite parse_skip; [|autorewrite with blen; pose proof (blen_nonneg first); lia
                       |autorewrite with blen; pose proof (blen_nonneg rest); lia].
  replace (Z.to_nat (blen (pre ++ x :: first) - (blen pre + 1))) with (length first)
    by (autorewrite with blen; unfold blen; lia).
  rewrite drop_app_length. apply parse_loop_end; [done|apply blen_nonneg].
Qed.

(** The tracer's loop at an element. *)
Lemma parse_loop_at script op rest (pre : list Z) t :
  Tracer.parse_loop script (op :: rest) (blen pre) 0 t
  = (let* oe := Tracer.element script (blen pre) op in Tracer.parse_loop script rest (blen pre + 1) oe) t.
Proof. cbn [Tracer.parse_loop]. rewrite (proj2 (Z.leb_le 0 (blen pre))) by apply blen_nonneg. done. Qed.

(** A 32-byte push is a key exactly when a check follows. *)
Lemma key_push_at script pre key rest t :
  script = pre ++ 0x20 :: key ++ rest -> blen key = 32 -> blen script <= usize_max ->
  Tracer.key_push script (blen pre) t =
    (if check_byte rest
     then let* _ := record_key (match rest with c :: _ => c =? OP_CHECKSIGVERIFY | [] => false end) in
          ret (blen (pre ++ 0x20 :: key) + 1)
     else fun t => (Ok (blen (pre ++ 0x20 :: key)), Tracer.push_current Tracer.Push t)) t.
Proof.
  intros Hs Hkey Hmax. unfold Tracer.key_push.
  assert (Hlen : blen script = blen pre + 33 + blen rest) by (rewrite Hs; autorewrite with blen; lia).
  pose proof (blen_nonneg pre). pose proof (blen_nonneg rest).
  assert (Hfirst : blen (pre ++ 0x20 :: key) = blen pre + 33) by (autorewrite with blen; lia). rewrite Hfirst.
  unfold checked_add. rewrite checked_u64_id by (unfold u64_ok, usize_max, u64_max in *; lia).
  destruct (Z.ltb_spec (blen script) (blen pre + 33)); [lia|]. destruct rest as [|c rest]; cbn [check_byte].
  - assert (Hnone : get_at script (blen pre + 33) = None).
    { rewrite Hs. unfold get_at. destruct (Z.leb_spec 0 (blen pre + 33)); [|done]. rewrite app_nil_r.
      apply lookup_ge_None. rewrite length_app. cbn [length]. unfold blen in *. lia. }
    by rewrite Hnone.
  - rewrite (get_at_split script (pre ++ 0x20 :: key) rest c) by (try done; rewrite Hs; app_eq).
    cbn [default from_option id]. unfold check_opcode, record_key, bind, ret.
    destruct ((c =? OP_CHECKSIG) || (c =? OP_CHECKSIGVERIFY)); cbn [negb]; [|done].
    by destruct (MAX_COVENANT_BRANCH_KEYS <=? Tracer.next_key t).
Qed.

(** An element other than a key with its check. *)
Lemma parse_element script pre e rest t :
  wf_element e -> script = pre ++ element_bytes e ++ rest -> blen script <= usize_max ->
  (opcode e =? OP_DATA_32) && check_byte rest = false ->
  Tracer.parse_loop script (element_bytes e ++ rest) (blen pre) 0 t
    = (let* _ := telem e in Tracer.parse_loop script rest (blen (pre ++ element_bytes e)) 0) t.
Proof.
  intros Hwf Hs Hmax Hnokey.
  change (element_bytes e ++ rest) with (opcode e :: (element_prefix e ++ data e) ++ rest). rewrite parse_loop_at.
  change ((element_prefix e ++ data e) ++ rest) with (tail (element_bytes e ++ rest)).
  assert (Hne : element_bytes e <> []) by done.
  assert (Hone : opcode e = 0 \/ 0x4e < opcode e -> forall t,
    Tracer.parse_loop script (tail (element_bytes e ++ rest)) (blen pre + 1) 0 t
    = Tracer.parse_loop script rest (blen (pre ++ element_bytes e)) 0 t).
  { intros Hop u. rewrite (plain_bytes e Hwf Hop), blen_app. done. }
  assert (Hops : forall t, Tracer.parse_loop script (tail (element_bytes e ++ rest)) (blen pre + 1) (blen (pre ++ element_bytes e)) t
    = Tracer.parse_loop script rest (blen (pre ++ element_bytes e)) 0 t) by (intros u; by apply parse_operands).
  unfold bind, Tracer.element, telem, OP_IF, OP_ELSE, OP_ENDIF, OP_DATA_32, Tracer.OP_NOTIF in *.
  assert (Hb : 0 <= opcode e) by apply Hwf.
  destruct (Z.eqb_spec (opcode e) 0x63);
    [cbn [orb]; unfold bind, ret; destruct (Tracer.enter_branch _ t) as [[u|] t']; [apply Hone; lia|done]|].
  destruct (Z.eqb_spec (opcode e) 0x64); cbn [orb];
    [unfold bind, ret; destruct (Tracer.enter_branch _ t) as [[u|] t']; [apply Hone; lia|done]|].
  destruct (Z.eqb_spec (opcode e) 0x67);
    [unfold bind, ret; destruct (Tracer.enter_else t) as [[u|] t']; [apply Hone; lia|done]|].
  destruct (Z.eqb_spec (opcode e) 0x68);
    [unfold bind, ret; destruct (Tracer.leave_branch t) as [[u|] t']; [apply Hone; lia|done]|].
  destruct (Z.eqb_spec (opcode e) 0x20) as [Hkey|].
  { destruct (key_bytes e Hwf Hkey) as [Hbytes Hlen]. rewrite Hbytes in *. cbn [andb] in Hnokey.
    rewrite (key_push_at script pre (data e) rest t Hs Hlen Hmax), Hnokey, Hkey. apply Hops. }
  destruct ((0x01 <=? opcode e) && (opcode e <=? 0x4e)) eqn:Hdata.
  { unfold Tracer.data_push. rewrite (read_element_wf script pre rest e Hwf Hs Hmax), <- blen_app, Hops.
    rewrite (proj2 (Z.leb_le 0 (opcode e))), (proj2 (Z.leb_le (opcode e) 0x4f)) by lia. done. }
  assert (Hsame : (opcode e =? 0x00) || (opcode e =? 0x4f) || ((0x51 <=? opcode e) && (opcode e <=? 0x60))
    = (0x00 <=? opcode e) && (opcode e <=? 0x4f) || ((0x51 <=? opcode e) && (opcode e <=? 0x60))).
  { f_equal. rewrite (proj2 (Z.leb_le 0 (opcode e))) by lia. cbn [andb]. lia. }
  rewrite <- Hsame. destruct (_ || _); apply Hone; lia.
Qed.

(** A key with its check. *)
Lemma parse_key script pre e c rest t :
  wf_element e -> wf_element c -> script = pre ++ element_bytes e ++ element_bytes c ++ rest -> blen script <= usize_max ->
  opcode e = OP_DATA_32 -> check_opcode (opcode c) = true ->
  Tracer.parse_loop script (element_bytes e ++ element_bytes c ++ rest) (blen pre) 0 t
    = (let* _ := record_key (opcode c =? OP_CHECKSIGVERIFY) in
       Tracer.parse_loop script rest (blen (pre ++ element_bytes e ++ element_bytes c)) 0) t.
Proof.
  intros He Hc Hs Hmax Hkey Hcheck. destruct (key_bytes e He Hkey) as [Hbytes Hlen].
  assert (Hplain : element_bytes c = [opcode c]).
  { apply plain_bytes; [done|]. unfold check_opcode, OP_CHECKSIG, OP_CHECKSIGVERIFY in Hcheck. lia. }
  rewrite Hbytes, Hplain in *. cbn [app] in Hs. 
  change ((0x20 :: data e) ++ [opcode c] ++ rest) with (0x20 :: data e ++ opcode c :: rest). rewrite parse_loop_at.
  replace (Tracer.element script (blen pre) 0x20) with (Tracer.key_push script (blen pre)) by done.
  unfold bind at 1. rewrite (key_push_at script pre (data e) (opcode c :: rest) t Hs Hlen Hmax).
  cbn [check_byte]. rewrite Hcheck. unfold bind, ret. destruct (record_key _ t) as [[u|] t']; [|done].
  replace (data e ++ opcode c :: rest) with (tail ((0x20 :: data e ++ [opcode c]) ++ rest)) by (cbn; app_eq).
  replace (blen (pre ++ 0x20 :: data e) + 1) with (blen (pre ++ 0x20 :: data e ++ [opcode c])) by (rewrite app_comm_cons, app_assoc, (blen_app _ [opcode c]); done).
  by rewrite parse_operands.
Qed.

(** *** Whole scripts *)

Lemma resolve_elements es junk fuel r :
  Forall wf_element es -> check_byte junk = false -> blen (script_of es ++ junk) <= usize_max ->
  Resolver.resolve_loop (length es + fuel) (script_of es ++ junk) r
    = (let* _ := rsteps es in Resolver.resolve_loop fuel junk) r.
Proof.
  intros Hwf Hj. revert r. induction Hwf as [|e es He Hes IH]; intros r Hmax; [done|].
  rewrite script_of_cons, <- app_assoc in *. cbn [length Nat.add rsteps].
  rewrite resolve_element, (check_byte_script es junk Hes Hj) by done. unfold bind.
  destruct (relem e (is_check es) r) as [[u|] r']; [|done]. rewrite IH; [done|].
  rewrite blen_app in Hmax. pose proof (blen_nonneg (element_bytes e)). lia.
Qed.

Lemma parse_elements script pre es junk t :
  Forall wf_element es -> check_byte junk = false -> script = pre ++ script_of es ++ junk -> blen script <= usize_max ->
  Tracer.parse_loop script (script_of es ++ junk) (blen pre) 0 t
    = (let* _ := tsteps es in Tracer.parse_loop script junk (blen (pre ++ script_of es)) 0) t.
Proof.
  intros Hwf Hj. remember (length es) as n eqn:Hn. revert pre es t Hwf Hn.
  induction n as [n IH] using lt_wf_ind. intros pre es t Hwf -> Hs Hmax.
  destruct es as [|e es]; [unfold bind, ret; cbn [tsteps]; by rewrite app_nil_r|].
  apply Forall_cons in Hwf as [He Hes]. rewrite script_of_cons, <- app_assoc in *. cbn [length] in IH. cbn [tsteps].
  destruct ((opcode e =? OP_DATA_32) && is_check es) eqn:Hk.
  - apply andb_true_iff in Hk as [Hop%Z.eqb_eq Hc]. destruct es as [|c es]; [done|].
    apply Forall_cons in Hes as [Hwc Hes]. rewrite script_of_cons, <- app_assoc in *.
    rewrite parse_key by done. unfold bind. destruct (record_key _ t) as [[u|] t']; [|done].
    rewrite (IH (length es)); [|cbn; lia|done|done|by rewrite Hs; app_eq|done].
    unfold bind. destruct (tsteps es t') as [[v|] t'']; [|done]. by rewrite !app_assoc.
  - rewrite parse_element; [|done..|by rewrite (check_byte_script es junk Hes Hj)]. unfold bind.
    destruct (telem e t) as [[u|] t']; [|done].
    rewrite (IH (length es)); [|lia|done|done|by rewrite Hs; app_eq|done].
    unfold bind. destruct (tsteps es t') as [[v|] t'']; [|done]. by rewrite !app_assoc.
Qed.

(** Bytes at which no element can be read. *)
Definition stuck (junk : list Z) : Prop := read_element junk 0 = None.

Lemma stuck_opcode op rest :
  bytes_ok (op :: rest) -> blen (op :: rest) <= usize_max -> stuck (op :: rest) ->
  1 <= op <= 0x4e /\ (op = 0x20 -> blen (op :: rest) < 33).
Proof.
  intros Hok Hmax Hstuck. apply bytes_ok_cons in Hok as [Hop Hrest].
  assert (Hread : forall e tl, wf_element e -> op :: rest = element_bytes e ++ tl -> False).
  { intros e tl Hwf Heq. pose proof (read_element_wf (op :: rest) [] tl e Hwf Heq Hmax) as Hread.
    change (blen []) with 0 in Hread. unfold stuck in Hstuck. congruence. }
  split.
  - destruct (Z.leb_spec 1 op), (Z.leb_spec op 0x4e); [lia| | |];
      (exfalso; apply (Hread {| opcode := op; data := [] |} rest);
       [unfold wf_element; unfold byte_ok in *; opcode_cases op; cbn; unfold byte_ok; split_and!; try lia; done
       |unfold element_bytes; unfold byte_ok in *; opcode_cases op; cbn; try lia; done]).
  - intros ->. destruct (Z.ltb_spec (blen (0x20 :: rest)) 33) as [|Hlong]; [done|exfalso].
    rewrite blen_cons in Hlong. apply (Hread {| opcode := 0x20; data := take 32 rest |} (drop 32 rest)).
    + unfold wf_element. cbn. split_and!; [by_decide|by apply Forall_take|]. unfold blen in *. rewrite length_take. lia.
    + unfold element_bytes. cbn. by rewrite take_drop.
Qed.

Lemma stuck_resolver fuel op rest r :
  bytes_ok (op :: rest) -> blen (op :: rest) <= usize_max -> stuck (op :: rest) ->
  exists r', Resolver.resolve_loop (S fuel) (op :: rest) r = (Err Resolver.MalformedScript, r').
Proof.
  intros Hok Hmax Hstuck. destruct (stuck_opcode op rest Hok Hmax Hstuck) as [Hop Hkey]. exists r.
  cbn [Resolver.resolve_loop]. unfold Resolver.step. decide_tests. cbn [orb andb].
  destruct (Z.eqb_spec op 0x20) as [->|].
  - unfold bind, Resolver.inspect_key_push. destruct (slice (0x20 :: rest) 1 33) as [k|] eqn:Hslice; [|done].
    apply slice_Some in Hslice as (l1 & l3 & Heq & Hl1 & Hl2). specialize (Hkey eq_refl). rewrite Heq in Hkey.
    autorewrite with blen in *. pose proof (blen_nonneg l3). lia.
  - unfold stuck in Hstuck. by rewrite Hstuck.
Qed.

Lemma stuck_tracer script pre op rest t :
  script = pre ++ op :: rest -> bytes_ok script -> blen script <= usize_max -> stuck (op :: rest) ->
  exists t', Tracer.parse_loop script (op :: rest) (blen pre) 0 t = (Err Tracer.MalformedScript, t').
Proof.
  intros Hs Hok Hmax Hstuck. assert (Hrest : bytes_ok (op :: rest)) by (rewrite Hs in Hok; apply bytes_ok_app in Hok; tauto).
  assert (Hlen : blen script = blen pre + blen (op :: rest)) by (rewrite Hs; apply blen_app).
  pose proof (blen_nonneg pre). pose proof (blen_nonneg (op :: rest)).
  destruct (stuck_opcode op rest Hrest ltac:(lia) Hstuck) as [Hop Hkey]. exists t. rewrite parse_loop_at.
  unfold bind, Tracer.element, OP_IF, OP_ELSE, OP_ENDIF, OP_DATA_32, Tracer.OP_NOTIF. decide_tests. cbn [orb andb].
  destruct (Z.eqb_spec op 0x20) as [->|].
  - unfold Tracer.key_push, checked_add. destruct (checked_u64 (blen pre + 33)) as [end_|] eqn:Hend; [|done].
    apply checked_u64_Some in Hend as [-> _]. specialize (Hkey eq_refl).
    destruct (Z.ltb_spec (blen script) (blen pre + 33)); [done|lia].
  - unfold Tracer.data_push. pose proof (read_element_suffix pre (op :: rest)) as Hread. rewrite <- Hs in Hread. specialize (Hread Hok Hmax).
    unfold stuck in Hstuck. rewrite Hstuck in Hread. by destruct (read_element script (blen pre)) as [[]|].
Qed.

(** Every script is a run of elements and, when it is not complete, bytes at
    which none can be read. *)
Lemma split_script script :
  bytes_ok script -> exists es junk, script = script_of es ++ junk /\ Forall wf_element es /\ (junk = [] \/ junk <> [] /\ stuck junk).
Proof.
  remember (length script) as n eqn:Hn. revert script Hn. induction n as [n IH] using lt_wf_ind. intros script -> Hok.
  destruct script as [|op rest]; [exists [], []; by split_and!; [| |left]|].
  destruct (read_element (op :: rest) 0) as [[e next]|] eqn:Hread; [|exists [], (op :: rest); by split_and!; [| |right]].
  apply read_element_inv in Hread as (pre & tl & Hs & Hpre & _ & Hwf); [|done].
  destruct pre as [|x pre]; [|rewrite blen_cons in Hpre; pose proof (blen_nonneg pre); lia]. cbn [app] in Hs.
  rewrite Hs in Hok. apply bytes_ok_app in Hok as [_ Htl]. pose proof (element_bytes_pos e) as Hpos.
  destruct (IH (length tl)) with (script := tl) as (es & junk & -> & Hes & Hj); [|done|done|].
  { rewrite Hs, length_app. unfold blen in Hpos. lia. }
  exists (e :: es), junk. rewrite Hs, script_of_cons, app_assoc. split_and!; [done|by constructor|done].
Qed.

(** ** The two parses of a run of elements *)

Lemma check_not_key op : check_opcode op = true -> (op =? OP_DATA_32) = false.
Proof. unfold check_opcode, OP_CHECKSIG, OP_CHECKSIGVERIFY, OP_DATA_32. lia. Qed.

(** A key is taken together with its check. *)
Lemma keyed_ind (P : list Element -> Prop) :
  P [] ->
  (forall e c es, opcode e = OP_DATA_32 -> check_opcode (opcode c) = true -> P es -> P (e :: c :: es)) ->
  (forall e es, (opcode e =? OP_DATA_32) && is_check es = false -> P es -> P (e :: es)) ->
  forall es, P es.
Proof.
  intros Hnil Hkeyed Hother es. remember (length es) as n eqn:Hn. revert es Hn.
  induction n as [n IH] using lt_wf_ind. intros [|e es] ->; [done|].
  destruct ((opcode e =? OP_DATA_32) && is_check es) eqn:Hk.
  - apply andb_true_iff in Hk as [Hop%Z.eqb_eq Hc]. destruct es as [|c es]; [done|].
    apply Hkeyed; [done..|]. by eapply IH; [|done]; cbn; lia.
  - apply Hother; [done|]. by eapply IH; [|done]; cbn; lia.
Qed.

Lemma tsteps_key e c es t :
  opcode e = OP_DATA_32 -> check_opcode (opcode c) = true ->
  tsteps (e :: c :: es) t = (let* _ := record_key (opcode c =? OP_CHECKSIGVERIFY) in tsteps es) t.
Proof. intros Hop Hc. cbn [tsteps is_check]. by rewrite Hop, Hc, Z.eqb_refl. Qed.

Lemma tsteps_other e es t :
  (opcode e =? OP_DATA_32) && is_check es = false -> tsteps (e :: es) t = (let* _ := telem e in tsteps es) t.
Proof. intros Hk. cbn [tsteps]. by rewrite Hk. Qed.

Lemma checked_keys_key e c es :
  opcode e = OP_DATA_32 -> check_opcode (opcode c) = true -> checked_keys (e :: c :: es) = data e :: checked_keys es.
Proof. intros Hop Hc. cbn [checked_keys is_check]. by rewrite Hop, Hc, Z.eqb_refl, check_not_key. Qed.

Lemma checked_keys_other e es :
  (opcode e =? OP_DATA_32) && is_check es = false -> checked_keys (e :: es) = checked_keys es.
Proof. intros Hk. cbn [checked_keys]. by rewrite Hk. Qed.

Lemma rsteps_key e c es r :
  opcode e = OP_DATA_32 -> check_opcode (opcode c) = true ->
  rsteps (e :: c :: es) r =
    (let* _ := fun p => Resolver.push {| Resolver.key := data e; Resolver.decision_mask := Resolver.p_decision_mask p;
                                         Resolver.if_mask := Resolver.p_if_mask p |} p in rsteps es) r.
Proof.
  intros Hop Hc. cbn [rsteps is_check]. unfold bind at 1 3. unfold relem at 1. rewrite Hop, Hc. cbn [orb andb Z.eqb Pos.eqb OP_DATA_32].
  destruct (Resolver.push _ r) as [[u|] r']; [|done]. unfold bind.
  assert (Hplain : relem c (is_check es) r' = (Ok tt, r')); [|by rewrite Hplain].
  unfold relem. unfold check_opcode, OP_CHECKSIG, OP_CHECKSIGVERIFY in Hc.
  destruct (Z.eqb_spec (opcode c) 0xac); [|destruct (Z.eqb_spec (opcode c) 0xad); [|done]]; by decide_tests.
Qed.

(** What follows an element, when more elements do. *)
Lemma is_check_app es1 es2 : is_check es1 = true -> is_check (es1 ++ es2) = true.
Proof. by destruct es1. Qed.

Lemma keyed_app e es1 es2 :
  (opcode e =? OP_DATA_32) && is_check (es1 ++ es2) = false -> (opcode e =? OP_DATA_32) && is_check es1 = false.
Proof.
  intros Hk. destruct (is_check es1) eqn:Hc; [|apply andb_false_r]. by rewrite (is_check_app es1 es2 Hc) in Hk.
Qed.

Lemma tsteps_app es1 es2 t :
  is_check es2 = false -> tsteps (es1 ++ es2) t = (let* _ := tsteps es1 in tsteps es2) t.
Proof.
  intros Hno. revert t. induction es1 as [|e c es1 Hop Hc IH|e es1 Hk IH] using keyed_ind; intros t; [done|..].
  - cbn [app]. rewrite tsteps_key by done. unfold bind. rewrite tsteps_key by done. unfold bind.
    destruct (record_key _ t) as [[u|] t']; [apply IH|done].
  - cbn [app]. unfold bind. rewrite (tsteps_other e es1) by done. rewrite tsteps_other.
    + unfold bind. destruct (telem e t) as [[u|] t']; [apply IH|done].
    + destruct es1 as [|c es1]; [|done]. cbn [app]. by rewrite Hno, andb_false_r.
Qed.

Lemma checked_keys_app es1 es2 :
  is_check es2 = false -> checked_keys (es1 ++ es2) = checked_keys es1 ++ checked_keys es2.
Proof.
  intros Hno. induction es1 as [|e c es1 Hop Hc IH|e es1 Hk IH] using keyed_ind; [done|..].
  - cbn [app]. rewrite !checked_keys_key by done. by rewrite IH.
  - cbn [app]. rewrite (checked_keys_other e es1) by done. rewrite checked_keys_other; [done|].
    destruct es1 as [|c es1]; [|done]. cbn [app]. by rewrite Hno, andb_false_r.
Qed.

(** *** The key checks of the tracer *)

Definition checks_of (t : Tracer.Parser) : list (Z * (Z * Z)) := flat_open (Tracer.root t) (Tracer.opened t).

Lemma checks_push_current node t :
  checks_of (Tracer.push_current node t) = checks_of t ++ flat_node (path_of (Tracer.opened t)) node /\
  Tracer.next_key (Tracer.push_current node t) = Tracer.next_key t.
Proof. split; [apply flat_push_current|]. unfold Tracer.push_current. by destruct (Tracer.opened t). Qed.

Lemma telem_checks e t t' :
  telem e t = (Ok tt, t') -> checks_of t' = checks_of t /\ Tracer.next_key t' = Tracer.next_key t.
Proof.
  unfold telem, Tracer.enter_branch, Tracer.enter_else, Tracer.leave_branch.
  destruct (_ || _); [destruct (_ || _); [done|]; intros [= <-]; unfold checks_of; cbn; by rewrite app_nil_r|].
  destruct (_ =? 0x67).
  { unfold checks_of. destruct t as [[|[bit notif then_ [otherwise|]] outer] root nb nk]; cbn; [done|done|]. by intros [= <-]. }
  destruct (_ =? 0x68).
  { destruct t as [[|branch outer] root nb nk]; [done|]. cbn [Tracer.opened Tracer.root]. intros [= <-].
    match goal with |- context [Tracer.push_current ?node ?t] => destruct (checks_push_current node t) as [-> ->] end. done. }
  intros [= <-]. match goal with |- context [Tracer.push_current ?node ?t] => destruct (checks_push_current node t) as [-> ->] end.
  destruct (_ || _); by rewrite app_nil_r.
Qed.

Lemma record_key_checks verify t t' :
  record_key verify t = (Ok tt, t') ->
  checks_of t' = checks_of t ++ [(Tracer.next_key t, path_of (Tracer.opened t))] /\
  Tracer.next_key t' = Tracer.next_key t + 1.
Proof.
  unfold record_key. destruct (_ <=? _); [done|]. intros [= <-].
  match goal with |- context [Tracer.push_current ?node ?t] => destruct (checks_push_current node t) as [-> ->] end. done.
Qed.

(** The checks a run adds, one for each checked key, numbered on. *)
Lemma tsteps_checks es t t' :
  tsteps es t = (Ok tt, t') ->
  exists paths, length paths = length (checked_keys es) /\
    checks_of t' = checks_of t ++ imap (fun i path => (Tracer.next_key t + Z.of_nat i, path)) paths.
Proof.
  revert t. induction es as [|e c es Hop Hc IH|e es Hk IH] using keyed_ind; intros t.
  - intros [= <-]. exists []. by rewrite app_nil_r.
  - rewrite tsteps_key, checked_keys_key by done. unfold bind. destruct (record_key _ t) as [[[]|] t1] eqn:Hr; [|done].
    apply record_key_checks in Hr as [Hr Hn]. intros (paths & Hlen & ->)%IH. exists (path_of (Tracer.opened t) :: paths).
    cbn [length imap]. rewrite Hr, Hn, Z.add_0_r, <- app_assoc, Hlen. split; [done|]. cbn [app]. do 2 f_equal.
    apply imap_ext. intros i path _. cbn. f_equal. lia.
  - rewrite tsteps_other, checked_keys_other by done. unfold bind. destruct (telem e t) as [[[]|] t1] eqn:He; [|done].
    apply telem_checks in He as [<- <-]. apply IH.
Qed.

(** *** The resolver beside the tracer *)

(** The resolver stops at a key that is checked a second time under its
    path. *)
Definition repeats (es : list Element) (r : Resolver.BranchParser) (t : Tracer.Parser) : Prop :=
  exists es1 e es2 r1 t1,
    es = es1 ++ e :: es2 /\ opcode e = OP_DATA_32 /\ is_check es2 = true /\ tsteps es1 t = (Ok tt, t1) /\
    related r1 t1 /\
    map Resolver.key (Resolver.keys (Resolver.out r1))
      = map Resolver.key (Resolver.keys (Resolver.out r)) ++ checked_keys es1 /\
    {| Resolver.key := data e; Resolver.decision_mask := Resolver.p_decision_mask r1;
       Resolver.if_mask := Resolver.p_if_mask r1 |} ∈ Resolver.keys (Resolver.out r1).

(** What the keys of the resolver gain. *)
Definition gains (r r' : Resolver.BranchParser) (keys : list (list Z)) : Prop :=
  map Resolver.key (Resolver.keys (Resolver.out r')) = map Resolver.key (Resolver.keys (Resolver.out r)) ++ keys /\
  (NoDup (Resolver.keys (Resolver.out r)) -> NoDup (Resolver.keys (Resolver.out r'))).

Lemma gains_same r r' : Resolver.keys (Resolver.out r') = Resolver.keys (Resolver.out r) -> gains r r' [].
Proof. unfold gains. intros ->. by rewrite app_nil_r. Qed.

Lemma gains_trans r r1 r2 keys1 keys2 : gains r r1 keys1 -> gains r1 r2 keys2 -> gains r r2 (keys1 ++ keys2).
Proof. intros [H1 Hd1] [H2 Hd2]. split; [by rewrite H2, H1, app_assoc|auto]. Qed.

Lemma relem_gains e check r r' :
  (opcode e =? OP_DATA_32) && check = false -> relem e check r = (Ok tt, r') -> gains r r' [].
Proof.
  intros Hk. unfold relem, Resolver.enter_branch, Resolver.enter_else, Resolver.leave_branch.
  destruct (_ || _); [destruct (_ <=? _); [done|]; intros [= <-]; by apply gains_same|].
  destruct (_ =? 0x67); [destruct (Resolver.frames r) as [|f o]; [done|]; destruct (Resolver.in_else f); [done|]; intros [= <-]; by apply gains_same|].
  destruct (_ =? 0x68); [destruct (Resolver.frames r) as [|f o]; [done|]; intros [= <-]; by apply gains_same|].
  unfold OP_DATA_32 in Hk. rewrite Hk. intros [= <-]. by apply gains_same.
Qed.

Lemma push_gains item r r' : Resolver.push item r = (Ok tt, r') -> gains r r' [Resolver.key item].
Proof.
  unfold Resolver.push. destruct (bool_decide (item ∈ _)) eqn:Hin; [done|]. apply bool_decide_eq_false in Hin.
  destruct (_ <=? _); [done|]. intros [= <-]. unfold gains. cbn. rewrite map_app. split; [done|].
  intros Hd. apply NoDup_app. split_and!; [done| |apply NoDup_singleton]. intros x Hx ->%list_elem_of_singleton. done.
Qed.

Lemma push_ambiguous item r r' :
  Resolver.push item r = (Err Resolver.AmbiguousKey, r') -> item ∈ Resolver.keys (Resolver.out r).
Proof.
  unfold Resolver.push. destruct (bool_decide _) eqn:Hin; [by apply bool_decide_eq_true in Hin|]. by destruct (_ <=? _).
Qed.

(** An element other than a checked key does the same to both. *)
Lemma relem_agree e es r t :
  (opcode e =? OP_DATA_32) && is_check es = false -> byte_ok (opcode e) -> related r t ->
  agree (fun _ _ => True) (relem e (is_check es) r) (telem e t) /\
  (forall r', relem e (is_check es) r <> (Err Resolver.AmbiguousKey, r')).
Proof.
  intros Hk Hb Hrel. split.
  - unfold relem, telem. destruct (_ || _) eqn:Hif; [apply agree_enter; [lia|done]|].
    destruct (_ =? 0x67); [by apply agree_else|]. destruct (_ =? 0x68); [by apply agree_leave|].
    unfold OP_DATA_32 in Hk. rewrite Hk. split; [done|]. apply related_push_current; [done|case_match; reflexivity|case_match; exact I].
  - intros r'. unfold relem, Resolver.enter_branch, Resolver.enter_else, Resolver.leave_branch.
    destruct (_ || _); [by destruct (_ <=? _)|].
    destruct (_ =? 0x67); [destruct (Resolver.frames r) as [|f o]; [done|]; by destruct (Resolver.in_else f)|].
    destruct (_ =? 0x68); [by destruct (Resolver.frames r)|]. unfold OP_DATA_32 in Hk. by rewrite Hk.
Qed.

Lemma repeats_cons es0 es r r1 t t1 :
  (forall es1 e es2, es = es1 ++ e :: es2 -> opcode e = OP_DATA_32 ->
     tsteps (es0 ++ es1) t = tsteps es1 t1 /\
     map Resolver.key (Resolver.keys (Resolver.out r1)) ++ checked_keys es1
       = map Resolver.key (Resolver.keys (Resolver.out r)) ++ checked_keys (es0 ++ es1)) ->
  repeats es r1 t1 -> repeats (es0 ++ es) r t.
Proof.
  intros Hstep (es1 & e & es2 & r2 & t2 & -> & Hop & Hc & Ht & Hrel & Hkeys & Hin).
  destruct (Hstep es1 e es2 eq_refl Hop) as [Hsteps Hchecked].
  exists (es0 ++ es1), e, es2, r2, t2. rewrite Hsteps, <- Hchecked. by split_and!; [rewrite app_assoc| | | | | |].
Qed.

(** The two parses of a run of elements from related states. *)
Definition outcome (es : list Element) (r : Resolver.BranchParser) (t : Tracer.Parser) : Prop :=
  match rsteps es r with
  | (Ok _, r') => exists t', tsteps es t = (Ok tt, t') /\ related r' t' /\ gains r r' (checked_keys es)
  | (Err Resolver.AmbiguousKey, _) => repeats es r t
  | (Err _, _) => exists error t', tsteps es t = (Err error, t')
  end.

(** One step of both, then the rest. *)
Lemma outcome_step es0 es r t r1 t1 keys :
  related r1 t1 -> gains r r1 keys ->
  rsteps (es0 ++ es) r = rsteps es r1 ->
  tsteps (es0 ++ es) t = tsteps es t1 ->
  checked_keys (es0 ++ es) = keys ++ checked_keys es ->
  (forall es1 e es2, es = es1 ++ e :: es2 -> opcode e = OP_DATA_32 ->
     tsteps (es0 ++ es1) t = tsteps es1 t1 /\ checked_keys (es0 ++ es1) = keys ++ checked_keys es1) ->
  outcome es r1 t1 -> outcome (es0 ++ es) r t.
Proof.
  intros Hrel Hgain Hr Ht Hkeys Hpre. unfold outcome. rewrite Hr, Ht, Hkeys.
  destruct (rsteps es r1) as [[u|error] r'].
  - intros (t' & H & Hrel' & Hgain'). exists t'. split_and!; [done|done|]. by eapply gains_trans.
  - destruct error; try done. apply repeats_cons. intros es1 e es2 Hes Hop.
    destruct (Hpre es1 e es2 Hes Hop) as [Hs ->]. split; [done|]. destruct Hgain as [-> _]. by rewrite app_assoc.
Qed.

Lemma steps_agree es r t : Forall wf_element es -> related r t -> outcome es r t.
Proof.
  intros Hwf. revert r t. induction es as [|e c es Hop Hc IH|e es Hk IH] using keyed_ind; intros r t Hrel.
  - exists t. split_and!; [done|done|]. by apply gains_same.
  - apply Forall_cons in Hwf as [_ [_ Hes]%Forall_cons].
    pose proof (agree_key (data e) (opcode c =? OP_CHECKSIGVERIFY) r t Hrel) as Hagree.
    fold (record_key (opcode c =? OP_CHECKSIGVERIFY) t) in Hagree. set (item := Resolver.Build_BranchKey _ _ _) in Hagree.
    assert (Hr : forall es, rsteps (e :: c :: es) r = (let* _ := fun p => Resolver.push item r in rsteps es) r)
      by (intros; by rewrite rsteps_key).
    destruct (Resolver.push item r) as [[[]|error] r1] eqn:Hpush.
    + change (record_key _ t) with (record_key (opcode c =? OP_CHECKSIGVERIFY) t) in Hagree.
      destruct (record_key (opcode c =? OP_CHECKSIGVERIFY) t) as [[[]|] t1] eqn:Hrec; [|done]. destruct Hagree as [_ Hrel1].
      assert (Ht : forall es, tsteps (e :: c :: es) t = tsteps es t1)
        by (intros; rewrite tsteps_key by done; unfold bind; by rewrite Hrec).
      apply (outcome_step [e; c] es r t r1 t1 [data e]); [done|by apply push_gains in Hpush|..]; try (cbn [app]).
      * rewrite Hr. reflexivity.
      * apply Ht.
      * by apply checked_keys_key.
      * intros es1 _ _ _ _. split; [apply Ht|by apply checked_keys_key].
      * by apply IH.
    + unfold outcome. rewrite Hr. unfold bind at 1. destruct error; try (
        destruct (record_key (opcode c =? OP_CHECKSIGVERIFY) t) as [[[]|error] t1] eqn:Hrec; [done|];
        exists error, t1; rewrite tsteps_key by done; unfold bind; by rewrite Hrec).
      apply push_ambiguous in Hpush. exists [], e, (c :: es), r, t. rewrite app_nil_r. by split_and!.
  - apply Forall_cons in Hwf as [He Hes]. destruct (relem_agree e es r t Hk ltac:(apply He) Hrel) as [Hagree Hnot].
    destruct (relem e (is_check es) r) as [[[]|error] r1] eqn:Hrel1; destruct (telem e t) as [[[]|error'] t1] eqn:Htel;
      try (by destruct error; [..|]); try done.
    + destruct Hagree as [_ Hrel'].
      assert (Ht : forall es, (opcode e =? OP_DATA_32) && is_check es = false -> tsteps (e :: es) t = tsteps es t1)
        by (intros; rewrite tsteps_other by done; unfold bind; by rewrite Htel).
      apply (outcome_step [e] es r t r1 t1 []); [done|by eapply relem_gains|..]; cbn [app].
      * cbn [rsteps]. unfold bind. by rewrite Hrel1.
      * by apply Ht.
      * by apply checked_keys_other.
      * intros es1 e1 es2 -> _. apply keyed_app in Hk. split; [by apply Ht|by apply checked_keys_other].
      * by apply IH.
    + exfalso. destruct error; try done. by apply (Hnot r1).
    + unfold outcome. cbn [rsteps]. unfold bind. rewrite Hrel1. destruct error; try (
        exists error', t1; rewrite tsteps_other by done; unfold bind; by rewrite Htel). by destruct (Hnot r1).
Qed.

(** *** Both parses of a script *)

(** The elements of a script, and the bytes after them. *)
Definition splits (script : list Z) (es : list Element) (junk : list Z) : Prop :=
  script = script_of es ++ junk /\ Forall wf_element es /\ (junk = [] \/ junk <> [] /\ stuck junk).

Lemma stuck_not_check junk :
  bytes_ok junk -> blen junk <= usize_max -> junk = [] \/ junk <> [] /\ stuck junk -> check_byte junk = false.
Proof.
  intros Hok Hmax [->|[Hne Hstuck]]; [done|]. destruct junk as [|op rest]; [done|].
  apply stuck_opcode in Hstuck as [Hop _]; [|done..]. cbn. unfold check_opcode, OP_CHECKSIG, OP_CHECKSIGVERIFY. lia.
Qed.

Lemma splits_junk script es junk :
  splits script es junk -> bytes_ok script -> blen script <= usize_max ->
  bytes_ok junk /\ blen junk <= usize_max /\ check_byte junk = false.
Proof.
  intros (-> & _ & Hj) Hok Hmax. apply bytes_ok_app in Hok as [_ Hok]. rewrite blen_app in Hmax.
  pose proof (blen_nonneg (script_of es)). assert (blen junk <= usize_max) by lia.
  split_and!; [done..|by apply stuck_not_check].
Qed.

Lemma resolve_script script es junk :
  splits script es junk -> bytes_ok script -> blen script <= usize_max ->
  Resolver.resolve_covenant_branches script =
    match rsteps es Resolver.new_parser with
    | (Ok _, r) => if bool_decide (junk = []) then Resolver.finish r else Err Resolver.MalformedScript
    | (Err error, _) => Err error
    end.
Proof.
  intros Hsplit Hok Hmax. destruct (splits_junk _ _ _ Hsplit Hok Hmax) as (Hjok & Hjmax & Hcheck).
  destruct Hsplit as (-> & Hes & Hj). unfold Resolver.resolve_covenant_branches.
  pose proof (length_script_of es). rewrite length_app.
  replace (length (script_of es) + length junk)%nat
    with (length es + (length (script_of es) - length es + length junk))%nat by lia.
  rewrite resolve_elements by done. unfold bind.
  destruct (rsteps es Resolver.new_parser) as [[[]|error] r]; [|done]. destruct junk as [|op rest].
  - by destruct (_ + _)%nat.
  - destruct Hj as [|[_ Hstuck]]; [done|]. cbn [length]. rewrite Nat.add_succ_r.
    destruct (stuck_resolver (length (script_of es) - length es + length rest) op rest r) as [r' ->]; [done..|].
    by rewrite bool_decide_false.
Qed.

Lemma parse_script script es junk :
  splits script es junk -> bytes_ok script -> blen script <= usize_max ->
  Tracer.parse script =
    match tsteps es Tracer.new_parser with
    | (Ok _, t) =>
        if bool_decide (junk = [] /\ Tracer.opened t = [])
        then Ok (Tracer.root t, (Z.shiftl 1 (Tracer.next_branch t) - 1) mod 2 ^ 16)
        else Err Tracer.MalformedScript
    | (Err error, _) => Err error
    end.
Proof.
  intros Hsplit Hok Hmax. destruct (splits_junk _ _ _ Hsplit Hok Hmax) as (_ & _ & Hcheck).
  destruct Hsplit as (Hs & Hes & Hj). unfold Tracer.parse.
  pose proof (parse_elements script [] es junk Tracer.new_parser Hes Hcheck Hs Hmax) as Hloop.
  rewrite <- Hs in Hloop. change (blen []) with 0 in Hloop. rewrite Hloop. unfold bind.
  destruct (tsteps es Tracer.new_parser) as [[[]|error] t]; [|done]. destruct junk as [|op rest].
  - cbn [Tracer.parse_loop ret]. unfold ret. destruct (Tracer.opened t).
    + by rewrite !bool_decide_true.
    + rewrite !bool_decide_false; naive_solver.
  - destruct Hj as [|[_ Hstuck]]; [done|].
    destruct (stuck_tracer script ([] ++ script_of es) op rest t) as [t' ->]; [done..|].
    rewrite bool_decide_false; naive_solver.
Qed.

(** The tracer's state after the elements of a script. *)
Lemma parse_prefix es t :
  Forall wf_element es -> blen (script_of es) <= usize_max -> tsteps es Tracer.new_parser = (Ok tt, t) ->
  Tracer.parse_loop (script_of es) (script_of es) 0 0 Tracer.new_parser = (Ok tt, t).
Proof.
  intros Hes Hmax Ht. pose proof (parse_elements (script_of es) [] es [] Tracer.new_parser Hes eq_refl) as Hloop.
  rewrite app_nil_r in Hloop. change (blen []) with 0 in Hloop. rewrite Hloop by done. unfold bind. by rewrite Ht.
Qed.

(** ** Keys and their branches *)

(** The keys a script checks, each bound to the branch bits and values above
    its check. *)
Definition bindings (keys : list (list Z)) (checks : list (Z * (Z * Z))) : list Resolver.BranchKey :=
  zip_with (fun key check => {| Resolver.key := key; Resolver.decision_mask := check.2.1; Resolver.if_mask := check.2.2 |})
    keys checks.

Lemma bindings_from (f : nat -> Z) bound :
  bindings (map Resolver.key bound)
    (imap (fun i key => (f i, (Resolver.decision_mask key, Resolver.if_mask key))) bound) = bound.
Proof.
  revert f. induction bound as [|[key dm im] bound IH]; intros f; [done|].
  cbn [imap map]. unfold bindings in *. cbn [zip_with]. f_equal. apply (IH (f ∘ S)).
Qed.

Lemma bindings_numbered keys checks bound :
  map Resolver.key bound = keys -> checks = numbered_masks bound -> bindings keys checks = bound.
Proof. intros <- ->. apply (bindings_from (fun i => Z.of_nat i)). Qed.

Lemma numbered_from (f : nat -> Z) keys (paths : list (Z * Z)) :
  length paths = length keys ->
  imap (fun i key => (f i, (Resolver.decision_mask key, Resolver.if_mask key)))
    (bindings keys (imap (fun i path => (f i, path)) paths)) = imap (fun i path => (f i, path)) paths.
Proof.
  revert f keys. induction paths as [|[dm im] paths IH]; intros f [|key keys] Hlen; try done.
  cbn [imap]. unfold bindings in *. cbn [zip_with imap]. cbn [Resolver.decision_mask Resolver.if_mask fst snd].
  f_equal. by apply (IH (f ∘ S)), Nat.succ_inj.
Qed.

Lemma numbered_bindings keys (paths : list (Z * Z)) :
  length paths = length keys ->
  numbered_masks (bindings keys (imap (fun i path => (Z.of_nat i, path)) paths)) = imap (fun i path => (Z.of_nat i, path)) paths.
Proof. apply (numbered_from (fun i => Z.of_nat i)). Qed.

Lemma bindings_app keys1 keys2 checks1 checks2 :
  length keys1 = length checks1 -> bindings (keys1 ++ keys2) (checks1 ++ checks2) = bindings keys1 checks1 ++ bindings keys2 checks2.
Proof. apply zip_with_app. Qed.

(** A script that checks a key which it has already checked under the same
    branch bits and values: [pre] is the script before, [t] the tracer's
    state there. *)
Definition repeats_binding (script : list Z) : Prop :=
  exists pre key check rest es t,
    script = pre ++ OP_DATA_32 :: key ++ check :: rest /\ blen key = 32 /\ check_opcode check = true /\
    complete_elements pre = Some es /\ Tracer.parse_loop pre pre 0 0 Tracer.new_parser = (Ok tt, t) /\
    {| Resolver.key := key; Resolver.decision_mask := (path_of (Tracer.opened t)).1;
       Resolver.if_mask := (path_of (Tracer.opened t)).2 |} ∈ bindings (checked_keys es) (checks_of t).

(** The repeated binding, in the tracer's terms. *)
Lemma repeats_bound es t es1 e es2 r1 t1 :
  es = es1 ++ e :: es2 -> opcode e = OP_DATA_32 -> related r1 t1 ->
  map Resolver.key (Resolver.keys (Resolver.out r1)) = checked_keys es1 ->
  bindings (checked_keys es1) (checks_of t1) = Resolver.keys (Resolver.out r1) /\
  Resolver.p_decision_mask r1 = (path_of (Tracer.opened t1)).1 /\ Resolver.p_if_mask r1 = (path_of (Tracer.opened t1)).2 /\
  (tsteps es1 t = (Ok tt, t1) -> tsteps es t = tsteps (e :: es2) t1) /\
  checked_keys es = checked_keys es1 ++ checked_keys (e :: es2).
Proof.
  intros -> Hop Hrel Hkeys. pose proof (rel_path _ _ Hrel) as Hpath. pose proof (rel_keys _ _ Hrel) as Hchecks.
  assert (Hno : is_check (e :: es2) = false) by (cbn; by rewrite Hop).
  split_and!; [by apply bindings_numbered|by rewrite <- Hpath|by rewrite <- Hpath| |by apply checked_keys_app].
  intros Ht. rewrite tsteps_app by done. unfold bind. by rewrite Ht.
Qed.

Lemma repeats_script script es junk :
  splits script es junk -> blen script <= usize_max -> repeats es Resolver.new_parser Tracer.new_parser -> repeats_binding script.
Proof.
  intros (-> & Hwf & _) Hmax (es1 & e & es2 & r1 & t1 & Hes & Hop & Hc & Ht & Hrel & Hkeys & Hin).
  destruct (repeats_bound es Tracer.new_parser es1 e es2 r1 t1 Hes Hop Hrel Hkeys) as (Hbound & Hd & Hi & _ & _).
  rewrite Hd, Hi, <- Hbound in Hin. destruct es2 as [|c es2]; [done|]. rewrite Hes in *.
  apply Forall_app in Hwf as [Hwf1 [He [Hwc _]%Forall_cons]%Forall_cons]. destruct (key_bytes e He Hop) as [Hbytes Hlen].
  assert (Hplain : element_bytes c = [opcode c]).
  { apply plain_bytes; [done|]. cbn in Hc. unfold check_opcode, OP_CHECKSIG, OP_CHECKSIGVERIFY in Hc. lia. }
  assert (Hmax1 : blen (script_of es1) <= usize_max).
  { rewrite script_of_app, !blen_app in Hmax. pose proof (blen_nonneg (script_of (e :: c :: es2))). pose proof (blen_nonneg junk). lia. }
  exists (script_of es1), (data e), (opcode c), (script_of es2 ++ junk), es1, t1.
  split_and!; [|done|done|by apply complete_script_of|by apply parse_prefix|done].
  rewrite script_of_app, !script_of_cons, Hbytes, Hplain. app_eq.
Qed.

(** A script that repeats a binding binds some key twice. *)
Lemma repeats_dup es t :
  repeats es Resolver.new_parser Tracer.new_parser -> tsteps es Tracer.new_parser = (Ok tt, t) ->
  ~ NoDup (bindings (checked_keys es) (checks_of t)).
Proof.
  intros (es1 & e & es2 & r1 & t1 & Hes & Hop & Hc & Ht1 & Hrel & Hkeys & Hin) Ht.
  destruct (repeats_bound es Tracer.new_parser es1 e es2 r1 t1 Hes Hop Hrel Hkeys) as (Hbound & Hd & Hi & Hsteps & Hchecked).
  rewrite (Hsteps Ht1) in Ht. rewrite Hchecked. destruct es2 as [|c es2]; [done|].
  rewrite tsteps_key in Ht by done. unfold bind in Ht.
  destruct (record_key _ t1) as [[[]|] t2] eqn:Hrec; [|done]. apply record_key_checks in Hrec as [Hrec _].
  apply tsteps_checks in Ht as (paths & _ & ->). rewrite Hrec, <- app_assoc. rewrite bindings_app.
  - rewrite Hbound, checked_keys_key by done. cbn [app bindings zip_with snd]. rewrite <- Hd, <- Hi.
    intros Hdup. apply NoDup_app in Hdup as (_ & Hdup & _). eapply Hdup; [exact Hin|]. apply list_elem_of_here.
  - unfold checks_of. rewrite (rel_keys _ _ Hrel), <- (Hkeys : map Resolver.key (Resolver.keys (Resolver.out r1)) = checked_keys es1). unfold numbered_masks. by rewrite length_imap, length_map.
Qed.

(** What the two parses of one script have in common. *)
Record same_parse (res : Resolver.BranchResolution) (nodes : list Tracer.Node) (mask : Z) : Prop := {
  same_mask : mask = Resolver.selector_mask res;
  same_keys : flat (0, 0) nodes = numbered_masks (Resolver.keys res);
  same_tree : nodes_ok 0 nodes;
  same_decided : Forall (fun key => Z.land mask (Resolver.decision_mask key) = Resolver.decision_mask key)
                   (Resolver.keys res);
}.

Lemma land_full_mask n x : 0 <= n -> 0 <= x < 2 ^ n -> Z.land (2 ^ n - 1) x = x.
Proof. intros Hn Hx. rewrite Z.sub_1_r, <- Z.ones_equiv, Z.land_comm, Z.land_ones, Z.mod_small; lia. Qed.

Lemma related_parse r t :
  related r t -> Tracer.opened t = [] ->
  Resolver.finish r = Ok (Resolver.out r) /\
  same_parse (Resolver.out r) (Tracer.root t) ((Z.shiftl 1 (Tracer.next_branch t) - 1) mod 2 ^ 16).
Proof.
  intros [rel_frames0 rel_branches0 rel_limit0 ? ? ? ? ? ? rel_decided0] Hopen. rewrite Hopen in *. unfold Resolver.finish. rewrite bool_decide_true by done. split; [done|].
  assert (Hmask : (2 ^ Tracer.next_branch t - 1) `mod` 2 ^ 16 = 2 ^ Tracer.next_branch t - 1).
  { apply Z.mod_small. assert (2 ^ 0 <= 2 ^ Tracer.next_branch t <= 2 ^ 16) by (split; apply Z.pow_le_mono_r; lia).
    lia. }
  rewrite Z.shiftl_1_l, Hmask. split; try done. apply (Forall_impl _ _ _ rel_decided0). intros key Hkey.
  apply land_full_mask; lia.
Qed.

(** The whole relation of the two parses. *)
Lemma parse_outcome script es junk :
  splits script es junk -> bytes_ok script -> blen script <= usize_max ->
  match Tracer.parse script with
  | Ok (nodes, mask) =>
      exists t, junk = [] /\ tsteps es Tracer.new_parser = (Ok tt, t) /\ checks_of t = flat (0, 0) nodes /\
      match Resolver.resolve_covenant_branches script with
      | Ok res => same_parse res nodes mask /\ map Resolver.key (Resolver.keys res) = checked_keys es /\ NoDup (Resolver.keys res)
      | Err error => error = Resolver.AmbiguousKey /\ repeats es Resolver.new_parser Tracer.new_parser
      end
  | Err _ =>
      exists error, Resolver.resolve_covenant_branches script = Err error /\
        (error = Resolver.AmbiguousKey -> repeats es Resolver.new_parser Tracer.new_parser)
  end.
Proof.
  intros Hsplit Hok Hmax. assert (Hes : Forall wf_element es) by apply Hsplit.
  rewrite (resolve_script script es junk), (parse_script script es junk) by done.
  pose proof (steps_agree es _ _ Hes related_new) as Hout. unfold outcome in Hout.
  destruct (rsteps es Resolver.new_parser) as [[[]|error] r].
  - destruct Hout as (t & -> & Hrel & Hkeys & Hdup). destruct (decide (junk = [])) as [->|Hj].
    + destruct (decide (Tracer.opened t = [])) as [Ho|Ho].
      * rewrite !bool_decide_true by done. destruct (related_parse r t Hrel Ho) as [-> Hsame]. exists t.
        split_and!; [done|done|unfold checks_of; by rewrite Ho|done|done|apply Hdup, NoDup_nil_2].
      * rewrite (bool_decide_false (_ /\ _)) by naive_solver. rewrite bool_decide_true by done. exists Resolver.MalformedScript. split; [|done].
        unfold Resolver.finish. rewrite (rel_frames _ _ Hrel). destruct (Tracer.opened t); [done|].
        by rewrite bool_decide_false.
    + rewrite (bool_decide_false (_ /\ _)) by naive_solver. rewrite bool_decide_false by done. by exists Resolver.MalformedScript.
  - assert (Hfail : error = Resolver.AmbiguousKey /\ repeats es Resolver.new_parser Tracer.new_parser \/
                    error <> Resolver.AmbiguousKey /\ exists error t, tsteps es Tracer.new_parser = (Err error, t))
      by (destruct error; [right|right|right|left|right|right]; done).
    destruct Hfail as [[-> Hrep]|[Hne (error' & t & ->)]]; [|by exists error].
    destruct (tsteps es Tracer.new_parser) as [[[]|error'] t]; [|by eexists].
    case_bool_decide as Hend; [|by eexists]. exists t. destruct Hend as [-> Ho].
    split_and!; [done|done|unfold checks_of; by rewrite Ho|done|done].
Qed.

Lemma parses_agree (script : list Z) :
  bytes_ok script -> blen script <= usize_max ->
  match Resolver.resolve_covenant_branches script, Tracer.parse script with
  | Ok res, Ok (nodes, mask) => same_parse res nodes mask
  | Err Resolver.AmbiguousKey, _ => True
  | Err _, Err _ => True
  | _, _ => False
  end.
Proof.
  intros Hok Hmax. destruct (split_script script Hok) as (es & junk & Hsplit).
  pose proof (parse_outcome script es junk Hsplit Hok Hmax) as Hout.
  destruct (Tracer.parse script) as [[nodes mask]|]; [destruct Hout as (t & _ & _ & _ & Hout)|destruct Hout as (error & -> & _)];
    [|by destruct error].
  destruct (Resolver.resolve_covenant_branches script) as [res|error]; [by destruct Hout|]. by destruct Hout as [-> _].
Qed.

(** C31: the resolver's answer follows from the tracer's tree and the keys the
    script checks. When the tracer parses a script, its tree holds one key
    check for each 32-byte push that a signature check follows, numbered in
    script order; the resolver then returns those keys in that order, each
    with the branch bits and values above its check, and the tracer's
    selectors, provided no key is checked twice under the same bits and
    values, and refuses the script as ambiguous otherwise (a key may be reused
    under another path). A script the tracer refuses the resolver refuses
    too, as ambiguous only when a key is checked again under a path where it
    already was. *)
Theorem resolver_tracer_agree (script : list Z) :
  bytes_ok script -> blen script <= usize_max ->
  match Tracer.parse script with
  | Ok (nodes, mask) =>
      exists es, complete_elements script = Some es /\
      let bound := bindings (checked_keys es) (flat (0, 0) nodes) in
      length (flat (0, 0) nodes) = length (checked_keys es) /\ flat (0, 0) nodes = numbered_masks bound /\
      Resolver.resolve_covenant_branches script =
        (if decide (NoDup bound) then Ok {| Resolver.keys := bound; Resolver.selector_mask := mask |}
         else Err Resolver.AmbiguousKey)
  | Err _ =>
      exists error, Resolver.resolve_covenant_branches script = Err error /\
        (error = Resolver.AmbiguousKey -> repeats_binding script)
  end.
Proof.
  intros Hok Hmax. destruct (split_script script Hok) as (es & junk & Hsplit).
  pose proof (parse_outcome script es junk Hsplit Hok Hmax) as Hout.
  destruct (Tracer.parse script) as [[nodes mask]|].
  - destruct Hout as (t & -> & Ht & Hflat & Hout). rewrite <- Hflat. destruct Hsplit as (Hs & Hes & _). rewrite app_nil_r in Hs.
    exists es. split; [rewrite Hs in *; by apply complete_script_of|].
    destruct (tsteps_checks es _ t Ht) as (paths & Hlen & Hchecks). cbn [app checks_of] in Hchecks.
    change (checks_of Tracer.new_parser) with (@nil (Z * (Z * Z))) in Hchecks. cbn [app Tracer.next_key Tracer.new_parser] in Hchecks.
    rewrite (imap_ext _ (fun i path => (Z.of_nat i, path))) in Hchecks by done.
    split_and!; [by rewrite Hchecks, length_imap|by rewrite Hchecks, numbered_bindings|].
    destruct (Resolver.resolve_covenant_branches script) as [[keys selectors]|error].
    + destruct Hout as (Hsame & Hkeys & Hdup). rewrite (bindings_numbered _ _ keys) by (try done; by rewrite Hflat; apply Hsame).
      rewrite decide_True by done. by rewrite (same_mask _ _ _ Hsame).
    + destruct Hout as [-> Hrep]. by rewrite decide_False by (by apply repeats_dup).
  - destruct Hout as (error & Hres & Hrep). exists error. split; [done|]. intros Hamb.
    by eapply repeats_script; [| |apply Hrep].
Qed.

(** ** The walk of a full selector assignment *)

Section walk.
Import Tracer.
Context (truth : Z).

(** Two-way induction over the tree and its blocks. *)
Lemma Node_nested_ind (P : Node -> Prop) :
  P Push -> (forall position verify, P (KeyCheck position verify)) -> (forall opcode, P (OpNode opcode)) ->
  (forall bit notif then_ otherwise,
     Forall P then_ -> Forall P otherwise -> P (BranchNode bit notif then_ otherwise)) ->
  forall node, P node.
Proof.
  intros Hpush Hkey Hop Hbranch. fix IH 1. intros [|position verify|opcode|bit notif then_ otherwise].
  - exact Hpush.
  - apply Hkey.
  - apply Hop.
  - apply Hbranch.
    + induction then_ as [|node nodes IHnodes]; constructor; [apply IH|apply IHnodes].
    + induction otherwise as [|node nodes IHnodes]; constructor; [apply IH|apply IHnodes].
Qed.

(** The selector values take the path to a key check. *)
Definition reaches (path : Z * Z) : Prop := Z.land (Z.lxor truth path.2) path.1 = 0.
#[local] Instance reaches_dec path : Decision (reaches path).
Proof. unfold reaches. apply _. Defined.

Definition below (lo : Z) (path : Z * Z) : Prop := 0 <= path.1 < 2 ^ lo /\ 0 <= path.2 < 2 ^ lo.

Lemma below_arm lo j value path :
  0 <= lo <= j -> below lo path -> below (j + 1) (arm_mask (2 ^ j) value path).
Proof.
  intros Hj [H1 H2]. assert (2 ^ lo <= 2 ^ j) by (apply Z.pow_le_mono_r; lia).
  assert (2 ^ j < 2 ^ (j + 1)) by (apply Z.pow_lt_mono_r; lia). pose proof (Z.pow_nonneg 2 j).
  unfold below, arm_mask. cbn [fst snd]. split; [apply lor_bound; lia|]. destruct value; [apply lor_bound|]; lia.
Qed.

(** Entering an arm asks one more bit of the selector values. *)
Lemma reaches_arm lo j value path :
  0 <= lo <= j -> below lo path ->
  reaches (arm_mask (2 ^ j) value path) <-> reaches path /\ selected truth (2 ^ j) = value.
Proof.
  intros Hj [H1 H2]. unfold reaches, arm_mask. cbn [fst snd].
  assert (Hsel : selected truth (2 ^ j) = Z.testbit truth j).
  { unfold selected. destruct (Z.testbit truth j) eqn:Hbit.
    - apply negb_true_iff, Z.eqb_neq. intros Hz. apply (f_equal (fun x => Z.testbit x j)) in Hz.
      rewrite Z.land_spec, Hbit, Z.pow2_bits_true, Z.testbit_0_l in Hz by lia. done.
    - apply negb_false_iff, Z.eqb_eq. mask_bits. rewrite Z.testbit_0_l.
      destruct (Z.eqb_spec j n) as [->|]; [by rewrite Hbit|apply andb_false_r]. }
  rewrite Hsel. rewrite <- !Z.bits_inj_iff'. setoid_rewrite Z.testbit_0_l.
  setoid_rewrite Z.land_spec. setoid_rewrite Z.lxor_spec. setoid_rewrite Z.lor_spec.
  split.
  - intros H. split.
    + intros n Hn. specialize (H n Hn). rewrite Z.pow2_bits_eqb in H by lia.
      destruct (Z.eqb_spec j n) as [->|].
      * rewrite (testbit_small path.1 lo n) by lia. apply andb_false_r.
      * rewrite orb_false_r in H. destruct value; [|done].
        rewrite Z.lor_spec, Z.pow2_bits_eqb in H by lia.
        destruct (Z.eqb_spec j n); [done|]. by rewrite orb_false_r in H.
    + specialize (H j ltac:(lia)). rewrite Z.pow2_bits_true, orb_true_r, andb_true_r in H by lia.
      destruct value.
      * rewrite Z.lor_spec, Z.pow2_bits_true, orb_true_r in H by lia. by destruct (Z.testbit truth j).
      * rewrite (testbit_small path.2 lo j) in H by lia. by destruct (Z.testbit truth j).
  - intros [H <-] n Hn. rewrite Z.pow2_bits_eqb by lia. destruct (Z.eqb_spec j n) as [->|].
    + rewrite orb_true_r, andb_true_r. destruct (Z.testbit truth n).
      * rewrite Z.lor_spec, Z.pow2_bits_true by lia. by rewrite orb_true_r.
      * by rewrite (testbit_small path.2 lo n) by lia.
    + rewrite orb_false_r. specialize (H n Hn). destruct (Z.testbit truth j); [|done].
      rewrite Z.lor_spec, Z.pow2_bits_eqb by lia. destruct (Z.eqb_spec j n); [done|]. by rewrite orb_false_r.
Qed.

(** The key checks of a tree that the selector values reach, in order. *)
Definition reached (checks : list (Z * (Z * Z))) : list Z := map fst (filter (fun c => reaches c.2) checks).

Lemma reached_app checks1 checks2 : reached (checks1 ++ checks2) = reached checks1 ++ reached checks2.
Proof. unfold reached. by rewrite filter_app, map_app. Qed.

Lemma flat_branch path bit notif then_ otherwise :
  flat_node path (BranchNode bit notif then_ otherwise)
    = flat (arm_mask bit (negb notif) path) then_ ++ flat (arm_mask bit notif path) otherwise.
Proof. done. Qed.

Lemma flat_cons path node nodes : flat path (node :: nodes) = flat_node path node ++ flat path nodes.
Proof. done. Qed.

(** Nothing below an arm is reached when the arm is not. *)
Lemma reached_blocked lo path node :
  0 <= lo -> node_ok lo node -> below lo path -> ~ reaches path -> reached (flat_node path node) = [].
Proof.
  revert lo path. induction node as [|position verify|opcode|bit notif then_ otherwise IHt IHo] using Node_nested_ind;
    intros lo path Hlo Hok Hbelow Hno; try done.
  { unfold reached. cbn. by rewrite decide_False. }
  destruct Hok as (j & Hj & -> & Hthen & Helse). rewrite flat_branch, reached_app.
  assert (Harm : forall value nodes, foldr and True (map (node_ok (j + 1)) nodes) ->
    Forall (fun node => forall lo path, 0 <= lo -> node_ok lo node -> below lo path -> ~ reaches path ->
                        reached (flat_node path node) = []) nodes ->
    reached (flat (arm_mask (2 ^ j) value path) nodes) = []).
  { intros value nodes Hnodes HIH. induction HIH as [|node nodes Hnode _ IHnodes]; [done|].
    rewrite flat_cons, reached_app. destruct Hnodes as [Hn Hns]. rewrite IHnodes by done.
    rewrite (Hnode (j + 1)); [done|lia|done|by apply (below_arm lo)|].
    rewrite (reaches_arm lo) by done. tauto. }
  by rewrite !Harm.
Qed.

Lemma reached_blocked_block lo path nodes :
  0 <= lo -> nodes_ok lo nodes -> below lo path -> ~ reaches path -> reached (flat path nodes) = [].
Proof.
  intros Hlo Hok Hbelow Hno. induction nodes as [|node nodes IH]; [done|]. destruct Hok as [Hn Hns].
  rewrite flat_cons, reached_app, (reached_blocked lo) by done. by apply IH.
Qed.

(** The positions a witness asks signatures for, in order. *)
Definition signatures (items : list WitnessItem) : list Z :=
  omap (fun item => match item with Signature position => Some position | Selector _ => None end) items.

Lemma signatures_app items1 items2 : signatures (items1 ++ items2) = signatures items1 ++ signatures items2.
Proof. apply omap_app. Qed.

(** A run adds the signatures of exactly the reached key checks. *)
Definition walks (m : Comp Walk ExecutionError unit) (positions : list Z) : Prop :=
  forall w w', m w = (Ok tt, w') -> signatures (items w') = signatures (items w) ++ positions.

Lemma walks_nothing (f : Walk -> Walk) :
  (forall w, items (f w) = items w) -> walks (fun w => (Ok tt, f w)) [].
Proof. intros Hf w w' [= <-]. by rewrite Hf, app_nil_r. Qed.

Lemma walks_bind (m1 m2 : Comp Walk ExecutionError unit) positions1 positions2 :
  walks m1 positions1 -> walks m2 positions2 -> walks (let* _ := m1 in m2) (positions1 ++ positions2).
Proof.
  intros H1 H2 w w'. unfold bind. destruct (m1 w) as [[[]|e] w1] eqn:Hm; [|done]. intros Hm2.
  by rewrite (H2 _ _ Hm2), (H1 _ _ Hm), app_assoc.
Qed.

Lemma walks_pop count : walks (pop count) [].
Proof. intros w w'. unfold pop. destruct (_ <? _); [done|]. intros [= <-]. cbn. by rewrite app_nil_r. Qed.

Lemma no_key_checks path node : node_holds_key_check node = false -> flat_node path node = [].
Proof.
  revert path. induction node as [|position verify|opcode|bit notif then_ otherwise IHt IHo] using Node_nested_ind;
    intros path Hno; try done.
  assert (Harm : forall nodes path, existsb node_holds_key_check nodes = false ->
    Forall (fun node => forall path, node_holds_key_check node = false -> flat_node path node = []) nodes ->
    flat path nodes = []).
  { intros nodes p Hn HIH. induction HIH as [|node nodes Hnode _ IHnodes]; [done|]. cbn in Hn.
    apply orb_false_iff in Hn as [Hn Hns]. by rewrite flat_cons, Hnode, IHnodes. }
  cbn in Hno. apply orb_false_iff in Hno as [Ht Ho]. by rewrite flat_branch, !Harm.
Qed.

Lemma no_key_checks_block path nodes : holds_key_check nodes = false -> flat path nodes = [].
Proof.
  induction nodes as [|node nodes IH]; [done|]. intros [Hn Hns]%orb_false_iff.
  by rewrite flat_cons, no_key_checks, IH.
Qed.

Lemma walk_block lo path nodes :
  Forall (fun node => node_ok lo node -> walks (walk_node truth node) (reached (flat_node path node))) nodes ->
  nodes_ok lo nodes -> walks (run truth nodes) (reached (flat path nodes)).
Proof.
  induction 1 as [|node nodes Hnode _ IH]; intros Hok.
  - intros w w' [= <-]. cbn. by rewrite app_nil_r.
  - destruct Hok as [Hn Hns]. rewrite flat_cons, reached_app. apply walks_bind; auto.
Qed.

(** The walk of a branch, with [run] on its blocks. *)
Lemma walk_branch bit notif then_ otherwise w :
  walk_node truth (BranchNode bit notif then_ otherwise) w =
    (if produced w =? 0 then
       let value := selected truth bit in
       let w := {| produced := produced w; items := items w ++ [Selector value] |} in
       run truth (if negb (Bool.eqb value notif) then then_ else otherwise) w
     else
       match pop 1 w with
       | (Err error, w) => (Err error, w)
       | (Ok _, w) =>
           if holds_key_check then_ || holds_key_check otherwise then
             let value := selected truth bit in
             run truth (if negb (Bool.eqb value notif) then then_ else otherwise) w
           else
             match arms_effect then_ otherwise with
             | Err error => (Err error, w)
             | Ok (need, delta) =>
                 if produced w <? need then (Err WitnessDataRequired, w)
                 else (Ok tt, {| produced := produced w + delta; items := items w |})
             end
       end).
Proof. reflexivity. Qed.

(** The arm a value selects holds every key check reached below the branch. *)
Lemma reached_selected lo j path notif then_ otherwise :
  0 <= lo <= j -> below lo path -> reaches path ->
  nodes_ok (j + 1) then_ -> nodes_ok (j + 1) otherwise ->
  let value := selected truth (2 ^ j) in
  reaches (arm_mask (2 ^ j) value path) /\
  reached (flat_node path (BranchNode (2 ^ j) notif then_ otherwise)) =
    reached (flat (arm_mask (2 ^ j) value path) (if negb (Bool.eqb value notif) then then_ else otherwise)).
Proof.
  intros Hj Hbelow Hreach Ht Ho value.
  assert (Hblocked : forall nodes, nodes_ok (j + 1) nodes ->
            reached (flat (arm_mask (2 ^ j) (negb value) path) nodes) = []).
  { intros nodes Hnodes. apply (reached_blocked_block (j + 1)); [lia|done|by apply (below_arm lo)|].
    rewrite (reaches_arm lo) by done. fold value. intros [_ H]. by destruct value. }
  split; [by apply (reaches_arm lo)|]. rewrite flat_branch, reached_app.
  destruct notif, value eqn:Hv; cbn [negb Bool.eqb] in *; rewrite Hblocked by done; [done|apply app_nil_r|apply app_nil_r|done].
Qed.

Lemma walk_node_reached node lo path :
  0 <= lo -> node_ok lo node -> below lo path -> reaches path ->
  walks (walk_node truth node) (reached (flat_node path node)).
Proof.
  revert lo path. induction node as [|position verify|opcode|bit notif then_ otherwise IHt IHo] using Node_nested_ind;
    intros lo path Hlo Hok Hbelow Hreach.
  - by apply walks_nothing.
  - unfold reached. cbn. rewrite decide_True by done. intros w w'. cbn. destruct (negb _); [done|].
    intros [= <-]. cbn. by rewrite signatures_app.
  - cbn. destruct (stack_effect opcode) as [[pops pushes]|]; [|done].
    apply (walks_bind _ _ [] []); [apply walks_pop|by apply walks_nothing].
  - destruct Hok as (j & Hj & -> & Ht & Ho).
    destruct (reached_selected lo j path notif then_ otherwise) as [Harm Heq]; [lia|done|done|done|done|].
    set (value := selected truth (2 ^ j)) in *. rewrite Heq.
    set (taken := if negb (Bool.eqb value notif) then then_ else otherwise) in *.
    assert (Hrun : walks (run truth taken) (reached (flat (arm_mask (2 ^ j) value path) taken))).
    { assert (Hboth : nodes_ok (j + 1) taken /\
        Forall (fun node => forall lo path, 0 <= lo -> node_ok lo node -> below lo path -> reaches path ->
                  walks (walk_node truth node) (reached (flat_node path node))) taken)
        by (unfold taken; by destruct (negb _)).
      destruct Hboth as [Htaken HIH]. apply (walk_block (j + 1)); [|done].
      apply (Forall_impl _ _ _ HIH). intros node Hnode Hn.
      apply (Hnode (j + 1)); [lia|done|apply (below_arm lo); [lia|done]|done]. }
    intros w w'. rewrite walk_branch. fold value. cbv zeta. fold taken. destruct (produced w =? 0).
    { intros Hw. rewrite (Hrun _ _ Hw). cbn [items]. by rewrite signatures_app, app_nil_r. }
    destruct (pop 1 w) as [[[]|e] w1] eqn:Hpop; [|done]. apply walks_pop in Hpop. rewrite app_nil_r in Hpop.
    destruct (holds_key_check then_ || holds_key_check otherwise) eqn:Hholds.
    { intros Hw. by rewrite (Hrun _ _ Hw), Hpop. }
    apply orb_false_iff in Hholds as [Hnt Hno].
    rewrite no_key_checks_block by (unfold taken; by destruct (negb _)).
    destruct (arms_effect then_ otherwise) as [[need delta]|e]; [|done]. destruct (_ <? _); [done|].
    intros [= <-]. cbn [items]. by rewrite Hpop, app_nil_r.
Qed.
End walk.

(** The positions of the resolved keys whose path a selector assignment takes. *)
Definition positions_reached (res : Resolver.BranchResolution) (supplied_mask truth : Z) : list Z :=
  map fst (filter (fun c => Resolver.matches_selectors c.2 supplied_mask truth = true)
             (imap (fun i key => (Z.of_nat i, key)) (Resolver.keys res))).

Lemma reached_numbered truth mask (keys : list Resolver.BranchKey) (f : nat -> Z) :
  Forall (fun key => Z.land mask (Resolver.decision_mask key) = Resolver.decision_mask key) keys ->
  reached truth (imap (fun i key => (f i, (Resolver.decision_mask key, Resolver.if_mask key))) keys) =
    map fst (filter (fun c => Resolver.matches_selectors c.2 mask truth = true) (imap (fun i key => (f i, key)) keys)).
Proof.
  intros Hkeys. revert f. induction Hkeys as [|key keys Hkey _ IH]; intros f; [done|].
  unfold reached in *. cbn [imap]. rewrite !filter_cons. cbn [snd].
  assert (Hsame : reaches truth (Resolver.decision_mask key, Resolver.if_mask key)
                  <-> Resolver.matches_selectors key mask truth = true).
  { unfold Resolver.matches_selectors, reaches. cbn [fst snd].
    rewrite andb_true_iff, !Z.eqb_eq. tauto. }
  specialize (IH (f ∘ S)).
  destruct (decide (reaches truth _)) as [Hr|Hr].
  - rewrite decide_True by by apply Hsame. cbn [map fst]. by f_equal.
  - by rewrite decide_False by (by rewrite <- Hsame).
Qed.

Lemma trace_signatures (script : list Z) (supplied_mask truth : Z) res items :
  bytes_ok script -> blen script <= usize_max ->
  Resolver.resolve_covenant_branches script = Ok res ->
  Tracer.trace_witness script supplied_mask truth = Ok items ->
  supplied_mask = Resolver.selector_mask res /\
  signatures items = positions_reached res supplied_mask truth.
Proof.
  intros Hok Hmax Hres Htrace. pose proof (parses_agree script Hok Hmax) as Hparse. rewrite Hres in Hparse.
  unfold Tracer.trace_witness in Htrace. apply rbind_Ok_inv in Htrace as ([nodes mask] & Hp & Htrace).
  rewrite Hp in Hparse. destruct Hparse as [Hmask Hkeys Htree Hdecided].
  destruct (_ || _) eqn:Hsel; [done|]. apply orb_false_iff in Hsel as [->%negb_false_iff%Z.eqb_eq _].
  destruct (Tracer.run _ _ _) as [[[]|e] w] eqn:Hrun; [|done]. injection Htrace as <-. split; [done|].
  assert (Hbelow : below 0 (0, 0)) by (unfold below; cbn; lia).
  assert (Hreach : reaches truth (0, 0)) by (unfold reaches; cbn; apply Z.land_0_r).
  assert (Hwalk : walks (Tracer.run truth nodes) (reached truth (flat (0, 0) nodes))).
  { apply (walk_block truth 0); [|done]. apply Forall_true. intros node Hnode.
    by apply (walk_node_reached truth node 0). }
  rewrite (Hwalk _ _ Hrun). cbn [Tracer.items app]. rewrite Hkeys. by apply reached_numbered.
Qed.

(** A traced witness asks for the signatures of exactly the keys that the
    supplied selector values reach, in the order the script checks them, and
    it names each by the position the resolver gives it. *)
Theorem trace_witness_reaches_keys (script : list Z) (supplied_mask truth : Z) res items :
  bytes_ok script -> blen script <= usize_max ->
  Resolver.resolve_covenant_branches script = Ok res ->
  Tracer.trace_witness script supplied_mask truth = Ok items ->
  supplied_mask = Resolver.selector_mask res /\
  signatures items = positions_reached res supplied_mask truth.
Proof. apply trace_signatures. Qed.

(** ** Concrete scripts *)

(** [if key_a else (if key_b else key_c)]. *)
Definition sample_branches : list Z :=
  let check_key byte := OP_DATA_32 :: replicate 32 byte ++ [OP_CHECKSIG] in
  [OP_IF] ++ check_key 0xa1 ++ [OP_ELSE; OP_IF] ++ check_key 0xb2 ++ [OP_ELSE] ++ check_key 0xc3
    ++ [OP_ENDIF; OP_ENDIF].

Lemma sample_bytes_ok : bytes_ok sample_branches.
Proof. by_decide. Qed.

(** [if key_a else key_a], and [key_a] checked twice on one path. *)
Definition reused_key : list Z :=
  let check_key := OP_DATA_32 :: replicate 32 0xa1 ++ [OP_CHECKSIG] in
  [OP_IF] ++ check_key ++ [OP_ELSE] ++ check_key ++ [OP_ENDIF].
Definition repeated_key : list Z :=
  let check_key := OP_DATA_32 :: replicate 32 0xa1 ++ [OP_CHECKSIGVERIFY] in check_key ++ check_key.

(** The resolver's answer from the tracer's, both computed. *)
Ltac by_agreement agreement script :=
  let H := fresh "H" in let es := fresh "es" in let Hes := fresh "Hes" in
  pose proof (agreement script ltac:(by_decide) ltac:(by_decide)) as H;
  let answer := eval vm_compute in (Tracer.parse script) in
  change (Tracer.parse script) with answer in H; cbv iota beta in H;
  destruct H as (es & Hes & _ & _ & H);
  let elements := eval vm_compute in (complete_elements script) in
  change (complete_elements script) with elements in Hes; injection Hes as <-; rewrite H; vm_compute; reflexivity.

Lemma resolver_tracer_agree_witness :
  Resolver.resolve_covenant_branches sample_branches =
    Ok {| Resolver.keys :=
            [{| Resolver.key := replicate 32 0xa1; Resolver.decision_mask := 1; Resolver.if_mask := 1 |};
             {| Resolver.key := replicate 32 0xb2; Resolver.decision_mask := 3; Resolver.if_mask := 2 |};
             {| Resolver.key := replicate 32 0xc3; Resolver.decision_mask := 3; Resolver.if_mask := 0 |}];
          Resolver.selector_mask := 3 |} /\
  Resolver.resolve_covenant_branches reused_key =
    Ok {| Resolver.keys :=
            [{| Resolver.key := replicate 32 0xa1; Resolver.decision_mask := 1; Resolver.if_mask := 1 |};
             {| Resolver.key := replicate 32 0xa1; Resolver.decision_mask := 1; Resolver.if_mask := 0 |}];
          Resolver.selector_mask := 1 |} /\
  Resolver.resolve_covenant_branches repeated_key = Err Resolver.AmbiguousKey.
Proof.
  pose proof resolver_tracer_agree as agreement.
  split_and!; [by_agreement agreement sample_branches|by_agreement agreement reused_key|by_agreement agreement repeated_key].
Defined.

Lemma trace_witness_reaches_keys_witness :
  exists res items,
    Resolver.resolve_covenant_branches sample_branches = Ok res /\
    Tracer.trace_witness sample_branches 3 2 = Ok items /\
    items = [Tracer.Selector false; Tracer.Selector true; Tracer.Signature 1] /\
    signatures items = positions_reached res 3 2.
Proof.
  eexists _, _. split_and!; [vm_compute; reflexivity|vm_compute; reflexivity|reflexivity|].
  by eapply (trace_witness_reaches_keys sample_branches 3 2);
    [apply sample_bytes_ok|by_decide|vm_compute; reflexivity|vm_compute; reflexivity].
Defined.
