(* ===== verification/TxModel.v ===== *)
(** * The transaction model

    [src/src/transaction/model]: scripts, inputs, outputs and the transaction
    with its fixed storage. A fixed-size array is a list whose length the
    type invariant [typed_tx] states; an index that would panic out of range
    is the constructor [Panics] of a fault where an operation stores at it, and
    the empty value where a getter reads at it. Allocation succeeds. *)

From S2P Require Import Prelude NetworkId Script.
Import KaspaNetwork.

(** ** [constants.rs] *)

Definition DEFAULT_INPUT_CAPACITY : Z := 8.
Definition MAX_INPUTS : Z := u16_max.
Definition MAX_OUTPUTS : Z := 8.
Definition MAX_SCRIPT_SIZE : Z := 512.
Definition MAX_REDEEM_SIZE : Z := 1024.
Definition MAX_PAYLOAD_SIZE : Z := 250000.
Definition MAX_SIGS_PER_INPUT : Z := 5.
Definition MAX_MULTISIG_KEYS : Z := 5.
Definition REDEEM_POOL_SIZE : Z := 2048.
Definition SUBNETWORK_ID_NATIVE : list Z := replicate 20 0.

Record TransactionLimits := { max_inputs : Z; max_payload_bytes : Z }.
Definition FORMAT : TransactionLimits := {| max_inputs := MAX_INPUTS; max_payload_bytes := MAX_PAYLOAD_SIZE |}.

(** An operation fails with an error of its own or panics. *)
Inductive Fault (E : Type) :=
  | Fails (error : E)
  | Panics.
Arguments Fails {E} error.
Arguments Panics {E}.

Definition zeros (n : Z) : list Z := replicate (Z.to_nat n) 0.

(** [output[i..j].copy_from_slice(bytes)] with [j = i + bytes.len()]. *)
Definition copy_into (output : list Z) (i : Z) (bytes : list Z) : option (list Z) :=
  if (0 <=? i) && (i + blen bytes <=? blen output)
  then Some (take (Z.to_nat i) output ++ bytes ++ drop (Z.to_nat i + length bytes) output)
  else None.

(** ** [sighash_type.rs] *)

Module SigHashType.

Inductive SigHashType :=
  | All | None_ | Single | AnyOneCanPay | AllAnyOneCanPay | NoneAnyOneCanPay | SingleAnyOneCanPay.

#[global] Instance SigHashType_eq_dec : EqDecision SigHashType.
Proof. solve_decision. Defined.

Definition to_byte (t : SigHashType) : Z :=
  match t with
  | All => 0x01 | None_ => 0x02 | Single => 0x04 | AnyOneCanPay => 0x80
  | AllAnyOneCanPay => 0x81 | NoneAnyOneCanPay => 0x82 | SingleAnyOneCanPay => 0x84
  end.

Definition from_byte (b : Z) : option SigHashType :=
  if b =? 0x01 then Some All
  else if b =? 0x02 then Some None_
  else if b =? 0x04 then Some Single
  else if b =? 0x81 then Some AllAnyOneCanPay
  else if b =? 0x82 then Some NoneAnyOneCanPay
  else if b =? 0x84 then Some SingleAnyOneCanPay
  else None.

Definition is_anyone_can_pay (t : SigHashType) : bool := negb (Z.land (to_byte t) 0x80 =? 0).
Definition is_sighash_none (t : SigHashType) : bool := negb (Z.land (to_byte t) 0x02 =? 0).
Definition is_sighash_single (t : SigHashType) : bool := negb (Z.land (to_byte t) 0x04 =? 0).

End SigHashType.

(** ** [script.rs], [signatures.rs], [input.rs], [output.rs] *)

Record ScriptPublicKey := { spk_version : Z; spk_script : list Z; spk_script_len : Z }.
Definition new_spk : ScriptPublicKey :=
  {| spk_version := 0; spk_script := zeros MAX_SCRIPT_SIZE; spk_script_len := 0 |}.
Definition script_bytes (s : ScriptPublicKey) : list Z := default [] (slice (spk_script s) 0 (spk_script_len s)).

Record UtxoEntry := { amount : Z; script_public_key : ScriptPublicKey; block_daa_score : Z }.

Record InputSig := {
  sg_signature : list Z; sg_sighash_type : Z; sg_pubkey_pos : Z; sg_present : bool; sg_pubkey_compressed : list Z }.
Definition empty_sig : InputSig := {|
  sg_signature := zeros 64; sg_sighash_type := 0; sg_pubkey_pos := 0; sg_present := false;
  sg_pubkey_compressed := zeros 33 |}.

Record IncomingPartialSig := { ps_pubkey : list Z; ps_signature : list Z; ps_present : bool }.
Definition empty_partial_sig : IncomingPartialSig :=
  {| ps_pubkey := zeros 33; ps_signature := zeros 64; ps_present := false |}.

Record Ms45Hint := { h_present : bool; h_cosigner : Z; h_chain : Z; h_index : Z }.
Definition no_hint : Ms45Hint := {| h_present := false; h_cosigner := 0; h_chain := 0; h_index := 0 |}.

Record Outpoint := { o_transaction_id : list Z; o_index : Z }.

Record TransactionInput := {
  previous_outpoint : Outpoint;
  sequence : Z;
  sig_op_count : Z;
  utxo_entry : UtxoEntry;
  sigs : list InputSig;
  sig_count : Z;
  sighash_type : Z;
  redeem_script : list Z;
  redeem_script_len : Z;
  redeem_in_pool : bool;
  redeem_script_offset : Z;
  incoming_partial_sigs : list IncomingPartialSig;
  incoming_partial_sigs_count : Z;
  has_derivation_hint : bool;
  derivation_branch : Z;
  derivation_index : Z;
  ms45_hint : Ms45Hint;
  covenant_execution_present : bool;
  covenant_execution_mask : Z;
  covenant_execution_true_mask : Z;
}.

Definition empty_input : TransactionInput := {|
  previous_outpoint := {| o_transaction_id := zeros 32; o_index := 0 |};
  sequence := 0;
  sig_op_count := 1;
  utxo_entry := {| amount := 0; script_public_key := new_spk; block_daa_score := 0 |};
  sigs := replicate (Z.to_nat MAX_SIGS_PER_INPUT) empty_sig;
  sig_count := 0;
  sighash_type := 0;
  redeem_script := zeros MAX_SCRIPT_SIZE;
  redeem_script_len := 0;
  redeem_in_pool := false;
  redeem_script_offset := 0;
  incoming_partial_sigs := replicate (Z.to_nat MAX_SIGS_PER_INPUT) empty_partial_sig;
  incoming_partial_sigs_count := 0;
  has_derivation_hint := false;
  derivation_branch := 0;
  derivation_index := 0;
  ms45_hint := no_hint;
  covenant_execution_present := false;
  covenant_execution_mask := 0;
  covenant_execution_true_mask := 0;
|}.

Record TransactionOutput := {
  value : Z;
  out_script_public_key : ScriptPublicKey;
  has_covenant : bool;
  covenant_auth_input : Z;
  covenant_id : list Z;
  out_derivation_branch : Z;
  out_derivation_index : Z;
  out_has_derivation_hint : bool;
  out_ms45_hint : Ms45Hint;
}.

Definition empty_output : TransactionOutput := {|
  value := 0;
  out_script_public_key := new_spk;
  has_covenant := false;
  covenant_auth_input := 0;
  covenant_id := zeros 32;
  out_derivation_branch := 0;
  out_derivation_index := 0;
  out_has_derivation_hint := false;
  out_ms45_hint := no_hint;
|}.

(** ** [transaction.rs] *)

Inductive TransactionAmountError := InputTotalOverflow | OutputTotalOverflow | OutputsExceedInputs.

Inductive TransactionStorageError :=
  | AllocationFailed
  | TooManyInputs
  | PayloadTooLarge
  | RedeemScriptTooLarge
  | RedeemPoolFull
  | InternalStorageInvariant.

Record TransactionAmounts := { input_total : Z; output_total : Z; amounts_fee : Z }.

Record Transaction := {
  tx_version : Z;
  tx_inputs : list TransactionInput;
  num_inputs : Z;
  tx_outputs : list TransactionOutput;
  num_outputs : Z;
  tx_network : KaspaNetwork;
  locktime : Z;
  subnetwork_id : list Z;
  gas : Z;
  payload : list Z;
  stealth_tweak : list Z;
  has_stealth_tweak : bool;
  redeem_pool : list Z;
  redeem_pool_used : Z;
  limits : TransactionLimits;
}.

Definition new_with (limits : TransactionLimits) : Transaction := {|
  tx_version := 0;
  tx_inputs := replicate (Z.to_nat (Z.min DEFAULT_INPUT_CAPACITY (max_inputs limits))) empty_input;
  num_inputs := 0;
  tx_outputs := replicate (Z.to_nat MAX_OUTPUTS) empty_output;
  num_outputs := 0;
  tx_network := Unknown;
  locktime := 0;
  subnetwork_id := SUBNETWORK_ID_NATIVE;
  gas := 0;
  payload := [];
  stealth_tweak := zeros 32;
  has_stealth_tweak := false;
  redeem_pool := zeros REDEEM_POOL_SIZE;
  redeem_pool_used := 0;
  limits := limits;
|}.
Definition new_tx : Transaction := new_with FORMAT.

Definition clear (tx : Transaction) : Transaction := {|
  tx_version := 0;
  tx_inputs := map (fun _ => empty_input) (tx_inputs tx);
  num_inputs := 0;
  tx_outputs := map (fun _ => empty_output) (tx_outputs tx);
  num_outputs := 0;
  tx_network := Unknown;
  locktime := 0;
  subnetwork_id := SUBNETWORK_ID_NATIVE;
  gas := 0;
  payload := [];
  stealth_tweak := zeros 32;
  has_stealth_tweak := false;
  redeem_pool := map (fun _ => 0) (redeem_pool tx);
  redeem_pool_used := 0;
  limits := limits tx;
|}.

(** [parse_reset.rs] *)
Definition prepare_for_parse (tx : Transaction) : Transaction := {|
  tx_version := 0;
  tx_inputs := tx_inputs tx;
  num_inputs := 0;
  tx_outputs := tx_outputs tx;
  num_outputs := 0;
  tx_network := Unknown;
  locktime := 0;
  subnetwork_id := SUBNETWORK_ID_NATIVE;
  gas := 0;
  payload := [];
  stealth_tweak := zeros 32;
  has_stealth_tweak := false;
  redeem_pool := map (fun _ => 0) (redeem_pool tx);
  redeem_pool_used := 0;
  limits := limits tx;
|}.

Definition set_inputs (inputs : list TransactionInput) (tx : Transaction) : Transaction := {|
  tx_version := tx_version tx; tx_inputs := inputs; num_inputs := num_inputs tx; tx_outputs := tx_outputs tx;
  num_outputs := num_outputs tx; tx_network := tx_network tx; locktime := locktime tx;
  subnetwork_id := subnetwork_id tx; gas := gas tx; payload := payload tx; stealth_tweak := stealth_tweak tx;
  has_stealth_tweak := has_stealth_tweak tx; redeem_pool := redeem_pool tx;
  redeem_pool_used := redeem_pool_used tx; limits := limits tx |}.

Definition set_outputs (outputs : list TransactionOutput) (tx : Transaction) : Transaction := {|
  tx_version := tx_version tx; tx_inputs := tx_inputs tx; num_inputs := num_inputs tx; tx_outputs := outputs;
  num_outputs := num_outputs tx; tx_network := tx_network tx; locktime := locktime tx;
  subnetwork_id := subnetwork_id tx; gas := gas tx; payload := payload tx; stealth_tweak := stealth_tweak tx;
  has_stealth_tweak := has_stealth_tweak tx; redeem_pool := redeem_pool tx;
  redeem_pool_used := redeem_pool_used tx; limits := limits tx |}.

Definition put_payload (payload : list Z) (tx : Transaction) : Transaction := {|
  tx_version := tx_version tx; tx_inputs := tx_inputs tx; num_inputs := num_inputs tx; tx_outputs := tx_outputs tx;
  num_outputs := num_outputs tx; tx_network := tx_network tx; locktime := locktime tx;
  subnetwork_id := subnetwork_id tx; gas := gas tx; payload := payload; stealth_tweak := stealth_tweak tx;
  has_stealth_tweak := has_stealth_tweak tx; redeem_pool := redeem_pool tx;
  redeem_pool_used := redeem_pool_used tx; limits := limits tx |}.

Definition set_pool (pool : list Z) (used : Z) (tx : Transaction) : Transaction := {|
  tx_version := tx_version tx; tx_inputs := tx_inputs tx; num_inputs := num_inputs tx; tx_outputs := tx_outputs tx;
  num_outputs := num_outputs tx; tx_network := tx_network tx; locktime := locktime tx;
  subnetwork_id := subnetwork_id tx; gas := gas tx; payload := payload tx; stealth_tweak := stealth_tweak tx;
  has_stealth_tweak := has_stealth_tweak tx; redeem_pool := pool;
  redeem_pool_used := used; limits := limits tx |}.

Definition ensure_input_slots (count : Z) : Comp Transaction TransactionStorageError unit := fun tx =>
  if max_inputs (limits tx) <? count then (Err TooManyInputs, tx)
  else if blen (tx_inputs tx) <? count
  then (Ok tt, set_inputs (tx_inputs tx ++ replicate (Z.to_nat (count - blen (tx_inputs tx))) empty_input) tx)
  else (Ok tt, tx).

Definition set_payload (payload : list Z) : Comp Transaction TransactionStorageError unit := fun tx =>
  if max_payload_bytes (limits tx) <? blen payload then (Err PayloadTooLarge, tx)
  else (Ok tt, put_payload payload tx).

Definition set_redeem (script : list Z) (len : Z) (in_pool : bool) (offset : Z) (i : TransactionInput)
  : TransactionInput := {|
  previous_outpoint := previous_outpoint i; sequence := sequence i; sig_op_count := sig_op_count i;
  utxo_entry := utxo_entry i; sigs := sigs i; sig_count := sig_count i; sighash_type := sighash_type i;
  redeem_script := script; redeem_script_len := len; redeem_in_pool := in_pool; redeem_script_offset := offset;
  incoming_partial_sigs := incoming_partial_sigs i; incoming_partial_sigs_count := incoming_partial_sigs_count i;
  has_derivation_hint := has_derivation_hint i; derivation_branch := derivation_branch i;
  derivation_index := derivation_index i; ms45_hint := ms45_hint i;
  covenant_execution_present := covenant_execution_present i;
  covenant_execution_mask := covenant_execution_mask i;
  covenant_execution_true_mask := covenant_execution_true_mask i |}.

(** [self.inputs[index] = f(..)], and the same of an output. *)
Definition change_input {E} (index : Z) (f : TransactionInput -> option TransactionInput)
  : Comp Transaction (Fault E) unit := fun tx =>
  match get_at (tx_inputs tx) index with
  | None => (Err Panics, tx)
  | Some input =>
      match f input with
      | None => (Err Panics, tx)
      | Some input => (Ok tt, set_inputs (<[Z.to_nat index := input]> (tx_inputs tx)) tx)
      end
  end.

Definition change_output {E} (index : Z) (f : TransactionOutput -> option TransactionOutput)
  : Comp Transaction (Fault E) unit := fun tx =>
  match get_at (tx_outputs tx) index with
  | None => (Err Panics, tx)
  | Some output =>
      match f output with
      | None => (Err Panics, tx)
      | Some output => (Ok tt, set_outputs (<[Z.to_nat index := output]> (tx_outputs tx)) tx)
      end
  end.

Definition redeem_bytes (tx : Transaction) (idx : Z) : list Z :=
  let inp := default empty_input (get_at (tx_inputs tx) idx) in
  if redeem_script_len inp =? 0 then []
  else if redeem_in_pool inp then
    default [] (slice (redeem_pool tx) (redeem_script_offset inp) (redeem_script_offset inp + redeem_script_len inp))
  else default [] (slice (redeem_script inp) 0 (redeem_script_len inp)).

Definition store_redeem (idx : Z) (data : list Z) : Comp Transaction (Fault TransactionStorageError) unit := fun tx =>
  let len := blen data in
  if len =? 0 then
    change_input idx (fun i => Some (set_redeem (redeem_script i) 0 false (redeem_script_offset i) i)) tx
  else if len <=? MAX_SCRIPT_SIZE then
    change_input idx (fun i =>
      script ← copy_into (redeem_script i) 0 data;
      Some (set_redeem script len false (redeem_script_offset i) i)) tx
  else if MAX_REDEEM_SIZE <? len then (Err (Fails RedeemScriptTooLarge), tx)
  else
    let off := redeem_pool_used tx in
    if REDEEM_POOL_SIZE <? off + len then (Err (Fails RedeemPoolFull), tx)
    else
      match copy_into (redeem_pool tx) off data with
      | None => (Err Panics, tx)
      | Some pool =>
          (let* _ := change_input idx (fun i => Some (set_redeem (redeem_script i) len true (off mod 2 ^ 16) i)) in
           fun tx => (Ok tt, set_pool (redeem_pool tx) (off + len) tx))
            (set_pool pool (redeem_pool_used tx) tx)
      end.

(** [self.inputs()] and [self.outputs()]. *)
Definition inputs (tx : Transaction) : list TransactionInput := default [] (slice (tx_inputs tx) 0 (num_inputs tx)).
Definition outputs (tx : Transaction) : list TransactionOutput :=
  default [] (slice (tx_outputs tx) 0 (num_outputs tx)).

Definition is_native (tx : Transaction) : bool := list_Z_eqb (subnetwork_id tx) SUBNETWORK_ID_NATIVE.

Definition checked_amounts (tx : Transaction) : result TransactionAmounts TransactionAmountError :=
  let? input_total := try_fold (fun total input => ok_or (checked_add total (amount (utxo_entry input))) InputTotalOverflow)
                        0 (inputs tx) in
  let? output_total := try_fold (fun total output => ok_or (checked_add total (value output)) OutputTotalOverflow)
                         0 (outputs tx) in
  let? fee := ok_or (checked_sub input_total output_total) OutputsExceedInputs in
  Ok {| input_total := input_total; output_total := output_total; amounts_fee := fee |}.

Definition total_input_value (tx : Transaction) : result Z TransactionAmountError :=
  let? amounts := checked_amounts tx in Ok (input_total amounts).
Definition total_output_value (tx : Transaction) : result Z TransactionAmountError :=
  let? amounts := checked_amounts tx in Ok (output_total amounts).
Definition fee (tx : Transaction) : result Z TransactionAmountError :=
  let? amounts := checked_amounts tx in Ok (amounts_fee amounts).

(** ** [script.rs]: the type of a script *)

Record MultisigInfo := { m : Z; n : Z; pubkeys : list (list Z) }.

Inductive ScriptType := P2PK | P2SH | Multisig | Unknown_.

#[global] Instance ScriptType_eq_dec : EqDecision ScriptType.
Proof. solve_decision. Defined.

(** The callers pass a script and its own length. *)
Definition is_p2pk_script (script : list Z) (len : Z) : bool :=
  (len =? 34) && bool_decide (get_at script 0 = Some Opcode.OP_DATA_32)
  && bool_decide (get_at script 33 = Some Opcode.OP_CHECKSIG).

Definition is_p2sh_script (script : list Z) (len : Z) : bool :=
  (len =? 35) && bool_decide (get_at script 0 = Some Opcode.OP_BLAKE2B)
  && bool_decide (get_at script 1 = Some Opcode.OP_DATA_32)
  && bool_decide (get_at script 34 = Some Opcode.OP_EQUAL).

Definition signer_multisig (script : list Z) (len : Z) : option Multisig.MultisigScript :=
  script ← slice script 0 len;
  parsed ← Multisig.parse script;
  if Multisig.key_count parsed <=? MAX_MULTISIG_KEYS then Some parsed else None.

Definition is_multisig_script (script : list Z) (len : Z) : bool := bool_decide (is_Some (signer_multisig script len)).

Definition detect_script_type (script : list Z) (len : Z) : ScriptType :=
  if is_p2pk_script script len then P2PK
  else if is_p2sh_script script len then P2SH
  else if is_multisig_script script len then Multisig
  else Unknown_.

(** The slots past the last key keep the zero key. *)
Definition parse_multisig_script (script : list Z) (len : Z) : option MultisigInfo :=
  parsed ← signer_multisig script len;
  let keys := take (Z.to_nat MAX_MULTISIG_KEYS) (Multisig.keys parsed) in
  Some {| m := Multisig.threshold parsed; n := Multisig.key_count parsed;
          pubkeys := keys ++ replicate (Z.to_nat MAX_MULTISIG_KEYS - length keys) (zeros 32) |}.

(** ** The type invariant: the ranges and sizes the Rust types guarantee *)

Definition typed_spk (s : ScriptPublicKey) : Prop :=
  u16_ok (spk_version s) /\ bytes_of MAX_SCRIPT_SIZE (spk_script s) /\ u64_ok (spk_script_len s).
Definition typed_sig (s : InputSig) : Prop :=
  bytes_of 64 (sg_signature s) /\ byte_ok (sg_sighash_type s) /\ byte_ok (sg_pubkey_pos s) /\
  bytes_of 33 (sg_pubkey_compressed s).
Definition typed_partial_sig (s : IncomingPartialSig) : Prop :=
  bytes_of 33 (ps_pubkey s) /\ bytes_of 64 (ps_signature s).
Definition typed_hint (h : Ms45Hint) : Prop := u32_ok (h_cosigner h) /\ u32_ok (h_chain h) /\ u32_ok (h_index h).
Definition typed_outpoint (o : Outpoint) : Prop := bytes_of 32 (o_transaction_id o) /\ u32_ok (o_index o).
Definition typed_utxo (u : UtxoEntry) : Prop :=
  u64_ok (amount u) /\ typed_spk (script_public_key u) /\ u64_ok (block_daa_score u).
Definition typed_tx_input (i : TransactionInput) : Prop :=
  typed_outpoint (previous_outpoint i) /\ u64_ok (sequence i) /\ byte_ok (sig_op_count i) /\
  typed_utxo (utxo_entry i) /\
  (Forall typed_sig (sigs i) /\ blen (sigs i) = MAX_SIGS_PER_INPUT) /\ byte_ok (sig_count i) /\
  byte_ok (sighash_type i) /\
  bytes_of MAX_SCRIPT_SIZE (redeem_script i) /\ u64_ok (redeem_script_len i) /\ u16_ok (redeem_script_offset i) /\
  (Forall typed_partial_sig (incoming_partial_sigs i) /\ blen (incoming_partial_sigs i) = MAX_SIGS_PER_INPUT) /\
  byte_ok (incoming_partial_sigs_count i) /\
  byte_ok (derivation_branch i) /\ u32_ok (derivation_index i) /\ typed_hint (ms45_hint i) /\
  u16_ok (covenant_execution_mask i) /\ u16_ok (covenant_execution_true_mask i).
Definition typed_tx_output (o : TransactionOutput) : Prop :=
  u64_ok (value o) /\ typed_spk (out_script_public_key o) /\ u16_ok (covenant_auth_input o) /\
  bytes_of 32 (covenant_id o) /\ byte_ok (out_derivation_branch o) /\ u32_ok (out_derivation_index o) /\
  typed_hint (out_ms45_hint o).
Definition typed_limits (l : TransactionLimits) : Prop := u64_ok (max_inputs l) /\ u64_ok (max_payload_bytes l).
Definition typed_tx (tx : Transaction) : Prop :=
  u16_ok (tx_version tx) /\ Forall typed_tx_input (tx_inputs tx) /\ u64_ok (num_inputs tx) /\
  (Forall typed_tx_output (tx_outputs tx) /\ blen (tx_outputs tx) = MAX_OUTPUTS) /\ u64_ok (num_outputs tx) /\
  u64_ok (locktime tx) /\ bytes_of 20 (subnetwork_id tx) /\ u64_ok (gas tx) /\ bytes_ok (payload tx) /\
  bytes_of 32 (stealth_tweak tx) /\ bytes_of REDEEM_POOL_SIZE (redeem_pool tx) /\ u64_ok (redeem_pool_used tx) /\
  typed_limits (limits tx).

#[export] Instance typed_spk_dec s : Decision (typed_spk s).
Proof. unfold typed_spk. apply _. Defined.
#[export] Instance typed_sig_dec s : Decision (typed_sig s).
Proof. unfold typed_sig. apply _. Defined.
#[export] Instance typed_partial_sig_dec s : Decision (typed_partial_sig s).
Proof. unfold typed_partial_sig. apply _. Defined.
#[export] Instance typed_hint_dec h : Decision (typed_hint h).
Proof. unfold typed_hint. apply _. Defined.
#[export] Instance typed_outpoint_dec o : Decision (typed_outpoint o).
Proof. unfold typed_outpoint. apply _. Defined.
#[export] Instance typed_utxo_dec u : Decision (typed_utxo u).
Proof. unfold typed_utxo. apply _. Defined.
#[export] Instance typed_tx_input_dec i : Decision (typed_tx_input i).
Proof. unfold typed_tx_input. apply _. Defined.
#[export] Instance typed_tx_output_dec o : Decision (typed_tx_output o).
Proof. unfold typed_tx_output. apply _. Defined.
#[export] Instance typed_limits_dec l : Decision (typed_limits l).
Proof. unfold typed_limits. apply _. Defined.
#[export] Instance typed_tx_dec tx : Decision (typed_tx tx).
Proof. unfold typed_tx. apply _. Defined.

Lemma typed_empty_input : typed_tx_input empty_input.
Proof. by_decide. Qed.
Lemma typed_empty_output : typed_tx_output empty_output.
Proof. by_decide. Qed.
Lemma typed_empty_sig : typed_sig empty_sig.
Proof. by_decide. Qed.

(** An element of a typed array, or the value of a panicking read. *)
Lemma get_default_typed {A} (P : A -> Prop) (l : list A) (i : Z) (a : A) :
  Forall P l -> P a -> P (default a (get_at l i)).
Proof.
  intros Hl Ha. destruct (get_at l i) as [b|] eqn:Hb; [|done]. cbn.
  apply get_at_Some in Hb as (l1 & l2 & -> & _). by apply Forall_app in Hl as [_ [Hb _]%Forall_cons].
Qed.

Lemma slice_typed {A} (P : A -> Prop) (l : list A) i j : Forall P l -> Forall P (default [] (slice l i j)).
Proof.
  intros Hl. destruct (slice l i j) as [part|] eqn:Hp; [|done]. cbn.
  apply slice_Some in Hp as (l1 & l3 & -> & _). apply Forall_app in Hl as [_ Hl]. by apply Forall_app in Hl as [Hl _].
Qed.

Lemma slice_default_len {A} (l : list A) i j : blen (default [] (slice l i j)) <= blen l.
Proof.
  destruct (slice l i j) as [part|] eqn:Hp; cbn; [|apply blen_nonneg].
  apply slice_Some in Hp as (l1 & l3 & -> & _). pose proof (blen_nonneg l1). pose proof (blen_nonneg l3). len.
Qed.

Lemma script_bytes_typed s : typed_spk s -> bytes_ok (script_bytes s) /\ blen (script_bytes s) <= MAX_SCRIPT_SIZE.
Proof.
  intros (_ & [Hb Hl] & _). unfold script_bytes. split; [by apply slice_typed|].
  rewrite <- Hl. apply slice_default_len.
Qed.

Lemma blen_zeros n : 0 <= n -> blen (zeros n) = n.
Proof. intros. unfold zeros, blen. rewrite length_replicate. lia. Qed.

Lemma drop_zeros k n : drop k (zeros n) = zeros (n - Z.of_nat k).
Proof. unfold zeros. rewrite drop_replicate. f_equal. lia. Qed.

(** Copying to the front of a buffer that is long enough. *)
Lemma copy_into_front out bytes :
  copy_into out 0 bytes = if blen bytes <=? blen out then Some (bytes ++ drop (length bytes) out) else None.
Proof. done. Qed.

Lemma copy_into_zeros_all bytes : copy_into (zeros (blen bytes)) 0 bytes = Some bytes.
Proof.
  rewrite copy_into_front, blen_zeros, drop_zeros by apply blen_nonneg. rewrite Z.leb_refl.
  replace (blen bytes - Z.of_nat (length bytes)) with 0 by (unfold blen; lia). change (zeros 0) with (@nil Z).
  by rewrite app_nil_r.
Qed.

(** Copying behind what a buffer of zeros holds. *)
Lemma copy_into_written size text bytes : blen text + blen bytes <= size ->
  copy_into (text ++ zeros (size - blen text)) (blen text) bytes
  = Some ((text ++ bytes) ++ zeros (size - blen (text ++ bytes))).
Proof.
  intros Hsize. pose proof (blen_nonneg text). pose proof (blen_nonneg bytes). unfold copy_into.
  rewrite !blen_app, blen_zeros by lia. decide_tests. f_equal.
  replace (Z.to_nat (blen text)) with (length text) by (unfold blen; lia). rewrite take_app_length, <- app_assoc.
  do 2 f_equal. rewrite drop_app_ge by lia. rewrite drop_zeros. f_equal. unfold blen. lia.
Qed.
