(* ===== verification/Sighash.v ===== *)
(** * Signature hashes

    [src/src/transaction/sighash]: the view of a transaction a signature hash
    commits to ([source.rs]), the component hashes ([components.rs]) and the
    final digest ([digest.rs]). Keyed BLAKE2b is a parameter; a hasher fed in
    pieces hashes their concatenation. *)

From S2P Require Import Prelude TxModel.
Import SigHashType.

(** ** [source.rs] *)

Record SighashInput := {
  si_transaction_id : list Z; si_index : Z; si_sequence : Z; si_sig_op_count : Z;
  si_script_version : Z; si_script : list Z; si_amount : Z }.

Record SighashOutput := {
  so_value : Z; so_script_version : Z; so_script : list Z; so_covenant : option (Z * list Z) }.

Class SighashSource (T : Type) := {
  s_version : T -> Z;
  s_input_count : T -> Z;
  s_input : T -> Z -> SighashInput;
  s_output_count : T -> Z;
  s_output : T -> Z -> SighashOutput;
  s_locktime : T -> Z;
  s_subnetwork_id : T -> list Z;
  s_gas : T -> Z;
  s_payload : T -> list Z;
}.

Definition sighash_input (tx : Transaction) (index : Z) : SighashInput :=
  let input := default empty_input (get_at (inputs tx) index) in
  {| si_transaction_id := o_transaction_id (previous_outpoint input);
     si_index := o_index (previous_outpoint input);
     si_sequence := sequence input;
     si_sig_op_count := sig_op_count input;
     si_script_version := spk_version (script_public_key (utxo_entry input));
     si_script := script_bytes (script_public_key (utxo_entry input));
     si_amount := amount (utxo_entry input) |}.

Definition sighash_output (tx : Transaction) (index : Z) : SighashOutput :=
  let output := default empty_output (get_at (outputs tx) index) in
  {| so_value := value output;
     so_script_version := spk_version (out_script_public_key output);
     so_script := script_bytes (out_script_public_key output);
     so_covenant := if has_covenant output then Some (covenant_auth_input output, covenant_id output) else None |}.

#[export] Instance TransactionSighash : SighashSource Transaction := {|
  s_version := tx_version;
  s_input_count := num_inputs;
  s_input := sighash_input;
  s_output_count := num_outputs;
  s_output := sighash_output;
  s_locktime := locktime;
  s_subnetwork_id := subnetwork_id;
  s_gas := gas;
  s_payload := payload |}.

Definition SIGNING_DOMAIN : list Z := str "TransactionSigningHash".
Definition ZERO_HASH : list Z := zeros 32.

Section hash.
Context (keyed : list Z -> list Z -> list Z).
Context {T : Type} `{SighashSource T}.

(** [signing_hasher()] fed with [bytes] and finalized. *)
Definition signing_hash (bytes : list Z) : list Z := keyed SIGNING_DOMAIN bytes.

(** [(0..n).map(f)] *)
Definition each {A} (n : Z) (f : Z -> A) : list A := map f (seqZ 0 n).

(** ** [components.rs] *)

Definition previous_outputs_hash (tx : T) (ty : SigHashType) : list Z :=
  if is_anyone_can_pay ty then ZERO_HASH
  else signing_hash (concat (each (s_input_count tx) (fun index =>
         let input := s_input tx index in si_transaction_id input ++ le_bytes 4 (si_index input)))).

Definition sequences_hash (tx : T) (ty : SigHashType) : list Z :=
  if is_anyone_can_pay ty || is_sighash_single ty || is_sighash_none ty then ZERO_HASH
  else signing_hash (concat (each (s_input_count tx) (fun index => le_bytes 8 (si_sequence (s_input tx index))))).

Definition sig_op_counts_hash (tx : T) (ty : SigHashType) : list Z :=
  if is_anyone_can_pay ty then ZERO_HASH
  else signing_hash (concat (each (s_input_count tx) (fun index => [si_sig_op_count (s_input tx index)]))).

(** The bytes [hash_output] feeds the hasher. *)
Definition hash_output (output : SighashOutput) (tx_version : Z) : list Z :=
  le_bytes 8 (so_value output) ++ le_bytes 2 (so_script_version output)
  ++ le_bytes 8 (blen (so_script output)) ++ so_script output
  ++ (if 1 <=? tx_version then
        match so_covenant output with
        | Some (authorizing_input, covenant_id) => [1] ++ le_bytes 2 authorizing_input ++ covenant_id
        | None => [0]
        end
      else []).

Definition outputs_hash (tx : T) (ty : SigHashType) (input_index : Z) : list Z :=
  if is_sighash_none ty then ZERO_HASH
  else if is_sighash_single ty then
    if s_output_count tx <=? input_index then ZERO_HASH
    else signing_hash (hash_output (s_output tx input_index) (s_version tx))
  else signing_hash (concat (each (s_output_count tx) (fun index => hash_output (s_output tx index) (s_version tx)))).

Definition payload_hash (tx : T) : list Z :=
  let payload := s_payload tx in
  if list_Z_eqb (s_subnetwork_id tx) SUBNETWORK_ID_NATIVE && bool_decide (payload = []) then ZERO_HASH
  else signing_hash (le_bytes 8 (blen payload) ++ payload).

(** ** [digest.rs] *)

(** The bytes fed to the final hasher. *)
Definition sighash_preimage (tx : T) (input_index : Z) (ty : SigHashType) : list Z :=
  let input := s_input tx input_index in
  le_bytes 2 (s_version tx)
  ++ previous_outputs_hash tx ty
  ++ sequences_hash tx ty
  ++ (if s_version tx =? 0 then sig_op_counts_hash tx ty else [])
  ++ si_transaction_id input
  ++ le_bytes 4 (si_index input)
  ++ le_bytes 2 (si_script_version input)
  ++ le_bytes 8 (blen (si_script input))
  ++ si_script input
  ++ le_bytes 8 (si_amount input)
  ++ le_bytes 8 (si_sequence input)
  ++ (if s_version tx =? 0 then [si_sig_op_count input] else [])
  ++ outputs_hash tx ty input_index
  ++ le_bytes 8 (s_locktime tx)
  ++ s_subnetwork_id tx
  ++ le_bytes 8 (s_gas tx)
  ++ payload_hash tx
  ++ [to_byte ty].

Definition calculate_sighash (tx : T) (input_index : Z) (ty : SigHashType) : list Z :=
  signing_hash (sighash_preimage tx input_index ty).

(** ** What a signature hash commits to *)

(** An output as the transaction version serializes it: no covenant binding
    before version 1. *)
Definition committed_output (version : Z) (output : SighashOutput) : SighashOutput :=
  if 1 <=? version then output
  else {| so_value := so_value output; so_script_version := so_script_version output;
          so_script := so_script output; so_covenant := None |}.

(** The spent output and, before version 1, the signature operations. *)
Definition committed_input (version : Z) (input : SighashInput) : SighashInput :=
  {| si_transaction_id := si_transaction_id input; si_index := si_index input; si_sequence := si_sequence input;
     si_sig_op_count := if version =? 0 then si_sig_op_count input else 0;
     si_script_version := si_script_version input; si_script := si_script input; si_amount := si_amount input |}.

Record Commitment := {
  cm_type : SigHashType;
  cm_version : Z;
  cm_input : SighashInput;
  cm_outpoints : option (list (list Z * Z));
  cm_sequences : option (list Z);
  cm_sig_op_counts : option (list Z);
  cm_outputs : option (list SighashOutput);
  cm_locktime : Z;
  cm_subnetwork_id : list Z;
  cm_gas : Z;
  cm_payload : list Z;
}.

Definition commitment (tx : T) (input_index : Z) (ty : SigHashType) : Commitment := {|
  cm_type := ty;
  cm_version := s_version tx;
  cm_input := committed_input (s_version tx) (s_input tx input_index);
  cm_outpoints :=
    if is_anyone_can_pay ty then None
    else Some (each (s_input_count tx) (fun index =>
                 (si_transaction_id (s_input tx index), si_index (s_input tx index))));
  cm_sequences :=
    if is_anyone_can_pay ty || is_sighash_single ty || is_sighash_none ty then None
    else Some (each (s_input_count tx) (fun index => si_sequence (s_input tx index)));
  cm_sig_op_counts :=
    if is_anyone_can_pay ty || negb (s_version tx =? 0) then None
    else Some (each (s_input_count tx) (fun index => si_sig_op_count (s_input tx index)));
  cm_outputs :=
    if is_sighash_none ty then None
    else if is_sighash_single ty then
      if s_output_count tx <=? input_index then None
      else Some [committed_output (s_version tx) (s_output tx input_index)]
    else Some (each (s_output_count tx) (fun index => committed_output (s_version tx) (s_output tx index)));
  cm_locktime := s_locktime tx;
  cm_subnetwork_id := s_subnetwork_id tx;
  cm_gas := s_gas tx;
  cm_payload := s_payload tx |}.

(** The ranges of the Rust types. *)
Definition input_typed (i : SighashInput) : Prop :=
  blen (si_transaction_id i) = 32 /\ u32_ok (si_index i) /\ u64_ok (si_sequence i) /\ byte_ok (si_sig_op_count i) /\
  u16_ok (si_script_version i) /\ blen (si_script i) <= u64_max /\ u64_ok (si_amount i).
Definition output_typed (o : SighashOutput) : Prop :=
  u64_ok (so_value o) /\ u16_ok (so_script_version o) /\ blen (so_script o) <= u64_max /\
  match so_covenant o with Some (authorizing, id) => u16_ok authorizing /\ blen id = 32 | None => True end.
Definition source_typed (tx : T) : Prop :=
  u16_ok (s_version tx) /\ u64_ok (s_locktime tx) /\ blen (s_subnetwork_id tx) = 20 /\ u64_ok (s_gas tx) /\
  blen (s_payload tx) <= u64_max /\
  (forall index, input_typed (s_input tx index)) /\ (forall index, output_typed (s_output tx index)).

(** The bytes each component hash is of, when it is not the zero hash. *)
Definition outpoints_part (tx : T) (ty : SigHashType) : option (list Z) :=
  if is_anyone_can_pay ty then None
  else Some (concat (each (s_input_count tx) (fun index =>
         let input := s_input tx index in si_transaction_id input ++ le_bytes 4 (si_index input)))).
Definition sequences_part (tx : T) (ty : SigHashType) : option (list Z) :=
  if is_anyone_can_pay ty || is_sighash_single ty || is_sighash_none ty then None
  else Some (concat (each (s_input_count tx) (fun index => le_bytes 8 (si_sequence (s_input tx index))))).
Definition sig_ops_part (tx : T) (ty : SigHashType) : option (list Z) :=
  if is_anyone_can_pay ty then None
  else Some (concat (each (s_input_count tx) (fun index => [si_sig_op_count (s_input tx index)]))).
Definition outputs_part (tx : T) (ty : SigHashType) (input_index : Z) : option (list Z) :=
  if is_sighash_none ty then None
  else if is_sighash_single ty then
    if s_output_count tx <=? input_index then None
    else Some (hash_output (s_output tx input_index) (s_version tx))
  else Some (concat (each (s_output_count tx) (fun index => hash_output (s_output tx index) (s_version tx)))).
Definition payload_part (tx : T) : option (list Z) :=
  if list_Z_eqb (s_subnetwork_id tx) SUBNETWORK_ID_NATIVE && bool_decide (s_payload tx = []) then None
  else Some (le_bytes 8 (blen (s_payload tx)) ++ s_payload tx).

(** Every message hashed for one signature hash, the final one first. *)
Definition hashed_parts (tx : T) (input_index : Z) (ty : SigHashType) : list (option (list Z)) :=
  [Some (sighash_preimage tx input_index ty); outpoints_part tx ty; sequences_part tx ty;
   (if s_version tx =? 0 then sig_ops_part tx ty else None); outputs_part tx ty input_index; payload_part tx].

(** A component hash is the zero hash or the hash of its part. *)
Definition hash_part (part : option (list Z)) : list Z :=
  match part with Some bytes => signing_hash bytes | None => ZERO_HASH end.

(** Different parts with one digest: a collision of the keyed hash, or a
    message whose digest is the zero hash that stands for an absent part. *)
Definition clash (part1 part2 : option (list Z)) : Prop := part1 <> part2 /\ hash_part part1 = hash_part part2.

Lemma each_ext {A} n (f g : Z -> A) : (forall i, 0 <= i < n -> f i = g i) -> each n f = each n g.
Proof.
  intros Hext. unfold each. apply map_ext_in. intros i Hi%list_elem_of_In%elem_of_seqZ. apply Hext. lia.
Qed.

Lemma hash_part_inj part1 part2 : hash_part part1 = hash_part part2 -> part1 = part2 \/ clash part1 part2.
Proof. intros Heq. destruct (decide (part1 = part2)); [by left|by right]. Qed.

(** ** Serialized parts determine what they serialize *)

Ltac prefix H := apply le_bytes_app_inj in H as [? H]; [|cbn; unfold u16_ok, u32_ok, u64_ok, u64_max in *; lia..].

Lemma hash_output_inj version o1 o2 (l1 l2 : list Z) :
  output_typed o1 -> output_typed o2 -> hash_output o1 version ++ l1 = hash_output o2 version ++ l2 ->
  committed_output version o1 = committed_output version o2 /\ l1 = l2.
Proof.
  intros (Hv1 & Hs1 & Hl1 & Hc1) (Hv2 & Hs2 & Hl2 & Hc2). unfold hash_output, committed_output.
  rewrite <- !app_assoc. intros Heq. pose proof (blen_nonneg (so_script o1)). pose proof (blen_nonneg (so_script o2)).
  do 3 prefix Heq. apply app_inj_1 in Heq as [Hscript Heq]; [|unfold blen in *; lia].
  destruct o1 as [v1 sv1 s1 c1], o2 as [v2 sv2 s2 c2]. cbn [so_value so_script_version so_script so_covenant] in *. subst.
  destruct (1 <=? version); [|done].
  destruct c1 as [[a1 id1]|], c2 as [[a2 id2]|]; cbn [app] in Heq; try done.
  - apply (f_equal tail) in Heq. cbn [tail] in Heq. rewrite <- !app_assoc in Heq. prefix Heq.
    apply app_inj_1 in Heq as [-> ->]; [|unfold blen in *; lia]. by subst.
  - by injection Heq as ->.
Qed.

(** Self-delimiting encodings of a list's elements determine the list. *)
Lemma concat_inj {A1 A2 B C} (enc1 : A1 -> list B) (enc2 : A2 -> list B) (view1 : A1 -> C) (view2 : A2 -> C) l1 l2 :
  (forall a, enc1 a <> []) -> (forall a, enc2 a <> []) ->
  (forall a1 a2 r1 r2, enc1 a1 ++ r1 = enc2 a2 ++ r2 -> view1 a1 = view2 a2 /\ r1 = r2) ->
  concat (map enc1 l1) = concat (map enc2 l2) -> map view1 l1 = map view2 l2.
Proof.
  intros Hne1 Hne2 Henc. revert l2. induction l1 as [|a1 l1 IH]; intros [|a2 l2] Heq; cbn in *.
  - done.
  - destruct (enc2 a2) eqn:H2; [by apply Hne2 in H2|done].
  - destruct (enc1 a1) eqn:H1; [by apply Hne1 in H1|done].
  - apply Henc in Heq as [-> Heq]. by rewrite (IH l2).
Qed.

End hash.

Section binding.
Context (keyed : list Z -> list Z -> list Z) (keyed_size : forall domain bytes, blen (keyed domain bytes) = 32).
Context {T1 T2 : Type} `{SighashSource T1} `{SighashSource T2}.
Context (tx1 : T1) (tx2 : T2) (Htx1 : source_typed tx1) (Htx2 : source_typed tx2).

Lemma to_byte_inj ty1 ty2 : to_byte ty1 = to_byte ty2 -> ty1 = ty2.
Proof. by destruct ty1, ty2. Qed.

Lemma part_size part : blen (hash_part keyed part) = 32.
Proof. destruct part; [apply keyed_size|done]. Qed.

Lemma component_parts {T} `{SighashSource T} (tx : T) ty input_index :
  previous_outputs_hash keyed tx ty = hash_part keyed (outpoints_part tx ty) /\
  sequences_hash keyed tx ty = hash_part keyed (sequences_part tx ty) /\
  sig_op_counts_hash keyed tx ty = hash_part keyed (sig_ops_part tx ty) /\
  outputs_hash keyed tx ty input_index = hash_part keyed (outputs_part tx ty input_index) /\
  payload_hash keyed tx = hash_part keyed (payload_part tx).
Proof.
  unfold previous_outputs_hash, sequences_hash, sig_op_counts_hash, outputs_hash, payload_hash, outpoints_part,
    sequences_part, sig_ops_part, outputs_part, payload_part.
  split_and!; repeat case_match; done.
Qed.


Lemma outpoints_inj ty i1 i2 :
  outpoints_part tx1 ty = outpoints_part tx2 ty ->
  cm_outpoints (commitment tx1 i1 ty) = cm_outpoints (commitment tx2 i2 ty).
Proof.
  unfold outpoints_part. cbn [commitment cm_outpoints]. destruct (is_anyone_can_pay ty); [done|].
  intros Heq. apply (inj Some) in Heq. f_equal. revert Heq.
  destruct Htx1 as (_ & _ & _ & _ & _ & Hi1 & _), Htx2 as (_ & _ & _ & _ & _ & Hi2 & _).
  apply concat_inj.
  1,2: intros i Hnil; apply app_eq_nil in Hnil as [_ Hnil]; done.
  intros i j r1 r2. destruct (Hi1 i) as (Hid1 & Hx1 & _), (Hi2 j) as (Hid2 & Hx2 & _).
  rewrite <- !app_assoc. intros Heq. apply app_inj_1 in Heq as [-> Heq]; [|unfold blen in *; lia].
  apply le_bytes_app_inj in Heq as [-> Heq]; [done|cbn; unfold u32_ok in *; lia..].
Qed.

Lemma sequences_inj ty i1 i2 :
  sequences_part tx1 ty = sequences_part tx2 ty ->
  cm_sequences (commitment tx1 i1 ty) = cm_sequences (commitment tx2 i2 ty).
Proof.
  unfold sequences_part. cbn [commitment cm_sequences]. destruct (_ || _); [done|].
  intros Heq. apply (inj Some) in Heq. f_equal. revert Heq.
  destruct Htx1 as (_ & _ & _ & _ & _ & Hi1 & _), Htx2 as (_ & _ & _ & _ & _ & Hi2 & _).
  apply concat_inj; [done..|]. intros i j r1 r2 Heq.
  destruct (Hi1 i) as (_ & _ & Hx1 & _), (Hi2 j) as (_ & _ & Hx2 & _).
  apply le_bytes_app_inj in Heq as [-> Heq]; [done|cbn; unfold u64_ok in *; lia..].
Qed.

Lemma sig_ops_inj ty i1 i2 :
  s_version tx1 = s_version tx2 -> (s_version tx1 = 0 -> sig_ops_part tx1 ty = sig_ops_part tx2 ty) ->
  cm_sig_op_counts (commitment tx1 i1 ty) = cm_sig_op_counts (commitment tx2 i2 ty).
Proof.
  unfold sig_ops_part. cbn [commitment cm_sig_op_counts]. intros <- Heq.
  destruct (is_anyone_can_pay ty); [done|]. destruct (Z.eqb_spec (s_version tx1) 0); [|done]. cbn [orb negb].
  specialize (Heq ltac:(done)). apply (inj Some) in Heq. f_equal. revert Heq.
  apply concat_inj; [done..|]. intros i j r1 r2 Heq. by injection Heq as -> ->.
Qed.

Lemma hash_output_nonempty output version : hash_output output version <> [].
Proof. unfold hash_output. cbn. done. Qed.

Lemma outputs_inj ty i1 i2 :
  s_version tx1 = s_version tx2 -> outputs_part tx1 ty i1 = outputs_part tx2 ty i2 ->
  cm_outputs (commitment tx1 i1 ty) = cm_outputs (commitment tx2 i2 ty).
Proof.
  unfold outputs_part. cbn [commitment cm_outputs]. intros <-.
  destruct Htx1 as (_ & _ & _ & _ & _ & _ & Ho1), Htx2 as (_ & _ & _ & _ & _ & _ & Ho2).
  destruct (is_sighash_none ty); [done|]. destruct (is_sighash_single ty).
  - destruct (s_output_count tx1 <=? i1), (s_output_count tx2 <=? i2); try done. intros Heq.
    apply (inj Some) in Heq. do 2 f_equal.
    apply (hash_output_inj (s_version tx1) _ _ [] []); [done..|]. by rewrite !app_nil_r.
  - intros Heq. apply (inj Some) in Heq. f_equal. revert Heq.
    apply concat_inj; [intros; apply hash_output_nonempty..|]. intros i j r1 r2. by apply hash_output_inj.
Qed.

Lemma payload_inj :
  s_subnetwork_id tx1 = s_subnetwork_id tx2 -> payload_part tx1 = payload_part tx2 -> s_payload tx1 = s_payload tx2.
Proof.
  unfold payload_part. intros <-. destruct Htx1 as (_ & _ & _ & _ & Hp1 & _), Htx2 as (_ & _ & _ & _ & Hp2 & _).
  pose proof (blen_nonneg (s_payload tx1)). pose proof (blen_nonneg (s_payload tx2)).
  destruct (list_Z_eqb _ _); cbn [andb].
  - do 2 case_bool_decide; try done; [congruence|]. intros Heq. apply (inj Some) in Heq.
    apply le_bytes_app_inj in Heq as [_ Heq]; [done|cbn; unfold u64_max in *; lia..].
  - intros Heq. apply (inj Some) in Heq.
    apply le_bytes_app_inj in Heq as [_ Heq]; [done|cbn; unfold u64_max in *; lia..].
Qed.

(** The fields of two equal preimages, the component hashes still hashed. *)
Lemma preimage_inj i1 i2 ty1 ty2 :
  sighash_preimage keyed tx1 i1 ty1 = sighash_preimage keyed tx2 i2 ty2 ->
  (s_version tx1 = s_version tx2 /\ ty1 = ty2) /\
  committed_input (s_version tx1) (s_input tx1 i1) = committed_input (s_version tx2) (s_input tx2 i2) /\
  (s_locktime tx1 = s_locktime tx2 /\ s_subnetwork_id tx1 = s_subnetwork_id tx2 /\ s_gas tx1 = s_gas tx2) /\
  previous_outputs_hash keyed tx1 ty1 = previous_outputs_hash keyed tx2 ty2 /\
  sequences_hash keyed tx1 ty1 = sequences_hash keyed tx2 ty2 /\
  (s_version tx1 = 0 -> sig_op_counts_hash keyed tx1 ty1 = sig_op_counts_hash keyed tx2 ty2) /\
  outputs_hash keyed tx1 ty1 i1 = outputs_hash keyed tx2 ty2 i2 /\
  payload_hash keyed tx1 = payload_hash keyed tx2.
Proof.
  destruct Htx1 as (Hv1 & Hl1 & Hs1 & Hg1 & _ & Hi1 & _), Htx2 as (Hv2 & Hl2 & Hs2 & Hg2 & _ & Hi2 & _).
  specialize (Hi1 i1) as (Hid1 & Hx1 & Hq1 & _ & Hsv1 & Hsl1 & Ha1).
  specialize (Hi2 i2) as (Hid2 & Hx2 & Hq2 & _ & Hsv2 & Hsl2 & Ha2).
  destruct (component_parts tx1 ty1 i1) as (E1 & E2 & E3 & E4 & E5), (component_parts tx2 ty2 i2) as (F1 & F2 & F3 & F4 & F5).
  pose proof (blen_nonneg (si_script (s_input tx1 i1))). pose proof (blen_nonneg (si_script (s_input tx2 i2))).
  unfold sighash_preimage. rewrite E1, E2, E3, E4, E5, F1, F2, F3, F4, F5.
  intros Heq. apply le_bytes_app_inj in Heq as [Hversion Heq]; [|cbn; unfold u16_ok in *; lia..].
  rewrite <- Hversion in *.
  apply app_inj_1 in Heq as [Houtpoints Heq]; [|apply blen_length; by rewrite !part_size].
  apply app_inj_1 in Heq as [Hsequences Heq]; [|apply blen_length; by rewrite !part_size].
  apply app_inj_1 in Heq as [Hops Heq]; [|apply blen_length; destruct (s_version tx1 =? 0); by rewrite ?part_size].
  apply app_inj_1 in Heq as [Hid Heq]; [|apply blen_length; lia].
  apply le_bytes_app_inj in Heq as [Hindex Heq]; [|cbn; unfold u32_ok in *; lia..].
  apply le_bytes_app_inj in Heq as [Hscriptversion Heq]; [|cbn; unfold u16_ok in *; lia..].
  apply le_bytes_app_inj in Heq as [Hlen Heq]; [|cbn; unfold u64_max in *; lia..].
  apply app_inj_1 in Heq as [Hscript Heq]; [|apply blen_length; lia].
  apply le_bytes_app_inj in Heq as [Hamount Heq]; [|cbn; unfold u64_ok in *; lia..].
  apply le_bytes_app_inj in Heq as [Hsequence Heq]; [|cbn; unfold u64_ok in *; lia..].
  apply app_inj_1 in Heq as [Hop Heq]; [|by destruct (s_version tx1 =? 0)].
  apply app_inj_1 in Heq as [Houtputs Heq]; [|apply blen_length; by rewrite !part_size].
  apply le_bytes_app_inj in Heq as [Hlocktime Heq]; [|cbn; unfold u64_ok in *; lia..].
  apply app_inj_1 in Heq as [Hsubnetwork Heq]; [|apply blen_length; lia].
  apply le_bytes_app_inj in Heq as [Hgas Heq]; [|cbn; unfold u64_ok in *; lia..].
  apply app_inj_1 in Heq as [Hpayload Hty]; [|apply blen_length; by rewrite !part_size].
  injection Hty as ->%to_byte_inj. split_and!; try done.
  - unfold committed_input. rewrite Hid, Hindex, Hsequence, Hscriptversion, Hscript, Hamount. f_equal.
    destruct (s_version tx1 =? 0); [by injection Hop|done].
  - intros Hzero. by rewrite Hzero in Hops.
Qed.

(** C8: A signature hash binds what it signs. If two transactions, in whatever
    representations, have one signature hash, then the signatures are of one
    type over one spent output, and agree on every part their type commits to:
    version, locktime, subnetwork, gas and payload always; every outpoint
    unless anyone can pay; the sequences of all inputs and all outputs with
    their covenants for a signature of everything; the one output beside the
    input for a single. Otherwise the computations of the two hashes contain
    two different messages, at the same step, with one digest (or one with the
    zero digest that stands for an absent part). *)
Theorem sighash_binds (i1 i2 : Z) (ty1 ty2 : SigHashType) :
  calculate_sighash keyed tx1 i1 ty1 = calculate_sighash keyed tx2 i2 ty2 ->
  commitment tx1 i1 ty1 = commitment tx2 i2 ty2 \/
  Exists (fun pair => clash keyed pair.1 pair.2)
    (combine (hashed_parts keyed tx1 i1 ty1) (hashed_parts keyed tx2 i2 ty2)).
Proof.
  intros Heq. unfold hashed_parts. cbn [combine]. rewrite !Exists_cons, Exists_nil. cbn [fst snd].
  destruct (hash_part_inj keyed (Some _) (Some _) Heq) as [Hpre|]; [|by auto]. apply (inj Some) in Hpre.
  apply preimage_inj in Hpre as ([Hv <-] & Hin & (Hl & Hs & Hg) & Ho & Hq & Hops & Hout & Hp).
  destruct (component_parts tx1 ty1 i1) as (E1 & E2 & E3 & E4 & E5), (component_parts tx2 ty1 i2) as (F1 & F2 & F3 & F4 & F5).
  rewrite E1, F1 in Ho. rewrite E2, F2 in Hq. rewrite E3, F3 in Hops. rewrite E4, F4 in Hout. rewrite E5, F5 in Hp.
  apply hash_part_inj in Ho as [Ho|]; [|by auto]. apply hash_part_inj in Hq as [Hq|]; [|by auto].
  apply hash_part_inj in Hout as [Hout|]; [|by auto 10]. apply hash_part_inj in Hp as [Hp|]; [|by auto 10].
  rewrite <- Hv.
  assert (Hops' : (s_version tx1 = 0 -> sig_ops_part tx1 ty1 = sig_ops_part tx2 ty1) \/
    clash keyed (if s_version tx1 =? 0 then sig_ops_part tx1 ty1 else None)
                (if s_version tx1 =? 0 then sig_ops_part tx2 ty1 else None)).
  { destruct (Z.eqb_spec (s_version tx1) 0) as [Hz|]; [|by left].
    destruct (hash_part_inj _ _ _ (Hops Hz)); [by left|by right]. }
  destruct Hops' as [Hops'|]; [left|by auto 10].
  apply (outpoints_inj ty1 i1 i2) in Ho. apply (sequences_inj ty1 i1 i2) in Hq.
  apply (sig_ops_inj ty1 i1 i2 Hv) in Hops'. apply (outputs_inj ty1 i1 i2 Hv) in Hout. apply payload_inj in Hp; [|done].
  unfold commitment in *. cbn [cm_outpoints cm_sequences cm_sig_op_counts cm_outputs] in *.
  by rewrite Hin, Ho, Hq, Hops', Hout, Hp, Hl, Hs, Hg, Hv.
Qed.

End binding.

(** ** The transaction model as a source *)

Lemma typed_source tx : typed_tx tx -> blen (payload tx) <= u64_max -> source_typed tx.
Proof.
  intros (Hv & Hin & _ & [Hout _] & _ & Hlock & [_ Hsub] & Hgas & _ & _) Hp.
  unfold source_typed. cbn [s_version s_locktime s_subnetwork_id s_gas s_payload s_input s_output TransactionSighash].
  split_and!; try done.
  - intros index. unfold sighash_input.
    pose proof (get_default_typed _ (inputs tx) index _ (slice_typed _ _ _ _ Hin) typed_empty_input) as Hi.
    set (i := default empty_input (get_at (inputs tx) index)) in *.
    destruct Hi as ([[_ Hid] Hx] & Hseq & Hops & (Ha & Hspk & _) & _). pose proof (script_bytes_typed _ Hspk) as [_ Hlen].
    destruct Hspk as (Hsv & _). unfold input_typed. cbn. split_and!; try done. unfold MAX_SCRIPT_SIZE, u64_max in *. lia.
  - intros index. unfold sighash_output.
    pose proof (get_default_typed _ (outputs tx) index _ (slice_typed _ _ _ _ Hout) typed_empty_output) as Ho.
    set (o := default empty_output (get_at (outputs tx) index)) in *.
    destruct Ho as (Hval & Hspk & Hauth & [_ Hid] & _). pose proof (script_bytes_typed _ Hspk) as [_ Hlen].
    destruct Hspk as (Hsv & _). unfold output_typed. cbn. split_and!; try done.
    + unfold MAX_SCRIPT_SIZE, u64_max in *. lia.
    + by destruct (has_covenant o).
Qed.
