(* ===== verification/SigCheck.v ===== *)
(** * Validation and signature verification

    [src/src/transaction/interchange/kspt]: [error.rs], [script.rs] and
    [validation.rs]; and [src/src/transaction/signature_verification/mod.rs],
    which counts the signatures of an input that are bound to a key of its
    script and verify over its signature hash. BIP-340 verification and keyed
    BLAKE2b are parameters. *)

From S2P Require Import Prelude NetworkId Script TxModel Sighash Branch KsptModel.
Import TxModel.

(** ** [error.rs] *)

Inductive PsktError :=
  | BufferTooShort | InvalidMagic | UnsupportedVersion | TooManyInputs | TooManyOutputs | ScriptTooLong
  | PayloadTooLong | InvalidSigHashType | OutputBufferTooSmall | NoInputs | NoOutputs | InvalidFlags
  | TrailingData | InvalidModel | TooManySignatures | InvalidSignatureState | InvalidTrailer
  | InvalidInputIndex | DerivationFailed | SigningFailed | ReusableNonce | InputAmountOverflow
  | OutputAmountOverflow | OutputsExceedInputs | StorageExhausted | UnsupportedTransactionVersion
  | NonCanonicalEncoding.

#[global] Instance PsktError_eq_dec : EqDecision PsktError.
Proof. solve_decision. Defined.

Definition from_wire_error (error : KsptModel.WireError) : PsktError :=
  match error with
  | KsptModel.BufferTooShort | KsptModel.CountOverflow => BufferTooShort
  | KsptModel.OutputBufferTooSmall => OutputBufferTooSmall
  | KsptModel.InvalidMagic => InvalidMagic
  | KsptModel.UnsupportedVersion => UnsupportedVersion
  | KsptModel.InvalidFlags => InvalidFlags
  | KsptModel.ScriptTooLong | KsptModel.RedeemTooLong => ScriptTooLong
  | KsptModel.TooManySignatures => TooManySignatures
  | KsptModel.DuplicateSignaturePosition => InvalidSignatureState
  | KsptModel.InvalidSigHashType => InvalidSigHashType
  | KsptModel.InvalidNetwork | KsptModel.MissingNetwork | KsptModel.InvalidTrailer => InvalidTrailer
  | KsptModel.TrailingData => TrailingData
  | KsptModel.TooManyInputs => TooManyInputs
  | KsptModel.TooManyOutputs => TooManyOutputs
  | KsptModel.PayloadTooLong => PayloadTooLong
  | KsptModel.UnsupportedTransactionVersion => UnsupportedTransactionVersion
  | KsptModel.NonCanonicalEncoding => NonCanonicalEncoding
  end.

(** [for index in 0..count { body(index)?; }] *)
Definition for_range {E} (count : Z) (body : Z -> result unit E) : result unit E :=
  try_fold (fun _ index => body index) tt (seqZ 0 count).

(** ** [validation.rs] *)

Definition map_amount_error (error : TransactionAmountError) : PsktError :=
  match error with
  | InputTotalOverflow => InputAmountOverflow
  | OutputTotalOverflow => OutputAmountOverflow
  | TxModel.OutputsExceedInputs => OutputsExceedInputs
  end.

Definition transaction_amounts (tx : Transaction) : result TransactionAmounts PsktError :=
  rmap_err map_amount_error (checked_amounts tx).

Definition checked_pool_redeem_bytes (tx : Transaction) (start len : Z) : result (list Z) PsktError :=
  let? end_ := ok_or (checked_add start len) InvalidModel in
  if (REDEEM_POOL_SIZE <? redeem_pool_used tx) || (redeem_pool_used tx <? end_) then Err InvalidModel
  else if blen (redeem_pool tx) <? end_ then Err InvalidModel
  else Ok (default [] (slice (redeem_pool tx) start end_)).

Definition checked_inline_redeem_bytes (input : TransactionInput) (len : Z) : result (list Z) PsktError :=
  ok_or (slice (redeem_script input) 0 len) InvalidModel.

Definition checked_redeem_bytes (tx : Transaction) (input_index : Z) : result (list Z) PsktError :=
  if (num_inputs tx <=? input_index) || (blen (tx_inputs tx) <=? input_index) then Err InvalidInputIndex
  else
    let input := default empty_input (get_at (tx_inputs tx) input_index) in
    let len := redeem_script_len input in
    if len =? 0 then Ok []
    else if MAX_REDEEM_SIZE <? len then Err ScriptTooLong
    else if redeem_in_pool input then checked_pool_redeem_bytes tx (redeem_script_offset input) len
    else checked_inline_redeem_bytes input len.

Definition validate_transaction_shape (tx : Transaction) : result unit PsktError :=
  if num_inputs tx =? 0 then Err NoInputs
  else if max_inputs (limits tx) <? num_inputs tx then Err TooManyInputs
  else if blen (tx_inputs tx) <? num_inputs tx then Err InvalidModel
  else if num_outputs tx =? 0 then Err NoOutputs
  else if MAX_OUTPUTS <? num_outputs tx then Err TooManyOutputs
  else if Z.min (max_payload_bytes (limits tx)) MAX_PAYLOAD_SIZE <? blen (payload tx) then Err PayloadTooLong
  else if REDEEM_POOL_SIZE <? redeem_pool_used tx then Err InvalidModel
  else Ok tt.

Definition validate_inputs (tx : Transaction) : result unit PsktError :=
  for_range (num_inputs tx) (fun input_index =>
    let input := default empty_input (get_at (tx_inputs tx) input_index) in
    if MAX_SCRIPT_SIZE <? spk_script_len (script_public_key (utxo_entry input)) then Err ScriptTooLong
    else let? _ := checked_redeem_bytes tx input_index in Ok tt).

Definition validate_outputs (tx : Transaction) : result unit PsktError :=
  try_fold (fun _ output =>
    if MAX_SCRIPT_SIZE <? spk_script_len (out_script_public_key output) then Err ScriptTooLong
    else if has_covenant output && (num_inputs tx <=? covenant_auth_input output) then Err InvalidInputIndex
    else Ok tt) tt (outputs tx).

Definition validate_base_transaction (tx : Transaction) : result unit PsktError :=
  let? _ := validate_transaction_shape tx in
  let? _ := transaction_amounts tx in
  let? _ := validate_inputs tx in
  validate_outputs tx.

Definition validate_transaction_for_review (tx : Transaction) : result unit PsktError := validate_base_transaction tx.

(** [seen_positions] as the set of the positions marked. *)
Definition validate_present_signature (slot : InputSig) (seen : gset Z) : result (gset Z) PsktError :=
  if negb (sg_present slot) then Err InvalidSignatureState
  else if negb (sg_sighash_type slot =? SigHashType.to_byte SigHashType.All) then Err InvalidSigHashType
  else if bool_decide (sg_pubkey_pos slot ∈ seen) then Err InvalidSignatureState
  else Ok ({[sg_pubkey_pos slot]} ∪ seen).

Definition validate_signature_slots (input : TransactionInput) : result unit PsktError :=
  let count := sig_count input in
  if MAX_SIGS_PER_INPUT <? count then Err TooManySignatures
  else
    let? _ := try_fold (fun seen slot_index =>
                let slot := default empty_sig (get_at (sigs input) slot_index) in
                if slot_index <? count then validate_present_signature slot seen
                else if sg_present slot then Err InvalidSignatureState
                else Ok seen) ∅ (seqZ 0 MAX_SIGS_PER_INPUT) in
    if negb (count =? 0)
       && negb (sighash_type input =? sg_sighash_type (default empty_sig (get_at (sigs input) 0)))
    then Err InvalidSignatureState
    else Ok tt.

Definition validate_partial_signed (tx : Transaction) : result unit PsktError :=
  let? _ := validate_base_transaction tx in
  for_range (num_inputs tx) (fun input_index =>
    let input := default empty_input (get_at (tx_inputs tx) input_index) in
    if negb (sighash_type input =? 0) && negb (sighash_type input =? SigHashType.to_byte SigHashType.All)
    then Err InvalidSigHashType
    else
      let? _ := validate_signature_slots input in
      let? _ := checked_redeem_bytes tx input_index in
      Ok tt).

(** ** [script.rs] of the KSPT module *)

Definition try_analyze_input_script (tx : Transaction) (input_index : Z) : option (ScriptType * option MultisigInfo) :=
  if num_inputs tx <=? input_index then None
  else
    input ← get_at (tx_inputs tx) input_index;
    let script := script_public_key (utxo_entry input) in
    script_bytes ← slice (spk_script script) 0 (spk_script_len script);
    let script_type := detect_script_type script_bytes (blen script_bytes) in
    if bool_decide (script_type = P2SH) && negb (redeem_script_len input =? 0) then
      match checked_redeem_bytes tx input_index with
      | Err _ => None
      | Ok redeem =>
          let multisig :=
            if bool_decide (detect_script_type redeem (blen redeem) = TxModel.Multisig)
            then parse_multisig_script redeem (blen redeem) else None in
          Some (P2SH, multisig)
      end
    else
      let multisig :=
        if bool_decide (script_type = TxModel.Multisig)
        then parse_multisig_script script_bytes (blen script_bytes) else None in
      Some (script_type, multisig).

Definition analyze_input_script (tx : Transaction) (input_index : Z) : ScriptType * option MultisigInfo :=
  default (Unknown_, None) (try_analyze_input_script tx input_index).

(** ** [signature_verification/mod.rs] *)

Module Verification.

Inductive SignatureValidationError :=
  | InvalidModel | InvalidSighash | InvalidBinding | DuplicateBinding | InvalidSignature.

Inductive SignatureSource := Kspt | StandardPskt.

Definition validate_covenant_execution_binding (input : TransactionInput) (selector_mask : Z)
  : result unit SignatureValidationError :=
  if negb (covenant_execution_present input) then Err InvalidBinding
  else if negb (Z.land (covenant_execution_true_mask input) (Z.lxor u16_max (covenant_execution_mask input)) =? 0)
  then Err InvalidBinding
  else if negb (covenant_execution_mask input =? selector_mask) then Err InvalidBinding
  else Ok tt.

Definition resolved_execution (tx : Transaction) (input_index : Z)
  : result (TransactionInput * Resolver.BranchResolution) SignatureValidationError :=
  let? input := ok_or (get_at (tx_inputs tx) input_index) InvalidModel in
  let? redeem := rmap_err (fun _ => InvalidModel) (checked_redeem_bytes tx input_index) in
  let? resolved := rmap_err (fun _ => InvalidBinding) (Resolver.resolve_covenant_branches redeem) in
  let? _ := validate_covenant_execution_binding input (Resolver.selector_mask resolved) in
  Ok (input, resolved).

Definition active (input : TransactionInput) (binding : Resolver.BranchKey) : bool :=
  Resolver.matches_selectors binding (covenant_execution_mask input) (covenant_execution_true_mask input).

(** At most sixteen keys resolve, so the count stays in [u8]. *)
Definition active_execution_key_count (input : TransactionInput) (resolved : Resolver.BranchResolution) : Z :=
  blen (List.filter (active input) (Resolver.keys resolved)).

Definition covenant_required_for_execution (tx : Transaction) (input_index : Z) : option Z :=
  match resolved_execution tx input_index with
  | Err _ => None
  | Ok (input, resolved) =>
      let count := active_execution_key_count input resolved in
      if (0 <? count) && (count <=? MAX_SIGS_PER_INPUT) then Some count else None
  end.

Definition required_for_input (tx : Transaction) (input_index : Z) : option Z :=
  match analyze_input_script tx input_index with
  | (P2PK, _) => Some 1
  | (TxModel.Multisig, Some info) | (P2SH, Some info) => Some (m info)
  | (P2SH, None) => covenant_required_for_execution tx input_index
  | _ => None
  end.

Definition covenant_position_matches_execution (tx : Transaction) (input_index position : Z)
  : result unit SignatureValidationError :=
  let? (input, resolved) := resolved_execution tx input_index in
  let? binding := rmap_err (fun _ => InvalidBinding) (Resolver.key_at resolved position) in
  if active input binding then Ok tt else Err InvalidBinding.

Definition p2pk_xonly_for_position (tx : Transaction) (input_index position : Z)
  : result (list Z) SignatureValidationError :=
  if negb (position =? 0) then Err InvalidBinding
  else
    let? input := ok_or (get_at (tx_inputs tx) input_index) InvalidModel in
    let spk := script_public_key (utxo_entry input) in
    let? script := ok_or (slice (spk_script spk) 0 (spk_script_len spk)) InvalidModel in
    ok_or (Standard.p2pk_xonly script) InvalidBinding.

Definition multisig_xonly_for_position (info : MultisigInfo) (position : Z) : result (list Z) SignatureValidationError :=
  ok_or (keys ← slice (pubkeys info) 0 (n info); get_at keys position) InvalidBinding.

Definition covenant_xonly_for_position (tx : Transaction) (input_index position : Z)
  : result (list Z) SignatureValidationError :=
  let? redeem := rmap_err (fun _ => InvalidModel) (checked_redeem_bytes tx input_index) in
  let? resolved := rmap_err (fun _ => InvalidBinding) (Resolver.resolve_covenant_branches redeem) in
  let? branch := rmap_err (fun _ => InvalidBinding) (Resolver.key_at resolved position) in
  Ok (Resolver.key branch).

Definition expected_xonly_for_position (tx : Transaction) (input_index position : Z)
  : result (list Z) SignatureValidationError :=
  match analyze_input_script tx input_index with
  | (P2PK, _) => p2pk_xonly_for_position tx input_index position
  | (TxModel.Multisig, Some info) | (P2SH, Some info) => multisig_xonly_for_position info position
  | (P2SH, None) => covenant_xonly_for_position tx input_index position
  | _ => Err InvalidBinding
  end.

Section verify.
Context (keyed : list Z -> list Z -> list Z) (schnorr_verify : list Z -> list Z -> list Z -> bool).

Definition verify_signature_bytes (tx : Transaction) (input_index position sighash_byte : Z) (signature : list Z)
  : result unit SignatureValidationError :=
  if negb (sighash_byte =? SigHashType.to_byte SigHashType.All) then Err InvalidSighash
  else
    let? public_key := expected_xonly_for_position tx input_index position in
    let? _ := match analyze_input_script tx input_index with
              | (P2SH, None) => covenant_position_matches_execution tx input_index position
              | _ => Ok tt
              end in
    let message := calculate_sighash keyed tx input_index SigHashType.All in
    if schnorr_verify public_key message signature then Ok tt else Err InvalidSignature.

Definition compressed_xonly (pubkey : list Z) : result (list Z) SignatureValidationError :=
  if negb (bool_decide (default 0 (get_at pubkey 0) ∈ [0x02; 0x03])) then Err InvalidBinding
  else ok_or (slice pubkey 1 33) InvalidBinding.

Definition position_for_p2pk_key (tx : Transaction) (input_index : Z) (key : list Z)
  : result Z SignatureValidationError :=
  let? expected := expected_xonly_for_position tx input_index 0 in
  if list_Z_eqb key expected then Ok 0 else Err InvalidBinding.

Definition position_for_multisig_key (info : MultisigInfo) (key : list Z) : result Z SignatureValidationError :=
  let? candidates := ok_or (slice (pubkeys info) 0 (n info)) InvalidModel in
  match list_find (fun candidate => candidate = key) candidates with
  | Some (position, _) => if Z.of_nat position <=? u8_max then Ok (Z.of_nat position) else Err InvalidBinding
  | None => Err InvalidBinding
  end.

Definition position_for_covenant_key (tx : Transaction) (input_index : Z) (key : list Z)
  : result Z SignatureValidationError :=
  let? (input, resolved) := resolved_execution tx input_index in
  rmap_err (fun _ => InvalidBinding)
    (Resolver.position_for_key_with_selectors resolved key (covenant_execution_mask input)
       (covenant_execution_true_mask input)).

Definition position_for_pskt_key (tx : Transaction) (input_index : Z) (pubkey : list Z)
  : result Z SignatureValidationError :=
  let? key := compressed_xonly pubkey in
  match analyze_input_script tx input_index with
  | (P2PK, _) => position_for_p2pk_key tx input_index key
  | (TxModel.Multisig, Some info) | (P2SH, Some info) => position_for_multisig_key info key
  | (P2SH, None) => position_for_covenant_key tx input_index key
  | _ => Err InvalidBinding
  end.

Definition mark_signature_position (seen : gset Z) (position : Z) : result (gset Z) SignatureValidationError :=
  if bool_decide (position ∈ seen) then Err DuplicateBinding else Ok ({[position]} ∪ seen).

(** One slot: the positions seen and the count so far. *)
Definition verify_kspt_slot (tx : Transaction) (input_index declared : Z) (state : gset Z * Z)
    (slot : Z * InputSig) : result (gset Z * Z) SignatureValidationError :=
  let '(seen, count) := state in
  let '(slot_index, slot) := slot in
  if declared <=? slot_index then if sg_present slot then Err InvalidModel else Ok (seen, count)
  else if negb (sg_present slot) then Err InvalidModel
  else
    let? seen := mark_signature_position seen (sg_pubkey_pos slot) in
    let? _ := verify_signature_bytes tx input_index (sg_pubkey_pos slot) (sg_sighash_type slot) (sg_signature slot) in
    Ok (seen, Z.min u8_max (count + 1)).

Definition verified_kspt_count (tx : Transaction) (input_index : Z) (input : TransactionInput)
  : result Z SignatureValidationError :=
  let declared := sig_count input in
  if MAX_SIGS_PER_INPUT <? declared then Err InvalidModel
  else
    let? (seen, count) := try_fold (verify_kspt_slot tx input_index declared) (∅, 0)
                            (imap (fun i slot => (Z.of_nat i, slot)) (sigs input)) in
    Ok count.

Definition verify_pskt_slot (tx : Transaction) (input_index declared : Z) (state : gset Z * Z)
    (slot : Z * IncomingPartialSig) : result (gset Z * Z) SignatureValidationError :=
  let '(seen, count) := state in
  let '(slot_index, slot) := slot in
  if declared <=? slot_index then if ps_present slot then Err InvalidModel else Ok (seen, count)
  else if negb (ps_present slot) then Err InvalidModel
  else
    let? position := position_for_pskt_key tx input_index (ps_pubkey slot) in
    let? seen := mark_signature_position seen position in
    let? input := ok_or (get_at (tx_inputs tx) input_index) InvalidModel in
    let? _ := verify_signature_bytes tx input_index position (sighash_type input) (ps_signature slot) in
    Ok (seen, Z.min u8_max (count + 1)).

Definition verified_pskt_count (tx : Transaction) (input_index : Z) (input : TransactionInput)
  : result Z SignatureValidationError :=
  let declared := incoming_partial_sigs_count input in
  if MAX_SIGS_PER_INPUT <? declared then Err InvalidModel
  else if negb (sighash_type input =? SigHashType.to_byte SigHashType.All) && negb (declared =? 0)
  then Err InvalidSighash
  else
    let? (seen, count) := try_fold (verify_pskt_slot tx input_index declared) (∅, 0)
                            (imap (fun i slot => (Z.of_nat i, slot)) (incoming_partial_sigs input)) in
    Ok count.

Definition verified_count (tx : Transaction) (input_index : Z) (source : SignatureSource)
  : result Z SignatureValidationError :=
  let? input := ok_or (get_at (tx_inputs tx) input_index) InvalidModel in
  match source with
  | Kspt => verified_kspt_count tx input_index input
  | StandardPskt => verified_pskt_count tx input_index input
  end.

(** One input of [status]: the valid and required signatures so far. *)
Definition status_input (tx : Transaction) (source : SignatureSource) (state : Z * Z) (input_index : Z) : Z * Z :=
  let '(present, required) := state in
  match required_for_input tx input_index with
  | None => (present, Z.min u32_max (required + 1))
  | Some required_input =>
      let required := Z.min u32_max (required + required_input) in
      match verified_count tx input_index source with
      | Err _ => (present, required)
      | Ok valid => (if valid <=? required_input then Z.min u32_max (present + valid) else present, required)
      end
  end.

Definition status (tx : Transaction) (source : SignatureSource) : Z * Z :=
  if (num_inputs tx =? 0) || (blen (tx_inputs tx) <? num_inputs tx) then (0, 0)
  else foldl (status_input tx source) (0, 0) (seqZ 0 (num_inputs tx)).

Definition kspt_status (tx : Transaction) : Z * Z := status tx Kspt.
Definition pskt_status (tx : Transaction) : Z * Z := status tx StandardPskt.

Definition input_fully_signed (tx : Transaction) (input_index : Z) : bool :=
  match required_for_input tx input_index, verified_count tx input_index Kspt with
  | Some required, Ok valid => valid =? required
  | _, _ => false
  end.

Definition kspt_is_fully_signed (tx : Transaction) : bool :=
  if (num_inputs tx =? 0) || (blen (tx_inputs tx) <? num_inputs tx) then false
  else forallb (input_fully_signed tx) (seqZ 0 (num_inputs tx)).

End verify.
End Verification.
