(* ===== verification/SigProofs.v ===== *)
(** * What a fully signed transaction proves

    The signature counts of [SigCheck] against their meaning: a transaction
    that [kspt_is_fully_signed] accepts carries, for every input, valid
    signatures over that input's own hash by the keys its script asks for. *)

From S2P Require Import Prelude NetworkId Script TxModel Sighash Branch BranchProofs SigCheck.
Import TxModel Verification.

Section verify.
Context (keyed : list Z -> list Z -> list Z) (schnorr_verify : list Z -> list Z -> list Z -> bool).
Context (tx : Transaction) (index : Z).

(** A slot of the input holds a signature for a position: it verifies, over
    this input's hash of the whole transaction, under the script's key there. *)
Definition signed (input : TransactionInput) (position : Z) : Prop :=
  exists slot key, slot ∈ sigs input /\ sg_present slot = true /\ sg_pubkey_pos slot = position /\
    sg_sighash_type slot = SigHashType.to_byte SigHashType.All /\
    expected_xonly_for_position tx index position = Ok key /\
    schnorr_verify key (calculate_sighash keyed tx index SigHashType.All) (sg_signature slot) = true.

(** The positions counted by a run over some slots. *)
Definition counted (slots : list InputSig) (position : Z) : Prop :=
  exists slot, slot ∈ slots /\ sg_present slot = true /\ sg_pubkey_pos slot = position /\
    verify_signature_bytes keyed schnorr_verify tx index position (sg_sighash_type slot) (sg_signature slot) = Ok tt.

Lemma counted_cons slot slots position : counted slots position -> counted (slot :: slots) position.
Proof. intros (s & Hs & H). exists s. split; [set_solver|done]. Qed.

Lemma slots_verified declared slots k seen0 count0 seen count :
  0 <= count0 -> count0 + blen slots <= u8_max ->
  try_fold (verify_kspt_slot keyed schnorr_verify tx index declared) (seen0, count0)
    (imap (fun i slot => (Z.of_nat (k + i), slot)) slots) = Ok (seen, count) ->
  exists positions, NoDup positions /\ (forall p, p ∈ positions -> p ∉ seen0) /\
    Forall (counted slots) positions /\ count = count0 + blen positions.
Proof.
  revert k seen0 count0. induction slots as [|slot slots IH]; intros k seen0 count0 H0 Hmax.
  { intros [= <- <-]. exists []. split_and!; [constructor|set_solver|constructor|autorewrite with blen; lia]. }
  rewrite blen_cons in Hmax. pose proof (blen_nonneg slots). cbn [imap try_fold].
  intros ([seen1 count1] & Hslot & Hrest)%rbind_Ok_inv.
  assert (Hrest' : try_fold (verify_kspt_slot keyed schnorr_verify tx index declared) (seen1, count1)
            (imap (fun i slot => (Z.of_nat (S k + i), slot)) slots) = Ok (seen, count)).
  { rewrite <- Hrest. f_equal. apply imap_ext. intros i s _. cbn. do 2 f_equal. lia. }
  clear Hrest. unfold verify_kspt_slot in Hslot. cbn beta iota in Hslot.
  destruct (declared <=? Z.of_nat (k + 0)).
  { destruct (sg_present slot) eqn:Hp; [done|]. injection Hslot as <- <-.
    apply IH in Hrest' as (ps & Hnd & Hfresh & Hall & ->); [|lia|lia].
    exists ps. split_and!; try done. by apply (Forall_impl _ _ _ Hall), counted_cons. }
  destruct (sg_present slot) eqn:Hp; [cbn [negb] in Hslot|done].
  apply rbind_Ok_inv in Hslot as (seen2 & Hmark & Hslot). apply rbind_Ok_inv in Hslot as ([] & Hver & Hslot).
  unfold mark_signature_position in Hmark. case_bool_decide as Hin; [done|]. injection Hmark as <-.
  injection Hslot as <- <-. apply IH in Hrest' as (ps & Hnd & Hfresh & Hall & ->); [|lia|lia].
  exists (sg_pubkey_pos slot :: ps). split_and!.
  - constructor; [|done]. intros Hbad. apply Hfresh in Hbad. set_solver.
  - intros p Hp'. apply elem_of_cons in Hp' as [->|Hp']; [done|]. apply Hfresh in Hp'. set_solver.
  - constructor; [exists slot; split_and!; [set_solver|done..]|].
    by apply (Forall_impl _ _ _ Hall), counted_cons.
  - rewrite blen_cons. unfold u8_max in *. lia.
Qed.

Lemma verified_signed input position :
  counted (sigs input) position -> signed input position.
Proof.
  intros (slot & Hin & Hp & Hpos & Hver). unfold verify_signature_bytes in Hver.
  destruct (Z.eqb_spec (sg_sighash_type slot) (SigHashType.to_byte SigHashType.All)); [cbn [negb] in Hver|done].
  apply rbind_Ok_inv in Hver as (key & Hkey & Hver). apply rbind_Ok_inv in Hver as ([] & _ & Hver).
  exists slot, key. split_and!; try done. by destruct (schnorr_verify key _ _).
Qed.

(** A counted position of a covenant is one its selectors reach. *)
Lemma verified_reached slots position :
  counted slots position -> analyze_input_script tx index = (P2SH, None) ->
  exists input resolved binding, resolved_execution tx index = Ok (input, resolved) /\
    Resolver.key_at resolved position = Ok binding /\ active input binding = true.
Proof.
  intros (slot & _ & _ & _ & Hver) Hscript. unfold verify_signature_bytes in Hver. rewrite Hscript in Hver.
  destruct (negb _); [done|]. apply rbind_Ok_inv in Hver as (key & _ & Hver).
  apply rbind_Ok_inv in Hver as ([] & Hpos & _). unfold covenant_position_matches_execution in Hpos.
  apply rbind_Ok_inv in Hpos as ([input resolved] & Hres & Hpos).
  apply rbind_Ok_inv in Hpos as (binding & Hkey & Hpos).
  exists input, resolved, binding. split_and!; [done| |by destruct (active input binding)].
  by destruct (Resolver.key_at resolved position); [injection Hkey as ->|].
Qed.

(** The positions with an active key, as [positions_reached] lists them. *)
Lemma reached_positions resolved mask truth position binding :
  Resolver.key_at resolved position = Ok binding -> Resolver.matches_selectors binding mask truth = true ->
  position ∈ positions_reached resolved mask truth.
Proof.
  unfold Resolver.key_at, positions_reached. intros Hkey%ok_or_Ok Hmatch. unfold get_at in Hkey.
  destruct (Z.leb_spec 0 position); [|done].
  apply list_elem_of_In, in_map_iff. exists (position, binding). split; [done|].
  apply list_elem_of_In, list_elem_of_filter. split; [done|]. apply elem_of_lookup_imap.
  exists (Z.to_nat position), binding. split; [|done]. f_equal. lia.
Qed.

Lemma length_reached resolved mask truth :
  length (positions_reached resolved mask truth)
    = length (List.filter (fun binding => Resolver.matches_selectors binding mask truth) (Resolver.keys resolved)).
Proof.
  unfold positions_reached. rewrite length_map.
  enough (Hf : forall f : nat -> Z,
    length (filter (fun c => Resolver.matches_selectors c.2 mask truth = true)
              (imap (fun i key => (f i, key)) (Resolver.keys resolved)))
    = length (List.filter (fun binding => Resolver.matches_selectors binding mask truth) (Resolver.keys resolved)))
    by apply Hf.
  induction (Resolver.keys resolved) as [|key keys IH]; intros f; [done|].
  cbn [imap List.filter]. rewrite filter_cons. cbn [snd].
  destruct (Resolver.matches_selectors key mask truth).
  - rewrite decide_True by done. cbn [length]. f_equal. apply (IH (f ∘ S)).
  - rewrite decide_False by done. apply (IH (f ∘ S)).
Qed.

(** Distinct positions, each with a valid signature, that satisfy the input's
    script: its one key, its threshold of keys, or all the keys on the path of
    the covenant's selectors, which are those its witness asks for. *)
Definition completely_signed (input : TransactionInput) : Prop := exists positions,
  NoDup positions /\ Forall (signed input) positions /\
  match analyze_input_script tx index with
  | (P2PK, _) => positions = [0]
  | (TxModel.Multisig, Some info) | (P2SH, Some info) => blen positions = m info
  | (P2SH, None) => exists redeem resolved,
      let mask := covenant_execution_mask input in
      let truth := covenant_execution_true_mask input in
      checked_redeem_bytes tx index = Ok redeem /\ Resolver.resolve_covenant_branches redeem = Ok resolved /\
      positions ≡ₚ positions_reached resolved mask truth /\
      forall items, Tracer.trace_witness redeem mask truth = Ok items -> positions ≡ₚ signatures items
  | _ => False
  end.

Lemma resolved_execution_inv input resolved :
  resolved_execution tx index = Ok (input, resolved) ->
  get_at (tx_inputs tx) index = Some input /\ exists redeem, checked_redeem_bytes tx index = Ok redeem /\
    Resolver.resolve_covenant_branches redeem = Ok resolved.
Proof.
  unfold resolved_execution. intros (i & Hi%ok_or_Ok & (redeem & Hr & (res & Hres & (u & _ & Heq)%rbind_Ok_inv)%rbind_Ok_inv)%rbind_Ok_inv)%rbind_Ok_inv.
  injection Heq as -> ->. split; [done|]. exists redeem.
  destruct (checked_redeem_bytes tx index); [injection Hr as ->|done].
  split; [done|]. by destruct (Resolver.resolve_covenant_branches redeem); [injection Hres as ->|].
Qed.

Lemma redeem_typed redeem :
  typed_tx tx -> checked_redeem_bytes tx index = Ok redeem -> bytes_ok redeem /\ blen redeem <= REDEEM_POOL_SIZE.
Proof.
  intros (_ & Hin & _ & _ & _ & _ & _ & _ & _ & _ & [Hpool Hlen] & _). unfold checked_redeem_bytes.
  destruct (_ || _); [done|]. set (input := default empty_input _).
  assert (Hi : typed_tx_input input) by (apply get_default_typed; [done|apply typed_empty_input]).
  destruct Hi as (_ & _ & _ & _ & _ & _ & _ & [Hscript Hslen] & _).
  destruct (_ =? 0); [intros [= <-]; split; [constructor|by cbn]|]. destruct (_ <? _); [done|].
  destruct (redeem_in_pool input).
  - unfold checked_pool_redeem_bytes. intros (e & He & Hrest)%rbind_Ok_inv.
    destruct (_ || _); [done|]. destruct (_ <? _); [done|]. injection Hrest as <-.
    split; [by apply slice_typed|]. rewrite <- Hlen. apply slice_default_len.
  - unfold checked_inline_redeem_bytes. intros Hs%ok_or_Ok.
    pose proof (slice_typed _ _ 0 (redeem_script_len input) Hscript) as Hb.
    pose proof (slice_default_len (redeem_script input) 0 (redeem_script_len input)) as Hl.
    rewrite Hs in Hb, Hl. cbn in *. unfold MAX_SCRIPT_SIZE, REDEEM_POOL_SIZE in *. split; [done|lia].
Qed.

(** The positions that fill a covenant's requirement are the active ones. *)
Lemma covenant_complete input positions required :
  typed_tx tx -> NoDup positions -> Forall (counted (sigs input)) positions ->
  analyze_input_script tx index = (P2SH, None) -> get_at (tx_inputs tx) index = Some input ->
  covenant_required_for_execution tx index = Some required -> blen positions = required ->
  exists redeem resolved,
    let mask := covenant_execution_mask input in
    let truth := covenant_execution_true_mask input in
    checked_redeem_bytes tx index = Ok redeem /\ Resolver.resolve_covenant_branches redeem = Ok resolved /\
    positions ≡ₚ positions_reached resolved mask truth /\
    forall items, Tracer.trace_witness redeem mask truth = Ok items -> positions ≡ₚ signatures items.
Proof.
  intros Htx Hnd Hall Hscript Hget Hreq Hlen. unfold covenant_required_for_execution in Hreq.
  destruct (resolved_execution tx index) as [[input' resolved]|] eqn:Hexec; [|done].
  destruct (resolved_execution_inv _ _ Hexec) as (Hget' & redeem & Hredeem & Hres).
  rewrite Hget in Hget'. injection Hget' as <-. exists redeem, resolved. cbv zeta.
  set (mask := covenant_execution_mask input). set (truth := covenant_execution_true_mask input).
  assert (Hperm : positions ≡ₚ positions_reached resolved mask truth).
  { apply submseteq_length_Permutation.
    - apply NoDup_submseteq; [done|]. intros p Hp. rewrite Forall_forall in Hall. apply Hall in Hp.
      destruct (verified_reached _ _ Hp Hscript) as (i & r & binding & Hexec' & Hkey & Hactive).
      rewrite Hexec in Hexec'. injection Hexec' as <- <-. by eapply reached_positions.
    - rewrite length_reached. destruct (_ && _); [|done]. injection Hreq as <-.
      unfold active_execution_key_count, active, blen in Hlen. unfold mask, truth. lia. }
  split_and!; try done. intros items Htrace.
  destruct (redeem_typed _ Htx Hredeem) as [Hb Hl].
  destruct (trace_signatures redeem mask truth resolved items) as [_ ->]; try done.
  unfold REDEEM_POOL_SIZE, usize_max, u64_max in *. lia.
Qed.

Lemma single_key input positions info :
  Forall (signed input) positions -> analyze_input_script tx index = (P2PK, info) -> blen positions = 1 ->
  positions = [0].
Proof.
  intros Hsigned Hscript Hlen. destruct positions as [|p [|q ps]]; autorewrite with blen in Hlen; [lia| |].
  2:{ pose proof (blen_nonneg ps). lia. }
  apply Forall_singleton in Hsigned as (slot & key & _ & _ & _ & _ & Hkey & _).
  unfold expected_xonly_for_position in Hkey. rewrite Hscript in Hkey. unfold p2pk_xonly_for_position in Hkey.
  by destruct (Z.eqb_spec p 0) as [->|].
Qed.

Lemma input_completely_signed :
  typed_tx tx -> input_fully_signed keyed schnorr_verify tx index = true ->
  exists input, get_at (tx_inputs tx) index = Some input /\ completely_signed input.
Proof.
  intros Htx. unfold input_fully_signed. destruct (required_for_input tx index) as [required|] eqn:Hreq; [|done].
  destruct (verified_count _ _ _ _ _) as [valid|] eqn:Hvalid; [|done]. intros ->%Z.eqb_eq.
  apply rbind_Ok_inv in Hvalid as (input & Hget%ok_or_Ok & Hcount). unfold verified_kspt_count in Hcount.
  destruct (_ <? _); [done|]. apply rbind_Ok_inv in Hcount as ([seen count] & Hslots & [= ->]).
  assert (Hfive : blen (sigs input) = MAX_SIGS_PER_INPUT).
  { destruct Htx as (_ & Hin & _). apply get_at_Some in Hget as (l1 & l2 & Heq & _). rewrite Heq in Hin.
    apply Forall_app in Hin as [_ [Hi _]%Forall_cons]. by destruct Hi as (_ & _ & _ & _ & [_ Hfive] & _). }
  apply (slots_verified _ _ 0) in Hslots as (positions & Hnd & _ & Hall & Hlen);
    [|done|unfold MAX_SIGS_PER_INPUT, u8_max in *; lia].
  exists input. split; [done|]. exists positions. split; [done|].
  assert (Hsigned : Forall (signed input) positions) by (apply (Forall_impl _ _ _ Hall), verified_signed).
  split; [done|]. unfold required_for_input in Hreq.
  destruct (analyze_input_script tx index) as [[] info] eqn:Hscript; try (destruct info as [info|]); try done;
    try (injection Hreq as <-).
  - apply (single_key input positions (Some info)); [done|done|lia].
  - apply (single_key input positions None); [done|done|lia].
  - lia.
  - apply (covenant_complete input positions required); try done; lia.
  - lia.
Qed.
End verify.

(** C5: A transaction that is reported fully signed is signed: every one of its
    inputs exists and holds signatures at distinct positions, each valid under
    the script's key at its position over the hash of everything that input
    signs, that satisfy the script: the key of a pay-to-key script, as many
    keys as a multisig threshold, and for a covenant all the keys on the path
    its execution selectors take, no other ones, which are exactly the
    signatures the covenant's witness will ask for. *)
Theorem fully_signed_sound (keyed : list Z -> list Z -> list Z) (schnorr_verify : list Z -> list Z -> list Z -> bool)
    (tx : Transaction) :
  typed_tx tx -> kspt_is_fully_signed keyed schnorr_verify tx = true ->
  0 < num_inputs tx <= blen (tx_inputs tx) /\
  forall index, 0 <= index < num_inputs tx ->
    exists input, get_at (tx_inputs tx) index = Some input /\ completely_signed keyed schnorr_verify tx index input.
Proof.
  intros Htx. unfold kspt_is_fully_signed. destruct (_ || _) eqn:Hcount; [done|].
  apply orb_false_iff in Hcount as [Hzero%Z.eqb_neq Hlen%Z.ltb_ge].
  assert (Hn : u64_ok (num_inputs tx)) by (by destruct Htx as (_ & _ & Hn & _)). unfold u64_ok in Hn.
  intros Hall. split; [lia|]. intros index Hindex. apply input_completely_signed; [done|].
  rewrite forallb_forall in Hall. apply Hall, list_elem_of_In, elem_of_seqZ. lia.
Qed.

(** ** A signed transaction *)

(** A stand-in for signature verification: the signature starts with the key. *)
Definition toy_verify (key message signature : list Z) : bool := list_Z_eqb (take 32 signature) key.

Definition pad (n : Z) (l : list Z) : list Z := l ++ zeros (n - blen l).
Definition spk_of (script : list Z) : ScriptPublicKey :=
  {| spk_version := 0; spk_script := pad MAX_SCRIPT_SIZE script; spk_script_len := blen script |}.
Definition sig_of (position key_byte : Z) : InputSig := {|
  sg_signature := replicate 64 key_byte; sg_sighash_type := 1; sg_pubkey_pos := position; sg_present := true;
  sg_pubkey_compressed := zeros 33 |}.

Definition signed_input (script redeem : list Z) (sig : InputSig) (mask truth : Z) : TransactionInput := {|
  previous_outpoint := {| o_transaction_id := replicate 32 0x11; o_index := 4 |};
  sequence := 5;
  sig_op_count := 1;
  utxo_entry := {| amount := 60000; script_public_key := spk_of script; block_daa_score := 0 |};
  sigs := sig :: replicate 4 empty_sig;
  sig_count := 1;
  sighash_type := 1;
  redeem_script := pad MAX_SCRIPT_SIZE redeem;
  redeem_script_len := blen redeem;
  redeem_in_pool := false;
  redeem_script_offset := 0;
  incoming_partial_sigs := replicate 5 empty_partial_sig;
  incoming_partial_sigs_count := 0;
  has_derivation_hint := true;
  derivation_branch := 1;
  derivation_index := 7;
  ms45_hint := no_hint;
  covenant_execution_present := negb (bool_decide (redeem = []));
  covenant_execution_mask := mask;
  covenant_execution_true_mask := truth;
|}.

Definition sample_tx : Transaction := {|
  tx_version := 1;
  tx_inputs :=
    [signed_input (Standard.p2pk_script (replicate 32 7)) [] (sig_of 0 7) 0 0;
     signed_input (Standard.p2sh_script (replicate 32 9)) sample_branches (sig_of 1 0xb2) 3 2];
  num_inputs := 2;
  tx_outputs :=
    {| value := 100000; out_script_public_key := spk_of (Standard.p2pk_script (replicate 32 8)); has_covenant := true;
       covenant_auth_input := 1; covenant_id := replicate 32 6; out_derivation_branch := 0; out_derivation_index := 0;
       out_has_derivation_hint := false; out_ms45_hint := no_hint |} :: replicate 7 empty_output;
  num_outputs := 1;
  tx_network := KaspaNetwork.Mainnet;
  locktime := 77;
  subnetwork_id := SUBNETWORK_ID_NATIVE;
  gas := 0;
  payload := [1; 2; 3];
  stealth_tweak := zeros 32;
  has_stealth_tweak := false;
  redeem_pool := zeros REDEEM_POOL_SIZE;
  redeem_pool_used := 0;
  limits := FORMAT;
|}.

Lemma sample_typed : typed_tx sample_tx.
Proof. by_decide. Qed.

Lemma fully_signed_sound_witness :
  0 < num_inputs sample_tx <= blen (tx_inputs sample_tx) /\
  exists input, get_at (tx_inputs sample_tx) 1 = Some input /\
    completely_signed (fun _ => toy_hash) toy_verify sample_tx 1 input.
Proof.
  destruct (fully_signed_sound (fun _ => toy_hash) toy_verify sample_tx sample_typed) as [Hn Hall];
    [vm_compute; reflexivity|].
  split; [exact Hn|]. apply Hall. vm_compute. split; [discriminate|reflexivity].
Defined.

(** A signature without outputs does not notice that they changed. *)
Lemma sighash_binds_witness :
  let other_tx := set_outputs (replicate 8 empty_output) sample_tx in
  commitment sample_tx 0 SigHashType.None_ = commitment other_tx 0 SigHashType.None_ \/
  Exists (fun pair => clash (fun _ => toy_hash) pair.1 pair.2)
    (combine (hashed_parts (fun _ => toy_hash) sample_tx 0 SigHashType.None_)
             (hashed_parts (fun _ => toy_hash) other_tx 0 SigHashType.None_)).
Proof.
  apply (sighash_binds (fun _ => toy_hash) (fun _ => toy_hash_size) sample_tx (set_outputs (replicate 8 empty_output) sample_tx));
    [apply typed_source; by_decide|apply typed_source; by_decide|vm_compute; reflexivity].
Defined.
