(* ===== verification/KsptCodec.v ===== *)
(** * The KSPT codec of the transaction model

    [src/src/transaction/interchange/kspt/codec]: the transaction as a source
    of the wire encoder ([source.rs]) and as a sink of the wire decoder
    ([sink.rs]), and the compact envelope over both ([partial_signed.rs]); and
    the signature response of [kssn.rs]. *)

From S2P Require Import Prelude NetworkId Script TxModel Sighash KsptModel KsptWire SigCheck.
Import TxModel.

(** ** [source.rs] *)

Definition ms45 (hint : Ms45Hint) : option KsptModel.Ms45Derivation :=
  if negb (h_present hint) then None
  else Some {| KsptModel.cosigner := h_cosigner hint; KsptModel.chain := h_chain hint;
               KsptModel.ms_index := h_index hint |}.

Definition derivation (present : bool) (branch index : Z) : option KsptModel.Derivation :=
  if negb present then None else Some {| KsptModel.branch := branch; KsptModel.d_index := index |}.

Definition input_at (tx : Transaction) (index : Z) : TransactionInput :=
  default empty_input (get_at (tx_inputs tx) index).
Definition output_at (tx : Transaction) (index : Z) : TransactionOutput :=
  default empty_output (get_at (tx_outputs tx) index).

Definition source_input (tx : Transaction) (index : Z) : KsptModel.Input :=
  let input := input_at tx index in
  {| KsptModel.previous_tx_id := o_transaction_id (previous_outpoint input);
     KsptModel.previous_index := o_index (previous_outpoint input);
     KsptModel.in_amount := amount (utxo_entry input);
     KsptModel.sequence := sequence input;
     KsptModel.sig_op_count := sig_op_count input;
     KsptModel.in_script_version := spk_version (script_public_key (utxo_entry input));
     KsptModel.in_script := script_bytes (script_public_key (utxo_entry input)) |}.

Definition source_signature (tx : Transaction) (input slot : Z) : KsptModel.Signature :=
  let slot := default empty_sig (get_at (sigs (input_at tx input)) slot) in
  {| KsptModel.sig_position := sg_pubkey_pos slot; KsptModel.sighash := sg_sighash_type slot;
     KsptModel.sig_bytes := sg_signature slot |}.

Definition source_redeem (tx : Transaction) (input : Z) : list Z :=
  match checked_redeem_bytes tx input with Ok bytes => bytes | Err _ => [] end.

Definition source_output (tx : Transaction) (index : Z) : KsptModel.Output :=
  let output := output_at tx index in
  {| KsptModel.out_amount := value output;
     KsptModel.out_script_version := spk_version (out_script_public_key output);
     KsptModel.out_script := script_bytes (out_script_public_key output) |}.

Section source.
Context (keyed : list Z -> list Z -> list Z) (schnorr_verify : list Z -> list Z -> list Z -> bool).

Definition is_fully_signed (tx : Transaction) : bool :=
  Verification.kspt_is_fully_signed keyed schnorr_verify tx.

Definition source_global (tx : Transaction) : KsptModel.Global := {|
  KsptModel.g_flags := if is_fully_signed tx then KsptModel.FLAG_SIGNED_OR_COMPLETE else 0;
  KsptModel.g_version := tx_version tx;
  KsptModel.g_input_count := num_inputs tx mod 2 ^ 32;
  KsptModel.g_output_count := num_outputs tx mod 2 ^ 8;
  KsptModel.g_locktime := locktime tx;
  KsptModel.g_subnetwork_id := subnetwork_id tx;
  KsptModel.g_gas := gas tx;
  KsptModel.g_payload := payload tx |}.

#[export] Instance TransactionSource : KsptModel.EncodeSource Transaction := {|
  KsptModel.global := source_global;
  KsptModel.input := source_input;
  KsptModel.signature_count tx input := sig_count (input_at tx input);
  KsptModel.signature := source_signature;
  KsptModel.redeem := source_redeem;
  KsptModel.output := source_output;
  KsptModel.network tx := KaspaNetwork.discriminant (tx_network tx);
  KsptModel.stealth tx := if has_stealth_tweak tx then Some (stealth_tweak tx) else None;
  KsptModel.input_derivation tx index :=
    let input := input_at tx index in
    derivation (has_derivation_hint input) (derivation_branch input) (derivation_index input);
  KsptModel.output_derivation tx index :=
    let output := output_at tx index in
    derivation (out_has_derivation_hint output) (out_derivation_branch output) (out_derivation_index output);
  KsptModel.input_ms45 tx index := ms45 (ms45_hint (input_at tx index));
  KsptModel.output_ms45 tx index := ms45 (out_ms45_hint (output_at tx index));
  KsptModel.covenant tx index :=
    let output := output_at tx index in
    if has_covenant output
    then Some {| KsptModel.authorizing_input := covenant_auth_input output;
                 KsptModel.covenant_id := covenant_id output |} else None;
  KsptModel.covenant_execution tx index :=
    let input := input_at tx index in
    if covenant_execution_present input
    then Some {| KsptModel.supplied_mask := covenant_execution_mask input;
                 KsptModel.supplied_true_mask := covenant_execution_true_mask input |} else None |}.
End source.

(** ** [sink.rs] *)

Abbreviation SinkRun := (Comp Transaction (Fault PsktError) unit).

Definition ms45_hint_of (value : KsptModel.Ms45Derivation) : Ms45Hint := {|
  h_present := true; h_cosigner := KsptModel.cosigner value; h_chain := KsptModel.chain value;
  h_index := KsptModel.ms_index value |}.

(** A script set to [bytes]: the array past them keeps its content. *)
Definition fill_script (version : Z) (bytes : list Z) (script : ScriptPublicKey) : option ScriptPublicKey :=
  array ← copy_into (spk_script script) 0 bytes;
  Some {| spk_version := version; spk_script := array; spk_script_len := blen bytes |}.

Definition set_header (value : KsptModel.Global) (tx : Transaction) : Transaction := {|
  tx_version := KsptModel.g_version value; tx_inputs := tx_inputs tx; num_inputs := KsptModel.g_input_count value;
  tx_outputs := tx_outputs tx; num_outputs := KsptModel.g_output_count value; tx_network := tx_network tx;
  locktime := KsptModel.g_locktime value; subnetwork_id := KsptModel.g_subnetwork_id value;
  gas := KsptModel.g_gas value; payload := payload tx; stealth_tweak := stealth_tweak tx;
  has_stealth_tweak := has_stealth_tweak tx; redeem_pool := redeem_pool tx;
  redeem_pool_used := redeem_pool_used tx; limits := limits tx |}.

Definition sink_global (value : KsptModel.Global) : SinkRun :=
  if KsptModel.g_input_count value =? 0 then throw (Fails NoInputs)
  else if KsptModel.g_output_count value =? 0 then throw (Fails NoOutputs)
  else
    let* _ := map_err (fun _ => Fails SigCheck.TooManyInputs) (ensure_input_slots (KsptModel.g_input_count value)) in
    let* _ := fun tx => (Ok tt, set_header value tx) in
    map_err (fun _ => Fails StorageExhausted) (set_payload (KsptModel.g_payload value)).

Definition fill_input (value : KsptModel.Input) (signature_count : Z) (i : TransactionInput) : option TransactionInput :=
  script ← fill_script (KsptModel.in_script_version value) (KsptModel.in_script value)
             (script_public_key (utxo_entry i));
  Some {|
    previous_outpoint := {| o_transaction_id := KsptModel.previous_tx_id value;
                            o_index := KsptModel.previous_index value |};
    sequence := KsptModel.sequence value; sig_op_count := KsptModel.sig_op_count value;
    utxo_entry := {| amount := KsptModel.in_amount value; script_public_key := script;
                     block_daa_score := block_daa_score (utxo_entry i) |};
    sigs := sigs i; sig_count := signature_count; sighash_type := SigHashType.to_byte SigHashType.All;
    redeem_script := redeem_script i; redeem_script_len := redeem_script_len i; redeem_in_pool := redeem_in_pool i;
    redeem_script_offset := redeem_script_offset i; incoming_partial_sigs := incoming_partial_sigs i;
    incoming_partial_sigs_count := incoming_partial_sigs_count i; has_derivation_hint := has_derivation_hint i;
    derivation_branch := derivation_branch i; derivation_index := derivation_index i; ms45_hint := ms45_hint i;
    covenant_execution_present := covenant_execution_present i;
    covenant_execution_mask := covenant_execution_mask i;
    covenant_execution_true_mask := covenant_execution_true_mask i |}.

Definition sink_input (index : Z) (value : KsptModel.Input) (signature_count : Z) : SinkRun :=
  change_input index (fill_input value signature_count).

Definition set_sigs (sigs : list InputSig) (i : TransactionInput) : TransactionInput := {|
  previous_outpoint := previous_outpoint i; sequence := sequence i; sig_op_count := sig_op_count i;
  utxo_entry := utxo_entry i; sigs := sigs; sig_count := sig_count i; sighash_type := sighash_type i;
  redeem_script := redeem_script i; redeem_script_len := redeem_script_len i; redeem_in_pool := redeem_in_pool i;
  redeem_script_offset := redeem_script_offset i; incoming_partial_sigs := incoming_partial_sigs i;
  incoming_partial_sigs_count := incoming_partial_sigs_count i; has_derivation_hint := has_derivation_hint i;
  derivation_branch := derivation_branch i; derivation_index := derivation_index i; ms45_hint := ms45_hint i;
  covenant_execution_present := covenant_execution_present i;
  covenant_execution_mask := covenant_execution_mask i;
  covenant_execution_true_mask := covenant_execution_true_mask i |}.

Definition sink_signature (input slot : Z) (value : KsptModel.Signature) : SinkRun :=
  if negb (KsptModel.sighash value =? SigHashType.to_byte SigHashType.All) then throw (Fails InvalidSigHashType)
  else change_input input (fun i =>
    old ← get_at (sigs i) slot;
    Some (set_sigs (<[Z.to_nat slot := {|
      sg_signature := KsptModel.sig_bytes value; sg_sighash_type := KsptModel.sighash value;
      sg_pubkey_pos := KsptModel.sig_position value; sg_present := true;
      sg_pubkey_compressed := sg_pubkey_compressed old |}]> (sigs i)) i)).

(** A storage error of [store_redeem]; its panics stay panics. *)
Definition storage_fault (fault : Fault TransactionStorageError) : Fault PsktError :=
  match fault with Fails _ => Fails ScriptTooLong | Panics => Panics end.

Definition sink_redeem (input : Z) (value : list Z) : SinkRun :=
  if bool_decide (value = []) then ret tt else map_err storage_fault (store_redeem input value).

Definition sink_output (index : Z) (v : KsptModel.Output) : SinkRun :=
  change_output index (fun o =>
    script ← fill_script (KsptModel.out_script_version v) (KsptModel.out_script v) (out_script_public_key o);
    Some {| value := KsptModel.out_amount v; out_script_public_key := script; has_covenant := has_covenant o;
            covenant_auth_input := covenant_auth_input o; covenant_id := covenant_id o;
            out_derivation_branch := out_derivation_branch o; out_derivation_index := out_derivation_index o;
            out_has_derivation_hint := out_has_derivation_hint o; out_ms45_hint := out_ms45_hint o |}).

Definition put_network (network : KaspaNetwork.KaspaNetwork) (tx : Transaction) : Transaction := {|
  tx_version := tx_version tx; tx_inputs := tx_inputs tx; num_inputs := num_inputs tx; tx_outputs := tx_outputs tx;
  num_outputs := num_outputs tx; tx_network := network; locktime := locktime tx;
  subnetwork_id := subnetwork_id tx; gas := gas tx; payload := payload tx; stealth_tweak := stealth_tweak tx;
  has_stealth_tweak := has_stealth_tweak tx; redeem_pool := redeem_pool tx;
  redeem_pool_used := redeem_pool_used tx; limits := limits tx |}.

Definition sink_network (code : Z) : SinkRun := fun tx =>
  match KaspaNetwork.from_wire code with
  | None => (Err (Fails InvalidTrailer), tx)
  | Some network => (Ok tt, put_network network tx)
  end.

Definition put_stealth (tweak : list Z) (tx : Transaction) : Transaction := {|
  tx_version := tx_version tx; tx_inputs := tx_inputs tx; num_inputs := num_inputs tx; tx_outputs := tx_outputs tx;
  num_outputs := num_outputs tx; tx_network := tx_network tx; locktime := locktime tx;
  subnetwork_id := subnetwork_id tx; gas := gas tx; payload := payload tx; stealth_tweak := tweak;
  has_stealth_tweak := true; redeem_pool := redeem_pool tx;
  redeem_pool_used := redeem_pool_used tx; limits := limits tx |}.

Definition sink_stealth (tweak : list Z) : SinkRun := fun tx => (Ok tt, put_stealth tweak tx).

Definition set_derivation (v : KsptModel.Derivation) (i : TransactionInput) : TransactionInput := {|
  previous_outpoint := previous_outpoint i; sequence := sequence i; sig_op_count := sig_op_count i;
  utxo_entry := utxo_entry i; sigs := sigs i; sig_count := sig_count i; sighash_type := sighash_type i;
  redeem_script := redeem_script i; redeem_script_len := redeem_script_len i; redeem_in_pool := redeem_in_pool i;
  redeem_script_offset := redeem_script_offset i; incoming_partial_sigs := incoming_partial_sigs i;
  incoming_partial_sigs_count := incoming_partial_sigs_count i; has_derivation_hint := true;
  derivation_branch := KsptModel.branch v; derivation_index := KsptModel.d_index v; ms45_hint := ms45_hint i;
  covenant_execution_present := covenant_execution_present i;
  covenant_execution_mask := covenant_execution_mask i;
  covenant_execution_true_mask := covenant_execution_true_mask i |}.

Definition sink_input_derivation (input : Z) (v : KsptModel.Derivation) : SinkRun :=
  change_input input (fun i => Some (set_derivation v i)).

Definition set_out_derivation (v : KsptModel.Derivation) (o : TransactionOutput) : TransactionOutput := {|
  value := value o; out_script_public_key := out_script_public_key o; has_covenant := has_covenant o;
  covenant_auth_input := covenant_auth_input o; covenant_id := covenant_id o;
  out_derivation_branch := KsptModel.branch v; out_derivation_index := KsptModel.d_index v;
  out_has_derivation_hint := true; out_ms45_hint := out_ms45_hint o |}.

Definition sink_output_derivation (output : Z) (v : KsptModel.Derivation) : SinkRun :=
  change_output output (fun o => Some (set_out_derivation v o)).

Definition set_ms45 (hint : Ms45Hint) (i : TransactionInput) : TransactionInput := {|
  previous_outpoint := previous_outpoint i; sequence := sequence i; sig_op_count := sig_op_count i;
  utxo_entry := utxo_entry i; sigs := sigs i; sig_count := sig_count i; sighash_type := sighash_type i;
  redeem_script := redeem_script i; redeem_script_len := redeem_script_len i; redeem_in_pool := redeem_in_pool i;
  redeem_script_offset := redeem_script_offset i; incoming_partial_sigs := incoming_partial_sigs i;
  incoming_partial_sigs_count := incoming_partial_sigs_count i; has_derivation_hint := has_derivation_hint i;
  derivation_branch := derivation_branch i; derivation_index := derivation_index i; ms45_hint := hint;
  covenant_execution_present := covenant_execution_present i;
  covenant_execution_mask := covenant_execution_mask i;
  covenant_execution_true_mask := covenant_execution_true_mask i |}.

Definition sink_input_ms45 (input : Z) (v : KsptModel.Ms45Derivation) : SinkRun :=
  change_input input (fun i => Some (set_ms45 (ms45_hint_of v) i)).

Definition set_out_ms45 (hint : Ms45Hint) (o : TransactionOutput) : TransactionOutput := {|
  value := value o; out_script_public_key := out_script_public_key o; has_covenant := has_covenant o;
  covenant_auth_input := covenant_auth_input o; covenant_id := covenant_id o;
  out_derivation_branch := out_derivation_branch o; out_derivation_index := out_derivation_index o;
  out_has_derivation_hint := out_has_derivation_hint o; out_ms45_hint := hint |}.

Definition sink_output_ms45 (output : Z) (v : KsptModel.Ms45Derivation) : SinkRun :=
  change_output output (fun o => Some (set_out_ms45 (ms45_hint_of v) o)).

Definition set_covenant (authorizing_input : Z) (id : list Z) (o : TransactionOutput) : TransactionOutput := {|
  value := value o; out_script_public_key := out_script_public_key o; has_covenant := true;
  covenant_auth_input := authorizing_input; covenant_id := id;
  out_derivation_branch := out_derivation_branch o; out_derivation_index := out_derivation_index o;
  out_has_derivation_hint := out_has_derivation_hint o; out_ms45_hint := out_ms45_hint o |}.

Definition sink_covenant (output authorizing_input : Z) (id : list Z) : SinkRun :=
  change_output output (fun o => Some (set_covenant authorizing_input id o)).

Definition set_execution (v : KsptModel.CovenantExecution) (i : TransactionInput) : TransactionInput := {|
  previous_outpoint := previous_outpoint i; sequence := sequence i; sig_op_count := sig_op_count i;
  utxo_entry := utxo_entry i; sigs := sigs i; sig_count := sig_count i; sighash_type := sighash_type i;
  redeem_script := redeem_script i; redeem_script_len := redeem_script_len i; redeem_in_pool := redeem_in_pool i;
  redeem_script_offset := redeem_script_offset i; incoming_partial_sigs := incoming_partial_sigs i;
  incoming_partial_sigs_count := incoming_partial_sigs_count i; has_derivation_hint := has_derivation_hint i;
  derivation_branch := derivation_branch i; derivation_index := derivation_index i; ms45_hint := ms45_hint i;
  covenant_execution_present := true;
  covenant_execution_mask := KsptModel.supplied_mask v;
  covenant_execution_true_mask := KsptModel.supplied_true_mask v |}.

Definition sink_covenant_execution (input : Z) (v : KsptModel.CovenantExecution) : SinkRun :=
  change_input input (fun i => Some (set_execution v i)).

#[export] Instance TransactionSink : KsptModel.DecodeSink Transaction (Fault PsktError) := {|
  KsptModel.on_global := sink_global;
  KsptModel.on_input := sink_input;
  KsptModel.on_signature := sink_signature;
  KsptModel.on_redeem := sink_redeem;
  KsptModel.on_output := sink_output;
  KsptModel.on_network := sink_network;
  KsptModel.on_stealth := sink_stealth;
  KsptModel.on_input_derivation := sink_input_derivation;
  KsptModel.on_output_derivation := sink_output_derivation;
  KsptModel.on_input_ms45 := sink_input_ms45;
  KsptModel.on_output_ms45 := sink_output_ms45;
  KsptModel.on_covenant := sink_covenant;
  KsptModel.on_covenant_execution := sink_covenant_execution |}.

(** ** [partial_signed.rs] *)

Definition codec_limits (tx : Transaction) : KsptModel.Limits := {|
  KsptModel.max_inputs := if max_inputs (limits tx) <=? u32_max then max_inputs (limits tx) else u32_max;
  KsptModel.max_outputs := MAX_OUTPUTS;
  KsptModel.max_payload := max_payload_bytes (limits tx) |}.

Definition encode_error (error : KsptModel.WireError) : PsktError :=
  match error with
  | KsptModel.InvalidNetwork | KsptModel.InvalidTrailer | KsptModel.CountOverflow => InvalidModel
  | other => from_wire_error other
  end.

Section codec.
Context (keyed : list Z -> list Z -> list Z) (schnorr_verify : list Z -> list Z -> list Z -> bool).

(** The length written, and the buffer afterwards. *)
Definition serialize_compact_kspt (tx : Transaction) (output : list Z) : result Z PsktError * list Z :=
  match validate_partial_signed tx with
  | Err error => (Err error, output)
  | Ok _ =>
      match Encode.encode (H := TransactionSource keyed schnorr_verify) tx output (codec_limits tx) with
      | (Ok length, output) => (Ok length, output)
      | (Err error, output) => (Err (encode_error error), output)
      end
  end.

Definition decode_fault (error : KsptModel.DecodeError (Fault PsktError)) : Fault PsktError :=
  match error with
  | KsptModel.Wire error => Fails (from_wire_error error)
  | KsptModel.Sink error => error
  end.

Definition parse_compact_kspt (data : list Z) : SinkRun := fun tx =>
  let tx := clear tx in
  match Decode.decode (T := Transaction) (E := Fault PsktError) data (codec_limits tx) tx with
  | (Err error, tx) => (Err (decode_fault error), tx)
  | (Ok envelope, tx) =>
      if negb (Bool.eqb (negb (Z.land (KsptModel.env_flags envelope) KsptModel.FLAG_SIGNED_OR_COMPLETE =? 0))
                 (is_fully_signed keyed schnorr_verify tx))
      then (Err (Fails InvalidSignatureState), tx)
      else
        match validate_partial_signed tx with
        | Ok _ => (Ok tt, tx)
        | Err error => (Err (Fails error), tx)
        end
  end.

Definition decode_compact_kspt (data : list Z) : result Transaction (Fault PsktError) :=
  match parse_compact_kspt data new_tx with
  | (Ok _, tx) => Ok tx
  | (Err error, _) => Err error
  end.

(** Doubling from at least 1024 exceeds [usize] within 54 rounds. *)
Fixpoint serialize_compact_vec_with_capacity (fuel : nat) (tx : Transaction) (capacity : Z)
  : option (result (list Z) PsktError) :=
  match fuel with
  | O => None
  | S fuel' =>
      match serialize_compact_kspt tx (zeros capacity) with
      | (Ok length, output) => Some (Ok (take (Z.to_nat length) output))
      | (Err error, _) =>
          if negb (bool_decide (error = OutputBufferTooSmall)) then Some (Err error)
          else
            match checked_mul capacity 2 with
            | None => Some (Err OutputBufferTooSmall)
            | Some next => serialize_compact_vec_with_capacity fuel' tx next
            end
      end
  end.

Definition serialize_compact_kspt_vec (tx : Transaction) : option (result (list Z) PsktError) :=
  let capacity := saturating_add 1024 (saturating_mul (num_inputs tx) 192) in
  let capacity := saturating_add capacity (saturating_mul (num_outputs tx) 640) in
  let capacity := saturating_add capacity (blen (payload tx)) in
  let capacity := saturating_add capacity (redeem_pool_used tx) in
  serialize_compact_vec_with_capacity 64 tx capacity.
End codec.

(** ** [kssn.rs] *)

Module Kssn.

Definition KSSN_MAGIC : list Z := str "KSSN".
Definition KSSN_VERSION_CURRENT : Z := 1.

Record InputSignature := {
  input_index : Z; ks_sighash_type : SigHashType.SigHashType; ks_signature : list Z }.

(** [SignedResponse] is its signatures. *)
Definition add_signature (input_index : Z) (sighash_type : SigHashType.SigHashType) (signature : list Z)
  : Comp (list InputSignature) PsktError unit := fun signatures =>
  if existsb (fun existing => Kssn.input_index existing =? input_index) signatures
  then (Err InvalidSignatureState, signatures)
  else (Ok tt, signatures ++ [{| input_index := input_index; ks_sighash_type := sighash_type;
                                 ks_signature := signature |}]).

Definition write_response (signatures : list InputSignature) : Comp Writer.Writer PsktError unit :=
  let* _ := reject_if (u32_max <? blen signatures) TooManySignatures in
  map_err from_wire_error (
    let* _ := Writer.bytes KSSN_MAGIC in
    let* _ := Writer.u8 KSSN_VERSION_CURRENT in
    let* _ := Writer.u32 (blen signatures) in
    for_each signatures (fun signature =>
      let* _ := Writer.u32 (input_index signature) in
      let* _ := Writer.u8 (SigHashType.to_byte (ks_sighash_type signature)) in
      Writer.bytes (ks_signature signature))).

Definition serialize (signatures : list InputSignature) (output : list Z) : result Z PsktError * list Z :=
  match write_response signatures (Writer.new output) with
  | (Ok _, w) => (Ok (Writer.w_pos w), Writer.w_output w)
  | (Err error, w) => (Err error, Writer.w_output w)
  end.

Definition read_response_count : Comp Reader.Reader PsktError Z :=
  let* magic := map_err from_wire_error (Reader.bytes 4) in
  let* _ := reject_if (negb (list_Z_eqb magic KSSN_MAGIC)) InvalidMagic in
  let* version := map_err from_wire_error Reader.u8 in
  let* _ := reject_if (negb (version =? KSSN_VERSION_CURRENT)) UnsupportedVersion in
  map_err from_wire_error Reader.u32.

Definition read_input_signature : Comp Reader.Reader PsktError InputSignature :=
  let* input_index := map_err from_wire_error Reader.u32 in
  let* byte := map_err from_wire_error Reader.u8 in
  let* sighash_type := of_result (ok_or (SigHashType.from_byte byte) InvalidSigHashType) in
  let* signature := map_err from_wire_error (Reader.array 64) in
  ret {| input_index := input_index; ks_sighash_type := sighash_type; ks_signature := signature |}.

(** [count] rounds of the loop over the signatures read so far. *)
Fixpoint read_signatures (count : nat) (signatures : list InputSignature)
  : Comp Reader.Reader PsktError (list InputSignature) :=
  match count with
  | O => ret signatures
  | S count =>
      let* input := read_input_signature in
      match add_signature (input_index input) (ks_sighash_type input) (ks_signature input) signatures with
      | (Err error, _) => throw error
      | (Ok _, signatures) => read_signatures count signatures
      end
  end.

Definition parse (data : list Z) : result (list InputSignature) PsktError :=
  match (let* count := read_response_count in read_signatures (Z.to_nat count) []) (Reader.new data) with
  | (Err error, _) => Err error
  | (Ok signatures, reader) => if negb (Reader.remaining reader =? 0) then Err TrailingData else Ok signatures
  end.

End Kssn.
