(* ===== verification/KsptCodecProofs.v ===== *)
(** * The KSPT codec is a faithful copy of a transaction

    The sink is run on the calls of any valid document, with an explicit
    transaction as its result; reading that transaction through the source
    gives the document back. *)

From S2P Require Import Prelude NetworkId Script TxModel Sighash KsptModel KsptDoc KsptWire KsptEncode KsptDecode SigCheck KsptCodec SigProofs.
Import TxModel.

Ltac unlimit := unfold MAX_SCRIPT_SIZE, MAX_REDEEM_SIZE, REDEEM_POOL_SIZE, MAX_SIGS_PER_INPUT, MAX_OUTPUTS,
  KsptModel.MAX_SCRIPT_SIZE, KsptModel.MAX_REDEEM_SIZE, KsptModel.MAX_SIGNATURE_RECORDS, KsptModel.MAX_OUTPUTS in *.

(** Copying to the front of a zeroed array. *)
Lemma copy_into_zeros n bytes : blen bytes <= n -> copy_into (zeros n) 0 bytes = Some (pad n bytes).
Proof.
  intros Hn. pose proof (blen_nonneg bytes). unfold copy_into. rewrite blen_zeros by lia. decide_tests.
  cbn [Z.to_nat take app]. rewrite drop_zeros. done.
Qed.

Lemma slice_pad n bytes : blen bytes <= n -> slice (pad n bytes) 0 (blen bytes) = Some bytes.
Proof. intros. apply (slice_split _ [] bytes (zeros (n - blen bytes))); done. Qed.

(** ** The transaction of a document *)

Section build.
Import KsptModel.

Definition built_spk (version : Z) (script : list Z) : ScriptPublicKey :=
  {| spk_version := version; spk_script := pad MAX_SCRIPT_SIZE script; spk_script_len := blen script |}.

Definition built_sig (s : Signature) : InputSig := {|
  sg_signature := sig_bytes s; sg_sighash_type := KsptModel.sighash s; sg_pubkey_pos := sig_position s;
  sg_present := true; sg_pubkey_compressed := zeros 33 |}.

Definition built_sigs (l : list Signature) : list InputSig :=
  map built_sig l ++ replicate (Z.to_nat MAX_SIGS_PER_INPUT - length l) empty_sig.

(** A redeem script kept in the shared pool. *)
Definition pooled (redeem : list Z) : bool := MAX_SCRIPT_SIZE <? blen redeem.

Definition built_input (used : Z) (d : DocInput) : TransactionInput :=
  let v := di_input d in
  let r := di_redeem d in
  {| previous_outpoint := {| o_transaction_id := previous_tx_id v; o_index := previous_index v |};
     TxModel.sequence := KsptModel.sequence v; TxModel.sig_op_count := KsptModel.sig_op_count v;
     utxo_entry := {| amount := in_amount v; script_public_key := built_spk (in_script_version v) (in_script v);
                      block_daa_score := 0 |};
     sigs := built_sigs (di_signatures d); sig_count := blen (di_signatures d);
     sighash_type := SigHashType.to_byte SigHashType.All;
     redeem_script := if pooled r then zeros MAX_SCRIPT_SIZE else pad MAX_SCRIPT_SIZE r;
     redeem_script_len := blen r; redeem_in_pool := pooled r; redeem_script_offset := if pooled r then used else 0;
     incoming_partial_sigs := replicate (Z.to_nat MAX_SIGS_PER_INPUT) empty_partial_sig;
     incoming_partial_sigs_count := 0; has_derivation_hint := false; derivation_branch := 0; derivation_index := 0;
     ms45_hint := no_hint; covenant_execution_present := false; covenant_execution_mask := 0;
     covenant_execution_true_mask := 0 |}.

(** The bytes an input adds to the pool. *)
Definition pool_bytes (d : DocInput) : list Z := if pooled (di_redeem d) then di_redeem d else [].

Fixpoint built_inputs (used : Z) (l : list DocInput) : list TransactionInput :=
  match l with
  | [] => []
  | d :: l => built_input used d :: built_inputs (used + blen (pool_bytes d)) l
  end.

Definition pool_of (l : list DocInput) : list Z := concat (map pool_bytes l).

Definition built_output (v : Output) : TransactionOutput := {|
  value := out_amount v; out_script_public_key := built_spk (out_script_version v) (out_script v);
  has_covenant := false; covenant_auth_input := 0; TxModel.covenant_id := zeros 32; out_derivation_branch := 0;
  out_derivation_index := 0; out_has_derivation_hint := false; out_ms45_hint := no_hint |}.

(** The only document conditions beyond the grammar that the sink imposes on
    inputs: signatures of everything, and room in the pool. *)
Definition all_sighash (d : DocInput) : Prop :=
  Forall (fun s => KsptModel.sighash s = SigHashType.to_byte SigHashType.All) (di_signatures d).
Definition sink_accepts (used : Z) (l : list DocInput) : Prop :=
  Forall all_sighash l /\ used + blen (pool_of l) <= REDEEM_POOL_SIZE.

#[export] Instance all_sighash_dec d : Decision (all_sighash d).
Proof. unfold all_sighash. apply _. Defined.
#[export] Instance sink_accepts_dec used l : Decision (sink_accepts used l).
Proof. unfold sink_accepts. apply _. Defined.
End build.

(** The inputs and the pool of a transaction, replaced. *)
Definition with_inputs (inputs : list TransactionInput) (pool : list Z) (used : Z) (tx : Transaction) : Transaction :=
  set_pool pool used (set_inputs inputs tx).

(** ** Runs of the sink *)

(** A run that succeeds exactly under [condition], with [result], and
    otherwise fails without a panic. *)
Definition runs (m : SinkRun) (tx : Transaction) (condition : Prop) (result : Transaction) : Prop :=
  match m tx with
  | (Ok _, tx') => condition /\ tx' = result
  | (Err Panics, _) => False
  | (Err (Fails _), _) => ~ condition
  end.

Lemma runs_ok m tx (condition : Prop) result : m tx = (Ok tt, result) -> condition -> runs m tx condition result.
Proof. unfold runs. by intros ->. Qed.

Lemma runs_bind (m k : SinkRun) tx (c1 c2 c : Prop) mid result :
  runs m tx c1 mid -> (c1 -> runs k mid c2 result) -> (c <-> c1 /\ c2) ->
  runs (let* _ := m in k) tx c result.
Proof.
  unfold runs, bind. intros Hm Hk Hc. destruct (m tx) as [[[]|[e|]] tx'].
  - destruct Hm as [H1 ->]. specialize (Hk H1). destruct (k mid) as [[[]|[e|]] tx'']; tauto.
  - tauto.
  - done.
Qed.

Lemma runs_equiv m tx (c c' : Prop) result : runs m tx c result -> (c <-> c') -> runs m tx c' result.
Proof. unfold runs. intros H Hc. destruct (m tx) as [[[]|[e|]] tx']; tauto. Qed.

Lemma runs_result m tx (c : Prop) result result' : runs m tx c result -> result = result' -> runs m tx c result'.
Proof. by intros ? <-. Qed.

(** One element of an array, in place. *)
Lemma change_input_at {E} pre i post f i' tx index :
  tx_inputs tx = pre ++ i :: post -> index = blen pre -> f i = Some i' ->
  change_input (E := E) index f tx = (Ok tt, set_inputs (pre ++ i' :: post) tx).
Proof.
  intros Hin -> Hf. unfold change_input. rewrite (get_at_split _ pre post i) by done. rewrite Hf, Hin.
  do 3 f_equal. unfold blen. rewrite Nat2Z.id. by rewrite insert_app_r_alt, Nat.sub_diag.
Qed.

Lemma change_output_at {E} pre o post f o' tx index :
  tx_outputs tx = pre ++ o :: post -> index = blen pre -> f o = Some o' ->
  change_output (E := E) index f tx = (Ok tt, set_outputs (pre ++ o' :: post) tx).
Proof.
  intros Hin -> Hf. unfold change_output. rewrite (get_at_split _ pre post o) by done. rewrite Hf, Hin.
  do 3 f_equal. unfold blen. rewrite Nat2Z.id. by rewrite insert_app_r_alt, Nat.sub_diag.
Qed.

Lemma set_inputs_twice a b tx : set_inputs a (set_inputs b tx) = set_inputs a tx.
Proof. done. Qed.

Lemma lookup_built_sigs done rest :
  (length done < Z.to_nat MAX_SIGS_PER_INPUT)%nat ->
  get_at (built_sigs done) (blen done) = Some empty_sig /\
  <[Z.to_nat (blen done) := rest]> (built_sigs done) =
    map built_sig done ++ rest :: replicate (Z.to_nat MAX_SIGS_PER_INPUT - S (length done)) empty_sig.
Proof.
  intros Hlen. assert (Hn : (Z.to_nat MAX_SIGS_PER_INPUT - length done =
    S (Z.to_nat MAX_SIGS_PER_INPUT - S (length done)))%nat) by lia.
  unfold built_sigs. rewrite Hn. cbn [replicate]. split.
  - apply (get_at_split _ (map built_sig done) (replicate (Z.to_nat MAX_SIGS_PER_INPUT - S (length done)) empty_sig));
      [done|]. unfold blen. by rewrite length_map.
  - unfold blen. rewrite Nat2Z.id. by rewrite insert_app_r_alt, length_map, Nat.sub_diag by (rewrite length_map; lia).
Qed.

(** The signature slots of one input. *)
Lemma signatures_run pre i post done l tx :
  tx_inputs tx = pre ++ i :: post -> sigs i = built_sigs done ->
  (length done + length l <= Z.to_nat MAX_SIGS_PER_INPUT)%nat ->
  runs (for_each (signature_events (blen pre) (blen done) l) deliver) tx
    (Forall (fun s => KsptModel.sighash s = SigHashType.to_byte SigHashType.All) l)
    (set_inputs (pre ++ set_sigs (built_sigs (done ++ l)) i :: post) tx).
Proof.
  revert i done tx. induction l as [|s l IH]; intros i done tx Hin Hsigs Hlen.
  - apply runs_ok; [|constructor]. cbn. rewrite app_nil_r, <- Hsigs.
    replace (set_sigs (sigs i) i) with i by (by destruct i). rewrite <- Hin. by destruct tx.
  - cbn [signature_events for_each length] in *. destruct (lookup_built_sigs done (built_sig s)) as [Hget Hins]; [lia|].
    eapply (runs_bind _ _ _ (KsptModel.sighash s = SigHashType.to_byte SigHashType.All)
              (Forall (fun s => KsptModel.sighash s = SigHashType.to_byte SigHashType.All) l)
              _ (set_inputs (pre ++ set_sigs (built_sigs (done ++ [s])) i :: post) tx)).
    + cbn [deliver KsptModel.on_signature TransactionSink]. unfold sink_signature, runs.
      destruct (Z.eqb_spec (KsptModel.sighash s) (SigHashType.to_byte SigHashType.All)); cbn [negb]; [|done].
      erewrite (change_input_at pre i post _ (set_sigs (built_sigs (done ++ [s])) i)); [|exact Hin|done|].
      2:{ rewrite Hsigs, Hget. cbn [mbind option_bind]. f_equal. f_equal.
          cbn [sg_pubkey_compressed empty_sig]. fold (built_sig s). rewrite Hins.
          unfold built_sigs. rewrite map_app, length_app, <- app_assoc. cbn [map app length].
          by rewrite Nat.add_1_r. }
      done.
    + intros _. eapply runs_result.
      { replace (blen done + 1) with (blen (done ++ [s])) by (rewrite blen_app; done).
        eapply (IH (set_sigs (built_sigs (done ++ [s])) i) (done ++ [s])); [done|done|].
        rewrite length_app. cbn [length]. lia. }
      rewrite set_inputs_twice. f_equal. rewrite <- app_assoc. done.
    + by rewrite Forall_cons.
Qed.

(** The pool after [bytes] have been stored: they and zeros. *)
Definition pool_array (bytes : list Z) : list Z := pad REDEEM_POOL_SIZE bytes.

Lemma copy_into_pool bytes more :
  blen bytes + blen more <= REDEEM_POOL_SIZE ->
  copy_into (pool_array bytes) (blen bytes) more = Some (pool_array (bytes ++ more)).
Proof.
  intros Hlen. pose proof (blen_nonneg bytes). pose proof (blen_nonneg more).
  unfold copy_into, pool_array, pad. autorewrite with blen. rewrite blen_zeros by lia. decide_tests. f_equal.
  replace (Z.to_nat (blen bytes)) with (length bytes) by (unfold blen; lia).
  rewrite take_app_length, drop_app_add, drop_zeros, <- app_assoc. do 3 f_equal. unfold blen. lia.
Qed.

(** An input before its redeem script is read. *)
Definition before_redeem (d : DocInput) : TransactionInput :=
  set_redeem (zeros MAX_SCRIPT_SIZE) 0 false 0 (built_input 0 d).

Lemma fill_empty_input (v : KsptModel.Input) (n : Z) :
  blen (KsptModel.in_script v) <= MAX_SCRIPT_SIZE ->
  exists i, fill_input v n empty_input = Some i /\ sigs i = built_sigs [] /\
    forall d, di_input d = v -> blen (di_signatures d) = n -> set_sigs (built_sigs (di_signatures d)) i = before_redeem d.
Proof.
  intros Hs. unfold fill_input, fill_script. cbn [empty_input utxo_entry script_public_key new_spk spk_script].
  rewrite copy_into_zeros by done. cbn [mbind option_bind]. eexists. split; [done|]. split; [done|].
  intros d <- <-. done.
Qed.

Lemma pooled_small redeem : blen redeem <= MAX_SCRIPT_SIZE -> pooled redeem = false.
Proof. unfold pooled. by apply Z.ltb_ge. Qed.

Lemma redeem_run pre d post bytes tx :
  tx_inputs tx = pre ++ before_redeem d :: post -> blen bytes <= REDEEM_POOL_SIZE ->
  redeem_pool tx = pool_array bytes -> redeem_pool_used tx = blen bytes ->
  blen (di_redeem d) <= MAX_REDEEM_SIZE ->
  runs (deliver (ERedeem (blen pre) (di_redeem d))) tx
    (blen bytes + blen (pool_bytes d) <= REDEEM_POOL_SIZE)
    (with_inputs (pre ++ built_input (blen bytes) d :: post) (pool_array (bytes ++ pool_bytes d))
       (blen bytes + blen (pool_bytes d)) tx).
Proof.
  intros Hin Hb Hpool Hused Hr. cbn [deliver KsptModel.on_redeem TransactionSink].
  unfold sink_redeem, pool_bytes. pose proof (blen_nonneg (di_redeem d)) as Hpos.
  case_bool_decide as Hnil.
  { rewrite (pooled_small (di_redeem d)) by (rewrite Hnil; done). change (blen []) with 0. rewrite app_nil_r, Z.add_0_r.
    apply runs_ok; [|done]. unfold ret. f_equal. unfold with_inputs.
    replace (built_input (blen bytes) d) with (before_redeem d).
    - rewrite <- Hpool, <- Hused, <- Hin. by destruct tx.
    - unfold before_redeem, built_input, set_redeem. cbn. rewrite Hnil. done. }
  assert (Hne : blen (di_redeem d) <> 0).
  { intros Hz. apply Hnil. destruct (di_redeem d); [done|]. rewrite blen_cons in Hz. pose proof (blen_nonneg l). lia. }
  unfold runs, map_err, store_redeem. destruct (Z.eqb_spec (blen (di_redeem d)) 0); [done|].
  destruct (Z.leb_spec (blen (di_redeem d)) MAX_SCRIPT_SIZE) as [Hsmall|Hbig].
  - decide_tests. erewrite (change_input_at pre (before_redeem d) post _ (built_input (blen bytes) d)); [|exact Hin|done|].
    2:{ cbn [before_redeem set_redeem redeem_script]. rewrite copy_into_zeros by done. cbn [mbind option_bind].
        f_equal. unfold built_input, set_redeem. rewrite pooled_small by done. done. }
    rewrite pooled_small by done. change (blen []) with 0. rewrite app_nil_r, Z.add_0_r. split; [done|].
    unfold with_inputs. rewrite <- Hpool, <- Hused. by destruct tx.
  - assert (Hpooled : pooled (di_redeem d) = true) by (by apply Z.ltb_lt). rewrite Hpooled.
    decide_tests. rewrite Hused. destruct (Z.ltb_spec REDEEM_POOL_SIZE (blen bytes + blen (di_redeem d))) as [Hfull|Hfits].
    { cbn [storage_fault]. lia. }
    rewrite Hpool, copy_into_pool by done. unfold bind.
    erewrite (change_input_at pre (before_redeem d) post _ (built_input (blen bytes) d)); [|exact Hin|done|].
    2:{ f_equal. unfold built_input, set_redeem. rewrite Hpooled. cbn -[zeros Z.pow].
        f_equal. apply Z.mod_small. pose proof (blen_nonneg bytes). unlimit. lia. }
    done.
Qed.

Lemma runs_app (l1 l2 : list Event) tx (c1 c2 c : Prop) mid result :
  runs (for_each l1 deliver) tx c1 mid -> (c1 -> runs (for_each l2 deliver) mid c2 result) -> (c <-> c1 /\ c2) ->
  runs (for_each (l1 ++ l2) deliver) tx c result.
Proof.
  intros H1 H2 Hc. pose proof (runs_bind _ _ _ _ _ _ _ _ H1 H2 Hc) as H. unfold runs in *. by rewrite for_each_app.
Qed.

Lemma runs_single e tx c result :
  runs (deliver e) tx c result -> runs (for_each [e] deliver) tx c result.
Proof.
  unfold runs. intros H. rewrite for_each_cons. by destruct (deliver e tx) as [[[]|[]] tx'].
Qed.

Lemma input_run pre d post bytes tx :
  tx_inputs tx = pre ++ empty_input :: post -> blen bytes <= REDEEM_POOL_SIZE ->
  redeem_pool tx = pool_array bytes -> redeem_pool_used tx = blen bytes -> valid_doc_input d ->
  runs (for_each (doc_input_events (blen pre) d) deliver) tx
    (all_sighash d /\ blen bytes + blen (pool_bytes d) <= REDEEM_POOL_SIZE)
    (with_inputs (pre ++ built_input (blen bytes) d :: post) (pool_array (bytes ++ pool_bytes d))
       (blen bytes + blen (pool_bytes d)) tx).
Proof.
  intros Hin Hb Hpool Hused ((_ & _ & Hscript) & (_ & _ & Hcount) & (_ & Hredeem)).
  destruct (fill_empty_input (di_input d) (blen (di_signatures d)) Hscript) as (i & Hfill & Hsigs & Hbefore).
  unfold doc_input_events. change (EInput ?a ?b ?c :: ?l) with ([EInput a b c] ++ l).
  eapply runs_app; [|intros _; eapply runs_app; [|intros _|reflexivity]|].
  - apply runs_single, (runs_ok _ _ True); [|done]. cbn [deliver KsptModel.on_input TransactionSink]. unfold sink_input.
    by apply (change_input_at pre empty_input post).
  - apply (signatures_run pre i post []); [done|done|]. unlimit. unfold blen in Hcount. cbn [length]. lia.
  - apply runs_single. rewrite set_inputs_twice, app_nil_l, (Hbefore d) by done.
    eapply runs_result; [by apply (redeem_run pre d post bytes)|done].
  - unfold all_sighash. tauto.
Qed.

Lemma inputs_run l pre post bytes tx :
  tx_inputs tx = pre ++ replicate (length l) empty_input ++ post -> blen bytes <= REDEEM_POOL_SIZE ->
  redeem_pool tx = pool_array bytes -> redeem_pool_used tx = blen bytes -> Forall valid_doc_input l ->
  runs (for_each (input_events (blen pre) l) deliver) tx
    (sink_accepts (blen bytes) l)
    (with_inputs (pre ++ built_inputs (blen bytes) l ++ post) (pool_array (bytes ++ pool_of l))
       (blen bytes + blen (pool_of l)) tx).
Proof.
  revert pre bytes tx. induction l as [|d l IH]; intros pre bytes tx Hin Hb Hpool Hused Hvalid.
  - apply runs_ok; [|split; [constructor|change (blen (pool_of [])) with 0; lia]]. cbn.
    unfold with_inputs. rewrite app_nil_r. cbn [app length replicate] in Hin.
    unfold ret. rewrite <- Hin, <- Hpool, Z.add_0_r, <- Hused. by destruct tx.
  - apply Forall_cons in Hvalid as [Hd Hl]. cbn [input_events built_inputs length replicate] in *.
    eapply runs_app; [by apply (input_run pre d (replicate (length l) empty_input ++ post) bytes)| |].
    + intros [_ Hfits]. eapply runs_result.
      { replace (blen pre + 1) with (blen (pre ++ [built_input (blen bytes) d])) by (rewrite blen_app; done).
        apply (IH _ (bytes ++ pool_bytes d)); [cbn; by rewrite <- app_assoc|by rewrite blen_app|done|cbn; by rewrite blen_app|done]. }
      unfold with_inputs, pool_of. cbn [map concat]. rewrite !blen_app, !Z.add_assoc, !app_assoc.
      unfold set_pool, set_inputs. cbn. by rewrite <- !app_assoc.
    + unfold sink_accepts, pool_of. cbn [map concat]. rewrite Forall_cons, !blen_app.
      pose proof (blen_nonneg (concat (map pool_bytes l))). split; [intros [[? ?] ?]; split_and!; try done; lia|].
      intros [[? ?] [? ?]]. split_and!; try done. lia.
Qed.

Lemma outputs_run l pre post tx :
  tx_outputs tx = pre ++ replicate (length l) empty_output ++ post -> Forall valid_output l ->
  for_each (output_events (blen pre) l) deliver tx = (Ok tt, set_outputs (pre ++ map built_output l ++ post) tx).
Proof.
  revert pre tx. induction l as [|v l IH]; intros pre tx Hin Hvalid.
  - cbn [output_events for_each map length replicate app] in *. rewrite <- Hin. by destruct tx.
  - apply Forall_cons in Hvalid as [[_ Hs] Hl]. cbn [output_events length replicate map] in *. rewrite for_each_cons.
    cbn [deliver KsptModel.on_output TransactionSink]. unfold sink_output.
    erewrite (change_output_at pre empty_output (replicate (length l) empty_output ++ post) _ (built_output v)); [|exact Hin|done|].
    2:{ unfold fill_script. cbn [empty_output out_script_public_key new_spk spk_script].
        rewrite copy_into_zeros by done. done. }
    replace (blen pre + 1) with (blen (pre ++ [built_output v])) by (rewrite blen_app; done).
    rewrite IH; [|cbn; by rewrite <- app_assoc|done]. f_equal. cbn. unfold set_outputs. cbn. by rewrite <- app_assoc.
Qed.

(** ** Trailers *)

Definition alter_input (p : Z) (f : TransactionInput -> TransactionInput) (tx : Transaction) : Transaction :=
  set_inputs (alter f (Z.to_nat p) (tx_inputs tx)) tx.
Definition alter_output (p : Z) (f : TransactionOutput -> TransactionOutput) (tx : Transaction) : Transaction :=
  set_outputs (alter f (Z.to_nat p) (tx_outputs tx)) tx.

(** What one trailer record does to the transaction. *)
Definition apply_trailer (tx : Transaction) (t : Trailer) : Transaction :=
  match t with
  | TNetwork code => put_network (default KaspaNetwork.Unknown (KaspaNetwork.from_wire code)) tx
  | TStealth tweak => put_stealth tweak tx
  | TMs45Input p v => alter_input p (set_ms45 (ms45_hint_of v)) tx
  | TMs45Output p v => alter_output p (set_out_ms45 (ms45_hint_of v)) tx
  | TCovenant p c =>
      alter_output p (set_covenant (KsptModel.authorizing_input c) (KsptModel.covenant_id c)) tx
  | TCovenantExecution p v => alter_input p (set_execution v) tx
  | TInputDerivation p v => alter_input p (set_derivation v) tx
  | TOutputDerivation p v => alter_output p (set_out_derivation v) tx
  end.

Lemma alter_at {A} (f : A -> A) (l : list A) p x :
  get_at l p = Some x -> alter f (Z.to_nat p) l = <[Z.to_nat p := f x]> l.
Proof.
  unfold get_at. destruct (Z.leb_spec 0 p); [|done]. intros Hx. apply list_eq. intros i.
  destruct (decide (i = Z.to_nat p)) as [->|Hne].
  - rewrite list_lookup_alter_eq, Hx. symmetry. apply list_lookup_insert_eq. by eapply lookup_lt_Some.
  - by rewrite list_lookup_alter_ne, list_lookup_insert_ne by congruence.
Qed.

Lemma change_input_alter {E} p (f : TransactionInput -> TransactionInput) tx :
  0 <= p < blen (tx_inputs tx) -> change_input (E := E) p (fun i => Some (f i)) tx = (Ok tt, alter_input p f tx).
Proof.
  intros Hp. unfold change_input. destruct (get_at (tx_inputs tx) p) as [i|] eqn:Hi.
  - unfold alter_input. by rewrite (alter_at _ _ _ _ Hi).
  - unfold get_at in Hi. destruct (Z.leb_spec 0 p); [|lia]. apply lookup_ge_None in Hi. unfold blen in Hp. lia.
Qed.

Lemma change_output_alter {E} p (f : TransactionOutput -> TransactionOutput) tx :
  0 <= p < blen (tx_outputs tx) -> change_output (E := E) p (fun o => Some (f o)) tx = (Ok tt, alter_output p f tx).
Proof.
  intros Hp. unfold change_output. destruct (get_at (tx_outputs tx) p) as [o|] eqn:Ho.
  - unfold alter_output. by rewrite (alter_at _ _ _ _ Ho).
  - unfold get_at in Ho. destruct (Z.leb_spec 0 p); [|lia]. apply lookup_ge_None in Ho. unfold blen in Hp. lia.
Qed.

Lemma trailer_run (inputs outputs : Z) t tx :
  encodable_trailer inputs outputs t -> inputs <= blen (tx_inputs tx) -> outputs <= blen (tx_outputs tx) ->
  deliver (ETrailer t) tx = (Ok tt, apply_trailer tx t).
Proof.
  intros Ht Hin Hout. destruct t; cbn [encodable_trailer] in Ht; unfold byte_ok in Ht;
    first [apply change_input_alter; lia | apply change_output_alter; lia | idtac].
  - destruct Ht as [_ Hvalid]. cbn. unfold sink_network, valid_network, KaspaNetwork.from_wire in *.
    apply andb_true_iff in Hvalid as [H1 H2]. apply Z.leb_le in H1, H2.
    repeat match goal with |- context [Z.eqb ?a ?b] => destruct (Z.eqb_spec a b) end; try done. lia.
  - done.
Qed.

Lemma apply_trailer_len tx t :
  blen (tx_inputs (apply_trailer tx t)) = blen (tx_inputs tx) /\
  blen (tx_outputs (apply_trailer tx t)) = blen (tx_outputs tx).
Proof. unfold blen. by destruct t; cbn; rewrite ?length_alter. Qed.

Lemma trailers_run inputs outputs l tx :
  Forall (encodable_trailer inputs outputs) l -> inputs <= blen (tx_inputs tx) -> outputs <= blen (tx_outputs tx) ->
  for_each (map ETrailer l) deliver tx = (Ok tt, foldl apply_trailer tx l).
Proof.
  intros Hl. revert tx. induction Hl as [|t l Ht _ IH]; intros tx Hin Hout; [done|].
  cbn [map]. rewrite for_each_cons, (trailer_run inputs outputs) by done.
  destruct (apply_trailer_len tx t) as [Hi Ho]. apply IH; lia.
Qed.

(** ** Reading the trailers back *)

Lemma get_at_alter {A} (f : A -> A) (l : list A) p q :
  0 <= p < blen l -> get_at (alter f (Z.to_nat p) l) q = if q =? p then f <$> get_at l q else get_at l q.
Proof.
  intros Hp. unfold get_at. destruct (Z.eqb_spec q p) as [->|Hne].
  - destruct (Z.leb_spec 0 p); [|lia]. apply list_lookup_alter_eq.
  - destruct (Z.leb_spec 0 q); [|done]. apply list_lookup_alter_ne. lia.
Qed.

Lemma input_at_alter p f tx q :
  0 <= p < blen (tx_inputs tx) ->
  input_at (alter_input p f tx) q = if q =? p then f (input_at tx q) else input_at tx q.
Proof.
  intros Hp. unfold input_at, alter_input. cbn [tx_inputs set_inputs]. rewrite get_at_alter by done.
  destruct (Z.eqb_spec q p) as [->|]; [|done]. destruct (get_at (tx_inputs tx) p) eqn:Hget; [done|].
  unfold get_at in Hget. destruct (Z.leb_spec 0 p); [|lia]. apply lookup_ge_None in Hget. unfold blen in Hp. lia.
Qed.

Lemma output_at_alter p f tx q :
  0 <= p < blen (tx_outputs tx) ->
  output_at (alter_output p f tx) q = if q =? p then f (output_at tx q) else output_at tx q.
Proof.
  intros Hp. unfold output_at, alter_output. cbn [tx_outputs set_outputs]. rewrite get_at_alter by done.
  destruct (Z.eqb_spec q p) as [->|]; [|done]. destruct (get_at (tx_outputs tx) p) eqn:Hget; [done|].
  unfold get_at in Hget. destruct (Z.leb_spec 0 p); [|lia]. apply lookup_ge_None in Hget. unfold blen in Hp. lia.
Qed.

(** The record the transaction holds where [t] would be stored. *)
Definition slot (tx : Transaction) (t : Trailer) : option Trailer :=
  match t with
  | TNetwork _ => Some (TNetwork (KaspaNetwork.discriminant (tx_network tx)))
  | TStealth _ => if has_stealth_tweak tx then Some (TStealth (stealth_tweak tx)) else None
  | TMs45Input p _ => TMs45Input p <$> ms45 (ms45_hint (input_at tx p))
  | TMs45Output p _ => TMs45Output p <$> ms45 (out_ms45_hint (output_at tx p))
  | TCovenant p _ =>
      let o := output_at tx p in
      if has_covenant o then Some (TCovenant p {| KsptModel.authorizing_input := covenant_auth_input o;
                                                  KsptModel.covenant_id := covenant_id o |}) else None
  | TCovenantExecution p _ =>
      let i := input_at tx p in
      if covenant_execution_present i
      then Some (TCovenantExecution p {| KsptModel.supplied_mask := covenant_execution_mask i;
                                         KsptModel.supplied_true_mask := covenant_execution_true_mask i |}) else None
  | TInputDerivation p _ =>
      let i := input_at tx p in
      TInputDerivation p <$> derivation (has_derivation_hint i) (derivation_branch i) (derivation_index i)
  | TOutputDerivation p _ =>
      let o := output_at tx p in
      TOutputDerivation p <$> derivation (out_has_derivation_hint o) (out_derivation_branch o) (out_derivation_index o)
  end.

Definition same_slot (t u : Trailer) : bool :=
  (trailer_rank t =? trailer_rank u) && (trailer_position u =? trailer_position t).

Lemma alter_input_keeps_output p f tx q : output_at (alter_input p f tx) q = output_at tx q.
Proof. done. Qed.
Lemma alter_output_keeps_input p f tx q : input_at (alter_output p f tx) q = input_at tx q.
Proof. done. Qed.

Lemma slot_apply inputs outputs t u tx :
  encodable_trailer inputs outputs t -> inputs <= blen (tx_inputs tx) -> outputs <= blen (tx_outputs tx) ->
  slot (apply_trailer tx t) u = if same_slot t u then Some t else slot tx u.
Proof.
  intros Ht Hin Hout. unfold same_slot.
  destruct t as [code|p v|p v|tweak|p v|p v|p v|p v], u as [code'|q w|q w|tweak'|q w|q w|q w|q w];
    cbn [encodable_trailer] in Ht; unfold byte_ok in Ht;
    cbn [trailer_rank trailer_position Z.eqb Pos.eqb andb slot apply_trailer]; try done;
    rewrite ?alter_input_keeps_output, ?alter_output_keeps_input, ?input_at_alter, ?output_at_alter by lia;
    try (destruct (Z.eqb_spec q p) as [->|]; [by destruct v|done]); try (by destruct (q =? p)).
  destruct Ht as [_ Hvalid]. unfold valid_network, put_network, KaspaNetwork.from_wire in *. cbn [tx_network].
  apply andb_true_iff in Hvalid as [H1 H2]. apply Z.leb_le in H1, H2.
  repeat match goal with |- context [Z.eqb ?a ?b] => destruct (Z.eqb_spec a b) end; subst; try done. lia.
Qed.

Lemma same_slot_lt t u : trailer_lt t u -> same_slot t u = false /\ same_slot u t = false.
Proof.
  unfold trailer_lt, same_slot. intros Hlt.
  destruct (Z.eqb_spec (trailer_rank t) (trailer_rank u)), (Z.eqb_spec (trailer_position u) (trailer_position t)),
    (Z.eqb_spec (trailer_rank u) (trailer_rank t)), (Z.eqb_spec (trailer_position t) (trailer_position u));
    try done; lia.
Qed.

Lemma slot_fold inputs outputs l tx :
  StronglySorted trailer_lt l -> Forall (encodable_trailer inputs outputs) l ->
  inputs <= blen (tx_inputs tx) -> outputs <= blen (tx_outputs tx) ->
  (forall t, t ∈ l -> slot (foldl apply_trailer tx l) t = Some t) /\
  (forall u, (forall t, t ∈ l -> same_slot t u = false) -> slot (foldl apply_trailer tx l) u = slot tx u).
Proof.
  intros Hsorted Hl. revert tx. induction Hsorted as [|t l Hs IH Hlt]; intros tx Hin Hout; [split; [set_solver|done]|].
  apply Forall_cons in Hl as [Ht Hl]. destruct (apply_trailer_len tx t) as [Hi Ho].
  destruct (IH Hl (apply_trailer tx t)) as [Hread Hkeep]; [lia|lia|]. cbn [foldl]. split.
  - intros u [->|Hu]%elem_of_cons; [|by apply Hread].
    rewrite Hkeep, (slot_apply inputs outputs) by
      (done || (intros w Hw; rewrite Forall_forall in Hlt; apply Hlt, same_slot_lt in Hw as [_ Hw]; done)).
    unfold same_slot. by rewrite !Z.eqb_refl.
  - intros u Hu. rewrite Hkeep, (slot_apply inputs outputs) by (done || (intros w Hw; apply Hu; set_solver)).
    by rewrite (Hu t) by set_solver.
Qed.

#[local] Instance trailer_lt_antisymm : AntiSymm (=) trailer_lt.
Proof. intros t u Htu Hut. unfold trailer_lt in *. lia. Qed.

Lemma sorted_NoDup l : StronglySorted trailer_lt l -> NoDup l.
Proof.
  induction 1 as [|t l _ IH Hlt]; constructor; [|done]. intros Hin. rewrite Forall_forall in Hlt.
  apply Hlt in Hin. unfold trailer_lt in Hin. lia.
Qed.

(** Sorted trailers are determined by which records they hold. *)
Lemma sorted_trailers_ext l1 l2 :
  StronglySorted trailer_lt l1 -> StronglySorted trailer_lt l2 -> (forall t, t ∈ l1 <-> t ∈ l2) -> l1 = l2.
Proof.
  intros H1 H2 Heq. apply (StronglySorted_unique trailer_lt); [done..|].
  apply NoDup_Permutation; [by apply sorted_NoDup|by apply sorted_NoDup|done].
Qed.

Section read.
Context (keyed : list Z -> list Z -> list Z) (schnorr_verify : list Z -> list Z -> list Z -> bool).
#[local] Existing Instance TransactionSource.
Local Notation the_doc := (doc_of (H := TransactionSource keyed schnorr_verify)).

Definition in_range (inputs outputs : Z) (t : Trailer) : Prop :=
  match t with
  | TNetwork _ | TStealth _ => True
  | TMs45Input p _ | TCovenantExecution p _ | TInputDerivation p _ => 0 <= p < inputs
  | TMs45Output p _ | TCovenant p _ | TOutputDerivation p _ => 0 <= p < outputs
  end.

(** The trailers the encoder finds are those in the slots. *)
Lemma doc_trailers_spec tx t :
  u32_ok (num_inputs tx) -> byte_ok (num_outputs tx) ->
  t ∈ d_trailers (the_doc tx) <-> slot tx t = Some t /\ in_range (num_inputs tx) (num_outputs tx) t.
Proof.
  intros Hi Ho. unfold u32_ok, byte_ok in *. cbn [doc_of d_trailers].
  cbn [KsptModel.global KsptModel.network KsptModel.stealth KsptModel.input_ms45 KsptModel.output_ms45
       KsptModel.covenant KsptModel.covenant_execution KsptModel.input_derivation KsptModel.output_derivation
       TransactionSource source_global KsptModel.g_input_count KsptModel.g_output_count].
  rewrite !Z.mod_small by lia.
  rewrite !elem_of_app, list_elem_of_singleton, !present_elem, list_elem_of_fmap. split.
  - intros [->|[[(p & v & Hp & Hv & ->)|(p & v & Hp & Hv & ->)]|[(tw & -> & Htw)|
      [(p & v & Hp & Hv & ->)|[(p & v & Hp & Hv & ->)|[(p & v & Hp & Hv & ->)|(p & v & Hp & Hv & ->)]]]]]];
      cbn [slot in_range]; try (by rewrite Hv); try done.
    + destruct (has_stealth_tweak tx); [|by apply elem_of_nil in Htw]. by apply list_elem_of_singleton in Htw as ->.
    + by destruct (has_covenant (output_at tx p)); [injection Hv as <-|].
    + by destruct (covenant_execution_present (input_at tx p)); [injection Hv as <-|].
  - intros [Hslot Hrange].
    destruct t as [code|p v|p v|tweak|p v|p v|p v|p v]; cbn [slot in_range] in Hslot, Hrange.
    + injection Hslot as <-. by left.
    + right; left; left. destruct (ms45 _) as [w|] eqn:Hw; [|done]. injection Hslot as ->. by exists p, v.
    + right; left; right. destruct (ms45 _) as [w|] eqn:Hw; [|done]. injection Hslot as ->. by exists p, v.
    + right; right; left. destruct (has_stealth_tweak tx); [|done]. injection Hslot as <-.
      exists (stealth_tweak tx). split; [done|]. by apply list_elem_of_singleton.
    + do 3 right; left. exists p, v. destruct (has_covenant _); [|done]. by injection Hslot as ->.
    + do 4 right; left. exists p, v. destruct (covenant_execution_present _); [|done]. by injection Hslot as ->.
    + do 5 right; left. destruct (derivation _ _ _) as [w|] eqn:Hw; [|done]. injection Hslot as ->. by exists p, v.
    + do 6 right. destruct (derivation _ _ _) as [w|] eqn:Hw; [|done]. injection Hslot as ->. by exists p, v.
Qed.
End read.
