(* ===== verification/KsptCopy.v ===== *)
(** * Parsing builds the document's transaction

    The sink of [KsptCodec] run on a whole document, the transaction it
    builds, and that transaction read back through the source: parsing and
    serializing are each other's inverse. *)

From S2P Require Import Prelude NetworkId Script TxModel Sighash KsptModel KsptDoc KsptWire KsptEncode KsptDecode SigCheck KsptCodec SigProofs KsptCodecProofs.
Import TxModel.

Section build.
Import KsptModel.

(** A transaction of [d] before its trailers, with [spare] unused input slots. *)
Definition base_tx (limits : TransactionLimits) (spare : nat) (d : Doc) : Transaction :=
  let g := d_global d in
  {| tx_version := g_version g;
     tx_inputs := built_inputs 0 (d_inputs d) ++ replicate spare empty_input;
     num_inputs := g_input_count g;
     tx_outputs := map built_output (d_outputs d)
                     ++ replicate (Z.to_nat TxModel.MAX_OUTPUTS - length (d_outputs d)) empty_output;
     num_outputs := g_output_count g;
     tx_network := KaspaNetwork.Unknown;
     locktime := g_locktime g;
     subnetwork_id := g_subnetwork_id g;
     gas := g_gas g;
     payload := g_payload g;
     stealth_tweak := zeros 32;
     has_stealth_tweak := false;
     redeem_pool := pool_array (pool_of (d_inputs d));
     redeem_pool_used := blen (pool_of (d_inputs d));
     TxModel.limits := limits |}.

Definition built_tx (limits : TransactionLimits) (spare : nat) (d : Doc) : Transaction :=
  foldl apply_trailer (base_tx limits spare d) (d_trailers d).

(** What the sink asks of a document beyond the grammar. *)
Definition storable (d : Doc) : Prop :=
  g_input_count (d_global d) <> 0 /\ g_output_count (d_global d) <> 0 /\ sink_accepts 0 (d_inputs d).
End build.

#[export] Instance storable_dec d : Decision (storable d).
Proof. unfold storable. apply _. Defined.

Lemma map_const_replicate {A B} (b : B) (l : list A) : map (fun _ => b) l = replicate (length l) b.
Proof. induction l; cbn; congruence. Qed.

Lemma ensure_cleared tx n count :
  count <= max_inputs (limits tx) -> count = Z.of_nat n ->
  ensure_input_slots count (clear tx)
  = (Ok tt, set_inputs (replicate n empty_input ++ replicate (length (tx_inputs tx) - n) empty_input) (clear tx)).
Proof.
  intros Hmax ->. unfold ensure_input_slots. cbn [limits tx_inputs clear]. rewrite map_const_replicate.
  unfold blen. rewrite length_replicate. decide_tests.
  destruct (Z.ltb_spec (Z.of_nat (length (tx_inputs tx))) (Z.of_nat n)); f_equal.
  - f_equal. rewrite <- !replicate_add. f_equal. lia.
  - rewrite <- replicate_add. replace (n + _)%nat with (length (tx_inputs tx)) by lia.
    unfold set_inputs, clear. cbn. by rewrite map_const_replicate.
Qed.

Lemma cleared tx :
  typed_tx tx ->
  clear tx = set_pool (pool_array []) 0 (set_outputs (replicate (Z.to_nat MAX_OUTPUTS) empty_output) (clear tx)).
Proof.
  intros (_ & _ & _ & [_ Hout] & _ & _ & _ & _ & _ & _ & [_ Hpool] & _ & _).
  assert (Ho : tx_outputs (clear tx) = replicate (Z.to_nat MAX_OUTPUTS) empty_output).
  { cbn [tx_outputs clear]. rewrite map_const_replicate. f_equal. unfold blen in Hout. lia. }
  assert (Hp : redeem_pool (clear tx) = pool_array []).
  { cbn [redeem_pool clear]. rewrite map_const_replicate. unfold pool_array, pad, zeros. cbn [app]. f_equal.
    unfold blen in *. cbn [length]. lia. }
  rewrite <- Ho, <- Hp. reflexivity.
Qed.

(** The header of a document, on a cleared transaction. *)
Lemma global_run d tx0 :
  typed_tx tx0 -> valid_doc (codec_limits tx0) d ->
  runs (deliver (EGlobal (d_global d))) (clear tx0)
    (KsptModel.g_input_count (d_global d) <> 0 /\ KsptModel.g_output_count (d_global d) <> 0)
    (let g := d_global d in
     set_pool (pool_array []) 0
       (set_outputs (replicate (Z.to_nat MAX_OUTPUTS) empty_output)
          (set_inputs (replicate (length (d_inputs d)) empty_input
                         ++ replicate (length (tx_inputs tx0) - length (d_inputs d)) empty_input)
             (put_payload (KsptModel.g_payload g) (set_header g (clear tx0)))))).
Proof.
  intros Htx [(Hg & _ & Hcount & _) _]. destruct Hg as (Hty & _ & _ & Hmax & _ & Hpay & _).
  assert (Hu : u32_ok (KsptModel.g_input_count (d_global d))) by apply Hty.
  cbn [deliver KsptModel.on_global TransactionSink]. unfold sink_global, runs.
  destruct (Z.eqb_spec (KsptModel.g_input_count (d_global d)) 0); [cbn; tauto|].
  destruct (Z.eqb_spec (KsptModel.g_output_count (d_global d)) 0); [cbn; tauto|].
  unfold codec_limits in Hmax, Hpay. cbn [KsptModel.max_inputs KsptModel.max_payload] in Hmax, Hpay.
  erewrite bind_step; [|unfold map_err; rewrite (ensure_cleared _ (length (d_inputs d))); [reflexivity| |unfold blen in Hcount; lia]].
  2:{ destruct (Z.leb_spec (max_inputs (limits tx0)) u32_max); lia. }
  unfold bind, map_err, set_payload. cbn [limits set_header set_inputs clear].
  destruct (Z.ltb_spec (max_payload_bytes (limits tx0)) (blen (KsptModel.g_payload (d_global d)))); [lia|].
  split; [done|]. rewrite (cleared tx0 Htx) at 1. reflexivity.
Qed.

Lemma length_built_inputs used l : length (built_inputs used l) = length l.
Proof. revert used. induction l; intros; cbn [built_inputs length]; by f_equal. Qed.

(** The whole document. *)
Lemma doc_run d tx0 :
  typed_tx tx0 -> valid_doc (codec_limits tx0) d ->
  runs (for_each (doc_events d) deliver) (clear tx0) (storable d)
    (built_tx (limits tx0) (length (tx_inputs tx0) - length (d_inputs d)) d).
Proof.
  intros Htx Hdoc. pose proof Hdoc as [(Hg & Hin & Hic & Hout & Hoc & Htr & _) _].
  unfold doc_events. change (EGlobal ?g :: ?l) with ([EGlobal g] ++ l).
  eapply runs_app; [by apply runs_single, global_run| |].
  - intros _. cbv zeta. eapply runs_app; [apply (inputs_run (d_inputs d) [] (replicate (length (tx_inputs tx0) - length (d_inputs d)) empty_input) []); [reflexivity|by cbn|reflexivity|reflexivity|done]| |].
    + intros _. apply (runs_ok _ _ True); [|done]. rewrite for_each_app. unfold bind.
      erewrite (outputs_run (d_outputs d) [] (replicate (Z.to_nat MAX_OUTPUTS - length (d_outputs d)) empty_output));
        [|cbn; rewrite <- replicate_add; f_equal|done].
      2:{ assert (Hmax : KsptModel.g_output_count (d_global d) <= MAX_OUTPUTS) by (unlimit; apply Hg).
          unfold blen in Hoc. lia. }
      rewrite (trailers_run (KsptModel.g_input_count (d_global d)) (KsptModel.g_output_count (d_global d))).
      * done.
      * done.
      * cbn. rewrite <- Hic. autorewrite with blen. unfold blen. rewrite length_built_inputs. lia.
      * cbn. rewrite <- Hoc. autorewrite with blen. unfold blen. rewrite length_map. lia.
    + reflexivity.
  - unfold storable. change (blen []) with 0. tauto.
Qed.

(** ** Reading the transaction back *)

(** What trailers leave alone. *)
Definition input_core (i : TransactionInput) :=
  (previous_outpoint i, sequence i, sig_op_count i, utxo_entry i, sigs i, sig_count i, sighash_type i,
   (redeem_script i, redeem_script_len i, redeem_in_pool i, redeem_script_offset i)).
Definition output_core (o : TransactionOutput) := (value o, out_script_public_key o).
Definition tx_core (tx : Transaction) :=
  (tx_version tx, num_inputs tx, num_outputs tx, locktime tx, subnetwork_id tx, gas tx, payload tx,
   (redeem_pool tx, redeem_pool_used tx, limits tx), map input_core (tx_inputs tx), map output_core (tx_outputs tx)).

Lemma map_alter {A B} (view : A -> B) (f : A -> A) k l :
  (forall a, view (f a) = view a) -> map view (alter f k l) = map view l.
Proof.
  intros Hf. revert k. induction l as [|a l IH]; intros k; [done|]. destruct k; cbn; [by rewrite Hf|].
  f_equal. apply IH.
Qed.

Lemma trailers_keep_core l tx : tx_core (foldl apply_trailer tx l) = tx_core tx.
Proof.
  revert tx. induction l as [|t l IH]; intros tx; [done|]. cbn [foldl]. rewrite IH. unfold tx_core.
  destruct t; cbn; rewrite ?map_alter by done; done.
Qed.

Lemma get_at_map {A B} (f : A -> B) l i : get_at (map f l) i = f <$> get_at l i.
Proof. unfold get_at. destruct (0 <=? i); [|done]. apply list_lookup_fmap. Qed.

Lemma default_fmap {A B} (f : A -> B) (o : option A) a : f (default a o) = default (f a) (f <$> o).
Proof. by destruct o. Qed.

Lemma core_input tx tx' i : tx_core tx = tx_core tx' -> input_core (input_at tx i) = input_core (input_at tx' i).
Proof.
  unfold tx_core. intros Hcore. injection Hcore as _ _ _ _ _ _ _ _ _ _ Hin _.
  unfold input_at. rewrite !(default_fmap input_core), <- !get_at_map. by rewrite Hin.
Qed.

Lemma core_output tx tx' i : tx_core tx = tx_core tx' -> output_core (output_at tx i) = output_core (output_at tx' i).
Proof.
  unfold tx_core. intros Hcore. injection Hcore as _ _ _ _ _ _ _ _ _ _ _ Hout.
  unfold output_at. rewrite !(default_fmap output_core), <- !get_at_map. by rewrite Hout.
Qed.

(** Equal cores have equal views. *)
Lemma core_views tx tx' i :
  tx_core tx = tx_core tx' ->
  source_input tx i = source_input tx' i /\
  sig_count (input_at tx i) = sig_count (input_at tx' i) /\
  (forall k, source_signature tx i k = source_signature tx' i k) /\
  checked_redeem_bytes tx i = checked_redeem_bytes tx' i /\ source_output tx i = source_output tx' i.
Proof.
  intros Hcore. pose proof (core_input tx tx' i Hcore) as Hi. pose proof (core_output tx tx' i Hcore) as Ho.
  unfold tx_core in Hcore. injection Hcore as Hv Hn Hm Hl Hs Hg Hp Hpool Hused Hlim Hin Hout.
  assert (Hlen : blen (tx_inputs tx) = blen (tx_inputs tx')).
  { unfold blen. by rewrite <- !(length_map input_core), Hin. }
  unfold input_core in Hi. injection Hi as H1 H2 H3 H4 H5 H6 H7 H8 H9 H10 H11.
  unfold output_core in Ho. injection Ho as H12 H13.
  unfold source_input, source_signature, source_output, checked_redeem_bytes,
    checked_pool_redeem_bytes, checked_inline_redeem_bytes. fold (input_at tx i) (input_at tx' i).
  rewrite Hn, Hlen, Hpool, Hused, H1, H2, H3, H4, H5, H6, H8, H9, H10, H11, H12, H13. done.
Qed.

(** A function of the indices of a list that computes its elements. *)
Lemma map_seqZ {A} (f : Z -> A) (l : list A) :
  (forall k x, l !! k = Some x -> f (Z.of_nat k) = x) -> map f (seqZ 0 (blen l)) = l.
Proof.
  intros Hf. apply list_eq. intros k. rewrite list_lookup_fmap. destruct (l !! k) as [x|] eqn:Hx.
  - rewrite lookup_seqZ_lt by (apply lookup_lt_Some in Hx; unfold blen; lia). cbn. by rewrite Z.add_0_l, (Hf k x).
  - apply lookup_ge_None in Hx. rewrite lookup_seqZ_ge by (unfold blen; lia). done.
Qed.

Lemma get_at_nat {A} (l : list A) (k : nat) : get_at l (Z.of_nat k) = l !! k.
Proof. unfold get_at. rewrite (proj2 (Z.leb_le _ _)) by lia. by rewrite Nat2Z.id. Qed.

Lemma lookup_built_inputs used l k d :
  l !! k = Some d -> built_inputs used l !! k = Some (built_input (used + blen (pool_of (take k l))) d).
Proof.
  revert used k. induction l as [|e l IH]; intros used [|k]; cbn [built_inputs lookup list_lookup take]; try done.
  - intros [= <-]. cbn. by rewrite Z.add_0_r.
  - intros Hd. cbn. fold (lookup (M := list DocInput) k). rewrite (IH _ _ Hd). unfold pool_of. cbn [map concat].
    by rewrite blen_app, Z.add_assoc.
Qed.

Section base.
Context (lim : TransactionLimits) (spare : nat) (d : Doc) (wire_limits : KsptModel.Limits).
Context (Hdoc : encodable_doc wire_limits d) (Hstore : storable d).
Local Notation base := (base_tx lim spare d).

Lemma base_input (k : nat) i :
  d_inputs d !! k = Some i ->
  input_at base (Z.of_nat k) = built_input (blen (pool_of (take k (d_inputs d)))) i.
Proof.
  intros Hk. unfold input_at. rewrite get_at_nat. cbn [tx_inputs base_tx].
  rewrite lookup_app_l by (rewrite length_built_inputs; by apply lookup_lt_Some in Hk).
  by rewrite (lookup_built_inputs 0 _ _ _ Hk).
Qed.

Lemma base_output (k : nat) v :
  d_outputs d !! k = Some v -> output_at base (Z.of_nat k) = built_output v.
Proof.
  intros Hk. unfold output_at. rewrite get_at_nat. cbn [tx_outputs base_tx].
  rewrite lookup_app_l by (rewrite length_map; by apply lookup_lt_Some in Hk).
  by rewrite list_lookup_fmap, Hk.
Qed.

Lemma built_script version script : blen script <= MAX_SCRIPT_SIZE -> TxModel.script_bytes (built_spk version script) = script.
Proof. intros. unfold TxModel.script_bytes. cbn [built_spk spk_script spk_script_len]. by rewrite slice_pad. Qed.

Lemma built_signature used (i : DocInput) k s :
  di_signatures i !! k = Some s ->
  get_at (sigs (built_input used i)) (Z.of_nat k) = Some (built_sig s).
Proof.
  intros Hk. rewrite get_at_nat. cbn [sigs built_input]. unfold built_sigs.
  rewrite lookup_app_l by (rewrite length_map; by apply lookup_lt_Some in Hk). by rewrite list_lookup_fmap, Hk.
Qed.

(** The redeem script of an input, from its own array or from the pool. *)
Lemma base_redeem (k : nat) i :
  d_inputs d !! k = Some i -> checked_redeem_bytes base (Z.of_nat k) = Ok (di_redeem i).
Proof.
  intros Hk. destruct Hdoc as (_ & Hin & Hic & _). destruct Hstore as (_ & _ & _ & Hpool).
  rewrite Forall_forall in Hin. destruct (Hin i) as (_ & _ & [_ Hlen]); [by apply (list_elem_of_lookup_2 _ k)|].
  assert (Hlt : Z.of_nat k < blen (d_inputs d)) by (apply lookup_lt_Some in Hk; unfold blen; lia).
  unfold checked_redeem_bytes. fold (input_at base (Z.of_nat k)). rewrite (base_input k i Hk).
  cbn [num_inputs tx_inputs base_tx]. rewrite <- Hic.
  destruct (Z.leb_spec (blen (d_inputs d)) (Z.of_nat k)); [lia|].
  destruct (Z.leb_spec (blen (built_inputs 0 (d_inputs d) ++ replicate spare empty_input)) (Z.of_nat k)) as [Hbad|].
  { autorewrite with blen in Hbad. unfold blen in *. rewrite length_built_inputs in Hbad. lia. }
  cbn [orb redeem_script_len redeem_in_pool redeem_script_offset built_input].
  destruct (Z.eqb_spec (blen (di_redeem i)) 0) as [Hz|Hnz].
  { destruct (di_redeem i); [done|]. rewrite blen_cons in Hz. pose proof (blen_nonneg l). lia. }
  unlimit. destruct (Z.ltb_spec 1024 (blen (di_redeem i))); [lia|].
  pose proof (take_drop_middle _ _ _ Hk) as Hsplit. set (pre := take k (d_inputs d)) in *.
  assert (Hall : pool_of (d_inputs d) = pool_of pre ++ pool_bytes i ++ pool_of (drop (S k) (d_inputs d))).
  { rewrite <- Hsplit at 1. unfold pool_of. by rewrite map_app, concat_app. }
  destruct (pooled (di_redeem i)) eqn:Hp.
  - assert (Hbytes : pool_bytes i = di_redeem i) by (unfold pool_bytes; by rewrite Hp).
    rewrite Hbytes in Hall. rewrite Hall in Hpool. autorewrite with blen in Hpool.
    pose proof (blen_nonneg (pool_of pre)). pose proof (blen_nonneg (pool_of (drop (S k) (d_inputs d)))).
    pose proof (blen_nonneg (di_redeem i)).
    unfold checked_pool_redeem_bytes, checked_add. unlimit.
    rewrite checked_u64_id by (unfold u64_ok; lia). cbn [rbind ok_or redeem_pool_used redeem_pool base_tx].
    rewrite Hall. unfold pool_array, pad. autorewrite with blen. rewrite blen_zeros by (unlimit; lia). unlimit.
    decide_tests. cbn [orb]. rewrite <- !app_assoc. by rewrite (slice_app (pool_of pre) (di_redeem i)).
  - unfold checked_inline_redeem_bytes. cbn [redeem_script built_input]. rewrite Hp.
    rewrite slice_pad; [done|]. unfold pooled in Hp. by apply Z.ltb_ge in Hp.
Qed.
End base.

Lemma slot_same tx t u : same_slot t u = true -> slot tx t = slot tx u.
Proof.
  unfold same_slot. intros [H1 H2]%andb_true_iff. apply Z.eqb_eq in H1, H2.
  by destruct t, u; cbn in H1, H2; try done; cbn [slot]; subst.
Qed.

(** Fresh inputs and outputs hold no trailer. *)
Definition fresh_input (i : TransactionInput) : Prop :=
  ms45_hint i = no_hint /\ has_derivation_hint i = false /\ covenant_execution_present i = false.
Definition fresh_output (o : TransactionOutput) : Prop :=
  out_ms45_hint o = no_hint /\ out_has_derivation_hint o = false /\ has_covenant o = false.

Lemma base_fresh lim spare d :
  Forall fresh_input (tx_inputs (base_tx lim spare d)) /\ Forall fresh_output (tx_outputs (base_tx lim spare d)).
Proof.
  cbn [tx_inputs tx_outputs base_tx]. rewrite !Forall_app. split_and!; try (by apply Forall_replicate).
  - generalize 0. induction (d_inputs d); intros; cbn [built_inputs]; by constructor.
  - by apply Forall_map, Forall_forall.
Qed.

Lemma base_slot lim spare d t : slot (base_tx lim spare d) t = None \/ is_network t = true.
Proof.
  destruct (base_fresh lim spare d) as [Hin Hout].
  pose proof (fun p => get_default_typed _ _ p empty_input Hin ltac:(done)) as Hi.
  pose proof (fun p => get_default_typed _ _ p empty_output Hout ltac:(done)) as Ho.
  destruct t as [code|p v|p v|tweak|p v|p v|p v|p v]; cbn [slot is_network]; try (by right); left; try done;
    destruct (Hi p) as (H1 & H2 & H3), (Ho p) as (H4 & H5 & H6);
    unfold input_at, output_at; rewrite ?H1, ?H2, ?H3, ?H4, ?H5, ?H6; done.
Qed.

Lemma encodable_in_range inputs outputs t : encodable_trailer inputs outputs t -> in_range inputs outputs t.
Proof. destruct t; cbn; unfold byte_ok; intros; try done; lia. Qed.

Lemma doc_ext (a b : Doc) :
  d_global a = d_global b -> d_inputs a = d_inputs b -> d_outputs a = d_outputs b -> d_trailers a = d_trailers b ->
  a = b.
Proof. destruct a, b. cbn. congruence. Qed.

Section read_built.
Context (keyed : list Z -> list Z -> list Z) (schnorr_verify : list Z -> list Z -> list Z -> bool).
Local Notation the_doc := (doc_of (H := TransactionSource keyed schnorr_verify)).
Context (lim : TransactionLimits) (spare : nat) (d : Doc) (wire_limits : KsptModel.Limits).
Context (Hdoc : encodable_doc wire_limits d) (Hstore : storable d).
Local Notation base := (base_tx lim spare d).
Local Notation built := (built_tx lim spare d).

Lemma built_core : tx_core built = tx_core base.
Proof. apply trailers_keep_core. Qed.

Lemma built_counts :
  num_inputs built = KsptModel.g_input_count (d_global d) /\ num_outputs built = KsptModel.g_output_count (d_global d) /\
  tx_version built = KsptModel.g_version (d_global d) /\ locktime built = KsptModel.g_locktime (d_global d) /\
  subnetwork_id built = KsptModel.g_subnetwork_id (d_global d) /\ gas built = KsptModel.g_gas (d_global d) /\
  payload built = KsptModel.g_payload (d_global d) /\ limits built = lim.
Proof. pose proof built_core as H. unfold tx_core in H. injection H as H. split_and!; done. Qed.

Lemma read_inputs :
  map (doc_input_of (H := TransactionSource keyed schnorr_verify) built) (seqZ 0 (blen (d_inputs d))) = d_inputs d.
Proof.
  apply map_seqZ. intros k i Hk. pose proof Hdoc as (_ & Hin & _).
  rewrite Forall_forall in Hin. destruct (Hin i) as ((_ & _ & Hs) & (_ & _ & Hc) & _); [by apply (list_elem_of_lookup_2 _ k)|].
  destruct (core_views built base (Z.of_nat k) built_core) as (H1 & H2 & H3 & H4 & _).
  unfold doc_input_of. cbn [KsptModel.input KsptModel.signature_count KsptModel.signature KsptModel.redeem TransactionSource].
  unfold source_redeem. rewrite H1, H2, H4, (base_redeem lim spare d wire_limits Hdoc Hstore k i Hk).
  unfold source_input. rewrite (base_input lim spare d k i Hk).
  destruct i as [[] sg rd]. cbn [sig_count built_input di_signatures di_input KsptModel.in_script] in *.
  f_equal; [|apply map_seqZ; intros j s Hj].
  - cbn. f_equal. by apply built_script.
  - rewrite H3. unfold source_signature. rewrite (base_input lim spare d k _ Hk).
    rewrite (built_signature _ _ j s) by done. by destruct s.
Qed.

Lemma read_outputs : map (source_output built) (seqZ 0 (blen (d_outputs d))) = d_outputs d.
Proof.
  apply map_seqZ. intros k v Hk. pose proof Hdoc as (_ & _ & _ & Hout & _).
  rewrite Forall_forall in Hout. destruct (Hout v) as [_ Hs]; [by apply (list_elem_of_lookup_2 _ k)|].
  destruct (core_views built base (Z.of_nat k) built_core) as (_ & _ & _ & _ & ->).
  unfold source_output. rewrite (base_output lim spare d k v Hk). destruct v. cbn in *. f_equal. by apply built_script.
Qed.

Lemma read_trailers : d_trailers (the_doc built) = d_trailers d.
Proof.
  pose proof Hdoc as (Hg & Hin & Hic & Hout & Hoc & Htr & Hcan).
  destruct built_counts as (Hni & Hno & _).
  assert (Hbi : KsptModel.g_input_count (d_global d) <= blen (tx_inputs base)).
  { cbn [tx_inputs base_tx]. autorewrite with blen. rewrite <- Hic. unfold blen. rewrite length_built_inputs. lia. }
  assert (Hbo : KsptModel.g_output_count (d_global d) <= blen (tx_outputs base)).
  { cbn [tx_outputs base_tx]. autorewrite with blen. rewrite <- Hoc. unfold blen. rewrite length_map. lia. }
  destruct (slot_fold _ _ (d_trailers d) base (proj2 Hcan) Htr Hbi Hbo) as [Hread Hkeep].
  apply sorted_trailers_ext; [apply doc_of_canonical|apply Hcan|]. intros t.
  destruct Hg as ((_ & _ & ? & ? & _) & _).
  rewrite doc_trailers_spec by (by rewrite ?Hni, ?Hno). rewrite Hni, Hno. split.
  - intros [Hslot _]. destruct (existsb (fun u => same_slot u t) (d_trailers d)) eqn:Hex.
    + apply existsb_exists in Hex as (u & Hu%list_elem_of_In & Hsame).
      rewrite <- (slot_same _ _ _ Hsame) in Hslot. unfold built_tx in Hslot. rewrite (Hread u Hu) in Hslot.
      by injection Hslot as <-.
    + assert (Hnone : forall u, u ∈ d_trailers d -> same_slot u t = false).
      { intros u Hu. destruct (same_slot u t) eqn:Hs; [|done].
        rewrite <- Hex. symmetry. apply existsb_exists. exists u. by rewrite <- list_elem_of_In. }
      unfold built_tx in Hslot. rewrite (Hkeep t Hnone) in Hslot.
      destruct (base_slot lim spare d t) as [Hb|Hnet]; [by rewrite Hb in Hslot|].
      destruct Hcan as [(code & l & Hl) _]. destruct t; try done.
      specialize (Hnone (TNetwork code)). rewrite Hl in Hnone. discriminate Hnone. set_solver.
  - intros Ht. split; [by apply Hread|]. rewrite Forall_forall in Htr. by apply encodable_in_range, Htr.
Qed.

(** Reading the built transaction gives the document back, up to the flag,
    which is computed from the signatures. *)
Lemma read_built :
  KsptModel.g_flags (d_global d) = (if is_fully_signed keyed schnorr_verify built then 1 else 0) ->
  the_doc built = d.
Proof.
  intros Hflags. pose proof Hdoc as (Hg & _ & Hic & _ & Hoc & _ & _).
  destruct built_counts as (Hni & Hno & Hv & Hl & Hs & Hgas & Hp & _).
  destruct Hg as ((_ & _ & Hui & Huo & _) & _). unfold u32_ok, byte_ok in *.
  assert (Hglobal : source_global keyed schnorr_verify built = d_global d).
  { unfold source_global. rewrite Hni, Hno, Hv, Hl, Hs, Hgas, Hp, !Z.mod_small by lia.
    change KsptModel.FLAG_SIGNED_OR_COMPLETE with 1. rewrite <- Hflags. by destruct (d_global d). }
  apply doc_ext; [exact Hglobal| | |apply read_trailers].
  - cbn [doc_of d_inputs KsptModel.global TransactionSource]. rewrite Hglobal, <- Hic. apply read_inputs.
  - cbn [doc_of d_outputs KsptModel.global KsptModel.output TransactionSource]. rewrite Hglobal, <- Hoc. apply read_outputs.
Qed.
End read_built.

(** ** The built transaction is well typed *)

Lemma pad_typed n l : bytes_ok l -> blen l <= n -> bytes_of n (pad n l).
Proof.
  intros Hl Hn. pose proof (blen_nonneg l). split; [apply Forall_app; split; [done|by apply Forall_replicate]|].
  unfold pad. rewrite blen_app, blen_zeros by lia. lia.
Qed.

Lemma zeros_typed n : 0 <= n -> bytes_of n (zeros n).
Proof. intros. split; [by apply Forall_replicate|by apply blen_zeros]. Qed.

Lemma valid_sighash_byte s : typed_signature s -> typed_sig (built_sig s).
Proof. intros (? & ? & ?). split_and!; try done. by apply zeros_typed. Qed.

Lemma built_spk_typed version script :
  u16_ok version -> bytes_ok script -> blen script <= MAX_SCRIPT_SIZE -> typed_spk (built_spk version script).
Proof.
  intros. pose proof (blen_nonneg script). split_and!; [done|by apply pad_typed|].
  cbn [built_spk spk_script_len]. unfold u64_ok, MAX_SCRIPT_SIZE in *. lia.
Qed.

Lemma built_sigs_typed l :
  valid_signatures l -> Forall typed_sig (built_sigs l) /\ blen (built_sigs l) = MAX_SIGS_PER_INPUT.
Proof.
  intros (Hsigs & _ & Hc). split.
  - apply Forall_app. split; [|apply Forall_replicate, typed_empty_sig].
    apply Forall_map. apply (Forall_impl _ _ _ Hsigs). intros s [? _]. by apply valid_sighash_byte.
  - unfold built_sigs, blen in *. rewrite length_app, length_map, length_replicate. unlimit. lia.
Qed.

Lemma typed_built_input used d :
  valid_doc_input d -> 0 <= used < 65536 -> typed_tx_input (built_input used d).
Proof.
  intros ((Hi & Hops & Hs) & Hsigs & [Hr Hrl]) Hu. destruct Hi as (? & ? & ? & ? & ? & ? & ?).
  pose proof (blen_nonneg (di_redeem d)). pose proof (blen_nonneg (di_signatures d)).
  split; [by split|]. split; [done|]. split; [done|]. split; [split; [done|split; [by apply built_spk_typed|by_decide]]|].
  split; [by apply built_sigs_typed|].
  split; [destruct Hsigs as (_ & _ & Hc); cbn [sig_count built_input]; unlimit; unfold byte_ok; lia|].
  split; [by_decide|]. split.
  { cbn [redeem_script built_input]. destruct (pooled (di_redeem d)) eqn:Hp; [by apply zeros_typed|]. apply pad_typed; [done|].
    unfold pooled in Hp. by apply Z.ltb_ge in Hp. }
  split; [cbn [redeem_script_len built_input]; unlimit; unfold u64_ok; lia|].
  split; [cbn [redeem_script_offset built_input]; unfold u16_ok; destruct (pooled _); lia|].
  split_and!; by_decide.
Qed.

Lemma typed_built_inputs used l :
  Forall valid_doc_input l -> 0 <= used -> used + blen (pool_of l) < 65536 ->
  Forall typed_tx_input (built_inputs used l).
Proof.
  intros Hl. revert used. induction Hl as [|d l Hd _ IH]; intros used Hu Hmax; cbn [built_inputs]; constructor;
    unfold pool_of in Hmax; cbn [map concat] in Hmax; rewrite blen_app in Hmax;
    pose proof (blen_nonneg (pool_bytes d)); pose proof (blen_nonneg (concat (map pool_bytes l))).
  - apply typed_built_input; [done|lia].
  - apply IH; [lia|]. unfold pool_of. lia.
Qed.

Lemma typed_built_output v : valid_output v -> typed_tx_output (built_output v).
Proof.
  intros [(? & ? & ?) ?]. split; [done|]. split; [by apply built_spk_typed|]. split_and!; by_decide.
Qed.

Lemma typed_base lim spare d wire_limits :
  encodable_doc wire_limits d -> storable d -> typed_limits lim -> KsptModel.max_outputs wire_limits <= MAX_OUTPUTS ->
  typed_tx (base_tx lim spare d).
Proof.
  intros (Hg & Hin & Hic & Hout & Hoc & _) (_ & _ & _ & Hpool) Hlim Hmo.
  destruct Hg as ((? & ? & Hui & Huo & ? & ? & ? & ?) & _ & _ & _ & Hmax & _ & _). unfold u32_ok, byte_ok in Hui, Huo.
  pose proof (blen_nonneg (pool_of (d_inputs d))).
  assert (Hbytes : bytes_ok (pool_of (d_inputs d))).
  { unfold pool_of. clear -Hin. induction Hin as [|i l (_ & _ & [Hr _]) _ IH]; [constructor|].
    cbn [map concat]. apply Forall_app. split; [|done]. unfold pool_bytes. by case_match. }
  unfold typed_tx. cbn [base_tx tx_version tx_inputs num_inputs tx_outputs num_outputs locktime subnetwork_id gas
    payload stealth_tweak redeem_pool redeem_pool_used limits].
  split_and!; try done; try (unfold u64_ok, REDEEM_POOL_SIZE in *; lia).
  - apply Forall_app. split; [|apply Forall_replicate, typed_empty_input].
    apply typed_built_inputs; [done|done|]. unfold REDEEM_POOL_SIZE in Hpool. lia.
  - apply Forall_app. split; [|apply Forall_replicate, typed_empty_output].
    apply Forall_map. apply (Forall_impl _ _ _ Hout). intros v. apply typed_built_output.
  - autorewrite with blen. unfold blen in *. rewrite length_map, length_replicate. lia.
  - by apply zeros_typed.
  - unfold pool_array. apply pad_typed; [done|lia].
Qed.

Lemma Forall_alter {A} (P : A -> Prop) f k l : Forall P l -> (forall a, P a -> P (f a)) -> Forall P (alter f k l).
Proof.
  intros Hl Hf. revert k. induction Hl as [|a l Ha Hl IH]; intros [|k]; cbn; try constructor; auto.
Qed.

Lemma apply_trailer_typed inputs outputs t tx :
  encodable_trailer inputs outputs t -> typed_tx tx -> typed_tx (apply_trailer tx t).
Proof.
  intros Ht (? & Hi & ? & [Ho Hol] & ? & ? & ? & ? & ? & ? & ? & ? & ?).
  destruct t as [code|p v|p v|tweak|p v|p v|p v|p v]; cbn [encodable_trailer] in Ht;
    unfold typed_tx; cbn -[typed_limits Z.pow]; split_and!; try done; try (unfold blen in *; by rewrite length_alter).
  - apply Forall_alter; [done|]. intros i Hti. unfold typed_tx_input in *. cbn. destruct Ht as (_ & _ & ? & _). tauto.
  - apply Forall_alter; [done|]. intros i Hti. unfold typed_tx_output in *. cbn. destruct Ht as (_ & _ & ? & _). tauto.
  - apply Forall_alter; [done|]. intros i Hti. unfold typed_tx_output in *. cbn. destruct Ht as (_ & _ & [? ?]). tauto.
  - apply Forall_alter; [done|]. intros i Hti. unfold typed_tx_input in *. cbn. destruct Ht as (_ & _ & [? ?] & _). tauto.
  - apply Forall_alter; [done|]. intros i Hti. unfold typed_tx_input in *. cbn. destruct Ht as (_ & _ & [? ?] & _). tauto.
  - apply Forall_alter; [done|]. intros i Hti. unfold typed_tx_output in *. cbn. destruct Ht as (_ & _ & [? ?] & _). tauto.
Qed.

Lemma typed_built lim spare d wire_limits :
  encodable_doc wire_limits d -> storable d -> typed_limits lim -> KsptModel.max_outputs wire_limits <= MAX_OUTPUTS ->
  typed_tx (built_tx lim spare d).
Proof.
  intros Hdoc Hstore Hlim Hmo. pose proof (typed_base lim spare d wire_limits Hdoc Hstore Hlim Hmo) as Hb.
  destruct Hdoc as (_ & _ & _ & _ & _ & Htr & _). unfold built_tx. revert Hb. generalize (base_tx lim spare d).
  induction Htr as [|t l Ht _ IH]; intros tx Htx; [done|]. cbn [foldl]. apply IH. by eapply apply_trailer_typed.
Qed.

Section codec.
Context (keyed : list Z -> list Z -> list Z) (schnorr_verify : list Z -> list Z -> list Z -> bool).
Local Notation the_doc := (doc_of (H := TransactionSource keyed schnorr_verify)).

Lemma derivation_typed present branch index v :
  byte_ok branch -> u32_ok index -> derivation present branch index = Some v -> KsptModel.typed_derivation v.
Proof. unfold derivation. destruct (negb present); [done|]. intros ? ? [= <-]. done. Qed.

Lemma ms45_typed hint v : typed_hint hint -> ms45 hint = Some v -> KsptModel.typed_ms45 v.
Proof. unfold ms45. destruct (negb _); [done|]. intros (? & ? & ?) [= <-]. done. Qed.

Lemma checked_redeem_typed tx i bytes : typed_tx tx -> checked_redeem_bytes tx i = Ok bytes -> bytes_ok bytes.
Proof. intros Htx Hr. by apply (redeem_typed tx i bytes Htx) in Hr as [? _]. Qed.

Lemma input_at_typed tx i : typed_tx tx -> typed_tx_input (input_at tx i).
Proof. intros (_ & Hin & _). apply (get_default_typed _ _ _ _ Hin), typed_empty_input. Qed.
Lemma output_at_typed tx i : typed_tx tx -> typed_tx_output (output_at tx i).
Proof. intros (_ & _ & _ & [Hout _] & _). apply (get_default_typed _ _ _ _ Hout), typed_empty_output. Qed.

(** A typed transaction is a typed source of the encoder. *)
Lemma transaction_source_typed tx :
  typed_tx tx -> typed_source (H := TransactionSource keyed schnorr_verify) tx.
Proof.
  intros Htx. pose proof Htx as (? & _ & ? & _ & ? & ? & ? & ? & ? & ? & _).
  assert (Hi : forall i, typed_tx_input (input_at tx i)) by (intros; by apply input_at_typed).
  assert (Ho : forall i, typed_tx_output (output_at tx i)) by (intros; by apply output_at_typed).
  split; [|split; [|split; [|split]]].
  - cbn [KsptModel.global TransactionSource]. unfold source_global, KsptModel.typed_global.
    cbn [KsptModel.g_flags KsptModel.g_version KsptModel.g_input_count KsptModel.g_output_count KsptModel.g_locktime
         KsptModel.g_subnetwork_id KsptModel.g_gas KsptModel.g_payload].
    pose proof (Z.mod_pos_bound (num_inputs tx) (2 ^ 32) ltac:(lia)). pose proof (Z.mod_pos_bound (num_outputs tx) (2 ^ 8) ltac:(lia)).
    split_and!; try done. by destruct (is_fully_signed _ _ tx).
  - intros i _. cbn [KsptModel.input KsptModel.signature_count KsptModel.signature KsptModel.redeem KsptModel.input_ms45
      KsptModel.covenant_execution KsptModel.input_derivation TransactionSource].
    destruct (Hi i) as ([? ?] & ? & ? & (? & Hspk & ?) & [Hsigs _] & [? ?] & ? & _ & _ & _ & _ & _ & ? & ? & ? & ? & ?).
    destruct (script_bytes_typed _ Hspk) as [Hscript _]. destruct Hspk as (? & _).
    split; [done|]. split; [done|]. split.
    { intros j. unfold source_signature. destruct (get_default_typed _ _ j _ Hsigs typed_empty_sig) as (? & ? & ? & _). done. }
    split. { unfold source_redeem. destruct (checked_redeem_bytes tx i) eqn:Hr; [by eapply checked_redeem_typed|constructor]. }
    split; [intros v; by apply ms45_typed|]. split; [|intros v; by apply derivation_typed].
    intros v. destruct (covenant_execution_present _); [|done]. intros [= <-]. done.
  - intros i _. cbn [KsptModel.output KsptModel.output_ms45 KsptModel.covenant KsptModel.output_derivation TransactionSource].
    destruct (Ho i) as (? & Hspk & ? & ? & ? & ? & ?). destruct (script_bytes_typed _ Hspk) as [Hscript _]. destruct Hspk as (? & _).
    split; [done|]. split; [intros v; by apply ms45_typed|]. split; [|intros v; by apply derivation_typed].
    intros v. destruct (has_covenant _); [|done]. intros [= <-]. done.
  - cbn. by destruct (tx_network tx).
  - cbn. intros v. destruct (has_stealth_tweak tx); [|done]. by intros [= <-].
Qed.

Lemma signed_flags flags :
  byte_ok flags -> Z.land flags (Z.lxor u8_max KsptModel.ALLOWED_FLAGS) = 0 ->
  flags = (if negb (Z.land flags KsptModel.FLAG_SIGNED_OR_COMPLETE =? 0) then 1 else 0).
Proof.
  intros [H0 H1] Hland. change (Z.lxor u8_max KsptModel.ALLOWED_FLAGS) with 254 in Hland.
  assert (Hall : forallb (fun f => implb (Z.land f 254 =? 0) (f =? (if negb (Z.land f 1 =? 0) then 1 else 0)))
                   (seqZ 0 256) = true) by (vm_compute; reflexivity).
  rewrite forallb_forall in Hall. specialize (Hall flags).
  rewrite <- list_elem_of_In, elem_of_seqZ in Hall. specialize (Hall ltac:(lia)).
  rewrite Hland in Hall. by apply Z.eqb_eq in Hall.
Qed.

(** What a successful parse is. *)
Lemma parse_compact_inv data tx0 tx :
  typed_tx tx0 -> bytes_ok data -> blen data <= usize_max -> max_payload_bytes (limits tx0) <= u32_max ->
  parse_compact_kspt keyed schnorr_verify data tx0 = (Ok tt, tx) ->
  exists d, valid_doc (codec_limits tx0) d /\ storable d /\ data = doc_bytes d /\
    tx = built_tx (limits tx0) (length (tx_inputs tx0) - length (d_inputs d)) d /\
    the_doc tx = d /\ validate_partial_signed tx = Ok tt.
Proof.
  intros Htx Hok Hu Hmax. unfold parse_compact_kspt. change (codec_limits (clear tx0)) with (codec_limits tx0).
  unfold Decode.decode.
  destruct (Decode.decode_envelope (codec_limits tx0) (Reader.new data, clear tx0)) as [[flags|e] [r1 t1]] eqn:Henv; [|done].
  destruct (envelope_admits (codec_limits tx0) data _ _ _ _ Hok Hu Hmax Henv) as (d & Hd & -> & ->).
  destruct (envelope_decodes (T := Transaction) (E := Fault PsktError) (codec_limits tx0) d (clear tx0) Hd Hu) as (r' & Hrun).
  rewrite Hrun in Henv. clear Hrun. pose proof (doc_run d tx0 Htx Hd) as Hruns. unfold runs in Hruns.
  destruct (for_each (doc_events d) deliver (clear tx0)) as [[[]|[]] t2]; [|done..].
  injection Henv as -> ->. destruct Hruns as [Hstore ->]. cbn [KsptModel.env_flags].
  destruct (negb _) eqn:Hflag; [done|]. apply negb_false_iff, eqb_prop in Hflag.
  destruct (validate_partial_signed _) as [[]|] eqn:Hvalid; [|done]. intros [= <-].
  exists d. split_and!; try done. destruct Hd as [Henc _].
  apply (read_built _ _ _ _ _ _ Henc Hstore). destruct Henc as (((Hb & _) & _ & Hland & _) & _).
  rewrite (signed_flags _ Hb Hland) at 1. by rewrite Hflag.
Qed.

Lemma built_limits lim spare d : limits (built_tx lim spare d) = lim.
Proof. pose proof (trailers_keep_core (d_trailers d) (base_tx lim spare d)) as H. unfold tx_core in H. injection H as H. done. Qed.

(** C10: The compact form is canonical: whatever bytes parse into a transaction,
    that transaction keeps the ranges of its Rust types, is a valid partially
    signed transaction whose flag agrees with its signatures, and serializes
    back to exactly those bytes, at the start of any buffer that holds them. *)
Theorem compact_reserialize (data : list Z) (tx0 tx : Transaction) :
  typed_tx tx0 -> bytes_ok data -> blen data <= usize_max -> max_payload_bytes (limits tx0) <= u32_max ->
  parse_compact_kspt keyed schnorr_verify data tx0 = (Ok tt, tx) ->
  typed_tx tx /\ validate_partial_signed tx = Ok tt /\
  forall output, blen data <= blen output <= usize_max ->
    serialize_compact_kspt keyed schnorr_verify tx output = (Ok (blen data), data ++ drop (length data) output).
Proof.
  intros Htx Hok Hu Hmax Hparse.
  destruct (parse_compact_inv data tx0 tx Htx Hok Hu Hmax Hparse) as (d & [Henc Hauth] & Hstore & -> & Hbuilt & Hread & Hvalid).
  assert (Htyped : typed_tx tx).
  { rewrite Hbuilt. apply (typed_built _ _ _ (codec_limits tx0)); [done|done|apply Htx|done]. }
  split; [done|]. split; [done|]. intros output [Hlen Hou].
  unfold serialize_compact_kspt. rewrite Hvalid.
  assert (Hlim : codec_limits tx = codec_limits tx0) by (rewrite Hbuilt; unfold codec_limits; by rewrite built_limits).
  rewrite Hlim.
  destruct (encode_has_outcome (H := TransactionSource keyed schnorr_verify) tx (codec_limits tx0)
              (transaction_source_typed tx Htyped)) as [[_ Hout]|[Hno _]]; [|by rewrite Hread in Hno].
  rewrite Hread in Hout. specialize (Hout output Hou). rewrite (proj2 (Z.leb_le _ _) Hlen) in Hout.
  rewrite Hout. done.
Qed.
End codec.
