(* ===== verification/KsptAgree.v ===== *)
(** * The KSPT codec loses nothing

    Two transactions with the same documents have the same signing state, so
    what one serializes to, the other parses to: the completion flag a parser
    recomputes is the one the serializer wrote. *)

From S2P Require Import Prelude NetworkId Script TxModel Sighash Branch KsptModel KsptDoc KsptWire KsptEncode KsptDecode SigCheck KsptCodec SigProofs KsptCodecProofs KsptCopy.
Import TxModel Verification.

Lemma get_at_in {A} (l : list A) (d : A) i : 0 <= i < blen l -> get_at l i = Some (default d (get_at l i)).
Proof.
  intros Hi. destruct (get_at l i) eqn:Hget; [done|]. unfold get_at in Hget. rewrite (proj2 (Z.leb_le _ _)) in Hget by lia.
  apply lookup_ge_None in Hget. unfold blen in Hi. lia.
Qed.

Lemma try_fold_imap_ext {A B E T} (f : T -> Z * A -> result T E) (h : T -> Z * B -> result T E) (l1 : list A) (l2 : list B) k acc :
  length l1 = length l2 ->
  (forall j x y acc, l1 !! j = Some x -> l2 !! j = Some y ->
     f acc (Z.of_nat (k + j), x) = h acc (Z.of_nat (k + j), y)) ->
  try_fold f acc (imap (fun i x => (Z.of_nat (k + i), x)) l1) = try_fold h acc (imap (fun i x => (Z.of_nat (k + i), x)) l2).
Proof.
  revert l2 k acc. induction l1 as [|x l1 IH]; intros [|y l2] k acc Hlen Hext; try done.
  cbn [imap try_fold]. cbn [length] in Hlen. rewrite (Hext 0%nat x y) by done.
  destruct (h acc _) as [acc'|]; [|done]. cbn [rbind].
  assert (Hshift : forall {C} (l : list C), imap ((fun i c => (Z.of_nat (k + i), c)) ∘ S) l = imap (fun i c => (Z.of_nat (S k + i), c)) l).
  { intros C l. apply imap_ext. intros i c _. cbn. do 2 f_equal. lia. }
  rewrite !Hshift. apply IH; [lia|]. intros j a b acc'' Ha Hb.
  replace (S k + j)%nat with (k + S j)%nat by lia. by apply Hext.
Qed.

(** What signature checking reads of an input, besides its redeem script. *)
Record same_signing (a b : TransactionInput) : Prop := {
  same_script : slice (spk_script (script_public_key (utxo_entry a))) 0 (spk_script_len (script_public_key (utxo_entry a)))
    = slice (spk_script (script_public_key (utxo_entry b))) 0 (spk_script_len (script_public_key (utxo_entry b)));
  same_redeem_len : redeem_script_len a = redeem_script_len b;
  same_count : sig_count a = sig_count b;
  same_slots : length (sigs a) = length (sigs b);
  same_slot_at : forall k x y, sigs a !! k = Some x -> sigs b !! k = Some y ->
    sg_present x = sg_present y /\
    (Z.of_nat k < sig_count a ->
     sg_pubkey_pos x = sg_pubkey_pos y /\ sg_sighash_type x = sg_sighash_type y /\ sg_signature x = sg_signature y);
  same_present : covenant_execution_present a = covenant_execution_present b;
  same_masks : covenant_execution_present a = true ->
    covenant_execution_mask a = covenant_execution_mask b /\
    covenant_execution_true_mask a = covenant_execution_true_mask b }.

Section agree.
Context (keyed : list Z -> list Z -> list Z) (schnorr_verify : list Z -> list Z -> list Z -> bool).
Context (tx tx' : Transaction).
Hypothesis same_inputs : num_inputs tx = num_inputs tx'.
Hypothesis room : num_inputs tx <= blen (tx_inputs tx).
Hypothesis room' : num_inputs tx <= blen (tx_inputs tx').

Section one.
Context (i : Z) (Hi : 0 <= i < num_inputs tx).
Hypothesis same_input : same_signing (input_at tx i) (input_at tx' i).
Hypothesis same_redeem : checked_redeem_bytes tx i = checked_redeem_bytes tx' i.
Hypothesis same_hash : calculate_sighash keyed tx i SigHashType.All = calculate_sighash keyed tx' i SigHashType.All.

Lemma at_tx : get_at (tx_inputs tx) i = Some (input_at tx i).
Proof. apply get_at_in. lia. Qed.
Lemma at_tx' : get_at (tx_inputs tx') i = Some (input_at tx' i).
Proof. apply get_at_in. lia. Qed.

Lemma analyze_same : analyze_input_script tx i = analyze_input_script tx' i.
Proof.
  unfold analyze_input_script, try_analyze_input_script. f_equal.
  rewrite at_tx, at_tx', <- same_inputs. destruct (_ <=? _); [done|]. cbn [mbind option_bind].
  rewrite (same_script _ _ same_input), (same_redeem_len _ _ same_input), same_redeem. done.
Qed.

Lemma resolved_same : exists R,
  resolved_execution tx i = (let? r := R in Ok (input_at tx i, r)) /\
  resolved_execution tx' i = (let? r := R in Ok (input_at tx' i, r)) /\
  (forall r, R = Ok r -> covenant_execution_mask (input_at tx i) = covenant_execution_mask (input_at tx' i) /\
     covenant_execution_true_mask (input_at tx i) = covenant_execution_true_mask (input_at tx' i)).
Proof.
  exists (let? redeem := rmap_err (fun _ => Verification.InvalidModel) (checked_redeem_bytes tx i) in
          let? resolved := rmap_err (fun _ => InvalidBinding) (Resolver.resolve_covenant_branches redeem) in
          let? _ := validate_covenant_execution_binding (input_at tx i) (Resolver.selector_mask resolved) in Ok resolved).
  unfold resolved_execution. rewrite at_tx, at_tx', <- same_redeem. cbn [ok_or rbind].
  destruct (checked_redeem_bytes tx i) as [redeem|]; cbn [rmap_err rbind]; [|done].
  destruct (Resolver.resolve_covenant_branches redeem) as [resolved|]; cbn [rmap_err rbind]; [|done].
  assert (Hsame : validate_covenant_execution_binding (input_at tx i) (Resolver.selector_mask resolved)
    = validate_covenant_execution_binding (input_at tx' i) (Resolver.selector_mask resolved)).
  { unfold validate_covenant_execution_binding. rewrite <- (same_present _ _ same_input).
    destruct (covenant_execution_present (input_at tx i)) eqn:Hp; [|done]. cbn [negb].
    destruct (same_masks _ _ same_input Hp) as [-> ->]. done. }
  rewrite <- Hsame. destruct (validate_covenant_execution_binding _ _) eqn:Hv; cbn [rbind]; [|done].
  split_and!; [done..|]. intros r _. apply (same_masks _ _ same_input).
  unfold validate_covenant_execution_binding in Hv. by destruct (covenant_execution_present _).
Qed.

Lemma active_same :
  covenant_execution_mask (input_at tx i) = covenant_execution_mask (input_at tx' i) /\
  covenant_execution_true_mask (input_at tx i) = covenant_execution_true_mask (input_at tx' i) ->
  forall binding, active (input_at tx i) binding = active (input_at tx' i) binding.
Proof. intros [Hm Ht] binding. unfold active. by rewrite Hm, Ht. Qed.

Lemma active_count_same r :
  covenant_execution_mask (input_at tx i) = covenant_execution_mask (input_at tx' i) /\
  covenant_execution_true_mask (input_at tx i) = covenant_execution_true_mask (input_at tx' i) ->
  active_execution_key_count (input_at tx i) r = active_execution_key_count (input_at tx' i) r.
Proof.
  intros Hm. unfold active_execution_key_count. f_equal. apply List.filter_ext. by apply active_same.
Qed.

Lemma required_same : required_for_input tx i = required_for_input tx' i.
Proof.
  unfold required_for_input. rewrite analyze_same. destruct (analyze_input_script tx' i) as [[] []]; try done.
  unfold covenant_required_for_execution. destruct resolved_same as (R & -> & -> & Hm).
  destruct R as [r|]; [|done]. cbn [rbind]. by rewrite (active_count_same r (Hm r eq_refl)).
Qed.

Lemma expected_same position : expected_xonly_for_position tx i position = expected_xonly_for_position tx' i position.
Proof.
  unfold expected_xonly_for_position. rewrite analyze_same.
  unfold p2pk_xonly_for_position, covenant_xonly_for_position. rewrite at_tx, at_tx', same_redeem.
  cbn [ok_or rbind]. by rewrite (same_script _ _ same_input).
Qed.

Lemma verify_same position byte signature :
  verify_signature_bytes keyed schnorr_verify tx i position byte signature
  = verify_signature_bytes keyed schnorr_verify tx' i position byte signature.
Proof.
  unfold verify_signature_bytes. rewrite expected_same, analyze_same, same_hash.
  assert (Hpos : covenant_position_matches_execution tx i position = covenant_position_matches_execution tx' i position).
  { unfold covenant_position_matches_execution. destruct resolved_same as (R & -> & -> & Hm).
    destruct R as [r|]; [|done]. cbn [rbind]. destruct (rmap_err _ (Resolver.key_at r position)) as [binding|]; [|done].
    cbn [rbind]. by rewrite (active_same (Hm r eq_refl)). }
  by rewrite Hpos.
Qed.

Lemma verified_same : verified_count keyed schnorr_verify tx i Kspt = verified_count keyed schnorr_verify tx' i Kspt.
Proof.
  unfold verified_count. rewrite at_tx, at_tx'. cbn [ok_or rbind]. unfold verified_kspt_count.
  rewrite <- (same_count _ _ same_input). destruct (_ <? _); [done|]. f_equal.
  apply (try_fold_imap_ext _ _ _ _ 0); [apply same_input|].
  intros j x y [seen count] Hx Hy. destruct (same_slot_at _ _ same_input j x y Hx Hy) as [Hp Hfields].
  unfold verify_kspt_slot. rewrite <- Hp. destruct (Z.leb_spec (sig_count (input_at tx i)) (Z.of_nat (0 + j))); [done|].
  destruct Hfields as (-> & -> & ->); [lia|]. by rewrite verify_same.
Qed.

Lemma input_signed_same : input_fully_signed keyed schnorr_verify tx i = input_fully_signed keyed schnorr_verify tx' i.
Proof. unfold input_fully_signed. by rewrite required_same, verified_same. Qed.
End one.

Lemma fully_signed_same :
  (forall i, 0 <= i < num_inputs tx ->
     same_signing (input_at tx i) (input_at tx' i) /\ checked_redeem_bytes tx i = checked_redeem_bytes tx' i /\
     calculate_sighash keyed tx i SigHashType.All = calculate_sighash keyed tx' i SigHashType.All) ->
  kspt_is_fully_signed keyed schnorr_verify tx = kspt_is_fully_signed keyed schnorr_verify tx'.
Proof.
  intros Hall. unfold kspt_is_fully_signed. rewrite <- same_inputs.
  rewrite (proj2 (Z.ltb_ge _ _) room), (proj2 (Z.ltb_ge _ _) room'). destruct (_ || _); [done|].
  assert (Hext : forall l, Forall (fun i => 0 <= i < num_inputs tx) l ->
    forallb (input_fully_signed keyed schnorr_verify tx) l = forallb (input_fully_signed keyed schnorr_verify tx') l).
  { induction 1 as [|i l Hi _ IH]; [done|]. cbn [forallb]. destruct (Hall i Hi) as (? & ? & ?).
    by rewrite (input_signed_same i Hi), IH. }
  apply Hext, Forall_forall. intros i Hi%elem_of_seqZ. lia.
Qed.
End agree.

(** ** Lists by their indices *)

Lemma slice_indices {A} (l : list A) (e : A) n :
  0 <= n <= blen l -> default [] (slice l 0 n) = map (fun i => default e (get_at l i)) (seqZ 0 n).
Proof.
  intros Hn. unfold slice. decide_tests. cbn [default from_option andb]. unfold id. rewrite Z.sub_0_r, drop_0. apply list_eq. intros k.
  rewrite list_lookup_fmap. destruct (Nat.ltb_spec k (Z.to_nat n)).
  - rewrite lookup_take_lt, lookup_seqZ_lt by lia. cbn [fmap option_fmap option_map]. rewrite Z.add_0_l, get_at_nat.
    destruct (l !! k) eqn:Hk; [done|]. apply lookup_ge_None in Hk. unfold blen in Hn. lia.
  - rewrite lookup_take_ge, lookup_seqZ_ge by lia. done.
Qed.

Lemma get_at_indices {A} (f : Z -> A) n i : 0 <= i < n -> get_at (map f (seqZ 0 n)) i = Some (f i).
Proof.
  intros Hi. unfold get_at. rewrite (proj2 (Z.leb_le _ _)), list_lookup_fmap, lookup_seqZ_lt by lia. cbn. do 2 f_equal. lia.
Qed.

Lemma try_fold_each {A B E} (f : B -> A -> result B E) acc l r x :
  try_fold f acc l = Ok r -> x ∈ l -> exists a b, f a x = Ok b.
Proof.
  revert acc. induction l as [|y l IH]; intros acc; [set_solver|]. cbn [try_fold].
  intros (b & Hb & Hl)%rbind_Ok_inv [->|Hx]%elem_of_cons; [by exists acc, b|by apply (IH b)].
Qed.

Lemma for_range_each {E} n (body : Z -> result unit E) i :
  for_range n body = Ok tt -> 0 <= i < n -> body i = Ok tt.
Proof.
  intros Hall Hi. destruct (try_fold_each _ _ _ _ i Hall) as ([] & [] & H); [|done]. apply elem_of_seqZ. lia.
Qed.

Lemma for_range_intro {E} n (body : Z -> result unit E) :
  (forall i, 0 <= i < n -> body i = Ok tt) -> for_range n body = Ok tt.
Proof.
  intros Hall. unfold for_range. assert (Hl : Forall (fun i => body i = Ok tt) (seqZ 0 n)).
  { apply Forall_forall. intros i Hi%elem_of_seqZ. apply Hall. lia. }
  induction Hl as [|i l Hb _ IH]; [done|]. cbn [try_fold]. by rewrite Hb.
Qed.

Lemma try_fold_unit_intro {A E} (body : A -> result unit E) l :
  Forall (fun x => body x = Ok tt) l -> try_fold (fun _ x => body x) tt l = Ok tt.
Proof. induction 1 as [|x l Hx _ IH]; [done|]. cbn [try_fold]. by rewrite Hx. Qed.

Lemma inputs_indices tx : 0 <= num_inputs tx <= blen (tx_inputs tx) -> inputs tx = map (input_at tx) (seqZ 0 (num_inputs tx)).
Proof. apply slice_indices. Qed.
Lemma outputs_indices tx : 0 <= num_outputs tx <= blen (tx_outputs tx) -> outputs tx = map (output_at tx) (seqZ 0 (num_outputs tx)).
Proof. apply slice_indices. Qed.

(** ** What validation establishes *)

Record sound_input (i : TransactionInput) : Prop := {
  si_script_len : spk_script_len (script_public_key (utxo_entry i)) <= MAX_SCRIPT_SIZE;
  si_count : sig_count i <= MAX_SIGS_PER_INPUT;
  si_slots : forall k s, (k < Z.to_nat MAX_SIGS_PER_INPUT)%nat -> sigs i !! k = Some s ->
    (Z.of_nat k < sig_count i -> sg_present s = true /\ sg_sighash_type s = SigHashType.to_byte SigHashType.All) /\
    (sig_count i <= Z.of_nat k -> sg_present s = false) }.

Record sound_tx (tx : Transaction) : Prop := {
  st_inputs : 0 < num_inputs tx <= blen (tx_inputs tx);
  st_max : num_inputs tx <= max_inputs (limits tx);
  st_outputs : 0 < num_outputs tx <= MAX_OUTPUTS;
  st_payload : blen (payload tx) <= Z.min (max_payload_bytes (limits tx)) MAX_PAYLOAD_SIZE;
  st_amounts : exists a, transaction_amounts tx = Ok a;
  st_input : forall i, 0 <= i < num_inputs tx ->
    sound_input (input_at tx i) /\ validate_signature_slots (input_at tx i) = Ok tt /\
    exists r, checked_redeem_bytes tx i = Ok r;
  st_output : forall i, 0 <= i < num_outputs tx ->
    spk_script_len (out_script_public_key (output_at tx i)) <= MAX_SCRIPT_SIZE /\
    (has_covenant (output_at tx i) = true -> covenant_auth_input (output_at tx i) < num_inputs tx) }.

Lemma slots_sound i : validate_signature_slots i = Ok tt ->
  sig_count i <= MAX_SIGS_PER_INPUT /\
  forall k s, (k < Z.to_nat MAX_SIGS_PER_INPUT)%nat -> sigs i !! k = Some s ->
    (Z.of_nat k < sig_count i -> sg_present s = true /\ sg_sighash_type s = SigHashType.to_byte SigHashType.All) /\
    (sig_count i <= Z.of_nat k -> sg_present s = false).
Proof.
  unfold validate_signature_slots. destruct (Z.ltb_spec MAX_SIGS_PER_INPUT (sig_count i)); [done|].
  intros (seen & Hslots & _)%rbind_Ok_inv. split; [done|]. intros k s Hk Hs.
  destruct (try_fold_each _ _ _ _ (Z.of_nat k) Hslots) as (a & b & Hb); [apply elem_of_seqZ; lia|].
  cbv beta in Hb. rewrite get_at_nat, Hs in Hb. cbn [default from_option] in Hb. unfold id in Hb. cbv zeta in Hb.
  destruct (Z.ltb_spec (Z.of_nat k) (sig_count i)); split; intros; try lia.
  - unfold validate_present_signature in Hb. destruct (sg_present s); [|done].
    destruct (Z.eqb_spec (sg_sighash_type s) (SigHashType.to_byte SigHashType.All)); done.
  - by destruct (sg_present s).
Qed.

Lemma validated_sound tx : typed_tx tx -> validate_partial_signed tx = Ok tt -> sound_tx tx.
Proof.
  intros Htx (u & Hbase & Hinputs)%rbind_Ok_inv.
  apply rbind_Ok_inv in Hbase as ([] & Hshape & Hbase). apply rbind_Ok_inv in Hbase as (amounts & Hamounts & Hbase).
  apply rbind_Ok_inv in Hbase as ([] & Hin & Hout).
  pose proof Htx as (_ & _ & Hn & [_ Hol] & Hm & _). unfold u64_ok in Hn, Hm.
  unfold validate_transaction_shape in Hshape.
  destruct (Z.eqb_spec (num_inputs tx) 0); [done|]. destruct (Z.ltb_spec (max_inputs (limits tx)) (num_inputs tx)); [done|].
  destruct (Z.ltb_spec (blen (tx_inputs tx)) (num_inputs tx)); [done|]. destruct (Z.eqb_spec (num_outputs tx) 0); [done|].
  destruct (Z.ltb_spec MAX_OUTPUTS (num_outputs tx)); [done|].
  destruct (Z.ltb_spec (Z.min (max_payload_bytes (limits tx)) MAX_PAYLOAD_SIZE) (blen (payload tx))); [done|].
  constructor; [lia|lia|lia|lia|by exists amounts| |].
  - intros i Hi. apply (for_range_each _ _ i) in Hinputs; [|lia]. apply (for_range_each _ _ i) in Hin; [|lia].
    cbv beta zeta in Hinputs, Hin. fold (input_at tx i) in Hinputs, Hin.
    destruct (_ && _); [done|]. apply rbind_Ok_inv in Hinputs as ([] & Hslots & _).
    destruct (Z.ltb_spec MAX_SCRIPT_SIZE (spk_script_len (script_public_key (utxo_entry (input_at tx i))))); [done|].
    apply rbind_Ok_inv in Hin as (r & Hr & _). destruct (slots_sound _ Hslots) as [Hc Hs].
    split_and!; [by constructor|done|by exists r].
  - intros i Hi. unfold validate_outputs in Hout. rewrite outputs_indices in Hout by lia.
    destruct (try_fold_each _ _ _ _ (output_at tx i) Hout) as ([] & [] & Hb).
    { apply list_elem_of_fmap. exists i. split; [done|]. apply elem_of_seqZ. lia. }
    cbv beta in Hb. destruct (Z.ltb_spec MAX_SCRIPT_SIZE (spk_script_len (out_script_public_key (output_at tx i)))); [done|].
    split; [done|]. intros Hcov. rewrite Hcov in Hb. cbn [andb] in Hb.
    destruct (Z.leb_spec (num_inputs tx) (covenant_auth_input (output_at tx i))); [done|lia].
Qed.

Lemma checked_redeem_len tx i r :
  typed_tx tx -> checked_redeem_bytes tx i = Ok r -> redeem_script_len (input_at tx i) = blen r.
Proof.
  intros Htx. unfold checked_redeem_bytes. destruct (_ || _); [done|]. fold (input_at tx i).
  pose proof (input_at_typed tx i Htx) as Hi.
  destruct Hi as (_ & _ & _ & _ & _ & _ & _ & _ & Hlen & Hoff & _). unfold u64_ok, u16_ok in *.
  destruct (Z.eqb_spec (redeem_script_len (input_at tx i)) 0) as [->|]; [by intros [= <-]|].
  destruct (_ <? _); [done|]. destruct (redeem_in_pool _).
  - unfold checked_pool_redeem_bytes. intros (e & He%ok_or_Ok & Hr)%rbind_Ok_inv. checked_inv. subst e.
    destruct (_ || _); [done|].
    destruct (Z.ltb_spec (blen (redeem_pool tx)) (redeem_script_offset (input_at tx i) + redeem_script_len (input_at tx i))); [done|].
    injection Hr as <-. destruct (slice _ _ _) eqn:Hs.
    + apply slice_Some in Hs as (l1 & l3 & _ & _ & Hl). cbn. lia.
    + apply slice_None in Hs; lia.
  - intros Hs%ok_or_Ok. apply slice_Some in Hs as (l1 & l3 & _ & _ & Hl). lia.
Qed.

Lemma script_slice s : typed_spk s -> spk_script_len s <= MAX_SCRIPT_SIZE ->
  slice (spk_script s) 0 (spk_script_len s) = Some (script_bytes s).
Proof.
  intros (_ & [_ Hb] & Hlen) Hmax. unfold script_bytes, u64_ok in *. destruct (slice _ _ _) eqn:Hs; [done|].
  apply slice_None in Hs; lia.
Qed.

(** ** The signature hash reads the document's fields *)

Lemma sighash_ext keyed (tx tx' : Transaction) i :
  0 <= i < num_inputs tx ->
  tx_version tx = tx_version tx' -> num_inputs tx = num_inputs tx' -> num_outputs tx = num_outputs tx' ->
  locktime tx = locktime tx' -> subnetwork_id tx = subnetwork_id tx' -> gas tx = gas tx' -> payload tx = payload tx' ->
  (forall k, 0 <= k < num_inputs tx -> sighash_input tx k = sighash_input tx' k) ->
  (forall k, 0 <= k < num_outputs tx -> sighash_output tx k = sighash_output tx' k) ->
  calculate_sighash keyed tx i SigHashType.All = calculate_sighash keyed tx' i SigHashType.All.
Proof.
  intros Hi Hv Hn Hm Hl Hs Hg Hp Hin Hout. unfold calculate_sighash, sighash_preimage, previous_outputs_hash,
    sequences_hash, sig_op_counts_hash, outputs_hash, payload_hash.
  cbn [s_version s_input_count s_input s_output_count s_output s_locktime s_subnetwork_id s_gas s_payload TransactionSighash
       SigHashType.is_anyone_can_pay SigHashType.is_sighash_single SigHashType.is_sighash_none].
  rewrite <- Hv, <- Hn, <- Hm, <- Hl, <- Hs, <- Hg, <- Hp, <- (Hin i Hi).
  assert (Hi1 : forall A (f : SighashInput -> A), each (num_inputs tx) (fun k => f (sighash_input tx k))
                  = each (num_inputs tx) (fun k => f (sighash_input tx' k))).
  { intros A f. apply each_ext. intros k Hk. by rewrite (Hin k Hk). }
  assert (Ho1 : forall A (f : SighashOutput -> A), each (num_outputs tx) (fun k => f (sighash_output tx k))
                  = each (num_outputs tx) (fun k => f (sighash_output tx' k))).
  { intros A f. apply each_ext. intros k Hk. by rewrite (Hout k Hk). }
  rewrite (Hi1 _ (fun v => si_transaction_id v ++ le_bytes 4 (si_index v))), (Hi1 _ (fun v => le_bytes 8 (si_sequence v))),
    (Hi1 _ (fun v => [si_sig_op_count v])), (Ho1 _ (fun o => hash_output o (tx_version tx))).
  done.
Qed.

Definition input_view (v : KsptModel.Input) : SighashInput := {|
  si_transaction_id := KsptModel.previous_tx_id v; si_index := KsptModel.previous_index v;
  si_sequence := KsptModel.sequence v; si_sig_op_count := KsptModel.sig_op_count v;
  si_script_version := KsptModel.in_script_version v; si_script := KsptModel.in_script v;
  si_amount := KsptModel.in_amount v |}.

Lemma sighash_input_view tx i :
  0 <= i < num_inputs tx -> num_inputs tx <= blen (tx_inputs tx) -> sighash_input tx i = input_view (source_input tx i).
Proof. intros. unfold sighash_input. rewrite inputs_indices by lia. by rewrite get_at_indices. Qed.

Lemma sighash_output_view tx j :
  0 <= j < num_outputs tx -> num_outputs tx <= blen (tx_outputs tx) ->
  sighash_output tx j =
    let v := source_output tx j in
    {| so_value := KsptModel.out_amount v; so_script_version := KsptModel.out_script_version v;
       so_script := KsptModel.out_script v;
       so_covenant := let o := output_at tx j in
         if has_covenant o then Some (covenant_auth_input o, covenant_id o) else None |}.
Proof. intros. unfold sighash_output. rewrite outputs_indices by lia. by rewrite get_at_indices. Qed.

Lemma core_lengths tx tx' : tx_core tx = tx_core tx' ->
  blen (tx_inputs tx) = blen (tx_inputs tx') /\ blen (tx_outputs tx) = blen (tx_outputs tx').
Proof.
  unfold tx_core. intros Hcore. injection Hcore as _ _ _ _ _ _ _ _ _ _ Hin Hout.
  apply (f_equal length) in Hin, Hout. rewrite !length_map in Hin, Hout. unfold blen. lia.
Qed.

Lemma base_lengths lim spare d :
  blen (d_inputs d) <= blen (tx_inputs (base_tx lim spare d)) /\
  blen (d_outputs d) <= blen (tx_outputs (base_tx lim spare d)).
Proof.
  unfold blen. cbn [tx_inputs tx_outputs base_tx]. rewrite !length_app, length_built_inputs, length_map. lia.
Qed.

Lemma try_fold_ext {A B E} (f g : B -> A -> result B E) l acc :
  (forall x acc, x ∈ l -> f acc x = g acc x) -> try_fold f acc l = try_fold g acc l.
Proof.
  revert acc. induction l as [|x l IH]; intros acc Hext; [done|]. cbn [try_fold].
  rewrite (Hext x acc) by set_solver. destruct (g acc x); [|done]. cbn [rbind]. apply IH. set_solver.
Qed.

Lemma try_fold_map {A B C E} (f : B -> A -> result B E) (h : C -> A) l acc :
  try_fold f acc (map h l) = try_fold (fun acc c => f acc (h c)) acc l.
Proof.
  revert acc. induction l as [|c l IH]; intros acc; [done|]. cbn [map try_fold]. destruct (f acc (h c)); [|done]. apply IH.
Qed.

(** Slots that the other input copies pass the same test. *)
Lemma slots_intro a b :
  sound_input a -> validate_signature_slots a = Ok tt -> same_signing a b -> 0 <= sig_count a ->
  length (sigs a) = Z.to_nat MAX_SIGS_PER_INPUT ->
  sighash_type b = SigHashType.to_byte SigHashType.All -> validate_signature_slots b = Ok tt.
Proof.
  intros [_ Hcount Hslots] Ha Hsame Hpos Hfive Hty. unfold validate_signature_slots in *.
  rewrite <- (same_count _ _ Hsame). rewrite (proj2 (Z.ltb_ge _ _) Hcount) in *.
  apply rbind_Ok_inv in Ha as (seen & Hrun & _).
  assert (Hget : forall k, 0 <= k < MAX_SIGS_PER_INPUT -> exists x y,
    sigs a !! Z.to_nat k = Some x /\ sigs b !! Z.to_nat k = Some y /\
    get_at (sigs a) k = Some x /\ get_at (sigs b) k = Some y).
  { intros k Hk. pose proof (same_slots _ _ Hsame) as Hlen. unfold get_at. rewrite (proj2 (Z.leb_le _ _)) by lia.
    destruct (lookup_lt_is_Some_2 (sigs a) (Z.to_nat k) ltac:(lia)) as [x Hx].
    destruct (lookup_lt_is_Some_2 (sigs b) (Z.to_nat k) ltac:(lia)) as [y Hy]. by exists x, y. }
  erewrite try_fold_ext; [rewrite Hrun|].
  - cbn [rbind]. destruct (Z.eqb_spec (sig_count a) 0); [done|]. cbn [negb andb].
    destruct (Hget 0 ltac:(done)) as (x & y & Hx & Hy & _ & ->). cbn [default from_option]. unfold id.
    destruct (same_slot_at _ _ Hsame _ x y Hx Hy) as [_ Hfields]. destruct (Hslots 0%nat x ltac:(unfold MAX_SIGS_PER_INPUT; lia) Hx) as [Hin _].
    destruct Hfields as (_ & <- & _); [cbn; lia|]. destruct Hin as [_ ->]; [cbn; lia|]. by rewrite Hty, Z.eqb_refl.
  - intros k acc Hk%elem_of_seqZ. destruct (Hget k ltac:(lia)) as (x & y & Hx & Hy & -> & ->).
    cbn [default from_option]. unfold id. destruct (same_slot_at _ _ Hsame _ x y Hx Hy) as [Hp Hfields]. rewrite <- Hp.
    destruct (Z.ltb_spec k (sig_count a)); [|done]. destruct Hfields as (Hf1 & Hf2 & _); [lia|].
    unfold validate_present_signature. by rewrite Hp, Hf1, Hf2.
Qed.

Section rebuilt.
Context (keyed : list Z -> list Z -> list Z) (schnorr_verify : list Z -> list Z -> list Z -> bool).
Local Notation the_doc := (doc_of (H := TransactionSource keyed schnorr_verify)).
Context (tx : Transaction) (lim : TransactionLimits) (spare : nat) (wire_limits : KsptModel.Limits).
Context (Htx : typed_tx tx) (Hsound : sound_tx tx) (Hu32 : num_inputs tx <= u32_max).
Local Notation d := (the_doc tx).
Context (Hdoc : encodable_doc wire_limits d) (Hpool : blen (pool_of (d_inputs d)) <= REDEEM_POOL_SIZE).
Context (Hlim : typed_limits lim) (Hmo : KsptModel.max_outputs wire_limits <= MAX_OUTPUTS).
Local Notation tx' := (built_tx lim spare d).

Lemma doc_count : KsptModel.g_input_count (d_global d) = num_inputs tx.
Proof.
  cbn. apply Z.mod_small. destruct Hsound as [? _ _ _ _ _ _]. unfold u32_max in Hu32. lia.
Qed.
Lemma doc_out_count : KsptModel.g_output_count (d_global d) = num_outputs tx.
Proof. cbn. apply Z.mod_small. destruct Hsound as [_ _ ? _ _ _ _]. unfold MAX_OUTPUTS in *. lia. Qed.

Lemma doc_input_at i : 0 <= i < num_inputs tx ->
  d_inputs d !! Z.to_nat i = Some (doc_input_of (H := TransactionSource keyed schnorr_verify) tx i).
Proof.
  intros Hi. cbn [doc_of d_inputs]. pose proof doc_count as Hc. cbn [doc_of d_global] in Hc. rewrite Hc.
  rewrite list_lookup_fmap, lookup_seqZ_lt by lia. cbn. do 2 f_equal. lia.
Qed.

Lemma doc_storable : storable d.
Proof.
  unfold storable, sink_accepts. rewrite doc_count, doc_out_count. destruct Hsound as [Hn _ Hm _ _ Hin _].
  split_and!; try lia. apply Forall_forall. intros di Hdi. cbn [doc_of d_inputs] in Hdi.
  apply list_elem_of_fmap in Hdi as (i & -> & Hi%elem_of_seqZ).
  pose proof doc_count as Hc. cbn [doc_of d_global] in Hc. rewrite Hc in Hi.
  destruct (Hin i ltac:(lia)) as ([_ Hcount Hslots] & _ & _).
  unfold all_sighash. cbn [doc_input_of di_signatures KsptModel.signature KsptModel.signature_count TransactionSource].
  apply Forall_map, Forall_forall. intros k Hk%elem_of_seqZ. cbn [compose]. unfold source_signature. cbn [KsptModel.sighash].
  pose proof (input_at_typed tx i Htx) as Hti.
  destruct Hti as (_ & _ & _ & _ & [_ Hfive] & _). pose proof (get_at_in (sigs (input_at tx i)) empty_sig k ltac:(lia)) as Hget.
  unfold get_at in Hget at 1. rewrite (proj2 (Z.leb_le _ _)) in Hget by lia.
  unfold MAX_SIGS_PER_INPUT in *. apply (Hslots (Z.to_nat k)); [lia|done|lia].
Qed.

(** The rebuilt input has the same document. *)
Lemma same_doc_input i : 0 <= i < num_inputs tx ->
  doc_input_of (H := TransactionSource keyed schnorr_verify) tx' i
  = doc_input_of (H := TransactionSource keyed schnorr_verify) tx i.
Proof.
  intros Hi. pose proof (read_inputs keyed schnorr_verify lim spare d wire_limits Hdoc doc_storable) as Hread.
  pose proof (doc_input_at i Hi) as Hat. rewrite <- Hread in Hat at 1. rewrite list_lookup_fmap, lookup_seqZ_lt in Hat.
  - cbn [fmap option_fmap option_map] in Hat. apply (inj Some) in Hat. rewrite <- Hat. f_equal. lia.
  - pose proof doc_count. destruct Hdoc as (_ & _ & -> & _). lia.
Qed.

Lemma same_doc_output j : 0 <= j < num_outputs tx -> source_output tx' j = source_output tx j.
Proof.
  intros Hj. pose proof (read_outputs lim spare d wire_limits Hdoc) as Hread.
  pose proof doc_out_count as Hc.
  assert (Hat : d_outputs d !! Z.to_nat j = Some (source_output tx j)).
  { cbn [doc_of d_outputs]. cbn [doc_of d_global] in Hc. rewrite Hc, list_lookup_fmap, lookup_seqZ_lt by lia.
    cbn [fmap option_fmap option_map]. f_equal. cbn [KsptModel.output TransactionSource]. f_equal. lia. }
  rewrite <- Hread in Hat at 1. rewrite list_lookup_fmap, lookup_seqZ_lt in Hat.
  - cbn [fmap option_fmap option_map] in Hat. apply (inj Some) in Hat. rewrite <- Hat. f_equal. lia.
  - destruct Hdoc as (_ & _ & _ & _ & -> & _). lia.
Qed.

Lemma rebuilt_counts : num_inputs tx' = num_inputs tx /\ num_outputs tx' = num_outputs tx.
Proof.
  destruct (built_counts lim spare d) as (-> & -> & _). by rewrite doc_count, doc_out_count.
Qed.

(** A record is in one transaction's slot when it is in the other's. *)
Lemma same_trailer t : in_range (num_inputs tx) (num_outputs tx) t -> slot tx' t = Some t <-> slot tx t = Some t.
Proof.
  intros Hrange. destruct rebuilt_counts as [Hi Ho]. destruct Hsound as [Hn _ Hm _ _ _ _].
  assert (u32_ok (num_inputs tx) /\ byte_ok (num_outputs tx)) as [Hu1 Hu2].
  { unfold u32_ok, byte_ok, u32_max, MAX_OUTPUTS in *. lia. }
  pose proof (doc_trailers_spec keyed schnorr_verify tx t Hu1 Hu2) as H1.
  pose proof (doc_trailers_spec keyed schnorr_verify tx' t ltac:(by rewrite Hi) ltac:(by rewrite Ho)) as H2.
  rewrite (read_trailers keyed schnorr_verify lim spare d wire_limits Hdoc doc_storable) in H2. rewrite Hi, Ho in H2. tauto.
Qed.

Lemma same_execution i : 0 <= i < num_inputs tx ->
  covenant_execution_present (input_at tx i) = covenant_execution_present (input_at tx' i) /\
  (covenant_execution_present (input_at tx i) = true ->
   covenant_execution_mask (input_at tx i) = covenant_execution_mask (input_at tx' i) /\
   covenant_execution_true_mask (input_at tx i) = covenant_execution_true_mask (input_at tx' i)).
Proof.
  intros Hi. pose proof (fun v => same_trailer (TCovenantExecution i v) Hi) as Hsame. cbn [slot] in Hsame.
  destruct (covenant_execution_present (input_at tx i)), (covenant_execution_present (input_at tx' i)).
  - split; [done|]. intros _. pose proof (proj2 (Hsame _) eq_refl) as Hs. by injection Hs as -> ->.
  - by pose proof (proj2 (Hsame _) eq_refl).
  - by pose proof (proj1 (Hsame _) eq_refl).
  - done.
Qed.

Lemma same_covenant j : 0 <= j < num_outputs tx ->
  has_covenant (output_at tx j) = has_covenant (output_at tx' j) /\
  (has_covenant (output_at tx j) = true ->
   covenant_auth_input (output_at tx j) = covenant_auth_input (output_at tx' j) /\
   covenant_id (output_at tx j) = covenant_id (output_at tx' j)).
Proof.
  intros Hj. pose proof (fun v => same_trailer (TCovenant j v) Hj) as Hsame. cbn [slot] in Hsame.
  destruct (has_covenant (output_at tx j)), (has_covenant (output_at tx' j)).
  - split; [done|]. intros _. pose proof (proj2 (Hsame _) eq_refl) as Hs. by injection Hs as -> ->.
  - by pose proof (proj2 (Hsame _) eq_refl).
  - by pose proof (proj1 (Hsame _) eq_refl).
  - done.
Qed.

(** The rebuilt input, but for its trailers. *)
Lemma rebuilt_input i : 0 <= i < num_inputs tx -> exists used,
  input_core (input_at tx' i)
  = input_core (built_input used (doc_input_of (H := TransactionSource keyed schnorr_verify) tx i)) /\
  checked_redeem_bytes tx' i = Ok (source_redeem tx i).
Proof.
  intros Hi. pose proof (doc_input_at i Hi) as Hat. pose proof (built_core lim spare d) as Hcore.
  pose proof (base_input lim spare d _ _ Hat) as Hb.
  pose proof (base_redeem lim spare d wire_limits Hdoc doc_storable _ _ Hat) as Hr.
  rewrite Z2Nat.id in Hb, Hr by lia.
  exists (blen (pool_of (take (Z.to_nat i) (d_inputs d)))). split.
  - by rewrite (core_input _ _ _ Hcore), Hb.
  - destruct (core_views _ _ i Hcore) as (_ & _ & _ & -> & _). by rewrite Hr.
Qed.

Lemma same_redeem_rebuilt i : 0 <= i < num_inputs tx -> checked_redeem_bytes tx i = checked_redeem_bytes tx' i.
Proof.
  intros Hi. destruct (rebuilt_input i Hi) as (used & _ & ->). destruct Hsound as [_ _ _ _ _ Hin _].
  destruct (Hin i Hi) as (_ & _ & r & Hr). unfold source_redeem. by rewrite Hr.
Qed.

Lemma same_signing_rebuilt i : 0 <= i < num_inputs tx -> same_signing (input_at tx i) (input_at tx' i).
Proof.
  intros Hi. destruct (rebuilt_input i Hi) as (used & Hcore & _). destruct Hsound as [_ _ _ _ _ Hin _].
  destruct (Hin i Hi) as ([Hlen Hcount Hslots] & _ & r & Hr).
  pose proof (input_at_typed tx i Htx) as Hti. pose proof Hti as (_ & _ & _ & (_ & Hspk & _) & [_ Hfive] & [Hc0 _] & _).
  destruct (same_execution i Hi) as [Hpresent Hmasks].
  unfold input_core in Hcore. injection Hcore as _ _ _ Hutxo Hsigs Hsc _ _ Hrl _ _.
  set (di := doc_input_of (H := TransactionSource keyed schnorr_verify) tx i) in *.
  change (sigs (input_at tx' i) = built_sigs (di_signatures di)) in Hsigs.
  change (sig_count (input_at tx' i) = blen (di_signatures di)) in Hsc.
  assert (Hn : length (di_signatures di) = Z.to_nat (sig_count (input_at tx i))).
  { subst di. cbn [doc_input_of di_signatures KsptModel.signature_count TransactionSource]. by rewrite length_map, length_seqZ. }
  constructor.
  - rewrite Hutxo. cbn [built_input utxo_entry script_public_key built_spk spk_script spk_script_len].
    rewrite script_slice by done. subst di. cbn [doc_input_of di_input KsptModel.input TransactionSource source_input KsptModel.in_script].
    rewrite slice_pad; [done|]. by apply script_bytes_typed.
  - rewrite Hrl. cbn [built_input redeem_script_len]. subst di. cbn [doc_input_of di_redeem KsptModel.redeem TransactionSource].
    unfold source_redeem. rewrite Hr. by apply checked_redeem_len.
  - rewrite Hsc. unfold blen. lia.
  - rewrite Hsigs. unfold built_sigs. rewrite length_app, length_map, length_replicate.
    unfold blen in Hfive. unfold MAX_SIGS_PER_INPUT in *. lia.
  - intros k x y Hx Hy. rewrite Hsigs in Hy. unfold built_sigs in Hy.
    assert (Hk : (k < Z.to_nat MAX_SIGS_PER_INPUT)%nat) by (apply lookup_lt_Some in Hx; unfold blen in Hfive; lia).
    destruct (Hslots k x Hk Hx) as [Hin1 Hin2].
    destruct (Z.ltb_spec (Z.of_nat k) (sig_count (input_at tx i))) as [Hlt|Hge].
    + rewrite lookup_app_l in Hy by (rewrite length_map; lia). rewrite list_lookup_fmap in Hy. subst di.
      cbn [doc_input_of di_signatures KsptModel.signature KsptModel.signature_count TransactionSource] in Hy.
      rewrite list_lookup_fmap, lookup_seqZ_lt in Hy by lia. cbn [fmap option_fmap option_map] in Hy.
      injection Hy as <-. unfold source_signature. rewrite Z.add_0_l, get_at_nat, Hx. cbn. split; [by apply Hin1|done].
    + rewrite lookup_app_r in Hy by (rewrite length_map; lia). apply lookup_replicate in Hy as [-> _].
      split; [by apply Hin2|lia].
  - exact Hpresent.
  - exact Hmasks.
Qed.

Lemma rebuilt_room : num_inputs tx <= blen (tx_inputs tx') /\ num_outputs tx <= blen (tx_outputs tx').
Proof.
  destruct (core_lengths _ _ (built_core lim spare d)) as [-> ->], (base_lengths lim spare d) as [Hbi Hbo].
  destruct Hdoc as (_ & _ & Hic & _ & Hoc & _). rewrite doc_count in Hic. rewrite doc_out_count in Hoc. lia.
Qed.

Lemma rebuilt_header :
  tx_version tx' = tx_version tx /\ locktime tx' = locktime tx /\ subnetwork_id tx' = subnetwork_id tx /\
  gas tx' = gas tx /\ payload tx' = payload tx /\ limits tx' = lim.
Proof. destruct (built_counts lim spare d) as (_ & _ & ? & ? & ? & ? & ? & ?). by split_and!. Qed.

Lemma same_source_input i : 0 <= i < num_inputs tx -> source_input tx' i = source_input tx i.
Proof. intros Hi. by apply (f_equal di_input (same_doc_input i Hi)). Qed.

Lemma same_hash_rebuilt i : 0 <= i < num_inputs tx ->
  calculate_sighash keyed tx i SigHashType.All = calculate_sighash keyed tx' i SigHashType.All.
Proof.
  intros Hi. destruct rebuilt_header as (Hv & Hl & Hs & Hg & Hp & _), rebuilt_counts as [Hni Hno], rebuilt_room as [Hri Hro].
  destruct Hsound as [[_ Hlen] _ [_ Hmax] _ _ _ _]. pose proof Htx as (_ & _ & _ & [_ Hol] & _).
  apply sighash_ext; [exact Hi|by symmetry..| |].
  - intros k Hk. rewrite !sighash_input_view by lia. by rewrite same_source_input.
  - intros j Hj. rewrite !sighash_output_view by lia. rewrite same_doc_output by done. cbv zeta. f_equal.
    destruct (same_covenant j Hj) as [<- Hcov]. destruct (has_covenant (output_at tx j)); [|done].
    by destruct Hcov as [-> ->].
Qed.

Lemma rebuilt_signed : is_fully_signed keyed schnorr_verify tx' = is_fully_signed keyed schnorr_verify tx.
Proof.
  symmetry. destruct rebuilt_counts as [Hni _], rebuilt_room as [Hri _], Hsound as [[_ Hlen] _ _ _ _ _ _].
  apply fully_signed_same; [by symmetry|done|done|]. intros i Hi. split_and!;
    [by apply same_signing_rebuilt|by apply same_redeem_rebuilt|by apply same_hash_rebuilt].
Qed.

Lemma rebuilt_amounts : transaction_amounts tx' = transaction_amounts tx.
Proof.
  destruct rebuilt_counts as [Hni Hno], rebuilt_room as [Hri Hro], Hsound as [[_ Hlen] _ [_ Hmax] _ _ _ _].
  pose proof Htx as (_ & _ & Hn & [_ Hol] & Hm & _). unfold u64_ok in Hn, Hm.
  assert (Hinputs : forall g : Z -> Z -> result Z TransactionAmountError,
    try_fold (fun total input => g total (amount (utxo_entry input))) 0 (inputs tx')
    = try_fold (fun total input => g total (amount (utxo_entry input))) 0 (inputs tx)).
  { intros g. rewrite !inputs_indices, Hni, !try_fold_map by lia. apply try_fold_ext. intros i acc Hi%elem_of_seqZ.
    change (amount (utxo_entry (input_at tx' i))) with (KsptModel.in_amount (source_input tx' i)).
    by rewrite same_source_input by lia. }
  assert (Houtputs : forall g : Z -> Z -> result Z TransactionAmountError,
    try_fold (fun total output => g total (value output)) 0 (outputs tx')
    = try_fold (fun total output => g total (value output)) 0 (outputs tx)).
  { intros g. rewrite !outputs_indices, Hno, !try_fold_map by lia. apply try_fold_ext. intros j acc Hj%elem_of_seqZ.
    change (value (output_at tx' j)) with (KsptModel.out_amount (source_output tx' j)). by rewrite same_doc_output by lia. }
  unfold transaction_amounts, checked_amounts.
  rewrite (Hinputs (fun total amount => ok_or (checked_add total amount) InputTotalOverflow)).
  by rewrite (Houtputs (fun total value => ok_or (checked_add total value) OutputTotalOverflow)).
Qed.

Lemma rebuilt_script_len j : 0 <= j < num_outputs tx ->
  spk_script_len (out_script_public_key (output_at tx' j)) <= MAX_SCRIPT_SIZE.
Proof.
  intros Hj. pose proof doc_out_count as Hc. destruct Hdoc as (_ & _ & _ & Hout & Hoc & _).
  destruct (lookup_lt_is_Some_2 (d_outputs d) (Z.to_nat j)) as [v Hv]; [unfold blen in Hoc; lia|].
  rewrite Forall_forall in Hout. destruct (Hout v) as [_ Hs]; [by apply (list_elem_of_lookup_2 _ (Z.to_nat j))|].
  pose proof (base_output lim spare d _ _ Hv) as Hb. rewrite Z2Nat.id in Hb by lia.
  pose proof (core_output _ _ j (built_core lim spare d)) as Hcore. rewrite Hb in Hcore.
  unfold output_core in Hcore. apply (f_equal snd) in Hcore. cbn [snd] in Hcore. by rewrite Hcore.
Qed.

Lemma rebuilt_valid : lim = limits tx -> validate_partial_signed tx' = Ok tt.
Proof.
  intros Hl. destruct rebuilt_counts as [Hni Hno], rebuilt_room as [Hri Hro], rebuilt_header as (_ & _ & _ & _ & Hp & Hlim').
  destruct Hsound as [[Hn Hlen] Hmax [Hm Hm8] Hpay [amounts Ha] Hin Hout].
  pose proof Htx as (_ & _ & _ & [_ Hol] & _).
  assert (Hused : redeem_pool_used tx' <= REDEEM_POOL_SIZE).
  { pose proof (built_core lim spare d) as Hcore. unfold tx_core in Hcore.
    apply (f_equal (fun c => snd (fst (snd (fst (fst c)))))) in Hcore. cbn [fst snd] in Hcore. rewrite Hcore. exact Hpool. }
  unfold validate_partial_signed, validate_base_transaction.
  assert (Hshape : validate_transaction_shape tx' = Ok tt).
  { unfold validate_transaction_shape. rewrite Hni, Hno, Hp, Hlim'. rewrite <- Hl in Hmax, Hpay. by decide_tests. }
  rewrite Hshape, rebuilt_amounts, Ha, Hni. cbn [rbind].
  assert (Hinputs : validate_inputs tx' = Ok tt).
  { unfold validate_inputs. rewrite Hni. apply for_range_intro. intros i Hi. fold (input_at tx' i). cbv zeta.
    destruct (rebuilt_input i Hi) as (used & Hcore & ->). cbn [rbind].
    apply (f_equal (fun c => snd (fst (fst (fst (fst c)))))) in Hcore. cbn [input_core fst snd] in Hcore. rewrite Hcore.
    cbn [built_input utxo_entry script_public_key built_spk spk_script_len doc_input_of di_input KsptModel.input TransactionSource
         source_input KsptModel.in_script].
    destruct (script_bytes_typed (script_public_key (utxo_entry (input_at tx i)))) as [_ Hs]; [by apply input_at_typed|].
    by rewrite (proj2 (Z.ltb_ge _ _)). }
  assert (Houtputs : validate_outputs tx' = Ok tt).
  { unfold validate_outputs. rewrite outputs_indices, Hno by lia. rewrite try_fold_map.
    apply (try_fold_unit_intro (fun j => if MAX_SCRIPT_SIZE <? spk_script_len (out_script_public_key (output_at tx' j)) then _ else _)).
    apply Forall_forall. intros j Hj%elem_of_seqZ. cbv beta. rewrite (proj2 (Z.ltb_ge _ _)) by (apply rebuilt_script_len; lia).
    destruct (same_covenant j ltac:(lia)) as [<- Hcov]. destruct (Hout j ltac:(lia)) as [_ Hauth].
    destruct (has_covenant (output_at tx j)); [|done]. destruct Hcov as [<- _]; [done|]. cbn [andb]. rewrite Hni.
    by rewrite (proj2 (Z.leb_gt _ _)) by (by apply Hauth). }
  rewrite Hinputs, Houtputs. cbn [rbind]. apply for_range_intro. intros i Hi. fold (input_at tx' i). cbv zeta.
  destruct (rebuilt_input i Hi) as (used & Hcore & ->). destruct (Hin i Hi) as (Hs & Hslots & _).
  assert (Hty : sighash_type (input_at tx' i) = SigHashType.to_byte SigHashType.All) by (by apply (f_equal (fun c => snd (fst c))) in Hcore).
  rewrite Hty. cbn [negb andb Z.eqb]. rewrite (proj2 (Z.eqb_eq _ _) eq_refl). cbn [negb andb]. rewrite andb_false_r.
  pose proof (input_at_typed tx i Htx) as (_ & _ & _ & _ & [_ Hfive] & [Hc _] & _).
  rewrite (slots_intro (input_at tx i)); [done|done|done|by apply same_signing_rebuilt|done| |done].
  unfold blen in Hfive. lia.
Qed.
End rebuilt.

Section codec.
Context (keyed : list Z -> list Z -> list Z) (schnorr_verify : list Z -> list Z -> list Z -> bool).
Local Notation the_doc := (doc_of (H := TransactionSource keyed schnorr_verify)).

(** The covenants of a valid transaction name its inputs. *)
Lemma sound_authorized tx :
  sound_tx tx -> num_inputs tx <= u32_max ->
  Forall (authorized (KsptModel.g_input_count (d_global (the_doc tx)))) (d_trailers (the_doc tx)).
Proof.
  intros Hsound Hu. rewrite (doc_count keyed schnorr_verify tx Hsound Hu). destruct Hsound as [Hn _ Hm _ _ _ Hout].
  apply Forall_forall. intros t Ht. apply doc_trailers_spec in Ht as [Hslot Hrange];
    [|unfold u32_ok, u32_max in *; lia|unfold byte_ok, MAX_OUTPUTS in *; lia].
  destruct t as [| | | |p c| | |]; try done. cbn [in_range authorized slot] in *.
  destruct (Hout p Hrange) as [_ Hauth]. destruct (has_covenant (output_at tx p)); [|done].
  apply (inj Some) in Hslot. injection Hslot as <-. by apply Hauth.
Qed.

(** C9: The compact form loses nothing: what a transaction serializes to, its
    signatures, redeem scripts, covenants and derivations included, parses,
    into any transaction object of the same limits, to a transaction with the
    same document, which is again valid and has the same completion flag; the
    long redeem scripts must together fit the pool of the parsed transaction. *)
Theorem compact_round_trip (tx tx0 : Transaction) (output output' : list Z) (n : Z) :
  typed_tx tx -> typed_tx tx0 -> limits tx0 = limits tx -> max_inputs (limits tx) <= u32_max ->
  blen output <= usize_max -> blen (pool_of (d_inputs (the_doc tx))) <= REDEEM_POOL_SIZE ->
  serialize_compact_kspt keyed schnorr_verify tx output = (Ok n, output') ->
  exists tx', parse_compact_kspt keyed schnorr_verify (take (Z.to_nat n) output') tx0 = (Ok tt, tx') /\
    the_doc tx' = the_doc tx /\ validate_partial_signed tx' = Ok tt /\
    is_fully_signed keyed schnorr_verify tx' = is_fully_signed keyed schnorr_verify tx.
Proof.
  intros Htx Htx0 Hlimits Hmax Hu Hpool. unfold serialize_compact_kspt.
  destruct (validate_partial_signed tx) as [[]|] eqn:Hvalid; [|done].
  pose proof (validated_sound tx Htx Hvalid) as Hsound.
  assert (Hu32 : num_inputs tx <= u32_max) by (destruct Hsound; lia).
  destruct (encode_has_outcome (H := TransactionSource keyed schnorr_verify) tx (codec_limits tx)
              (transaction_source_typed keyed schnorr_verify tx Htx)) as [[Hdoc Hout]|[_ (k & e & _ & Hout)]].
  2:{ destruct (Hout output Hu) as (out1 & ->). done. }
  specialize (Hout output Hu). destruct (Z.leb_spec (blen (doc_bytes (the_doc tx))) (blen output)) as [Hle|];
    [|by destruct Hout as (out1 & -> & _)].
  rewrite Hout. intros Heq. apply pair_equal_spec in Heq as [Hn <-]. injection Hn as <-.
  replace (Z.to_nat (blen (doc_bytes (the_doc tx)))) with (length (doc_bytes (the_doc tx))) by (unfold blen; lia).
  rewrite take_app_length.
  set (spare := (length (tx_inputs tx0) - length (d_inputs (the_doc tx)))%nat).
  assert (Hlim : typed_limits (limits tx0)) by apply Htx0.
  assert (Hcodec : codec_limits tx0 = codec_limits tx) by (unfold codec_limits; by rewrite Hlimits).
  assert (Hd : valid_doc (codec_limits tx0) (the_doc tx)) by (rewrite Hcodec; split; [done|by apply sound_authorized]).
  pose proof (doc_storable keyed schnorr_verify tx Htx Hsound Hu32 Hpool) as Hstore.
  pose proof (rebuilt_signed keyed schnorr_verify tx (limits tx0) spare (codec_limits tx) Htx Hsound Hu32 Hdoc Hpool) as Hsigned.
  pose proof (rebuilt_valid keyed schnorr_verify tx (limits tx0) spare (codec_limits tx) Htx Hsound Hu32 Hdoc Hpool Hlimits) as Hvalid'.
  exists (built_tx (limits tx0) spare (the_doc tx)). split.
  - unfold parse_compact_kspt, Decode.decode. change (codec_limits (clear tx0)) with (codec_limits tx0).
    destruct (envelope_decodes (T := Transaction) (E := Fault PsktError) (codec_limits tx0) (the_doc tx) (clear tx0) Hd ltac:(lia)) as (r' & ->).
    pose proof (doc_run (the_doc tx) tx0 Htx0 Hd) as Hruns. unfold runs in Hruns.
    destruct (for_each _ deliver (clear tx0)) as [[[]|[]] t2]; [|done..]. destruct Hruns as [_ ->].
    cbn [KsptModel.env_flags]. fold spare. rewrite Hsigned, Hvalid'.
    change (KsptModel.g_flags (d_global (the_doc tx))) with
      (if is_fully_signed keyed schnorr_verify tx then KsptModel.FLAG_SIGNED_OR_COMPLETE else 0).
    by destruct (is_fully_signed keyed schnorr_verify tx).
  - split; [|done]. apply (read_built keyed schnorr_verify _ _ _ (codec_limits tx) Hdoc Hstore).
    rewrite Hsigned. cbn. by destruct (is_fully_signed keyed schnorr_verify tx).
Qed.
End codec.

(** ** Instances *)

Definition sample_bytes : list Z :=
  match serialize_compact_kspt (fun _ => toy_hash) toy_verify sample_tx (zeros 700) with
  | (Ok n, output) => take (Z.to_nat n) output
  | (Err _, _) => []
  end.
Definition sample_parsed : Transaction := snd (parse_compact_kspt (fun _ => toy_hash) toy_verify sample_bytes new_tx).

Lemma compact_reserialize_witness :
  blen sample_bytes = 586 /\
  serialize_compact_kspt (fun _ => toy_hash) toy_verify sample_parsed (zeros 600)
  = (Ok 586, sample_bytes ++ drop 586 (zeros 600)).
Proof.
  split; [vm_compute; reflexivity|].
  destruct (compact_reserialize (fun _ => toy_hash) toy_verify sample_bytes new_tx sample_parsed) as (_ & _ & Hout);
    [by_decide|by_decide|by_decide|by_decide|vm_compute; reflexivity|].
  apply (Hout (zeros 600)). by_decide.
Defined.

Lemma compact_round_trip_witness :
  exists tx', parse_compact_kspt (fun _ => toy_hash) toy_verify sample_bytes new_tx = (Ok tt, tx') /\
    doc_of (H := TransactionSource (fun _ => toy_hash) toy_verify) tx'
    = doc_of (H := TransactionSource (fun _ => toy_hash) toy_verify) sample_tx.
Proof.
  destruct (compact_round_trip (fun _ => toy_hash) toy_verify sample_tx new_tx (zeros 700)
              (snd (serialize_compact_kspt (fun _ => toy_hash) toy_verify sample_tx (zeros 700))) (blen sample_bytes)) as (tx' & Hp & Hd & _);
    [apply sample_typed|by_decide|reflexivity|by_decide|by_decide|by_decide|vm_compute; reflexivity|].
  exists tx'. split; [|exact Hd]. rewrite <- Hp. f_equal.
Defined.
