(* ===== verification/Hd.v ===== *)
(** * Hierarchical deterministic keys

    [src/src/wallet/derivation]: scalar arithmetic on 32-byte arrays
    ([bip32/scalar.rs]), HMAC-SHA512 ([hmac.rs]), BIP-32 private and public
    child derivation ([bip32/child.rs], [extended_private.rs],
    [extended_public.rs]), the wallet's paths ([bip32/paths.rs]), the search of
    an address key ([bip32/address_lookup.rs]) and KIP-22 addresses
    ([kip22.rs]). SHA-512 and the curve are a library's: the class [Curve].
    Wiping memory has no counterpart, and the progress callbacks of the
    searches, which return nothing, are left out. *)

From S2P Require Import Prelude Script.

(** Big-endian integers: [to_be_bytes] and the value of a byte array. *)
Definition be_bytes (n : nat) (z : Z) : list Z := rev (le_bytes n z).
Definition be_val (l : list Z) : Z := le_val (rev l).

(** ** [bip32/constants.rs] *)

Definition BITCOIN_SEED : list Z := str "Bitcoin seed".
Definition SECP256K1_ORDER : list Z := [
  0xFF; 0xFF; 0xFF; 0xFF; 0xFF; 0xFF; 0xFF; 0xFF; 0xFF; 0xFF; 0xFF; 0xFF; 0xFF; 0xFF; 0xFF; 0xFE;
  0xBA; 0xAE; 0xDC; 0xE6; 0xAF; 0x48; 0xA0; 0x3B; 0xBF; 0xD2; 0x5E; 0x8C; 0xD0; 0x36; 0x41; 0x41].
Definition HARDENED_BIT : Z := 0x80000000.
Definition KASPA_ACCOUNT_PATH : list Z := [0x8000002c; 0x8001b207; 0x80000000].
Definition KASPA_MULTISIG_ACCOUNT_PREFIX : list Z := [0x8000002d; 0x8001b207].

(** ** [bip32/scalar.rs] *)

Module Scalar.

Definition is_zero (value : list Z) : bool := foldl Z.lor 0 value =? 0.

(** The loops run from the last index to the first. *)
Fixpoint subtract (minuends subtrahends : list Z) : list Z * Z :=
  match minuends, subtrahends with
  | l :: ls, r :: rs =>
      let '(output, borrow) := subtract ls rs in
      let difference := (l - (r + borrow)) mod 2 ^ 16 in
      (difference mod 256 :: output, Z.land (Z.shiftr difference 15) 1)
  | _, _ => ([], 0)
  end.

Fixpoint add (lefts rights : list Z) : list Z * Z :=
  match lefts, rights with
  | l :: ls, r :: rs =>
      let '(sum, carry) := add ls rs in
      let word := l + r + carry in
      (word mod 256 :: sum, Z.shiftr word 8)
  | _, _ => ([], 0)
  end.

Definition is_less_than_order (value : list Z) : bool :=
  let '(_, borrow) := subtract value SECP256K1_ORDER in borrow =? 1.

Definition is_valid_secret_scalar (value : list Z) : bool := negb (is_zero value) && is_less_than_order value.

Definition select (mask reduced sum : Z) : Z := (Z.land reduced mask + Z.land sum (Z.lxor 255 mask)) mod 256.

Definition scalar_add_mod_n (lefts rights : list Z) : list Z :=
  let '(sum, carry) := add lefts rights in
  let '(reduced, borrow) := subtract sum SECP256K1_ORDER in
  let should_reduce := negb (carry =? 0) || (borrow =? 0) in
  let mask := (0 - Z.b2z should_reduce) mod 256 in
  zip_with (select mask) reduced sum.

End Scalar.

(** ** [hmac.rs] *)

Section hmac.
Context (sha512 : list Z -> list Z).

Definition BLOCK_SIZE : Z := 128.
Definition IPAD : Z := 0x36.
Definition OPAD : Z := 0x5C.

Definition hmac_key (key : list Z) : list Z :=
  let k := if BLOCK_SIZE <? blen key then sha512 key else key in
  k ++ replicate (Z.to_nat (BLOCK_SIZE - blen k)) 0.

Definition hmac_sha512 (key message : list Z) : list Z :=
  let k_prime := hmac_key key in
  let inner_hash := sha512 (map (Z.lxor IPAD) k_prime ++ message) in
  sha512 (map (Z.lxor OPAD) k_prime ++ inner_hash).
End hmac.

(** ** The library's curve *)

Class Curve := {
  point : Type;
  (** [GENERATOR * scalar] *)
  generator_times : Z -> point;
  point_add : point -> point -> point;
  is_identity : point -> bool;
  (** [Sec1Point::from_bytes] and [AffinePoint::from_sec1_point] *)
  decode_point : list Z -> option point;
  (** [to_affine().to_sec1_point(true)] *)
  encode_point : point -> list Z;
  (** [SecretKey::from_slice] and [ScalarValue::from_slice] *)
  secret_key : list Z -> option Z;
  scalar_value : list Z -> option Z }.

(** What the library documents: the generator's multiples are a group of the
    order of the curve, points have exactly one compressed encoding, of 33
    bytes with the tag 2 or 3 (what else [decode_point] reads is left open), and a
    secret key is a non-zero scalar below the order. *)
Definition order : Z := be_val SECP256K1_ORDER.

(** 33 bytes with the tag of a compressed point. *)
Definition compressed (l : list Z) : Prop := bytes_of 33 l /\ (head l = Some 2 \/ head l = Some 3).

Class CurveLaws `{Curve} := {
  generator_add a b : generator_times ((a + b) mod order) = point_add (generator_times a) (generator_times b);
  point_add_comm p q : point_add p q = point_add q p;
  generator_identity a : 0 <= a < order -> is_identity (generator_times a) = (a =? 0);
  decode_encode p : is_identity p = false -> decode_point (encode_point p) = Some p;
  encode_decode l p : compressed l -> decode_point l = Some p -> is_identity p = false -> encode_point p = l;
  encode_size p : is_identity p = false -> bytes_of 33 (encode_point p);
  secret_key_spec l : bytes_of 32 l -> secret_key l = if (0 <? be_val l) && (be_val l <? order) then Some (be_val l) else None;
  scalar_value_spec l : bytes_of 32 l -> scalar_value l = if be_val l <? order then Some (be_val l) else None }.

(** ** [bip32] *)

Module Bip32.

Inductive Bip32Error := InvalidKey | InvalidChainCode | CurveError | EmptyPath.

Record ExtendedPrivKey := { key : list Z; chain_code : list Z; depth : Z }.
Record ExtendedPubKey := { pubkey : list Z; pub_chain_code : list Z; pub_depth : Z }.

Definition to_raw (k : ExtendedPrivKey) : list Z := key k ++ chain_code k ++ [depth k].
(** The arrays are 65 bytes long. *)
Definition from_raw (raw : list Z) : ExtendedPrivKey :=
  {| key := take 32 raw; chain_code := take 32 (drop 32 raw); depth := default 0 (raw !! 64%nat) |}.
Definition from_parts (key chain_code : list Z) (depth : Z) : ExtendedPrivKey :=
  {| key := key; chain_code := chain_code; depth := depth |}.

Section derive.
Context (sha512 : list Z -> list Z) `{Curve}.

Definition compressed_pubkey_from_raw_key (privkey : list Z) : result (list Z) Bip32Error :=
  let? secret := ok_or (secret_key privkey) CurveError in
  Ok (encode_point (generator_times secret)).

(** The x-coordinate of a compressed key. *)
Definition x_coordinate (compressed : list Z) : list Z := drop 1 compressed.

Definition pubkey_from_raw_key (privkey : list Z) : result (list Z) Bip32Error :=
  let? compressed := compressed_pubkey_from_raw_key privkey in Ok (x_coordinate compressed).

Definition public_key_compressed (k : ExtendedPrivKey) : result (list Z) Bip32Error :=
  compressed_pubkey_from_raw_key (key k).
Definition public_key_x_only (k : ExtendedPrivKey) : result (list Z) Bip32Error :=
  let? compressed := public_key_compressed k in Ok (x_coordinate compressed).
Definition x_only (k : ExtendedPubKey) : list Z := x_coordinate (pubkey k).
Definition to_xpub (k : ExtendedPrivKey) : result ExtendedPubKey Bip32Error :=
  let? pubkey := public_key_compressed k in
  Ok {| pubkey := pubkey; pub_chain_code := chain_code k; pub_depth := depth k |}.

Definition master_key_from_seed (seed : list Z) : result ExtendedPrivKey Bip32Error :=
  let i := hmac_sha512 sha512 BITCOIN_SEED seed in
  let key := take 32 i in
  if negb (Scalar.is_valid_secret_scalar key) then Err InvalidKey
  else Ok {| key := key; chain_code := drop 32 i; depth := 0 |}.

(** [depth.saturating_add(1)] on [u8]. *)
Definition next_depth (depth : Z) : Z := Z.min u8_max (depth + 1).

Definition child_data (parent : ExtendedPrivKey) (index : Z) : result (list Z) Bip32Error :=
  let? prefix :=
    if negb (Z.land index HARDENED_BIT =? 0) then Ok (0 :: key parent)
    else public_key_compressed parent in
  Ok (prefix ++ be_bytes 4 index).

Definition derive_child (parent : ExtendedPrivKey) (index : Z) : result ExtendedPrivKey Bip32Error :=
  let? data := child_data parent index in
  let i := hmac_sha512 sha512 (chain_code parent) data in
  let il := take 32 i in
  if negb (Scalar.is_less_than_order il) then Err InvalidKey
  else
    let child_key := Scalar.scalar_add_mod_n il (key parent) in
    if Scalar.is_zero child_key then Err InvalidKey
    else Ok {| key := child_key; chain_code := drop 32 i; depth := next_depth (depth parent) |}.

Definition scalar_and_chain_code (digest : list Z) : result (Z * list Z) Bip32Error :=
  let il := take 32 digest in
  if negb (Scalar.is_less_than_order il) then Err InvalidKey
  else let? value := ok_or (scalar_value il) InvalidKey in Ok (value, drop 32 digest).

Definition child_public_scalar (parent : ExtendedPubKey) (index : Z) : result (Z * list Z) Bip32Error :=
  scalar_and_chain_code (hmac_sha512 sha512 (pub_chain_code parent) (pubkey parent ++ be_bytes 4 index)).

Definition encode_child_point (child_point : point) : result (list Z) Bip32Error :=
  let bytes := encode_point child_point in
  if negb (blen bytes =? 33) then Err CurveError else Ok bytes.

Definition derive_child_pub (parent : ExtendedPubKey) (index : Z) : result ExtendedPubKey Bip32Error :=
  if negb (Z.land index HARDENED_BIT =? 0) then Err InvalidKey
  else
    let? (il_scalar, child_chain_code) := child_public_scalar parent index in
    let? parent_point := ok_or (decode_point (pubkey parent)) CurveError in
    let child_point := point_add (generator_times il_scalar) parent_point in
    let? _ := if is_identity child_point then Err InvalidKey else Ok tt in
    let? child_pubkey := encode_child_point child_point in
    Ok {| pubkey := child_pubkey; pub_chain_code := child_chain_code; pub_depth := next_depth (pub_depth parent) |}.

(** *** [paths.rs] *)

Definition derive_path (seed path : list Z) : result ExtendedPrivKey Bip32Error :=
  if bool_decide (path = []) then Err EmptyPath
  else let? current := master_key_from_seed seed in try_fold derive_child current path.

Record AccountKeyDerivation := { current : ExtendedPrivKey; next_step : Z }.

Definition new (seed : list Z) : result AccountKeyDerivation Bip32Error :=
  let? current := master_key_from_seed seed in Ok {| current := current; next_step := 0 |}.
Definition from_account_key (account : ExtendedPrivKey) : AccountKeyDerivation :=
  {| current := account; next_step := blen KASPA_ACCOUNT_PATH |}.
Definition is_complete (d : AccountKeyDerivation) : bool := next_step d =? blen KASPA_ACCOUNT_PATH.

(** An index past the path would panic; every step count in use is at most its
    length. *)
Definition advance_one : Comp AccountKeyDerivation Bip32Error bool := fun d =>
  if is_complete d then (Ok true, d)
  else
    match derive_child (current d) (default 0 (get_at KASPA_ACCOUNT_PATH (next_step d))) with
    | Err e => (Err e, d)
    | Ok child =>
        let d := {| current := child; next_step := next_step d + 1 |} in
        (Ok (is_complete d), d)
    end.

Definition completed_steps (d : AccountKeyDerivation) : Z := next_step d.
Definition finish (d : AccountKeyDerivation) : result ExtendedPrivKey Bip32Error :=
  if negb (is_complete d) then Err InvalidKey else Ok (current d).

Definition derive_account_key (seed : list Z) : result ExtendedPrivKey Bip32Error :=
  derive_path seed KASPA_ACCOUNT_PATH.

Definition derive_address_key (account_key : ExtendedPrivKey) (index : Z) : result ExtendedPrivKey Bip32Error :=
  let? change_key := derive_child account_key 0 in derive_child change_key index.
Definition derive_change_key (account_key : ExtendedPrivKey) (index : Z) : result ExtendedPrivKey Bip32Error :=
  let? internal_key := derive_child account_key 1 in derive_child internal_key index.

Definition derive_path_for_index (seed : list Z) (index : Z) : result ExtendedPrivKey Bip32Error :=
  derive_path seed (KASPA_ACCOUNT_PATH ++ [0; index]).

Definition derive_multisig_account_key (seed : list Z) (account : Z) : result ExtendedPrivKey Bip32Error :=
  if HARDENED_BIT <=? account then Err InvalidKey
  else derive_path seed (KASPA_MULTISIG_ACCOUNT_PREFIX ++ [account + HARDENED_BIT]).

Definition derive_multisig_address_key (account_key : ExtendedPrivKey) (cosigner chain index : Z)
  : result ExtendedPrivKey Bip32Error :=
  if (0x80000000 <=? cosigner) || (1 <? chain) || (0x80000000 <=? index) then Err InvalidKey
  else
    let? cosigner_key := derive_child account_key cosigner in
    let? chain_key := derive_child cosigner_key chain in
    derive_child chain_key index.

(** *** [address_lookup.rs] *)

Definition ADDR_SCAN_DEPTH : Z := 20.
Definition SIGN_MATCH_DEPTH : Z := 100.

Definition derive_on (account_key : ExtendedPrivKey) (is_change : bool) (index : Z)
  : result ExtendedPrivKey Bip32Error :=
  if is_change then derive_change_key account_key index else derive_address_key account_key index.

(** The x-only key at one index, when it derives. *)
Definition key_at (account_key : ExtendedPrivKey) (is_change : bool) (idx : Z) : option (list Z) :=
  match derive_on account_key is_change idx with
  | Ok key => match public_key_x_only key with Ok pk => Some pk | Err _ => None end
  | Err _ => None
  end.

(** One of the two loops over the indices [0..depth]. *)
Definition scan_chain (account_key : ExtendedPrivKey) (target_pubkey : list Z) (is_change : bool) (depth : Z)
  : option (Z * bool) :=
  (fun found => (found.2, is_change)) <$>
    list_find (fun idx => key_at account_key is_change idx = Some target_pubkey) (seqZ 0 depth).

Definition find_address_index_for_pubkey (account_key : ExtendedPrivKey) (target_pubkey : list Z)
  : option (Z * bool) :=
  match scan_chain account_key target_pubkey false SIGN_MATCH_DEPTH with
  | Some found => Some found
  | None => scan_chain account_key target_pubkey true SIGN_MATCH_DEPTH
  end.

Record AddrPubkeyTable := { entries : list (bool * Z * list Z); filled : Z }.

Definition add_entry (account_key : ExtendedPrivKey) (is_change : bool) (tbl : AddrPubkeyTable) (idx : Z)
  : AddrPubkeyTable :=
  match key_at account_key is_change idx with
  | None => tbl
  | Some pk =>
      {| entries := <[Z.to_nat (filled tbl) := (is_change, idx, pk)]> (entries tbl); filled := filled tbl + 1 |}
  end.

Definition build (account_key : ExtendedPrivKey) : AddrPubkeyTable :=
  let tbl := {| entries := replicate (Z.to_nat (ADDR_SCAN_DEPTH * 2)) (false, 0, replicate 32 0); filled := 0 |} in
  let tbl := foldl (add_entry account_key false) tbl (seqZ 0 ADDR_SCAN_DEPTH) in
  foldl (add_entry account_key true) tbl (seqZ 0 ADDR_SCAN_DEPTH).

Definition find_by_pubkey (tbl : AddrPubkeyTable) (target : list Z) : option (Z * bool) :=
  (fun found => (snd (fst found.2), fst (fst found.2))) <$>
    list_find (fun e => snd e = target) (take (Z.to_nat (filled tbl)) (entries tbl)).

End derive.
End Bip32.

(** ** [kip22.rs] *)

Module Kip22.
Import Bip32.

Definition PURPOSE : Z := 22 + HARDENED_BIT.
Definition COIN_TYPE : Z := 111111 + HARDENED_BIT.
Definition REDEEM_SCRIPT_LEN : Z := 34.
Definition OWNERSHIP_SCAN_DEPTH : Z := 20.

Inductive Chain := Receive | Change.
Definition chain_index (c : Chain) : Z := match c with Receive => 0 | Change => 1 end.

Definition redeem_script (xonly : list Z) : list Z := Standard.p2pk_script xonly.
Definition is_redeem_script (script : list Z) : bool :=
  (blen script =? REDEEM_SCRIPT_LEN) && bool_decide (get_at script 0 = Some 0x20)
  && bool_decide (get_at script 33 = Some 0xac).

Section derive.
Context (sha512 : list Z -> list Z) (script_hash : list Z -> list Z) `{Curve}.

Definition redeem_script_hash (xonly : list Z) : list Z := script_hash (redeem_script xonly).

Definition derive_account_key (seed : list Z) (account : Z) : result ExtendedPrivKey Bip32Error :=
  if HARDENED_BIT <=? account then Err InvalidKey
  else derive_path sha512 seed [PURPOSE; COIN_TYPE; account + HARDENED_BIT].

Definition derive_address_key (account : ExtendedPrivKey) (chain : Chain) (index : Z)
  : result ExtendedPrivKey Bip32Error :=
  if HARDENED_BIT <=? index then Err InvalidKey
  else let? child := derive_child sha512 account (chain_index chain) in derive_child sha512 child index.

Definition owned_xonly (account : ExtendedPrivKey) (chain : Chain) (index : Z) : option (list Z) :=
  match derive_address_key account chain index with
  | Ok key => match public_key_x_only key with Ok xonly => Some xonly | Err _ => None end
  | Err _ => None
  end.

(** A key that does not derive ends the whole search. *)
Fixpoint scan_owned (account : ExtendedPrivKey) (script_public_key : list Z) (positions : list (Chain * Z))
  : option (Chain * Z) :=
  match positions with
  | [] => None
  | (chain, index) :: positions =>
      xonly ← owned_xonly account chain index;
      if list_Z_eqb (Standard.p2sh_script (redeem_script_hash xonly)) script_public_key then Some (chain, index)
      else scan_owned account script_public_key positions
  end.

Definition find_owned_script (account : ExtendedPrivKey) (script_public_key : list Z) : option (Chain * Z) :=
  scan_owned account script_public_key
    (chain ← [Change; Receive]; (fun index => (chain, index)) <$> seqZ 0 OWNERSHIP_SCAN_DEPTH).
End derive.
End Kip22.
