(* ===== verification/HdProofs.v ===== *)
(** * Hierarchical keys: arithmetic, public derivation, paths and lookup

    The byte arithmetic of [Hd.Scalar] is arithmetic modulo the curve order;
    public child derivation computes the public key of the private child along
    any path; the stepwise account derivation and the address table are the
    direct computations. *)

From S2P Require Import Prelude Script Hd.

(** ** Big-endian values *)

Lemma le_val_app l1 l2 : le_val (l1 ++ l2) = le_val l1 + 256 ^ blen l1 * le_val l2.
Proof.
  induction l1 as [|b l1 IH]; [cbn [app le_val]; change (256 ^ @blen Z []) with 1; lia|]. cbn [app le_val]. rewrite IH, blen_cons.
  rewrite (Z.pow_add_r 256 1) by (pose proof (blen_nonneg l1); lia). ring.
Qed.

Lemma blen_rev {A} (l : list A) : blen (rev l) = blen l.
Proof. unfold blen. by rewrite length_rev. Qed.

Lemma be_val_cons b l : be_val (b :: l) = b * 256 ^ blen l + be_val l.
Proof. unfold be_val. cbn [rev]. rewrite le_val_app, blen_rev. cbn [le_val]. ring. Qed.

Lemma bytes_ok_rev l : bytes_ok (rev l) <-> bytes_ok l.
Proof. rewrite rev_alt. change (rev_append l []) with (reverse l). apply Forall_reverse. Qed.

Lemma be_val_range l : bytes_ok l -> 0 <= be_val l < 256 ^ blen l.
Proof. intros Hl. unfold be_val. rewrite <- (blen_rev l). apply le_val_bound. by apply bytes_ok_rev. Qed.

Lemma be_val_inj l1 l2 : bytes_ok l1 -> bytes_ok l2 -> length l1 = length l2 -> be_val l1 = be_val l2 -> l1 = l2.
Proof.
  intros H1 H2 Hlen Heq. rewrite <- (rev_involutive l1), <- (rev_involutive l2). f_equal.
  rewrite <- (le_bytes_le_val (rev l1) (length l1)), <- (le_bytes_le_val (rev l2) (length l1));
    rewrite ?bytes_ok_rev, ?length_rev; try done. unfold be_val in Heq. by rewrite Heq.
Qed.

Lemma be_bytes_ok n z : bytes_ok (be_bytes n z).
Proof. apply bytes_ok_rev, le_bytes_ok. Qed.

Lemma be_bytes_length n z : length (be_bytes n z) = n.
Proof. unfold be_bytes. by rewrite length_rev, length_le_bytes. Qed.

Lemma blen_be_bytes n z : blen (be_bytes n z) = Z.of_nat n.
Proof. unfold blen. by rewrite be_bytes_length. Qed.

Lemma be_val_be_bytes n z : 0 <= z < 256 ^ Z.of_nat n -> be_val (be_bytes n z) = z.
Proof. intros. unfold be_val, be_bytes. rewrite rev_involutive. by apply le_val_le_bytes. Qed.

(** ** The loops of [Hd.Scalar] *)

Import Scalar.

Lemma pow256_pos n : 0 <= n -> 0 < 256 ^ n.
Proof. intros. apply Z.pow_pos_nonneg; lia. Qed.

(** One step of a subtraction with borrow. *)
Lemma borrow_step l r b :
  byte_ok l -> byte_ok r -> 0 <= b <= 1 ->
  let d := (l - (r + b)) mod 2 ^ 16 in
  let b' := Z.land (Z.shiftr d 15) 1 in
  byte_ok (d mod 256) /\ 0 <= b' <= 1 /\ d mod 256 = l - r - b + 256 * b'.
Proof.
  intros Hl Hr Hb. unfold byte_ok in *. cbv zeta. change (2 ^ 16) with 65536.
  destruct (Z.leb_spec (r + b) l).
  - rewrite (Z.mod_small (l - (r + b)) 65536) by lia.
    replace (Z.shiftr (l - (r + b)) 15) with 0
      by (rewrite Z.shiftr_div_pow2 by lia; symmetry; apply Z.div_small; cbn; lia).
    rewrite Z.land_0_l, Z.mod_small by lia. lia.
  - replace ((l - (r + b)) mod 65536) with (l - (r + b) + 65536) by (rewrite <- (Z.mod_small (_ + 65536) 65536) by lia;
      rewrite <- Z.add_mod_idemp_r by lia; rewrite Z.mod_same, Z.add_0_r by lia; done).
    replace (Z.shiftr (l - (r + b) + 65536) 15) with 1.
    2:{ rewrite Z.shiftr_div_pow2 by lia. change (2 ^ 15) with 32768.
        apply (Z.div_unique_pos _ _ _ (l - (r + b) + 32768)); lia. }
    change (Z.land 1 1) with 1.
    replace ((l - (r + b) + 65536) mod 256) with (l - (r + b) + 256); [lia|].
    replace (l - (r + b) + 65536) with (l - (r + b) + 256 + 255 * 256) by lia. rewrite Z.mod_add by lia.
    symmetry. apply Z.mod_small. lia.
Qed.

Lemma subtract_spec ls rs : bytes_ok ls -> bytes_ok rs -> length ls = length rs ->
  let '(output, borrow) := subtract ls rs in
  bytes_ok output /\ length output = length ls /\ 0 <= borrow <= 1 /\
  be_val output = be_val ls - be_val rs + borrow * 256 ^ blen ls.
Proof.
  intros Hls. revert rs. induction Hls as [|l ls Hl Hls IH]; intros [|r rs] Hrs Hlen; try done.
  apply Forall_cons in Hrs as [Hr Hrs]. cbn [length] in Hlen. cbn [subtract].
  specialize (IH rs Hrs ltac:(lia)). destruct (subtract ls rs) as [output borrow]. destruct IH as (Ho & Hlo & Hb & Hval).
  destruct (borrow_step l r borrow Hl Hr Hb) as (Hd & Hb' & Heq). split_and!; [by constructor|cbn; lia|lia|lia|].
  rewrite !be_val_cons, Heq, Hval, blen_cons.
  replace (blen output) with (blen ls) by (unfold blen; lia). replace (blen rs) with (blen ls) by (unfold blen; lia).
  rewrite Z.pow_add_r by (pose proof (blen_nonneg ls); lia). ring.
Qed.

Lemma add_spec ls rs : bytes_ok ls -> bytes_ok rs -> length ls = length rs ->
  let '(sum, carry) := add ls rs in
  bytes_ok sum /\ length sum = length ls /\ 0 <= carry <= 1 /\
  be_val sum + carry * 256 ^ blen ls = be_val ls + be_val rs.
Proof.
  intros Hls. revert rs. induction Hls as [|l ls Hl Hls IH]; intros [|r rs] Hrs Hlen; try done.
  apply Forall_cons in Hrs as [Hr Hrs]. cbn [length] in Hlen. cbn [add].
  specialize (IH rs Hrs ltac:(lia)). destruct (add ls rs) as [sum carry]. destruct IH as (Ho & Hlo & Hb & Hval).
  unfold byte_ok in Hl, Hr. pose proof (Z.mod_pos_bound (l + r + carry) 256 ltac:(lia)).
  pose proof (Z.div_mod (l + r + carry) 256 ltac:(lia)) as Hdiv.
  rewrite Z.shiftr_div_pow2 by lia. change (2 ^ 8) with 256.
  assert (0 <= (l + r + carry) / 256 <= 1) by (split; [apply Z.div_pos; lia|apply Z.lt_succ_r, Z.div_lt_upper_bound; lia]).
  split_and!; [by constructor|cbn; lia|lia|lia|].
  rewrite !be_val_cons, blen_cons.
  replace (blen sum) with (blen ls) by (unfold blen; lia). replace (blen rs) with (blen ls) by (unfold blen; lia).
  rewrite Z.pow_add_r by (pose proof (blen_nonneg ls); lia). change (256 ^ 1) with 256. nia.
Qed.

Lemma order_value : order = 115792089237316195423570985008687907852837564279074904382605163141518161494337.
Proof. vm_compute. reflexivity. Qed.

Lemma order_bytes : bytes_of 32 SECP256K1_ORDER.
Proof. by_decide. Qed.

Lemma bytes_of_range l : bytes_of 32 l -> 0 <= be_val l < 2 ^ 256.
Proof. intros [Hl Hlen]. pose proof (be_val_range l Hl) as H. rewrite Hlen in H. exact H. Qed.

Lemma bytes_of_length {n l} : bytes_of n l -> length l = Z.to_nat n.
Proof. intros [_ H]. unfold blen in H. lia. Qed.

(** [is_less_than_order] compares with the order. *)
Lemma is_less_than_order_spec l : bytes_of 32 l -> is_less_than_order l = (be_val l <? order).
Proof.
  intros Hl. unfold is_less_than_order.
  pose proof (subtract_spec l SECP256K1_ORDER (proj1 Hl) (proj1 order_bytes)) as Hs.
  destruct (subtract l SECP256K1_ORDER) as [output borrow].
  destruct Hs as (Ho & Hlo & Hb & Hval); [by rewrite (bytes_of_length Hl)|].
  fold order in Hval. pose proof (be_val_range output Ho) as Hrange.
  replace (blen output) with (blen l) in Hrange by (unfold blen; lia).
  rewrite (proj2 Hl) in *. change (256 ^ 32) with (2 ^ 256) in *. pose proof (bytes_of_range l Hl). rewrite order_value in *.
  destruct (Z.eqb_spec borrow 1), (Z.ltb_spec (be_val l) 115792089237316195423570985008687907852837564279074904382605163141518161494337);
    try done; subst; nia.
Qed.

Lemma foldl_lor_zero acc l : 0 <= acc -> bytes_ok l -> (foldl Z.lor acc l = 0 <-> acc = 0 /\ be_val l = 0).
Proof.
  intros Hacc Hl. revert acc Hacc. induction Hl as [|b l Hb Hl IH]; intros acc Hacc; cbn [foldl].
  - change (be_val []) with 0. tauto.
  - unfold byte_ok in Hb. rewrite IH by (apply Z.lor_nonneg; lia). rewrite Z.lor_eq_0_iff, be_val_cons.
    pose proof (be_val_range l Hl). pose proof (pow256_pos (blen l) (blen_nonneg l)).
    split; [intros [[-> ->] ->]; lia|]. intros [-> Hz]. assert (b = 0) by nia. lia.
Qed.

Lemma is_zero_spec l : bytes_ok l -> is_zero l = (be_val l =? 0).
Proof.
  intros Hl. unfold is_zero. pose proof (foldl_lor_zero 0 l ltac:(lia) Hl) as Hz.
  destruct (Z.eqb_spec (foldl Z.lor 0 l) 0), (Z.eqb_spec (be_val l) 0); try done; tauto.
Qed.

Lemma select_all l1 l2 : bytes_ok l1 -> length l1 = length l2 -> zip_with (select 255) l1 l2 = l1.
Proof.
  intros H1. revert l2. induction H1 as [|a l1 Ha _ IH]; intros [|b l2] Hlen; try done. cbn [zip_with].
  rewrite IH by (cbn in Hlen; lia). f_equal. unfold select. change (Z.lxor 255 255) with 0. rewrite Z.land_0_r, Z.add_0_r.
  change 255 with (Z.ones 8). rewrite Z.land_ones by lia. change (2 ^ 8) with 256. unfold byte_ok in Ha.
  by rewrite !Z.mod_small by (rewrite ?Z.mod_small; lia).
Qed.

Lemma select_none l1 l2 : bytes_ok l2 -> length l1 = length l2 -> zip_with (select 0) l1 l2 = l2.
Proof.
  intros H2. revert l1. induction H2 as [|b l2 Hb _ IH]; intros [|a l1] Hlen; try done. cbn [zip_with].
  rewrite IH by (cbn in Hlen; lia). f_equal. unfold select. change (Z.lxor 255 0) with (Z.ones 8). rewrite Z.land_0_r, Z.add_0_l.
  rewrite Z.land_ones by lia. change (2 ^ 8) with 256. unfold byte_ok in Hb.
  by rewrite !Z.mod_small by (rewrite ?Z.mod_small; lia).
Qed.

(** [scalar_add_mod_n] adds modulo the order. *)
Lemma scalar_add_spec l r :
  bytes_of 32 l -> bytes_of 32 r -> be_val l < order -> be_val r < order ->
  bytes_of 32 (scalar_add_mod_n l r) /\ be_val (scalar_add_mod_n l r) = (be_val l + be_val r) mod order.
Proof.
  intros Hl Hr Hlo Hro. unfold scalar_add_mod_n.
  pose proof (add_spec l r (proj1 Hl) (proj1 Hr)) as Hadd. destruct (add l r) as [sum carry].
  destruct Hadd as (Hs & Hls & Hc & Hsum); [by rewrite (bytes_of_length Hl), (bytes_of_length Hr)|].
  assert (Hs32 : bytes_of 32 sum) by (split; [done|]; rewrite <- (proj2 Hl); unfold blen; lia).
  pose proof (subtract_spec sum SECP256K1_ORDER Hs (proj1 order_bytes)) as Hsub.
  destruct (subtract sum SECP256K1_ORDER) as [reduced borrow].
  destruct Hsub as (Hre & Hlr & Hb & Hred); [by rewrite (bytes_of_length Hs32)|]. fold order in Hred.
  assert (Hr32 : bytes_of 32 reduced) by (split; [done|]; rewrite <- (proj2 Hs32); unfold blen; lia).
  rewrite (proj2 Hl), (proj2 Hs32) in *. change (256 ^ 32) with (2 ^ 256) in *.
  pose proof (bytes_of_range l Hl). pose proof (bytes_of_range r Hr).
  pose proof (bytes_of_range sum Hs32). pose proof (bytes_of_range reduced Hr32).
  assert (Ho : 0 < order < 2 ^ 256) by (rewrite order_value; lia).
  destruct (negb (carry =? 0) || (borrow =? 0)) eqn:Hreduce; cbn [Z.b2z].
  - change ((0 - 1) mod 256) with 255. rewrite select_all by (done || lia). split; [done|].
    rewrite Hred. apply (Z.mod_unique _ _ 1); [|].
    + left. apply orb_true_iff in Hreduce as [Hcarry%negb_true_iff%Z.eqb_neq|Hborrow%Z.eqb_eq]; nia.
    + apply orb_true_iff in Hreduce as [Hcarry%negb_true_iff%Z.eqb_neq|Hborrow%Z.eqb_eq]; nia.
  - change ((0 - 0) mod 256) with 0. rewrite select_none by (done || lia). split; [done|].
    apply orb_false_iff in Hreduce as [Hcarry%negb_false_iff%Z.eqb_eq Hborrow%Z.eqb_neq].
    symmetry. rewrite Z.mod_small; nia.
Qed.

(** ** Keys *)

Import Bip32.

Definition valid_key (k : ExtendedPrivKey) : Prop :=
  bytes_of 32 (key k) /\ 0 < be_val (key k) < order /\ bytes_of 32 (chain_code k) /\ byte_ok (depth k).

#[export] Instance valid_key_dec k : Decision (valid_key k).
Proof. unfold valid_key. apply _. Defined.

Lemma bytes_of_split n l : bytes_of (32 + n) l -> 0 <= n -> bytes_of 32 (take 32 l) /\ bytes_of n (drop 32 l).
Proof.
  intros [Hl Hlen] Hn. unfold blen in *. split; split; try (by apply Forall_take || by apply Forall_drop); unfold blen.
  - rewrite length_take. lia.
  - rewrite length_drop. lia.
Qed.

Section keys.
Context (sha512 : list Z -> list Z) (sha512_size : forall l, bytes_of 64 (sha512 l)) `{CurveLaws}.

Lemma hmac_size k m : bytes_of 32 (take 32 (hmac_sha512 sha512 k m)) /\ bytes_of 32 (drop 32 (hmac_sha512 sha512 k m)).
Proof. apply (bytes_of_split 32); [apply sha512_size|lia]. Qed.

Lemma public_key_valid k : valid_key k -> public_key_compressed k = Ok (encode_point (generator_times (be_val (key k)))).
Proof.
  intros (Hk & Hr & _). unfold public_key_compressed, compressed_pubkey_from_raw_key.
  rewrite secret_key_spec by done. by decide_tests.
Qed.

Lemma generator_not_identity a : 0 < a < order -> is_identity (generator_times a) = false.
Proof. intros. rewrite generator_identity by lia. apply Z.eqb_neq. lia. Qed.

Lemma public_key_size k : valid_key k -> exists pk, public_key_compressed k = Ok pk /\ bytes_of 33 pk.
Proof.
  intros Hk. rewrite public_key_valid by done. eexists. split; [done|].
  apply encode_size, generator_not_identity, Hk.
Qed.

Lemma next_depth_ok d : byte_ok d -> byte_ok (next_depth d).
Proof. unfold byte_ok, next_depth, u8_max. lia. Qed.

(** A derived key is valid, and its scalar is the sum of the parent's and the
    tweak. *)
Lemma derive_child_spec parent index data :
  valid_key parent -> child_data parent index = Ok data ->
  let i := hmac_sha512 sha512 (chain_code parent) data in
  let tweak := be_val (take 32 i) in
  let sum := (tweak + be_val (key parent)) mod order in
  match derive_child sha512 parent index with
  | Ok child =>
      valid_key child /\ tweak < order /\ sum <> 0 /\ be_val (key child) = sum /\ chain_code child = drop 32 i /\
      depth child = next_depth (depth parent)
  | Err e => e = InvalidKey /\ (order <= tweak \/ sum = 0)
  end.
Proof.
  intros (Hk & Hr & Hc & Hd) Hdata. cbv zeta. unfold derive_child. rewrite Hdata. cbn [rbind].
  destruct (hmac_size (chain_code parent) data) as [Hil Hcc]. rewrite is_less_than_order_spec by done.
  destruct (Z.ltb_spec (be_val (take 32 (hmac_sha512 sha512 (chain_code parent) data))) order) as [Hlt|]; cbn [negb]; [|by split; [|left]].
  destruct (scalar_add_spec _ _ Hil Hk Hlt ltac:(lia)) as [Hb Hsum]. rewrite is_zero_spec by apply Hb. rewrite Hsum.
  destruct (Z.eqb_spec ((be_val (take 32 (hmac_sha512 sha512 (chain_code parent) data)) + be_val (key parent)) mod order) 0) as [Hz|Hnz];
    [by split; [|right]|].
  assert (Hsr : 0 < be_val (scalar_add_mod_n (take 32 (hmac_sha512 sha512 (chain_code parent) data)) (key parent)) < order).
  { rewrite Hsum. pose proof (Z.mod_pos_bound (be_val (take 32 (hmac_sha512 sha512 (chain_code parent) data)) + be_val (key parent)) order
      ltac:(rewrite order_value; lia)). lia. }
  split; [|done]. split; [exact Hb|]. split; [exact Hsr|]. split; [exact Hcc|]. by apply next_depth_ok.
Qed.

Lemma child_data_total parent index : valid_key parent -> exists data, child_data parent index = Ok data.
Proof.
  intros Hk. unfold child_data. destruct (negb _); [by eexists|]. destruct (public_key_size parent Hk) as (pk & -> & _). by eexists.
Qed.

Lemma derive_child_valid parent index child :
  valid_key parent -> derive_child sha512 parent index = Ok child -> valid_key child.
Proof.
  intros Hk Hchild. destruct (child_data_total parent index Hk) as [data Hdata].
  pose proof (derive_child_spec parent index data Hk Hdata) as Hspec. rewrite Hchild in Hspec. apply Hspec.
Qed.

Lemma fold_valid path parent child :
  valid_key parent -> try_fold (derive_child sha512) parent path = Ok child -> valid_key child.
Proof.
  revert parent. induction path as [|i path IH]; intros parent Hk; [by intros [= <-]|].
  intros (mid & Hmid & Hrest)%rbind_Ok_inv. eapply IH; [|exact Hrest]. by eapply derive_child_valid.
Qed.

Lemma master_valid seed k : master_key_from_seed sha512 seed = Ok k -> valid_key k.
Proof.
  unfold master_key_from_seed. destruct (hmac_size BITCOIN_SEED seed) as [Hk Hc].
  destruct (is_valid_secret_scalar _) eqn:Hv; [|done]. intros [= <-]. unfold is_valid_secret_scalar in Hv.
  apply andb_true_iff in Hv as [Hnz Hlt]. rewrite is_zero_spec in Hnz by apply Hk. rewrite is_less_than_order_spec in Hlt by done.
  apply negb_true_iff, Z.eqb_neq in Hnz. apply Z.ltb_lt in Hlt.
  pose proof (be_val_range _ (proj1 Hk)). split_and!; cbn [key chain_code]; try done; try lia; by_decide.
Qed.

(** One public step against the private one. *)
Lemma derive_child_pub_step parent xpub index :
  valid_key parent -> to_xpub parent = Ok xpub -> Z.land index HARDENED_BIT = 0 ->
  derive_child_pub sha512 xpub index = (let? child := derive_child sha512 parent index in to_xpub child).
Proof.
  intros Hk Hxpub Hsoft. pose proof (public_key_valid parent Hk) as Hpk.
  assert (Hdata : child_data parent index = Ok (encode_point (generator_times (be_val (key parent))) ++ be_bytes 4 index)).
  { unfold child_data. rewrite Hsoft, Hpk. done. }
  unfold to_xpub in Hxpub. rewrite Hpk in Hxpub. injection Hxpub as <-.
  pose proof (derive_child_spec parent index _ Hk Hdata) as Hspec. cbv zeta in Hspec.
  unfold derive_child_pub, child_public_scalar, scalar_and_chain_code. rewrite Hsoft. cbn [negb Z.eqb pubkey pub_chain_code pub_depth].
  set (i := hmac_sha512 sha512 (chain_code parent) _) in *.
  destruct (hmac_size (chain_code parent) (encode_point (generator_times (be_val (key parent))) ++ be_bytes 4 index)) as [Hil _].
  fold i in Hil. rewrite is_less_than_order_spec, scalar_value_spec by done.
  pose proof Hk as (_ & Hr & _).
  destruct (derive_child sha512 parent index) as [child|e].
  - destruct Hspec as (Hvalid & Hlt & Hnz & Hsum & Hcc & Hdepth). rewrite (proj2 (Z.ltb_lt _ _) Hlt). cbn [negb rbind ok_or].
    rewrite decode_encode by (by apply generator_not_identity). cbn [rbind ok_or]. rewrite <- generator_add, <- Hsum.
    pose proof Hvalid as (_ & Hcr & _). rewrite generator_not_identity by done. cbn [rbind]. unfold encode_child_point.
    rewrite (proj2 (encode_size _ (generator_not_identity _ Hcr))). cbn [negb Z.eqb Pos.eqb rbind].
    unfold to_xpub. rewrite public_key_valid by done. cbn [rbind]. by rewrite Hcc, Hdepth.
  - destruct Hspec as [-> [Hge|Hz]].
    + rewrite (proj2 (Z.ltb_ge _ _) Hge). done.
    + cbn [rbind]. destruct (Z.ltb_spec (be_val (take 32 i)) order) as [Hlt|]; [|done]. cbn [negb rbind ok_or].
      rewrite decode_encode by (by apply generator_not_identity). cbn [rbind ok_or].
      rewrite <- generator_add, Hz, generator_identity by (rewrite order_value; lia). done.
Qed.

(** C12: public derivation is the public half of private derivation: along any
    path of non-hardened indices, deriving from the extended public key of a
    valid key gives the extended public key of the privately derived key, and
    fails with the same error exactly when the private derivation does. *)
Theorem public_derivation_commutes (parent : ExtendedPrivKey) (xpub : ExtendedPubKey) (path : list Z) :
  valid_key parent -> to_xpub parent = Ok xpub -> Forall (fun index => Z.land index HARDENED_BIT = 0) path ->
  try_fold (derive_child_pub sha512) xpub path = (let? child := try_fold (derive_child sha512) parent path in to_xpub child).
Proof.
  intros Hk Hxpub Hpath. revert parent xpub Hk Hxpub.
  induction Hpath as [|index path Hsoft _ IH]; intros parent xpub Hk Hxpub; cbn [try_fold rbind]; [by rewrite Hxpub|].
  rewrite (derive_child_pub_step parent xpub index Hk Hxpub Hsoft).
  destruct (derive_child sha512 parent index) as [child|] eqn:Hchild; [|done]. cbn [rbind].
  pose proof (derive_child_valid _ _ _ Hk Hchild) as Hcv.
  destruct (public_key_size child Hcv) as (pk & Hpk & _). unfold to_xpub at 1. rewrite Hpk. cbn [rbind].
  apply IH; [done|]. unfold to_xpub. by rewrite Hpk.
Qed.
End keys.

(** ** The account path, one step at a time *)

Section stepper.
Context (sha512 : list Z -> list Z) `{Curve}.

(** The stepwise derivation after some steps of the account path. *)
Definition on_path (seed : list Z) (d : AccountKeyDerivation) : Prop :=
  0 <= next_step d <= blen KASPA_ACCOUNT_PATH /\
  derive_account_key sha512 seed
  = try_fold (derive_child sha512) (current d) (drop (Z.to_nat (next_step d)) KASPA_ACCOUNT_PATH).

Lemma on_path_new seed d : new sha512 seed = Ok d -> on_path seed d.
Proof.
  unfold new. intros (k & Hk & [= <-])%rbind_Ok_inv. split; [by_decide|]. cbn [next_step current Z.to_nat drop].
  unfold derive_account_key, derive_path. by rewrite Hk.
Qed.

Lemma advance_on_path seed d : on_path seed d ->
  match advance_one sha512 d with
  | (Ok done, d') =>
      on_path seed d' /\ done = is_complete d' /\ (is_complete d = false -> next_step d' = next_step d + 1) /\
      (is_complete d = true -> d' = d)
  | (Err e, d') => d' = d /\ is_complete d = false /\ derive_account_key sha512 seed = Err e
  end.
Proof.
  intros [Hrange Hrun]. unfold advance_one. destruct (is_complete d) eqn:Hc; [done|].
  unfold is_complete in Hc. apply Z.eqb_neq in Hc. change (blen KASPA_ACCOUNT_PATH) with 3 in *.
  assert (Hget : exists i, get_at KASPA_ACCOUNT_PATH (next_step d) = Some i /\
    drop (Z.to_nat (next_step d)) KASPA_ACCOUNT_PATH = i :: drop (Z.to_nat (next_step d + 1)) KASPA_ACCOUNT_PATH).
  { assert (Hcase : next_step d = 0 \/ next_step d = 1 \/ next_step d = 2) by lia.
    by destruct Hcase as [->|[->| ->]]; eexists. }
  destruct Hget as (i & Hget & Hdrop). rewrite Hget. cbn [default from_option]. unfold id. rewrite Hdrop in Hrun. cbn [try_fold] in Hrun.
  destruct (derive_child sha512 (current d) i) as [child|e]; cbn [rbind] in Hrun; [|done].
  split_and!; try done; try (cbn; lia).
  split; [change (blen KASPA_ACCOUNT_PATH) with 3; cbn; lia|exact Hrun].
Qed.

(** Whatever the steps, a finished derivation is the account key. *)
Lemma finish_on_path seed d k : on_path seed d -> finish d = Ok k -> derive_account_key sha512 seed = Ok k.
Proof.
  intros [_ Hrun]. unfold finish, is_complete. destruct (Z.eqb_spec (next_step d) (blen KASPA_ACCOUNT_PATH)) as [Hd|]; [|done].
  intros [= <-]. by rewrite Hrun, Hd.
Qed.
End stepper.

(** ** Searching an address key *)

Section lookup.
Context (sha512 : list Z -> list Z) `{Curve}.

Lemma scan_chain_spec account target is_change depth :
  match scan_chain sha512 account target is_change depth with
  | Some (idx, change) =>
      change = is_change /\ 0 <= idx < depth /\ key_at sha512 account is_change idx = Some target /\
      forall j, 0 <= j < idx -> key_at sha512 account is_change j <> Some target
  | None => forall j, 0 <= j < depth -> key_at sha512 account is_change j <> Some target
  end.
Proof.
  unfold scan_chain. destruct (list_find _ _) as [[k idx]|] eqn:Hf; cbn [fmap option_fmap option_map snd].
  - apply list_find_Some in Hf as (Hk & Hp & Hfirst). apply lookup_seqZ in Hk as [-> Hk].
    split_and!; try done; try lia. intros j Hj.
    apply (Hfirst (Z.to_nat j) j); [apply lookup_seqZ; lia|lia].
  - apply list_find_None in Hf. rewrite Forall_forall in Hf. intros j Hj. apply Hf, elem_of_seqZ. lia.
Qed.

(** A found index derives the target, on the receive chain if both chains hold
    it; nothing found means that neither chain holds it within the depth. *)
Lemma find_address_index_spec account target :
  match find_address_index_for_pubkey sha512 account target with
  | Some (idx, change) => 0 <= idx < SIGN_MATCH_DEPTH /\ key_at sha512 account change idx = Some target
  | None => forall change j, 0 <= j < SIGN_MATCH_DEPTH -> key_at sha512 account change j <> Some target
  end.
Proof.
  unfold find_address_index_for_pubkey. pose proof (scan_chain_spec account target false SIGN_MATCH_DEPTH) as H1.
  destruct (scan_chain _ _ _ false _) as [[idx change]|]; [by destruct H1 as (-> & ? & ? & _)|].
  pose proof (scan_chain_spec account target true SIGN_MATCH_DEPTH) as H2.
  destruct (scan_chain _ _ _ true _) as [[idx change]|]; [by destruct H2 as (-> & ? & ? & _)|]. by intros [].
Qed.

(** *** The cached table *)

(** The entries of one chain: the indices that derive. *)
Definition chain_entries (account : ExtendedPrivKey) (is_change : bool) (indices : list Z) : list (bool * Z * list Z) :=
  omap (fun idx => (fun pk => (is_change, idx, pk)) <$> key_at sha512 account is_change idx) indices.

(** The table holds [l] in its first [filled] entries. *)
Definition holds (tbl : AddrPubkeyTable) (l : list (bool * Z * list Z)) : Prop :=
  filled tbl = blen l /\ take (Z.to_nat (filled tbl)) (entries tbl) = l /\ length (entries tbl) = Z.to_nat (ADDR_SCAN_DEPTH * 2).

Lemma add_entries account is_change indices tbl l :
  holds tbl l -> blen l + blen indices <= ADDR_SCAN_DEPTH * 2 ->
  holds (foldl (add_entry sha512 account is_change) tbl indices) (l ++ chain_entries account is_change indices).
Proof.
  revert tbl l. induction indices as [|idx indices IH]; intros tbl l Hh Hroom; cbn [foldl].
  - by rewrite app_nil_r.
  - rewrite blen_cons in Hroom. unfold add_entry at 2, chain_entries. cbn [omap list_omap].
    destruct (key_at sha512 account is_change idx) as [pk|]; cbn [fmap option_fmap option_map].
    2:{ apply IH; [done|lia]. }
    rewrite cons_middle, app_assoc. apply IH; [|rewrite blen_app, blen_cons; change (blen []) with 0; lia].
    destruct Hh as (Hf & Ht & Hlen). pose proof (blen_nonneg indices).
    assert (Hlt : (length l < length (entries tbl))%nat) by (rewrite Hlen; unfold blen in *; lia).
    assert (Hn : Z.to_nat (filled tbl) = length l) by (rewrite Hf; unfold blen; lia).
    split_and!; cbn [filled entries].
    + rewrite Hf, blen_app. done.
    + replace (Z.to_nat (filled tbl + 1)) with (S (length l)) by (rewrite Hf; unfold blen; lia). rewrite Hn in *.
      rewrite (take_S_r _ _ (is_change, idx, pk)) by (by apply list_lookup_insert_eq).
      rewrite take_insert_ge by lia. by rewrite Ht.
    + by rewrite length_insert.
Qed.

Lemma find_entries account is_change indices target :
  (fun found : nat * (bool * Z * list Z) => (snd (fst found.2), fst (fst found.2))) <$>
    list_find (fun e : bool * Z * list Z => snd e = target) (chain_entries account is_change indices)
  = (fun found => (found.2, is_change)) <$>
    list_find (fun idx => key_at sha512 account is_change idx = Some target) indices.
Proof.
  induction indices as [|idx indices IH]; [done|]. unfold chain_entries in *. cbn [omap list_omap list_find].
  destruct (key_at sha512 account is_change idx) as [pk|] eqn:Hpk; cbn [fmap option_fmap option_map].
  - cbn [list_find snd]. destruct (decide (pk = target)) as [->|Hne].
    + rewrite decide_True by done. done.
    + rewrite decide_False by congruence. by destruct (list_find _ (omap _ _)) as [[]|], (list_find _ indices) as [[]|].
  - rewrite decide_False by done. rewrite IH. by destruct (list_find _ indices) as [[]|].
Qed.

Lemma list_find_append {A B} (P : A -> Prop) `{!forall x, Decision (P x)} (g : A -> B) (l1 l2 : list A) :
  (fun found : nat * A => g found.2) <$> list_find P (l1 ++ l2)
  = match (fun found : nat * A => g found.2) <$> list_find P l1 with
    | Some b => Some b
    | None => (fun found : nat * A => g found.2) <$> list_find P l2
    end.
Proof.
  induction l1 as [|a l1 IH]; [done|]. cbn [app list_find]. destruct (decide (P a)); [done|].
  replace (_ <$> (_ <$> list_find P (l1 ++ l2))) with ((fun found : nat * A => g found.2) <$> list_find P (l1 ++ l2))
    by (by destruct (list_find P (l1 ++ l2)) as [[]|]).
  rewrite IH. by destruct (list_find P l1) as [[]|].
Qed.

(** The table finds what a scan to its own depth finds. *)
Lemma table_scans account target :
  find_by_pubkey (build sha512 account) target =
    match scan_chain sha512 account target false ADDR_SCAN_DEPTH with
    | Some found => Some found
    | None => scan_chain sha512 account target true ADDR_SCAN_DEPTH
    end.
Proof.
  unfold find_by_pubkey, build.
  set (empty := {| entries := _; filled := 0 |}).
  assert (Hempty : holds empty []) by done.
  assert (Hseq : blen (seqZ 0 ADDR_SCAN_DEPTH) = 20) by done.
  pose proof (add_entries account false (seqZ 0 ADDR_SCAN_DEPTH) empty [] Hempty ltac:(by rewrite Hseq)) as H1.
  cbn [app] in H1.
  pose proof (add_entries account true (seqZ 0 ADDR_SCAN_DEPTH) _ _ H1) as H2.
  assert (Hshort : blen (chain_entries account false (seqZ 0 ADDR_SCAN_DEPTH)) <= 20).
  { rewrite <- Hseq. unfold blen, chain_entries. generalize (seqZ 0 ADDR_SCAN_DEPTH) as l. intros l.
    induction l as [|x l IH]; [done|]. cbn [omap list_omap]. destruct (fmap _ _); cbn [length]; lia. }
  destruct H2 as (_ & -> & _); [rewrite Hseq; change (ADDR_SCAN_DEPTH * 2) with 40; lia|].
  rewrite (list_find_append _ (fun e : bool * Z * list Z => (e.1.2, e.1.1))).
  unfold scan_chain. by rewrite !find_entries.
Qed.
End lookup.

(** ** A curve to evaluate on

    The group of integers modulo the order, with fixed-width encodings. It
    satisfies the laws, so the theorems that assume them are not empty. *)

Definition toy_hash512 (l : list Z) : list Z :=
  be_bytes 64 (foldl (fun acc b => Z.land (acc * 257 + b + 1) (Z.ones 64)) 7 l * (2 ^ 440 + 2 ^ 380 + 2 ^ 310 + 2 ^ 190 + 2 ^ 100)).

Lemma toy_hash512_size l : bytes_of 64 (toy_hash512 l).
Proof. split; [apply be_bytes_ok|]. unfold blen, toy_hash512. by rewrite be_bytes_length. Qed.

Definition toy_point : Type := { a : Z | (0 <=? a) && (a <? order) = true }.

Lemma toy_reduce a : (0 <=? a mod order) && (a mod order <? order) = true.
Proof. pose proof (Z.mod_pos_bound a order ltac:(rewrite order_value; lia)). lia. Qed.

Definition toy_times (a : Z) : toy_point := exist _ (a mod order) (toy_reduce a).

Lemma toy_point_eq (p q : toy_point) : proj1_sig p = proj1_sig q -> p = q.
Proof.
  destruct p as [a Ha], q as [b Hb]. cbn [proj1_sig]. intros ->. f_equal. apply (Eqdep_dec.UIP_dec Bool.bool_dec).
Qed.

Lemma toy_point_range (p : toy_point) : 0 <= proj1_sig p < order.
Proof. destruct p as [a Ha]. cbn [proj1_sig]. lia. Qed.

Definition toy_curve : Curve := {|
  point := toy_point;
  generator_times := toy_times;
  point_add p q := toy_times (proj1_sig p + proj1_sig q);
  is_identity p := proj1_sig p =? 0;
  decode_point l := match l with 2 :: l => if be_val l <? order then Some (toy_times (be_val l)) else None | _ => None end;
  encode_point p := 2 :: be_bytes 32 (proj1_sig p);
  secret_key l := if (0 <? be_val l) && (be_val l <? order) then Some (be_val l) else None;
  scalar_value l := if be_val l <? order then Some (be_val l) else None |}.

Lemma toy_decode (p : toy_point) : toy_times (be_val (be_bytes 32 (proj1_sig p))) = p.
Proof.
  apply toy_point_eq. pose proof (toy_point_range p). rewrite be_val_be_bytes.
  - apply Z.mod_small. lia.
  - assert (order < 256 ^ Z.of_nat 32) by by_decide. lia.
Qed.

Lemma toy_value (p : toy_point) : be_val (be_bytes 32 (proj1_sig p)) = proj1_sig p.
Proof.
  pose proof (toy_point_range p). assert (order < 256 ^ Z.of_nat 32) by by_decide. apply be_val_be_bytes. lia.
Qed.

Lemma toy_laws : @CurveLaws toy_curve.
Proof.
  split.
  - intros a b. apply toy_point_eq. exact (eq_trans (Zmod_mod (a + b) order) (Zplus_mod a b order)).
  - intros p q. apply toy_point_eq. exact (f_equal (fun a => a mod order) (Z.add_comm (proj1_sig p) (proj1_sig q))).
  - intros a Ha. cbn -[order]. by rewrite Z.mod_small.
  - intros p _. change (decode_point _) with (if be_val (be_bytes 32 (proj1_sig p)) <? order
      then Some (toy_times (be_val (be_bytes 32 (proj1_sig p)))) else None).
    rewrite toy_decode, toy_value. pose proof (toy_point_range p). by rewrite (proj2 (Z.ltb_lt _ _)) by lia.
  - intros l p [[Hb Hl] _] Hdec _. change (2 :: be_bytes 32 (proj1_sig p) = l). destruct l as [|tag l]; [done|].
    apply Forall_cons in Hb as [_ Hb]. rewrite blen_cons in Hl. destruct (decide (tag = 2)) as [->|]; [|by destruct tag as [|[]|]; try destruct p0].
    change (decode_point (2 :: l)) with (if be_val l <? order then Some (toy_times (be_val l)) else None) in Hdec.
    destruct (Z.ltb_spec (be_val l) order) as [Hlt|]; [|done]. injection Hdec as <-. f_equal.
    change (proj1_sig (toy_times (be_val l))) with (be_val l mod order). pose proof (be_val_range l Hb). rewrite Z.mod_small by lia.
    apply be_val_inj; [apply be_bytes_ok|done|rewrite be_bytes_length; unfold blen in *; lia|]. apply be_val_be_bytes.
    replace (256 ^ Z.of_nat 32) with (256 ^ blen l) by (f_equal; lia). done.
  - intros p _. change (bytes_of 33 (2 :: be_bytes 32 (proj1_sig p))).
    split; [apply Forall_cons; split; [by_decide|apply be_bytes_ok]|]. by rewrite blen_cons, blen_be_bytes.
  - done.
  - done.
Qed.

Definition toy_key : ExtendedPrivKey :=
  {| key := be_bytes 32 0x123456789; chain_code := replicate 32 7; depth := 3 |}.
Definition toy_xpub : ExtendedPubKey :=
  {| pubkey := 2 :: key toy_key; pub_chain_code := replicate 32 7; pub_depth := 3 |}.

Example public_derivation_commutes_witness :
  valid_key toy_key /\ is_ok (try_fold (derive_child (H := toy_curve) toy_hash512) toy_key [0; 5]) = true /\
  try_fold (derive_child_pub (H := toy_curve) toy_hash512) toy_xpub [0; 5] =
  (let? child := try_fold (derive_child (H := toy_curve) toy_hash512) toy_key [0; 5] in to_xpub (H := toy_curve) child).
Proof.
  split; [by_decide|]. split; [vm_compute; reflexivity|].
  apply (public_derivation_commutes (H := toy_curve) toy_hash512 toy_hash512_size (H0 := toy_laws)); by_decide || by repeat constructor.
Defined.
