(* ===== verification/Keys.v ===== *)
(** * Account keys as text

    [src/src/wallet/key]: Base58 and Base58Check ([xpub/base58.rs]), the
    canonical [kpub1:] text ([account.rs]), the imports of other wallets' keys
    ([bip32_xpub.rs]), and the extended public and private keys of an account
    ([xpub/kpub.rs], [xpub/xprv.rs], [xpub/fingerprint.rs]). A function that
    fills a buffer returns its result and the buffer. Wiping memory has no
    counterpart. *)

From S2P Require Import Prelude Bytes Script TxModel Hd.
Import Hex QrPayload Bip32.

(** ** [xpub/base58.rs] *)

Module Base58.

Definition BASE58_ALPHABET : list Z := str "123456789ABCDEFGHJKLMNPQRSTUVWXYZabcdefghijkmnopqrstuvwxyz".
Definition MAX_BASE58_CHARS : Z := 175.
Definition MAX_BASE58_BYTES : Z := 128.

Inductive Base58EncodeError := InputTooLong | BufferTooSmall.
Inductive Base58Error := Empty | InvalidCharacter | Overflow | InvalidChecksum.

(** The length of the longest prefix of bytes equal to [b]: [take_while]. *)
Fixpoint leading (b : Z) (l : list Z) : nat :=
  match l with
  | x :: l => if x =? b then S (leading b l) else 0%nat
  | [] => 0%nat
  end.

(** One pass of the loop: every byte becomes its quotient. *)
Fixpoint divide_pass (remainder : Z) (number : list Z) : list Z * Z :=
  match number with
  | [] => ([], remainder)
  | byte :: number =>
      let value := remainder * 256 + byte in
      let '(quotients, remainder) := divide_pass (value mod 58) number in
      ((value / 58) mod 256 :: quotients, remainder)
  end.

(** [slots] is what is left of the digit array; a digit beyond it panics. *)
Fixpoint base58_digits (slots : nat) (number : list Z) : option (list Z) :=
  let number := drop (leading 0 number) number in
  if bool_decide (number = []) then Some []
  else
    match slots with
    | O => None
    | S slots =>
        let '(number, remainder) := divide_pass 0 number in
        digits ← base58_digits slots number;
        Some (default 0 (get_at BASE58_ALPHABET remainder) :: digits)
    end.

Definition base58_encode (data out : list Z) : result Z (Fault Base58EncodeError) * list Z :=
  if MAX_BASE58_BYTES <? blen data then (Err (Fails InputTooLong), out)
  else
    let leading_zeros := leading 0 data in
    match base58_digits (Z.to_nat MAX_BASE58_CHARS) (drop leading_zeros data) with
    | None => (Err Panics, out)
    | Some digits =>
        let total := Z.of_nat leading_zeros + blen digits in
        match copy_into out 0 (replicate leading_zeros 49 ++ rev digits) with
        | None => (Err (Fails BufferTooSmall), out)
        | Some out => (Ok total, out)
        end
    end.

Definition base58_char_value (byte : Z) : option Z :=
  (fun found => Z.of_nat (fst found)) <$> list_find (fun candidate => candidate = byte) BASE58_ALPHABET.

(** The first loop of [mul_add_base58], from the last byte to the first. *)
Fixpoint mul_carry (number : list Z) (digit : Z) : list Z * Z :=
  match number with
  | [] => ([], digit)
  | byte :: number =>
      let '(number, carry) := mul_carry number digit in
      let carry := carry + byte * 58 in
      (Z.land carry 0xff :: number, Z.shiftr carry 8)
  end.

(** The second loop: a 32-bit carry has at most four bytes. *)
Fixpoint push_carry (fuel : nat) (number : list Z) (carry : Z) : result (list Z) Base58Error :=
  match fuel with
  | O => Ok number
  | S fuel =>
      if carry =? 0 then Ok number
      else if blen number =? MAX_BASE58_BYTES then Err Overflow
      else push_carry fuel (Z.land carry 0xff :: number) (Z.shiftr carry 8)
  end.

(** [number] is the used part of the number array. *)
Definition mul_add_base58 (number : list Z) (digit : Z) : result (list Z) Base58Error :=
  let '(number, carry) := mul_carry number digit in push_carry 4 number carry.

Definition decode_step (number : list Z) (byte : Z) : result (list Z) Base58Error :=
  let? digit := ok_or (base58_char_value byte) InvalidCharacter in mul_add_base58 number digit.

Definition base58_decode (input out : list Z) : result Z Base58Error * list Z :=
  if bool_decide (input = []) then (Err Empty, out)
  else
    let leading_zeroes := leading 49 input in
    match try_fold decode_step [] input with
    | Err e => (Err e, out)
    | Ok number =>
        let total := Z.of_nat leading_zeroes + blen number in
        match copy_into out 0 (replicate leading_zeroes 0 ++ number) with
        | None => (Err Overflow, out)
        | Some out => (Ok total, out)
        end
    end.

Section check.
Context (sha256 : list Z -> list Z).

Definition sha256d (data : list Z) : list Z := sha256 (sha256 data).

Definition base58check_encode (data out : list Z) : result Z (Fault Base58EncodeError) * list Z :=
  if MAX_BASE58_BYTES <? blen data + 4 then (Err (Fails InputTooLong), out)
  else base58_encode (data ++ take 4 (sha256d data)) out.

Definition base58check_decode (input out : list Z) : result Z Base58Error * list Z :=
  match base58_decode input (zeros MAX_BASE58_BYTES) with
  | (Err e, _) => (Err e, out)
  | (Ok raw_len, raw) =>
      if raw_len <? 4 then (Err InvalidChecksum, out)
      else
        let payload_len := raw_len - 4 in
        let payload := take (Z.to_nat payload_len) raw in
        if (payload_len =? 0)
           || negb (list_Z_eqb (take 4 (drop (Z.to_nat payload_len) raw)) (take 4 (sha256d payload)))
        then (Err InvalidChecksum, out)
        else (Ok payload_len, default out (copy_into out 0 payload))
  end.
End check.
End Base58.

(** ** [account.rs] *)

Definition ACCOUNT_KEY_VERSION : list Z := [0x03; 0x8f; 0x33; 0x2e].
Definition ACCOUNT_KEY_PAYLOAD_LEN : Z := 78.
Definition ACCOUNT_KEY_TEXT_PREFIX : list Z := str "kpub1:".
Definition ACCOUNT_KEY_TEXT_LEN : Z := blen ACCOUNT_KEY_TEXT_PREFIX + ACCOUNT_KEY_PAYLOAD_LEN * 2.
Definition ACCOUNT_KEY_DEPTH : Z := 3.
Definition ACCOUNT_KEY_CHILD_INDEX : Z := 0x80000000.

(** [l[i..j]] of a slice long enough. *)
Definition range (l : list Z) (i j : Z) : list Z := take (Z.to_nat (j - i)) (drop (Z.to_nat i) l).
(** [matches!(byte, 0x02 | 0x03)] *)
Definition is_key_prefix (byte : Z) : bool := (byte =? 0x02) || (byte =? 0x03).

(** The conditions on an account key's header, shared with [is_account_key]. *)
Definition account_header (payload version : list Z) : bool :=
  list_Z_eqb (range payload 0 4) version
  && (default 0 (get_at payload 4) =? ACCOUNT_KEY_DEPTH)
  && list_Z_eqb (range payload 9 13) (be_bytes 4 ACCOUNT_KEY_CHILD_INDEX)
  && is_key_prefix (default 0 (get_at payload 45)).

Definition validate_account_key_payload (payload : list Z) : bool :=
  (blen payload =? ACCOUNT_KEY_PAYLOAD_LEN) && account_header payload ACCOUNT_KEY_VERSION.

(** The prefix fills the first six bytes of the text, the digits the rest. *)
Definition encode_account_key_text (payload output : list Z) : option Z * list Z :=
  if negb (validate_account_key_payload payload) then (None, output)
  else
    match encode_lower_hex payload (drop 6 output) with
    | (None, digits) => (None, ACCOUNT_KEY_TEXT_PREFIX ++ digits)
    | (Some encoded, digits) => (Some (blen ACCOUNT_KEY_TEXT_PREFIX + encoded), ACCOUNT_KEY_TEXT_PREFIX ++ digits)
    end.

Definition decode_account_key_text (text output : list Z) : option Z * list Z :=
  if negb (blen text =? ACCOUNT_KEY_TEXT_LEN) || negb (bool_decide (ACCOUNT_KEY_TEXT_PREFIX `prefix_of` text))
  then (None, output)
  else
    match decode_lower_hex (drop 6 text) output with
    | (None, output) => (None, output)
    | (Some _, output) =>
        (if validate_account_key_payload output then Some ACCOUNT_KEY_PAYLOAD_LEN else None, output)
    end.

(** ** [bip32_xpub.rs] *)

Definition BIP32_XPUB_VERSION : list Z := [0x04; 0x88; 0xb2; 0x1e].

Inductive Bip32XpubImportError := XpubEmpty | XpubInvalidCharacter | XpubOverflow | XpubInvalidChecksum | InvalidPayload.

(** [From<Base58Error>] *)
Definition from_base58 (error : Base58.Base58Error) : Bip32XpubImportError :=
  match error with
  | Base58.Empty => XpubEmpty
  | Base58.InvalidCharacter => XpubInvalidCharacter
  | Base58.Overflow => XpubOverflow
  | Base58.InvalidChecksum => XpubInvalidChecksum
  end.

Section keys.
Context (sha256 ripemd160 sha512 : list Z -> list Z) `{Curve}.

Definition decode_account_key (encoded version output : list Z) : result Z Bip32XpubImportError * list Z :=
  let output := map (fun _ => 0) output in
  match Base58.base58check_decode sha256 encoded (zeros Base58.MAX_BASE58_BYTES) with
  | (Err e, _) => (Err (from_base58 e), output)
  | (Ok length, decoded) =>
      match slice decoded 0 length with
      | Some payload =>
          if (blen payload =? ACCOUNT_KEY_PAYLOAD_LEN) && account_header payload version
          then (Ok ACCOUNT_KEY_PAYLOAD_LEN, ACCOUNT_KEY_VERSION ++ drop 4 payload)
          else (Err InvalidPayload, output)
      | None => (Err InvalidPayload, output)
      end
  end.

Definition decode_bip32_xpub (encoded output : list Z) := decode_account_key encoded BIP32_XPUB_VERSION output.
Definition decode_base58_kpub (encoded output : list Z) := decode_account_key encoded ACCOUNT_KEY_VERSION output.

(** ** [xpub/fingerprint.rs] and [xpub/kpub.rs] *)

Definition parent_fingerprint (compressed_parent_pubkey : list Z) : list Z :=
  take 4 (ripemd160 (sha256 compressed_parent_pubkey)).

Record KpubParts := {
  kp_depth : Z; kp_parent_fp : list Z; kp_child_num : list Z; kp_chain_code : list Z; kp_pubkey : list Z }.

#[export] Instance KpubParts_eq_dec : EqDecision KpubParts.
Proof. solve_decision. Defined.

Definition parts_from_payload (payload : list Z) : option KpubParts :=
  if negb (list_Z_eqb (range payload 0 4) ACCOUNT_KEY_VERSION) || negb (is_key_prefix (default 0 (get_at payload 45)))
  then None
  else Some {|
    kp_depth := default 0 (get_at payload 4);
    kp_parent_fp := range payload 5 9;
    kp_child_num := range payload 9 13;
    kp_chain_code := range payload 13 45;
    kp_pubkey := range payload 45 78 |}.

(** The text, a Base58Check kpub, or a BIP-32 xpub. *)
Definition decode_kpub_or_xpub (text out : list Z) : result Z Bip32Error * list Z :=
  match decode_account_key_text text out with
  | (Some length, out) => (Ok length, out)
  | (None, out) =>
      match decode_base58_kpub text out with
      | (Ok _, out) => (Ok ACCOUNT_KEY_PAYLOAD_LEN, out)
      | (Err _, out) =>
          match decode_bip32_xpub text out with
          | (Ok _, out) => (Ok ACCOUNT_KEY_PAYLOAD_LEN, out)
          | (Err _, out) => (Err InvalidKey, out)
          end
      end
  end.

Definition parse_kpub_parts (text : list Z) : option KpubParts :=
  match decode_kpub_or_xpub text (zeros ACCOUNT_KEY_PAYLOAD_LEN) with
  | (Ok _, payload) => parts_from_payload payload
  | (Err _, _) => None
  end.

Definition encode_kpub_text (payload out : list Z) : result Z Bip32Error * list Z :=
  let '(length, out) := encode_account_key_text payload out in (ok_or length InvalidKey, out).

Definition decode_kpub_text (text out : list Z) : result Z Bip32Error * list Z :=
  let '(length, out) := decode_account_key_text text out in (ok_or length InvalidKey, out).
Definition kpub_text_to_raw (text out : list Z) : result Z Bip32Error * list Z := decode_kpub_text text out.

Definition parts_payload (parts : KpubParts) : list Z :=
  ACCOUNT_KEY_VERSION ++ [kp_depth parts] ++ kp_parent_fp parts ++ kp_child_num parts ++ kp_chain_code parts
  ++ kp_pubkey parts.

Definition serialize_kpub_parts (parts : KpubParts) (out : list Z) : result Z Bip32Error * list Z :=
  encode_kpub_text (parts_payload parts) out.

Definition normalize_kpub_text (text out : list Z) : result Z Bip32Error * list Z :=
  match decode_kpub_or_xpub text (zeros ACCOUNT_KEY_PAYLOAD_LEN) with
  | (Err e, _) => (Err e, out)
  | (Ok _, payload) => encode_kpub_text payload out
  end.

Definition derive_multisig_account_parts (seed : list Z) (account : Z) : result KpubParts Bip32Error :=
  if HARDENED_BIT <=? account then Err InvalidKey
  else
    let? parent := derive_path sha512 seed KASPA_MULTISIG_ACCOUNT_PREFIX in
    let? parent_pubkey := public_key_compressed parent in
    let? account_key := derive_multisig_account_key sha512 seed account in
    let? pubkey := public_key_compressed account_key in
    Ok {| kp_depth := 3;
          kp_parent_fp := parent_fingerprint parent_pubkey;
          kp_child_num := be_bytes 4 (account + HARDENED_BIT);
          kp_chain_code := chain_code account_key;
          kp_pubkey := pubkey |}.

Definition derive_and_serialize_multisig_kpub (seed out : list Z) : result Z Bip32Error * list Z :=
  match derive_multisig_account_parts seed 0 with
  | Err e => (Err e, out)
  | Ok parts => serialize_kpub_parts parts out
  end.

(** The error leaves a part of the buffer written; every caller drops it. *)
Definition write_account_payload (account_key : ExtendedPrivKey) (parent_fingerprint : list Z) (child_index : Z)
  : result (list Z) Bip32Error :=
  if negb (child_index =? ACCOUNT_KEY_CHILD_INDEX) then Err InvalidKey
  else
    let? pubkey := public_key_compressed account_key in
    Ok (ACCOUNT_KEY_VERSION ++ [ACCOUNT_KEY_DEPTH] ++ parent_fingerprint ++ be_bytes 4 child_index
        ++ chain_code account_key ++ pubkey).

Definition serialize_with (account_key : ExtendedPrivKey) (fingerprint : list Z) (child_index : Z) (out : list Z)
  : result Z Bip32Error * list Z :=
  match write_account_payload account_key fingerprint child_index with
  | Err e => (Err e, out)
  | Ok payload => encode_kpub_text payload out
  end.

Definition serialize_kpub (account_key : ExtendedPrivKey) (parent_pubkey_compressed : list Z) (child_index : Z)
  (out : list Z) : result Z Bip32Error * list Z :=
  serialize_with account_key (parent_fingerprint parent_pubkey_compressed) child_index out.
Definition serialize_account_kpub (account_key : ExtendedPrivKey) (parent_fingerprint : list Z) (out : list Z)
  : result Z Bip32Error * list Z :=
  serialize_with account_key parent_fingerprint 0x80000000 out.

(** The account key and the public key of its parent. *)
Definition account_and_parent (seed : list Z) : result (list Z * ExtendedPrivKey) Bip32Error :=
  let? parent_key := derive_path sha512 seed [0x8000002c; 0x8001b207] in
  let? parent_pubkey := public_key_compressed parent_key in
  let? account_key := derive_path sha512 seed KASPA_ACCOUNT_PATH in
  Ok (parent_pubkey, account_key).

Definition derive_and_serialize_kpub (seed out : list Z) : result Z Bip32Error * list Z :=
  match account_and_parent seed with
  | Err e => (Err e, out)
  | Ok (parent_pubkey, account_key) => serialize_kpub account_key parent_pubkey 0x80000000 out
  end.

Definition derive_account_raw_kpub_payload (seed : list Z) : result (list Z) Bip32Error :=
  let? (parent_pubkey, account_key) := account_and_parent seed in
  write_account_payload account_key (parent_fingerprint parent_pubkey) 0x80000000.

Definition import_kpub_raw (payload : list Z) : result ExtendedPubKey Bip32Error :=
  if negb (validate_account_key_payload payload) then Err InvalidKey
  else Ok {| pubkey := range payload 45 78; pub_chain_code := range payload 13 45;
             pub_depth := default 0 (get_at payload 4) |}.

Definition import_kpub (kpub_text : list Z) : result ExtendedPubKey Bip32Error :=
  match decode_kpub_or_xpub kpub_text (zeros ACCOUNT_KEY_PAYLOAD_LEN) with
  | (Err e, _) => Err e
  | (Ok _, payload) => import_kpub_raw payload
  end.

Definition import_kpub_qr (blob : list Z) : result ExtendedPubKey Bip32Error :=
  let? raw := ok_or (unwrap_v1_raw blob) InvalidKey in import_kpub_raw raw.

(** ** [xpub/xprv.rs] *)

Definition KASPA_XPRV_VERSION : list Z := [0x03; 0x8f; 0x2e; 0xf4].
Definition XPRV_MAX_LEN : Z := 120.

Record ImportedAccountXprv := { imported_key : ExtendedPrivKey; imported_fingerprint : list Z }.

Definition xprv_payload (account_key : ExtendedPrivKey) (parent_fingerprint : list Z) : list Z :=
  KASPA_XPRV_VERSION ++ [3] ++ parent_fingerprint ++ be_bytes 4 0x80000000 ++ chain_code account_key ++ [0]
  ++ key account_key.

Definition serialize_account_xprv (account_key : ExtendedPrivKey) (parent_fingerprint out : list Z)
  : result Z (Fault Bip32Error) * list Z :=
  if negb (depth account_key =? 3) then (Err (Fails InvalidKey), out)
  else
    match Base58.base58check_encode sha256 (xprv_payload account_key parent_fingerprint) out with
    | (Ok length, out) => (Ok length, out)
    | (Err (Fails _), out) => (Err (Fails InvalidKey), out)
    | (Err Panics, out) => (Err Panics, out)
    end.

Definition serialize_imported_xprv (imported : ImportedAccountXprv) (out : list Z)
  : result Z (Fault Bip32Error) * list Z :=
  serialize_account_xprv (imported_key imported) (imported_fingerprint imported) out.

Definition derive_and_serialize_xprv (seed out : list Z) : result Z (Fault Bip32Error) * list Z :=
  match account_and_parent seed with
  | Err e => (Err (Fails e), out)
  | Ok (parent_pubkey, account_key) => serialize_account_xprv account_key (parent_fingerprint parent_pubkey) out
  end.

Definition import_xprv_with_metadata (xprv_text : list Z) : result ImportedAccountXprv Bip32Error :=
  let '(decoded, payload) := Base58.base58check_decode sha256 xprv_text (zeros 128) in
  let payload_length := match decoded with Ok length => length | Err _ => 0 end in
  if negb (payload_length =? ACCOUNT_KEY_PAYLOAD_LEN)
     || negb (list_Z_eqb (range payload 0 4) KASPA_XPRV_VERSION)
     || negb (default 0 (get_at payload 4) =? 3)
     || negb (list_Z_eqb (range payload 9 13) (be_bytes 4 0x80000000))
     || negb (default 0 (get_at payload 45) =? 0)
  then Err InvalidKey
  else
    let account := from_parts (range payload 46 78) (range payload 13 45) (default 0 (get_at payload 4)) in
    let? _ := rmap_err (fun _ => InvalidKey) (public_key_compressed account) in
    Ok {| imported_key := account; imported_fingerprint := range payload 5 9 |}.

Definition import_xprv (xprv_text : list Z) : result ExtendedPrivKey Bip32Error :=
  let? imported := import_xprv_with_metadata xprv_text in Ok (imported_key imported).
End keys.
