(* ===== verification/KeysProofs.v ===== *)
(** * Account keys as text: the codecs are canonical

    Base58, Base58Check, the [kpub1:] text and the extended private key text
    accept exactly what their encoders write. The numbers behind Base58 are
    compared with the value of a digit list in any base. *)

From S2P Require Import Prelude Bytes Script TxModel Hd HdProofs Keys.
Import Hex Bip32 Base58.

(** ** Digit lists *)

Section horner.
Context (B : Z) (base_large : 1 < B).

Definition horner (l : list Z) : Z := foldl (fun acc d => acc * B + d) 0 l.
Definition digits_in (l : list Z) : Prop := Forall (fun d => 0 <= d < B) l.

Lemma horner_snoc l d : horner (l ++ [d]) = horner l * B + d.
Proof. unfold horner. by rewrite foldl_app. Qed.

Lemma base_pow_pos n : 0 <= n -> 0 < B ^ n.
Proof. intros. apply Z.pow_pos_nonneg; lia. Qed.

Lemma horner_acc l acc : foldl (fun acc d => acc * B + d) acc l = acc * B ^ blen l + horner l.
Proof.
  induction l as [|d l IH] using rev_ind; [rewrite blen_nil, Z.pow_0_r; cbn; lia|]. rewrite horner_snoc, foldl_app, blen_app. cbn [foldl]. rewrite IH.
  change (blen [d]) with 1. rewrite Z.pow_add_r by (pose proof (blen_nonneg l); lia). lia.
Qed.

Lemma horner_cons d l : horner (d :: l) = d * B ^ blen l + horner l.
Proof. unfold horner at 1. cbn [foldl]. rewrite horner_acc. lia. Qed.

Lemma horner_bounds l : digits_in l -> 0 <= horner l < B ^ blen l.
Proof.
  induction 1 as [|d l Hd Hl IH]; [split; [done|apply Z.lt_0_1]|]. rewrite horner_cons, blen_cons.
  pose proof (blen_nonneg l). rewrite Z.pow_add_r by lia. pose proof (base_pow_pos (blen l) ltac:(lia)). nia.
Qed.

Lemma digits_in_snoc l d : digits_in (l ++ [d]) <-> digits_in l /\ 0 <= d < B.
Proof. unfold digits_in. rewrite Forall_app, Forall_singleton. done. Qed.
End horner.

(** No leading zero. *)
Definition minimal (l : list Z) : Prop := hd 1 l <> 0.

Lemma minimal_app l1 l2 : minimal (l1 ++ l2) <-> match l1 with [] => minimal l2 | _ => minimal l1 end.
Proof. by destruct l1. Qed.

Section minimal.
Context (B : Z) (base_large : 1 < B).

Lemma minimal_large l : digits_in B l -> minimal l -> l <> [] -> B ^ (blen l - 1) <= horner B l.
Proof.
  intros Hl Hm Hne. destruct l as [|d l]; [done|]. unfold minimal in Hm. cbn [hd] in Hm.
  rewrite horner_cons, blen_cons by done. replace (1 + blen l - 1) with (blen l) by lia.
  apply Forall_cons in Hl as [Hd Hl]. pose proof (horner_bounds B base_large l Hl).
  pose proof (base_pow_pos B base_large (blen l) (blen_nonneg l)). nia.
Qed.

Lemma large_minimal l : digits_in B l -> B ^ (blen l - 1) <= horner B l -> minimal l.
Proof.
  intros Hl Hlarge. destruct l as [|d l]; [done|]. unfold minimal. cbn [hd]. intros ->.
  rewrite horner_cons, blen_cons in Hlarge by done. replace (1 + blen l - 1) with (blen l) in Hlarge by lia.
  apply Forall_cons in Hl as [Hd Hl]. pose proof (horner_bounds B base_large l Hl). lia.
Qed.

Lemma minimal_zero l : digits_in B l -> minimal l -> horner B l = 0 -> l = [].
Proof.
  intros Hl Hm Hz. destruct l as [|d l]; [done|]. pose proof (minimal_large _ Hl Hm ltac:(done)) as Hge.
  rewrite blen_cons in Hge. pose proof (base_pow_pos B base_large (1 + blen l - 1) ltac:(pose proof (blen_nonneg l); lia)). lia.
Qed.

(** A number has one digit list without leading zeros. *)
Lemma horner_inj l1 l2 :
  digits_in B l1 -> digits_in B l2 -> minimal l1 -> minimal l2 -> horner B l1 = horner B l2 -> l1 = l2.
Proof.
  revert l2. induction l1 as [|d1 l1 IH] using rev_ind; intros l2 H1 H2 Hm1 Hm2 Heq.
  - symmetry. apply minimal_zero; done.
  - destruct l2 as [|d2 l2 _] using rev_ind; [by apply minimal_zero in Heq|].
    apply digits_in_snoc in H1 as [H1 Hd1], H2 as [H2 Hd2]. rewrite !horner_snoc in Heq.
    assert (Hd : d1 = d2).
    { assert (Hmod : (horner B l1 * B + d1) mod B = (horner B l2 * B + d2) mod B) by by rewrite Heq.
      rewrite !(Z.add_comm (_ * B)), !Z_mod_plus_full, !Z.mod_small in Hmod by lia. done. }
    subst d2. f_equal. apply IH; [done|done| | |nia].
    + rewrite minimal_app in Hm1. by destruct l1.
    + rewrite minimal_app in Hm2. by destruct l2.
Qed.
End minimal.

Lemma be_val_horner l : be_val l = horner 256 l.
Proof. induction l as [|b l IH]; [done|]. by rewrite be_val_cons, horner_cons, IH. Qed.

(** ** The alphabet *)

(** The character of a digit. *)
Definition char (d : Z) : Z := default 0 (get_at BASE58_ALPHABET d).

Lemma char_value_char d : 0 <= d < 58 -> base58_char_value (char d) = Some d.
Proof.
  intros Hd. assert (Hall : forallb (fun d => bool_decide (base58_char_value (char d) = Some d)) (seqZ 0 58) = true) by (vm_compute; done).
  rewrite forallb_forall in Hall. specialize (Hall d). rewrite <- list_elem_of_In, elem_of_seqZ, bool_decide_eq_true in Hall.
  apply Hall. lia.
Qed.

Lemma char_value_Some b d : base58_char_value b = Some d -> 0 <= d < 58 /\ b = char d.
Proof.
  unfold base58_char_value. destruct (list_find _ _) as [[i x]|] eqn:Hf; cbn [fmap option_fmap option_map fst]; [|done].
  intros [= <-]. apply list_find_Some in Hf as (Hi & <- & _). pose proof (lookup_lt_Some _ _ _ Hi) as Hlt.
  change (length BASE58_ALPHABET) with 58%nat in Hlt. split; [lia|]. unfold char, get_at.
  rewrite (proj2 (Z.leb_le _ _)) by lia. rewrite Nat2Z.id, Hi. done.
Qed.

Lemma char_one d : 0 <= d < 58 -> char d = 49 <-> d = 0.
Proof.
  intros Hd. split; [|by intros ->]. intros Hc. pose proof (char_value_char d Hd) as Hv. rewrite Hc in Hv. by injection Hv.
Qed.

(** ** Leading bytes *)

Lemma leading_split b l : l = replicate (leading b l) b ++ drop (leading b l) l.
Proof.
  induction l as [|x l IH]; [done|]. cbn [leading]. destruct (Z.eqb_spec x b) as [->|]; [|done].
  cbn [replicate drop app]. by rewrite <- IH.
Qed.

Lemma leading_rest b l : hd (b + 1) (drop (leading b l) l) <> b.
Proof.
  induction l as [|x l IH]; cbn [leading]; [cbn; lia|]. destruct (Z.eqb_spec x b); [done|]. cbn. done.
Qed.

Lemma leading_replicate b n l : hd (b + 1) l <> b -> leading b (replicate n b ++ l) = n.
Proof.
  intros Hhd. induction n as [|n IH]; cbn [replicate app leading].
  - destruct l as [|x l]; [done|]. cbn in *. by destruct (Z.eqb_spec x b).
  - by rewrite Z.eqb_refl, IH.
Qed.

Lemma minimal_rest l : minimal (drop (leading 0 l) l).
Proof. pose proof (leading_rest 0 l). unfold minimal. by destruct (drop _ l). Qed.

Lemma be_val_zeros n l : be_val (replicate n 0 ++ l) = be_val l.
Proof. induction n as [|n IH]; [done|]. cbn [replicate app]. rewrite be_val_cons, IH. lia. Qed.

Lemma be_val_rest l : be_val (drop (leading 0 l) l) = be_val l.
Proof. by rewrite (leading_split 0 l) at 3; rewrite be_val_zeros. Qed.

Lemma bytes_ok_rest l : bytes_ok l -> bytes_ok (drop (leading 0 l) l).
Proof. by apply Forall_drop. Qed.

(** ** Base58 digits *)

Lemma divide_pass_spec number r : bytes_ok number -> 0 <= r < 58 ->
  let '(quotients, last) := divide_pass r number in
  r * 256 ^ blen number + be_val number = 58 * be_val quotients + last /\ 0 <= last < 58 /\ bytes_ok quotients /\
  length quotients = length number.
Proof.
  intros Hn. revert r. induction Hn as [|b number Hb Hn IH]; intros r Hr; cbn [divide_pass].
  - split_and!; try done; try lia. rewrite blen_nil, Z.pow_0_r. change (be_val []) with 0. lia.
  - set (value := r * 256 + b). unfold byte_ok in Hb.
    pose proof (Z_div_mod_eq_full value 58) as Hdiv. pose proof (Z.mod_pos_bound value 58 ltac:(lia)) as Hmod.
    specialize (IH (value mod 58) Hmod). destruct (divide_pass _ number) as [quotients last].
    destruct IH as (Hval & Hlast & Hq & Hlen).
    assert (Hquot : 0 <= value / 58 < 256) by (unfold value in *; lia). rewrite (Z.mod_small (value / 58)) by done.
    rewrite !be_val_cons, blen_cons. assert (Hl : blen quotients = blen number) by (unfold blen; lia). rewrite Hl.
    pose proof (blen_nonneg number). rewrite Z.pow_add_r by lia. pose proof (pow256_pos (blen number) ltac:(lia)).
    split_and!; [unfold value in *; nia|lia|lia| |cbn; lia].
    by apply Forall_cons.
Qed.

Lemma bytes_digits l : bytes_ok l <-> digits_in 256 l.
Proof. done. Qed.

(** The digit list has the value of the bytes, the least significant digit
    first, and no leading zero; the slots suffice for values below [58 ^ slots]. *)
Lemma base58_digits_spec slots number : bytes_ok number -> be_val number < 58 ^ Z.of_nat slots ->
  exists ds, base58_digits slots number = Some (map char ds) /\ digits_in 58 (rev ds) /\ minimal (rev ds) /\
    horner 58 (rev ds) = be_val number.
Proof.
  revert number. induction slots as [|slots IH]; intros number Hn Hlt; cbn [base58_digits].
  all: pose proof (bytes_ok_rest number Hn) as Hr; pose proof (minimal_rest number) as Hm;
    rewrite <- (be_val_rest number) in *; set (rest := drop (leading 0 number) number) in *; clearbody rest.
  all: case_bool_decide as Hne; [rewrite Hne; exists []; split_and!; done || apply Forall_nil_2|].
  - pose proof (minimal_large 256 ltac:(lia) rest Hr Hm Hne) as Hlarge. rewrite <- be_val_horner in Hlarge.
    pose proof (pow256_pos (blen rest - 1)) as Hp. destruct rest; [done|]. rewrite blen_cons in *.
    pose proof (blen_nonneg rest). change (58 ^ Z.of_nat 0) with 1 in Hlt. lia.
  - pose proof (divide_pass_spec rest 0 Hr ltac:(lia)) as Hpass. destruct (divide_pass 0 rest) as [q r].
    destruct Hpass as (Hval & Hrr & Hq & Hlen). rewrite Nat2Z.inj_succ, Z.pow_succ_r in Hlt by lia.
    destruct (IH q Hq ltac:(lia)) as (ds & -> & Hds & Hdm & Hdv). exists (r :: ds). cbn [mbind option_bind map rev].
    split; [done|]. rewrite digits_in_snoc, minimal_app, horner_snoc, Hdv. split; [by split|]. split; [|lia].
    destruct (rev ds) as [|d ds']; [|done]. unfold minimal. cbn [hd]. change (horner 58 []) with 0 in Hdv.
    pose proof (minimal_large 256 ltac:(lia) rest Hr Hm Hne) as Hlarge. rewrite <- be_val_horner in Hlarge.
    destruct rest; [done|]. rewrite blen_cons in *. pose proof (blen_nonneg rest).
    pose proof (pow256_pos (1 + blen rest - 1) ltac:(lia)). lia.
Qed.

(** ** Multiply and add *)

Lemma low_byte z : 0 <= z -> Z.land z 0xff = z mod 256 /\ Z.shiftr z 8 = z / 256.
Proof.
  intros. change 0xff with (Z.ones 8). rewrite Z.land_ones, Z.shiftr_div_pow2 by lia. done.
Qed.

Lemma mul_carry_spec number digit : bytes_ok number -> 0 <= digit < 58 ->
  let '(product, carry) := mul_carry number digit in
  carry * 256 ^ blen number + be_val product = 58 * be_val number + digit /\ 0 <= carry < 58 /\ bytes_ok product /\
  length product = length number.
Proof.
  intros Hn Hd. induction Hn as [|b number Hb Hn IH]; cbn [mul_carry].
  - rewrite blen_nil, Z.pow_0_r. change (be_val []) with 0. split_and!; done || lia.
  - destruct (mul_carry number digit) as [product carry]. destruct IH as (Hval & Hc & Hp & Hlen).
    unfold byte_ok in Hb. destruct (low_byte (carry + b * 58) ltac:(lia)) as [-> ->].
    pose proof (Z_div_mod_eq_full (carry + b * 58) 256). pose proof (Z.mod_pos_bound (carry + b * 58) 256 ltac:(lia)).
    rewrite !be_val_cons, blen_cons. assert (Hl : blen product = blen number) by (unfold blen; lia). rewrite Hl.
    pose proof (blen_nonneg number). rewrite Z.pow_add_r by lia. pose proof (pow256_pos (blen number) ltac:(lia)).
    split_and!; [nia|lia|lia|by apply Forall_cons|cbn; lia].
Qed.

(** The number under construction: its bytes, without leading zeros, within the
    array. *)
Definition number_ok (number : list Z) : Prop := bytes_ok number /\ minimal number /\ blen number <= MAX_BASE58_BYTES.

Lemma number_small number : number_ok number -> 0 <= be_val number < 256 ^ MAX_BASE58_BYTES.
Proof.
  intros (Hb & _ & Hl). pose proof (be_val_range number Hb).
  pose proof (Z.pow_le_mono_r 256 (blen number) MAX_BASE58_BYTES ltac:(lia) Hl). lia.
Qed.

Lemma mul_add_base58_spec number digit : number_ok number -> 0 <= digit < 58 ->
  match mul_add_base58 number digit with
  | Ok number' => number_ok number' /\ be_val number' = be_val number * 58 + digit
  | Err e => e = Overflow /\ 256 ^ MAX_BASE58_BYTES <= be_val number * 58 + digit
  end.
Proof.
  intros (Hb & Hm & Hl) Hd. unfold mul_add_base58. pose proof (mul_carry_spec number digit Hb Hd) as Hmul.
  destruct (mul_carry number digit) as [product carry]. destruct Hmul as (Hval & Hc & Hp & Hlen).
  assert (Hpl : blen product = blen number) by (unfold blen; lia). cbn [push_carry].
  destruct (Z.eqb_spec carry 0) as [->|Hnz].
  - split; [|lia]. split; [done|]. split; [|lia]. apply (large_minimal 256); [lia|done|]. rewrite <- be_val_horner, Hpl.
    destruct number as [|b number]; [by destruct product; [apply Z.le_refl|]|].
    pose proof (minimal_large 256 ltac:(lia) _ Hb Hm ltac:(done)) as Hlarge. rewrite <- be_val_horner in Hlarge.
    pose proof (be_val_range _ Hb). lia.
  - destruct (Z.eqb_spec (blen product) MAX_BASE58_BYTES) as [Hfull|Hroom].
    + split; [done|]. rewrite Hpl in Hfull. rewrite Hfull in Hval. pose proof (be_val_range _ Hp).
      pose proof (pow256_pos MAX_BASE58_BYTES ltac:(by_decide)). nia.
    + destruct (low_byte carry ltac:(lia)) as [-> ->]. rewrite Z.mod_small, Z.div_small by lia. cbn [Z.eqb].
      rewrite be_val_cons, Hpl. split; [|lia]. split; [apply Forall_cons; split; [unfold byte_ok; lia|done]|].
      split; [done|]. rewrite blen_cons. lia.
Qed.

(** Reading digits multiplies and adds; the only failure on digits is a number
    that the array cannot hold. *)
Lemma decode_digits ds number : number_ok number -> digits_in 58 ds ->
  match try_fold decode_step number (map char ds) with
  | Ok number' => number_ok number' /\ be_val number' = foldl (fun acc d => acc * 58 + d) (be_val number) ds
  | Err e => e = Overflow /\ 256 ^ MAX_BASE58_BYTES <= foldl (fun acc d => acc * 58 + d) (be_val number) ds
  end.
Proof.
  intros Hn Hds. revert number Hn. induction Hds as [|d ds Hd Hds IH]; intros number Hn; cbn [map try_fold foldl]; [done|].
  unfold decode_step at 1. rewrite char_value_char by done. cbn [ok_or rbind].
  pose proof (mul_add_base58_spec number d Hn Hd) as Hstep.
  destruct (mul_add_base58 number d) as [number'|e]; cbn [rbind].
  - destruct Hstep as [Hn' <-]. by apply IH.
  - destruct Hstep as [-> Hbig]. split; [done|]. rewrite horner_acc by lia.
    pose proof (horner_bounds 58 ltac:(lia) ds Hds). pose proof (base_pow_pos 58 ltac:(lia) (blen ds) (blen_nonneg ds)).
    pose proof (pow256_pos MAX_BASE58_BYTES ltac:(by_decide)). nia.
Qed.

(** Text that decodes consists of digits. *)
Lemma decode_chars text number number' :
  try_fold decode_step number text = Ok number' -> exists ds, digits_in 58 ds /\ text = map char ds.
Proof.
  revert number. induction text as [|b text IH]; intros number; cbn [try_fold]; [exists []; split; [apply Forall_nil_2|done]|].
  intros (n & (d & Hd%ok_or_Ok & _)%rbind_Ok_inv & Hrest)%rbind_Ok_inv.
  apply char_value_Some in Hd as [Hd ->]. apply IH in Hrest as (ds & Hds & ->). exists (d :: ds). split; [by apply Forall_cons|done].
Qed.

(** ** The codec *)

(** The text of some bytes: a one for every leading zero byte, then the digits
    of the number. *)
Definition text_of (zeros : nat) (ds : list Z) : list Z := replicate zeros 49 ++ map char ds.

Lemma text_of_digits n ds : text_of n ds = map char (replicate n 0 ++ ds).
Proof. unfold text_of. rewrite map_app. f_equal. induction n as [|n IH]; [done|]. cbn. by rewrite IH. Qed.

Lemma text_of_leading n ds : digits_in 58 ds -> minimal ds -> leading 49 (text_of n ds) = n.
Proof.
  intros Hds Hm. apply leading_replicate. destruct ds as [|d ds]; [done|]. cbn [map hd].
  apply Forall_cons in Hds as [Hd _]. by rewrite char_one.
Qed.

Lemma horner_replicate B n ds : horner B (replicate n 0 ++ ds) = horner B ds.
Proof. induction n as [|n IH]; [done|]. unfold horner in *. cbn [replicate app foldl]. exact IH. Qed.

Lemma digits_split ds : digits_in 58 ds -> exists n rest, ds = replicate n 0 ++ rest /\ digits_in 58 rest /\ minimal rest.
Proof.
  intros Hds. exists (leading 0 ds), (drop (leading 0 ds) ds). split; [apply leading_split|].
  split; [by apply Forall_drop|apply minimal_rest].
Qed.

Lemma base58_encode_text data : bytes_ok data -> blen data <= MAX_BASE58_BYTES ->
  exists ds, digits_in 58 ds /\ minimal ds /\ horner 58 ds = be_val data /\
    forall out, base58_encode data out =
      match copy_into out 0 (text_of (leading 0 data) ds) with
      | None => (Err (Fails BufferTooSmall), out)
      | Some out => (Ok (blen (text_of (leading 0 data) ds)), out)
      end.
Proof.
  intros Hb Hl. pose proof (bytes_ok_rest data Hb) as Hr. pose proof (be_val_range data Hb) as Hrange.
  destruct (base58_digits_spec (Z.to_nat MAX_BASE58_CHARS) (drop (leading 0 data) data) Hr) as (ds & Hrun & Hds & Hm & Hv).
  { rewrite be_val_rest. pose proof (Z.pow_le_mono_r 256 (blen data) MAX_BASE58_BYTES ltac:(lia) Hl).
    assert (256 ^ MAX_BASE58_BYTES < 58 ^ Z.of_nat (Z.to_nat MAX_BASE58_CHARS)) by by_decide. lia. }
  exists (rev ds). rewrite be_val_rest in Hv. split_and!; try done. intros out. unfold base58_encode.
  rewrite (proj2 (Z.ltb_ge _ _)) by done. rewrite Hrun. unfold text_of. rewrite map_rev.
  destruct (copy_into _ _ _); [|done]. do 2 f_equal. rewrite blen_app. unfold blen. rewrite length_replicate, length_rev. done.
Qed.

(** The bytes whose text is [text_of n ds]. *)
Lemma base58_decode_text n ds out : digits_in 58 ds -> minimal ds -> text_of n ds <> [] ->
  exists number, bytes_ok number /\ minimal number /\
    match base58_decode (text_of n ds) out with
    | (Ok total, out') =>
        be_val number = horner 58 ds /\ total = Z.of_nat n + blen number /\
        out' = replicate n 0 ++ number ++ drop (n + length number) out /\ total <= blen out
    | (Err e, out') =>
        e = Overflow /\ out' = out /\
        (256 ^ MAX_BASE58_BYTES <= horner 58 ds \/ be_val number = horner 58 ds /\ blen out < Z.of_nat n + blen number)
    end.
Proof.
  intros Hds Hm Hne. unfold base58_decode. rewrite bool_decide_false, text_of_leading, text_of_digits by done.
  assert (Hall : digits_in 58 (replicate n 0 ++ ds)).
  { apply Forall_app. split; [|done]. apply Forall_replicate. lia. }
  pose proof (decode_digits (replicate n 0 ++ ds) [] ltac:(by_decide) Hall) as Hrun.
  change (be_val []) with 0 in Hrun. change (foldl _ 0 ?l) with (horner 58 l) in Hrun. rewrite horner_replicate in Hrun.
  destruct (try_fold decode_step [] _) as [number|e].
  - destruct Hrun as ((Hb & Hmin & _) & Hv). exists number. split; [done|]. split; [done|].
    rewrite copy_into_front, blen_app, length_app, length_replicate.
    replace (blen (replicate n 0)) with (Z.of_nat n) by (unfold blen; by rewrite length_replicate).
    destruct (Z.leb_spec (Z.of_nat n + blen number) (blen out)) as [Hfit|]; [|by split_and!; try right].
    split_and!; try done. by rewrite <- app_assoc.
  - destruct Hrun as [-> Hbig]. exists []. split_and!; try done. by left.
Qed.

(** Bytes are written as one text only: the number and its digits determine
    each other. *)
Lemma text_of_nonempty n ds : text_of n ds <> [] <-> (0 < n)%nat \/ ds <> [].
Proof. unfold text_of. destruct n, ds; cbn; (split; [intros; try done|intros [|]; try done; lia]); (left; lia) || by right. Qed.

(** Decoded text is the encoder's text of the decoded bytes. *)
Lemma base58_decode_sound (text data : list Z) : bytes_ok data ->
  base58_decode text (zeros MAX_BASE58_BYTES) = (Ok (blen data), data ++ zeros (MAX_BASE58_BYTES - blen data)) ->
  data <> [] /\ blen data <= MAX_BASE58_BYTES /\ base58_encode data (zeros (blen text)) = (Ok (blen text), text).
Proof.
  intros Hdata.
  intros Hdec. assert (Hsplit : exists n ds, digits_in 58 ds /\ minimal ds /\ text = text_of n ds /\ text <> []).
  { unfold base58_decode in Hdec. case_bool_decide as Hne; [done|].
    destruct (try_fold decode_step [] text) as [number|] eqn:Hrun; [|done].
    apply decode_chars in Hrun as (all & (n & ds & -> & Hds & Hm)%digits_split & ->).
    exists n, ds. by rewrite text_of_digits. }
  destruct Hsplit as (n & ds & Hds & Hm & -> & Hne).
  pose proof (base58_decode_text n ds (zeros MAX_BASE58_BYTES) Hds Hm Hne) as (number & Hb & Hmin & Hspec).
  rewrite Hdec in Hspec. destruct Hspec as (Hv & Htotal & Hout & Hfit). rewrite blen_zeros in Hfit by by_decide.
  assert (Heq : data = replicate n 0 ++ number).
  { rewrite app_assoc in Hout. apply app_inj_1 in Hout as [-> _]; [done|].
    rewrite length_app, length_replicate. unfold blen in *. lia. }
  subst data. assert (Hlead : leading 0 (replicate n 0 ++ number) = n).
  { apply leading_replicate. unfold minimal in Hmin. by destruct number. }
  destruct (base58_encode_text _ Hdata ltac:(lia)) as (ds' & Hds' & Hm' & Hv' & Henc).
  rewrite be_val_zeros, Hv in Hv'. apply (horner_inj 58) in Hv' as ->; [|lia|done..].
  split; [|split; [lia|]].
  + intros Hnil. apply app_nil in Hnil as [Hr ->]. destruct n; [|done].
    symmetry in Hv. change (be_val []) with 0 in Hv. by apply (minimal_zero 58) in Hv as ->; [|lia|..].
  + rewrite Henc, Hlead, copy_into_zeros_all. done.
Qed.

(** The encoder's text decodes to the bytes. *)
Lemma base58_decode_complete (text data : list Z) : bytes_ok data ->
  data <> [] /\ blen data <= MAX_BASE58_BYTES /\ base58_encode data (zeros (blen text)) = (Ok (blen text), text) ->
  base58_decode text (zeros MAX_BASE58_BYTES) = (Ok (blen data), data ++ zeros (MAX_BASE58_BYTES - blen data)).
Proof.
  intros Hdata.
  intros (Hne & Hlen & Henc).
  destruct (base58_encode_text _ Hdata Hlen) as (ds & Hds & Hm & Hv & Henc'). rewrite Henc' in Henc.
  set (n := leading 0 data) in *. rewrite copy_into_front in Henc.
  destruct (blen (text_of n ds) <=? blen (zeros (blen text))); [|done]. injection Henc as Hl Htext.
  rewrite drop_zeros in Htext. replace (blen text - Z.of_nat (length (text_of n ds))) with 0 in Htext by (unfold blen in *; lia).
  change (zeros 0) with (@nil Z) in Htext. rewrite app_nil_r in Htext. subst text.
  pose proof (leading_split 0 data) as Hsplit. fold n in Hsplit. set (rest := drop n data) in *.
  assert (Hrest : bytes_ok rest /\ minimal rest /\ be_val rest = be_val data).
  { split; [by apply Forall_drop|]. split; [apply minimal_rest|apply be_val_rest]. }
  destruct Hrest as (Hrb & Hrm & Hrv).
  assert (Htne : text_of n ds <> []).
  { apply text_of_nonempty. destruct n; [right|left; lia]. intros ->. change (horner 58 []) with 0 in Hv.
    cbn [replicate app] in Hsplit. rewrite Hsplit in Hne, Hv. symmetry in Hv. rewrite be_val_horner in Hv.
    by apply (minimal_zero 256) in Hv; [|lia|..]. }
  pose proof (base58_decode_text n ds (zeros MAX_BASE58_BYTES) Hds Hm Htne) as (number & Hb & Hmin & Hspec).
  assert (Hcase : be_val number = horner 58 ds -> number = rest).
  { intros Hn. apply (horner_inj 256); try done. rewrite <- !be_val_horner. congruence. }
  assert (Hsize : Z.of_nat n + blen rest = blen data).
  { transitivity (blen (replicate n 0 ++ rest)); [|by rewrite <- Hsplit].
    rewrite blen_app. unfold blen. by rewrite length_replicate. }
  rewrite blen_zeros in Hspec by by_decide.
  destruct (base58_decode (text_of n ds) (zeros MAX_BASE58_BYTES)) as [[total|e] out'].
  + destruct Hspec as (->%Hcase & -> & -> & _). rewrite Hsize. f_equal.
    rewrite app_assoc, <- Hsplit, drop_zeros. do 2 f_equal. unfold blen in *. lia.
  + destruct Hspec as (_ & _ & [Hbig|[->%Hcase Hbig]]); [|lia].
    pose proof (be_val_range data Hdata). pose proof (Z.pow_le_mono_r 256 (blen data) MAX_BASE58_BYTES ltac:(lia) Hlen). lia.
Qed.

(** Base58 is canonical: a text decodes to some bytes, which fit the array,
    exactly when they are not empty and the encoder writes that text for them. *)
Lemma base58_canonical (text data : list Z) : bytes_ok data ->
  base58_decode text (zeros MAX_BASE58_BYTES) = (Ok (blen data), data ++ zeros (MAX_BASE58_BYTES - blen data)) <->
  data <> [] /\ blen data <= MAX_BASE58_BYTES /\ base58_encode data (zeros (blen text)) = (Ok (blen text), text).
Proof. split; [by apply base58_decode_sound|by apply base58_decode_complete]. Qed.

(** What a decoder leaves in a zeroed array. *)
Lemma base58_decode_shape text total raw : base58_decode text (zeros MAX_BASE58_BYTES) = (Ok total, raw) ->
  exists data, bytes_ok data /\ total = blen data /\ raw = data ++ zeros (MAX_BASE58_BYTES - blen data).
Proof.
  intros Hdec. pose proof Hdec as Hdec'. unfold base58_decode in Hdec'. case_bool_decide as Hne; [done|].
  destruct (try_fold decode_step [] text) as [number|] eqn:Hrun; [|done]. clear Hdec'.
  apply decode_chars in Hrun as (all & (n & ds & -> & Hds & Hm)%digits_split & ->). rewrite <- text_of_digits in *.
  pose proof (base58_decode_text n ds (zeros MAX_BASE58_BYTES) Hds Hm Hne) as (bytes & Hb & Hmin & Hspec).
  rewrite Hdec in Hspec. destruct Hspec as (_ & -> & -> & _). exists (replicate n 0 ++ bytes).
  split; [apply Forall_app; split; [by apply Forall_replicate|done]|]. rewrite blen_app.
  replace (blen (replicate n 0)) with (Z.of_nat n) by (unfold blen; by rewrite length_replicate).
  split; [done|]. rewrite drop_zeros, <- app_assoc. do 3 f_equal. unfold blen. lia.
Qed.

(** ** Base58Check *)

Section check.
Context (sha256 : list Z -> list Z) (sha256_size : forall l, bytes_of 32 (sha256 l)).

Definition with_checksum (data : list Z) : list Z := data ++ take 4 (sha256d sha256 data).

Lemma checksum_bytes data : bytes_of 4 (take 4 (sha256d sha256 data)).
Proof.
  destruct (sha256_size (sha256 data)) as [Hb Hl]. split; [by apply Forall_take|]. unfold blen, sha256d in *.
  rewrite length_take. lia.
Qed.

Lemma with_checksum_ok data : bytes_ok data -> bytes_ok (with_checksum data) /\ blen (with_checksum data) = blen data + 4.
Proof.
  intros Hd. destruct (checksum_bytes data) as [Hb Hl]. unfold with_checksum. split; [by apply Forall_app|].
  rewrite blen_app. lia.
Qed.

Lemma base58check_decode_shape text length payload :
  base58check_decode sha256 text (zeros MAX_BASE58_BYTES) = (Ok length, payload) ->
  exists data, bytes_ok data /\ length = blen data /\ payload = data ++ zeros (MAX_BASE58_BYTES - blen data) /\
    data <> [] /\ base58_decode text (zeros MAX_BASE58_BYTES) =
      (Ok (blen (with_checksum data)), with_checksum data ++ zeros (MAX_BASE58_BYTES - blen (with_checksum data))).
Proof.
  unfold base58check_decode. destruct (base58_decode text (zeros MAX_BASE58_BYTES)) as [[raw_len|e] raw] eqn:Hdec; [|done].
  pose proof (base58_decode_shape _ _ _ Hdec) as (all & Hall & -> & ->).
  apply base58_decode_sound in Hdec as (_ & Hfit & _); [|done].
  destruct (Z.ltb_spec (blen all) 4) as [|Hlen]; [done|]. cbv zeta. set (k := Z.to_nat (blen all - 4)).
  rewrite take_app_le, drop_app_le by (unfold k, blen in *; lia). rewrite (take_app_le (drop k all)) by (rewrite length_drop; unfold k, blen in *; lia).
  destruct (Z.eqb_spec (blen all - 4) 0) as [|Hnz]; [done|]. cbn [orb].
  destruct (list_Z_eqb _ _) eqn:Hsum; [|done]. apply list_Z_eqb_eq in Hsum. cbn [negb].
  rewrite (take_ge (drop k all)) in Hsum by (rewrite length_drop; unfold k, blen in *; lia).
  assert (Hk : blen (take k all) = blen all - 4) by (unfold k, blen in *; rewrite length_take; lia).
  intros [= <- <-]. exists (take k all).
  assert (Heq : with_checksum (take k all) = all) by (unfold with_checksum; by rewrite <- Hsum, take_drop).
  rewrite Heq, Hk. split; [by apply Forall_take|]. split; [done|]. split.
  - rewrite copy_into_front, blen_zeros, drop_zeros by by_decide. rewrite (proj2 (Z.leb_le _ _)) by lia. cbn [default from_option].
    unfold id. do 2 f_equal. unfold blen in *. lia.
  - split; [|done]. intros Hnil. rewrite Hnil in Hk. change (blen []) with 0 in Hk. lia.
Qed.

(** Base58Check is canonical in the same way. *)
Lemma base58check_canonical (text data : list Z) : bytes_ok data ->
  base58check_decode sha256 text (zeros MAX_BASE58_BYTES) = (Ok (blen data), data ++ zeros (MAX_BASE58_BYTES - blen data)) <->
  data <> [] /\ base58check_encode sha256 data (zeros (blen text)) = (Ok (blen text), text).
Proof.
  intros Hdata. destruct (with_checksum_ok data Hdata) as [Hcb Hcl]. unfold base58check_encode.
  change (data ++ take 4 (sha256d sha256 data)) with (with_checksum data). split.
  - intros Hdec. apply base58check_decode_shape in Hdec as (data' & Hb' & Hl & Heq & Hne & Hdec).
    apply app_inj_1 in Heq as [<- _]; [|unfold blen in *; lia].
    apply base58_decode_sound in Hdec as (_ & Hfit & Henc); [|done]. rewrite (proj2 (Z.ltb_ge _ _)) by lia. done.
  - intros [Hne Henc]. destruct (Z.ltb_spec MAX_BASE58_BYTES (blen data + 4)) as [|Hfit]; [done|].
    assert (Hdec : base58_decode text (zeros MAX_BASE58_BYTES) =
      (Ok (blen (with_checksum data)), with_checksum data ++ zeros (MAX_BASE58_BYTES - blen (with_checksum data)))).
    { apply base58_decode_complete; [done|]. split; [by destruct data|]. split; [lia|done]. }
    unfold base58check_decode. rewrite Hdec, Hcl. pose proof (blen_nonneg data). rewrite (proj2 (Z.ltb_ge _ _)) by lia.
    replace (Z.to_nat (blen data + 4 - 4)) with (length data) by (unfold blen; lia).
    replace (blen data + 4 - 4) with (blen data) by lia. unfold with_checksum. rewrite <- app_assoc, take_app_length, drop_app_length.
    rewrite take_app_length' by (destruct (checksum_bytes data); unfold blen in *; lia).
    rewrite (proj2 (list_Z_eqb_eq _ _) eq_refl), orb_false_r.
    destruct (Z.eqb_spec (blen data) 0) as [Hz|_]; [destruct data; [done|rewrite blen_cons in Hz; pose proof (blen_nonneg data); lia]|].
    rewrite copy_into_front, blen_zeros, drop_zeros by by_decide. rewrite (proj2 (Z.leb_le _ _)) by lia. done.
Qed.
End check.

(** ** Fields of a payload *)

Lemma range_split (l : list Z) (i j : Z) : 0 <= i <= j -> drop (Z.to_nat i) l = range l i j ++ drop (Z.to_nat j) l.
Proof.
  intros Hij. unfold range. replace (drop (Z.to_nat j) l) with (drop (Z.to_nat (j - i)) (drop (Z.to_nat i) l)).
  - by rewrite take_drop.
  - rewrite drop_drop. f_equal. lia.
Qed.

Lemma byte_split (l : list Z) (i : Z) : 0 <= i < blen l -> drop (Z.to_nat i) l = [default 0 (get_at l i)] ++ drop (Z.to_nat (i + 1)) l.
Proof.
  intros Hi. unfold get_at. rewrite (proj2 (Z.leb_le _ _)) by lia.
  destruct (lookup_lt_is_Some_2 l (Z.to_nat i)) as [x Hx]; [unfold blen in *; lia|]. rewrite Hx.
  rewrite (drop_S _ x) by done. do 2 f_equal. lia.
Qed.

Lemma range_app_l (l1 l2 : list Z) (i j : Z) : 0 <= i -> j <= blen l1 -> range (l1 ++ l2) i j = range l1 i j.
Proof.
  intros Hi Hj. unfold range. destruct (Z.leb_spec i j).
  - rewrite drop_app_le by (unfold blen in *; lia). apply take_app_le. rewrite length_drop. unfold blen in *. lia.
  - by replace (Z.to_nat (j - i)) with 0%nat by lia.
Qed.

Lemma get_at_app_l (l1 l2 : list Z) (i : Z) : i < blen l1 -> get_at (l1 ++ l2) i = get_at l1 i.
Proof.
  intros Hi. unfold get_at. destruct (0 <=? i) eqn:Hle; [|done]. apply Z.leb_le in Hle.
  rewrite lookup_app_l; [done|]. unfold blen in *. lia.
Qed.

Lemma blen_range (l : list Z) (i j : Z) : 0 <= i <= j -> j <= blen l -> blen (range l i j) = j - i.
Proof. intros. unfold range, blen in *. rewrite length_take, length_drop. lia. Qed.

(** Every account key payload is its fields. *)
Lemma payload_split (p : list Z) : blen p = 78 ->
  p = range p 0 4 ++ [default 0 (get_at p 4)] ++ range p 5 9 ++ range p 9 13 ++ range p 13 45 ++
      [default 0 (get_at p 45)] ++ range p 46 78.
Proof.
  intros Hlen. assert (Hend : range p 46 78 = drop (Z.to_nat 46) p).
  { rewrite (range_split p 46 78) by lia. rewrite (drop_ge p) by (unfold blen in *; lia). by rewrite app_nil_r. }
  rewrite Hend. transitivity (drop (Z.to_nat 0) p); [done|].
  rewrite (range_split p 0 4) at 1 by lia. f_equal. rewrite (byte_split p 4) at 1 by lia. f_equal. change (4 + 1) with 5.
  rewrite (range_split p 5 9) at 1 by lia. f_equal. rewrite (range_split p 9 13) at 1 by lia. f_equal.
  rewrite (range_split p 13 45) at 1 by lia. f_equal. by rewrite (byte_split p 45) at 1 by lia.
Qed.

(** ** The texts of account keys *)

Definition valid_import (imported : ImportedAccountXprv) : Prop :=
  valid_key (imported_key imported) /\ depth (imported_key imported) = 3 /\ bytes_of 4 (imported_fingerprint imported).

#[export] Instance valid_import_dec i : Decision (valid_import i).
Proof. unfold valid_import. apply _. Defined.

Definition payload_of (imported : ImportedAccountXprv) : list Z :=
  xprv_payload (imported_key imported) (imported_fingerprint imported).

Lemma bytes_of_app n m l1 l2 : bytes_of n l1 -> bytes_of m l2 -> bytes_of (n + m) (l1 ++ l2).
Proof. intros [Hb1 Hl1] [Hb2 Hl2]. split; [by apply Forall_app|]. rewrite blen_app. lia. Qed.

Lemma be_bytes_of n z : bytes_of (Z.of_nat n) (be_bytes n z).
Proof. split; [apply be_bytes_ok|apply blen_be_bytes]. Qed.

Lemma payload_of_bytes imported : valid_import imported -> bytes_of 78 (payload_of imported).
Proof.
  intros ((Hk & _ & Hc & _) & _ & Hf).
  apply (bytes_of_app 4 74 KASPA_XPRV_VERSION); [by_decide|]. apply (bytes_of_app 1 73 [3]); [by_decide|].
  apply (bytes_of_app 4 69 _ _ Hf). apply (bytes_of_app 4 65 _ _ (be_bytes_of 4 0x80000000)).
  apply (bytes_of_app 32 33 _ _ Hc). apply (bytes_of_app 1 32 [0]); [by_decide|done].
Qed.

(** The fields the import reads from the payload of a key are the key's. *)
Lemma payload_of_fields imported : valid_import imported ->
  let p := payload_of imported in
  range p 0 4 = KASPA_XPRV_VERSION /\ default 0 (get_at p 4) = 3 /\ range p 5 9 = imported_fingerprint imported /\
  range p 9 13 = be_bytes 4 0x80000000 /\ range p 13 45 = chain_code (imported_key imported) /\
  default 0 (get_at p 45) = 0 /\ range p 46 78 = key (imported_key imported).
Proof.
  intros Hv. pose proof (payload_of_bytes _ Hv) as [_ Hp]. destruct Hv as ((Hk & _ & Hc & _) & _ & Hf). intros p.
  assert (Hr : forall i j, 0 <= i <= j -> j <= 78 -> length (range p i j) = Z.to_nat (j - i)).
  { intros i j Hij Hj. pose proof (blen_range p i j Hij ltac:(unfold p; lia)). unfold blen in *. lia. }
  pose proof (payload_split p Hp) as Heq. unfold p at 1, payload_of, xprv_payload in Heq.
  assert (Hlens : length (imported_fingerprint imported) = 4%nat /\ length (chain_code (imported_key imported)) = 32%nat).
  { unfold bytes_of, blen in *. lia. }
  destruct Hlens as [Hfl Hcl].
  apply app_inj_1 in Heq as [H1 Heq]; [|by rewrite Hr]. apply app_inj_1 in Heq as [H2 Heq]; [|done].
  apply app_inj_1 in Heq as [H3 Heq]; [|by rewrite Hr]. apply app_inj_1 in Heq as [H4 Heq]; [|by rewrite Hr].
  apply app_inj_1 in Heq as [H5 Heq]; [|by rewrite Hr]. apply app_inj_1 in Heq as [H6 H7]; [|done].
  split_and!; congruence.
Qed.

Section texts.
Context (sha256 : list Z -> list Z) (sha256_size : forall l, bytes_of 32 (sha256 l)) `{CurveLaws}.

Lemma serialize_xprv_text imported out : valid_import imported ->
  serialize_imported_xprv sha256 imported out =
    match base58check_encode sha256 (payload_of imported) out with
    | (Ok length, out) => (Ok length, out)
    | (Err (Fails _), out) => (Err (Fails InvalidKey), out)
    | (Err Panics, out) => (Err Panics, out)
    end.
Proof.
  intros (_ & Hd & _). unfold serialize_imported_xprv, serialize_account_xprv. by rewrite Hd.
Qed.

(** The header checks of the import. *)
Lemma import_xprv_payload text data : bytes_ok data ->
  base58check_decode sha256 text (zeros MAX_BASE58_BYTES) = (Ok (blen data), data ++ zeros (MAX_BASE58_BYTES - blen data)) ->
  forall imported, import_xprv_with_metadata sha256 text = Ok imported <-> valid_import imported /\ data = payload_of imported.
Proof.
  intros Hb Hdec imported. unfold import_xprv_with_metadata. change 128 with MAX_BASE58_BYTES. rewrite Hdec.
  change ACCOUNT_KEY_PAYLOAD_LEN with 78. split.
  - destruct (Z.eqb_spec (blen data) 78) as [Hlen|]; [|done]. cbn [negb orb].
    rewrite !range_app_l, !get_at_app_l by lia. destruct (list_Z_eqb (range data 0 4) _) eqn:Hver; [|done].
    destruct (Z.eqb_spec (default 0 (get_at data 4)) 3) as [Hd|]; [|done].
    destruct (list_Z_eqb (range data 9 13) _) eqn:Hchild; [|done].
    destruct (Z.eqb_spec (default 0 (get_at data 45)) 0) as [Hz|]; [|done]. cbn [negb orb].
    intros (compressed & Hpk & [= <-])%rbind_Ok_inv. apply list_Z_eqb_eq in Hver, Hchild.
    assert (Hfield : forall i j, 0 <= i <= j -> j <= 78 -> bytes_of (j - i) (range data i j)).
    { intros i j Hi Hj. split; [by apply Forall_take, Forall_drop|]. apply blen_range; lia. }
    split; [|unfold payload_of, xprv_payload; cbn [imported_key imported_fingerprint from_parts chain_code key];
             rewrite (payload_split data Hlen) at 1; by rewrite Hver, Hd, Hchild, Hz].
    unfold valid_import, valid_key. cbn [imported_key imported_fingerprint from_parts key chain_code depth].
    assert (Hsk : 0 < be_val (range data 46 78) < order).
    { unfold public_key_compressed, compressed_pubkey_from_raw_key in Hpk. cbn [key from_parts] in Hpk.
      rewrite secret_key_spec in Hpk by (by apply (Hfield 46 78)). destruct (_ && _) eqn:Hr; [lia|done]. }
    split; [|by split; [|apply (Hfield 5 9)]]. split; [by apply (Hfield 46 78)|]. split; [done|].
    split; [by apply (Hfield 13 45)|]. rewrite Hd. by_decide.
  - intros [Hv ->]. pose proof (payload_of_bytes _ Hv) as [_ Hlen]. rewrite !range_app_l, !get_at_app_l by lia.
    destruct (payload_of_fields _ Hv) as (-> & -> & -> & -> & -> & -> & ->). rewrite Hlen.
    destruct Hv as (Hk & Hd & _). destruct imported as [k fp]. cbn [imported_key imported_fingerprint] in *.
    destruct k as [key chain_code depth]. cbn [Hd.Bip32.key Hd.Bip32.chain_code Hd.Bip32.depth] in *. subst depth.
    unfold from_parts. change (public_key_compressed _) with (public_key_compressed {| key := key; chain_code := chain_code; depth := 3 |}).
    rewrite public_key_valid by done. done.
Qed.

Lemma import_serialize text imported :
  import_xprv_with_metadata sha256 text = Ok imported <->
  valid_import imported /\ serialize_imported_xprv sha256 imported (zeros (blen text)) = (Ok (blen text), text).
Proof.
  split.
  - intros Himp.
    assert (Hdec : exists length payload, base58check_decode sha256 text (zeros MAX_BASE58_BYTES) = (Ok length, payload)).
    { unfold import_xprv_with_metadata in Himp. change 128 with MAX_BASE58_BYTES in Himp.
      destruct (base58check_decode _ _ _) as [[length|] payload]; [by eexists _, _|done]. }
    destruct Hdec as (length & payload & Hdec).
    pose proof (base58check_decode_shape _ _ _ _ Hdec) as (data & Hb & -> & -> & _).
    pose proof (proj1 (import_xprv_payload _ _ Hb Hdec _) Himp) as [Hv ->]. split; [done|].
    apply base58check_canonical in Hdec as [_ Henc]; [|done..]. by rewrite serialize_xprv_text, Henc.
  - intros [Hv Hser]. rewrite serialize_xprv_text in Hser by done. pose proof (payload_of_bytes _ Hv) as [Hb Hlen].
    destruct (base58check_encode _ _ _) as [[length|[]] out] eqn:Henc; [|done..]. injection Hser as -> ->.
    apply (import_xprv_payload text (payload_of imported)); [done| |done].
    apply base58check_canonical; [done..|]. split; [|done]. intros Hnil. by rewrite Hnil in Hlen.
Qed.

(** The buffer for the text holds every account key. *)
Lemma serialize_fits imported : valid_import imported -> exists text,
  blen text <= XPRV_MAX_LEN /\ forall out, blen text <= blen out ->
    serialize_imported_xprv sha256 imported out = (Ok (blen text), text ++ drop (length text) out).
Proof.
  intros Hv. pose proof (payload_of_bytes _ Hv) as [Hb Hlen].
  destruct (with_checksum_ok _ sha256_size _ Hb) as [Hcb Hcl].
  destruct (base58_encode_text _ Hcb ltac:(rewrite Hcl, Hlen; by_decide)) as (ds & Hds & Hm & Hval & Henc).
  exists (text_of 0 ds). assert (Hlead : leading 0 (with_checksum sha256 (payload_of imported)) = 0%nat) by done.
  rewrite Hlead in Henc. split.
  - unfold text_of. cbn [replicate app]. replace (blen (map char ds)) with (blen ds) by (unfold blen; by rewrite length_map).
    pose proof (be_val_range _ Hcb) as Hrange. rewrite Hcl, Hlen, <- Hval in Hrange. change XPRV_MAX_LEN with 120.
    destruct ds as [|d ds]; [by_decide|]. pose proof (minimal_large 58 ltac:(lia) _ Hds Hm ltac:(done)) as Hlarge.
    destruct (Z.le_gt_cases (blen (d :: ds)) 120) as [|Hbig]; [done|exfalso].
    pose proof (Z.pow_le_mono_r 58 120 (blen (d :: ds) - 1) ltac:(lia) ltac:(lia)).
    assert (256 ^ (78 + 4) < 58 ^ 120) by by_decide. lia.
  - intros out Hout. rewrite serialize_xprv_text by done. unfold base58check_encode. rewrite Hlen.
    change (payload_of imported ++ _) with (with_checksum sha256 (payload_of imported)). cbn [Z.ltb Z.compare].
    change (MAX_BASE58_BYTES <? 78 + 4) with false. rewrite Henc, copy_into_front, (proj2 (Z.leb_le _ _)) by done. done.
Qed.

(** The [kpub1:] text is the prefix and the digits of a valid payload. *)
Lemma kpub_text_canonical text payload :
  decode_account_key_text text (zeros ACCOUNT_KEY_PAYLOAD_LEN) = (Some ACCOUNT_KEY_PAYLOAD_LEN, payload) <->
  bytes_ok payload /\
  encode_account_key_text payload (zeros ACCOUNT_KEY_TEXT_LEN) = (Some ACCOUNT_KEY_TEXT_LEN, text).
Proof.
  unfold decode_account_key_text, encode_account_key_text. change ACCOUNT_KEY_TEXT_LEN with 162.
  change ACCOUNT_KEY_PAYLOAD_LEN with 78. change (drop 6 (zeros 162)) with (zeros 156).
  assert (Hhex : forall bytes, blen bytes = 78 -> encode_lower_hex bytes (zeros 156) = (Some 156, hex_text bytes)).
  { intros bytes Hl. rewrite encode_lower_hex_spec by (rewrite Hl; by_decide). rewrite Hl. f_equal.
    rewrite drop_ge, app_nil_r; [done|]. unfold zeros, blen in *. rewrite length_replicate. lia. }
  split.
  - destruct (Z.eqb_spec (blen text) 162) as [Hlen|]; [|done]. case_bool_decide as Hpre; [|done]. cbn [negb orb].
    destruct (decode_lower_hex _ _) as [[n|] out] eqn:Hdec; [|done].
    destruct (validate_account_key_payload out) eqn:Hvalid; [|done]. intros [= <-].
    apply decode_lower_hex_canonical in Hdec as (bytes & -> & -> & Hok & Htext).
    assert (Hb : blen bytes = 78).
    { assert (Hd : blen (drop 6 text) = 156) by (unfold blen in *; rewrite length_drop; lia).
      rewrite Htext in Hd. unfold blen in *. rewrite length_hex_text in Hd. lia. }
    rewrite drop_zeros in *. replace (78 - Z.of_nat (length bytes)) with 0 in * by (unfold blen in *; lia).
    change (zeros 0) with (@nil Z) in *. rewrite app_nil_r in *. split; [done|]. rewrite Hvalid. cbn [negb].
    rewrite Hhex, <- Htext by done. f_equal. destruct Hpre as [rest ->]. done.
  - intros [Hok Henc]. destruct (validate_account_key_payload payload) eqn:Hvalid; [|done]. cbn [negb] in Henc.
    assert (Hb : blen payload = 78) by (unfold validate_account_key_payload in Hvalid; apply andb_true_iff in Hvalid as [Hl%Z.eqb_eq _]; done).
    rewrite Hhex in Henc by done. assert (text = ACCOUNT_KEY_TEXT_PREFIX ++ hex_text payload) as -> by congruence.
    assert (Hl : blen (ACCOUNT_KEY_TEXT_PREFIX ++ hex_text payload) = 162).
    { rewrite blen_app. unfold blen in *. rewrite length_hex_text. change (length ACCOUNT_KEY_TEXT_PREFIX) with 6%nat. lia. }
    rewrite Hl, Z.eqb_refl, bool_decide_true by (by eexists). cbn [negb orb].
    rewrite (drop_app_length' ACCOUNT_KEY_TEXT_PREFIX) by done. unfold decode_lower_hex.
    rewrite decode_hex_with_spec by (done || rewrite Hb; by_decide). rewrite drop_zeros.
    replace (78 - Z.of_nat (length payload)) with 0 by (unfold blen in *; lia). change (zeros 0) with (@nil Z).
    by rewrite app_nil_r, Hvalid.
Qed.

(** C21: account key texts are canonical: a private key text is imported exactly
    when it is the text the serializer writes for a valid account key, whose
    buffer holds every such text, and a [kpub1:] text decodes to a payload
    exactly when the encoder writes that text for it. *)
Theorem account_key_texts_canonical :
  (forall text imported,
     import_xprv_with_metadata sha256 text = Ok imported <->
     valid_import imported /\ serialize_imported_xprv sha256 imported (zeros (blen text)) = (Ok (blen text), text)) /\
  (forall imported, valid_import imported -> exists text,
     serialize_imported_xprv sha256 imported (zeros XPRV_MAX_LEN)
     = (Ok (blen text), text ++ zeros (XPRV_MAX_LEN - blen text)) /\
     import_xprv_with_metadata sha256 text = Ok imported) /\
  (forall text payload,
     decode_account_key_text text (zeros ACCOUNT_KEY_PAYLOAD_LEN) = (Some ACCOUNT_KEY_PAYLOAD_LEN, payload) <->
     bytes_ok payload /\
     encode_account_key_text payload (zeros ACCOUNT_KEY_TEXT_LEN) = (Some ACCOUNT_KEY_TEXT_LEN, text)).
Proof.
  split; [exact import_serialize|]. split; [|exact kpub_text_canonical].
  intros imported Hv. destruct (serialize_fits _ Hv) as (text & Hlen & Hser). exists text. split.
  - rewrite Hser by (rewrite blen_zeros; done). by rewrite drop_zeros.
  - apply import_serialize. split; [done|]. rewrite Hser, drop_zeros by (rewrite blen_zeros; [done|apply blen_nonneg]).
    replace (blen text - Z.of_nat (length text)) with 0 by (unfold blen; lia). change (zeros 0) with (@nil Z).
    by rewrite app_nil_r.
Qed.
End texts.

Definition toy_hash32 (l : list Z) : list Z := take 32 (toy_hash512 l).

Lemma toy_hash32_size l : bytes_of 32 (toy_hash32 l).
Proof. by apply (bytes_of_split 32 (toy_hash512 l)); [apply toy_hash512_size|]. Qed.

Definition toy_import : ImportedAccountXprv := {| imported_key := toy_key; imported_fingerprint := [1; 2; 3; 4] |}.

Example account_key_texts_canonical_witness : exists text,
  serialize_imported_xprv toy_hash32 toy_import (zeros XPRV_MAX_LEN)
  = (Ok (blen text), text ++ zeros (XPRV_MAX_LEN - blen text)) /\
  import_xprv_with_metadata (H := toy_curve) toy_hash32 text = Ok toy_import.
Proof.
  apply (account_key_texts_canonical (H := toy_curve) toy_hash32 toy_hash32_size (H0 := toy_laws)). by_decide.
Defined.
