(* ===== verification/WalletKeys.v ===== *)
(** * Watch-only wallets

    [src/src/wallet/account]: the host's extended public keys and the wallet
    data derived from them ([derivation.rs]) and the balance summary
    ([balance.rs]). The host derives children with the HMAC and the key types
    of third-party crates: the parameter [mac] and the class [Curve]. *)

From S2P Require Import Prelude Bytes Script Address Selection Planner TxModel Hd HdProofs Keys KeysProofs.
Import Hex QrPayload Bip32.

(** The texts of the errors. *)
Inductive WalletError :=
  | NotAnAccountKey
  | PayloadNotCanonical
  | RawNotCanonical (length : Z)
  | RawWrongLength (length : Z)
  | InvalidPubkey
  | HardenedFromPublic
  | InvalidTweak
  | InvalidChildKey
  | Kip22RangeOverflow
  | BalanceOverflow.

(** ** [derivation.rs] *)

Section wallet.
Context (sha256 blake2b_256 : list Z -> list Z) (mac : list Z -> list Z -> list Z) `{Curve}.

Definition decode_kpub_text (kpub_text : list Z) : result (list Z) WalletError :=
  match decode_kpub_or_xpub sha256 kpub_text (zeros ACCOUNT_KEY_PAYLOAD_LEN) with
  | (Ok _, payload) => Ok payload
  | (Err _, _) => Err NotAnAccountKey
  end.

(** The text is ASCII, so it is UTF-8. *)
Definition canonical_kpub_text (payload : list Z) : result (list Z) WalletError :=
  let '(length, encoded) := encode_account_key_text payload (zeros ACCOUNT_KEY_TEXT_LEN) in
  let? length := ok_or length PayloadNotCanonical in
  Ok (take (Z.to_nat length) encoded).

Record ExtPubKey := { epk_key : point; epk_chain_code : list Z; epk_depth : Z }.

(** [PublicKey::from_sec1_bytes]: a point other than the identity. *)
Definition public_key_from_sec1 (bytes : list Z) : option point :=
  p ← decode_point bytes; if is_identity p then None else Some p.

Definition from_raw_payload (payload : list Z) : result ExtPubKey WalletError :=
  if negb (validate_account_key_payload payload) then Err (RawNotCanonical (blen payload))
  else
    let? key := ok_or (public_key_from_sec1 (range payload 45 78)) InvalidPubkey in
    Ok {| epk_key := key; epk_chain_code := range payload 13 45; epk_depth := default 0 (get_at payload 4) |}.

Definition from_kpub (kpub_text : list Z) : result ExtPubKey WalletError :=
  let? payload := decode_kpub_text kpub_text in from_raw_payload payload.

(** [self.depth + 1] wraps in a release build. *)
Definition epk_derive_child (parent : ExtPubKey) (index : Z) : result ExtPubKey WalletError :=
  if 0x80000000 <=? index then Err HardenedFromPublic
  else
    let result := mac (epk_chain_code parent) (encode_point (epk_key parent) ++ be_bytes 4 index) in
    let? tweak_scalar := ok_or (scalar_value (take 32 result)) InvalidTweak in
    let child_point := point_add (epk_key parent) (generator_times tweak_scalar) in
    if is_identity child_point then Err InvalidChildKey
    else Ok {| epk_key := child_point; epk_chain_code := drop 32 result; epk_depth := (epk_depth parent + 1) mod 256 |}.

Definition x_only_bytes (k : ExtPubKey) : list Z := drop 1 (encode_point (epk_key k)).

Record Kip22Address := { k22_address : list Z; k22_xonly : list Z; k22_index : Z }.

(** [kip22::address] *)
Definition kip22_address (xonly prefix : list Z) : list Z :=
  encode_p2sh_address (blake2b_256 (Kip22.redeem_script xonly)) prefix.

Definition derive_kip22_addresses (kpub_str : list Z) (chain : Kip22.Chain) (start count : Z) (prefix : list Z)
  : result (list Kip22Address) WalletError :=
  let? account := from_kpub kpub_str in
  let? chain_key := epk_derive_child account (Kip22.chain_index chain) in
  if u32_max <? start + count then Err Kip22RangeOverflow
  else
    try_map (fun index =>
      let? child := epk_derive_child chain_key index in
      let xonly := x_only_bytes child in
      Ok {| k22_address := kip22_address xonly prefix; k22_xonly := xonly; k22_index := index |})
      (seqZ start count).

(** One of the loops that derive the addresses of a chain. *)
Definition chain_addresses (chain_key : ExtPubKey) (prefix : list Z) (indices : list Z)
  : result (list (list Z)) WalletError :=
  try_map (fun i => let? child := epk_derive_child chain_key i in Ok (encode_p2pk_address (x_only_bytes child) prefix))
    indices.

Definition import_kpub (kpub_str prefix : list Z) : result WalletData WalletError :=
  let? payload := decode_kpub_text kpub_str in
  let? canonical_kpub := canonical_kpub_text payload in
  let? xpub := from_raw_payload payload in
  let? receive_chain := epk_derive_child xpub 0 in
  let? receive_addresses := chain_addresses receive_chain prefix (seqZ 0 20) in
  let? change_chain := epk_derive_child xpub 1 in
  let? change_addresses := chain_addresses change_chain prefix (seqZ 0 20) in
  Ok {| kpub := canonical_kpub; receive_addresses := receive_addresses; change_addresses := change_addresses;
        next_receive_index := 0; next_change_index := 0 |}.

Definition import_kpub_raw (raw_payload prefix : list Z) : result WalletData WalletError :=
  if negb (blen raw_payload =? ACCOUNT_KEY_PAYLOAD_LEN) then Err (RawWrongLength (blen raw_payload))
  else
    let? _ := from_raw_payload raw_payload in
    let? kpub_text := canonical_kpub_text raw_payload in
    import_kpub kpub_text prefix.

(** The addresses of one chain with [extra] more. The length is cast to [u32],
    and [start + extra] wraps in a release build, which leaves an empty range. *)
Definition extend_chain (xpub : ExtPubKey) (chain : Z) (addresses : list (list Z)) (extra : Z) (prefix : list Z)
  : result (list (list Z)) WalletError :=
  if 0 <? extra then
    let? chain_key := epk_derive_child xpub chain in
    let start := blen addresses mod 2 ^ 32 in
    let end_ := (start + extra) mod 2 ^ 32 in
    let? more := chain_addresses chain_key prefix (seqZ start (end_ - start)) in
    Ok (addresses ++ more)
  else Ok addresses.

Definition extend_addresses (wallet : WalletData) (extra_receive extra_change : Z) (prefix : list Z)
  : result WalletData WalletError :=
  let? xpub := from_kpub (kpub wallet) in
  let? receive_addresses := extend_chain xpub 0 (receive_addresses wallet) extra_receive prefix in
  let? change_addresses := extend_chain xpub 1 (change_addresses wallet) extra_change prefix in
  Ok {| kpub := kpub wallet; receive_addresses := receive_addresses; change_addresses := change_addresses;
        next_receive_index := next_receive_index wallet; next_change_index := next_change_index wallet |}.
End wallet.

(** ** [balance.rs], without the floating-point total *)

Record BalanceInfo := {
  total_sompi : Z;
  utxo_count : Z;
  funded_addresses : Z;
  funded_receive_indices : list Z;
  funded_change_indices : list Z;
}.

Definition funded_indices (funded_scripts : gset (list Z)) (addresses : list (list Z)) : list Z :=
  omap (fun '(index, address) =>
    match address_to_script_pubkey address with
    | Ok script => if decide (script ∈ funded_scripts) then Some (Z.of_nat index) else None
    | Err _ => None
    end) (imap pair addresses).

Definition summarize_balance (wallet : WalletData) (utxos : list Selection.UtxoEntry) : result BalanceInfo WalletError :=
  let? total_sompi := try_fold (fun total entry => ok_or (checked_add total (Selection.amount entry)) BalanceOverflow) 0 utxos in
  let funded_scripts : gset (list Z) := list_to_set (map Selection.script_public_key utxos) in
  Ok {| total_sompi := total_sompi;
        utxo_count := blen utxos;
        funded_addresses := Z.of_nat (size funded_scripts);
        funded_receive_indices := funded_indices funded_scripts (receive_addresses wallet);
        funded_change_indices := funded_indices funded_scripts (change_addresses wallet) |}.

(** * Watch-only wallets show the account's own addresses

    The host's public derivation agrees with the device's, and so with the
    private keys of the account: the addresses of an imported wallet, and those
    it is extended by, are the pay-to-public-key addresses of the account's
    private keys. *)

Import Bip32.

(** The value of a result, without its error. *)
Definition ok {A E} (r : result A E) : option A := match r with Ok a => Some a | Err _ => None end.

Lemma ok_rbind {A B E} (r : result A E) (f : A -> result B E) : ok (rbind r f) = (a ← ok r; ok (f a)).
Proof. by destruct r. Qed.

Lemma ok_try_map {A B E E'} (f : A -> result B E) (g : A -> result B E') l :
  (forall x, x ∈ l -> ok (f x) = ok (g x)) -> ok (try_map f l) = ok (try_map g l).
Proof.
  induction l as [|x l IH]; intros Hfg; [done|]. cbn [try_map]. rewrite !ok_rbind, Hfg by left.
  destruct (ok (g x)); [|done]. cbn [mbind option_bind]. rewrite !ok_rbind, IH by (intros; apply Hfg; by right). done.
Qed.

Lemma try_map_app {A B E} (f : A -> result B E) l1 l2 :
  try_map f (l1 ++ l2) = (let? ys1 := try_map f l1 in let? ys2 := try_map f l2 in Ok (ys1 ++ ys2)).
Proof.
  induction l1 as [|x l1 IH]; cbn [app try_map rbind]; [by destruct (try_map f l2)|].
  destruct (f x); [|done]. cbn [rbind]. rewrite IH. destruct (try_map f l1); [|done]. cbn [rbind]. by destruct (try_map f l2).
Qed.

(** The index of a non-hardened child. *)
Lemma soft_index index : 0 <= index < 0x80000000 -> Z.land index HARDENED_BIT = 0.
Proof.
  intros Hi. change HARDENED_BIT with (2 ^ 31). apply Z.bits_inj'. intros n Hn. rewrite Z.land_spec, Z.pow2_bits_eqb, Z.bits_0 by lia.
  destruct (Z.eqb_spec 31 n) as [<-|]; [|by rewrite andb_false_r]. rewrite andb_true_r.
  rewrite <- (Z.mod_small index (2 ^ 31)) by lia. apply Z.mod_pow2_bits_high. lia.
Qed.

Lemma hard_index index : 0x80000000 <= index < 2 ^ 32 -> Z.land index HARDENED_BIT <> 0.
Proof.
  intros Hi Hz. assert (Hbit : Z.testbit (Z.land index HARDENED_BIT) 31 = true); [|by rewrite Hz in Hbit].
  rewrite Z.land_spec, andb_true_r. apply Z.testbit_true; [lia|].
  assert (Hd : index / 2 ^ 31 = 1) by (symmetry; apply (Z.div_unique_pos _ _ _ (index - 2 ^ 31)); lia). by rewrite Hd.
Qed.

Section agree.
Context (sha256 blake2b_256 sha512 : list Z -> list Z) (sha512_size : forall l, bytes_of 64 (sha512 l)).
Context (mac : list Z -> list Z -> list Z) (mac_hmac : forall k m, mac k m = hmac_sha512 sha512 k m) `{CurveLaws}.

(** The host's and the device's form of one extended public key. *)
Definition agrees (h : ExtPubKey) (d : ExtendedPubKey) : Prop :=
  is_identity (epk_key h) = false /\ pubkey d = encode_point (epk_key h) /\ pub_chain_code d = epk_chain_code h.

(** The two derivations of a public child agree, and fail together. *)
Lemma host_device_child h d index : agrees h d -> 0 <= index < 2 ^ 32 ->
  match epk_derive_child mac h index, derive_child_pub sha512 d index with
  | Ok h', Ok d' => agrees h' d'
  | Err _, Err _ => True
  | _, _ => False
  end.
Proof.
  intros (Hid & Hpk & Hcc) Hi. unfold epk_derive_child, derive_child_pub, child_public_scalar, scalar_and_chain_code.
  destruct (Z.leb_spec 0x80000000 index) as [Hhard|Hsoft].
  { destruct (Z.eqb_spec (Z.land index HARDENED_BIT) 0) as [Hz|]; [exfalso; by apply (hard_index index ltac:(lia))|done]. }
  rewrite soft_index by lia. cbn [Z.eqb negb]. rewrite mac_hmac, Hpk, Hcc.
  set (i := hmac_sha512 sha512 _ _). destruct (hmac_size sha512 sha512_size (epk_chain_code h) (encode_point (epk_key h) ++ be_bytes 4 index)) as [Hil _].
  fold i in Hil. rewrite is_less_than_order_spec, scalar_value_spec by done.
  destruct (be_val (take 32 i) <? order); [|done]. cbn [negb ok_or rbind]. rewrite decode_encode by done. cbn [ok_or rbind].
  rewrite (point_add_comm (epk_key h)). destruct (is_identity (point_add _ _)) eqn:Hchild; [done|]. cbn [rbind].
  unfold encode_child_point. rewrite (proj2 (encode_size _ Hchild)). done.
Qed.

(** The host watches a private key. *)
Definition watches (h : ExtPubKey) (k : ExtendedPrivKey) : Prop :=
  valid_key k /\ exists d, to_xpub k = Ok d /\ agrees h d.

Lemma watch_child h k index : watches h k -> 0 <= index < 0x80000000 ->
  match epk_derive_child mac h index, derive_child sha512 k index with
  | Ok h', Ok k' => watches h' k'
  | Err _, Err _ => True
  | _, _ => False
  end.
Proof.
  intros (Hk & d & Hd & Hagree) Hi. pose proof (host_device_child h d index Hagree ltac:(lia)) as Hboth.
  rewrite (derive_child_pub_step sha512 sha512_size k d index Hk Hd (soft_index _ Hi)) in Hboth.
  destruct (derive_child sha512 k index) as [k'|] eqn:Hchild; cbn [rbind] in Hboth; [|done].
  pose proof (derive_child_valid _ sha512_size _ _ _ Hk Hchild) as Hk'. destruct (public_key_size k' Hk') as (pk & Hpk & _).
  assert (Hx : exists d', to_xpub k' = Ok d') by (unfold to_xpub; rewrite Hpk; by eexists).
  destruct Hx as [d' Hx]. rewrite Hx in Hboth. destruct (epk_derive_child mac h index); [|done]. split; [done|]. by exists d'.
Qed.

Lemma watch_x_only h k : watches h k -> public_key_x_only k = Ok (x_only_bytes h).
Proof.
  intros (Hk & d & Hd & _ & Hpk & _). unfold to_xpub in Hd. unfold public_key_x_only.
  destruct (public_key_compressed k) as [pk|]; [|done]. injection Hd as <-. cbn [rbind]. unfold x_coordinate, x_only_bytes.
  by rewrite <- Hpk.
Qed.

(** ** The addresses of an account *)

(** The address of the private key at an index. *)
Definition address_of (account : ExtendedPrivKey) (is_change : bool) (prefix : list Z) (i : Z) : result (list Z) Bip32Error :=
  let? k := derive_on sha512 account is_change i in
  let? pk := public_key_x_only k in
  Ok (encode_p2pk_address pk prefix).

(** The wallet that shows the first [n] receive and [m] change addresses of the
    account under an account key text. *)
Definition wallet_of (account : ExtendedPrivKey) (text prefix : list Z) (n m : Z) : option WalletData :=
  receive ← ok (try_map (address_of account false prefix) (seqZ 0 n));
  change ← ok (try_map (address_of account true prefix) (seqZ 0 m));
  Some {| kpub := text; receive_addresses := receive; change_addresses := change; next_receive_index := 0;
          next_change_index := 0 |}.

Definition chain_of (is_change : bool) : Z := if is_change then 1 else 0.

Lemma chain_addresses_private h account is_change prefix indices :
  watches h account -> indices <> [] -> Forall (fun i => 0 <= i < 0x80000000) indices ->
  ok (let? chain_key := epk_derive_child mac h (chain_of is_change) in chain_addresses mac chain_key prefix indices)
  = ok (try_map (address_of account is_change prefix) indices).
Proof.
  intros Hw Hne Hi. assert (Hchain : 0 <= chain_of is_change < 0x80000000) by by destruct is_change.
  pose proof (watch_child h account (chain_of is_change) Hw Hchain) as Hck.
  assert (Hon : forall i, derive_on sha512 account is_change i
    = (let? c := derive_child sha512 account (chain_of is_change) in derive_child sha512 c i)) by (by destruct is_change).
  destruct (epk_derive_child mac h _) as [ck|], (derive_child sha512 account _) as [c|e0] eqn:Hc; try done; cbn [rbind].
  - apply ok_try_map. intros i Hin. rewrite Forall_forall in Hi. unfold address_of. rewrite Hon. cbn [rbind].
    pose proof (watch_child ck c i Hck (Hi _ Hin)) as Hchild.
    destruct (epk_derive_child mac ck i) as [child|], (derive_child sha512 c i) as [k|]; try done. cbn [rbind].
    by rewrite (watch_x_only child k Hchild).
  - destruct indices as [|i indices]; [done|]. cbn [try_map]. unfold address_of at 1. by rewrite Hon.
Qed.

Lemma seqZ_forall_soft n k : 0 <= n -> n + k <= 0x80000000 -> Forall (fun i => 0 <= i < 0x80000000) (seqZ n k).
Proof. intros. apply Forall_forall. intros i Hi%elem_of_seqZ. lia. Qed.

Lemma ok_try_map_length {A B E} (f : A -> result B E) l ys : ok (try_map f l) = Some ys -> length ys = length l.
Proof.
  destruct (try_map f l) as [ys'|] eqn:Hmap; [|done]. intros [= <-]. apply try_map_Ok in Hmap. symmetry.
  by eapply Forall2_length.
Qed.

(** Extending a chain of [n] addresses shows [n + extra]. *)
Lemma extend_chain_private h account is_change prefix n extra addresses :
  watches h account -> 0 <= n -> 0 <= extra -> n + extra <= 0x80000000 ->
  ok (try_map (address_of account is_change prefix) (seqZ 0 n)) = Some addresses ->
  ok (extend_chain mac h (chain_of is_change) addresses extra prefix)
  = ok (try_map (address_of account is_change prefix) (seqZ 0 (n + extra))).
Proof.
  intros Hw Hn Hextra Hmax Hold. pose proof (ok_try_map_length _ _ _ Hold) as Hlen. rewrite length_seqZ in Hlen.
  assert (Hb : blen addresses = n) by (unfold blen; lia). unfold extend_chain. rewrite Hb.
  destruct (Z.ltb_spec 0 extra) as [Hpos|].
  - rewrite seqZ_app, try_map_app, (ok_rbind (try_map _ (seqZ 0 n))), Hold by lia. cbn [mbind option_bind].
    rewrite (ok_rbind (try_map _ (seqZ (0 + n) extra))). rewrite !Z.mod_small by lia. replace (n + extra - n) with extra by lia. rewrite Z.add_0_l.
    pose proof (chain_addresses_private h account is_change prefix (seqZ n extra) Hw) as Hmore.
    rewrite <- Hmore; [|intros Hnil; apply (f_equal length) in Hnil; rewrite length_seqZ in Hnil; cbn in Hnil; lia|by apply seqZ_forall_soft].
    destruct (epk_derive_child mac h _) as [ck|]; [|done]. cbn [rbind]. by destruct (chain_addresses mac ck prefix _).
  - replace (n + extra) with n by lia. by rewrite Hold.
Qed.

(** ** The account key text *)

Lemma range_at (l l1 l2 l3 : list Z) (i j : Z) : l = l1 ++ l2 ++ l3 -> i = blen l1 -> j = blen l1 + blen l2 -> range l i j = l2.
Proof.
  intros -> -> ->. unfold range. replace (Z.to_nat (blen l1)) with (length l1) by (unfold blen; lia).
  rewrite drop_app_length. replace (Z.to_nat (blen l1 + blen l2 - blen l1)) with (length l2) by (unfold blen; lia).
  by rewrite take_app_length.
Qed.

(** What the host reads from the text the account is exported with. *)
Lemma exported_account account fingerprint text :
  valid_key account -> bytes_of 4 fingerprint ->
  serialize_account_kpub account fingerprint (zeros ACCOUNT_KEY_TEXT_LEN) = (Ok ACCOUNT_KEY_TEXT_LEN, text) ->
  exists payload h, decode_kpub_text sha256 text = Ok payload /\ canonical_kpub_text payload = Ok text /\
    from_raw_payload payload = Ok h /\ watches h account.
Proof.
  intros Hk [Hfb Hfl] Hser. unfold serialize_account_kpub, serialize_with, write_account_payload in Hser.
  change (0x80000000 =? ACCOUNT_KEY_CHILD_INDEX) with true in Hser. cbn [negb] in Hser.
  destruct (public_key_size account Hk) as (pk & Hpk & Hpkb & Hpkl). rewrite Hpk in Hser. cbn [rbind] in Hser.
  set (payload := ACCOUNT_KEY_VERSION ++ _) in Hser. unfold encode_kpub_text in Hser.
  destruct (encode_account_key_text payload _) as [[length|] out] eqn:Henc; [|done]. cbn [ok_or] in Hser.
  injection Hser as -> ->. pose proof Hk as ((Hkb & _) & Hkr & (Hcb & Hcl) & _).
  assert (Hpb : bytes_ok payload).
  { repeat (apply Forall_app; split); try done; try apply be_bytes_ok; by_decide. }
  pose proof (proj2 (kpub_text_canonical text payload) (conj Hpb Henc)) as Hdec.
  assert (Hvalid : validate_account_key_payload payload = true).
  { unfold encode_account_key_text in Henc. by destruct (validate_account_key_payload payload). }
  assert (Hlen : blen text = 162).
  { unfold decode_account_key_text in Hdec. by destruct (Z.eqb_spec (blen text) ACCOUNT_KEY_TEXT_LEN). }
  rewrite (public_key_valid account Hk) in Hpk. injection Hpk as <-. pose proof (generator_not_identity _ Hkr) as Hid.
  exists payload, {| epk_key := generator_times (be_val (key account)); epk_chain_code := chain_code account; epk_depth := 3 |}.
  assert (Hcc : range payload 13 45 = chain_code account).
  { apply (range_at _ (ACCOUNT_KEY_VERSION ++ [ACCOUNT_KEY_DEPTH] ++ fingerprint ++ be_bytes 4 0x80000000) _
             (encode_point (generator_times (be_val (key account))))); [by rewrite <- !app_assoc| |];
    rewrite !blen_app, blen_be_bytes, Hfl, ?Hcl; done. }
  assert (Hpr : range payload 45 78 = encode_point (generator_times (be_val (key account)))).
  { apply (range_at _ (ACCOUNT_KEY_VERSION ++ [ACCOUNT_KEY_DEPTH] ++ fingerprint ++ be_bytes 4 0x80000000 ++ chain_code account) _
             []); [by rewrite app_nil_r, <- !app_assoc| |];
    rewrite !blen_app, blen_be_bytes, Hfl, Hcl, ?Hpkl; done. }
  split; [|split; [|split; [|split]]].
  - unfold decode_kpub_text, decode_kpub_or_xpub. by rewrite Hdec.
  - unfold canonical_kpub_text. rewrite Henc. cbn [ok_or rbind]. f_equal. apply take_ge.
    change (Z.to_nat ACCOUNT_KEY_TEXT_LEN) with 162%nat. unfold blen in Hlen. lia.
  - unfold from_raw_payload. rewrite Hvalid. cbn [negb]. rewrite Hcc, Hpr. unfold public_key_from_sec1.
    rewrite decode_encode by done. cbn [mbind option_bind]. by rewrite Hid.
  - done.
  - exists {| pubkey := encode_point (generator_times (be_val (key account))); pub_chain_code := chain_code account;
              pub_depth := depth account |}.
    split; [|done]. unfold to_xpub. by rewrite public_key_valid.
Qed.

(** C22: a watch-only wallet shows exactly the account's own addresses: importing
    the exported account key gives the first twenty receive and change
    addresses of the account's private keys, extending the wallet continues
    both sequences, and either fails only when one of those keys does not
    derive. *)
Theorem watch_only_addresses (account : ExtendedPrivKey) (fingerprint text prefix : list Z) :
  valid_key account -> bytes_of 4 fingerprint ->
  serialize_account_kpub account fingerprint (zeros ACCOUNT_KEY_TEXT_LEN) = (Ok ACCOUNT_KEY_TEXT_LEN, text) ->
  ok (import_kpub sha256 mac text prefix) = wallet_of account text prefix 20 20 /\
  forall n m extra_n extra_m wallet,
    0 <= n -> 0 <= m -> 0 <= extra_n -> 0 <= extra_m -> n + extra_n <= 0x80000000 -> m + extra_m <= 0x80000000 ->
    wallet_of account text prefix n m = Some wallet ->
    ok (extend_addresses sha256 mac wallet extra_n extra_m prefix)
    = wallet_of account text prefix (n + extra_n) (m + extra_m).
Proof.
  intros Hk Hf Hser. destruct (exported_account _ _ _ Hk Hf Hser) as (payload & h & Hdec & Hcanon & Hraw & Hw). split.
  - unfold import_kpub. rewrite Hdec. cbn [rbind]. rewrite Hcanon. cbn [rbind]. rewrite Hraw. cbn [rbind].
    pose proof (chain_addresses_private h account false prefix (seqZ 0 20) Hw ltac:(done) ltac:(by apply seqZ_forall_soft)) as Hr.
    pose proof (chain_addresses_private h account true prefix (seqZ 0 20) Hw ltac:(done) ltac:(by apply seqZ_forall_soft)) as Hc.
    unfold wallet_of. rewrite <- Hr, <- Hc. cbn [chain_of]. rewrite !ok_rbind.
    destruct (epk_derive_child mac h 0) as [rk|]; [|done]. cbn [ok mbind option_bind]. rewrite !ok_rbind.
    destruct (chain_addresses mac rk prefix _); [|done]. cbn [ok mbind option_bind]. rewrite !ok_rbind.
    destruct (epk_derive_child mac h 1) as [ck|]; [|done]. cbn [ok mbind option_bind]. rewrite !ok_rbind.
    by destruct (chain_addresses mac ck prefix _).
  - intros n m extra_n extra_m wallet Hn Hm Hen Hem Hnmax Hmmax Hwallet. unfold wallet_of in Hwallet.
    destruct (ok (try_map _ (seqZ 0 n))) as [receive|] eqn:Hreceive; [|done].
    destruct (ok (try_map _ (seqZ 0 m))) as [change|] eqn:Hchange; [|done]. injection Hwallet as <-.
    unfold extend_addresses, from_kpub. cbn [kpub receive_addresses change_addresses next_receive_index next_change_index].
    rewrite Hdec. cbn [rbind]. rewrite Hraw. cbn [rbind]. unfold wallet_of.
    rewrite <- (extend_chain_private h account false prefix n extra_n receive), <- (extend_chain_private h account true prefix m extra_m change) by done.
    cbn [chain_of]. rewrite ok_rbind. destruct (extend_chain mac h 0 receive extra_n prefix); [|done].
    cbn [ok mbind option_bind]. rewrite ok_rbind. by destruct (extend_chain mac h 1 change extra_m prefix).
Qed.
End agree.

Definition toy_kpub_text : list Z :=
  snd (serialize_account_kpub (H := toy_curve) toy_key [1; 2; 3; 4] (zeros ACCOUNT_KEY_TEXT_LEN)).

Lemma toy_kpub_exported :
  serialize_account_kpub (H := toy_curve) toy_key [1; 2; 3; 4] (zeros ACCOUNT_KEY_TEXT_LEN)
  = (Ok ACCOUNT_KEY_TEXT_LEN, toy_kpub_text).
Proof. vm_compute. reflexivity. Qed.

Example watch_only_addresses_witness :
  ok (import_kpub (H := toy_curve) toy_hash32 (hmac_sha512 toy_hash512) toy_kpub_text (str "kaspa"))
  = wallet_of (H := toy_curve) toy_hash512 toy_key toy_kpub_text (str "kaspa") 20 20.
Proof.
  assert (Hk : valid_key toy_key) by by_decide. assert (Hf : bytes_of 4 [1; 2; 3; 4]) by by_decide.
  exact (proj1 (watch_only_addresses (H := toy_curve) toy_hash32 toy_hash512 toy_hash512_size (hmac_sha512 toy_hash512)
           (fun k m => eq_refl) (H0 := toy_laws) toy_key [1; 2; 3; 4] toy_kpub_text (str "kaspa") Hk Hf toy_kpub_exported)).
Defined.
