(* ===== verification/Slots.v ===== *)
(** * Sorting the first slots of an array

    Three places of the program sort the occupied slots of a fixed array by
    sinking each slot into the sorted slots before it: the cosigners and the
    child keys of a multisig wallet ([transaction/model/multisig.rs],
    [multisig/derivation.rs]) and the participants of a descriptor
    ([wallet/multisig/grammar.rs]). Slots that are several parallel arrays in
    the code are one list of rows here, so swapping a row swaps all of them. *)

From S2P Require Import Prelude Selection.

Section slots.
Context {A : Type} (key : A -> list Z).

(** [>] on byte arrays. *)
Definition gt_bytes (x y : A) : bool := match cmp_text (key x) (key y) with Gt => true | _ => false end.

(** The inner loop: the slot at [cursor] moves down past the larger ones. A
    slot beyond the array would panic; the callers' counts are within it. *)
Fixpoint sink (cursor : nat) (slots : list A) : list A :=
  match cursor with
  | O => slots
  | S before =>
      match slots !! before, slots !! cursor with
      | Some x, Some y => if gt_bytes x y then sink before (<[before := y]> (<[cursor := x]> slots)) else slots
      | _, _ => slots
      end
  end.

(** [for index in 1..count] *)
Definition sort_slots (count : nat) (slots : list A) : list A :=
  foldl (fun slots index => sink index slots) slots (seq 1 (count - 1)).

(** ** The first slots end up sorted *)

Definition key_le (x y : A) : Prop := cmp_text (key x) (key y) <> Gt.

Lemma gt_bytes_le x y : if gt_bytes x y then key_le y x else key_le x y.
Proof.
  unfold gt_bytes, key_le. rewrite (cmp_text_antisym (key x) (key y)). by destruct (cmp_text (key x) (key y)).
Qed.

Lemma key_le_trans x y z : key_le x y -> key_le y z -> key_le x z.
Proof. apply cmp_text_trans. Qed.

Lemma sorted_snoc l x : StronglySorted key_le (l ++ [x]) <-> StronglySorted key_le l /\ Forall (fun y => key_le y x) l.
Proof.
  induction l as [|y l IH]; cbn [app]; [split; [by repeat constructor|by repeat constructor]|]. split.
  - inversion 1 as [|? ? Hl Hy]; subst. apply IH in Hl as [Hl Hx]. apply Forall_app in Hy as [Hy [Hyx _]%Forall_cons].
    split; by constructor.
  - intros [Hl Hx]. inversion Hl; subst. apply Forall_cons in Hx as [Hyx Hx]. constructor; [by apply IH|].
    apply Forall_app. split; [done|]. by constructor.
Qed.

Lemma sink_spec p y rest : StronglySorted key_le p -> exists q,
  sink (length p) (p ++ y :: rest) = q ++ rest /\ q ≡ₚ y :: p /\ StronglySorted key_le q.
Proof.
  revert rest. induction p as [|x p IH] using rev_ind; intros rest Hp.
  { exists [y]. split; [done|]. split; [done|]. by repeat constructor. }
  apply sorted_snoc in Hp as [Hp Hx]. rewrite length_app, Nat.add_1_r. cbn [sink].
  rewrite <- app_assoc. cbn [app]. rewrite (list_lookup_middle p (y :: rest) x _ eq_refl).
  replace (p ++ x :: y :: rest) with ((p ++ [x]) ++ y :: rest) by by rewrite <- app_assoc.
  rewrite (list_lookup_middle (p ++ [x]) rest y) by (rewrite length_app; cbn; lia).
  pose proof (gt_bytes_le x y) as Hle. destruct (gt_bytes x y).
  - replace (<[length p := y]> (<[S (length p) := x]> ((p ++ [x]) ++ y :: rest))) with (p ++ y :: x :: rest).
    2:{ rewrite (insert_app_r_alt (p ++ [x])) by (rewrite length_app; cbn; lia). rewrite length_app. cbn [length].
        replace (S (length p) - (length p + 1))%nat with 0%nat by lia. cbn [insert list_insert].
        rewrite <- app_assoc. cbn [app]. rewrite insert_app_r_alt by lia. by replace (length p - length p)%nat with 0%nat by lia. }
    destruct (IH (x :: rest) Hp) as (q & -> & Hq & Hs). exists (q ++ [x]). split; [by rewrite <- app_assoc|]. split.
    + by rewrite Hq.
    + apply sorted_snoc. split; [done|]. rewrite Hq. by constructor.
  - exists (p ++ [x; y]). split; [by rewrite <- !app_assoc|]. split; [change [x; y] with ([x] ++ [y]); by rewrite app_assoc, (Permutation_app_comm (p ++ [x]) [y])|].
    change [x; y] with ([x] ++ [y]). rewrite app_assoc. apply sorted_snoc. split; [by apply sorted_snoc|].
    apply Forall_app. split; [|by repeat constructor]. eapply Forall_impl; [exact Hx|]. intros z Hz. exact (key_le_trans _ _ _ Hz Hle).
Qed.

Lemma sort_slots_step count slots : (1 <= count)%nat -> (S count <= length slots)%nat ->
  sort_slots (S count) slots = sink count (sort_slots count slots).
Proof.
  intros Hc _. unfold sort_slots. replace (S count - 1)%nat with (S (count - 1)) by lia. rewrite seq_S, foldl_app.
  cbn [foldl]. by replace (1 + (count - 1))%nat with count by lia.
Qed.

(** The first [count] slots end up sorted; the others stay. *)
Lemma sort_slots_spec count slots : (1 <= count)%nat -> (count <= length slots)%nat -> exists front,
  sort_slots count slots = front ++ drop count slots /\ front ≡ₚ take count slots /\ StronglySorted key_le front.
Proof.
  induction count as [|count IH]; intros Hc Hlen; [lia|]. destruct (decide (count = 0)%nat) as [->|Hne].
  { destruct slots as [|x slots]; [cbn in Hlen; lia|]. exists [x]. cbn. split_and!; try done. by repeat constructor. }
  destruct IH as (front & Hsort & Hperm & Hs); [lia..|]. rewrite sort_slots_step, Hsort by lia.
  destruct (lookup_lt_is_Some_2 slots count) as [y Hy]; [lia|]. rewrite (drop_S _ y) by done.
  assert (Hfl : length front = count) by (rewrite Hperm, length_take; lia).
  destruct (sink_spec front y (drop (S count) slots) Hs) as (q & Hrun & Hq & Hqs). rewrite Hfl in Hrun. rewrite Hrun. exists q. split; [done|]. split; [|done].
  rewrite Hq, Hperm, (take_S_r _ _ y) by done. apply Permutation_cons_append.
Qed.

(** Equal keys are equal slots in a sorted permutation, so sorting is unique. *)
Lemma sorted_unique l1 l2 : (forall x y, x ∈ l1 -> y ∈ l1 -> key x = key y -> x = y) ->
  StronglySorted key_le l1 -> StronglySorted key_le l2 -> l1 ≡ₚ l2 -> l1 = l2.
Proof.
  intros Hinj H1 H2 Hperm. apply (StronglySorted_unique_strong key_le); try done. intros x y Hx Hy Hxy Hyx.
  apply Hinj; [done|by rewrite Hperm|]. unfold key_le in *. rewrite (cmp_text_antisym (key x) (key y)) in Hyx.
  destruct (cmp_text (key x) (key y)) eqn:Hc; try done. by apply cmp_text_Eq.
Qed.

(** The library's sort of a vector gives the same. *)
Lemma sort_by_slots count slots : (1 <= count)%nat -> (count <= length slots)%nat ->
  (forall x y, x ∈ take count slots -> y ∈ take count slots -> key x = key y -> x = y) ->
  sort_slots count slots = sort_by (fun x y => cmp_text (key x) (key y)) (take count slots) ++ drop count slots.
Proof.
  intros Hc Hlen Hinj. destruct (sort_slots_spec count slots Hc Hlen) as (front & -> & Hperm & Hs). f_equal.
  apply sorted_unique; [intros x y Hx Hy; rewrite Hperm in Hx, Hy; by apply Hinj|done| |].
  - apply sort_by_sorted; [|intros x y z; apply key_le_trans]. intros x y Hgt. unfold cmp_le.
    rewrite (cmp_text_antisym (key x) (key y)), Hgt. done.
  - by rewrite sort_by_Permutation.
Qed.

(** A sorted array stays as it is. *)
Lemma sort_slots_sorted count slots : (1 <= count)%nat -> (count <= length slots)%nat ->
  (forall x y, x ∈ take count slots -> y ∈ take count slots -> key x = key y -> x = y) ->
  StronglySorted key_le (take count slots) -> sort_slots count slots = slots.
Proof.
  intros Hc Hlen Hinj Hs. destruct (sort_slots_spec count slots Hc Hlen) as (front & -> & Hperm & Hf).
  rewrite <- (take_drop count slots) at 2. f_equal. apply sorted_unique; try done.
  intros x y Hx Hy. rewrite Hperm in Hx, Hy. by apply Hinj.
Qed.
End slots.
