(* ===== verification/Descriptor.v ===== *)
(** * Multisig descriptors

    [src/src/wallet/multisig]: the bounded parser of descriptor text
    ([grammar.rs]), the host's descriptor with the keys it derives
    ([descriptor.rs]), the redeem script ([redeem_script.rs]) and the search of
    an address's path ([address_index.rs]). The parser fills arrays of [N]
    slots; the five parallel arrays of a hierarchical participant are one list
    of rows. The texts that only describe an error to the user and the JSON
    of the derivation paths are not modelled. *)

From S2P Require Import Prelude Bytes Script Address Selection Slots Planner TxModel Hd Keys WalletKeys.
Import Hex Bip32.

(** ** [grammar.rs] *)

Module Grammar.

Definition HD44_PARTICIPANT_HEX_LEN : Z := 130.
Definition HD45_KPUB_LEN : Z := ACCOUNT_KEY_TEXT_LEN.
Definition STATIC_KEY_HEX_LEN : Z := 64.

Inductive MultisigDescriptorKind := Static | Hd44 | Hd45.

#[export] Instance MultisigDescriptorKind_eq_dec : EqDecision MultisigDescriptorKind.
Proof. solve_decision. Defined.

Inductive MultisigDescriptorError :=
  | UnsupportedFormat | InvalidThreshold | TooFewParticipants | TooManyParticipants | InvalidParticipantLength
  | InvalidHex | InvalidCompressedPublicKey | InvalidKpub | InvalidKpubDepth | DuplicateParticipant.

Record ParsedMultisigDescriptor := {
  threshold : Z;
  participant_count : Z;
  kind : MultisigDescriptorKind;
  static_public_keys : list (list Z);
  participants : list KpubParts }.

Definition is_hd (p : ParsedMultisigDescriptor) : bool :=
  match kind p with Hd44 | Hd45 => true | Static => false end.
Definition is_hd45 (p : ParsedMultisigDescriptor) : bool := match kind p with Hd45 => true | _ => false end.

(** An unused slot. *)
Definition empty_parts : KpubParts :=
  {| kp_depth := 0; kp_parent_fp := zeros 4; kp_child_num := zeros 4; kp_chain_code := zeros 32; kp_pubkey := zeros 33 |}.

Definition is_blank (byte : Z) : bool := (byte =? 32) || (byte =? 9) || (byte =? 13).

Fixpoint trim_leading (data : list Z) : list Z :=
  match data with
  | byte :: rest => if is_blank byte then trim_leading rest else data
  | [] => []
  end.
Definition trim_trailing_ascii_whitespace (data : list Z) : list Z :=
  rev ((fix trim (data : list Z) : list Z :=
    match data with
    | byte :: rest => if (byte =? 10) || is_blank byte then trim rest else data
    | [] => []
    end) (rev data)).
Definition trim_ascii (data : list Z) : list Z := trim_trailing_ascii_whitespace (trim_leading data).

(** [position(|byte| byte == separator)]: the parts before and after it. *)
Fixpoint split_at (separator : Z) (data : list Z) : option (list Z * list Z) :=
  match data with
  | [] => None
  | byte :: rest =>
      if byte =? separator then Some ([], rest)
      else '(before, after) ← split_at separator rest; Some (byte :: before, after)
  end.

(** [data.split(|byte| byte == b'\n')]; every round but the last drops a byte. *)
Fixpoint split_lines (fuel : nat) (data : list Z) : list (list Z) :=
  match fuel with
  | O => [data]
  | S fuel =>
      match split_at 10 data with
      | None => [data]
      | Some (line, rest) => line :: split_lines fuel rest
      end
  end.

Definition starts_with (prefix data : list Z) : bool := list_Z_eqb (take (length prefix) data) prefix.

Definition HD45_PREFIX : list Z := str "multi_hd45(".
Definition HD44_PREFIX : list Z := str "multi_hd(".
Definition STATIC_PREFIX : list Z := str "multi(".

Definition is_descriptor_line (line : list Z) : bool :=
  starts_with HD45_PREFIX line || starts_with HD44_PREFIX line || starts_with STATIC_PREFIX line.

Definition descriptor_line (data : list Z) : list Z :=
  match list_find (fun line => is_descriptor_line line = true) (map trim_ascii (split_lines (length data) data)) with
  | Some (_, line) => line
  | None => data
  end.

Definition descriptor_body (data : list Z) : result (MultisigDescriptorKind * list Z) MultisigDescriptorError :=
  let? (kind, prefix) :=
    if starts_with HD45_PREFIX data then Ok (Hd45, HD45_PREFIX)
    else if starts_with HD44_PREFIX data then Ok (Hd44, HD44_PREFIX)
    else if starts_with STATIC_PREFIX data then Ok (Static, STATIC_PREFIX)
    else Err UnsupportedFormat in
  if negb (default 0 (last data) =? 41) then Err UnsupportedFormat
  else Ok (kind, range data (blen prefix) (blen data - 1)).

(** The digit loop on a saturating [u16]. *)
Definition threshold_value (digits : list Z) : Z :=
  foldl (fun threshold digit => Z.min u16_max (Z.min u16_max (threshold * 10) + (digit - 48))) 0 digits.

Definition split_threshold (inner : list Z) : result (Z * list Z) MultisigDescriptorError :=
  let? (before, after) := ok_or (split_at 44 inner) TooFewParticipants in
  let digits := trim_ascii before in
  if bool_decide (digits = []) || (3 <? blen digits) || negb (forallb Decimal.is_ascii_digit digits)
  then Err InvalidThreshold
  else
    let threshold := threshold_value digits in
    if u8_max <? threshold then Err InvalidThreshold else Ok (threshold, after).

Definition next_part (remaining : list Z) : list Z * list Z :=
  match split_at 44 remaining with
  | Some (part, rest) => (trim_ascii part, rest)
  | None => (trim_ascii remaining, [])
  end.

Section slots.
Context (N : Z).

Definition checked_slot (parsed : ParsedMultisigDescriptor) : result Z MultisigDescriptorError :=
  if N <=? participant_count parsed then Err TooManyParticipants else Ok (participant_count parsed).

(** [output.len()] bytes of hexadecimal digits of either case. *)
Definition decode_hex_bytes (hex : list Z) (length : Z) : result (list Z) MultisigDescriptorError :=
  if negb (blen hex =? length * 2) then Err InvalidParticipantLength
  else match decode_hex hex (zeros length) with (Some _, output) => Ok output | (None, _) => Err InvalidHex end.

Definition put_static (index : Z) (key : list Z) (p : ParsedMultisigDescriptor) : ParsedMultisigDescriptor := {|
  threshold := threshold p; participant_count := participant_count p + 1; kind := kind p;
  static_public_keys := <[Z.to_nat index := key]> (static_public_keys p); participants := participants p |}.
Definition put_participant (index : Z) (parts : KpubParts) (p : ParsedMultisigDescriptor) : ParsedMultisigDescriptor := {|
  threshold := threshold p; participant_count := participant_count p + 1; kind := kind p;
  static_public_keys := static_public_keys p; participants := <[Z.to_nat index := parts]> (participants p) |}.

(** One round of a loop: the part of one participant, and its slot. *)
Definition static_participant (part : list Z) : result (list Z) MultisigDescriptorError :=
  if negb (blen part =? STATIC_KEY_HEX_LEN) then Err InvalidParticipantLength else decode_hex_bytes part 32.

Definition hd44_participant (part : list Z) : result KpubParts MultisigDescriptorError :=
  if negb (blen part =? HD44_PARTICIPANT_HEX_LEN) then Err InvalidParticipantLength
  else
    let? public_key := decode_hex_bytes (take 66 part) 33 in
    if negb (is_key_prefix (default 0 (get_at public_key 0))) then Err InvalidCompressedPublicKey
    else
      let? chain_code := decode_hex_bytes (drop 66 part) 32 in
      Ok {| kp_depth := 0; kp_parent_fp := zeros 4; kp_child_num := zeros 4; kp_chain_code := chain_code;
            kp_pubkey := public_key |}.

Definition hd45_participant (part : list Z) : result KpubParts MultisigDescriptorError :=
  if negb (blen part =? HD45_KPUB_LEN) then Err InvalidParticipantLength
  else
    match decode_account_key_text part (zeros ACCOUNT_KEY_PAYLOAD_LEN) with
    | (None, _) => Err InvalidKpub
    | (Some _, payload) =>
        if negb (default 0 (get_at payload 4) =? 3) then Err InvalidKpubDepth
        else Ok {|
          kp_depth := default 0 (get_at payload 4);
          kp_parent_fp := range payload 5 9;
          kp_child_num := range payload 9 13;
          kp_chain_code := range payload 13 45;
          kp_pubkey := range payload 45 78 |}
    end.

(** The three loops; each round drops at least one byte of what remains. *)
Fixpoint static_loop (fuel : nat) (remaining : list Z) (parsed : ParsedMultisigDescriptor)
  : result ParsedMultisigDescriptor MultisigDescriptorError :=
  match fuel, remaining with
  | _, [] | O, _ => Ok parsed
  | S fuel, _ =>
      let? index := checked_slot parsed in
      let '(part, tail) := next_part remaining in
      let? key := static_participant part in
      static_loop fuel tail (put_static index key parsed)
  end.

Fixpoint hd44_loop (fuel : nat) (remaining : list Z) (parsed : ParsedMultisigDescriptor)
  : result ParsedMultisigDescriptor MultisigDescriptorError :=
  match fuel, remaining with
  | _, [] | O, _ => Ok parsed
  | S fuel, _ =>
      let? index := checked_slot parsed in
      let '(part, tail) := next_part remaining in
      let? parts := hd44_participant part in
      hd44_loop fuel tail (put_participant index parts parsed)
  end.

(** This loop also keeps the text of every participant. *)
Fixpoint hd45_loop (fuel : nat) (remaining : list Z) (encoded : list (list Z)) (parsed : ParsedMultisigDescriptor)
  : result (list (list Z) * ParsedMultisigDescriptor) MultisigDescriptorError :=
  match fuel, remaining with
  | _, [] | O, _ => Ok (encoded, parsed)
  | S fuel, _ =>
      let? index := checked_slot parsed in
      let '(part, tail) := next_part remaining in
      let? parts := hd45_participant part in
      hd45_loop fuel tail (<[Z.to_nat index := part]> encoded) (put_participant index parts parsed)
  end.

(** [(left + 1..count).any(...)] for every [left] below [count]. *)
Definition has_duplicate {A} `{EqDecision A} (slots : list A) (count : Z) : bool :=
  negb (bool_decide (NoDup (take (Z.to_nat count) slots))).
Definition reject_duplicate_static (parsed : ParsedMultisigDescriptor) : result unit MultisigDescriptorError :=
  if has_duplicate (static_public_keys parsed) (participant_count parsed) then Err DuplicateParticipant else Ok tt.
Definition reject_duplicate_hd (parsed : ParsedMultisigDescriptor) : result unit MultisigDescriptorError :=
  if has_duplicate (map (fun p => (kp_pubkey p, kp_chain_code p)) (participants parsed)) (participant_count parsed)
  then Err DuplicateParticipant else Ok tt.

(** Neighbours of a sorted array. *)
Definition reject_duplicate_encoded (encoded : list (list Z)) (count : Z) : result unit MultisigDescriptorError :=
  if existsb (fun index => bool_decide (encoded !! Z.to_nat (index - 1) = encoded !! Z.to_nat index)) (seqZ 1 (count - 1))
  then Err DuplicateParticipant else Ok tt.

(** The participants and their texts, sorted together by text. *)
Definition sort_hd45_by_encoded (encoded : list (list Z)) (parsed : ParsedMultisigDescriptor)
  : list (list Z) * ParsedMultisigDescriptor :=
  let sorted := sort_slots fst (Z.to_nat (participant_count parsed)) (zip encoded (participants parsed)) in
  (map fst sorted,
   {| threshold := threshold parsed; participant_count := participant_count parsed; kind := kind parsed;
      static_public_keys := static_public_keys parsed; participants := map snd sorted |}).

Definition parse_static_participants (remaining : list Z) (parsed : ParsedMultisigDescriptor)
  : result ParsedMultisigDescriptor MultisigDescriptorError :=
  let? parsed := static_loop (length remaining) remaining parsed in
  let? _ := reject_duplicate_static parsed in Ok parsed.

Definition parse_hd44_participants (remaining : list Z) (parsed : ParsedMultisigDescriptor)
  : result ParsedMultisigDescriptor MultisigDescriptorError :=
  let? parsed := hd44_loop (length remaining) remaining parsed in
  let? _ := reject_duplicate_hd parsed in Ok parsed.

Definition parse_hd45_participants (remaining : list Z) (parsed : ParsedMultisigDescriptor)
  : result ParsedMultisigDescriptor MultisigDescriptorError :=
  let? (encoded, parsed) := hd45_loop (length remaining) remaining (replicate (Z.to_nat N) (zeros HD45_KPUB_LEN)) parsed in
  let '(encoded, parsed) := sort_hd45_by_encoded encoded parsed in
  let? _ := reject_duplicate_encoded encoded (participant_count parsed) in Ok parsed.

Definition parse_descriptor_participants (kind : MultisigDescriptorKind) (participants : list Z)
  (parsed : ParsedMultisigDescriptor) : result ParsedMultisigDescriptor MultisigDescriptorError :=
  match kind with
  | Static => parse_static_participants participants parsed
  | Hd44 => parse_hd44_participants participants parsed
  | Hd45 => parse_hd45_participants participants parsed
  end.

Definition validate_descriptor_threshold (parsed : ParsedMultisigDescriptor) : result unit MultisigDescriptorError :=
  if participant_count parsed <? 2 then Err TooFewParticipants
  else if (threshold parsed =? 0) || (participant_count parsed <? threshold parsed) then Err InvalidThreshold
  else Ok tt.

Definition parse_multisig_descriptor (data : list Z) : result ParsedMultisigDescriptor MultisigDescriptorError :=
  let data := descriptor_line (trim_trailing_ascii_whitespace data) in
  let? (kind, inner) := descriptor_body data in
  let? (threshold, text) := split_threshold inner in
  let parsed := {|
    threshold := threshold; participant_count := 0; kind := kind;
    static_public_keys := replicate (Z.to_nat N) (zeros 32);
    participants := replicate (Z.to_nat N) empty_parts |} in
  let? parsed := parse_descriptor_participants kind text parsed in
  let? _ := validate_descriptor_threshold parsed in
  Ok parsed.
End slots.
End Grammar.

(** ** [descriptor.rs] *)

(** [MAX_MULTISIG_KEYS] of the wallet: what one script can name. *)
Definition MAX_WALLET_KEYS : Z := Multisig.MAX_SCRIPT_KEYS.

Record Hd45AccountKey := { ak_public_key : list Z; ak_chain_code : list Z; ak_parent_fingerprint : list Z }.

Inductive MultisigDescriptor :=
  | StaticDescriptor (threshold : Z) (public_keys : list (list Z))
  | HierarchicalDeterministic44 (threshold : Z) (account_keys : list (list Z * list Z))
  | HierarchicalDeterministic45 (threshold : Z) (account_keys : list Hd45AccountKey).

Inductive DescriptorError :=
  | GrammarFailure (error : Grammar.MultisigDescriptorError)
  | InvalidCompressedPubkey
  | Derivation (error : WalletError)
  | ChainOutOfRange
  | InvalidMultisig
  | AddressFailed (error : AddressError)
  | AddressNotFound.

Section descriptor.
Context (blake2b_256 : list Z -> list Z) (mac : list Z -> list Z -> list Z) `{Curve}.

(** [PublicKey::from_sec1_bytes(..)?] *)
Definition check_pubkey (public_key : list Z) : result unit DescriptorError :=
  let? _ := ok_or (public_key_from_sec1 public_key) InvalidCompressedPubkey in Ok tt.

Definition from_canonical (parsed : Grammar.ParsedMultisigDescriptor) : result MultisigDescriptor DescriptorError :=
  let count := Z.to_nat (Grammar.participant_count parsed) in
  match Grammar.kind parsed with
  | Grammar.Static => Ok (StaticDescriptor (Grammar.threshold parsed) (take count (Grammar.static_public_keys parsed)))
  | Grammar.Hd44 =>
      let? account_keys := try_map (fun p =>
        let? _ := check_pubkey (kp_pubkey p) in Ok (kp_pubkey p, kp_chain_code p))
        (take count (Grammar.participants parsed)) in
      Ok (HierarchicalDeterministic44 (Grammar.threshold parsed) account_keys)
  | Grammar.Hd45 =>
      let? account_keys := try_map (fun p =>
        let? _ := check_pubkey (kp_pubkey p) in
        Ok {| ak_public_key := kp_pubkey p; ak_chain_code := kp_chain_code p; ak_parent_fingerprint := kp_parent_fp p |})
        (take count (Grammar.participants parsed)) in
      Ok (HierarchicalDeterministic45 (Grammar.threshold parsed) account_keys)
  end.

Definition parse (value : list Z) : result MultisigDescriptor DescriptorError :=
  let? parsed := rmap_err GrammarFailure (Grammar.parse_multisig_descriptor MAX_WALLET_KEYS value) in
  from_canonical parsed.

Definition is_hd (d : MultisigDescriptor) : bool := match d with StaticDescriptor _ _ => false | _ => true end.
Definition is_hd45 (d : MultisigDescriptor) : bool :=
  match d with HierarchicalDeterministic45 _ _ => true | _ => false end.
Definition participant_count (d : MultisigDescriptor) : Z :=
  match d with
  | StaticDescriptor _ public_keys => blen public_keys
  | HierarchicalDeterministic44 _ account_keys => blen account_keys
  | HierarchicalDeterministic45 _ account_keys => blen account_keys
  end.
Definition threshold (d : MultisigDescriptor) : Z :=
  match d with
  | StaticDescriptor threshold _ | HierarchicalDeterministic44 threshold _ | HierarchicalDeterministic45 threshold _ =>
      threshold
  end.

Definition parent (public_key chain_code : list Z) : result ExtPubKey DescriptorError :=
  let? key := ok_or (public_key_from_sec1 public_key) InvalidCompressedPubkey in
  Ok {| epk_key := key; epk_chain_code := chain_code; epk_depth := 3 |}.

Definition child (k : ExtPubKey) (index : Z) : result ExtPubKey DescriptorError :=
  rmap_err Derivation (epk_derive_child mac k index).

(** The slice of a 33-byte encoding always has the length of an x-coordinate. *)
Definition xonly (key : point) : list Z := drop 1 (encode_point key).

Definition derive_44 (public_key chain_code : list Z) (address_index : Z) : result (list Z) DescriptorError :=
  let? account := parent public_key chain_code in
  let? chain_key := child account 0 in
  let? key := child chain_key address_index in
  Ok (xonly (epk_key key)).

Definition derived_45_compressed (entry : Hd45AccountKey) (cosigner chain address_index : Z)
  : result (list Z) DescriptorError :=
  let? account := parent (ak_public_key entry) (ak_chain_code entry) in
  let? family := child account cosigner in
  let? chain_key := child family chain in
  let? key := child chain_key address_index in
  Ok (encode_point (epk_key key)).

Definition derive_45 (entry : Hd45AccountKey) (cosigner chain address_index : Z) : result (list Z) DescriptorError :=
  let? compressed := derived_45_compressed entry cosigner chain address_index in Ok (range compressed 1 33).

Definition public_keys_at (d : MultisigDescriptor) (address_index cosigner chain : Z)
  : result (list (list Z)) DescriptorError :=
  match d with
  | StaticDescriptor _ public_keys => Ok (sort_by cmp_text public_keys)
  | HierarchicalDeterministic44 _ account_keys =>
      let? keys := try_map (fun '(pk, cc) => derive_44 pk cc address_index) account_keys in
      Ok (sort_by cmp_text keys)
  | HierarchicalDeterministic45 _ account_keys =>
      if 1 <? chain then Err ChainOutOfRange
      else try_map (fun entry => derive_45 entry cosigner chain address_index) account_keys
  end.

(** ** [redeem_script.rs] *)

Definition build_redeem_script (threshold : Z) (public_keys : list (list Z)) : result (list Z) DescriptorError :=
  let script := zeros (Multisig.encoded_len (Z.min (blen public_keys) Multisig.MAX_SCRIPT_KEYS)) in
  match Multisig.encode threshold public_keys script with
  | (Some _, script) => Ok script
  | (None, _) => Err InvalidMultisig
  end.

(** ** [address_index.rs] *)

Definition MAX_DISCOVERY_INDEX : Z := 100.

Record ResolvedMultisigPath := { rp_index : Z; rp_cosigner : Z; rp_chain : Z }.

Definition address_at (d : MultisigDescriptor) (prefix : list Z) (cosigner chain index : Z)
  : result (list Z) DescriptorError :=
  let? public_keys := public_keys_at d index cosigner chain in
  let? script := build_redeem_script (threshold d) public_keys in
  Ok (encode_p2sh_address (blake2b_256 script) prefix).

(** A search that stops at the first hit or error. *)
Fixpoint find_first {A B E} (f : A -> result (option B) E) (l : list A) : result (option B) E :=
  match l with
  | [] => Ok None
  | x :: l => let? found := f x in match found with Some b => Ok (Some b) | None => find_first f l end
  end.

Definition scan_family (d : MultisigDescriptor) (source_address prefix : list Z) (cosigner chain : Z)
  : result (option ResolvedMultisigPath) DescriptorError :=
  find_first (fun index =>
    let? address := address_at d prefix cosigner chain index in
    Ok (if list_Z_eqb address source_address
        then Some {| rp_index := index; rp_cosigner := cosigner; rp_chain := chain |} else None))
    (seqZ 0 MAX_DISCOVERY_INDEX).

Definition scan_shape (d : MultisigDescriptor) : Z * Z := if is_hd45 d then (participant_count d, 2) else (1, 1).

Definition scan_hierarchical_path (d : MultisigDescriptor) (source_address : list Z)
  : result ResolvedMultisigPath DescriptorError :=
  let? prefix := rmap_err AddressFailed (address_prefix source_address) in
  let '(cosigners, chains) := scan_shape d in
  let? found := find_first (fun chain =>
    find_first (fun cosigner => scan_family d source_address prefix cosigner chain) (seqZ 0 cosigners))
    (seqZ 0 chains) in
  ok_or found AddressNotFound.

Definition resolve_address_path (d : MultisigDescriptor) (source_address : list Z) (requested_index : Z)
  : result ResolvedMultisigPath DescriptorError :=
  if negb (is_hd d) then Ok {| rp_index := requested_index; rp_cosigner := 0; rp_chain := 0 |}
  else scan_hierarchical_path d source_address.
End descriptor.
