(* ===== verification/MultisigWallet.v ===== *)
(** * The device's multisig wallets

    [src/src/transaction/model]: the configuration of a multisig wallet with
    its redeem script, address and descriptor ([multisig.rs]), the child keys
    ([multisig/derivation.rs]), the shape checks ([multisig_validation.rs]) and
    the check of change outputs ([multisig_change.rs]). The five parallel
    arrays of the cosigners are one list of rows. *)

From S2P Require Import Prelude NetworkId Bytes Script Address Selection Slots TxModel Hd Keys WalletKeys Descriptor.
Import Hex Bip32.

Definition MAX_MULTISIG_WALLETS : Z := 2.

Record MultisigConfig := {
  m : Z;
  n : Z;
  cosigners : list KpubParts;
  addr_index : Z;
  v45 : bool;
  cosigner_index : Z;
  chain : Z;
  script : list Z;
  script_len : Z;
  active : bool;
}.

Definition new_config : MultisigConfig := {|
  m := 0; n := 0; cosigners := replicate (Z.to_nat MAX_MULTISIG_KEYS) Grammar.empty_parts; addr_index := 0; v45 := false;
  cosigner_index := 0; chain := 0; script := zeros MAX_SCRIPT_SIZE; script_len := 0; active := false |}.

Definition set_cosigners (rows : list KpubParts) (c : MultisigConfig) : MultisigConfig := {|
  m := m c; n := n c; cosigners := rows; addr_index := addr_index c; v45 := v45 c; cosigner_index := cosigner_index c;
  chain := chain c; script := script c; script_len := script_len c; active := active c |}.
Definition set_script (bytes : list Z) (len : Z) (c : MultisigConfig) : MultisigConfig := {|
  m := m c; n := n c; cosigners := cosigners c; addr_index := addr_index c; v45 := v45 c;
  cosigner_index := cosigner_index c; chain := chain c; script := bytes; script_len := len; active := active c |}.
Definition set_cosigner_index (index : Z) (c : MultisigConfig) : MultisigConfig := {|
  m := m c; n := n c; cosigners := cosigners c; addr_index := addr_index c; v45 := v45 c; cosigner_index := index;
  chain := chain c; script := script c; script_len := script_len c; active := active c |}.

(** ** [multisig_validation.rs] *)

Definition valid_config (m n : Z) : bool := negb (m =? 0) && negb (n =? 0) && (m <=? n) && (n <=? MAX_MULTISIG_KEYS).

(** A row out of range would panic. *)
Definition cosigner_parts (c : MultisigConfig) (index : Z) : KpubParts :=
  default Grammar.empty_parts (get_at (cosigners c) index).

Definition contains_cosigner (c : MultisigConfig) (parts : KpubParts) (except : option Z) : bool :=
  existsb (fun i => negb (bool_decide (Some i = except)) && bool_decide (cosigner_parts c i = parts))
    (seqZ 0 MAX_MULTISIG_KEYS).

Definition slot_empty (c : MultisigConfig) (index : Z) : bool :=
  if MAX_MULTISIG_KEYS <=? index then false else list_Z_eqb (kp_pubkey (cosigner_parts c index)) (zeros 33).

(** ** [multisig/derivation.rs] *)

Definition serialized_parts (parts : KpubParts) : list Z :=
  [kp_depth parts] ++ kp_parent_fp parts ++ kp_child_num parts ++ kp_chain_code parts ++ kp_pubkey parts.

(** [push_byte]: the position advances past the end of the buffer. *)
Definition push_byte (state : list Z * Z) (byte : Z) : list Z * Z :=
  let '(buf, pos) := state in
  (if pos <? blen buf then <[Z.to_nat pos := byte]> buf else buf, Z.min usize_max (pos + 1)).

Definition sort_xonly_children (children : list (list Z)) (count : Z) : list (list Z) :=
  sort_slots (fun child => child) (Z.to_nat count) children.

Definition encode_redeem (m n : Z) (children : list (list Z)) (out : list Z) : option Z * list Z :=
  if negb (valid_config m n) then (None, out)
  else match slice children 0 n with
       | None => (None, out)
       | Some keys => Multisig.encode m keys out
       end.

Definition write_multisig_script (c : MultisigConfig) (children : list (list Z)) : Z * MultisigConfig :=
  match encode_redeem (m c) (n c) children (script c) with
  | (None, out) => (0, set_script out (script_len c) c)
  | (Some length, out) => (length, set_script out length c)
  end.

Section keys.
Context (sha512 script_hash : list Z -> list Z) `{Curve}.

Definition derive_child_xonly (v45 : bool) (parts : KpubParts) (cosigner chain index : Z) : option (list Z) :=
  let parent := {| pubkey := kp_pubkey parts; pub_chain_code := kp_chain_code parts; pub_depth := Z.max 3 (kp_depth parts) |} in
  let derive parent index := match derive_child_pub sha512 parent index with Ok child => Some child | Err _ => None end in
  family ← (if v45 then derive parent cosigner else Some parent);
  chain_key ← derive family chain;
  address ← derive chain_key index;
  Some (x_only address).

(** The first [n] of the five child keys; the others stay zero. *)
Definition derive_children_at (c : MultisigConfig) (cosigner chain index : Z) : option (list (list Z)) :=
  children ← mapM (fun parts => derive_child_xonly (v45 c) parts cosigner chain index) (take (Z.to_nat (n c)) (cosigners c));
  Some (children ++ replicate (Z.to_nat MAX_MULTISIG_KEYS - length children) (zeros 32)).

Definition derive_multisig_children (c : MultisigConfig) : option (list (list Z)) :=
  let cosigner := if v45 c then cosigner_index c else 0 in
  let chain := if v45 c then chain c else 0 in
  derive_children_at c cosigner chain (addr_index c).

(** ** [multisig.rs] *)

(** Whether the entry is stored, and the configuration afterwards. *)
Definition set_cosigner (c : MultisigConfig) (index : Z) (parts : KpubParts) : bool * MultisigConfig :=
  if (MAX_MULTISIG_KEYS <=? index) || contains_cosigner c parts (Some index) then (false, c)
  else (true, set_cosigners (<[Z.to_nat index := parts]> (cosigners c)) c).

Definition build_script (c : MultisigConfig) : Z * MultisigConfig :=
  if negb (valid_config (m c) (n c)) then (0, c)
  else
    match derive_multisig_children c with
    | None => (0, c)
    | Some children => write_multisig_script c (if v45 c then children else sort_xonly_children children (n c))
    end.

Definition matches_at (c : MultisigConfig) (hint : Ms45Hint) (hash : list Z) : bool :=
  if negb (v45 c) || negb (h_present hint) || (1 <? h_chain hint) || (0x80000000 <=? h_cosigner hint)
     || (0x80000000 <=? h_index hint) || negb (valid_config (m c) (n c))
  then false
  else
    match derive_children_at c (h_cosigner hint) (h_chain hint) (h_index hint) with
    | None => false
    | Some children =>
        match encode_redeem (m c) (n c) children (zeros MAX_SCRIPT_SIZE) with
        | (None, _) => false
        | (Some length, redeem) => list_Z_eqb (script_hash (take (Z.to_nat length) redeem)) hash
        end
    end.

Definition sort_cosigners (c : MultisigConfig) : MultisigConfig :=
  if negb (v45 c) then c else set_cosigners (sort_slots serialized_parts (Z.to_nat (n c)) (cosigners c)) c.

Definition same_wallet_as (c other : MultisigConfig) : bool :=
  Bool.eqb (v45 c) (v45 other) && (m c =? m other) && (n c =? n other)
  && bool_decide (map kp_pubkey (cosigners c) = map kp_pubkey (cosigners other))
  && bool_decide (map kp_chain_code (cosigners c) = map kp_chain_code (cosigners other)).

Definition resolve_cosigner_index (c : MultisigConfig) (own : KpubParts) : bool * MultisigConfig :=
  if negb (v45 c) then (true, set_cosigner_index 0 c)
  else
    match list_find (fun index => serialized_parts (cosigner_parts c index) = serialized_parts own) (seqZ 0 (n c)) with
    | Some (_, index) => (true, set_cosigner_index index c)
    | None => (false, c)
    end.

Definition address (c : MultisigConfig) (network : KaspaNetwork.KaspaNetwork) (out : list Z) : Z * list Z :=
  match slice (script c) 0 (script_len c) with
  | Some (byte :: bytes) => encode_address_for_network (script_hash (byte :: bytes)) P2sh network out
  | _ => (0, out)
  end.

(** [b'0' + digit] wraps in a release build. *)
Definition digit_char (digit : Z) : Z := (48 + digit) mod 256.

Definition label (c : MultisigConfig) (buf : list Z) : Z * list Z :=
  let text := [digit_char (m c)] ++ str "-of-" ++ [digit_char (n c)]
    ++ (if v45 c then str " 45' S" ++ [digit_char (cosigner_index c)] ++ str "/C" ++ [digit_char (chain c)] else []) in
  let '(buf, pos) := foldl push_byte (buf, 0) text in
  (Z.min pos (blen buf), buf).

Definition from_descriptor (parsed : Grammar.ParsedMultisigDescriptor) : MultisigConfig := {|
  m := Grammar.threshold parsed; n := Grammar.participant_count parsed; cosigners := Grammar.participants parsed;
  addr_index := 0; v45 := Grammar.is_hd45 parsed; cosigner_index := 0; chain := 0; script := zeros MAX_SCRIPT_SIZE;
  script_len := 0; active := false |}.

(** The widest key is a 45' account key text, or a legacy key pair in hex. *)
Definition DESCRIPTOR_KEY_MAX_LEN : Z := let legacy := 2 * (33 + 32) in Z.max ACCOUNT_KEY_TEXT_LEN legacy.
Definition DESCRIPTOR_MAX_LEN : Z :=
  blen Grammar.HD45_PREFIX + 1 + MAX_MULTISIG_KEYS * (1 + DESCRIPTOR_KEY_MAX_LEN) + 1.

(** [DescriptorText]: the buffer and the length written. *)
Record DescriptorText := { dt_out : list Z; dt_length : Z }.

(** [push]: the end of the slice must lie inside the buffer. *)
Definition push (t : DescriptorText) (bytes : list Z) : option DescriptorText :=
  end_ ← checked_add (dt_length t) (blen bytes);
  out ← copy_into (dt_out t) (dt_length t) bytes;
  Some {| dt_out := out; dt_length := end_ |}.

Definition hex (t : DescriptorText) (bytes : list Z) : option DescriptorText :=
  doubled ← checked_mul (blen bytes) 2;
  end_ ← checked_add (dt_length t) doubled;
  target ← slice (dt_out t) (dt_length t) end_;
  match encode_lower_hex bytes target with
  | (None, _) => None
  | (Some _, digits) => out ← copy_into (dt_out t) (dt_length t) digits; Some {| dt_out := out; dt_length := end_ |}
  end.

(** One round of the loop over the participants. *)
Definition push_cosigner (v45 : bool) (t : DescriptorText) (parts : KpubParts) : option DescriptorText :=
  t ← push t (str ",");
  if v45 then
    match serialize_kpub_parts parts (zeros ACCOUNT_KEY_TEXT_LEN) with
    | (Err _, _) => None
    | (Ok length, encoded) => push t (take (Z.to_nat length) encoded)
    end
  else t ← hex t (kp_pubkey parts); hex t (kp_chain_code parts).

Definition push_all {A} (f : DescriptorText -> A -> option DescriptorText) (t : DescriptorText) (l : list A)
  : option DescriptorText := foldl (fun t x => t ← t; f t x) (Some t) l.

(** The length written; what a failing call leaves in the buffer is dropped by
    its callers. *)
Definition write_descriptor (c : MultisigConfig) (out : list Z) : option (Z * list Z) :=
  t ← push {| dt_out := out; dt_length := 0 |} (if v45 c then Grammar.HD45_PREFIX else Grammar.HD44_PREFIX);
  t ← push t [digit_char (m c)];
  t ← push_all (push_cosigner (v45 c)) t (map (cosigner_parts c) (seqZ 0 (n c)));
  t ← push t (str ")");
  Some (dt_length t, dt_out t).

Definition find_free (configs : list MultisigConfig) : option Z :=
  (fun found => Z.of_nat (fst found)) <$> list_find (fun c => active c = false) configs.

(** ** [multisig_change.rs] *)

Definition input_script (input : TransactionInput) : list Z := script_bytes (script_public_key (utxo_entry input)).
Definition used_inputs (tx : Transaction) : list TransactionInput := take (Z.to_nat (num_inputs tx)) (tx_inputs tx).

Definition proves (c : MultisigConfig) (input : TransactionInput) : bool :=
  match Standard.p2sh_hash (input_script input) with
  | None => false
  | Some hash => matches_at c (ms45_hint input) hash
  end.

Definition trusted_descriptor (tx : Transaction) (configs : list MultisigConfig) : option MultisigConfig :=
  snd <$> list_find (fun c => active c && v45 c && existsb (proves c) (used_inputs tx) = true) configs.

Definition matches_input_script (tx : Transaction) (candidate : list Z) : bool :=
  existsb (fun input => list_Z_eqb (input_script input) candidate) (used_inputs tx).

(** A claim the trusted descriptor contradicts. *)
Definition forged (tx : Transaction) (trusted : MultisigConfig) (output : TransactionOutput) : bool :=
  let script := script_bytes (out_script_public_key output) in
  h_present (out_ms45_hint output)
  && match Standard.p2sh_hash script with
     | None => false
     | Some hash => negb (matches_input_script tx script) && negb (matches_at trusted (out_ms45_hint output) hash)
     end.

Definition find_forged_change (tx : Transaction) (configs : list MultisigConfig) : option Z :=
  trusted ← trusted_descriptor tx configs;
  snd <$> list_find (fun output_index => forged tx trusted (default empty_output (get_at (tx_outputs tx) output_index)) = true)
            (seqZ 0 (num_outputs tx)).

Definition trusted_multisig_output_chain (tx : Transaction) (configs : list MultisigConfig) (output_index : Z) : option Z :=
  trusted ← trusted_descriptor tx configs;
  output ← get_at (tx_outputs tx) output_index;
  if (num_outputs tx <=? output_index) || negb (h_present (out_ms45_hint output)) then None
  else
    let script := script_bytes (out_script_public_key output) in
    hash ← Standard.p2sh_hash script;
    if matches_input_script tx script || negb (matches_at trusted (out_ms45_hint output) hash) then None
    else if h_chain (out_ms45_hint output) <=? 1 then Some (h_chain (out_ms45_hint output)) else None.
End keys.
