(* ===== verification/MultisigProofs.v ===== *)
(** * Multisig wallets: host and device agree

    The host's descriptor and the device's configuration derive the same child
    keys and build the same redeem script; a change output the device trusts
    is the script of a wallet that already owns one of the inputs; and the
    descriptor a device writes is read back as the wallet it describes. *)

From S2P Require Import Prelude NetworkId Bytes Script Address Selection Slots TxModel Hd HdProofs Keys KeysProofs.
From S2P Require Import WalletKeys Descriptor MultisigWallet.
Import Hex Bip32.

Lemma ok_try_map_mapM {A B E} (f : A -> result B E) (g : A -> option B) l :
  (forall x, x ∈ l -> ok (f x) = g x) -> ok (try_map f l) = mapM g l.
Proof.
  induction l as [|x l IH]; intros Hfg; [done|]. cbn [try_map]. rewrite ok_rbind, Hfg by left. cbn [mapM].
  destruct (g x); [|done]. cbn [mbind option_bind]. rewrite ok_rbind, IH by (intros; apply Hfg; by right).
  by destruct (mapM g l).
Qed.

Lemma ok_rmap_err {A E E'} (f : E -> E') (r : result A E) : ok (rmap_err f r) = ok r.
Proof. by destruct r. Qed.

Section agree.
Context (sha512 : list Z -> list Z) (sha512_size : forall l, bytes_of 64 (sha512 l)).
Context (mac : list Z -> list Z -> list Z) (mac_hmac : forall k m, mac k m = hmac_sha512 sha512 k m) `{CurveLaws}.

(** ** Child keys *)

Lemma parent_agrees pk cc h depth : compressed pk -> parent pk cc = Ok h ->
  agrees h {| pubkey := pk; pub_chain_code := cc; pub_depth := depth |}.
Proof.
  intros Hpk Hp. unfold parent in Hp. apply rbind_Ok_inv in Hp as (p & Hp%ok_or_Ok & [= <-]).
  unfold public_key_from_sec1 in Hp. destruct (decode_point pk) as [q|] eqn:Hdec; [|done]. cbn [mbind option_bind] in Hp.
  destruct (is_identity q) eqn:Hid; [done|]. injection Hp as <-. split; [done|]. split; [|done].
  cbn [pubkey epk_key]. symmetry. by apply encode_decode.
Qed.

(** The host's steps against the device's, from agreeing keys. *)
Lemma child_agrees {A} h d index (f : ExtPubKey -> result A DescriptorError) (g : ExtendedPubKey -> option A) :
  agrees h d -> 0 <= index < 2 ^ 32 -> (forall h' d', agrees h' d' -> ok (f h') = g d') ->
  ok (let? h' := child mac h index in f h')
  = (d' ← (match derive_child_pub sha512 d index with Ok child => Some child | Err _ => None end); g d').
Proof.
  intros Hag Hi Hfg. pose proof (host_device_child sha512 sha512_size mac mac_hmac h d index Hag Hi) as Hboth.
  rewrite ok_rbind. unfold child. rewrite ok_rmap_err.
  destruct (epk_derive_child mac h index), (derive_child_pub sha512 d index); try done. cbn. by apply Hfg.
Qed.

Lemma xonly_agrees h d : agrees h d -> xonly (epk_key h) = x_only d /\ range (encode_point (epk_key h)) 1 33 = x_only d
  /\ blen (x_only d) = 32.
Proof.
  intros (Hid & Hpk & _). destruct (encode_size _ Hid) as [_ Hlen]. unfold xonly, x_only, x_coordinate. rewrite Hpk.
  assert (Hdrop : blen (drop 1 (encode_point (epk_key h))) = 32) by (unfold blen in *; rewrite length_drop; lia).
  split; [done|]. split; [|done]. unfold range. apply take_ge. unfold blen in *. lia.
Qed.

Definition index_ok (index : Z) : Prop := 0 <= index < 2 ^ 32.

(** One participant: the parent key is valid, since the descriptor was read. *)
Lemma derive_45_agrees p cosigner chain index :
  compressed (kp_pubkey p) -> check_pubkey (kp_pubkey p) = Ok tt ->
  index_ok cosigner -> index_ok chain -> index_ok index ->
  ok (derive_45 mac {| ak_public_key := kp_pubkey p; ak_chain_code := kp_chain_code p; ak_parent_fingerprint := kp_parent_fp p |}
        cosigner chain index)
  = derive_child_xonly sha512 true p cosigner chain index.
Proof.
  intros Hpk Hcheck Hco Hch Hix. unfold derive_45, derived_45_compressed, derive_child_xonly. cbn [ak_public_key ak_chain_code].
  destruct (parent (kp_pubkey p) (kp_chain_code p)) as [h|] eqn:Hp.
  2:{ unfold check_pubkey in Hcheck. unfold parent in Hp. by destruct (public_key_from_sec1 (kp_pubkey p)). }
  cbn [rbind]. rewrite ok_rbind.
  transitivity (ok (let? family := child mac h cosigner in let? chain_key := child mac family chain in
                    let? key := child mac chain_key index in Ok (range (encode_point (epk_key key)) 1 33))).
  { rewrite !ok_rbind. destruct (ok (child mac h cosigner)) as [a|]; [|done]. cbn [mbind option_bind]. rewrite !ok_rbind.
    destruct (ok (child mac a chain)) as [b|]; [|done]. cbn [mbind option_bind]. rewrite !ok_rbind.
    by destruct (ok (child mac b index)). }
  apply child_agrees; [by apply parent_agrees|done|]. intros h1 d1 H1. apply child_agrees; [done..|]. intros h2 d2 H2.
  apply child_agrees; [done..|]. intros h3 d3 H3. cbn [ok]. f_equal. apply (xonly_agrees _ _ H3).
Qed.

Lemma derive_44_agrees p index :
  compressed (kp_pubkey p) -> check_pubkey (kp_pubkey p) = Ok tt -> index_ok index ->
  ok (derive_44 mac (kp_pubkey p) (kp_chain_code p) index) = derive_child_xonly sha512 false p 0 0 index.
Proof.
  intros Hpk Hcheck Hix. unfold derive_44, derive_child_xonly. cbn [mbind option_bind].
  destruct (parent (kp_pubkey p) (kp_chain_code p)) as [h|] eqn:Hp.
  2:{ unfold check_pubkey in Hcheck. unfold parent in Hp. by destruct (public_key_from_sec1 (kp_pubkey p)). }
  cbn [rbind]. apply child_agrees; [by apply parent_agrees|done|]. intros h1 d1 H1.
  apply child_agrees; [done..|]. intros h2 d2 H2. cbn [ok]. f_equal. apply (xonly_agrees _ _ H2).
Qed.

Lemma derive_child_size v45 p cosigner chain index key :
  derive_child_xonly sha512 v45 p cosigner chain index = Some key -> blen key = 32.
Proof.
  unfold derive_child_xonly. destruct (if v45 then _ else _) as [family|]; [|done]. cbn [mbind option_bind].
  destruct (derive_child_pub sha512 family chain) as [chain_key|]; [|done]. cbn [mbind option_bind].
  destruct (derive_child_pub sha512 chain_key index) as [address|] eqn:Ha; [|done]. cbn [mbind option_bind]. intros [= <-].
  unfold derive_child_pub in Ha. destruct (negb _); [done|].
  apply rbind_Ok_inv in Ha as ((il & cc) & _ & Ha). apply rbind_Ok_inv in Ha as (pp & _ & Ha).
  apply rbind_Ok_inv in Ha as ([] & _ & Ha). apply rbind_Ok_inv in Ha as (bytes & Henc & [= <-]).
  unfold encode_child_point in Henc. destruct (Z.eqb_spec (blen (encode_point (point_add (generator_times il) pp))) 33) as [Hlen|]; [|done]. injection Henc as <-.
  unfold x_only, x_coordinate. cbn [pubkey]. unfold blen in *. rewrite length_drop. lia.
Qed.

(** ** The redeem script *)

(** A configuration of the wallet the descriptor text names. *)
Definition configured (c : MultisigConfig) (parsed : Grammar.ParsedMultisigDescriptor) : Prop :=
  m c = Grammar.threshold parsed /\ n c = Grammar.participant_count parsed /\ v45 c = Grammar.is_hd45 parsed /\
  take (Z.to_nat (n c)) (cosigners c) = take (Z.to_nat (n c)) (Grammar.participants parsed) /\
  length (cosigners c) = Z.to_nat MAX_MULTISIG_KEYS /\ valid_config (m c) (n c) = true /\ 0 <= m c /\
  blen (script c) = MAX_SCRIPT_SIZE /\ index_ok (addr_index c) /\ index_ok (cosigner_index c) /\ index_ok (chain c).

(** The public keys have the tag 2 or 3: both hierarchical grammars reject any
    other. *)
Definition compressed_rows (parsed : Grammar.ParsedMultisigDescriptor) : Prop :=
  Forall (fun p => compressed (kp_pubkey p)) (take (Z.to_nat (Grammar.participant_count parsed)) (Grammar.participants parsed)).

Definition descriptor_cosigner (c : MultisigConfig) : Z := if v45 c then cosigner_index c else 0.
Definition descriptor_chain (c : MultisigConfig) : Z := if v45 c then chain c else 0.

(** The keys the device derives before it orders them. *)
Definition device_keys (c : MultisigConfig) : option (list (list Z)) :=
  mapM (fun parts => derive_child_xonly sha512 (v45 c) parts (descriptor_cosigner c) (descriptor_chain c) (addr_index c))
    (take (Z.to_nat (n c)) (cosigners c)).

Lemma mapM_sizes c keys : device_keys c = Some keys -> length (cosigners c) = Z.to_nat MAX_MULTISIG_KEYS ->
  valid_config (m c) (n c) = true -> 0 <= m c -> blen keys = n c /\ Forall (fun key => blen key = 32) keys.
Proof.
  intros Hkeys Hslots Hvalid Hm. apply mapM_Some in Hkeys. unfold valid_config in Hvalid.
  split.
  - apply Forall2_length in Hkeys. rewrite length_take, Hslots in Hkeys. unfold MAX_MULTISIG_KEYS, blen in *. lia.
  - clear Hslots Hvalid. induction Hkeys as [|parts key rows keys Hkey _ IH]; [by constructor|].
    constructor; [by eapply derive_child_size|done].
Qed.

Lemma slice_padded (keys pad : list (list Z)) count : blen keys = count -> slice (keys ++ pad) 0 count = Some keys.
Proof. intros <-. apply (slice_split _ [] keys pad); done. Qed.

Lemma sort_children keys pad : keys <> [] ->
  sort_xonly_children (keys ++ pad) (blen keys) = sort_by cmp_text keys ++ pad.
Proof.
  intros Hne. unfold sort_xonly_children, blen. rewrite Nat2Z.id.
  rewrite (sort_by_slots (fun child => child)).
  - by rewrite take_app_length, drop_app_length.
  - destruct keys; [done|cbn; lia].
  - rewrite length_app. lia.
  - done.
Qed.

(** The script of the keys, in either buffer. *)
Definition script_for (threshold : Z) (keys : list (list Z)) : option (list Z) :=
  if bool_decide (1 <= threshold <= blen keys /\ blen keys <= 16) then Some (multisig_script threshold keys) else None.

Lemma build_redeem_script_ok threshold keys : 0 <= threshold -> Forall (fun key => blen key = 32) keys ->
  ok (build_redeem_script threshold keys) = script_for threshold keys.
Proof.
  intros Ht Hk. unfold build_redeem_script, script_for. rewrite encode_spec by done. case_bool_decide as Hv; [|done].
  pose proof (blen_nonneg keys). unfold Multisig.encoded_len, Multisig.KEY_RECORD_LEN, Multisig.MAX_SCRIPT_KEYS.
  rewrite Z.min_l, blen_zeros, Z.leb_refl by lia. cbn [andb ok]. f_equal. rewrite drop_zeros.
  replace (blen keys * 33 + 3 - Z.of_nat (Z.to_nat (blen keys * 33 + 3))) with 0 by lia. apply app_nil_r.
Qed.

Lemma write_script_ok c keys pad :
  blen keys = n c -> Forall (fun key => blen key = 32) keys -> valid_config (m c) (n c) = true -> 0 <= m c ->
  blen (script c) = MAX_SCRIPT_SIZE ->
  let '(len, c') := write_multisig_script c (keys ++ pad) in
  Some (take (Z.to_nat len) (script c')) = script_for (m c) keys /\ 0 < len.
Proof.
  intros Hlen Hk Hvalid Hm Hscript. unfold write_multisig_script, encode_redeem. rewrite Hvalid. cbn [negb].
  rewrite slice_padded by done. rewrite encode_spec by done. unfold script_for.
  unfold valid_config, MAX_MULTISIG_KEYS in Hvalid. rewrite bool_decide_true by lia. pose proof (blen_multisig_script (m c) keys Hk) as Hs.
  rewrite Hscript. unfold MAX_SCRIPT_SIZE, Multisig.encoded_len, Multisig.KEY_RECORD_LEN in *.
  rewrite (proj2 (Z.leb_le _ _)) by lia. cbn [andb set_script script]. split; [|lia]. f_equal. rewrite <- Hs.
  replace (Z.to_nat (blen (multisig_script (m c) keys))) with (length (multisig_script (m c) keys)) by (unfold blen; lia).
  by rewrite take_app_length.
Qed.

(** What the device's [build_script] leaves in the configuration. *)
Definition built_script (c : MultisigConfig) : option (list Z) :=
  let '(len, c') := build_script sha512 c in if 0 <? len then Some (take (Z.to_nat len) (script c')) else None.

Lemma built_script_keys c parsed : configured c parsed ->
  built_script c = (keys ← device_keys c; script_for (m c) (if v45 c then keys else sort_by cmp_text keys)).
Proof.
  intros (_ & _ & _ & _ & Hslots & Hvalid & Hm & Hscript & _). unfold built_script, build_script. rewrite Hvalid. cbn [negb].
  unfold derive_multisig_children, derive_children_at. fold (descriptor_cosigner c) (descriptor_chain c) (device_keys c).
  destruct (device_keys c) as [keys|] eqn:Hkeys; [|done]. cbn [mbind option_bind].
  destruct (mapM_sizes c keys Hkeys Hslots Hvalid Hm) as [Hlen H32]. set (pad := replicate _ _).
  destruct (v45 c).
  - pose proof (write_script_ok c keys pad Hlen H32 Hvalid Hm Hscript) as Hw.
    destruct (write_multisig_script c _) as [len c']. destruct Hw as [<- Hpos]. by rewrite (proj2 (Z.ltb_lt _ _)).
  - rewrite <- Hlen, sort_children by (intros ->; unfold valid_config in Hvalid; change (blen []) with 0 in Hlen; lia).
    assert (Hp : sort_by cmp_text keys ≡ₚ keys) by apply sort_by_Permutation.
    pose proof (write_script_ok c (sort_by cmp_text keys) pad) as Hw.
    destruct (write_multisig_script c _) as [len c']. destruct Hw as [<- Hpos]; try done; [| |by rewrite (proj2 (Z.ltb_lt _ _))].
    + rewrite <- Hlen. unfold blen. by rewrite Hp.
    + by rewrite Hp.
Qed.

(** The keys of the host's descriptor are the device's. *)
Lemma descriptor_keys parsed d c :
  from_canonical parsed = Ok d -> Grammar.kind parsed <> Grammar.Static -> compressed_rows parsed -> configured c parsed ->
  descriptor_chain c <= 1 ->
  ok (public_keys_at mac d (addr_index c) (descriptor_cosigner c) (descriptor_chain c))
  = (keys ← device_keys c; Some (if v45 c then keys else sort_by cmp_text keys)) /\ threshold d = m c.
Proof.
  intros Hd Hkind Hrows (Hm & Hn & Hv & Htake & _ & _ & _ & _ & Hix & Hco & Hch) Hchain.
  assert (Hicosigner : index_ok (descriptor_cosigner c)) by (unfold descriptor_cosigner; by destruct (v45 c)).
  assert (Hichain : index_ok (descriptor_chain c)) by (unfold descriptor_chain; by destruct (v45 c)).
  unfold device_keys. rewrite Htake, Hn. unfold from_canonical in Hd. unfold compressed_rows in Hrows.
  set (rows := take _ (Grammar.participants parsed)) in *. rewrite Forall_forall in Hrows.
  destruct (Grammar.kind parsed) eqn:Hk; [done| |]; apply rbind_Ok_inv in Hd as (account_keys & Hmap & [= <-]).
  - unfold descriptor_cosigner, descriptor_chain. rewrite Hv. unfold Grammar.is_hd45. rewrite Hk. split; [|done].
    cbn [public_keys_at]. rewrite ok_rbind. f_equal.
    revert account_keys Hmap Hrows. clear Htake. induction rows as [|p rows IH]; intros account_keys Hmap Hrows; cbn [try_map] in Hmap.
    + by injection Hmap as <-.
    + apply rbind_Ok_inv in Hmap as (entry & ([] & Hcheck & [= <-])%rbind_Ok_inv & (rest & Hrest & [= <-])%rbind_Ok_inv).
      cbn [try_map mapM]. rewrite ok_rbind, derive_44_agrees by (done || apply Hrows; left).
      destruct (derive_child_xonly _ _ _ _ _ _); [|done]. cbn [mbind option_bind].
      rewrite ok_rbind, (IH rest Hrest) by (intros; apply Hrows; by right). by destruct (mapM _ rows).
  - rewrite Hv. unfold Grammar.is_hd45. rewrite Hk. split; [|done]. cbn [public_keys_at].
    rewrite (proj2 (Z.ltb_ge _ _)) by done. transitivity (mapM (fun parts => derive_child_xonly sha512 true parts
      (descriptor_cosigner c) (descriptor_chain c) (addr_index c)) rows); [|by destruct (mapM _ rows)].
    revert account_keys Hmap Hrows. clear Htake. induction rows as [|p rows IH]; intros account_keys Hmap Hrows; cbn [try_map] in Hmap.
    + by injection Hmap as <-.
    + apply rbind_Ok_inv in Hmap as (entry & ([] & Hcheck & [= <-])%rbind_Ok_inv & (rest & Hrest & [= <-])%rbind_Ok_inv).
      cbn [try_map mapM]. rewrite ok_rbind, derive_45_agrees by (done || apply Hrows; left).
      destruct (derive_child_xonly _ _ _ _ _ _); [|done]. cbn [mbind option_bind].
      rewrite ok_rbind, (IH rest Hrest) by (intros; apply Hrows; by right). by destruct (mapM _ rows).
Qed.

(** A 45' wallet has the chains 0 and 1 only. *)
Lemma public_keys_above parsed d address_index cosigner chain :
  from_canonical parsed = Ok d -> Grammar.is_hd45 parsed = true -> 1 < chain ->
  public_keys_at mac d address_index cosigner chain = Err ChainOutOfRange.
Proof.
  intros Hd Hv Hc. unfold from_canonical, Grammar.is_hd45 in *. destruct (Grammar.kind parsed); [done..|].
  apply rbind_Ok_inv in Hd as (account_keys & _ & [= <-]). cbn [public_keys_at]. by rewrite (proj2 (Z.ltb_lt _ _)).
Qed.

(** C23: the host and the device build the same redeem script: for a hierarchical
    wallet read from a descriptor, the keys the host derives at an address
    family, chain and index give the script the device builds there, and
    either side fails exactly when the other does. The one exception is a chain
    that a 45' wallet does not have: on a chain above 1 the host refuses with
    [ChainOutOfRange], and the device, which does not look at the chain,
    builds a script all the same when the keys derive. *)
Theorem host_device_same_script (parsed : Grammar.ParsedMultisigDescriptor) (d : MultisigDescriptor) (c : MultisigConfig) :
  from_canonical parsed = Ok d -> Grammar.kind parsed <> Grammar.Static -> compressed_rows parsed -> configured c parsed ->
  let host :=
    let? keys := public_keys_at mac d (addr_index c) (descriptor_cosigner c) (descriptor_chain c) in
    build_redeem_script (threshold d) keys in
  if v45 c && (1 <? chain c)
  then host = Err ChainOutOfRange /\ built_script c = (keys ← device_keys c; script_for (m c) keys)
  else ok host = built_script c.
Proof.
  intros Hd Hkind Hrows Hc host. subst host. destruct (v45 c && (1 <? chain c)) eqn:Hchain.
  { apply andb_true_iff in Hchain as [Hv Hgt]. rewrite (built_script_keys c parsed Hc), Hv. split; [|done].
    unfold descriptor_chain. rewrite Hv. rewrite (public_keys_above parsed d _ _ _ Hd); [done| |lia].
    destruct Hc as (_ & _ & Hv' & _). congruence. }
  rewrite (built_script_keys c parsed Hc).
  assert (Hkeys : ok (public_keys_at mac d (addr_index c) (descriptor_cosigner c) (descriptor_chain c))
    = (keys ← device_keys c; Some (if v45 c then keys else sort_by cmp_text keys)) /\ threshold d = m c).
  { apply (descriptor_keys parsed); try done. unfold descriptor_chain. destruct (v45 c); cbn [andb] in Hchain; lia. }
  destruct Hkeys as [Hkeys ->]. rewrite ok_rbind, Hkeys. destruct (device_keys c) as [keys|] eqn:Hdev; [|done].
  cbn [mbind option_bind]. destruct Hc as (_ & _ & _ & _ & Hslots & Hvalid & Hm & _).
  destruct (mapM_sizes c keys Hdev Hslots Hvalid Hm) as [_ H32]. apply build_redeem_script_ok; [done|].
  destruct (v45 c); [done|]. assert (Hp : sort_by cmp_text keys ≡ₚ keys) by apply sort_by_Permutation. by rewrite Hp.
Qed.
End agree.

(** ** Change outputs *)

Section change.
Context (sha512 script_hash : list Z -> list Z) `{Curve}.

Definition config_ok (c : MultisigConfig) : Prop := length (cosigners c) = Z.to_nat MAX_MULTISIG_KEYS /\ 0 <= m c.

(** The keys of the wallet at the position a hint names. *)
Definition family_keys (c : MultisigConfig) (hint : Ms45Hint) : option (list (list Z)) :=
  mapM (fun parts => derive_child_xonly sha512 (v45 c) parts (h_cosigner hint) (h_chain hint) (h_index hint))
    (take (Z.to_nat (n c)) (cosigners c)).

(** The locking script of the wallet at that position. *)
Definition wallet_script (c : MultisigConfig) (hint : Ms45Hint) (script : list Z) : Prop :=
  exists keys, family_keys c hint = Some keys /\ script = Standard.p2sh_script (script_hash (multisig_script (m c) keys)).

Lemma matches_at_spec c hint hash : config_ok c -> matches_at sha512 script_hash c hint hash = true ->
  v45 c = true /\ h_present hint = true /\ h_chain hint <= 1 /\
  exists keys, family_keys c hint = Some keys /\ script_hash (multisig_script (m c) keys) = hash.
Proof.
  intros [Hslots Hm] Hmatch. unfold matches_at in Hmatch. destruct (_ || _) eqn:Hguard; [done|].
  rewrite !orb_false_iff, !negb_false_iff in Hguard.
  destruct Hguard as (((((Hv & Hp) & Hch) & _) & _) & Hvalid). unfold derive_children_at in Hmatch. fold (family_keys c hint) in Hmatch.
  destruct (family_keys c hint) as [keys|] eqn:Hkeys; [|done]. cbn [mbind option_bind] in Hmatch.
  split_and!; [done|done|lia|]. exists keys. split; [done|].
  assert (Hsize : blen keys = n c /\ Forall (fun key => blen key = 32) keys).
  { apply mapM_Some in Hkeys. unfold valid_config, MAX_MULTISIG_KEYS in *. split.
    - apply Forall2_length in Hkeys. rewrite length_take, Hslots in Hkeys. unfold blen in *. lia.
    - clear -Hkeys. induction Hkeys as [|parts key rows keys Hkey _ IH]; [by constructor|].
      constructor; [by eapply derive_child_size|done]. }
  destruct Hsize as [Hlen H32]. unfold encode_redeem in Hmatch. rewrite Hvalid in Hmatch. cbn [negb] in Hmatch.
  rewrite slice_padded, encode_spec in Hmatch by done. destruct (_ && _); [|done]. apply list_Z_eqb_eq in Hmatch.
  rewrite <- Hmatch. f_equal. rewrite <- (blen_multisig_script (m c) keys H32).
  replace (Z.to_nat (blen (multisig_script (m c) keys))) with (length (multisig_script (m c) keys)) by (unfold blen; lia).
  by rewrite take_app_length.
Qed.

Lemma trusted_descriptor_spec tx configs c : trusted_descriptor sha512 script_hash tx configs = Some c ->
  c ∈ configs /\ active c = true /\ v45 c = true /\
  exists input hash, input ∈ used_inputs tx /\ Standard.p2sh_hash (input_script input) = Some hash /\
    matches_at sha512 script_hash c (ms45_hint input) hash = true.
Proof.
  unfold trusted_descriptor. destruct (list_find _ configs) as [[i found]|] eqn:Hf; [|done]. intros [= <-].
  apply list_find_Some in Hf as (Hi & Hp & _). rewrite !andb_true_iff in Hp. destruct Hp as [[Ha Hv] Hex].
  split; [by eapply list_elem_of_lookup_2|]. split; [done|]. split; [done|].
  apply existsb_exists in Hex as (input & Hin & Hproves). unfold proves in Hproves.
  destruct (Standard.p2sh_hash (input_script input)) as [hash|] eqn:Hh; [|done].
  exists input, hash. split; [by apply list_elem_of_In|done].
Qed.

Lemma matches_input_script_false tx script :
  matches_input_script tx script = false <-> forall input, input ∈ used_inputs tx -> input_script input <> script.
Proof.
  unfold matches_input_script. rewrite <- not_true_iff_false, existsb_exists. split.
  - intros Hno input Hin Heq. apply Hno. exists input. split; [by apply list_elem_of_In|by apply list_Z_eqb_eq].
  - intros Hall (input & Hin%list_elem_of_In & Heq%list_Z_eqb_eq). by apply (Hall input).
Qed.

(** C24: a change output the device trusts belongs to a wallet that owns an
    input: its script, and the script of some input, are the redeem scripts of
    one active stored wallet at the positions their hints name, on the chain
    reported, and it is no input's own script. When some stored wallet owns an
    input ([trusted_descriptor] finds one) and no forged change is reported,
    every output that carries a hint, pays to a script hash and is no input's
    own script is trusted on the chain it claims. The stored configurations
    have their five cosigner slots and a threshold that is not negative, as
    their types say. *)
Theorem change_outputs_checked (tx : Transaction) (configs : list MultisigConfig) :
  Forall config_ok configs ->
  (forall i reported, trusted_multisig_output_chain sha512 script_hash tx configs i = Some reported ->
     exists c input output,
       c ∈ configs /\ active c = true /\ v45 c = true /\
       input ∈ used_inputs tx /\ wallet_script c (ms45_hint input) (input_script input) /\
       get_at (tx_outputs tx) i = Some output /\ i < num_outputs tx /\
       wallet_script c (out_ms45_hint output) (script_bytes (out_script_public_key output)) /\
       h_chain (out_ms45_hint output) = reported /\ reported <= 1 /\
       forall input, input ∈ used_inputs tx -> input_script input <> script_bytes (out_script_public_key output)) /\
  (trusted_descriptor sha512 script_hash tx configs <> None ->
   find_forged_change sha512 script_hash tx configs = None ->
   forall i output hash, 0 <= i < num_outputs tx -> get_at (tx_outputs tx) i = Some output ->
     h_present (out_ms45_hint output) = true ->
     Standard.p2sh_hash (script_bytes (out_script_public_key output)) = Some hash ->
     matches_input_script tx (script_bytes (out_script_public_key output)) = false ->
     trusted_multisig_output_chain sha512 script_hash tx configs i = Some (h_chain (out_ms45_hint output))).
Proof.
  intros Hconfigs. rewrite Forall_forall in Hconfigs. split.
  - intros i reported. unfold trusted_multisig_output_chain.
    destruct (trusted_descriptor _ _ tx configs) as [c|] eqn:Ht; [|done]. cbn [mbind option_bind].
    apply trusted_descriptor_spec in Ht as (Hin & Ha & Hv & input & ihash & Hinput & Hih & Himatch).
    destruct (get_at (tx_outputs tx) i) as [output|] eqn:Ho; [|done]. cbn [mbind option_bind].
    destruct (_ || negb (h_present _)) eqn:Hguard; [done|]. rewrite orb_false_iff in Hguard. destruct Hguard as [Hi _].
    destruct (Standard.p2sh_hash (script_bytes (out_script_public_key output))) as [hash|] eqn:Hh; [|done]. cbn [mbind option_bind].
    destruct (matches_input_script tx _ || _) eqn:Hm; [done|]. rewrite orb_false_iff, negb_false_iff in Hm. destruct Hm as [Hown Hmatch].
    destruct (Z.leb_spec (h_chain (out_ms45_hint output)) 1) as [Hch|]; [|done]. intros [= <-].
    assert (Hscript : forall hint script h, Standard.p2sh_hash script = Some h -> matches_at sha512 script_hash c hint h = true ->
      wallet_script c hint script).
    { intros hint script h [-> _]%p2sh_hash_spec Hmt. apply matches_at_spec in Hmt as (_ & _ & _ & keys & Hk & <-); [|by apply Hconfigs].
      by exists keys. }
    exists c, input, output. split_and!; try done; try lia; [by eapply Hscript|by eapply Hscript|].
    by apply matches_input_script_false.
  - intros Ht Hnone i output hash Hi Ho Hp Hh Hown. unfold find_forged_change in Hnone. unfold trusted_multisig_output_chain.
    destruct (trusted_descriptor _ _ tx configs) as [c|] eqn:Htd; [|done]. cbn [mbind option_bind] in *.
    destruct (list_find _ _) as [[]|] eqn:Hf; [done|]. apply list_find_None in Hf. rewrite Forall_forall in Hf.
    specialize (Hf i). cbv beta in Hf. rewrite Ho in Hf |- *. cbn [mbind option_bind default from_option] in Hf |- *. unfold id in Hf.
    rewrite (proj2 (Z.leb_gt _ _)), Hp by lia. cbn [negb orb]. rewrite Hh. cbn [mbind option_bind].
    destruct (matches_at sha512 script_hash c (out_ms45_hint output) hash) eqn:Hm.
    + rewrite Hown. cbn [negb orb]. apply trusted_descriptor_spec in Htd as (Hin & _).
      apply matches_at_spec in Hm as (_ & _ & Hch & _); [|by apply Hconfigs]. by rewrite (proj2 (Z.leb_le _ _)).
    + exfalso. apply Hf; [apply elem_of_seqZ; lia|]. unfold forged. by rewrite Hp, Hh, Hown, Hm.
Qed.
End change.

(** ** A wallet to evaluate on *)

Definition toy_row (k : Z) : KpubParts := {|
  kp_depth := 3; kp_parent_fp := replicate 4 k; kp_child_num := be_bytes 4 0x80000000; kp_chain_code := replicate 32 k;
  kp_pubkey := 2 :: be_bytes 32 k |}.

Definition toy_parsed : Grammar.ParsedMultisigDescriptor := {|
  Grammar.threshold := 1; Grammar.participant_count := 2; Grammar.kind := Grammar.Hd45;
  Grammar.static_public_keys := replicate 5 (zeros 32);
  Grammar.participants := [toy_row 5; toy_row 9] ++ replicate 3 Grammar.empty_parts |}.

Definition toy_config : MultisigConfig := {|
  m := 1; n := 2; cosigners := Grammar.participants toy_parsed; addr_index := 4; v45 := true; cosigner_index := 1;
  chain := 1; script := zeros MAX_SCRIPT_SIZE; script_len := 0; active := true |}.

Definition toy_descriptor : MultisigDescriptor :=
  default (StaticDescriptor 0 []) (ok (from_canonical (H := toy_curve) toy_parsed)).

Lemma toy_from_canonical : from_canonical (H := toy_curve) toy_parsed = Ok toy_descriptor.
Proof. vm_compute. reflexivity. Qed.

(** The same wallet on a chain it does not have. *)
Definition toy_high_chain : MultisigConfig := {|
  m := 1; n := 2; cosigners := Grammar.participants toy_parsed; addr_index := 4; v45 := true; cosigner_index := 1;
  chain := 2; script := zeros MAX_SCRIPT_SIZE; script_len := 0; active := true |}.

Lemma toy_compressed : compressed_rows toy_parsed.
Proof. unfold compressed_rows, compressed. by_decide. Qed.

Example host_device_same_script_witness :
  is_Some (built_script (H := toy_curve) toy_hash512 toy_config) /\
  ok (let? keys := public_keys_at (H := toy_curve) (hmac_sha512 toy_hash512) toy_descriptor 4 1 1 in
      build_redeem_script (threshold toy_descriptor) keys)
  = built_script (H := toy_curve) toy_hash512 toy_config /\
  is_Some (built_script (H := toy_curve) toy_hash512 toy_high_chain) /\
  (let? keys := public_keys_at (H := toy_curve) (hmac_sha512 toy_hash512) toy_descriptor 4 1 2 in
   build_redeem_script (threshold toy_descriptor) keys) = Err ChainOutOfRange.
Proof.
  split; [vm_compute; by eexists|]. split.
  - apply (host_device_same_script (H := toy_curve) toy_hash512 toy_hash512_size (hmac_sha512 toy_hash512)
             (fun k m => eq_refl) (H0 := toy_laws) toy_parsed toy_descriptor toy_config);
      [exact toy_from_canonical|done|exact toy_compressed|].
    unfold configured, index_ok. split_and!; by_decide.
  - split; [vm_compute; by eexists|].
    apply (host_device_same_script (H := toy_curve) toy_hash512 toy_hash512_size (hmac_sha512 toy_hash512)
             (fun k m => eq_refl) (H0 := toy_laws) toy_parsed toy_descriptor toy_high_chain);
      [exact toy_from_canonical|done|exact toy_compressed|].
    unfold configured, index_ok. split_and!; by_decide.
Defined.

Definition toy_hint (chain index : Z) : Ms45Hint := {| h_present := true; h_cosigner := 1; h_chain := chain; h_index := index |}.

Definition toy_spk (hint : Ms45Hint) : ScriptPublicKey :=
  let keys := default [] (family_keys (H := toy_curve) toy_hash512 toy_config hint) in
  let script := Standard.p2sh_script (toy_hash32 (multisig_script 1 keys)) in
  {| spk_version := 0; spk_script := script ++ zeros (MAX_SCRIPT_SIZE - blen script); spk_script_len := blen script |}.

(** Spends the receive address 3 and pays its change to the change address 7. *)
Definition toy_tx : Transaction :=
  let input := {|
    previous_outpoint := previous_outpoint empty_input; sequence := 0; sig_op_count := 1;
    utxo_entry := {| amount := 10; script_public_key := toy_spk (toy_hint 0 3); block_daa_score := 0 |};
    sigs := sigs empty_input; sig_count := 0; sighash_type := 0; redeem_script := redeem_script empty_input;
    redeem_script_len := 0; redeem_in_pool := false; redeem_script_offset := 0;
    incoming_partial_sigs := incoming_partial_sigs empty_input; incoming_partial_sigs_count := 0;
    has_derivation_hint := false; derivation_branch := 0; derivation_index := 0; ms45_hint := toy_hint 0 3;
    covenant_execution_present := false; covenant_execution_mask := 0; covenant_execution_true_mask := 0 |} in
  let output := {|
    value := 9; out_script_public_key := toy_spk (toy_hint 1 7); has_covenant := false; covenant_auth_input := 0;
    covenant_id := zeros 32; out_derivation_branch := 0; out_derivation_index := 0; out_has_derivation_hint := false;
    out_ms45_hint := toy_hint 1 7 |} in
  {| tx_version := 0; tx_inputs := [input]; num_inputs := 1; tx_outputs := [output]; num_outputs := 1;
     tx_network := KaspaNetwork.Unknown; locktime := 0; subnetwork_id := SUBNETWORK_ID_NATIVE; gas := 0; payload := [];
     stealth_tweak := zeros 32; has_stealth_tweak := false; redeem_pool := []; redeem_pool_used := 0; limits := FORMAT |}.

Example change_outputs_checked_witness :
  trusted_multisig_output_chain (H := toy_curve) toy_hash512 toy_hash32 toy_tx [toy_config] 0 = Some 1 /\
  exists c output, c ∈ [toy_config] /\ get_at (tx_outputs toy_tx) 0 = Some output /\
    wallet_script (H := toy_curve) toy_hash512 toy_hash32 c (out_ms45_hint output) (script_bytes (out_script_public_key output)).
Proof.
  assert (Hok : Forall config_ok [toy_config]) by (repeat constructor; by_decide).
  assert (Hrun : trusted_multisig_output_chain (H := toy_curve) toy_hash512 toy_hash32 toy_tx [toy_config] 0 = Some 1)
    by (vm_compute; reflexivity).
  split; [exact Hrun|].
  destruct (proj1 (change_outputs_checked (H := toy_curve) toy_hash512 toy_hash32 toy_tx [toy_config] Hok) 0 1 Hrun)
    as (c & input & output & Hin & _ & _ & _ & _ & Ho & _ & Hw & _).
  exists c, output. exact (conj Hin (conj Ho Hw)).
Defined.
