(* ===== verification/DescriptorProofs.v ===== *)
(** * The device's descriptor is read back

    The text [write_descriptor] writes for a multisig wallet parses, in the
    bounded grammar, to the participants of the wallet in canonical order. *)

From S2P Require Import Prelude Bytes Script Address Selection Slots TxModel Hd HdProofs Keys KeysProofs.
From S2P Require Import WalletKeys Descriptor MultisigWallet.
Import Hex Bip32.

(** ** The writer *)

(** The buffer with some text written. *)
Definition written (size : Z) (text : list Z) : DescriptorText :=
  {| dt_out := text ++ zeros (size - blen text); dt_length := blen text |}.

Lemma push_written size text bytes : size <= usize_max -> blen text + blen bytes <= size ->
  push (written size text) bytes = Some (written size (text ++ bytes)).
Proof.
  intros Hmax Hsize. pose proof (blen_nonneg text). pose proof (blen_nonneg bytes). unfold push, written, checked_add.
  cbn [dt_length dt_out]. rewrite checked_u64_id by (unfold u64_ok, usize_max, u64_max in *; lia). cbn [mbind option_bind].
  rewrite copy_into_written by done. cbn [mbind option_bind]. by rewrite <- blen_app.
Qed.

Lemma hex_written size text bytes : size <= usize_max -> blen text + 2 * blen bytes <= size ->
  hex (written size text) bytes = Some (written size (text ++ hex_text bytes)).
Proof.
  intros Hmax Hsize. pose proof (blen_nonneg text). pose proof (blen_nonneg bytes).
  assert (Hh : blen (hex_text bytes) = 2 * blen bytes) by (unfold blen; rewrite length_hex_text; lia).
  unfold hex, written, checked_mul, checked_add. cbn [dt_length dt_out].
  rewrite checked_u64_id by (unfold u64_ok, usize_max, u64_max in *; lia). cbn [mbind option_bind].
  rewrite checked_u64_id by (unfold u64_ok, usize_max, u64_max in *; lia). cbn [mbind option_bind].
  rewrite (slice_split _ text (zeros (2 * blen bytes)) (zeros (size - blen text - 2 * blen bytes))).
  2:{ f_equal. unfold zeros. rewrite <- replicate_add. f_equal. lia. }
  2:{ done. }
  2:{ rewrite blen_zeros by lia. lia. }
  cbn [mbind option_bind]. rewrite encode_lower_hex_spec by (rewrite ?blen_zeros; lia). rewrite drop_ge, app_nil_r.
  2:{ unfold zeros. rewrite length_replicate. unfold blen. lia. }
  rewrite copy_into_written by lia. cbn [mbind option_bind]. do 2 f_equal. rewrite blen_app. lia.
Qed.

(** ** Participants *)

(** A participant of a 45' wallet: an account key; of a legacy wallet: a key and
    a chain code. *)
Definition account_row (parts : KpubParts) : Prop :=
  kp_depth parts = 3 /\ bytes_of 4 (kp_parent_fp parts) /\ kp_child_num parts = be_bytes 4 ACCOUNT_KEY_CHILD_INDEX /\
  bytes_of 32 (kp_chain_code parts) /\ bytes_of 33 (kp_pubkey parts) /\ is_key_prefix (default 0 (get_at (kp_pubkey parts) 0)) = true.

Definition legacy_row (parts : KpubParts) : Prop :=
  kp_depth parts = 0 /\ kp_parent_fp parts = zeros 4 /\ kp_child_num parts = zeros 4 /\
  bytes_of 32 (kp_chain_code parts) /\ bytes_of 33 (kp_pubkey parts) /\ is_key_prefix (default 0 (get_at (kp_pubkey parts) 0)) = true.

Definition row_ok (v45 : bool) : KpubParts -> Prop := if v45 then account_row else legacy_row.

(** The text of a participant. *)
Definition part_text (v45 : bool) (parts : KpubParts) : list Z :=
  if v45 then ACCOUNT_KEY_TEXT_PREFIX ++ hex_text (parts_payload parts)
  else hex_text (kp_pubkey parts) ++ hex_text (kp_chain_code parts).

Lemma blen_hex_text l : blen (hex_text l) = 2 * blen l.
Proof. unfold blen. rewrite length_hex_text. lia. Qed.

Lemma account_payload parts : account_row parts ->
  bytes_of 78 (parts_payload parts) /\ range (parts_payload parts) 0 4 = ACCOUNT_KEY_VERSION /\
  default 0 (get_at (parts_payload parts) 4) = 3 /\ range (parts_payload parts) 5 9 = kp_parent_fp parts /\
  range (parts_payload parts) 9 13 = kp_child_num parts /\ range (parts_payload parts) 13 45 = kp_chain_code parts /\
  range (parts_payload parts) 45 78 = kp_pubkey parts /\ default 0 (get_at (parts_payload parts) 45) = default 0 (get_at (kp_pubkey parts) 0).
Proof.
  intros (Hd & Hf & Hc & Hcc & Hpk & _). pose proof (be_bytes_of 4 ACCOUNT_KEY_CHILD_INDEX) as Hcn. rewrite <- Hc in Hcn.
  assert (Hb : bytes_of 78 (parts_payload parts)).
  { apply (bytes_of_app 4 74 ACCOUNT_KEY_VERSION); [by_decide|]. rewrite Hd. apply (bytes_of_app 1 73 [3]); [by_decide|].
    apply (bytes_of_app 4 69 _ _ Hf). apply (bytes_of_app 4 65 _ _ Hcn). apply (bytes_of_app 32 33 _ _ Hcc Hpk). }
  split; [done|]. destruct Hf as [_ Hf], Hcn as [_ Hcn], Hcc as [_ Hcc], Hpk as [_ Hpk]. unfold parts_payload.
  set (fp := kp_parent_fp parts) in *. set (cn := kp_child_num parts) in *. set (cc := kp_chain_code parts) in *.
  set (pk := kp_pubkey parts) in *.
  assert (Hver : blen ACCOUNT_KEY_VERSION = 4) by done. assert (Hone : blen [kp_depth parts] = 1) by done.
  split_and!.
  - apply (range_at _ [] _ ([kp_depth parts] ++ fp ++ cn ++ cc ++ pk)); done.
  - rewrite Hd. done.
  - apply (range_at _ (ACCOUNT_KEY_VERSION ++ [kp_depth parts]) _ (cn ++ cc ++ pk)); [app_eq|len|len].
  - apply (range_at _ (ACCOUNT_KEY_VERSION ++ [kp_depth parts] ++ fp) _ (cc ++ pk)); [app_eq|len|len].
  - apply (range_at _ (ACCOUNT_KEY_VERSION ++ [kp_depth parts] ++ fp ++ cn) _ pk); [app_eq|len|len].
  - apply (range_at _ (ACCOUNT_KEY_VERSION ++ [kp_depth parts] ++ fp ++ cn ++ cc) _ []); [rewrite app_nil_r; app_eq|len|len].
  - destruct pk as [|tag pk']; [done|]. rewrite (get_at_split _ (ACCOUNT_KEY_VERSION ++ [kp_depth parts] ++ fp ++ cn ++ cc) pk' tag 45); [done|app_eq|len].
Qed.

Lemma account_row_valid parts : account_row parts -> validate_account_key_payload (parts_payload parts) = true.
Proof.
  intros Hrow. destruct (account_payload parts Hrow) as ((_ & Hlen) & Hv & H4 & _ & H9 & _ & _ & H45).
  destruct Hrow as (_ & _ & Hc & _ & _ & Htag). unfold validate_account_key_payload, account_header.
  rewrite Hlen, Hv, H4, H9, H45, Hc, Htag. done.
Qed.

Lemma account_row_encoded parts : account_row parts ->
  encode_account_key_text (parts_payload parts) (zeros ACCOUNT_KEY_TEXT_LEN) = (Some ACCOUNT_KEY_TEXT_LEN, part_text true parts).
Proof.
  intros Hrow. destruct (account_payload parts Hrow) as ((_ & Hlen) & _). unfold encode_account_key_text.
  rewrite account_row_valid by done. cbn [negb]. change (drop 6 (zeros ACCOUNT_KEY_TEXT_LEN)) with (zeros 156).
  rewrite encode_lower_hex_spec by (rewrite Hlen; by_decide). rewrite Hlen, drop_ge, app_nil_r; [done|].
  unfold zeros, blen in *. rewrite length_replicate. lia.
Qed.

Lemma part_text_length v45 parts : row_ok v45 parts -> blen (part_text v45 parts) = if v45 then 162 else 130.
Proof.
  destruct v45; intros Hrow; unfold part_text; autorewrite with blen; rewrite !blen_hex_text.
  - destruct (account_payload parts Hrow) as ((_ & ->) & _). done.
  - destruct Hrow as (_ & _ & _ & [_ ->] & [_ ->] & _). done.
Qed.

Lemma push_cosigner_written size v45 text parts : size <= usize_max -> row_ok v45 parts ->
  blen text + 1 + blen (part_text v45 parts) <= size ->
  push_cosigner v45 (written size text) parts = Some (written size (text ++ 44 :: part_text v45 parts)).
Proof.
  intros Hmax Hrow Hsize. pose proof (part_text_length v45 parts Hrow) as Hlen. unfold push_cosigner.
  pose proof (blen_nonneg (part_text v45 parts)). rewrite push_written by (done || change (blen (str ",")) with 1; lia). cbn [mbind option_bind].
  change (str ",") with [44]. destruct v45.
  - unfold serialize_kpub_parts, encode_kpub_text. rewrite account_row_encoded by done. cbn [ok_or].
    change ACCOUNT_KEY_TEXT_LEN with 162. rewrite take_ge by (unfold blen in *; lia).
    rewrite push_written by (done || len). f_equal. f_equal. app_eq.
  - unfold part_text in *. rewrite blen_app, !blen_hex_text in Hsize.
    pose proof (blen_nonneg (kp_chain_code parts)). rewrite hex_written by (done || len). cbn [mbind option_bind]. rewrite hex_written by (done || rewrite !blen_app, blen_hex_text; len).
    f_equal. f_equal. app_eq.
Qed.

(** ** The whole text *)

Definition rows (c : MultisigConfig) : list KpubParts := take (Z.to_nat (n c)) (cosigners c).
Definition parts_text (v45 : bool) (l : list KpubParts) : list Z := concat (map (fun parts => 44 :: part_text v45 parts) l).
Definition prefix_of_kind (v45 : bool) : list Z := if v45 then Grammar.HD45_PREFIX else Grammar.HD44_PREFIX.
Definition descriptor_text (c : MultisigConfig) : list Z :=
  prefix_of_kind (v45 c) ++ [48 + m c] ++ parts_text (v45 c) (rows c) ++ [41].

(** A wallet whose descriptor can be written: its participants are distinct
    rows of its kind, and the unused slots are empty. *)
Definition writable (c : MultisigConfig) : Prop :=
  2 <= n c <= MAX_MULTISIG_KEYS /\ 1 <= m c <= n c /\
  cosigners c = rows c ++ replicate (Z.to_nat (MAX_MULTISIG_KEYS - n c)) Grammar.empty_parts /\ blen (rows c) = n c /\
  Forall (row_ok (v45 c)) (rows c) /\ NoDup (rows c).

Lemma cosigner_rows c : writable c -> map (cosigner_parts c) (seqZ 0 (n c)) = rows c.
Proof.
  intros (Hn & _ & Hslots & Hlen & _). apply list_eq. intros i. change (map (cosigner_parts c) (seqZ 0 (n c))) with (cosigner_parts c <$> seqZ 0 (n c)).
  rewrite list_lookup_fmap. destruct (decide (i < length (rows c))%nat) as [Hi|Hi].
  - rewrite (lookup_seqZ_lt 0 (n c) i) by (unfold blen in *; lia). cbn [fmap option_fmap option_map].
    destruct (lookup_lt_is_Some_2 (rows c) i Hi) as [row Hrow]. rewrite Hrow. f_equal. unfold cosigner_parts, get_at.
    rewrite (proj2 (Z.leb_le _ _)) by lia. replace (Z.to_nat (0 + Z.of_nat i)) with i by lia.
    rewrite Hslots, lookup_app_l, Hrow by lia. done.
  - rewrite lookup_seqZ_ge, (lookup_ge_None_2 (rows c)) by (unfold blen in *; lia). done.
Qed.

Lemma blen_parts_text v45 l : Forall (row_ok v45) l -> blen (parts_text v45 l) = (if v45 then 163 else 131) * blen l.
Proof.
  induction 1 as [|parts l Hrow _ IH]; [by destruct v45|]. unfold parts_text in *. cbn [map concat].
  rewrite blen_app, !blen_cons, part_text_length, IH by done. destruct v45; lia.
Qed.

Lemma push_rows_written size v45 text l : size <= usize_max -> Forall (row_ok v45) l ->
  blen text + blen (parts_text v45 l) <= size ->
  push_all (push_cosigner v45) (written size text) l = Some (written size (text ++ parts_text v45 l)).
Proof.
  intros Hmax Hrows. unfold push_all. revert text. induction Hrows as [|parts l Hrow Hl IH]; intros text Hsize; cbn [foldl].
  - by rewrite app_nil_r.
  - unfold parts_text in Hsize. cbn [map concat] in Hsize. fold (parts_text v45 l) in Hsize. rewrite blen_app, blen_cons in Hsize.
    pose proof (blen_nonneg (parts_text v45 l)). cbn [mbind option_bind]. rewrite push_cosigner_written by (done || lia).
    rewrite IH by (rewrite blen_app, blen_cons; lia). f_equal. f_equal. unfold parts_text. cbn [map concat]. app_eq.
Qed.

Lemma descriptor_text_fits c : writable c -> blen (descriptor_text c) <= DESCRIPTOR_MAX_LEN.
Proof.
  intros (Hn & _ & _ & Hlen & Hrows & _). pose proof (blen_parts_text _ _ Hrows) as Hparts. rewrite Hlen in Hparts.
  unfold MAX_MULTISIG_KEYS, descriptor_text in *. rewrite !blen_app. change (blen [41]) with 1. change (blen [48 + m c]) with 1.
  change DESCRIPTOR_MAX_LEN with 828. rewrite Hparts. destruct (v45 c); unfold prefix_of_kind.
  - change (blen Grammar.HD45_PREFIX) with 11. lia.
  - change (blen Grammar.HD44_PREFIX) with 9. lia.
Qed.

(** The device writes the text, whole, in a buffer of the declared size. *)
Lemma write_descriptor_text c : writable c ->
  write_descriptor c (zeros DESCRIPTOR_MAX_LEN)
  = Some (blen (descriptor_text c), descriptor_text c ++ zeros (DESCRIPTOR_MAX_LEN - blen (descriptor_text c))).
Proof.
  intros Hc. pose proof Hc as (Hn & Hm & _ & Hlen & Hrows & _). unfold write_descriptor. rewrite cosigner_rows by done.
  pose proof (blen_parts_text _ _ Hrows) as Hparts. rewrite Hlen in Hparts. unfold MAX_MULTISIG_KEYS in *.
  assert (Hp : blen (prefix_of_kind (v45 c)) <= 11) by (by destruct (v45 c)).
  assert (Hsize : blen (prefix_of_kind (v45 c)) + 1 + blen (parts_text (v45 c) (rows c)) + 1 <= DESCRIPTOR_MAX_LEN).
  { change DESCRIPTOR_MAX_LEN with 828. rewrite Hparts. destruct (v45 c); lia. }
  assert (Hmax : DESCRIPTOR_MAX_LEN <= usize_max) by by_decide. pose proof (blen_nonneg (parts_text (v45 c) (rows c))).
  change {| dt_out := zeros DESCRIPTOR_MAX_LEN; dt_length := 0 |} with (written DESCRIPTOR_MAX_LEN []).
  fold (prefix_of_kind (v45 c)). rewrite push_written by (done || change (blen []) with 0; lia). cbn [mbind option_bind app].
  unfold digit_char. rewrite Z.mod_small by lia. rewrite push_written by (done || change (blen [48 + m c]) with 1; lia). cbn [mbind option_bind].
  rewrite push_rows_written by (done || rewrite blen_app; change (blen [48 + m c]) with 1; lia). cbn [mbind option_bind].
  rewrite push_written by (done || rewrite !blen_app; change (blen [48 + m c]) with 1; change (blen (str ")")) with 1; lia).
  cbn [mbind option_bind dt_length dt_out written]. change (str ")") with [41].
  assert (Htext : ((prefix_of_kind (v45 c) ++ [48 + m c]) ++ parts_text (v45 c) (rows c)) ++ [41] = descriptor_text c)
    by (unfold descriptor_text; app_eq). by rewrite Htext.
Qed.

(** ** Reading the text *)

(** The characters of a participant: none separates or pads. *)
Definition plain (l : list Z) : Prop := Forall (fun b => 48 <= b) l.

Lemma digit_plain k : 0 <= k < 16 -> 48 <= digit k.
Proof. intros Hk. apply (nibble_cases (fun k => 48 <= digit k)); [done|by_decide]. Qed.

Lemma hex_text_plain l : bytes_ok l -> plain (hex_text l).
Proof.
  induction 1 as [|b l Hb Hl IH]; [by constructor|]. unfold hex_text in *. cbn [map concat app].
  destruct (byte_nibbles b Hb) as (H1 & H2 & _). repeat (constructor; [by apply digit_plain|]). done.
Qed.

Lemma part_text_plain v45 parts : row_ok v45 parts -> plain (part_text v45 parts).
Proof.
  destruct v45; intros Hrow; apply Forall_app.
  - split; [repeat constructor; by_decide|]. apply hex_text_plain, (account_payload parts Hrow).
  - destruct Hrow as (_ & _ & _ & [Hc _] & [Hp _] & _). split; by apply hex_text_plain.
Qed.

Lemma split_at_app separator l rest : Forall (fun b => b <> separator) l ->
  Grammar.split_at separator (l ++ separator :: rest) = Some (l, rest).
Proof.
  induction 1 as [|b l Hb _ IH]; cbn [app Grammar.split_at]; [by rewrite Z.eqb_refl|].
  rewrite (proj2 (Z.eqb_neq _ _) Hb), IH. done.
Qed.

Lemma split_at_none separator l : Forall (fun b => b <> separator) l -> Grammar.split_at separator l = None.
Proof.
  induction 1 as [|b l Hb _ IH]; cbn [Grammar.split_at]; [done|]. by rewrite (proj2 (Z.eqb_neq _ _) Hb), IH.
Qed.

Lemma plain_no_separator l separator : plain l -> separator < 48 -> Forall (fun b => b <> separator) l.
Proof. intros Hl Hs. eapply Forall_impl; [exact Hl|]. cbn. lia. Qed.

(** Text that starts and ends with printed characters is not trimmed. *)
Lemma trim_trailing_id l b : 33 <= b -> Grammar.trim_trailing_ascii_whitespace (l ++ [b]) = l ++ [b].
Proof.
  intros Hb. unfold Grammar.trim_trailing_ascii_whitespace. rewrite rev_app_distr. cbn [rev app].
  unfold Grammar.is_blank. decide_tests. cbn [orb]. rewrite <- (rev_involutive l) at 2. done.
Qed.

Lemma trim_ascii_id a l b : 33 <= a -> 33 <= b -> Grammar.trim_ascii (a :: l ++ [b]) = a :: l ++ [b].
Proof.
  intros Ha Hb. unfold Grammar.trim_ascii. cbn [Grammar.trim_leading]. unfold Grammar.is_blank at 1. decide_tests. cbn [orb].
  by apply (trim_trailing_id (a :: l)).
Qed.

Lemma trim_plain l : plain l -> Grammar.trim_ascii l = l.
Proof.
  intros Hl. destruct l as [|a l]; [done|]. apply Forall_cons in Hl as [Ha Hl].
  destruct l as [|b l _] using rev_ind.
  - unfold Grammar.trim_ascii. cbn [Grammar.trim_leading]. unfold Grammar.is_blank at 1. decide_tests. cbn [orb].
    apply (trim_trailing_id []). lia.
  - apply Forall_app in Hl as [_ [Hb _]%Forall_cons]. apply trim_ascii_id; lia.
Qed.

(** The participants after the first comma. *)
Definition joined (v45 : bool) (l : list KpubParts) : list Z :=
  match l with [] => [] | parts :: l => part_text v45 parts ++ parts_text v45 l end.

Lemma parts_text_joined v45 parts l : parts_text v45 (parts :: l) = 44 :: joined v45 (parts :: l).
Proof. done. Qed.

Lemma next_part_joined v45 parts l : Forall (row_ok v45) (parts :: l) ->
  Grammar.next_part (joined v45 (parts :: l)) = (part_text v45 parts, joined v45 l).
Proof.
  intros [Hrow Hl]%Forall_cons. pose proof (part_text_plain v45 parts Hrow) as Hplain. unfold Grammar.next_part. cbn [joined].
  destruct l as [|next l].
  - unfold parts_text. cbn [map concat]. rewrite app_nil_r, split_at_none, trim_plain by (done || by apply plain_no_separator). done.
  - rewrite parts_text_joined, split_at_app, trim_plain by (done || by apply plain_no_separator). done.
Qed.

Lemma joined_nonempty v45 parts l : row_ok v45 parts -> joined v45 (parts :: l) <> [].
Proof.
  intros Hrow Hnil. apply (f_equal blen) in Hnil. cbn [joined] in Hnil. rewrite blen_app, part_text_length in Hnil by done.
  pose proof (blen_nonneg (parts_text v45 l)). change (blen []) with 0 in Hnil. destruct v45; lia.
Qed.

(** *** One participant *)

Lemma kpub_parts_eq (p q : KpubParts) : kp_depth p = kp_depth q -> kp_parent_fp p = kp_parent_fp q ->
  kp_child_num p = kp_child_num q -> kp_chain_code p = kp_chain_code q -> kp_pubkey p = kp_pubkey q -> p = q.
Proof. destruct p, q. cbn. by intros -> -> -> -> ->. Qed.

Lemma hd45_participant_text parts : account_row parts -> Grammar.hd45_participant (part_text true parts) = Ok parts.
Proof.
  intros Hrow. unfold Grammar.hd45_participant. rewrite (part_text_length true parts Hrow).
  change (negb (162 =? Grammar.HD45_KPUB_LEN)) with false.
  pose proof (account_payload parts Hrow) as ((Hb & _) & Hv & H4 & H5 & H9 & H13 & H45 & _).
  rewrite (proj2 (kpub_text_canonical _ _) (conj Hb (account_row_encoded parts Hrow))).
  rewrite H4, H5, H9, H13, H45. change (negb (3 =? 3)) with false. destruct Hrow as [Hd _]. rewrite <- Hd. by destruct parts.
Qed.

Lemma decode_hex_bytes_text bytes n : bytes_of n bytes -> Grammar.decode_hex_bytes (hex_text bytes) n = Ok bytes.
Proof.
  intros [Hb Hl]. unfold Grammar.decode_hex_bytes. rewrite blen_hex_text, Hl.
  rewrite (proj2 (Z.eqb_eq _ _)) by lia. cbn [negb]. unfold decode_hex. pose proof (blen_nonneg bytes).
  rewrite decode_hex_with_spec by (apply lower_hex_nibble_hex || done || rewrite blen_zeros; lia).
  f_equal. rewrite drop_zeros. replace (n - Z.of_nat (length bytes)) with 0 by (unfold blen in *; lia). apply app_nil_r.
Qed.

Lemma hd44_participant_text parts : legacy_row parts -> Grammar.hd44_participant (part_text false parts) = Ok parts.
Proof.
  intros Hrow. pose proof Hrow as (Hd & Hf & Hc & Hcc & Hpk & Htag). unfold Grammar.hd44_participant.
  rewrite (part_text_length false parts Hrow). change (negb (130 =? Grammar.HD44_PARTICIPANT_HEX_LEN)) with false.
  unfold part_text. destruct Hpk as [Hpb Hpl]. rewrite take_app_length', drop_app_length' by (rewrite length_hex_text; unfold blen in *; lia).
  rewrite (decode_hex_bytes_text (kp_pubkey parts) 33) by done. cbn [rbind]. rewrite Htag. cbn [negb].
  rewrite (decode_hex_bytes_text (kp_chain_code parts) 32) by done. cbn [rbind]. f_equal. by apply kpub_parts_eq.
Qed.

(** *** The loops over the participants *)

(** The state of the loops once some participants are read. *)
Definition filled (size : Z) (p : Grammar.ParsedMultisigDescriptor) (l : list KpubParts) : Grammar.ParsedMultisigDescriptor := {|
  Grammar.threshold := Grammar.threshold p; Grammar.participant_count := blen l; Grammar.kind := Grammar.kind p;
  Grammar.static_public_keys := Grammar.static_public_keys p;
  Grammar.participants := l ++ replicate (Z.to_nat (size - blen l)) Grammar.empty_parts |}.
Definition filled_texts (size : Z) (l : list KpubParts) : list (list Z) :=
  map (part_text true) l ++ replicate (Z.to_nat (size - blen l)) (zeros Grammar.HD45_KPUB_LEN).

Lemma insert_next {A} size (l : list A) (x empty : A) : blen l < size ->
  <[Z.to_nat (blen l) := x]> (l ++ replicate (Z.to_nat (size - blen l)) empty)
  = (l ++ [x]) ++ replicate (Z.to_nat (size - blen (l ++ [x]))) empty.
Proof.
  intros Hl. pose proof (blen_nonneg l). rewrite insert_app_r_alt by (unfold blen; lia).
  replace (Z.to_nat (blen l) - length l)%nat with 0%nat by (unfold blen; lia).
  replace (Z.to_nat (size - blen l)) with (S (Z.to_nat (size - blen (l ++ [x])))) by (rewrite blen_app, blen_cons; change (blen (@nil A)) with 0; lia).
  cbn [replicate insert list_insert]. by rewrite <- app_assoc.
Qed.

Lemma put_filled size p l parts : blen l < size ->
  Grammar.put_participant (blen l) parts (filled size p l) = filled size p (l ++ [parts]).
Proof.
  intros Hl. unfold Grammar.put_participant, filled. cbn. rewrite insert_next by done. f_equal.
  rewrite blen_app, blen_cons. change (blen (@nil KpubParts)) with 0. lia.
Qed.

Lemma put_text size l parts : blen l < size ->
  <[Z.to_nat (blen l) := part_text true parts]> (filled_texts size l) = filled_texts size (l ++ [parts]).
Proof.
  intros Hl. unfold filled_texts. rewrite map_app. pose proof (insert_next size (map (part_text true) l) (part_text true parts) (zeros Grammar.HD45_KPUB_LEN)) as Hput.
  assert (Hmap : forall l, blen (map (part_text true) l) = blen l) by (intros ?; unfold blen; by rewrite length_map).
  rewrite (blen_app l), <- (Hmap l), <- (Hmap [parts]), <- blen_app. apply Hput. by rewrite Hmap.
Qed.

Lemma checked_slot_filled size p l : blen l < size -> Grammar.checked_slot size (filled size p l) = Ok (blen l).
Proof. intros Hl. unfold Grammar.checked_slot. cbn [filled Grammar.participant_count]. by rewrite (proj2 (Z.leb_gt _ _)) by lia. Qed.

Lemma joined_length v45 parts l : row_ok v45 parts ->
  exists before, length (joined v45 (parts :: l)) = (S before + length (joined v45 l))%nat.
Proof.
  intros Hrow. pose proof (part_text_length v45 parts Hrow) as Hlen. unfold blen in Hlen. cbn [joined]. rewrite length_app.
  exists (length (part_text v45 parts) - 1 + (length (parts_text v45 l) - length (joined v45 l)))%nat.
  assert (length (joined v45 l) <= length (parts_text v45 l))%nat by (destruct l; [done|rewrite parts_text_joined; cbn [length]; lia]).
  destruct v45; lia.
Qed.

Lemma hd45_loop_joined size p rest : Forall (row_ok true) rest -> forall fuel l, blen l + blen rest <= size ->
  (length (joined true rest) <= fuel)%nat ->
  Grammar.hd45_loop size fuel (joined true rest) (filled_texts size l) (filled size p l)
  = Ok (filled_texts size (l ++ rest), filled size p (l ++ rest)).
Proof.
  induction 1 as [|parts rest Hrow Hrest IH]; intros fuel l Hsize Hfuel.
  - rewrite app_nil_r. by destruct fuel.
  - destruct (joined_length true parts rest Hrow) as [before Hlen]. destruct fuel as [|fuel]; [lia|].
    pose proof (joined_nonempty true parts rest Hrow). rewrite blen_cons in Hsize. pose proof (blen_nonneg rest).
    pose proof (next_part_joined true parts rest ltac:(by constructor)) as Hnext. set (text := joined true (parts :: rest)) in *.
    destruct text as [|byte bytes] eqn:Htext; [done|]. cbn [Grammar.hd45_loop]. rewrite checked_slot_filled by lia. cbn [rbind].
    rewrite Hnext, hd45_participant_text by done. cbn [rbind]. rewrite put_filled, put_text by lia.
    rewrite IH by (rewrite ?blen_app, ?blen_cons; change (blen (@nil KpubParts)) with 0; lia). by rewrite <- app_assoc.
Qed.

Lemma hd44_loop_joined size p rest : Forall (row_ok false) rest -> forall fuel l, blen l + blen rest <= size ->
  (length (joined false rest) <= fuel)%nat ->
  Grammar.hd44_loop size fuel (joined false rest) (filled size p l) = Ok (filled size p (l ++ rest)).
Proof.
  induction 1 as [|parts rest Hrow Hrest IH]; intros fuel l Hsize Hfuel.
  - rewrite app_nil_r. by destruct fuel.
  - destruct (joined_length false parts rest Hrow) as [before Hlen]. destruct fuel as [|fuel]; [lia|].
    pose proof (joined_nonempty false parts rest Hrow). rewrite blen_cons in Hsize. pose proof (blen_nonneg rest).
    pose proof (next_part_joined false parts rest ltac:(by constructor)) as Hnext. set (text := joined false (parts :: rest)) in *.
    destruct text as [|byte bytes] eqn:Htext; [done|]. cbn [Grammar.hd44_loop]. rewrite checked_slot_filled by lia. cbn [rbind].
    rewrite Hnext, hd44_participant_text by done. cbn [rbind]. rewrite put_filled by lia.
    rewrite IH by (rewrite ?blen_app, ?blen_cons; change (blen (@nil KpubParts)) with 0; lia). by rewrite <- app_assoc.
Qed.

(** *** The order of texts is the order of keys *)

Lemma cmp_text_prefix l a b : cmp_text (l ++ a) (l ++ b) = cmp_text a b.
Proof. induction l as [|x l IH]; cbn [app cmp_text]; [done|]. by rewrite Z.compare_refl. Qed.

Lemma digit_compare x y : 0 <= x < 16 -> 0 <= y < 16 -> (digit x ?= digit y) = (x ?= y).
Proof.
  intros Hx Hy. apply (nibble_cases (fun x => (digit x ?= digit y) = (x ?= y))); [done|].
  apply (nibble_cases (fun y => Forall (fun x => (digit x ?= digit y) = (x ?= y)) (map Z.of_nat (seq 0 16)))); [done|by_decide].
Qed.

Lemma nibbles_compare x y : byte_ok x -> byte_ok y ->
  match Z.shiftr x 4 ?= Z.shiftr y 4 with Eq => Z.land x 15 ?= Z.land y 15 | c => c end = (x ?= y).
Proof.
  intros Hx Hy. unfold byte_ok in *. rewrite !Z.shiftr_div_pow2 by lia. change 15 with (Z.ones 4). rewrite !Z.land_ones by lia.
  change (2 ^ 4) with 16. pose proof (Z.div_mod x 16). pose proof (Z.div_mod y 16).
  pose proof (Z.mod_pos_bound x 16). pose proof (Z.mod_pos_bound y 16). destruct (Z.compare_spec (x / 16) (y / 16)), (Z.compare_spec x y), (Z.compare_spec (x mod 16) (y mod 16));
    try done; exfalso; lia.
Qed.

Lemma hex_text_compare a b : bytes_ok a -> bytes_ok b -> cmp_text (hex_text a) (hex_text b) = cmp_text a b.
Proof.
  intros Ha. revert b. induction Ha as [|x a Hx _ IH]; intros b Hb; destruct Hb as [|y b Hy Hb]; [done..|].
  unfold hex_text in *. cbn [flat_map app cmp_text]. destruct (byte_nibbles x Hx) as (H1 & H2 & _), (byte_nibbles y Hy) as (H3 & H4 & _).
  rewrite !digit_compare, IH by done. rewrite <- (nibbles_compare x y) by done. by destruct (Z.shiftr x 4 ?= Z.shiftr y 4).
Qed.

Lemma payload_serialized parts : parts_payload parts = ACCOUNT_KEY_VERSION ++ serialized_parts parts.
Proof. done. Qed.

Lemma part_text_compare p q : account_row p -> account_row q ->
  cmp_text (part_text true p) (part_text true q) = cmp_text (serialized_parts p) (serialized_parts q).
Proof.
  intros Hp Hq. unfold part_text. rewrite cmp_text_prefix, hex_text_compare by (by apply account_payload).
  by rewrite !payload_serialized, cmp_text_prefix.
Qed.

Lemma row_payload_inj p q : account_row p -> account_row q -> parts_payload p = parts_payload q -> p = q.
Proof.
  intros Hp Hq Heq. destruct (account_payload p Hp) as (_ & _ & P4 & P5 & P9 & P13 & P45 & _).
  destruct (account_payload q Hq) as (_ & _ & Q4 & Q5 & Q9 & Q13 & Q45 & _). rewrite Heq in P5, P9, P13, P45.
  destruct Hp as [Hp _], Hq as [Hq _]. apply kpub_parts_eq; congruence.
Qed.

Lemma serialized_inj p q : account_row p -> account_row q -> serialized_parts p = serialized_parts q -> p = q.
Proof. intros Hp Hq Heq. apply row_payload_inj; try done. by rewrite !payload_serialized, Heq. Qed.

Lemma part_text_inj p q : account_row p -> account_row q -> part_text true p = part_text true q -> p = q.
Proof.
  intros Hp Hq Heq. apply serialized_inj; try done. apply cmp_text_Eq. rewrite <- part_text_compare by done. by rewrite Heq, cmp_text_refl.
Qed.

(** *** The sorted participants of a 45' wallet *)

Definition with_text (parts : KpubParts) : list Z * KpubParts := (part_text true parts, parts).

Lemma zip_filled size p l : zip (filled_texts size l) (Grammar.participants (filled size p l))
  = map with_text l ++ replicate (Z.to_nat (size - blen l)) (zeros Grammar.HD45_KPUB_LEN, Grammar.empty_parts).
Proof.
  unfold filled_texts, filled. cbn [Grammar.participants]. rewrite zip_with_app by by rewrite length_map. f_equal.
  - induction l as [|parts l IH]; [done|]. cbn [map zip zip_with]. by rewrite IH.
  - by rewrite zip_with_replicate.
Qed.

(** The texts put the participants in the order their keys do. *)
Lemma sort_texts (l : list KpubParts) : l <> [] -> Forall account_row l ->
  let sorted := sort_slots serialized_parts (length l) l in
  sorted ≡ₚ l /\ forall rest, sort_slots fst (length l) (map with_text l ++ rest) = map with_text sorted ++ rest.
Proof.
  intros Hne Hl. cbn zeta. assert (Hlen : (1 <= length l)%nat) by (destruct l; [done|cbn; lia]).
  destruct (sort_slots_spec serialized_parts (length l) l Hlen) as (front & Hfront & Hperm & Hs); [lia|].
  rewrite drop_all, app_nil_r in Hfront. rewrite take_ge in Hperm by lia. rewrite Hfront. split; [done|]. intros rest.
  assert (Hm : length (map with_text l) = length l) by apply length_map.
  destruct (sort_slots_spec fst (length l) (map with_text l ++ rest) Hlen) as (texts & Hrun & Hpt & Hst); [rewrite length_app; lia|].
  rewrite take_app_length' in Hpt by done. rewrite drop_app_length' in Hrun by done. rewrite Hrun. f_equal.
  assert (Hfr : Forall account_row front) by by rewrite Hperm.
  apply (sorted_unique fst); [|done| |by rewrite Hpt, Hperm].
  - intros x y Hx Hy Heq. rewrite Hpt in Hx, Hy. apply list_elem_of_fmap in Hx as (p & -> & Hp), Hy as (q & -> & Hq).
    rewrite List.Forall_forall in Hl. f_equal. apply part_text_inj; [by apply Hl, list_elem_of_In|by apply Hl, list_elem_of_In|done].
  - clear -Hs Hfr. induction Hs as [|p front Hs IH Hp]; [by constructor|]. apply Forall_cons in Hfr as [Hrow Hfr].
    cbn [map]. constructor; [by apply IH|]. apply Forall_map. apply Forall_forall. intros q Hq.
    rewrite Forall_forall in Hp, Hfr. unfold key_le. cbn [compose fst with_text]. rewrite part_text_compare by auto. by apply Hp.
Qed.

Lemma distinct_texts size l : Forall account_row l -> NoDup l ->
  Grammar.reject_duplicate_encoded (filled_texts size l) (blen l) = Ok tt.
Proof.
  intros Hl Hnd. unfold Grammar.reject_duplicate_encoded. replace (existsb _ _) with false; [done|]. symmetry.
  apply not_true_is_false. intros Hex. apply existsb_exists in Hex as (i & Hi & Heq). apply bool_decide_eq_true in Heq.
  apply list_elem_of_In, elem_of_seqZ in Hi. unfold filled_texts in Heq. rewrite !lookup_app_l in Heq by (rewrite length_map; unfold blen in *; lia).
  change (map (part_text true) l) with (part_text true <$> l) in Heq. rewrite !list_lookup_fmap in Heq.
  destruct (lookup_lt_is_Some_2 l (Z.to_nat (i - 1))) as [p Hp]; [unfold blen in *; lia|].
  destruct (lookup_lt_is_Some_2 l (Z.to_nat i)) as [q Hq]; [unfold blen in *; lia|].
  rewrite Hp, Hq in Heq. cbn [fmap option_fmap option_map] in Heq. apply (inj Some) in Heq. rewrite Forall_forall in Hl.
  apply part_text_inj in Heq as ->; [|by eapply Hl, list_elem_of_lookup_2..].
  pose proof (NoDup_lookup _ _ _ _ Hnd Hp Hq). lia.
Qed.

Lemma distinct_legacy size p l : Forall legacy_row l -> NoDup l -> Grammar.reject_duplicate_hd (filled size p l) = Ok tt.
Proof.
  intros Hl Hnd. unfold Grammar.reject_duplicate_hd, Grammar.has_duplicate. cbn [filled Grammar.participants Grammar.participant_count].
  rewrite bool_decide_eq_true_2; [done|]. rewrite map_app, take_app_length' by (rewrite length_map; unfold blen; lia).
  apply NoDup_fmap_2_strong; [|done]. intros x y Hx Hy [= Hpk Hcc]. rewrite Forall_forall in Hl.
  destruct (Hl x Hx) as (? & ? & ? & _), (Hl y Hy) as (? & ? & ? & _). apply kpub_parts_eq; congruence.
Qed.

(** *** The descriptor's line, its kind and its threshold *)

Lemma descriptor_text_ends c : exists text, descriptor_text c = prefix_of_kind (v45 c) ++ text ++ [41] /\
  text = 48 + m c :: parts_text (v45 c) (rows c).
Proof. eexists. split; [|done]. unfold descriptor_text. app_eq. Qed.

Lemma parts_text_above v45 l : Forall (row_ok v45) l -> Forall (fun b => 41 <= b) (parts_text v45 l).
Proof.
  induction 1 as [|parts l Hrow _ IH]; [by constructor|]. unfold parts_text in *. cbn [map concat]. apply Forall_app. split; [|done].
  constructor; [lia|]. eapply Forall_impl; [exact (part_text_plain _ _ Hrow)|]. cbn. lia.
Qed.

Lemma descriptor_text_above c : writable c -> Forall (fun b => 40 <= b) (descriptor_text c).
Proof.
  intros (_ & Hm & _ & _ & Hrows & _). unfold descriptor_text. rewrite !Forall_app. split_and!.
  - destruct (v45 c); by_decide.
  - repeat constructor. lia.
  - eapply Forall_impl; [exact (parts_text_above _ _ Hrows)|]. cbn. lia.
  - by repeat constructor.
Qed.

Lemma trim_descriptor c : writable c ->
  Grammar.trim_trailing_ascii_whitespace (descriptor_text c) = descriptor_text c /\
  Grammar.trim_ascii (descriptor_text c) = descriptor_text c.
Proof.
  intros _. destruct (descriptor_text_ends c) as (text & Htext & _). rewrite Htext. split.
  - rewrite app_assoc. by apply trim_trailing_id.
  - destruct (v45 c); cbn [prefix_of_kind].
    + by apply (trim_ascii_id 109 (drop 1 Grammar.HD45_PREFIX ++ text)).
    + by apply (trim_ascii_id 109 (drop 1 Grammar.HD44_PREFIX ++ text)).
Qed.

Lemma descriptor_line_text c : writable c -> Grammar.descriptor_line (descriptor_text c) = descriptor_text c.
Proof.
  intros Hc. unfold Grammar.descriptor_line.
  assert (Hsplit : Grammar.split_at 10 (descriptor_text c) = None).
  { apply split_at_none. eapply Forall_impl; [exact (descriptor_text_above c Hc)|]. cbn. lia. }
  assert (Hlines : Grammar.split_lines (length (descriptor_text c)) (descriptor_text c) = [descriptor_text c]).
  { destruct (length (descriptor_text c)); cbn [Grammar.split_lines]; [done|]. by rewrite Hsplit. }
  rewrite Hlines. cbn [map]. rewrite (proj2 (trim_descriptor c Hc)).
  assert (Hline : Grammar.is_descriptor_line (descriptor_text c) = true).
  { unfold descriptor_text. destruct (v45 c); done. }
  unfold list_find. by rewrite decide_True by done.
Qed.

Definition kind_of (v45 : bool) : Grammar.MultisigDescriptorKind := if v45 then Grammar.Hd45 else Grammar.Hd44.

Lemma descriptor_body_text c : writable c ->
  Grammar.descriptor_body (descriptor_text c) = Ok (kind_of (v45 c), 48 + m c :: parts_text (v45 c) (rows c)).
Proof.
  intros Hc. destruct (descriptor_text_ends c) as (text & Htext & <-). rewrite Htext. unfold Grammar.descriptor_body.
  assert (Hlast : last (prefix_of_kind (v45 c) ++ text ++ [41]) = Some 41) by by rewrite app_assoc, last_snoc.
  rewrite Hlast. cbn [default from_option Z.eqb Pos.eqb negb].
  assert (Hrange : range (prefix_of_kind (v45 c) ++ text ++ [41]) (blen (prefix_of_kind (v45 c))) (blen (prefix_of_kind (v45 c) ++ text ++ [41]) - 1) = text).
  { apply (range_at _ (prefix_of_kind (v45 c)) text [41]); [done|done|]. rewrite !blen_app. change (blen [41]) with 1. lia. }
  destruct (v45 c); cbn [prefix_of_kind kind_of] in *.
  - replace (Grammar.starts_with Grammar.HD45_PREFIX _) with true by done. cbn [rbind]. by rewrite Hrange.
  - replace (Grammar.starts_with Grammar.HD45_PREFIX _) with false by done.
    replace (Grammar.starts_with Grammar.HD44_PREFIX _) with true by done. cbn [rbind]. by rewrite Hrange.
Qed.

Lemma split_threshold_text c : writable c ->
  Grammar.split_threshold (48 + m c :: parts_text (v45 c) (rows c)) = Ok (m c, joined (v45 c) (rows c)).
Proof.
  intros (Hn & Hm & _ & Hlen & _). unfold MAX_MULTISIG_KEYS in Hn. destruct (rows c) as [|parts l]; [change (blen []) with 0 in Hlen; lia|].
  unfold Grammar.split_threshold. rewrite parts_text_joined. 
  change (48 + m c :: 44 :: joined (v45 c) (parts :: l)) with ([48 + m c] ++ 44 :: joined (v45 c) (parts :: l)).
  rewrite split_at_app by (constructor; [lia|done]).
  cbn [ok_or rbind]. rewrite trim_plain by (constructor; [lia|done]).
  assert (Hcases : m c = 1 \/ m c = 2 \/ m c = 3 \/ m c = 4 \/ m c = 5) by lia.
  destruct Hcases as [->|[->|[->|[->| ->]]]]; done.
Qed.

(** *** The participants the parser keeps *)

(** The sorted rows of the configuration. *)
Lemma sorted_config c : writable c ->
  cosigners (sort_cosigners c)
  = (if v45 c then sort_slots serialized_parts (length (rows c)) (rows c) else rows c)
    ++ replicate (Z.to_nat (MAX_MULTISIG_KEYS - n c)) Grammar.empty_parts.
Proof.
  intros (Hn & _ & Hslots & Hlen & Hrows & _). unfold sort_cosigners. destruct (v45 c) eqn:Hv; cbn [negb]; [|by rewrite <- Hslots].
  cbn [set_cosigners cosigners]. replace (Z.to_nat (n c)) with (length (rows c)) by (unfold blen in *; lia). rewrite Hslots at 1.
  assert (Hl : (1 <= length (rows c))%nat) by (unfold blen in *; lia).
  set (pad := replicate _ _). destruct (sort_slots_spec serialized_parts (length (rows c)) (rows c) Hl) as (f1 & H1 & P1 & S1); [lia|].
  destruct (sort_slots_spec serialized_parts (length (rows c)) (rows c ++ pad) Hl) as (f2 & H2 & P2 & S2); [rewrite length_app; lia|].
  rewrite drop_all, app_nil_r in H1. rewrite drop_app_length in H2. rewrite take_app_length in P2. rewrite take_ge in P1 by lia.
  rewrite H1, H2. f_equal. apply (sorted_unique serialized_parts); [|done|done|by rewrite P1, P2].
  intros x y Hx Hy. rewrite P2 in Hx, Hy. rewrite Forall_forall in Hrows. apply serialized_inj; by apply Hrows.
Qed.

Lemma parse_participants c p : writable c -> Grammar.participant_count p = 0 ->
  Grammar.participants p = replicate (Z.to_nat MAX_MULTISIG_KEYS) Grammar.empty_parts ->
  exists q, Grammar.parse_descriptor_participants MAX_MULTISIG_KEYS (kind_of (v45 c)) (joined (v45 c) (rows c)) p = Ok q /\
    Grammar.threshold q = Grammar.threshold p /\ Grammar.participant_count q = n c /\ Grammar.kind q = Grammar.kind p /\
    Grammar.participants q = cosigners (sort_cosigners c).
Proof.
  intros Hc H0 Hempty. pose proof Hc as (Hn & _ & _ & Hlen & Hrows & Hnd). rewrite sorted_config by done. rewrite <- Hlen.
  assert (Hp : p = filled MAX_MULTISIG_KEYS p []) by (destruct p; cbn in *; by subst).
  unfold Grammar.parse_descriptor_participants, kind_of. destruct (v45 c) eqn:Hv.
  - unfold Grammar.parse_hd45_participants. rewrite Hp.
    change (replicate (Z.to_nat MAX_MULTISIG_KEYS) (zeros Grammar.HD45_KPUB_LEN)) with (filled_texts MAX_MULTISIG_KEYS []).
    rewrite hd45_loop_joined by (done || change (blen (@nil KpubParts)) with 0; lia). cbn [rbind app].
    assert (Hne : rows c <> []) by (intros Hnil; rewrite Hnil in Hlen; change (blen (@nil KpubParts)) with 0 in Hlen; lia).
    destruct (sort_texts (rows c) Hne Hrows) as [Hperm Hsort]. unfold Grammar.sort_hd45_by_encoded. rewrite zip_filled.
    replace (Z.to_nat (Grammar.participant_count (filled MAX_MULTISIG_KEYS p (rows c)))) with (length (rows c)) by (cbn; unfold blen; lia).
    rewrite Hsort. set (sorted := sort_slots serialized_parts (length (rows c)) (rows c)) in *.
    assert (Hbl : blen (rows c) = blen sorted) by (unfold blen; by rewrite Hperm).
    assert (Htexts : forall k, map fst (map with_text sorted ++ replicate k (zeros Grammar.HD45_KPUB_LEN, Grammar.empty_parts))
      = map (part_text true) sorted ++ replicate k (zeros Grammar.HD45_KPUB_LEN)).
    { intros k. rewrite map_app, map_map. f_equal. change (map fst) with (fmap (M := list) (@fst (list Z) KpubParts)). by rewrite fmap_replicate. }
    assert (Hparts : forall k, map snd (map with_text sorted ++ replicate k (zeros Grammar.HD45_KPUB_LEN, Grammar.empty_parts))
      = sorted ++ replicate k Grammar.empty_parts).
    { intros k. rewrite map_app, map_map. cbn [with_text snd]. rewrite map_id. f_equal.
      change (map snd) with (fmap (M := list) (@snd (list Z) KpubParts)). by rewrite fmap_replicate. }
    rewrite Htexts, Hparts. cbn [filled Grammar.participant_count]. rewrite Hbl.
    fold (filled_texts MAX_MULTISIG_KEYS sorted). rewrite distinct_texts by (by rewrite Hperm). cbn [rbind].
    eexists. split; [done|]. done.
  - unfold Grammar.parse_hd44_participants. rewrite Hp.
    rewrite hd44_loop_joined by (done || change (blen (@nil KpubParts)) with 0; lia). cbn [rbind app].
    rewrite distinct_legacy by done. cbn [rbind]. eexists. split; [done|]. done.
Qed.

(** C25: The descriptor the device writes for a multisig wallet fits the buffer
    of the declared size and is a text the bounded grammar accepts; the wallet
    read from it has the same kind, threshold and participants, in the order
    [sort_cosigners] gives them. *)
Theorem descriptor_round_trip (c : MultisigConfig) : writable c ->
  exists length out parsed, write_descriptor c (zeros DESCRIPTOR_MAX_LEN) = Some (length, out) /\ length <= DESCRIPTOR_MAX_LEN /\
    Grammar.parse_multisig_descriptor MAX_MULTISIG_KEYS (take (Z.to_nat length) out) = Ok parsed /\
    m (from_descriptor parsed) = m c /\ n (from_descriptor parsed) = n c /\ v45 (from_descriptor parsed) = v45 c /\
    cosigners (from_descriptor parsed) = cosigners (sort_cosigners c).
Proof.
  intros Hc. pose proof Hc as (Hn & Hm & _ & Hlen & Hrows & _). rewrite write_descriptor_text by done.
  pose proof (descriptor_text_fits c Hc) as Hfits.
  assert (Htake : take (Z.to_nat (blen (descriptor_text c))) (descriptor_text c ++ zeros (DESCRIPTOR_MAX_LEN - blen (descriptor_text c)))
    = descriptor_text c) by (apply take_app_length'; unfold blen; lia).
  set (p0 := {| Grammar.threshold := m c; Grammar.participant_count := 0; Grammar.kind := kind_of (v45 c);
    Grammar.static_public_keys := replicate (Z.to_nat MAX_MULTISIG_KEYS) (zeros 32);
    Grammar.participants := replicate (Z.to_nat MAX_MULTISIG_KEYS) Grammar.empty_parts |}).
  destruct (parse_participants c p0 Hc eq_refl eq_refl) as (q & Hq & Ht & Hcount & Hk & Hps).
  eexists _, _, q. split; [done|]. split; [done|]. rewrite Htake. split.
  - unfold Grammar.parse_multisig_descriptor. rewrite (proj1 (trim_descriptor c Hc)), descriptor_line_text, descriptor_body_text by done.
    cbn [rbind]. rewrite split_threshold_text by done. cbn [rbind]. fold p0. rewrite Hq. cbn [rbind].
    unfold Grammar.validate_descriptor_threshold. rewrite Ht, Hcount. cbn [p0 Grammar.threshold]. by decide_tests.
  - unfold from_descriptor, Grammar.is_hd45. cbn [m n v45 cosigners]. rewrite Ht, Hcount, Hk, Hps. split_and!; try done.
    cbn [p0 Grammar.kind]. by destruct (v45 c).
Qed.

(** A 2-of-3 wallet whose participants are not in order. *)
Definition example_row (tag key : Z) : KpubParts := {|
  kp_depth := 3; kp_parent_fp := [1; 2; 3; key]; kp_child_num := be_bytes 4 ACCOUNT_KEY_CHILD_INDEX;
  kp_chain_code := replicate 32 key; kp_pubkey := tag :: replicate 32 (255 - key) |}.
Definition example_wallet : MultisigConfig := {|
  m := 2; n := 3; cosigners := [example_row 3 200; example_row 2 7; example_row 2 90; Grammar.empty_parts; Grammar.empty_parts];
  addr_index := 4; v45 := true; cosigner_index := 1; chain := 0; script := zeros MAX_SCRIPT_SIZE; script_len := 0; active := true |}.

Lemma example_row_ok tag key : tag = 2 \/ tag = 3 -> byte_ok key -> account_row (example_row tag key).
Proof.
  intros Htag Hkey. unfold byte_ok in Hkey. split; [done|]. split; [split; [|done]; cbn; repeat constructor; unfold byte_ok; lia|]. split; [done|].
  split; [split; [|done]; apply Forall_replicate; unfold byte_ok; lia|]. split.
  - split; [|done]. cbn [example_row kp_pubkey]. apply Forall_cons. split; [unfold byte_ok; lia|]. apply Forall_replicate. unfold byte_ok. lia.
  - destruct Htag as [-> | ->]; done.
Qed.

Lemma example_writable : writable example_wallet.
Proof.
  split; [by_decide|]. split; [by_decide|]. split; [done|]. split; [done|]. split.
  - apply Forall_cons. split; [by apply example_row_ok; [right|by_decide]|]. apply Forall_cons. split; [by apply example_row_ok; [left|by_decide]|].
    apply Forall_cons. split; [by apply example_row_ok; [left|by_decide]|]. by constructor.
  - by_decide.
Qed.

Lemma descriptor_round_trip_witness : exists length out parsed,
  write_descriptor example_wallet (zeros DESCRIPTOR_MAX_LEN) = Some (length, out) /\ length <= DESCRIPTOR_MAX_LEN /\
  Grammar.parse_multisig_descriptor MAX_MULTISIG_KEYS (take (Z.to_nat length) out) = Ok parsed /\
  m (from_descriptor parsed) = 2 /\ n (from_descriptor parsed) = 3 /\ v45 (from_descriptor parsed) = true /\
  cosigners (from_descriptor parsed) = cosigners (sort_cosigners example_wallet).
Proof. exact (descriptor_round_trip example_wallet example_writable). Defined.
