(* ===== verification/Schnorr.v ===== *)
(** * BIP-340 signatures

    [src/src/crypto/schnorr/mod.rs]: signing and verification over the
    operations of the third-party signature crate, which are the class
    [Bip340], with what its documentation states of them as [Bip340Laws]. *)

From S2P Require Import Prelude Hd.

Inductive SchnorrError := InvalidPrivateKey | SigningFailed | InvalidSignature.

(** [SigningKey::from_bytes], [SigningKey::sign_raw] with the bytes of the
    signature, [VerifyingKey::from_bytes], [Signature::try_from] and
    [VerifyingKey::verify_raw]. *)
Class Bip340 := {
  signing_key : Type;
  verifying_key : Type;
  parsed_signature : Type;
  signing_key_from_bytes : list Z -> option signing_key;
  sign_raw : signing_key -> list Z -> list Z -> option (list Z);
  verifying_key_from_bytes : list Z -> option verifying_key;
  signature_try_from : list Z -> option parsed_signature;
  verify_raw : verifying_key -> list Z -> parsed_signature -> bool }.

Section schnorr.
Context `{Bip340}.

Definition schnorr_sign_with_aux_rand (private_key message aux_rand : list Z) : result (list Z) SchnorrError :=
  let? signing_key := ok_or (signing_key_from_bytes private_key) InvalidPrivateKey in
  ok_or (sign_raw signing_key message aux_rand) SigningFailed.

Definition schnorr_sign (private_key message : list Z) : result (list Z) SchnorrError :=
  schnorr_sign_with_aux_rand private_key message (replicate 32 0).

Definition parse_verifying_key (pubkey_x : list Z) : result verifying_key SchnorrError :=
  ok_or (verifying_key_from_bytes pubkey_x) InvalidSignature.
Definition parse_signature (signature : list Z) : result parsed_signature SchnorrError :=
  ok_or (signature_try_from signature) InvalidSignature.
Definition verify_parsed_signature (key : verifying_key) (message : list Z) (signature : parsed_signature)
  : result unit SchnorrError :=
  if verify_raw key message signature then Ok tt else Err InvalidSignature.

Definition schnorr_verify (pubkey_x message signature : list Z) : result unit SchnorrError :=
  let? verifying_key := parse_verifying_key pubkey_x in
  let? parsed := parse_signature signature in
  verify_parsed_signature verifying_key message parsed.

(** [schnorr_verify(..).is_ok()], as the signature counts use it. *)
Definition verifies (pubkey_x message signature : list Z) : bool := is_ok (schnorr_verify pubkey_x message signature).

(** *** The known answer test *)

Record Bip340KnownAnswer := { ka_public_key_x : list Z; ka_signature : list Z }.

Definition BIP340_VECTOR0_PRIVATE_KEY : list Z := replicate 31 0 ++ [3].
Definition BIP340_VECTOR0_MESSAGE : list Z := replicate 32 0.
Definition BIP340_VECTOR0_AUX_RAND : list Z := replicate 32 0.

Definition known_answer_matches (signature : result (list Z) SchnorrError) (expected : Bip340KnownAnswer) : bool :=
  match signature with
  | Err _ => false
  | Ok signature =>
      list_Z_eqb signature (ka_signature expected)
      && is_ok (schnorr_verify (ka_public_key_x expected) BIP340_VECTOR0_MESSAGE signature)
  end.

Definition bip340_known_answer (expected : Bip340KnownAnswer) : bool :=
  known_answer_matches
    (schnorr_sign_with_aux_rand BIP340_VECTOR0_PRIVATE_KEY BIP340_VECTOR0_MESSAGE BIP340_VECTOR0_AUX_RAND) expected.

End schnorr.

(** The documented behaviour: the bytes that are a secret key are a signing
    key, and what a signing key signs verifies under the x-coordinate of the
    public key of the same bytes. *)
Class Bip340Laws `{Curve} `{Bip340} := {
  signing_key_spec l : is_Some (signing_key_from_bytes l) <-> is_Some (secret_key l);
  sign_size k message aux signature : sign_raw k message aux = Some signature -> bytes_of 64 signature;
  sign_verifies l k secret message aux signature :
    signing_key_from_bytes l = Some k -> secret_key l = Some secret -> sign_raw k message aux = Some signature ->
    exists v parsed, verifying_key_from_bytes (Bip32.x_coordinate (encode_point (generator_times secret))) = Some v /\
      signature_try_from signature = Some parsed /\ verify_raw v message parsed = true }.

(** A signature made with a private key verifies under its public key. *)
Lemma signature_verifies `{Bip340Laws} private_key compressed message aux signature :
  Bip32.compressed_pubkey_from_raw_key private_key = Ok compressed ->
  schnorr_sign_with_aux_rand private_key message aux = Ok signature ->
  verifies (Bip32.x_coordinate compressed) message signature = true.
Proof.
  unfold Bip32.compressed_pubkey_from_raw_key. intros (secret & Hs%ok_or_Ok & [= <-])%rbind_Ok_inv.
  intros (k & Hk%ok_or_Ok & Hsign%ok_or_Ok)%rbind_Ok_inv.
  destruct (sign_verifies _ _ _ _ _ _ Hk Hs Hsign) as (v & parsed & Hv & Hp & Hok).
  unfold verifies, schnorr_verify, parse_verifying_key, parse_signature, verify_parsed_signature. by rewrite Hv, Hp; cbn [ok_or rbind]; rewrite Hok.
Qed.
