(* ===== verification/Signing.v ===== *)
(** * Signing compact transactions

    [src/src/transaction/sighash/signing.rs] and
    [src/src/transaction/interchange/kspt/signing]: the keys a device holds
    ([context.rs]), the signature slots of an input ([signature_state.rs]) and
    the signers: one raw key ([single_key.rs]), the addresses of one account
    ([multi_address.rs]), several accounts with their multisig and covenant
    inputs ([multisig.rs], [multisig/accounts.rs], [ms45.rs], [covenant.rs]).

    A function with a [&mut Transaction] is a computation over the transaction,
    which keeps what was signed before an error. Wiping keys and the progress
    callbacks have no counterpart. *)

From S2P Require Import Prelude Bytes Script Hd Keys TxModel Sighash Branch Schnorr SigCheck KsptCodec.
Import TxModel Bip32.

(** The callers' indices are within the inputs, where the code does not panic. *)
Definition put_input (index : Z) (input : TransactionInput) (tx : Transaction) : Transaction :=
  set_inputs (<[Z.to_nat index := input]> (tx_inputs tx)) tx.

(** ** [signature_state.rs] *)

Definition set_sigs (slots : list InputSig) (count ty : Z) (i : TransactionInput) : TransactionInput := {|
  previous_outpoint := previous_outpoint i; sequence := sequence i; sig_op_count := sig_op_count i;
  utxo_entry := utxo_entry i; sigs := slots; sig_count := count; sighash_type := ty;
  redeem_script := redeem_script i; redeem_script_len := redeem_script_len i; redeem_in_pool := redeem_in_pool i;
  redeem_script_offset := redeem_script_offset i; incoming_partial_sigs := incoming_partial_sigs i;
  incoming_partial_sigs_count := incoming_partial_sigs_count i; has_derivation_hint := has_derivation_hint i;
  derivation_branch := derivation_branch i; derivation_index := derivation_index i; ms45_hint := ms45_hint i;
  covenant_execution_present := covenant_execution_present i; covenant_execution_mask := covenant_execution_mask i;
  covenant_execution_true_mask := covenant_execution_true_mask i |}.

Definition filled_slot (signature : list Z) (ty position : Z) (compressed : list Z) : InputSig := {|
  sg_signature := signature; sg_sighash_type := ty; sg_pubkey_pos := position; sg_present := true;
  sg_pubkey_compressed := compressed |}.
Definition cleared_slot (slot : InputSig) : InputSig := {|
  sg_signature := sg_signature slot; sg_sighash_type := sg_sighash_type slot; sg_pubkey_pos := sg_pubkey_pos slot;
  sg_present := false; sg_pubkey_compressed := sg_pubkey_compressed slot |}.

Definition has_pubkey_position (input : TransactionInput) (pubkey_position : Z) : bool :=
  existsb (fun slot => sg_present slot && (sg_pubkey_pos slot =? pubkey_position))
    (take (Z.to_nat (Z.min (sig_count input) MAX_SIGS_PER_INPUT)) (sigs input)).

Definition set_single_signature (signature : list Z) (sighash_type pubkey_position : Z) (compressed : list Z)
  (input : TransactionInput) : TransactionInput :=
  set_sigs (filled_slot signature sighash_type pubkey_position compressed :: map cleared_slot (drop 1 (sigs input)))
    1 sighash_type input.

(** Whether the signature is added, and the input afterwards. *)
Definition append_signature (signature : list Z) (ty pubkey_position : Z) (compressed : list Z)
  (input : TransactionInput) : bool * TransactionInput :=
  let slot_index := sig_count input in
  if has_pubkey_position input pubkey_position then (false, input)
  else if MAX_SIGS_PER_INPUT <=? slot_index then (false, input)
  else if negb (slot_index =? 0) && negb (sighash_type input =? ty) then (false, input)
  else
    (true,
     set_sigs (<[Z.to_nat slot_index := filled_slot signature ty pubkey_position compressed]> (sigs input))
       (slot_index + 1) ty input).

(** ** [p2pk.rs] *)

Definition xonly_from_script (script : ScriptPublicKey) : option (list Z) :=
  if (spk_script_len script =? 34) && bool_decide (get_at (spk_script script) 0 = Some 0x20)
     && bool_decide (get_at (spk_script script) 33 = Some 0xac)
  then Some (range (spk_script script) 1 33) else None.

Definition ensure_input_index (tx : Transaction) (input_index : Z) : result unit PsktError :=
  let? _ := ok_or (get_at (tx_inputs tx) input_index) InvalidInputIndex in
  if num_inputs tx <=? input_index then Err InvalidInputIndex else Ok tt.

Definition checked_target (tx : Transaction) (input_index : Z) : result (option (list Z)) PsktError :=
  let? _ := validate_base_transaction tx in
  let? _ := ensure_input_index tx input_index in
  Ok (xonly_from_script (script_public_key (utxo_entry (input_at tx input_index)))).

(** ** [context.rs] *)

Definition MAX_SEED_SLOTS : Z := 8.

Record SigningKeyMaterial := { private_key : list Z; compressed_public_key : list Z }.

Record SigningContext := {
  num_seeds : Z;
  account_keys : list (option ExtendedPrivKey);
  account_xonlys : list (option (list Z));
  account_compressed : list (option (list Z));
  address_tables : list (option AddrPubkeyTable);
  ms45_account_keys : list (option ExtendedPrivKey);
  kip22_account_keys : list (option ExtendedPrivKey);
}.

Definition slots_of {A} (count : Z) : list (option A) := replicate (Z.to_nat count) None.

Definition empty_context (seeds : Z) : SigningContext := {|
  num_seeds := Z.min seeds MAX_SEED_SLOTS;
  account_keys := slots_of MAX_SEED_SLOTS; account_xonlys := slots_of MAX_SEED_SLOTS;
  account_compressed := slots_of MAX_SEED_SLOTS; address_tables := slots_of MAX_SEED_SLOTS;
  ms45_account_keys := slots_of MAX_SEED_SLOTS; kip22_account_keys := slots_of (Z.min seeds MAX_SEED_SLOTS) |}.

(** A slot of a fixed array; a slot never set is [None]. *)
Definition slot_at {A} (slots : list (option A)) (index : Z) : option A := mjoin (get_at slots index).
Definition put_slot {A} (index : Z) (value : A) (slots : list (option A)) : list (option A) :=
  <[Z.to_nat index := Some value]> slots.

Definition set_ms45 (index : Z) (account : ExtendedPrivKey) (c : SigningContext) : SigningContext := {|
  num_seeds := num_seeds c; account_keys := account_keys c; account_xonlys := account_xonlys c;
  account_compressed := account_compressed c; address_tables := address_tables c;
  ms45_account_keys := put_slot index account (ms45_account_keys c); kip22_account_keys := kip22_account_keys c |}.
Definition set_kip22 (index : Z) (account : ExtendedPrivKey) (c : SigningContext) : SigningContext := {|
  num_seeds := num_seeds c; account_keys := account_keys c; account_xonlys := account_xonlys c;
  account_compressed := account_compressed c; address_tables := address_tables c;
  ms45_account_keys := ms45_account_keys c; kip22_account_keys := put_slot index account (kip22_account_keys c) |}.
Definition set_table (index : Z) (table : AddrPubkeyTable) (c : SigningContext) : SigningContext := {|
  num_seeds := num_seeds c; account_keys := account_keys c; account_xonlys := account_xonlys c;
  account_compressed := account_compressed c; address_tables := put_slot index table (address_tables c);
  ms45_account_keys := ms45_account_keys c; kip22_account_keys := kip22_account_keys c |}.

Definition ok_option {A E} (r : result A E) : option A := match r with Ok a => Some a | Err _ => None end.

Section signing.
Context (sha512 sha256 : list Z -> list Z) (keyed : list Z -> list Z -> list Z) `{Curve} `{Bip340}.

Definition install_account (index : Z) (account : ExtendedPrivKey) (c : SigningContext) : SigningContext :=
  if num_seeds c <=? index then c
  else
    match public_key_compressed account with
    | Err _ => c
    | Ok compressed => {|
        num_seeds := num_seeds c; account_keys := put_slot index account (account_keys c);
        account_xonlys := put_slot index (x_coordinate compressed) (account_xonlys c);
        account_compressed := put_slot index compressed (account_compressed c);
        address_tables := address_tables c; ms45_account_keys := ms45_account_keys c;
        kip22_account_keys := kip22_account_keys c |}
    end.

(** [if let Ok(..) = derived { install }] *)
Definition when_ok {A E} (r : result A E) (f : A -> SigningContext -> SigningContext) (c : SigningContext) : SigningContext :=
  match r with Ok a => f a c | Err _ => c end.

(** The loop over the first eight entries and their flags. *)
Definition for_present {A} (step : Z -> A -> SigningContext -> SigningContext) (entries : list (A * bool))
  (c : SigningContext) : SigningContext :=
  foldl (fun c '(index, (entry, present)) => if negb present then c else step index entry c) c
    (imap (fun index entry => (Z.of_nat index, entry)) (take (Z.to_nat MAX_SEED_SLOTS) entries)).

Definition from_seeds (seeds : list (list Z * bool)) : SigningContext :=
  for_present (fun index seed c =>
    let c := when_ok (derive_account_key sha512 seed) (install_account index) c in
    let c := when_ok (derive_multisig_account_key sha512 seed 0) (set_ms45 index) c in
    when_ok (Kip22.derive_account_key sha512 seed 0) (set_kip22 index) c) seeds (empty_context (blen seeds)).

Definition from_account_raw (accounts : list (list Z * bool)) : SigningContext :=
  for_present (fun index raw => install_account index (from_raw raw)) accounts (empty_context (blen accounts)).

Definition from_account_sets (accounts ms45_accounts : list (list Z * bool)) : SigningContext :=
  for_present (fun index raw c => if num_seeds c <=? index then c else set_ms45 index (from_raw raw) c)
    ms45_accounts (from_account_raw accounts).

Definition material_of (key : ExtendedPrivKey) : option SigningKeyMaterial :=
  compressed ← ok_option (public_key_compressed key);
  Some {| private_key := Bip32.key key; compressed_public_key := compressed |}.

Definition ms45_material (c : SigningContext) (seed_index : Z) (hint : Ms45Hint) : option SigningKeyMaterial :=
  if negb (h_present hint) || (1 <? h_chain hint) then None
  else
    account ← slot_at (ms45_account_keys c) seed_index;
    child ← ok_option (derive_multisig_address_key sha512 account (h_cosigner hint) (h_chain hint) (h_index hint));
    material_of child.

Definition account_xonly (c : SigningContext) (seed_index : Z) : option (list Z) := slot_at (account_xonlys c) seed_index.

Definition account_material (c : SigningContext) (seed_index : Z) : option SigningKeyMaterial :=
  account ← slot_at (account_keys c) seed_index;
  compressed ← slot_at (account_compressed c) seed_index;
  Some {| private_key := Bip32.key account; compressed_public_key := compressed |}.

Definition derived_address_material (account : ExtendedPrivKey) (address_index : Z) (is_change : bool)
  : option SigningKeyMaterial :=
  key ← ok_option (if is_change then derive_change_key sha512 account address_index
                   else derive_address_key sha512 account address_index);
  material_of key.

Definition scanned_material (account : ExtendedPrivKey) (target_xonly : list Z) : option SigningKeyMaterial :=
  '(address_index, is_change) ← find_address_index_for_pubkey sha512 account target_xonly;
  derived_address_material account address_index is_change.

Definition direct_address_material (c : SigningContext) (seed_index : Z) (target_xonly : list Z)
  : option SigningKeyMaterial :=
  account ← slot_at (account_keys c) seed_index; scanned_material account target_xonly.

Definition kip22_material (c : SigningContext) (seed_index : Z) (target_xonly : list Z) : option SigningKeyMaterial :=
  account ← slot_at (kip22_account_keys c) seed_index; scanned_material account target_xonly.

(** The table of an account is built on its first use. *)
Definition ensure_address_table (seed_index : Z) (c : SigningContext) : bool * SigningContext :=
  if num_seeds c <=? seed_index then (false, c)
  else
    match slot_at (address_tables c) seed_index with
    | Some _ => (true, c)
    | None =>
        match slot_at (account_keys c) seed_index with
        | None => (false, c)
        | Some account => (true, set_table seed_index (build sha512 account) c)
        end
    end.

Definition cached_address_material (seed_index : Z) (target_xonly : list Z) (c : SigningContext)
  : option SigningKeyMaterial * SigningContext :=
  let '(ready, c) := ensure_address_table seed_index c in
  (if negb ready then None
   else
     table ← slot_at (address_tables c) seed_index;
     '(address_index, is_change) ← find_by_pubkey table target_xonly;
     account ← slot_at (account_keys c) seed_index;
     derived_address_material account address_index is_change, c).

(** ** [sighash/signing.rs] *)

Definition AUX_DOMAIN : list Z := str "KaspaPortal/BIP340/input-aux/v1".

Definition input_aux_rand (signing_entropy sighash : list Z) (input_index : Z) : list Z :=
  sha256 (AUX_DOMAIN ++ signing_entropy ++ sighash ++ le_bytes 8 input_index).

Definition sign_input (tx : Transaction) (input_index : Z) (private_key : list Z) (sighash_type : SigHashType.SigHashType)
  : result (list Z) SchnorrError :=
  schnorr_sign private_key (calculate_sighash keyed tx input_index sighash_type).

Definition sign_input_with_entropy (tx : Transaction) (input_index : Z) (private_key : list Z)
    (sighash_type : SigHashType.SigHashType) (signing_entropy : list Z) : result (list Z) SchnorrError :=
  let sighash := calculate_sighash keyed tx input_index sighash_type in
  schnorr_sign_with_aux_rand private_key sighash (input_aux_rand signing_entropy sighash input_index).

(** [sign_one] and [sign_input_with_optional_entropy]. *)
Definition sign_one (tx : Transaction) (input_index : Z) (private_key : list Z) (ty : SigHashType.SigHashType)
    (signing_entropy : option (list Z)) : result (list Z) PsktError :=
  rmap_err (fun _ => SigningFailed)
    match signing_entropy with
    | Some entropy => sign_input_with_entropy tx input_index private_key ty entropy
    | None => sign_input tx input_index private_key ty
    end.

(** Sign an input with one key and store the signature alone. *)
Definition sign_single (input_index position : Z) (private_key compressed : list Z) (ty : SigHashType.SigHashType)
    (signing_entropy : option (list Z)) : Comp Transaction PsktError unit := fun tx =>
  match sign_one tx input_index private_key ty signing_entropy with
  | Err e => (Err e, tx)
  | Ok signature =>
      (Ok tt, put_input input_index
                (set_single_signature signature (SigHashType.to_byte ty) position compressed (input_at tx input_index)) tx)
  end.

(** A check or a lookup that only reads the transaction. *)
Definition reads {S E A} (f : S -> result A E) : Comp S E A := fun s => (f s, s).

(** [for item in items { count += body(item)?; }] *)
Fixpoint for_count {S E A} (l : list A) (body : A -> Comp S E Z) : Comp S E Z :=
  match l with
  | [] => ret 0
  | x :: l => let* added := body x in let* rest := for_count l body in ret (added + rest)
  end.

(** The inputs of a loop over [0..tx.num_inputs]. *)
Definition input_indices (tx : Transaction) : list Z := seqZ 0 (num_inputs tx).

Definition flag (b : bool) : Z := if b then 1 else 0.

(** [if signed_count == 0 { Err(NoInputs) } else { Ok(signed_count) }] *)
Definition signed_count_result (signed_count : Z) : result Z PsktError :=
  if signed_count =? 0 then Err NoInputs else Ok signed_count.

(** ** [single_key.rs] *)

Definition sign_transaction (tx : Transaction) (private_key : list Z) (ty : SigHashType.SigHashType)
    (signing_entropy : option (list Z)) : result (list Kssn.InputSignature) PsktError :=
  let? _ := validate_base_transaction tx in
  try_fold (fun response input_index =>
    let? signature := sign_one tx input_index private_key ty signing_entropy in
    let? _ := if u32_max <? input_index then Err InvalidInputIndex else Ok tt in
    match Kssn.add_signature input_index ty signature response with
    | (Ok _, response) => Ok response
    | (Err e, _) => Err e
    end) [] (input_indices tx).

Definition compressed_or_fail (private_key : list Z) : result (list Z) PsktError :=
  rmap_err (fun _ => SigningFailed) (compressed_pubkey_from_raw_key private_key).

Definition sign_transaction_in_place (private_key : list Z) (ty : SigHashType.SigHashType)
    (signing_entropy : option (list Z)) : Comp Transaction PsktError Z :=
  let* _ := reads validate_base_transaction in
  let* compressed := of_result (compressed_or_fail private_key) in
  let* inputs := reads (fun tx => Ok (input_indices tx)) in
  let* _ := for_each inputs (fun input_index => sign_single input_index 0 private_key compressed ty signing_entropy) in
  reads (fun tx => Ok (num_inputs tx)).

(** [sign_raw_target_with_entropy] and [sign_raw_if_matching]. *)
Definition sign_raw_target_with_entropy (input_index : Z) (private_key : list Z) (ty : SigHashType.SigHashType)
    (signing_entropy : list Z) (target : option (list Z)) : Comp Transaction PsktError bool :=
  match target with
  | None => ret false
  | Some target =>
      let* compressed := of_result (compressed_or_fail private_key) in
      if negb (list_Z_eqb (x_coordinate compressed) target) then ret false
      else
        let* _ := sign_single input_index 0 private_key compressed ty (Some signing_entropy) in ret true
  end.

Definition sign_matching_input_in_place_with_entropy (input_index : Z) (private_key : list Z)
    (ty : SigHashType.SigHashType) (signing_entropy : list Z) : Comp Transaction PsktError bool :=
  let* target := reads (fun tx => checked_target tx input_index) in
  sign_raw_target_with_entropy input_index private_key ty signing_entropy target.

Definition p2pk_target (tx : Transaction) (input_index : Z) : option (list Z) :=
  Standard.p2pk_xonly (script_bytes (script_public_key (utxo_entry (input_at tx input_index)))).

Definition input_matches_xonly (tx : Transaction) (input_index : Z) (xonly : list Z) : bool :=
  match p2pk_target tx input_index with Some key => list_Z_eqb key xonly | None => false end.

Definition sign_matching_inputs_in_place_with_entropy (private_key : list Z) (ty : SigHashType.SigHashType)
    (signing_entropy : list Z) : Comp Transaction PsktError Z :=
  let* _ := reads validate_base_transaction in
  let* compressed := of_result (compressed_or_fail private_key) in
  let* inputs := reads (fun tx => Ok (input_indices tx)) in
  let* signed_count := for_count inputs (fun input_index =>
    let* matching := reads (fun tx => Ok (input_matches_xonly tx input_index (x_coordinate compressed))) in
    if negb matching then ret 0
    else let* _ := sign_single input_index 0 private_key compressed ty (Some signing_entropy) in ret 1) in
  of_result (signed_count_result signed_count).

(** ** [multi_address.rs] *)

Definition derive_child_key (account_key : ExtendedPrivKey) (index branch : Z) : result ExtendedPrivKey PsktError :=
  rmap_err (fun _ => DerivationFailed)
    (if branch =? 1 then derive_change_key sha512 account_key index else derive_address_key sha512 account_key index).

Definition derive_hinted_input_key (account_key : ExtendedPrivKey) (branch index : Z) (target_public_key : list Z)
  : result (option ExtendedPrivKey) PsktError :=
  if (1 <? branch) || (HARDENED_BIT <=? index) then Ok None
  else
    let? key := derive_child_key account_key index branch in
    let? derived_public_key := rmap_err (fun _ => DerivationFailed) (public_key_x_only key) in
    if negb (list_Z_eqb derived_public_key target_public_key) then Ok None else Ok (Some key).

Definition derive_standard_input_key (tx : Transaction) (input_index : Z) (account_key : ExtendedPrivKey)
    (target_public_key : list Z) : result (option ExtendedPrivKey) PsktError :=
  let input := input_at tx input_index in
  if has_derivation_hint input then
    derive_hinted_input_key account_key (derivation_branch input) (derivation_index input) target_public_key
  else
    match find_address_index_for_pubkey sha512 account_key target_public_key with
    | None => Ok None
    | Some (address_index, is_change) =>
        let? key := derive_child_key account_key address_index (flag is_change) in Ok (Some key)
    end.

Definition sign_standard_input (input_index : Z) (account_key : ExtendedPrivKey) (target_public_key : list Z)
    (ty : SigHashType.SigHashType) (signing_entropy : option (list Z)) : Comp Transaction PsktError bool :=
  let* key := reads (fun tx => derive_standard_input_key tx input_index account_key target_public_key) in
  match key with
  | None => ret false
  | Some key =>
      let* compressed := of_result (rmap_err (fun _ => DerivationFailed) (public_key_compressed key)) in
      let* _ := sign_single input_index 0 (Bip32.key key) compressed ty signing_entropy in
      ret true
  end.

(** The scalar of the account key's even point, tweaked. The tweak that
    cancels the key, which only its owner can name, makes the code panic; the
    encoding of the identity has no x-coordinate here. *)
Definition stealth_scalar (account_key tweak : list Z) : result Z PsktError :=
  let? scalar := ok_or (scalar_value account_key) DerivationFailed in
  let account_scalar :=
    if bool_decide (get_at (encode_point (generator_times scalar)) 0 = Some 0x03) then (- scalar) mod order else scalar in
  let? tweak := ok_or (scalar_value tweak) DerivationFailed in
  Ok ((account_scalar + tweak) mod order).

Definition sign_stealth_input (input_index : Z) (account_key : ExtendedPrivKey) (target_public_key : list Z)
    (ty : SigHashType.SigHashType) (signing_entropy : option (list Z)) : Comp Transaction PsktError bool :=
  let* combined_scalar := reads (fun tx => stealth_scalar (Bip32.key account_key) (stealth_tweak tx)) in
  let combined_public_key := encode_point (generator_times combined_scalar) in
  if negb (list_Z_eqb (range combined_public_key 1 33) target_public_key) then ret false
  else
    let* _ := sign_single input_index 0 (be_bytes 32 combined_scalar) combined_public_key ty signing_entropy in
    ret true.

(** [continue_account_signing] and [sign_stealth_if_present]; [sign_account_input]
    does the same. *)
Definition sign_target (input_index : Z) (account_key : ExtendedPrivKey) (target : option (list Z))
    (ty : SigHashType.SigHashType) (signing_entropy : option (list Z)) : Comp Transaction PsktError bool :=
  match target with
  | None => ret false
  | Some target =>
      let* signed := sign_standard_input input_index account_key target ty signing_entropy in
      if (signed : bool) then ret true
      else
        let* stealth := reads (fun tx => Ok (has_stealth_tweak tx)) in
        if (stealth : bool) then sign_stealth_input input_index account_key target ty signing_entropy else ret false
  end.

Definition sign_account_input_with_entropy (input_index : Z) (account_key : ExtendedPrivKey)
    (ty : SigHashType.SigHashType) (signing_entropy : list Z) : Comp Transaction PsktError bool :=
  let* target := reads (fun tx => checked_target tx input_index) in
  sign_target input_index account_key target ty (Some signing_entropy).

Definition sign_account_input (input_index : Z) (account_key : ExtendedPrivKey) (ty : SigHashType.SigHashType)
    (signing_entropy : option (list Z)) : Comp Transaction PsktError bool :=
  let* target := reads (fun tx => Ok (p2pk_target tx input_index)) in
  sign_target input_index account_key target ty signing_entropy.

Definition sign_transaction_multi_addr_account (account_key : ExtendedPrivKey) (ty : SigHashType.SigHashType)
    (signing_entropy : option (list Z)) : Comp Transaction PsktError Z :=
  let* _ := reads validate_base_transaction in
  let* inputs := reads (fun tx => Ok (input_indices tx)) in
  let* signed_count := for_count inputs (fun input_index =>
    let* signed := sign_account_input input_index account_key ty signing_entropy in ret (flag signed)) in
  of_result (signed_count_result signed_count).

Definition sign_transaction_multi_addr (seed : list Z) (ty : SigHashType.SigHashType)
    (signing_entropy : option (list Z)) : Comp Transaction PsktError Z :=
  let* account_key := of_result (rmap_err (fun _ => DerivationFailed) (derive_account_key sha512 seed)) in
  sign_transaction_multi_addr_account account_key ty signing_entropy.

(** ** Signing with a context

    The context is state as well, since it caches address tables. *)

Definition Device : Type := Transaction * SigningContext.

(** A computation over the transaction that only reads the context. *)
Definition on_tx {A} (m : SigningContext -> Comp Transaction PsktError A) : Comp Device PsktError A := fun '(tx, c) =>
  let '(r, tx) := m c tx in (r, (tx, c)).

(** The loop over the seeds that stops at the first one with material. *)
Fixpoint first_material (material : Z -> SigningContext -> option SigningKeyMaterial * SigningContext)
  (seeds : list Z) (c : SigningContext) : option SigningKeyMaterial * SigningContext :=
  match seeds with
  | [] => (None, c)
  | seed :: seeds =>
      match material seed c with
      | (Some m, c) => (Some m, c)
      | (None, c) => first_material material seeds c
      end
  end.

Definition seed_indices (c : SigningContext) : list Z := seqZ 0 (num_seeds c).

(** *** [ms45.rs] *)

(** A key's position among the keys of the script. *)
Definition key_position (multisig : MultisigInfo) (xonly : list Z) : option Z :=
  (fun found => Z.of_nat (fst found)) <$> list_find (fun candidate => candidate = xonly)
    (take (Z.to_nat (n multisig)) (pubkeys multisig)).

(** Sign with one key and add the signature; the count of signatures added. *)
Definition sign_append (input_index position : Z) (material : SigningKeyMaterial) (ty : SigHashType.SigHashType)
    (signing_entropy : option (list Z)) : Comp Transaction PsktError Z := fun tx =>
  match sign_one tx input_index (private_key material) ty signing_entropy with
  | Err e => (Err e, tx)
  | Ok signature =>
      let '(added, input) :=
        append_signature signature (SigHashType.to_byte ty) position (compressed_public_key material) (input_at tx input_index) in
      (Ok (flag added), put_input input_index input tx)
  end.

Definition ms45_sign_input (input_index : Z) (multisig : MultisigInfo) (c : SigningContext) (ty : SigHashType.SigHashType)
    (signing_entropy : option (list Z)) (hint : Ms45Hint) : Comp Transaction PsktError Z :=
  for_count (seed_indices c) (fun seed_index =>
    match ms45_material c seed_index hint with
    | None => ret 0
    | Some material =>
        match key_position multisig (x_coordinate (compressed_public_key material)) with
        | None => ret 0
        | Some position =>
            let* present := reads (fun tx => Ok (has_pubkey_position (input_at tx input_index) position)) in
            if (present : bool) then ret 0 else sign_append input_index position material ty signing_entropy
        end
    end).

(** *** [covenant.rs] *)

Definition MAX_COVENANT_KEYS : Z := 8.

Definition resolve_execution_branches (script : list Z) (supplied_mask supplied_true_mask : Z)
  : result Resolver.BranchResolution PsktError :=
  if negb (Z.land supplied_true_mask (Z.lxor u16_max supplied_mask) =? 0) then Err InvalidModel
  else
    let? resolved := rmap_err (fun _ => InvalidModel) (Resolver.resolve_covenant_branches script) in
    if negb (supplied_mask =? Resolver.selector_mask resolved) then Err InvalidModel
    else if MAX_COVENANT_KEYS <? blen (Resolver.keys resolved) then Err InvalidModel
    else Ok resolved.

(** [CandidateKeys]: the active keys with their positions. *)
Definition collect_active_candidate_keys (resolved : Resolver.BranchResolution) (supplied_mask supplied_true_mask : Z)
  : list (list Z * Z) :=
  omap (fun '(position, binding) =>
    if Resolver.matches_selectors binding supplied_mask supplied_true_mask
    then Some (Resolver.key binding, position) else None)
    (imap (fun position binding => (Z.of_nat position, binding)) (Resolver.keys resolved)).

Definition require_single_active_candidate (candidates : list (list Z * Z)) : result (list (list Z * Z)) PsktError :=
  if negb (blen candidates =? 1) then Err InvalidModel else Ok candidates.

Definition scan_active_candidate_keys (script : list Z) (supplied_mask supplied_true_mask : Z)
  : result (list (list Z * Z)) PsktError :=
  let? resolved := resolve_execution_branches script supplied_mask supplied_true_mask in
  require_single_active_candidate (collect_active_candidate_keys resolved supplied_mask supplied_true_mask).

Definition candidate_keys_for_input (tx : Transaction) (input_index : Z) : result (list (list Z * Z)) PsktError :=
  let? input := ok_or (get_at (tx_inputs tx) input_index) InvalidModel in
  if negb (covenant_execution_present input) then Err InvalidModel
  else
    let? script := checked_redeem_bytes tx input_index in
    scan_active_candidate_keys script (covenant_execution_mask input) (covenant_execution_true_mask input).

Definition seed_is_active (active_seed_index : option Z) (seed_index : Z) : bool :=
  match active_seed_index with None => true | Some active => active =? seed_index end.

Definition covenant_material (seed_index : Z) (target : list Z) (c : SigningContext)
  : option SigningKeyMaterial * SigningContext :=
  if bool_decide (account_xonly c seed_index = Some target) then (account_material c seed_index, c)
  else
    match cached_address_material seed_index target c with
    | (Some material, c) => (Some material, c)
    | (None, c) => (kip22_material c seed_index target, c)
    end.

(** Sign with the first material found, if any. *)
Definition sign_with_first (find : SigningContext -> option SigningKeyMaterial * SigningContext)
    (sign : SigningKeyMaterial -> Comp Transaction PsktError Z) : Comp Device PsktError Z := fun '(tx, c) =>
  match find c with
  | (None, c) => (Ok 0, (tx, c))
  | (Some material, c) => let '(r, tx) := sign material tx in (r, (tx, c))
  end.

Definition sign_covenant_candidate (input_index : Z) (ty : SigHashType.SigHashType) (active_seed_index : option Z)
    (signing_entropy : option (list Z)) (candidate : list Z * Z) : Comp Device PsktError Z :=
  let '(target, position) := candidate in
  sign_with_first
    (fun c => first_material (fun seed_index => covenant_material seed_index target)
                (List.filter (seed_is_active active_seed_index) (seed_indices c)) c)
    (fun material =>
      let* _ := sign_single input_index position (private_key material) (compressed_public_key material) ty signing_entropy in
      ret 1).

(** The loop over the candidates stops at the first one signed. *)
Fixpoint sign_covenant_candidates (input_index : Z) (ty : SigHashType.SigHashType) (active_seed_index : option Z)
    (signing_entropy : option (list Z)) (candidates : list (list Z * Z)) : Comp Device PsktError Z :=
  match candidates with
  | [] => ret 0
  | candidate :: candidates =>
      let* signed := sign_covenant_candidate input_index ty active_seed_index signing_entropy candidate in
      if negb (signed =? 0) then ret 1
      else sign_covenant_candidates input_index ty active_seed_index signing_entropy candidates
  end.

Definition sign_covenant_input (input_index : Z) (ty : SigHashType.SigHashType) (active_seed_index : option Z)
    (signing_entropy : option (list Z)) : Comp Device PsktError Z :=
  let* count := reads (fun '(tx, _) => Ok (sig_count (input_at tx input_index))) in
  if negb (count =? 0) then ret 0
  else
    let* candidates := reads (fun '(tx, _) => candidate_keys_for_input tx input_index) in
    sign_covenant_candidates input_index ty active_seed_index signing_entropy candidates.

(** *** [multisig.rs] *)

Definition sign_p2pk_input (input_index : Z) (ty : SigHashType.SigHashType) (signing_entropy : option (list Z))
  : Comp Device PsktError Z :=
  let* count := reads (fun '(tx, _) => Ok (sig_count (input_at tx input_index))) in
  if negb (count =? 0) then ret 0
  else
    let* target := reads (fun '(tx, _) => Ok (range (spk_script (script_public_key (utxo_entry (input_at tx input_index)))) 1 33)) in
    sign_with_first
      (fun c => first_material (fun seed_index c => (direct_address_material c seed_index target, c)) (seed_indices c) c)
      (fun material =>
        let* _ := sign_single input_index 0 (private_key material) (compressed_public_key material) ty signing_entropy in
        ret 1).

Definition account_position (c : SigningContext) (multisig : MultisigInfo) (seed_index : Z) : option Z :=
  if num_seeds c <=? seed_index then None
  else xonly ← account_xonly c seed_index; key_position multisig xonly.

Definition account_positions (c : SigningContext) (multisig : MultisigInfo) : list (option Z) :=
  map (account_position c multisig) (seqZ 0 8).

Definition multisig_material (positions : list (option Z)) (position : Z) (target : list Z) (seed_index : Z)
    (c : SigningContext) : option SigningKeyMaterial * SigningContext :=
  match slot_at positions seed_index with
  | Some own => if own =? position then (account_material c seed_index, c) else (None, c)
  | None => cached_address_material seed_index target c
  end.

Definition sign_multisig_position (input_index : Z) (multisig : MultisigInfo) (ty : SigHashType.SigHashType)
    (signing_entropy : option (list Z)) (positions : list (option Z)) (pubkey_position : Z) : Comp Device PsktError Z :=
  let* present := reads (fun '(tx, _) => Ok (has_pubkey_position (input_at tx input_index) pubkey_position)) in
  if (present : bool) then ret 0
  else
    let target := default (zeros 32) (get_at (pubkeys multisig) pubkey_position) in
    sign_with_first
      (fun c => first_material (multisig_material positions pubkey_position target) (seed_indices c) c)
      (fun material => sign_append input_index pubkey_position material ty signing_entropy).

Definition sign_multisig_input (input_index : Z) (multisig : MultisigInfo) (ty : SigHashType.SigHashType)
    (signing_entropy : option (list Z)) : Comp Device PsktError Z :=
  let* hint := reads (fun '(tx, _) => Ok (ms45_hint (input_at tx input_index))) in
  if h_present hint then on_tx (fun c => ms45_sign_input input_index multisig c ty signing_entropy hint)
  else
    let* positions := reads (fun '(_, c) => Ok (account_positions c multisig)) in
    for_count (seqZ 0 (n multisig)) (sign_multisig_position input_index multisig ty signing_entropy positions).

Definition sign_supported_input (ty : SigHashType.SigHashType) (active_seed_idx : option Z)
    (signing_entropy : option (list Z)) (input_index : Z) : Comp Device PsktError Z :=
  let* script := reads (fun '(tx, _) => Ok (analyze_input_script tx input_index)) in
  match script with
  | (P2PK, _) => sign_p2pk_input input_index ty signing_entropy
  | (TxModel.Multisig, Some info) | (P2SH, Some info) => sign_multisig_input input_index info ty signing_entropy
  | (P2SH, None) => sign_covenant_input input_index ty active_seed_idx signing_entropy
  | _ => ret 0
  end.

Definition sign_all (ty : SigHashType.SigHashType) (active_seed_idx : option Z) (signing_entropy : option (list Z))
  : Comp Device PsktError Z :=
  let* _ := reads (fun '(tx, _) => validate_base_transaction tx) in
  let* inputs := reads (fun '(tx, _) => Ok (input_indices tx)) in
  let* total_added := for_count inputs (sign_supported_input ty active_seed_idx signing_entropy) in
  of_result (signed_count_result total_added).

(** The context is dropped afterwards. *)
Definition with_context {A} (c : SigningContext) (m : Comp Device PsktError A) : Comp Transaction PsktError A := fun tx =>
  let '(r, (tx, _)) := m (tx, c) in (r, tx).

Definition sign_transaction_with_context (context : SigningContext) (ty : SigHashType.SigHashType)
    (active_seed_idx : option Z) (signing_entropy : option (list Z)) : Comp Transaction PsktError Z :=
  with_context context (sign_all ty active_seed_idx signing_entropy).

Definition sign_transaction_multisig (seeds : list (list Z * bool)) (ty : SigHashType.SigHashType)
    (active_seed_idx : option Z) (signing_entropy : option (list Z)) : Comp Transaction PsktError Z :=
  sign_transaction_with_context (from_seeds seeds) ty active_seed_idx signing_entropy.

Definition sign_transaction_multisig_accounts_with_entropy (accounts : list (list Z * bool)) (ty : SigHashType.SigHashType)
    (active_account_idx : option Z) (signing_entropy : list Z) : Comp Transaction PsktError Z :=
  sign_transaction_with_context (from_account_raw accounts) ty active_account_idx (Some signing_entropy).

(** *** [multisig/accounts.rs] *)

Definition sign_covenant_account_input (input_index : Z) (ty : SigHashType.SigHashType) (active_account_idx : option Z)
    (signing_entropy : list Z) (script_type : ScriptType) : Comp Device PsktError Z :=
  if negb (bool_decide (script_type = P2SH)) then ret 0
  else sign_covenant_input input_index ty active_account_idx (Some signing_entropy).

Definition sign_non_p2pk_account_input (input_index : Z) (ty : SigHashType.SigHashType) (active_account_idx : option Z)
    (signing_entropy : list Z) (classification : ScriptType * option MultisigInfo) : Comp Device PsktError Z :=
  match snd classification with
  | Some info => sign_multisig_input input_index info ty (Some signing_entropy)
  | None => sign_covenant_account_input input_index ty active_account_idx signing_entropy (fst classification)
  end.

Definition sign_classified_account_input (input_index : Z) (ty : SigHashType.SigHashType) (active_account_idx : option Z)
    (signing_entropy : list Z) (classification : ScriptType * option MultisigInfo) : Comp Device PsktError Z :=
  if bool_decide (fst classification = P2PK) then sign_p2pk_input input_index ty (Some signing_entropy)
  else sign_non_p2pk_account_input input_index ty active_account_idx signing_entropy classification.

Definition sign_account_context_input (context : SigningContext) (input_index : Z) (ty : SigHashType.SigHashType)
    (active_account_idx : option Z) (signing_entropy : list Z) : Comp Transaction PsktError Z :=
  with_context context (
    let* classification := reads (fun '(tx, _) => Ok (analyze_input_script tx input_index)) in
    sign_classified_account_input input_index ty active_account_idx signing_entropy classification).

Definition sign_multisig_account_sets_input_with_entropy (input_index : Z) (accounts ms45_accounts : list (list Z * bool))
    (ty : SigHashType.SigHashType) (active_account_idx : option Z) (signing_entropy : list Z)
  : Comp Transaction PsktError Z :=
  let* _ := reads validate_base_transaction in
  let* _ := reads (fun tx => ensure_input_index tx input_index) in
  sign_account_context_input (from_account_sets accounts ms45_accounts) input_index ty active_account_idx signing_entropy.

Definition sign_multisig_accounts_input_with_entropy (input_index : Z) (accounts : list (list Z * bool))
    (ty : SigHashType.SigHashType) (active_account_idx : option Z) (signing_entropy : list Z)
  : Comp Transaction PsktError Z :=
  let* _ := reads validate_base_transaction in
  let* _ := reads (fun tx => ensure_input_index tx input_index) in
  sign_account_context_input (from_account_raw accounts) input_index ty active_account_idx signing_entropy.

End signing.

(** ** [status.rs] *)

Definition signature_status (keyed : list Z -> list Z -> list Z) `{Bip340} (tx : Transaction) : Z * Z :=
  Verification.kspt_status keyed verifies tx.
Definition is_fully_signed (keyed : list Z -> list Z -> list Z) `{Bip340} (tx : Transaction) : bool :=
  Verification.kspt_is_fully_signed keyed verifies tx.
