(* ===== verification/SigningProofs.v ===== *)
(** * What signing does

    Signing leaves everything a signature commits to as it is, keeps the
    signatures an input has, and adds only valid ones; an account that owns
    every input of a transaction signs it completely. *)

From S2P Require Import Prelude Bytes Script Hd HdProofs Keys TxModel Sighash Branch Schnorr SigCheck SigProofs KsptCodec KsptCopy Signing.
Import TxModel Bip32 Verification.

(** ** The transaction without its signatures *)

Definition bare (i : TransactionInput) : TransactionInput := set_sigs [] 0 0 i.
Definition bare_tx (tx : Transaction) : Transaction := set_inputs (map bare (tx_inputs tx)) tx.

Lemma slice_map {A B} (f : A -> B) l i j : slice (map f l) i j = map f <$> slice l i j.
Proof.
  unfold slice. replace (blen (map f l)) with (blen l) by (unfold blen; by rewrite length_map). destruct (_ && _); [|done]. cbn [fmap option_fmap option_map]. f_equal.
  change (map f) with (fmap (M := list) f). by rewrite fmap_take, fmap_drop.
Qed.

Lemma get_at_bare tx i : get_at (tx_inputs (bare_tx tx)) i = bare <$> get_at (tx_inputs tx) i.
Proof. apply get_at_map. Qed.

Lemma sighash_input_bare tx i : sighash_input (bare_tx tx) i = sighash_input tx i.
Proof.
  unfold sighash_input, inputs. cbn [bare_tx set_inputs tx_inputs num_inputs]. rewrite slice_map.
  destruct (slice (tx_inputs tx) 0 (num_inputs tx)) as [l|]; cbn [fmap option_fmap option_map default from_option id]; [|done].
  rewrite get_at_map. by destruct (get_at l i).
Qed.

Section content.
Context (keyed : list Z -> list Z -> list Z) (schnorr_verify : list Z -> list Z -> list Z -> bool).

Lemma sighash_bare tx i ty : calculate_sighash keyed (bare_tx tx) i ty = calculate_sighash keyed tx i ty.
Proof.
  unfold calculate_sighash, sighash_preimage, previous_outputs_hash, sequences_hash, sig_op_counts_hash, outputs_hash, payload_hash.
  change (s_input (bare_tx tx)) with (sighash_input (bare_tx tx)). change (s_input tx) with (sighash_input tx).
  rewrite sighash_input_bare.
  rewrite (each_ext _ (fun index => let input := sighash_input (bare_tx tx) index in si_transaction_id input ++ le_bytes 4 (si_index input))
    (fun index => let input := sighash_input tx index in si_transaction_id input ++ le_bytes 4 (si_index input))) by (intros; by rewrite sighash_input_bare).
  rewrite (each_ext _ (fun index => le_bytes 8 (si_sequence (sighash_input (bare_tx tx) index)))
    (fun index => le_bytes 8 (si_sequence (sighash_input tx index)))) by (intros; by rewrite sighash_input_bare).
  by rewrite (each_ext _ (fun index => [si_sig_op_count (sighash_input (bare_tx tx) index)])
    (fun index => [si_sig_op_count (sighash_input tx index)])) by (intros; by rewrite sighash_input_bare).
Qed.

Lemma redeem_bare tx i : checked_redeem_bytes (bare_tx tx) i = checked_redeem_bytes tx i.
Proof.
  unfold checked_redeem_bytes. rewrite get_at_bare. cbn [bare_tx set_inputs tx_inputs num_inputs].
  replace (blen (map bare (tx_inputs tx))) with (blen (tx_inputs tx)) by (unfold blen; by rewrite length_map).
  by destruct (get_at (tx_inputs tx) i).
Qed.

Lemma analyze_bare tx i : analyze_input_script (bare_tx tx) i = analyze_input_script tx i.
Proof.
  unfold analyze_input_script, try_analyze_input_script. rewrite get_at_bare, redeem_bare. cbn [bare_tx set_inputs num_inputs].
  by destruct (get_at (tx_inputs tx) i).
Qed.

Lemma resolved_bare tx i :
  resolved_execution (bare_tx tx) i = (let? (input, resolved) := resolved_execution tx i in Ok (bare input, resolved)).
Proof.
  unfold resolved_execution. rewrite get_at_bare, redeem_bare. destruct (get_at (tx_inputs tx) i) as [input|]; [|done].
  cbn [fmap option_fmap option_map ok_or rbind]. destruct (checked_redeem_bytes tx i); [|done]. cbn [rmap_err rbind].
  destruct (Resolver.resolve_covenant_branches _); [|done]. cbn [rmap_err rbind].
  change (validate_covenant_execution_binding (bare input)) with (validate_covenant_execution_binding input).
  by destruct (validate_covenant_execution_binding input _).
Qed.

Lemma position_matches_bare tx i p :
  covenant_position_matches_execution (bare_tx tx) i p = covenant_position_matches_execution tx i p.
Proof. unfold covenant_position_matches_execution. rewrite resolved_bare. by destruct (resolved_execution tx i) as [[]|]. Qed.

Lemma required_bare tx i : required_for_input (bare_tx tx) i = required_for_input tx i.
Proof.
  unfold required_for_input, covenant_required_for_execution. rewrite analyze_bare, resolved_bare.
  by destruct (resolved_execution tx i) as [[]|].
Qed.

Lemma expected_bare tx i p : expected_xonly_for_position (bare_tx tx) i p = expected_xonly_for_position tx i p.
Proof.
  unfold expected_xonly_for_position, p2pk_xonly_for_position, covenant_xonly_for_position.
  rewrite analyze_bare, get_at_bare, redeem_bare. by destruct (get_at (tx_inputs tx) i).
Qed.

Lemma verify_bare tx i p ty signature :
  verify_signature_bytes keyed schnorr_verify (bare_tx tx) i p ty signature
  = verify_signature_bytes keyed schnorr_verify tx i p ty signature.
Proof. unfold verify_signature_bytes. by rewrite expected_bare, analyze_bare, position_matches_bare, sighash_bare. Qed.

(** Transactions with the same content verify the same signatures. *)
Lemma verify_content tx tx' i p ty signature : bare_tx tx = bare_tx tx' ->
  verify_signature_bytes keyed schnorr_verify tx i p ty signature
  = verify_signature_bytes keyed schnorr_verify tx' i p ty signature.
Proof. intros Heq. by rewrite <- verify_bare, Heq, verify_bare. Qed.

(** ** Valid slots *)

Definition good_slot (tx : Transaction) (i : Z) (slot : InputSig) : Prop :=
  sg_present slot = true /\
  verify_signature_bytes keyed schnorr_verify tx i (sg_pubkey_pos slot) (sg_sighash_type slot) (sg_signature slot) = Ok tt.

(** The used slots of an input hold valid signatures at distinct positions. *)
Definition valid_sigs (tx : Transaction) (i : Z) (input : TransactionInput) : Prop :=
  exists front back, sigs input = front ++ back /\ blen front = sig_count input /\ blen (sigs input) = MAX_SIGS_PER_INPUT /\
    Forall (good_slot tx i) front /\ NoDup (map sg_pubkey_pos front) /\ Forall (fun slot => sg_present slot = false) back.

Lemma good_slot_content tx tx' i slot : bare_tx tx = bare_tx tx' -> good_slot tx i slot <-> good_slot tx' i slot.
Proof. intros Heq. unfold good_slot. by rewrite (verify_content tx tx') by done. Qed.

Lemma valid_sigs_content tx tx' i input : bare_tx tx = bare_tx tx' -> valid_sigs tx i input -> valid_sigs tx' i input.
Proof.
  intros Heq (front & back & H1 & H2 & H3 & H4 & H5). exists front, back. split_and!; try done; [|apply H5..].
  eapply Forall_impl; [exact H4|]. intros slot. by apply good_slot_content.
Qed.

Lemma fold_front tx i declared front : forall k seen count, Z.of_nat k + blen front <= declared ->
  0 <= count -> count + blen front <= u8_max -> forall out,
  (exists seen', try_fold (verify_kspt_slot keyed schnorr_verify tx i declared) (seen, count)
     (imap (fun j slot => (Z.of_nat (k + j), slot)) front) = Ok (seen', out)) <->
  Forall (good_slot tx i) front /\ NoDup (map sg_pubkey_pos front) /\
  Forall (fun slot => sg_pubkey_pos slot ∉ seen) front /\ out = count + blen front.
Proof.
  induction front as [|slot front IH]; intros k seen count Hk H0 Hmax out.
  - change (blen []) with 0. rewrite Z.add_0_r. cbn. split; [intros [? [= _ <-]]; by split_and!; constructor|].
    intros (_ & _ & _ & ->). by eexists.
  - rewrite blen_cons in *. pose proof (blen_nonneg front). cbn [imap try_fold map].
    rewrite (imap_ext _ (fun j slot => (Z.of_nat (S k + j), slot)) front) by (intros; cbn; do 2 f_equal; lia).
    unfold verify_kspt_slot at 1. rewrite (proj2 (Z.leb_gt _ _)) by lia. rewrite !Forall_cons, NoDup_cons. unfold good_slot at 1.
    destruct (sg_present slot); cbn [negb]; [|split; [by intros []|by intros [[[]]]]].
    unfold mark_signature_position. case_bool_decide as Hin; cbn [rbind].
    { split; [by intros []|]. by intros (_ & _ & [] & _). }
    destruct (verify_signature_bytes _ _ _ _ _ _ _) as [[]|]; cbn [rbind]; [|split; [by intros []|by intros [[[]]]]].
    rewrite Z.min_r by (unfold u8_max in *; lia). rewrite IH by lia. rewrite !Forall_forall. split.
    + intros (Hg & Hnd & Hf & ->). split_and!; try done; [|intros s Hs; set_solver|lia].
      intros Hbad. apply list_elem_of_fmap in Hbad as (s & Heq & Hs). specialize (Hf s Hs). set_solver.
    + intros ((_ & Hg) & [Hnin Hnd] & [_ Hf] & ->). split_and!; try done; [|lia]. intros s Hs Hbad. apply elem_of_union in Hbad as [Heq|Hbad].
      * apply Hnin, list_elem_of_fmap. exists s. set_solver.
      * by apply (Hf s).
Qed.

Lemma fold_back tx i declared back : forall k state, declared <= Z.of_nat k -> forall out,
  try_fold (verify_kspt_slot keyed schnorr_verify tx i declared) state
    (imap (fun j slot => (Z.of_nat (k + j), slot)) back) = Ok out <->
  Forall (fun slot => sg_present slot = false) back /\ out = state.
Proof.
  induction back as [|slot back IH]; intros k [seen count] Hk out; cbn [imap try_fold].
  - split; [intros [= <-]; by split|by intros [_ ->]].
  - rewrite (imap_ext _ (fun j slot => (Z.of_nat (S k + j), slot)) back) by (intros; cbn; do 2 f_equal; lia).
    unfold verify_kspt_slot at 1. rewrite (proj2 (Z.leb_le _ _)) by lia. rewrite Forall_cons.
    destruct (sg_present slot); cbn [rbind]; [split; [done|by intros [[]]]|]. rewrite IH by lia. tauto.
Qed.

(** The verified count of an input is its number of used slots, when these are
    valid. *)
Lemma verified_count_iff tx i input k : blen (sigs input) = MAX_SIGS_PER_INPUT -> 0 <= sig_count input ->
  verified_kspt_count keyed schnorr_verify tx i input = Ok k <-> valid_sigs tx i input /\ k = sig_count input.
Proof.
  intros Hfive H0. unfold verified_kspt_count, valid_sigs. rewrite Hfive. destruct (Z.ltb_spec MAX_SIGS_PER_INPUT (sig_count input)) as [Hbig|Hsmall].
  { split; [done|]. intros ((front & back & Heq & Hlen & _) & _). rewrite Heq, blen_app in Hfive. pose proof (blen_nonneg back). lia. }
  set (front := take (Z.to_nat (sig_count input)) (sigs input)). set (back := drop (Z.to_nat (sig_count input)) (sigs input)).
  assert (Hsplit : sigs input = front ++ back) by (symmetry; apply take_drop).
  assert (Hfront : blen front = sig_count input) by (unfold front, blen in *; rewrite length_take; lia).
  assert (Hf := fold_front tx i (sig_count input) front 0 ∅ 0 ltac:(lia) ltac:(lia) ltac:(unfold MAX_SIGS_PER_INPUT, u8_max in *; lia)).
  rewrite Hsplit, imap_app, try_fold_app.
  change (imap (fun (j : nat) slot => (Z.of_nat j, slot)) front) with (imap (fun (j : nat) slot => (Z.of_nat (0 + j), slot)) front).
  split.
  - intros ([seen count] & (st & H1 & H2)%rbind_Ok_inv & [= ->])%rbind_Ok_inv. apply fold_back in H2 as [Hb <-]; [|unfold blen in *; lia].
    destruct (proj1 (Hf k)) as (Hg & Hnd & _ & ->); [by eexists|]. split; [|lia]. exists front, back. by rewrite <- Hsplit.
  - intros [(f & b & Heq & Hlen & _ & Hg & Hnd & Hb) ->].
    assert (f = front) as ->. { apply (f_equal (take (Z.to_nat (sig_count input)))) in Heq. fold front in Heq.
      rewrite take_app_length' in Heq by (unfold front, blen in *; lia). rewrite take_app_length' in Heq by (unfold blen in *; lia). done. }
    apply app_inv_head in Heq as <-. destruct (proj2 (Hf (sig_count input))) as [seen' Hrun].
    { repeat (split; [done|]). split; [|lia]. apply Forall_forall. set_solver. }
    rewrite Hrun. cbn [rbind]. destruct (fold_back tx i (sig_count input) back (length front) (seen', sig_count input)) with (out := (seen', sig_count input)) as [_ Hback]; [unfold blen in *; lia|].
    by rewrite Hback.
Qed.
End content.

(** ** One signature more *)

Definition slots_ok (input : TransactionInput) : Prop := blen (sigs input) = MAX_SIGS_PER_INPUT /\ 0 <= sig_count input.

(** The sizes the types guarantee, and the inputs the base checks ask for. *)
Definition signable (tx : Transaction) : Prop :=
  num_inputs tx <= blen (tx_inputs tx) /\ Forall slots_ok (tx_inputs tx).

(** The signatures of the used inputs. *)
Definition sig_total (tx : Transaction) : Z :=
  foldr Z.add 0 (map sig_count (take (Z.to_nat (num_inputs tx)) (tx_inputs tx))).

(** The used slots of one input are the first slots of the other. *)
Definition kept_slots (before after : TransactionInput) : Prop :=
  sig_count before <= sig_count after /\
  take (Z.to_nat (sig_count before)) (sigs after) = take (Z.to_nat (sig_count before)) (sigs before).

Lemma kept_refl i : kept_slots i i.
Proof. by split. Qed.

Lemma kept_trans a b c : kept_slots a b -> kept_slots b c -> kept_slots a c.
Proof.
  intros [H1 H2] [H3 H4]. split; [lia|]. apply (f_equal (take (Z.to_nat (sig_count a)))) in H4.
  rewrite !take_take, !Nat.min_l in H4 by lia. congruence.
Qed.

Lemma input_at_range tx i : 0 <= i < num_inputs tx -> num_inputs tx <= blen (tx_inputs tx) ->
  tx_inputs tx !! Z.to_nat i = Some (input_at tx i) /\ get_at (tx_inputs tx) i = Some (input_at tx i).
Proof.
  intros Hi Hn. destruct (lookup_lt_is_Some_2 (tx_inputs tx) (Z.to_nat i)) as [x Hx]; [unfold blen in *; lia|].
  unfold input_at, get_at. rewrite (proj2 (Z.leb_le 0 i)) by lia. by rewrite Hx.
Qed.

Lemma input_at_put tx i j input : 0 <= i < num_inputs tx -> 0 <= j -> num_inputs tx <= blen (tx_inputs tx) ->
  input_at (put_input i input tx) j = if decide (j = i) then input else input_at tx j.
Proof.
  intros Hi Hj Hn. unfold input_at, put_input, get_at. cbn [set_inputs tx_inputs]. rewrite (proj2 (Z.leb_le 0 j)) by lia.
  destruct (decide (j = i)) as [->|Hne].
  - rewrite list_lookup_insert_eq by (unfold blen in *; lia). done.
  - by rewrite list_lookup_insert_ne by lia.
Qed.

Lemma bare_put tx i input : 0 <= i < num_inputs tx -> num_inputs tx <= blen (tx_inputs tx) ->
  bare input = bare (input_at tx i) -> bare_tx (put_input i input tx) = bare_tx tx.
Proof.
  intros Hi Hn Hbare. destruct (input_at_range tx i Hi Hn) as [Hl _]. unfold bare_tx, put_input. cbn [set_inputs tx_inputs].
  change (set_inputs (map bare (<[Z.to_nat i := input]> (tx_inputs tx))) tx = set_inputs (map bare (tx_inputs tx)) tx). f_equal.
  change (map bare) with (fmap (M := list) bare). rewrite list_fmap_insert. apply list_insert_id. by rewrite list_lookup_fmap, Hl, Hbare.
Qed.

Lemma sum_insert (l : list Z) k x y : l !! k = Some x -> foldr Z.add 0 (<[k := y]> l) = foldr Z.add 0 l + (y - x).
Proof.
  revert k. induction l as [|z l IH]; intros [|k] Hk; try done.
  - injection Hk as ->. cbn. lia.
  - change (z + foldr Z.add 0 (<[k := y]> l) = z + foldr Z.add 0 l + (y - x)). rewrite (IH k Hk). lia.
Qed.

Lemma sig_total_put tx i input : 0 <= i < num_inputs tx -> num_inputs tx <= blen (tx_inputs tx) ->
  sig_total (put_input i input tx) = sig_total tx + (sig_count input - sig_count (input_at tx i)).
Proof.
  intros Hi Hn. destruct (input_at_range tx i Hi Hn) as [Hl _]. unfold sig_total, put_input. cbn [set_inputs tx_inputs num_inputs].
  rewrite take_insert_lt by lia. change (map sig_count) with (fmap (M := list) sig_count). rewrite list_fmap_insert. apply sum_insert.
  rewrite list_lookup_fmap, lookup_take_lt by lia. by rewrite Hl.
Qed.

Section extend.
Context (keyed : list Z -> list Z -> list Z) (schnorr_verify : list Z -> list Z -> list Z -> bool).

(** Some valid signatures more, and nothing else changed. *)
Definition extends (tx : Transaction) (added : Z) (tx' : Transaction) : Prop :=
  bare_tx tx = bare_tx tx' /\ signable tx' /\ 0 <= added /\ sig_total tx' = sig_total tx + added /\
  forall i, 0 <= i < num_inputs tx -> valid_sigs keyed schnorr_verify tx i (input_at tx i) ->
    valid_sigs keyed schnorr_verify tx' i (input_at tx' i) /\ kept_slots (input_at tx i) (input_at tx' i).

Lemma extends_refl tx : signable tx -> extends tx 0 tx.
Proof. intros Hs. split; [done|]. split; [done|]. split; [lia|]. split; [lia|]. intros i _ Hv. split; [done|apply kept_refl]. Qed.

Lemma bare_num tx tx' : bare_tx tx = bare_tx tx' -> num_inputs tx = num_inputs tx'.
Proof. intros Heq. by apply (f_equal num_inputs) in Heq. Qed.

Lemma extends_trans tx a tx' b tx'' : extends tx a tx' -> extends tx' b tx'' -> extends tx (a + b) tx''.
Proof.
  intros (H1 & H2 & H3 & H4 & H5) (G1 & G2 & G3 & G4 & G5). split; [congruence|]. split; [done|]. split; [lia|]. split; [lia|].
  intros i Hi Hv. destruct (H5 i Hi Hv) as [Hv' Hk]. rewrite (bare_num _ _ H1) in Hi. destruct (G5 i Hi Hv') as [Hv'' Hk'].
  split; [done|]. by eapply kept_trans.
Qed.

(** Replacing the slots of one input. *)
Lemma extends_put tx i slots count ty : signable tx -> 0 <= i < num_inputs tx ->
  let input := set_sigs slots count ty (input_at tx i) in
  slots_ok input -> sig_count (input_at tx i) <= count ->
  (valid_sigs keyed schnorr_verify tx i (input_at tx i) ->
    valid_sigs keyed schnorr_verify tx i input /\ kept_slots (input_at tx i) input) ->
  extends tx (count - sig_count (input_at tx i)) (put_input i input tx).
Proof.
  intros [Hn Hall] Hi input Hok Hcount Hvalid. assert (Hbare : bare_tx (put_input i input tx) = bare_tx tx) by (by apply bare_put).
  split; [done|]. split.
  { split; [cbn; unfold blen in *; by rewrite length_insert|]. by apply Forall_insert. }
  split; [lia|]. split; [by apply sig_total_put|]. intros j Hj Hv. rewrite input_at_put by (done || lia).
  destruct (decide (j = i)) as [->|].
  - destruct (Hvalid Hv) as [Hv' Hk]. split; [|done]. by eapply valid_sigs_content.
  - split; [by eapply valid_sigs_content|apply kept_refl].
Qed.

Lemma slots_at tx i : signable tx -> 0 <= i < num_inputs tx -> slots_ok (input_at tx i).
Proof.
  intros [Hn Hall] Hi. destruct (input_at_range tx i Hi Hn) as [Hl _]. rewrite Forall_forall in Hall.
  apply Hall. by eapply list_elem_of_lookup_2.
Qed.

(** The single signature of an input. *)
Lemma single_valid tx i signature ty p compressed input : slots_ok input ->
  verify_signature_bytes keyed schnorr_verify tx i p ty signature = Ok tt ->
  valid_sigs keyed schnorr_verify tx i (set_single_signature signature ty p compressed input) /\
  slots_ok (set_single_signature signature ty p compressed input).
Proof.
  intros [Hfive H0] Hver. assert (Hlen : blen (filled_slot signature ty p compressed :: map cleared_slot (drop 1 (sigs input))) = MAX_SIGS_PER_INPUT).
  { rewrite blen_cons. unfold blen in *. rewrite length_map, length_drop. unfold MAX_SIGS_PER_INPUT in *. lia. }
  split; [|by split]. exists [filled_slot signature ty p compressed], (map cleared_slot (drop 1 (sigs input))).
  split_and!; try done; [by repeat constructor|by repeat constructor; set_solver|].
  apply Forall_map, Forall_forall. done.
Qed.

(** A slot appended after the valid ones. *)
Lemma append_valid tx i signature ty p compressed input :
  has_pubkey_position input p = false -> sig_count input < MAX_SIGS_PER_INPUT -> slots_ok input ->
  verify_signature_bytes keyed schnorr_verify tx i p ty signature = Ok tt ->
  let after := set_sigs (<[Z.to_nat (sig_count input) := filled_slot signature ty p compressed]> (sigs input)) (sig_count input + 1) ty input in
  slots_ok after /\
  (valid_sigs keyed schnorr_verify tx i input -> valid_sigs keyed schnorr_verify tx i after /\ kept_slots input after).
Proof.
  intros Hfresh Hroom [Hfive H0] Hver after. split.
  { split; [cbn; unfold blen in *; by rewrite length_insert|cbn; lia]. }
  intros (front & back & Hsplit & Hlen & _ & Hg & Hnd & Hb). rewrite Hsplit, blen_app in Hfive.
  destruct back as [|slot back]; [change (blen []) with 0 in Hfive; lia|].
  assert (Hput : <[Z.to_nat (sig_count input) := filled_slot signature ty p compressed]> (sigs input)
    = (front ++ [filled_slot signature ty p compressed]) ++ back).
  { rewrite Hsplit, insert_app_r_alt by (unfold blen in *; lia). replace (Z.to_nat (sig_count input) - length front)%nat with 0%nat by (unfold blen in *; lia).
    cbn [insert list_insert]. by rewrite <- app_assoc. }
  split.
  - exists (front ++ [filled_slot signature ty p compressed]), back. split; [done|]. split; [rewrite blen_app, Hlen; done|].
    split; [cbn [after set_sigs sigs]; rewrite Hput; autorewrite with blen in *; lia|]. split; [apply Forall_app; by repeat constructor|]. split; [|by apply Forall_cons in Hb as [_ Hb]].
    rewrite map_app. apply NoDup_app. split; [done|]. split; [|apply NoDup_singleton]. intros q Hq Hp. apply list_elem_of_singleton in Hp as ->.
    cbn [filled_slot sg_pubkey_pos] in Hq. apply list_elem_of_fmap in Hq as (s & -> & Hs). apply not_true_iff_false in Hfresh. apply Hfresh.
    unfold has_pubkey_position. apply existsb_exists. exists s. rewrite Z.min_l, Hsplit, take_app_length' by (unfold blen in *; lia).
    split; [by apply list_elem_of_In|]. rewrite Forall_forall in Hg. destruct (Hg s Hs) as [-> _]. by rewrite Z.eqb_refl.
  - split; [cbn; lia|]. cbn [after set_sigs sigs]. by rewrite take_insert_ge by lia.
Qed.
End extend.

(** ** Keys found for a script's key *)

Section device.
Context (sha512 sha256 : list Z -> list Z) (keyed : list Z -> list Z -> list Z) `{curve : Curve} `{bip : Bip340} `{laws : !Bip340Laws}.

(** Key material that signs for an x-only key. *)
Definition signs_for (target : list Z) (m : SigningKeyMaterial) : Prop :=
  compressed_pubkey_from_raw_key (private_key m) = Ok (compressed_public_key m) /\ x_coordinate (compressed_public_key m) = target.

(** A position of an input's script and the key it names. *)
Definition names_key (tx : Transaction) (i p : Z) (target : list Z) : Prop :=
  expected_xonly_for_position tx i p = Ok target /\
  (analyze_input_script tx i = (P2SH, None) -> covenant_position_matches_execution tx i p = Ok tt).

Lemma ok_option_Some {A E} (r : result A E) a : ok_option r = Some a <-> r = Ok a.
Proof. destruct r; naive_solver. Qed.

Lemma material_of_signs key m : material_of key = Some m ->
  compressed_pubkey_from_raw_key (private_key m) = Ok (compressed_public_key m) /\
  public_key_x_only key = Ok (x_coordinate (compressed_public_key m)).
Proof.
  unfold material_of, public_key_x_only. intros (pk & Hpk%ok_option_Some & [= <-])%bind_Some. cbn [private_key compressed_public_key].
  split; [done|]. by rewrite Hpk.
Qed.

(** The key at an index that a search found. *)
Lemma derived_signs account index change target m : key_at sha512 account change index = Some target ->
  derived_address_material sha512 account index change = Some m -> signs_for target m.
Proof.
  unfold key_at, derive_on, derived_address_material. intros Hat (key & Hkey%ok_option_Some & Hm)%bind_Some.
  rewrite Hkey in Hat. apply material_of_signs in Hm as [Hc Hx]. rewrite Hx in Hat. injection Hat as <-. by split.
Qed.

Lemma scanned_signs account target m : scanned_material sha512 account target = Some m -> signs_for target m.
Proof.
  unfold scanned_material. intros ([index change] & Hfind & Hm)%bind_Some. pose proof (find_address_index_spec sha512 account target) as Hspec.
  rewrite Hfind in Hspec. eapply derived_signs; [apply Hspec|exact Hm].
Qed.

(** What the installers of a context establish: the stored public keys are the
    account's, and a cached table is the account's. *)
Definition good_context (c : SigningContext) : Prop := forall seed,
  match slot_at (account_keys c) seed with
  | Some account => exists pk, public_key_compressed account = Ok pk /\
      slot_at (account_xonlys c) seed = Some (x_coordinate pk) /\ slot_at (account_compressed c) seed = Some pk
  | None => slot_at (account_xonlys c) seed = None
  end /\
  forall table, slot_at (address_tables c) seed = Some table ->
    exists account, slot_at (account_keys c) seed = Some account /\ table = build sha512 account.

Lemma account_signs c seed target m : good_context c -> account_xonly c seed = Some target ->
  account_material c seed = Some m -> signs_for target m.
Proof.
  intros Hc Hx (account & Ha & (pk & Hpk & [= <-])%bind_Some)%bind_Some. destruct (Hc seed) as [Hseed _]. rewrite Ha in Hseed.
  destruct Hseed as (pk' & Hacc & Hxs & Hcs). unfold account_xonly, public_key_compressed in *. assert (pk = pk') as -> by congruence. rewrite Hx in Hxs. injection Hxs as ->. by split.
Qed.

Lemma put_slot_at {A} (l : list (option A)) i j v : 0 <= i < blen l ->
  slot_at (put_slot i v l) j = if decide (j = i) then Some v else slot_at l j.
Proof.
  intros Hi. unfold slot_at, put_slot, get_at. destruct (decide (j = i)) as [->|Hne].
  - rewrite (proj2 (Z.leb_le 0 i)), list_lookup_insert_eq by (unfold blen in *; lia). done.
  - destruct (Z.leb_spec 0 j); [|done]. by rewrite list_lookup_insert_ne by lia.
Qed.

(** The lengths of the arrays of a context. *)
Definition sized (c : SigningContext) : Prop :=
  0 <= num_seeds c <= MAX_SEED_SLOTS /\ blen (account_keys c) = MAX_SEED_SLOTS /\ blen (account_xonlys c) = MAX_SEED_SLOTS /\
  blen (account_compressed c) = MAX_SEED_SLOTS /\ blen (address_tables c) = MAX_SEED_SLOTS.

Lemma blen_put_slot {A} i (v : A) l : blen (put_slot i v l) = blen l.
Proof. unfold blen, put_slot. by rewrite length_insert. Qed.

Lemma table_good c seed account : good_context c -> sized c -> 0 <= seed < num_seeds c ->
  slot_at (account_keys c) seed = Some account -> good_context (set_table seed (build sha512 account) c) /\ sized (set_table seed (build sha512 account) c).
Proof.
  intros Hc (Hn & H1 & H2 & H3 & H4) Hseed Hacc. split; [|split; [done|]; cbn; by rewrite blen_put_slot]. intros s. destruct (Hc s) as [Ha Ht].
  split; [exact Ha|]. cbn [set_table address_tables account_keys]. intros table Htab. rewrite put_slot_at in Htab by lia.
  destruct (decide (s = seed)) as [->|]; [|by apply Ht]. injection Htab as <-. by exists account.
Qed.

(** The cached table finds a key that signs. *)
Lemma cached_signs seed target c m c' : good_context c -> sized c -> 0 <= seed ->
  cached_address_material sha512 seed target c = (m, c') ->
  good_context c' /\ sized c' /\ num_seeds c' = num_seeds c /\ account_keys c' = account_keys c /\
  account_xonlys c' = account_xonlys c /\ (forall mat, m = Some mat -> signs_for target mat).
Proof.
  intros Hc Hs H0. unfold cached_address_material. destruct (ensure_address_table sha512 seed c) as [ready c1] eqn:Hensure.
  assert (Hc1 : good_context c1 /\ sized c1 /\ num_seeds c1 = num_seeds c /\ account_keys c1 = account_keys c /\ account_xonlys c1 = account_xonlys c).
  { unfold ensure_address_table in Hensure. destruct (Z.leb_spec (num_seeds c) seed); [by injection Hensure as <- <-|].
    destruct (slot_at (address_tables c) seed); [by injection Hensure as <- <-|].
    destruct (slot_at (account_keys c) seed) as [account|] eqn:Hacc; [|by injection Hensure as <- <-].
    injection Hensure as <- <-. destruct (table_good c seed account Hc Hs) as [Hg Hz]; [lia|done|]. done. }
  destruct Hc1 as (Hg & Hz & Hnum & Hak & Hax). intros [= <- <-]. split_and!; try done. intros mat Hm. destruct ready; [|done]. cbn [negb] in Hm.
  apply bind_Some in Hm as (table & Htab & ([index change] & Hfind & (account & Hacc & Hm)%bind_Some)%bind_Some).
  destruct (Hg seed) as [_ Ht]. destruct (Ht table Htab) as (account' & Hacc' & ->). rewrite Hacc in Hacc'. injection Hacc' as <-.
  rewrite table_scans in Hfind. pose proof (scan_chain_spec sha512 account target false ADDR_SCAN_DEPTH) as S1.
  pose proof (scan_chain_spec sha512 account target true ADDR_SCAN_DEPTH) as S2.
  destruct (scan_chain sha512 account target false ADDR_SCAN_DEPTH) as [[i1 b1]|].
  - injection Hfind as -> ->. destruct S1 as (-> & _ & Hat & _). by eapply derived_signs.
  - rewrite Hfind in S2. destruct S2 as (-> & _ & Hat & _). by eapply derived_signs.
Qed.

(** A search over the seeds keeps the context and finds material that signs. *)
Definition finds (target : list Z) (material : Z -> SigningContext -> option SigningKeyMaterial * SigningContext) (c0 : SigningContext) : Prop :=
  forall seed c m c', 0 <= seed -> good_context c -> sized c -> account_keys c = account_keys c0 -> account_xonlys c = account_xonlys c0 ->
    num_seeds c = num_seeds c0 -> material seed c = (m, c') ->
    good_context c' /\ sized c' /\ account_keys c' = account_keys c0 /\ account_xonlys c' = account_xonlys c0 /\
    num_seeds c' = num_seeds c0 /\ forall mat, m = Some mat -> signs_for target mat.

Lemma first_material_signs target material seeds c0 : finds target material c0 -> Forall (fun seed => 0 <= seed) seeds ->
  finds target (fun _ => first_material material seeds) c0.
Proof.
  intros Hfind Hseeds seed0. induction Hseeds as [|seed seeds Hseed _ IH]; intros c m c' H0 Hc Hs Hak Hax Hn; cbn [first_material].
  - intros [= <- <-]. by split_and!.
  - destruct (material seed c) as [[mat|] c1] eqn:Hmat; apply Hfind in Hmat as (Hc1 & Hs1 & Hak1 & Hax1 & Hn1 & Hm); try done.
    + intros [= <- <-]. split_and!; try done.
    + apply IH; done.
Qed.

(** ** The steps of the signers *)

Notation extends := (extends keyed verifies).
Notation All := SigHashType.All.

Lemma signature_good tx i p target m entropy signature : signs_for target m -> names_key tx i p target ->
  sign_one sha256 keyed tx i (private_key m) All entropy = Ok signature ->
  verify_signature_bytes keyed verifies tx i p (SigHashType.to_byte All) signature = Ok tt.
Proof.
  intros [Hc Hx] [Hkey Hcov] Hsign.
  assert (Hver : verifies target (calculate_sighash keyed tx i All) signature = true).
  { rewrite <- Hx. unfold sign_one, sign_input_with_entropy, sign_input, schnorr_sign in Hsign.
    destruct entropy; [destruct (schnorr_sign_with_aux_rand _ _ _) eqn:Hs in Hsign|destruct (schnorr_sign_with_aux_rand _ _ _) eqn:Hs in Hsign];
      try done; injection Hsign as ->; by eapply signature_verifies. }
  unfold verify_signature_bytes. change (negb (SigHashType.to_byte All =? SigHashType.to_byte All)) with false. rewrite Hkey. cbn [rbind].
  destruct (analyze_input_script tx i) as [[] [info|]] eqn:Hscript; cbn [rbind]; try (by rewrite Hver).
  rewrite Hcov by done. cbn [rbind]. by rewrite Hver.
Qed.

(** What a run over the transaction may do: add some valid signatures, and
    report their number when it succeeds. *)
Definition tx_steps (m : Comp Transaction PsktError Z) (tx : Transaction) : Prop := forall r tx', m tx = (r, tx') ->
  exists added, extends tx added tx' /\ forall a, r = Ok a -> a = added.

Lemma sign_single_steps tx i p m target entropy : signable tx -> 0 <= i < num_inputs tx -> signs_for target m ->
  names_key tx i p target -> sig_count (input_at tx i) = 0 ->
  tx_steps (let* _ := sign_single sha256 keyed i p (private_key m) (compressed_public_key m) All entropy in ret 1) tx.
Proof.
  intros Hs Hi Hm Hkey Hzero r tx'. unfold bind, sign_single. destruct (sign_one _ _ _ _ _ _ _) as [signature|e] eqn:Hsign.
  2:{ intros [= <- <-]. exists 0. split; [by apply extends_refl|done]. }
  cbn [ret]. intros [= <- <-]. exists 1. split; [|by intros a [= <-]].
  pose proof (signature_good _ _ _ _ _ _ _ Hm Hkey Hsign) as Hgood. pose proof (slots_at tx i Hs Hi) as Hslots.
  destruct (single_valid keyed verifies tx i signature (SigHashType.to_byte All) p (compressed_public_key m) (input_at tx i) Hslots Hgood) as [Hv Hok].
  replace 1 with (1 - sig_count (input_at tx i)) at 1 by lia. apply (extends_put keyed verifies tx i _ 1 (SigHashType.to_byte All)); try done; [lia|].
  intros _. split; [done|]. split; [rewrite Hzero; done|]. by rewrite Hzero.
Qed.

Lemma sign_append_steps tx i p m target entropy : signable tx -> 0 <= i < num_inputs tx -> signs_for target m ->
  names_key tx i p target -> tx_steps (sign_append sha256 keyed i p m All entropy) tx.
Proof.
  intros Hs Hi Hm Hkey r tx'. unfold sign_append. destruct (sign_one _ _ _ _ _ _ _) as [signature|e] eqn:Hsign.
  2:{ intros [= <- <-]. exists 0. split; [by apply extends_refl|done]. }
  pose proof (signature_good _ _ _ _ _ _ _ Hm Hkey Hsign) as Hgood. pose proof (slots_at tx i Hs Hi) as Hslots.
  assert (Hsame : (Ok (E := PsktError) 0, put_input i (input_at tx i) tx) = (r, tx') -> exists added, extends tx added tx' /\ forall a, r = Ok a -> a = added).
  { intros [= <- <-]. exists 0. split; [|by intros a [= <-]].
    replace (put_input i (input_at tx i) tx) with tx; [by apply extends_refl|]. destruct (input_at_range tx i Hi (proj1 Hs)) as [Hl _].
    unfold put_input. rewrite list_insert_id by done. by destruct tx. }
  unfold append_signature. destruct (has_pubkey_position (input_at tx i) p) eqn:Hfresh; [exact Hsame|].
  destruct (Z.leb_spec MAX_SIGS_PER_INPUT (sig_count (input_at tx i))) as [|Hroom]; [exact Hsame|].
  destruct (negb _ && negb _); [exact Hsame|]. intros [= <- <-]. exists 1. split; [|by intros a [= <-]].
  destruct (append_valid keyed verifies tx i signature (SigHashType.to_byte All) p (compressed_public_key m) _ Hfresh Hroom Hslots Hgood) as [Hok Hv].
  replace 1 with (sig_count (input_at tx i) + 1 - sig_count (input_at tx i)) at 1 by lia.
  apply (extends_put keyed verifies); try done. lia.
Qed.

(** The same of a run over the device, whose context stays good. *)
Definition steps (m : Comp Device PsktError Z) (tx : Transaction) (c : SigningContext) : Prop := forall r tx' c', m (tx, c) = (r, (tx', c')) ->
  good_context c' /\ sized c' /\ account_keys c' = account_keys c /\ account_xonlys c' = account_xonlys c /\ num_seeds c' = num_seeds c /\
  exists added, extends tx added tx' /\ forall a, r = Ok a -> a = added.

Lemma steps_ret tx c : signable tx -> good_context c -> sized c -> steps (ret 0) tx c.
Proof. intros Hs Hc Hz r tx' c' [= <- <- <-]. split_and!; try done. exists 0. split; [by apply extends_refl|by intros a [= <-]]. Qed.

Lemma steps_reads {A} (f : Device -> result A PsktError) k tx c : signable tx -> good_context c -> sized c ->
  (forall a, f (tx, c) = Ok a -> steps (k a) tx c) -> steps (bind (reads f) k) tx c.
Proof.
  intros Hs Hc Hz Hk r tx' c'. unfold bind, reads. destruct (f (tx, c)) as [a|e] eqn:Hf; [by apply Hk|].
  intros [= <- <- <-]. split_and!; try done. exists 0. split; [by apply extends_refl|done].
Qed.

Lemma signable_content tx added tx' : extends tx added tx' -> signable tx'.
Proof. by intros (_ & ? & _). Qed.

(** A loop whose rounds do so, on every transaction with the same content. *)
Lemma steps_for_count {A} (l : list A) (body : A -> Comp Device PsktError Z) tx c : signable tx -> good_context c -> sized c ->
  (forall x tx' c', x ∈ l -> bare_tx tx = bare_tx tx' -> signable tx' -> good_context c' -> sized c' ->
    account_keys c' = account_keys c -> account_xonlys c' = account_xonlys c -> num_seeds c' = num_seeds c -> steps (body x) tx' c') ->
  steps (for_count l body) tx c.
Proof.
  revert tx c. induction l as [|x l IH]; intros tx c Hs Hc Hz Hbody; [by apply steps_ret|]. intros r tx' c'. cbn [for_count]. unfold bind at 1.
  pose proof (Hbody x tx c ltac:(by left) eq_refl Hs Hc Hz eq_refl eq_refl eq_refl) as Hstep.
  destruct (body x (tx, c)) as [[a|e] [tx1 c1]] eqn:Hx; apply Hstep in Hx as (Hc1 & Hz1 & Hak & Hax & Hn & added & Hext & Ha).
  2:{ intros [= <- <- <-]. split_and!; try done. by exists added. }
  assert (Hrest : steps (for_count l body) tx1 c1).
  { apply IH; [by eapply signable_content|done|done|]. intros y tx2 c2 Hy Hb ? ? ? ? ? ?. destruct Hext as [Hb1 _]. apply Hbody; try done; try congruence. by right. }
  unfold bind. destruct (for_count l body (tx1, c1)) as [r2 [tx2 c2]] eqn:Hl. apply Hrest in Hl as (Hc2 & Hz2 & Hak2 & Hax2 & Hn2 & added2 & Hext2 & Ha2).
  assert (Hboth : extends tx (added + added2) tx2) by (exact (extends_trans _ _ _ _ _ _ _ Hext Hext2)). pose proof (Ha a eq_refl) as ->.
  destruct r2 as [b|e]; cbn [ret]; intros [= <- <- <-]; (split_and!; try done; try congruence);
    exists (added + added2); (split; [done|]); [intros s [= <-]; by pose proof (Ha2 b eq_refl) as ->|done].
Qed.

Lemma steps_with_first tx c target (find : SigningContext -> option SigningKeyMaterial * SigningContext) sign : signable tx -> good_context c -> sized c ->
  finds target (fun _ => find) c -> (forall m, signs_for target m -> tx_steps (sign m) tx) -> steps (sign_with_first find sign) tx c.
Proof.
  intros Hs Hc Hz Hfind Hsign r tx' c'. unfold sign_with_first. destruct (find c) as [[m|] c1] eqn:Hf;
    apply (Hfind 0 c) in Hf as (Hc1 & Hz1 & Hak & Hax & Hn & Hm); try done; try lia.
  - destruct (sign m tx) as [r1 tx1] eqn:Hrun. intros [= <- <- <-]. apply Hsign in Hrun; [|by apply Hm]. by split_and!.
  - intros [= <- <- <-]. split_and!; try done. exists 0. split; [by apply extends_refl|by intros a [= <-]].
Qed.

Lemma steps_on_tx tx c m : good_context c -> sized c -> tx_steps (m c) tx -> steps (on_tx m) tx c.
Proof.
  intros Hc Hz Hm r tx' c'. unfold on_tx. destruct (m c tx) as [r1 tx1] eqn:Hrun. intros [= <- <- <-]. apply Hm in Hrun. by split_and!.
Qed.

(** *** Pay-to-key inputs *)

Lemma xonly_in_script whole script : slice whole 0 (blen script) = Some script -> is_p2pk_script script (blen script) = true ->
  Standard.p2pk_xonly script = Some (range whole 1 33).
Proof.
  unfold is_p2pk_script. intros Hslice Hp. apply andb_true_iff in Hp as [Hp H33%bool_decide_eq_true]. apply andb_true_iff in Hp as [Hlen%Z.eqb_eq H0%bool_decide_eq_true].
  apply slice_Some in Hslice as (l1 & l3 & -> & H1 & _). destruct l1; [|rewrite blen_cons in H1; pose proof (blen_nonneg l1); lia]. cbn [app].
  apply get_at_Some in H33 as (l & r & -> & Hl). rewrite blen_app, blen_cons in Hlen. destruct r; [|rewrite blen_cons in Hlen; pose proof (blen_nonneg r); lia].
  destruct l as [|x key]; [done|]. change (Some x = Some Opcode.OP_DATA_32) in H0. injection H0 as ->. rewrite blen_cons in Hl. unfold Standard.p2pk_xonly. cbn [app].
  rewrite split_last_snoc. cbn [mbind option_bind]. rewrite !Z.eqb_refl. cbn [andb]. unfold Standard.array32. rewrite (proj2 (Z.eqb_eq _ _)) by lia.
  f_equal. unfold range. cbn [drop]. change (Z.to_nat (33 - 1)) with 32%nat. change (Z.to_nat 1) with 1%nat. cbn [app drop]. rewrite <- app_assoc, drop_0. symmetry. apply take_app_length'. unfold blen in Hl. lia.
Qed.

Lemma analyze_p2pk tx i info : analyze_input_script tx i = (P2PK, info) -> exists input script, get_at (tx_inputs tx) i = Some input /\
  slice (spk_script (script_public_key (utxo_entry input))) 0 (spk_script_len (script_public_key (utxo_entry input))) = Some script /\
  is_p2pk_script script (blen script) = true.
Proof.
  unfold analyze_input_script, try_analyze_input_script. destruct (_ <=? _); [done|]. destruct (get_at (tx_inputs tx) i) as [input|]; [|done].
  cbn [mbind option_bind]. destruct (slice _ 0 _) as [script|] eqn:Hs; [|done]. cbn [mbind option_bind]. intros Hty. exists input, script. split; [done|]. split; [done|].
  unfold detect_script_type in Hty. destruct (is_p2pk_script script (blen script)); [done|]. exfalso.
  destruct (is_p2sh_script _ _); cbn in Hty; [|by destruct (is_multisig_script script (blen script))].
  destruct (redeem_script_len input =? 0); cbn in Hty; [done|]. by destruct (checked_redeem_bytes tx i).
Qed.

Lemma names_p2pk tx i info : analyze_input_script tx i = (P2PK, info) ->
  names_key tx i 0 (range (spk_script (script_public_key (utxo_entry (input_at tx i)))) 1 33) /\
  expected_xonly_for_position tx i 0 = Ok (range (spk_script (script_public_key (utxo_entry (input_at tx i)))) 1 33).
Proof.
  intros Han. destruct (analyze_p2pk tx i info Han) as (input & script & Hin & Hs & Hp).
  assert (He : expected_xonly_for_position tx i 0 = Ok (range (spk_script (script_public_key (utxo_entry (input_at tx i)))) 1 33)).
  { unfold expected_xonly_for_position, p2pk_xonly_for_position, input_at. rewrite Han, Hin. cbn [Z.eqb negb ok_or rbind default from_option id]. rewrite Hs. cbn [ok_or rbind].
    apply slice_Some in Hs as Hs'. destruct Hs' as (l1 & l3 & _ & _ & Hl). cbn in Hl. rewrite Hl in Hs.
    by rewrite (xonly_in_script _ _ Hs Hp). }
  split; [|done]. split; [done|]. by rewrite Han.
Qed.

Lemma seeds_nonneg (c : SigningContext) : Forall (fun seed => 0 <= seed) (seed_indices c).
Proof. apply Forall_forall. intros seed Hs%elem_of_seqZ. lia. Qed.

Lemma direct_finds target c0 : finds target (fun seed c => (direct_address_material sha512 c seed target, c)) c0.
Proof.
  intros seed c m c' _ Hc Hz Hak Hax Hn [= <- <-]. split_and!; try done. intros mat. unfold direct_address_material.
  intros (account & _ & Hm)%bind_Some. by eapply scanned_signs.
Qed.

Lemma p2pk_steps tx c i info entropy : signable tx -> good_context c -> sized c -> 0 <= i < num_inputs tx ->
  analyze_input_script tx i = (P2PK, info) -> steps (sign_p2pk_input sha512 sha256 keyed i All entropy) tx c.
Proof.
  intros Hs Hc Hz Hi Han. apply steps_reads; [done..|]. intros count [= <-]. destruct (Z.eqb_spec (sig_count (input_at tx i)) 0) as [Hzero|]; cbn [negb]; [|by apply steps_ret].
  apply steps_reads; [done..|]. intros target [= <-]. destruct (names_p2pk tx i info Han) as [Hkey _].
  eapply steps_with_first; try done.
  - intros seed0 c1 m c' H0 Hc1 Hz1 Hak Hax Hn. eapply first_material_signs; [apply direct_finds|apply seeds_nonneg|try done..].
  - intros m Hm. by eapply sign_single_steps.
Qed.

(** *** Multisig inputs *)

Lemma info_shape tx i ty info : analyze_input_script tx i = (ty, Some info) -> (ty = P2SH \/ ty = TxModel.Multisig) ->
  blen (pubkeys info) = MAX_MULTISIG_KEYS /\ 0 <= n info <= MAX_MULTISIG_KEYS.
Proof.
  intros Han Hty. assert (Hparse : exists script len, parse_multisig_script script len = Some info).
  { unfold analyze_input_script, try_analyze_input_script in Han. destruct (_ <=? _); [done|]. destruct (get_at (tx_inputs tx) i) as [input|]; [|done].
    cbn [mbind option_bind] in Han. destruct (slice _ 0 _) as [script|]; [|done]. cbn [mbind option_bind] in Han.
    destruct (_ && _).
    - destruct (checked_redeem_bytes tx i) as [redeem|]; [|done]. cbn in Han. destruct (bool_decide _); [|done]. injection Han as _ Hp. by eexists _, _.
    - cbn in Han. destruct (bool_decide _); [|done]. injection Han as _ Hp. by eexists _, _. }
  destruct Hparse as (script & len & (parsed & Hsig & [= <-])%bind_Some). cbn [pubkeys n].
  unfold signer_multisig in Hsig. apply bind_Some in Hsig as (bytes & _ & (p & Hp & Hc)%bind_Some). destruct (Z.leb_spec (Multisig.key_count p) MAX_MULTISIG_KEYS); [|done].
  injection Hc as <-. split; [|split; [apply Z.mod_pos_bound; lia|done]].
  rewrite blen_app. unfold blen, MAX_MULTISIG_KEYS. rewrite length_replicate, length_take. lia.
Qed.

Definition multisig_input (tx : Transaction) (i : Z) (info : MultisigInfo) : Prop :=
  analyze_input_script tx i = (P2SH, Some info) \/ analyze_input_script tx i = (TxModel.Multisig, Some info).

Lemma names_multisig tx i info p : multisig_input tx i info -> 0 <= p < n info ->
  names_key tx i p (default (zeros 32) (get_at (pubkeys info) p)).
Proof.
  intros Hms Hp. assert (Hshape : blen (pubkeys info) = MAX_MULTISIG_KEYS /\ 0 <= n info <= MAX_MULTISIG_KEYS).
  { destruct Hms as [Han|Han]; eapply info_shape; eauto. }
  destruct Hshape as [Hlen Hn]. split; [|by intros Hbad; destruct Hms as [Han|Han]; rewrite Hbad in Han].
  assert (He : expected_xonly_for_position tx i p = multisig_xonly_for_position info p) by (unfold expected_xonly_for_position; by destruct Hms as [-> | ->]).
  rewrite He. unfold multisig_xonly_for_position, slice. rewrite !(proj2 (Z.leb_le _ _)) by lia. cbn [andb mbind option_bind]. rewrite Z.sub_0_r, drop_0.
  unfold get_at. rewrite (proj2 (Z.leb_le 0 p)) by lia. rewrite lookup_take_lt by lia.
  destruct (lookup_lt_is_Some_2 (pubkeys info) (Z.to_nat p)) as [x Hx]; [unfold blen in *; lia|]. by rewrite Hx.
Qed.

Lemma multisig_input_content tx tx' i info : bare_tx tx = bare_tx tx' -> multisig_input tx i info -> multisig_input tx' i info.
Proof. intros Heq. unfold multisig_input. by rewrite <- !(analyze_bare tx), Heq, !analyze_bare. Qed.

(** A position found for a key is that key's. *)
Lemma key_position_spec info xonly p : key_position info xonly = Some p ->
  0 <= p < n info /\ get_at (pubkeys info) p = Some xonly.
Proof.
  unfold key_position. destruct (list_find _ _) as [[k x]|] eqn:Hf; [|done]. intros [= <-]. cbn [fst]. apply list_find_Some in Hf as (Hk & -> & _).
  apply lookup_take_Some in Hk as [Hk Hlt]. split; [lia|]. by rewrite get_at_nat.
Qed.

Lemma account_finds positions p target c0 : (forall seed own, slot_at positions seed = Some own -> own = p -> account_xonly c0 seed = Some target) ->
  finds target (multisig_material sha512 positions p target) c0.
Proof.
  intros Hpos seed c m c' H0 Hc Hz Hak Hax Hn. unfold multisig_material. destruct (slot_at positions seed) as [own|] eqn:Hown.
  - destruct (Z.eqb_spec own p) as [Heq|].
    + intros [= <- <-]. split_and!; try done. intros mat Hm. eapply account_signs; [done| |exact Hm]. unfold account_xonly. rewrite Hax. by eapply Hpos.
    + intros [= <- <-]. by split_and!.
  - intros Hcached. destruct (cached_signs seed target c m c' Hc Hz H0 Hcached) as (? & ? & ? & ? & ? & ?). split_and!; try done; congruence.
Qed.

Lemma account_positions_at c info seed own : slot_at (account_positions c info) seed = Some own ->
  exists xonly, account_xonly c seed = Some xonly /\ key_position info xonly = Some own.
Proof.
  unfold slot_at, account_positions, get_at. destruct (0 <=? seed) eqn:H0; [|done]. change (map (account_position c info)) with (fmap (M := list) (account_position c info)).
  rewrite list_lookup_fmap. destruct (seqZ 0 8 !! Z.to_nat seed) as [s|] eqn:Hs; [|done]. cbn [fmap option_fmap option_map mjoin option_join].
  apply lookup_seqZ in Hs as [-> Hs]. apply Z.leb_le in H0. replace (0 + Z.of_nat (Z.to_nat seed)) with seed by lia. unfold account_position.
  destruct (_ <=? _); [done|]. by intros (xonly & ? & ?)%bind_Some; exists xonly.
Qed.

Lemma position_steps tx c i info entropy positions p : signable tx -> good_context c -> sized c -> 0 <= i < num_inputs tx ->
  multisig_input tx i info -> 0 <= p < n info ->
  (forall seed own, slot_at positions seed = Some own -> exists xonly, account_xonly c seed = Some xonly /\ key_position info xonly = Some own) ->
  steps (sign_multisig_position sha512 sha256 keyed i info All entropy positions p) tx c.
Proof.
  intros Hs Hc Hz Hi Hms Hp Hpos. apply steps_reads; [done..|]. intros present [= <-]. destruct (has_pubkey_position _ _); [by apply steps_ret|].
  pose proof (names_multisig tx i info p Hms Hp) as Hkey. eapply steps_with_first; try done.
  - intros seed0 c1 m c' H0 Hc1 Hz1 Hak Hax Hn. eapply first_material_signs; [|apply seeds_nonneg|try done..].
    apply account_finds. intros seed own Hown ->. destruct (Hpos seed p Hown) as (xonly & Hx & Hkp). rewrite Hx.
    apply key_position_spec in Hkp as [_ ->]. done.
  - intros m Hm. by eapply sign_append_steps.
Qed.

Lemma ms45_steps tx c i info hint entropy : signable tx -> 0 <= i < num_inputs tx -> multisig_input tx i info ->
  tx_steps (ms45_sign_input sha512 sha256 keyed i info c All entropy hint) tx.
Proof.
  intros Hs Hi Hms. unfold ms45_sign_input. revert tx Hs Hi Hms. induction (seed_indices c) as [|seed seeds IH]; intros tx Hs Hi Hms r tx'.
  { intros [= <- <-]. exists 0. split; [by apply extends_refl|by intros a [= <-]]. }
  cbn [for_count]. unfold bind at 1. set (body := match ms45_material sha512 c seed hint with None => _ | Some _ => _ end).
  assert (Hbody : tx_steps body tx).
  { subst body. assert (Hnone : tx_steps (ret 0) tx).
    { intros r0 tx0 [= <- <-]. exists 0. split; [by apply extends_refl|by intros a [= <-]]. }
    destruct (ms45_material sha512 c seed hint) as [m|] eqn:Hm; [|done]. destruct (key_position _ _) as [p|] eqn:Hp; [|done].
    intros r0 tx0. unfold bind, reads. destruct (has_pubkey_position _ _); [apply Hnone|]. apply key_position_spec in Hp as [Hp Hat].
    eapply (sign_append_steps _ _ _ _ (x_coordinate (compressed_public_key m))); [done|done| |].
    - split; [|done]. unfold ms45_material in Hm. destruct (_ || _); [done|]. apply bind_Some in Hm as (account & _ & (child & _ & Hm)%bind_Some). by apply material_of_signs in Hm as [? _].
    - pose proof (names_multisig tx i info p Hms Hp) as Hkey. by rewrite Hat in Hkey. }
  destruct (body tx) as [[a|e] tx1] eqn:Hrun; apply Hbody in Hrun as (added & Hext & Ha).
  2:{ intros [= <- <-]. by exists added. }
  unfold bind. pose proof Hext as (Hb & Hs1 & _). destruct (for_count seeds _ tx1) as [r2 tx2] eqn:Hl.
  apply IH in Hl as (added2 & Hext2 & Ha2); [|done|by rewrite <- (bare_num _ _ Hb)|by eapply multisig_input_content].
  pose proof (extends_trans _ _ _ _ _ _ _ Hext Hext2) as Hboth. pose proof (Ha a eq_refl) as ->.
  destruct r2 as [b|e]; cbn [ret]; intros [= <- <-]; exists (added + added2); (split; [done|]); [intros s [= <-]; by pose proof (Ha2 b eq_refl) as ->|done].
Qed.

Lemma multisig_steps tx c i info entropy : signable tx -> good_context c -> sized c -> 0 <= i < num_inputs tx ->
  multisig_input tx i info -> steps (sign_multisig_input sha512 sha256 keyed i info All entropy) tx c.
Proof.
  intros Hs Hc Hz Hi Hms. apply steps_reads; [done..|]. intros hint [= <-]. destruct (h_present _).
  { apply steps_on_tx; [done..|]. by apply ms45_steps. }
  apply steps_reads; [done..|]. intros positions [= <-]. apply steps_for_count; [done..|].
  intros p tx' c' Hp Hb Hs' Hc' Hz' Hak Hax Hn. apply elem_of_seqZ in Hp. apply position_steps; try done; [by rewrite <- (bare_num _ _ Hb)|by eapply multisig_input_content|].
  intros seed own Hown. unfold account_xonly. rewrite Hax. by apply account_positions_at.
Qed.

(** *** Covenant inputs *)

Lemma candidates_named tx i candidates target p : analyze_input_script tx i = (P2SH, None) ->
  candidate_keys_for_input tx i = Ok candidates -> (target, p) ∈ candidates -> names_key tx i p target.
Proof.
  unfold candidate_keys_for_input, scan_active_candidate_keys, resolve_execution_branches. intros Han.
  intros (input & Hin%ok_or_Ok & Hrest)%rbind_Ok_inv. destruct (covenant_execution_present input) eqn:Hpres; [cbn [negb] in Hrest|done].
  apply rbind_Ok_inv in Hrest as (script & Hredeem & (resolved & Hres & Hone)%rbind_Ok_inv).
  destruct (Z.land (covenant_execution_true_mask input) _ =? 0) eqn:Hmask; [cbn [negb] in Hres|done].
  apply rbind_Ok_inv in Hres as (res & Hbr & Hres). destruct (covenant_execution_mask input =? Resolver.selector_mask res) eqn:Hsel; [cbn [negb] in Hres|done].
  destruct (_ <? _); [done|]. injection Hres as <-. unfold require_single_active_candidate in Hone. destruct (negb _); [done|]. injection Hone as <-.
  unfold collect_active_candidate_keys. intros Hcand. apply list_elem_of_omap in Hcand as ([q binding] & Hq & Hmatch).
  destruct (Resolver.matches_selectors binding _ _) eqn:Hactive; [|done]. injection Hmatch as <- <-.
  apply elem_of_lookup_imap in Hq as (k & b & [= -> <-] & Hk).
  assert (Hbranches : Resolver.resolve_covenant_branches script = Ok res) by (by destruct (Resolver.resolve_covenant_branches script); [injection Hbr as ->|]).
  assert (Hkey : Resolver.key_at res (Z.of_nat k) = Ok binding) by (unfold Resolver.key_at; by rewrite get_at_nat, Hk).
  split.
  - unfold expected_xonly_for_position, covenant_xonly_for_position. rewrite Han, Hredeem. cbn [rmap_err rbind]. rewrite Hbranches. cbn [rmap_err rbind]. by rewrite Hkey.
  - intros _. unfold covenant_position_matches_execution, resolved_execution, validate_covenant_execution_binding. rewrite Hin, Hredeem. cbn [ok_or rmap_err rbind].
    rewrite Hbranches. cbn [rmap_err rbind]. rewrite Hpres, Hmask, Hsel. cbn [negb rbind]. rewrite Hkey. cbn [rmap_err rbind]. unfold active. by rewrite Hactive.
Qed.

Lemma covenant_finds target c0 : finds target (fun seed => covenant_material sha512 seed target) c0.
Proof.
  intros seed c m c' H0 Hc Hz Hak Hax Hn. unfold covenant_material. case_bool_decide as Hown.
  - intros [= <- <-]. split_and!; try done. intros mat Hm. by eapply account_signs.
  - destruct (cached_address_material sha512 seed target c) as [mc c1] eqn:Hcached.
    destruct (cached_signs seed target c mc c1 Hc Hz H0 Hcached) as (? & ? & ? & ? & ? & Hm).
    destruct mc as [mat|]; intros [= <- <-]; split_and!; try done; try congruence.
    intros mat. unfold kip22_material. intros (account & _ & Hs)%bind_Some. by eapply scanned_signs.
Qed.

Lemma first_signed (m : Comp Device PsktError Z) tx c : steps m tx c -> (forall a s, m (tx, c) = (Ok a, s) -> a = 0 \/ a = 1) ->
  steps (bind m (fun signed => if negb (signed =? 0) then ret 1 else ret 0)) tx c.
Proof.
  intros Hm Hflag r tx' c'. unfold bind. destruct (m (tx, c)) as [[a|e] [tx1 c1]] eqn:Hrun.
  - destruct (Hflag a _ eq_refl) as [->| ->]; intros [= <- <- <-]; by apply Hm.
  - intros [= <- <- <-]. by apply Hm.
Qed.

Lemma covenant_steps tx c i active_seed entropy : signable tx -> good_context c -> sized c -> 0 <= i < num_inputs tx ->
  analyze_input_script tx i = (P2SH, None) -> steps (sign_covenant_input sha512 sha256 keyed i All active_seed entropy) tx c.
Proof.
  intros Hs Hc Hz Hi Han. apply steps_reads; [done..|]. intros count [= <-]. destruct (Z.eqb_spec (sig_count (input_at tx i)) 0) as [Hzero|]; cbn [negb]; [|by apply steps_ret].
  apply steps_reads; [done..|]. intros candidates Hcand.
  assert (Hone : exists target p, candidates = [(target, p)]).
  { unfold candidate_keys_for_input, scan_active_candidate_keys in Hcand. apply rbind_Ok_inv in Hcand as (input & _ & Hcand). destruct (negb _); [done|].
    apply rbind_Ok_inv in Hcand as (script & _ & (res & _ & Hcand)%rbind_Ok_inv). unfold require_single_active_candidate in Hcand.
    destruct (Z.eqb_spec (blen (collect_active_candidate_keys res (covenant_execution_mask input) (covenant_execution_true_mask input))) 1) as [Hlen|]; [cbn [negb] in Hcand|done].
    injection Hcand as <-. destruct (collect_active_candidate_keys _ _ _) as [|[target p] [|? ?]]; [done|by eexists _, _|]. rewrite !blen_cons in Hlen. pose proof (blen_nonneg l). lia. }
  destruct Hone as (target & p & ->). pose proof (candidates_named tx i _ target p Han Hcand ltac:(by left)) as Hkey.
  cbn [sign_covenant_candidates]. apply first_signed.
  - unfold sign_covenant_candidate. eapply steps_with_first; try done.
    + intros seed0 c1 m c' H0 Hc1 Hz1 Hak Hax Hn. eapply first_material_signs; [apply covenant_finds| |try done..].
      apply Forall_forall. intros seed Hseed%list_elem_of_In. apply filter_In in Hseed as [Hseed _]. apply list_elem_of_In, elem_of_seqZ in Hseed. lia.
    + intros m Hm. by eapply sign_single_steps.
  - intros a s. unfold sign_covenant_candidate, sign_with_first. destruct (first_material _ _ _) as [[m|] c1]; [|intros [= <- _]; by left].
    unfold bind, sign_single. destruct (sign_one _ _ _ _ _ _ _); [|done]. intros [= <- _]. by right.
Qed.

(** *** A whole transaction *)

Lemma analyze_content tx tx' i : bare_tx tx = bare_tx tx' -> analyze_input_script tx i = analyze_input_script tx' i.
Proof. intros Heq. by rewrite <- (analyze_bare tx), Heq, analyze_bare. Qed.

Lemma supported_steps tx c i active_seed entropy : signable tx -> good_context c -> sized c -> 0 <= i < num_inputs tx ->
  steps (sign_supported_input sha512 sha256 keyed All active_seed entropy i) tx c.
Proof.
  intros Hs Hc Hz Hi. apply steps_reads; [done..|]. intros script [= <-]. destruct (analyze_input_script tx i) as [[] [info|]] eqn:Han; try (by apply steps_ret).
  - by eapply p2pk_steps.
  - by eapply p2pk_steps.
  - apply multisig_steps; try done. by left.
  - by apply covenant_steps.
  - apply multisig_steps; try done. by right.
Qed.

Lemma sign_all_steps tx c active_seed entropy : signable tx -> good_context c -> sized c ->
  steps (sign_all sha512 sha256 keyed All active_seed entropy) tx c.
Proof.
  intros Hs Hc Hz. apply steps_reads; [done..|]. intros _ _. apply steps_reads; [done..|]. intros inputs [= <-].
  assert (Hloop : steps (for_count (input_indices tx) (sign_supported_input sha512 sha256 keyed All active_seed entropy)) tx c).
  { apply steps_for_count; [done..|]. intros i tx' c' Hi Hb Hs' Hc' Hz' _ _ _. apply elem_of_seqZ in Hi. apply supported_steps; try done. by rewrite <- (bare_num _ _ Hb). }
  intros r tx' c'. unfold bind. destruct (for_count _ _ _) as [[a|e] [tx1 c1]] eqn:Hrun; apply Hloop in Hrun as (? & ? & ? & ? & ? & added & Hext & Ha).
  - pose proof (Ha a eq_refl) as ->. unfold of_result, signed_count_result. intros Heq. injection Heq as <- <- <-. split_and!; try done. exists added. split; [done|].
    intros s. destruct (added =? 0); [done|]. by intros [= <-].
  - intros [= <- <- <-]. split_and!; try done. by exists added.
Qed.

(** *** The contexts a device builds *)

(** A context before its first use: no table is cached. *)
Definition fresh (c : SigningContext) : Prop := good_context c /\ sized c /\ forall seed, slot_at (address_tables c) seed = None.

Lemma slots_of_none {A} count seed : slot_at (slots_of (A := A) count) seed = None.
Proof.
  unfold slot_at, slots_of, get_at. destruct (0 <=? seed); [|done]. destruct (replicate _ _ !! Z.to_nat seed) eqn:Hl; [|done].
  by apply lookup_replicate in Hl as [-> _].
Qed.

Lemma empty_fresh seeds : 0 <= seeds -> fresh (empty_context seeds).
Proof.
  intros Hseeds. split; [|split]; [|unfold sized; cbn [empty_context num_seeds account_keys account_xonlys account_compressed address_tables]; split_and!; (done || unfold MAX_SEED_SLOTS; lia)|intros; apply slots_of_none].
  intros s. cbn [empty_context account_keys account_xonlys address_tables]. rewrite !slots_of_none. by split.
Qed.

Lemma install_fresh index account c : 0 <= index -> fresh c -> fresh (install_account index account c).
Proof.
  intros Hi (Hc & Hz & Ht). unfold install_account. destruct (Z.leb_spec (num_seeds c) index); [done|].
  destruct (public_key_compressed account) as [pk|] eqn:Hpk; [|done]. pose proof Hz as (Hn & L1 & L2 & L3 & L4).
  split; [|split; [split; [done|]; cbn; by rewrite !blen_put_slot|exact Ht]]. intros s. destruct (Hc s) as [Ha _].
  cbn [account_keys account_xonlys account_compressed address_tables]. rewrite !put_slot_at by lia. split; [|by rewrite Ht].
  destruct (decide (s = index)) as [->|]; [by exists pk|done].
Qed.

Lemma when_ok_fresh {A E} (r : result A E) f c : (forall a, fresh c -> fresh (f a c)) -> fresh c -> fresh (when_ok r f c).
Proof. intros Hf Hc. unfold when_ok. destruct r; [by apply Hf|done]. Qed.

Lemma for_present_fresh {A} (step : Z -> A -> SigningContext -> SigningContext) entries c :
  (forall index entry c, 0 <= index -> fresh c -> fresh (step index entry c)) -> fresh c -> fresh (for_present step entries c).
Proof.
  intros Hstep. unfold for_present. generalize (take (Z.to_nat MAX_SEED_SLOTS) entries) as l. intros l. generalize 0%nat as k.
  enough (Hgen : forall (k : nat) c, fresh c -> fresh (foldl (fun c '(index, (entry, present)) => if negb present then c else step index entry c) c
    (imap (fun index entry => (Z.of_nat (k + index), entry)) l))) by (intros _; apply (Hgen 0%nat)).
  induction l as [|[entry present] l IH]; intros k c' Hc; [done|]. cbn [imap foldl].
  rewrite (imap_ext _ (fun index entry => (Z.of_nat (S k + index), entry)) l) by (intros; cbn; do 2 f_equal; lia).
  apply IH. destruct present; cbn [negb]; [|done]. apply Hstep; [lia|done].
Qed.

Lemma from_seeds_fresh seeds : fresh (from_seeds sha512 seeds).
Proof.
  apply for_present_fresh; [|apply empty_fresh, blen_nonneg]. intros index seed c Hi Hc.
  apply when_ok_fresh; [done|]. apply when_ok_fresh; [done|]. apply when_ok_fresh; [|done]. intros a _. by apply install_fresh.
Qed.

Lemma from_account_raw_fresh accounts : fresh (from_account_raw accounts).
Proof. apply for_present_fresh; [|apply empty_fresh, blen_nonneg]. intros index raw c Hi. by apply install_fresh. Qed.

Lemma from_account_sets_fresh accounts ms45_accounts : fresh (from_account_sets accounts ms45_accounts).
Proof.
  apply for_present_fresh; [|apply from_account_raw_fresh]. intros index raw c Hi Hc. by destruct (num_seeds c <=? index).
Qed.
End device.

(** ** The device signs *)

Lemma typed_slots tx : typed_tx tx -> Forall slots_ok (tx_inputs tx).
Proof.
  intros (_ & Hin & _). eapply Forall_impl; [exact Hin|]. intros i Hi. destruct Hi as (_ & _ & _ & _ & [_ Hfive] & Hcount & _).
  split; [done|]. unfold byte_ok in Hcount. lia.
Qed.

Lemma validated_inputs tx : is_ok (validate_base_transaction tx) = true -> 0 < num_inputs tx <= blen (tx_inputs tx) \/ num_inputs tx < 0.
Proof.
  unfold validate_base_transaction, validate_transaction_shape. destruct (Z.eqb_spec (num_inputs tx) 0); [done|]. destruct (_ <? _); [done|].
  destruct (Z.ltb_spec (blen (tx_inputs tx)) (num_inputs tx)); [done|]. lia.
Qed.

Lemma validated_signable tx : typed_tx tx -> is_ok (validate_base_transaction tx) = true -> signable tx.
Proof.
  intros Htx Hv. split; [|by apply typed_slots]. destruct (validated_inputs tx Hv); [lia|].
  destruct Htx as (_ & _ & Hn & _). unfold u64_ok in Hn. lia.
Qed.

(** A run that adds valid signatures, as the signature counts see it. *)
Lemma extends_counts keyed schnorr_verify tx added tx' : signable tx -> extends keyed schnorr_verify tx added tx' ->
  forall i count, 0 <= i < num_inputs tx -> verified_count keyed schnorr_verify tx i Kspt = Ok count ->
  exists count', verified_count keyed schnorr_verify tx' i Kspt = Ok count' /\ count <= count' /\ kept_slots (input_at tx i) (input_at tx' i).
Proof.
  intros Hs (Hb & Hs' & _ & _ & Hall) i count Hi Hcount. unfold verified_count in *.
  destruct (input_at_range tx i Hi (proj1 Hs)) as [_ Hat]. rewrite Hat in Hcount. cbn [ok_or rbind] in Hcount.
  destruct (slots_at tx i Hs Hi) as [Hfive H0]. apply verified_count_iff in Hcount as [Hv ->]; [|done..].
  destruct (Hall i Hi Hv) as [Hv' Hk]. assert (Hi' : 0 <= i < num_inputs tx') by (by rewrite <- (bare_num _ _ Hb)).
  destruct (input_at_range tx' i Hi' (proj1 Hs')) as [_ ->]. destruct (slots_at tx' i Hs' Hi') as [Hfive' H0'].
  exists (sig_count (input_at tx' i)). split; [|split; [apply Hk|done]]. cbn [ok_or rbind]. by apply verified_count_iff.
Qed.

(** C6: Whatever keys a device holds, signing a transaction with them leaves all
    that signatures commit to as it was, so every signature hash is unchanged;
    an input whose signatures all verified keeps each of them in place and its
    signatures still all verify, also when the run stops with an error; and a
    successful run reports, and has added, a positive number of signatures. *)
Theorem device_signing_sound (sha512 sha256 : list Z -> list Z) (keyed : list Z -> list Z -> list Z)
    `{curve : Curve} `{bip : Bip340} `{laws : !Bip340Laws}
    (seeds accounts ms45_accounts : list (list Z * bool)) (context : SigningContext) (active_seed : option Z)
    (entropy : option (list Z)) (tx tx' : Transaction) (r : result Z PsktError) :
  typed_tx tx -> context = from_seeds sha512 seeds \/ context = from_account_sets accounts ms45_accounts ->
  sign_transaction_with_context sha512 sha256 keyed context SigHashType.All active_seed entropy tx = (r, tx') ->
  bare_tx tx' = bare_tx tx /\
  (forall i ty, calculate_sighash keyed tx' i ty = calculate_sighash keyed tx i ty) /\
  (forall i count, 0 <= i < num_inputs tx -> verified_count keyed verifies tx i Kspt = Ok count ->
     exists count', verified_count keyed verifies tx' i Kspt = Ok count' /\ count <= count' /\
       kept_slots (input_at tx i) (input_at tx' i)) /\
  (forall total, r = Ok total -> 0 < total /\ sig_total tx' = sig_total tx + total).
Proof.
  intros Htx Hcontext Hrun. unfold sign_transaction_with_context, with_context in Hrun.
  destruct (is_ok (validate_base_transaction tx)) eqn:Hv.
  2:{ unfold sign_all, bind at 1, reads in Hrun. destruct (validate_base_transaction tx) as [|e] eqn:Hve; [done|]. injection Hrun as <- <-. split_and!; try done.
      intros i count _ Hcount. exists count. split_and!; try done. }
  pose proof (validated_signable tx Htx Hv) as Hs.
  assert (Hready : good_context sha512 context /\ sized context).
  { destruct Hcontext as [-> | ->]; [destruct (from_seeds_fresh sha512 seeds) as (? & ? & _)|destruct (from_account_sets_fresh sha512 accounts ms45_accounts) as (? & ? & _)]; done. }
  destruct (sign_all _ _ _ _ _ _ _) as [r1 [tx1 c1]] eqn:Hall. injection Hrun as -> ->.
  destruct (sign_all_steps sha512 sha256 keyed tx context active_seed entropy Hs (proj1 Hready) (proj2 Hready) _ _ _ Hall) as (_ & _ & _ & _ & _ & added & Hext & Htotal).
  pose proof Hext as (Hb & _ & H0 & Hsum & _). split; [done|]. split; [intros i ty; by rewrite <- (sighash_bare _ tx'), <- Hb, sighash_bare|].
  split; [by eapply extends_counts|]. intros total Heq. pose proof (Htotal total Heq) as <-. split; [|done].
  enough (total <> 0) by lia. intros ->. subst r. clear - Hall.
  unfold sign_all in Hall. apply bind_Ok_inv in Hall as (? & s1 & _ & (? & s2 & _ & (t & s3 & _ & Hlast)%bind_Ok_inv)%bind_Ok_inv).
  unfold of_result, signed_count_result in Hlast. destruct (Z.eqb_spec t 0); [done|]. by injection Hlast as ->.
Qed.
