(* ===== verification/SigningComplete.v ===== *)
(** * An owner signs completely

    An account that owns every input of a transaction signs all of it, unless
    the signature crate refuses to sign; and what a device with more keys than
    a multisig threshold does. *)

From S2P Require Import Prelude Bytes NetworkId Script Hd HdProofs Keys KeysProofs TxModel Sighash Branch Schnorr SigCheck SigProofs KsptCodec KsptCopy Signing SigningProofs.
Import TxModel Bip32 Verification.

Lemma input_at_bare tx i : 0 <= i < num_inputs tx -> num_inputs tx <= blen (tx_inputs tx) ->
  input_at (bare_tx tx) i = bare (input_at tx i).
Proof. intros Hi Hn. destruct (input_at_range tx i Hi Hn) as [_ Hat]. unfold input_at. by rewrite get_at_bare, Hat. Qed.

Lemma bare_input tx tx' i : bare_tx tx = bare_tx tx' -> signable tx -> signable tx' -> 0 <= i < num_inputs tx ->
  bare (input_at tx i) = bare (input_at tx' i).
Proof.
  intros Heq [Hn _] [Hn' _] Hi. rewrite <- !input_at_bare; [by rewrite Heq| |done|done|done]. by rewrite <- (bare_num _ _ Heq).
Qed.

(** A pay-to-key input, as every part of the code recognizes it. *)
Lemma p2pk_target_named tx i target : signable tx -> 0 <= i < num_inputs tx -> p2pk_target tx i = Some target ->
  analyze_input_script tx i = (P2PK, None) /\ expected_xonly_for_position tx i 0 = Ok target.
Proof.
  intros [Hn _] Hi Ht. destruct (input_at_range tx i Hi Hn) as [_ Hat]. unfold p2pk_target in Ht. unfold script_bytes in Ht.
  set (spk := script_public_key (utxo_entry (input_at tx i))) in *. destruct (slice (spk_script spk) 0 (spk_script_len spk)) as [script|] eqn:Hs; [|done].
  cbn [default from_option id] in Ht. pose proof Ht as Hx. apply p2pk_xonly_spec in Ht as [-> Hlen].
  assert (Hp : is_p2pk_script (Standard.p2pk_script target) (blen (Standard.p2pk_script target)) = true).
  { unfold is_p2pk_script, Standard.p2pk_script. rewrite !blen_app, Hlen. change (blen [Opcode.OP_DATA_32]) with 1. change (blen [Opcode.OP_CHECKSIG]) with 1.
    rewrite (get_at_split ([Opcode.OP_DATA_32] ++ target ++ [Opcode.OP_CHECKSIG]) ([Opcode.OP_DATA_32] ++ target) [] Opcode.OP_CHECKSIG 33); [done|by rewrite <- app_assoc|rewrite blen_app, Hlen; done]. }
  assert (Han : analyze_input_script tx i = (P2PK, None)).
  { unfold analyze_input_script, try_analyze_input_script. rewrite (proj2 (Z.leb_gt _ _)) by lia. rewrite Hat. cbn [mbind option_bind]. fold spk. rewrite Hs.
    cbn [mbind option_bind]. unfold detect_script_type. by rewrite Hp. }
  split; [done|]. unfold expected_xonly_for_position, p2pk_xonly_for_position. rewrite Han, Hat. cbn [Z.eqb negb ok_or rbind]. fold spk. rewrite Hs. cbn [ok_or rbind]. by rewrite Hx.
Qed.

Section owner.
Context (sha512 sha256 : list Z -> list Z) (keyed : list Z -> list Z -> list Z) `{curve : Curve} `{bip : Bip340} `{laws : !Bip340Laws}.
Context (account : ExtendedPrivKey) (entropy : option (list Z)).

(** An input that pays to an address of the account: the one its hint names,
    or, without a hint, one within the search depth. *)
Definition owned (tx : Transaction) (i : Z) : Prop :=
  let input := input_at tx i in
  exists target, p2pk_target tx i = Some target /\
    if has_derivation_hint input
    then 0 <= derivation_branch input <= 1 /\ derivation_index input < HARDENED_BIT /\
         key_at sha512 account (derivation_branch input =? 1) (derivation_index input) = Some target
    else exists is_change index, 0 <= index < SIGN_MATCH_DEPTH /\ key_at sha512 account is_change index = Some target.

(** The input holds exactly one signature, a valid one. *)
Definition signed_once (tx : Transaction) (i : Z) : Prop :=
  valid_sigs keyed verifies tx i (input_at tx i) /\ sig_count (input_at tx i) = 1.

Lemma key_at_derives is_change index target : key_at sha512 account is_change index = Some target ->
  exists key, derive_child_key sha512 account index (flag is_change) = Ok key /\ public_key_x_only key = Ok target.
Proof.
  unfold key_at, derive_on, derive_child_key, flag. intros Hat.
  destruct is_change; cbn [Z.eqb Pos.eqb];
    [destruct (derive_change_key sha512 account index) as [key|]|destruct (derive_address_key sha512 account index) as [key|]]; try done;
    exists key; (split; [done|]); destruct (public_key_x_only key); [by injection Hat as ->|done|by injection Hat as ->|done].
Qed.

Lemma owned_key tx i : owned tx i -> exists target key, p2pk_target tx i = Some target /\
  derive_standard_input_key sha512 tx i account target = Ok (Some key) /\ public_key_x_only key = Ok target.
Proof.
  intros (target & Ht & Hown). unfold derive_standard_input_key. destruct (has_derivation_hint (input_at tx i)).
  - destruct Hown as (Hbr & Hidx & Hat). destruct (key_at_derives _ _ _ Hat) as (key & Hkey & Hx). exists target, key. split; [done|]. split; [|done].
    unfold derive_hinted_input_key. rewrite !(proj2 (Z.ltb_ge _ _)), (proj2 (Z.leb_gt _ _)) by lia. cbn [orb].
    assert (Hflag : flag (derivation_branch (input_at tx i) =? 1) = derivation_branch (input_at tx i)) by (unfold flag; destruct (Z.eqb_spec (derivation_branch (input_at tx i)) 1); lia).
    rewrite Hflag in Hkey. rewrite Hkey. cbn [rbind]. rewrite Hx. cbn [rmap_err rbind]. by rewrite (proj2 (list_Z_eqb_eq _ _) eq_refl).
  - destruct Hown as (is_change & index & Hidx & Hat). pose proof (find_address_index_spec sha512 account target) as Hfind.
    destruct (find_address_index_for_pubkey sha512 account target) as [[found change]|] eqn:Hf; [|by destruct (Hfind is_change index Hidx)].
    destruct Hfind as [_ Hat']. destruct (key_at_derives _ _ _ Hat') as (key & Hkey & Hx). exists target, key. rewrite Hf, Hkey. by split_and!.
Qed.

Lemma owned_content tx tx' i : bare_tx tx = bare_tx tx' -> signable tx -> signable tx' -> 0 <= i < num_inputs tx -> owned tx i -> owned tx' i.
Proof.
  intros Heq Hs Hs' Hi. pose proof (bare_input tx tx' i Heq Hs Hs' Hi) as Hb. unfold owned, p2pk_target.
  pose proof (f_equal utxo_entry Hb) as H1. pose proof (f_equal has_derivation_hint Hb) as H2. pose proof (f_equal derivation_branch Hb) as H3.
  pose proof (f_equal derivation_index Hb) as H4. cbn [bare set_sigs utxo_entry has_derivation_hint derivation_branch derivation_index] in *.
  by rewrite H1, H2, H3, H4.
Qed.

(** Signing one owned input. *)
Lemma sign_owned tx i r tx' : signable tx -> 0 <= i < num_inputs tx -> owned tx i ->
  sign_account_input sha512 sha256 keyed i account SigHashType.All entropy tx = (r, tx') ->
  bare_tx tx = bare_tx tx' /\ signable tx' /\
  (r = Err SigningFailed \/
   r = Ok true /\ signed_once tx' i /\ forall j, 0 <= j < num_inputs tx -> j <> i -> signed_once tx j -> signed_once tx' j).
Proof.
  intros Hs Hi Hown. destruct (owned_key tx i Hown) as (target & key & Ht & Hkey & Hx). destruct (p2pk_target_named tx i target Hs Hi Ht) as [Han He].
  unfold sign_account_input, sign_target, sign_standard_input, bind, reads. rewrite Ht, Hkey.
  unfold public_key_x_only in Hx. apply rbind_Ok_inv in Hx as (compressed & Hc & [= Hx]). rewrite Hc. cbn [rmap_err]. unfold of_result, sign_single.
  destruct (sign_one sha256 keyed tx i (Bip32.key key) SigHashType.All entropy) as [signature|e] eqn:Hsign.
  2:{ intros [= <- <-]. split; [done|]. split; [done|]. left. unfold sign_one in Hsign. destruct entropy.
      - destruct (sign_input_with_entropy _ _ _ _ _ _ _); [done|]. by injection Hsign as <-.
      - destruct (sign_input _ _ _ _ _); [done|]. by injection Hsign as <-. }
  cbn [ret]. intros [= <- <-].
  assert (Hnames : names_key tx i 0 target) by (split; [done|by rewrite Han]).
  pose proof (signature_good sha256 keyed tx i 0 target {| private_key := Bip32.key key; compressed_public_key := compressed |} entropy signature
    (conj Hc Hx) Hnames Hsign) as Hgood.
  pose proof (slots_at tx i Hs Hi) as Hslots.
  destruct (single_valid keyed verifies tx i signature (SigHashType.to_byte SigHashType.All) 0 compressed (input_at tx i) Hslots Hgood) as [Hv Hok].
  set (after := set_single_signature signature (SigHashType.to_byte SigHashType.All) 0 compressed (input_at tx i)) in *.
  assert (Hb : bare_tx tx = bare_tx (put_input i after tx)) by (symmetry; by apply bare_put; [|apply Hs|]).
  split; [done|]. split.
  { destruct Hs as [Hn Hall]. split; [cbn; unfold blen in *; by rewrite length_insert|]. by apply Forall_insert. }
  right. split; [done|]. split.
  - unfold signed_once. rewrite input_at_put by (done || lia || apply Hs). rewrite decide_True by done. split; [by eapply valid_sigs_content|done].
  - intros j Hj Hne [Hvj Hcj]. unfold signed_once. rewrite input_at_put by (done || lia || apply Hs). rewrite decide_False by done. split; [by eapply valid_sigs_content|done].
Qed.

(** The loop over the inputs from [start]. *)
Lemma sign_owned_loop count : forall start tx r tx', signable tx -> 0 <= start -> start + Z.of_nat count = num_inputs tx ->
  (forall i, 0 <= i < num_inputs tx -> owned tx i) -> (forall i, 0 <= i < start -> signed_once tx i) ->
  for_count (seqZ start (Z.of_nat count)) (fun input_index =>
    let* signed := sign_account_input sha512 sha256 keyed input_index account SigHashType.All entropy in ret (flag signed)) tx = (r, tx') ->
  bare_tx tx = bare_tx tx' /\ signable tx' /\
  (r = Err SigningFailed \/ r = Ok (Z.of_nat count) /\ forall i, 0 <= i < num_inputs tx -> signed_once tx' i).
Proof.
  induction count as [|count IH]; intros start tx r tx' Hs H0 Hn Hown Hdone.
  { rewrite seqZ_nil by lia. intros [= <- <-]. split; [done|]. split; [done|]. right. split; [done|]. intros i Hi. apply Hdone. lia. }
  rewrite (seqZ_cons start) by lia. replace (Z.pred (Z.of_nat (S count))) with (Z.of_nat count) by lia. cbn [for_count]. unfold bind at 1 2.
  destruct (sign_account_input _ _ _ _ _ _ _ _) as [[signed|e] tx1] eqn:Hrun; apply sign_owned in Hrun as (Hb & Hs1 & Hr); try done; try lia; try (apply Hown; lia).
  2:{ intros [= <- <-]. split; [done|]. split; [done|]. left. destruct Hr as [Hr|[Hr _]]; [by injection Hr as ->|done]. }
  destruct Hr as [|(Hr & Hsig & Hrest)]; [done|]. injection Hr as ->. cbn [ret flag]. unfold bind.
  destruct (for_count _ _ tx1) as [r2 tx2] eqn:Hl. apply IH in Hl as (Hb2 & Hs2 & Hr2); [|done|lia|rewrite <- (bare_num _ _ Hb); lia| |].
  - destruct r2 as [b|e]; cbn [ret]; intros [= <- <-]; (split; [congruence|]); (split; [done|]); destruct Hr2 as [Hr2|[Hr2 Hall]]; try done.
    + right. injection Hr2 as ->. split; [f_equal; lia|]. rewrite (bare_num _ _ Hb). done.
    + left. by injection Hr2 as ->.
  - rewrite <- (bare_num _ _ Hb). intros i Hi. apply (owned_content tx); try done. by apply Hown.
  - intros i Hi. destruct (decide (i = start)) as [->|]; [done|]. apply Hrest; [lia|done|]. apply Hdone. lia.
Qed.

Lemma signed_once_complete tx : signable tx -> 0 < num_inputs tx -> (forall i, 0 <= i < num_inputs tx -> owned tx i) ->
  (forall i, 0 <= i < num_inputs tx -> signed_once tx i) -> Signing.is_fully_signed keyed tx = true.
Proof.
  intros Hs Hn Hown Hall. unfold Signing.is_fully_signed, kspt_is_fully_signed. rewrite (proj2 (Z.eqb_neq _ _)), (proj2 (Z.ltb_ge _ _)) by (apply Hs || lia). cbn [orb].
  apply forallb_forall. intros i Hi%list_elem_of_In. apply elem_of_seqZ in Hi. destruct (Hown i ltac:(lia)) as (target & Ht & _).
  destruct (p2pk_target_named tx i target Hs ltac:(lia) Ht) as [Han _]. unfold input_fully_signed, required_for_input. rewrite Han.
  destruct (Hall i ltac:(lia)) as [Hv Hc]. unfold verified_count. destruct (input_at_range tx i ltac:(lia) (proj1 Hs)) as [_ ->]. cbn [ok_or rbind].
  destruct (slots_at tx i Hs ltac:(lia)) as [Hfive H0]. rewrite (proj2 (verified_count_iff keyed verifies tx i (input_at tx i) 1 Hfive H0)); [done|by split].
Qed.
End owner.

(** C7: An account that owns every input of a valid transaction signs it
    completely: the call reports all the inputs and the transaction is fully
    signed with its content unchanged; the only error possible is a refusal of
    the signature crate, and the content is unchanged then too. *)
Theorem account_signs_completely (sha512 sha256 : list Z -> list Z) (keyed : list Z -> list Z -> list Z)
    `{curve : Curve} `{bip : Bip340} `{laws : !Bip340Laws}
    (account : ExtendedPrivKey) (entropy : option (list Z)) (tx tx' : Transaction) (r : result Z PsktError) :
  typed_tx tx -> validate_base_transaction tx = Ok tt -> (forall i, 0 <= i < num_inputs tx -> owned sha512 account tx i) ->
  sign_transaction_multi_addr_account sha512 sha256 keyed account SigHashType.All entropy tx = (r, tx') ->
  bare_tx tx' = bare_tx tx /\
  (r = Err SigningFailed \/ r = Ok (num_inputs tx) /\ Signing.is_fully_signed keyed tx' = true).
Proof.
  intros Htx Hv Hown. assert (Hs : signable tx) by (apply validated_signable; [done|by rewrite Hv]).
  assert (Hn : 0 < num_inputs tx) by (destruct (validated_inputs tx ltac:(by rewrite Hv)); [lia|destruct Htx as (_ & _ & Hn & _); unfold u64_ok in Hn; lia]).
  unfold sign_transaction_multi_addr_account, bind at 1 2, reads, bind at 1. rewrite Hv. destruct (for_count _ _ tx) as [r1 tx1] eqn:Hrun.
  unfold input_indices in Hrun. replace (num_inputs tx) with (Z.of_nat (Z.to_nat (num_inputs tx))) in Hrun by lia.
  apply sign_owned_loop in Hrun as (Hb & Hs1 & Hr); [|done|done|lia|lia|done|intros i Hi; lia]. destruct r1 as [count|e].
  - destruct Hr as [|[Hcount Hall]]; [done|]. injection Hcount as ->. unfold of_result, signed_count_result. rewrite Z2Nat.id, (proj2 (Z.eqb_neq _ _)) by lia.
    intros [= <- <-]. split; [done|]. right. split; [done|]. apply (signed_once_complete sha512 keyed account tx1 Hs1); rewrite <- ?(bare_num _ _ Hb); try done.
    intros i Hi. apply (owned_content sha512 account tx); try done. by apply Hown.
  - intros [= <- <-]. split; [done|]. destruct Hr as [->|[]]; [by left|done].
Qed.

(** ** Signatures to evaluate

    Over the toy curve, a signature is the public key and the message. *)

Definition toy_bip340 : Bip340 := {|
  signing_key := toy_point;
  verifying_key := list Z;
  parsed_signature := list Z;
  signing_key_from_bytes l := toy_times <$> secret_key (Curve := toy_curve) l;
  sign_raw k message aux := Some (be_bytes 32 (proj1_sig k) ++ be_bytes 32 (be_val message));
  verifying_key_from_bytes l := Some l;
  signature_try_from l := Some l;
  verify_raw v message signature := list_Z_eqb signature (v ++ be_bytes 32 (be_val message)) |}.

Lemma toy_signs : @Bip340Laws toy_curve toy_bip340.
Proof.
  split.
  - intros l. cbn [signing_key_from_bytes toy_bip340]. apply fmap_is_Some.
  - intros k message aux signature Hsign. apply (inj Some) in Hsign as <-.
    split; [apply Forall_app; split; apply be_bytes_ok|by rewrite blen_app, !blen_be_bytes].
  - intros l k secret message aux signature Hk Hs Hsign. apply (inj Some) in Hsign as <-. cbn [signing_key_from_bytes toy_bip340] in Hk.
    rewrite Hs in Hk. apply (inj Some) in Hk as <-. eexists _, _. split; [done|]. split; [done|]. by apply list_Z_eqb_eq.
Qed.

(** Two accounts and a 1-of-2 multisig of their keys. *)
Definition first_account : ExtendedPrivKey := toy_key.
Definition second_account : ExtendedPrivKey := {| key := be_bytes 32 0x987654321; chain_code := replicate 32 9; depth := 3 |}.
Definition toy_xonly (account : ExtendedPrivKey) : list Z :=
  match public_key_x_only (H := toy_curve) account with Ok xonly => xonly | Err _ => [] end.
Definition one_of_two : list Z :=
  [0x51] ++ [0x20] ++ toy_xonly first_account ++ [0x20] ++ toy_xonly second_account ++ [0x52; 0xae].

Definition unsigned_input (script redeem : list Z) : TransactionInput :=
  set_sigs (replicate 5 empty_sig) 0 0 (signed_input script redeem empty_sig 0 0).
Definition unsigned_tx (input : TransactionInput) : Transaction := {|
  tx_version := 0;
  tx_inputs := [input];
  num_inputs := 1;
  tx_outputs :=
    {| value := 50000; out_script_public_key := spk_of (Standard.p2pk_script (replicate 32 8)); has_covenant := false;
       covenant_auth_input := 0; covenant_id := replicate 32 0; out_derivation_branch := 0; out_derivation_index := 0;
       out_has_derivation_hint := false; out_ms45_hint := no_hint |} :: replicate 7 empty_output;
  num_outputs := 1;
  tx_network := KaspaNetwork.Mainnet;
  locktime := 0;
  subnetwork_id := SUBNETWORK_ID_NATIVE;
  gas := 0;
  payload := [];
  stealth_tweak := zeros 32;
  has_stealth_tweak := false;
  redeem_pool := zeros REDEEM_POOL_SIZE;
  redeem_pool_used := 0;
  limits := FORMAT;
|}.
Definition multisig_tx : Transaction := unsigned_tx (unsigned_input (Standard.p2sh_script (replicate 32 9)) one_of_two).
Definition toy_keyed (_ l : list Z) : list Z := toy_hash32 l.

Definition toy_run (accounts : list (list Z * bool)) : result Z PsktError * Transaction :=
  sign_transaction_with_context (H := toy_curve) (H0 := toy_bip340) toy_hash512 toy_hash32 toy_keyed
    (from_account_sets (H := toy_curve) accounts []) SigHashType.All None (Some (replicate 32 5)) multisig_tx.

(** A device that holds more keys of a multisig than its threshold signs with
    all of them, and the signatures are then never complete: with one key the
    1-of-2 input is fully signed, with both it has two valid signatures and is
    reported as unsigned. *)
Example oversigned_multisig :
  (fst (toy_run [(to_raw first_account, true)]) = Ok 1 /\
   Signing.is_fully_signed (H := toy_bip340) toy_keyed (snd (toy_run [(to_raw first_account, true)])) = true) /\
  let tx := snd (toy_run [(to_raw first_account, true); (to_raw second_account, true)]) in
  fst (toy_run [(to_raw first_account, true); (to_raw second_account, true)]) = Ok 2 /\
  verified_count toy_keyed (verifies (H := toy_bip340)) tx 0 Kspt = Ok 2 /\ required_for_input tx 0 = Some 1 /\
  signature_status (H := toy_bip340) toy_keyed tx = (0, 1) /\ Signing.is_fully_signed (H := toy_bip340) toy_keyed tx = false.
Proof. vm_compute. split_and!; reflexivity. Qed.

Definition address_key : list Z := default [] (key_at (H := toy_curve) toy_hash512 first_account true 7).
Definition owned_tx : Transaction := unsigned_tx (unsigned_input (Standard.p2pk_script address_key) []).
Local Notation toy_account_run :=
  (sign_transaction_multi_addr_account (H := toy_curve) (H0 := toy_bip340) toy_hash512 toy_hash32 toy_keyed
    first_account SigHashType.All None owned_tx).

Lemma owned_tx_owned i : 0 <= i < num_inputs owned_tx -> owned (curve := toy_curve) toy_hash512 first_account owned_tx i.
Proof.
  intros Hi. change (num_inputs owned_tx) with 1 in Hi. assert (i = 0) as -> by lia. exists address_key.
  split; [vm_compute; reflexivity|]. vm_compute. split_and!; discriminate || reflexivity.
Qed.

Lemma account_signs_completely_witness :
  bare_tx (snd toy_account_run) = bare_tx owned_tx /\
  (fst toy_account_run = Err SigningFailed \/
   fst toy_account_run = Ok 1 /\ Signing.is_fully_signed (H := toy_bip340) toy_keyed (snd toy_account_run) = true).
Proof.
  exact (account_signs_completely (curve := toy_curve) (bip := toy_bip340) (laws := toy_signs) toy_hash512 toy_hash32 toy_keyed
    first_account None owned_tx (snd toy_account_run) (fst toy_account_run) ltac:(by_decide) ltac:(vm_compute; reflexivity) owned_tx_owned
    (surjective_pairing toy_account_run)).
Defined.

Lemma device_signing_sound_witness :
  let tx' := snd (toy_run [(to_raw first_account, true)]) in
  bare_tx tx' = bare_tx multisig_tx /\
  (forall i ty, calculate_sighash toy_keyed tx' i ty = calculate_sighash toy_keyed multisig_tx i ty) /\
  (forall i count, 0 <= i < 1 -> verified_count toy_keyed (verifies (H := toy_bip340)) multisig_tx i Kspt = Ok count ->
     exists count', verified_count toy_keyed (verifies (H := toy_bip340)) tx' i Kspt = Ok count' /\ count <= count' /\
       kept_slots (input_at multisig_tx i) (input_at tx' i)) /\
  (forall total, fst (toy_run [(to_raw first_account, true)]) = Ok total ->
     0 < total /\ sig_total tx' = sig_total multisig_tx + total).
Proof.
  exact (device_signing_sound (curve := toy_curve) (bip := toy_bip340) (laws := toy_signs) toy_hash512 toy_hash32 toy_keyed
    [] [(to_raw first_account, true)] [] (from_account_sets (H := toy_curve) [(to_raw first_account, true)] []) None (Some (replicate 32 5))
    multisig_tx (snd (toy_run [(to_raw first_account, true)])) (fst (toy_run [(to_raw first_account, true)]))
    ltac:(by_decide) (or_intror eq_refl) (surjective_pairing _)).
Defined.
