(* ===== verification/PsktSyntax.v ===== *)
(** * PSKT documents: syntax

    [src/src/transaction/interchange/pskt]: the errors, the tokenizer and the
    hexadecimal codec of [standard/syntax], the envelope of
    [standard/envelope.rs], the schema tables, canonical numbers and the
    canonical JSON validator of [schema], and the record of preserved fields of
    [shared.rs] with its operations ([standard/preservation.rs]). A slice of
    the document is the list of its bytes. Allocation succeeds, so the
    validator's [TooManyMembers] does not occur. *)

From S2P Require Import Prelude Bytes Selection TxModel.
Import Hex Decimal.

(** ** [standard/error.rs] *)

Inductive PskError :=
  | TooShort | BadMagic | TruncatedEnvelope
  | OddHexLength | BadHexChar | ScratchBufferTooSmall
  | UnexpectedToken | MissingField | DuplicateField | TooManyInputs | TooManyOutputs | TooManyPartialSigs
  | TooManyUnknownRegions
  | InvalidSighashType | InvalidSignatureType | InvalidPubkeyLen | InvalidScriptLen | ShortScriptPubkey
  | VersionNotSupported | CountMismatch | BundleMultiElement
  | OutputBufferTooSmall
  | JsonTooLarge | JsonNestingTooDeep | InvalidCovenantBinding | InputAmountOverflow | OutputAmountOverflow
  | OutputsExceedInputs | SignatureConflict | StorageExhausted.

#[export] Instance PskError_eq_dec : EqDecision PskError.
Proof. solve_decision. Defined.

(** ** [standard/syntax/hex.rs]: the result and the buffer *)

Definition hex_decode_strict (src dst : list Z) : result Z PskError * list Z :=
  if negb (Z.land (blen src) 1 =? 0) then (Err OddHexLength, dst)
  else
    let need := blen src / 2 in
    if blen dst <? need then (Err ScratchBufferTooSmall, dst)
    else let '(r, dst) := decode_lower_hex src dst in (ok_or r BadHexChar, dst).

Definition hex_encode_lower (src dst : list Z) : result Z PskError * list Z :=
  let '(r, dst) := encode_lower_hex src dst in (ok_or r OutputBufferTooSmall, dst).

(** ** [schema/numbers.rs] *)

Definition JS_MAX_SAFE_U64 : Z := 9007199254740991.

Inductive JsonNumberError := NonCanonical | Overflow.

Definition parse_canonical_u64_bytes (bytes : list Z) : result Z JsonNumberError :=
  if bool_decide (bytes = []) || negb (forallb is_ascii_digit bytes)
     || ((1 <? blen bytes) && (default 0 (head bytes) =? 48))
  then Err NonCanonical
  else
    try_fold (fun value byte => ok_or (product ← checked_mul value 10; checked_add product (byte - 48)) Overflow) 0 bytes.

Definition json_number_is_exact_integer (value : Z) : bool := value <=? JS_MAX_SAFE_U64.

(** [standard/syntax/tokenizer.rs] *)
Definition parse_u64_num (bytes : list Z) : result Z PskError :=
  rmap_err (fun _ => UnexpectedToken) (parse_canonical_u64_bytes bytes).

(** ** [standard/syntax/tokenizer.rs] *)

Inductive Tok :=
  | LBrace | RBrace | LBracket | RBracket | Colon | Comma
  | Str (s : list Z) | Num (s : list Z) | TTrue | TFalse | TNull | Eof.

#[export] Instance Tok_eq_dec : EqDecision Tok.
Proof. solve_decision. Defined.

Definition is_ws (byte : Z) : bool := (byte =? 32) || (byte =? 9) || (byte =? 13) || (byte =? 10).

Definition punctuation (byte : Z) : option Tok :=
  if byte =? 123 then Some LBrace
  else if byte =? 125 then Some RBrace
  else if byte =? 91 then Some LBracket
  else if byte =? 93 then Some RBracket
  else if byte =? 58 then Some Colon
  else if byte =? 44 then Some Comma
  else None.

(** [iter().position(p)] and [iter().take_while(p).count()]. *)
Fixpoint position {A} (p : A -> bool) (l : list A) : option Z :=
  match l with
  | [] => None
  | x :: l => if p x then Some 0 else i ← position p l; Some (1 + i)
  end.
Fixpoint prefix_count {A} (p : A -> bool) (l : list A) : Z :=
  match l with
  | x :: l => if p x then 1 + prefix_count p l else 0
  | [] => 0
  end.

(** [data[i..]]. *)
Definition suffix (data : list Z) (i : Z) : list Z := drop (Z.to_nat i) data.

Section tokenizer.
Variable data : list Z.

(** The tokenizer's [pos] is the state; its positions stay far below
    [usize::MAX], which bounds the length of any slice. *)
Definition skip_ws (pos : Z) : Z := pos + prefix_count is_ws (suffix data pos).

Definition read_string : Comp Z PskError Tok := fun pos =>
  let start := pos + 1 in
  match position (fun c => (c =? 34) || (c =? 92) || negb ((0x20 <=? c) && (c <=? 0x7E))) (suffix data start) with
  | None => (Err TruncatedEnvelope, blen data)
  | Some relative =>
      let i := start + relative in
      if bool_decide (get_at data i = Some 34) then (Ok (Str (default [] (slice data start i))), i + 1)
      else (Err UnexpectedToken, i)
  end.

Definition digit_at (pos : Z) : bool :=
  match get_at data pos with Some c => is_ascii_digit c | None => false end.

Definition read_number : Comp Z PskError Tok := fun pos =>
  let start := pos in
  if bool_decide (get_at data start = Some 48) then
    let pos := pos + 1 in
    if digit_at pos then (Err UnexpectedToken, pos)
    else (Ok (Num (default [] (slice data start pos))), pos)
  else
    let digits_start := pos + 1 in
    let pos := digits_start + prefix_count is_ascii_digit (suffix data digits_start) in
    match get_at data pos with
    | Some c => if (c =? 46) || (c =? 101) || (c =? 69) then (Err UnexpectedToken, pos)
                else (Ok (Num (default [] (slice data start pos))), pos)
    | None => (Ok (Num (default [] (slice data start pos))), pos)
    end.

Definition read_keyword (expected : list Z) (tok : Tok) : Comp Z PskError Tok := fun pos =>
  let end_ := pos + blen expected in
  if blen data <? end_ then (Err TruncatedEnvelope, pos)
  else if negb (bool_decide (slice data pos end_ = Some expected)) then (Err UnexpectedToken, pos)
  else (Ok tok, end_).

Definition next_token : Comp Z PskError Tok := fun pos =>
  let pos := skip_ws pos in
  match get_at data pos with
  | None => (Ok Eof, pos)
  | Some byte =>
      match punctuation byte with
      | Some token => (Ok token, pos + 1)
      | None =>
          if byte =? 34 then read_string pos
          else if is_ascii_digit byte then read_number pos
          else if byte =? 116 then read_keyword (str "true") TTrue pos
          else if byte =? 102 then read_keyword (str "false") TFalse pos
          else if byte =? 110 then read_keyword (str "null") TNull pos
          else (Err UnexpectedToken, pos)
      end
  end.

Definition peek : Comp Z PskError Tok := fun pos => ((next_token pos).1, pos).

End tokenizer.

(** ** [schema/json.rs]

    The cursor's state is its unread suffix; its offsets are only read to take
    the key of a member. [value], [object] and [array] recur on the text with
    fuel, two units per byte at most. *)

Inductive JsonSyntaxError := J_UnexpectedToken | InvalidNumber | InvalidString | DuplicateKey | NestingTooDeep | TrailingData.

Definition MAX_JSON_NESTING : Z := 32.

Module Cursor.

Definition ws : Comp (list Z) JsonSyntaxError unit := fun rest => (Ok tt, suffix rest (prefix_count is_ws rest)).

Definition consume_if (expected : Z) : Comp (list Z) JsonSyntaxError bool := fun rest =>
  match rest with
  | byte :: rest' => if byte =? expected then (Ok true, rest') else (Ok false, rest)
  | [] => (Ok false, rest)
  end.

Definition byte (expected : Z) : Comp (list Z) JsonSyntaxError unit :=
  let* _ := ws in
  let* matched := consume_if expected in
  if matched then ret tt else throw J_UnexpectedToken.

Definition string : Comp (list Z) JsonSyntaxError (list Z) :=
  let* _ := byte 34 in
  fun rest =>
    match position (fun c => negb ((32 <=? c) && (c <=? 126)) || ((c =? 34) || (c =? 92))) rest with
    | Some length =>
        if bool_decide (get_at rest length = Some 34)
        then (Ok (default [] (slice rest 0 length)), suffix rest (length + 1))
        else (Err InvalidString, rest)
    | None => (Err InvalidString, rest)
    end.

Definition number : Comp (list Z) JsonSyntaxError unit := fun rest =>
  let digits := prefix_count is_ascii_digit rest in
  let leading_zero := bool_decide (head rest = Some 48) in
  let rest := suffix rest digits in
  if (leading_zero && (1 <? digits))
     || match head rest with
        | Some c => (c =? 46) || (c =? 101) || (c =? 69) || (c =? 43) || (c =? 45)
        | None => false
        end
  then (Err InvalidNumber, rest)
  else (Ok tt, rest).

Definition literal (text : list Z) : Comp (list Z) JsonSyntaxError unit := fun rest =>
  if bool_decide (take (length text) rest = text) then (Ok tt, drop (length text) rest)
  else (Err J_UnexpectedToken, rest).

Definition nested (depth : Z) : result Z JsonSyntaxError :=
  if depth <? MAX_JSON_NESTING then Ok (depth + 1) else Err NestingTooDeep.

Fixpoint adjacent_equal (keys : list (list Z)) : bool :=
  match keys with
  | a :: (b :: _) as rest => list_Z_eqb a b || adjacent_equal rest
  | _ => false
  end.

(** [keys.sort_unstable()]: equal keys cannot be told apart. *)
Definition reject_duplicate_keys (keys : list (list Z)) : result unit JsonSyntaxError :=
  if adjacent_equal (sort_by cmp_text keys) then Err DuplicateKey else Ok tt.

Definition list_end (close : Z) : Comp (list Z) JsonSyntaxError bool :=
  let* _ := ws in
  let* more := consume_if 44 in
  if more then ret false
  else
    let* closed := consume_if close in
    if closed then ret true else throw J_UnexpectedToken.

Fixpoint value (fuel : nat) (depth : Z) : Comp (list Z) JsonSyntaxError unit :=
  match fuel with
  | O => throw J_UnexpectedToken
  | S fuel =>
      let* _ := ws in
      fun rest =>
        match head rest with
        | Some c =>
            if c =? 123 then
              (let* depth := of_result (nested depth) in
               let* _ := byte 123 in
               let* _ := ws in
               let* empty := consume_if 125 in
               if empty then ret tt else members fuel depth []) rest
            else if c =? 91 then
              (let* depth := of_result (nested depth) in
               let* _ := byte 91 in
               let* _ := ws in
               let* empty := consume_if 93 in
               if empty then ret tt else items fuel depth) rest
            else if c =? 34 then (let* _ := string in ret tt) rest
            else if is_ascii_digit c then number rest
            else if c =? 116 then literal (str "true") rest
            else if c =? 102 then literal (str "false") rest
            else if c =? 110 then literal (str "null") rest
            else (Err J_UnexpectedToken, rest)
        | None => (Err J_UnexpectedToken, rest)
        end
  end

(** The loops of [object] and [array]. *)
with members (fuel : nat) (depth : Z) (keys : list (list Z)) : Comp (list Z) JsonSyntaxError unit :=
  match fuel with
  | O => throw J_UnexpectedToken
  | S fuel =>
      let* key := string in
      let* _ := byte 58 in
      let* _ := value fuel depth in
      let keys := keys ++ [key] in
      let* finished := list_end 125 in
      if finished then of_result (reject_duplicate_keys keys) else members fuel depth keys
  end

with items (fuel : nat) (depth : Z) : Comp (list Z) JsonSyntaxError unit :=
  match fuel with
  | O => throw J_UnexpectedToken
  | S fuel =>
      let* _ := value fuel depth in
      let* finished := list_end 93 in
      if finished then ret tt else items fuel depth
  end.

End Cursor.

Definition validate_canonical_json (input : list Z) : result unit JsonSyntaxError :=
  fst ((let* _ := Cursor.value (S (2 * length input)) 0 in
        let* _ := Cursor.ws in
        fun rest => (if negb (bool_decide (rest = [])) then Err TrailingData else Ok tt, rest)) input).

(** ** [schema/mod.rs] and [schema/tables.rs] *)

Module Schema.

Definition PSKT_VERSION : Z := 0.
Definition MAX_SUPPORTED_TX_VERSION : Z := 1.
Definition SIGHASH_ALL : Z := 1.

Inductive Scope :=
  | TopLevel | Global | Input | InputUtxo | InputOutpoint | Output | CovenantExecution | CovenantBinding
  | PartialSignature.

Inductive NullRule := Forbidden | AllowedAsDefault.
Inductive FieldClass := Standard | ProductExtension.
Inductive ValueKind := Object | Array | Boolean | ExactUnsigned | String | HexString | ScriptPublicKey.
Inductive DefaultRule := None_ | Zero | One | False_ | EmptyObject | EmptyBytes | NativeSubnetwork.

Record FieldSpec := {
  name : list Z;
  required : bool;
  null_rule : NullRule;
  class : FieldClass;
  kind : ValueKind;
  default_rule : DefaultRule }.

Definition field (name : string) (required : bool) (null_rule : NullRule) (kind : ValueKind) (default_rule : DefaultRule) :=
  {| name := str name; required := required; null_rule := null_rule; class := Standard; kind := kind;
     default_rule := default_rule |}.
Definition product (name : string) (null_rule : NullRule) (kind : ValueKind) (default_rule : DefaultRule) :=
  {| name := str name; required := false; null_rule := null_rule; class := ProductExtension; kind := kind;
     default_rule := default_rule |}.

Definition TOP_LEVEL_FIELDS : list FieldSpec :=
  [field "global" true Forbidden Object None_;
   field "inputs" true Forbidden Array None_;
   field "outputs" true Forbidden Array None_].

Definition GLOBAL_FIELDS : list FieldSpec :=
  [field "version" true Forbidden ExactUnsigned None_;
   field "txVersion" true Forbidden ExactUnsigned None_;
   field "inputCount" true Forbidden ExactUnsigned None_;
   field "outputCount" true Forbidden ExactUnsigned None_;
   field "fallbackLockTime" false AllowedAsDefault ExactUnsigned Zero;
   field "inputsModifiable" false Forbidden Boolean False_;
   field "outputsModifiable" false Forbidden Boolean False_;
   field "xpubs" false Forbidden Object EmptyObject;
   field "id" false AllowedAsDefault String None_;
   field "proprietaries" false Forbidden Object EmptyObject;
   field "subnetworkId" false AllowedAsDefault HexString NativeSubnetwork;
   field "gas" false AllowedAsDefault ExactUnsigned Zero;
   field "txPayload" false AllowedAsDefault HexString EmptyBytes].

Definition INPUT_FIELDS : list FieldSpec :=
  [field "utxoEntry" true Forbidden Object None_;
   field "previousOutpoint" true Forbidden Object None_;
   field "sighashType" true Forbidden ExactUnsigned None_;
   field "sequence" false Forbidden ExactUnsigned Zero;
   field "minTime" false AllowedAsDefault ExactUnsigned Zero;
   field "partialSigs" false Forbidden Object EmptyObject;
   field "redeemScript" false AllowedAsDefault HexString EmptyBytes;
   field "sigOpCount" false Forbidden ExactUnsigned One;
   field "bip32Derivations" false Forbidden Object EmptyObject;
   field "finalScriptSig" false AllowedAsDefault HexString EmptyBytes;
   field "covenantExecution" false AllowedAsDefault Object None_;
   field "proprietaries" false Forbidden Object EmptyObject;
   product "minimumSignatures" Forbidden ExactUnsigned One].

Definition UTXO_FIELDS : list FieldSpec :=
  [field "amount" true Forbidden ExactUnsigned None_;
   field "scriptPublicKey" true Forbidden ScriptPublicKey None_;
   field "blockDaaScore" false Forbidden ExactUnsigned Zero;
   field "isCoinbase" false Forbidden Boolean False_;
   field "covenantId" false AllowedAsDefault HexString None_].

Definition OUTPOINT_FIELDS : list FieldSpec :=
  [field "transactionId" true Forbidden HexString None_;
   field "index" true Forbidden ExactUnsigned None_].

Definition OUTPUT_FIELDS : list FieldSpec :=
  [field "amount" true Forbidden ExactUnsigned None_;
   field "scriptPublicKey" true Forbidden ScriptPublicKey None_;
   field "redeemScript" false AllowedAsDefault HexString EmptyBytes;
   field "bip32Derivations" false Forbidden Object EmptyObject;
   field "covenantBinding" false AllowedAsDefault Object None_;
   field "proprietaries" false Forbidden Object EmptyObject].

Definition COVENANT_EXECUTION_FIELDS : list FieldSpec :=
  [field "suppliedMask" true Forbidden ExactUnsigned None_;
   field "suppliedTrueMask" true Forbidden ExactUnsigned None_].

Definition COVENANT_BINDING_FIELDS : list FieldSpec :=
  [field "authorizingInput" true Forbidden ExactUnsigned None_;
   field "covenantId" true Forbidden HexString None_].

Definition PARTIAL_SIGNATURE_FIELDS : list FieldSpec :=
  [field "schnorr" true Forbidden HexString None_].

Definition fields (scope : Scope) : list FieldSpec :=
  match scope with
  | TopLevel => TOP_LEVEL_FIELDS
  | Global => GLOBAL_FIELDS
  | Input => INPUT_FIELDS
  | InputUtxo => UTXO_FIELDS
  | InputOutpoint => OUTPOINT_FIELDS
  | Output => OUTPUT_FIELDS
  | CovenantExecution => COVENANT_EXECUTION_FIELDS
  | CovenantBinding => COVENANT_BINDING_FIELDS
  | PartialSignature => PARTIAL_SIGNATURE_FIELDS
  end.

Definition field_spec (scope : Scope) (key : list Z) : option FieldSpec :=
  find (fun spec => list_Z_eqb (name spec) key) (fields scope).

Definition field_bit (scope : Scope) (key : list Z) : option Z :=
  index ← position (fun spec => list_Z_eqb (name spec) key) (fields scope);
  Some (Z.shiftl 1 index).

Definition required_mask (scope : Scope) : Z :=
  sum_by (fun '(index, spec) => if required spec then Z.shiftl 1 (Z.of_nat index) else 0)
    (imap pair (fields scope)).

Definition required_fields_present (scope : Scope) (seen : Z) : bool :=
  let mask := required_mask scope in Z.land seen mask =? mask.

Definition supported_tx_version_u64 (version : Z) : bool := version <=? MAX_SUPPORTED_TX_VERSION.

End Schema.

(** ** [shared.rs] *)

Inductive TxInputFormat := KsptCompact | PsktPskb | PsktSingle.

Definition MAX_PSKT_UNKNOWN_REGIONS : Z := 16.

Inductive PsktUnknownScopeKind := S_TopLevel | S_Global | S_Input | S_InputUtxo | S_InputOutpoint | S_Output.

Record PsktUnknownScope := { sc_kind : PsktUnknownScopeKind; sc_index : Z }.

#[export] Instance PsktUnknownScope_eq_dec : EqDecision PsktUnknownScope.
Proof. unfold EqDecision, Decision. decide equality; [apply Z.eq_dec | decide equality]. Defined.

Definition top_level : PsktUnknownScope := {| sc_kind := S_TopLevel; sc_index := 0 |}.
Definition global : PsktUnknownScope := {| sc_kind := S_Global; sc_index := 0 |}.
Definition input (index : Z) : PsktUnknownScope := {| sc_kind := S_Input; sc_index := index |}.
Definition input_utxo (index : Z) : PsktUnknownScope := {| sc_kind := S_InputUtxo; sc_index := index |}.
Definition input_outpoint (index : Z) : PsktUnknownScope := {| sc_kind := S_InputOutpoint; sc_index := index |}.
Definition output (index : Z) : PsktUnknownScope := {| sc_kind := S_Output; sc_index := index |}.

Record PsktParsed := {
  unknowns : list (Z * Z);
  unknown_scopes : list PsktUnknownScope;
  unknowns_count : Z;
  json_start : Z;
  json_len : Z;
  output_covenant_binding_present : Z }.

Definition empty_parsed : PsktParsed := {|
  unknowns := replicate (Z.to_nat MAX_PSKT_UNKNOWN_REGIONS) (0, 0);
  unknown_scopes := replicate (Z.to_nat MAX_PSKT_UNKNOWN_REGIONS) top_level;
  unknowns_count := 0;
  json_start := 0;
  json_len := 0;
  output_covenant_binding_present := 0 |}.

Definition output_has_covenant_binding_field (parsed : PsktParsed) (index : Z) : bool :=
  (index <? 16) && negb (Z.land (output_covenant_binding_present parsed) (Z.shiftl 1 index) =? 0).

Definition mark_output_covenant_binding_field (index : Z) (parsed : PsktParsed) : PsktParsed :=
  if index <? 16 then {|
    unknowns := unknowns parsed; unknown_scopes := unknown_scopes parsed; unknowns_count := unknowns_count parsed;
    json_start := json_start parsed; json_len := json_len parsed;
    output_covenant_binding_present := Z.lor (output_covenant_binding_present parsed) (Z.shiftl 1 index) |}
  else parsed.

(** ** [standard/preservation.rs] *)

Record CapturedField := { cf_key : list Z; cf_field_start : Z; cf_value_start : Z; cf_end : Z }.

Definition capture_unknown (scope : PsktUnknownScope) (start end_ : Z) : Comp PsktParsed (Fault PskError) unit := fun parsed =>
  let json_end := json_start parsed + json_len parsed in
  if (start <? json_start parsed) || (end_ <=? start) || (json_end <? end_) then (Err (Fails JsonTooLarge), parsed)
  else if (u32_max <? start) || (u32_max <? end_) then (Err (Fails JsonTooLarge), parsed)
  else
    let index := unknowns_count parsed in
    if MAX_PSKT_UNKNOWN_REGIONS <=? index then (Err (Fails TooManyUnknownRegions), parsed)
    else (Ok tt, {|
      unknowns := <[Z.to_nat index := (start, end_)]> (unknowns parsed);
      unknown_scopes := <[Z.to_nat index := scope]> (unknown_scopes parsed);
      unknowns_count := index + 1;
      json_start := json_start parsed; json_len := json_len parsed;
      output_covenant_binding_present := output_covenant_binding_present parsed |}).

Definition skip_ws_in_range (bytes : list Z) (start end_ : Z) : Z :=
  default end_ (part ← slice bytes start end_; relative ← position (fun byte => negb (is_ws byte)) part; Some (start + relative)).

Definition captured_bounds (parsed : PsktParsed) (scratch_len index : Z) : result (Z * Z) PskError :=
  let '(start, end_) := default (0, 0) (get_at (unknowns parsed) index) in
  let json_end := json_start parsed + json_len parsed in
  if (start <? json_start parsed) || (end_ <=? start) then Err UnexpectedToken
  else if (json_end <? end_) || (scratch_len <? json_end) then Err UnexpectedToken
  else Ok (start, end_).

Definition captured_key (scratch : list Z) (start end_ : Z) : result (list Z * Z * Z) PskError :=
  let field_start := skip_ws_in_range scratch start end_ in
  if negb (bool_decide (get_at scratch field_start = Some 34)) then Err UnexpectedToken
  else
    let key_start := field_start + 1 in
    let? quote_rel := ok_or (bytes ← slice scratch key_start end_; position (fun byte => byte =? 34) bytes) UnexpectedToken in
    let quote := key_start + quote_rel in
    Ok (default [] (slice scratch key_start quote), field_start, quote + 1).

Definition captured_value_start (scratch : list Z) (start end_ : Z) : result Z PskError :=
  let colon := skip_ws_in_range scratch start end_ in
  if negb (bool_decide (get_at scratch colon = Some 58)) then Err UnexpectedToken
  else
    let value := skip_ws_in_range scratch (colon + 1) end_ in
    if end_ <=? value then Err UnexpectedToken else Ok value.

Definition captured_field_at (parsed : PsktParsed) (scratch : list Z) (index : Z)
  : result (option (PsktUnknownScope * CapturedField)) PskError :=
  if unknowns_count parsed <=? index then Ok None
  else if MAX_PSKT_UNKNOWN_REGIONS <=? index then Err TooManyUnknownRegions
  else
    let? (start, end_) := captured_bounds parsed (blen scratch) index in
    let? (key, field_start, position) := captured_key scratch start end_ in
    let? value_start := captured_value_start scratch position end_ in
    Ok (Some (default top_level (get_at (unknown_scopes parsed) index),
              {| cf_key := key; cf_field_start := field_start mod 2 ^ 32; cf_value_start := value_start mod 2 ^ 32;
                 cf_end := (default (0, 0) (get_at (unknowns parsed) index)).2 |})).

Fixpoint find_captured (parsed : PsktParsed) (scratch : list Z) (scope : PsktUnknownScope) (name : list Z)
    (indices : list Z) : result (option (Z * Z)) PskError :=
  match indices with
  | [] => Ok None
  | index :: indices =>
      let? found := captured_field_at parsed scratch index in
      match found with
      | Some (captured_scope, field) =>
          if bool_decide (captured_scope = scope) && list_Z_eqb (cf_key field) name
          then Ok (Some (cf_value_start field, cf_end field))
          else find_captured parsed scratch scope name indices
      | None => find_captured parsed scratch scope name indices
      end
  end.

Definition find_captured_value (parsed : PsktParsed) (scratch : list Z) (scope : PsktUnknownScope) (name : list Z)
  : result (option (Z * Z)) PskError :=
  find_captured parsed scratch scope name (seqZ 0 (unknowns_count parsed)).

Definition validate_scope (scope : PsktUnknownScope) (num_inputs num_outputs : Z) : result unit PskError :=
  let index := sc_index scope in
  if match sc_kind scope with
     | S_TopLevel | S_Global => index =? 0
     | S_Input | S_InputUtxo | S_InputOutpoint => index <? num_inputs
     | S_Output => index <? num_outputs
     end
  then Ok tt else Err UnexpectedToken.

Definition validate_preservation_metadata (parsed : PsktParsed) (scratch : list Z) (num_inputs num_outputs : Z)
  : result unit PskError :=
  let count := unknowns_count parsed in
  if MAX_PSKT_UNKNOWN_REGIONS <? count then Err TooManyUnknownRegions
  else
    try_fold (fun _ index =>
      let? found := captured_field_at parsed scratch index in
      let? (scope, field) := ok_or found UnexpectedToken in
      let? _ := validate_scope scope num_inputs num_outputs in
      try_fold (fun _ previous_index =>
        let? previous := captured_field_at parsed scratch previous_index in
        let? (previous_scope, previous_field) := ok_or previous UnexpectedToken in
        if bool_decide (previous_scope = scope) && list_Z_eqb (cf_key previous_field) (cf_key field)
        then Err DuplicateField else Ok tt) tt (seqZ 0 index)) tt (seqZ 0 count).

(** ** [standard/envelope.rs] *)

Definition PSKB_MAGIC : list Z := str "PSKB".
Definition PSKT_MAGIC : list Z := str "PSKT".
Definition KSPT_MAGIC : list Z := str "KSPT".
Definition KSPT_VERSION_CURRENT : Z := 1.

Inductive DetectedFormat := D_KsptCompact | D_PsktPskb | D_PsktSingle | D_Unknown.

Definition to_tx_input_format (format : DetectedFormat) : option TxInputFormat :=
  match format with
  | D_KsptCompact => Some KsptCompact
  | D_PsktPskb => Some PsktPskb
  | D_PsktSingle => Some PsktSingle
  | D_Unknown => None
  end.

Definition starts_with (data prefix : list Z) : bool := list_Z_eqb (take (length prefix) data) prefix.

Definition detect_tx_format (data : list Z) : DetectedFormat :=
  if starts_with data KSPT_MAGIC && bool_decide (get_at data 4 = Some KSPT_VERSION_CURRENT) then D_KsptCompact
  else if starts_with data PSKB_MAGIC then D_PsktPskb
  else if starts_with data PSKT_MAGIC then D_PsktSingle
  else D_Unknown.

Definition strip_pskt_magic (data : list Z) : result (list Z) PskError :=
  if blen data <? 4 then Err TooShort
  else if negb (starts_with data PSKB_MAGIC) && negb (starts_with data PSKT_MAGIC) then Err BadMagic
  else
    let body := suffix data 4 in
    if bool_decide (body = []) then Err TruncatedEnvelope else Ok body.
