(* ===== verification/PsktParser.v ===== *)
(** * PSKT documents: the parser

    [src/src/transaction/interchange/pskt/standard/parser]. A parser works on
    the text [data], a position in it, the record of preserved fields, and the
    part of the model it fills: the [&mut] arguments of the code. What it
    changed before an error stays changed. Loops over members and elements
    have the text's length as fuel, and each round reads at least a byte;
    running out counts as a panic, like an index out of range. *)

From S2P Require Import Prelude Bytes TxModel PsktSyntax.
Import Hex.

(** ** The state of a parser *)

Record Frame (X : Type) := { at_ : Z; held : PsktParsed; it : X }.
Arguments Build_Frame {X}.
Arguments at_ {X}.
Arguments held {X}.
Arguments it {X}.

Definition Parser (X A : Type) : Type := Comp (Frame X) (Fault PskError) A.

Definition fail {X A} (e : PskError) : Parser X A := throw (Fails e).
Definition on_tok {X A} (m : Comp Z PskError A) : Parser X A := fun f =>
  let '(r, p) := m (at_ f) in (rmap_err Fails r, {| at_ := p; held := held f; it := it f |}).
Definition on_held {X A} (m : Comp PsktParsed (Fault PskError) A) : Parser X A := fun f =>
  let '(r, h) := m (held f) in (r, {| at_ := at_ f; held := h; it := it f |}).
Definition on_it {X A} (m : Comp X (Fault PskError) A) : Parser X A := fun f =>
  let '(r, x) := m (it f) in (r, {| at_ := at_ f; held := held f; it := x |}).
Definition the_position {X} : Parser X Z := fun f => (Ok (at_ f), f).
Definition change {X} (g : X -> X) : Parser X unit := on_it (fun x => (Ok tt, g x)).
Definition look {X} : Parser X X := fun f => (Ok (it f), f).
Definition of_psk {X A} (r : result A PskError) : Parser X A := of_result (rmap_err Fails r).

(** A parser of a part of the model, run in place. *)
Definition zoom {X Y A} (get : X -> Y) (put : Y -> X -> X) (m : Parser Y A) : Parser X A := fun f =>
  let '(r, f') := m {| at_ := at_ f; held := held f; it := get (it f) |} in
  (r, {| at_ := at_ f'; held := held f'; it := put (it f') (it f) |}).

(** A decoder that fills a buffer of the model. *)
Definition decode_into {X} (hex : list Z) (get : X -> list Z) (put : list Z -> X -> X) : Parser X Z :=
  on_it (fun x => let '(r, buffer) := hex_decode_strict hex (get x) in (rmap_err Fails r, put buffer x)).

(** The members of an object and the schema fields seen so far. *)
Record Members (X : Type) := { body : X; seen : Z }.
Arguments Build_Members {X}.
Arguments body {X}.
Arguments seen {X}.
Definition of_body {X A} (m : Parser X A) : Parser (Members X) A :=
  zoom body (fun x members => {| body := x; seen := seen members |}) m.

(** ** Setters *)

Definition upd_input (i : TransactionInput) outpoint seq ops utxo sighash partial partial_count hint present mask truth
  : TransactionInput := {|
  previous_outpoint := outpoint; sequence := seq; sig_op_count := ops; utxo_entry := utxo; sigs := sigs i;
  sig_count := sig_count i; sighash_type := sighash; redeem_script := redeem_script i;
  redeem_script_len := redeem_script_len i; redeem_in_pool := redeem_in_pool i;
  redeem_script_offset := redeem_script_offset i; incoming_partial_sigs := partial;
  incoming_partial_sigs_count := partial_count; has_derivation_hint := has_derivation_hint i;
  derivation_branch := derivation_branch i; derivation_index := derivation_index i; ms45_hint := hint;
  covenant_execution_present := present; covenant_execution_mask := mask; covenant_execution_true_mask := truth |}.

Section input_setters.
Variable i : TransactionInput.
Local Notation outpoint := (previous_outpoint i).
Local Notation seq := (sequence i).
Local Notation ops := (sig_op_count i).
Local Notation utxo := (utxo_entry i).
Local Notation sighash := (sighash_type i).
Local Notation partial := (incoming_partial_sigs i).
Local Notation partial_count := (incoming_partial_sigs_count i).
Local Notation hint := (ms45_hint i).
Local Notation present := (covenant_execution_present i).
Local Notation mask := (covenant_execution_mask i).
Local Notation truth := (covenant_execution_true_mask i).
Definition put_outpoint x := upd_input i x seq ops utxo sighash partial partial_count hint present mask truth.
Definition put_sequence x := upd_input i outpoint x ops utxo sighash partial partial_count hint present mask truth.
Definition put_sig_ops x := upd_input i outpoint seq x utxo sighash partial partial_count hint present mask truth.
Definition put_utxo x := upd_input i outpoint seq ops x sighash partial partial_count hint present mask truth.
Definition put_sighash x := upd_input i outpoint seq ops utxo x partial partial_count hint present mask truth.
Definition put_partial_sigs x := upd_input i outpoint seq ops utxo sighash x partial_count hint present mask truth.
Definition put_partial_count x := upd_input i outpoint seq ops utxo sighash partial x hint present mask truth.
Definition put_hint x := upd_input i outpoint seq ops utxo sighash partial partial_count x present mask truth.
Definition put_execution p m t := upd_input i outpoint seq ops utxo sighash partial partial_count hint p m t.
End input_setters.

Definition upd_output (o : TransactionOutput) amount spk has auth id hint : TransactionOutput := {|
  value := amount; out_script_public_key := spk; has_covenant := has; covenant_auth_input := auth; covenant_id := id;
  out_derivation_branch := out_derivation_branch o; out_derivation_index := out_derivation_index o;
  out_has_derivation_hint := out_has_derivation_hint o; out_ms45_hint := hint |}.

Section output_setters.
Variable o : TransactionOutput.
Local Notation spk := (out_script_public_key o).
Local Notation has := (has_covenant o).
Local Notation auth := (covenant_auth_input o).
Local Notation id := (covenant_id o).
Local Notation hint := (out_ms45_hint o).
Definition put_value x := upd_output o x spk has auth id hint.
Definition put_out_spk x := upd_output o (value o) x has auth id hint.
Definition put_has_covenant x := upd_output o (value o) spk x auth id hint.
Definition put_covenant_auth x := upd_output o (value o) spk has x id hint.
Definition put_covenant_id x := upd_output o (value o) spk has auth x hint.
Definition put_out_hint x := upd_output o (value o) spk has auth id x.
End output_setters.

Definition upd_tx (tx : Transaction) version n_inputs n_outputs lock subnetwork gas_ : Transaction := {|
  tx_version := version; tx_inputs := tx_inputs tx; num_inputs := n_inputs; tx_outputs := tx_outputs tx;
  num_outputs := n_outputs; tx_network := tx_network tx; locktime := lock; subnetwork_id := subnetwork; gas := gas_;
  payload := payload tx; stealth_tweak := stealth_tweak tx; has_stealth_tweak := has_stealth_tweak tx;
  redeem_pool := redeem_pool tx; redeem_pool_used := redeem_pool_used tx; limits := limits tx |}.

Section tx_setters.
Variable tx : Transaction.
Local Notation version := (tx_version tx).
Local Notation n_inputs := (num_inputs tx).
Local Notation n_outputs := (num_outputs tx).
Local Notation lock := (locktime tx).
Local Notation subnetwork := (subnetwork_id tx).
Definition put_version x := upd_tx tx x n_inputs n_outputs lock subnetwork (gas tx).
Definition put_num_inputs x := upd_tx tx version x n_outputs lock subnetwork (gas tx).
Definition put_num_outputs x := upd_tx tx version n_inputs x lock subnetwork (gas tx).
Definition put_locktime x := upd_tx tx version n_inputs n_outputs x subnetwork (gas tx).
Definition put_subnetwork x := upd_tx tx version n_inputs n_outputs lock x (gas tx).
Definition put_gas x := upd_tx tx version n_inputs n_outputs lock subnetwork x.
End tx_setters.

Definition put_spk_version (s : ScriptPublicKey) v :=
  {| spk_version := v; spk_script := spk_script s; spk_script_len := spk_script_len s |}.
Definition put_spk_script (s : ScriptPublicKey) v :=
  {| spk_version := spk_version s; spk_script := v; spk_script_len := spk_script_len s |}.
Definition put_spk_len (s : ScriptPublicKey) v :=
  {| spk_version := spk_version s; spk_script := spk_script s; spk_script_len := v |}.
Definition put_amount (u : UtxoEntry) v :=
  {| amount := v; script_public_key := script_public_key u; block_daa_score := block_daa_score u |}.
Definition put_utxo_spk (u : UtxoEntry) v :=
  {| amount := amount u; script_public_key := v; block_daa_score := block_daa_score u |}.
Definition put_daa_score (u : UtxoEntry) v :=
  {| amount := amount u; script_public_key := script_public_key u; block_daa_score := v |}.
Definition put_txid (o : Outpoint) v := {| o_transaction_id := v; o_index := o_index o |}.
Definition put_index (o : Outpoint) v := {| o_transaction_id := o_transaction_id o; o_index := v |}.

(** ** [parser/derivation.rs] *)

(** [str::parse::<u32>] takes one plus sign; a text that is not UTF-8 has a
    byte that is no digit. *)
Definition parse_u32 (text : list Z) : option Z :=
  let digits := match text with 43 :: rest => rest | _ => text end in
  if bool_decide (digits = []) || negb (forallb Decimal.is_ascii_digit digits) then None
  else Decimal.parse_digits u32_max 0 digits.

Definition parse_soft_decimal (component : list Z) : option Z :=
  v ← parse_u32 component; if v <? 0x80000000 then Some v else None.

Definition strip_prefix (prefix data : list Z) : option (list Z) :=
  if starts_with data prefix then Some (drop (length prefix) data) else None.

Definition parse_ms45_path (path : list Z) : option Ms45Hint :=
  tail ← strip_prefix (str "m/45'/111111'/0'/") path;
  match split_byte 47 tail with
  | cosigner :: chain :: index :: rest =>
      cosigner ← parse_soft_decimal cosigner;
      chain ← parse_soft_decimal chain;
      index ← parse_soft_decimal index;
      if negb (bool_decide (rest = [])) || (1 <? chain) then None
      else Some {| h_present := true; h_cosigner := cosigner; h_chain := chain; h_index := index |}
  | _ => None
  end.

Fixpoint find_subslice (haystack needle : list Z) : option Z :=
  if starts_with haystack needle then Some 0
  else match haystack with
       | [] => None
       | _ :: rest => i ← find_subslice rest needle; Some (1 + i)
       end.
Definition find_byte (bytes : list Z) (target : Z) : option Z := position (fun byte => byte =? target) bytes.
Definition find_delimiter (bytes : list Z) : option Z := position (fun byte => (byte =? 44) || (byte =? 125)) bytes.

Definition find_derivation_path (region : list Z) : option (list Z) :=
  let needle := [34] ++ str "derivationPath" ++ [34] in
  offset ← find_subslice region needle;
  let tail := suffix region (offset + blen needle) in
  quote ← find_byte tail 34;
  match find_delimiter (take (Z.to_nat quote) tail) with
  | Some _ => None
  | None =>
      let value := suffix tail (quote + 1) in
      end_quote ← find_byte value 34;
      Some (take (Z.to_nat end_quote) value)
  end.

Definition extract_ms45_hint (src : list Z) (start end_ : Z) : option Ms45Hint :=
  region ← slice src start end_;
  path ← find_derivation_path region;
  parse_ms45_path path.

Section parser.
Variable data : list Z.

(** ** [parser/helpers.rs] *)

(** The same constructor. *)
Definition same_kind (a b : Tok) : bool :=
  match a, b with
  | LBrace, LBrace | RBrace, RBrace | LBracket, LBracket | RBracket, RBracket | Colon, Colon | Comma, Comma
  | Str _, Str _ | Num _, Num _ | TTrue, TTrue | TFalse, TFalse | TNull, TNull | Eof, Eof => true
  | _, _ => false
  end.

Definition next {X} : Parser X Tok := on_tok (next_token data).
Definition peek_token {X} : Parser X Tok := on_tok (peek data).

Definition expect {X} (expected : Tok) : Parser X unit :=
  let* got := next in
  if same_kind got expected then ret tt else fail UnexpectedToken.

Definition expect_string {X} : Parser X (list Z) :=
  let* token := next in
  match token with Str value => ret value | _ => fail UnexpectedToken end.

Definition parse_json_number_u64 (value : list Z) : result Z PskError :=
  let? value := parse_u64_num value in
  if negb (json_number_is_exact_integer value) then Err UnexpectedToken else Ok value.

Definition expect_u64 {X} : Parser X Z :=
  let* token := next in
  match token with
  | Num value => of_psk (parse_json_number_u64 value)
  | Str value => of_psk (parse_u64_num value)
  | _ => fail UnexpectedToken
  end.

Definition expect_bool {X} : Parser X bool :=
  let* token := next in
  match token with TTrue => ret true | TFalse => ret false | _ => fail UnexpectedToken end.

Definition reject_empty_object {X} : Parser X unit :=
  let* token := peek_token in
  if same_kind token RBrace then fail MissingField else ret tt.

Definition consume_object_separator {X} : Parser X bool :=
  let* token := next in
  match token with Comma => ret true | RBrace => ret false | _ => fail UnexpectedToken end.

Definition consume_array_separator {X} : Parser X bool :=
  let* token := next in
  match token with Comma => ret true | RBracket => ret false | _ => fail UnexpectedToken end.

Definition consume_empty_array {X} : Parser X bool :=
  let* token := peek_token in
  if same_kind token RBracket then (let* _ := next in ret true) else ret false.

(** The elements after the first check for an empty array; as many rounds as
    the limit allows are enough. *)
Fixpoint bounded_loop {X} (fuel : nat) (maximum : Z) (too_many : PskError) (parse_item : Z -> Parser X unit) (count : Z)
  : Parser X Z :=
  if maximum <=? count then fail too_many
  else
    let* _ := parse_item count in
    let* more := consume_array_separator in
    if negb more then ret (count + 1)
    else match fuel with O => throw Panics | S fuel => bounded_loop fuel maximum too_many parse_item (count + 1) end.

Definition parse_bounded_array {X} (maximum : Z) (too_many : PskError) (parse_item : Z -> Parser X unit) : Parser X Z :=
  let* _ := expect LBracket in
  let* empty := consume_empty_array in
  if empty then ret 0 else bounded_loop (Z.to_nat maximum) maximum too_many parse_item 0.

(** [loop { parse_member(tok)?; if !consume_object_separator(tok)? { break } }] *)
Fixpoint member_loop {X} (fuel : nat) (parse_member : Parser X unit) : Parser X unit :=
  match fuel with
  | O => throw Panics
  | S fuel =>
      let* _ := parse_member in
      let* more := consume_object_separator in
      if more then member_loop fuel parse_member else ret tt
  end.
Definition parse_members {X} (parse_member : Parser X unit) : Parser X unit :=
  member_loop (S (length data)) parse_member.

(** *** The bounded automaton that skips a container *)

Inductive ContainerState :=
  | ObjectKeyOrEnd | ObjectKey | ObjectColon | ObjectValue | ObjectCommaOrEnd
  | ArrayValueOrEnd | ArrayValue | ArrayCommaOrEnd.

(** The fixed stack and its depth. *)
Record Stack := { slots : list ContainerState; depth : Z }.

Definition set_current_state (state : ContainerState) (s : Stack) : Stack :=
  {| slots := <[Z.to_nat (depth s - 1) := state]> (slots s); depth := depth s |}.
Definition close_container (s : Stack) : Stack := {| slots := slots s; depth := depth s - 1 |}.
Definition push_container (parent_next child_initial : ContainerState) (s : Stack) : result Stack PskError :=
  if blen (slots s) <=? depth s then Err JsonNestingTooDeep
  else Ok {| slots := <[Z.to_nat (depth s) := child_initial]> (<[Z.to_nat (depth s - 1) := parent_next]> (slots s));
             depth := depth s + 1 |}.

Definition process_nested_value (token : Tok) (parent_next : ContainerState) (s : Stack) : result Stack PskError :=
  match token with
  | Num value => let? _ := parse_u64_num value in Ok (set_current_state parent_next s)
  | Str _ | TTrue | TFalse | TNull => Ok (set_current_state parent_next s)
  | LBrace => push_container parent_next ObjectKeyOrEnd s
  | LBracket => push_container parent_next ArrayValueOrEnd s
  | _ => Err UnexpectedToken
  end.

Definition process_object_key_or_end (token : Tok) (s : Stack) : result Stack PskError :=
  match token with
  | RBrace => Ok (close_container s)
  | Str _ => Ok (set_current_state ObjectColon s)
  | _ => Err UnexpectedToken
  end.
Definition process_object_key (token : Tok) (s : Stack) : result Stack PskError :=
  match token with Str _ => Ok (set_current_state ObjectColon s) | _ => Err UnexpectedToken end.
Definition process_object_colon (token : Tok) (s : Stack) : result Stack PskError :=
  match token with Colon => Ok (set_current_state ObjectValue s) | _ => Err UnexpectedToken end.
Definition process_object_separator (token : Tok) (s : Stack) : result Stack PskError :=
  match token with
  | Comma => Ok (set_current_state ObjectKey s)
  | RBrace => Ok (close_container s)
  | _ => Err UnexpectedToken
  end.
Definition process_array_value_or_end (token : Tok) (s : Stack) : result Stack PskError :=
  match token with
  | RBracket => Ok (close_container s)
  | other => process_nested_value other ArrayCommaOrEnd s
  end.
Definition process_array_separator (token : Tok) (s : Stack) : result Stack PskError :=
  match token with
  | Comma => Ok (set_current_state ArrayValue s)
  | RBracket => Ok (close_container s)
  | _ => Err UnexpectedToken
  end.

Definition process_container_token (state : ContainerState) (token : Tok) (s : Stack) : result Stack PskError :=
  match state with
  | ObjectKeyOrEnd => process_object_key_or_end token s
  | ObjectKey => process_object_key token s
  | ObjectColon => process_object_colon token s
  | ObjectValue => process_nested_value token ObjectCommaOrEnd s
  | ObjectCommaOrEnd => process_object_separator token s
  | ArrayValueOrEnd => process_array_value_or_end token s
  | ArrayValue => process_nested_value token ArrayCommaOrEnd s
  | ArrayCommaOrEnd => process_array_separator token s
  end.

Definition next_container_token {X} : Parser X Tok :=
  let* token := next in
  match token with Eof => fail TruncatedEnvelope | _ => ret token end.

(** [while depth > 0] *)
Fixpoint container_loop {X} (fuel : nat) (s : Stack) : Parser X unit :=
  if depth s <=? 0 then ret tt
  else
    match fuel with
    | O => throw Panics
    | S fuel =>
        let* token := next_container_token in
        match get_at (slots s) (depth s - 1) with
        | None => throw Panics
        | Some state =>
            let* s := of_psk (process_container_token state token s) in
            container_loop fuel s
        end
    end.

Definition initial_container_state (close : Tok) : result ContainerState PskError :=
  match close with
  | RBrace => Ok ObjectKeyOrEnd
  | RBracket => Ok ArrayValueOrEnd
  | _ => Err UnexpectedToken
  end.

Definition initial_stack (initial : ContainerState) : Stack :=
  {| slots := <[0%nat := initial]> (replicate (Z.to_nat MAX_JSON_NESTING) ObjectKeyOrEnd); depth := 1 |}.

Definition skip_until_matching {X} (close : Tok) : Parser X unit :=
  let* initial := of_psk (initial_container_state close) in
  container_loop (S (length data)) (initial_stack initial).

Definition skip_value {X} : Parser X unit :=
  let* token := next in
  match token with
  | Num value => let* _ := of_psk (parse_u64_num value) in ret tt
  | Str _ | TTrue | TFalse | TNull => ret tt
  | LBrace => skip_until_matching RBrace
  | LBracket => skip_until_matching RBracket
  | _ => fail UnexpectedToken
  end.

(** *** Schema fields and preserved fields *)

Definition null_forbidden (scope : Schema.Scope) (key : list Z) : bool :=
  match Schema.field_spec scope key with
  | Some spec => match Schema.null_rule spec with Schema.Forbidden => true | Schema.AllowedAsDefault => false end
  | None => false
  end.

Definition mark_schema_field {X} (scope : Schema.Scope) (key : list Z) : Parser (Members X) bool :=
  match Schema.field_bit scope key with
  | None => ret false
  | Some bit =>
      let* members := look in
      if negb (Z.land (seen members) bit =? 0) then fail DuplicateField
      else
        let* null :=
          if null_forbidden scope key
          then (let* token := peek_token in ret (same_kind token TNull)) else ret false in
        if null then fail UnexpectedToken
        else
          let* _ := change (fun members => {| body := body members; seen := Z.lor (seen members) bit |}) in
          ret true
  end.

Definition require_schema_fields {X} (scope : Schema.Scope) : Parser (Members X) unit :=
  let* members := look in
  if Schema.required_fields_present scope (seen members) then ret tt else fail MissingField.

(** [hex_decode_strict] without a buffer. *)
Definition validate_hex_string (hex_str : list Z) : result unit PskError :=
  if negb (Z.land (blen hex_str) 1 =? 0) then Err OddHexLength
  else if forallb (fun byte => ((48 <=? byte) && (byte <=? 57)) || ((97 <=? byte) && (byte <=? 102))) hex_str
  then Ok tt else Err BadHexChar.

Definition parse_script_public_key (hex_str : list Z) : Parser ScriptPublicKey unit :=
  if blen hex_str <? 4 then fail ShortScriptPubkey
  else
    let '(r, version_bytes) := hex_decode_strict (take 4 hex_str) (zeros 2) in
    let* _ := of_psk r in
    let* _ := change (fun out => put_spk_version out (default 0 (get_at version_bytes 0) * 256 + default 0 (get_at version_bytes 1))) in
    let script_hex := drop 4 hex_str in
    if MAX_SCRIPT_SIZE <? blen script_hex / 2 then fail InvalidScriptLen
    else
      let* len := decode_into script_hex spk_script (fun buffer out => put_spk_script out buffer) in
      change (fun out => put_spk_len out len).

Definition capture {X} (scope : PsktUnknownScope) (field_start : Z) : Parser X unit :=
  let* end_ := the_position in
  on_held (capture_unknown scope field_start end_).

Definition capture_nonempty_object {X} (field_start : Z) (scope : PsktUnknownScope) : Parser X unit :=
  let* _ := expect LBrace in
  let* token := peek_token in
  if same_kind token RBrace then (let* _ := next in ret tt)
  else
    let* _ := skip_until_matching RBrace in
    capture scope field_start.

Definition preserve_unknown {X} (scope : PsktUnknownScope) (key_start : Z) : Parser X unit :=
  let* _ := skip_value in
  capture scope key_start.

(** The shared [parse_member]: the key, the schema mark, the field. *)
Definition parse_member {X} (scope : Schema.Scope) (parse_field : Z -> list Z -> Parser X unit) : Parser (Members X) unit :=
  let* key_start := the_position in
  let* key := expect_string in
  let* _ := expect Colon in
  let* _ := mark_schema_field scope key in
  of_body (parse_field key_start key).

(** The same where an unknown field is an error. *)
Definition parse_known_member {X} (scope : Schema.Scope) (parse_field : list Z -> Parser X unit) : Parser (Members X) unit :=
  let* key := expect_string in
  let* _ := expect Colon in
  let* known := mark_schema_field scope key in
  if negb known then fail UnexpectedToken else of_body (parse_field key).

(** All members, from the first key on, and the required fields. *)
Definition parse_object_body {X} (scope : Schema.Scope) (member : Parser (Members X) unit) : Parser X unit :=
  zoom (fun x => {| body := x; seen := 0 |}) (fun members _ => body members)
    (let* _ := parse_members member in require_schema_fields scope).

(** ** [parser/global.rs]

    The model here is the transaction with the counts of [ParseContext]. *)

Record Doc := { tx : Transaction; declared_input_count : option Z; declared_output_count : option Z }.

Definition on_tx (g : Transaction -> Transaction) : Parser Doc unit :=
  change (fun d => {| tx := g (tx d); declared_input_count := declared_input_count d;
                      declared_output_count := declared_output_count d |}).
Definition in_tx {A} (m : Parser Transaction A) : Parser Doc A :=
  zoom tx (fun t d => {| tx := t; declared_input_count := declared_input_count d;
                         declared_output_count := declared_output_count d |}) m.

Definition parse_pskt_version : Parser Doc unit :=
  let* version := expect_u64 in
  if negb (version =? Schema.PSKT_VERSION) then fail VersionNotSupported else ret tt.

Definition parse_transaction_version : Parser Doc unit :=
  let* version := expect_u64 in
  if negb (Schema.supported_tx_version_u64 version) then fail VersionNotSupported
  else if u16_max <? version then fail VersionNotSupported
  else on_tx (fun t => put_version t version).

Definition parse_subnetwork_id : Parser Doc unit :=
  let* token := next in
  match token with
  | TNull => on_tx (fun t => put_subnetwork t SUBNETWORK_ID_NATIVE)
  | Str value =>
      if negb (blen value =? 40) then fail InvalidScriptLen
      else let* _ := in_tx (decode_into value subnetwork_id (fun b t => put_subnetwork t b)) in ret tt
  | _ => fail UnexpectedToken
  end.

Definition parse_gas : Parser Doc unit :=
  let* token := next in
  let* gas :=
    match token with
    | TNull => ret 0
    | Num value => of_psk (parse_json_number_u64 value)
    | Str value => of_psk (parse_u64_num value)
    | _ => fail UnexpectedToken
    end in
  on_tx (fun t => put_gas t gas).

Definition parse_tx_payload : Parser Doc unit :=
  let* token := next in
  match token with
  | TNull => on_tx (put_payload [])
  | Str value =>
      let* d := look in
      if saturating_mul (max_payload_bytes (limits (tx d))) 2 <? blen value then fail InvalidScriptLen
      else
        let '(r, decoded) := hex_decode_strict value (zeros (blen value / 2)) in
        let* _ := of_psk r in
        in_tx (on_it (map_err (fun _ => Fails StorageExhausted) (set_payload decoded)))
  | _ => fail UnexpectedToken
  end.

Definition parse_optional_lock_time (key_start : Z) : Parser Doc unit :=
  let* token := next in
  match token with
  | TNull => ret tt
  | Num value =>
      let* lock := of_psk (parse_json_number_u64 value) in
      let* _ := on_tx (fun t => put_locktime t lock) in
      capture global key_start
  | Str value =>
      let* lock := of_psk (parse_u64_num value) in
      let* _ := on_tx (fun t => put_locktime t lock) in
      capture global key_start
  | _ => fail UnexpectedToken
  end.

Definition parse_modifiable (key_start : Z) : Parser Doc unit :=
  let* modifiable := expect_bool in
  if modifiable then ret tt else capture global key_start.

Definition parse_input_count : Parser Doc unit :=
  let* count := expect_u64 in
  let* d := look in
  if max_inputs (limits (tx d)) <? count then fail TooManyInputs
  else change (fun d => {| tx := tx d; declared_input_count := Some count; declared_output_count := declared_output_count d |}).

Definition parse_output_count : Parser Doc unit :=
  let* count := expect_u64 in
  if MAX_OUTPUTS <? count then fail TooManyOutputs
  else change (fun d => {| tx := tx d; declared_input_count := declared_input_count d; declared_output_count := Some count |}).

Definition parse_optional_id (key_start : Z) : Parser Doc unit :=
  let* token := next in
  match token with
  | TNull => ret tt
  | Str _ => capture global key_start
  | _ => fail UnexpectedToken
  end.

Definition global_field (key_start : Z) (key : list Z) : Parser Doc unit :=
  if list_Z_eqb key (str "version") then parse_pskt_version
  else if list_Z_eqb key (str "txVersion") then parse_transaction_version
  else if list_Z_eqb key (str "fallbackLockTime") then parse_optional_lock_time key_start
  else if list_Z_eqb key (str "inputsModifiable") then parse_modifiable key_start
  else if list_Z_eqb key (str "outputsModifiable") then parse_modifiable key_start
  else if list_Z_eqb key (str "subnetworkId") then parse_subnetwork_id
  else if list_Z_eqb key (str "gas") then parse_gas
  else if list_Z_eqb key (str "txPayload") then parse_tx_payload
  else if list_Z_eqb key (str "inputCount") then parse_input_count
  else if list_Z_eqb key (str "outputCount") then parse_output_count
  else if list_Z_eqb key (str "xpubs") then capture_nonempty_object key_start global
  else if list_Z_eqb key (str "id") then parse_optional_id key_start
  else if list_Z_eqb key (str "proprietaries") then capture_nonempty_object key_start global
  else preserve_unknown global key_start.

Definition parse_global : Parser Doc unit :=
  let* _ := expect LBrace in
  let* _ := reject_empty_object in
  parse_object_body Schema.Global (parse_member Schema.Global global_field).

(** ** [parser/inputs/details.rs] *)

Definition checked_scope {X} (scope : Z -> PsktUnknownScope) (input_index : Z) : Parser X PsktUnknownScope :=
  if u32_max <? input_index then fail CountMismatch else ret (scope input_index).

Definition on_utxo {A} (m : Parser UtxoEntry A) : Parser TransactionInput A := zoom utxo_entry (fun u i => put_utxo i u) m.
Definition on_outpoint {A} (m : Parser Outpoint A) : Parser TransactionInput A :=
  zoom previous_outpoint (fun o i => put_outpoint i o) m.

Definition parse_covenant_id_field (input_index key_start : Z) : Parser TransactionInput unit :=
  let* token := peek_token in
  match token with
  | TNull => let* _ := next in ret tt
  | Str _ =>
      let* value := expect_string in
      if negb (blen value =? 64) then fail UnexpectedToken
      else
        let* _ := of_psk (validate_hex_string value) in
        let* scope := checked_scope input_utxo input_index in
        capture scope key_start
  | _ => fail UnexpectedToken
  end.

Definition utxo_field (input_index key_start : Z) (key : list Z) : Parser TransactionInput unit :=
  if list_Z_eqb key (str "amount") then
    let* v := expect_u64 in on_utxo (change (fun u => put_amount u v))
  else if list_Z_eqb key (str "scriptPublicKey") then
    let* hex_str := expect_string in
    on_utxo (zoom script_public_key (fun s u => put_utxo_spk u s) (parse_script_public_key hex_str))
  else if list_Z_eqb key (str "blockDaaScore") then
    let* v := expect_u64 in on_utxo (change (fun u => put_daa_score u v))
  else if list_Z_eqb key (str "isCoinbase") then
    let* is_coinbase := expect_bool in
    if negb is_coinbase then ret tt
    else let* scope := checked_scope input_utxo input_index in capture scope key_start
  else if list_Z_eqb key (str "covenantId") then parse_covenant_id_field input_index key_start
  else
    let* _ := skip_value in
    let* scope := checked_scope input_utxo input_index in
    capture scope key_start.

Definition parse_utxo_entry (input_index : Z) : Parser TransactionInput unit :=
  let* _ := expect LBrace in
  parse_object_body Schema.InputUtxo (parse_member Schema.InputUtxo (utxo_field input_index)).

Definition outpoint_field (input_index key_start : Z) (key : list Z) : Parser TransactionInput unit :=
  if list_Z_eqb key (str "transactionId") then
    let* hex_str := expect_string in
    if negb (blen hex_str =? 64) then fail UnexpectedToken
    else on_outpoint (let* _ := decode_into hex_str o_transaction_id (fun b o => put_txid o b) in ret tt)
  else if list_Z_eqb key (str "index") then
    let* index := expect_u64 in
    if u32_max <? index then fail UnexpectedToken else on_outpoint (change (fun o => put_index o index))
  else
    let* _ := skip_value in
    let* scope := checked_scope input_outpoint input_index in
    capture scope key_start.

Definition parse_outpoint (input_index : Z) : Parser TransactionInput unit :=
  let* _ := expect LBrace in
  parse_object_body Schema.InputOutpoint (parse_member Schema.InputOutpoint (outpoint_field input_index)).

(** ** [parser/inputs/metadata.rs] *)

Definition parse_partial_sig_pubkey {X} : Parser X (list Z) :=
  let* pubkey_hex := expect_string in
  if negb (blen pubkey_hex =? 66) then fail InvalidPubkeyLen
  else
    let '(r, pubkey) := hex_decode_strict pubkey_hex (zeros 33) in
    let* _ := of_psk r in
    if bool_decide (head pubkey = Some 2) || bool_decide (head pubkey = Some 3) then ret pubkey
    else fail InvalidPubkeyLen.

Definition expect_schnorr_kind {X} : Parser X unit :=
  let* kind := expect_string in
  if list_Z_eqb kind (str "ecdsa") then fail InvalidSignatureType
  else if list_Z_eqb kind (str "schnorr") then ret tt
  else fail UnexpectedToken.

Definition read_schnorr_bytes {X} : Parser X (list Z) :=
  let* signature_hex := expect_string in
  if negb (blen signature_hex =? 128) then fail UnexpectedToken
  else
    let '(r, signature) := hex_decode_strict signature_hex (zeros 64) in
    let* _ := of_psk r in
    ret signature.

Definition parse_schnorr_signature {X} : Parser X (list Z) :=
  let* _ := expect Colon in
  let* _ := expect LBrace in
  let* _ := expect_schnorr_kind in
  let* _ := expect Colon in
  let* signature := read_schnorr_bytes in
  let* _ := expect RBrace in
  ret signature.

Definition parse_partial_sig_slot (count : Z) : Parser TransactionInput unit :=
  if MAX_SIGS_PER_INPUT <=? count then fail TooManyPartialSigs
  else
    let* pubkey := parse_partial_sig_pubkey in
    let* signature := parse_schnorr_signature in
    on_it (fun i =>
      if count <? blen (incoming_partial_sigs i)
      then (Ok tt, put_partial_sigs i (<[Z.to_nat count := {| ps_pubkey := pubkey; ps_signature := signature; ps_present := true |}]>
                                         (incoming_partial_sigs i)))
      else (Err Panics, i)).

(** [loop { item(count)?; count += 1; if !object_continues(tok)? { break } }] *)
Fixpoint counted_loop {X} (fuel : nat) (count : Z) (item : Z -> Parser X unit) : Parser X Z :=
  match fuel with
  | O => throw Panics
  | S fuel =>
      let* _ := item count in
      let* more := consume_object_separator in
      if more then counted_loop fuel (count + 1) item else ret (count + 1)
  end.

Definition consume_empty_object {X} : Parser X bool :=
  let* token := peek_token in
  if same_kind token RBrace then (let* _ := next in ret true) else ret false.

Definition parse_partial_sigs : Parser TransactionInput unit :=
  let* _ := expect LBrace in
  let* empty := consume_empty_object in
  if empty then change (fun i => put_partial_count i 0)
  else
    let* count := counted_loop (S (length data)) 0 parse_partial_sig_slot in
    change (fun i => put_partial_count i (count mod 256)).

Definition parse_derivation_pubkey {X} (count : Z) : Parser X unit :=
  if MAX_SIGS_PER_INPUT <=? count then fail TooManyPartialSigs
  else let* _ := parse_partial_sig_pubkey in ret tt.

Definition parse_derivation_value {X} : Parser X unit :=
  let* token := next in
  match token with
  | TNull => ret tt
  | LBrace => skip_until_matching RBrace
  | _ => fail UnexpectedToken
  end.

Definition install_first_ms45_hint (value_start value_end : Z) (i : TransactionInput) : TransactionInput :=
  if h_present (ms45_hint i) then i
  else match extract_ms45_hint data value_start value_end with Some hint => put_hint i hint | None => i end.

Definition parse_bip32_derivation_entry (count : Z) : Parser TransactionInput unit :=
  let* _ := parse_derivation_pubkey count in
  let* _ := expect Colon in
  let* value_start := the_position in
  let* _ := parse_derivation_value in
  let* value_end := the_position in
  change (install_first_ms45_hint value_start value_end).

Definition parse_bip32_derivations (field_start input_index : Z) : Parser TransactionInput unit :=
  let* _ := expect LBrace in
  let* empty := consume_empty_object in
  if empty then ret tt
  else
    let* _ := counted_loop (S (length data)) 0 parse_bip32_derivation_entry in
    let* scope := checked_scope input input_index in
    capture scope field_start.

(** ** [parser/inputs/mod.rs]

    The model is the input with the buffer of its redeem script. *)

Record InputDoc := { the_input : TransactionInput; redeem : list Z; redeem_len : Z }.

Definition on_input {A} (m : Parser TransactionInput A) : Parser InputDoc A :=
  zoom the_input (fun i d => {| the_input := i; redeem := redeem d; redeem_len := redeem_len d |}) m.
Definition put_redeem_len (d : InputDoc) (len : Z) : InputDoc :=
  {| the_input := the_input d; redeem := redeem d; redeem_len := len |}.
Definition put_redeem_buffer (b : list Z) (d : InputDoc) : InputDoc :=
  {| the_input := the_input d; redeem := b; redeem_len := redeem_len d |}.

Record Masks := { mask : Z; truth : Z }.

Definition covenant_execution_member : Parser (Members Masks) unit :=
  parse_known_member Schema.CovenantExecution (fun key =>
    let* value := expect_u64 in
    if u16_max <? value then fail UnexpectedToken
    else if list_Z_eqb key (str "suppliedMask") then change (fun ms => {| mask := value; truth := truth ms |})
    else if list_Z_eqb key (str "suppliedTrueMask") then change (fun ms => {| mask := mask ms; truth := value |})
    else fail UnexpectedToken).

Definition parse_covenant_execution_object : Parser Masks unit :=
  let* _ := expect LBrace in
  let* _ := reject_empty_object in
  let* _ := parse_object_body Schema.CovenantExecution covenant_execution_member in
  let* ms := look in
  if negb (Z.ldiff (truth ms) (mask ms) =? 0) then fail UnexpectedToken else ret tt.

(** [self.scope()]: the index saturates at [u32::MAX]. *)
Definition input_scope (index : Z) : PsktUnknownScope := input (Z.min index u32_max).

Definition parse_min_time (index key_start : Z) : Parser InputDoc unit :=
  let* token := next in
  match token with
  | TNull => ret tt
  | Num value =>
      let* _ := of_psk (parse_json_number_u64 value) in
      capture (input_scope index) key_start
  | Str value =>
      let* _ := of_psk (parse_u64_num value) in
      capture (input_scope index) key_start
  | _ => fail UnexpectedToken
  end.

Definition parse_sighash : Parser InputDoc unit :=
  let* v := expect_u64 in
  if negb (v =? Schema.SIGHASH_ALL) then fail InvalidSighashType
  else on_input (change (fun i => put_sighash i Schema.SIGHASH_ALL)).

Definition parse_redeem_script : Parser InputDoc unit :=
  let* token := next in
  match token with
  | TNull => change (fun d => put_redeem_len d 0)
  | Str hex_str =>
      if MAX_REDEEM_SIZE <? blen hex_str / 2 then fail InvalidScriptLen
      else
        let* len := decode_into hex_str redeem put_redeem_buffer in
        change (fun d => put_redeem_len d len)
  | _ => fail UnexpectedToken
  end.

Definition parse_sig_op_count : Parser InputDoc unit :=
  let* count := expect_u64 in
  if MAX_SIGS_PER_INPUT <? count then fail TooManyPartialSigs
  else on_input (change (fun i => put_sig_ops i count)).

(** A preserved hexadecimal string, or null. *)
Definition parse_preserved_hex {X} (scope : PsktUnknownScope) (key_start : Z) : Parser X unit :=
  let* token := next in
  match token with
  | TNull => ret tt
  | Str hex_str =>
      let* _ := of_psk (validate_hex_string hex_str) in
      capture scope key_start
  | _ => fail UnexpectedToken
  end.

Definition parse_covenant_execution : Parser InputDoc unit :=
  let* token := peek_token in
  if same_kind token TNull then (let* _ := next in ret tt)
  else
    fun f =>
      match parse_covenant_execution_object {| at_ := at_ f; held := held f; it := {| mask := 0; truth := 0 |} |} with
      | (Ok _, f') =>
          on_input (change (fun i => put_execution i true (mask (it f')) (truth (it f'))))
            {| at_ := at_ f'; held := held f'; it := it f |}
      | (Err e, f') => (Err e, {| at_ := at_ f'; held := held f'; it := it f |})
      end.

Definition parse_minimum_signatures (index key_start : Z) : Parser InputDoc unit :=
  let* count := expect_u64 in
  if (count =? 0) || (MAX_SIGS_PER_INPUT <? count) then fail TooManyPartialSigs
  else capture (input_scope index) key_start.

Definition input_field (index key_start : Z) (key : list Z) : Parser InputDoc unit :=
  if list_Z_eqb key (str "utxoEntry") then on_input (parse_utxo_entry index)
  else if list_Z_eqb key (str "previousOutpoint") then on_input (parse_outpoint index)
  else if list_Z_eqb key (str "sequence") then
    let* v := expect_u64 in on_input (change (fun i => put_sequence i v))
  else if list_Z_eqb key (str "minTime") then parse_min_time index key_start
  else if list_Z_eqb key (str "partialSigs") then on_input parse_partial_sigs
  else if list_Z_eqb key (str "sighashType") then parse_sighash
  else if list_Z_eqb key (str "redeemScript") then parse_redeem_script
  else if list_Z_eqb key (str "sigOpCount") then parse_sig_op_count
  else if list_Z_eqb key (str "bip32Derivations") then on_input (parse_bip32_derivations key_start index)
  else if list_Z_eqb key (str "finalScriptSig") then parse_preserved_hex (input_scope index) key_start
  else if list_Z_eqb key (str "proprietaries") then capture_nonempty_object key_start (input_scope index)
  else if list_Z_eqb key (str "covenantExecution") then parse_covenant_execution
  else if list_Z_eqb key (str "minimumSignatures") then parse_minimum_signatures index key_start
  else preserve_unknown (input_scope index) key_start.

Definition parse_input (index : Z) : Parser InputDoc unit :=
  let* _ := expect LBrace in
  let* _ := reject_empty_object in
  parse_object_body Schema.Input (parse_member Schema.Input (input_field index)).

Definition parse_input_at (count : Z) : Parser Transaction unit :=
  let* _ := on_it (map_err (fun _ => Fails TooManyInputs) (ensure_input_slots (count + 1))) in
  let* _ := on_it (change_input count (fun _ => Some empty_input)) in
  fun f =>
    let fresh := {| the_input := default empty_input (get_at (tx_inputs (it f)) count);
                    redeem := zeros MAX_REDEEM_SIZE; redeem_len := 0 |} in
    let '(r, f') := parse_input count {| at_ := at_ f; held := held f; it := fresh |} in
    let t := set_inputs (<[Z.to_nat count := the_input (it f')]> (tx_inputs (it f))) (it f) in
    let f := {| at_ := at_ f'; held := held f'; it := t |} in
    match r with
    | Err e => (Err e, f)
    | Ok _ =>
        match slice (redeem (it f')) 0 (redeem_len (it f')) with
        | None => (Err Panics, f)
        | Some script =>
            on_it (map_err (fun e => match e with Fails _ => Fails InvalidScriptLen | Panics => Panics end)
                     (store_redeem count script)) f
        end
    end.

Fixpoint input_loop (fuel : nat) (count : Z) : Parser Transaction unit :=
  match fuel with
  | O => throw Panics
  | S fuel =>
      let* _ := parse_input_at count in
      let* token := next in
      match token with
      | Comma => input_loop fuel (count + 1)
      | RBracket => change (fun t => put_num_inputs t (count + 1))
      | _ => fail UnexpectedToken
      end
  end.

Definition parse_inputs_array : Parser Transaction unit :=
  let* _ := expect LBracket in
  let* token := peek_token in
  if same_kind token RBracket
  then (let* _ := next in change (fun t => put_num_inputs t 0))
  else input_loop (S (length data)) 0.

(** ** [parser/outputs.rs] *)

Definition covenant_binding_member : Parser (Members TransactionOutput) unit :=
  parse_known_member Schema.CovenantBinding (fun key =>
    if list_Z_eqb key (str "authorizingInput") then
      let* input_index := expect_u64 in
      if u16_max <? input_index then fail InvalidCovenantBinding
      else change (fun o => put_covenant_auth o input_index)
    else if list_Z_eqb key (str "covenantId") then
      let* covenant_id_hex := expect_string in
      if negb (blen covenant_id_hex =? 64) then fail InvalidCovenantBinding
      else
        let* _ := map_err (fun _ => Fails InvalidCovenantBinding)
                    (decode_into covenant_id_hex covenant_id (fun b o => put_covenant_id o b)) in
        ret tt
    else fail UnexpectedToken).

Definition parse_covenant_binding : Parser TransactionOutput unit :=
  let* token := next in
  match token with
  | TNull => change (fun o => put_has_covenant o false)
  | LBrace =>
      let* _ := reject_empty_object in
      let* _ := parse_object_body Schema.CovenantBinding covenant_binding_member in
      change (fun o => put_has_covenant o true)
  | _ => fail UnexpectedToken
  end.

Definition parse_output_derivations (index key_start : Z) : Parser TransactionOutput unit :=
  let* value_start := the_position in
  let* _ := expect LBrace in
  let* empty := consume_empty_object in
  if empty then ret tt
  else
    let* _ := skip_until_matching RBrace in
    let* value_end := the_position in
    let* _ := change (fun o =>
      if h_present (out_ms45_hint o) then o
      else match extract_ms45_hint data value_start value_end with Some hint => put_out_hint o hint | None => o end) in
    capture (output index) key_start.

Definition output_field (index key_start : Z) (key : list Z) : Parser TransactionOutput unit :=
  if list_Z_eqb key (str "amount") then
    let* v := expect_u64 in change (fun o => put_value o v)
  else if list_Z_eqb key (str "scriptPublicKey") then
    let* hex_str := expect_string in
    zoom out_script_public_key (fun s o => put_out_spk o s) (parse_script_public_key hex_str)
  else if list_Z_eqb key (str "covenantBinding") then
    let* _ := on_held (fun h => (Ok tt, mark_output_covenant_binding_field index h)) in
    parse_covenant_binding
  else if list_Z_eqb key (str "redeemScript") then parse_preserved_hex (output index) key_start
  else if list_Z_eqb key (str "bip32Derivations") then parse_output_derivations index key_start
  else if list_Z_eqb key (str "proprietaries") then capture_nonempty_object key_start (output index)
  else preserve_unknown (output index) key_start.

Definition parse_output (index : Z) : Parser TransactionOutput unit :=
  let* _ := expect LBrace in
  let* _ := reject_empty_object in
  parse_object_body Schema.Output (parse_member Schema.Output (output_field index)).

Definition parse_output_at (index : Z) : Parser Transaction unit :=
  let* _ := on_it (change_output index (fun _ => Some empty_output)) in
  zoom (fun t => default empty_output (get_at (tx_outputs t) index))
    (fun o t => set_outputs (<[Z.to_nat index := o]> (tx_outputs t)) t) (parse_output index).

Definition parse_outputs_array : Parser Transaction unit :=
  let* count := parse_bounded_array MAX_OUTPUTS TooManyOutputs parse_output_at in
  change (fun t => put_num_outputs t count).

(** ** [parser/mod.rs] *)

Definition top_level_field (key_start : Z) (key : list Z) : Parser Doc unit :=
  if list_Z_eqb key (str "global") then parse_global
  else if list_Z_eqb key (str "inputs") then in_tx parse_inputs_array
  else if list_Z_eqb key (str "outputs") then in_tx parse_outputs_array
  else preserve_unknown top_level key_start.

End parser.

(** [standard/mod.rs] *)
Definition validate_monetary_shape (t : Transaction) : result unit PskError :=
  match checked_amounts t with
  | Ok _ => Ok tt
  | Err TxModel.InputTotalOverflow => Err InputAmountOverflow
  | Err TxModel.OutputTotalOverflow => Err OutputAmountOverflow
  | Err TxModel.OutputsExceedInputs => Err OutputsExceedInputs
  end.

(** After the required fields of the top level. *)
Definition validate_top_level_object (d : Doc) : result unit (Fault PskError) :=
  if negb (bool_decide (declared_input_count d = Some (num_inputs (tx d))))
     || negb (bool_decide (declared_output_count d = Some (num_outputs (tx d)))) then Err (Fails CountMismatch)
  else
    let? outs := ok_or (slice (tx_outputs (tx d)) 0 (num_outputs (tx d))) Panics in
    if existsb (fun o => has_covenant o && (num_inputs (tx d) <=? covenant_auth_input o)) outs
    then Err (Fails InvalidCovenantBinding)
    else rmap_err Fails (validate_monetary_shape (tx d)).

Section top.
Variable data : list Z.

Definition parse_pskt_object : Parser Transaction unit :=
  let* _ := expect data LBrace in
  let* _ := reject_empty_object data in
  zoom (fun t => {| tx := t; declared_input_count := None; declared_output_count := None |}) (fun d _ => tx d)
    (let* _ := parse_object_body data Schema.TopLevel (parse_member data Schema.TopLevel (top_level_field data)) in
     fun f => (validate_top_level_object (it f), f)).

Definition parse_bundle_array : Parser Transaction unit :=
  let* _ := expect data LBracket in
  let* token := peek_token data in
  if same_kind token RBracket then fail MissingField
  else
    let* _ := parse_pskt_object in
    let* token := next data in
    match token with
    | RBracket => ret tt
    | Comma => fail BundleMultiElement
    | _ => fail UnexpectedToken
    end.

Definition parse_decoded_json (is_bundle : bool) : Parser Transaction unit :=
  let* _ := of_result (rmap_err (fun e =>
      match e with
      | DuplicateKey => Fails DuplicateField
      | NestingTooDeep => Fails JsonNestingTooDeep
      | _ => Fails UnexpectedToken
      end) (validate_canonical_json data)) in
  let* _ := if is_bundle then parse_bundle_array else parse_pskt_object in
  expect data Eof.

End top.

(** The result, the scratch buffer, the transaction and the preserved fields. *)
Definition parse_pskt (wire scratch : list Z) (t : Transaction) (parsed : PsktParsed)
  : result unit (Fault PskError) * list Z * Transaction * PsktParsed :=
  match strip_pskt_magic wire with
  | Err e => (Err (Fails e), scratch, t, parsed)
  | Ok body_hex =>
      let is_bundle := starts_with wire PSKB_MAGIC in
      match hex_decode_strict body_hex scratch with
      | (Err e, scratch) => (Err (Fails e), scratch, t, parsed)
      | (Ok json_len, scratch) =>
          if u32_max <? json_len then (Err (Fails JsonTooLarge), scratch, t, parsed)
          else
            let parsed := {| unknowns := unknowns empty_parsed; unknown_scopes := unknown_scopes empty_parsed;
                             unknowns_count := 0; json_start := 0; json_len := json_len;
                             output_covenant_binding_present := 0 |} in
            let t := prepare_for_parse t in
            let data := take (Z.to_nat json_len) scratch in
            let '(r, f) := parse_decoded_json data is_bundle {| at_ := 0; held := parsed; it := t |} in
            (r, scratch, it f, held f)
      end
  end.
