(* ===== verification/PsktSerializer.v ===== *)
(** * PSKT documents: the serializer

    [src/src/transaction/interchange/pskt/standard/serializer] and the merge of
    new signatures of [standard/signatures.rs]. The writer's state is the
    output buffer and the position in it; the scratch buffer and the preserved
    fields are arguments. Emitted text is written as hexadecimal. *)

From S2P Require Import Prelude Bytes Selection TxModel SigCheck PsktSyntax PsktParser.
Import Hex.

(** ** [serializer/writer.rs] *)

Record HexWriter := { out : list Z; pos : Z }.

Definition Emit (A : Type) : Type := Comp HexWriter (Fault PskError) A.
Definition refuse {A} (e : PskError) : Emit A := throw (Fails e).

(** [self.out.get_mut(self.pos..end)] filled with [digits]. *)
Definition put_digits (digits : list Z) : Emit unit := fun w =>
  let end_ := pos w + blen digits in
  if (u64_max <? end_) || (blen (out w) <? end_) then (Err (Fails OutputBufferTooSmall), w)
  else (Ok tt, {| out := take (Z.to_nat (pos w)) (out w) ++ digits ++ drop (Z.to_nat end_) (out w); pos := end_ |}).

Definition byte (b : Z) : Emit unit := put_digits [digit (Z.shiftr b 4); digit (Z.land b 15)].
Definition bytes (s : list Z) : Emit unit :=
  match checked_mul (blen s) 2 with
  | None => refuse OutputBufferTooSmall
  | Some _ => put_digits (hex_text s)
  end.
Definition lit (s : list Z) : Emit unit := bytes s.

(** [while v > 0]; the buffer of twenty digits holds every [u64]. *)
Definition u64 (v : Z) : Emit unit := if v =? 0 then byte 48 else bytes (Decimal.to_string v).
Definition quote : list Z := [34].
Definition u64_string (v : Z) : Emit unit :=
  let* _ := lit quote in
  let* _ := u64 v in
  lit quote.

Definition hex_digits (source : list Z) : Emit unit :=
  for_each source (fun b => let* _ := byte (digit (Z.shiftr b 4)) in byte (digit (Z.land b 15))).
Definition hex_string_field (source : list Z) : Emit unit :=
  let* _ := lit quote in
  let* _ := hex_digits source in
  lit quote.

Definition emit_script_version (version : Z) : Emit unit :=
  let* _ := byte (digit (Z.land (Z.shiftr version 12) 15)) in
  let* _ := byte (digit (Z.land (Z.shiftr version 8) 15)) in
  let* _ := byte (digit (Z.land (Z.shiftr version 4) 15)) in
  byte (digit (Z.land version 15)).
Definition emit_script_bytes (source : list Z) : Emit unit := hex_digits source.

Definition emit_script_public_key (spk : ScriptPublicKey) : Emit unit :=
  if blen (spk_script spk) <? spk_script_len spk then refuse InvalidScriptLen
  else
    let* _ := lit quote in
    let* _ := emit_script_version (spk_version spk) in
    let* _ := emit_script_bytes (script_bytes spk) in
    lit quote.

Section emit.
Variable scratch : list Z.
Variable parsed : PsktParsed.

Definition scratch_range (start end_ : Z) : Emit unit :=
  match slice scratch start end_ with Some part => bytes part | None => refuse UnexpectedToken end.
Definition of_found {A} (r : result A PskError) : Emit A := of_result (rmap_err Fails r).

(** ** [serializer/preserved.rs] *)

Definition emit_value_or_default (scope : PsktUnknownScope) (name default : list Z) : Emit unit :=
  let* found := of_found (find_captured_value parsed scratch scope name) in
  match found with
  | Some (start, end_) => scratch_range start end_
  | None => lit default
  end.

Definition emit_additional_fields (scope : PsktUnknownScope) (excluded : list (list Z)) : Emit unit :=
  for_each (seqZ 0 (unknowns_count parsed)) (fun index =>
    let* found := of_found (captured_field_at parsed scratch index) in
    match found with
    | None => ret tt
    | Some (captured_scope, field) =>
        if negb (bool_decide (captured_scope = scope)) || existsb (fun name => list_Z_eqb name (cf_key field)) excluded
        then ret tt
        else
          let* _ := lit (str ",") in
          scratch_range (cf_field_start field) (cf_end field)
    end).

(** A literal with its quotes written as apostrophes. *)
Definition quoted (s : string) : list Z := map (fun c => if c =? 39 then 34 else c) (str s).

(** ** [serializer/global.rs] *)

Definition KNOWN_CAPTURED_FIELDS : list (list Z) :=
  [str "fallbackLockTime"; str "inputsModifiable"; str "outputsModifiable"; str "xpubs"; str "id"; str "proprietaries"].

Definition emit_global_version (t : Transaction) : Emit unit :=
  let* _ := lit (quoted "{'version':0,'txVersion':") in
  u64 (tx_version t).

Definition emit_global_consensus_fields (t : Transaction) : Emit unit :=
  let* _ := lit (quoted ",'subnetworkId':") in
  let* _ := hex_string_field (subnetwork_id t) in
  let* _ := lit (quoted ",'gas':") in
  let* _ := u64_string (gas t) in
  let* _ := lit (quoted ",'txPayload':") in
  hex_string_field (payload t).

Definition emit_global_locktime (t : Transaction) (scope : PsktUnknownScope) : Emit unit :=
  let* _ := lit (quoted ",'fallbackLockTime':") in
  let* found := of_found (find_captured_value parsed scratch scope (str "fallbackLockTime")) in
  match found with Some _ => u64_string (locktime t) | None => lit (str "null") end.

Definition emit_global_modifiability (scope : PsktUnknownScope) : Emit unit :=
  let* _ := lit (quoted ",'inputsModifiable':") in
  let* _ := emit_value_or_default scope (str "inputsModifiable") (str "true") in
  let* _ := lit (quoted ",'outputsModifiable':") in
  emit_value_or_default scope (str "outputsModifiable") (str "true").

Definition emit_global_counts (t : Transaction) : Emit unit :=
  let* _ := lit (quoted ",'inputCount':") in
  let* _ := u64 (num_inputs t) in
  let* _ := lit (quoted ",'outputCount':") in
  u64 (num_outputs t).

Definition emit_global_preserved (scope : PsktUnknownScope) : Emit unit :=
  let* _ := lit (quoted ",'xpubs':") in
  let* _ := emit_value_or_default scope (str "xpubs") (str "{}") in
  let* _ := lit (quoted ",'id':") in
  let* _ := emit_value_or_default scope (str "id") (str "null") in
  let* _ := lit (quoted ",'proprietaries':") in
  emit_value_or_default scope (str "proprietaries") (str "{}").

Definition emit_global (t : Transaction) : Emit unit :=
  let scope := global in
  let* _ := emit_global_version t in
  let* _ := emit_global_consensus_fields t in
  let* _ := emit_global_locktime t scope in
  let* _ := emit_global_modifiability scope in
  let* _ := emit_global_counts t in
  let* _ := emit_global_preserved scope in
  let* _ := emit_additional_fields scope KNOWN_CAPTURED_FIELDS in
  lit (str "}").

(** ** [serializer/inputs.rs] *)

Definition INPUT_CAPTURED_FIELDS : list (list Z) :=
  [str "minTime"; str "bip32Derivations"; str "finalScriptSig"; str "proprietaries"].
Definition UTXO_CAPTURED_FIELDS : list (list Z) := [str "isCoinbase"].

Definition emit_scope (scope : Z -> PsktUnknownScope) (index : Z) : Emit PsktUnknownScope :=
  if u32_max <? index then refuse CountMismatch else ret (scope index).

Definition emit_utxo_identity (i : TransactionInput) : Emit unit :=
  let* _ := lit (quoted "{'amount':") in
  let* _ := u64_string (amount (utxo_entry i)) in
  let* _ := lit (quoted ",'scriptPublicKey':") in
  let* _ := emit_script_public_key (script_public_key (utxo_entry i)) in
  let* _ := lit (quoted ",'blockDaaScore':") in
  u64_string (block_daa_score (utxo_entry i)).

Definition emit_utxo_entry (i : TransactionInput) (input_index : Z) : Emit unit :=
  let* scope := emit_scope input_utxo input_index in
  let* _ := emit_utxo_identity i in
  let* _ := lit (quoted ",'isCoinbase':") in
  let* _ := emit_value_or_default scope (str "isCoinbase") (str "false") in
  let* _ := emit_additional_fields scope UTXO_CAPTURED_FIELDS in
  lit (str "}").

Definition emit_outpoint (i : TransactionInput) (input_index : Z) : Emit unit :=
  let* scope := emit_scope input_outpoint input_index in
  let* _ := lit (quoted "{'transactionId':") in
  let* _ := hex_string_field (o_transaction_id (previous_outpoint i)) in
  let* _ := lit (quoted ",'index':") in
  let* _ := u64 (o_index (previous_outpoint i)) in
  let* _ := emit_additional_fields scope [] in
  lit (str "}").

(** [for index in 0..count { if index > 0 { "," } item(index) }] *)
Definition separated (count : Z) (item : Z -> Emit unit) : Emit unit :=
  for_each (seqZ 0 count) (fun index =>
    let* _ := if 0 <? index then lit (str ",") else ret tt in
    item index).

(** [incoming_partial_sigs[index]] *)
Definition partial_sig_at (i : TransactionInput) (index : Z) : Emit IncomingPartialSig :=
  match get_at (incoming_partial_sigs i) index with Some s => ret s | None => throw Panics end.

Definition emit_partial_sig_entry (s : IncomingPartialSig) : Emit unit :=
  let* _ := hex_string_field (ps_pubkey s) in
  let* _ := lit (quoted ":{'schnorr':") in
  let* _ := hex_string_field (ps_signature s) in
  lit (str "}").

Definition emit_partial_sigs (i : TransactionInput) : Emit unit :=
  if incoming_partial_sigs_count i =? 0 then lit (str "{}")
  else
    let* _ := lit (str "{") in
    let* _ := separated (incoming_partial_sigs_count i) (fun index =>
      let* s := partial_sig_at i index in emit_partial_sig_entry s) in
    lit (str "}").

Definition emit_bip32_derivations_for_input (i : TransactionInput) : Emit unit :=
  if incoming_partial_sigs_count i =? 0 then lit (str "{}")
  else
    let* _ := lit (str "{") in
    let* _ := separated (incoming_partial_sigs_count i) (fun index =>
      let* s := partial_sig_at i index in
      let* _ := hex_string_field (ps_pubkey s) in
      lit (str ":null")) in
    lit (str "}").

Definition emit_input_bip32_derivations (i : TransactionInput) (scope : PsktUnknownScope) : Emit unit :=
  let* found := of_found (find_captured_value parsed scratch scope (str "bip32Derivations")) in
  match found with
  | Some _ => emit_value_or_default scope (str "bip32Derivations") (str "{}")
  | None => emit_bip32_derivations_for_input i
  end.

Definition emit_redeem_script (t : Transaction) (i : TransactionInput) (index : Z) : Emit unit :=
  if redeem_script_len i =? 0 then lit (str "null") else hex_string_field (redeem_bytes t index).

Definition emit_input_identity (i : TransactionInput) (index : Z) : Emit unit :=
  let* _ := lit (quoted "'utxoEntry':") in
  let* _ := emit_utxo_entry i index in
  let* _ := lit (quoted ",'previousOutpoint':") in
  let* _ := emit_outpoint i index in
  let* _ := lit (quoted ",'sequence':") in
  u64_string (sequence i).

Definition emit_input_signing (i : TransactionInput) (scope : PsktUnknownScope) : Emit unit :=
  let* _ := lit (quoted ",'minTime':") in
  let* _ := emit_value_or_default scope (str "minTime") (str "null") in
  let* _ := lit (quoted ",'partialSigs':") in
  let* _ := emit_partial_sigs i in
  let* _ := lit (quoted ",'sighashType':") in
  u64 (sighash_type i).

Definition emit_input_scripts (t : Transaction) (i : TransactionInput) (scope : PsktUnknownScope) (index : Z) : Emit unit :=
  let* _ := lit (quoted ",'redeemScript':") in
  let* _ := emit_redeem_script t i index in
  let* _ := lit (quoted ",'sigOpCount':") in
  let* _ := u64 (sig_op_count i) in
  let* _ := lit (quoted ",'bip32Derivations':") in
  emit_input_bip32_derivations i scope.

Definition emit_final_script_sig (scope : PsktUnknownScope) : Emit unit :=
  let* _ := lit (quoted ",'finalScriptSig':") in
  emit_value_or_default scope (str "finalScriptSig") (str "null").

Definition emit_covenant_execution (i : TransactionInput) : Emit unit :=
  if negb (covenant_execution_present i) then ret tt
  else
    let* _ := lit (quoted ",'covenantExecution':{'suppliedMask':") in
    let* _ := u64 (covenant_execution_mask i) in
    let* _ := lit (quoted ",'suppliedTrueMask':") in
    let* _ := u64 (covenant_execution_true_mask i) in
    byte 125.

Definition emit_input_proprietaries (scope : PsktUnknownScope) : Emit unit :=
  let* _ := lit (quoted ",'proprietaries':") in
  emit_value_or_default scope (str "proprietaries") (str "{}").

Definition emit_input_preserved (i : TransactionInput) (scope : PsktUnknownScope) : Emit unit :=
  let* _ := emit_final_script_sig scope in
  let* _ := emit_covenant_execution i in
  let* _ := emit_input_proprietaries scope in
  emit_additional_fields scope INPUT_CAPTURED_FIELDS.

Definition emit_input (t : Transaction) (index : Z) : Emit unit :=
  match get_at (tx_inputs t) index with
  | None => throw Panics
  | Some i =>
      let* scope := emit_scope input index in
      let* _ := lit (str "{") in
      let* _ := emit_input_identity i index in
      let* _ := emit_input_signing i scope in
      let* _ := emit_input_scripts t i scope index in
      let* _ := emit_input_preserved i scope in
      lit (str "}")
  end.

Definition emit_inputs_array (t : Transaction) : Emit unit :=
  let* _ := lit (str "[") in
  let* _ := separated (num_inputs t) (emit_input t) in
  lit (str "]").

(** ** [serializer/outputs.rs] *)

Definition OUTPUT_CAPTURED_FIELDS : list (list Z) := [str "redeemScript"; str "bip32Derivations"; str "proprietaries"].

Definition output_scope (index : Z) : Emit PsktUnknownScope :=
  if u32_max <? index then refuse TooManyOutputs else ret (output index).

Definition emit_output_identity (o : TransactionOutput) : Emit unit :=
  let* _ := lit (quoted "{'amount':") in
  let* _ := u64_string (value o) in
  let* _ := lit (quoted ",'scriptPublicKey':") in
  emit_script_public_key (out_script_public_key o).

Definition emit_output_preserved (scope : PsktUnknownScope) : Emit unit :=
  let* _ := lit (quoted ",'redeemScript':") in
  let* _ := emit_value_or_default scope (str "redeemScript") (str "null") in
  let* _ := lit (quoted ",'bip32Derivations':") in
  let* _ := emit_value_or_default scope (str "bip32Derivations") (str "{}") in
  let* _ := lit (quoted ",'proprietaries':") in
  emit_value_or_default scope (str "proprietaries") (str "{}").

Definition emit_present_covenant_value (o : TransactionOutput) : Emit unit :=
  let* _ := lit (quoted "{'authorizingInput':") in
  let* _ := u64 (covenant_auth_input o) in
  let* _ := lit (quoted ",'covenantId':") in
  let* _ := hex_string_field (covenant_id o) in
  lit (str "}").

Definition emit_covenant_value (o : TransactionOutput) : Emit unit :=
  if negb (has_covenant o) then lit (str "null") else emit_present_covenant_value o.

Definition emit_covenant_binding (t : Transaction) (o : TransactionOutput) (index : Z) : Emit unit :=
  if has_covenant o && (num_inputs t <=? covenant_auth_input o) then refuse InvalidCovenantBinding
  else if negb (has_covenant o || output_has_covenant_binding_field parsed index) then ret tt
  else
    let* _ := lit (quoted ",'covenantBinding':") in
    emit_covenant_value o.

Definition emit_output (t : Transaction) (index : Z) : Emit unit :=
  let* scope := output_scope index in
  match get_at (tx_outputs t) index with
  | None => throw Panics
  | Some o =>
      let* _ := emit_output_identity o in
      let* _ := emit_covenant_binding t o index in
      let* _ := emit_output_preserved scope in
      let* _ := emit_additional_fields scope OUTPUT_CAPTURED_FIELDS in
      lit (str "}")
  end.

Definition emit_outputs_array (t : Transaction) : Emit unit :=
  let* _ := lit (str "[") in
  let* _ := separated (num_outputs t) (emit_output t) in
  lit (str "]").

(** ** [serializer/mod.rs] *)

Definition serialization_magic (format : TxInputFormat) : result (list Z) PskError :=
  match format with
  | PsktPskb => Ok PSKB_MAGIC
  | PsktSingle => Ok PSKT_MAGIC
  | KsptCompact => Err UnexpectedToken
  end.

Definition validate_serialization_shape (t : Transaction) : result unit PskError :=
  if max_inputs (limits t) <? num_inputs t then Err TooManyInputs
  else if blen (tx_inputs t) <? num_inputs t then Err CountMismatch
  else if blen (tx_outputs t) <? num_outputs t then Err TooManyOutputs
  else
    let? _ := validate_monetary_shape t in
    validate_preservation_metadata parsed scratch (num_inputs t) (num_outputs t).

Definition emit_pskt_object (t : Transaction) : Emit unit :=
  let* _ := lit (quoted "{'global':") in
  let* _ := emit_global t in
  let* _ := lit (quoted ",'inputs':") in
  let* _ := emit_inputs_array t in
  let* _ := lit (quoted ",'outputs':") in
  let* _ := emit_outputs_array t in
  let* _ := emit_additional_fields top_level [] in
  lit (str "}").

Definition emit_envelope (t : Transaction) (bundle : bool) : Emit unit :=
  let* _ := if bundle then lit (str "[") else ret tt in
  let* _ := emit_pskt_object t in
  if bundle then lit (str "]") else ret tt.

Definition is_bundle (format : TxInputFormat) : bool := match format with PsktPskb => true | _ => false end.

(** The length written, and the output buffer. *)
Definition serialize_pskt (t : Transaction) (format : TxInputFormat) (buffer : list Z)
  : result Z (Fault PskError) * list Z :=
  match serialization_magic format with
  | Err e => (Err (Fails e), buffer)
  | Ok magic =>
      if blen buffer <? 4 then (Err (Fails OutputBufferTooSmall), buffer)
      else
        match validate_serialization_shape t with
        | Err e => (Err (Fails e), buffer)
        | Ok _ =>
            let buffer := magic ++ drop 4 buffer in
            match emit_envelope t (is_bundle format) {| out := buffer; pos := 4 |} with
            | (Ok _, w) => (Ok (pos w), out w)
            | (Err e, w) => (Err e, out w)
            end
        end
  end.

(** Each retry doubles the capacity, so 64 rounds pass [usize::MAX]. *)
Fixpoint serialize_pskt_vec_with_capacity (fuel : nat) (t : Transaction) (format : TxInputFormat) (capacity : Z)
  : result (list Z) (Fault PskError) :=
  match fuel with
  | O => Err Panics
  | S fuel =>
      match serialize_pskt t format (zeros capacity) with
      | (Ok length, output) => Ok (take (Z.to_nat length) output)
      | (Err (Fails OutputBufferTooSmall), _) =>
          match checked_mul capacity 2 with
          | None => Err (Fails OutputBufferTooSmall)
          | Some next => serialize_pskt_vec_with_capacity fuel t format next
          end
      | (Err e, _) => Err e
      end
  end.

Definition serialize_pskt_vec (t : Transaction) (format : TxInputFormat) : result (list Z) (Fault PskError) :=
  serialize_pskt_vec_with_capacity 64 t format (Z.max 4096 (saturating_add (blen scratch) 1024)).

End emit.

(** ** [standard/signatures.rs] *)

(** The body of the loop: the merged slots and their count. *)
Definition merge_slot (state : list IncomingPartialSig * Z) (slot : InputSig)
  : result (list IncomingPartialSig * Z) (Fault PskError) :=
  let '(merged, count) := state in
  if negb (sg_present slot) || list_Z_eqb (sg_pubkey_compressed slot) (zeros 33) then Ok state
  else if blen merged <? count then Err Panics
  else
    match find (fun entry => list_Z_eqb (ps_pubkey entry) (sg_pubkey_compressed slot)) (take (Z.to_nat count) merged) with
    | Some entry =>
        if negb (list_Z_eqb (ps_signature entry) (sg_signature slot)) then Err (Fails SignatureConflict) else Ok state
    | None =>
        if blen merged <=? count then Err (Fails TooManyPartialSigs)
        else Ok (<[Z.to_nat count := {| ps_pubkey := sg_pubkey_compressed slot; ps_signature := sg_signature slot;
                                        ps_present := true |}]> merged, count + 1)
    end.

(** The keys of the merged slots are distinct, so the sort has one result. *)
Definition merged_partial_sigs (i : TransactionInput) : result (list IncomingPartialSig * Z) (Fault PskError) :=
  let original := incoming_partial_sigs_count i in
  let? (merged, count) := try_fold merge_slot (incoming_partial_sigs i, original) (take (Z.to_nat (sig_count i)) (sigs i)) in
  let merged :=
    if count =? original then merged
    else sort_by (fun a b => cmp_text (ps_pubkey a) (ps_pubkey b)) (take (Z.to_nat count) merged)
           ++ drop (Z.to_nat count) merged in
  Ok (merged, count mod 256).

Definition move_ksp_sigs_to_pskt (t : Transaction) : result unit (Fault PskError) * Transaction :=
  match slice (tx_inputs t) 0 (num_inputs t) with
  | None => (Err Panics, t)
  | Some inputs =>
      match try_map merged_partial_sigs inputs with
      | Err e => (Err e, t)
      | Ok merged =>
          (Ok tt, set_inputs (zip_with (fun i '(partial, count) => put_partial_count (put_partial_sigs i partial) count)
                                inputs merged ++ drop (length merged) (tx_inputs t)) t)
      end
  end.

Definition pskt_signature_status (keyed : list Z -> list Z -> list Z) (schnorr_verify : list Z -> list Z -> list Z -> bool)
    (t : Transaction) : Z * Z :=
  Verification.pskt_status keyed schnorr_verify t.
