(* ===== verification/PsktGrammar.v ===== *)
(** * PSKT documents: the grammar

    The JSON trees the format admits, their texts with any white space between
    tokens, and the two readers of such texts: the canonical validator, which
    accepts exactly them, and the tokenizer, which reads their tokens. *)

From S2P Require Import Prelude Bytes Selection TxModel PsktSyntax.
Import Hex Decimal.

(** ** Trees and their tokens *)

Inductive Tree :=
  | JNull
  | JBool (b : bool)
  | JNum (digits : list Z)
  | JStr (text : list Z)
  | JArr (items : list Tree)
  | JObj (members : list (list Z * Tree)).

Section tree_ind.
Variable P : Tree -> Prop.
Hypotheses (Hnull : P JNull) (Hbool : forall b, P (JBool b)) (Hnum : forall d, P (JNum d)) (Hstr : forall s, P (JStr s))
  (Harr : forall items, Forall P items -> P (JArr items))
  (Hobj : forall ms, Forall (fun m => P m.2) ms -> P (JObj ms)).
Fixpoint tree_ind (v : Tree) : P v :=
  match v with
  | JNull => Hnull
  | JBool b => Hbool b
  | JNum d => Hnum d
  | JStr s => Hstr s
  | JArr items => Harr items ((fix go l : Forall P l :=
      match l with [] => List.Forall_nil _ | x :: l => List.Forall_cons _ _ _ (tree_ind x) (go l) end) items)
  | JObj ms => Hobj ms ((fix go l : Forall (fun m => P m.2) l :=
      match l with [] => List.Forall_nil _ | x :: l => List.Forall_cons _ _ _ (tree_ind x.2) (go l) end) ms)
  end.
End tree_ind.

Fixpoint join (parts : list (list Tok)) : list Tok :=
  match parts with
  | [] => []
  | [part] => part
  | part :: parts => part ++ Comma :: join parts
  end.

Fixpoint toks (v : Tree) : list Tok :=
  match v with
  | JNull => [TNull]
  | JBool b => [if b then TTrue else TFalse]
  | JNum digits => [Num digits]
  | JStr text => [Str text]
  | JArr items => LBracket :: join (map toks items) ++ [RBracket]
  | JObj members => LBrace :: join (map (fun m => Str m.1 :: Colon :: toks m.2) members) ++ [RBrace]
  end.
Definition member_toks (m : list Z * Tree) : list Tok := Str m.1 :: Colon :: toks m.2.

(** ** What the format admits *)

Definition plain_char (c : Z) : bool := (32 <=? c) && (c <=? 126) && negb (c =? 34) && negb (c =? 92).
Definition printable (s : list Z) : bool := forallb plain_char s.
Definition canonical_number (d : list Z) : bool :=
  negb (bool_decide (d = [])) && forallb is_ascii_digit d && negb ((1 <? blen d) && (default 0 (head d) =? 48)).

(** A tree that stands at nesting [depth]. *)
Fixpoint canonical (depth : Z) (v : Tree) : bool :=
  match v with
  | JNull | JBool _ => true
  | JNum d => canonical_number d
  | JStr s => printable s
  | JArr items => (depth <? MAX_JSON_NESTING) && forallb (canonical (depth + 1)) items
  | JObj ms =>
      (depth <? MAX_JSON_NESTING) && bool_decide (NoDup (map fst ms))
      && forallb (fun m => printable m.1 && canonical (depth + 1) m.2) ms
  end.

(** ** Texts *)

Definition tok_text (t : Tok) : list Z :=
  match t with
  | LBrace => [123] | RBrace => [125] | LBracket => [91] | RBracket => [93] | Colon => [58] | Comma => [44]
  | Str s => 34 :: s ++ [34]
  | Num d => d
  | TTrue => str "true" | TFalse => str "false" | TNull => str "null"
  | Eof => []
  end.

Definition tok_ok (t : Tok) : bool :=
  match t with Str s => printable s | Num d => canonical_number d | Eof => false | _ => true end.

(** What may follow a number. *)
Definition ends_number (c : Z) : bool :=
  negb (is_ascii_digit c || (c =? 46) || (c =? 101) || (c =? 69) || (c =? 43) || (c =? 45)).
Definition separates (t : Tok) (after : list Z) : bool :=
  match t, after with Num _, c :: _ => ends_number c | _, _ => true end.

Definition blank (w : list Z) : bool := forallb is_ws w.

(** [reads ts text rest]: the text is the tokens [ts] with white space before
    each, followed by [rest]. *)
Inductive reads : list Tok -> list Z -> list Z -> Prop :=
  | reads_nil rest : reads [] rest rest
  | reads_cons w t ts after rest :
      blank w = true -> tok_ok t = true -> separates t after = true -> reads ts after rest ->
      reads (t :: ts) (w ++ tok_text t ++ after) rest.

(** A whole document. *)
Definition document_text (v : Tree) (text : list Z) : Prop :=
  exists rest, reads (toks v) text rest /\ blank rest = true.

(** * Lemmas on scanning *)

Lemma prefix_count_spec {A} (p : A -> bool) l :
  exists a b, l = a ++ b /\ forallb p a = true /\ prefix_count p l = blen a /\
    match b with x :: _ => p x = false | [] => True end.
Proof.
  induction l as [|x l (a & b & -> & Ha & Hc & Hb)]; [by exists [], []|].
  cbn [prefix_count]. destruct (p x) eqn:Hx.
  - exists (x :: a), b. cbn [forallb app]. rewrite Hx, Ha, Hc, blen_cons. done.
  - exists [], (x :: a ++ b). split_and!; done.
Qed.

Lemma prefix_count_app {A} (p : A -> bool) a b : forallb p a = true ->
  match b with x :: _ => p x = false | [] => True end -> prefix_count p (a ++ b) = blen a.
Proof.
  induction a as [|x a IH]; cbn [forallb app prefix_count]; intros Ha Hb.
  - destruct b as [|y b]; [done|]. cbn. by rewrite Hb.
  - apply andb_prop in Ha as [-> Ha]. rewrite IH, blen_cons by done. done.
Qed.

Lemma suffix_app (a b : list Z) i : i = blen a -> suffix (a ++ b) i = b.
Proof. intros ->. unfold suffix, blen. rewrite Nat2Z.id. apply drop_app_length. Qed.

Lemma suffix_app_le (a b : list Z) i : 0 <= i -> suffix (a ++ b) (blen a + i) = suffix b i.
Proof.
  intros Hi. unfold suffix, blen. rewrite Z2Nat.inj_add, Nat2Z.id by lia. by rewrite drop_app_add.
Qed.

Lemma position_Some {A} (p : A -> bool) l i : position p l = Some i ->
  exists a x b, l = a ++ x :: b /\ blen a = i /\ p x = true /\ forallb (fun y => negb (p y)) a = true.
Proof.
  revert i. induction l as [|x l IH]; intros i; cbn [position]; [done|]. destruct (p x) eqn:Hx.
  - intros [= <-]. exists [], x, l. done.
  - destruct (position p l) as [j|]; [|done]. intros [= <-].
    destruct (IH j eq_refl) as (a & y & b & -> & <- & Hy & Ha). exists (x :: a), y, b.
    cbn [forallb]. rewrite Hx, Ha, blen_cons. done.
Qed.

Lemma position_None {A} (p : A -> bool) l : position p l = None -> forallb (fun y => negb (p y)) l = true.
Proof.
  induction l as [|x l IH]; cbn [position forallb]; [done|]. destruct (p x); [done|].
  destruct (position p l); [done|]. intros _. by rewrite IH.
Qed.

Lemma position_app {A} (p : A -> bool) a x b : forallb (fun y => negb (p y)) a = true -> p x = true ->
  position p (a ++ x :: b) = Some (blen a).
Proof.
  intros Ha Hx. induction a as [|y a IH]; cbn [app position]; [by rewrite Hx|].
  cbn [forallb] in Ha. apply andb_prop in Ha as [Hy Ha]. destruct (p y); [done|]. rewrite IH by done.
  cbn. by rewrite blen_cons.
Qed.

Lemma position_none_app {A} (p : A -> bool) a : forallb (fun y => negb (p y)) a = true -> position p a = None.
Proof.
  induction a as [|y a IH]; cbn [position forallb]; [done|]. destruct (p y); [done|]. intros Ha. by rewrite IH.
Qed.

Lemma forallb_ext' {A} (p q : A -> bool) l : (forall x, p x = q x) -> forallb p l = forallb q l.
Proof. intros Hpq. induction l as [|x l IH]; cbn; [done|]. by rewrite Hpq, IH. Qed.

Lemma reads_app ts1 ts2 a b c : reads ts1 a b -> reads ts2 b c -> reads (ts1 ++ ts2) a c.
Proof. induction 1; intros; cbn [app]; [done|]. constructor; auto. Qed.

Lemma reads_app_inv ts1 ts2 a c : reads (ts1 ++ ts2) a c -> exists b, reads ts1 a b /\ reads ts2 b c.
Proof.
  revert a. induction ts1 as [|t ts1 IH]; intros a; cbn [app].
  - intros H. exists a. split; [constructor|done].
  - intros H. inversion H as [|w t' ts' after rest Hw Ht Hs Hr]; subst. destruct (IH after Hr) as (b & H1 & H2).
    exists b. split; [by constructor|done].
Qed.

Lemma tok_text_pos t : tok_ok t = true -> 1 <= blen (tok_text t).
Proof.
  destruct t as [| | | | | |s|d| | | |]; cbn [tok_ok tok_text]; intros Ht; try done.
  - rewrite blen_cons. pose proof (blen_nonneg (s ++ [34])). lia.
  - unfold canonical_number in Ht. destruct d; [done|]. rewrite blen_cons. pose proof (blen_nonneg d). lia.
Qed.

Lemma reads_length ts text rest : reads ts text rest -> blen rest + Z.of_nat (length ts) <= blen text.
Proof.
  induction 1 as [|w t ts after rest Hw Ht Hs Hr IH]; [cbn; lia|].
  rewrite !blen_app. pose proof (tok_text_pos t Ht). pose proof (blen_nonneg w). cbn [length]. lia.
Qed.

Lemma blank_app a b : blank (a ++ b) = blank a && blank b.
Proof. apply forallb_app. Qed.

(** The first byte of a token is no white space. *)
Lemma tok_text_head t after : tok_ok t = true -> match tok_text t ++ after with c :: _ => is_ws c = false | [] => False end.
Proof.
  destruct t as [| | | | | |s|d| | | |]; cbn; intros Ht; try done.
  unfold canonical_number in Ht. destruct d as [|c d]; [done|]. cbn in *.
  unfold is_ascii_digit in Ht. unfold is_ws. repeat (apply andb_prop in Ht as [Ht ?]). lia.
Qed.

Lemma skip_blank w t after : blank w = true -> tok_ok t = true ->
  prefix_count is_ws (w ++ tok_text t ++ after) = blen w.
Proof. intros Hw Ht. apply prefix_count_app; [done|]. pose proof (tok_text_head t after Ht). by destruct (tok_text t ++ after). Qed.

Lemma skip_blank_end w : blank w = true -> prefix_count is_ws w = blen w.
Proof. intros Hw. rewrite <- (app_nil_r w) at 1. by apply prefix_count_app. Qed.

(** * The validator *)

Lemma separates_any t after : match t with Num _ => False | _ => True end -> separates t after = true.
Proof. by destruct t. Qed.

Lemma reads_one w t rest : blank w = true -> tok_ok t = true -> separates t rest = true ->
  reads [t] (w ++ tok_text t ++ rest) rest.
Proof. intros. apply reads_cons; try done. constructor. Qed.

Lemma reads_one_inv t text rest : reads [t] text rest ->
  exists w, blank w = true /\ tok_ok t = true /\ separates t rest = true /\ text = w ++ tok_text t ++ rest.
Proof. inversion 1 as [|w t' ts after r Hw Ht Hs Hr]; subst. inversion Hr; subst. by exists w. Qed.

Lemma reads_cons_inv t ts text rest : reads (t :: ts) text rest ->
  exists w after, blank w = true /\ tok_ok t = true /\ separates t after = true /\
    text = w ++ tok_text t ++ after /\ reads ts after rest.
Proof. inversion 1; subst. eauto 10. Qed.

Lemma ws_run w b : blank w = true -> match b with c :: _ => is_ws c = false | [] => True end ->
  Cursor.ws (w ++ b) = (Ok tt, b).
Proof. intros Hw Hb. unfold Cursor.ws. rewrite prefix_count_app by done. by rewrite suffix_app. Qed.

Lemma ws_inv text u b : Cursor.ws text = (Ok u, b) -> exists w, text = w ++ b /\ blank w = true.
Proof.
  unfold Cursor.ws. intros [= _ <-]. destruct (prefix_count_spec is_ws text) as (w & b & -> & Hw & -> & _).
  exists w. by rewrite suffix_app.
Qed.

Lemma consume_run c b : Cursor.consume_if c (c :: b) = (Ok true, b).
Proof. cbn. by rewrite Z.eqb_refl. Qed.

Lemma consume_other c b : match b with c' :: _ => c' <> c | [] => True end -> Cursor.consume_if c b = (Ok false, b).
Proof. destruct b as [|c' b]; [done|]. intros Hc. cbn. by rewrite (proj2 (Z.eqb_neq _ _) Hc). Qed.

Lemma consume_inv c text r rest : Cursor.consume_if c text = (Ok r, rest) ->
  if r then text = c :: rest else text = rest.
Proof.
  destruct text as [|b text]; cbn; [by intros [= <- <-]|].
  destruct (Z.eqb_spec b c) as [->|]; by intros [= <- <-].
Qed.

Lemma byte_run c w b : blank w = true -> is_ws c = false -> Cursor.byte c (w ++ c :: b) = (Ok tt, b).
Proof.
  intros Hw Hc. unfold Cursor.byte. rewrite (bind_step _ _ _ _ _ (ws_run w (c :: b) Hw Hc)).
  by rewrite (bind_step _ _ _ _ _ (consume_run c b)).
Qed.

Lemma byte_inv c text u rest : Cursor.byte c text = (Ok u, rest) ->
  exists w, text = w ++ c :: rest /\ blank w = true.
Proof.
  unfold Cursor.byte. intros H. apply bind_Ok_inv in H as (u1 & b & Hws & H).
  apply bind_Ok_inv in H as (m & b' & Hm & H). apply ws_inv in Hws as (w & -> & Hw).
  apply consume_inv in Hm. destruct m; [|done]. injection H as <- <-. subst b. by exists w.
Qed.

Lemma not_plain_stop c : negb (plain_char c) = negb ((32 <=? c) && (c <=? 126)) || ((c =? 34) || (c =? 92)).
Proof. unfold plain_char. lia. Qed.

Lemma printable_scan s : printable s = true ->
  forallb (fun c => negb (negb ((32 <=? c) && (c <=? 126)) || ((c =? 34) || (c =? 92)))) s = true.
Proof.
  intros Hs. rewrite (forallb_ext' _ plain_char); [done|]. intros c.
  rewrite <- not_plain_stop. apply negb_involutive.
Qed.

Lemma string_run w s b : blank w = true -> printable s = true ->
  Cursor.string (w ++ 34 :: s ++ 34 :: b) = (Ok s, b).
Proof.
  intros Hw Hs. unfold Cursor.string. rewrite (bind_step _ _ _ _ _ (byte_run 34 w _ Hw eq_refl)).
  rewrite position_app; [|by apply printable_scan|done].
  rewrite (get_at_split (s ++ 34 :: b) s b 34) by done. rewrite bool_decide_eq_true_2 by done.
  rewrite (slice_split (s ++ 34 :: b) [] s (34 :: b)) by done. cbn [default].
  f_equal. change (34 :: b) with ([34] ++ b). rewrite app_assoc. apply suffix_app. by rewrite blen_app.
Qed.

Lemma string_inv text s rest : Cursor.string text = (Ok s, rest) ->
  exists w, text = w ++ 34 :: s ++ 34 :: rest /\ blank w = true /\ printable s = true.
Proof.
  unfold Cursor.string. intros H. apply bind_Ok_inv in H as (u & b & Hb & H).
  apply byte_inv in Hb as (w & -> & Hw).
  destruct (position _ b) as [i|] eqn:Hp; [|done]. apply position_Some in Hp as (a & x & b' & -> & <- & _ & Ha).
  rewrite (get_at_split (a ++ x :: b') a b' x) in H by done.
  case_bool_decide as Hx; [|done]. injection Hx as ->.
  rewrite (slice_split (a ++ 34 :: b') [] a (34 :: b')) in H by done. cbn [default] in H.
  change (34 :: b') with ([34] ++ b') in H. rewrite app_assoc, suffix_app in H by (by rewrite blen_app).
  injection H as <- <-. exists w. split_and!; try done.
  unfold printable. rewrite (forallb_ext' plain_char (fun c => negb (negb ((32 <=? c) && (c <=? 126)) || ((c =? 34) || (c =? 92))))); [done|].
  intros c. rewrite <- not_plain_stop. symmetry. apply negb_involutive.
Qed.

Lemma canonical_number_spec d : canonical_number d = true ->
  forallb is_ascii_digit d = true /\ exists c d', d = c :: d' /\ is_ascii_digit c = true /\ (c = 48 -> d' = []).
Proof.
  unfold canonical_number. destruct d as [|c d']; [done|]. intros H.
  apply andb_prop in H as [H Hz]. apply andb_prop in H as [_ Hd]. split; [done|].
  exists c, d'. cbn [forallb] in Hd. apply andb_prop in Hd as [Hc Hd]. split_and!; try done.
  intros ->. cbn in Hz. rewrite blen_cons in Hz. destruct d' as [|x d']; [done|]. rewrite blen_cons in Hz.
  pose proof (blen_nonneg d'). decide_tests. done.
Qed.

Lemma ends_number_spec c : ends_number c = true ->
  is_ascii_digit c = false /\ (c =? 46) || (c =? 101) || (c =? 69) || (c =? 43) || (c =? 45) = false.
Proof.
  unfold ends_number. intros H. apply negb_true_iff in H.
  destruct (is_ascii_digit c); cbn in *; [done|]. split; [done|]. exact H.
Qed.

Lemma number_run d b : canonical_number d = true -> separates (Num d) b = true ->
  Cursor.number (d ++ b) = (Ok tt, b).
Proof.
  intros Hd Hs. destruct (canonical_number_spec d Hd) as (Hall & c & d' & -> & Hc & Hz).
  unfold Cursor.number. rewrite prefix_count_app; [|done|].
  2:{ destruct b as [|x b]; [done|]. cbn in Hs. by apply ends_number_spec in Hs as [? _]. }
  rewrite suffix_app by done. cbn [app head].
  assert (bool_decide (Some c = Some 48) && (1 <? blen (c :: d')) = false) as ->.
  { case_bool_decide as He; [|done]. injection He as ->. by rewrite (Hz eq_refl). }
  destruct b as [|x b]; [done|]. cbn in Hs. apply ends_number_spec in Hs as [_ Hx]. cbn [orb head].
  by rewrite Hx.
Qed.

Lemma number_inv c text u rest : is_ascii_digit c = true -> Cursor.number (c :: text) = (Ok u, rest) ->
  exists d, c :: text = d ++ rest /\ canonical_number d = true /\ separates (Num d) rest = true.
Proof.
  intros Hc. unfold Cursor.number. destruct (prefix_count_spec is_ascii_digit (c :: text)) as (d & b & He & Hd & -> & Hb).
  rewrite He. rewrite suffix_app by done. destruct (_ || _) eqn:Ht; [done|]. intros [= _ <-].
  apply orb_false_iff in Ht as [Hz Hx]. exists d. split; [done|].
  destruct d as [|c' d']; [destruct b as [|? ?]; cbn in He; [done|]; injection He as <- <-; congruence|].
  cbn [app] in He. injection He as <- He. split.
  - unfold canonical_number. rewrite bool_decide_eq_false_2 by done. rewrite Hd. cbn [negb andb app head] in *.
    change (default 0 (Some c)) with c.
    destruct (Z.eqb_spec c 48) as [->|]; [|by rewrite andb_false_r].
    rewrite bool_decide_eq_true_2 in Hz by done. cbn in Hz. by rewrite Hz.
  - cbn. destruct b as [|x b]; [done|]. cbn in Hx. unfold ends_number. rewrite Hb. cbn. by rewrite Hx.
Qed.

Lemma literal_run l b : Cursor.literal l (l ++ b) = (Ok tt, b).
Proof.
  unfold Cursor.literal. rewrite take_app_length. rewrite bool_decide_eq_true_2 by done. by rewrite drop_app_length.
Qed.

Lemma literal_inv l text u rest : Cursor.literal l text = (Ok u, rest) -> text = l ++ rest.
Proof.
  unfold Cursor.literal. case_bool_decide as Ht; [|done]. intros [= _ <-].
  rewrite <- (take_drop (length l) text) at 1. by rewrite Ht.
Qed.

Lemma list_end_run c w b : blank w = true -> is_ws c = false -> c <> 44 ->
  Cursor.list_end c (w ++ c :: b) = (Ok true, b).
Proof.
  intros Hw Hc Hn. unfold Cursor.list_end. rewrite (bind_step _ _ _ _ _ (ws_run w (c :: b) Hw Hc)).
  rewrite (bind_step _ _ _ _ _ (consume_other 44 (c :: b) Hn)).
  by rewrite (bind_step _ _ _ _ _ (consume_run c b)).
Qed.

Lemma list_end_more c w b : blank w = true -> Cursor.list_end c (w ++ 44 :: b) = (Ok false, b).
Proof.
  intros Hw. unfold Cursor.list_end. rewrite (bind_step _ _ _ _ _ (ws_run w (44 :: b) Hw eq_refl)).
  by rewrite (bind_step _ _ _ _ _ (consume_run 44 b)).
Qed.

Lemma list_end_inv c text r rest : Cursor.list_end c text = (Ok r, rest) ->
  exists w, text = w ++ (if r then c else 44) :: rest /\ blank w = true.
Proof.
  unfold Cursor.list_end. intros H. apply bind_Ok_inv in H as (u & b & Hws & H). apply ws_inv in Hws as (w & -> & Hw).
  apply bind_Ok_inv in H as (m1 & b1 & Hm1 & H). apply consume_inv in Hm1. destruct m1.
  - injection H as <- <-. subst b. by exists w.
  - apply bind_Ok_inv in H as (m2 & b2 & Hm2 & H). apply consume_inv in Hm2. destruct m2; [|done].
    injection H as <- <-. subst. by exists w.
Qed.

Lemma adjacent_equal_spec keys : StronglySorted (fun a b => cmp_text a b <> Gt) keys ->
  Cursor.adjacent_equal keys = false <-> NoDup keys.
Proof.
  induction 1 as [|a l Hl IH Ha]; [split; [constructor|done]|].
  destruct l as [|b l]; [split; [intros _; apply NoDup_singleton|done]|]. cbn [Cursor.adjacent_equal].
  rewrite orb_false_iff, NoDup_cons, IH. split; intros [Hab Hnd]; (split; [|done]).
  - intros Hin. apply Forall_cons in Ha as [Hb _]. inversion Hl as [|? ? _ Hbl]; subst.
    apply elem_of_cons in Hin as [->|Hin]; [by rewrite (proj2 (list_Z_eqb_eq b b)) in Hab|].
    rewrite Forall_forall in Hbl. specialize (Hbl a Hin). rewrite cmp_text_antisym in Hbl.
    destruct (cmp_text a b) eqn:Hc; try done. apply cmp_text_Eq in Hc as ->.
    by rewrite (proj2 (list_Z_eqb_eq b b)) in Hab.
  - destruct (list_Z_eqb a b) eqn:He; [|done]. apply list_Z_eqb_eq in He as ->. destruct Hab. by left.
Qed.

Lemma reject_duplicate_keys_spec keys u : Cursor.reject_duplicate_keys keys = Ok u <-> NoDup keys.
Proof.
  unfold Cursor.reject_duplicate_keys.
  assert (Cursor.adjacent_equal (sort_by cmp_text keys) = false <-> NoDup keys) as Hiff.
  { rewrite adjacent_equal_spec; [by rewrite sort_by_Permutation|]. apply (sort_by_sorted cmp_text); [|exact cmp_text_trans].
    intros x y Hxy. unfold cmp_le. by rewrite cmp_text_antisym, Hxy. }
  destruct u. destruct (Cursor.adjacent_equal _); [|tauto].
  split; [done|]. intros Hnd. by apply Hiff in Hnd.
Qed.

(** ** Soundness *)

Lemma join_cons p ps : ps <> [] -> join (p :: ps) = p ++ Comma :: join ps.
Proof. by destruct ps. Qed.

Lemma reads_plain w t rest : blank w = true -> tok_ok t = true -> match t with Num _ => False | _ => True end ->
  reads [t] (w ++ tok_text t ++ rest) rest.
Proof. intros. apply reads_one; try done. by apply separates_any. Qed.

Lemma reads_punct w t b rest : tok_text t = [b] -> tok_ok t = true -> match t with Num _ => False | _ => True end ->
  blank w = true -> reads [t] (w ++ b :: rest) rest.
Proof. intros Ht Ho Hn Hw. pose proof (reads_plain w t rest Hw Ho Hn) as H. by rewrite Ht in H. Qed.

Lemma reads_str w s rest : blank w = true -> printable s = true -> reads [Str s] (w ++ 34 :: s ++ 34 :: rest) rest.
Proof.
  intros Hw Hs. pose proof (reads_plain w (Str s) rest Hw Hs I) as H. cbn [tok_text] in H.
  by rewrite <- app_comm_cons, <- app_assoc in H.
Qed.

Definition good_member (depth : Z) (m : list Z * Tree) : bool := printable m.1 && canonical depth m.2.

Definition value_sound (fuel : nat) : Prop := forall depth text rest,
  Cursor.value fuel depth text = (Ok tt, rest) -> exists v, canonical depth v = true /\ reads (toks v) text rest.
Definition members_sound (fuel : nat) : Prop := forall depth keys text rest,
  Cursor.members fuel depth keys text = (Ok tt, rest) ->
  exists ms, ms <> [] /\ forallb (good_member depth) ms = true /\ NoDup (keys ++ map fst ms) /\
    reads (join (map member_toks ms) ++ [RBrace]) text rest.
Definition items_sound (fuel : nat) : Prop := forall depth text rest,
  Cursor.items fuel depth text = (Ok tt, rest) ->
  exists items, items <> [] /\ forallb (canonical depth) items = true /\
    reads (join (map toks items) ++ [RBracket]) text rest.

Lemma members_step fuel : value_sound fuel -> members_sound fuel -> members_sound (S fuel).
Proof.
  intros Hv Hm depth keys text rest H. cbn [Cursor.members] in H.
  apply bind_Ok_inv in H as (key & t1 & Hkey & H). apply string_inv in Hkey as (w1 & -> & Hw1 & Hkey).
  apply bind_Ok_inv in H as (u1 & t2 & Hcolon & H). apply byte_inv in Hcolon as (w2 & -> & Hw2).
  apply bind_Ok_inv in H as ([] & t3 & Hval & H). apply Hv in Hval as (v & Hc & Hr).
  apply bind_Ok_inv in H as (fin & t4 & Hend & H). apply list_end_inv in Hend as (w4 & -> & Hw4).
  assert (Hmem : forall r, reads (toks v) t2 r -> reads (member_toks (key, v)) (w1 ++ 34 :: key ++ 34 :: w2 ++ 58 :: t2) r).
  { intros r Hr'. apply (reads_app [Str key] (Colon :: toks v) _ (w2 ++ 58 :: t2)); [by apply reads_str|].
    apply (reads_app [Colon] (toks v) _ t2); [|done]. by apply (reads_punct w2 Colon 58). }
  assert (Hg : good_member depth (key, v) = true) by (unfold good_member; cbn [fst snd]; by rewrite Hkey, Hc).
  destruct fin.
  - injection H as H <-. apply reject_duplicate_keys_spec in H. exists [(key, v)]. split; [done|].
    cbn [forallb map join fst]. rewrite Hg. split; [done|]. split; [done|].
    eapply reads_app; [by apply Hmem|]. by apply (reads_punct w4 RBrace 125).
  - apply Hm in H as (ms & Hne & Hms & Hnd & Hrest). exists ((key, v) :: ms). split; [done|].
    cbn [forallb map fst]. rewrite Hg, Hms. split; [done|]. rewrite <- app_assoc in Hnd. split; [done|].
    rewrite join_cons by (by destruct ms). rewrite <- app_assoc. eapply reads_app; [by apply Hmem|].
    apply (reads_app [Comma] _ _ t4); [|done]. by apply (reads_punct w4 Comma 44).
Qed.

Lemma items_step fuel : value_sound fuel -> items_sound fuel -> items_sound (S fuel).
Proof.
  intros Hv Hm depth text rest H. cbn [Cursor.items] in H.
  apply bind_Ok_inv in H as ([] & t1 & Hval & H). apply Hv in Hval as (v & Hc & Hr).
  apply bind_Ok_inv in H as (fin & t2 & Hend & H). apply list_end_inv in Hend as (w & -> & Hw).
  destruct fin.
  - injection H as <-. exists [v]. cbn [forallb map join]. rewrite Hc. split; [done|]. split; [done|].
    eapply reads_app; [done|]. by apply (reads_punct w RBracket 93).
  - apply Hm in H as (items & Hne & Hi & Hrest). exists (v :: items). cbn [forallb map]. rewrite Hc, Hi.
    split; [done|]. split; [done|]. rewrite join_cons by (by destruct items). rewrite <- app_assoc.
    eapply reads_app; [done|]. apply (reads_app [Comma] _ _ t2); [|done]. by apply (reads_punct w Comma 44).
Qed.

Lemma nested_inv {S} depth d (s s' : S) : of_result (Cursor.nested depth) s = (Ok d, s') ->
  d = depth + 1 /\ (depth <? MAX_JSON_NESTING) = true /\ s' = s.
Proof. unfold of_result, Cursor.nested. destruct (depth <? MAX_JSON_NESTING); intros [=]; by subst. Qed.

(** The opening of a container, up to its first member. *)
Lemma open_inv {A} depth c close (k : bool -> Z -> Comp (list Z) JsonSyntaxError A) text a rest :
  (let* d := of_result (Cursor.nested depth) in
   let* _ := Cursor.byte c in
   let* _ := Cursor.ws in
   let* empty := Cursor.consume_if close in k empty d) text = (Ok a, rest) ->
  exists w1 w2 after (empty : bool), (depth <? MAX_JSON_NESTING) = true /\ text = w1 ++ c :: w2 ++ (if empty then close :: after else after) /\
    blank w1 = true /\ blank w2 = true /\ k empty (depth + 1) after = (Ok a, rest).
Proof.
  intros H. apply bind_Ok_inv in H as (d & t0 & Hn & H). apply nested_inv in Hn as (-> & Hd & ->).
  apply bind_Ok_inv in H as (u1 & t1 & Hb & H). apply byte_inv in Hb as (w1 & -> & Hw1).
  apply bind_Ok_inv in H as (u2 & t2 & Hws & H). apply ws_inv in Hws as (w2 & -> & Hw2).
  apply bind_Ok_inv in H as (e & t3 & He & H). apply consume_inv in He.
  exists w1, w2, t3, e. split_and!; try done. destruct e; by subst.
Qed.

Lemma blank_nil : blank [] = true.
Proof. done. Qed.

Lemma value_step fuel : members_sound fuel -> items_sound fuel -> value_sound (S fuel).
Proof.
  intros Hm Hi depth text rest H. cbn [Cursor.value] in H.
  apply bind_Ok_inv in H as (u & t & Hws & H). apply ws_inv in Hws as (w & -> & Hw).
  assert (Hone : forall v t0, match t0 with Num _ => False | _ => True end -> toks v = [t0] -> tok_ok t0 = true ->
    t = tok_text t0 ++ rest -> reads (toks v) (w ++ t) rest).
  { intros v t0 Hn -> Ho ->. by apply reads_plain. }
  destruct t as [|c t]; [done|]. cbn [head] in H.
  destruct (Z.eqb_spec c 123) as [->|_].
  { apply open_inv in H as (w1 & w2 & after & empty & Hd & He & Hw1 & Hw2 & H). rewrite He. destruct empty.
    - injection H as <-. exists (JObj []). cbn [canonical toks map join forallb]. rewrite Hd. split; [done|].
      rewrite app_assoc. apply (reads_app [LBrace] [RBrace] _ (w2 ++ 125 :: after)).
      + apply (reads_punct _ LBrace 123); try done. rewrite blank_app, Hw. done.
      + by apply (reads_punct w2 RBrace 125).
    - apply Hm in H as (ms & Hne & Hms & Hnd & Hr). exists (JObj ms). cbn [canonical toks]. rewrite Hd.
      rewrite bool_decide_eq_true_2 by done. split; [exact Hms|].
      rewrite app_assoc. apply (reads_app [LBrace] _ _ (w2 ++ after)).
      + apply (reads_punct _ LBrace 123); try done. by rewrite blank_app, Hw.
      + change (map (fun m => _) ms) with (map member_toks ms). destruct (join (map member_toks ms) ++ [RBrace]) as [|t0 ts] eqn:Ht.
        { by destruct (join (map member_toks ms)). }
        apply reads_cons_inv in Hr as (w3 & after' & Hw3 & Ho & Hs & -> & Hr). rewrite app_assoc.
        apply reads_cons; try done. by rewrite blank_app, Hw2. }
  destruct (Z.eqb_spec c 91) as [->|_].
  { apply open_inv in H as (w1 & w2 & after & empty & Hd & He & Hw1 & Hw2 & H). rewrite He. destruct empty.
    - injection H as <-. exists (JArr []). cbn [canonical toks map join forallb]. rewrite Hd. split; [done|].
      rewrite app_assoc. apply (reads_app [LBracket] [RBracket] _ (w2 ++ 93 :: after)).
      + apply (reads_punct _ LBracket 91); try done. by rewrite blank_app, Hw.
      + by apply (reads_punct w2 RBracket 93).
    - apply Hi in H as (items & Hne & Hms & Hr). exists (JArr items). cbn [canonical toks]. rewrite Hd. split; [exact Hms|].
      rewrite app_assoc. apply (reads_app [LBracket] _ _ (w2 ++ after)).
      + apply (reads_punct _ LBracket 91); try done. by rewrite blank_app, Hw.
      + destruct (join (map toks items) ++ [RBracket]) as [|t0 ts] eqn:Ht.
        { by destruct (join (map toks items)). }
        apply reads_cons_inv in Hr as (w3 & after' & Hw3 & Ho & Hs & -> & Hr). rewrite app_assoc.
        apply reads_cons; try done. by rewrite blank_app, Hw2. }
  destruct (Z.eqb_spec c 34) as [->|_].
  { apply bind_Ok_inv in H as (s & t' & Hs & H). injection H as <-. apply string_inv in Hs as (w' & He & Hw' & Hs).
    rewrite He. exists (JStr s). split; [done|]. cbn [toks]. rewrite app_assoc. apply reads_str; [by rewrite blank_app, Hw|done]. }
  destruct (is_ascii_digit c) eqn:Hc.
  { apply number_inv in H as (d & -> & Hd & Hs); [|done]. exists (JNum d). split; [done|]. by apply reads_one. }
  destruct (c =? 116). { apply literal_inv in H. exists (JBool true). split; [done|]. by apply (Hone _ TTrue). }
  destruct (c =? 102). { apply literal_inv in H. exists (JBool false). split; [done|]. by apply (Hone _ TFalse). }
  destruct (c =? 110); [|done]. apply literal_inv in H. exists JNull. split; [done|]. by apply (Hone _ TNull).
Qed.

Lemma cursor_sound fuel : value_sound fuel /\ members_sound fuel /\ items_sound fuel.
Proof.
  induction fuel as [|fuel (Hv & Hm & Hi)]; [by split_and!; intros ?|].
  split_and!; [by apply value_step|by apply members_step|by apply items_step].
Qed.

(** ** Completeness *)

Definition complete_at (v : Tree) : Prop := forall fuel depth text rest,
  canonical depth v = true -> reads (toks v) text rest -> 2 * (blen text - blen rest) <= Z.of_nat fuel ->
  Cursor.value fuel depth text = (Ok tt, rest).

Lemma reads_punct_inv t b ts text rest : tok_text t = [b] -> reads (t :: ts) text rest ->
  exists w after, blank w = true /\ text = w ++ b :: after /\ reads ts after rest.
Proof. intros Ht Hr. apply reads_cons_inv in Hr as (w & after & Hw & _ & _ & -> & Hr). rewrite Ht. eauto. Qed.

Lemma reads_str_inv s ts text rest : reads (Str s :: ts) text rest ->
  exists w after, blank w = true /\ printable s = true /\ text = w ++ 34 :: s ++ 34 :: after /\ reads ts after rest.
Proof.
  intros Hr. apply reads_cons_inv in Hr as (w & after & Hw & Ho & _ & -> & Hr). exists w, after.
  split_and!; try done. cbn [tok_text]. by rewrite <- app_comm_cons, <- app_assoc.
Qed.

Lemma reads_shorter ts text rest : reads ts text rest -> blen rest <= blen text.
Proof. intros H%reads_length. lia. Qed.

Lemma members_complete depth ms : ms <> [] -> Forall (fun m => complete_at m.2) ms ->
  forallb (good_member depth) ms = true ->
  forall fuel keys text rest, NoDup (keys ++ map fst ms) -> reads (join (map member_toks ms) ++ [RBrace]) text rest ->
  2 * (blen text - blen rest) <= Z.of_nat fuel -> Cursor.members fuel depth keys text = (Ok tt, rest).
Proof.
  intros Hne Hall. induction Hall as [|[key v] ms Hv Hall IH]; [done|]. clear Hne. intros Hg fuel keys text rest Hnd Hr Hf.
  cbn [forallb] in Hg. apply andb_prop in Hg as [[Hkey Hc]%andb_prop Hg]. cbn [fst snd] in *.
  assert (exists r0, reads (member_toks (key, v)) text r0 /\
    (if decide (ms = []) then reads [RBrace] r0 rest else reads (Comma :: join (map member_toks ms) ++ [RBrace]) r0 rest))
    as (r0 & Hmem & Htail).
  { destruct (decide (ms = [])) as [->|Hne].
    - apply reads_app_inv in Hr as (r0 & ? & ?). by exists r0.
    - cbn [map] in Hr. rewrite join_cons, <- app_assoc in Hr by (by destruct ms). apply reads_app_inv in Hr as (r0 & ? & ?). by exists r0. }
  unfold member_toks in Hmem. cbn [fst snd] in Hmem.
  apply reads_str_inv in Hmem as (w1 & t1 & Hw1 & Hkey' & -> & Hmem).
  apply (reads_punct_inv Colon 58) in Hmem as (w2 & t2 & Hw2 & -> & Hmem); [|done].
  pose proof (reads_shorter _ _ _ Hmem). pose proof (reads_shorter _ _ _ Hr) as Hle.
  assert (blen rest <= blen r0) by (destruct (decide (ms = [])); by eapply reads_shorter).
  assert (blen t2 + 3 <= blen (w1 ++ 34 :: key ++ 34 :: w2 ++ 58 :: t2)).
  { autorewrite with blen. pose proof (blen_nonneg w1). pose proof (blen_nonneg w2). pose proof (blen_nonneg key). lia. }
  destruct fuel as [|fuel]; [lia|]. cbn [Cursor.members].
  rewrite (bind_step _ _ _ _ _ (string_run w1 key _ Hw1 Hkey')).
  rewrite (bind_step _ _ _ _ _ (byte_run 58 w2 t2 Hw2 eq_refl)).
  assert (Hval : Cursor.value fuel depth t2 = (Ok tt, r0)) by (apply Hv; [done|done|lia]).
  rewrite (bind_step _ _ _ _ _ Hval). cbn [map fst] in Hnd.
  destruct (decide (ms = [])) as [->|Hne].
  - apply (reads_punct_inv RBrace 125) in Htail as (w3 & t3 & Hw3 & -> & Htail); [|done]. inversion Htail; subst.
    rewrite (bind_step _ _ _ _ _ (list_end_run 125 w3 rest Hw3 eq_refl ltac:(done))).
    unfold of_result. rewrite (proj2 (reject_duplicate_keys_spec (keys ++ [key]) tt)) by done. done.
  - apply (reads_punct_inv Comma 44) in Htail as (w3 & t3 & Hw3 & -> & Htail); [|done].
    rewrite (bind_step _ _ _ _ _ (list_end_more 125 w3 t3 Hw3)).
    apply IH; try done; [by rewrite <- app_assoc|].
    autorewrite with blen in *. pose proof (blen_nonneg w3). lia.
Qed.

Lemma items_complete depth items : items <> [] -> Forall complete_at items -> forallb (canonical depth) items = true ->
  forall fuel text rest, reads (join (map toks items) ++ [RBracket]) text rest ->
  2 * (blen text - blen rest) <= Z.of_nat fuel -> Cursor.items fuel depth text = (Ok tt, rest).
Proof.
  intros Hne Hall. induction Hall as [|v items Hv Hall IH]; [done|]. clear Hne. intros Hg fuel text rest Hr Hf.
  cbn [forallb] in Hg. apply andb_prop in Hg as [Hc Hg].
  assert (exists r0, reads (toks v) text r0 /\
    (if decide (items = []) then reads [RBracket] r0 rest else reads (Comma :: join (map toks items) ++ [RBracket]) r0 rest))
    as (r0 & Hmem & Htail).
  { destruct (decide (items = [])) as [->|Hne].
    - apply reads_app_inv in Hr as (r0 & ? & ?). by exists r0.
    - cbn [map] in Hr. rewrite join_cons, <- app_assoc in Hr by (by destruct items). apply reads_app_inv in Hr as (r0 & ? & ?). by exists r0. }
  pose proof (reads_shorter _ _ _ Hmem).
  assert (blen rest + 1 <= blen r0).
  { destruct (decide (items = [])); apply reads_length in Htail; cbn in Htail; lia. }
  destruct fuel as [|fuel]; [lia|]. cbn [Cursor.items].
  assert (Hval : Cursor.value fuel depth text = (Ok tt, r0)) by (apply Hv; [done|done|lia]).
  rewrite (bind_step _ _ _ _ _ Hval).
  destruct (decide (items = [])) as [->|Hne].
  - apply (reads_punct_inv RBracket 93) in Htail as (w3 & t3 & Hw3 & -> & Htail); [|done]. inversion Htail; subst.
    by rewrite (bind_step _ _ _ _ _ (list_end_run 93 w3 rest Hw3 eq_refl ltac:(done))).
  - apply (reads_punct_inv Comma 44) in Htail as (w3 & t3 & Hw3 & -> & Htail); [|done].
    rewrite (bind_step _ _ _ _ _ (list_end_more 93 w3 t3 Hw3)).
    apply IH; try done. autorewrite with blen in *. pose proof (blen_nonneg w3). lia.
Qed.

(** Opening a container that reads on. *)
Lemma open_run {A} depth c close (k : bool -> Z -> Comp (list Z) JsonSyntaxError A) w1 w2 t after (empty : bool) :
  (depth <? MAX_JSON_NESTING) = true -> blank w1 = true -> blank w2 = true -> is_ws c = false -> is_ws close = false ->
  t = (if empty then close :: after else after) -> (empty = false -> match after with x :: _ => is_ws x = false /\ x <> close | [] => True end) ->
  (let* d := of_result (Cursor.nested depth) in
   let* _ := Cursor.byte c in
   let* _ := Cursor.ws in
   let* empty := Cursor.consume_if close in k empty d) (w1 ++ c :: w2 ++ t) = k empty (depth + 1) after.
Proof.
  intros Hd Hw1 Hw2 Hc Hclose -> Hafter.
  assert (Hn : of_result (E:=JsonSyntaxError) (Cursor.nested depth) (w1 ++ c :: w2 ++ (if empty then close :: after else after))
    = (Ok (depth + 1), w1 ++ c :: w2 ++ (if empty then close :: after else after))).
  { unfold of_result, Cursor.nested. by rewrite Hd. }
  rewrite (bind_step _ _ _ _ _ Hn), (bind_step _ _ _ _ _ (byte_run c w1 _ Hw1 Hc)).
  assert (Hws : Cursor.ws (w2 ++ (if empty then close :: after else after)) = (Ok tt, if empty then close :: after else after)).
  { apply ws_run; [done|]. destruct empty; [done|]. specialize (Hafter eq_refl). destruct after; [done|]. tauto. }
  rewrite (bind_step _ _ _ _ _ Hws). destruct empty.
  - by rewrite (bind_step _ _ _ _ _ (consume_run close after)).
  - erewrite bind_step; [reflexivity|]. apply consume_other. specialize (Hafter eq_refl). destruct after; [done|]. tauto.
Qed.

(** The first token of a list of members or elements is not the closing one. *)
Lemma reads_split_blank t ts text rest : reads (t :: ts) text rest -> exists w after,
  text = w ++ after /\ blank w = true /\ reads (t :: ts) after rest /\
  exists x after', after = x :: after' /\ is_ws x = false /\ head (tok_text t) = Some x.
Proof.
  intros H. apply reads_cons_inv in H as (w & after & Hw & Ho & Hs & -> & Hr). exists w, (tok_text t ++ after).
  split_and!; try done; [by apply (reads_cons [])|]. pose proof (tok_text_head t after Ho) as Hh.
  pose proof (tok_text_pos t Ho) as Hp. destruct (tok_text t) as [|x l]; [by destruct Hp|]. by exists x, (l ++ after).
Qed.

Lemma value_complete v : complete_at v.
Proof.
  induction v as [| | | |items IH|ms IH] using tree_ind; intros fuel depth text rest Hc Hr Hf;
    (destruct fuel as [|fuel]; [apply reads_length in Hr; destruct_or?; cbn [toks length] in Hr; lia|]);
    cbn [Cursor.value toks canonical] in *.
  - apply reads_one_inv in Hr as (w & Hw & Ho & Hs & ->). erewrite bind_step; [|by apply ws_run]. apply literal_run.
  - apply reads_one_inv in Hr as (w & Hw & Ho & Hs & ->). erewrite bind_step; [|apply ws_run; [done|by destruct b]].
    destruct b; apply literal_run.
  - apply reads_one_inv in Hr as (w & Hw & Ho & Hs & ->). destruct (canonical_number_spec _ Hc) as (_ & c & d' & -> & Hd & _).
    erewrite bind_step; [|apply ws_run; [done|]; cbn [tok_text app]; unfold is_ascii_digit in Hd; unfold is_ws; lia]. cbn [tok_text app head].
    assert (48 <= c <= 57) by (unfold is_ascii_digit in Hd; lia). clear Hd. unfold is_ascii_digit. decide_tests.
    by apply (number_run (c :: d')).
  - apply reads_str_inv in Hr as (w & after & Hw & Ho & -> & Hr). inversion Hr; subst.
    erewrite bind_step; [|by apply ws_run]. cbn [head Z.eqb Pos.eqb].
    by rewrite (bind_step _ _ _ _ _ (string_run [] _ rest eq_refl Ho)).
  - apply andb_prop in Hc as [Hd Hc]. apply (reads_punct_inv LBracket 91) in Hr as (w & t & Hw & -> & Hr); [|done].
    erewrite bind_step; [|by apply ws_run]. cbn [head Z.eqb Pos.eqb].
    destruct items as [|v items].
    + apply (reads_punct_inv RBracket 93) in Hr as (w2 & t2 & Hw2 & -> & Hr); [|done]. inversion Hr; subst.
      by apply (open_run depth 91 93 (fun empty d => if empty then ret tt else Cursor.items fuel d) [] w2 (93 :: rest) rest true).
    + pose proof Hr as Hr0. destruct (join (map toks (v :: items)) ++ [RBracket]) as [|t0 ts] eqn:Ht; [by destruct (join (map toks (v :: items)))|].
      apply reads_split_blank in Hr as (w2 & after & -> & Hw2 & Hr & x & after' & -> & Hx & Hh).
      etransitivity; [apply (open_run depth 91 93 (fun empty d => if empty then ret tt else Cursor.items fuel d) [] w2 (x :: after') (x :: after') false); try done|].
      * intros _. split; [done|]. intros ->. assert (t0 = RBracket) as ->.
        { apply reads_cons_inv in Hr0 as (? & ? & _ & Ho & _). destruct t0 as [| | | | | | |d| | | |]; try done. destruct d as [|y d]; [done|]. cbn in Hh. injection Hh as ->. done. }
        destruct v; cbn [map] in Ht; (destruct items; cbn [join map toks app] in Ht; try discriminate Ht).
        all: destruct b; discriminate Ht.
      * apply (items_complete (depth + 1) (v :: items)); try done; [by rewrite Ht|].
        autorewrite with blen in *. pose proof (blen_nonneg w). pose proof (blen_nonneg w2). lia.
  - apply andb_prop in Hc as [[Hd Hnd]%andb_prop Hc]. apply bool_decide_eq_true in Hnd.
    apply (reads_punct_inv LBrace 123) in Hr as (w & t & Hw & -> & Hr); [|done].
    erewrite bind_step; [|by apply ws_run]. cbn [head Z.eqb Pos.eqb].
    destruct ms as [|m ms].
    + apply (reads_punct_inv RBrace 125) in Hr as (w2 & t2 & Hw2 & -> & Hr); [|done]. inversion Hr; subst.
      by apply (open_run depth 123 125 (fun empty d => if empty then ret tt else Cursor.members fuel d []) [] w2 (125 :: rest) rest true).
    + pose proof Hr as Hr0. change (map (fun m => _) (m :: ms)) with (map member_toks (m :: ms)) in *.
      assert (exists ts, join (map member_toks (m :: ms)) ++ [RBrace] = Str m.1 :: ts) as [ts Ht]
        by (destruct ms; cbn [map join member_toks app]; eauto).
      rewrite Ht in Hr. apply reads_split_blank in Hr as (w2 & after & -> & Hw2 & Hr & x & after' & -> & Hx & Hh).
      etransitivity; [apply (open_run depth 123 125 (fun empty d => if empty then ret tt else Cursor.members fuel d []) [] w2 (x :: after') (x :: after') false); try done|].
      * intros _. split; [done|]. cbn in Hh. injection Hh as <-. done.
      * apply (members_complete (depth + 1) (m :: ms)); try done; [by rewrite Ht|].
        autorewrite with blen in *. pose proof (blen_nonneg w). pose proof (blen_nonneg w2). lia.
Qed.

Lemma validate_language_of_json text :
  validate_canonical_json text = Ok tt <-> exists v, canonical 0 v = true /\ document_text v text.
Proof.
  unfold validate_canonical_json. split.
  - set (m := bind _ _). destruct (m text) as [r rest] eqn:Hm. cbn [fst]. intros ->. subst m.
    apply bind_Ok_inv in Hm as ([] & t1 & Hv & Hm). apply bind_Ok_inv in Hm as (u & t2 & Hws & Hm).
    case_bool_decide as He; [|done]. subst t2. apply ws_inv in Hws as (w & -> & Hw). rewrite app_nil_r in Hv.
    apply cursor_sound in Hv as (v & Hc & Hr). exists v. split; [done|]. by exists w.
  - intros (v & Hc & rest & Hr & Hb).
    assert (Hv : Cursor.value (S (2 * length text)) 0 text = (Ok tt, rest)).
    { apply (value_complete v); try done. unfold blen. lia. }
    rewrite (bind_step _ _ _ _ _ Hv).
    assert (Hws : Cursor.ws rest = (Ok tt, [])) by (rewrite <- (app_nil_r rest) at 1; by apply ws_run).
    by rewrite (bind_step _ _ _ _ _ Hws).
Qed.

(** * The tokenizer *)

Section tokens.
Variable data : list Z.

(** The rest of the text at a position. *)
Definition at_text (p : Z) (text : list Z) : Prop := exists pre, data = pre ++ text /\ blen pre = p.

Lemma at_text_start : at_text 0 data.
Proof. by exists []. Qed.

Lemma at_text_app p a b : at_text p (a ++ b) -> at_text (p + blen a) b.
Proof. intros (pre & He & Hp). exists (pre ++ a). rewrite <- app_assoc. split; [done|]. rewrite blen_app. lia. Qed.

Lemma at_text_unique p a b : at_text p a -> at_text p b -> a = b.
Proof.
  intros (pa & Ha & Hpa) (pb & Hb & Hpb). rewrite Ha in Hb. apply app_inj_1 in Hb as [_ ?]; [done|]. unfold blen in *. lia.
Qed.

Lemma at_text_suffix p text : at_text p text -> suffix data p = text.
Proof. intros (pre & -> & Hp). by apply suffix_app. Qed.

Lemma at_text_get p c text : at_text p (c :: text) -> get_at data p = Some c.
Proof. intros (pre & -> & <-). by eapply get_at_split. Qed.

Lemma at_text_end p : at_text p [] -> get_at data p = None.
Proof.
  intros (pre & -> & <-). rewrite app_nil_r. unfold get_at. pose proof (blen_nonneg pre). decide_tests.
  apply lookup_ge_None. unfold blen. lia.
Qed.

Lemma at_text_slice p a b : at_text p (a ++ b) -> slice data p (p + blen a) = Some a.
Proof. intros (pre & -> & <-). by eapply slice_app. Qed.

Lemma skip_ws_run p w text : at_text p (w ++ text) -> blank w = true ->
  match text with c :: _ => is_ws c = false | [] => True end -> skip_ws data p = p + blen w.
Proof. intros Hp Hw Ht. unfold skip_ws. rewrite (at_text_suffix _ _ Hp), prefix_count_app by done. done. Qed.

Lemma read_string_run p s b : at_text p (34 :: s ++ 34 :: b) -> printable s = true ->
  read_string data p = (Ok (Str s), p + blen (tok_text (Str s))).
Proof.
  intros Hp Hs. pose proof (at_text_app p [34] _ Hp) as Hp1. cbn in Hp1. change (blen [34]) with 1 in Hp1.
  unfold read_string. rewrite (at_text_suffix _ _ Hp1).
  rewrite position_app; [| |done].
  2:{ rewrite (forallb_ext' _ plain_char); [done|]. intros c. unfold plain_char. lia. }
  pose proof (at_text_app _ s _ Hp1) as Hp2. rewrite (at_text_get _ _ _ Hp2), bool_decide_eq_true_2 by done.
  rewrite (at_text_slice _ _ _ Hp1). cbn [default tok_text]. f_equal. rewrite blen_cons, blen_app. change (blen [34]) with 1. lia.
Qed.

Lemma read_number_run p d b : at_text p (d ++ b) -> canonical_number d = true -> separates (Num d) b = true ->
  read_number data p = (Ok (Num d), p + blen d).
Proof.
  intros Hp Hd Hs. pose proof (at_text_slice _ _ _ Hp) as Hsl. pose proof (at_text_app _ _ _ Hp) as Hpe.
  destruct (canonical_number_spec d Hd) as (Hall & c & d' & -> & Hc & Hz).
  assert (Hb : match b with x :: _ => is_ascii_digit x = false | [] => True end).
  { destruct b as [|x b]; [done|]. cbn in Hs. by apply ends_number_spec in Hs as [? _]. }
  unfold read_number. cbn [app] in Hp. rewrite (at_text_get _ _ _ Hp). case_bool_decide as H0.
  - injection H0 as ->. rewrite (Hz eq_refl) in *. change (blen [48]) with 1 in *. unfold digit_at.
    destruct b as [|x b]; [rewrite (at_text_end _ Hpe)|rewrite (at_text_get _ _ _ Hpe), Hb]; by rewrite Hsl.
  - pose proof (at_text_app p [c] _ Hp) as Hp1. change (blen [c]) with 1 in Hp1. rewrite (at_text_suffix _ _ Hp1).
    cbn [forallb] in Hall. apply andb_prop in Hall as [_ Hall]. rewrite prefix_count_app by done.
    replace (p + 1 + blen d') with (p + blen (c :: d')) by (rewrite blen_cons; lia). rewrite Hsl. cbn [default].
    destruct b as [|x b]; [by rewrite (at_text_end _ Hpe)|]. rewrite (at_text_get _ _ _ Hpe).
    cbn in Hs. apply ends_number_spec in Hs as [_ Hx]. apply orb_false_iff in Hx as [Hx _]. apply orb_false_iff in Hx as [Hx _].
    by rewrite Hx.
Qed.

Lemma read_keyword_run p l t b : at_text p (l ++ b) -> read_keyword data l t p = (Ok t, p + blen l).
Proof.
  intros Hp. unfold read_keyword. rewrite (at_text_slice _ _ _ Hp), bool_decide_eq_true_2 by done. cbn [negb].
  destruct Hp as (pre & -> & <-). rewrite !blen_app. pose proof (blen_nonneg b). by decide_tests.
Qed.

(** The tokenizer reads the next token of a text. *)
Lemma next_token_run p w t after : at_text p (w ++ tok_text t ++ after) -> blank w = true -> tok_ok t = true ->
  separates t after = true -> exists p', next_token data p = (Ok t, p') /\ at_text p' after /\ p' = p + blen w + blen (tok_text t).
Proof.
  intros Hp Hw Ht Hs. exists (p + blen w + blen (tok_text t)).
  pose proof (at_text_app _ _ _ Hp) as Hp1. pose proof (at_text_app _ _ _ Hp1) as Hp2. split; [|done].
  pose proof (tok_text_head t after Ht) as Hh. unfold next_token. cbv zeta.
  rewrite (skip_ws_run p w (tok_text t ++ after)) by (done || by destruct (tok_text t ++ after)).
  destruct t as [| | | | | |s|d| | | |]; cbn [tok_text] in *.
  1-6: by rewrite (at_text_get _ _ _ Hp1).
  - cbn [app] in Hp1. rewrite <- app_assoc in Hp1. rewrite (at_text_get _ _ _ Hp1). by eapply read_string_run.
  - destruct (canonical_number_spec d Ht) as (_ & c & d' & -> & Hd & _). cbn [app] in Hp1.
    rewrite (at_text_get _ _ _ Hp1). rewrite <- (read_number_run _ (c :: d') after Hp1 Ht Hs).
    assert (48 <= c <= 57) by (unfold is_ascii_digit in Hd; lia). rewrite Hd. unfold punctuation. by decide_tests.
  - rewrite (at_text_get _ _ _ Hp1). by eapply (read_keyword_run _ (str "true")).
  - rewrite (at_text_get _ _ _ Hp1). by eapply (read_keyword_run _ (str "false")).
  - rewrite (at_text_get _ _ _ Hp1). by eapply (read_keyword_run _ (str "null")).
  - done.
Qed.

Lemma next_token_reads p t ts text rest : at_text p text -> reads (t :: ts) text rest ->
  exists p' after, next_token data p = (Ok t, p') /\ at_text p' after /\ reads ts after rest /\ p < p'.
Proof.
  intros Hp Hr. apply reads_cons_inv in Hr as (w & after & Hw & Ht & Hs & -> & Hr).
  destruct (next_token_run p w t after Hp Hw Ht Hs) as (p' & Hn & Ha & ->). exists (p + blen w + blen (tok_text t)), after.
  split_and!; try done. pose proof (tok_text_pos t Ht). pose proof (blen_nonneg w). lia.
Qed.

Lemma next_token_eof p w : at_text p w -> blank w = true -> exists p', next_token data p = (Ok Eof, p').
Proof.
  intros Hp Hw. exists (p + blen w). unfold next_token. cbv zeta.
  rewrite <- (app_nil_r w) in Hp. rewrite (skip_ws_run p w []) by done.
  by rewrite (at_text_end _ (at_text_app _ _ _ Hp)).
Qed.

End tokens.
