(* ===== verification/PsktMeaning.v ===== *)
(** * PSKT documents: the meaning of a tree

    What a document says, read off its JSON tree: the specification the
    streaming parser implements. It knows no positions, tokens or stacks: an
    object is its members in order, and the fields the model does not hold are
    kept as members under their scope. *)

From S2P Require Import Prelude Bytes TxModel PsktSyntax PsktParser PsktGrammar.
Import Hex.

(** ** Values *)

Definition ok_option {A E} (r : result A E) : option A := match r with Ok a => Some a | Err _ => None end.
Definition guard_ (b : bool) : option unit := if b then Some tt else None.

Definition u64_of (v : Tree) : option Z :=
  match v with
  | JNum d => ok_option (parse_json_number_u64 d)
  | JStr s => ok_option (parse_u64_num s)
  | _ => None
  end.
Definition bool_of (v : Tree) : option bool := match v with JBool b => Some b | _ => None end.
Definition str_of (v : Tree) : option (list Z) := match v with JStr s => Some s | _ => None end.

(** A hexadecimal text decoded over a buffer. *)
Definition over (s buffer : list Z) : option (list Z) :=
  match hex_decode_strict s buffer with (Ok _, b) => Some b | (Err _, _) => None end.
(** A hexadecimal text of [n] bytes. *)
Definition unhex (n : Z) (s : list Z) : option (list Z) :=
  if blen s =? 2 * n then over s (zeros n) else None.

(** Every number of a tree fits in 64 bits. *)
Fixpoint fits (v : Tree) : bool :=
  match v with
  | JNum d => is_ok (parse_u64_num d)
  | JArr items => forallb fits items
  | JObj ms => forallb (fun m => fits m.2) ms
  | _ => true
  end.

(** ** Preserved fields *)

Record Kept := { caps : list (PsktUnknownScope * (list Z * Tree)); marks : Z }.
Definition nothing_kept : Kept := {| caps := []; marks := 0 |}.

Definition keep (scope : PsktUnknownScope) (key : list Z) (v : Tree) (kp : Kept) : option Kept :=
  if MAX_PSKT_UNKNOWN_REGIONS <=? blen (caps kp) then None
  else Some {| caps := caps kp ++ [(scope, (key, v))]; marks := marks kp |}.

Section fields.
Context {X : Type}.
Implicit Types (kp : Kept) (x : X).

(** A field that is kept whatever it holds. *)
Definition keep_any (scope : PsktUnknownScope) kp x (key : list Z) (v : Tree) : option (Kept * X) :=
  if fits v then kp ← keep scope key v kp; Some (kp, x) else None.

(** An object that is kept unless it is empty. *)
Definition keep_object (scope : PsktUnknownScope) kp x (key : list Z) (v : Tree) : option (Kept * X) :=
  match v with
  | JObj [] => Some (kp, x)
  | JObj _ => keep_any scope kp x key v
  | _ => None
  end.

(** A hexadecimal string that is kept, or null. *)
Definition keep_hex (scope : PsktUnknownScope) kp x (key : list Z) (v : Tree) : option (Kept * X) :=
  match v with
  | JNull => Some (kp, x)
  | JStr s => if is_ok (validate_hex_string s) then kp ← keep scope key v kp; Some (kp, x) else None
  | _ => None
  end.

(** A field of the object's scope: one that must not be null is not. *)
Definition is_null (v : Tree) : bool := match v with JNull => true | _ => false end.
Definition admitted (scope : Schema.Scope) (key : list Z) (v : Tree) : bool :=
  negb (bool_decide (is_Some (Schema.field_bit scope key)) && null_forbidden scope key && is_null v).

Variable scope : Schema.Scope.
Variable field : Kept -> X -> list Z -> Tree -> option (Kept * X).

Fixpoint members_meaning kp x (ms : list (list Z * Tree)) : option (Kept * X) :=
  match ms with
  | [] => Some (kp, x)
  | (key, v) :: ms =>
      if admitted scope key v then '(kp, x) ← field kp x key v; members_meaning kp x ms else None
  end.

Definition required_in (keys : list (list Z)) : bool :=
  forallb (fun spec => negb (Schema.required spec) || existsb (list_Z_eqb (Schema.name spec)) keys) (Schema.fields scope).

(** A non-empty object: its members in order, all the required ones there. *)
Definition object_meaning kp x (v : Tree) : option (Kept * X) :=
  match v with
  | JObj ((_ :: _) as ms) =>
      '(kp, x) ← members_meaning kp x ms;
      if required_in (map fst ms) then Some (kp, x) else None
  | _ => None
  end.
End fields.

(** ** The global map *)

Definition with_tx (d : Doc) (t : Transaction) : Doc :=
  {| tx := t; declared_input_count := declared_input_count d; declared_output_count := declared_output_count d |}.

Definition global_meaning (kp : Kept) (d : Doc) (key : list Z) (v : Tree) : option (Kept * Doc) :=
  if list_Z_eqb key (str "version") then
    n ← u64_of v; if n =? Schema.PSKT_VERSION then Some (kp, d) else None
  else if list_Z_eqb key (str "txVersion") then
    n ← u64_of v; if Schema.supported_tx_version_u64 n then Some (kp, with_tx d (put_version (tx d) n)) else None
  else if list_Z_eqb key (str "fallbackLockTime") then
    match v with
    | JNull => Some (kp, d)
    | _ => n ← u64_of v; kp ← keep global key v kp; Some (kp, with_tx d (put_locktime (tx d) n))
    end
  else if list_Z_eqb key (str "inputsModifiable") || list_Z_eqb key (str "outputsModifiable") then
    b ← bool_of v; if (b : bool) then Some (kp, d) else kp ← keep global key v kp; Some (kp, d)
  else if list_Z_eqb key (str "subnetworkId") then
    match v with
    | JNull => Some (kp, with_tx d (put_subnetwork (tx d) SUBNETWORK_ID_NATIVE))
    | JStr s => if blen s =? 40 then b ← over s (subnetwork_id (tx d)); Some (kp, with_tx d (put_subnetwork (tx d) b)) else None
    | _ => None
    end
  else if list_Z_eqb key (str "gas") then
    n ← (match v with JNull => Some 0 | _ => u64_of v end); Some (kp, with_tx d (put_gas (tx d) n))
  else if list_Z_eqb key (str "txPayload") then
    match v with
    | JNull => Some (kp, with_tx d (put_payload [] (tx d)))
    | JStr s =>
        if blen s <=? saturating_mul (max_payload_bytes (limits (tx d))) 2
        then b ← over s (zeros (blen s / 2)); Some (kp, with_tx d (put_payload b (tx d))) else None
    | _ => None
    end
  else if list_Z_eqb key (str "inputCount") then
    n ← u64_of v;
    if n <=? max_inputs (limits (tx d))
    then Some (kp, {| tx := tx d; declared_input_count := Some n; declared_output_count := declared_output_count d |}) else None
  else if list_Z_eqb key (str "outputCount") then
    n ← u64_of v;
    if n <=? MAX_OUTPUTS
    then Some (kp, {| tx := tx d; declared_input_count := declared_input_count d; declared_output_count := Some n |}) else None
  else if list_Z_eqb key (str "xpubs") then keep_object global kp d key v
  else if list_Z_eqb key (str "id") then
    match v with JNull => Some (kp, d) | JStr _ => kp ← keep global key v kp; Some (kp, d) | _ => None end
  else if list_Z_eqb key (str "proprietaries") then keep_object global kp d key v
  else keep_any global kp d key v.

(** ** Scripts, UTXOs and outpoints *)

Definition spk_meaning (s : ScriptPublicKey) (hex : list Z) : option ScriptPublicKey :=
  if blen hex <? 4 then None
  else
    version ← over (take 4 hex) (zeros 2);
    let script_hex := drop 4 hex in
    if MAX_SCRIPT_SIZE <? blen script_hex / 2 then None
    else
      script ← over script_hex (spk_script s);
      Some {| spk_version := default 0 (get_at version 0) * 256 + default 0 (get_at version 1);
              spk_script := script; spk_script_len := blen script_hex / 2 |}.

Definition utxo_meaning (index : Z) (kp : Kept) (i : TransactionInput) (key : list Z) (v : Tree)
  : option (Kept * TransactionInput) :=
  if list_Z_eqb key (str "amount") then n ← u64_of v; Some (kp, put_utxo i (put_amount (utxo_entry i) n))
  else if list_Z_eqb key (str "scriptPublicKey") then
    s ← str_of v; spk ← spk_meaning (script_public_key (utxo_entry i)) s; Some (kp, put_utxo i (put_utxo_spk (utxo_entry i) spk))
  else if list_Z_eqb key (str "blockDaaScore") then n ← u64_of v; Some (kp, put_utxo i (put_daa_score (utxo_entry i) n))
  else if list_Z_eqb key (str "isCoinbase") then
    b ← bool_of v; if (b : bool) then kp ← keep (input_utxo index) key v kp; Some (kp, i) else Some (kp, i)
  else if list_Z_eqb key (str "covenantId") then
    match v with
    | JStr s => if blen s =? 64 then keep_hex (input_utxo index) kp i key v else None
    | JNull => Some (kp, i)
    | _ => None
    end
  else keep_any (input_utxo index) kp i key v.

Definition outpoint_meaning (index : Z) (kp : Kept) (i : TransactionInput) (key : list Z) (v : Tree)
  : option (Kept * TransactionInput) :=
  if list_Z_eqb key (str "transactionId") then
    s ← str_of v;
    if blen s =? 64
    then b ← over s (o_transaction_id (previous_outpoint i)); Some (kp, put_outpoint i (put_txid (previous_outpoint i) b))
    else None
  else if list_Z_eqb key (str "index") then
    n ← u64_of v; if n <=? u32_max then Some (kp, put_outpoint i (put_index (previous_outpoint i) n)) else None
  else keep_any (input_outpoint index) kp i key v.

(** ** Partial signatures and derivations *)

Definition compressed_key (hex : list Z) : option (list Z) :=
  b ← unhex 33 hex;
  if bool_decide (head b = Some 2) || bool_decide (head b = Some 3) then Some b else None.

(** The value of a partial signature. *)
Definition signature_meaning (v : Tree) : option (list Z) :=
  match v with
  | JObj [(kind, JStr hex)] => if list_Z_eqb kind (str "schnorr") then unhex 64 hex else None
  | _ => None
  end.

(** Members that take numbered places. *)
Fixpoint steps {X} (step : Z -> X -> list Z * Tree -> option X) (count : Z) (x : X) (ms : list (list Z * Tree)) : option X :=
  match ms with
  | [] => Some x
  | m :: ms => x ← step count x m; steps step (count + 1) x ms
  end.

Definition partial_sig_meaning (count : Z) (i : TransactionInput) (m : list Z * Tree) : option TransactionInput :=
  if MAX_SIGS_PER_INPUT <=? count then None
  else
    key ← compressed_key m.1;
    signature ← signature_meaning m.2;
    let s := {| ps_pubkey := key; ps_signature := signature; ps_present := true |} in
    Some (put_partial_sigs i (<[Z.to_nat count := s]> (incoming_partial_sigs i))).

(** The path after the first name [derivationPath], if nothing closes the
    member before it. *)
Fixpoint next_string (ts : list Tok) : option (list Z) :=
  match ts with
  | [] | Comma :: _ | RBrace :: _ => None
  | Str s :: _ => Some s
  | _ :: ts => next_string ts
  end.
Fixpoint path_of (ts : list Tok) : option (list Z) :=
  match ts with
  | [] => None
  | Str s :: ts => if list_Z_eqb s (str "derivationPath") then next_string ts else path_of ts
  | _ :: ts => path_of ts
  end.
Definition hint_of (v : Tree) : option Ms45Hint := path_of (toks v) ≫= parse_ms45_path.

Definition first_hint (h : Ms45Hint) (v : Tree) : Ms45Hint :=
  if h_present h then h else default h (hint_of v).

Definition derivation_value (v : Tree) : bool := match v with JNull => true | JObj _ => fits v | _ => false end.

Definition derivation_meaning (count : Z) (i : TransactionInput) (m : list Z * Tree) : option TransactionInput :=
  if MAX_SIGS_PER_INPUT <=? count then None
  else
    _ ← compressed_key m.1;
    if derivation_value m.2 then Some (put_hint i (first_hint (ms45_hint i) m.2)) else None.

(** ** Inputs *)

Definition with_input (d : InputDoc) (i : TransactionInput) : InputDoc :=
  {| the_input := i; redeem := redeem d; redeem_len := redeem_len d |}.

Definition masks_meaning (kp : Kept) (ms : Masks) (key : list Z) (v : Tree) : option (Kept * Masks) :=
  n ← u64_of v;
  if u16_max <? n then None
  else if list_Z_eqb key (str "suppliedMask") then Some (kp, {| mask := n; truth := truth ms |})
  else if list_Z_eqb key (str "suppliedTrueMask") then Some (kp, {| mask := mask ms; truth := n |})
  else None.

(** The value keeps its meaning inside [f] on the part [get]. *)
Definition at_part {X Y} (get : X -> Y) (put : Y -> X) (r : option (Kept * Y)) : option (Kept * X) :=
  '(kp, y) ← r; Some (kp, put y).

Definition input_meaning (index : Z) (kp : Kept) (d : InputDoc) (key : list Z) (v : Tree) : option (Kept * InputDoc) :=
  let i := the_input d in
  if list_Z_eqb key (str "utxoEntry") then
    '(kp, i) ← object_meaning Schema.InputUtxo (utxo_meaning index) kp i v; Some (kp, with_input d i)
  else if list_Z_eqb key (str "previousOutpoint") then
    '(kp, i) ← object_meaning Schema.InputOutpoint (outpoint_meaning index) kp i v; Some (kp, with_input d i)
  else if list_Z_eqb key (str "sequence") then n ← u64_of v; Some (kp, with_input d (put_sequence i n))
  else if list_Z_eqb key (str "minTime") then
    match v with
    | JNull => Some (kp, d)
    | _ => _ ← u64_of v; kp ← keep (input index) key v kp; Some (kp, d)
    end
  else if list_Z_eqb key (str "partialSigs") then
    match v with
    | JObj ms =>
        i ← steps partial_sig_meaning 0 i ms;
        Some (kp, with_input d (put_partial_count i (blen ms)))
    | _ => None
    end
  else if list_Z_eqb key (str "sighashType") then
    n ← u64_of v; if n =? Schema.SIGHASH_ALL then Some (kp, with_input d (put_sighash i Schema.SIGHASH_ALL)) else None
  else if list_Z_eqb key (str "redeemScript") then
    match v with
    | JNull => Some (kp, put_redeem_len d 0)
    | JStr s =>
        if MAX_REDEEM_SIZE <? blen s / 2 then None
        else b ← over s (redeem d); Some (kp, put_redeem_len (put_redeem_buffer b d) (blen s / 2))
    | _ => None
    end
  else if list_Z_eqb key (str "sigOpCount") then
    n ← u64_of v; if MAX_SIGS_PER_INPUT <? n then None else Some (kp, with_input d (put_sig_ops i n))
  else if list_Z_eqb key (str "bip32Derivations") then
    match v with
    | JObj [] => Some (kp, d)
    | JObj ms =>
        i ← steps derivation_meaning 0 i ms;
        kp ← keep (PsktSyntax.input index) key v kp;
        Some (kp, with_input d i)
    | _ => None
    end
  else if list_Z_eqb key (str "finalScriptSig") then keep_hex (input index) kp d key v
  else if list_Z_eqb key (str "proprietaries") then keep_object (input index) kp d key v
  else if list_Z_eqb key (str "covenantExecution") then
    match v with
    | JNull => Some (kp, d)
    | _ =>
        '(kp, ms) ← object_meaning Schema.CovenantExecution masks_meaning kp {| mask := 0; truth := 0 |} v;
        if Z.ldiff (truth ms) (mask ms) =? 0 then Some (kp, with_input d (put_execution i true (mask ms) (truth ms))) else None
    end
  else if list_Z_eqb key (str "minimumSignatures") then
    n ← u64_of v;
    if (n =? 0) || (MAX_SIGS_PER_INPUT <? n) then None else kp ← keep (input index) key v kp; Some (kp, d)
  else keep_any (input index) kp d key v.

Definition fresh_input : InputDoc := {| the_input := empty_input; redeem := zeros MAX_REDEEM_SIZE; redeem_len := 0 |}.

(** The input takes its slot, and its redeem script the slot's or the pool. *)
Definition input_at_meaning (index : Z) (kp : Kept) (t : Transaction) (v : Tree) : option (Kept * Transaction) :=
  match ensure_input_slots (index + 1) t with
  | (Ok _, t) =>
      '(kp, d) ← object_meaning Schema.Input (input_meaning index) kp fresh_input v;
      let t := set_inputs (<[Z.to_nat index := the_input d]> (tx_inputs t)) t in
      match store_redeem index (take (Z.to_nat (redeem_len d)) (redeem d)) t with
      | (Ok _, t) => Some (kp, t)
      | (Err _, _) => None
      end
  | (Err _, _) => None
  end.

Fixpoint items_meaning {X} (item : Z -> Kept -> X -> Tree -> option (Kept * X)) (index : Z) (kp : Kept) (x : X)
    (items : list Tree) : option (Kept * X) :=
  match items with
  | [] => Some (kp, x)
  | v :: items => '(kp, x) ← item index kp x v; items_meaning item (index + 1) kp x items
  end.

Definition inputs_meaning (kp : Kept) (t : Transaction) (v : Tree) : option (Kept * Transaction) :=
  match v with
  | JArr items =>
      '(kp, t) ← items_meaning input_at_meaning 0 kp t items; Some (kp, put_num_inputs t (blen items))
  | _ => None
  end.

(** ** Outputs *)

Definition binding_meaning (kp : Kept) (o : TransactionOutput) (key : list Z) (v : Tree) : option (Kept * TransactionOutput) :=
  if list_Z_eqb key (str "authorizingInput") then
    n ← u64_of v; if u16_max <? n then None else Some (kp, put_covenant_auth o n)
  else if list_Z_eqb key (str "covenantId") then
    s ← str_of v; if blen s =? 64 then b ← over s (covenant_id o); Some (kp, put_covenant_id o b) else None
  else None.

Definition mark (index : Z) (kp : Kept) : Kept :=
  if index <? 16 then {| caps := caps kp; marks := Z.lor (marks kp) (Z.shiftl 1 index) |} else kp.

Definition output_meaning (index : Z) (kp : Kept) (o : TransactionOutput) (key : list Z) (v : Tree)
  : option (Kept * TransactionOutput) :=
  if list_Z_eqb key (str "amount") then n ← u64_of v; Some (kp, put_value o n)
  else if list_Z_eqb key (str "scriptPublicKey") then
    s ← str_of v; spk ← spk_meaning (out_script_public_key o) s; Some (kp, put_out_spk o spk)
  else if list_Z_eqb key (str "covenantBinding") then
    let kp := mark index kp in
    match v with
    | JNull => Some (kp, put_has_covenant o false)
    | _ => '(kp, o) ← object_meaning Schema.CovenantBinding binding_meaning kp o v; Some (kp, put_has_covenant o true)
    end
  else if list_Z_eqb key (str "redeemScript") then keep_hex (output index) kp o key v
  else if list_Z_eqb key (str "bip32Derivations") then
    keep_object (output index) kp
      (match v with JObj (_ :: _) => put_out_hint o (first_hint (out_ms45_hint o) v) | _ => o end) key v
  else if list_Z_eqb key (str "proprietaries") then keep_object (output index) kp o key v
  else keep_any (output index) kp o key v.

Definition output_at_meaning (index : Z) (kp : Kept) (t : Transaction) (v : Tree) : option (Kept * Transaction) :=
  if MAX_OUTPUTS <=? index then None
  else
    '(kp, o) ← object_meaning Schema.Output (output_meaning index) kp empty_output v;
    Some (kp, set_outputs (<[Z.to_nat index := o]> (tx_outputs t)) t).

Definition outputs_meaning (kp : Kept) (t : Transaction) (v : Tree) : option (Kept * Transaction) :=
  match v with
  | JArr items =>
      '(kp, t) ← items_meaning output_at_meaning 0 kp t items; Some (kp, put_num_outputs t (blen items))
  | _ => None
  end.

(** ** The document *)

Definition top_level_meaning (kp : Kept) (d : Doc) (key : list Z) (v : Tree) : option (Kept * Doc) :=
  if list_Z_eqb key (str "global") then object_meaning Schema.Global global_meaning kp d v
  else if list_Z_eqb key (str "inputs") then '(kp, t) ← inputs_meaning kp (tx d) v; Some (kp, with_tx d t)
  else if list_Z_eqb key (str "outputs") then '(kp, t) ← outputs_meaning kp (tx d) v; Some (kp, with_tx d t)
  else keep_any top_level kp d key v.

Definition pskt_meaning (t : Transaction) (v : Tree) : option (Kept * Transaction) :=
  '(kp, d) ← object_meaning Schema.TopLevel top_level_meaning nothing_kept
               {| tx := t; declared_input_count := None; declared_output_count := None |} v;
  if is_ok (validate_top_level_object d) then Some (kp, tx d) else None.

Definition document_meaning (bundle : bool) (t : Transaction) (v : Tree) : option (Kept * Transaction) :=
  if bundle then match v with JArr [v] => pskt_meaning t v | _ => None end else pskt_meaning t v.
