(* ===== verification/PsktTokens.v ===== *)
(** * PSKT documents: tokens under the parser

    The parser's primitives on a text whose tokens are known: single tokens,
    the skipping automaton against the tree it skips, hexadecimal buffers, the
    derivation path found by a byte search, and the record of preserved
    fields. *)

From S2P Require Import Prelude Bytes TxModel PsktSyntax PsktParser PsktGrammar PsktMeaning.
Import Hex.

Section tokens.
Variable data : list Z.
Hypothesis data_u32 : blen data <= u32_max.

Notation stands f text := (at_text data (at_ f) text).

(** A run that succeeds with [P], one that stops with an error of its own, and
    one that does what an option says. *)
Definition yields {X A} (m : Parser X A) (f : Frame X) (P : A -> Frame X -> Prop) : Prop :=
  exists a f', m f = (Ok a, f') /\ P a f'.
Definition refuses {X A} (m : Parser X A) (f : Frame X) : Prop := exists e f', m f = (Err (Fails e), f').
Definition follows {X A B} (m : Parser X A) (f : Frame X) (o : option B) (P : B -> A -> Frame X -> Prop) : Prop :=
  match o with Some b => yields m f (P b) | None => refuses m f end.

Section rules.
Context {X : Type}.
Implicit Types f : Frame X.

Lemma yields_bind {A B} (m : Parser X A) (k : A -> Parser X B) f P Q :
  yields m f P -> (forall a f', P a f' -> yields (k a) f' Q) -> yields (bind m k) f Q.
Proof. intros (a & f1 & Hm & HP) Hk. destruct (Hk a f1 HP) as (b & f2 & Hr & HQ). exists b, f2. by rewrite (bind_step _ _ _ _ _ Hm). Qed.

Lemma refuses_first {A B} (m : Parser X A) (k : A -> Parser X B) f : refuses m f -> refuses (bind m k) f.
Proof. intros (e & f1 & Hm). exists e, f1. by rewrite (bind_fail _ _ _ _ _ Hm). Qed.

Lemma refuses_then {A B} (m : Parser X A) (k : A -> Parser X B) f P :
  yields m f P -> (forall a f', P a f' -> refuses (k a) f') -> refuses (bind m k) f.
Proof. intros (a & f1 & Hm & HP) Hk. destruct (Hk a f1 HP) as (e & f2 & Hr). exists e, f2. by rewrite (bind_step _ _ _ _ _ Hm). Qed.

Lemma yields_ret {A} (a : A) f (P : A -> Frame X -> Prop) : P a f -> yields (ret a) f P.
Proof. intros HP. by exists a, f. Qed.

Lemma refuses_fail {A} e f : refuses (fail e : Parser X A) f.
Proof. by exists e, f. Qed.

Lemma yields_mono {A} (m : Parser X A) f P Q : yields m f P -> (forall a f', P a f' -> Q a f') -> yields m f Q.
Proof. intros (a & f' & Hm & HP) HPQ. exists a, f'. auto. Qed.

Lemma follows_mono {A B} (m : Parser X A) f (o : option B) P Q :
  follows m f o P -> (forall b a f', P b a f' -> Q b a f') -> follows m f o Q.
Proof. destruct o; [|done]. intros H HPQ. eapply yields_mono; [exact H|]. intros. by apply HPQ. Qed.

(** Both first steps succeed, or both fail. *)
Lemma follows_bind {A B C D} (m : Parser X A) (k : A -> Parser X B) f (o : option C) (g : C -> option D) P Q :
  follows m f o P -> (forall c a f', P c a f' -> follows (k a) f' (g c) Q) -> follows (bind m k) f (o ≫= g) Q.
Proof.
  destruct o as [c|]; cbn [follows mbind option_bind]; intros Hm Hk.
  - destruct Hm as (a & f1 & Hm & HP). specialize (Hk c a f1 HP). unfold follows in *. destruct (g c) as [d|].
    + destruct Hk as (b & f2 & Hr & HQ). exists b, f2. by rewrite (bind_step _ _ _ _ _ Hm).
    + destruct Hk as (e & f2 & Hr). exists e, f2. by rewrite (bind_step _ _ _ _ _ Hm).
  - by apply refuses_first.
Qed.

(** A step that succeeds whatever the meaning. *)
Lemma follows_after {A B D} (m : Parser X A) (k : A -> Parser X B) f (o : option D) P Q :
  yields m f P -> (forall a f', P a f' -> follows (k a) f' o Q) -> follows (bind m k) f o Q.
Proof.
  intros (a & f1 & Hm & HP) Hk. specialize (Hk a f1 HP). unfold follows in *. destruct o as [d|].
  - destruct Hk as (b & f2 & Hr & HQ). exists b, f2. by rewrite (bind_step _ _ _ _ _ Hm).
  - destruct Hk as (e & f2 & Hr). exists e, f2. by rewrite (bind_step _ _ _ _ _ Hm).
Qed.

(** ** Single tokens *)

(** The frame moved to a text, the rest of it unchanged. *)
Definition moved (f : Frame X) (after : list Z) (f' : Frame X) : Prop :=
  stands f' after /\ held f' = held f /\ it f' = it f.

Lemma next_yields f t ts text rest : stands f text -> reads (t :: ts) text rest ->
  yields (next data) f (fun a f' => a = t /\ exists after, moved f after f' /\ reads ts after rest).
Proof.
  intros Hf Hr. destruct (next_token_reads data _ _ _ _ _ Hf Hr) as (p & after & Hn & Ha & Hr' & _).
  eexists t, _. unfold next, on_tok. rewrite Hn. split; [reflexivity|]. split; [done|]. by exists after.
Qed.

Lemma peek_yields f t ts text rest : stands f text -> reads (t :: ts) text rest ->
  yields (peek_token data) f (fun a f' => a = t /\ f' = f).
Proof.
  intros Hf Hr. destruct (next_token_reads data _ _ _ _ _ Hf Hr) as (p & after & Hn & _).
  exists t, f. unfold peek_token, on_tok, peek. rewrite Hn. by destruct f.
Qed.

Lemma expect_yields f expected t ts text rest : stands f text -> reads (t :: ts) text rest ->
  same_kind t expected = true -> yields (expect data expected) f (fun _ f' => exists after, moved f after f' /\ reads ts after rest).
Proof.
  intros Hf Hr Hk. eapply yields_bind; [by eapply next_yields|]. intros a f' (-> & H). rewrite Hk. by apply yields_ret.
Qed.

Lemma expect_refuses f expected t ts text rest : stands f text -> reads (t :: ts) text rest ->
  same_kind t expected = false -> refuses (expect data expected) f.
Proof.
  intros Hf Hr Hk. eapply refuses_then; [by eapply next_yields|]. intros a f' (-> & H). rewrite Hk. apply refuses_fail.
Qed.
End rules.

(** ** Trees *)

Definition first_tok (v : Tree) : Tok :=
  match v with
  | JNull => TNull | JBool b => if b then TTrue else TFalse | JNum d => Num d | JStr s => Str s
  | JArr _ => LBracket | JObj _ => LBrace
  end.
Definition more_toks (v : Tree) : list Tok :=
  match v with
  | JArr items => join (map toks items) ++ [RBracket]
  | JObj ms => join (map member_toks ms) ++ [RBrace]
  | _ => []
  end.
Lemma toks_split v : toks v = first_tok v :: more_toks v.
Proof. by destruct v. Qed.

(** The first part of a list, and what follows it. *)
Lemma join_split {A} (part : A -> list Tok) close a l text rest : (forall x, part x <> []) ->
  reads (join (map part (a :: l)) ++ [close]) text rest ->
  exists after, reads (part a) text after /\
    if decide (l = []) then reads [close] after rest else reads (Comma :: join (map part l) ++ [close]) after rest.
Proof.
  intros Hpart Hr. destruct (decide (l = [])) as [->|Hne].
  - by apply reads_app_inv in Hr.
  - cbn [map] in Hr. rewrite join_cons, <- app_assoc in Hr by (by destruct l). by apply reads_app_inv in Hr.
Qed.

Lemma members_toks_first m ms : exists ts, join (map member_toks (m :: ms)) ++ [RBrace] = Str m.1 :: ts.
Proof. destruct ms; cbn [map join member_toks app]; eauto. Qed.

End tokens.

(** ** The skipping automaton

    The stack of container states, the innermost first. *)

Definition cs_value (parent_next : ContainerState) (t : Tok) (l : list ContainerState) : option (list ContainerState) :=
  match t with
  | Num d => if is_ok (parse_u64_num d) then Some (parent_next :: l) else None
  | Str _ | TTrue | TFalse | TNull => Some (parent_next :: l)
  | LBrace => if MAX_JSON_NESTING <=? blen l + 1 then None else Some (ObjectKeyOrEnd :: parent_next :: l)
  | LBracket => if MAX_JSON_NESTING <=? blen l + 1 then None else Some (ArrayValueOrEnd :: parent_next :: l)
  | _ => None
  end.
Definition cs_step (state : ContainerState) (l : list ContainerState) (t : Tok) : option (list ContainerState) :=
  match state with
  | ObjectKeyOrEnd => match t with RBrace => Some l | Str _ => Some (ObjectColon :: l) | _ => None end
  | ObjectKey => match t with Str _ => Some (ObjectColon :: l) | _ => None end
  | ObjectColon => match t with Colon => Some (ObjectValue :: l) | _ => None end
  | ObjectValue => cs_value ObjectCommaOrEnd t l
  | ObjectCommaOrEnd => match t with Comma => Some (ObjectKey :: l) | RBrace => Some l | _ => None end
  | ArrayValueOrEnd => match t with RBracket => Some l | _ => cs_value ArrayCommaOrEnd t l end
  | ArrayValue => cs_value ArrayCommaOrEnd t l
  | ArrayCommaOrEnd => match t with Comma => Some (ArrayValue :: l) | RBracket => Some l | _ => None end
  end.

(** Until the stack or the tokens run out. *)
Fixpoint cs_run (l : list ContainerState) (ts : list Tok) : option (list ContainerState * list Tok) :=
  match l, ts with
  | state :: l, t :: ts => l ← cs_step state l t; cs_run l ts
  | _, _ => Some (l, ts)
  end.

(** The states that wait for a value, and what they become after it. *)
Definition after_value (state : ContainerState) : option ContainerState :=
  match state with
  | ObjectValue => Some ObjectCommaOrEnd
  | ArrayValue | ArrayValueOrEnd => Some ArrayCommaOrEnd
  | _ => None
  end.

Lemma cs_step_value state next l t : after_value state = Some next ->
  match t with RBracket => False | _ => True end -> cs_step state l t = cs_value next t l.
Proof. intros Hs Ht. destruct state; try done; injection Hs as <-; by destruct t. Qed.

Definition skips_at (v : Tree) : Prop := forall depth state next l ts,
  canonical depth v = true -> blen l + 1 <= depth -> after_value state = Some next ->
  cs_run (state :: l) (toks v ++ ts) = if fits v then cs_run (next :: l) ts else None.

Lemma cs_run_cons state l t ts : cs_run (state :: l) (t :: ts) = l' ← cs_step state l t; cs_run l' ts.
Proof. done. Qed.

Lemma skip_members depth ms : Forall (fun m => skips_at m.2) ms -> ms <> [] ->
  forallb (good_member depth) ms = true ->
  forall l ts state, blen l + 1 <= depth -> state = ObjectKeyOrEnd \/ state = ObjectKey ->
  cs_run (state :: l) ((join (map member_toks ms) ++ [RBrace]) ++ ts) =
    if forallb (fun m => fits m.2) ms then cs_run l ts else None.
Proof.
  intros Hall Hne. induction Hall as [|[key v] ms Hv Hall IH]; [done|]. clear Hne. intros Hg l ts state Hl Hstate.
  cbn [forallb] in Hg. apply andb_prop in Hg as [[_ Hc]%andb_prop Hg]. cbn [fst snd forallb] in *.
  assert (Hmem : forall ts', cs_run (state :: l) (member_toks (key, v) ++ ts') =
    if fits v then cs_run (ObjectCommaOrEnd :: l) ts' else None).
  { intros ts'. unfold member_toks. cbn [fst snd app]. rewrite cs_run_cons.
    assert (cs_step state l (Str key) = Some (ObjectColon :: l)) as -> by (by destruct Hstate as [-> | ->]).
    cbn [mbind option_bind cs_run cs_step]. by apply (Hv depth). }
  destruct ms as [|m ms].
  - cbn [map join forallb]. rewrite <- app_assoc, Hmem, andb_true_r. destruct (fits v); [|done].
    by cbn [app cs_run cs_step mbind option_bind].
  - cbn [map]. rewrite join_cons, <- !app_assoc, Hmem by done. destruct (fits v); [|done]. cbn [andb].
    cbn [app]. rewrite cs_run_cons. cbn [cs_step mbind option_bind].
    change (RBrace :: ts) with ([RBrace] ++ ts). rewrite app_assoc. apply IH; auto.
Qed.

Lemma toks_not_bracket v ts : match toks v ++ ts with RBracket :: _ => False | _ => True end.
Proof. destruct v as [|b| | | |]; cbn [toks app]; try done. by destruct b. Qed.

Lemma skip_items depth items : Forall skips_at items -> items <> [] ->
  forallb (canonical depth) items = true ->
  forall l ts state, blen l + 1 <= depth -> state = ArrayValueOrEnd \/ state = ArrayValue ->
  cs_run (state :: l) ((join (map toks items) ++ [RBracket]) ++ ts) =
    if forallb fits items then cs_run l ts else None.
Proof.
  intros Hall Hne. induction Hall as [|v items Hv Hall IH]; [done|]. clear Hne. intros Hg l ts state Hl Hstate.
  cbn [forallb] in Hg. apply andb_prop in Hg as [Hc Hg]. cbn [forallb].
  assert (Hmem : forall ts', cs_run (state :: l) (toks v ++ ts') = if fits v then cs_run (ArrayCommaOrEnd :: l) ts' else None).
  { intros ts'. apply (Hv depth); [done|done|]. by destruct Hstate as [-> | ->]. }
  destruct items as [|i items].
  - cbn [map join forallb]. rewrite <- app_assoc, Hmem, andb_true_r. destruct (fits v); [|done].
    by cbn [app cs_run cs_step mbind option_bind].
  - cbn [map]. rewrite join_cons, <- !app_assoc, Hmem by done. destruct (fits v); [|done]. cbn [andb].
    cbn [app]. rewrite cs_run_cons. cbn [cs_step mbind option_bind].
    change (RBracket :: ts) with ([RBracket] ++ ts). rewrite app_assoc. apply IH; auto.
Qed.

Lemma skip_run v : skips_at v.
Proof.
  induction v as [| | | |items IH|ms IH] using tree_ind; intros depth state next l ts Hc Hl Hs; cbn [toks fits];
    cbn [app]; rewrite cs_run_cons, (cs_step_value state next) by (done || by destruct b).
  - done.
  - by destruct b.
  - cbn [cs_value]. by destruct (is_ok _).
  - done.
  - cbn [canonical] in Hc. apply andb_prop in Hc as [Hd Hc]. cbn [cs_value]. unfold MAX_JSON_NESTING in *. decide_tests.
    cbn [mbind option_bind]. destruct items as [|v items]; [by cbn [map join app cs_run cs_step mbind option_bind forallb]|].
    apply (skip_items (depth + 1)); try done; [rewrite blen_cons; lia|by left].
  - cbn [canonical] in Hc. apply andb_prop in Hc as [[Hd _]%andb_prop Hc]. cbn [cs_value]. unfold MAX_JSON_NESTING in *. decide_tests.
    cbn [mbind option_bind]. destruct ms as [|m ms]; [by cbn [map join app cs_run cs_step mbind option_bind forallb]|].
    apply (skip_members (depth + 1)); try done; [rewrite blen_cons; lia|by left].
Qed.

(** The fixed stack that holds a list of states. *)
Definition stacked (s : Stack) (l : list ContainerState) : Prop :=
  depth s = blen l /\ blen (slots s) = MAX_JSON_NESTING /\ exists junk, slots s = rev l ++ junk.

Lemma stacked_top s state l : stacked s (state :: l) -> get_at (slots s) (depth s - 1) = Some state.
Proof.
  intros (Hd & _ & junk & Hs). eapply (get_at_split _ (rev l) junk).
  - rewrite Hs. cbn [rev]. by rewrite <- app_assoc.
  - rewrite Hd, blen_cons. unfold blen. rewrite length_rev. lia.
Qed.

Lemma insert_middle {A} (l1 l2 : list A) x y n : n = length l1 -> <[n := y]> (l1 ++ x :: l2) = l1 ++ y :: l2.
Proof. intros ->. by rewrite insert_app_r_alt, Nat.sub_diag by lia. Qed.

Lemma stacked_set s state state' l : stacked s (state :: l) -> stacked (set_current_state state' s) (state' :: l).
Proof.
  intros (Hd & Hl & junk & Hs). unfold set_current_state, stacked. cbn [slots depth].
  split; [by rewrite Hd|]. split; [unfold blen in *; by rewrite length_insert|]. exists junk.
  rewrite Hs. cbn [rev]. rewrite <- !app_assoc. cbn [app]. apply insert_middle. rewrite Hd, blen_cons, length_rev. unfold blen. lia.
Qed.

Lemma stacked_close s state l : stacked s (state :: l) -> stacked (close_container s) l.
Proof.
  intros (Hd & Hl & junk & Hs). split; [cbn [close_container depth]; rewrite Hd, blen_cons; lia|]. split; [done|].
  exists (state :: junk). cbn [close_container slots]. rewrite Hs. cbn [rev]. by rewrite <- app_assoc.
Qed.

Lemma stacked_push s state l parent child : stacked s (state :: l) ->
  match push_container parent child s with
  | Ok s' => (MAX_JSON_NESTING <=? blen l + 1) = false /\ stacked s' (child :: parent :: l)
  | Err _ => (MAX_JSON_NESTING <=? blen l + 1) = true
  end.
Proof.
  intros Hst. pose proof (stacked_set s state parent l Hst) as Hset. destruct Hst as (Hd & Hl & junk & Hs).
  unfold push_container. rewrite Hl, Hd, blen_cons. replace (1 + blen l) with (blen l + 1) by lia.
  destruct (Z.leb_spec MAX_JSON_NESTING (blen l + 1)); [done|]. split; [done|].
  destruct Hset as (_ & Hl' & junk' & Hs'). unfold set_current_state in *. cbn [slots depth] in *. rewrite Hd, blen_cons in *.
  replace (1 + blen l - 1) with (blen l + 1 - 1) in * by lia.
  split; [cbn [depth]; rewrite !blen_cons; lia|]. cbn [slots]. split; [unfold blen in *; by rewrite length_insert|].
  rewrite Hs' in Hl' |- *. destruct junk' as [|x junk'].
  - rewrite app_nil_r in Hl'. unfold blen in *. rewrite length_rev in Hl'. cbn [length] in Hl'. unfold MAX_JSON_NESTING in *. lia.
  - exists junk'. cbn [rev]. rewrite insert_middle; [by rewrite <- (app_assoc _ [child])|].
    rewrite length_app, length_rev. unfold blen. cbn [length]. lia.
Qed.

(** One token of the fixed stack and of the list of states. *)
Lemma process_step s state l t : stacked s (state :: l) ->
  match process_container_token state t s, cs_step state l t with
  | Ok s', Some l' => stacked s' l'
  | Err _, None => True
  | _, _ => False
  end.
Proof.
  intros Hst.
  assert (Hval : forall next, match process_nested_value t next s, cs_value next t l with
    | Ok s', Some l' => stacked s' l' | Err _, None => True | _, _ => False end).
  { intros next. destruct t; cbn [process_nested_value cs_value]; try done; try (by eapply stacked_set).
    - pose proof (stacked_push s state l next ObjectKeyOrEnd Hst) as Hp. destruct (push_container _ _ _); [by destruct Hp as [-> ?]|by rewrite Hp].
    - pose proof (stacked_push s state l next ArrayValueOrEnd Hst) as Hp. destruct (push_container _ _ _); [by destruct Hp as [-> ?]|by rewrite Hp].
    - destruct (parse_u64_num _); cbn [rbind is_ok]; [by eapply stacked_set|done]. }
  destruct state; cbn [process_container_token cs_step]; try exact (Hval _).
  all: destruct t; cbn; try done; try (by eapply stacked_set); try (by eapply stacked_close).
  all: apply (Hval ArrayCommaOrEnd).
Qed.

(** ** Skipping on the text *)

Section skipping.
Variable data : list Z.
Notation stands f text := (at_text data (at_ f) text).
Context {X : Type}.
Implicit Types f : Frame X.

Lemma at_text_length p text : at_text data p text -> blen text <= blen data.
Proof. intros (pre & -> & _). rewrite blen_app. pose proof (blen_nonneg pre). lia. Qed.

Lemma tokens_bound ts text rest p : at_text data p text -> reads ts text rest -> (length ts <= length data)%nat.
Proof. intros Hp Hr. pose proof (at_text_length _ _ Hp). apply reads_length in Hr. pose proof (blen_nonneg rest). unfold blen in *. lia. Qed.

Lemma container_loop_run ts : forall fuel s l f text rest,
  stacked s l -> stands f text -> reads ts text rest -> (length ts <= fuel)%nat ->
  match cs_run l ts with
  | None => refuses (container_loop data fuel s) f
  | Some ([], ts') => yields (container_loop data fuel s) f (fun _ f' => exists after, moved data f after f' /\ reads ts' after rest)
  | Some _ => True
  end.
Proof.
  induction ts as [|t ts IH]; intros fuel s l f text rest Hs Hf Hr Hfuel.
  - destruct l as [|state l]; cbn [cs_run]; [|done]. exists tt, f. destruct fuel; cbn [container_loop];
      (destruct Hs as [-> _]; rewrite blen_nil; cbn; split; [done|]; exists text; split; [done|done]).
  - destruct l as [|state l].
    { cbn [cs_run]. exists tt, f. destruct fuel; cbn [container_loop];
        (destruct Hs as [-> _]; rewrite blen_nil; cbn; split; [done|]; exists text; split; [done|done]). }
    destruct fuel as [|fuel]; [cbn in Hfuel; lia|]. cbn [length] in Hfuel.
    rewrite cs_run_cons. pose proof (process_step s state l t Hs) as Hstep. pose proof (stacked_top s state l Hs) as Htop.
    cbn [container_loop]. pose proof (proj1 Hs) as Hd. rewrite (proj2 (Z.leb_gt _ _)) by (rewrite Hd, blen_cons; pose proof (blen_nonneg l); lia).
    assert (Hnext : yields (next_container_token data) f (fun a f' => a = t /\ exists after, moved data f after f' /\ reads ts after rest)).
    { eapply yields_bind; [by eapply next_yields|]. intros a f' (-> & H).
      apply reads_cons_inv in Hr as (_ & _ & _ & Ho & _). destruct t; try done; by apply yields_ret. }
    destruct (process_container_token state t s) as [s'|e] eqn:Hp, (cs_step state l t) as [l'|]; try done; cbn [mbind option_bind].
    + destruct Hnext as (a & f1 & Hm & -> & after & (Hf1 & Hh1 & Hi1) & Hr1).
      specialize (IH fuel s' l' f1 after rest Hstep Hf1 Hr1 ltac:(lia)).
      assert (Hrun : bind (next_container_token data) (fun token => match get_at (slots s) (depth s - 1) with
          | None => throw Panics | Some state => let* s := of_psk (process_container_token state token s) in container_loop data fuel s end) f
        = container_loop data fuel s' f1).
      { rewrite (bind_step _ _ _ _ _ Hm), Htop. unfold of_psk, of_result. rewrite Hp. done. }
      destruct (cs_run l' ts) as [[l1 ts1]|].
      * destruct l1; [|done]. destruct IH as (u & f2 & Hl & after2 & (Hf2 & Hh2 & Hi2) & Hr2).
        exists u, f2. rewrite Hrun. split; [done|]. exists after2. split; [|done]. unfold moved. by rewrite Hh2, Hi2.
      * destruct IH as (e & f2 & Hl). exists e, f2. by rewrite Hrun.
    + eapply refuses_then; [exact Hnext|]. intros a f' (-> & _). rewrite Htop. exists e, f'. unfold of_psk, of_result. by rewrite Hp.
Qed.

Lemma initial_stacked initial : stacked (initial_stack initial) [initial].
Proof. split; [done|]. split; [done|]. by eexists. Qed.

(** The rest of a container, its opening token read. *)
Lemma skip_rest_follows close initial f v text rest depth :
  initial_container_state close = Ok initial -> stands f text -> reads (more_toks v) text rest ->
  canonical depth v = true -> 0 <= depth ->
  match v with JObj _ => initial = ObjectKeyOrEnd | JArr _ => initial = ArrayValueOrEnd | _ => False end ->
  follows (skip_until_matching data close) f (if fits v then Some tt else None) (fun _ _ f' => moved data f rest f').
Proof.
  intros Hi Hf Hr Hc Hd Hv.
  assert (Hrun : cs_run [initial] (more_toks v) = if fits v then Some ([], []) else None).
  { rewrite <- (app_nil_r (more_toks v)). destruct v as [| | | |items|ms]; try done; subst initial; cbn [canonical fits more_toks] in *.
    - apply andb_prop in Hc as [_ Hc]. destruct items as [|i items]; [done|].
      apply (skip_items (depth + 1)); [apply Forall_true, skip_run|done|done|rewrite blen_nil; lia|by left].
    - apply andb_prop in Hc as [_ Hc]. destruct ms as [|m ms]; [done|].
      apply (skip_members (depth + 1)); [apply Forall_true; intros; apply skip_run|done|done|rewrite blen_nil; lia|by left]. }
  pose proof (container_loop_run (more_toks v) (S (length data)) (initial_stack initial) [initial] f text rest
    (initial_stacked initial) Hf Hr ltac:(pose proof (tokens_bound _ _ _ _ Hf Hr); lia)) as Hloop.
  rewrite Hrun in Hloop. unfold skip_until_matching. rewrite Hi.
  assert (Hb : forall f, bind (of_psk (Ok initial)) (fun initial => container_loop data (S (length data)) (initial_stack initial)) f
    = container_loop data (S (length data)) (initial_stack initial) f) by done.
  destruct (fits v); cbn [follows].
  - destruct Hloop as (u & f' & Hm & after & Hmv & Hr'). exists u, f'. rewrite Hb. split; [done|]. by inversion Hr'; subst.
  - destruct Hloop as (e & f' & Hm). exists e, f'. by rewrite Hb.
Qed.

Lemma skip_value_follows f v text rest depth :
  stands f text -> reads (toks v) text rest -> canonical depth v = true -> 0 <= depth ->
  follows (skip_value data) f (if fits v then Some tt else None) (fun _ _ f' => moved data f rest f').
Proof.
  intros Hf Hr Hc Hd. rewrite toks_split in Hr.
  eapply follows_after; [by eapply next_yields|]. intros a f1 (-> & after & (Hf1 & Hh1 & Hi1) & Hr1).
  assert (Hstay : more_toks v = [] -> moved data f rest f1).
  { intros He. rewrite He in Hr1. inversion Hr1; subst. done. }
  destruct v as [|b|d|s|items|ms]; cbn [first_tok fits].
  - apply yields_ret. by apply Hstay.
  - destruct b; apply yields_ret; by apply Hstay.
  - destruct (parse_u64_num d) as [n|e] eqn:Hn; cbn [is_ok follows].
    + exists tt, f1. split; [done|]. by apply Hstay.
    + exists e, f1. done.
  - apply yields_ret. by apply Hstay.
  - eapply follows_mono; [by eapply (skip_rest_follows RBracket ArrayValueOrEnd f1 (JArr items))|].
    intros [] u f' (Hf' & Hh' & Hi'). unfold moved. by rewrite Hh', Hi'.
  - eapply follows_mono; [by eapply (skip_rest_follows RBrace ObjectKeyOrEnd f1 (JObj ms))|].
    intros [] u f' (Hf' & Hh' & Hi'). unfold moved. by rewrite Hh', Hi'.
Qed.

(** ** Scalars *)

Definition read_as {A} (P : Frame X -> Prop) (a : A) (b : A) (f' : Frame X) : Prop := b = a /\ P f'.

Lemma scalar_next f v text rest : stands f text -> reads (toks v) text rest ->
  yields (next data) f (fun a f' => a = first_tok v /\ (more_toks v = [] -> moved data f rest f')).
Proof.
  intros Hf Hr. rewrite toks_split in Hr. eapply yields_mono; [by eapply next_yields|].
  intros a f1 (-> & after & Hm & Hr1). split; [done|]. intros He. rewrite He in Hr1. inversion Hr1; subst. done.
Qed.

Lemma of_psk_follows {A} f (r : result A PskError) (P : A -> A -> Frame X -> Prop) : (forall a, r = Ok a -> P a a f) ->
  follows (of_psk r : Parser X A) f (ok_option r) P.
Proof. intros HP. destruct r as [a|e]; cbn; [exists a, f; auto|by exists e, f]. Qed.

Lemma expect_u64_follows f v text rest : stands f text -> reads (toks v) text rest ->
  follows (expect_u64 data) f (u64_of v) (fun n a f' => a = n /\ moved data f rest f').
Proof.
  intros Hf Hr. eapply follows_after; [by eapply scalar_next|]. intros a f1 (-> & Hm).
  destruct v as [|b|d|s|items|ms]; cbn [first_tok u64_of more_toks] in *; try apply refuses_fail.
  - destruct b; apply refuses_fail.
  - apply of_psk_follows. intros n _. split; [done|]. by apply Hm.
  - apply of_psk_follows. intros n _. split; [done|]. by apply Hm.
Qed.

Lemma expect_bool_follows f v text rest : stands f text -> reads (toks v) text rest ->
  follows (expect_bool data) f (bool_of v) (fun b a f' => a = b /\ moved data f rest f').
Proof.
  intros Hf Hr. eapply follows_after; [by eapply scalar_next|]. intros a f1 (-> & Hm).
  destruct v as [|b|d|s|items|ms]; cbn [first_tok bool_of more_toks] in *; try apply refuses_fail.
  destruct b; apply yields_ret; (split; [done|]; by apply Hm).
Qed.

Lemma expect_string_follows f v text rest : stands f text -> reads (toks v) text rest ->
  follows (expect_string data) f (str_of v) (fun s a f' => a = s /\ moved data f rest f').
Proof.
  intros Hf Hr. eapply follows_after; [by eapply scalar_next|]. intros a f1 (-> & Hm).
  destruct v as [|b|d|s|items|ms]; cbn [first_tok str_of more_toks] in *; try apply refuses_fail.
  - destruct b; apply refuses_fail.
  - apply yields_ret. split; [done|]. by apply Hm.
Qed.

(** A key, its colon read on. *)
Lemma expect_string_yields f s ts text rest : stands f text -> reads (Str s :: ts) text rest ->
  yields (expect_string data) f (fun a f' => a = s /\ exists after, moved data f after f' /\ reads ts after rest).
Proof.
  intros Hf Hr. eapply yields_bind; [by eapply next_yields|]. intros a f' (-> & H). by apply yields_ret.
Qed.

Lemma separator_yields f (more : bool) ts text rest : stands f text -> reads ((if more then Comma else RBrace) :: ts) text rest ->
  yields (consume_object_separator data) f (fun a f' => a = more /\ exists after, moved data f after f' /\ reads ts after rest).
Proof.
  intros Hf Hr. eapply yields_bind; [by eapply next_yields|]. intros a f' (-> & H). destruct more; by apply yields_ret.
Qed.

Lemma array_separator_yields f (more : bool) ts text rest : stands f text -> reads ((if more then Comma else RBracket) :: ts) text rest ->
  yields (consume_array_separator data) f (fun a f' => a = more /\ exists after, moved data f after f' /\ reads ts after rest).
Proof.
  intros Hf Hr. eapply yields_bind; [by eapply next_yields|]. intros a f' (-> & H). destruct more; by apply yields_ret.
Qed.

Lemma moved_trans f a f1 b f2 : moved data f a f1 -> moved data f1 b f2 -> moved data f b f2.
Proof. unfold moved. intros (_ & Hh & Hi) (? & -> & ->). done. Qed.
End skipping.

(** ** The derivation path in the bytes of a value *)

Lemma reads_cut ts text rest : reads ts text rest -> exists region, text = region ++ rest /\ reads ts region [].
Proof.
  induction 1 as [rest|w t ts after rest Hw Ht Hs Hr (region & -> & IH)]; [exists []; split; [done|constructor]|].
  exists (w ++ tok_text t ++ region). rewrite <- !app_assoc. split; [done|]. constructor; try done.
  destruct region as [|c region]; [by destruct t|]. by destruct t.
Qed.

Lemma at_text_position data p q text : at_text data p text -> at_text data q text -> p = q.
Proof.
  intros (pre & Hp & <-) (pre' & Hq & <-). rewrite Hp in Hq. apply (f_equal length) in Hq. rewrite !length_app in Hq.
  unfold blen. lia.
Qed.

Definition no_quote (l : list Z) : bool := forallb (fun c => negb (c =? 34)) l.

Lemma quoted_inj a b x y : no_quote a = true -> no_quote b = true -> a ++ 34 :: x = b ++ 34 :: y -> a = b.
Proof.
  revert b. induction a as [|c a IH]; intros [|d b] Ha Hb He; cbn [app] in He; try done; cbn in Ha, Hb.
  - injection He as <- _. done.
  - injection He as -> _. done.
  - injection He as <- He. f_equal. apply andb_prop in Ha as [_ Ha], Hb as [_ Hb]. by eapply IH.
Qed.

Lemma plain_no_quote s : printable s = true -> no_quote s = true.
Proof.
  unfold printable, no_quote. rewrite !forallb_forall. intros Hs c Hc. specialize (Hs c Hc). unfold plain_char in Hs. lia.
Qed.
Lemma blank_no_quote w : blank w = true -> no_quote w = true.
Proof. unfold blank, no_quote. rewrite !forallb_forall. intros Hs c Hc. specialize (Hs c Hc). unfold is_ws in Hs. lia. Qed.
Lemma number_no_quote d : canonical_number d = true -> no_quote d = true.
Proof.
  intros Hd. apply canonical_number_spec in Hd as [Hd _]. unfold no_quote. rewrite forallb_forall in *.
  intros c Hc. specialize (Hd c Hc). unfold Decimal.is_ascii_digit in Hd. lia.
Qed.
Lemma tok_no_quote t : tok_ok t = true -> match t with Str _ => False | _ => True end -> no_quote (tok_text t) = true.
Proof. destruct t; try done. intros Hd _. by apply number_no_quote. Qed.

Lemma no_quote_app a b : no_quote (a ++ b) = no_quote a && no_quote b.
Proof. apply forallb_app. Qed.

Definition NEEDLE : list Z := [34] ++ str "derivationPath" ++ [34].

Lemma starts_with_app l b : starts_with (l ++ b) l = true.
Proof. unfold starts_with. rewrite take_app_length. by apply list_Z_eqb_eq. Qed.

Lemma starts_with_split data prefix : starts_with data prefix = true -> exists rest, data = prefix ++ rest.
Proof. unfold starts_with. intros H%list_Z_eqb_eq. exists (drop (length prefix) data). rewrite <- (take_drop (length prefix) data) at 1. by rewrite H. Qed.

Lemma find_subslice_skip a b : no_quote a = true ->
  find_subslice (a ++ b) NEEDLE = i ← find_subslice b NEEDLE; Some (blen a + i).
Proof.
  induction a as [|c a IH]; intros Ha; [cbn [app]; rewrite blen_nil; by destruct (find_subslice b NEEDLE)|].
  cbn in Ha. apply andb_prop in Ha as [Hc Ha]. cbn [app find_subslice].
  assert (starts_with (c :: a ++ b) NEEDLE = false) as ->.
  { destruct (starts_with _ _) eqn:Hs; [|done]. apply starts_with_split in Hs as (r & He). injection He as -> _. done. }
  rewrite IH by done. destruct (find_subslice b NEEDLE); cbn; [|done]. rewrite blen_cons. f_equal. lia.
Qed.

(** After a closing quote no name begins. *)
Lemma reads_head_no_d ts after r : reads ts after [] -> after <> 100 :: r.
Proof.
  intros Hr ->. destruct ts as [|t ts]; [by inversion Hr|].
  apply reads_cons_inv in Hr as (w & after & Hw & Ho & _ & He & _). destruct w as [|c w].
  - cbn [app] in He. destruct t as [| | | | | |s|d| | | |]; cbn in He; try discriminate He; [|done].
    destruct (canonical_number_spec d Ho) as (_ & c & d' & -> & Hc & _). injection He as <- _. done.
  - injection He as <- _. done.
Qed.

Lemma find_subslice_string s ts after : printable s = true -> s <> str "derivationPath" -> reads ts after [] ->
  find_subslice (34 :: s ++ 34 :: after) NEEDLE = i ← find_subslice after NEEDLE; Some (blen s + 2 + i).
Proof.
  intros Hs Hne Hr. cbn [find_subslice].
  assert (starts_with (34 :: s ++ 34 :: after) NEEDLE = false) as ->.
  { destruct (starts_with _ _) eqn:Hst; [|done]. apply starts_with_split in Hst as (r & He). destruct Hne.
    apply (quoted_inj s (str "derivationPath") after r); [by apply plain_no_quote|done|].
    unfold NEEDLE in He. rewrite <- app_assoc in He. injection He as He. exact He. }
  rewrite find_subslice_skip by by apply plain_no_quote. cbn [find_subslice].
  assert (starts_with (34 :: after) NEEDLE = false) as ->.
  { destruct (starts_with _ _) eqn:Hst; [|done]. apply starts_with_split in Hst as (r & He). injection He as He.
    by apply (reads_head_no_d _ _ _ Hr) in He. }
  destruct (find_subslice after NEEDLE); cbn; [|done]. f_equal. lia.
Qed.

Lemma find_byte_skip a b : no_quote a = true -> find_byte (a ++ b) 34 = i ← find_byte b 34; Some (blen a + i).
Proof.
  unfold find_byte. induction a as [|c a IH]; intros Ha; [cbn [app]; rewrite blen_nil; by destruct (position _ b)|].
  cbn in Ha. apply andb_prop in Ha as [Hc Ha]. cbn [app position]. destruct (c =? 34); [done|]. rewrite IH by done.
  destruct (position _ b); cbn; [|done]. rewrite blen_cons. f_equal. lia.
Qed.

Lemma find_byte_here b : find_byte (34 :: b) 34 = Some 0.
Proof. done. Qed.

Definition no_delimiter (l : list Z) : bool := forallb (fun c => negb ((c =? 44) || (c =? 125))) l.
Definition quoted_after (tail : list Z) : option (list Z) :=
  quote ← find_byte tail 34;
  match find_delimiter (take (Z.to_nat quote) tail) with
  | Some _ => None
  | None => let value := suffix tail (quote + 1) in end_quote ← find_byte value 34; Some (take (Z.to_nat end_quote) value)
  end.

Lemma find_byte_nonneg l i : find_byte l 34 = Some i -> 0 <= i.
Proof. intros H. apply position_Some in H as (a & x & b & _ & <- & _). apply blen_nonneg. Qed.

Lemma quoted_after_skip a b : no_quote a = true ->
  quoted_after (a ++ b) = if no_delimiter a then quoted_after b else None.
Proof.
  intros Ha. unfold quoted_after. rewrite find_byte_skip by done. destruct (find_byte b 34) as [q|] eqn:Hq; cbn [mbind option_bind];
    [|by destruct (no_delimiter a)].
  pose proof (find_byte_nonneg _ _ Hq). rewrite Z2Nat.inj_add by (apply blen_nonneg || done).
  replace (Z.to_nat (blen a)) with (length a) by (unfold blen; lia). rewrite take_app_add.
  destruct (no_delimiter a) eqn:Hn.
  - replace (blen a + q + 1) with (blen a + (q + 1)) by lia. rewrite suffix_app_le by lia.
    assert (forall l, is_Some (find_delimiter (a ++ l)) <-> is_Some (find_delimiter l)) as Hd.
    { intros l. unfold find_delimiter. clear -Hn. induction a as [|c a IH]; [done|]. cbn in Hn. apply andb_prop in Hn as [Hc Hn].
      cbn [app position]. destruct ((c =? 44) || (c =? 125)); [done|]. rewrite <- (IH Hn). destruct (position _ (a ++ l)); cbn; [|done].
      split; intros; eauto. }
    specialize (Hd (take (Z.to_nat q) b)). destruct (find_delimiter (a ++ _)), (find_delimiter (take _ b)); try done.
    + destruct Hd as [Hd _]. destruct Hd; [eauto|done].
    + destruct Hd as [_ Hd]. destruct Hd; [eauto|done].
  - destruct (find_delimiter (a ++ take (Z.to_nat q) b)) eqn:Hd; [done|]. apply position_None in Hd.
    rewrite forallb_app in Hd. apply andb_prop in Hd as [Hd _]. unfold no_delimiter in Hn. congruence.
Qed.

Lemma blank_no_delimiter w : blank w = true -> no_delimiter w = true.
Proof. unfold blank, no_delimiter. rewrite !forallb_forall. intros Hs c Hc. specialize (Hs c Hc). unfold is_ws in Hs. lia. Qed.

Lemma tok_delimiter t : tok_ok t = true -> match t with Str _ => False | _ => True end ->
  no_delimiter (tok_text t) = match t with Comma | RBrace => false | _ => true end.
Proof.
  destruct t as [| | | | | |s|d| | | |]; try done. intros Hd _. cbn [tok_text]. apply canonical_number_spec in Hd as [Hd _].
  unfold no_delimiter. rewrite forallb_forall in *. intros c Hc. specialize (Hd c Hc). unfold Decimal.is_ascii_digit in Hd. lia.
Qed.

Lemma quoted_after_quote l : quoted_after (34 :: l) = end_quote ← find_byte l 34; Some (take (Z.to_nat end_quote) l).
Proof. done. Qed.

Lemma quoted_after_reads ts tail : reads ts tail [] -> quoted_after tail = next_string ts.
Proof.
  remember [] as rest eqn:Hrest. induction 1 as [rest|w t ts after rest Hw Ht Hs Hr IH]; subst; [done|].
  specialize (IH eq_refl). rewrite quoted_after_skip, (blank_no_delimiter w) by (done || by apply blank_no_quote).
  destruct (match t with Str s => Some s | _ => None end) as [s|] eqn:Hstr.
  - destruct t; try done. injection Hstr as ->. cbn [tok_text next_string]. rewrite <- app_comm_cons, <- app_assoc.
    rewrite quoted_after_quote. rewrite find_byte_skip by (by apply plain_no_quote). cbn [app]. rewrite find_byte_here. cbn [mbind option_bind].
    rewrite Z.add_0_r. replace (Z.to_nat (blen s)) with (length s) by (unfold blen; lia). by rewrite take_app_length.
  - assert (match t with Str _ => False | _ => True end) as Hn by (by destruct t).
    rewrite quoted_after_skip, (tok_delimiter t), IH by (done || by apply tok_no_quote). by destruct t.
Qed.

Lemma find_path_reads ts region : reads ts region [] -> find_derivation_path region = path_of ts.
Proof.
  assert (Hdef : forall region, find_derivation_path region =
    offset ← find_subslice region NEEDLE; quoted_after (suffix region (offset + blen NEEDLE))) by done.
  rewrite Hdef. remember [] as rest eqn:Hrest. induction 1 as [rest|w t ts after rest Hw Ht Hs Hr IH]; subst; [done|].
  specialize (IH eq_refl).
  assert (Hskip : forall a b, 0 <= b -> (i ← find_subslice after NEEDLE; Some (b + i)) = (i ← find_subslice after NEEDLE; Some (b + i)) ->
    blen a = b -> (offset ← (i ← find_subslice after NEEDLE; Some (b + i)); quoted_after (suffix (a ++ after) (offset + blen NEEDLE))) = path_of ts).
  { intros a b Hb _ Hab. rewrite <- IH. destruct (find_subslice after NEEDLE) as [i|] eqn:Hi; cbn [mbind option_bind]; [|done].
    assert (0 <= i).
    { clear -Hi. revert i Hi. induction after as [|c l IHl]; intros i; cbn [find_subslice].
      - destruct (starts_with [] NEEDLE); [intros [= <-]; lia|done].
      - destruct (starts_with _ _); [intros [= <-]; lia|]. destruct (find_subslice l NEEDLE) as [j|]; [|done].
        intros [= <-]. specialize (IHl j eq_refl). lia. }
    subst b. rewrite <- Z.add_assoc, suffix_app_le; [done|]. pose proof (blen_nonneg NEEDLE). lia. }
  destruct (match t with Str s => Some s | _ => None end) as [s|] eqn:Hstr.
  - destruct t; try done. injection Hstr as ->. cbn [tok_text path_of]. rewrite <- app_comm_cons, <- app_assoc. cbn [app].
    rewrite find_subslice_skip by by apply blank_no_quote. destruct (list_Z_eqb s (str "derivationPath")) eqn:He.
    + apply list_Z_eqb_eq in He as ->. change (34 :: str "derivationPath" ++ 34 :: after) with (NEEDLE ++ after).
      assert (find_subslice (NEEDLE ++ after) NEEDLE = Some 0) as -> by (by destruct after). cbn [mbind option_bind].
      rewrite Z.add_0_r, app_assoc, suffix_app by (by rewrite blen_app). by apply quoted_after_reads.
    + assert (s <> str "derivationPath") as Hne by (intros ->; by rewrite (proj2 (list_Z_eqb_eq _ _)) in He).
      rewrite (find_subslice_string s ts) by done.
      transitivity (offset ← (i ← find_subslice after NEEDLE; Some (blen (w ++ 34 :: s ++ [34]) + i));
        quoted_after (suffix ((w ++ 34 :: s ++ [34]) ++ after) (offset + blen NEEDLE))); [|by apply Hskip; [apply blen_nonneg|..]].
      replace ((w ++ 34 :: s ++ [34]) ++ after) with (w ++ 34 :: s ++ 34 :: after) by (rewrite <- !app_assoc; cbn; by rewrite <- app_assoc).
      destruct (find_subslice after NEEDLE) as [i|]; cbn [mbind option_bind]; [|done].
      do 2 f_equal. autorewrite with blen. lia.
  - assert (match t with Str _ => False | _ => True end) as Hn by (by destruct t).
    rewrite app_assoc, find_subslice_skip by (by rewrite no_quote_app, blank_no_quote, tok_no_quote).
    rewrite Hskip by (done || apply blen_nonneg). by destruct t.
Qed.
