(* ===== verification/PsktObjects.v ===== *)
(** * PSKT documents: objects under the parser

    The record of preserved fields as a list of members, and the loops over
    members and elements: a parser that follows the meaning of one member
    follows the meaning of its object. *)

From S2P Require Import Prelude Bytes TxModel PsktSyntax PsktParser PsktGrammar PsktMeaning PsktTokens.
Import Hex.

(** ** Schema bits *)

Definition seen_mask (scope : Schema.Scope) (keys : list (list Z)) : Z :=
  foldl (fun m key => match Schema.field_bit scope key with Some bit => Z.lor m bit | None => m end) 0 keys.

Lemma field_bit_Some scope key bit : Schema.field_bit scope key = Some bit ->
  exists i, 0 <= i /\ bit = Z.shiftl 1 i /\ exists spec, get_at (Schema.fields scope) i = Some spec /\ Schema.name spec = key.
Proof.
  unfold Schema.field_bit. destruct (position _ _) as [i|] eqn:Hp; [|done]. intros [= <-].
  apply position_Some in Hp as (a & spec & b & Ha & <- & Hk & _). exists (blen a). split; [apply blen_nonneg|]. split; [done|].
  exists spec. split; [by eapply get_at_split|by apply list_Z_eqb_eq].
Qed.

Lemma shiftl_testbit i j : 0 <= i -> 0 <= j -> Z.testbit (Z.shiftl 1 i) j = (i =? j).
Proof.
  intros Hi Hj. rewrite Z.shiftl_1_l. destruct (Z.eqb_spec i j) as [->|Hne]; [by rewrite Z.pow2_bits_true|by rewrite Z.pow2_bits_false].
Qed.

Lemma seen_mask_snoc scope keys key : seen_mask scope (keys ++ [key]) =
  match Schema.field_bit scope key with Some bit => Z.lor (seen_mask scope keys) bit | None => seen_mask scope keys end.
Proof. unfold seen_mask. by rewrite foldl_app. Qed.

Lemma seen_mask_bit scope keys i spec : get_at (Schema.fields scope) i = Some spec ->
  Z.testbit (seen_mask scope keys) i = true -> Schema.name spec ∈ keys.
Proof.
  intros Hspec. assert (0 <= i) by (apply get_at_Some in Hspec as (l1 & l2 & _ & <-); apply blen_nonneg).
  induction keys as [|key keys IH] using rev_ind; [by rewrite Z.bits_0|]. rewrite seen_mask_snoc, elem_of_app.
  destruct (Schema.field_bit scope key) as [bit|] eqn:Hb; [|intros; left; auto].
  apply field_bit_Some in Hb as (j & Hj & -> & spec' & Hspec' & Hn). rewrite Z.lor_spec, shiftl_testbit by done.
  intros [Ht|Ht]%orb_prop; [left; auto|]. apply Z.eqb_eq in Ht as ->. rewrite Hspec in Hspec'. injection Hspec' as ->.
  right. apply list_elem_of_singleton. done.
Qed.

Lemma seen_mask_has scope keys i spec : get_at (Schema.fields scope) i = Some spec ->
  Schema.field_bit scope (Schema.name spec) = Some (Z.shiftl 1 i) -> Schema.name spec ∈ keys ->
  Z.testbit (seen_mask scope keys) i = true.
Proof.
  intros Hspec Hbit. assert (0 <= i) by (apply get_at_Some in Hspec as (l1 & l2 & _ & <-); apply blen_nonneg).
  induction keys as [|key keys IH] using rev_ind; [by intros ?%elem_of_nil|]. rewrite seen_mask_snoc, elem_of_app.
  intros [Hin|Hin].
  - destruct (Schema.field_bit scope key); [|auto]. by rewrite Z.lor_spec, IH.
  - apply list_elem_of_singleton in Hin as <-. by rewrite Hbit, Z.lor_spec, shiftl_testbit, Z.eqb_refl, orb_true_r by done.
Qed.

Lemma not_seen scope keys key bit : Schema.field_bit scope key = Some bit -> key ∉ keys ->
  Z.land (seen_mask scope keys) bit = 0.
Proof.
  intros Hb Hk. apply field_bit_Some in Hb as (i & Hi & -> & spec & Hspec & Hn). apply Z.bits_inj'. intros n Hn0.
  rewrite Z.land_spec, shiftl_testbit, Z.bits_0 by done. destruct (Z.eqb_spec i n) as [<-|]; [|by rewrite andb_false_r].
  rewrite andb_true_r. destruct (Z.testbit _ i) eqn:Ht; [|done]. destruct Hk. rewrite <- Hn. by eapply seen_mask_bit.
Qed.

(** The tables, checked row by row: names are distinct, and the required mask
    holds the bits of the required fields. *)
Definition rows_ok (scope : Schema.Scope) : bool :=
  forallb (fun '(i, spec) =>
    bool_decide (Schema.field_bit scope (Schema.name spec) = Some (Z.shiftl 1 (Z.of_nat i)))
    && Bool.eqb (Z.testbit (Schema.required_mask scope) (Z.of_nat i)) (Schema.required spec)) (imap pair (Schema.fields scope))
  && (Schema.required_mask scope <? Z.shiftl 1 (blen (Schema.fields scope))) && (0 <=? Schema.required_mask scope).

Lemma all_rows_ok scope : rows_ok scope = true.
Proof. by destruct scope; vm_compute. Qed.

Lemma row_ok scope i spec : get_at (Schema.fields scope) i = Some spec ->
  Schema.field_bit scope (Schema.name spec) = Some (Z.shiftl 1 i) /\ Z.testbit (Schema.required_mask scope) i = Schema.required spec.
Proof.
  intros Hspec. pose proof (all_rows_ok scope) as Hall. unfold rows_ok in Hall.
  apply andb_prop in Hall as [[Hall _]%andb_prop _]. unfold get_at in Hspec. destruct (Z.leb_spec 0 i); [|done].
  rewrite forallb_forall in Hall. specialize (Hall (Z.to_nat i, spec)).
  assert (Hin : In (Z.to_nat i, spec) (imap pair (Schema.fields scope))).
  { apply list_elem_of_In, list_elem_of_lookup. exists (Z.to_nat i). by rewrite list_lookup_imap, Hspec. }
  specialize (Hall Hin). cbv beta iota in Hall. rewrite Z2Nat.id in Hall by lia. apply andb_prop in Hall as [H1 H2]. split; [by apply bool_decide_eq_true in H1|by apply eqb_prop].
Qed.

Lemma required_mask_rows scope i : 0 <= i -> Z.testbit (Schema.required_mask scope) i = true ->
  exists spec, get_at (Schema.fields scope) i = Some spec /\ Schema.required spec = true.
Proof.
  intros Hi Ht. destruct (get_at (Schema.fields scope) i) as [spec|] eqn:Hspec.
  - exists spec. split; [done|]. apply row_ok in Hspec as [_ <-]. done.
  - exfalso. pose proof (all_rows_ok scope) as Hall. unfold rows_ok in Hall.
    apply andb_prop in Hall as [[_ Hlt]%andb_prop H0]. apply Z.ltb_lt in Hlt. apply Z.leb_le in H0.
    rewrite Z.shiftl_1_l in Hlt. unfold get_at in Hspec. rewrite (proj2 (Z.leb_le 0 i) Hi) in Hspec. apply lookup_ge_None in Hspec.
    assert (Hlog : Z.testbit (Schema.required_mask scope) i = false); [|congruence].
    destruct (Z.eq_dec (Schema.required_mask scope) 0) as [->|]; [apply Z.bits_0|].
    apply Z.bits_above_log2; [done|]. apply Z.log2_lt_pow2; [lia|]. eapply Z.lt_le_trans; [exact Hlt|].
    apply Z.pow_le_mono_r; [lia|]. unfold blen. lia.
Qed.

Lemma required_spec scope keys : Schema.required_fields_present scope (seen_mask scope keys) = required_in scope keys.
Proof.
  unfold Schema.required_fields_present, required_in. apply eq_bool_prop_intro. split; intros H.
  - apply Is_true_true, Z.eqb_eq in H. apply Is_true_true. apply forallb_forall. intros spec Hin%list_elem_of_In.
    destruct (Schema.required spec) eqn:Hr; [|done]. cbn [negb orb]. apply list_elem_of_lookup in Hin as [i Hi].
    assert (Hat : get_at (Schema.fields scope) (Z.of_nat i) = Some spec) by (unfold get_at; by rewrite (proj2 (Z.leb_le _ _)), Nat2Z.id by lia).
    destruct (row_ok _ _ _ Hat) as [_ Hbit]. rewrite Hr in Hbit.
    assert (Ht : Z.testbit (seen_mask scope keys) (Z.of_nat i) = true).
    { rewrite <- H, Z.land_spec in Hbit. by apply andb_prop in Hbit as [? _]. }
    apply existsb_exists. exists (Schema.name spec). split; [|by apply list_Z_eqb_eq].
    apply list_elem_of_In. by eapply seen_mask_bit.
  - apply Is_true_true in H. apply Is_true_true, Z.eqb_eq. apply Z.bits_inj'. intros i Hi. rewrite Z.land_spec.
    destruct (Z.testbit (Schema.required_mask scope) i) eqn:Ht; [|by rewrite andb_false_r]. rewrite andb_true_r.
    destruct (required_mask_rows scope i Hi Ht) as (spec & Hspec & Hr). rewrite forallb_forall in H.
    assert (Hin : In spec (Schema.fields scope)).
    { apply list_elem_of_In. apply get_at_Some in Hspec as (l1 & l2 & -> & _). set_solver. }
    apply H in Hin. rewrite Hr in Hin. cbn [negb orb] in Hin. apply existsb_exists in Hin as (key & Hk & He%list_Z_eqb_eq).
    eapply seen_mask_has; [done|by apply row_ok|]. rewrite He. by apply list_elem_of_In.
Qed.

(** ** Preserved fields *)

Section objects.
Variable data : list Z.
Hypothesis data_u32 : blen data <= u32_max.
Notation stands f text := (at_text data (at_ f) text).

Definition region_of (r : Z * Z) (m : list Z * Tree) : Prop :=
  exists text rest, at_text data r.1 text /\ reads (member_toks m) text rest /\ at_text data r.2 rest.

Definition holds (h : PsktParsed) (kp : Kept) : Prop :=
  unknowns_count h = blen (caps kp) /\ blen (caps kp) <= MAX_PSKT_UNKNOWN_REGIONS /\
  json_start h = 0 /\ json_len h = blen data /\ output_covenant_binding_present h = marks kp /\
  blen (unknowns h) = MAX_PSKT_UNKNOWN_REGIONS /\ blen (unknown_scopes h) = MAX_PSKT_UNKNOWN_REGIONS /\
  take (length (caps kp)) (unknown_scopes h) = map fst (caps kp) /\
  Forall2 region_of (take (length (caps kp)) (unknowns h)) (map snd (caps kp)).

Lemma at_text_bounds p text : at_text data p text -> 0 <= p /\ p + blen text = blen data.
Proof. intros (pre & -> & <-). rewrite blen_app. pose proof (blen_nonneg pre). lia. Qed.

Lemma take_insert_snoc {A} (l : list A) n x : (n < length l)%nat -> take (S n) (<[n := x]> l) = take n l ++ [x].
Proof.
  intros Hn. rewrite (take_S_r _ n x) by (by rewrite list_lookup_insert_eq). f_equal. by rewrite take_insert_ge.
Qed.

Section frames.
Context {X : Type}.
Implicit Types f : Frame X.

Lemma capture_follows f kp scope key v start ktext rest :
  holds (held f) kp -> at_text data start ktext -> reads (member_toks (key, v)) ktext rest -> stands f rest ->
  follows (capture scope start : Parser X unit) f (keep scope key v kp)
    (fun kp' _ f' => stands f' rest /\ holds (held f') kp' /\ it f' = it f).
Proof.
  intros (Hc & Hle & Hs & Hl & Hm & Hlu & Hls & Hsc & Hr) Hstart Hmem Hend.
  pose proof (at_text_bounds _ _ Hstart) as [H0 Hb]. pose proof (at_text_bounds _ _ Hend) as [H0' Hb'].
  pose proof (reads_length _ _ _ Hmem) as Hlen. cbn [member_toks length] in Hlen. pose proof (blen_nonneg rest).
  assert (Hrun : (capture scope start : Parser X unit) f =
    let '(r, h) := capture_unknown scope start (at_ f) (held f) in (r, {| at_ := at_ f; held := h; it := it f |})) by done.
  unfold capture_unknown in Hrun. rewrite Hs, Hl in Hrun. unfold u32_max in *. unfold keep.
  destruct (Z.ltb_spec start 0); [lia|]. destruct (Z.leb_spec (at_ f) start); [lia|].
  destruct (Z.ltb_spec (0 + blen data) (at_ f)); [lia|]. cbn [orb] in Hrun.
  destruct (Z.ltb_spec 4294967295 start); [lia|]. destruct (Z.ltb_spec 4294967295 (at_ f)); [lia|]. cbn [orb] in Hrun.
  rewrite Hc in Hrun. destruct (Z.leb_spec MAX_PSKT_UNKNOWN_REGIONS (blen (caps kp))); cbn [follows]; [by do 2 eexists|].
  do 2 eexists. split; [exact Hrun|]. cbn [at_ held it]. split; [done|]. split; [|done].
  assert (Hn : Z.to_nat (blen (caps kp)) = length (caps kp)) by (unfold blen; lia).
  unfold holds. cbn [unknowns unknown_scopes unknowns_count json_start json_len output_covenant_binding_present caps marks].
  rewrite Hn, blen_app, length_app, Nat.add_1_r, !map_app. change (blen [_]) with 1.
  split_and!; try done; try lia; try (unfold blen in *; by rewrite length_insert).
  - rewrite take_insert_snoc, Hsc by (unfold blen in *; lia). done.
  - rewrite take_insert_snoc by (unfold blen in *; lia). apply Forall2_app; [done|]. constructor; [|constructor]. by exists ktext, rest.
Qed.

(** ** Hexadecimal buffers *)

Lemma hex_over s dst : match hex_decode_strict s dst with
  | (Ok n, b) => over s dst = Some b /\ n = blen s / 2
  | (Err _, _) => over s dst = None
  end.
Proof.
  unfold over. destruct (hex_decode_strict s dst) as [[n|e] b] eqn:Hd; [|done]. split; [done|].
  unfold hex_decode_strict in Hd. destruct (negb _); [done|]. destruct (blen dst <? blen s / 2) eqn:Hl; [done|].
  destruct (decode_lower_hex s dst) as [r b'] eqn:Hx. injection Hd as Hr _.
  unfold decode_lower_hex, decode_hex_with in Hx. destruct (negb _); [by injection Hx as <- _|]. rewrite Hl in Hx.
  destruct (read_pairs _ _ _ _) as [[u|] b'']; injection Hx as <- _; [by injection Hr|done].
Qed.

Lemma decode_into_follows f s get put :
  follows (decode_into s get put : Parser X Z) f (over s (get (it f)))
    (fun b n f' => n = blen s / 2 /\ at_ f' = at_ f /\ held f' = held f /\ it f' = put b (it f)).
Proof.
  pose proof (hex_over s (get (it f))) as H. unfold follows, decode_into, on_it, yields, refuses.
  destruct (hex_decode_strict s (get (it f))) as [[n|e] b].
  - destruct H as [-> ->]. eexists _, _. split; [reflexivity|]. done.
  - rewrite H. eexists _, _. reflexivity.
Qed.
End frames.

(** ** Members *)

(** What a field's parser guarantees when it succeeds: the text after the
    field, the fields kept and the new model, which keeps its invariant. *)
Definition ended {X} (inv : X -> Prop) (rest : list Z) (r : Kept * X) (f' : Frame X) : Prop :=
  stands f' rest /\ holds (held f') r.1 /\ it f' = r.2 /\ inv r.2.

Definition field_follows {X} (inv : X -> Prop) (depth : Z) (parse_field : Z -> list Z -> Parser X unit)
    (field : Kept -> X -> list Z -> Tree -> option (Kept * X)) : Prop :=
  forall f kp start key v ktext text rest,
  inv (it f) -> holds (held f) kp -> stands f text -> reads (toks v) text rest -> canonical depth v = true ->
  at_text data start ktext -> reads (member_toks (key, v)) ktext rest ->
  follows (parse_field start key) f (field kp (it f) key v) (fun r _ f' => ended inv rest r f').

Section members.
Context {X : Type} (inv : X -> Prop) (depth : Z) (scope : Schema.Scope).
Context (parse_field : Z -> list Z -> Parser X unit) (field : Kept -> X -> list Z -> Tree -> option (Kept * X)).
Hypothesis Hfield : field_follows inv depth parse_field field.

Definition members_at (keys : list (list Z)) (x : X) (ms : Members X) : Prop :=
  body ms = x /\ seen ms = seen_mask scope keys.

Lemma same_kind_null v : same_kind (first_tok v) TNull = is_null v.
Proof. by destruct v as [|[]| | | |]. Qed.

Lemma mark_follows (f : Frame (Members X)) keys x key v text rest :
  key ∉ keys -> members_at keys x (it f) -> stands f text -> reads (toks v) text rest ->
  follows (mark_schema_field data scope key) f (guard_ (admitted scope key v))
    (fun _ known f' => known = bool_decide (is_Some (Schema.field_bit scope key)) /\ at_ f' = at_ f /\ held f' = held f /\
                       members_at (keys ++ [key]) x (it f')).
Proof.
  intros Hk [Hx Hseen] Hf Hr. unfold mark_schema_field, admitted. destruct (Schema.field_bit scope key) as [bit|] eqn:Hbit.
  - rewrite bool_decide_eq_true_2 by eauto. cbn [andb].
    assert (Hlook : forall k : Members X -> Parser (Members X) bool, bind look k f = k (it f) f) by done.
    unfold follows, yields, refuses. rewrite !Hlook, Hseen, (not_seen scope keys key bit) by done. cbn [Z.eqb negb].
    set (P := fun _ : bool => _).
    assert (Hpeek : yields (if null_forbidden scope key then (let* token := peek_token data in ret (same_kind token TNull)) else ret false) f
      (fun null f' => null = null_forbidden scope key && is_null v /\ f' = f)).
    { destruct (null_forbidden scope key); [|by apply yields_ret]. eapply yields_bind; [rewrite toks_split in Hr; by eapply peek_yields|].
      intros a f' (-> & ->). rewrite same_kind_null. by apply yields_ret. }
    destruct Hpeek as (null & f1 & Hp & -> & ->). destruct (null_forbidden scope key && is_null v); cbn [guard_ negb].
    + exists UnexpectedToken, f. by rewrite (bind_step _ _ _ _ _ Hp).
    + exists true. eexists. rewrite (bind_step _ _ _ _ _ Hp). split; [reflexivity|]. cbn [at_ held it]. split_and!; try done.
      split; [done|]. cbn [seen]. by rewrite seen_mask_snoc, Hbit, Hseen.
  - rewrite bool_decide_eq_false_2 by (by intros [? ?]). cbn. exists false, f. split_and!; try done. split; [done|]. by rewrite seen_mask_snoc, Hbit.
Qed.

Lemma parse_member_follows (f : Frame (Members X)) kp keys x key v text rest :
  key ∉ keys -> members_at keys x (it f) -> inv x -> holds (held f) kp -> stands f text ->
  reads (member_toks (key, v)) text rest -> canonical depth v = true ->
  follows (parse_member data scope parse_field) f (if admitted scope key v then field kp x key v else None)
    (fun r _ f' => stands f' rest /\ holds (held f') r.1 /\ members_at (keys ++ [key]) r.2 (it f') /\ inv r.2).
Proof.
  intros Hk Hms Hinv Hkp Hf Hr Hc. unfold parse_member.
  pose proof Hr as Hr0. unfold member_toks in Hr0. cbn [fst snd] in Hr0.
  eapply follows_after; [by apply yields_ret with (P := fun a f' => a = at_ f /\ f' = f)|]. intros start f0 (-> & ->).
  eapply follows_after; [by eapply expect_string_yields|]. intros a f1 (-> & t1 & (Hf1 & Hh1 & Hi1) & Hr1).
  eapply follows_after; [by eapply expect_yields|]. intros u f2 (t2 & (Hf2 & Hh2 & Hi2) & Hr2).
  replace (if admitted scope key v then field kp x key v else None) with (guard_ (admitted scope key v) ≫= fun _ => field kp x key v)
    by (by destruct (admitted scope key v)).
  eapply follows_bind; [eapply mark_follows; [done|by rewrite Hi2, Hi1|done|done]|].
  intros _ known f3 (-> & Ha3 & Hh3 & [Hb3 Hs3]).
  assert (Hin : follows (parse_field (at_ f) key) {| at_ := at_ f3; held := held f3; it := body (it f3) |} (field kp x key v)
    (fun r _ f' => ended inv rest r f')).
  { rewrite Hb3. eapply (Hfield {| at_ := at_ f3; held := held f3; it := x |}); cbn [at_ held it]; try done.
    - by rewrite Hh3, Hh2, Hh1.
    - by rewrite Ha3. }
  unfold of_body, zoom, follows, yields, refuses in *. destruct (field kp x key v) as [[kp' x']|].
  - destruct Hin as (u' & f4 & -> & Hf4 & Hh4 & Hi4 & Hinv'). do 2 eexists. split; [reflexivity|].
    cbn [at_ held it] in *. split_and!; try done.
  - destruct Hin as (e & f4 & ->). by do 2 eexists.
Qed.

Lemma member_loop_follows ms : forall fuel (f : Frame (Members X)) kp keys x text rest,
  ms <> [] -> (length ms <= fuel)%nat -> NoDup (keys ++ map fst ms) -> forallb (good_member depth) ms = true ->
  members_at keys x (it f) -> inv x -> holds (held f) kp -> stands f text ->
  reads (join (map member_toks ms) ++ [RBrace]) text rest ->
  follows (member_loop data fuel (parse_member data scope parse_field)) f (members_meaning scope field kp x ms)
    (fun r _ f' => stands f' rest /\ holds (held f') r.1 /\ members_at (keys ++ map fst ms) r.2 (it f') /\ inv r.2).
Proof.
  induction ms as [|[key v] ms IH]; [done|]. intros fuel f kp keys x text rest _ Hfuel Hnd Hg Hms Hinv Hkp Hf Hr.
  destruct fuel as [|fuel]; [cbn in Hfuel; lia|]. cbn [member_loop members_meaning].
  cbn [forallb] in Hg. apply andb_prop in Hg as [[_ Hc]%andb_prop Hg]. cbn [fst snd map] in *.
  assert (Hk : key ∉ keys) by (apply NoDup_app in Hnd as (_ & Hd & _); intros Hin; by apply (Hd _ Hin); left).
  apply join_split in Hr as (r0 & Hmem & Htail); [|done].
  replace (if admitted scope key v then '(kp', x') ← field kp x key v; members_meaning scope field kp' x' ms else None)
    with ((if admitted scope key v then field kp x key v else None) ≫= fun r => members_meaning scope field r.1 r.2 ms)
    by (destruct (admitted scope key v); [|done]; by destruct (field kp x key v) as [[? ?]|]).
  eapply follows_bind; [by eapply parse_member_follows|]. intros [kp' x'] u f1 (Hf1 & Hh1 & Hms1 & Hinv1). cbn [fst snd] in *.
  destruct (decide (ms = [])) as [->|Hne].
  - eapply follows_after; [eapply (separator_yields data f1 false); [done|exact Htail]|].
    intros more f2 (-> & t2 & (Hf2 & Hh2 & Hi2) & Hr2). inversion Hr2; subst. cbn [members_meaning]. apply yields_ret.
    cbn [fst snd map] in *. split_and!; try done; [by rewrite Hh2|]. by rewrite Hi2.
  - eapply follows_after; [eapply (separator_yields data f1 true); [done|exact Htail]|].
    intros more f2 (-> & t2 & (Hf2 & Hh2 & Hi2) & Hr2).
    eapply follows_mono; [eapply (IH fuel f2 kp' (keys ++ [key]) x' t2 rest); try done|].
    + cbn [length] in Hfuel. lia.
    + by rewrite <- app_assoc.
    + by rewrite Hi2.
    + by rewrite Hh2.
    + intros [kp2 x2] u2 f3 H. by rewrite <- app_assoc in H.
Qed.

(** The members of an object, its opening brace read. *)
Lemma object_body_follows (f : Frame X) kp ms text rest :
  ms <> [] -> NoDup (map fst ms) -> forallb (good_member depth) ms = true ->
  inv (it f) -> holds (held f) kp -> stands f text -> reads (join (map member_toks ms) ++ [RBrace]) text rest ->
  follows (parse_object_body data scope (parse_member data scope parse_field)) f (object_meaning scope field kp (it f) (JObj ms))
    (fun r _ f' => ended inv rest r f').
Proof.
  intros Hne Hnd Hg Hinv Hkp Hf Hr.
  pose proof (member_loop_follows ms (S (length data)) {| at_ := at_ f; held := held f; it := {| body := it f; seen := 0 |} |} kp []
    (it f) text rest Hne) as Hloop.
  assert (Hlen : (length ms <= S (length data))%nat).
  { pose proof (tokens_bound _ _ _ _ _ Hf Hr) as Hb. rewrite length_app in Hb.
    assert (length ms <= length (join (map member_toks ms)))%nat; [|lia]. clear. induction ms as [|m ms IH]; [done|].
    destruct ms; [cbn; lia|]. cbn [map] in *. rewrite join_cons, length_app by done. cbn [length] in *. lia. }
  specialize (Hloop Hlen Hnd Hg ltac:(done) Hinv Hkp Hf Hr).
  assert (Hobj : object_meaning scope field kp (it f) (JObj ms) =
    '(kp, x) ← members_meaning scope field kp (it f) ms; if required_in scope (map fst ms) then Some (kp, x) else None) by (by destruct ms).
  rewrite Hobj. unfold parse_object_body, parse_members, zoom, follows, yields, refuses in *. cbn [app] in Hloop.
  destruct (members_meaning scope field kp (it f) ms) as [[kp' x']|]; cbn [mbind option_bind].
  - destruct Hloop as (u & f1 & Hm & Hf1 & Hh1 & [Hb1 Hs1] & Hinv1). cbn [fst snd] in *.
    rewrite (bind_step _ _ _ _ _ Hm). unfold require_schema_fields.
    assert (Hlook : forall k : Members X -> Parser (Members X) unit, bind look k f1 = k (it f1) f1) by done.
    rewrite Hlook, Hs1, required_spec. destruct (required_in scope (map fst ms)).
    + do 2 eexists. split; [reflexivity|]. done.
    + do 2 eexists. reflexivity.
  - destruct Hloop as (e & f1 & Hm). rewrite (bind_fail _ _ _ _ _ Hm). do 2 eexists. reflexivity.
Qed.
End members.

(** An object that starts here, whatever stands here instead. *)
Lemma braced_follows {X} (inv : X -> Prop) depth scope parse_field field (reject : bool) (f : Frame X) kp v text rest :
  field_follows inv (depth + 1) parse_field field ->
  canonical depth v = true -> inv (it f) -> holds (held f) kp -> stands f text -> reads (toks v) text rest ->
  follows (let* _ := expect data LBrace in
           let* _ := if reject then reject_empty_object data else ret tt in
           parse_object_body data scope (parse_member data scope parse_field)) f
    (object_meaning scope field kp (it f) v) (fun r _ f' => ended inv rest r f').
Proof.
  intros Hfield Hc Hinv Hkp Hf Hr. rewrite toks_split in Hr. destruct v as [|b|d|s|items|ms].
  1-5: cbn [object_meaning follows]; apply refuses_first; eapply expect_refuses; [done|exact Hr|by try destruct b].
  eapply follows_after; [by eapply expect_yields|]. intros u f1 (t1 & (Hf1 & Hh1 & Hi1) & Hr1).
  cbn [canonical more_toks] in *. apply andb_prop in Hc as [[_ Hnd]%andb_prop Hg]. apply bool_decide_eq_true in Hnd.
  destruct ms as [|m ms].
  - cbn [map join app object_meaning follows]. cbn [map join app] in Hr1. destruct reject.
    + apply refuses_first. eapply refuses_then; [by eapply peek_yields|]. intros t f2 (-> & ->). apply refuses_fail.
    + eapply refuses_then; [by apply yields_ret with (P := fun _ f' => f' = f1)|]. intros t f2 ->.
      unfold parse_object_body, parse_members, zoom, refuses. cbn [member_loop]. unfold parse_member.
      destruct (next_token_reads data _ _ _ _ _ Hf1 Hr1) as (p & after & Hn & _).
      unfold expect_string, next, on_tok, bind, the_position. cbn [at_ held it fst snd]. rewrite Hn. cbn. by do 2 eexists.
  - destruct (members_toks_first m ms) as [ts Hts].
    eapply follows_after with (P := fun _ f' => f' = f1).
    { destruct reject; [|by apply yields_ret]. unfold reject_empty_object. rewrite Hts in Hr1.
      eapply yields_bind; [by eapply peek_yields|]. intros t f2 (-> & ->). by apply yields_ret. }
    intros u2 f2 ->. rewrite <- Hi1. eapply object_body_follows; try done; [by rewrite Hi1|by rewrite Hh1].
Qed.
End objects.
