(* ===== verification/PsktFields.v ===== *)
(** * PSKT documents: the parsers of fields

    The steps fields share, the fields the model does not hold, and the fields
    of the global map, of scripts, UTXOs and outpoints: every field parser
    follows the meaning of its field. *)

From S2P Require Import Prelude Bytes TxModel PsktSyntax PsktParser PsktGrammar PsktMeaning PsktTokens PsktObjects.
Import Hex.

Lemma over_inv s dst b : over s dst = Some b ->
  exists bytes, s = hex_text bytes /\ bytes_ok bytes /\ b = bytes ++ drop (length bytes) dst /\ blen bytes <= blen dst.
Proof.
  unfold over, hex_decode_strict. destruct (negb _); [done|]. destruct (Z.ltb_spec (blen dst) (blen s / 2)) as [|Hl]; [done|].
  destruct (decode_lower_hex s dst) as [[n|] b'] eqn:Hd; cbn; [|done]. intros [= <-].
  apply decode_lower_hex_canonical in Hd as (bytes & -> & -> & Hok & ->). exists bytes. split_and!; try done.
  unfold blen in *. rewrite length_hex_text, Nat2Z.inj_mul, Z.mul_comm, Z.div_mul in Hl by lia. lia.
Qed.

Lemma over_length s dst b : over s dst = Some b -> blen b = blen dst.
Proof.
  intros (bytes & _ & _ & -> & Hl)%over_inv. unfold blen in *. rewrite length_app, length_drop. lia.
Qed.

(** One goal per name that a field's parser compares its key with. *)
Ltac tests := repeat match goal with
  | |- context [list_Z_eqb ?k ?s] => is_var k; destruct (list_Z_eqb k s) eqn:?; cbn [orb] in *
  end.

Section fields.
Variable data : list Z.
Hypothesis data_u32 : blen data <= u32_max.
Notation stands f text := (at_text data (at_ f) text).
Notation ended := (ended data).
Notation holds := (holds data).
Notation moved := (moved data).

(** ** Steps shared by the fields *)

Section steps.
Context {X : Type} (inv : X -> Prop).
Implicit Types f : Frame X.

(** The frame after the field's text, its model not yet changed. *)
Definition past f kp rest f' : Prop := stands f' rest /\ holds (held f') kp /\ it f' = it f.

Lemma moved_past f kp rest f' : holds (held f) kp -> moved f rest f' -> past f kp rest f'.
Proof. intros Hkp (? & Hh & ?). by split_and!; rewrite ?Hh. Qed.

Lemma past_ended f kp rest f' : inv (it f) -> past f kp rest f' -> ended inv rest (kp, it f) f'.
Proof. intros Hinv (? & ? & Hi). split_and!; cbn [fst snd]; done. Qed.

Lemma ret_ended f kp rest f' : inv (it f) -> past f kp rest f' ->
  follows (ret tt : Parser X unit) f' (Some (kp, it f)) (fun r _ f2 => ended inv rest r f2).
Proof. intros. apply yields_ret. by apply past_ended. Qed.

(** A change of the model, in whatever part of it. *)
Lemma set_ended (m : Parser X unit) (g : X -> X) f kp rest f' : past f kp rest f' -> inv (g (it f)) ->
  (forall f1, m f1 = (Ok tt, {| at_ := at_ f1; held := held f1; it := g (it f1) |})) ->
  follows m f' (Some (kp, g (it f))) (fun r _ f2 => ended inv rest r f2).
Proof.
  intros (Ha & Hh & Hi) Hinv Hm. do 2 eexists. split; [apply Hm|]. cbn [at_ held it fst snd]. rewrite Hi. done.
Qed.

Lemma capture_ended f kp scope start key v ktext rest f' : past f kp rest f' -> inv (it f) ->
  at_text data start ktext -> reads (member_toks (key, v)) ktext rest ->
  follows (capture scope start : Parser X unit) f' (kp ← keep scope key v kp; Some (kp, it f)) (fun r _ f2 => ended inv rest r f2).
Proof.
  intros (Ha & Hh & Hi) Hinv Hs Hr. pose proof (capture_follows data data_u32 f' kp scope key v start ktext rest Hh Hs Hr Ha) as H.
  destruct (keep scope key v kp) as [kp'|]; [|exact H]. eapply yields_mono; [exact H|].
  intros u f2 (Ha2 & Hh2 & Hi2). split_and!; cbn [fst snd]; try done. congruence.
Qed.

(** A step that reads the whole value. *)
Lemma skip_past f kp v text rest depth : holds (held f) kp -> stands f text -> reads (toks v) text rest ->
  canonical depth v = true -> 0 <= depth ->
  follows (skip_value data) f (guard_ (fits v)) (fun _ _ f' => past f kp rest f').
Proof.
  intros Hkp Hf Hr Hc Hd. eapply follows_mono; [by eapply skip_value_follows|]. intros. by apply moved_past.
Qed.

Lemma u64_past f kp v text rest : holds (held f) kp -> stands f text -> reads (toks v) text rest ->
  follows (expect_u64 data) f (u64_of v) (fun n a f' => a = n /\ past f kp rest f').
Proof.
  intros Hkp Hf Hr. eapply follows_mono; [by eapply expect_u64_follows|]. intros n a f' [-> Hm]. split; [done|]. by apply moved_past.
Qed.

Lemma bool_past f kp v text rest : holds (held f) kp -> stands f text -> reads (toks v) text rest ->
  follows (expect_bool data) f (bool_of v) (fun b a f' => a = b /\ past f kp rest f').
Proof.
  intros Hkp Hf Hr. eapply follows_mono; [by eapply expect_bool_follows|]. intros n a f' [-> Hm]. split; [done|]. by apply moved_past.
Qed.

Lemma str_past f kp v text rest : holds (held f) kp -> stands f text -> reads (toks v) text rest ->
  follows (expect_string data) f (str_of v) (fun s a f' => a = s /\ past f kp rest f').
Proof.
  intros Hkp Hf Hr. eapply follows_mono; [by eapply expect_string_follows|]. intros n a f' [-> Hm]. split; [done|]. by apply moved_past.
Qed.

(** The first token of the value; it is all of it unless it opens a container. *)
Lemma next_past f kp v text rest : holds (held f) kp -> stands f text -> reads (toks v) text rest ->
  yields (next data) f (fun a f' => a = first_tok v /\ (more_toks v = [] -> past f kp rest f')).
Proof.
  intros Hkp Hf Hr. eapply yields_mono; [by eapply scalar_next|]. intros a f' [-> Hm]. split; [done|]. intros He. by apply moved_past, Hm.
Qed.

(** The scope of an input's part; the index is that of an element of the text. *)
Lemma checked_scope_past f kp rest f' scope index : 0 <= index <= u32_max -> past f kp rest f' ->
  yields (checked_scope scope index : Parser X _) f' (fun a f2 => a = scope index /\ past f kp rest f2).
Proof. intros Hi Hp. unfold checked_scope. rewrite (proj2 (Z.ltb_ge _ _)) by lia. by apply yields_ret. Qed.

(** ** Kept fields *)

Section kept.
Variables (f : Frame X) (kp : Kept) (start : Z) (key : list Z) (v : Tree) (ktext text rest : list Z) (depth : Z).
Hypotheses (Hinv : inv (it f)) (Hkp : holds (held f) kp) (Hf : stands f text) (Hr : reads (toks v) text rest)
  (Hc : canonical depth v = true) (Hd : 0 <= depth) (Hs : at_text data start ktext) (Hm : reads (member_toks (key, v)) ktext rest).

Lemma keep_any_follows scope :
  follows (preserve_unknown data scope start : Parser X unit) f (keep_any scope kp (it f) key v) (fun r _ f' => ended inv rest r f').
Proof using All.
  unfold keep_any. replace (if fits v then kp ← keep scope key v kp; Some (kp, it f) else None)
    with (guard_ (fits v) ≫= fun _ => kp ← keep scope key v kp; Some (kp, it f)) by (by destruct (fits v)).
  eapply follows_bind; [by eapply skip_past|]. intros [] u f1 Hp. by eapply capture_ended.
Qed.

Lemma keep_any_checked_follows scope index : 0 <= index <= u32_max ->
  follows (let* _ := skip_value data in let* scope := checked_scope scope index in capture scope start : Parser X unit) f
    (keep_any (scope index) kp (it f) key v) (fun r _ f' => ended inv rest r f').
Proof using All.
  intros Hi. unfold keep_any. replace (if fits v then kp ← keep (scope index) key v kp; Some (kp, it f) else None)
    with (guard_ (fits v) ≫= fun _ => kp ← keep (scope index) key v kp; Some (kp, it f)) by (by destruct (fits v)).
  eapply follows_bind; [by eapply skip_past|]. intros [] u f1 Hp.
  eapply follows_after; [by apply checked_scope_past|]. intros a f2 (-> & Hp2). by eapply capture_ended.
Qed.

Lemma keep_object_follows scope :
  follows (capture_nonempty_object data start scope : Parser X unit) f (keep_object scope kp (it f) key v)
    (fun r _ f' => ended inv rest r f').
Proof using All.
  unfold capture_nonempty_object. pose proof Hr as Hr0. rewrite toks_split in Hr0. destruct v as [|b|d|s|items|ms].
  1-5: cbn [keep_object follows]; apply refuses_first; eapply expect_refuses; [done|exact Hr0|by try destruct b].
  eapply follows_after; [by eapply expect_yields|]. intros u f1 (t1 & (Hf1 & Hh1 & Hi1) & Hr1). cbn [more_toks] in Hr1.
  destruct ms as [|m ms].
  - cbn [map join app keep_object] in *. eapply follows_after; [by eapply peek_yields|]. intros t f2 (-> & ->).
    cbn [same_kind]. eapply follows_after; [by eapply next_yields|]. intros t f2 (-> & t2 & (Hf2 & Hh2 & Hi2) & Hr2). inversion Hr2; subst.
    apply yields_ret. apply past_ended; [done|]. split_and!; [done|by rewrite Hh2, Hh1|congruence].
  - destruct (members_toks_first m ms) as [ts Hts]. pose proof Hr1 as Hr1'. rewrite Hts in Hr1'.
    eapply follows_after; [by eapply peek_yields|]. intros t f2 (-> & ->). cbn [same_kind].
    unfold keep_object, keep_any. replace (if fits (JObj (m :: ms)) then kp ← keep scope key (JObj (m :: ms)) kp; Some (kp, it f) else None)
      with ((if fits (JObj (m :: ms)) then Some tt else None) ≫= fun _ => kp ← keep scope key (JObj (m :: ms)) kp; Some (kp, it f))
      by (by destruct (fits _)).
    eapply follows_bind; [by eapply (skip_rest_follows data RBrace ObjectKeyOrEnd f1 (JObj (m :: ms)))|].
    intros [] u2 f2 (Hf2 & Hh2 & Hi2). eapply capture_ended; try done. split_and!; [done|by rewrite Hh2, Hh1|congruence].
Qed.

Lemma hex_valid_follows f1 s (P : unit -> unit -> Frame X -> Prop) : (is_ok (validate_hex_string s) = true -> P tt tt f1) ->
  follows (of_psk (validate_hex_string s) : Parser X unit) f1 (guard_ (is_ok (validate_hex_string s))) P.
Proof using Type. intros HP. destruct (validate_hex_string s) as [[]|e]; cbn; [exists tt, f1; auto|by exists e, f1]. Qed.

Lemma keep_hex_follows scope :
  follows (parse_preserved_hex data scope start : Parser X unit) f (keep_hex scope kp (it f) key v)
    (fun r _ f' => ended inv rest r f').
Proof using All.
  unfold parse_preserved_hex. eapply follows_after; [by eapply next_past|]. intros t f1 (-> & Hp).
  destruct v as [|b|d|s|items|ms]; cbn [first_tok keep_hex more_toks] in *; try apply refuses_fail.
  - apply ret_ended; auto.
  - destruct b; apply refuses_fail.
  - replace (if is_ok (validate_hex_string s) then kp ← keep scope key (JStr s) kp; Some (kp, it f) else None)
      with (guard_ (is_ok (validate_hex_string s)) ≫= fun _ => kp ← keep scope key (JStr s) kp; Some (kp, it f)) by (by destruct (is_ok _)).
    eapply follows_bind; [by apply hex_valid_follows with (P := fun _ _ f' => f' = f1)|]. intros [] u f2 ->. eapply capture_ended; eauto.
Qed.
End kept.

(** A guard of the code that the meaning states as a test. *)
Lemma follows_if {A B} (b : bool) (m : Parser X A) f e (o : option B) P :
  (b = false -> follows m f o P) -> follows (if b then fail e else m) f (if b then None else o) P.
Proof. destruct b; [intros _; apply refuses_fail|auto]. Qed.
Lemma follows_if_not {A B} (b : bool) (m : Parser X A) f e (o : option B) P :
  (b = true -> follows m f o P) -> follows (if negb b then fail e else m) f (if b then o else None) P.
Proof. destruct b; cbn [negb]; [auto|intros _; apply refuses_fail]. Qed.
End steps.

(** The same on a part of the model. *)
Lemma zoom_ended {X Y} (get : X -> Y) (put : Y -> X -> X) (inv : Y -> Prop) (inv' : X -> Prop) (m : Parser Y unit) (f : Frame X)
    (o : option (Kept * Y)) rest :
  follows m {| at_ := at_ f; held := held f; it := get (it f) |} o (fun r _ f' => ended inv rest r f') ->
  (forall y, inv y -> inv' (put y (it f))) ->
  follows (zoom get put m) f ('(kp, y) ← o; Some (kp, put y (it f))) (fun r _ f' => ended inv' rest r f').
Proof.
  intros Hm Hput. unfold zoom, follows, yields, refuses in *. destruct o as [[kp y]|]; cbn [mbind option_bind].
  - destruct Hm as (u & f' & -> & Ha & Hh & Hi & Hinv). do 2 eexists. split; [reflexivity|]. cbn [fst snd] in *.
    split_and!; cbn [at_ held it fst snd]; try done; [by rewrite Hi|auto].
  - destruct Hm as (e & f' & ->). by do 2 eexists.
Qed.

(** ** The global map *)

Definition fit_tx (t : Transaction) : Prop :=
  blen (redeem_pool t) = REDEEM_POOL_SIZE /\ blen (tx_outputs t) = MAX_OUTPUTS /\ 0 <= redeem_pool_used t /\
  0 <= num_outputs t <= MAX_OUTPUTS.
Definition fit_doc (d : Doc) : Prop := fit_tx (tx d).

Lemma on_tx_run g (f : Frame Doc) : on_tx g f = (Ok tt, {| at_ := at_ f; held := held f; it := with_tx (it f) (g (tx (it f))) |}).
Proof. done. Qed.

Lemma hex_payload_follows (f1 : Frame Doc) s dst (k : list Z -> Parser Doc unit) (g : list Z -> option (Kept * Doc)) P :
  (forall b, over s dst = Some b -> follows (k b) f1 (g b) P) ->
  follows (let '(r, decoded) := hex_decode_strict s dst in let* _ := of_psk r in k decoded) f1 (over s dst ≫= g) P.
Proof.
  intros Hk. pose proof (hex_over s dst) as H. destruct (hex_decode_strict s dst) as [[n|e] b].
  - destruct H as [Ho _]. rewrite Ho. cbn [mbind option_bind]. specialize (Hk b Ho). exact Hk.
  - rewrite H. cbn. by exists e, f1.
Qed.

Lemma global_field_follows depth : 0 <= depth -> field_follows data fit_doc depth (global_field data) global_meaning.
Proof.
  intros Hd f kp start key v ktext text rest Hinv Hkp Hf Hr Hc Hs Hm. unfold global_field, global_meaning.
  assert (Hcap : forall f1, past f kp rest f1 -> follows (capture global start : Parser Doc unit) f1
    (kp ← keep global key v kp; Some (kp, it f)) (fun r _ f2 => ended fit_doc rest r f2)) by (intros; by eapply capture_ended).
  tests.
  - eapply follows_bind; [by eapply u64_past|]. intros n a f1 (-> & Hp). apply follows_if_not. intros _. by apply ret_ended.
  - eapply follows_bind; [by eapply u64_past|]. intros n a f1 (-> & Hp). apply follows_if_not. intros Hn.
    unfold Schema.supported_tx_version_u64, Schema.MAX_SUPPORTED_TX_VERSION in Hn. rewrite (proj2 (Z.ltb_ge u16_max n)) by (unfold u16_max; lia).
    by eapply (set_ended fit_doc (on_tx (fun t => put_version t n)) (fun d => with_tx d (put_version (tx d) n))).
  - unfold parse_optional_lock_time. eapply follows_after; [by eapply next_past|]. intros t f1 (-> & Hp).
    assert (Hset : forall n, past f kp rest f1 -> follows (let* _ := on_tx (fun t => put_locktime t n) in capture global start : Parser Doc unit) f1
      (kp ← keep global key v kp; Some (kp, with_tx (it f) (put_locktime (tx (it f)) n))) (fun r _ f2 => ended fit_doc rest r f2)).
    { intros n Hp1. set (f' := {| at_ := at_ f; held := held f; it := with_tx (it f) (put_locktime (tx (it f)) n) |}).
      eapply follows_after with (P := fun _ f2 => past f' kp rest f2).
      - do 2 eexists. rewrite on_tx_run. split; [reflexivity|]. destruct Hp1 as (? & ? & Hi). split_and!; cbn [at_ held it f']; try done. by rewrite Hi.
      - intros u f2 Hp2. by eapply (capture_ended fit_doc f'). }
    destruct v as [|b|d|s|items|ms]; cbn [first_tok u64_of more_toks] in *; try apply refuses_fail.
    + apply ret_ended; auto.
    + destruct b; apply refuses_fail.
    + eapply follows_bind; [by apply of_psk_follows with (P := fun a b f2 => b = a /\ f2 = f1)|]. intros n a f2 (-> & ->). auto.
    + eapply follows_bind; [by apply of_psk_follows with (P := fun a b f2 => b = a /\ f2 = f1)|]. intros n a f2 (-> & ->). auto.
  - eapply follows_bind; [by eapply bool_past|]. intros b a f1 (-> & Hp). destruct b; [by apply ret_ended|auto].
  - eapply follows_bind; [by eapply bool_past|]. intros b a f1 (-> & Hp). destruct b; [by apply ret_ended|auto].
  - unfold parse_subnetwork_id. eapply follows_after; [by eapply next_past|]. intros t f1 (-> & Hp).
    destruct v as [|b|d|s|items|ms]; cbn [first_tok more_toks] in *; try apply refuses_fail.
    + by eapply (set_ended fit_doc (on_tx (fun t => put_subnetwork t SUBNETWORK_ID_NATIVE)) (fun d => with_tx d (put_subnetwork (tx d) SUBNETWORK_ID_NATIVE))); auto.
    + destruct b; apply refuses_fail.
    + apply follows_if_not. intros _. destruct (Hp eq_refl) as (Ha & Hh & Hi).
      pose proof (decode_into_follows (X:=Transaction) {| at_ := at_ f1; held := held f1; it := tx (it f1) |} s subnetwork_id (fun b t => put_subnetwork t b)) as Hdec.
      cbn [it] in Hdec. rewrite Hi in Hdec. destruct (over s (subnetwork_id (tx (it f)))) as [b|]; cbn [mbind option_bind].
      * destruct Hdec as (n & f2 & Hrun & _ & Ha2 & Hh2 & Hi2). do 2 eexists. unfold in_tx, zoom, bind. rewrite Hi, Hrun. split; [reflexivity|].
        cbn [at_ held it fst snd] in *. rewrite Ha2, Hh2, Hi2. split_and!; try done.
      * destruct Hdec as (e & f2 & Hrun). do 2 eexists. unfold in_tx, zoom, bind. rewrite Hi, Hrun. reflexivity.
  - unfold parse_gas. eapply follows_after; [by eapply next_past|]. intros t f1 (-> & Hp).
    eapply follows_bind with (P := fun n a f2 => a = n /\ f2 = f1 /\ past f kp rest f1).
    + destruct v as [|b|d|s|items|ms]; cbn [first_tok u64_of more_toks] in *; try apply refuses_fail.
      * apply yields_ret. auto.
      * destruct b; apply refuses_fail.
      * apply of_psk_follows. auto.
      * apply of_psk_follows. auto.
    + intros n a f2 (-> & -> & Hp2). by eapply (set_ended fit_doc (on_tx (fun t => put_gas t n)) (fun d => with_tx d (put_gas (tx d) n))).
  - unfold parse_tx_payload. eapply follows_after; [by eapply next_past|]. intros t f1 (-> & Hp).
    destruct v as [|b|d|s|items|ms]; cbn [first_tok more_toks] in *; try apply refuses_fail.
    + by eapply (set_ended fit_doc (on_tx (put_payload [])) (fun d => with_tx d (put_payload [] (tx d)))); auto.
    + destruct b; apply refuses_fail.
    + specialize (Hp eq_refl). pose proof Hp as (Ha & Hh & Hi).
      eapply follows_after with (P := fun d f2 => d = it f /\ f2 = f1); [by exists (it f1), f1|]. intros d f2 (-> & ->).
      rewrite Z.leb_antisym. rewrite if_negb. apply follows_if. intros Hlen%Z.ltb_ge. apply hex_payload_follows. intros b Hb.
      assert (Hsp : set_payload b (tx (it f)) = (Ok tt, put_payload b (tx (it f)))).
      { unfold set_payload. apply over_length in Hb. rewrite blen_zeros in Hb by (pose proof (blen_nonneg s); apply Z.div_pos; lia).
        unfold saturating_mul in Hlen. rewrite (proj2 (Z.ltb_ge _ _)); [done|]. rewrite Hb. apply Z.div_le_upper_bound; lia. }
      do 2 eexists. unfold in_tx, zoom, on_it, map_err. cbn [it]. rewrite Hi, Hsp. split; [reflexivity|]. split_and!; done.
  - eapply follows_bind; [by eapply u64_past|]. intros n a f1 (-> & Hp). destruct Hp as (Ha & Hh & Hi).
    eapply follows_after with (P := fun d f2 => d = it f /\ f2 = f1); [by exists (it f1), f1|]. intros d f2 (-> & ->).
    rewrite Z.leb_antisym, if_negb. apply follows_if. intros _.
    by eapply (set_ended fit_doc (change _) (fun d => {| tx := tx d; declared_input_count := Some n; declared_output_count := declared_output_count d |})).
  - eapply follows_bind; [by eapply u64_past|]. intros n a f1 (-> & Hp). destruct Hp as (Ha & Hh & Hi).
    rewrite Z.leb_antisym, if_negb. apply follows_if. intros _.
    by eapply (set_ended fit_doc (change _) (fun d => {| tx := tx d; declared_input_count := declared_input_count d; declared_output_count := Some n |})).
  - by eapply keep_object_follows.
  - unfold parse_optional_id. eapply follows_after; [by eapply next_past|]. intros t f1 (-> & Hp).
    destruct v as [|b|d|s|items|ms]; cbn [first_tok more_toks] in *; try apply refuses_fail.
    + apply ret_ended; auto.
    + destruct b; apply refuses_fail.
    + auto.
  - by eapply keep_object_follows.
  - by eapply keep_any_follows.
Qed.

(** ** Scripts, UTXOs and outpoints *)

Lemma spk_follows hex (f : Frame ScriptPublicKey) :
  follows (parse_script_public_key hex) f (spk_meaning (it f) hex)
    (fun spk _ f' => at_ f' = at_ f /\ held f' = held f /\ it f' = spk).
Proof.
  unfold parse_script_public_key, spk_meaning. apply follows_if. intros _.
  pose proof (hex_over (take 4 hex) (zeros 2)) as Hv. destruct (hex_decode_strict (take 4 hex) (zeros 2)) as [[n|e] version].
  2:{ rewrite Hv. by exists e, f. }
  destruct Hv as [-> _]. cbn [mbind option_bind].
  eapply follows_after with (P := fun _ f' => f' = f); [by exists n, f|]. intros u f0 ->. set (number := default 0 (get_at version 0) * 256 + default 0 (get_at version 1)).
  eapply follows_after with (P := fun _ f' => at_ f' = at_ f /\ held f' = held f /\ it f' = put_spk_version (it f) number);
    [do 2 eexists; split; [reflexivity|done]|]. intros u2 f1 (Ha1 & Hh1 & Hi1).
  apply follows_if. intros _. replace (spk_script (it f)) with (spk_script (it f1)) by (by rewrite Hi1).
  eapply follows_bind; [apply decode_into_follows|].
  rewrite Hi1. intros b len f2 (-> & Ha2 & Hh2 & Hi2).
  do 2 eexists. split; [reflexivity|]. cbn [at_ held it]. rewrite Ha2, Hh2, Hi2. done.
Qed.

Lemma spk_part_ended {X} (inv : X -> Prop) (get : X -> ScriptPublicKey) (put : ScriptPublicKey -> X -> X) (f : Frame X) kp rest f1 hex (m : Parser X unit) :
  past f kp rest f1 -> (forall s, inv (put s (it f))) ->
  (forall f0, m f0 = zoom get put (parse_script_public_key hex) f0) ->
  follows m f1 (spk ← spk_meaning (get (it f)) hex; Some (kp, put spk (it f)))
    (fun r _ f2 => ended inv rest r f2).
Proof.
  intros (Ha & Hh & Hi) Hinv Hm. pose proof (spk_follows hex {| at_ := at_ f1; held := held f1; it := get (it f1) |}) as Hspk.
  cbn [it] in Hspk. unfold follows, yields, refuses in *. rewrite Hm. unfold zoom. rewrite Hi in *. destruct (spk_meaning (get (it f)) hex) as [spk|]; cbn [mbind option_bind].
  - destruct Hspk as (u & f2 & -> & Ha2 & Hh2 & Hi2). do 2 eexists. split; [reflexivity|]. cbn [at_ held it fst snd] in *.
    rewrite Ha2, Hh2, Hi2. split_and!; try done. apply Hinv.
  - destruct Hspk as (e & f2 & ->). by do 2 eexists.
Qed.

Definition fit_input (i : TransactionInput) : Prop :=
  blen (incoming_partial_sigs i) = MAX_SIGS_PER_INPUT /\ blen (redeem_script i) = MAX_SCRIPT_SIZE.

Section inputs.
Variable index : Z.
Hypothesis index_u32 : 0 <= index <= u32_max.

Lemma covenant_id_follows (f : Frame TransactionInput) kp start key v ktext text rest depth :
  fit_input (it f) -> holds (held f) kp -> stands f text -> reads (toks v) text rest -> canonical depth v = true ->
  at_text data start ktext -> reads (member_toks (key, v)) ktext rest ->
  follows (parse_covenant_id_field data index start) f
    (match v with
     | JStr s => if blen s =? 64 then keep_hex (input_utxo index) kp (it f) key v else None
     | JNull => Some (kp, it f)
     | _ => None
     end) (fun r _ f' => ended fit_input rest r f').
Proof.
  intros Hinv Hkp Hf Hr Hc Hs Hm. unfold parse_covenant_id_field. pose proof Hr as Hr0. rewrite toks_split in Hr0.
  eapply follows_after; [by eapply peek_yields|]. intros t f1 (-> & ->).
  destruct v as [|b|d|s|items|ms]; cbn [first_tok]; try apply refuses_fail; [| by destruct b; apply refuses_fail |].
  - eapply follows_after; [by eapply next_past|]. intros t f1 (-> & Hp). apply ret_ended; auto.
  - eapply follows_after; [by eapply expect_string_yields|]. intros s' f1 (-> & after & Hmv & Hr1). inversion Hr1 as [r Hrest|]; subst.
    pose proof (moved_past f kp rest f1 Hkp Hmv) as Hp.
    apply follows_if_not. intros _. unfold keep_hex.
    replace (if is_ok (validate_hex_string s) then kp' ← keep (input_utxo index) key (JStr s) kp; Some (kp', it f) else None)
      with (guard_ (is_ok (validate_hex_string s)) ≫= fun _ => kp' ← keep (input_utxo index) key (JStr s) kp; Some (kp', it f)) by (by destruct (is_ok _)).
    eapply follows_bind; [by apply (hex_valid_follows f1 s (fun _ _ f' => f' = f1))|]. intros [] u f2 ->.
    eapply follows_after; [by apply (checked_scope_past f kp rest f1)|]. intros sc f2 (-> & Hp2). by eapply capture_ended.
Qed.

Lemma utxo_field_follows depth : 0 <= depth -> field_follows data fit_input depth (utxo_field data index) (utxo_meaning index).
Proof.
  intros Hd f kp start key v ktext text rest Hinv Hkp Hf Hr Hc Hs Hm. unfold utxo_field, utxo_meaning. tests.
  - eapply follows_bind; [by eapply u64_past|]. intros n a f1 (-> & Hp).
    by eapply (set_ended fit_input (on_utxo (change (fun u => put_amount u n))) (fun i => put_utxo i (put_amount (utxo_entry i) n))).
  - eapply follows_bind; [by eapply str_past|]. intros s a f1 (-> & Hp).
    apply (spk_part_ended fit_input (fun i => script_public_key (utxo_entry i)) (fun spk i => put_utxo i (put_utxo_spk (utxo_entry i) spk)));
      [done|done|]. intros f0. unfold on_utxo, zoom. cbn [at_ held it]. by destruct (parse_script_public_key _ _).
  - eapply follows_bind; [by eapply u64_past|]. intros n a f1 (-> & Hp).
    by eapply (set_ended fit_input (on_utxo (change (fun u => put_daa_score u n))) (fun i => put_utxo i (put_daa_score (utxo_entry i) n))).
  - eapply follows_bind; [by eapply bool_past|]. intros b a f1 (-> & Hp). destruct b; cbn [negb]; [|by apply ret_ended].
    eapply follows_after; [by apply (checked_scope_past f kp rest f1)|]. intros sc f2 (-> & Hp2). by eapply capture_ended.
  - by eapply covenant_id_follows.
  - by eapply keep_any_checked_follows.
Qed.

Lemma decode_part_ended {X} (inv : X -> Prop) s (get : X -> list Z) (put : list Z -> X -> X) (f : Frame X) kp rest f1 (g : PskError -> PskError) (m : Parser X unit) :
  past f kp rest f1 -> (forall b, inv (put b (it f))) ->
  (forall f0, m f0 = let '(r, b) := hex_decode_strict s (get (it f0)) in
    (match r with Ok _ => Ok tt | Err e => Err (Fails (g e)) end, {| at_ := at_ f0; held := held f0; it := put b (it f0) |})) ->
  follows m f1 (b ← over s (get (it f)); Some (kp, put b (it f))) (fun r _ f2 => ended inv rest r f2).
Proof.
  intros (Ha & Hh & Hi) Hinv Hm. pose proof (hex_over s (get (it f))) as H. unfold follows, yields, refuses. rewrite Hm, Hi.
  destruct (hex_decode_strict s (get (it f))) as [[n|e] b].
  - destruct H as [-> _]. cbn [mbind option_bind]. do 2 eexists. split; [reflexivity|]. split_and!; try done. apply Hinv.
  - rewrite H. cbn [mbind option_bind]. by do 2 eexists.
Qed.

Lemma outpoint_field_follows depth : 0 <= depth -> field_follows data fit_input depth (outpoint_field data index) (outpoint_meaning index).
Proof.
  intros Hd f kp start key v ktext text rest Hinv Hkp Hf Hr Hc Hs Hm. unfold outpoint_field, outpoint_meaning. tests.
  - eapply follows_bind; [by eapply str_past|]. intros s a f1 (-> & Hp). apply follows_if_not. intros _.
    apply (decode_part_ended fit_input s (fun i => o_transaction_id (previous_outpoint i)) (fun b i => put_outpoint i (put_txid (previous_outpoint i) b)) f kp rest f1 id);
      [done|done|]. intros f0. unfold on_outpoint, zoom, decode_into, on_it, bind. cbn [at_ held it].
    by destruct (hex_decode_strict _ _) as [[n|e] b].
  - eapply follows_bind; [by eapply u64_past|]. intros n a f1 (-> & Hp). rewrite Z.leb_antisym, if_negb. apply follows_if. intros _.
    by eapply (set_ended fit_input (on_outpoint (change (fun o => put_index o n))) (fun i => put_outpoint i (put_index (previous_outpoint i) n))).
  - by eapply keep_any_checked_follows.
Qed.
End inputs.
End fields.
