(* ===== verification/PsktInputs.v ===== *)
(** * PSKT documents: the parsers of inputs

    Partial signatures, derivations, the execution masks and the fields of an
    input follow their meaning, and so does the whole array of inputs. *)

From S2P Require Import Prelude Bytes TxModel PsktSyntax PsktParser PsktGrammar PsktMeaning PsktTokens PsktObjects PsktFields.
Import Hex.

Section inputs.
Variable data : list Z.
Hypothesis data_u32 : blen data <= u32_max.
Notation stands f text := (at_text data (at_ f) text).
Notation ended := (ended data).
Notation holds := (holds data).
Notation moved := (moved data).
Notation past := (past data).

(** ** Partial signatures and derivations *)

Lemma unhex_follows {X} n hex (f1 : Frame X) e (P : list Z -> list Z -> Frame X -> Prop) (k : list Z -> Parser X (list Z))
    (g : list Z -> option (list Z)) :
  (forall b, unhex n hex = Some b -> follows (k b) f1 (g b) P) ->
  follows (if negb (blen hex =? 2 * n) then fail e
           else let '(r, b) := hex_decode_strict hex (zeros n) in let* _ := of_psk r in k b) f1 (unhex n hex ≫= g) P.
Proof.
  intros Hk. unfold unhex in *. destruct (blen hex =? 2 * n); cbn [negb]; [|apply refuses_fail].
  pose proof (hex_over hex (zeros n)) as H. destruct (hex_decode_strict hex (zeros n)) as [[len|err] b].
  - destruct H as [Ho _]. rewrite Ho in *. cbn [mbind option_bind]. exact (Hk b eq_refl).
  - rewrite H. cbn. by do 2 eexists.
Qed.

Lemma pubkey_follows {X} (f : Frame X) key ts text rest : stands f text -> reads (Str key :: ts) text rest ->
  follows (parse_partial_sig_pubkey data) f (compressed_key key) (fun b a f' => a = b /\ exists after, moved f after f' /\ reads ts after rest).
Proof.
  intros Hf Hr. unfold parse_partial_sig_pubkey, compressed_key. eapply follows_after; [by eapply expect_string_yields|].
  intros a f1 (-> & Hmv). apply (unhex_follows 33 key f1 InvalidPubkeyLen). intros b _.
  destruct (_ || _); [by apply yields_ret|apply refuses_fail].
Qed.

Lemma schnorr_bytes_follows {X} (f : Frame X) hex text rest : stands f text -> reads [Str hex] text rest ->
  follows (read_schnorr_bytes data) f (unhex 64 hex) (fun b a f' => a = b /\ moved f rest f').
Proof.
  intros Hf Hr. unfold read_schnorr_bytes. eapply follows_after; [by eapply expect_string_yields|].
  intros a f1 (-> & after & Hmv & Hr1). inversion Hr1; subst.
  replace (unhex 64 hex) with (unhex 64 hex ≫= Some) by (by destruct (unhex 64 hex)).
  apply (unhex_follows 64 hex f1 UnexpectedToken). intros b _. by apply yields_ret.
Qed.

Lemma schnorr_kind_follows {X} (f : Frame X) kind ts text rest : stands f text -> reads (Str kind :: ts) text rest ->
  follows (expect_schnorr_kind data) f (guard_ (list_Z_eqb kind (str "schnorr")))
    (fun _ _ f' => exists after, moved f after f' /\ reads ts after rest).
Proof.
  intros Hf Hr. unfold expect_schnorr_kind. eapply follows_after; [by eapply expect_string_yields|].
  intros a f1 (-> & Hmv). destruct (list_Z_eqb kind (str "ecdsa")) eqn:He.
  - apply list_Z_eqb_eq in He as ->. apply refuses_fail.
  - destruct (list_Z_eqb kind (str "schnorr")); [by apply yields_ret|apply refuses_fail].
Qed.

Lemma reads_first_str (f : Frame TransactionInput) w : match w with JStr _ => False | _ => True end ->
  forall ts text rest, stands f text -> reads (toks w ++ ts) text rest -> refuses (read_schnorr_bytes data) f.
Proof.
  intros Hw ts text rest Hf Hr. rewrite toks_split in Hr. unfold read_schnorr_bytes, expect_string. apply refuses_first.
  eapply refuses_then; [by eapply next_yields|]. intros a f' (-> & _). destruct w as [|[]| | | |]; try done; apply refuses_fail.
Qed.

Lemma schnorr_signature_follows (f : Frame TransactionInput) v text rest : stands f text -> reads (Colon :: toks v) text rest ->
  follows (parse_schnorr_signature data) f (signature_meaning v) (fun b a f' => a = b /\ moved f rest f').
Proof.
  intros Hf Hr. unfold parse_schnorr_signature. eapply follows_after; [by eapply expect_yields|].
  intros u f1 (t1 & Hm1 & Hr1). pose proof Hm1 as (Hf1 & _). rewrite toks_split in Hr1.
  destruct v as [|b|d|s|items|ms].
  1-5: apply refuses_first; eapply expect_refuses; [exact Hf1|exact Hr1|by try destruct b].
  eapply follows_after; [by eapply expect_yields|]. intros u2 f2 (t2 & Hm2 & Hr2). pose proof Hm2 as (Hf2 & _).
  cbn [more_toks] in Hr2. destruct ms as [|[kind w] ms].
  { cbn [map join app] in Hr2. apply refuses_first, refuses_first. unfold expect_string. eapply refuses_then; [by eapply next_yields|]. intros a f' (-> & _). apply refuses_fail. }
  assert (exists ts, join (map member_toks ((kind, w) :: ms)) ++ [RBrace] = Str kind :: Colon :: toks w ++ ts /\
    ((ms = [] /\ ts = [RBrace]) \/ (ms <> [] /\ exists ts', ts = Comma :: ts'))) as (ts & Hts & Hcase).
  { destruct ms as [|m ms]; [exists [RBrace]; split; [done|by left]|]. cbn [map]. rewrite join_cons by done. unfold member_toks at 1. cbn [fst snd].
    eexists. split; [cbn [app]; rewrite <- app_assoc; reflexivity|]. right. split; [done|]. by eexists. }
  rewrite Hts in Hr2.
  replace (signature_meaning (JObj ((kind, w) :: ms))) with
    (guard_ (list_Z_eqb kind (str "schnorr")) ≫= fun _ => match w, ms with JStr hex, [] => unhex 64 hex | _, _ => None end)
    by (unfold signature_meaning, guard_; destruct (list_Z_eqb kind (str "schnorr")), w, ms; reflexivity).
  eapply follows_bind; [by eapply schnorr_kind_follows|]. intros _ _ f3 (t3 & Hm3 & Hr3). pose proof Hm3 as (Hf3 & _).
  eapply follows_after; [by eapply expect_yields|]. intros u4 f4 (t4 & Hm4 & Hr4). pose proof Hm4 as (Hf4 & _).
  destruct (match w with JStr hex => Some hex | _ => None end) as [hex|] eqn:Hw.
  2:{ replace (match w with JStr hex => match ms with [] => unhex 64 hex | _ => None end | _ => None end) with (@None (list Z)) by (by destruct w).
    apply refuses_first. eapply (reads_first_str f4 w); [by destruct w|eassumption..]. }
  destruct w; try done. injection Hw as ->. cbn [toks app] in Hr4. apply (reads_app_inv [Str hex] ts) in Hr4 as (t5 & Hr4 & Hr5).
  replace (match ms with [] => unhex 64 hex | _ => None end) with (unhex 64 hex ≫= fun b => match ms with [] => Some b | _ => None end)
    by (destruct ms, (unhex 64 hex); done).
  eapply follows_bind; [by eapply schnorr_bytes_follows|]. intros b a f5 (-> & Hm5). pose proof Hm5 as (Hf5 & _).
  destruct Hcase as [[-> ->]|[Hne [ts' ->]]].
  - eapply follows_after; [by eapply expect_yields|]. intros u6 f6 (t6 & Hm6 & Hr6). inversion Hr6; subst. apply yields_ret. split; [done|].
    eauto 10 using moved_trans.
  - destruct ms; [done|]. apply refuses_first. by eapply expect_refuses.
Qed.

Section counted.
Context {X : Type} (inv : X -> Prop) (depth : Z) (item : Z -> Parser X unit) (step : Z -> X -> list Z * Tree -> option X).
Definition stepped (f : Frame X) rest (x : X) (f' : Frame X) : Prop :=
  stands f' rest /\ held f' = held f /\ it f' = x /\ inv x.
Hypothesis Hitem : forall f count m text rest, 0 <= count -> inv (it f) -> stands f text -> reads (member_toks m) text rest ->
  good_member depth m = true -> follows (item count) f (step count (it f) m) (fun x _ f' => stepped f rest x f').

Lemma counted_follows ms : forall fuel count (f : Frame X) text rest,
  ms <> [] -> (length ms <= fuel)%nat -> 0 <= count -> forallb (good_member depth) ms = true -> inv (it f) -> stands f text ->
  reads (join (map member_toks ms) ++ [RBrace]) text rest ->
  follows (counted_loop data fuel count item) f (steps step count (it f) ms) (fun x n f' => n = count + blen ms /\ stepped f rest x f').
Proof.
  induction ms as [|m ms IH]; [done|]. intros fuel count f text rest _ Hfuel H0 Hg Hinv Hf Hr.
  destruct fuel as [|fuel]; [cbn in Hfuel; lia|]. cbn [counted_loop steps]. cbn [forallb] in Hg. apply andb_prop in Hg as [Hm Hg].
  apply join_split in Hr as (r0 & Hmem & Htail); [|done].
  eapply follows_bind; [by eapply Hitem|]. intros x u f1 (Hf1 & Hh1 & Hi1 & Hinv1). destruct (decide (ms = [])) as [->|Hne].
  - eapply follows_after; [eapply (separator_yields data f1 false); [done|exact Htail]|].
    intros more f2 (-> & t2 & (Hf2 & Hh2 & Hi2) & Hr2). inversion Hr2; subst. cbn [steps]. apply yields_ret.
    rewrite blen_cons. split; [rewrite blen_nil; lia|]. split_and!; [done|by rewrite Hh2|done|done].
  - eapply follows_after; [eapply (separator_yields data f1 true); [done|exact Htail]|].
    intros more f2 (-> & t2 & (Hf2 & Hh2 & Hi2) & Hr2). subst x. rewrite <- Hi2 in *.
    eapply follows_mono; [eapply (IH fuel (count + 1) f2 t2 rest); try done; [cbn in Hfuel; lia|lia]|].
    intros x n f3 (-> & Hf3 & Hh3 & Hi3 & Hinv3). rewrite blen_cons. split; [lia|]. split_and!; [done|congruence|done|done].
Qed.
End counted.

Lemma empty_object_yields {X} (f : Frame X) ms text rest : stands f text -> reads (join (map member_toks ms) ++ [RBrace]) text rest ->
  yields (consume_empty_object data) f (fun a f' => a = bool_decide (ms = []) /\
    if decide (ms = []) then moved f rest f' else f' = f).
Proof.
  intros Hf Hr. unfold consume_empty_object. destruct ms as [|m ms].
  - cbn [map join app] in Hr. eapply yields_bind; [by eapply peek_yields|]. intros t f1 (-> & ->). cbn [same_kind].
    eapply yields_bind; [by eapply next_yields|]. intros t f1 (-> & after & Hm & Hr1). inversion Hr1; subst. by apply yields_ret.
  - destruct (members_toks_first m ms) as [ts Hts]. rewrite Hts in Hr. eapply yields_bind; [by eapply peek_yields|].
    intros t f1 (-> & ->). by apply yields_ret.
Qed.

Lemma members_count (p : Z) ms text rest : at_text data p text -> reads (join (map member_toks ms) ++ [RBrace]) text rest ->
  (length ms <= S (length data))%nat.
Proof.
  intros Hp Hr. pose proof (tokens_bound _ _ _ _ _ Hp Hr) as Hb. rewrite length_app in Hb.
  assert (length ms <= length (join (map member_toks ms)))%nat; [|lia]. clear. induction ms as [|m ms IH]; [done|].
  destruct ms; [cbn; lia|]. cbn [map] in *. rewrite join_cons, length_app by done. cbn [length] in *. lia.
Qed.

Lemma follows_eq {X A B} (m : Parser X A) f (o : option B) P : follows m f o P -> follows m f o (fun b a f' => o = Some b /\ P b a f').
Proof. destruct o; [|done]. intros H. by eapply yields_mono. Qed.

Lemma steps_bound {X} (step : Z -> X -> list Z * Tree -> option X) maximum ms :
  (forall count x m, maximum <= count -> step count x m = None) ->
  forall count x y, 0 <= count <= maximum -> steps step count x ms = Some y -> count + blen ms <= maximum.
Proof.
  intros Hmax. induction ms as [|m ms IH]; intros count x y Hc Hs; [rewrite blen_nil; lia|]. rewrite blen_cons. cbn [steps] in Hs.
  destruct (Z_le_gt_dec maximum count) as [Hle|]; [by rewrite Hmax in Hs|].
  destruct (step count x m) as [x'|]; [|done]. apply IH in Hs; lia.
Qed.

Lemma partial_sig_follows (f : Frame TransactionInput) count m text rest : 0 <= count -> fit_input (it f) -> stands f text ->
  reads (member_toks m) text rest ->
  follows (parse_partial_sig_slot data count) f (partial_sig_meaning count (it f) m) (fun i _ f' => stepped fit_input f rest i f').
Proof.
  intros H0 [Hs Hb] Hf Hr. destruct m as [key v]. unfold member_toks in Hr. cbn [fst snd] in *.
  unfold parse_partial_sig_slot, partial_sig_meaning. apply follows_if. intros Hc%Z.leb_gt. cbn [fst snd].
  eapply follows_bind; [by eapply pubkey_follows|]. intros b a f1 (-> & t1 & (Hf1 & Hh1 & Hi1) & Hr1).
  eapply follows_bind; [by eapply schnorr_signature_follows|]. intros sig a f2 (-> & Hf2 & Hh2 & Hi2).
  unfold follows, yields, on_it. rewrite Hi2, Hi1, (proj2 (Z.ltb_lt _ _)) by lia.
  do 2 eexists. split; [reflexivity|]. split_and!; cbn [at_ held it]; [done|congruence|done|].
  split; [|done]. cbn. unfold blen in *. by rewrite length_insert.
Qed.

Lemma object_parts depth ms : canonical depth (JObj ms) = true ->
  NoDup (map fst ms) /\ forallb (good_member (depth + 1)) ms = true.
Proof. cbn [canonical]. intros [[_ Hnd%bool_decide_eq_true]%andb_prop Hg]%andb_prop. done. Qed.

Lemma partial_sigs_follows depth (f : Frame TransactionInput) kp v text rest :
  fit_input (it f) -> holds (held f) kp -> canonical depth v = true -> stands f text -> reads (toks v) text rest ->
  follows (parse_partial_sigs data) f
    (match v with
     | JObj ms => i ← steps partial_sig_meaning 0 (it f) ms; Some (kp, put_partial_count i (blen ms))
     | _ => None
     end) (fun r _ f' => ended fit_input rest r f').
Proof.
  intros Hinv Hkp Hc Hf Hr. rewrite toks_split in Hr. unfold parse_partial_sigs. destruct v as [|b|d|s|items|ms].
  1-5: apply refuses_first; eapply expect_refuses; [exact Hf|exact Hr|by try destruct b].
  eapply follows_after; [by eapply expect_yields|]. intros u f1 (t1 & Hm1 & Hr1). cbn [more_toks] in Hr1.
  pose proof Hm1 as (Hf1 & Hh1 & Hi1). apply object_parts in Hc as [_ Hg].
  eapply follows_after; [by eapply empty_object_yields|]. intros a f2 (-> & Hm2). destruct (decide (ms = [])) as [->|Hne].
  - rewrite bool_decide_eq_true_2 by done. pose proof (moved_trans _ _ _ _ _ _ Hm1 Hm2) as (Hf2 & Hh2 & Hi2).
    do 2 eexists. split; [reflexivity|]. cbn [at_ held it fst snd]. rewrite Hi2, Hh2. done.
  - rewrite bool_decide_eq_false_2 by done. subst f2.
    eapply follows_bind.
    { apply follows_eq. rewrite <- Hi1. eapply (counted_follows fit_input (depth + 1) _ partial_sig_meaning); try done;
        [by intros; eapply partial_sig_follows|by eapply members_count|by rewrite Hi1]. }
    intros i n f3 (Hsteps & -> & Hf3 & Hh3 & Hi3 & Hinv3). apply steps_bound with (maximum := MAX_SIGS_PER_INPUT) in Hsteps;
      [|intros c x m Hle; unfold partial_sig_meaning; by rewrite (proj2 (Z.leb_le _ _))|done].
    pose proof (blen_nonneg ms). unfold MAX_SIGS_PER_INPUT in Hsteps. rewrite Z.mod_small by lia.
    do 2 eexists. split; [reflexivity|]. cbn [at_ held it fst snd]. rewrite Hi3. split_and!; [done|by rewrite Hh3, Hh1|done|done].
Qed.

(** ** Derivations *)

Lemma hint_follows p q v text rest : at_text data p text -> reads (toks v) text rest -> at_text data q rest ->
  extract_ms45_hint data p q = hint_of v.
Proof.
  intros Hp Hr Hq. apply reads_cut in Hr as (region & -> & Hr). unfold extract_ms45_hint.
  rewrite (at_text_position data q (p + blen region) rest) by (done || by eapply at_text_app).
  rewrite (at_text_slice _ _ _ _ Hp). cbn [mbind option_bind]. by rewrite (find_path_reads _ _ Hr).
Qed.

Lemma install_hint p q v i : extract_ms45_hint data p q = hint_of v ->
  install_first_ms45_hint data p q i = put_hint i (first_hint (ms45_hint i) v).
Proof.
  intros He. unfold install_first_ms45_hint, first_hint. rewrite He. destruct (h_present (ms45_hint i)); [by destruct i|].
  destruct (hint_of v); by destruct i.
Qed.

Lemma derivation_value_follows (f : Frame TransactionInput) v text rest depth :
  stands f text -> reads (toks v) text rest -> canonical depth v = true -> 0 <= depth ->
  follows (parse_derivation_value data) f (guard_ (derivation_value v)) (fun _ _ f' => moved f rest f').
Proof.
  intros Hf Hr Hc Hd. rewrite toks_split in Hr. unfold parse_derivation_value. eapply follows_after; [by eapply next_yields|].
  intros a f1 (-> & t1 & Hm1 & Hr1). pose proof Hm1 as (Hf1 & _). destruct v as [|b|d|s|items|ms]; cbn [first_tok more_toks derivation_value] in *; try apply refuses_fail.
  - inversion Hr1; subst. by apply yields_ret.
  - destruct b; apply refuses_fail.
  - eapply follows_mono; [by eapply (skip_rest_follows data RBrace ObjectKeyOrEnd f1 (JObj ms))|]. intros. by eapply moved_trans.
Qed.

Lemma derivation_follows depth (f : Frame TransactionInput) count m text rest : 0 <= depth -> 0 <= count -> fit_input (it f) -> stands f text ->
  reads (member_toks m) text rest -> good_member depth m = true ->
  follows (parse_bip32_derivation_entry data count) f (derivation_meaning count (it f) m) (fun i _ f' => stepped fit_input f rest i f').
Proof.
  intros Hd H0 Hinv Hf Hr Hg. destruct m as [key v]. unfold member_toks in Hr. apply andb_prop in Hg as [_ Hc]. cbn [fst snd] in *.
  unfold parse_bip32_derivation_entry, derivation_meaning, parse_derivation_pubkey. cbn [fst snd].
  destruct (MAX_SIGS_PER_INPUT <=? count); [apply refuses_first, refuses_fail|].
  eapply follows_bind with (P := fun _ _ f' => exists after, moved f after f' /\ reads (Colon :: toks v) after rest).
  { replace (compressed_key key) with (compressed_key key ≫= Some) by (by destruct (compressed_key key)).
    eapply follows_bind; [by eapply pubkey_follows|]. intros b a f1 (-> & H). by apply yields_ret. }
  intros _ _ f1 (t1 & Hm1 & Hr1). pose proof Hm1 as (Hf1 & _).
  eapply follows_after; [by eapply expect_yields|]. intros u f2 (t2 & Hm2 & Hr2). pose proof Hm2 as (Hf2 & _).
  eapply follows_after with (P := fun a f' => a = at_ f2 /\ f' = f2); [by exists (at_ f2), f2|]. intros p f3 (-> & ->).
  replace (if derivation_value v then Some (put_hint (it f) (first_hint (ms45_hint (it f)) v)) else None)
    with (guard_ (derivation_value v) ≫= fun _ => Some (put_hint (it f) (first_hint (ms45_hint (it f)) v))) by (by destruct (derivation_value v)).
  eapply follows_bind; [by eapply derivation_value_follows|]. intros [] u2 f3 Hm3.
  eapply follows_after with (P := fun a f' => a = at_ f3 /\ f' = f3); [by exists (at_ f3), f3|]. intros q f4 (-> & ->).
  pose proof (moved_trans _ _ _ _ _ _ Hm1 (moved_trans _ _ _ _ _ _ Hm2 Hm3)) as (Hf3 & Hh3 & Hi3).
  do 2 eexists. split; [reflexivity|]. unfold stepped. cbn [at_ held it]. rewrite Hi3, (install_hint _ _ v).
  - done.
  - by eapply hint_follows.
Qed.

Lemma derivations_follows index depth (f : Frame TransactionInput) kp start key v ktext text rest :
  0 <= index <= u32_max -> 0 <= depth -> fit_input (it f) -> holds (held f) kp -> canonical depth v = true -> stands f text -> reads (toks v) text rest ->
  at_text data start ktext -> reads (member_toks (key, v)) ktext rest ->
  follows (parse_bip32_derivations data start index) f
    (match v with
     | JObj [] => Some (kp, it f)
     | JObj ms => i ← steps derivation_meaning 0 (it f) ms; kp ← keep (input index) key v kp; Some (kp, i)
     | _ => None
     end) (fun r _ f' => ended fit_input rest r f').
Proof.
  intros Hi Hd Hinv Hkp Hc Hf Hr Hs Hm. rewrite toks_split in Hr. unfold parse_bip32_derivations. destruct v as [|b|d|s|items|ms].
  1-5: apply refuses_first; eapply expect_refuses; [exact Hf|exact Hr|by try destruct b].
  eapply follows_after; [by eapply expect_yields|]. intros u f1 (t1 & Hm1 & Hr1). cbn [more_toks] in Hr1.
  pose proof Hm1 as (Hf1 & Hh1 & Hi1). apply object_parts in Hc as [_ Hg].
  eapply follows_after; [by eapply empty_object_yields|]. intros a f2 (-> & Hm2). destruct (decide (ms = [])) as [->|Hne].
  - rewrite bool_decide_eq_true_2 by done. apply ret_ended; [done|]. apply moved_past; [done|]. by eapply moved_trans.
  - rewrite bool_decide_eq_false_2 by done. subst f2.
    replace (match ms with [] => Some (kp, it f) | _ :: _ => i ← steps derivation_meaning 0 (it f) ms; kp0 ← keep (input index) key (JObj ms) kp; Some (kp0, i) end)
      with (i ← steps derivation_meaning 0 (it f) ms; kp0 ← keep (input index) key (JObj ms) kp; Some (kp0, i)) by (by destruct ms).
    eapply follows_bind.
    { rewrite <- Hi1. eapply (counted_follows fit_input (depth + 1) _ derivation_meaning); try done;
        [intros; eapply (derivation_follows (depth + 1)); [lia|eassumption..]|by eapply members_count|by rewrite Hi1]. }
    intros i n f3 (-> & Hf3 & Hh3 & Hi3 & Hinv3).
    assert (past f3 kp rest f3) as Hp by (split_and!; [done|by rewrite Hh3, Hh1|done]).
    eapply follows_after; [by apply (checked_scope_past data f3 kp rest f3)|]. intros sc f4 (-> & Hp4).
    subst i. by eapply capture_ended.
Qed.

(** ** Objects without unknown fields *)

Section known.
Context {X : Type} (scope : Schema.Scope).

Lemma member_loop_ext fuel (m1 m2 : Parser (Members X) unit) : (forall f, m1 f = m2 f) ->
  forall f, member_loop data fuel m1 f = member_loop data fuel m2 f.
Proof.
  intros He. induction fuel as [|fuel IH]; intros f; [done|]. cbn [member_loop]. unfold bind. rewrite He.
  destruct (m2 f) as [[u|e] f1]; [|done]. destruct (consume_object_separator data f1) as [[[]|e] f2]; [|done..]. apply IH.
Qed.

Lemma object_body_ext (m1 m2 : Parser (Members X) unit) : (forall f, m1 f = m2 f) ->
  forall f, parse_object_body data scope m1 f = parse_object_body data scope m2 f.
Proof.
  intros He f. unfold parse_object_body, zoom, parse_members, bind. by rewrite (member_loop_ext _ _ _ He).
Qed.

(** The parser of the field, and an error where there is none. *)
Definition known_only (parse_field : list Z -> Parser X unit) (_ : Z) (key : list Z) : Parser X unit :=
  if bool_decide (is_Some (Schema.field_bit scope key)) then parse_field key else fail UnexpectedToken.

Lemma known_member parse_field (f : Frame (Members X)) :
  parse_known_member data scope parse_field f = parse_member data scope (known_only parse_field) f.
Proof.
  assert (Hb : forall A B (m : Parser (Members X) A) (k k' : A -> Parser (Members X) B) f0, (forall a f', m f0 = (Ok a, f') -> k a f' = k' a f') -> bind m k f0 = bind m k' f0).
  { intros A B m k k' f0 Hk. unfold bind. destruct (m f0) as [[a|e] f'] eqn:Hm; [|done]. by apply Hk. }
  unfold parse_known_member, parse_member. change (bind the_position ?k f) with (k (at_ f) f). apply Hb. intros key f1 _. apply Hb. intros u f2 _. apply Hb. intros known f3 Hk.
  assert (known = bool_decide (is_Some (Schema.field_bit scope key))) as ->.
  { unfold mark_schema_field in Hk. destruct (Schema.field_bit scope key) as [bit|]; [|by injection Hk as <- _].
    rewrite bool_decide_eq_true_2 by eauto. unfold bind, look in Hk. destruct (negb _); [done|].
    match type of Hk with (let (_, _) := ?x in _) = _ => destruct x as [[[]|e] f4] end; [done| |done]. by injection Hk as <- _. }
  unfold known_only. case_bool_decide; [done|]. cbn [negb]. unfold of_body, zoom, fail, throw. destruct f3 as [p h [b s]]. done.
Qed.
End known.

Lemma known_body_follows {X} (inv : X -> Prop) depth scope parse_field field (reject : bool) (f : Frame X) kp v text rest :
  field_follows data inv (depth + 1) (known_only scope parse_field) field ->
  canonical depth v = true -> inv (it f) -> holds (held f) kp -> stands f text -> reads (toks v) text rest ->
  follows (let* _ := expect data LBrace in
           let* _ := if reject then reject_empty_object data else ret tt in
           parse_object_body data scope (parse_known_member data scope parse_field)) f
    (object_meaning scope field kp (it f) v) (fun r _ f' => ended inv rest r f').
Proof.
  intros Hfield Hc Hinv Hkp Hf Hr.
  pose proof (braced_follows data inv depth scope (known_only scope parse_field) field reject f kp v text rest Hfield Hc Hinv Hkp Hf Hr) as H.
  assert (Heq : forall A B C (m : Parser X A) (k : Parser X B) (n n' : Parser X C) f, (forall f, n f = n' f) ->
    bind m (fun _ => bind k (fun _ => n)) f = bind m (fun _ => bind k (fun _ => n')) f).
  { intros A B C m k n n' f0 He. unfold bind. destruct (m f0) as [[]]; [|done]. destruct (k f1) as [[]]; [|done]. apply He. }
  unfold follows, yields, refuses in *. rewrite (Heq _ _ _ _ _ _ _ _ (object_body_ext scope _ _ (known_member scope parse_field))). exact H.
Qed.

(** ** The execution masks *)

Lemma masks_field_follows depth : field_follows data (fun _ => True) depth
  (known_only Schema.CovenantExecution (fun key =>
    let* value := expect_u64 data in
    if u16_max <? value then fail UnexpectedToken
    else if list_Z_eqb key (str "suppliedMask") then change (fun ms => {| mask := value; truth := truth ms |})
    else if list_Z_eqb key (str "suppliedTrueMask") then change (fun ms => {| mask := mask ms; truth := value |})
    else fail UnexpectedToken)) masks_meaning.
Proof.
  intros f kp start key v ktext text rest Hinv Hkp Hf Hr Hc Hs Hm. unfold known_only, masks_meaning.
  case_bool_decide as Hk.
  - eapply follows_bind; [by eapply u64_past|]. intros n a f1 (-> & Hp). apply follows_if. intros _.
    destruct (list_Z_eqb key (str "suppliedMask")); [by apply (set_ended data (fun _ => True) _ (fun ms => {| mask := n; truth := truth ms |}) f)|].
    destruct (list_Z_eqb key (str "suppliedTrueMask")); [by apply (set_ended data (fun _ => True) _ (fun ms => {| mask := mask ms; truth := n |}) f)|].
    apply refuses_fail.
  - assert (list_Z_eqb key (str "suppliedMask") = false) as ->.
    { destruct (list_Z_eqb _ _) eqn:He; [|done]. apply list_Z_eqb_eq in He as ->. by destruct Hk; eauto. }
    assert (list_Z_eqb key (str "suppliedTrueMask") = false) as ->.
    { destruct (list_Z_eqb _ _) eqn:He; [|done]. apply list_Z_eqb_eq in He as ->. by destruct Hk; eauto. }
    destruct (u64_of v) as [n|]; cbn [mbind option_bind]; [destruct (u16_max <? n)|]; apply refuses_fail.
Qed.

Lemma execution_object_follows depth (f : Frame Masks) kp v text rest :
  canonical depth v = true -> holds (held f) kp -> stands f text -> reads (toks v) text rest ->
  follows (parse_covenant_execution_object data) f
    ('(kp, ms) ← object_meaning Schema.CovenantExecution masks_meaning kp (it f) v;
     if Z.ldiff (truth ms) (mask ms) =? 0 then Some (kp, ms) else None) (fun r _ f' => ended (fun _ => True) rest r f').
Proof.
  intros Hc Hkp Hf Hr.
  set (ending := fun _ : unit => (let* ms := look in if negb (Z.ldiff (truth ms) (mask ms) =? 0) then fail UnexpectedToken else ret tt) : Parser Masks unit).
  assert (Hrun : parse_covenant_execution_object data f =
    bind (let* _ := expect data LBrace in let* _ := if true then reject_empty_object data else ret tt in
          parse_object_body data Schema.CovenantExecution (covenant_execution_member data)) ending f).
  { unfold parse_covenant_execution_object, bind. destruct (expect data LBrace f) as [[]]; [|done]. by destruct (reject_empty_object data f0) as [[]]. }
  unfold follows, yields, refuses. rewrite !Hrun.
  eapply follows_bind; [exact (known_body_follows _ depth _ _ _ true f kp v text rest (masks_field_follows _) Hc I Hkp Hf Hr)|].
  intros [kp' ms] u f1 (Hf1 & Hh1 & Hi1 & _). cbn [fst snd] in *. unfold ending.
  eapply follows_after with (P := fun a f' => a = ms /\ f' = f1); [by exists (it f1), f1|]. intros a f2 (-> & ->).
  apply follows_if_not. intros _. by apply yields_ret.
Qed.

Definition fit_input_doc (d : InputDoc) : Prop :=
  fit_input (the_input d) /\ blen (redeem d) = MAX_REDEEM_SIZE /\ 0 <= redeem_len d <= MAX_REDEEM_SIZE.

Section input_fields.
Variable index : Z.
Hypothesis index_u32 : 0 <= index <= u32_max.

Section field.
Variables (f : Frame InputDoc) (kp : Kept) (start : Z) (key : list Z) (v : Tree) (ktext text rest : list Z) (depth : Z).
Hypotheses (Hinv : fit_input_doc (it f)) (Hkp : holds (held f) kp) (Hf : stands f text) (Hr : reads (toks v) text rest)
  (Hc : canonical depth v = true) (Hd : 0 <= depth) (Hs : at_text data start ktext) (Hm : reads (member_toks (key, v)) ktext rest).

Lemma execution_follows :
  follows (parse_covenant_execution data) f
    (match v with
     | JNull => Some (kp, it f)
     | _ =>
         '(kp, ms) ← object_meaning Schema.CovenantExecution masks_meaning kp {| mask := 0; truth := 0 |} v;
         if Z.ldiff (truth ms) (mask ms) =? 0
         then Some (kp, with_input (it f) (put_execution (the_input (it f)) true (mask ms) (truth ms))) else None
     end) (fun r _ f' => ended fit_input_doc rest r f').
Proof using All.
  unfold parse_covenant_execution. eapply follows_after; [rewrite toks_split in Hr; by eapply peek_yields|]. intros t f1 (-> & ->).
  rewrite same_kind_null. destruct (is_null v) eqn:Hv.
  - destruct v; try done. eapply follows_after; [by eapply next_past|]. intros t f1 (-> & Hp). apply ret_ended; auto.
  - pose proof (execution_object_follows depth {| at_ := at_ f; held := held f; it := {| mask := 0; truth := 0 |} |} kp v text rest Hc Hkp Hf Hr) as H.
    cbn [it] in H.
    replace (match v with JNull => Some (kp, it f) | _ => _ end) with
      ('(kp, ms) ← ('(kp, ms) ← object_meaning Schema.CovenantExecution masks_meaning kp {| mask := 0; truth := 0 |} v;
        if Z.ldiff (truth ms) (mask ms) =? 0 then Some (kp, ms) else None);
       Some (kp, with_input (it f) (put_execution (the_input (it f)) true (mask ms) (truth ms)))).
    2:{ destruct (object_meaning _ _ _ _ v) as [[kp' ms]|] eqn:Ho; cbn [mbind option_bind]; [destruct (_ =? 0)|]; by destruct v. }
    unfold follows, yields, refuses in *. destruct ('(kp, ms) ← object_meaning _ _ _ _ v; _) as [[kp' ms]|]; cbn [mbind option_bind].
    + destruct H as (u & f1 & -> & Hf1 & Hh1 & Hi1 & _). do 2 eexists. split; [reflexivity|]. cbn [at_ held it fst snd] in *. by rewrite Hi1.
    + destruct H as (e & f1 & ->). by do 2 eexists.
Qed.

Lemma redeem_follows :
  follows (parse_redeem_script data) f
    (match v with
     | JNull => Some (kp, put_redeem_len (it f) 0)
     | JStr s =>
         if MAX_REDEEM_SIZE <? blen s / 2 then None
         else b ← over s (redeem (it f)); Some (kp, put_redeem_len (put_redeem_buffer b (it f)) (blen s / 2))
     | _ => None
     end) (fun r _ f' => ended fit_input_doc rest r f').
Proof using All.
  unfold parse_redeem_script. eapply follows_after; [by eapply next_past|]. intros t f1 (-> & Hp).
  destruct Hinv as (Hin & Hb & Hl).
  destruct v as [|b|d|s|items|ms]; cbn [first_tok more_toks] in *; try apply refuses_fail.
  - by eapply (set_ended data fit_input_doc (change (fun d => put_redeem_len d 0)) (fun d => put_redeem_len d 0)); auto.
  - destruct b; apply refuses_fail.
  - specialize (Hp eq_refl). destruct Hp as (Ha & Hh & Hi). apply follows_if. intros Hlen%Z.ltb_ge.
    rewrite <- Hi. eapply follows_bind; [apply follows_eq, decode_into_follows|]. intros b n f2 (Ho & -> & Ha2 & Hh2 & Hi2).
    do 2 eexists. split; [reflexivity|]. cbn [at_ held it fst snd]. rewrite Ha2, Hh2, Hi2. split_and!; cbn [fst snd]; try done.
    apply over_length in Ho. rewrite Hi in Ho |- *. split; [exact Hin|]. split; cbn; [congruence|]. pose proof (blen_nonneg s). split; [apply Z.div_pos; lia|lia].
Qed.

Lemma min_time_follows :
  follows (parse_min_time data index start) f
    (match v with
     | JNull => Some (kp, it f)
     | _ => _ ← u64_of v; kp ← keep (input index) key v kp; Some (kp, it f)
     end) (fun r _ f' => ended fit_input_doc rest r f').
Proof using All.
  assert (Hsc : input_scope index = input index) by (unfold input_scope; f_equal; lia).
  unfold parse_min_time. rewrite Hsc. eapply follows_after; [by eapply next_past|]. intros t f1 (-> & Hp).
  assert (Hcap : past f kp rest f1 -> follows (capture (input index) start : Parser InputDoc unit) f1
    (kp ← keep (input index) key v kp; Some (kp, it f)) (fun r _ f2 => ended fit_input_doc rest r f2)) by (intros; by eapply capture_ended).
  destruct v as [|b|d|s|items|ms]; cbn [first_tok u64_of more_toks] in *; try apply refuses_fail.
  - apply ret_ended; auto.
  - destruct b; apply refuses_fail.
  - eapply follows_bind; [by apply of_psk_follows with (P := fun a b f2 => b = a /\ f2 = f1)|]. intros n a f2 (-> & ->). auto.
  - eapply follows_bind; [by apply of_psk_follows with (P := fun a b f2 => b = a /\ f2 = f1)|]. intros n a f2 (-> & ->). auto.
Qed.

(** A part of the input, and a change of it. *)
Lemma on_input_ended (m : Parser TransactionInput unit) (o : option (Kept * TransactionInput)) :
  follows m {| at_ := at_ f; held := held f; it := the_input (it f) |} o (fun r _ f' => ended fit_input rest r f') ->
  follows (on_input m) f ('(kp, i) ← o; Some (kp, with_input (it f) i)) (fun r _ f' => ended fit_input_doc rest r f').
Proof using Hinv.
  intros H. eapply (zoom_ended data the_input (fun i d => with_input d i) fit_input fit_input_doc); [exact H|].
  intros i Hi. destruct Hinv as (_ & Hb & Hl). exact (conj Hi (conj Hb Hl)).
Qed.

Lemma change_input_ended (g : TransactionInput -> TransactionInput) f1 : past f kp rest f1 -> fit_input (g (the_input (it f))) ->
  follows (on_input (change g)) f1 (Some (kp, with_input (it f) (g (the_input (it f))))) (fun r _ f' => ended fit_input_doc rest r f').
Proof using Hinv.
  intros Hp Hg. apply (set_ended data fit_input_doc (on_input (change g)) (fun d => with_input d (g (the_input d))) f); [done| |done].
  destruct Hinv as (_ & Hb & Hl). exact (conj Hg (conj Hb Hl)).
Qed.
End field.

Lemma input_field_follows depth : 0 <= depth -> field_follows data fit_input_doc depth (input_field data index) (input_meaning index).
Proof.
  intros Hd f kp start key v ktext text rest Hinv Hkp Hf Hr Hc Hs Hm. unfold input_field, input_meaning.
  assert (Hsc : input_scope index = input index) by (unfold input_scope; f_equal; lia). rewrite Hsc.
  pose proof Hinv as (Hin & _). set (inner := {| at_ := at_ f; held := held f; it := the_input (it f) |}). tests.
  - apply on_input_ended; [done|]. by apply (braced_follows data fit_input depth Schema.InputUtxo _ _ false inner kp v text rest (utxo_field_follows data data_u32 index index_u32 (depth + 1) ltac:(lia))).
  - apply on_input_ended; [done|]. by apply (braced_follows data fit_input depth Schema.InputOutpoint _ _ false inner kp v text rest (outpoint_field_follows data data_u32 index index_u32 (depth + 1) ltac:(lia))).
  - eapply follows_bind; [by eapply u64_past|]. intros n a f1 (-> & Hp). by apply (change_input_ended f kp rest Hinv (fun i => put_sequence i n)).
  - by eapply min_time_follows.
  - pose proof (on_input_ended f rest Hinv _ _ (partial_sigs_follows depth inner kp v text rest Hin Hkp Hc Hf Hr)) as H.
    destruct v; try exact H. cbn [it inner] in H. by destruct (steps _ _ _ _).
  - eapply follows_bind; [by eapply u64_past|]. intros n a f1 (-> & Hp). apply follows_if_not. intros _.
    by apply (change_input_ended f kp rest Hinv (fun i => put_sighash i Schema.SIGHASH_ALL)).
  - by eapply redeem_follows.
  - eapply follows_bind; [by eapply u64_past|]. intros n a f1 (-> & Hp). apply follows_if. intros _.
    by apply (change_input_ended f kp rest Hinv (fun i => put_sig_ops i n)).
  - pose proof (on_input_ended f rest Hinv _ _ (derivations_follows index depth inner kp start key v ktext text rest index_u32 Hd Hin Hkp Hc Hf Hr Hs Hm)) as H.
    destruct v as [| | | | |[|m ms]]; try exact H; cbn [it inner] in H.
    + cbn [mbind option_bind] in H. assert (with_input (it f) (the_input (it f)) = it f) as He by (by destruct (it f)). rewrite He in H. exact H.
    + destruct (steps _ _ _ _); [|exact H]. cbn [mbind option_bind] in *. by destruct (keep _ _ _ _).
  - by eapply keep_hex_follows.
  - by eapply keep_object_follows.
  - by eapply execution_follows.
  - unfold parse_minimum_signatures. rewrite Hsc. eapply follows_bind; [by eapply u64_past|]. intros n a f1 (-> & Hp).
    apply follows_if. intros _. by eapply capture_ended.
  - by eapply keep_any_follows.
Qed.
End input_fields.
End inputs.
