(* ===== verification/PsktParserProofs.v ===== *)
(** * PSKT documents: the parser implements the meaning

    Inputs, outputs and the top level: the parser of a document follows the
    meaning of its tree, and a text that is no document is refused. *)

From S2P Require Import Prelude Bytes TxModel PsktSyntax PsktParser PsktGrammar PsktMeaning PsktTokens PsktObjects PsktFields PsktInputs PsktSerializer.
Import Hex.

(** ** The slots of inputs and outputs *)

Lemma get_at_insert {A} (l : list A) i x : 0 <= i < blen l -> get_at (<[Z.to_nat i := x]> l) i = Some x.
Proof.
  intros Hi. unfold get_at. rewrite (proj2 (Z.leb_le 0 i)) by lia. apply list_lookup_insert_eq. unfold blen in Hi. lia.
Qed.

Lemma copy_into_fits output i bytes : 0 <= i -> i + blen bytes <= blen output ->
  exists b, copy_into output i bytes = Some b /\ blen b = blen output.
Proof.
  intros Hi Hl. unfold copy_into. rewrite (proj2 (Z.leb_le _ _) Hi), (proj2 (Z.leb_le _ _) Hl). eexists. split; [reflexivity|].
  unfold blen in *. rewrite !length_app, length_take, length_drop. lia.
Qed.

Lemma store_redeem_fit index script t i : fit_tx t -> get_at (tx_inputs t) index = Some i -> blen (redeem_script i) = MAX_SCRIPT_SIZE ->
  match store_redeem index script t with
  | (Ok _, t') => fit_tx t'
  | (Err (Fails _), _) => True
  | (Err Panics, _) => False
  end.
Proof.
  intros (Hp & Ho & Hu & Hn) Hi Hs. unfold store_redeem, change_input. rewrite Hi. pose proof (blen_nonneg script).
  destruct (blen script =? 0); [done|]. destruct (Z.leb_spec (blen script) MAX_SCRIPT_SIZE).
  - destruct (copy_into_fits (redeem_script i) 0 script) as (b & -> & _); [lia..|]. done.
  - destruct (MAX_REDEEM_SIZE <? blen script); [done|]. destruct (Z.ltb_spec REDEEM_POOL_SIZE (redeem_pool_used t + blen script)); [done|].
    destruct (copy_into_fits (redeem_pool t) (redeem_pool_used t) script) as (b & -> & Hb); [lia..|].
    unfold bind, set_pool. cbn [tx_inputs]. rewrite Hi. split; [cbn; congruence|]. split; [done|]. split; [cbn; lia|done].
Qed.

Lemma ensure_slots_fit count t : fit_tx t ->
  match ensure_input_slots count t with
  | (Ok _, t') => fit_tx t' /\ count <= blen (tx_inputs t')
  | (Err _, _) => True
  end.
Proof.
  intros Hfit. unfold ensure_input_slots. destruct (_ <? count); [done|]. destruct (Z.ltb_spec (blen (tx_inputs t)) count) as [Hlt|]; [|done].
  split; [done|]. cbn. rewrite blen_app. unfold blen in *. rewrite length_replicate. lia.
Qed.

Section document.
Variable data : list Z.
Hypothesis data_u32 : blen data <= u32_max.
Notation stands f text := (at_text data (at_ f) text).
Notation ended := (ended data).
Notation holds := (holds data).
Notation moved := (moved data).
Notation past := (past data).

Lemma items_first v items : exists ts, join (map toks (v :: items)) ++ [RBracket] = first_tok v :: ts.
Proof.
  destruct items as [|w items].
  - cbn [map join]. rewrite toks_split. by eexists.
  - cbn [map]. rewrite join_cons, toks_split by done. by eexists.
Qed.

Lemma items_count (p : Z) items text rest : at_text data p text -> reads (join (map toks items) ++ [RBracket]) text rest ->
  (length items <= length data)%nat.
Proof.
  intros Hp Hr. pose proof (tokens_bound _ _ _ _ _ Hp Hr) as Hb. rewrite length_app in Hb.
  assert (length items <= length (join (map toks items)))%nat; [|lia]. clear. induction items as [|v items IH]; [done|].
  destruct items; [cbn [map join]; rewrite toks_split; cbn; lia|]. cbn [map] in *. rewrite join_cons, toks_split, length_app by done. cbn [length] in *. lia.
Qed.

(** ** Inputs *)

Lemma input_follows index depth (f : Frame InputDoc) kp v text rest : 0 <= index <= u32_max -> 0 <= depth ->
  fit_input_doc (it f) -> holds (held f) kp -> canonical depth v = true -> stands f text -> reads (toks v) text rest ->
  follows (parse_input data index) f (object_meaning Schema.Input (input_meaning index) kp (it f) v)
    (fun r _ f' => ended fit_input_doc rest r f').
Proof.
  intros Hi Hd Hinv Hkp Hc Hf Hr.
  by apply (braced_follows data fit_input_doc depth Schema.Input _ _ true f kp v text rest (input_field_follows data data_u32 index Hi (depth + 1) ltac:(lia))).
Qed.

Lemma fresh_fit : fit_input_doc fresh_input.
Proof. done. Qed.

Lemma input_at_follows index depth (f : Frame Transaction) kp v text rest : 0 <= index <= u32_max -> 0 <= depth ->
  fit_tx (it f) -> holds (held f) kp -> canonical depth v = true -> stands f text -> reads (toks v) text rest ->
  follows (parse_input_at data index) f (input_at_meaning index kp (it f) v) (fun r _ f' => ended fit_tx rest r f').
Proof.
  intros Hi Hd Hinv Hkp Hc Hf Hr. unfold parse_input_at, input_at_meaning.
  pose proof (ensure_slots_fit (index + 1) (it f) Hinv) as Hslots.
  destruct (ensure_input_slots (index + 1) (it f)) as [[u|e] t] eqn:He.
  2:{ apply refuses_first. exists TooManyInputs. eexists. unfold on_it, map_err. by rewrite He. }
  destruct Hslots as [Hfit Hlen].
  eapply follows_after with (P := fun _ f' => f' = {| at_ := at_ f; held := held f; it := t |}).
  { do 2 eexists. unfold on_it, map_err. rewrite He. done. }
  intros u1 f1 ->. destruct (get_at_lt (tx_inputs t) index) as [old Hold]; [lia|].
  set (t1 := set_inputs (<[Z.to_nat index := empty_input]> (tx_inputs t)) t).
  assert (Hrow : get_at (tx_inputs t1) index = Some empty_input) by (apply get_at_insert; lia).
  eapply follows_after with (P := fun _ f' => f' = {| at_ := at_ f; held := held f; it := t1 |}).
  { do 2 eexists. unfold on_it, change_input. cbn [it]. by rewrite Hold. }
  intros u2 f2 ->. cbn [at_ held it]. 
  pose proof (input_follows index depth {| at_ := at_ f; held := held f; it := fresh_input |} kp v text rest Hi Hd fresh_fit Hkp Hc Hf Hr) as Hin.
  cbn [it] in Hin. unfold follows, yields, refuses in *. cbn [at_ held it].
  assert (Hfresh : {| the_input := default empty_input (get_at (tx_inputs t1) index); redeem := zeros MAX_REDEEM_SIZE; redeem_len := 0 |} = fresh_input)
    by (by rewrite Hrow).
  rewrite Hfresh. clear Hfresh.
  destruct (object_meaning _ _ _ _ v) as [[kp' d]|]; cbn [mbind option_bind].
  2:{ destruct Hin as (e & f3 & ->). by do 2 eexists. }
  destruct Hin as (u3 & f3 & -> & Hf3 & Hh3 & Hi3 & Hfi & Hb & Hl). cbn [fst snd] in *. rewrite Hi3.
  set (t2 := set_inputs (<[Z.to_nat index := the_input d]> (tx_inputs t)) t).
  assert (Ht2 : set_inputs (<[Z.to_nat index := the_input d]> (tx_inputs t1)) t1 = t2).
  { unfold t1, t2. cbn [set_inputs tx_inputs]. by rewrite list_insert_insert_eq. }
  assert (Hs : slice (redeem d) 0 (redeem_len d) = Some (take (Z.to_nat (redeem_len d)) (redeem d))).
  { unfold slice. rewrite Hb. rewrite (proj2 (Z.leb_le 0 (redeem_len d))), (proj2 (Z.leb_le (redeem_len d) _)) by lia. cbn [Z.leb andb].
    by rewrite Z.sub_0_r. }
  rewrite Hs, Ht2. unfold on_it, map_err. cbn [it].
  pose proof (store_redeem_fit index (take (Z.to_nat (redeem_len d)) (redeem d)) t2 (the_input d)) as Hst.
  destruct (store_redeem _ _ t2) as [[u4|[e|]] t3].
  - do 2 eexists. split; [reflexivity|]. cbn [at_ held it fst snd]. split_and!; try done; apply Hst; [done|apply get_at_insert; lia|apply Hfi].
  - by do 2 eexists.
  - destruct Hst; [done|apply get_at_insert; lia|apply Hfi].
Qed.
(** What stands after an element, and the rest of the array. *)
Lemma toks_nonempty v : toks v <> [].
Proof. by rewrite toks_split. Qed.

Lemma input_loop_follows depth items : 0 <= depth -> forall fuel index (f : Frame Transaction) kp text rest,
  items <> [] -> (length items <= fuel)%nat -> 0 <= index -> index + blen items <= u32_max -> forallb (canonical depth) items = true ->
  fit_tx (it f) -> holds (held f) kp -> stands f text -> reads (join (map toks items) ++ [RBracket]) text rest ->
  follows (input_loop data fuel index) f
    ('(kp, t) ← items_meaning input_at_meaning index kp (it f) items; Some (kp, put_num_inputs t (index + blen items)))
    (fun r _ f' => ended fit_tx rest r f').
Proof.
  intros Hd. induction items as [|v items IH]; [done|]. intros fuel index f kp text rest _ Hfuel H0 Hb Hc Hinv Hkp Hf Hr.
  rewrite blen_cons in *. pose proof (blen_nonneg items).
  destruct fuel as [|fuel]; [cbn in Hfuel; lia|]. cbn [input_loop items_meaning]. cbn [forallb] in Hc. apply andb_prop in Hc as [Hc Hcs].
  apply join_split in Hr as (r0 & Hv & Htail); [|apply toks_nonempty].
  destruct (input_at_meaning index kp (it f) v) as [[kp1 t1]|] eqn:Hmean; cbn [mbind option_bind].
  2:{ pose proof (input_at_follows index depth f kp v text r0 ltac:(lia) Hd Hinv Hkp Hc Hf Hv) as Hitem. rewrite Hmean in Hitem. by apply refuses_first. }
  pose proof (input_at_follows index depth f kp v text r0 ltac:(lia) Hd Hinv Hkp Hc Hf Hv) as Hitem. rewrite Hmean in Hitem.
  eapply follows_after; [exact Hitem|]. intros u f1 (Hf1 & Hh1 & Hi1 & Hinv1). cbn [fst snd] in *.
  destruct (decide (items = [])) as [->|Hne].
  - eapply follows_after; [by eapply next_yields|]. intros t f2 (-> & t2 & (Hf2 & Hh2 & Hi2) & Hr2). inversion Hr2; subst.
    cbn [items_meaning mbind option_bind]. do 2 eexists. split; [reflexivity|]. cbn [at_ held it fst snd]. rewrite Hi2, Hh2.
    rewrite Z.add_0_r. done.
  - eapply follows_after; [by eapply next_yields|]. intros t f2 (-> & t2 & (Hf2 & Hh2 & Hi2) & Hr2).
    replace (index + (1 + blen items)) with (index + 1 + blen items) by lia. subst t1. rewrite <- Hi2 in *.
    eapply IH; try done; [cbn in Hfuel; lia|lia..|by rewrite Hh2].
Qed.

Lemma inputs_follows depth (f : Frame Transaction) kp v text rest : 0 <= depth ->
  fit_tx (it f) -> holds (held f) kp -> canonical depth v = true -> stands f text -> reads (toks v) text rest ->
  follows (parse_inputs_array data) f (inputs_meaning kp (it f) v) (fun r _ f' => ended fit_tx rest r f').
Proof.
  intros Hd Hinv Hkp Hc Hf Hr. rewrite toks_split in Hr. unfold parse_inputs_array. destruct v as [|b|d|s|items|ms].
  1-4,6: apply refuses_first; eapply expect_refuses; [done|exact Hr|by try destruct b].
  eapply follows_after; [by eapply expect_yields|]. intros u f1 (t1 & (Hf1 & Hh1 & Hi1) & Hr1). cbn [more_toks inputs_meaning] in *.
  destruct items as [|v items].
  - cbn [map join app] in Hr1. eapply follows_after; [by eapply peek_yields|]. intros t f2 (-> & ->). cbn [same_kind].
    eapply follows_after; [by eapply next_yields|]. intros t f2 (-> & t2 & (Hf2 & Hh2 & Hi2) & Hr2). inversion Hr2; subst.
    cbn [items_meaning mbind option_bind]. do 2 eexists. split; [reflexivity|]. cbn [at_ held it fst snd]. rewrite Hi2, Hi1, Hh2, Hh1. done.
  - pose proof (items_first v items) as [ts Hts]. pose proof Hr1 as Hr1'. rewrite Hts in Hr1'.
    eapply follows_after; [by eapply peek_yields|]. intros t f2 (-> & ->).
    replace (same_kind (first_tok v) RBracket) with false by (by destruct v as [|[]| | | |]).
    assert (Hcount : (length (v :: items) <= length data)%nat) by (eapply items_count; eassumption).
    rewrite <- Hi1. eapply (input_loop_follows (depth + 1) (v :: items)); try done; [lia|lia|unfold blen in *; lia| |by rewrite Hi1|by rewrite Hh1].
    cbn [canonical] in Hc. by apply andb_prop in Hc as [_ Hc].
Qed.

(** ** Outputs *)

Lemma binding_field_follows depth : field_follows data (fun _ => True) depth
  (known_only Schema.CovenantBinding (fun key =>
    if list_Z_eqb key (str "authorizingInput") then
      let* input_index := expect_u64 data in
      if u16_max <? input_index then fail InvalidCovenantBinding
      else change (fun o => put_covenant_auth o input_index)
    else if list_Z_eqb key (str "covenantId") then
      let* covenant_id_hex := expect_string data in
      if negb (blen covenant_id_hex =? 64) then fail InvalidCovenantBinding
      else
        let* _ := map_err (fun _ => Fails InvalidCovenantBinding)
                    (decode_into covenant_id_hex covenant_id (fun b o => put_covenant_id o b)) in
        ret tt
    else fail UnexpectedToken)) binding_meaning.
Proof.
  intros f kp start key v ktext text rest Hinv Hkp Hf Hr Hc Hs Hm. unfold known_only, binding_meaning.
  case_bool_decide as Hk.
  - tests; [| |apply refuses_fail].
    + eapply follows_bind; [by eapply u64_past|]. intros n a f1 (-> & Hp). apply follows_if. intros _.
      by apply (set_ended data (fun _ => True) _ (fun o => put_covenant_auth o n) f).
    + eapply follows_bind; [by eapply str_past|]. intros s a f1 (-> & Hp). apply follows_if_not. intros _.
      apply (decode_part_ended data (fun _ => True) s covenant_id (fun b o => put_covenant_id o b) f kp rest f1 (fun _ => InvalidCovenantBinding));
        [done|done|]. intros f0. unfold map_err, decode_into, on_it, bind. by destruct (hex_decode_strict s (covenant_id (it f0))) as [[n|e] b].
  - tests; try (match goal with H : list_Z_eqb _ _ = true |- _ => apply list_Z_eqb_eq in H as -> end; by destruct Hk; eauto).
    apply refuses_fail.
Qed.

Lemma binding_follows depth (f : Frame TransactionOutput) kp v text rest :
  canonical depth v = true -> holds (held f) kp -> stands f text -> reads (toks v) text rest ->
  follows (parse_covenant_binding data) f
    (match v with
     | JNull => Some (kp, put_has_covenant (it f) false)
     | _ => '(kp, o) ← object_meaning Schema.CovenantBinding binding_meaning kp (it f) v; Some (kp, put_has_covenant o true)
     end) (fun r _ f' => ended (fun _ => True) rest r f').
Proof.
  intros Hc Hkp Hf Hr.
  pose proof (known_body_follows data _ depth _ _ _ true f kp v text rest (binding_field_follows _) Hc I Hkp Hf Hr) as H.
  destruct v as [|b|d|s|items|ms].
  2-5: rewrite toks_split in Hr; eapply follows_after; [by eapply next_yields|]; intros t f1 (-> & _); try destruct b; apply refuses_fail.
  - eapply follows_after; [by eapply next_past|]. intros t f1 (-> & Hp).
    by apply (set_ended data (fun _ => True) _ (fun o => put_has_covenant o false) f); [apply Hp| |].
  - set (ending := fun _ : unit => change (fun o => put_has_covenant o true)).
    assert (Hrun : parse_covenant_binding data f =
      bind (let* _ := expect data LBrace in let* _ := if true then reject_empty_object data else ret tt in
            parse_object_body data Schema.CovenantBinding (covenant_binding_member data)) ending f).
    { rewrite toks_split in Hr. destruct (next_yields data f _ _ _ _ Hf Hr) as (t & f1 & Hn & -> & _). unfold parse_covenant_binding, expect, bind. rewrite Hn. cbn [first_tok same_kind ret].
      by destruct (reject_empty_object data f1) as [[]]. }
    unfold follows, yields, refuses. rewrite !Hrun.
    eapply follows_bind; [exact H|]. intros [kp' o] u f1 (Hf1 & Hh1 & Hi1 & _). cbn [fst snd] in *.
    do 2 eexists. split; [reflexivity|]. cbn [at_ held it fst snd]. by rewrite Hi1.
Qed.

Lemma mark_holds index h kp : holds h kp -> holds (mark_output_covenant_binding_field index h) (mark index kp).
Proof.
  intros (H1 & H2 & H3 & H4 & H5 & H6 & H7 & H8 & H9). unfold mark_output_covenant_binding_field, mark.
  destruct (index <? 16); [|done]. split_and!; cbn; try done. by rewrite H5.
Qed.

Lemma out_hint_run p q v o : extract_ms45_hint data p q = hint_of v ->
  (if h_present (out_ms45_hint o) then o
   else match extract_ms45_hint data p q with Some hint => put_out_hint o hint | None => o end)
  = put_out_hint o (first_hint (out_ms45_hint o) v).
Proof.
  intros ->. unfold first_hint. destruct (h_present (out_ms45_hint o)); [by destruct o|]. destruct (hint_of v); by destruct o.
Qed.

Lemma output_derivations_follows index depth (f : Frame TransactionOutput) kp start key v ktext text rest :
  0 <= depth -> holds (held f) kp -> canonical depth v = true -> stands f text -> reads (toks v) text rest ->
  at_text data start ktext -> reads (member_toks (key, v)) ktext rest ->
  follows (parse_output_derivations data index start) f
    (keep_object (output index) kp (match v with JObj (_ :: _) => put_out_hint (it f) (first_hint (out_ms45_hint (it f)) v) | _ => it f end) key v)
    (fun r _ f' => ended (fun _ => True) rest r f').
Proof.
  intros Hd Hkp Hc Hf Hr Hs Hm. pose proof Hr as Hr0. rewrite toks_split in Hr0. unfold parse_output_derivations.
  eapply follows_after with (P := fun a f' => a = at_ f /\ f' = f); [by exists (at_ f), f|]. intros p f0 (-> & ->).
  destruct v as [|b|d|s|items|ms].
  1-5: cbn [keep_object follows]; apply refuses_first; eapply expect_refuses; [done|exact Hr0|by try destruct b].
  eapply follows_after; [by eapply expect_yields|]. intros u f1 (t1 & Hm1 & Hr1). cbn [more_toks] in Hr1. pose proof Hm1 as (Hf1 & Hh1 & Hi1).
  eapply follows_after; [by eapply empty_object_yields|]. intros a f2 (-> & Hm2). destruct (decide (ms = [])) as [->|Hne].
  - rewrite bool_decide_eq_true_2 by done. apply ret_ended; [done|]. apply moved_past; [done|]. by eapply moved_trans.
  - rewrite bool_decide_eq_false_2 by done. subst f2. destruct ms as [|m ms]; [done|]. unfold keep_object, keep_any.
    set (v := JObj (m :: ms)) in *. set (o := put_out_hint _ _).
    replace (if fits v then kp ← keep (output index) key v kp; Some (kp, o) else None)
      with ((if fits v then Some tt else None) ≫= fun _ => kp ← keep (output index) key v kp; Some (kp, o)) by (by destruct (fits v)).
    eapply follows_bind; [by eapply (skip_rest_follows data RBrace ObjectKeyOrEnd f1 v)|].
    intros [] u2 f2 Hm2. pose proof (moved_trans _ _ _ _ _ _ Hm1 Hm2) as (Hf2 & Hh2 & Hi2).
    eapply follows_after with (P := fun a f' => a = at_ f2 /\ f' = f2); [by exists (at_ f2), f2|]. intros q f3 (-> & ->).
    set (f' := {| at_ := at_ f2; held := held f2; it := o |}).
    eapply follows_after with (P := fun _ f3 => f3 = f').
    { do 2 eexists. split; [reflexivity|]. rewrite Hi2, (out_hint_run _ _ v); [done|]. by eapply hint_follows. }
    intros u3 f3 ->. apply (capture_ended data data_u32 (fun _ => True) f' kp _ _ _ _ ktext); try done.
    split_and!; cbn [at_ held it f']; [done|by rewrite Hh2|done].
Qed.

Lemma output_field_follows index depth : 0 <= index -> 0 <= depth ->
  field_follows data (fun _ => True) depth (output_field data index) (output_meaning index).
Proof.
  intros Hi Hd f kp start key v ktext text rest Hinv Hkp Hf Hr Hc Hs Hm. unfold output_field, output_meaning. tests.
  - eapply follows_bind; [by eapply u64_past|]. intros n a f1 (-> & Hp).
    by apply (set_ended data (fun _ => True) _ (fun o => put_value o n) f).
  - eapply follows_bind; [by eapply str_past|]. intros s a f1 (-> & Hp).
    by apply (spk_part_ended data (fun _ => True) out_script_public_key (fun spk o => put_out_spk o spk) f kp rest f1).
  - eapply follows_after with (P := fun _ f' => at_ f' = at_ f /\ holds (held f') (mark index kp) /\ it f' = it f).
    { do 2 eexists. split; [reflexivity|]. cbn [at_ held it]. split_and!; [done| |done]. by apply mark_holds. }
    intros u f1 (Ha1 & Hh1 & Hi1). rewrite <- Ha1 in Hf. rewrite <- Hi1. eapply binding_follows; done.
  - by eapply keep_hex_follows.
  - by eapply output_derivations_follows.
  - by eapply keep_object_follows.
  - by eapply keep_any_follows.
Qed.

Lemma output_at_follows index depth (f : Frame Transaction) kp v text rest : 0 <= index < MAX_OUTPUTS -> 0 <= depth ->
  fit_tx (it f) -> holds (held f) kp -> canonical depth v = true -> stands f text -> reads (toks v) text rest ->
  follows (parse_output_at data index) f (output_at_meaning index kp (it f) v) (fun r _ f' => ended fit_tx rest r f').
Proof.
  intros Hi Hd (Hp & Ho & Hu & Hn) Hkp Hc Hf Hr. unfold parse_output_at, output_at_meaning. rewrite (proj2 (Z.leb_gt _ _)) by lia.
  destruct (get_at_lt (tx_outputs (it f)) index) as [old Hold]; [lia|].
  set (t1 := set_outputs (<[Z.to_nat index := empty_output]> (tx_outputs (it f))) (it f)).
  assert (Hrow : get_at (tx_outputs t1) index = Some empty_output) by (apply get_at_insert; lia).
  eapply follows_after with (P := fun _ f' => f' = {| at_ := at_ f; held := held f; it := t1 |}).
  { do 2 eexists. unfold on_it, change_output. by rewrite Hold. }
  intros u f1 ->. unfold zoom, follows, yields, refuses. cbn [at_ held it]. rewrite Hrow.
  change (default empty_output (Some empty_output)) with empty_output.
  assert (H : follows (parse_output data index) {| at_ := at_ f; held := held f; it := empty_output |}
    (object_meaning Schema.Output (output_meaning index) kp empty_output v) (fun r _ f' => ended (fun _ => True) rest r f')).
  { by apply (braced_follows data (fun _ => True) depth Schema.Output _ _ true {| at_ := at_ f; held := held f; it := empty_output |} kp v text rest
      (output_field_follows index (depth + 1) ltac:(lia) ltac:(lia))). }
  unfold follows, yields, refuses in *. cbn [it] in H. destruct (object_meaning _ _ _ _ v) as [[kp' o]|]; cbn [mbind option_bind].
  - destruct H as (u2 & f2 & Hrun & Hf2 & Hh2 & Hi2 & _). cbn [fst snd] in *. do 2 eexists.
    rewrite Hrun. split; [reflexivity|]. cbn [at_ held it fst snd]. rewrite Hi2.
    assert (set_outputs (<[Z.to_nat index := o]> (tx_outputs t1)) t1 = set_outputs (<[Z.to_nat index := o]> (tx_outputs (it f))) (it f)) as ->.
    { unfold t1. cbn [set_outputs tx_outputs]. by rewrite list_insert_insert_eq. }
    do 3 (split; [done|]). split; [done|]. split; [cbn; unfold blen in *; by rewrite length_insert|done].
  - destruct H as (e & f2 & Hrun). do 2 eexists.
    rewrite Hrun. reflexivity.
Qed.

Lemma output_loop_follows depth items : 0 <= depth -> forall fuel index (f : Frame Transaction) kp text rest,
  items <> [] -> 0 <= index -> index + Z.of_nat fuel = MAX_OUTPUTS -> forallb (canonical depth) items = true ->
  fit_tx (it f) -> holds (held f) kp -> stands f text -> reads (join (map toks items) ++ [RBracket]) text rest ->
  follows (bounded_loop data fuel MAX_OUTPUTS TooManyOutputs (parse_output_at data) index) f
    (items_meaning output_at_meaning index kp (it f) items)
    (fun r n f' => n = index + blen items /\ n <= MAX_OUTPUTS /\ ended fit_tx rest r f').
Proof.
  intros Hd. induction items as [|v items IH]; [done|]. intros fuel index f kp text rest _ H0 Hfuel Hc Hinv Hkp Hf Hr.
  rewrite blen_cons. cbn [items_meaning]. cbn [forallb] in Hc. apply andb_prop in Hc as [Hc Hcs].
  apply join_split in Hr as (r0 & Hv & Htail); [|apply toks_nonempty].
  destruct (Z.leb_spec MAX_OUTPUTS index) as [Hle|Hlt].
  { assert (output_at_meaning index kp (it f) v = None) as -> by (unfold output_at_meaning; by rewrite (proj2 (Z.leb_le _ _))).
    destruct fuel; cbn [bounded_loop]; rewrite (proj2 (Z.leb_le _ _)) by done; apply refuses_fail. }
  destruct fuel as [|fuel]; [lia|]. cbn [bounded_loop]. rewrite (proj2 (Z.leb_gt _ _)) by done.
  eapply follows_bind; [eapply (output_at_follows index depth); try done; lia|]. intros [kp1 t1] u f1 (Hf1 & Hh1 & Hi1 & Hinv1). cbn [fst snd] in *.
  destruct (decide (items = [])) as [->|Hne].
  - eapply follows_after; [by eapply (array_separator_yields data f1 false)|]. intros more f2 (-> & t2 & (Hf2 & Hh2 & Hi2) & Hr2). inversion Hr2; subst.
    cbn [items_meaning negb]. apply yields_ret. rewrite blen_nil, Z.add_0_r. split; [done|]. split; [lia|]. split_and!; cbn [fst snd]; [done|by rewrite Hh2|done|done].
  - eapply follows_after; [by eapply (array_separator_yields data f1 true)|]. intros more f2 (-> & t2 & (Hf2 & Hh2 & Hi2) & Hr2).
    cbn [negb]. subst t1. rewrite <- Hi2 in *.
    eapply follows_mono; [eapply (IH fuel (index + 1)); try done; [lia|lia|by rewrite Hh2]|].
    intros [kp2 x2] n f3 (-> & Hb & H). split; [lia|]. split; [lia|done].
Qed.

Lemma outputs_follows depth (f : Frame Transaction) kp v text rest : 0 <= depth ->
  fit_tx (it f) -> holds (held f) kp -> canonical depth v = true -> stands f text -> reads (toks v) text rest ->
  follows (parse_outputs_array data) f (outputs_meaning kp (it f) v) (fun r _ f' => ended fit_tx rest r f').
Proof.
  intros Hd Hinv Hkp Hc Hf Hr. rewrite toks_split in Hr. unfold parse_outputs_array, parse_bounded_array. destruct v as [|b|d|s|items|ms].
  1-4,6: apply refuses_first, refuses_first; eapply expect_refuses; [done|exact Hr|by try destruct b].
  cbn [more_toks outputs_meaning canonical] in *. apply andb_prop in Hc as [_ Hc].
  eapply follows_bind with (P := fun r n f' => n = blen items /\ n <= MAX_OUTPUTS /\ ended fit_tx rest r f').
  - eapply follows_after; [by eapply expect_yields|]. intros u f1 (t1 & (Hf1 & Hh1 & Hi1) & Hr1). unfold consume_empty_array.
    destruct items as [|v items].
    + cbn [map join app] in Hr1. eapply follows_after with (P := fun b f' => b = true /\ moved f1 rest f').
      { eapply yields_bind; [by eapply peek_yields|]. intros t f2 (-> & ->). cbn [same_kind].
        eapply yields_bind; [by eapply next_yields|]. intros t f2 (-> & t2 & Hm2 & Hr2). inversion Hr2; subst. by apply yields_ret. }
      intros b f2 (-> & Hf2 & Hh2 & Hi2). cbn [items_meaning]. apply yields_ret. split; [done|]. split; [done|].
      split_and!; cbn [fst snd]; [done|by rewrite Hh2, Hh1|congruence|done].
    + pose proof (items_first v items) as [ts Hts]. pose proof Hr1 as Hr1'. rewrite Hts in Hr1'.
      eapply follows_after with (P := fun b f' => b = false /\ f' = f1).
      { eapply yields_bind; [by eapply peek_yields|]. intros t f2 (-> & ->).
        replace (same_kind (first_tok v) RBracket) with false by (by destruct v as [|[]| | | |]). by apply yields_ret. }
      intros b f2 (-> & ->). rewrite <- Hi1. eapply follows_mono; [eapply (output_loop_follows (depth + 1) (v :: items)); try done;
        [lia|by rewrite Hi1|by rewrite Hh1]|]. done.
  - intros [kp' t'] n f1 (-> & Hb & Hf1 & Hh1 & Hi1 & Hinv1). cbn [fst snd] in *. do 2 eexists. split; [reflexivity|].
    cbn [at_ held it fst snd]. rewrite Hi1. pose proof (blen_nonneg items). destruct Hinv1 as (Hp & Ho & Hu & Hn). do 3 (split; [done|]). cbn [snd]. by split_and!.
Qed.

(** ** The document *)

Lemma global_follows depth (f : Frame Doc) kp v text rest : 0 <= depth ->
  PsktFields.fit_doc (it f) -> holds (held f) kp -> canonical depth v = true -> stands f text -> reads (toks v) text rest ->
  follows (parse_global data) f (object_meaning Schema.Global global_meaning kp (it f) v) (fun r _ f' => ended PsktFields.fit_doc rest r f').
Proof.
  intros Hd Hinv Hkp Hc Hf Hr.
  by apply (braced_follows data PsktFields.fit_doc depth Schema.Global _ _ true f kp v text rest (global_field_follows data data_u32 (depth + 1) ltac:(lia))).
Qed.

Lemma top_level_field_follows depth : 0 <= depth -> field_follows data PsktFields.fit_doc depth (top_level_field data) top_level_meaning.
Proof.
  intros Hd f kp start key v ktext text rest Hinv Hkp Hf Hr Hc Hs Hm. unfold top_level_field, top_level_meaning. tests.
  - by eapply global_follows.
  - apply (zoom_ended data tx (fun t d => with_tx d t) fit_tx PsktFields.fit_doc); [|done].
    by apply (inputs_follows depth {| at_ := at_ f; held := held f; it := tx (it f) |} kp v text).
  - apply (zoom_ended data tx (fun t d => with_tx d t) fit_tx PsktFields.fit_doc); [|done].
    by apply (outputs_follows depth {| at_ := at_ f; held := held f; it := tx (it f) |} kp v text).
  - by eapply keep_any_follows.
Qed.

Lemma validate_no_panic d : PsktFields.fit_doc d -> validate_top_level_object d <> Err Panics.
Proof.
  intros (_ & Ho & _ & Hn). unfold validate_top_level_object. destruct (_ || _); [done|].
  assert (Hs : slice (tx_outputs (tx d)) 0 (num_outputs (tx d)) = Some (take (Z.to_nat (num_outputs (tx d))) (tx_outputs (tx d)))).
  { unfold slice. rewrite Ho, (proj2 (Z.leb_le 0 (num_outputs (tx d)))), (proj2 (Z.leb_le (num_outputs (tx d)) _)) by lia. cbn [Z.leb andb].
    by rewrite Z.sub_0_r. }
  rewrite Hs. cbn [ok_or rbind]. case_match; [done|]. by destruct (validate_monetary_shape (tx d)).
Qed.

Lemma pskt_follows depth (f : Frame Transaction) v text rest : 0 <= depth ->
  fit_tx (it f) -> holds (held f) nothing_kept -> canonical depth v = true -> stands f text -> reads (toks v) text rest ->
  follows (parse_pskt_object data) f (pskt_meaning (it f) v) (fun r _ f' => ended fit_tx rest r f').
Proof.
  intros Hd Hinv Hkp Hc Hf Hr. rewrite toks_split in Hr. unfold parse_pskt_object, pskt_meaning. destruct v as [|b|d|s|items|ms].
  1-5: apply refuses_first; eapply expect_refuses; [done|exact Hr|by try destruct b].
  eapply follows_after; [by eapply expect_yields|]. intros u f1 (t1 & (Hf1 & Hh1 & Hi1) & Hr1). cbn [more_toks] in Hr1.
  apply object_parts in Hc as [Hnd Hg]. destruct ms as [|m ms].
  { cbn [map join app] in Hr1. apply refuses_first. eapply refuses_then; [by eapply peek_yields|]. intros t f2 (-> & ->). apply refuses_fail. }
  destruct (members_toks_first m ms) as [ts Hts]. pose proof Hr1 as Hr1'. rewrite Hts in Hr1'.
  eapply follows_after with (P := fun _ f' => f' = f1).
  { eapply yields_bind; [by eapply peek_yields|]. intros t f2 (-> & ->). by apply yields_ret. }
  intros u2 f2 ->. set (d0 := {| tx := it f; declared_input_count := None; declared_output_count := None |}).
  assert (Hbody : follows (let* _ := parse_object_body data Schema.TopLevel (parse_member data Schema.TopLevel (top_level_field data)) in
      fun f => (validate_top_level_object (it f), f)) {| at_ := at_ f1; held := held f1; it := d0 |}
    ('(kp, d) ← object_meaning Schema.TopLevel top_level_meaning nothing_kept d0 (JObj (m :: ms));
     if is_ok (validate_top_level_object d) then Some (kp, d) else None) (fun r _ f' => ended PsktFields.fit_doc rest r f')).
  { eapply follows_bind.
    - eapply (object_body_follows data PsktFields.fit_doc (depth + 1) Schema.TopLevel); try done;
        [apply top_level_field_follows; lia|cbn [held]; by rewrite Hh1].
    - intros [kp d] u3 f3 (Hf3 & Hh3 & Hi3 & Hinv3). cbn [fst snd] in *. pose proof (validate_no_panic d Hinv3) as Hno.
      unfold follows, yields, refuses. rewrite Hi3. destruct (validate_top_level_object d) as [[]|[e|]] eqn:Hv; cbn [is_ok].
      + by do 2 eexists.
      + do 2 eexists. reflexivity.
      + done. }
  replace ('(kp, d) ← object_meaning Schema.TopLevel top_level_meaning nothing_kept d0 (JObj (m :: ms));
           if is_ok (validate_top_level_object d) then Some (kp, tx d) else None)
    with (r ← ('(kp, d) ← object_meaning Schema.TopLevel top_level_meaning nothing_kept d0 (JObj (m :: ms));
           if is_ok (validate_top_level_object d) then Some (kp, d) else None); Some (r.1, tx r.2)).
  2:{ destruct (object_meaning _ _ _ _ _) as [[kp d]|]; cbn [mbind option_bind]; [|done]. by destruct (is_ok _). }
  unfold zoom, follows, yields, refuses in *. rewrite Hi1. fold d0.
  destruct ('(kp, d) ← object_meaning _ _ _ _ _; _) as [[kp d]|]; cbn [mbind option_bind fst snd].
  - destruct Hbody as (u3 & f3 & Hrun & Hf3 & Hh3 & Hi3 & Hinv3). do 2 eexists. rewrite Hrun. split; [reflexivity|].
    cbn [at_ held it fst snd] in *. rewrite Hi3. done.
  - destruct Hbody as (e & f3 & Hrun). do 2 eexists. rewrite Hrun. reflexivity.
Qed.

Lemma bundle_follows (f : Frame Transaction) v text rest :
  fit_tx (it f) -> holds (held f) nothing_kept -> canonical 0 v = true -> stands f text -> reads (toks v) text rest ->
  follows (parse_bundle_array data) f (match v with JArr [v] => pskt_meaning (it f) v | _ => None end) (fun r _ f' => ended fit_tx rest r f').
Proof.
  intros Hinv Hkp Hc Hf Hr. rewrite toks_split in Hr. unfold parse_bundle_array. destruct v as [|b|d|s|items|ms].
  1-4,6: apply refuses_first; eapply expect_refuses; [done|exact Hr|by try destruct b].
  eapply follows_after; [by eapply expect_yields|]. intros u f1 (t1 & (Hf1 & Hh1 & Hi1) & Hr1). cbn [more_toks canonical] in *.
  apply andb_prop in Hc as [_ Hc]. destruct items as [|v items].
  { cbn [map join app] in Hr1. eapply refuses_then; [by eapply peek_yields|]. intros t f2 (-> & ->). apply refuses_fail. }
  pose proof (items_first v items) as [ts Hts]. pose proof Hr1 as Hr1'. rewrite Hts in Hr1'.
  eapply follows_after; [by eapply peek_yields|]. intros t f2 (-> & ->).
  replace (same_kind (first_tok v) RBracket) with false by (by destruct v as [|[]| | | |]).
  apply join_split in Hr1 as (r0 & Hv & Htail); [|apply toks_nonempty]. cbn [forallb] in Hc. apply andb_prop in Hc as [Hc _].
  replace (match items with [] => pskt_meaning (it f) v | _ :: _ => None end)
    with (pskt_meaning (it f1) v ≫= fun r => match items with [] => Some r | _ => None end)
    by (rewrite Hi1; destruct (pskt_meaning (it f) v), items; done).
  eapply follows_bind; [eapply (pskt_follows 1); try done; [by rewrite Hi1|by rewrite Hh1]|].
  intros [kp t] u2 f2 (Hf2 & Hh2 & Hi2 & Hinv2). cbn [fst snd] in *. destruct items as [|w items];
    [rewrite decide_True in Htail by done|rewrite decide_False in Htail by done].
  - eapply follows_after; [by eapply next_yields|]. intros a f3 (-> & t3 & (Hf3 & Hh3 & Hi3) & Hr3). inversion Hr3; subst.
    apply yields_ret. split_and!; cbn [fst snd]; [done|by rewrite Hh3|done|done].
  - eapply refuses_then; [by eapply next_yields|]. intros a f3 (-> & _). apply refuses_fail.
Qed.

Lemma decoded_follows bundle v (f : Frame Transaction) :
  fit_tx (it f) -> holds (held f) nothing_kept -> at_ f = 0 -> canonical 0 v = true -> document_text v data ->
  follows (parse_decoded_json data bundle) f (document_meaning bundle (it f) v)
    (fun r _ f' => holds (held f') r.1 /\ it f' = r.2).
Proof.
  intros Hinv Hkp H0 Hc Hdoc. unfold parse_decoded_json.
  assert (Hvalid : validate_canonical_json data = Ok tt) by (apply validate_language_of_json; eauto).
  rewrite Hvalid. eapply follows_after with (P := fun _ f' => f' = f); [by exists tt, f|]. intros u f1 ->.
  destruct Hdoc as (rest & Hr & Hw). assert (Hf : stands f data) by (rewrite H0; apply at_text_start).
  assert (Hbody : follows (if bundle then parse_bundle_array data else parse_pskt_object data) f (document_meaning bundle (it f) v)
    (fun r _ f' => ended fit_tx rest r f')).
  { unfold document_meaning. destruct bundle; [by eapply bundle_follows|by eapply (pskt_follows 0)]. }
  replace (document_meaning bundle (it f) v) with (document_meaning bundle (it f) v ≫= Some) by (by destruct (document_meaning _ _ _)).
  eapply follows_bind; [exact Hbody|]. intros [kp t] u2 f2 (Hf2 & Hh2 & Hi2 & _). cbn [fst snd] in *.
  destruct (next_token_eof data _ _ Hf2 Hw) as [p Hp]. do 2 eexists. unfold expect, next, on_tok, bind. rewrite Hp. split; [reflexivity|].
  done.
Qed.

Lemma decoded_refuses bundle (f : Frame Transaction) : (forall v, canonical 0 v = true -> ~ document_text v data) ->
  refuses (parse_decoded_json data bundle) f.
Proof.
  intros Hno. unfold parse_decoded_json. destruct (validate_canonical_json data) as [[]|e] eqn:Hv.
  - apply validate_language_of_json in Hv as (v & Hc & Hd). by destruct (Hno v Hc).
  - apply refuses_first. destruct e; by do 2 eexists.
Qed.
End document.

(** ** The envelope *)

Definition MAGIC (bundle : bool) : list Z := if bundle then PSKB_MAGIC else PSKT_MAGIC.

Lemma strip_magic wire body : strip_pskt_magic wire = Ok body <->
  body <> [] /\ wire = MAGIC (starts_with wire PSKB_MAGIC) ++ body.
Proof.
  unfold strip_pskt_magic. split.
  - destruct (_ <? 4); [done|]. destruct (starts_with wire PSKB_MAGIC) eqn:Hb; cbn [negb andb].
    + apply starts_with_split in Hb as [rest ->]. rewrite suffix_app by done. case_bool_decide; [done|]. by intros [= <-].
    + destruct (starts_with wire PSKT_MAGIC) eqn:Ht; cbn [negb]; [|done].
      apply starts_with_split in Ht as [rest ->]. rewrite suffix_app by done. case_bool_decide; [done|]. by intros [= <-].
  - intros [Hne Hw]. assert (blen wire <? 4 = false) as ->.
    { rewrite Hw, blen_app. pose proof (blen_nonneg body). apply Z.ltb_ge.
      destruct (starts_with _ _); [change (blen (MAGIC true)) with 4|change (blen (MAGIC false)) with 4]; lia. }
    destruct (starts_with wire PSKB_MAGIC) eqn:Hb; cbn [negb andb MAGIC] in *; rewrite Hw.
    + rewrite suffix_app by done. by rewrite bool_decide_eq_false_2.
    + rewrite starts_with_app. cbn [negb]. rewrite suffix_app by done. by rewrite bool_decide_eq_false_2.
Qed.

(** The wire text is the envelope of a document: the bytes of the document in
    hexadecimal, small enough for the buffer, and its tree. *)
Definition envelope_of (wire scratch : list Z) (bundle : bool) (bytes : list Z) (v : Tree) : Prop :=
  wire = MAGIC bundle ++ hex_text bytes /\ bytes_ok bytes /\ blen bytes <= blen scratch /\ blen bytes <= u32_max /\
  canonical 0 v = true /\ document_text v bytes.

Lemma prepared_fit t : blen (redeem_pool t) = REDEEM_POOL_SIZE -> blen (tx_outputs t) = MAX_OUTPUTS -> fit_tx (prepare_for_parse t).
Proof. intros Hp Ho. split_and!; try done. cbn. unfold blen in *. by rewrite length_map. Qed.

Lemma fresh_holds data (h : PsktParsed) : unknowns_count h = 0 -> json_start h = 0 -> json_len h = blen data ->
  output_covenant_binding_present h = 0 -> unknowns h = unknowns empty_parsed -> unknown_scopes h = unknown_scopes empty_parsed ->
  holds data h nothing_kept.
Proof. intros H1 H2 H3 H4 H5 H6. unfold holds. rewrite H1, H2, H3, H4, H5, H6. split_and!; try done; by constructor. Qed.

Lemma hex_decode_text bytes scratch : bytes_ok bytes -> blen bytes <= blen scratch ->
  hex_decode_strict (hex_text bytes) scratch = (Ok (blen bytes), bytes ++ drop (length bytes) scratch).
Proof.
  intros Hok Hl. unfold hex_decode_strict, decode_lower_hex. rewrite decode_hex_with_spec by done.
  destruct (even_length_parity (length bytes)) as [H1 H2]. unfold blen in *. rewrite length_hex_text, H1, H2. cbn [Z.eqb negb ok_or].
  by rewrite (proj2 (Z.ltb_ge _ _)).
Qed.

Lemma hex_decode_inv text scratch n out : hex_decode_strict text scratch = (Ok n, out) ->
  exists bytes, text = hex_text bytes /\ bytes_ok bytes /\ n = blen bytes /\ blen bytes <= blen scratch /\ take (Z.to_nat n) out = bytes.
Proof.
  intros Hd. pose proof (hex_over text scratch) as H. rewrite Hd in H. destruct H as [Ho ->].
  apply over_inv in Ho as (bytes & -> & Hok & -> & Hl). exists bytes. split_and!; try done.
  - unfold blen. rewrite length_hex_text. by destruct (even_length_parity (length bytes)) as [_ ->].
  - unfold blen. rewrite length_hex_text. destruct (even_length_parity (length bytes)) as [_ ->].
    rewrite Nat2Z.id. by rewrite take_app_length.
Qed.

Lemma envelope_bytes wire scratch bundle bytes v : envelope_of wire scratch bundle bytes v ->
  strip_pskt_magic wire = Ok (hex_text bytes) /\ starts_with wire PSKB_MAGIC = bundle.
Proof.
  intros (-> & Hok & _ & _ & _ & (rest & Hr & _)). assert (Hb : starts_with (MAGIC bundle ++ hex_text bytes) PSKB_MAGIC = bundle).
  { destruct bundle; [apply starts_with_app|]. destruct (starts_with _ _) eqn:Hs; [|done]. by apply starts_with_split in Hs as [r Hs]. }
  split; [|done]. apply strip_magic. rewrite Hb. split; [|done]. intros Hn. apply (f_equal length) in Hn. rewrite length_hex_text in Hn.
  apply reads_length in Hr. rewrite toks_split in Hr. cbn [length] in Hr, Hn. unfold blen in *. lia.
Qed.

(** C11: The parser of the wire text: what it delivers is what the document means,
    what it refuses means nothing, and it never panics. *)
Theorem parse_pskt_correct wire scratch t parsed :
  blen (redeem_pool t) = REDEEM_POOL_SIZE -> blen (tx_outputs t) = MAX_OUTPUTS ->
  match parse_pskt wire scratch t parsed with
  | (Ok _, _, t', parsed') => exists bundle bytes v kp, envelope_of wire scratch bundle bytes v /\
      document_meaning bundle (prepare_for_parse t) v = Some (kp, t') /\ holds bytes parsed' kp
  | (Err (Fails _), _, _, _) => forall bundle bytes v, envelope_of wire scratch bundle bytes v ->
      document_meaning bundle (prepare_for_parse t) v = None
  | (Err Panics, _, _, _) => False
  end.
Proof.
  intros Hp Ho. unfold parse_pskt. destruct (strip_pskt_magic wire) as [body|e] eqn:Hs.
  2:{ intros bundle bytes v He. apply envelope_bytes in He as [He _]. congruence. }
  destruct (hex_decode_strict body scratch) as [[n|e] out] eqn:Hd.
  2:{ intros bundle bytes v He. pose proof (envelope_bytes _ _ _ _ _ He) as [Hs' _]. destruct He as (_ & Hok & Hl & _).
      rewrite Hs in Hs'. injection Hs' as ->. by rewrite hex_decode_text in Hd. }
  apply hex_decode_inv in Hd as (bytes & -> & Hok & -> & Hl & Hbytes). rewrite Hbytes.
  assert (Hsame : forall bundle bytes' v, envelope_of wire scratch bundle bytes' v -> bytes' = bytes /\ bundle = starts_with wire PSKB_MAGIC).
  { intros bundle bytes' v He. pose proof (envelope_bytes _ _ _ _ _ He) as [Hs' <-]. destruct He as (_ & Hok' & Hl' & _).
    rewrite Hs in Hs'. injection Hs' as Heq. split; [|done].
    assert (Hlen : blen bytes = blen bytes') by (apply (f_equal length) in Heq; rewrite !length_hex_text in Heq; unfold blen; lia).
    pose proof (hex_decode_text bytes scratch Hok Hl) as H1. rewrite Heq, hex_decode_text in H1 by done. injection H1 as H1 H2.
    apply (f_equal (take (length bytes))) in H2. rewrite take_app_length in H2.
    replace (length bytes) with (length bytes') in H2 by (unfold blen in Hlen; lia). by rewrite take_app_length in H2. }
  destruct (Z.ltb_spec u32_max (blen bytes)) as [Hbig|Hsmall].
  { intros bundle bytes' v He. destruct (Hsame _ _ _ He) as [-> _]. destruct He as (_ & _ & _ & Hu & _). lia. }
  set (bundle := starts_with wire PSKB_MAGIC) in *. set (h := {| unknowns := _ |}). set (f := {| at_ := 0; held := h; it := prepare_for_parse t |}).
  assert (Hfit : fit_tx (it f)) by by apply prepared_fit.
  assert (Hh : holds bytes (held f) nothing_kept) by by apply fresh_holds.
  destruct (validate_canonical_json bytes) as [[]|e] eqn:Hv.
  - apply validate_language_of_json in Hv as (v & Hc & Hdoc).
    pose proof (decoded_follows bytes Hsmall bundle v f Hfit Hh eq_refl Hc Hdoc) as H. cbn [it f] in H.
    unfold follows, yields, refuses in H. destruct (document_meaning bundle (prepare_for_parse t) v) as [[kp t']|] eqn:Hmean.
    + destruct H as ([] & f' & -> & Hh' & Hi'). cbn [fst snd] in *. rewrite Hi'. exists bundle, bytes, v, kp. split; [|done].
      split_and!; try done. apply strip_magic in Hs as [_ Hs]. exact Hs.
    + destruct H as (e & f' & Hrun). rewrite Hrun. intros bundle' bytes' v' He. destruct (Hsame _ _ _ He) as [-> ->].
      destruct He as (_ & _ & _ & _ & Hc' & Hdoc'). pose proof (decoded_follows bytes Hsmall bundle v' f Hfit Hh eq_refl Hc' Hdoc') as H'.
      cbn [it f] in H'. destruct (document_meaning bundle (prepare_for_parse t) v'); [|done].
      destruct H' as (u & f2 & Hrun' & _). congruence.
  - destruct (decoded_refuses bytes bundle f) as (e' & f' & Hrun).
    { intros v Hc Hdoc. assert (validate_canonical_json bytes = Ok tt) by (apply validate_language_of_json; eauto). congruence. }
    rewrite Hrun. intros bundle' bytes' v' He. destruct (Hsame _ _ _ He) as [-> ->]. destruct He as (_ & _ & _ & _ & Hc' & Hdoc').
    assert (validate_canonical_json bytes = Ok tt) by (apply validate_language_of_json; eauto). congruence.
Qed.

Definition sample_document : list Z := quoted
  "{ 'global':{'version':0,'txVersion':1,'fallbackLockTime':7,'inputsModifiable':false,'inputCount':1,'outputCount':1,
     'note':[1,{'a':null}]},
     'inputs':[{'utxoEntry':{'amount':'5000','scriptPublicKey':'00005151','blockDaaScore':9},
       'previousOutpoint':{'transactionId':'1111111111111111111111111111111111111111111111111111111111111111','index':2},
       'sequence':0,'sighashType':1,'sigOpCount':1}],
     'outputs':[{'amount':4000,'scriptPublicKey':'00005151'}]}".
Definition sample_wire : list Z := PSKT_MAGIC ++ hex_text sample_document.

Lemma parse_pskt_correct_witness :
  blen (redeem_pool new_tx) = REDEEM_POOL_SIZE /\ blen (tx_outputs new_tx) = MAX_OUTPUTS /\
  (let '(r, _, t, parsed) := parse_pskt sample_wire (zeros 2000) new_tx empty_parsed in
   (r, unknowns_count parsed, locktime t, num_outputs t)) = (Ok tt, 3, 7, 1) /\
  match parse_pskt sample_wire (zeros 2000) new_tx empty_parsed with
  | (Ok _, _, t', parsed') => exists bundle bytes v kp, envelope_of sample_wire (zeros 2000) bundle bytes v /\
      document_meaning bundle (prepare_for_parse new_tx) v = Some (kp, t') /\ holds bytes parsed' kp
  | (Err (Fails _), _, _, _) => forall bundle bytes v, envelope_of sample_wire (zeros 2000) bundle bytes v ->
      document_meaning bundle (prepare_for_parse new_tx) v = None
  | (Err Panics, _, _, _) => False
  end.
Proof.
  split; [reflexivity|]. split; [reflexivity|]. split; [vm_compute; reflexivity|].
  apply (parse_pskt_correct sample_wire (zeros 2000) new_tx empty_parsed); reflexivity.
Defined.
