(* ===== verification/Mnemonic.v ===== *)
(** * Mnemonics

    [src/src/wallet/mnemonic/bip39] and [src/src/wallet/derivation/bip85.rs].
    SHA-256 and SHA-512 are parameters. A computation that may index out of
    range is an [option], and [None] is the panic. Wiped fields of a state are
    zeroed as in the code; wiping a local buffer has no counterpart. *)

From S2P Require Import Prelude TxModel Selection Hd Wordlist.

(** ** [types.rs] *)

Inductive Bip39Error := InvalidEntropyLength | InvalidChecksum | InvalidWordCount | WordNotFound.

(** [Mnemonic12] and [Mnemonic24] are their [indices], [Seed] its [bytes]. *)

(** ** [words.rs] *)

(** [slice::binary_search_by]: the size shrinks by its half, so the length is
    fuel enough. *)
Fixpoint bisect {A} (fuel : nat) (compare : A -> comparison) (l : list A) (base size : Z) : Z :=
  match fuel with
  | O => base
  | S fuel =>
      if size <=? 1 then base
      else
        let half := size / 2 in
        let mid := base + half in
        let base := match compare <$> get_at l mid with Some Gt => base | _ => mid end in
        bisect fuel compare l base (size - half)
  end.

Definition binary_search_by {A} (compare : A -> comparison) (l : list A) : option Z :=
  if blen l =? 0 then None
  else
    let base := bisect (length l) compare l 0 (blen l) in
    match compare <$> get_at l base with Some Eq => Some base | _ => None end.

Definition str_cmp (a b : list Z) : comparison := cmp_text a b.

Definition word_to_index (word : list Z) : result Z Bip39Error :=
  ok_or (index ← binary_search_by (fun candidate => str_cmp candidate word) WORDLIST; Some (index mod 2 ^ 16)) WordNotFound.

Definition index_to_word (index : Z) : list Z :=
  if index <? blen WORDLIST then default [] (get_at WORDLIST index) else str "???".

(** ** [encoding.rs] *)

(** [for i in 0..n], on a state that may panic. *)
Definition for_range {S} (n : Z) (body : Z -> S -> option S) (s : S) : option S :=
  foldl (fun acc i => s ← acc; body i s) (Some s) (seqZ 0 n).

Definition extract_bits (data : list Z) (bit_offset num_bits : Z) : option Z :=
  for_range num_bits (fun i value =>
    byte ← get_at data ((bit_offset + i) / 8);
    let bit_idx := 7 - (bit_offset + i) mod 8 in
    let bit := Z.land (Z.shiftr byte bit_idx) 1 in
    Some (((Z.shiftl value 1) mod 2 ^ 16 + bit) mod 2 ^ 16)) 0.

Definition write_bits (data : list Z) (bit_offset value num_bits : Z) : option (list Z) :=
  for_range num_bits (fun i data =>
    let bit := Z.land (Z.shiftr value (num_bits - 1 - i)) 1 in
    let byte_idx := (bit_offset + i) / 8 in
    let bit_idx := 7 - (bit_offset + i) mod 8 in
    if bit =? 1
    then byte ← get_at data byte_idx; Some (<[Z.to_nat byte_idx := (byte + Z.shiftl 1 bit_idx) mod 256]> data)
    else Some data) data.

(** The two loops over the indices. *)
Definition extract_indices (combined : list Z) (words : Z) : option (list Z) :=
  mapM (fun i => extract_bits combined (i * 11) 11) (seqZ 0 words).
Definition write_indices (indices : list Z) (bits : list Z) : option (list Z * Z) :=
  foldl (fun acc index => '(bits, bit_pos) ← acc; bits ← write_bits bits bit_pos index 11; Some (bits, bit_pos + 11))
    (Some (bits, 0)) indices.

Definition entropy_to_indices_12 (entropy : list Z) (checksum_byte : Z) : option (list Z) :=
  extract_indices (entropy ++ [Z.land checksum_byte 0xF0]) 12.
Definition entropy_to_indices_24 (entropy : list Z) (checksum_byte : Z) : option (list Z) :=
  extract_indices (entropy ++ [checksum_byte]) 24.

Definition indices_to_entropy_12 (indices : list Z) : option (list Z * Z) :=
  '(bits, _) ← write_indices indices (zeros 17);
  last ← get_at bits 16;
  Some (take 16 bits, Z.shiftr last 4).
Definition indices_to_entropy_24 (indices : list Z) : option (list Z * Z) :=
  '(bits, _) ← write_indices indices (zeros 33);
  checksum ← get_at bits 32;
  Some (take 32 bits, checksum).

Section checksum.
Context (sha256 : list Z -> list Z).

Definition sha256_first_byte (data : list Z) : option Z := get_at (sha256 data) 0.

Definition mnemonic_from_entropy_12 (entropy : list Z) : option (list Z) :=
  checksum_byte ← sha256_first_byte entropy;
  entropy_to_indices_12 entropy checksum_byte.
Definition mnemonic_from_entropy_24 (entropy : list Z) : option (list Z) :=
  checksum_byte ← sha256_first_byte entropy;
  entropy_to_indices_24 entropy checksum_byte.

Definition validate_mnemonic_12 (indices : list Z) : option (result unit Bip39Error) :=
  '(entropy, checksum_bits) ← indices_to_entropy_12 indices;
  hash_byte ← sha256_first_byte entropy;
  let expected_checksum := Z.shiftr hash_byte 4 in
  Some (if negb (checksum_bits =? expected_checksum) then Err InvalidChecksum else Ok tt).
Definition validate_mnemonic_24 (indices : list Z) : option (result unit Bip39Error) :=
  '(entropy, checksum_byte) ← indices_to_entropy_24 indices;
  hash_byte ← sha256_first_byte entropy;
  Some (if negb (checksum_byte =? hash_byte) then Err InvalidChecksum else Ok tt).
End checksum.

(** ** [seed.rs] *)

Definition BIP39_PBKDF2_ROUNDS : Z := 2048.

(** The buffer and the position in it. *)
Definition serialize_word (word_index index : Z) (s : list Z * Z) : option (list Z * Z) :=
  let '(buf, pos) := s in
  '(buf, pos) ← (if 0 <? word_index then buf ← copy_into buf pos [32]; Some (buf, pos + 1) else Some (buf, pos));
  word_bytes ← get_at WORDLIST index;
  buf ← copy_into buf pos word_bytes;
  Some (buf, pos + blen word_bytes).
Definition serialize_mnemonic (indices : list Z) (buf : list Z) : option (list Z * Z) :=
  foldl (fun acc '(word_index, index) => s ← acc; serialize_word (Z.of_nat word_index) index s) (Some (buf, 0))
    (imap pair indices).

Definition build_salt (passphrase : list Z) (buf : list Z) : option (list Z * Z) :=
  buf ← copy_into buf 0 (str "mnemonic");
  buf ← copy_into buf 8 passphrase;
  Some (buf, 8 + blen passphrase).

Section seed.
Context (sha512 : list Z -> list Z).

(** [salt || INT(1)] in its buffer of 260 bytes. *)
Definition salt_with_index (salt : list Z) : option (list Z) :=
  buf ← copy_into (zeros 260) 0 salt;
  buf ← copy_into buf (blen salt) (be_bytes 4 1);
  slice buf 0 (blen salt + 4).

(** One round: the next block, and the sum of the blocks. *)
Definition next_round (password : list Z) (s : list Z * list Z) : list Z * list Z :=
  let '(u_prev, result) := s in
  let u_next := hmac_sha512 sha512 password u_prev in
  (u_next, zip_with Z.lxor result u_next).

Definition pbkdf2_hmac_sha512 (password salt : list Z) (iterations : Z) : option (list Z) :=
  message ← salt_with_index salt;
  let u1 := hmac_sha512 sha512 password message in
  Some (foldl (fun s _ => next_round password s) (u1, u1) (seqZ 1 (iterations - 1))).2.

Definition seed_from_indices (indices passphrase : list Z) : option (list Z) :=
  '(phrase_buf, phrase_len) ← serialize_mnemonic indices (zeros 256);
  '(salt_buf, salt_len) ← build_salt passphrase (zeros 256);
  phrase ← slice phrase_buf 0 phrase_len;
  salt ← slice salt_buf 0 salt_len;
  pbkdf2_hmac_sha512 phrase salt 2048.

Record SeedDerivation := {
  phrase_buf : list Z; phrase_len : Z; salt_buf : list Z; salt_len : Z;
  u_prev : list Z; result_ : list Z; rounds_complete : Z; finished : bool }.

Definition new (indices passphrase : list Z) : option SeedDerivation :=
  '(phrase, plen) ← serialize_mnemonic indices (zeros 256);
  '(salt, slen) ← build_salt passphrase (zeros 256);
  Some {| phrase_buf := phrase; phrase_len := plen; salt_buf := salt; salt_len := slen;
          u_prev := zeros 64; result_ := zeros 64; rounds_complete := 0; finished := false |}.

(** The fields the rounds change. *)
Definition set_rounds (d : SeedDerivation) (u r : list Z) (rounds : Z) : SeedDerivation :=
  {| phrase_buf := phrase_buf d; phrase_len := phrase_len d; salt_buf := salt_buf d; salt_len := salt_len d;
     u_prev := u; result_ := r; rounds_complete := rounds; finished := finished d |}.
Definition wipe_salt (d : SeedDerivation) : SeedDerivation :=
  {| phrase_buf := phrase_buf d; phrase_len := phrase_len d; salt_buf := zeros 256; salt_len := 0;
     u_prev := u_prev d; result_ := result_ d; rounds_complete := rounds_complete d; finished := finished d |}.
Definition wipe (d : SeedDerivation) : SeedDerivation :=
  {| phrase_buf := zeros 256; phrase_len := 0; salt_buf := zeros 256; salt_len := 0;
     u_prev := zeros 64; result_ := zeros 64; rounds_complete := 0; finished := finished d |}.
Definition set_finished (d : SeedDerivation) : SeedDerivation :=
  {| phrase_buf := phrase_buf d; phrase_len := phrase_len d; salt_buf := salt_buf d; salt_len := salt_len d;
     u_prev := u_prev d; result_ := result_ d; rounds_complete := rounds_complete d; finished := true |}.

(** The first round, with the salt. *)
Definition first_round (d : SeedDerivation) : option SeedDerivation :=
  salt ← slice (salt_buf d) 0 (salt_len d);
  message ← salt_with_index salt;
  phrase ← slice (phrase_buf d) 0 (phrase_len d);
  let u1 := hmac_sha512 sha512 phrase message in
  Some (wipe_salt (set_rounds d u1 u1 1)).

Definition further_round (d : SeedDerivation) (completed_round : Z) : option SeedDerivation :=
  phrase ← slice (phrase_buf d) 0 (phrase_len d);
  let '(u, r) := next_round phrase (u_prev d, result_ d) in
  Some (set_rounds d u r (Z.min u16_max (completed_round + 1))).

Definition advance (round_budget : Z) (d : SeedDerivation) : option (option (list Z) * SeedDerivation) :=
  if finished d then Some (None, d)
  else
    let target_round := Z.min (Z.min u16_max (rounds_complete d + round_budget)) BIP39_PBKDF2_ROUNDS in
    d ← (if (rounds_complete d =? 0) && (0 <? target_round) then first_round d else Some d);
    d ← foldl (fun acc round => d ← acc; further_round d round) (Some d)
          (seqZ (rounds_complete d) (target_round - rounds_complete d));
    if negb (rounds_complete d =? BIP39_PBKDF2_ROUNDS) then Some (None, d)
    else Some (Some (result_ d), set_finished (wipe d)).

Definition progress_percent (d : SeedDerivation) : Z :=
  if finished d then 100
  else if rounds_complete d =? 0 then 0
  else Z.max 1 ((rounds_complete d * 100 / BIP39_PBKDF2_ROUNDS) mod 256).
End seed.

(** ** [wallet/derivation/bip85.rs] *)

Module Bip85.

Inductive Bip85Error := DerivationFailed | InvalidWordCount.

Definition BIP85_HMAC_KEY : list Z := str "bip-entropy-from-k".

Section derive.
Context (sha256 sha512 : list Z -> list Z) `{Curve}.

Definition checked_add_u32 (a b : Z) : option Z := if a + b <=? u32_max then Some (a + b) else None.

Definition derive_bip85_entropy (seed : list Z) (words index : Z) : result (list Z) Bip85Error :=
  let? hardened_words := ok_or (checked_add_u32 words HARDENED_BIT) DerivationFailed in
  let? hardened_index := ok_or (checked_add_u32 index HARDENED_BIT) DerivationFailed in
  let path := [0x84fd1d48; 0x80000027; 0x80000000; hardened_words; hardened_index] in
  let? derived := rmap_err (fun _ => DerivationFailed) (Bip32.derive_path sha512 seed path) in
  Ok (hmac_sha512 sha512 BIP85_HMAC_KEY (Bip32.key derived)).

(** A slice or an index out of range is a panic. *)
Definition derive_mnemonic_12 (seed : list Z) (index : Z) : result (list Z) (Fault Bip85Error) :=
  let? entropy := rmap_err Fails (derive_bip85_entropy seed 12 index) in
  let? ent16 := ok_or (slice entropy 0 16) Panics in
  ok_or (mnemonic_from_entropy_12 sha256 ent16) Panics.
Definition derive_mnemonic_24 (seed : list Z) (index : Z) : result (list Z) (Fault Bip85Error) :=
  let? entropy := rmap_err Fails (derive_bip85_entropy seed 24 index) in
  let? ent32 := ok_or (slice entropy 0 32) Panics in
  ok_or (mnemonic_from_entropy_24 sha256 ent32) Panics.
End derive.
End Bip85.
