(* ===== verification/MnemonicProofs.v ===== *)
(** * Mnemonics: proofs

    Entropy and word indices are two groupings of one bit string; the words of
    the list have exactly one index each; a seed does not depend on how its
    rounds are cut into calls. *)

From S2P Require Import Prelude Bytes Address TxModel Script Selection Hd Wordlist Mnemonic.

Ltac Zify.zify_post_hook ::= Z.to_euclidean_division_equations.

(** ** Bits at positions *)

Lemma bits_of_lookup w v i : (i < w)%nat -> bits_of w v !! i = Some (Z.testbit v (Z.of_nat w - 1 - Z.of_nat i)).
Proof.
  revert i. induction w as [|w IH]; intros i Hi; [lia|]. cbn [bits_of]. destruct i as [|i]; cbn [lookup list_lookup].
  - do 2 f_equal. lia.
  - change (bits_of w v !! i = Some (Z.testbit v (Z.of_nat (S w) - 1 - Z.of_nat (S i)))). rewrite IH by lia. do 2 f_equal. lia.
Qed.

Lemma byte_bit l k : 0 <= k < 8 * blen l ->
  exists byte, get_at l (k / 8) = Some byte /\ all_bits 8 l !! Z.to_nat k = Some (Z.testbit byte (7 - k mod 8)).
Proof.
  revert k. induction l as [|b l IH]; intros k Hk; [unfold blen in Hk; cbn in Hk; lia|]. rewrite blen_cons in Hk.
  unfold all_bits. cbn [map concat]. fold (all_bits 8 l). destruct (Z.lt_ge_cases k 8) as [Hlt|Hge].
  - exists b. rewrite (Z.div_small k 8), (Z.mod_small k 8) by lia. split; [done|].
    rewrite lookup_app_l by (rewrite length_bits_of; lia). rewrite bits_of_lookup by lia. do 2 f_equal. lia.
  - destruct (IH (k - 8)) as (byte & Hb & Hbit); [lia|]. exists byte. replace k with (k - 8 + 1 * 8) by lia.
    rewrite Z.div_add, Z.mod_add by lia. split.
    + unfold get_at in *. destruct (Z.leb_spec 0 ((k - 8) / 8)) as [H0|]; [|done].
      rewrite (proj2 (Z.leb_le _ _)) by lia. rewrite Z2Nat.inj_add by lia. change (Z.to_nat 1) with 1%nat. by rewrite Nat.add_1_r.
    + rewrite lookup_app_r by (rewrite length_bits_of; lia). rewrite length_bits_of, <- Hbit. f_equal. lia.
Qed.

Lemma bit_value x i : 0 <= i -> Z.land (Z.shiftr x i) 1 = Z.b2z (Z.testbit x i).
Proof.
  intros. change 1 with (Z.ones 1). rewrite Z.land_ones, Z.shiftr_div_pow2, <- Z.testbit_spec' by lia. done.
Qed.

Lemma for_range_succ {S} (n : nat) (body : Z -> S -> option S) s :
  for_range (Z.of_nat (Datatypes.S n)) body s = s' ← for_range (Z.of_nat n) body s; body (Z.of_nat n) s'.
Proof. unfold for_range. rewrite seqZ_S, foldl_app. cbn [foldl]. done. Qed.

(** ** Reading bits *)

Lemma take_drop_lookup {A} (l : list A) a n x : l !! (a + n)%nat = Some x -> take (S n) (drop a l) = take n (drop a l) ++ [x].
Proof. intros H. apply take_S_r. by rewrite lookup_drop. Qed.

Lemma extract_bits_spec data off n : 0 <= off -> (n <= 16)%nat -> off + Z.of_nat n <= 8 * blen data ->
  exists v, extract_bits data off (Z.of_nat n) = Some v /\ 0 <= v < 2 ^ Z.of_nat n /\
    bits_of n v = take n (drop (Z.to_nat off) (all_bits 8 data)).
Proof.
  intros H0 Hn Hlen. unfold extract_bits. induction n as [|n IH].
  - exists 0. split; [done|]. split; [done|]. by rewrite take_0.
  - destruct IH as (v & Hv & Hr & Hb); [lia..|]. rewrite for_range_succ, Hv. cbn [mbind option_bind].
    destruct (byte_bit data (off + Z.of_nat n)) as (byte & Hg & Hbit); [lia|]. rewrite Hg. cbn [mbind option_bind].
    rewrite bit_value by lia. set (b := Z.testbit byte _) in *.
    assert (Hpow : 2 ^ Z.of_nat (S n) = 2 * 2 ^ Z.of_nat n) by (rewrite Nat2Z.inj_succ, Z.pow_succ_r; lia).
    assert (Hle : 2 ^ Z.of_nat n <= 2 ^ 15) by (apply Z.pow_le_mono_r; lia).
    assert (Hb2z : 0 <= Z.b2z b <= 1) by (by destruct b).
    rewrite Z.shiftl_mul_pow2, Z.pow_1_r by lia. rewrite (Z.mod_small (v * 2)) by lia. rewrite Z.mod_small by lia.
    eexists. split; [reflexivity|]. split; [lia|].
    rewrite (take_drop_lookup _ _ _ b) by (rewrite <- Hbit; f_equal; lia). rewrite <- Hb, <- Nat.add_1_r, bits_of_app.
    assert (Hodd : Z.shiftr (v * 2 + Z.b2z b) (Z.of_nat 1) = v).
    { rewrite Z.shiftr_div_pow2 by lia. change (2 ^ Z.of_nat 1) with 2. rewrite Z.div_add_l by lia. rewrite Z.div_small; lia. }
    rewrite Hodd. f_equal. cbn [bits_of]. f_equal. change (Z.of_nat 0) with 0. rewrite Z.mul_comm, Z.add_comm, Z.bit0_odd, Z.odd_add_mul_2. by destruct b.
Qed.

Lemma extract_indices_spec data (words : nat) : (11 * words <= 8 * length data)%nat ->
  exists idx, extract_indices data (Z.of_nat words) = Some idx /\ length idx = words /\ digits_ok 11 idx /\
    all_bits 11 idx = take (11 * words) (all_bits 8 data).
Proof.
  intros Hlen. assert (H : exists idx, Forall2 (fun i v => extract_bits data (i * 11) 11 = Some v) (seqZ 0 (Z.of_nat words)) idx /\
    length idx = words /\ digits_ok 11 idx /\ all_bits 11 idx = take (11 * words) (all_bits 8 data)).
  { induction words as [|n IH]; [exists []; split_and!; [constructor|done|constructor|done]|].
    destruct IH as (idx & Hf & Hl & Hok & Hb); [lia|].
    destruct (extract_bits_spec data (Z.of_nat n * 11) 11) as (v & Hv & Hr & Hvb); [lia|lia|unfold blen; lia|].
    exists (idx ++ [v]). rewrite seqZ_S. split_and!.
    - apply Forall2_app; [done|]. constructor; [|constructor]. rewrite Z.add_0_l. exact Hv.
    - rewrite length_app. cbn. lia.
    - apply Forall_app. split; [done|]. constructor; [done|constructor].
    - rewrite all_bits_snoc, Hb, Hvb. replace (Z.to_nat (Z.of_nat n * 11)) with (11 * n)%nat by lia.
      replace (11 * S n)%nat with (11 * n + 11)%nat by lia. by rewrite take_take_drop. }
  destruct H as (idx & Hf & H). exists idx. split; [|done]. unfold extract_indices. by apply mapM_Some.
Qed.

(** ** Writing bits *)

Definition bytes8 : list Z -> Prop := digits_ok 8.

Lemma all_bits_insert data k byte j : 0 <= k < 8 * blen data -> get_at data (k / 8) = Some byte -> j = 7 - k mod 8 ->
  all_bits 8 (<[Z.to_nat (k / 8) := Z.setbit byte j]> data) = <[Z.to_nat k := true]> (all_bits 8 data).
Proof.
  intros Hk Hg ->. assert (Hq : 0 <= k / 8 < blen data) by lia.
  assert (Hlen : blen (<[Z.to_nat (k / 8) := Z.setbit byte (7 - k mod 8)]> data) = blen data) by (unfold blen; by rewrite length_insert).
  apply list_eq. intros i. destruct (decide (i < 8 * length data)%nat) as [Hi|Hi].
  2:{ rewrite !lookup_ge_None_2; [done|rewrite length_insert, length_all_bits; lia|rewrite length_all_bits, length_insert; lia]. }
  destruct (byte_bit (<[Z.to_nat (k / 8) := Z.setbit byte (7 - k mod 8)]> data) (Z.of_nat i)) as (b1 & Hb1 & Hl1); [unfold blen in *; lia|].
  destruct (byte_bit data (Z.of_nat i)) as (b2 & Hb2 & Hl2); [unfold blen in *; lia|]. rewrite Nat2Z.id in Hl1, Hl2. rewrite Hl1.
  assert (Hi8 : 0 <= Z.of_nat i / 8) by lia.
  unfold get_at in Hb1, Hb2, Hg. rewrite (proj2 (Z.leb_le _ _)) in Hb1, Hb2 by lia. rewrite (proj2 (Z.leb_le _ _)) in Hg by lia.
  destruct (decide (Z.of_nat i / 8 = k / 8)) as [Hs|Hn].
  - rewrite Hs in *. rewrite list_lookup_insert_eq in Hb1 by (unfold blen in *; lia). injection Hb1 as <-. rewrite Hg in Hb2. injection Hb2 as <-.
    destruct (decide (Z.of_nat i = k)) as [<-|Hne].
    + rewrite Nat2Z.id, list_lookup_insert_eq by (rewrite length_all_bits; lia). rewrite Z.setbit_eq by lia. done.
    + rewrite list_lookup_insert_ne by lia. rewrite Hl2. rewrite Z.setbit_neq by lia. done.
  - rewrite list_lookup_insert_ne in Hb1 by lia. rewrite Hb1 in Hb2. injection Hb2 as <-.
    assert (Hki : Z.to_nat k <> i) by (intros Hki; apply Hn; f_equal; lia).
    rewrite list_lookup_insert_ne by done. by rewrite Hl2.
Qed.

Lemma set_clear_bit byte j : 0 <= byte < 256 -> 0 <= j < 8 -> Z.testbit byte j = false ->
  (byte + Z.shiftl 1 j) mod 256 = Z.setbit byte j /\ 0 <= Z.setbit byte j < 256.
Proof.
  intros Hb Hj Ht.
  assert (Hadd : byte + Z.shiftl 1 j = Z.setbit byte j).
  { unfold Z.setbit. apply Z.add_nocarry_lt_pow2 || idtac. rewrite <- Z.lxor_lor.
    - apply Z.add_nocarry_lxor. apply Z.bits_inj'. intros i Hi. rewrite Z.land_spec, Z.shiftl_1_l, Z.bits_0, Z.pow2_bits_eqb by lia.
      destruct (Z.eqb_spec j i) as [<-|]; [by rewrite Ht|by rewrite andb_false_r].
    - apply Z.bits_inj'. intros i Hi. rewrite Z.land_spec, Z.shiftl_1_l, Z.bits_0, Z.pow2_bits_eqb by lia.
      destruct (Z.eqb_spec j i) as [<-|]; [by rewrite Ht|by rewrite andb_false_r]. }
  assert (Hr : 0 <= Z.setbit byte j < 256).
  { split; [rewrite <- Hadd, Z.shiftl_1_l; pose proof (Z.pow_nonneg 2 j); lia|].
    destruct (Z.eq_dec (Z.setbit byte j) 0) as [->|Hne]; [lia|]. change 256 with (2 ^ 8).
    assert (0 <= Z.setbit byte j) by (rewrite <- Hadd, Z.shiftl_1_l; pose proof (Z.pow_nonneg 2 j); lia).
    destruct (Z.lt_ge_cases (Z.setbit byte j) (2 ^ 8)) as [|Hge]; [done|]. exfalso.
    apply Z.log2_le_pow2 in Hge; [|lia]. pose proof (Z.bit_log2 (Z.setbit byte j)) as Hl.
    rewrite Z.setbit_eqb in Hl by lia. specialize (Hl ltac:(lia)). apply orb_prop in Hl as [Hl|Hl]; [lia|].
    rewrite (testbit_above 8) in Hl by lia. done. }
  rewrite Hadd. split; [by rewrite Z.mod_small|done].
Qed.

Definition holds_bits (data : list Z) (pre : list bool) : Prop :=
  bytes8 data /\ exists m, all_bits 8 data = pre ++ replicate m false.

Lemma write_bits_spec data pre value (n : nat) : (n <= 16)%nat ->
  holds_bits data pre -> blen pre + Z.of_nat n <= 8 * blen data ->
  exists data', write_bits data (blen pre) value (Z.of_nat n) = Some data' /\ blen data' = blen data /\
    holds_bits data' (pre ++ bits_of n value).
Proof.
  intros Hn Hpre Hlen. unfold write_bits. set (body := fun i data => _).
  assert (H : forall i, (i <= n)%nat -> exists data', for_range (Z.of_nat i) body data = Some data' /\ blen data' = blen data /\
    holds_bits data' (pre ++ take i (bits_of n value))).
  { intros i. induction i as [|i IH]; intros Hi.
    - exists data. rewrite take_0, app_nil_r. done.
    - destruct IH as (d & Hd & Hl & Hok & m & Hm); [lia|]. rewrite for_range_succ, Hd. cbn [mbind option_bind]. unfold body.
      assert (Hat : bits_of n value !! i = Some (Z.testbit value (Z.of_nat n - 1 - Z.of_nat i))) by (apply bits_of_lookup; lia).
      rewrite bit_value by lia. rewrite (take_S_r _ _ _ Hat).
      set (k := blen pre + Z.of_nat i). assert (Hk : 0 <= k < 8 * blen d) by (unfold k; pose proof (blen_nonneg pre); lia).
      assert (Hlp : Z.of_nat (length (pre ++ take i (bits_of n value))) = k).
      { rewrite length_app, length_take, length_bits_of. unfold k, blen. lia. }
      assert (Hmpos : (m > 0)%nat).
      { apply (f_equal length) in Hm. rewrite length_all_bits, length_app, length_replicate in Hm. unfold blen in *. lia. }
      destruct m as [|m]; [lia|]. cbn [replicate] in Hm.
      destruct (Z.testbit value _) eqn:Hbit; cbn [Z.b2z Z.eqb].
      + destruct (byte_bit d k Hk) as (byte & Hg & Hl8). rewrite Hg. cbn [mbind option_bind].
        assert (Hclear : Z.testbit byte (7 - k mod 8) = false).
        { rewrite Hm, list_lookup_middle in Hl8 by lia. injection Hl8 as Hl8. done. }
        assert (Hbyte : 0 <= byte < 256).
        { unfold get_at in Hg. rewrite (proj2 (Z.leb_le _ _)) in Hg by lia. by eapply (Forall_lookup_1 _ _ _ _ Hok). }
        destruct (set_clear_bit byte (7 - k mod 8)) as [-> Hr]; [done|lia|done|].
        eexists. split; [reflexivity|]. split; [unfold blen in *; by rewrite length_insert|]. split.
        * apply Forall_insert; [done|exact Hr].
        * exists m. rewrite all_bits_insert by done. rewrite Hm, insert_app_r_alt by lia.
          replace (Z.to_nat k - _)%nat with 0%nat by lia. cbn [insert list_insert]. by rewrite <- !app_assoc.
      + eexists. split; [reflexivity|]. split; [done|]. split; [done|]. exists m. rewrite Hm, <- !app_assoc. done. }
  destruct (H n) as (d & Hd & Hl & Hb); [lia|]. exists d. split; [done|]. split; [done|].
  rewrite take_ge in Hb by (by rewrite length_bits_of). done.
Qed.

(** The bytes [e], then the [w] bits of [cs], are the bits of the indices. *)
Definition splits (w : nat) (idx e : list Z) (cs : Z) : Prop :=
  bytes_ok e /\ 0 <= cs < 2 ^ Z.of_nat w /\ all_bits 11 idx = all_bits 8 e ++ bits_of w cs.

Lemma splits_inj w idx e e' cs cs' : length e = length e' -> splits w idx e cs -> splits w idx e' cs' -> e = e' /\ cs = cs'.
Proof.
  intros Hl (He & Hc & Hb) (He' & Hc' & Hb'). rewrite Hb in Hb'. apply app_inj_1 in Hb' as [H8 Hw].
  - split; [by apply (all_bits_inj 8); [lia|..]|by apply (bits_of_inj w)].
  - rewrite !length_all_bits. lia.
Qed.

Lemma write_indices_spec indices data pre : digits_ok 11 indices -> holds_bits data pre ->
  blen pre + 11 * blen indices <= 8 * blen data ->
  exists data' pos, foldl (fun acc index => '(bits, bit_pos) ← acc; bits ← write_bits bits bit_pos index 11; Some (bits, bit_pos + 11))
      (Some (data, blen pre)) indices = Some (data', pos) /\
    blen data' = blen data /\ holds_bits data' (pre ++ all_bits 11 indices).
Proof.
  intros Hi. revert data pre. induction Hi as [|v l Hv _ IH]; intros data pre Hpre Hlen.
  - exists data, (blen pre). cbn. rewrite app_nil_r. done.
  - rewrite blen_cons in Hlen. pose proof (blen_nonneg l). cbn [foldl mbind option_bind].
    destruct (write_bits_spec data pre v 11) as (d & Hd & Hl & Hb); [lia|done|lia|]. change (Z.of_nat 11) with 11 in Hd. rewrite Hd. cbn [mbind option_bind].
    assert (Hp : blen pre + 11 = blen (pre ++ bits_of 11 v)) by (rewrite blen_app; unfold blen; rewrite length_bits_of; lia).
    rewrite Hp. destruct (IH d _ Hb) as (d' & pos & -> & Hl' & Hb'); [lia|].
    exists d', pos. split; [done|]. split; [lia|]. unfold all_bits in *. cbn [map concat]. by rewrite app_assoc.
Qed.

Lemma write_indices_zeros indices n : digits_ok 11 indices -> 0 <= n -> 11 * blen indices <= 8 * n ->
  exists data pos, write_indices indices (zeros n) = Some (data, pos) /\ blen data = n /\ bytes_ok data /\
    all_bits 8 data = all_bits 11 indices ++ replicate (Z.to_nat (8 * n - 11 * blen indices)) false.
Proof.
  intros Hi Hn Hlen. assert (Hz : holds_bits (zeros n) []).
  { split; [unfold zeros; apply Forall_replicate; split; [done|reflexivity]|]. exists (Z.to_nat (8 * n)). unfold zeros. cbn [app].
    replace (Z.to_nat (8 * n)) with (8 * Z.to_nat n)%nat by lia. induction (Z.to_nat n) as [|m IH]; [done|].
    cbn [replicate]. unfold all_bits in *. cbn [map concat]. rewrite IH, bits_of_zero, <- replicate_add. f_equal. lia. }
  destruct (write_indices_spec indices (zeros n) [] Hi Hz) as (d & pos & Hd & Hl & Hok & m & Hm).
  { rewrite blen_nil, blen_zeros by done. lia. }
  exists d, pos. rewrite blen_zeros in Hl by done. split; [exact Hd|]. split; [done|]. split; [exact Hok|]. cbn [app] in Hm. rewrite Hm.
  do 2 f_equal. apply (f_equal length) in Hm. rewrite length_app, !length_all_bits, length_replicate in Hm. unfold blen in *. lia.
Qed.

(** The two halves of the conversions, for both sizes. *)

Lemma all_bits_take l n : take (8 * n) (all_bits 8 l) = all_bits 8 (take n l).
Proof.
  revert n. induction l as [|b l IH]; intros [|n]; [done..|]. unfold all_bits in *. cbn [map concat take].
  rewrite take_app_ge by (rewrite length_bits_of; lia). f_equal. rewrite length_bits_of. rewrite <- IH. f_equal. lia.
Qed.

Lemma low_nibble c : 0 <= c < 256 -> take 4 (bits_of 8 (Z.land c 0xF0)) = bits_of 4 (Z.shiftr c 4).
Proof.
  intros Hc. change 8%nat with (4 + 4)%nat. rewrite bits_of_app, take_app_length' by (by rewrite length_bits_of).
  apply bits_of_ext. intros i Hi. change (Z.of_nat 4) with 4. rewrite !Z.shiftr_spec, Z.land_spec by lia.
  assert (Hone : Z.testbit 0xF0 (i + 4) = true) by (assert (H : i = 0 \/ i = 1 \/ i = 2 \/ i = 3) by lia; destruct H as [->|[->|[->| ->]]]; done).
  by rewrite Hone, andb_true_r.
Qed.

Lemma entropy_to_indices_splits_12 e c : length e = 16%nat -> bytes_ok e -> 0 <= c < 256 ->
  exists idx, entropy_to_indices_12 e c = Some idx /\ length idx = 12%nat /\ digits_ok 11 idx /\ splits 4 idx e (Z.shiftr c 4).
Proof.
  intros Hl He Hc. unfold entropy_to_indices_12.
  destruct (extract_indices_spec (e ++ [Z.land c 0xF0]) 12) as (idx & H & Hn & Hok & Hb); [rewrite length_app; cbn; lia|].
  exists idx. change (Z.of_nat 12) with 12 in H. split_and!; [exact H|done|done|]. split_and!; [done| | |].
  - rewrite Z.shiftr_div_pow2 by lia. change (2 ^ 4) with 16. lia.
  - rewrite Z.shiftr_div_pow2 by lia. change (2 ^ 4) with 16. change (2 ^ Z.of_nat 4) with 16. lia.
  - rewrite Hb, all_bits_snoc, take_app_ge by (rewrite length_all_bits; lia). f_equal. rewrite length_all_bits, Hl.
    change (11 * 12 - 8 * 16)%nat with 4%nat. by apply low_nibble.
Qed.

Lemma entropy_to_indices_splits_24 e c : length e = 32%nat -> bytes_ok e -> 0 <= c < 256 ->
  exists idx, entropy_to_indices_24 e c = Some idx /\ length idx = 24%nat /\ digits_ok 11 idx /\ splits 8 idx e c.
Proof.
  intros Hl He Hc. unfold entropy_to_indices_24.
  destruct (extract_indices_spec (e ++ [c]) 24) as (idx & H & Hn & Hok & Hb); [rewrite length_app; cbn; lia|].
  exists idx. change (Z.of_nat 24) with 24 in H. split_and!; [exact H|done|done|]. split; [done|]. split; [exact Hc|].
  rewrite Hb, take_ge by (rewrite length_all_bits, length_app; cbn; lia). apply all_bits_snoc.
Qed.

Lemma get_at_last (l : list Z) n : length l = S n -> exists x, get_at l (Z.of_nat n) = Some x /\ l = take n l ++ [x].
Proof.
  intros Hl. destruct (lookup_lt_is_Some_2 l n) as (x & Hx); [lia|]. exists x. unfold get_at. rewrite (proj2 (Z.leb_le _ _)) by lia.
  rewrite Nat2Z.id. split; [done|]. rewrite <- take_S_r by done. by rewrite take_ge by lia.
Qed.

Lemma indices_to_entropy_splits_12 idx : length idx = 12%nat -> digits_ok 11 idx ->
  exists e cs, indices_to_entropy_12 idx = Some (e, cs) /\ length e = 16%nat /\ splits 4 idx e cs.
Proof.
  intros Hl Hi. unfold indices_to_entropy_12.
  destruct (write_indices_zeros idx 17 Hi) as (d & pos & -> & Hd & Hok & Hb); [lia|unfold blen; lia|]. cbn [mbind option_bind].
  destruct (get_at_last d 16) as (x & Hx & Hsp); [unfold blen in Hd; lia|]. change (Z.of_nat 16) with 16 in Hx. rewrite Hx. cbn [mbind option_bind].
  exists (take 16 d), (Z.shiftr x 4). split; [done|]. split; [rewrite length_take; unfold blen in Hd; lia|].
  assert (Hx8 : 0 <= x < 256) by (rewrite Hsp in Hok; apply Forall_app in Hok as [_ Hok]; by apply Forall_cons in Hok as [? _]).
  split; [by apply Forall_take|]. split.
  { rewrite Z.shiftr_div_pow2 by lia. change (2 ^ 4) with 16. change (2 ^ Z.of_nat 4) with 16. lia. }
  rewrite Hsp, all_bits_snoc in Hb. change (bits_of 8 x) with (bits_of (4 + 4) x) in Hb. rewrite bits_of_app, app_assoc in Hb. symmetry.
  change (Z.of_nat 4) with 4 in Hb. apply app_inj_1 in Hb as [Hb _]; [exact Hb|].
  rewrite length_app, length_bits_of, !length_all_bits, length_take. unfold blen in Hd. lia.
Qed.

Lemma indices_to_entropy_splits_24 idx : length idx = 24%nat -> digits_ok 11 idx ->
  exists e cs, indices_to_entropy_24 idx = Some (e, cs) /\ length e = 32%nat /\ splits 8 idx e cs.
Proof.
  intros Hl Hi. unfold indices_to_entropy_24.
  destruct (write_indices_zeros idx 33 Hi) as (d & pos & -> & Hd & Hok & Hb); [lia|unfold blen; lia|]. cbn [mbind option_bind].
  destruct (get_at_last d 32) as (x & Hx & Hsp); [unfold blen in Hd; lia|]. change (Z.of_nat 32) with 32 in Hx. rewrite Hx. cbn [mbind option_bind].
  exists (take 32 d), x. split; [done|]. split; [rewrite length_take; unfold blen in Hd; lia|].
  assert (Hx8 : 0 <= x < 256) by (rewrite Hsp in Hok; apply Forall_app in Hok as [_ Hok]; by apply Forall_cons in Hok as [? _]).
  split; [by apply Forall_take|]. split; [done|].
  rewrite Hsp, all_bits_snoc in Hb. unfold blen in Hb. rewrite Hl in Hb. change (Z.to_nat _) with 0%nat in Hb. cbn [replicate] in Hb. by rewrite app_nil_r in Hb.
Qed.

(** ** Checksums *)

Definition is_sha256 (sha256 : list Z -> list Z) : Prop := forall m, length (sha256 m) = 32%nat /\ bytes_ok (sha256 m).

Lemma hash_byte sha256 m : is_sha256 sha256 -> exists c, sha256_first_byte sha256 m = Some c /\ 0 <= c < 256.
Proof.
  intros Hs. destruct (Hs m) as [Hl Hb]. unfold sha256_first_byte. destruct (sha256 m) as [|c l]; [done|].
  exists c. split; [done|]. by apply Forall_cons in Hb as [? _].
Qed.

(** Of [n] words, [bytes] bytes of entropy with a checksum of [w] bits. *)
Definition sized (n bytes w : nat) (to : list Z -> Z -> option (list Z)) (from : list Z -> option (list Z * Z)) (sum : Z -> Z) : Prop :=
  (forall e c, length e = bytes -> bytes_ok e -> 0 <= c < 256 ->
    exists idx, to e c = Some idx /\ length idx = n /\ digits_ok 11 idx /\ splits w idx e (sum c)) /\
  (forall idx, length idx = n -> digits_ok 11 idx ->
    exists e cs, from idx = Some (e, cs) /\ length e = bytes /\ splits w idx e cs).

Lemma checksum_iff n bytes w to from sum sha256 idx : is_sha256 sha256 -> sized n bytes w to from sum ->
  length idx = n -> digits_ok 11 idx ->
  exists e cs c, from idx = Some (e, cs) /\ sha256_first_byte sha256 e = Some c /\
    (cs = sum c <-> exists e, length e = bytes /\ bytes_ok e /\ (c ← sha256_first_byte sha256 e; to e c) = Some idx).
Proof.
  intros Hs [Hto Hfrom] Hn Hi. destruct (Hfrom idx Hn Hi) as (e & cs & He & Hl & Hsp).
  destruct (hash_byte sha256 e Hs) as (c & Hc & Hc8). exists e, cs, c. split; [done|]. split; [done|].
  destruct (Hto e c Hl (proj1 Hsp) Hc8) as (idx' & Hidx & _ & Hi' & Hsp'). split.
  - intros ->. exists e. split; [done|]. split; [apply Hsp|]. rewrite Hc. cbn [mbind option_bind]. rewrite Hidx. f_equal.
    apply (all_bits_inj 11); [lia|done|done|]. destruct Hsp as (_ & _ & ->), Hsp' as (_ & _ & ->). done.
  - intros (e2 & Hl2 & Hb2 & H2). destruct (hash_byte sha256 e2 Hs) as (c2 & Hc2 & Hr2). rewrite Hc2 in H2. cbn [mbind option_bind] in H2.
    destruct (Hto e2 c2 Hl2 Hb2 Hr2) as (idx2 & Hidx2 & _ & _ & Hsp2). rewrite H2 in Hidx2. injection Hidx2 as <-.
    destruct (splits_inj w idx e e2 cs (sum c2)) as [<- ->]; [congruence|done..|]. rewrite Hc in Hc2. by injection Hc2 as <-.
Qed.

Lemma sized_12 : sized 12 16 4 entropy_to_indices_12 indices_to_entropy_12 (fun c => Z.shiftr c 4).
Proof. split; [apply entropy_to_indices_splits_12|apply indices_to_entropy_splits_12]. Qed.
Lemma sized_24 : sized 24 32 8 entropy_to_indices_24 indices_to_entropy_24 id.
Proof. split; [apply entropy_to_indices_splits_24|apply indices_to_entropy_splits_24]. Qed.

(** C28: a phrase of twelve or twenty-four words is checked
    without a panic, and it is accepted exactly when it is the phrase of some
    entropy of sixteen or thirty-two bytes: every phrase that is generated
    validates, and nothing else does. *)
Theorem validate_mnemonic_iff sha256 (is_24 : bool) idx : is_sha256 sha256 ->
  length idx = (if is_24 then 24 else 12)%nat -> Forall (fun i => 0 <= i < 2048) idx ->
  let validate := if is_24 then validate_mnemonic_24 sha256 else validate_mnemonic_12 sha256 in
  let from_entropy := if is_24 then mnemonic_from_entropy_24 sha256 else mnemonic_from_entropy_12 sha256 in
  (validate idx = Some (Ok tt) <->
    exists entropy, length entropy = (if is_24 then 32 else 16)%nat /\ bytes_ok entropy /\ from_entropy entropy = Some idx) /\
  (validate idx = Some (Ok tt) \/ validate idx = Some (Err InvalidChecksum)).
Proof.
  intros Hs Hl Hi. destruct is_24; cbv zeta.
  - destruct (checksum_iff _ _ _ _ _ _ sha256 idx Hs sized_24 Hl Hi) as (e & cs & c & He & Hc & Hiff).
    unfold validate_mnemonic_24, mnemonic_from_entropy_24. rewrite He. cbn [mbind option_bind]. rewrite Hc. cbn [mbind option_bind].
    unfold id in Hiff. rewrite <- Hiff. destruct (Z.eqb_spec cs c); cbn [negb]; split; auto; by split.
  - destruct (checksum_iff _ _ _ _ _ _ sha256 idx Hs sized_12 Hl Hi) as (e & cs & c & He & Hc & Hiff).
    unfold validate_mnemonic_12, mnemonic_from_entropy_12. rewrite He. cbn [mbind option_bind]. rewrite Hc. cbn [mbind option_bind].
    cbn beta in Hiff. rewrite <- Hiff. destruct (Z.eqb_spec cs (Z.shiftr c 4)); cbn [negb]; split; auto; by split.
Qed.

(** ** Words *)

Lemma cmp_text_lt_trans a b c : cmp_text a b = Lt -> cmp_text b c = Lt -> cmp_text a c = Lt.
Proof.
  intros Hab Hbc. destruct (cmp_text a c) eqn:E; [|done|].
  - apply cmp_text_Eq in E as <-. rewrite cmp_text_antisym, Hab in Hbc. done.
  - exfalso. apply (cmp_text_trans a b c); congruence.
Qed.

Fixpoint ascending (l : list (list Z)) : bool :=
  match l with
  | a :: (b :: _) as l => match cmp_text a b with Lt => ascending l | _ => false end
  | _ => true
  end.

Lemma ascending_head a l x : ascending (a :: l) = true -> x ∈ l -> cmp_text a x = Lt.
Proof.
  revert a. induction l as [|b l IH]; intros a Ha Hx; [by apply not_elem_of_nil in Hx|].
  cbn [ascending] in Ha. destruct (cmp_text a b) eqn:E; [done| |done].
  apply elem_of_cons in Hx as [->|Hx]; [done|]. apply (cmp_text_lt_trans a b); [done|]. by apply IH.
Qed.

Lemma ascending_lookup l (i j : nat) x y : ascending l = true -> (i < j)%nat -> l !! i = Some x -> l !! j = Some y -> cmp_text x y = Lt.
Proof.
  revert i j. induction l as [|a l IH]; intros [|i] [|j] Ha Hij Hx Hy; [done..|lia| |lia|].
  - injection Hx as <-. apply (ascending_head a l); [done|]. by eapply list_elem_of_lookup_2.
  - apply (IH i j); [|lia|done..]. cbn [ascending] in Ha. destruct l as [|b l]; [done|]. by destruct (cmp_text a b).
Qed.

Lemma ascending_get_at l i j x y : ascending l = true -> get_at l i = Some x -> get_at l j = Some y -> i < j -> cmp_text x y = Lt.
Proof.
  intros Ha Hx Hy Hij. unfold get_at in *. destruct (Z.leb_spec 0 i); [|done]. destruct (Z.leb_spec 0 j); [|done].
  eapply (ascending_lookup l (Z.to_nat i) (Z.to_nat j)); [done|lia|done..].
Qed.

Lemma bisect_spec l w j fuel base size : ascending l = true -> get_at l j = Some w ->
  0 <= base -> base + size <= blen l -> base <= j < base + size -> size <= Z.of_nat fuel + 1 ->
  bisect fuel (fun candidate => str_cmp candidate w) l base size = j.
Proof.
  intros Ha Hj. revert base size. induction fuel as [|fuel IH]; intros base size H0 Hlen Hr Hf; cbn [bisect]; [lia|].
  destruct (Z.leb_spec size 1); [lia|]. cbv zeta.
  assert (Hm : exists x, get_at l (base + size / 2) = Some x).
  { unfold get_at. rewrite (proj2 (Z.leb_le _ _)) by lia. apply lookup_lt_is_Some. unfold blen in Hlen. lia. }
  destruct Hm as (x & Hm). rewrite Hm. cbn [fmap option_fmap option_map]. change (str_cmp x w) with (cmp_text x w).
  destruct (Z.lt_trichotomy j (base + size / 2)) as [Hlt|[Heq|Hgt]].
  - assert (Hx : cmp_text x w = Gt) by (rewrite cmp_text_antisym, (ascending_get_at l j (base + size / 2) w x); done).
    rewrite Hx. apply IH; lia.
  - rewrite Heq, Hm in Hj. injection Hj as ->. rewrite cmp_text_refl. apply IH; lia.
  - rewrite (ascending_get_at l (base + size / 2) j x w) by done. apply IH; lia.
Qed.

Lemma binary_search_iff l w i : ascending l = true ->
  binary_search_by (fun candidate => str_cmp candidate w) l = Some i <-> get_at l i = Some w.
Proof.
  intros Ha. unfold binary_search_by. split.
  - destruct (blen l =? 0); [done|]. destruct (get_at l (bisect _ _ _ _ _)) as [x|] eqn:E; [|done]. cbn [fmap option_fmap option_map].
    change (str_cmp x w) with (cmp_text x w). destruct (cmp_text x w) eqn:C; [|done..]. apply cmp_text_Eq in C as ->. by intros [= <-].
  - intros Hi. pose proof (get_at_range _ _ _ Hi) as Hr. destruct (Z.eqb_spec (blen l) 0); [lia|].
    rewrite (bisect_spec l w i) by (done || unfold blen in *; lia). rewrite Hi. cbn [fmap option_fmap option_map]. change (str_cmp w w) with (cmp_text w w). by rewrite cmp_text_refl.
Qed.

Lemma WORDLIST_ascending : ascending WORDLIST = true.
Proof. by vm_compute. Qed.
Lemma WORDLIST_length : blen WORDLIST = 2048.
Proof. by vm_compute. Qed.

(** The binary search finds a word exactly when the list has
    it, and then at the index that displays it: words and the indices below
    2048 correspond one to one. *)
Theorem word_to_index_iff word i : word_to_index word = Ok i <-> 0 <= i < 2048 /\ index_to_word i = word.
Proof.
  assert (Hiff : word_to_index word = Ok i <-> get_at WORDLIST i = Some word).
  { rewrite <- (binary_search_iff WORDLIST word i WORDLIST_ascending). unfold word_to_index.
    destruct (binary_search_by _ WORDLIST) as [k|] eqn:E; cbn [mbind option_bind ok_or]; [|by split].
    apply (binary_search_iff WORDLIST word k WORDLIST_ascending), get_at_range in E. rewrite WORDLIST_length in E.
    rewrite Z.mod_small by lia. split; congruence. }
  rewrite Hiff. unfold index_to_word. rewrite WORDLIST_length. split.
  - intros Hg. pose proof (get_at_range _ _ _ Hg) as Hr. rewrite WORDLIST_length in Hr. split; [done|].
    rewrite (proj2 (Z.ltb_lt _ _)) by lia. by rewrite Hg.
  - intros [Hr <-]. rewrite (proj2 (Z.ltb_lt _ _)) by lia. destruct (get_at WORDLIST i) eqn:E; [done|].
    unfold get_at in E. rewrite (proj2 (Z.leb_le _ _)) in E by lia. apply lookup_ge_None in E. pose proof WORDLIST_length as H. unfold blen in H. lia.
Qed.

(** ** Seeds *)

Lemma word_length i : 0 <= i < 2048 -> exists w, get_at WORDLIST i = Some w /\ index_to_word i = w /\ blen w <= 8.
Proof.
  intros Hi. assert (Hall : forallb (fun w => blen w <=? 8) WORDLIST = true) by (by vm_compute).
  rewrite forallb_forall in Hall. unfold index_to_word. rewrite WORDLIST_length, (proj2 (Z.ltb_lt _ _)) by lia.
  destruct (get_at_lt WORDLIST i) as (w & Hw); [by rewrite WORDLIST_length|]. exists w. rewrite Hw. split_and!; [done..|].
  apply get_at_Some in Hw as (l1 & l2 & Hl & _). specialize (Hall w). rewrite Hl in Hall. apply Z.leb_le, Hall. apply in_elt.
Qed.

(** The words with a space between them. *)
Definition piece (p : nat * Z) : list Z := (if 0 <? Z.of_nat p.1 then [32] else []) ++ index_to_word p.2.
Definition phrase_text (indices : list Z) : list Z := concat (map piece (imap pair indices)).

Lemma serialize_pieces l text : Forall (fun p => 0 <= snd p < 2048) l -> blen text + 9 * blen l <= 256 ->
  foldl (fun acc '(word_index, index) => s ← acc; serialize_word (Z.of_nat word_index) index s)
    (Some (text ++ zeros (256 - blen text), blen text)) l
  = Some ((text ++ concat (map piece l)) ++ zeros (256 - blen (text ++ concat (map piece l))), blen (text ++ concat (map piece l))).
Proof.
  intros Hl. revert text. induction Hl as [|[n i] l Hi _ IH]; intros text Hlen; [cbn; by rewrite !app_nil_r|].
  cbn [snd] in Hi. destruct (word_length i Hi) as (w & Hw & Hiw & Hw8). rewrite blen_cons in Hlen. pose proof (blen_nonneg l). pose proof (blen_nonneg w).
  assert (Hstep : serialize_word (Z.of_nat n) i (text ++ zeros (256 - blen text), blen text)
    = Some ((text ++ piece (n, i)) ++ zeros (256 - blen (text ++ piece (n, i))), blen (text ++ piece (n, i)))).
  { unfold serialize_word, piece. cbn [fst snd]. destruct (0 <? Z.of_nat n).
    - rewrite copy_into_written by len. cbn [mbind option_bind]. rewrite Hw. cbn [mbind option_bind].
      assert (Hb : blen text + 1 = blen (text ++ [32])) by len. rewrite Hb, copy_into_written by len. cbn [mbind option_bind].
      rewrite Hiw, !app_assoc. do 2 f_equal. len.
    - cbn [mbind option_bind app]. rewrite Hw. cbn [mbind option_bind]. rewrite copy_into_written by len. cbn [mbind option_bind].
      rewrite Hiw. do 2 f_equal. len. }
  assert (Hp : blen (piece (n, i)) <= 9) by (unfold piece; cbn [fst snd]; rewrite Hiw; destruct (0 <? Z.of_nat n); len).
  cbn [foldl mbind option_bind map concat]. rewrite Hstep, IH by len. by rewrite !app_assoc.
Qed.

Lemma serialize_text idx : Forall (fun i => 0 <= i < 2048) idx -> blen idx <= 24 ->
  exists buf, serialize_mnemonic idx (zeros 256) = Some (buf, blen (phrase_text idx)) /\
    slice buf 0 (blen (phrase_text idx)) = Some (phrase_text idx).
Proof.
  intros Hi Hl. unfold serialize_mnemonic.
  assert (Hlen : length (imap pair idx) = length idx) by apply length_imap.
  pose proof (serialize_pieces (imap pair idx) []) as H. change (256 - blen (@nil Z)) with 256 in H. change (blen (@nil Z)) with 0 in H.
  cbn [app] in H. rewrite H.
  - eexists. split; [reflexivity|]. apply slice_split with [] (zeros (256 - blen (phrase_text idx))); [done|done|].
    by rewrite blen_nil, Z.add_0_l.
  - apply Forall_forall. intros [n i] Hin. apply elem_of_lookup_imap in Hin as (m & j & [= -> ->] & Hin).
    apply (Forall_lookup_1 _ _ _ _ Hi Hin).
  - unfold blen in *. lia.
Qed.

Lemma salt_text pass : blen pass <= 248 ->
  exists buf, build_salt pass (zeros 256) = Some (buf, 8 + blen pass) /\ slice buf 0 (8 + blen pass) = Some (str "mnemonic" ++ pass).
Proof.
  intros Hp. pose proof (blen_nonneg pass). unfold build_salt.
  pose proof (copy_into_written 256 [] (str "mnemonic")) as H8. cbn [app] in H8. change (256 - blen (@nil Z)) with 256 in H8. change (blen (@nil Z)) with 0 in H8.
  rewrite H8 by (by vm_compute). cbn [mbind option_bind].
  change (copy_into _ 8 pass) with (copy_into (str "mnemonic" ++ zeros (256 - blen (str "mnemonic"))) (blen (str "mnemonic")) pass).
  assert (Hm : blen (str "mnemonic") = 8) by (by vm_compute).
  rewrite copy_into_written by lia. cbn [mbind option_bind]. eexists. split; [reflexivity|].
  apply slice_split with [] (zeros (256 - blen (str "mnemonic" ++ pass))); [done|done|]. rewrite blen_app, blen_nil. lia.
Qed.

Lemma salt_message salt : blen salt <= 256 -> salt_with_index salt = Some (salt ++ [0; 0; 0; 1]).
Proof.
  intros Hs. pose proof (blen_nonneg salt). unfold salt_with_index.
  pose proof (copy_into_written 260 [] salt) as H0. cbn [app] in H0. change (260 - blen (@nil Z)) with 260 in H0. change (blen (@nil Z)) with 0 in H0.
  rewrite H0 by lia. cbn [mbind option_bind]. change (be_bytes 4 1) with [0; 0; 0; 1]. rewrite copy_into_written by len. cbn [mbind option_bind].
  apply slice_split with [] (zeros (260 - blen (salt ++ [0; 0; 0; 1]))); [done|done|]. len.
Qed.

Section rounds.
Context (sha512 : list Z -> list Z) (phrase salt : list Z).

(** The blocks [U_1, U_2, ...] of PBKDF2, and the sum of the first ones. *)
Fixpoint block (n : nat) : list Z :=
  hmac_sha512 sha512 phrase (match n with O => salt ++ [0; 0; 0; 1] | S n => block n end).
Fixpoint block_sum (n : nat) : list Z :=
  match n with O => block 0 | S n => zip_with Z.lxor (block_sum n) (block (S n)) end.

Lemma rounds_fold n : foldl (fun s _ => next_round sha512 phrase s) (block 0, block_sum 0) (seqZ 1 (Z.of_nat n)) = (block n, block_sum n).
Proof. induction n as [|n IH]; [done|]. rewrite seqZ_S, foldl_app, IH. done. Qed.

Lemma pbkdf2_blocks (last : nat) : Z.of_nat last = 2047 -> blen salt <= 256 ->
  pbkdf2_hmac_sha512 sha512 phrase salt 2048 = Some (block_sum last).
Proof.
  intros Hlast Hs. unfold pbkdf2_hmac_sha512. rewrite salt_message by done. cbn [mbind option_bind]. replace (2048 - 1) with (Z.of_nat last) by lia.
  exact (f_equal (fun x => Some (snd x)) (rounds_fold last)).
Qed.

(** After [r] rounds. *)
Definition derives (r : Z) (d : SeedDerivation) : Prop :=
  0 <= r < 2048 /\ finished d = false /\ rounds_complete d = r /\ slice (phrase_buf d) 0 (phrase_len d) = Some phrase /\
  (r = 0 -> slice (salt_buf d) 0 (salt_len d) = Some salt) /\
  (0 < r -> u_prev d = block (Z.to_nat (r - 1)) /\ result_ d = block_sum (Z.to_nat (r - 1))).

Lemma first_round_derives d : blen salt <= 256 -> derives 0 d ->
  exists d', first_round sha512 d = Some d' /\ derives 1 d'.
Proof.
  intros Hs (_ & Hf & Hr & Hp & Hsalt & _). unfold first_round. rewrite Hsalt by done. cbn [mbind option_bind].
  rewrite salt_message by done. cbn [mbind option_bind]. rewrite Hp. cbn [mbind option_bind]. eexists. split; [reflexivity|].
  unfold derives. cbn. split_and!; done.
Qed.

(** The sum holds the last block, also after the two thousand and
    forty-eighth. *)
Definition complete (r : Z) (d : SeedDerivation) : Prop :=
  0 < r <= 2048 /\ finished d = false /\ rounds_complete d = r /\ slice (phrase_buf d) 0 (phrase_len d) = Some phrase /\
  u_prev d = block (Z.to_nat (r - 1)) /\ result_ d = block_sum (Z.to_nat (r - 1)).

Lemma further_rounds r (n : nat) d : complete r d -> r + Z.of_nat n <= 2048 ->
  exists d', foldl (fun acc round => d ← acc; further_round sha512 d round) (Some d) (seqZ r (Z.of_nat n)) = Some d' /\ complete (r + Z.of_nat n) d'.
Proof.
  intros Hd. induction n as [|n IH]; intros Hn; [exists d; rewrite Z.add_0_r; done|].
  destruct IH as (d' & Hfold & Hr & Hf & Hc & Hp & Hu & Hs); [lia|]. rewrite seqZ_S, foldl_app, Hfold. cbn [foldl mbind option_bind].
  unfold further_round. rewrite Hp. cbn [mbind option_bind]. unfold next_round. eexists. split; [reflexivity|].
  unfold complete, set_rounds. cbn [finished rounds_complete phrase_buf phrase_len u_prev result_].
  replace (Z.to_nat (r + Z.of_nat (S n) - 1)) with (S (Z.to_nat (r + Z.of_nat n - 1))) by lia.
  split_and!; [lia|lia|done| |done| |].
  - unfold u16_max. lia.
  - cbn [block]. by rewrite Hu.
  - cbn [block_sum]. cbn [block]. by rewrite Hu, Hs.
Qed.

Lemma advance_derives (last : nat) r b d : Z.of_nat last = 2047 -> blen salt <= 256 -> derives r d -> 0 <= b ->
  exists d', (if 2048 <=? r + b
     then advance sha512 b d = Some (Some (block_sum last), d') /\ d' = set_finished (wipe d)
     else advance sha512 b d = Some (None, d') /\ derives (r + b) d').
Proof.
  intros Hlast Hs Hd Hb. pose proof Hd as (Hr & Hf & Hrc & Hp & _ & Hu). unfold advance. rewrite Hf, Hrc.
  set (target := Z.min (Z.min u16_max (r + b)) BIP39_PBKDF2_ROUNDS).
  assert (Ht : target = Z.min (r + b) 2048) by (unfold target, u16_max, BIP39_PBKDF2_ROUNDS; lia).
  clearbody target. destruct (Z.eq_dec target 0) as [H0|Hne].
  { assert (r = 0 /\ b = 0) as [-> ->] by lia. rewrite H0. cbn [Z.eqb Z.ltb Z.compare andb mbind option_bind]. rewrite Hrc.
    exists d. cbn [Z.sub seqZ foldl]. change (seqZ 0 (0 - 0)) with (@nil Z). cbn [foldl mbind option_bind]. rewrite Hrc. split; [done|exact Hd]. }
  assert (Hfirst : exists d1, (if (r =? 0) && (0 <? target) then first_round sha512 d else Some d) = Some d1 /\
    complete (Z.max 1 r) d1).
  { destruct (Z.eqb_spec r 0) as [->|Hr0]; cbn [andb].
    - rewrite (proj2 (Z.ltb_lt _ _)) by lia. destruct (first_round_derives d Hs Hd) as (d1 & H1 & _ & ? & ? & ? & _ & Hu1).
      exists d1. split; [done|]. change (Z.max 1 0) with 1. destruct Hu1 as [? ?]; [lia|]. unfold complete. split_and!; done.
    - exists d. split; [done|]. destruct Hu as [? ?]; [lia|]. replace (Z.max 1 r) with r by lia. unfold complete. split_and!; done || lia. }
  destruct Hfirst as (d1 & -> & Hc1). cbn [mbind option_bind]. pose proof Hc1 as (_ & _ & Hrc1 & _). rewrite Hrc1.
  destruct (further_rounds (Z.max 1 r) (Z.to_nat (target - Z.max 1 r)) d1 Hc1) as (d2 & Hfold & Hc2); [lia|].
  rewrite Z2Nat.id in Hfold, Hc2 by lia. replace (Z.max 1 r + (target - Z.max 1 r)) with target in Hc2 by lia.
  rewrite Hfold. cbn [mbind option_bind]. destruct Hc2 as (_ & Hf2 & Hrc2 & Hp2 & Hu2 & Hs2). rewrite Hrc2. unfold BIP39_PBKDF2_ROUNDS in *.
  destruct (Z.leb_spec 2048 (r + b)) as [Hge|Hlt].
  - replace target with 2048 in * by lia. replace (Z.to_nat (2048 - 1)) with last in Hs2 by lia. rewrite Z.eqb_refl. cbn [negb]. eexists. rewrite Hs2. split; reflexivity.
  - replace target with (r + b) in * by lia. rewrite (proj2 (Z.eqb_neq _ _)) by lia. cbn [negb]. exists d2. split; [done|].
    unfold derives. split_and!; try done; lia.
Qed.
End rounds.

(** The calls of [advance] with the budgets in turn, and what each returns. *)
Fixpoint calls (sha512 : list Z -> list Z) (d : SeedDerivation) (budgets : list Z) : option (list (option (list Z)) * SeedDerivation) :=
  match budgets with
  | [] => Some ([], d)
  | b :: budgets => '(out, d) ← advance sha512 b d; '(outs, d) ← calls sha512 d budgets; Some (out :: outs, d)
  end.

(** Where the seed is delivered, with [total] rounds done. *)
Fixpoint deliveries (seed : list Z) (total : Z) (budgets : list Z) : list (option (list Z)) :=
  match budgets with
  | [] => []
  | b :: budgets => (if (total <? 2048) && (2048 <=? total + b) then Some seed else None) :: deliveries seed (total + b) budgets
  end.

Lemma calls_finished sha512 d budgets seed total : finished d = true -> 2048 <= total -> Forall (Z.le 0) budgets ->
  calls sha512 d budgets = Some (deliveries seed total budgets, d).
Proof.
  intros Hf Ht Hb. revert total Ht. induction Hb as [|b l Hb _ IH]; intros total Ht; [done|]. cbn [calls deliveries]. unfold advance. rewrite Hf.
  cbn [mbind option_bind]. rewrite (IH (total + b)) by lia. cbn [mbind option_bind]. by rewrite (proj2 (Z.ltb_ge _ _)) by lia.
Qed.

Lemma calls_derives sha512 phrase salt (last : nat) budgets : Z.of_nat last = 2047 -> blen salt <= 256 -> Forall (Z.le 0) budgets ->
  forall r d, derives sha512 phrase salt r d ->
  exists d', calls sha512 d budgets = Some (deliveries (block_sum sha512 phrase salt last) r budgets, d') /\
    (2048 <= r + foldr Z.add 0 budgets -> d' = set_finished (wipe d)).
Proof.
  intros Hlast Hs Hb. induction Hb as [|b l Hb Hl IH]; intros r d Hd; cbn [calls deliveries foldr].
  { exists d. split; [done|]. destruct Hd as (? & _). lia. }
  destruct (advance_derives sha512 phrase salt last r b d Hlast Hs Hd Hb) as (d' & Hadv). pose proof Hd as ([_ Hr] & _). rewrite (proj2 (Z.ltb_lt r 2048)) by lia. cbn [andb].
  destruct (Z.leb_spec 2048 (r + b)).
  - destruct Hadv as [-> ->]. cbn [mbind option_bind].
    rewrite (calls_finished sha512 _ l (block_sum sha512 phrase salt last) (r + b)) by done.
    eexists. split; [reflexivity|done].
  - destruct Hadv as [-> Hd']. cbn [mbind option_bind]. destruct (IH (r + b) d' Hd') as (d2 & -> & Hw). cbn [mbind option_bind].
    eexists. split; [reflexivity|]. intros Hsum. rewrite Hw by lia. done.
Qed.

(** For a phrase of words of the list and a passphrase of at
    most 248 bytes, the one-shot derivation and the construction of the
    resumable one both succeed, and however the rounds are cut into calls the
    resumable one never panics: it returns the one-shot seed in the call that
    reaches 2048 rounds and nothing in any other, and then holds no secret. *)
Theorem resumable_seed sha512 indices passphrase budgets :
  Forall (fun i => 0 <= i < 2048) indices -> blen indices <= 24 -> blen passphrase <= 248 -> Forall (Z.le 0) budgets ->
  exists seed d d', seed_from_indices sha512 indices passphrase = Some seed /\ new indices passphrase = Some d /\
    calls sha512 d budgets = Some (deliveries seed 0 budgets, d') /\
    (2048 <= foldr Z.add 0 budgets -> d' = {| phrase_buf := zeros 256; phrase_len := 0; salt_buf := zeros 256; salt_len := 0;
      u_prev := zeros 64; result_ := zeros 64; rounds_complete := 0; finished := true |}).
Proof.
  intros Hi Hl Hp Hb. destruct (serialize_text indices Hi Hl) as (pbuf & Hser & Hps). destruct (salt_text passphrase Hp) as (sbuf & Hsalt & Hss).
  set (phrase := phrase_text indices) in *. set (salt := str "mnemonic" ++ passphrase) in *.
  assert (Hm : blen salt <= 256) by (unfold salt; rewrite blen_app; assert (blen (str "mnemonic") = 8) by (by vm_compute); lia).
  assert (Hlast : exists last, Z.of_nat last = 2047) by (exists (Z.to_nat 2047); by rewrite Z2Nat.id). destruct Hlast as (last & Hlast).
  exists (block_sum sha512 phrase salt last). unfold seed_from_indices, new. rewrite Hser. cbn [mbind option_bind]. rewrite Hsalt. cbn [mbind option_bind].
  rewrite Hps. cbn [mbind option_bind]. rewrite Hss. cbn [mbind option_bind]. rewrite (pbkdf2_blocks sha512 phrase salt last) by done.
  edestruct (calls_derives sha512 phrase salt last budgets Hlast Hm Hb 0) as (d' & Hcalls & Hw).
  2: { eexists. exists d'. split; [reflexivity|]. split; [reflexivity|]. split; [exact Hcalls|]. intros Hsum. by rewrite Hw. }
  unfold derives. cbn. split_and!; done || lia.
Qed.

(** ** Child phrases *)

(** A phrase made from entropy validates. *)
Lemma made_validates n bytes w to from sum sha256 e : is_sha256 sha256 -> sized n bytes w to from sum -> length e = bytes -> bytes_ok e ->
  exists idx c, (c ← sha256_first_byte sha256 e; to e c) = Some idx /\ length idx = n /\ digits_ok 11 idx /\
    sha256_first_byte sha256 e = Some c /\ from idx = Some (e, sum c).
Proof.
  intros Hs [Hto Hfrom] Hl Hb. destruct (hash_byte sha256 e Hs) as (c & Hc & Hr). destruct (Hto e c Hl Hb Hr) as (idx & Hidx & Hn & Hi & Hsp).
  exists idx, c. rewrite Hc. cbn [mbind option_bind]. split_and!; [done..|]. destruct (Hfrom idx Hn Hi) as (e' & cs & Hf & Hl' & Hsp').
  destruct (splits_inj w idx e e' (sum c) cs) as [-> ->]; [congruence|done..].
Qed.

Section children.
Context (sha256 sha512 : list Z -> list Z) `{Curve}.
Hypothesis sha256_ok : is_sha256 sha256.
Hypothesis sha512_ok : forall m, length (sha512 m) = 64%nat /\ bytes_ok (sha512 m).

Lemma entropy_slice seed words index entropy n : Bip85.derive_bip85_entropy sha512 seed words index = Ok entropy -> 0 <= n <= 64 ->
  exists e, slice entropy 0 n = Some e /\ length e = Z.to_nat n /\ bytes_ok e.
Proof.
  unfold Bip85.derive_bip85_entropy. intros He Hn.
  assert (Hh : length entropy = 64%nat /\ bytes_ok entropy).
  { destruct (ok_or (Bip85.checked_add_u32 words _) _); [|done]. cbn [rbind] in He. destruct (ok_or (Bip85.checked_add_u32 index _) _); [|done].
    cbn [rbind] in He. destruct (rmap_err _ _); [|done]. cbn [rbind] in He. injection He as <-. apply sha512_ok. }
  destruct Hh as [Hl Hb]. unfold slice, blen. rewrite Hl, (proj2 (Z.leb_le 0 n)), (proj2 (Z.leb_le n (Z.of_nat 64))) by lia.
  cbn [Z.leb Z.compare andb]. eexists. split; [reflexivity|]. rewrite Z.sub_0_r. change (drop (Z.to_nat 0) entropy) with entropy. split; [rewrite length_take; lia|by apply Forall_take].
Qed.

(** The children of a seed never panic, and they validate. *)
Lemma derive_mnemonic_12_ok seed index :
  match Bip85.derive_mnemonic_12 sha256 sha512 seed index with
  | Ok idx => validate_mnemonic_12 sha256 idx = Some (Ok tt)
  | Err e => e <> Panics
  end.
Proof.
  unfold Bip85.derive_mnemonic_12. destruct (Bip85.derive_bip85_entropy sha512 seed 12 index) as [entropy|err] eqn:E; [|done]. cbn [rmap_err rbind].
  destruct (entropy_slice _ _ _ _ 16 E) as (e & He & Hl & Hb); [lia|]. rewrite He. cbn [ok_or rbind].
  destruct (made_validates _ _ _ _ _ _ sha256 e sha256_ok sized_12 Hl Hb) as (idx & c & Hidx & _ & _ & Hc & Hf).
  unfold mnemonic_from_entropy_12. rewrite Hidx. cbn [ok_or]. unfold validate_mnemonic_12. rewrite Hf. cbn [mbind option_bind]. rewrite Hc.
  cbn [mbind option_bind]. by rewrite Z.eqb_refl.
Qed.

Lemma derive_mnemonic_24_ok seed index :
  match Bip85.derive_mnemonic_24 sha256 sha512 seed index with
  | Ok idx => validate_mnemonic_24 sha256 idx = Some (Ok tt)
  | Err e => e <> Panics
  end.
Proof.
  unfold Bip85.derive_mnemonic_24. destruct (Bip85.derive_bip85_entropy sha512 seed 24 index) as [entropy|err] eqn:E; [|done]. cbn [rmap_err rbind].
  destruct (entropy_slice _ _ _ _ 32 E) as (e & He & Hl & Hb); [lia|]. rewrite He. cbn [ok_or rbind].
  destruct (made_validates _ _ _ _ _ _ sha256 e sha256_ok sized_24 Hl Hb) as (idx & c & Hidx & _ & _ & Hc & Hf).
  unfold mnemonic_from_entropy_24. rewrite Hidx. cbn [ok_or]. unfold validate_mnemonic_24. rewrite Hf. cbn [mbind option_bind]. rewrite Hc.
  cbn [mbind option_bind id]. by rewrite Z.eqb_refl.
Qed.
End children.

(** ** Witnesses *)

Lemma toy_sha256 : is_sha256 (fun _ => zeros 32).
Proof. intros m. split; [done|]. apply Forall_replicate. split; [done|reflexivity]. Qed.

Lemma validate_mnemonic_iff_witness :
  validate_mnemonic_24 (fun _ => zeros 32) (replicate 23 2047 ++ [2040]) = Some (Ok tt) <->
  exists entropy, length entropy = 32%nat /\ bytes_ok entropy /\
    mnemonic_from_entropy_24 (fun _ => zeros 32) entropy = Some (replicate 23 2047 ++ [2040]).
Proof.
  refine (proj1 (validate_mnemonic_iff (fun _ => zeros 32) true (replicate 23 2047 ++ [2040]) toy_sha256 _ _)).
  - reflexivity.
  - vm_compute. repeat constructor; done.
Defined.

Lemma resumable_seed_witness : exists seed d d', seed_from_indices (fun _ => zeros 64) [5; 2047] [65] = Some seed /\ new [5; 2047] [65] = Some d /\
  calls (fun _ => zeros 64) d [1000; 0; 1000; 48; 5] = Some ([None; None; None; Some seed; None], d').
Proof.
  destruct (resumable_seed (fun _ => zeros 64) [5; 2047] [65] [1000; 0; 1000; 48; 5]) as (seed & d & d' & Hs & Hd & Hc & _).
  - vm_compute. repeat constructor; done.
  - by vm_compute.
  - by vm_compute.
  - vm_compute. repeat constructor; done.
  - exists seed, d, d'. exact (conj Hs (conj Hd Hc)).
Defined.

(** The longest passphrase there is room for. *)
Example long_passphrase_panics : build_salt (zeros 249) (zeros 256) = None.
Proof. by vm_compute. Qed.
