(* ===== verification/TimePolicy.v ===== *)
(** * Time policy

    [src/src/transaction/policy/time.rs]: calendar dates of the years 2000 to
    2099, weekly signing windows and the decision whether a device may sign at
    a time. Years, months and the other fields are [Z] in the range of their
    type; the two search loops have a fuel larger than their rounds. *)

From S2P Require Import Prelude Bytes NetworkId Selection.

Definition MAX_WEEKLY_WINDOWS : Z := 4.
Definition MIN_YEAR : Z := 2000.
Definition MAX_YEAR : Z := 2099.
Definition SECONDS_PER_DAY : Z := 86400.
Definition MINUTES_PER_DAY : Z := 1440.

Inductive SigningDecision :=
  Allowed | ClockInvalid | ClockRollback | BeforeNotBefore | OutsideWeeklyWindow | PolicyInvalid.

Inductive PolicyError :=
  InvalidDate | DateOutOfRange | InvalidWindow | TooManyWindows | OverlappingWindow | InvalidFormat | NotFuture.

(** ** The calendar *)

Definition is_leap_year (year : Z) : bool := (year mod 4 =? 0) && (negb (year mod 100 =? 0) || (year mod 400 =? 0)).

Definition days_in_month (year month : Z) : Z :=
  match month with
  | 1 | 3 | 5 | 7 | 8 | 10 | 12 => 31
  | 4 | 6 | 9 | 11 => 30
  | 2 => if is_leap_year year then 29 else 28
  | _ => 0
  end.

Definition days_before_year (year : Z) : Z :=
  let y := year - 1 in
  let before := y * 365 + y / 4 - y / 100 + y / 400 in
  let base_y := 1969 in
  let base := base_y * 365 + base_y / 4 - base_y / 100 + base_y / 400 in
  before - base.

Definition BEFORE : list Z := [0; 31; 59; 90; 120; 151; 181; 212; 243; 273; 304; 334].

(** The table has an entry for every month a validated date has. *)
Definition days_before_month (year month : Z) : Z :=
  let leap_day := Z.b2z ((2 <? month) && is_leap_year year) in
  default 0 (get_at BEFORE (month - 1)) + leap_day.

Module UtcDateTime.

Record UtcDateTime := { year : Z; month : Z; day : Z; hour : Z; minute : Z; second : Z }.

Definition new (year month day hour minute second : Z) : UtcDateTime :=
  {| year := year; month := month; day := day; hour := hour; minute := minute; second := second |}.

Definition validate (d : UtcDateTime) : result unit PolicyError :=
  if (year d <? MIN_YEAR) || (MAX_YEAR <? year d) then Err DateOutOfRange
  else
    let max_day := days_in_month (year d) (month d) in
    if (day d =? 0) || (max_day <? day d) || (23 <? hour d) || (59 <? minute d) || (59 <? second d) then Err InvalidDate
    else Ok tt.

Definition to_unix_seconds (d : UtcDateTime) : result Z PolicyError :=
  let? _ := validate d in
  let days := days_before_year (year d) + days_before_month (year d) (month d) + (day d - 1) in
  Ok (days * SECONDS_PER_DAY + hour d * 3600 + minute d * 60 + second d).

(** The two loops of [from_unix_seconds], with what is left of [days]. *)
Fixpoint year_of_days (fuel : nat) (days year : Z) : Z * Z :=
  match fuel with
  | O => (days, year)
  | S fuel =>
      let year_days := if is_leap_year year then 366 else 365 in
      if days <? year_days then (days, year) else year_of_days fuel (days - year_days) (year + 1)
  end.
Fixpoint month_of_days (fuel : nat) (year days month : Z) : Z * Z :=
  match fuel with
  | O => (days, month)
  | S fuel =>
      let month_days := days_in_month year month in
      if days <? month_days then (days, month) else month_of_days fuel year (days - month_days) (month + 1)
  end.

Definition from_unix_seconds (unix : Z) : result UtcDateTime PolicyError :=
  let? max := to_unix_seconds (new MAX_YEAR 12 31 23 59 59) in
  let? min := to_unix_seconds (new MIN_YEAR 1 1 0 0 0) in
  if (unix <? min) || (max <? unix) then Err DateOutOfRange
  else
    let days := unix / SECONDS_PER_DAY in
    let seconds := unix mod SECONDS_PER_DAY in
    let '(days, year) := year_of_days 131 days 1970 in
    let '(days, month) := month_of_days 13 year days 1 in
    Ok {| year := year; month := month; day := days mod 256 + 1; hour := (seconds / 3600) mod 256;
          minute := (seconds mod 3600 / 60) mod 256; second := (seconds mod 60) mod 256 |}.

Definition weekday_monday0 (d : UtcDateTime) : result Z PolicyError :=
  let? seconds := to_unix_seconds d in
  let days := seconds / SECONDS_PER_DAY in
  Ok (((days + 3) mod 7) mod 256).
End UtcDateTime.
Import UtcDateTime (UtcDateTime, year, month, day, hour, minute, second).

(** ** Windows *)

Module SigningWindow.

Record SigningWindow := { weekday : Z; start_minute : Z; end_minute : Z }.

Definition EMPTY : SigningWindow := {| weekday := 0; start_minute := 0; end_minute := 0 |}.

#[global] Instance SigningWindow_eq_dec : EqDecision SigningWindow.
Proof. solve_decision. Defined.

Definition validate (w : SigningWindow) : result unit PolicyError :=
  if (6 <? weekday w) || (end_minute w <=? start_minute w) || (MINUTES_PER_DAY <? end_minute w) then Err InvalidWindow else Ok tt.

Definition contains (w : SigningWindow) (day minute : Z) : bool :=
  (weekday w =? day) && (start_minute w <=? minute) && (minute <? end_minute w).
End SigningWindow.
Import SigningWindow (SigningWindow, weekday, start_minute, end_minute).

Definition windows_overlap (left right : SigningWindow) : bool :=
  (weekday left =? weekday right) && (start_minute left <? end_minute right) && (start_minute right <? end_minute left).

(** ** Policies

    [windows] is an array of four; ranges of it are taken after the count has
    been checked against its length. *)

Record SigningPolicy := {
  not_before_unix : Z; weekly_enabled : bool; weekly_count : Z; windows : list SigningWindow; rtc_floor_unix : Z }.

Definition disabled : SigningPolicy :=
  {| not_before_unix := 0; weekly_enabled := false; weekly_count := 0; windows := replicate 4 SigningWindow.EMPTY; rtc_floor_unix := 0 |}.

Definition has_not_before (p : SigningPolicy) : bool := negb (not_before_unix p =? 0).
Definition has_time_policy (p : SigningPolicy) : bool := negb (not_before_unix p =? 0) || weekly_enabled p.
Definition requires_clock (p : SigningPolicy) : bool :=
  weekly_enabled p || (negb (not_before_unix p =? 0) && (rtc_floor_unix p <? not_before_unix p)).

Definition validate_window_shape (p : SigningPolicy) : result unit PolicyError :=
  let count := weekly_count p in
  if MAX_WEEKLY_WINDOWS <? count then Err TooManyWindows
  else if negb (Bool.eqb (weekly_enabled p) (negb (count =? 0))) then Err InvalidWindow
  else if existsb (fun window => negb (bool_decide (window = SigningWindow.EMPTY))) (drop (Z.to_nat count) (windows p)) then Err InvalidWindow
  else Ok tt.

(** The loop over the used windows, each against the later ones. *)
Fixpoint check_windows (used : list SigningWindow) : result unit PolicyError :=
  match used with
  | [] => Ok tt
  | window :: later =>
      let? _ := SigningWindow.validate window in
      if existsb (windows_overlap window) later then Err OverlappingWindow else check_windows later
  end.
Definition validate_windows (p : SigningPolicy) : result unit PolicyError :=
  check_windows (take (Z.to_nat (weekly_count p)) (windows p)).

Definition validate_time (unix : Z) : result unit PolicyError :=
  if negb (unix =? 0) then let? _ := UtcDateTime.from_unix_seconds unix in Ok tt else Ok tt.
Definition validate_policy_times (p : SigningPolicy) : result unit PolicyError :=
  let? _ := validate_time (not_before_unix p) in
  validate_time (rtc_floor_unix p).

Definition validate (p : SigningPolicy) : result unit PolicyError :=
  let? _ := validate_window_shape p in
  let? _ := validate_windows p in
  validate_policy_times p.

Definition evaluate (p : SigningPolicy) (now_unix : Z) : SigningDecision :=
  if negb (is_ok (validate p)) then PolicyInvalid
  else if negb (rtc_floor_unix p =? 0) && (now_unix <? rtc_floor_unix p) then ClockRollback
  else if negb (not_before_unix p =? 0) && (now_unix <? not_before_unix p) then BeforeNotBefore
  else if weekly_enabled p then
    match UtcDateTime.from_unix_seconds now_unix with
    | Err _ => ClockInvalid
    | Ok now =>
        match UtcDateTime.weekday_monday0 now with
        | Err _ => ClockInvalid
        | Ok day =>
            let minute := hour now * 60 + minute now in
            let allowed := existsb (fun window => SigningWindow.contains window day minute) (take (Z.to_nat (weekly_count p)) (windows p)) in
            if negb allowed then OutsideWeeklyWindow else Allowed
        end
    end
  else Allowed.

(** ** Texts *)

Definition decimal (input : list Z) : result Z PolicyError :=
  try_fold (fun value byte =>
    if Decimal.is_ascii_digit byte then Ok (value * 10 + (byte - 48)) else Err InvalidFormat) 0 input.

(** A range of a text whose length has been checked. *)
Definition part (input : list Z) (i j : Z) : list Z := default [] (slice input i j).

Definition parse_utc_yyyymmddhhmm (input : list Z) : result UtcDateTime PolicyError :=
  if negb (blen input =? 12) then Err InvalidFormat
  else
    let? year := decimal (part input 0 4) in
    let? month := decimal (part input 4 6) in
    let? day := decimal (part input 6 8) in
    let? hour := decimal (part input 8 10) in
    let? minute := decimal (part input 10 12) in
    let value := UtcDateTime.new year (month mod 256) (day mod 256) (hour mod 256) (minute mod 256) 0 in
    let? _ := UtcDateTime.validate value in
    Ok value.

Definition parse_hhmm (hour minute : list Z) : result Z PolicyError :=
  let? hour := decimal hour in
  let? minute := decimal minute in
  if (23 <? hour) || (59 <? minute) then Err InvalidWindow else Ok (hour * 60 + minute).

(** [b':'] is 58, [b'-'] 45. *)
Definition parse_time_range (input : list Z) : result (Z * Z) PolicyError :=
  let byte_is i byte := bool_decide (get_at input i = Some byte) in
  if negb (blen input =? 11) || negb (byte_is 2 58) || negb (byte_is 5 45) || negb (byte_is 8 58) then Err InvalidFormat
  else
    let? start := parse_hhmm (part input 0 2) (part input 3 5) in
    let? finish := parse_hhmm (part input 6 8) (part input 9 11) in
    Ok (start, finish).

Definition WEEKDAY_NAMES : list (list Z) := map str ["MON"; "TUE"; "WED"; "THU"; "FRI"; "SAT"; "SUN"]%string.

(** [eq_ignore_ascii_case] *)
Definition eq_ignore_ascii_case (a b : list Z) : bool := bool_decide (NetworkId.to_ascii_lowercase a = NetworkId.to_ascii_lowercase b).

Definition parse_weekday (input : list Z) : result Z PolicyError :=
  ok_or (p ← list_find (fun name => eq_ignore_ascii_case input name = true) WEEKDAY_NAMES; Some (Z.of_nat p.1 mod 256)) InvalidFormat.

(** [u8::is_ascii_whitespace] and [trim_ascii] *)
Definition is_ascii_whitespace (byte : Z) : bool := bool_decide (byte ∈ [9; 10; 12; 13; 32]).
Fixpoint trim_start (text : list Z) : list Z :=
  match text with
  | byte :: rest => if is_ascii_whitespace byte then trim_start rest else text
  | [] => []
  end.
Definition trim_ascii (text : list Z) : list Z := reverse (trim_start (reverse (trim_start text))).

Definition parse_window (input : list Z) : result SigningWindow PolicyError :=
  if blen input <? 3 then Err InvalidFormat
  else
    let day := take 3 input in
    let rest := drop 3 input in
    if negb (match rest with byte :: _ => is_ascii_whitespace byte | [] => false end) then Err InvalidFormat
    else
      let? weekday := parse_weekday day in
      let? (start_minute, end_minute) := parse_time_range (trim_ascii rest) in
      let value := {| weekday := weekday; start_minute := start_minute; end_minute := end_minute |} in
      let? _ := SigningWindow.validate value in
      Ok value.

(** One round over the used windows of the array, whose others stay [EMPTY]. *)
Definition read_window (windows : list SigningWindow) (raw : list Z) : result (list SigningWindow) PolicyError :=
  let text := trim_ascii raw in
  match text with
  | [] => Err InvalidFormat
  | _ =>
      if MAX_WEEKLY_WINDOWS <=? blen windows then Err TooManyWindows
      else let? window := parse_window text in Ok (windows ++ [window])
  end.
Definition parse_window_list (input : list Z) : result (list SigningWindow) PolicyError :=
  try_fold read_window [] (split_byte 59 input).

(** [windows(2)] of the used windows. *)
Fixpoint adjacent_overlap (used : list SigningWindow) : bool :=
  match used with
  | window :: (next :: _) as later => windows_overlap window next || adjacent_overlap later
  | _ => false
  end.
Definition reject_adjacent_overlaps (used : list SigningWindow) : result unit PolicyError :=
  if adjacent_overlap used then Err OverlappingWindow else Ok tt.

(** The sort is unstable, and elements with equal keys could be exchanged:
    such windows start together, overlap and are rejected either way. *)
Definition window_order (left right : SigningWindow) : comparison :=
  then_with (weekday left ?= weekday right) (start_minute left ?= start_minute right).

Definition parse_weekly_windows (input : list Z) : result (list SigningWindow * Z) PolicyError :=
  let? used := parse_window_list input in
  let used := sort_by window_order used in
  let? _ := reject_adjacent_overlaps used in
  Ok (used ++ replicate (4 - length used) SigningWindow.EMPTY, blen used mod 256).
