(* ===== verification/TimePolicyProofs.v ===== *)
(** * Time policy: proofs

    The conversions agree with a clock that ticks through the calendar second
    by second; a policy allows exactly the times its fields describe; the texts
    of dates and windows are read as they are written. *)

From S2P Require Import Prelude Bytes NetworkId Selection TimePolicy.
Import UtcDateTime (UtcDateTime, year, month, day, hour, minute, second).
Import SigningWindow (SigningWindow, weekday, start_minute, end_minute).

Ltac Zify.zify_post_hook ::= Z.to_euclidean_division_equations.

(** ** A reference calendar *)

Definition year_length (y : Z) : Z := if is_leap_year y then 366 else 365.

(** The lengths of the months, January first. *)
Definition month_lengths (y : Z) : list Z := [31; (if is_leap_year y then 29 else 28); 31; 30; 31; 30; 31; 31; 30; 31; 30; 31].
Definition month_length (y m : Z) : Z := default 0 (get_at (month_lengths y) (m - 1)).

(** The second after a date, with its weekday. *)
Definition tick (now : UtcDateTime * Z) : UtcDateTime * Z :=
  let '(d, weekday) := now in
  if second d <? 59 then (UtcDateTime.new (year d) (month d) (day d) (hour d) (minute d) (second d + 1), weekday)
  else if minute d <? 59 then (UtcDateTime.new (year d) (month d) (day d) (hour d) (minute d + 1) 0, weekday)
  else if hour d <? 23 then (UtcDateTime.new (year d) (month d) (day d) (hour d + 1) 0 0, weekday)
  else
    let weekday := (weekday + 1) mod 7 in
    if day d <? month_length (year d) (month d) then (UtcDateTime.new (year d) (month d) (day d + 1) 0 0 0, weekday)
    else if month d <? 12 then (UtcDateTime.new (year d) (month d + 1) 1 0 0 0, weekday)
    else (UtcDateTime.new (year d + 1) 1 1 0 0 0, weekday).

(** Saturday, the first of January 2000. *)
Definition clock (n : nat) : UtcDateTime * Z := Nat.iter n tick (UtcDateTime.new 2000 1 1 0 0 0, 5).

Definition FIRST_SECOND : Z := 946684800.
Definition LAST_SECOND : Z := 4102444799.

(** ** Years and months *)

Lemma month_cases m : 1 <= m <= 12 ->
  m = 1 \/ m = 2 \/ m = 3 \/ m = 4 \/ m = 5 \/ m = 6 \/ m = 7 \/ m = 8 \/ m = 9 \/ m = 10 \/ m = 11 \/ m = 12.
Proof. lia. Qed.

Ltac each_month H := apply month_cases in H; repeat (destruct H as [-> | H]); [.. | subst].

Lemma days_in_month_length y m : days_in_month y m = month_length y m.
Proof.
  destruct (decide (1 <= m <= 12)) as [Hm|Hm].
  - each_month Hm; done.
  - unfold month_length, get_at. destruct (Z.leb_spec 0 (m - 1)).
    + rewrite (lookup_ge_None_2 (month_lengths y)) by (change (length (month_lengths y)) with 12%nat; lia). unfold days_in_month.
      destruct m as [|p|p]; [lia| |lia]. do 4 (destruct p as [p|p|]; try lia; try done).
    + unfold days_in_month. destruct m as [|p|p]; [done|lia|done].
Qed.

Lemma days_in_month_months y m : 1 <= days_in_month y m -> 1 <= m <= 12.
Proof.
  intros H. destruct (decide (1 <= m <= 12)) as [|Hm]; [done|]. exfalso. unfold days_in_month in H.
  destruct m as [|p|p]; [lia| |lia]. do 4 (destruct p as [p|p|]; try lia).
Qed.

Lemma days_in_month_bounds y m : 0 <= days_in_month y m <= 31.
Proof.
  destruct (decide (1 <= m <= 12)) as [Hm|Hm].
  - each_month Hm; cbn -[is_leap_year]; try destruct (is_leap_year y); lia.
  - destruct (Z.le_gt_cases 1 (days_in_month y m)) as [H|H]; [by apply days_in_month_months in H|].
    rewrite days_in_month_length in *. unfold month_length, get_at in *. destruct (Z.leb_spec 0 (m - 1)); [|cbn; lia].
    rewrite (lookup_ge_None_2 (month_lengths y)) by (change (length (month_lengths y)) with 12%nat; lia). cbn. lia.
Qed.

Lemma year_step y : 1970 <= y -> days_before_year (y + 1) = days_before_year y + year_length y.
Proof.
  intros Hy. unfold days_before_year, year_length, is_leap_year. cbv zeta. rewrite Z.add_simpl_r.
  destruct (Z.eqb_spec (y mod 4) 0), (Z.eqb_spec (y mod 100) 0), (Z.eqb_spec (y mod 400) 0); cbn [andb orb negb]; lia.
Qed.

Lemma year_mono y y' : 1970 <= y <= y' -> days_before_year y <= days_before_year y'.
Proof. intros. unfold days_before_year. lia. Qed.

Lemma year_length_bounds y : 365 <= year_length y <= 366.
Proof. unfold year_length. destruct (is_leap_year y); lia. Qed.

Lemma month_step y m : 1 <= m <= 11 -> days_before_month y (m + 1) = days_before_month y m + days_in_month y m.
Proof.
  intros Hm. assert (Hm' : 1 <= m <= 12) by lia.
  unfold days_before_month, days_in_month. cbv zeta. destruct (is_leap_year y); each_month Hm'; first [reflexivity|lia].
Qed.

Lemma month_mono y m m' : 1 <= m <= m' -> m' <= 12 -> days_before_month y m <= days_before_month y m'.
Proof.
  intros Hm H12. assert (H : forall n, m + Z.of_nat n <= 12 -> days_before_month y m <= days_before_month y (m + Z.of_nat n)).
  { intros n. induction n as [|n IH]; intros Hn; [rewrite Z.add_0_r; lia|].
    replace (m + Z.of_nat (S n)) with (m + Z.of_nat n + 1) by lia. rewrite month_step by lia.
    pose proof (days_in_month_bounds y (m + Z.of_nat n)). lia. }
  replace m' with (m + Z.of_nat (Z.to_nat (m' - m))) by lia. apply H. lia.
Qed.

Lemma last_month y : days_before_month y 12 + 31 = year_length y.
Proof. unfold year_length, days_before_month. cbv zeta. by destruct (is_leap_year y). Qed.

(** A day of a month is a day of its year. *)
Lemma day_of_year y m d : 1 <= m <= 12 -> 0 <= d < days_in_month y m ->
  0 <= days_before_month y m + d < year_length y.
Proof.
  intros Hm Hd. pose proof (last_month y). pose proof (month_mono y 1 m ltac:(lia) ltac:(lia)) as H1. change (days_before_month y 1) with 0 in H1.
  destruct (Z.eq_dec m 12) as [->|]; [change (days_in_month y 12) with 31 in Hd; lia|].
  pose proof (month_step y m ltac:(lia)). pose proof (month_mono y (m + 1) 12 ltac:(lia) ltac:(lia)). lia.
Qed.

Lemma year_of_days_eq fuel y y' rest : 1970 <= y <= y' -> y' < y + Z.of_nat fuel -> 0 <= rest < year_length y' ->
  UtcDateTime.year_of_days fuel (days_before_year y' - days_before_year y + rest) y = (rest, y').
Proof.
  revert y. induction fuel as [|fuel IH]; intros y Hy Hf Hr; [lia|]. cbn [UtcDateTime.year_of_days]. fold (year_length y).
  destruct (Z.eq_dec y y') as [<-|Hne].
  - rewrite Z.sub_diag, Z.add_0_l. by rewrite (proj2 (Z.ltb_lt _ _)) by lia.
  - pose proof (year_step y ltac:(lia)) as Hs. pose proof (year_mono (y + 1) y' ltac:(lia)).
    rewrite (proj2 (Z.ltb_ge _ _)) by lia. 
    replace (days_before_year y' - days_before_year y + rest - year_length y) with (days_before_year y' - days_before_year (y + 1) + rest) by lia.
    apply IH; lia.
Qed.

Lemma month_of_days_eq fuel y m m' rest : 1 <= m <= m' -> m' <= 12 -> m' < m + Z.of_nat fuel -> 0 <= rest < days_in_month y m' ->
  UtcDateTime.month_of_days fuel y (days_before_month y m' - days_before_month y m + rest) m = (rest, m').
Proof.
  intros Hm H12. revert m Hm. induction fuel as [|fuel IH]; intros m Hm Hf Hr; [lia|]. cbn [UtcDateTime.month_of_days].
  destruct (Z.eq_dec m m') as [<-|Hne].
  - rewrite Z.sub_diag, Z.add_0_l. by rewrite (proj2 (Z.ltb_lt _ _)) by lia.
  - pose proof (month_step y m ltac:(lia)) as Hs. pose proof (month_mono y (m + 1) m' ltac:(lia) ltac:(lia)).
    rewrite (proj2 (Z.ltb_ge _ _)) by lia. 
    replace (days_before_month y m' - days_before_month y m + rest - days_in_month y m) with (days_before_month y m' - days_before_month y (m + 1) + rest) by lia.
    apply IH; lia.
Qed.

(** ** Conversions *)

(** The types of the fields have no negative values. *)
Definition typed_date (d : UtcDateTime) : Prop := 0 <= day d /\ 0 <= hour d /\ 0 <= minute d /\ 0 <= second d.

(** The dates [validate] accepts. *)
Definition valid_date (d : UtcDateTime) : Prop :=
  2000 <= year d <= 2099 /\ 1 <= month d <= 12 /\ 1 <= day d <= days_in_month (year d) (month d) /\
  0 <= hour d <= 23 /\ 0 <= minute d <= 59 /\ 0 <= second d <= 59.

Lemma validate_valid d : typed_date d -> UtcDateTime.validate d = Ok tt <-> valid_date d.
Proof.
  intros (H1 & H2 & H3 & H4). unfold UtcDateTime.validate, valid_date, MIN_YEAR, MAX_YEAR. cbv zeta.
  destruct (Z.ltb_spec (year d) 2000), (Z.ltb_spec 2099 (year d)); cbn [orb]; try (split; [done|lia]).
  destruct (Z.eqb_spec (day d) 0), (Z.ltb_spec (days_in_month (year d) (month d)) (day d)),
    (Z.ltb_spec 23 (hour d)), (Z.ltb_spec 59 (minute d)), (Z.ltb_spec 59 (second d)); cbn [orb]; try (split; [done|lia]).
  split; [intros _|done]. pose proof (days_in_month_months (year d) (month d) ltac:(lia)). lia.
Qed.

Definition day_number (d : UtcDateTime) : Z := days_before_year (year d) + days_before_month (year d) (month d) + (day d - 1).
Definition unix_of (d : UtcDateTime) : Z := day_number d * 86400 + hour d * 3600 + minute d * 60 + second d.

Lemma to_unix_valid d u : typed_date d -> UtcDateTime.to_unix_seconds d = Ok u <-> valid_date d /\ u = unix_of d.
Proof.
  intros Ht. rewrite <- (validate_valid d Ht). unfold UtcDateTime.to_unix_seconds.
  destruct (UtcDateTime.validate d) as [[]|]; cbn [rbind]; [|naive_solver].
  unfold unix_of, day_number, SECONDS_PER_DAY. cbv zeta. naive_solver.
Qed.

Lemma day_number_range d : valid_date d -> 10957 <= day_number d <= 47481.
Proof.
  intros (Hy & Hm & Hd & _). unfold day_number. pose proof (day_of_year (year d) (month d) (day d - 1) Hm ltac:(lia)).
  pose proof (year_mono 2000 (year d) ltac:(lia)) as H1. change (days_before_year 2000) with 10957 in H1.
  pose proof (year_step (year d) ltac:(lia)). pose proof (year_mono (year d + 1) 2100 ltac:(lia)) as H2.
  change (days_before_year 2100) with 47482 in H2. lia.
Qed.

Lemma from_unix_unfold u : UtcDateTime.from_unix_seconds u =
  if (u <? FIRST_SECOND) || (LAST_SECOND <? u) then Err DateOutOfRange
  else
    let '(days, y) := UtcDateTime.year_of_days 131 (u / 86400) 1970 in
    let '(days, m) := UtcDateTime.month_of_days 13 y days 1 in
    Ok {| year := y; month := m; day := days mod 256 + 1; hour := (u mod 86400 / 3600) mod 256;
          minute := (u mod 86400 mod 3600 / 60) mod 256; second := (u mod 86400 mod 60) mod 256 |}.
Proof. reflexivity. Qed.

Lemma from_unix_of d : valid_date d -> UtcDateTime.from_unix_seconds (unix_of d) = Ok d.
Proof.
  intros Hv. pose proof (day_number_range d Hv) as Hn. pose proof Hv as (Hy & Hm & Hd & Hh & Hmin & Hs).
  rewrite from_unix_unfold. unfold FIRST_SECOND, LAST_SECOND, unix_of.
  rewrite (proj2 (Z.ltb_ge _ _)), (proj2 (Z.ltb_ge _ _)) by lia. cbn [orb].
  set (rest := hour d * 3600 + minute d * 60 + second d). assert (Hr : 0 <= rest < 86400) by lia.
  replace (day_number d * 86400 + hour d * 3600 + minute d * 60 + second d) with (rest + day_number d * 86400) by lia.
  rewrite Z.div_add, Z.mod_add, (Z.div_small rest), (Z.mod_small rest), Z.add_0_l by lia.
  pose proof (day_of_year (year d) (month d) (day d - 1) Hm ltac:(lia)) as Hdoy.
  replace (day_number d) with (days_before_year (year d) - days_before_year 1970 + (days_before_month (year d) (month d) + (day d - 1)))
    by (unfold day_number; change (days_before_year 1970) with 0; lia).
  rewrite year_of_days_eq by lia.
  replace (days_before_month (year d) (month d) + (day d - 1)) with (days_before_month (year d) (month d) - days_before_month (year d) 1 + (day d - 1))
    by (change (days_before_month (year d) 1) with 0; lia).
  rewrite month_of_days_eq by lia.
  pose proof (days_in_month_bounds (year d) (month d)) as H31.
  destruct d as [y m dd h mi s]. cbn in *. do 2 f_equal; unfold rest; lia.
Qed.

(** ** The clock *)

Definition weekday_of (d : UtcDateTime) : Z := (day_number d + 3) mod 7.

(** A date at midnight, [n] days after another. *)
Lemma midnight d y m dd w : valid_date d -> hour d = 23 -> minute d = 59 -> second d = 59 -> w = weekday_of d ->
  let d' := UtcDateTime.new y m dd 0 0 0 in
  day_number d' = day_number d + 1 -> valid_date d' ->
  valid_date d' /\ unix_of d' = unix_of d + 1 /\ (w + 1) mod 7 = weekday_of d'.
Proof.
  intros Hv Hh Hm Hs -> d' Hd Hv'. split; [done|]. unfold unix_of, weekday_of. rewrite Hd, Hh, Hm, Hs. cbn [hour minute second UtcDateTime.new d'].
  split; [lia|]. rewrite <- Z.add_assoc, Zplus_mod_idemp_l. f_equal. lia.
Qed.

Lemma tick_spec d w : valid_date d -> w = weekday_of d -> unix_of d < LAST_SECOND ->
  let '(d', w') := tick (d, w) in valid_date d' /\ unix_of d' = unix_of d + 1 /\ w' = weekday_of d'.
Proof.
  intros Hv Hw Hlast. pose proof Hv as (Hy & Hm & Hd & Hh & Hmin & Hs). unfold tick. rewrite <- days_in_month_length.
  destruct (Z.ltb_spec (second d) 59); [|destruct (Z.ltb_spec (minute d) 59); [|destruct (Z.ltb_spec (hour d) 23)]].
  1-3: unfold valid_date, unix_of, weekday_of, day_number in *; cbn [year month day hour minute second UtcDateTime.new] in *; split; [lia|]; split; [lia|exact Hw].
  cbv zeta. destruct (Z.ltb_spec (day d) (days_in_month (year d) (month d))); [|destruct (Z.ltb_spec (month d) 12)];
    apply (midnight d); try (done || lia); unfold valid_date, day_number; cbn [year month day hour minute second UtcDateTime.new]; try lia.
  - pose proof (month_step (year d) (month d) ltac:(lia)). lia.
  - assert (Hm' : 1 <= month d + 1 <= 12) by lia. split_and!; try lia. generalize dependent (month d + 1). intros k Hk.
    each_month Hk; unfold days_in_month; try destruct (is_leap_year _); lia.
  - pose proof (year_step (year d) ltac:(lia)). pose proof (last_month (year d)). replace (month d) with 12 in * by lia.
    change (days_in_month (year d) 12) with 31 in *. change (days_before_month (year d + 1) 1) with 0. lia.
  - assert (Hlt : year d < 2099).
    { destruct (Z.eq_dec (year d) 2099) as [H9|]; [|lia]. exfalso. assert (H12 : month d = 12) by lia. unfold unix_of, day_number, LAST_SECOND in Hlast.
      rewrite H9, H12 in *. change (days_in_month 2099 12) with 31 in *.
      change (days_before_year 2099) with 47117 in Hlast. change (days_before_month 2099 12) with 334 in Hlast. lia. }
    change (days_in_month (year d + 1) 1) with 31. lia.
Qed.

Lemma clock_spec n : Z.of_nat n <= LAST_SECOND - FIRST_SECOND ->
  valid_date (clock n).1 /\ unix_of (clock n).1 = FIRST_SECOND + Z.of_nat n /\ (clock n).2 = weekday_of (clock n).1.
Proof.
  induction n as [|n IH]; intros Hn; [vm_compute; intuition congruence|]. destruct IH as (Hv & Hu & Hw); [lia|].
  unfold clock in *. cbn [Nat.iter nat_rect]. fold (Nat.iter n tick (UtcDateTime.new 2000 1 1 0 0 0, 5)). 
  destruct (Nat.iter n tick _) as [d w]. cbn [fst snd] in *. pose proof (tick_spec d w Hv Hw) as H.
  destruct (tick (d, w)) as [d' w']. cbn [fst snd]. destruct H as (Hv' & Hu' & Hw'); [lia|]. split; [done|]. split; [lia|done].
Qed.

Lemma valid_typed d : valid_date d -> typed_date d.
Proof. unfold valid_date, typed_date. lia. Qed.

Lemma to_unix_of d : valid_date d -> UtcDateTime.to_unix_seconds d = Ok (unix_of d).
Proof. intros Hv. apply to_unix_valid; [by apply valid_typed|done]. Qed.

Lemma weekday_monday0_of d : valid_date d -> UtcDateTime.weekday_monday0 d = Ok (weekday_of d).
Proof.
  intros Hv. pose proof Hv as (_ & _ & _ & Hh & Hm & Hs). unfold UtcDateTime.weekday_monday0. rewrite to_unix_of by done. cbn [rbind].
  f_equal. unfold weekday_of, unix_of, SECONDS_PER_DAY.
  replace ((day_number d * 86400 + hour d * 3600 + minute d * 60 + second d) / 86400) with (day_number d); [|lia].
  rewrite Z.mod_small; [done|]. pose proof (Z.mod_pos_bound (day_number d + 3) 7). lia.
Qed.

(** The date of a time in range. *)
Lemma from_unix_clock u : FIRST_SECOND <= u <= LAST_SECOND ->
  exists d, UtcDateTime.from_unix_seconds u = Ok d /\ valid_date d /\ unix_of d = u /\ clock (Z.to_nat (u - FIRST_SECOND)) = (d, weekday_of d).
Proof.
  intros Hu. destruct (clock_spec (Z.to_nat (u - FIRST_SECOND))) as (Hv & Hun & Hw); [lia|].
  destruct (clock (Z.to_nat (u - FIRST_SECOND))) as [d w]. cbn [fst snd] in *. exists d.
  assert (Hd : unix_of d = u) by lia. rewrite <- Hd at 1. rewrite from_unix_of by done. by rewrite Hw.
Qed.

(** C35: [from_unix_seconds] reads the calendar that a clock ticks through,
    second by second with leap years and weekdays, from the first second of
    2000 to the last of 2099; [to_unix_seconds] is its inverse on the dates
    that exist, and both refuse everything else. *)
Theorem calendar_counts u :
  (UtcDateTime.from_unix_seconds u =
     if (FIRST_SECOND <=? u) && (u <=? LAST_SECOND) then Ok (clock (Z.to_nat (u - FIRST_SECOND))).1 else Err DateOutOfRange) /\
  (FIRST_SECOND <= u <= LAST_SECOND ->
     UtcDateTime.weekday_monday0 (clock (Z.to_nat (u - FIRST_SECOND))).1 = Ok (clock (Z.to_nat (u - FIRST_SECOND))).2) /\
  (forall d, typed_date d -> UtcDateTime.to_unix_seconds d = Ok u <-> UtcDateTime.from_unix_seconds u = Ok d).
Proof.
  split_and!.
  - destruct (Z.leb_spec FIRST_SECOND u), (Z.leb_spec u LAST_SECOND); cbn [andb].
    + destruct (from_unix_clock u) as (d & Hf & _ & _ & ->); [lia|done].
    + rewrite from_unix_unfold, (proj2 (Z.ltb_lt LAST_SECOND u)) by lia. by rewrite orb_true_r.
    + by rewrite from_unix_unfold, (proj2 (Z.ltb_lt u FIRST_SECOND)) by lia.
    + by rewrite from_unix_unfold, (proj2 (Z.ltb_lt u FIRST_SECOND)) by lia.
  - intros Hu. destruct (from_unix_clock u Hu) as (d & _ & Hv & _ & ->). cbn [fst snd]. by apply weekday_monday0_of.
  - intros d Ht. rewrite to_unix_valid by done. split; [intros [Hv ->]; by apply from_unix_of|]. intros Hf.
    assert (Hu : FIRST_SECOND <= u <= LAST_SECOND).
    { rewrite from_unix_unfold in Hf. destruct (Z.ltb_spec u FIRST_SECOND); [done|]. destruct (Z.ltb_spec LAST_SECOND u); [done|]. lia. }
    destruct (from_unix_clock u Hu) as (d' & Hf' & Hv & Hd & _). rewrite Hf in Hf'. injection Hf' as <-. done.
Qed.

(** ** Windows *)

Definition typed_window (w : SigningWindow) : Prop := 0 <= weekday w /\ 0 <= start_minute w /\ 0 <= end_minute w.
Definition valid_window (w : SigningWindow) : Prop := 0 <= weekday w <= 6 /\ 0 <= start_minute w < end_minute w /\ end_minute w <= 1440.

(** The minutes of the week a window covers, counted from Monday. *)
Definition covers (w : SigningWindow) (m : Z) : Prop := weekday w * 1440 + start_minute w <= m < weekday w * 1440 + end_minute w.
Definition disjoint_windows (a b : SigningWindow) : Prop := forall m, ~ (covers a m /\ covers b m).

Lemma window_validate w : typed_window w -> SigningWindow.validate w = Ok tt <-> valid_window w.
Proof.
  intros (H1 & H2 & H3). unfold SigningWindow.validate, valid_window, MINUTES_PER_DAY.
  destruct (Z.ltb_spec 6 (weekday w)), (Z.leb_spec (end_minute w) (start_minute w)), (Z.ltb_spec 1440 (end_minute w)); cbn [orb]; split; done || lia.
Qed.

Lemma contains_covers w day minute : valid_window w -> 0 <= minute < 1440 ->
  SigningWindow.contains w day minute = true <-> covers w (day * 1440 + minute).
Proof.
  intros Hv Hm. unfold SigningWindow.contains, covers, valid_window in *.
  rewrite !andb_true_iff, Z.eqb_eq, Z.leb_le, Z.ltb_lt. split; [lia|]. intros H. assert (weekday w = day) by lia. lia.
Qed.

Lemma overlap_disjoint a b : valid_window a -> valid_window b -> windows_overlap a b = false <-> disjoint_windows a b.
Proof.
  unfold valid_window, disjoint_windows, covers, windows_overlap. intros Ha Hb. split.
  - intros H m [H1 H2]. assert (weekday a = weekday b) by lia. apply not_true_iff_false in H. apply H.
    rewrite !andb_true_iff, Z.eqb_eq, !Z.ltb_lt. lia.
  - intros H. apply not_true_iff_false. rewrite !andb_true_iff, Z.eqb_eq, !Z.ltb_lt. intros [[He H1] H2].
    apply (H (weekday a * 1440 + Z.max (start_minute a) (start_minute b))). lia.
Qed.

Lemma disjoint_sym a b : disjoint_windows a b -> disjoint_windows b a.
Proof. intros H m [? ?]. by apply (H m). Qed.

(** No two of the windows cover a minute. *)
Definition pairwise_disjoint : list SigningWindow -> Prop := ForallOrdPairs disjoint_windows.

Lemma pairwise_permutation l l' : l ≡ₚ l' -> pairwise_disjoint l -> pairwise_disjoint l'.
Proof.
  induction 1 as [|x l l' Hp IH|x y l|l1 l2 l3 _ IH1 _ IH2]; intros H; [done| | |auto].
  - inversion H as [|? ? Hx Hl]; subst. constructor; [by rewrite <- Hp|by apply IH].
  - inversion H as [|? ? Hy Hl]; subst. inversion Hl as [|? ? Hx Hl']; subst. apply Forall_cons in Hy as [Hyx Hy].
    constructor; [constructor; [by apply disjoint_sym|done]|by constructor].
Qed.

Lemma existsb_false {A} (f : A -> bool) l : existsb f l = false <-> Forall (fun x => f x = false) l.
Proof.
  induction l as [|x l IH]; cbn; [split; [constructor|done]|]. rewrite orb_false_iff, IH, Forall_cons. done.
Qed.

Lemma check_windows_iff l : Forall typed_window l -> check_windows l = Ok tt <-> Forall valid_window l /\ pairwise_disjoint l.
Proof.
  induction 1 as [|w l Hw Hl IH]; cbn [check_windows]; [split; [intros _; split; constructor|done]|].
  destruct (SigningWindow.validate w) as [[]|e] eqn:Ev; cbn [rbind].
  2:{ split; [done|]. intros [Hv _]. apply Forall_cons in Hv as [Hv _]. apply (window_validate w Hw) in Hv. congruence. }
  apply (window_validate w Hw) in Ev. destruct (existsb (windows_overlap w) l) eqn:Eo.
  - split; [done|]. intros [Hv Hd]. apply Forall_cons in Hv as [_ Hv]. inversion Hd as [|? ? Hwd _]; subst. exfalso.
    apply not_false_iff_true in Eo. apply Eo, existsb_false. rewrite Forall_forall in *. intros x Hx. apply overlap_disjoint; auto.
  - rewrite IH. apply existsb_false in Eo. split.
    + intros [Hv Hd]. split; [by constructor|]. constructor; [|done]. rewrite Forall_forall in *. intros x Hx. apply overlap_disjoint; auto.
    + intros [Hv Hd]. apply Forall_cons in Hv as [_ Hv]. inversion Hd; subst. done.
Qed.

(** ** Policies *)

Definition typed_policy (p : SigningPolicy) : Prop :=
  0 <= not_before_unix p /\ 0 <= rtc_floor_unix p /\ 0 <= weekly_count p /\ length (windows p) = 4%nat /\ Forall typed_window (windows p).

Definition used_windows (p : SigningPolicy) : list SigningWindow := take (Z.to_nat (weekly_count p)) (windows p).

(** Absent, or between 2000 and 2099. *)
Definition time_ok (u : Z) : Prop := u = 0 \/ FIRST_SECOND <= u <= LAST_SECOND.

Definition well_formed (p : SigningPolicy) : Prop :=
  weekly_count p <= 4 /\ (weekly_enabled p = true <-> weekly_count p <> 0) /\
  Forall (eq SigningWindow.EMPTY) (drop (Z.to_nat (weekly_count p)) (windows p)) /\
  Forall valid_window (used_windows p) /\ pairwise_disjoint (used_windows p) /\
  time_ok (not_before_unix p) /\ time_ok (rtc_floor_unix p).

Lemma from_unix_ok u : (exists d, UtcDateTime.from_unix_seconds u = Ok d) <-> FIRST_SECOND <= u <= LAST_SECOND.
Proof.
  split.
  - intros (d & H). rewrite from_unix_unfold in H. destruct (Z.ltb_spec u FIRST_SECOND); [done|]. destruct (Z.ltb_spec LAST_SECOND u); [done|]. lia.
  - intros H. destruct (from_unix_clock u H) as (d & Hd & _). by exists d.
Qed.

Lemma validate_time_ok u : validate_time u = Ok tt <-> time_ok u.
Proof.
  unfold validate_time, time_ok. destruct (Z.eqb_spec u 0) as [|Hne]; cbn [negb]; [split; auto|].
  rewrite <- from_unix_ok. destruct (UtcDateTime.from_unix_seconds u) as [d|e]; cbn [rbind]; split; try naive_solver.
Qed.

Lemma validate_well_formed p : typed_policy p -> validate p = Ok tt <-> well_formed p.
Proof.
  intros (_ & _ & Hc & Hl & Hw). unfold validate, well_formed, validate_window_shape, MAX_WEEKLY_WINDOWS. cbv zeta.
  destruct (Z.ltb_spec 4 (weekly_count p)); [split; [done|lia]|].
  destruct (Bool.eqb (weekly_enabled p) (negb (weekly_count p =? 0))) eqn:Ee; cbn [negb rbind].
  2:{ apply eqb_false_iff in Ee. split; [done|]. intros (_ & He & _). exfalso. apply Ee. destruct (Z.eqb_spec (weekly_count p) 0), (weekly_enabled p); cbn; naive_solver. }
  apply eqb_prop in Ee. destruct (existsb _ _) eqn:Ex; cbn [rbind].
  { split; [done|]. intros (_ & _ & Hrest & _). exfalso. apply not_false_iff_true in Ex. apply Ex, existsb_false.
    eapply Forall_impl; [exact Hrest|]. intros w <-. by rewrite bool_decide_true. }
  apply existsb_false in Ex. unfold validate_windows. fold (used_windows p).
  pose proof (check_windows_iff (used_windows p) ltac:(by apply Forall_take)) as Hu.
  unfold validate_policy_times. pose proof (validate_time_ok (not_before_unix p)) as Hn. pose proof (validate_time_ok (rtc_floor_unix p)) as Hr.
  assert (He : weekly_enabled p = true <-> weekly_count p <> 0) by (rewrite Ee; destruct (Z.eqb_spec (weekly_count p) 0); cbn; naive_solver).
  assert (Hrest : Forall (eq SigningWindow.EMPTY) (drop (Z.to_nat (weekly_count p)) (windows p))).
  { eapply Forall_impl; [exact Ex|]. intros w Hwd. cbn beta in Hwd. apply negb_false_iff, bool_decide_eq_true in Hwd. done. }
  destruct (check_windows (used_windows p)) as [[]|]; cbn [rbind]; [|naive_solver].
  destruct (validate_time (not_before_unix p)) as [[]|]; cbn [rbind]; [|naive_solver].
  rewrite Hr. naive_solver.
Qed.

(** The minute of the week a time is in; the first of January 1970 was a
    Thursday. *)
Definition week_minute (unix : Z) : Z := (unix / 60 + 3 * 1440) mod 10080.

Lemma week_minute_of d : valid_date d -> week_minute (unix_of d) = weekday_of d * 1440 + (hour d * 60 + minute d).
Proof.
  intros (_ & _ & _ & Hh & Hm & Hs). unfold week_minute, unix_of, weekday_of.
  replace ((day_number d * 86400 + hour d * 3600 + minute d * 60 + second d) / 60) with (day_number d * 1440 + (hour d * 60 + minute d)) by lia. lia.
Qed.

Lemma weekly_allowed p now : well_formed p ->
  match UtcDateTime.from_unix_seconds now with
  | Err _ => ClockInvalid
  | Ok now =>
      match UtcDateTime.weekday_monday0 now with
      | Err _ => ClockInvalid
      | Ok day =>
          let minute := hour now * 60 + minute now in
          let allowed := existsb (fun window => SigningWindow.contains window day minute) (used_windows p) in
          if negb allowed then OutsideWeeklyWindow else Allowed
      end
  end = Allowed <-> FIRST_SECOND <= now <= LAST_SECOND /\ Exists (fun w => covers w (week_minute now)) (used_windows p).
Proof.
  intros (_ & _ & _ & Hv & _). destruct (UtcDateTime.from_unix_seconds now) as [d|e] eqn:E.
  2:{ split; [done|]. intros [Hr _]. apply from_unix_ok in Hr as (d & Hd). congruence. }
  assert (Hr : FIRST_SECOND <= now <= LAST_SECOND) by (apply from_unix_ok; by exists d).
  destruct (from_unix_clock now Hr) as (d' & Hd' & Hvd & Hu & _). rewrite Hd' in E. injection E as ->.
  rewrite weekday_monday0_of by done. cbv zeta. subst now. rewrite week_minute_of by done.
  assert (Hm : 0 <= hour d * 60 + minute d < 1440) by (destruct Hvd as (_ & _ & _ & ? & ? & _); lia).
  assert (Hiff : existsb (fun w => SigningWindow.contains w (weekday_of d) (hour d * 60 + minute d)) (used_windows p) = true <->
    Exists (fun w => covers w (weekday_of d * 1440 + (hour d * 60 + minute d))) (used_windows p)).
  { rewrite existsb_exists, Exists_exists. setoid_rewrite <- list_elem_of_In. rewrite Forall_forall in Hv.
    split; intros (w & Hin & Hw); exists w; (split; [done|]); by apply (contains_covers w _ _ (Hv w Hin) Hm). }
  rewrite <- Hiff. destruct (existsb _ _); cbn [negb]; naive_solver.
Qed.

(** A device may sign exactly when its policy is well formed, the clock
    has passed the floor and the earliest time, and, if windows are enabled,
    the minute of the week is in one of them; and a policy that needs no clock
    allows every time from its floor on. *)
Theorem evaluate_allowed p now : typed_policy p ->
  (evaluate p now = Allowed <->
     well_formed p /\ (rtc_floor_unix p <> 0 -> rtc_floor_unix p <= now) /\ (not_before_unix p <> 0 -> not_before_unix p <= now) /\
     (weekly_enabled p = true -> FIRST_SECOND <= now <= LAST_SECOND /\ Exists (fun w => covers w (week_minute now)) (used_windows p))) /\
  (requires_clock p = false -> well_formed p -> rtc_floor_unix p <= now -> evaluate p now = Allowed).
Proof.
  intros Ht. pose proof (validate_well_formed p Ht) as Hv. assert (Hmain : evaluate p now = Allowed <->
     well_formed p /\ (rtc_floor_unix p <> 0 -> rtc_floor_unix p <= now) /\ (not_before_unix p <> 0 -> not_before_unix p <= now) /\
     (weekly_enabled p = true -> FIRST_SECOND <= now <= LAST_SECOND /\ Exists (fun w => covers w (week_minute now)) (used_windows p))).
  { unfold evaluate. fold (used_windows p). destruct (validate p) as [[]|e]; cbn [is_ok negb]; [|naive_solver].
    assert (Hwf : well_formed p) by (by apply Hv). clear Hv.
    destruct (Z.eqb_spec (rtc_floor_unix p) 0), (Z.ltb_spec now (rtc_floor_unix p)); cbn [negb andb]; try (split; [done|naive_solver lia]);
    destruct (Z.eqb_spec (not_before_unix p) 0), (Z.ltb_spec now (not_before_unix p)); cbn [negb andb]; try (split; [done|naive_solver lia]);
    (destruct (weekly_enabled p); [|naive_solver lia]);
    (rewrite (weekly_allowed p now Hwf); naive_solver lia). }
  split; [exact Hmain|]. intros Hr Hwf Hf. apply Hmain. unfold requires_clock in Hr. apply orb_false_iff in Hr as [Hwe Hn].
  split; [done|]. split; [done|]. split; [|by rewrite Hwe]. intros Hne. apply andb_false_iff in Hn as [Hn|Hn]; [apply negb_false_iff in Hn; lia|lia].
Qed.

(** ** Dates as text *)

(** [v] in [w] decimal digits. *)
Fixpoint digits (w : nat) (v : Z) : list Z :=
  match w with O => [] | S w => digits w (v / 10) ++ [48 + v mod 10] end.

Lemma length_digits w v : length (digits w v) = w.
Proof. revert v. induction w as [|w IH]; intros v; cbn; [done|]. rewrite length_app, IH. cbn. lia. Qed.

Lemma decimal_snoc l byte : decimal (l ++ [byte]) =
  let? value := decimal l in if Decimal.is_ascii_digit byte then Ok (value * 10 + (byte - 48)) else Err InvalidFormat.
Proof.
  unfold decimal. rewrite try_fold_app. destruct (try_fold _ 0 l) as [v|]; cbn [rbind try_fold]; [|done].
  by destruct (Decimal.is_ascii_digit byte).
Qed.

Lemma decimal_iff l v : decimal l = Ok v <-> 0 <= v < 10 ^ blen l /\ l = digits (length l) v.
Proof.
  revert v. induction l as [|byte l IH] using rev_ind; intros v.
  - change (decimal []) with (@Ok Z PolicyError 0). change (10 ^ blen (@nil Z)) with 1. cbn [length digits]. split; [intros [= <-]; done|].
    intros [H _]. f_equal. lia.
  - rewrite decimal_snoc, length_app, Nat.add_comm, blen_app. change (blen [byte]) with 1. cbn [length Nat.add digits].
    rewrite Z.pow_add_r by (pose proof (blen_nonneg l); lia). change (10 ^ 1) with 10. split.
    + destruct (decimal l) as [u|] eqn:E; cbn [rbind]; [|done]. destruct (Decimal.is_ascii_digit byte) eqn:Ed; [|done].
      apply is_ascii_digit_true in Ed. intros [= <-]. destruct (proj1 (IH u) eq_refl) as [Hu Hl]. split; [lia|].
      replace ((u * 10 + (byte - 48)) / 10) with u by lia. rewrite <- Hl. do 2 f_equal. lia.
    + intros [Hv Hl]. apply app_inj_2 in Hl as [Hl Hb]; [|done]. injection Hb as Hb.
      rewrite (proj2 (IH (v / 10))) by (split; [lia|done]). cbn [rbind].
      rewrite (proj2 (is_ascii_digit_true byte)) by lia. f_equal. lia.
Qed.

Lemma decimal_part input i j v : 0 <= i <= j -> j <= blen input ->
  decimal (part input i j) = Ok v <-> 0 <= v < 10 ^ (j - i) /\ part input i j = digits (Z.to_nat (j - i)) v.
Proof.
  intros Hi Hj. assert (Hl : length (part input i j) = Z.to_nat (j - i)).
  { unfold part, slice. rewrite (proj2 (Z.leb_le 0 i)), (proj2 (Z.leb_le i j)), (proj2 (Z.leb_le j (blen input))) by lia. cbn [andb default]. unfold blen in Hj.
    cbn [from_option]. unfold id. rewrite length_take, length_drop. lia. }
  rewrite decimal_iff, Hl. unfold blen. rewrite Hl, Z2Nat.id by lia. done.
Qed.

Definition date_text (d : UtcDateTime) : list Z :=
  digits 4 (year d) ++ digits 2 (month d) ++ digits 2 (day d) ++ digits 2 (hour d) ++ digits 2 (minute d).

Lemma date_parts input : blen input = 12 ->
  input = part input 0 4 ++ part input 4 6 ++ part input 6 8 ++ part input 8 10 ++ part input 10 12.
Proof.
  intros Hl. unfold blen in Hl. assert (Hn : length input = 12%nat) by lia.
  do 12 (destruct input as [|? input]; [done|]). destruct input; [done|done].
Qed.

(** [parse_utc_yyyymmddhhmm] reads exactly the texts of twelve digits that
    write a date that exists, to the minute. *)
Theorem parse_date_iff input d : typed_date d ->
  parse_utc_yyyymmddhhmm input = Ok d <-> valid_date d /\ second d = 0 /\ input = date_text d.
Proof.
  intros Ht. unfold parse_utc_yyyymmddhhmm. split.
  - destruct (Z.eqb_spec (blen input) 12) as [Hl|]; cbn [negb]; [|done]. pose proof (date_parts input Hl) as Hparts.
    destruct (decimal (part input 0 4)) as [y|] eqn:E1; cbn [rbind]; [|done]. apply decimal_part in E1 as [R1 E1]; [|lia..].
    destruct (decimal (part input 4 6)) as [mo|] eqn:E2; cbn [rbind]; [|done]. apply decimal_part in E2 as [R2 E2]; [|lia..].
    destruct (decimal (part input 6 8)) as [dd|] eqn:E3; cbn [rbind]; [|done]. apply decimal_part in E3 as [R3 E3]; [|lia..].
    destruct (decimal (part input 8 10)) as [h|] eqn:E4; cbn [rbind]; [|done]. apply decimal_part in E4 as [R4 E4]; [|lia..].
    destruct (decimal (part input 10 12)) as [mi|] eqn:E5; cbn [rbind]; [|done]. apply decimal_part in E5 as [R5 E5]; [|lia..].
    cbv zeta. change (10 ^ (6 - 4)) with 100 in R2. change (10 ^ (8 - 6)) with 100 in R3. change (10 ^ (10 - 8)) with 100 in R4. change (10 ^ (12 - 10)) with 100 in R5.
    rewrite !Z.mod_small by lia. destruct (UtcDateTime.validate _) as [[]|] eqn:Ev; cbn [rbind]; [|done]. intros [= <-].
    apply (validate_valid _ Ht) in Ev. split; [done|]. split; [done|]. rewrite Hparts, E1, E2, E3, E4, E5. done.
  - intros (Hv & Hs & ->). pose proof Hv as (Hy & Hm & Hd & Hh & Hmi & _). pose proof (days_in_month_bounds (year d) (month d)).
    assert (Hd4 : decimal (digits 4 (year d)) = Ok (year d)).
    { apply decimal_iff. unfold blen. rewrite length_digits. split; [change (10 ^ Z.of_nat 4) with 10000; lia|done]. }
    assert (Hd2 : forall v, 0 <= v < 100 -> decimal (digits 2 v) = Ok v).
    { intros v Hr. apply decimal_iff. unfold blen. rewrite length_digits. split; [done|done]. }
    change (blen (date_text d) =? 12) with true. cbn [negb].
    change (part (date_text d) 0 4) with (digits 4 (year d)). change (part (date_text d) 4 6) with (digits 2 (month d)).
    change (part (date_text d) 6 8) with (digits 2 (day d)). change (part (date_text d) 8 10) with (digits 2 (hour d)).
    change (part (date_text d) 10 12) with (digits 2 (minute d)).
    rewrite Hd4, !Hd2 by lia. cbn [rbind]. cbv zeta. rewrite !Z.mod_small by lia. rewrite <- Hs.
    assert (Heta : UtcDateTime.new (year d) (month d) (day d) (hour d) (minute d) (second d) = d) by (by destruct d).
    rewrite Heta, (proj2 (validate_valid d Ht) Hv). done.
Qed.

(** ** Windows as text *)

Definition clock_text (m : Z) : list Z := digits 2 (m / 60) ++ [58] ++ digits 2 (m mod 60).
Definition window_text (w : SigningWindow) : list Z :=
  default [] (get_at WEEKDAY_NAMES (weekday w)) ++ [32] ++ clock_text (start_minute w) ++ [45] ++ clock_text (end_minute w).
Fixpoint windows_text (ws : list SigningWindow) : list Z :=
  match ws with [] => [] | [w] => window_text w | w :: ws => window_text w ++ [59] ++ windows_text ws end.

Lemma parse_hhmm_clock m : 0 <= m < 1440 -> parse_hhmm (digits 2 (m / 60)) (digits 2 (m mod 60)) = Ok m.
Proof.
  intros Hm. unfold parse_hhmm.
  assert (Hd2 : forall v, 0 <= v < 100 -> decimal (digits 2 v) = Ok v).
  { intros v Hr. apply decimal_iff. unfold blen. rewrite length_digits. split; done. }
  rewrite !Hd2 by lia. cbn [rbind]. rewrite (proj2 (Z.ltb_ge _ _)), (proj2 (Z.ltb_ge _ _)) by lia. cbn [orb]. f_equal. lia.
Qed.

Lemma parse_time_range_clock a b : 0 <= a < 1440 -> 0 <= b < 1440 ->
  parse_time_range (clock_text a ++ [45] ++ clock_text b) = Ok (a, b).
Proof.
  intros Ha Hb. unfold parse_time_range. cbv zeta. set (text := clock_text a ++ [45] ++ clock_text b).
  change (blen text) with 11. change (get_at text 2) with (Some 58). change (get_at text 5) with (Some 45). change (get_at text 8) with (Some 58).
  rewrite !bool_decide_true by done. cbn [negb orb Z.eqb Pos.eqb].
  change (part text 0 2) with (digits 2 (a / 60)). change (part text 3 5) with (digits 2 (a mod 60)).
  change (part text 6 8) with (digits 2 (b / 60)). change (part text 9 11) with (digits 2 (b mod 60)).
  rewrite !parse_hhmm_clock by done. done.
Qed.

Lemma trim_text_id a l b : 33 <= a -> 33 <= b -> trim_ascii (a :: l ++ [b]) = a :: l ++ [b].
Proof.
  intros Ha Hb. assert (Hns : forall c, 33 <= c -> is_ascii_whitespace c = false).
  { intros c Hc. unfold is_ascii_whitespace. apply bool_decide_eq_false_2. set_unfold. lia. }
  unfold trim_ascii. cbn [trim_start]. rewrite Hns by done.
  change (a :: l ++ [b]) with ((a :: l) ++ [b]). rewrite reverse_snoc. cbn [trim_start]. rewrite Hns by done.
  by rewrite reverse_cons, reverse_involutive.
Qed.

Lemma digits2 v : digits 2 v = [48 + v / 10 mod 10; 48 + v mod 10].
Proof. done. Qed.

Lemma trim_range a b rest : rest = clock_text a ++ [45] ++ clock_text b ->
  trim_ascii (32 :: rest) = rest.
Proof.
  intros ->. change (trim_ascii (32 :: ?x)) with (trim_ascii x). unfold clock_text. rewrite !digits2. cbn [app].
  apply (trim_text_id (48 + a / 60 / 10 mod 10) [_; _; _; _; _; _; _; _; _]); lia.
Qed.

Lemma weekday_name d : 0 <= d <= 6 -> exists name, get_at WEEKDAY_NAMES d = Some name /\ length name = 3%nat /\ parse_weekday name = Ok d /\
  Forall (fun c => 65 <= c <= 90) name.
Proof.
  intros Hd. assert (H : d = 0 \/ d = 1 \/ d = 2 \/ d = 3 \/ d = 4 \/ d = 5 \/ d = 6) by lia.
  repeat (destruct H as [-> | H]); [..|subst]; (eexists; split; [reflexivity|]; split; [done|]; split; [by vm_compute|]; vm_compute; repeat constructor; done).
Qed.

(** The windows that have a text. *)
Definition writable_window (w : SigningWindow) : Prop := valid_window w /\ end_minute w < 1440.

Lemma parse_window_text w : writable_window w -> parse_window (window_text w) = Ok w.
Proof.
  intros ((Hd & Hs & He) & Hlt). destruct (weekday_name (weekday w) Hd) as (name & Hname & Hl & Hp & _).
  unfold window_text. rewrite Hname. cbn [default from_option]. unfold id. set (rest := clock_text (start_minute w) ++ [45] ++ clock_text (end_minute w)).
  unfold parse_window. rewrite (proj2 (Z.ltb_ge _ _)) by (unfold blen; rewrite length_app; lia).
  rewrite take_app_length', drop_app_length' by done. cbn [app]. change (is_ascii_whitespace 32) with true. cbn [negb]. rewrite Hp. cbn [rbind].
  rewrite (trim_range _ _ rest) by done. unfold rest. rewrite parse_time_range_clock by lia. cbn [rbind]. cbv zeta.
  assert (Heta : {| weekday := weekday w; start_minute := start_minute w; end_minute := end_minute w |} = w) by (by destruct w).
  rewrite Heta. rewrite (proj2 (window_validate w ltac:(unfold typed_window; lia))); [done|]. unfold valid_window. lia.
Qed.

Lemma window_text_shape w : writable_window w ->
  exists a l b, window_text w = a :: l ++ [b] /\ 33 <= a /\ 33 <= b /\ Forall (fun c => c <> 59) (window_text w).
Proof.
  intros ((Hd & Hs & He) & Hlt). destruct (weekday_name (weekday w) Hd) as (name & Hname & Hl & _ & Hup).
  unfold window_text. rewrite Hname. cbn [default from_option]. unfold id. destruct name as [|a name]; [done|]. apply Forall_cons in Hup as [Ha Hup].
  unfold clock_text. rewrite !digits2. exists a, (name ++ [32] ++ [48 + start_minute w / 60 / 10 mod 10; 48 + start_minute w / 60 mod 10; 58;
     48 + start_minute w mod 60 / 10 mod 10; 48 + start_minute w mod 60 mod 10; 45; 48 + end_minute w / 60 / 10 mod 10; 48 + end_minute w / 60 mod 10; 58;
     48 + end_minute w mod 60 / 10 mod 10]), (48 + end_minute w mod 60 mod 10).
  split; [cbn [app]; by rewrite <- app_assoc|]. split; [lia|]. split; [lia|].
  apply Forall_app. split; [constructor; [lia|]; eapply Forall_impl; [exact Hup|]; cbn; lia|]. cbn [app]. repeat (constructor; [lia|]). constructor.
Qed.

Lemma split_byte_plain l rest : Forall (fun c => c <> 59) l ->
  split_byte 59 (l ++ rest) = match split_byte 59 rest with part :: parts => (l ++ part) :: parts | [] => [l] end.
Proof.
  induction 1 as [|c l Hc Hl IH]; cbn [app split_byte].
  - destruct rest as [|b rest]; cbn [split_byte]; [done|]. destruct (b =? 59); [done|]. by destruct (split_byte 59 rest).
  - rewrite (proj2 (Z.eqb_neq c 59)) by done. rewrite IH. by destruct (split_byte 59 rest).
Qed.

Lemma split_windows ws : ws <> [] -> Forall writable_window ws -> split_byte 59 (windows_text ws) = map window_text ws.
Proof.
  intros Hne Hw. induction Hw as [|w ws Hw Hws IH]; [done|]. destruct (window_text_shape w Hw) as (_ & _ & _ & _ & _ & _ & Hplain).
  destruct ws as [|w' ws].
  - cbn [windows_text map]. rewrite <- (app_nil_r (window_text w)). rewrite split_byte_plain by done. cbn. by rewrite !app_nil_r.
  - change (windows_text (w :: w' :: ws)) with (window_text w ++ [59] ++ windows_text (w' :: ws)). rewrite split_byte_plain by done.
    cbn [app split_byte Z.eqb Pos.eqb]. rewrite IH by done. by rewrite app_nil_r.
Qed.

Lemma parse_list_text ws : ws <> [] -> Forall writable_window ws -> blen ws <= 4 -> parse_window_list (windows_text ws) = Ok ws.
Proof.
  intros Hne Hw Hl. unfold parse_window_list. rewrite split_windows by done.
  assert (H : forall acc, blen acc + blen ws <= 4 -> try_fold read_window acc (map window_text ws) = Ok (acc ++ ws)); [|by apply (H []); rewrite blen_nil; lia].
  clear Hne Hl. induction Hw as [|w ws Hw Hws IH]; intros acc Hl; cbn [map try_fold]; [by rewrite app_nil_r|].
  rewrite blen_cons in Hl. pose proof (blen_nonneg ws). destruct (window_text_shape w Hw) as (a & l & b & Ht & Ha & Hb & _).
  unfold read_window at 1. rewrite Ht, trim_text_id by done. cbv zeta. unfold MAX_WEEKLY_WINDOWS. rewrite (proj2 (Z.leb_gt _ _)) by lia. rewrite <- Ht, parse_window_text by done.
  cbn [rbind]. rewrite IH by (rewrite blen_app; change (blen [w]) with 1; lia). by rewrite <- app_assoc.
Qed.

(** Whatever is read is a valid window. *)

Lemma parse_hhmm_nonneg h m v : parse_hhmm h m = Ok v -> 0 <= v.
Proof.
  unfold parse_hhmm. destruct (decimal h) as [a|] eqn:Ea; cbn [rbind]; [|done]. destruct (decimal m) as [b|] eqn:Eb; cbn [rbind]; [|done].
  apply decimal_iff in Ea as [Ha _]. apply decimal_iff in Eb as [Hb _]. destruct (_ || _); [done|]. intros [= <-]. lia.
Qed.

Lemma parse_window_valid input w : parse_window input = Ok w -> valid_window w.
Proof.
  unfold parse_window. destruct (blen input <? 3); [done|]. destruct (negb _); [done|].
  destruct (parse_weekday (take 3 input)) as [d|] eqn:Ed; cbn [rbind]; [|done].
  destruct (parse_time_range _) as [[s e]|] eqn:Et; cbn [rbind]; [|done]. cbv zeta.
  destruct (SigningWindow.validate _) as [[]|] eqn:Ev; cbn [rbind]; [|done]. intros [= <-]. apply window_validate; [|exact Ev].
  unfold typed_window. cbn [weekday start_minute end_minute]. unfold parse_weekday in Ed. destruct (list_find _ _) as [p|]; [|done].
  cbn [mbind option_bind ok_or] in Ed. injection Ed as <-.
  unfold parse_time_range in Et. cbv zeta in Et. destruct (_ || _) in Et; [done|].
  destruct (parse_hhmm (part _ 0 2) _) as [s'|] eqn:Es; cbn [rbind] in Et; [|done].
  destruct (parse_hhmm (part _ 6 8) _) as [e'|] eqn:Ee; cbn [rbind] in Et; [|done].
  injection Et as <- <-. apply parse_hhmm_nonneg in Es, Ee. pose proof (Z.mod_pos_bound (Z.of_nat p.1) 256). lia.
Qed.

Lemma parse_list_sound input ws : parse_window_list input = Ok ws -> Forall valid_window ws /\ 1 <= blen ws <= 4.
Proof.
  unfold parse_window_list. assert (H : forall parts acc, Forall valid_window acc -> blen acc <= 4 -> try_fold read_window acc parts = Ok ws ->
    Forall valid_window ws /\ blen acc + blen parts = blen ws /\ blen ws <= 4).
  { intros parts. induction parts as [|raw parts IH]; intros acc Ha Hl Hf; cbn [try_fold] in Hf; [injection Hf as <-; rewrite blen_nil; split_and!; (done || lia)|].
    destruct (read_window acc raw) as [acc'|] eqn:Er; cbn [rbind] in Hf; [|done]. unfold read_window in Er. cbv zeta in Er.
    destruct (trim_ascii raw) as [|a l]; [done|]. unfold MAX_WEEKLY_WINDOWS in Er. destruct (Z.leb_spec 4 (blen acc)); [done|].
    destruct (parse_window (a :: l)) as [w|] eqn:Ew; cbn [rbind] in Er; [|done]. injection Er as <-. apply parse_window_valid in Ew.
    apply IH in Hf as (Hv & Hlen & H4).
    - rewrite blen_app in Hlen. rewrite blen_cons. change (blen [w]) with 1 in Hlen. split_and!; (done || lia).
    - apply Forall_app. split; [done|]. by constructor.
    - rewrite blen_app. change (blen [w]) with 1. lia. }
  intros Hf. apply H in Hf as (Hv & Hl & H4); [|constructor|by rewrite blen_nil]. rewrite blen_nil in Hl. split; [done|].
  assert (1 <= blen (split_byte 59 input)); [|lia]. destruct input as [|b input]; cbn [split_byte]; [done|]. destruct (b =? 59); [rewrite blen_cons; pose proof (blen_nonneg (split_byte 59 input)); lia|].
  destruct (split_byte 59 input) as [|p ps]; [done|]. rewrite blen_cons. pose proof (blen_nonneg ps). lia.
Qed.

(** ** Their order *)

Definition starts_by (a b : SigningWindow) : Prop :=
  weekday a < weekday b \/ weekday a = weekday b /\ start_minute a <= start_minute b.
(** [a] is over when [b] starts. *)
Definition over_by (a b : SigningWindow) : Prop := weekday a * 1440 + end_minute a <= weekday b * 1440 + start_minute b.

Lemma window_order_le a b : cmp_le window_order a b <-> starts_by a b.
Proof.
  unfold cmp_le, window_order, then_with, starts_by.
  destruct (Z.compare_spec (weekday a) (weekday b)), (Z.compare_spec (start_minute a) (start_minute b)); split; intros; (done || lia).
Qed.

Lemma window_order_total a b : window_order a b = Gt -> cmp_le window_order b a.
Proof.
  rewrite window_order_le. unfold window_order, then_with, starts_by.
  destruct (Z.compare_spec (weekday a) (weekday b)), (Z.compare_spec (start_minute a) (start_minute b)); intros; (done || lia).
Qed.

Lemma sorted_windows l : StronglySorted (cmp_le window_order) (sort_by window_order l).
Proof.
  apply sort_by_sorted; [apply window_order_total|]. intros a b c. rewrite !window_order_le. unfold starts_by. lia.
Qed.

Lemma starts_disjoint_over a b : valid_window a -> valid_window b -> starts_by a b -> disjoint_windows a b <-> over_by a b.
Proof.
  intros Ha Hb Hs. rewrite <- overlap_disjoint by done. unfold windows_overlap, valid_window, starts_by, over_by in *.
  rewrite <- not_true_iff_false, !andb_true_iff, Z.eqb_eq, !Z.ltb_lt. lia.
Qed.

Lemma adjacent_over l : Forall valid_window l -> StronglySorted (cmp_le window_order) l ->
  adjacent_overlap l = false <-> StronglySorted over_by l.
Proof.
  intros Hv Hs. induction Hs as [|a l Hs IH Ha]; [split; [constructor|done]|]. apply Forall_cons in Hv as [Hva Hv]. specialize (IH Hv).
  destruct l as [|b l]; [split; [intros _; repeat constructor|done]|].
  change (adjacent_overlap (a :: b :: l)) with (windows_overlap a b || adjacent_overlap (b :: l)). rewrite orb_false_iff, IH.
  apply Forall_cons in Ha as [Hab _]. apply window_order_le in Hab. pose proof (Forall_inv Hv) as Hvb.
  rewrite overlap_disjoint, starts_disjoint_over by done. split.
  - intros [Ho Hl]. constructor; [done|]. constructor; [done|]. inversion Hl as [|? ? _ Hb]; subst.
    rewrite Forall_forall in *. intros c Hc. specialize (Hb c Hc). unfold over_by, valid_window in *. lia.
  - intros Hl. inversion Hl as [|? ? Hl' Ho]; subst. split; [by inversion Ho|done].
Qed.

Lemma over_pairwise l : Forall valid_window l -> StronglySorted (cmp_le window_order) l ->
  StronglySorted over_by l <-> pairwise_disjoint l.
Proof.
  intros Hv Hs. induction Hs as [|a l Hs IH Ha]; [split; constructor|]. apply Forall_cons in Hv as [Hva Hv]. specialize (IH Hv).
  assert (Hiff : Forall (over_by a) l <-> Forall (disjoint_windows a) l).
  { rewrite !Forall_forall in *. split; intros H c Hc; apply (starts_disjoint_over a c Hva (Hv c Hc)); auto; by apply window_order_le, Ha. }
  split; intros H; inversion H; subst; constructor; tauto.
Qed.

(** The sort and the check of what was read. *)
Lemma sorted_checked ws : Forall valid_window ws ->
  reject_adjacent_overlaps (sort_by window_order ws) = Ok tt <-> pairwise_disjoint ws.
Proof.
  intros Hv. assert (Hvs : Forall valid_window (sort_by window_order ws)) by (by rewrite sort_by_Permutation).
  transitivity (pairwise_disjoint (sort_by window_order ws)).
  - rewrite <- over_pairwise, <- adjacent_over by (done || apply sorted_windows). unfold reject_adjacent_overlaps. by destruct (adjacent_overlap _).
  - split; apply pairwise_permutation; by rewrite sort_by_Permutation.
Qed.

Definition weekly_policy (ws : list SigningWindow) (count : Z) : SigningPolicy :=
  {| not_before_unix := 0; weekly_enabled := true; weekly_count := count; windows := ws; rtc_floor_unix := 0 |}.

(** What [parse_weekly_windows] returns makes a well-formed policy whose
    windows follow each other through the week; and the text of one to four
    windows that exist and end before midnight is read back as these windows
    in the order of the week, or refused if two of them share a minute. *)
Theorem weekly_windows_text :
  (forall input ws count, parse_weekly_windows input = Ok (ws, count) ->
     well_formed (weekly_policy ws count) /\ StronglySorted over_by (used_windows (weekly_policy ws count))) /\
  (forall ws, Forall writable_window ws -> 1 <= blen ws <= 4 ->
     (pairwise_disjoint ws -> parse_weekly_windows (windows_text ws) =
        Ok (sort_by window_order ws ++ replicate (4 - length ws) SigningWindow.EMPTY, blen ws)) /\
     (~ pairwise_disjoint ws -> parse_weekly_windows (windows_text ws) = Err OverlappingWindow)).
Proof.
  assert (Hlen : forall ws, length (sort_by window_order ws) = length ws) by (intros; by rewrite sort_by_Permutation).
  split.
  - intros input ws count. unfold parse_weekly_windows. destruct (parse_window_list input) as [used|] eqn:El; cbn [rbind]; [|done].
    apply parse_list_sound in El as [Hv Hl]. cbv zeta. destruct (reject_adjacent_overlaps _) as [[]|] eqn:Er; cbn [rbind]; [|done]. intros [= <- <-].
    apply (sorted_checked used Hv) in Er as Hd. assert (Hvs : Forall valid_window (sort_by window_order used)) by (by rewrite sort_by_Permutation).
    rewrite Z.mod_small by (unfold blen in *; rewrite Hlen; lia).
    assert (Hu : used_windows (weekly_policy (sort_by window_order used ++ replicate (4 - length (sort_by window_order used)) SigningWindow.EMPTY) (blen (sort_by window_order used)))
      = sort_by window_order used).
    { unfold used_windows. cbn [weekly_count windows weekly_policy]. apply take_app_length'. unfold blen. lia. }
    unfold well_formed. rewrite Hu. cbn [weekly_count windows weekly_policy weekly_enabled not_before_unix rtc_floor_unix].
    assert (Hds : pairwise_disjoint (sort_by window_order used)) by (eapply pairwise_permutation; [|exact Hd]; by rewrite sort_by_Permutation).
    split_and!; try done.
    + unfold blen in *. rewrite Hlen. lia.
    + split; [intros _|done]. unfold blen in *. rewrite Hlen. lia.
    + rewrite drop_app_length' by (unfold blen; lia). apply Forall_replicate. done.
    + by left.
    + by left.
    + apply over_pairwise; (done || apply sorted_windows).
  - intros ws Hw Hl. assert (Hv : Forall valid_window ws) by (eapply Forall_impl; [exact Hw|]; by intros ? [? _]).
    assert (Hne : ws <> []) by (intros ->; rewrite blen_nil in Hl; lia).
    pose proof (sorted_checked ws Hv) as Hiff. unfold parse_weekly_windows. rewrite parse_list_text by (done || lia). cbn [rbind]. cbv zeta. split.
    + intros Hd. rewrite (proj2 Hiff Hd). cbn [rbind]. rewrite Hlen. unfold blen in *. rewrite Hlen, Z.mod_small by lia. done.
    + intros Hd. destruct (reject_adjacent_overlaps (sort_by window_order ws)) as [[]|e] eqn:Er; [by destruct (Hd (proj1 Hiff eq_refl))|]. cbn [rbind].
      unfold reject_adjacent_overlaps in Er. destruct (adjacent_overlap _); [|done]. by injection Er as <-.
Qed.

(** ** Witnesses *)

Lemma calendar_counts_witness :
  UtcDateTime.from_unix_seconds 946684900 = Ok (clock 100).1 /\
  UtcDateTime.to_unix_seconds (UtcDateTime.new 2000 1 1 0 1 40) = Ok 946684900.
Proof.
  destruct (calendar_counts 946684900) as (Hf & _ & Hd). split; [exact Hf|].
  apply (Hd (UtcDateTime.new 2000 1 1 0 1 40)); [vm_compute; intuition congruence|exact Hf].
Defined.

(** Mondays from two to three in the afternoon, from 2020 on. *)
Definition sample_policy : SigningPolicy :=
  {| not_before_unix := 1577836800; weekly_enabled := true; weekly_count := 1;
     windows := {| weekday := 0; start_minute := 840; end_minute := 900 |} :: replicate 3 SigningWindow.EMPTY; rtc_floor_unix := 1700000000 |}.

Lemma sample_policy_typed : typed_policy sample_policy.
Proof. unfold typed_policy. cbn. split_and!; try lia. repeat constructor; cbn; lia. Qed.

Lemma evaluate_allowed_witness : evaluate sample_policy 1790000000 = Allowed.
Proof.
  apply (proj1 (evaluate_allowed sample_policy 1790000000 sample_policy_typed)).
  split; [apply (validate_well_formed _ sample_policy_typed); by vm_compute|].
  split; [cbn; lia|]. split; [cbn; lia|]. intros _. split; [unfold FIRST_SECOND, LAST_SECOND; lia|].
  constructor. unfold covers. vm_compute. intuition congruence.
Defined.

Lemma parse_date_iff_witness :
  parse_utc_yyyymmddhhmm (str "202402292359") = Ok (UtcDateTime.new 2024 2 29 23 59 0).
Proof.
  apply (parse_date_iff (str "202402292359")).
  - vm_compute. intuition congruence.
  - split; [vm_compute; intuition congruence|]. split; by vm_compute.
Defined.

Lemma weekly_windows_text_witness :
  parse_weekly_windows (str "MON 21:33-21:43;MON 08:10-08:25") =
    Ok ([{| weekday := 0; start_minute := 490; end_minute := 505 |}; {| weekday := 0; start_minute := 1293; end_minute := 1303 |};
         SigningWindow.EMPTY; SigningWindow.EMPTY], 2).
Proof.
  destruct weekly_windows_text as [_ H].
  refine (proj1 (H [{| weekday := 0; start_minute := 1293; end_minute := 1303 |}; {| weekday := 0; start_minute := 490; end_minute := 505 |}] _ _) _).
  - repeat constructor; cbn; lia.
  - vm_compute. intuition congruence.
  - apply check_windows_iff; [repeat constructor; cbn; lia|by vm_compute].
Defined.
