(* ===== verification/Adaptor.v ===== *)
(** * Adaptor signatures and host-assisted nonces

    [src/src/crypto/adaptor.rs] and [src/src/crypto/anti_klepto.rs], over the
    signature library's group. The library's scalars are the integers below
    the order of the curve with its arithmetic modulo the order; its points
    and its hash are parameters: the class [Group] extends [Curve], and its
    documented behaviour is [GroupLaws]. *)

From S2P Require Import Prelude Bytes Hd Schnorr.

Class Group `{Curve} := {
  (** [point * scalar], [neg] *)
  point_times : point -> Z -> point;
  point_neg : point -> point;
  (** [left.to_affine() == right.to_affine()] *)
  points_equal : point -> point -> bool;
  (** [PublicKey::from_sec1_bytes] with [to_projective] *)
  public_key_from_sec1_bytes : list Z -> option point;
  (** [x()] and [y()] of [to_affine().to_sec1_point(false)] *)
  coordinates : point -> option (list Z * list Z) }.

(** [y[31] & 1 == 1] *)
Definition is_odd (y : list Z) : bool := Z.land (default 0 (get_at y 31)) 1 =? 1.

(** The curve has a prime order: every point is a multiple of the generator.
    Negation keeps the x-coordinate and changes the parity of the other one,
    which the prefix of a compressed encoding tells. *)
Class GroupLaws `{Group} := {
  point_log p : exists a, 0 <= a < order /\ p = generator_times a;
  times_spec a e : 0 <= a < order -> point_times (generator_times a) e = generator_times ((a * e) mod order);
  neg_spec a : 0 <= a < order -> point_neg (generator_times a) = generator_times ((- a) mod order);
  equal_spec p q : points_equal p q = true <-> p = q;
  public_key_spec l : bytes_of 33 l -> public_key_from_sec1_bytes l =
    match decode_point l with Some p => if is_identity p then None else Some p | None => None end;
  coordinates_spec p : is_identity p = false -> exists x y, coordinates p = Some (x, y) /\ bytes_of 32 x /\
    encode_point p = (if is_odd y then 3 else 2) :: x;
  coordinates_neg p x y : is_identity p = false -> coordinates p = Some (x, y) ->
    exists y', coordinates (point_neg p) = Some (x, y') /\ is_odd y' = negb (is_odd y) }.

(** ** Scalars *)

Definition scalar_add (a b : Z) : Z := (a + b) mod order.
Definition scalar_sub (a b : Z) : Z := (a - b) mod order.
Definition scalar_mul (a b : Z) : Z := (a * b) mod order.
Definition scalar_neg (a : Z) : Z := (- a) mod order.
(** [reduce] and [to_bytes] *)
Definition reduce (digest : list Z) : Z := be_val digest mod order.
Definition to_bytes (a : Z) : list Z := be_bytes 32 a.

(** [&signature[..32]] and [&signature[32..]] *)
Definition r_bytes (signature : list Z) : list Z := take 32 signature.
Definition s_bytes (signature : list Z) : list Z := drop 32 signature.

(** ** The helpers both modules have *)

Section helpers.
Context (sha256 : list Z -> list Z) `{Group}.

Definition point_x_and_parity (p : point) : option (list Z * bool) :=
  if is_identity p then None else '(x, y) ← coordinates p; Some (x, is_odd y).

Definition tagged_hash (tag data : list Z) : list Z := sha256 (sha256 tag ++ sha256 tag ++ data).
Definition challenge (nonce_x public_x message : list Z) : Z :=
  reduce (tagged_hash (str "BIP0340/challenge") (nonce_x ++ public_x ++ message)).

Definition nonzero {E} (scalar : Z) (error : E) : result Z E := if scalar =? 0 then Err error else Ok scalar.

(** The BIP-340 secret of a private key and its x-only public key. *)
Definition normalized_secret_and_public_x {E} (error : E) (private_key : list Z) : result (Z * list Z) E :=
  let? raw := ok_or (scalar_value private_key) error in
  if raw =? 0 then Err error
  else
    let bytes := encode_point (generator_times raw) in
    let normalized := if bool_decide (get_at bytes 0 = Some 3) then scalar_neg raw else raw in
    Ok (normalized, drop 1 bytes).
End helpers.

(** ** [adaptor.rs] *)

Module Adaptor.

Inductive AdaptorError :=
  InvalidPrivateKey | InvalidAdaptorPoint | InvalidNonce | InvalidPreSignature | InvalidCompletedSignature | InvalidHostContribution.

Record AdaptorPreSignature := { bytes : list Z; negated : bool }.

Definition NONCE_DOMAIN : list Z := str "KaspaPortal Private Swap Adaptor Nonce v1" ++ [0].
Definition HOST_DOMAIN : list Z := str "KaspaPortal Private Swap Anti-Klepto v1" ++ [0].

Section adaptor.
Context (sha256 : list Z -> list Z) `{Group}.

Definition adaptor_point_from_secret (secret : list Z) : result (list Z * list Z) AdaptorError :=
  let? raw := ok_or (scalar_value secret) InvalidPrivateKey in
  if raw =? 0 then Err InvalidPrivateKey
  else
    let? (x, odd) := ok_or (point_x_and_parity (generator_times raw)) InvalidAdaptorPoint in
    let normalized := if odd then scalar_neg raw else raw in
    Ok (to_bytes normalized, x).

Definition nonzero_reduced_scalar (digest : list Z) (error : AdaptorError) : result Z AdaptorError := nonzero (reduce digest) error.
Definition nonzero_scalar_sum (left right : Z) (error : AdaptorError) : result Z AdaptorError := nonzero (scalar_add left right) error.

Definition base_nonce_scalar (secret : Z) (public_x message adaptor_point_x session_id aux_rand : list Z) : result Z AdaptorError :=
  nonzero_reduced_scalar
    (sha256 (NONCE_DOMAIN ++ to_bytes secret ++ public_x ++ message ++ adaptor_point_x ++ session_id ++ aux_rand)) InvalidNonce.

Definition host_scalar (session_id host_secret public_x base_nonce_point message adaptor_point_x : list Z) : result Z AdaptorError :=
  nonzero_reduced_scalar
    (sha256 (HOST_DOMAIN ++ session_id ++ host_secret ++ public_x ++ base_nonce_point ++ message ++ adaptor_point_x)) InvalidHostContribution.

Definition public_key_to_point (encoded : list Z) : result point AdaptorError := ok_or (public_key_from_sec1_bytes encoded) InvalidNonce.
Definition xonly_to_point (x : list Z) : result point AdaptorError :=
  rmap_err (fun _ => InvalidAdaptorPoint) (public_key_to_point (2 :: x)).

Definition adaptor_base_nonce_point (private_key message adaptor_point_x session_id aux_rand : list Z) : result (list Z) AdaptorError :=
  let? (secret, public_x) := normalized_secret_and_public_x InvalidPrivateKey private_key in
  let? _ := xonly_to_point adaptor_point_x in
  let? nonce := base_nonce_scalar secret public_x message adaptor_point_x session_id aux_rand in
  Ok (encode_point (generator_times nonce)).

Definition verify_adaptor_presignature (public_x message : list Z) (presig : AdaptorPreSignature) (adaptor_point_x : list Z)
  : result unit AdaptorError :=
  let? p := xonly_to_point public_x in
  let? t := xonly_to_point adaptor_point_x in
  let? r := xonly_to_point (r_bytes (bytes presig)) in
  let? s := ok_or (scalar_value (s_bytes (bytes presig))) InvalidPreSignature in
  let e := challenge sha256 (r_bytes (bytes presig)) public_x message in
  let signed_t := if negated presig then point_neg t else t in
  let lhs := generator_times s in
  let rhs := point_add (point_add r (point_neg signed_t)) (point_times p e) in
  if points_equal lhs rhs then Ok tt else Err InvalidPreSignature.

Definition create_adaptor_presignature (private_key message adaptor_point_x session_id aux_rand host_secret : list Z)
  : result AdaptorPreSignature AdaptorError :=
  let? (secret, public_x) := normalized_secret_and_public_x InvalidPrivateKey private_key in
  let? t_point := xonly_to_point adaptor_point_x in
  let? base_nonce := base_nonce_scalar secret public_x message adaptor_point_x session_id aux_rand in
  let base_nonce_point := encode_point (generator_times base_nonce) in
  let? host := host_scalar session_id host_secret public_x base_nonce_point message adaptor_point_x in
  let? combined := nonzero_scalar_sum base_nonce host InvalidHostContribution in
  let candidate := point_add (generator_times combined) t_point in
  let? (rx, odd) := ok_or (point_x_and_parity candidate) InvalidNonce in
  let signed_nonce := if odd then scalar_neg combined else combined in
  let challenge := challenge sha256 rx public_x message in
  let response := scalar_add signed_nonce (scalar_mul challenge secret) in
  let presig := {| bytes := rx ++ to_bytes response; negated := odd |} in
  let? _ := verify_adaptor_presignature public_x message presig adaptor_point_x in
  Ok presig.

Definition complete_adaptor_presignature (presig : AdaptorPreSignature) (adaptor_secret : list Z) : result (list Z) AdaptorError :=
  let? t := ok_or (scalar_value adaptor_secret) InvalidAdaptorPoint in
  if t =? 0 then Err InvalidAdaptorPoint
  else
    let? s_prime := ok_or (scalar_value (s_bytes (bytes presig))) InvalidPreSignature in
    let completed := if negated presig then scalar_sub s_prime t else scalar_add s_prime t in
    Ok (r_bytes (bytes presig) ++ to_bytes completed).

Definition extract_adaptor_secret (completed : list Z) (presig : AdaptorPreSignature) : result (list Z) AdaptorError :=
  if negb (list_Z_eqb (r_bytes completed) (r_bytes (bytes presig))) then Err InvalidCompletedSignature
  else
    let? s := ok_or (scalar_value (s_bytes completed)) InvalidCompletedSignature in
    let? s_prime := ok_or (scalar_value (s_bytes (bytes presig))) InvalidPreSignature in
    let delta := scalar_sub s s_prime in
    if delta =? 0 then Err InvalidCompletedSignature
    else Ok (to_bytes (if negated presig then scalar_neg delta else delta)).

Definition verify_host_nonce_relation (public_x message adaptor_point_x session_id host_secret base_nonce_point : list Z)
  (presig : AdaptorPreSignature) : result unit AdaptorError :=
  let? base := public_key_to_point base_nonce_point in
  let? t := xonly_to_point adaptor_point_x in
  let? r := xonly_to_point (r_bytes (bytes presig)) in
  let? host := host_scalar session_id host_secret public_x base_nonce_point message adaptor_point_x in
  let expected := point_add base (generator_times host) in
  let signed_t := if negated presig then point_neg t else t in
  let recovered :=
    if negated presig then point_neg (point_add r (point_neg signed_t)) else point_add r (point_neg signed_t) in
  if points_equal expected recovered then Ok tt else Err InvalidHostContribution.

End adaptor.
End Adaptor.

(** ** [anti_klepto.rs] *)

Module AntiKlepto.

Inductive AntiKleptoError :=
  | InvalidPrivateKey | InvalidProvisionalSignature | ReusableProvisionalNonce | InvalidHostContribution | InvalidNoncePoint
  | InvalidFinalSignature.

(** [From<SchnorrError>] *)
Definition from_schnorr (error : SchnorrError) : AntiKleptoError :=
  match error with
  | Schnorr.InvalidPrivateKey => InvalidPrivateKey
  | Schnorr.SigningFailed | Schnorr.InvalidSignature => InvalidFinalSignature
  end.

Definition HOST_SCALAR_DOMAIN : list Z := str "KaspaPortal/anti-klepto/host-scalar/v1".

Definition provisional_nonce_point (signature : list Z) : list Z := 2 :: r_bytes signature.
Definition canonical_public_key (public_x : list Z) : list Z := 2 :: public_x.

Section anti_klepto.
Context (sha256 : list Z -> list Z) `{Group} `{Bip340}.

Definition host_scalar_material (session_id host_secret : list Z) (input_index signature_slot : Z) (public_key nonce_point : list Z) : list Z :=
  sha256 (HOST_SCALAR_DOMAIN ++ session_id ++ host_secret ++ le_bytes 4 input_index ++ [signature_slot] ++ public_key ++ nonce_point).

Definition nonzero_host_scalar (material : list Z) : result Z AntiKleptoError := nonzero (reduce material) InvalidHostContribution.

Definition host_scalar (session_id host_secret : list Z) (input_index signature_slot : Z) (public_key nonce_point : list Z)
  : result Z AntiKleptoError :=
  nonzero_host_scalar (host_scalar_material session_id host_secret input_index signature_slot public_key nonce_point).

Definition nonzero_nonce_sum (left right : Z) : result Z AntiKleptoError := nonzero (scalar_add left right) InvalidHostContribution.

(** The nonce of BIP-340 without auxiliary randomness. *)
Definition zero_aux_nonce (secret : Z) (public_x message : list Z) : Z :=
  let mask := tagged_hash sha256 (str "BIP0340/aux") (replicate 32 0) in
  reduce (tagged_hash sha256 (str "BIP0340/nonce") (zip_with Z.lxor (to_bytes secret) mask ++ public_x ++ message)).

Definition provisional_nonce (provisional : list Z) (secret : Z) (public_x message : list Z) : result Z AntiKleptoError :=
  let? response := ok_or (scalar_value (s_bytes provisional)) InvalidProvisionalSignature in
  let nonce := scalar_sub response (scalar_mul (challenge sha256 (r_bytes provisional) public_x message) secret) in
  if nonce =? 0 then Err InvalidProvisionalSignature
  else
    let deterministic := zero_aux_nonce secret public_x message in
    if scalar_mul nonce nonce =? scalar_mul deterministic deterministic then Err ReusableProvisionalNonce
    else Ok nonce.

Definition tweak_provisional_signature (private_key message provisional session_id host_secret : list Z)
  (input_index signature_slot : Z) : result (list Z) AntiKleptoError :=
  let? (secret, public_x) := normalized_secret_and_public_x InvalidPrivateKey private_key in
  let public_key := canonical_public_key public_x in
  let nonce_point := provisional_nonce_point provisional in
  let? provisional_nonce := provisional_nonce provisional secret public_x message in
  let? contribution := host_scalar session_id host_secret input_index signature_slot public_key nonce_point in
  let? combined := nonzero_nonce_sum provisional_nonce contribution in
  let combined_point := generator_times combined in
  let? (nonce_x, odd_y) := ok_or (point_x_and_parity combined_point) InvalidNoncePoint in
  let normalized_nonce := if odd_y then scalar_neg combined else combined in
  let final_challenge := challenge sha256 nonce_x public_x message in
  let final_response := scalar_add normalized_nonce (scalar_mul final_challenge secret) in
  let signature := nonce_x ++ to_bytes final_response in
  let? _ := rmap_err (fun _ => InvalidFinalSignature) (schnorr_verify public_x message signature) in
  Ok signature.

Definition verify_nonce_relation (provisional_nonce_point final_signature session_id host_secret : list Z)
  (input_index signature_slot : Z) (public_key : list Z) : result unit AntiKleptoError :=
  if negb (bool_decide (get_at public_key 0 = Some 2)) || negb (bool_decide (get_at provisional_nonce_point 0 = Some 2)) then Err InvalidNoncePoint
  else
    let? provisional_key := ok_or (public_key_from_sec1_bytes provisional_nonce_point) InvalidNoncePoint in
    let? _ := ok_or (public_key_from_sec1_bytes public_key) InvalidNoncePoint in
    let? contribution := host_scalar session_id host_secret input_index signature_slot public_key provisional_nonce_point in
    let expected := point_add provisional_key (generator_times contribution) in
    let? (expected_x, _) := ok_or (point_x_and_parity expected) InvalidNoncePoint in
    if Hex.constant_time_eq expected_x (r_bytes final_signature) then Ok tt else Err InvalidFinalSignature.

End anti_klepto.
End AntiKlepto.
