(* ===== verification/AdaptorProofs.v ===== *)
(** * Adaptor signatures and host-assisted nonces: proofs

    Every point is a multiple of the generator, so an equation of points is a
    congruence of scalars modulo the order. *)

From Stdlib Require Import Setoid Morphisms.
From S2P Require Import Prelude Bytes Hd HdProofs Schnorr Adaptor.

(** ** Congruence modulo the order *)

Definition eqn (a b : Z) : Prop := a mod order = b mod order.
Infix "≡ₙ" := eqn (at level 70).

#[export] Instance eqn_equivalence : Equivalence eqn.
Proof. split; unfold eqn; [intros a; done|intros a b; by symmetry|intros a b c -> ->; done]. Qed.
#[export] Instance eqn_add : Proper (eqn ==> eqn ==> eqn) Z.add.
Proof. unfold eqn. intros a a' Ha b b' Hb. by rewrite Z.add_mod, Ha, Hb, <- Z.add_mod by (rewrite order_value; lia). Qed.
#[export] Instance eqn_mul : Proper (eqn ==> eqn ==> eqn) Z.mul.
Proof. unfold eqn. intros a a' Ha b b' Hb. by rewrite Z.mul_mod, Ha, Hb, <- Z.mul_mod by (rewrite order_value; lia). Qed.
#[export] Instance eqn_opp : Proper (eqn ==> eqn) Z.opp.
Proof. intros a a' Ha. rewrite !Z.opp_eq_mul_m1. by rewrite Ha. Qed.
#[export] Instance eqn_sub : Proper (eqn ==> eqn ==> eqn) Z.sub.
Proof. intros a a' Ha b b' Hb. rewrite <- !Z.add_opp_r. by rewrite Ha, Hb. Qed.

Lemma order_pos : 0 < order.
Proof. rewrite order_value. lia. Qed.

Lemma eqn_mod a : a mod order ≡ₙ a.
Proof. apply Z.mod_mod. pose proof order_pos. lia. Qed.

Lemma eqn_small a b : 0 <= a < order -> 0 <= b < order -> a ≡ₙ b -> a = b.
Proof. unfold eqn. intros Ha Hb. by rewrite !Z.mod_small. Qed.

Lemma eqn_range a b : 0 <= b < order -> a ≡ₙ b -> a mod order = b.
Proof. unfold eqn. intros Hb ->. by rewrite Z.mod_small. Qed.

(** A goal that holds in the integers once the reductions are gone. *)
Ltac eqn_ring := unfold scalar_add, scalar_sub, scalar_mul, scalar_neg; repeat setoid_rewrite eqn_mod; apply (f_equal (fun a => a mod order)); ring.

Lemma scalar_range a : 0 <= a mod order < order.
Proof. apply Z.mod_pos_bound, order_pos. Qed.

Lemma to_bytes_value a : 0 <= a < order -> be_val (to_bytes a) = a.
Proof. intros Ha. assert (order < 256 ^ Z.of_nat 32) by by_decide. apply be_val_be_bytes. lia. Qed.

Lemma to_bytes_size a : bytes_of 32 (to_bytes a).
Proof. split; [apply be_bytes_ok|]. unfold to_bytes. by rewrite blen_be_bytes. Qed.

Lemma signature_size x a : bytes_of 32 x -> bytes_of 64 (x ++ to_bytes a).
Proof.
  intros [Hb Hl]. destruct (to_bytes_size a) as [Hb' Hl']. split; [by apply bytes_ok_app|]. rewrite blen_app, Hl, Hl'. done.
Qed.

(** ** The group *)

Section group.
Context `{GroupLaws} `{!CurveLaws}.

(** The multiple of the generator by any integer. *)
Definition G (a : Z) : point := generator_times (a mod order).

Lemma G_proper a b : a ≡ₙ b -> G a = G b.
Proof. unfold G, eqn. by intros ->. Qed.

Lemma G_small a : 0 <= a < order -> generator_times a = G a.
Proof. intros Ha. unfold G. by rewrite Z.mod_small. Qed.

Lemma G_log p : exists a, p = G a.
Proof. destruct (point_log p) as (a & Ha & ->). exists a. by apply G_small. Qed.

Lemma G_add a b : point_add (G a) (G b) = G (a + b).
Proof. unfold G. rewrite <- generator_add. f_equal. symmetry. apply Z.add_mod. pose proof order_pos. lia. Qed.

Lemma G_neg a : point_neg (G a) = G (- a).
Proof. unfold G. rewrite neg_spec by apply scalar_range. f_equal. apply eqn_opp, eqn_mod. Qed.

Lemma G_times a e : point_times (G a) e = G (a * e).
Proof. unfold G. rewrite times_spec by apply scalar_range. f_equal. apply eqn_mul; [apply eqn_mod|done]. Qed.

Lemma G_identity a : is_identity (G a) = true <-> a ≡ₙ 0.
Proof. unfold G, eqn. rewrite generator_identity by apply scalar_range. by rewrite Z.eqb_eq, (Z.mod_small 0) by (pose proof order_pos; lia). Qed.

Lemma G_inj a b : G a = G b -> a ≡ₙ b.
Proof.
  intros Heq. assert (Hz : is_identity (G (a - b)) = true).
  { rewrite <- Z.add_opp_r, <- G_add, Heq, G_add, Z.add_opp_diag_r. by apply G_identity. }
  apply G_identity in Hz. replace a with ((a - b) + b) by ring. rewrite Hz. done.
Qed.

Lemma neg_identity p : is_identity p = false -> is_identity (point_neg p) = false.
Proof.
  destruct (G_log p) as (a & ->). rewrite G_neg. intros Hp. apply not_true_iff_false in Hp. apply not_true_iff_false. intros Hn. apply Hp.
  rewrite !G_identity in *. replace a with (- - a) by ring. by rewrite Hn.
Qed.

(** *** Points and their x-coordinates *)

Lemma from_encoding p : is_identity p = false -> public_key_from_sec1_bytes (encode_point p) = Some p.
Proof.
  intros Hp. rewrite public_key_spec by by apply encode_size. by rewrite decode_encode, Hp.
Qed.

Lemma lift_point p x odd : point_x_and_parity p = Some (x, odd) ->
  is_identity p = false /\ bytes_of 32 x /\ Adaptor.xonly_to_point x = Ok (if odd then point_neg p else p).
Proof.
  unfold point_x_and_parity. destruct (is_identity p) eqn:Hp; [done|]. destruct (coordinates_spec p Hp) as (x' & y & Hc & Hx & He).
  rewrite Hc. cbn [mbind option_bind]. intros [= <- <-]. split; [done|]. split; [done|].
  unfold Adaptor.xonly_to_point, Adaptor.public_key_to_point. destruct (is_odd y) eqn:Hy.
  - destruct (coordinates_neg p x' y Hp Hc) as (y' & Hc' & Hy'). pose proof (neg_identity p Hp) as Hn.
    destruct (coordinates_spec (point_neg p) Hn) as (x2 & y2 & Hc2 & _ & He2). rewrite Hc' in Hc2. injection Hc2 as <- <-.
    rewrite Hy', Hy in He2. cbn [negb] in He2. by rewrite <- He2, from_encoding.
  - by rewrite <- He, from_encoding.
Qed.

Lemma point_of_xonly x p : bytes_of 32 x -> Adaptor.xonly_to_point x = Ok p -> point_x_and_parity p = Some (x, false).
Proof.
  intros [Hb Hl]. assert (H33 : bytes_of 33 (2 :: x)) by (split; [apply Forall_cons; split; [by_decide|done]|rewrite blen_cons; lia]).
  unfold Adaptor.xonly_to_point, Adaptor.public_key_to_point. rewrite public_key_spec by done. destruct (decode_point (2 :: x)) as [q|] eqn:Ed; [|done].
  destruct (is_identity q) eqn:Hq; [done|]. intros [= <-]. pose proof (encode_decode _ _ (conj H33 (or_introl eq_refl)) Ed Hq) as He.
  destruct (coordinates_spec q Hq) as (x' & y & Hc & _ & He'). unfold point_x_and_parity. rewrite Hq, Hc. cbn [mbind option_bind].
  rewrite He in He'. destruct (is_odd y); [done|]. by injection He' as ->.
Qed.

Lemma xonly_not_identity x p : bytes_of 32 x -> Adaptor.xonly_to_point x = Ok p -> is_identity p = false.
Proof. intros Hx Hp. apply (point_of_xonly x p Hx) in Hp. unfold point_x_and_parity in Hp. by destruct (is_identity p). Qed.

Lemma scalar_of_bytes l s : bytes_of 32 l -> scalar_value l = Some s -> s = be_val l /\ 0 <= s < order.
Proof.
  intros Hl. rewrite scalar_value_spec by done. destruct (Z.ltb_spec (be_val l) order); [|done]. intros [= <-]. split; [done|].
  split; [|done]. apply be_val_range, Hl.
Qed.

Lemma scalar_to_bytes a : 0 <= a < order -> scalar_value (to_bytes a) = Some a.
Proof. intros Ha. rewrite scalar_value_spec by apply to_bytes_size. rewrite to_bytes_value by done. by rewrite (proj2 (Z.ltb_lt _ _)) by lia. Qed.

(** The secret of a private key is the logarithm of its x-only public key. *)
Lemma normalized_secret {E} (error : E) private_key : bytes_of 32 private_key ->
  match normalized_secret_and_public_x error private_key with
  | Ok (d, px) => 0 <= d < order /\ bytes_of 32 px /\ Adaptor.xonly_to_point px = Ok (G d)
  | Err e => e = error /\ ~ (0 < be_val private_key < order)
  end.
Proof.
  intros Hk. unfold normalized_secret_and_public_x. rewrite scalar_value_spec by done. pose proof (be_val_range private_key (proj1 Hk)).
  destruct (Z.ltb_spec (be_val private_key) order); cbn [ok_or rbind]; [|split; [done|lia]].
  destruct (Z.eqb_spec (be_val private_key) 0); [split; [done|lia]|]. set (raw := be_val private_key) in *.
  assert (Hid : is_identity (generator_times raw) = false) by (rewrite generator_identity by lia; by apply Z.eqb_neq).
  destruct (coordinates_spec _ Hid) as (x & y & Hc & Hx & He). rewrite He. change (drop 1 (?a :: x)) with x.
  assert (Hpar : point_x_and_parity (generator_times raw) = Some (x, is_odd y)) by (unfold point_x_and_parity; rewrite Hid, Hc; done).
  destruct (lift_point _ _ _ Hpar) as (_ & _ & Hlift). destruct (is_odd y).
  - rewrite bool_decide_true by done. split; [apply scalar_range|]. split; [done|]. rewrite Hlift, G_small by lia. rewrite G_neg.
    f_equal. apply G_proper. eqn_ring.
  - rewrite bool_decide_false by done. split; [lia|]. split; [done|]. by rewrite Hlift, G_small by lia.
Qed.

End group.

(** ** BIP-340

    The verification equation of the standard: [s * G - e * P] is the point
    with an even y-coordinate that the signature names. *)

Section bip340.
Context (sha256 : list Z -> list Z) `{GroupLaws} `{!CurveLaws}.

Definition bip340_valid (public_x message signature : list Z) : Prop :=
  exists p s, Adaptor.xonly_to_point public_x = Ok p /\ scalar_value (s_bytes signature) = Some s /\
    point_x_and_parity (point_add (generator_times s)
      (point_neg (point_times p (challenge sha256 (r_bytes signature) public_x message)))) = Some (r_bytes signature, false).

Lemma split_signature x s : bytes_of 32 x -> r_bytes (x ++ s) = x /\ s_bytes (x ++ s) = s.
Proof.
  intros [_ Hl]. assert (length x = 32%nat) by (unfold blen in Hl; lia). unfold r_bytes, s_bytes.
  by rewrite take_app_length', drop_app_length' by done.
Qed.

Lemma signature_halves signature : bytes_of 64 signature -> bytes_of 32 (r_bytes signature) /\ bytes_of 32 (s_bytes signature).
Proof.
  intros [Hb Hl]. unfold r_bytes, s_bytes, bytes_of, blen in *. rewrite length_take, length_drop.
  split; (split; [by apply Forall_take || by apply Forall_drop|lia]).
Qed.

(** A signature with a known nonce and response is valid. *)
Lemma signature_of_nonce d px message k rx odd : bytes_of 32 px -> Adaptor.xonly_to_point px = Ok (G d) ->
  point_x_and_parity (G k) = Some (rx, odd) ->
  bip340_valid px message (rx ++ to_bytes (scalar_add (if odd then scalar_neg k else k) (scalar_mul (challenge sha256 rx px message) d))).
Proof.
  intros Hpx Hp Hk. destruct (lift_point _ _ _ Hk) as (_ & Hx & Hlift). destruct (split_signature rx (to_bytes (scalar_add (if odd then scalar_neg k else k)
    (scalar_mul (challenge sha256 rx px message) d))) Hx) as [Hr Hs]. unfold bip340_valid. rewrite Hr, Hs.
  eexists _, _. split; [exact Hp|]. split; [apply scalar_to_bytes, scalar_range|].
  rewrite G_small by apply scalar_range. rewrite G_times, G_neg, G_add.
  apply (point_of_xonly rx); [done|]. rewrite Hlift. f_equal. destruct odd.
  - rewrite G_neg. apply G_proper. eqn_ring.
  - apply G_proper. eqn_ring.
Qed.

(** The nonce of a valid signature. *)
Lemma valid_nonce d px message signature : bytes_of 64 signature -> Adaptor.xonly_to_point px = Ok (G d) -> bip340_valid px message signature ->
  exists s, scalar_value (s_bytes signature) = Some s /\
    Adaptor.xonly_to_point (r_bytes signature) = Ok (G (s - challenge sha256 (r_bytes signature) px message * d)) /\
    is_identity (G (s - challenge sha256 (r_bytes signature) px message * d)) = false.
Proof.
  intros Hsig Hp (p & s & Hp' & Hs & Hr). rewrite Hp in Hp'. injection Hp' as <-. exists s. split; [done|].
  destruct (scalar_of_bytes _ _ (proj2 (signature_halves _ Hsig)) Hs) as [_ Hsr].
  rewrite G_small, G_times, G_neg, G_add in Hr by done. destruct (lift_point _ _ _ Hr) as (Hid & _ & Hlift).
  rewrite Z.add_opp_r, Z.mul_comm in Hlift, Hid. done.
Qed.

End bip340.

(** ** Adaptor signatures *)

Section adaptor.
Import Adaptor.
Context (sha256 : list Z -> list Z) `{GroupLaws} `{!CurveLaws}.

Definition presignature_ok (presig : AdaptorPreSignature) : Prop := bytes_of 64 (bytes presig).

(** The equation a pre-signature is checked for, on logarithms. *)
Lemma presignature_equation a b c s' px message presig tx :
  presignature_ok presig -> xonly_to_point px = Ok (G a) -> xonly_to_point tx = Ok (G b) -> xonly_to_point (r_bytes (bytes presig)) = Ok (G c) ->
  scalar_value (s_bytes (bytes presig)) = Some s' ->
  verify_adaptor_presignature sha256 px message presig tx = Ok tt <->
  s' ≡ₙ c + (if negated presig then b else - b) + a * challenge sha256 (r_bytes (bytes presig)) px message.
Proof.
  intros Hps Hp Ht Hr Hs. destruct (scalar_of_bytes _ _ (proj2 (signature_halves _ Hps)) Hs) as [_ Hsr].
  unfold verify_adaptor_presignature. rewrite Hp, Ht, Hr, Hs. cbn [rbind ok_or]. rewrite G_small, G_times by done.
  set (e := challenge _ _ _ _).
  assert (Hrhs : point_add (point_add (G c) (point_neg (if negated presig then point_neg (G b) else G b))) (G (a * e))
    = G (c + (if negated presig then b else - b) + a * e)).
  { destruct (negated presig); rewrite ?G_neg, !G_add; f_equal; ring. }
  rewrite Hrhs. destruct (points_equal _ _) eqn:Eq.
  - apply equal_spec, G_inj in Eq. split; [by intros _|done].
  - split; [done|]. intros Heq. apply not_true_iff_false in Eq. exfalso. apply Eq, equal_spec. by apply G_proper.
Qed.

(** What verification finds first. *)
Lemma presignature_points px message presig tx : verify_adaptor_presignature sha256 px message presig tx = Ok tt ->
  exists a b c s', xonly_to_point px = Ok (G a) /\ xonly_to_point tx = Ok (G b) /\ xonly_to_point (r_bytes (bytes presig)) = Ok (G c) /\
    scalar_value (s_bytes (bytes presig)) = Some s'.
Proof.
  unfold verify_adaptor_presignature. intros (p & Hp & (t & Ht & (r & Hr & (s' & Hs%ok_or_Ok & _)%rbind_Ok_inv)%rbind_Ok_inv)%rbind_Ok_inv)%rbind_Ok_inv.
  destruct (G_log p) as (a & ->), (G_log t) as (b & ->), (G_log r) as (c & ->). by exists a, b, c, s'.
Qed.

(** The secret is the response of the signature minus the pre-signature's. *)
Lemma extract_eqn sig presig s s' b : r_bytes sig = r_bytes (bytes presig) ->
  scalar_value (s_bytes sig) = Some s -> scalar_value (s_bytes (bytes presig)) = Some s' ->
  s - s' ≡ₙ (if negated presig then - b else b) -> ~ b ≡ₙ 0 ->
  extract_adaptor_secret sig presig = Ok (to_bytes (b mod order)).
Proof.
  intros Hr Hs Hs' Hd Hb. unfold extract_adaptor_secret. rewrite Hr. rewrite (proj2 (list_Z_eqb_eq _ _)) by done. cbn [negb]. rewrite Hs, Hs'. cbn [rbind ok_or].
  assert (Hdelta : scalar_sub s s' ≡ₙ (if negated presig then - b else b)) by (unfold scalar_sub; by rewrite eqn_mod).
  destruct (Z.eqb_spec (scalar_sub s s') 0) as [Hz|].
  - exfalso. apply Hb. rewrite Hz in Hdelta. destruct (negated presig); [|by symmetry].
    replace b with (- - b) by ring. by rewrite <- Hdelta.
  - do 2 f_equal. destruct (negated presig).
    + unfold scalar_neg. change ((- scalar_sub s s') mod order = b mod order). apply (f_equal (fun x => x)).
      change (- scalar_sub s s' ≡ₙ b). rewrite Hdelta. by replace (- - b) with b by ring.
    + assert (Hrange : 0 <= scalar_sub s s' < order) by apply scalar_range. symmetry. apply eqn_range; [done|]. by symmetry.
Qed.

(** Whoever publishes a valid signature for a pre-signature that verifies
    reveals the adaptor secret: for any keys and any transaction, extraction
    returns the canonical scalar whose multiple of the generator is exactly
    the adaptor point. *)
Theorem completed_signature_reveals_secret public_x message adaptor_point_x presig signature :
  bytes_of 32 adaptor_point_x -> presignature_ok presig -> bytes_of 64 signature ->
  verify_adaptor_presignature sha256 public_x message presig adaptor_point_x = Ok tt ->
  r_bytes signature = r_bytes (bytes presig) -> bip340_valid sha256 public_x message signature ->
  exists secret, extract_adaptor_secret signature presig = Ok secret /\ bytes_of 32 secret /\ 0 < be_val secret < order /\
    xonly_to_point adaptor_point_x = Ok (generator_times (be_val secret)).
Proof.
  intros Htx Hps Hsig Hv Hr Hvalid. destruct (presignature_points _ _ _ _ Hv) as (a & b & c & s' & Hp & Ht & Hc & Hs').
  apply (presignature_equation a b c s') in Hv; [|done..]. destruct (valid_nonce sha256 a _ _ _ Hsig Hp Hvalid) as (s & Hs & Hnonce & _).
  rewrite Hr, Hc in Hnonce. injection Hnonce as Hnonce%G_inj.
  assert (Hb : ~ b ≡ₙ 0).
  { intros Hb. apply G_identity in Hb. rewrite (xonly_not_identity _ _ Htx Ht) in Hb. done. }
  exists (to_bytes (b mod order)). pose proof (scalar_range b) as Hrange. split; [|split; [apply to_bytes_size|]].
  - apply (extract_eqn _ _ s s' b); [done..| |done]. rewrite Hv, Hnonce. destruct (negated presig); apply (f_equal (fun x => x mod order)); ring.
  - rewrite to_bytes_value by done. split; [|exact Ht]. assert (b mod order <> 0); [|lia]. intros Hz. apply Hb. unfold eqn. rewrite Hz.
    symmetry. apply Z.mod_small. pose proof order_pos. lia.
Qed.
End adaptor.

(** A pre-signature made with a private key. *)

Section complete.
Import Adaptor.
Context (sha256 : list Z -> list Z) `{GroupLaws} `{!CurveLaws}.

Lemma nonzero_Ok {E} a (e : E) v : 0 <= a < order -> nonzero a e = Ok v -> v = a /\ ~ a ≡ₙ 0.
Proof.
  unfold nonzero. destruct (Z.eqb_spec a 0); [done|]. intros Ha [= <-]. split; [done|]. unfold eqn. rewrite !Z.mod_small by (pose proof order_pos; lia). done.
Qed.

Lemma adaptor_point secret t tx : bytes_of 32 secret -> adaptor_point_from_secret secret = Ok (t, tx) ->
  exists b, 0 <= b < order /\ t = to_bytes b /\ bytes_of 32 tx /\ xonly_to_point tx = Ok (G b) /\ ~ b ≡ₙ 0.
Proof.
  intros Hsec. unfold adaptor_point_from_secret. intros (raw & Hraw%ok_or_Ok & Hrest)%rbind_Ok_inv. cbn beta in Hrest.
  destruct (scalar_of_bytes _ _ Hsec Hraw) as [_ Hr]. destruct (Z.eqb_spec raw 0) as [|Hne]; [done|].
  apply rbind_Ok_inv in Hrest as ([x odd] & Hx%ok_or_Ok & [= <- <-]). rewrite G_small in Hx by done.
  destruct (lift_point _ _ _ Hx) as (Hid & Hx32 & Hlift). exists (if odd then scalar_neg raw else raw).
  assert (Hnz : ~ raw ≡ₙ 0) by (intros Hz; apply G_identity in Hz; congruence).
  destruct odd; (split; [apply scalar_range || done|]); (split; [done|]); (split; [done|]); rewrite Hlift, ?G_neg; (split; [f_equal; apply G_proper; eqn_ring|]).
  - unfold scalar_neg. rewrite eqn_mod. intros Hz. apply Hnz. replace raw with (- - raw) by ring. by rewrite Hz.
  - done.
Qed.

(** The secret is in the range of a private key, the adaptor point is a point. *)
Definition valid_secret (k : list Z) : Prop := bytes_of 32 k /\ 0 < be_val k < order.

(** The values of a successful creation, up to the check of its result. *)
Lemma create_values sk message tx session aux host presig_ok :
  valid_secret sk -> bytes_of 32 tx -> (exists b, xonly_to_point tx = Ok (G b)) ->
  create_adaptor_presignature sha256 sk message tx session aux host = presig_ok ->
  (exists d px b k h rx odd,
     normalized_secret_and_public_x InvalidPrivateKey sk = Ok (d, px) /\ bytes_of 32 px /\ xonly_to_point px = Ok (G d) /\ xonly_to_point tx = Ok (G b) /\
     base_nonce_scalar sha256 d px message tx session aux = Ok k /\ 0 <= k < order /\ ~ k ≡ₙ 0 /\
     host_scalar sha256 session host px (encode_point (G k)) message tx = Ok h /\
     point_x_and_parity (G (k + h + b)) = Some (rx, odd) /\
     presig_ok = Ok {| bytes := rx ++ to_bytes (scalar_add (if odd then scalar_neg (scalar_add k h) else scalar_add k h)
                         (scalar_mul (challenge sha256 rx px message) d)); negated := odd |}) \/
  presig_ok = Err InvalidNonce \/ presig_ok = Err InvalidHostContribution.
Proof.
  intros [Hsk Hrange] Htx (b & Hb) <-. pose proof (normalized_secret InvalidPrivateKey sk Hsk) as Hn. unfold create_adaptor_presignature.
  destruct (normalized_secret_and_public_x InvalidPrivateKey sk) as [[d px]|e]; [|tauto]. cbn [rbind]. destruct Hn as (Hd & Hpx & Hp). rewrite Hb. cbn [rbind].
  destruct (base_nonce_scalar sha256 d px message tx session aux) as [k|e] eqn:Ek; cbn [rbind].
  2:{ right. left. unfold base_nonce_scalar, nonzero_reduced_scalar, nonzero in Ek. destruct (_ =? 0); [|done]. congruence. }
  assert (Hk : 0 <= k < order /\ ~ k ≡ₙ 0).
  { unfold base_nonce_scalar, nonzero_reduced_scalar in Ek. pose proof Ek as Ek2. apply nonzero_Ok in Ek2 as [-> Hz]; [|apply scalar_range]. split; [apply scalar_range|done]. }
  destruct Hk as [Hk Hknz]. rewrite (G_small k) by done.
  destruct (host_scalar sha256 session host px (encode_point (G k)) message tx) as [h|e] eqn:Eh; cbn [rbind].
  2:{ right. right. unfold host_scalar, nonzero_reduced_scalar, nonzero in Eh. destruct (_ =? 0); [|done]. congruence. }
  destruct (nonzero_scalar_sum k h InvalidHostContribution) as [kk|e] eqn:Es; cbn [rbind].
  2:{ right. right. unfold nonzero_scalar_sum, nonzero in Es. destruct (_ =? 0); [|done]. congruence. }
  unfold nonzero_scalar_sum in Es. apply nonzero_Ok in Es as [-> Hsum]; [|apply scalar_range].
  rewrite G_small by apply scalar_range. rewrite G_add. assert (Hcand : G (scalar_add k h + b) = G (k + h + b)) by (apply G_proper; eqn_ring). rewrite Hcand.
  destruct (point_x_and_parity (G (k + h + b))) as [[rx odd]|] eqn:Ex; cbn [rbind ok_or]; [|by right; left].
  left. exists d, px, b, k, h, rx, odd. cbv zeta. set (presig := {| bytes := _; negated := odd |}).
  assert (Hv : verify_adaptor_presignature sha256 px message presig tx = Ok tt).
  { destruct (lift_point _ _ _ Ex) as (_ & Hrx & Hlift).
    destruct (split_signature rx (to_bytes (scalar_add (if odd then scalar_neg (scalar_add k h) else scalar_add k h) (scalar_mul (challenge sha256 rx px message) d))) Hrx) as [Hr Hs].
    apply (presignature_equation sha256 d b (if odd then - (k + h + b) else k + h + b)
      (scalar_add (if odd then scalar_neg (scalar_add k h) else scalar_add k h) (scalar_mul (challenge sha256 rx px message) d))).
    - unfold presignature_ok, presig. cbn [bytes]. by apply signature_size.
    - done.
    - done.
    - unfold presig. cbn [bytes]. rewrite Hr, Hlift. by destruct odd; rewrite ?G_neg.
    - unfold presig. cbn [bytes]. rewrite Hs. apply scalar_to_bytes, scalar_range.
    - unfold presig. cbn [bytes negated]. rewrite Hr. destruct odd; eqn_ring. }
  rewrite Hv. cbn [rbind]. split_and!; (done || lia).
Qed.
End complete.

Section adaptor_theorem.
Import Adaptor.
Context (sha256 : list Z -> list Z) `{GroupLaws} `{!CurveLaws}.

Lemma Ok_inj {A E} (a b : A) : @Ok A E a = Ok b -> a = b.
Proof. by intros [= ->]. Qed.

(** Completion with the secret gives a valid signature, from which the secret
    is extracted. *)
Lemma completes d px b k rx odd message tx :
  bytes_of 32 px -> xonly_to_point px = Ok (G d) -> xonly_to_point tx = Ok (G b) -> 0 <= b < order -> ~ b ≡ₙ 0 ->
  point_x_and_parity (G (k + b)) = Some (rx, odd) ->
  let presig := {| bytes := rx ++ to_bytes (scalar_add (if odd then scalar_neg k else k) (scalar_mul (challenge sha256 rx px message) d)); negated := odd |} in
  exists signature, complete_adaptor_presignature presig (to_bytes b) = Ok signature /\
    bip340_valid sha256 px message signature /\ extract_adaptor_secret signature presig = Ok (to_bytes b).
Proof.
  intros Hpx Hp Ht Hb Hbnz Hx presig. set (e := challenge sha256 rx px message) in *.
  set (s' := scalar_add (if odd then scalar_neg k else k) (scalar_mul e d)). destruct (lift_point _ _ _ Hx) as (_ & Hrx & _).
  destruct (split_signature rx (to_bytes s') Hrx) as [Hr Hs]. set (s := if odd then scalar_sub s' b else scalar_add s' b).
  assert (Hs' : scalar_value (s_bytes (bytes presig)) = Some s') by (change (scalar_value (s_bytes (rx ++ to_bytes s')) = Some s'); rewrite Hs; apply scalar_to_bytes, scalar_range).
  assert (Hrp : r_bytes (bytes presig) = rx) by exact Hr.
  assert (Hsr : 0 <= s < order) by (unfold s; destruct odd; apply scalar_range).
  destruct (split_signature rx (to_bytes s) Hrx) as [Hrs Hss].
  exists (rx ++ to_bytes s). split; [|split].
  - unfold complete_adaptor_presignature. rewrite scalar_to_bytes by done. cbn [rbind ok_or]. destruct (Z.eqb_spec b 0) as [->|_]; [by destruct Hbnz|].
    rewrite Hs'. cbn [rbind ok_or]. by rewrite Hrp.
  - pose proof (signature_of_nonce sha256 d px message (k + b) rx odd Hpx Hp Hx) as Hsig. fold e in Hsig.
    assert (Heq : s = scalar_add (if odd then scalar_neg (k + b) else k + b) (scalar_mul e d)).
    { apply eqn_small; [done|apply scalar_range|]. unfold s, s'. destruct odd; eqn_ring. }
    by rewrite <- Heq in Hsig.
  - rewrite <- (Z.mod_small b order) at 1 by done. rewrite <- (Z.mod_small b order) by done. rewrite Z.mod_mod by (pose proof order_pos; lia).
    apply (extract_eqn (rx ++ to_bytes s) presig s s' b); [..|done].
    + by rewrite Hrp, Hrs.
    + rewrite Hss. by apply scalar_to_bytes.
    + done.
    + unfold s, presig. cbn [negated]. destruct odd; eqn_ring.
Qed.

(** The host finds its contribution in the nonce. *)
Lemma host_relation px k h b rx odd message tx session host :
  0 <= k < order -> ~ k ≡ₙ 0 -> xonly_to_point tx = Ok (G b) ->
  host_scalar sha256 session host px (encode_point (G k)) message tx = Ok h ->
  point_x_and_parity (G (k + h + b)) = Some (rx, odd) ->
  forall response, bytes_of 32 response ->
  verify_host_nonce_relation sha256 px message tx session host (encode_point (G k)) {| bytes := rx ++ response; negated := odd |} = Ok tt.
Proof.
  intros Hk Hknz Ht Hh Hx response _. destruct (lift_point _ _ _ Hx) as (_ & Hrx & Hlift). destruct (split_signature rx response Hrx) as [Hr _].
  assert (Hid : is_identity (G k) = false) by (apply not_true_iff_false; by rewrite G_identity).
  unfold verify_host_nonce_relation, public_key_to_point. rewrite from_encoding by done. cbn [rbind ok_or]. rewrite Ht. cbn [rbind bytes negated].
  rewrite Hr, Hlift. cbn [rbind]. rewrite Hh. cbn [rbind].
  assert (Hhr : 0 <= h < order).
  { unfold host_scalar, nonzero_reduced_scalar in Hh. apply nonzero_Ok in Hh as [-> _]; apply scalar_range. }
  rewrite (G_small h) by done. rewrite G_add. rewrite (proj2 (equal_spec _ _)); [done|].
  destruct odd; rewrite ?G_neg, ?G_add, ?G_neg; f_equal; ring.
Qed.

End adaptor_theorem.

(** ** Host-assisted nonces *)

Section anti_klepto.
Import AntiKlepto.
Context (sha256 : list Z -> list Z) `{GroupLaws} `{!CurveLaws} `{Bip340}.

(** The library accepts what the standard accepts. *)
Definition accepts_valid : Prop :=
  forall px message signature, bytes_of 32 px -> bytes_of 64 signature ->
    bip340_valid sha256 px message signature -> schnorr_verify px message signature = Ok tt.

(** The relation the host checks, for a nonce point with an even coordinate. *)
Lemma nonce_relation px k h rx odd r0 session host index slot response :
  bytes_of 32 px -> bytes_of 32 r0 -> (exists d, Adaptor.xonly_to_point px = Ok (G d)) -> Adaptor.xonly_to_point r0 = Ok (G k) ->
  host_scalar sha256 session host index slot (2 :: px) (2 :: r0) = Ok h ->
  point_x_and_parity (G (k + h)) = Some (rx, odd) ->
  verify_nonce_relation sha256 (2 :: r0) (rx ++ response) session host index slot (2 :: px) = Ok tt.
Proof.
  intros Hpx Hr0 (d & Hp) Hk Hh Hx. assert (Hlift : forall x p, Adaptor.xonly_to_point x = Ok p -> public_key_from_sec1_bytes (2 :: x) = Some p).
  { intros x p. unfold Adaptor.xonly_to_point, Adaptor.public_key_to_point. destruct (public_key_from_sec1_bytes _); [|done]. by intros [= ->]. }
  unfold verify_nonce_relation. rewrite !bool_decide_true by done. cbn [negb orb].
  rewrite (Hlift _ _ Hk), (Hlift _ _ Hp). cbn [ok_or rbind]. rewrite Hh. cbn [rbind].
  assert (Hhr : 0 <= h < order).
  { unfold host_scalar, nonzero_host_scalar in Hh. apply nonzero_Ok in Hh as [-> _]; apply scalar_range. }
  rewrite (G_small h), G_add, Hx by done. cbn [ok_or rbind]. destruct (lift_point _ _ _ Hx) as (_ & Hrx & _).
  destruct (split_signature rx response Hrx) as [-> _]. rewrite (proj2 (constant_time_eq_spec rx rx (proj1 Hrx) (proj1 Hrx))); done.
Qed.

(** For a valid private key and any valid provisional signature, adding the
    host's contribution gives another valid BIP-340 signature over the same
    message whose nonce the host can check; it is refused only if the nonce is
    the deterministic one or the contribution makes a zero scalar. *)
Lemma tweak_values private_key message provisional session_id host_secret input_index signature_slot d px :
  accepts_valid -> valid_secret private_key -> bytes_of 64 provisional ->
  normalized_secret_and_public_x InvalidPrivateKey private_key = Ok (d, px) -> bip340_valid sha256 px message provisional ->
  let tweaked := tweak_provisional_signature sha256 private_key message provisional session_id host_secret input_index signature_slot in
  (exists signature, tweaked = Ok signature /\ bip340_valid sha256 px message signature /\ bytes_of 64 signature /\
     verify_nonce_relation sha256 (provisional_nonce_point provisional) signature session_id host_secret input_index signature_slot
       (canonical_public_key px) = Ok tt) \/
  tweaked = Err ReusableProvisionalNonce \/ tweaked = Err InvalidHostContribution.
Proof.
  intros Haccept [Hsk _] Hprov En Hvalid. pose proof (normalized_secret InvalidPrivateKey private_key Hsk) as Hn. cbv zeta. unfold tweak_provisional_signature.
  rewrite En in *. destruct Hn as (Hd & Hpx & Hp). cbn [rbind].
  destruct (valid_nonce sha256 d px message provisional Hprov Hp Hvalid) as (s & Hs & Hr0 & Hid).
  set (e := challenge sha256 (r_bytes provisional) px message) in *. destruct (signature_halves provisional Hprov) as [Hr32 Hs32].
  unfold provisional_nonce. rewrite Hs. cbn [ok_or rbind]. fold e. set (k := scalar_sub s (scalar_mul e d)).
  assert (Hk : k ≡ₙ s - e * d) by (unfold k; eqn_ring). assert (Hgk : G k = G (s - e * d)) by by apply G_proper.
  rewrite <- Hgk in Hr0, Hid. assert (Hknz : ~ k ≡ₙ 0) by (intros Hz; apply G_identity in Hz; congruence).
  destruct (Z.eqb_spec k 0) as [Hz|_]; [by destruct Hknz; rewrite Hz|].
  destruct (_ =? _); cbn [rbind]; [tauto|]. change (canonical_public_key px) with (2 :: px). change (AntiKlepto.provisional_nonce_point provisional) with (2 :: r_bytes provisional).
  destruct (host_scalar sha256 session_id host_secret input_index signature_slot (2 :: px) (2 :: r_bytes provisional)) as [h|err] eqn:Eh; cbn [rbind].
  2:{ do 2 right. unfold host_scalar, nonzero_host_scalar, nonzero in Eh. destruct (_ =? 0); [|done]. congruence. }
  destruct (nonzero_nonce_sum k h) as [kk|err] eqn:Es; cbn [rbind].
  2:{ do 2 right. unfold nonzero_nonce_sum, nonzero in Es. destruct (_ =? 0); [|done]. congruence. }
  unfold nonzero_nonce_sum in Es. apply nonzero_Ok in Es as [-> Hsum]; [|apply scalar_range]. rewrite G_small by apply scalar_range.
  assert (Hidk : is_identity (G (scalar_add k h)) = false) by (apply not_true_iff_false; by rewrite G_identity).
  destruct (point_x_and_parity (G (scalar_add k h))) as [[rx odd]|] eqn:Ex; cbn [ok_or rbind].
  2:{ exfalso. destruct (coordinates_spec _ Hidk) as (x & y & Hc & _). unfold point_x_and_parity in Ex. by rewrite Hidk, Hc in Ex. }
  pose proof (signature_of_nonce sha256 d px message _ rx odd Hpx Hp Ex) as Hsig. destruct (lift_point _ _ _ Ex) as (_ & Hrx & _).
  left. eexists. cbv zeta. rewrite Haccept by (done || by apply signature_size). cbn [rmap_err rbind]. split; [done|]. split; [done|]. split; [by apply signature_size|].
  apply (nonce_relation px k h rx odd); try done; [by exists d|]. rewrite <- Ex. f_equal. apply G_proper. eqn_ring.
Qed.

(** The host's side: a checked signature's nonce is the committed one with the
    contribution added, up to the sign that makes it even. *)
Lemma nonce_relation_sound r0 signature session host index slot public_key : bytes_of 64 signature ->
  verify_nonce_relation sha256 r0 signature session host index slot public_key = Ok tt ->
  exists base h, public_key_from_sec1_bytes r0 = Some base /\ host_scalar sha256 session host index slot public_key r0 = Ok h /\
    let expected := point_add base (generator_times h) in
    Adaptor.xonly_to_point (r_bytes signature) = Ok expected \/ Adaptor.xonly_to_point (r_bytes signature) = Ok (point_neg expected).
Proof.
  intros Hsig. unfold verify_nonce_relation. destruct (_ || _); [done|].
  intros (base & Hbase%ok_or_Ok & (? & _ & (h & Hh & ([x odd] & Hx%ok_or_Ok & Hc)%rbind_Ok_inv)%rbind_Ok_inv)%rbind_Ok_inv)%rbind_Ok_inv.
  destruct (Hex.constant_time_eq x (r_bytes signature)) eqn:Ec; [|done]. destruct (lift_point _ _ _ Hx) as (_ & Hx32 & Hlift).
  apply constant_time_eq_spec in Ec; [|apply Hx32|apply signature_halves, Hsig]. subst x. exists base, h. split; [done|]. split; [done|].
  cbv zeta. rewrite Hlift. destruct odd; auto.
Qed.
End anti_klepto.

(** ** A group to evaluate on

    The integers modulo the order again, with encodings whose prefix tells a
    point from its negation. *)

Definition half (p : toy_point) : bool := 2 * proj1_sig p <? order.
Definition toy_x (p : toy_point) : Z := if half p then proj1_sig p else order - proj1_sig p.

#[local] Instance parity_curve : Curve := {|
  point := toy_point;
  generator_times := toy_times;
  point_add p q := toy_times (proj1_sig p + proj1_sig q);
  is_identity p := proj1_sig p =? 0;
  decode_point l :=
    match l with
    | tag :: l =>
        let v := be_val l in
        if (0 <? v) && (2 * v <? order) then
          if tag =? 2 then Some (toy_times v) else if tag =? 3 then Some (toy_times (order - v)) else None
        else None
    | [] => None
    end;
  encode_point p := (if half p then 2 else 3) :: be_bytes 32 (toy_x p);
  secret_key l := if (0 <? be_val l) && (be_val l <? order) then Some (be_val l) else None;
  scalar_value l := if be_val l <? order then Some (be_val l) else None |}.

#[local] Instance parity_group : Group := {|
  point_times p e := toy_times (proj1_sig (p : toy_point) * e);
  point_neg p := toy_times (- proj1_sig (p : toy_point));
  points_equal p q := proj1_sig (p : toy_point) =? proj1_sig (q : toy_point);
  public_key_from_sec1_bytes l := match decode_point l with Some p => if is_identity p then None else Some p | None => None end;
  coordinates p := Some (be_bytes 32 (toy_x p), be_bytes 32 (if half p then 0 else 1)) |}.

Lemma order_odd : order = 2 * (order / 2) + 1.
Proof. rewrite order_value. vm_compute. done. Qed.

Lemma toy_x_range (p : toy_point) : proj1_sig p <> 0 -> 0 < toy_x p /\ 2 * toy_x p < order.
Proof.
  pose proof (toy_point_range p). pose proof order_odd. intros Hp. unfold toy_x, half. destruct (Z.ltb_spec (2 * proj1_sig p) order); lia.
Qed.

Lemma toy_x_value (p : toy_point) : proj1_sig p <> 0 -> be_val (be_bytes 32 (toy_x p)) = toy_x p.
Proof. intros Hp. apply to_bytes_value. destruct (toy_x_range p Hp). lia. Qed.

Lemma toy_small a (Ha : 0 <= a < order) (p : toy_point) : proj1_sig p = a -> toy_times a = p.
Proof. intros <-. apply toy_point_eq. by apply Z.mod_small. Qed.

#[local] Instance parity_laws : CurveLaws.
Proof.
  split.
  - intros a b. apply toy_point_eq. exact (eq_trans (Zmod_mod (a + b) order) (Zplus_mod a b order)).
  - intros p q. apply toy_point_eq. exact (f_equal (fun a => a mod order) (Z.add_comm (proj1_sig p) (proj1_sig q))).
  - intros a Ha. cbn -[order]. by rewrite Z.mod_small.
  - intros p Hp. apply Z.eqb_neq in Hp. pose proof (toy_x_range p Hp) as [Hlo Hhi]. pose proof (toy_point_range p).
    cbn -[order be_val be_bytes Z.mul]. rewrite toy_x_value by done. rewrite (proj2 (Z.ltb_lt 0 _)), (proj2 (Z.ltb_lt _ order)) by done. cbn [andb].
    unfold toy_x. destruct (half p); cbn [Z.eqb Pos.eqb]; f_equal; apply toy_small; lia.
  - intros l p [[Hb Hl] _] Hdec Hp. apply Z.eqb_neq in Hp. destruct l as [|tag l]; [done|]. apply Forall_cons in Hb as [_ Hb]. rewrite blen_cons in Hl.
    cbn -[order be_val be_bytes Z.mul] in Hdec. destruct (Z.ltb_spec 0 (be_val l)); [|done]. destruct (Z.ltb_spec (2 * be_val l) order); [|done]. cbn [andb] in Hdec.
    assert (Hbytes : be_bytes 32 (be_val l) = l).
    { apply be_val_inj; [apply be_bytes_ok|done|rewrite be_bytes_length; unfold blen in *; lia|]. apply to_bytes_value. lia. }
    cbn -[order be_val be_bytes Z.mul]. unfold toy_x, half.
    destruct (Z.eqb_spec tag 2) as [->|]; [|destruct (Z.eqb_spec tag 3) as [->|]; [|done]]; injection Hdec as <-; unfold toy_times; cbn [proj1_sig]; rewrite Z.mod_small by lia.
    + rewrite (proj2 (Z.ltb_lt _ _)) by lia. by rewrite Hbytes.
    + rewrite (proj2 (Z.ltb_ge _ _)) by lia. replace (order - (order - be_val l)) with (be_val l) by lia. by rewrite Hbytes.
  - intros p _. change (bytes_of 33 ((if half p then 2 else 3) :: be_bytes 32 (toy_x p))).
    split; [apply Forall_cons; split; [by destruct (half p)|apply be_bytes_ok]|]. by rewrite blen_cons, blen_be_bytes.
  - done.
  - done.
Qed.

#[local] Instance parity_group_laws : GroupLaws.
Proof.
  split.
  - intros p. exists (proj1_sig (p : toy_point)). pose proof (toy_point_range p). split; [done|]. symmetry. by apply toy_small.
  - intros a e Ha. apply toy_point_eq. cbn -[order]. by rewrite Z.mod_mod, Z.mul_mod_idemp_l by lia.
  - intros a Ha. apply toy_point_eq. cbn -[order]. by rewrite (Z.mod_small a), Z.mod_mod by lia.
  - intros p q. cbn. rewrite Z.eqb_eq. split; [apply toy_point_eq|by intros ->].
  - done.
  - intros p _. cbn -[be_bytes is_odd]. eexists _, _. split; [done|]. split; [split; [apply be_bytes_ok|by rewrite blen_be_bytes]|]. by destruct (half p).
  - intros p x y Hp [= <- <-]. apply Z.eqb_neq in Hp. pose proof (toy_point_range p). pose proof order_odd.
    assert (Hneg : proj1_sig (toy_times (- proj1_sig (p : toy_point))) = order - proj1_sig (p : toy_point)).
    { cbn -[order]. symmetry. apply (Z.mod_unique _ _ (-1)); lia. }
    exists (be_bytes 32 (if half (toy_times (- proj1_sig (p : toy_point))) then 0 else 1)).
    cbn -[toy_times order be_bytes is_odd]. unfold toy_x, half. rewrite Hneg.
    destruct (Z.ltb_spec (2 * proj1_sig (p : toy_point)) order).
    + rewrite (proj2 (Z.ltb_ge _ _)) by lia. replace (order - (order - proj1_sig (p : toy_point))) with (proj1_sig (p : toy_point)) by lia. done.
    + rewrite (proj2 (Z.ltb_lt _ _)) by lia. done.
Qed.

(** ** Witnesses *)

Definition toy_sha (m : list Z) : list Z := to_bytes (be_val (toy_hash512 m)).

Lemma toy_xonly a : 0 < a -> 2 * a < order -> Adaptor.xonly_to_point (to_bytes a) = Ok (G a).
Proof.
  intros Ha Hh. unfold Adaptor.xonly_to_point, Adaptor.public_key_to_point. cbn -[order be_val to_bytes Z.mul toy_times].
  rewrite to_bytes_value by lia. rewrite (proj2 (Z.ltb_lt 0 _)), (proj2 (Z.ltb_lt _ order)) by done. cbn [andb Z.eqb Pos.eqb].
  assert (Hid : proj1_sig (toy_times a) =? 0 = false) by (apply Z.eqb_neq; cbn -[order]; rewrite Z.mod_small; lia).
  cbn -[order toy_times] in *. rewrite Hid. cbn -[order toy_times]. f_equal. apply toy_point_eq. cbn -[order]. by rewrite Z.mod_mod by lia.
Qed.

Definition toy_secret (v : Z) : list Z := be_bytes 32 v.

Lemma toy_valid v : 0 < v < order -> valid_secret (toy_secret v).
Proof. intros Hv. split; [apply to_bytes_size|]. unfold toy_secret. change (be_bytes 32 v) with (to_bytes v). by rewrite to_bytes_value by lia. Qed.


Definition toy_presig : Adaptor.AdaptorPreSignature :=
  {| Adaptor.bytes := to_bytes 18 ++ to_bytes (scalar_add 11 (scalar_mul (challenge toy_sha (to_bytes 18) (to_bytes 5) (replicate 32 1)) 5)); Adaptor.negated := false |}.

Lemma completed_signature_reveals_secret_witness : exists signature secret,
  bip340_valid toy_sha (to_bytes 5) (replicate 32 1) signature /\ Adaptor.extract_adaptor_secret signature toy_presig = Ok secret /\
  Adaptor.xonly_to_point (to_bytes 7) = Ok (generator_times (be_val secret)).
Proof.
  assert (H5 : 0 < 5 /\ 2 * 5 < order) by (rewrite order_value; lia). assert (H7 : 0 < 7 /\ 2 * 7 < order) by (rewrite order_value; lia).
  assert (Hx : point_x_and_parity (G (11 + 7)) = Some (to_bytes 18, false)) by (vm_compute; reflexivity).
  assert (Hnz : ~ 7 ≡ₙ 0) by (unfold eqn; rewrite !Z.mod_small by lia; lia).
  destruct (completes toy_sha 5 (to_bytes 5) 7 11 (to_bytes 18) false (replicate 32 1) (to_bytes 7)) as (signature & Hc & Hv & _).
  - apply to_bytes_size.
  - apply toy_xonly; lia.
  - apply toy_xonly; lia.
  - lia.
  - exact Hnz.
  - exact Hx.
  - change (Adaptor.complete_adaptor_presignature toy_presig (to_bytes 7) = Ok signature) in Hc.
    assert (Hr : r_bytes signature = r_bytes (Adaptor.bytes toy_presig) /\ bytes_of 64 signature).
    { vm_compute in Hc. injection Hc as <-. split; [vm_compute; reflexivity|]. split; [|vm_compute; reflexivity]. by_decide. }
    destruct (completed_signature_reveals_secret toy_sha (to_bytes 5) (replicate 32 1) (to_bytes 7) toy_presig signature) as (secret & He & _ & _ & Ht).
    + apply to_bytes_size.
    + apply signature_size, to_bytes_size.
    + apply Hr.
    + vm_compute. reflexivity.
    + apply Hr.
    + exact Hv.
    + exists signature, secret. exact (conj Hv (conj He Ht)).
Defined.
