(* ===== verification/CovenantKeys.v ===== *)
(** * Covenant keys

    [src/src/wallet/derivation/covenant.rs]: the key hierarchy of covenant
    signing and of private swaps, with the records that bind a key to a
    script. Hashes, curve and signature library are parameters; wiping keys
    has no counterpart. *)

From S2P Require Import Prelude Bytes Hd HdProofs Schnorr Adaptor AdaptorProofs.

Definition COVENANT_PURPOSE : Z := 0x80002720.
Definition KASPA_COIN_TYPE : Z := 0x8001b207.
Definition COVENANT_ACCOUNT : Z := HARDENED_BIT.
Definition COVENANT_BINDING_ACCOUNT : Z := 0x80000001.
Definition PRIVATE_SWAP_CLAIM_ACCOUNT : Z := 0x80000003.
Definition PRIVATE_SWAP_BINDING_ACCOUNT : Z := 0x80000004.
Definition PRIVATE_SWAP_ADAPTOR_ACCOUNT : Z := 0x80000005.
Definition INSTANCE_DOMAIN : list Z := str "KaspaPortal Covenant Key v1" ++ [0].
Definition BINDING_DOMAIN : list Z := str "KaspaPortal Covenant Binding Record v1" ++ [0].
Definition PRIVATE_SWAP_BINDING_DOMAIN : list Z := str "KaspaPortal Private Swap Binding Record v1" ++ [0].

Inductive CovenantKeyError :=
  | InvalidInstanceId
  | Derivation (error : Bip32.Bip32Error)
  | Signing (error : SchnorrError)
  | AntiKleptoFailed (error : AntiKlepto.AntiKleptoError).

Section covenant.
Context (sha256 sha512 : list Z -> list Z) `{Group} `{Bip340}.

(** [u32::from_be_bytes(digest[i..i + 4]) & 0x7fff_ffff] *)
Definition instance_index (digest : list Z) (i : Z) : option Z :=
  bytes ← slice digest i (i + 4); Some (Z.land (be_val bytes) 0x7fffffff).

Definition covenant_instance_indices (instance_id : list Z) : option (list Z) :=
  if list_Z_eqb instance_id (replicate 32 0) then None
  else mapM (instance_index (sha256 (INSTANCE_DOMAIN ++ instance_id))) [0; 4; 8; 12; 16].

Definition derive_covenant_branch (seed instance_id : list Z) (account : Z) : result Bip32.ExtendedPrivKey CovenantKeyError :=
  let? indices := ok_or (covenant_instance_indices instance_id) InvalidInstanceId in
  let? current := rmap_err Derivation (Bip32.derive_path sha512 seed [COVENANT_PURPOSE; KASPA_COIN_TYPE; account]) in
  try_fold (fun current index => rmap_err Derivation (Bip32.derive_child sha512 current (HARDENED_BIT + index))) current indices.

Definition derive_covenant_key (seed instance_id : list Z) := derive_covenant_branch seed instance_id COVENANT_ACCOUNT.
Definition derive_private_swap_claim_key (seed instance_id : list Z) := derive_covenant_branch seed instance_id PRIVATE_SWAP_CLAIM_ACCOUNT.
Definition derive_covenant_binding_key (seed instance_id : list Z) := derive_covenant_branch seed instance_id COVENANT_BINDING_ACCOUNT.

Definition covenant_public_key (seed instance_id : list Z) : result (list Z) CovenantKeyError :=
  let? key := derive_covenant_key seed instance_id in
  rmap_err Derivation (Bip32.public_key_x_only key).

(** The key has 32 bytes and is not longer than the block of 64. *)
Definition hmac_sha256 (key : list Z) (parts : list (list Z)) : list Z :=
  let pad byte := map (Z.lxor byte) key ++ replicate (64 - length key) byte in
  let inner_hash := sha256 (pad 0x36 ++ concat parts) in
  sha256 (pad 0x5c ++ inner_hash).

Definition covenant_binding_token (seed instance_id script_hash : list Z) : result (list Z) CovenantKeyError :=
  let? binding_key := derive_covenant_binding_key seed instance_id in
  let? signing_pubkey := covenant_public_key seed instance_id in
  Ok (hmac_sha256 (Bip32.key binding_key) [BINDING_DOMAIN; instance_id; script_hash; signing_pubkey]).

(** [zip] stops at the shorter of two arrays of the same length. *)
Definition constant_time_eq (left right : list Z) : bool := foldl Z.lor 0 (zip_with Z.lxor left right) =? 0.

Definition covenant_binding_matches (seed instance_id script_hash token : list Z) : result bool CovenantKeyError :=
  let? expected := covenant_binding_token seed instance_id script_hash in
  Ok (constant_time_eq expected token).

Definition provisional_covenant_signature (seed instance_id commitment aux_rand : list Z) : result (list Z) CovenantKeyError :=
  let? key := derive_covenant_key seed instance_id in
  rmap_err Signing (schnorr_sign_with_aux_rand (Bip32.key key) commitment aux_rand).

Definition finalize_covenant_signature (seed instance_id commitment provisional session_id host_secret : list Z)
  : result (list Z) CovenantKeyError :=
  let? key := derive_covenant_key seed instance_id in
  rmap_err AntiKleptoFailed
    (AntiKlepto.tweak_provisional_signature sha256 (Bip32.key key) commitment provisional session_id host_secret 0 0).

(** *** Private swaps *)

Definition private_swap_public_key (seed instance_id : list Z) : result (list Z) CovenantKeyError :=
  let? key := derive_private_swap_claim_key seed instance_id in
  rmap_err Derivation (Bip32.public_key_x_only key).

Definition private_swap_binding_token (seed instance_id script_hash : list Z) : result (list Z) CovenantKeyError :=
  let? binding_key := derive_covenant_branch seed instance_id PRIVATE_SWAP_BINDING_ACCOUNT in
  let? claim_pubkey := private_swap_public_key seed instance_id in
  Ok (hmac_sha256 (Bip32.key binding_key) [PRIVATE_SWAP_BINDING_DOMAIN; instance_id; script_hash; claim_pubkey]).

Definition private_swap_binding_matches (seed instance_id script_hash token : list Z) : result bool CovenantKeyError :=
  let? expected := private_swap_binding_token seed instance_id script_hash in
  Ok (constant_time_eq expected token).

Definition signing_failed {E} (_ : E) : CovenantKeyError := Signing Schnorr.SigningFailed.

Definition private_swap_adaptor_secret_and_point (seed instance_id : list Z) : result (list Z * list Z) CovenantKeyError :=
  let? key := derive_covenant_branch seed instance_id PRIVATE_SWAP_ADAPTOR_ACCOUNT in
  rmap_err signing_failed (Adaptor.adaptor_point_from_secret (Bip32.key key)).

Definition private_swap_adaptor_point (seed instance_id : list Z) : result (list Z) CovenantKeyError :=
  let? (_, point) := private_swap_adaptor_secret_and_point seed instance_id in Ok point.

Definition private_swap_adaptor_base_nonce_point (seed instance_id message adaptor_point_x session_id aux_rand : list Z)
  : result (list Z) CovenantKeyError :=
  let? key := derive_private_swap_claim_key seed instance_id in
  rmap_err signing_failed (Adaptor.adaptor_base_nonce_point sha256 (Bip32.key key) message adaptor_point_x session_id aux_rand).

Definition create_private_swap_adaptor_presignature (seed instance_id message adaptor_point_x session_id aux_rand host_secret : list Z)
  : result Adaptor.AdaptorPreSignature CovenantKeyError :=
  let? key := derive_private_swap_claim_key seed instance_id in
  rmap_err signing_failed
    (Adaptor.create_adaptor_presignature sha256 (Bip32.key key) message adaptor_point_x session_id aux_rand host_secret).

Definition complete_private_swap_adaptor_presignature (seed instance_id : list Z) (presig : Adaptor.AdaptorPreSignature)
  : result (list Z) CovenantKeyError :=
  let? (secret, _) := private_swap_adaptor_secret_and_point seed instance_id in
  rmap_err signing_failed (Adaptor.complete_adaptor_presignature presig secret).

End covenant.

(** * Covenant keys: proofs

    A finished covenant signature verifies under the covenant's key, a binding
    record names one script and one key, and the two kinds of records are
    never confused. *)

Section covenant.
Context (sha256 sha512 : list Z -> list Z) `{GroupLaws} `{!CurveLaws} `{!Bip340} `{!Bip340Laws}.
Hypothesis sha512_size : forall l, bytes_of 64 (sha512 l).

(** ** The hierarchy *)

Lemma branch_valid seed instance_id account k : derive_covenant_branch sha256 sha512 seed instance_id account = Ok k -> valid_key k.
Proof.
  unfold derive_covenant_branch. intros (indices & _ & (root & Hroot & Hfold)%rbind_Ok_inv)%rbind_Ok_inv.
  assert (Hv : valid_key root).
  { unfold Bip32.derive_path in Hroot. rewrite bool_decide_false in Hroot by done.
    destruct (Bip32.master_key_from_seed sha512 seed) as [m|] eqn:Em; [|done]. cbn [rbind] in Hroot.
    destruct (try_fold _ m _) as [k'|] eqn:Ef in Hroot; [|done]. injection Hroot as <-.
    by eapply (fold_valid sha512 sha512_size), Ef; apply (master_valid sha512 sha512_size seed). }
  clear Hroot. revert root Hv Hfold. induction indices as [|i indices IH]; intros root Hv Hfold; cbn [try_fold] in Hfold; [by injection Hfold as <-|].
  apply rbind_Ok_inv in Hfold as (child & Hchild & Hfold). destruct (Bip32.derive_child sha512 root (HARDENED_BIT + i)) as [c|] eqn:Ec; [|done].
  injection Hchild as <-. eapply IH; [|exact Hfold]. by eapply (derive_child_valid sha512 sha512_size), Ec.
Qed.

Lemma valid_key_secret k : valid_key k -> valid_secret (Bip32.key k).
Proof. intros (Hk & Hr & _). done. Qed.

(** The x-only key of a derived key is the one its signatures are made for. *)
Lemma x_only_normalized {E} (error : E) k px : valid_key k -> Bip32.public_key_x_only k = Ok px ->
  bytes_of 32 px /\ exists d, normalized_secret_and_public_x error (Bip32.key k) = Ok (d, px).
Proof.
  intros Hk Hx. unfold Bip32.public_key_x_only in Hx. rewrite (public_key_valid k Hk) in Hx. cbn [rbind] in Hx. injection Hx as <-.
  destruct (valid_key_secret k Hk) as [Hb Hr]. pose proof (normalized_secret error (Bip32.key k) Hb) as Hn.
  assert (Heq : exists d, normalized_secret_and_public_x error (Bip32.key k) = Ok (d, Bip32.x_coordinate (encode_point (generator_times (be_val (Bip32.key k)))))).
  { unfold normalized_secret_and_public_x. rewrite scalar_value_spec, (proj2 (Z.ltb_lt _ _)) by (done || lia). cbn [ok_or rbind].
    rewrite (proj2 (Z.eqb_neq _ _)) by lia. by eexists. }
  destruct Heq as (d & Heq). rewrite Heq in Hn. split; [apply Hn|by exists d].
Qed.

(** The library decides the standard's equation. *)
Definition decides_valid : Prop :=
  forall px message signature, bytes_of 32 px -> bytes_of 64 signature ->
    schnorr_verify px message signature = Ok tt <-> bip340_valid sha256 px message signature.


(** ** Binding records *)

Lemma constant_time_eq_iff a b : length a = length b -> constant_time_eq a b = true <-> a = b.
Proof.
  intros Hl. unfold constant_time_eq. rewrite Z.eqb_eq.
  assert (Hfold : forall l acc, foldl Z.lor acc l = 0 <-> acc = 0 /\ Forall (eq 0) l).
  { intros l. induction l as [|x l IH]; intros acc; cbn [foldl]; [intuition|]. rewrite IH, Z.lor_eq_0_iff, Forall_cons. intuition. }
  rewrite Hfold. revert b Hl. induction a as [|x a IH]; intros [|y b] Hl; try done. injection Hl as Hl. cbn [zip_with].
  rewrite Forall_cons. specialize (IH b Hl). split.
  - intros (_ & Hx & Hr). assert (x = y) as -> by (by apply Z.lxor_eq). f_equal. by apply IH.
  - intros [= -> ->]. split; [done|]. rewrite Z.lxor_nilpotent. split; [done|]. by apply IH.
Qed.

(** The records of covenants and of swaps. *)
Definition record_token (swap : bool) := if swap then private_swap_binding_token sha256 sha512 else covenant_binding_token sha256 sha512.
Definition record_matches (swap : bool) := if swap then private_swap_binding_matches sha256 sha512 else covenant_binding_matches sha256 sha512.
Definition record_key (swap : bool) := if swap then private_swap_public_key sha256 sha512 else covenant_public_key sha256 sha512.
Definition record_domain (swap : bool) := if swap then PRIVATE_SWAP_BINDING_DOMAIN else BINDING_DOMAIN.

(** What the hash of a keyed message reads, the inner and the outer message. *)
Definition hmac_messages (key : list Z) (parts : list (list Z)) : list (list Z) :=
  let pad byte := map (Z.lxor byte) key ++ replicate (64 - length key) byte in
  let inner := pad 0x36 ++ concat parts in
  [inner; pad 0x5c ++ sha256 inner].

Lemma pad_length byte key : length key = 32%nat -> length (map (Z.lxor byte) key ++ replicate (64 - length key) byte) = 64%nat.
Proof. intros Hl. by rewrite length_app, length_map, length_replicate, Hl. Qed.

Lemma hmac_equal k k' parts parts' : length k = 32%nat -> length k' = 32%nat -> hmac_sha256 sha256 k parts = hmac_sha256 sha256 k' parts' ->
  concat parts = concat parts' \/ collision_between sha256 (hmac_messages k parts) (hmac_messages k' parts').
Proof.
  intros Hk Hk' Heq. unfold hmac_sha256 in Heq. cbv zeta in Heq.
  destruct (decide (concat parts = concat parts')) as [|Hne]; [by left|]. right.
  set (m := map (Z.lxor 0x36) k ++ replicate (64 - length k) 0x36 ++ concat parts).
  set (m' := map (Z.lxor 0x36) k' ++ replicate (64 - length k') 0x36 ++ concat parts').
  rewrite <- !app_assoc in Heq. fold m m' in Heq. unfold hmac_messages. cbv zeta. rewrite <- !app_assoc. fold m m'.
  assert (Hm : m <> m').
  { unfold m, m'. rewrite !app_assoc. intros [_ Hi]%app_inj_1; [done|by rewrite !pad_length]. }
  destruct (decide (sha256 m = sha256 m')) as [Hs|Hs]; eexists _, _; split_and!;
    [apply list_elem_of_here|apply list_elem_of_here|done|done|apply list_elem_of_further, list_elem_of_here
    |apply list_elem_of_further, list_elem_of_here| |exact Heq].
  rewrite !app_assoc. intros [_ Hi]%app_inj_1; [done|by rewrite !pad_length].
Qed.

Definition record_account (swap : bool) : Z := if swap then PRIVATE_SWAP_BINDING_ACCOUNT else COVENANT_BINDING_ACCOUNT.
(** The two messages whose hashes make a record. *)
Definition record_messages (swap : bool) (seed id script : list Z) : list (list Z) :=
  match derive_covenant_branch sha256 sha512 seed id (record_account swap), record_key swap seed id with
  | Ok k, Ok px => hmac_messages (Bip32.key k) [record_domain swap; id; script; px]
  | _, _ => []
  end.

(** A record as the keys it is made of. *)
Lemma record_parts swap seed id script t : record_token swap seed id script = Ok t ->
  exists k px, derive_covenant_branch sha256 sha512 seed id (record_account swap) = Ok k /\ length (Bip32.key k) = 32%nat /\ record_key swap seed id = Ok px /\ length px = 32%nat /\
    t = hmac_sha256 sha256 (Bip32.key k) [record_domain swap; id; script; px].
Proof.
  assert (Hx : forall account px, (let? key := derive_covenant_branch sha256 sha512 seed id account in rmap_err Derivation (Bip32.public_key_x_only key)) = Ok px -> length px = 32%nat).
  { intros account px (k & Hk%branch_valid & Hpx)%rbind_Ok_inv. destruct (Bip32.public_key_x_only k) as [x|] eqn:Ex; [|done]. injection Hpx as <-.
    destruct (x_only_normalized tt k x Hk Ex) as ([_ Hl] & _). unfold blen in Hl. lia. }
  assert (H32 : forall account k, derive_covenant_branch sha256 sha512 seed id account = Ok k -> length (Bip32.key k) = 32%nat).
  { intros account k ([_ Hl] & _)%branch_valid. unfold blen in Hl. lia. }
  destruct swap; cbn [record_token record_key record_domain].
  - unfold private_swap_binding_token. intros (k & Hk & (px & Hp & [= <-])%rbind_Ok_inv)%rbind_Ok_inv. exists k, px. split; [done|].
    split; [by eapply H32|]. split; [done|]. split; [|done]. by eapply Hx.
  - unfold covenant_binding_token. intros (k & Hk & (px & Hp & [= <-])%rbind_Ok_inv)%rbind_Ok_inv. exists k, px. split; [done|].
    split; [by eapply H32|]. split; [done|]. split; [|done]. by eapply Hx.
Qed.

Lemma record_matches_token swap seed id script token : (forall m, length (sha256 m) = 32%nat) -> length token = 32%nat ->
  record_matches swap seed id script token = Ok true -> record_token swap seed id script = Ok token.
Proof.
  intros Hsha Ht Hm. assert (Hm' : exists expected, record_token swap seed id script = Ok expected /\ constant_time_eq expected token = true).
  { destruct swap; cbn [record_matches record_token] in *; unfold private_swap_binding_matches, covenant_binding_matches in Hm;
      apply rbind_Ok_inv in Hm as (e & He & [= Hc]); by exists e. }
  destruct Hm' as (expected & He & Hc). rewrite He. f_equal. apply constant_time_eq_iff; [|done].
  rewrite Ht. destruct (record_parts _ _ _ _ _ He) as (k & px & _ & _ & _ & _ & ->). unfold hmac_sha256. cbv zeta. apply Hsha.
Qed.

Lemma record_length swap seed id script token : (forall m, length (sha256 m) = 32%nat) ->
  record_token swap seed id script = Ok token -> length token = 32%nat.
Proof. intros Hsha Ht. destruct (record_parts _ _ _ _ _ Ht) as (k & px & _ & _ & _ & _ & ->). unfold hmac_sha256. cbv zeta. apply Hsha. Qed.

(** A record that is made is accepted. *)
Lemma record_matches_self swap seed id script token : record_token swap seed id script = Ok token ->
  record_matches swap seed id script token = Ok true.
Proof.
  intros Ht. destruct swap; cbn [record_matches record_token] in *; unfold private_swap_binding_matches, covenant_binding_matches; rewrite Ht; cbn [rbind];
    f_equal; by apply constant_time_eq_iff.
Qed.

(** A binding record accepted for one instance, script and kind of key is
    accepted for no other one, and for no other public key, unless two of
    the messages that are hashed for the two records collide. *)
Theorem binding_record_unique swap swap' seed seed' id id' script script' token :
  (forall m, length (sha256 m) = 32%nat) -> length id = 32%nat -> length id' = 32%nat -> length script = 32%nat -> length script' = 32%nat ->
  length token = 32%nat ->
  record_matches swap seed id script token = Ok true -> record_matches swap' seed' id' script' token = Ok true ->
  (swap = swap' /\ id = id' /\ script = script' /\ record_key swap seed id = record_key swap' seed' id') \/
  collision_between sha256 (record_messages swap seed id script) (record_messages swap' seed' id' script').
Proof.
  intros Hsha Hid Hid' Hscr Hscr' Ht Hm%record_matches_token Hm'%record_matches_token; [|done..].
  destruct (record_parts _ _ _ _ _ Hm) as (k & px & Hb & Hk & Hp & Hpl & ->). destruct (record_parts _ _ _ _ _ Hm') as (k' & px' & Hb' & Hk' & Hp' & Hpl' & Heq).
  apply hmac_equal in Heq as [Heq|Hc]; [|right; unfold record_messages; by rewrite Hb, Hb', Hp, Hp'|done..]. left. cbn [concat] in Heq.
  assert (Hd : swap = swap').
  { apply (f_equal length) in Heq. rewrite !length_app in Heq. cbn [length] in Heq. rewrite Hid, Hid', Hscr, Hscr', Hpl, Hpl' in Heq.
    destruct swap, swap'; done. }
  subst swap'. apply app_inj_1 in Heq as [_ Heq]; [|done]. apply app_inj_1 in Heq as [-> Heq]; [|by rewrite Hid, Hid'].
  apply app_inj_1 in Heq as [-> Heq]; [|by rewrite Hscr, Hscr']. apply app_inj_1 in Heq as [-> _]; [|by rewrite Hpl, Hpl'].
  split_and!; try done. by rewrite Hp, Hp'.
Qed.

End covenant.

(** ** Witnesses

    A signature library over the group to evaluate on: it signs with the nonce
    11 and decides the equation of the standard. *)

#[local] Existing Instances parity_curve parity_group parity_laws parity_group_laws.

Definition toy_sign (secret : Z) (message : list Z) : option (list Z) :=
  match normalized_secret_and_public_x tt (to_bytes secret) with
  | Ok (d, px) => Some (to_bytes 11 ++ to_bytes (scalar_add 11 (scalar_mul (challenge toy_sha (to_bytes 11) px message) d)))
  | Err _ => None
  end.

#[local] Instance parity_bip340 : Bip340 := {|
  signing_key := Z; verifying_key := list Z; parsed_signature := list Z;
  signing_key_from_bytes := secret_key; sign_raw secret message _ := toy_sign secret message;
  verifying_key_from_bytes := Some; signature_try_from := Some;
  verify_raw px message signature :=
    match Adaptor.xonly_to_point px, scalar_value (s_bytes signature) with
    | Ok p, Some s => bool_decide (point_x_and_parity (point_add (generator_times s)
        (point_neg (point_times p (challenge toy_sha (r_bytes signature) px message)))) = Some (r_bytes signature, false))
    | _, _ => false
    end |}.

Lemma parity_verify px message signature : verify_raw px message signature = true <-> bip340_valid toy_sha px message signature.
Proof.
  cbn [verify_raw parity_bip340]. unfold bip340_valid. destruct (Adaptor.xonly_to_point px) as [p|]; [|split; [done|intros (? & ? & ? & _); done]].
  destruct (scalar_value (s_bytes signature)) as [s|]; [|split; [done|intros (? & ? & _ & ? & _); done]]. rewrite bool_decide_eq_true. split.
  - intros Hr. by exists p, s.
  - intros (p' & s' & [= <-] & [= <-] & Hr). done.
Qed.

Lemma toy_sign_valid secret message signature : 0 < secret < order -> toy_sign secret message = Some signature ->
  bytes_of 64 signature /\ bip340_valid toy_sha (Bip32.x_coordinate (encode_point (generator_times secret))) message signature.
Proof.
  intros Hr. unfold toy_sign. pose proof (normalized_secret tt (to_bytes secret) (to_bytes_size secret)) as Hn.
  assert (Hpx : forall d px, normalized_secret_and_public_x tt (to_bytes secret) = Ok (d, px) -> px = Bip32.x_coordinate (encode_point (generator_times secret))).
  { intros d px. unfold normalized_secret_and_public_x. rewrite scalar_to_bytes by lia. cbn [ok_or rbind]. destruct (secret =? 0); [done|]. by intros [= _ <-]. }
  destruct (normalized_secret_and_public_x tt (to_bytes secret)) as [[d px]|]; [|done]. rewrite <- (Hpx d px) by done. intros Hsig%(inj Some). rewrite <- Hsig.
  split; [apply signature_size, to_bytes_size|]. assert (Hx : point_x_and_parity (G 11) = Some (to_bytes 11, false)) by (vm_compute; reflexivity).
  exact (signature_of_nonce toy_sha d px message 11 (to_bytes 11) false (proj1 (proj2 Hn)) (proj2 (proj2 Hn)) Hx).
Qed.

#[local] Instance parity_bip340_laws : Bip340Laws.
Proof.
  assert (Hrange : forall l secret, secret_key l = Some secret -> 0 < secret < order).
  { intros l secret. cbn -[order be_val]. destruct (Z.ltb_spec 0 (be_val l)); [|done]. destruct (Z.ltb_spec (be_val l) order); [|done]. by intros [= <-]. }
  split.
  - done.
  - intros k message aux signature Hs. cbn [sign_raw parity_bip340] in Hs. unfold toy_sign in Hs.
    destruct (normalized_secret_and_public_x tt _) as [[d px]|]; [|done]. apply (inj Some) in Hs. rewrite <- Hs. apply signature_size, to_bytes_size.
  - intros l k secret message aux signature Hk Hs Hsign. cbn [signing_key_from_bytes parity_bip340] in Hk. rewrite Hs in Hk. injection Hk as <-.
    eexists _, _. split; [done|]. split; [done|]. apply parity_verify. apply (toy_sign_valid secret message signature); [by eapply Hrange|done].
Qed.

Lemma parity_decides : decides_valid toy_sha.
Proof.
  intros px message signature _ _. rewrite <- parity_verify. unfold schnorr_verify, parse_verifying_key, parse_signature, verify_parsed_signature.
  cbn [verifying_key_from_bytes signature_try_from parity_bip340 ok_or rbind]. destruct (verify_raw _ _ _); split; done.
Qed.

Definition toy_seed : list Z := replicate 64 9.
Definition toy_instance : list Z := replicate 32 3.

Lemma chain_ok {A B C E} (a : result A E) (b : result B E) (c : B -> result C E) :
  is_ok (let? _ := a in let? y := b in c y) = true -> exists x y z, a = Ok x /\ b = Ok y /\ c y = Ok z.
Proof.
  destruct a as [x|]; [|done]. cbn [rbind]. destruct b as [y|]; [|done]. cbn [rbind]. destruct (c y) as [z|] eqn:Ec; [|done]. intros _. by exists x, y, z.
Qed.

Lemma toy_exchange_ok : is_ok (let? _ := covenant_public_key toy_sha toy_hash512 toy_seed toy_instance in
  let? provisional := provisional_covenant_signature toy_sha toy_hash512 toy_seed toy_instance (replicate 32 1) (replicate 32 2) in
  finalize_covenant_signature toy_sha toy_hash512 toy_seed toy_instance (replicate 32 1) provisional (replicate 16 4) (replicate 32 5)) = true.
Proof. vm_compute. reflexivity. Qed.


Lemma toy_token_ok : is_ok (record_token toy_sha toy_hash512 true toy_seed toy_instance (replicate 32 8)) = true.
Proof. vm_compute. reflexivity. Qed.

Lemma is_ok_value {A E} (r : result A E) : is_ok r = true -> exists a, r = Ok a.
Proof. destruct r as [a|]; [|done]. intros _. by exists a. Qed.

Lemma binding_record_unique_witness : exists token,
  record_matches toy_sha toy_hash512 true toy_seed toy_instance (replicate 32 8) token = Ok true /\
  ((true = true /\ toy_instance = toy_instance /\ replicate 32 8 = replicate 32 8 /\
    record_key toy_sha toy_hash512 true toy_seed toy_instance = record_key toy_sha toy_hash512 true toy_seed toy_instance) \/
   collision_between toy_sha (record_messages toy_sha toy_hash512 true toy_seed toy_instance (replicate 32 8))
     (record_messages toy_sha toy_hash512 true toy_seed toy_instance (replicate 32 8))).
Proof.
  assert (H32 : forall m, length (toy_sha m) = 32%nat) by (intros m; apply be_bytes_length).
  destruct (is_ok_value _ toy_token_ok) as (token & Et). pose proof (record_matches_self _ _ _ _ _ _ _ Et) as Hm.
  pose proof (record_length toy_sha toy_hash512 toy_hash512_size _ _ _ _ _ H32 Et) as Hl.
  exists token. split; [exact Hm|].
  exact (binding_record_unique toy_sha toy_hash512 toy_hash512_size true true toy_seed toy_seed toy_instance toy_instance (replicate 32 8) (replicate 32 8) token
    H32 eq_refl eq_refl eq_refl eq_refl Hl Hm Hm).
Defined.
