(* ===== verification/SigningMessages.v ===== *)
(** * The messages of interactive signing

    [src/src/transaction/signing]: covenant signing requests, reveals and
    responses ([covenant/protocol]), those of a private swap
    ([covenant/protocol/private_swap.rs]) with the check of its claim
    ([private_swap]), and the framing of host-assisted signing
    ([anti_klepto/protocol.rs]). An encoder is a computation over the caller's
    buffer; an index out of range is a panic. SHA-256 is a parameter. *)

From S2P Require Import Prelude Bytes Script Covenants TxModel Sighash SigCheck KsptCodec Hd HdProofs.

(** ** Reading and writing at fixed positions *)

Definition lift {A E} (r : result A E) : result A (Fault E) := rmap_err Fails r.
Definition fails {A E} (e : E) : result A (Fault E) := Err (Fails e).
(** [&input[i..j]] and [input[i]] *)
Definition part {E} (input : list Z) (i j : Z) : result (list Z) (Fault E) := ok_or (slice input i j) Panics.
Definition byte {E} (input : list Z) (i : Z) : result Z (Fault E) := ok_or (get_at input i) Panics.
(** [out[i..i + bytes.len()].copy_from_slice(bytes)] *)
Definition put {E} (i : Z) (bytes : list Z) : Comp (list Z) (Fault E) unit := fun out =>
  match copy_into out i bytes with Some out => (Ok tt, out) | None => (Err Panics, out) end.
(** [if out.len() < needed { return Err(OutputTooSmall) }] *)
Definition ensure_output {E} (error : E) (needed : Z) : Comp (list Z) (Fault E) unit := fun out =>
  (if blen out <? needed then fails error else Ok tt, out).

(** [input.starts_with(&magic)] *)
Definition begins_with (magic input : list Z) : bool := list_Z_eqb (take (length magic) input) magic.
(** [*field == [0; n]] *)
Definition blank (n : nat) (field : list Z) : bool := list_Z_eqb field (replicate n 0).
(** [valid.then_some(()).ok_or(error)] *)
Definition then_some {E} (valid : bool) (error : E) : result unit E := if valid then Ok tt else Err error.

Definition SESSION_ID_LEN : Z := 16.

(** ** [covenant/protocol/mod.rs] and [validation.rs] *)

Module CovenantProtocol.

Definition REQUEST_MAGIC : list Z := str "CVSG".
Definition REVEAL_MAGIC : list Z := str "CVRV".
Definition RESPONSE_MAGIC : list Z := str "CVSR".
Definition VERSION : Z := 1.
Definition REQUEST_HEADER_LEN : Z := 156.
Definition REVEAL_LEN : Z := 117.
Definition RESPONSE_LEN : Z := 247.
Definition MAX_SCRIPT_LEN : Z := 3072.
Definition MAX_CONTEXT_LEN : Z := 1024.

Inductive RequestKind := KeyInfo | Known | Opaque | Bind.
Inductive KnownScheme := NoScheme | Sha256Preimage | OracleV1Scheme.
Inductive BindingHint := NoBinding | KeyPresent | FixedCheckSigFromStack.
Inductive ProtocolError :=
  | InvalidMagic | UnsupportedVersion | InvalidKind | InvalidScheme | InvalidBinding | InvalidLength | InvalidFields
  | OutputTooSmall.
Inductive ResponseKind := KeyInfoResponse | NonceCommitment | Signature | Binding.

#[global] Instance RequestKind_eq_dec : EqDecision RequestKind. Proof. solve_decision. Defined.
#[global] Instance KnownScheme_eq_dec : EqDecision KnownScheme. Proof. solve_decision. Defined.
#[global] Instance BindingHint_eq_dec : EqDecision BindingHint. Proof. solve_decision. Defined.
#[global] Instance ResponseKind_eq_dec : EqDecision ResponseKind. Proof. solve_decision. Defined.

Record CovenantSignRequest := {
  kind : RequestKind; scheme : KnownScheme; binding : BindingHint; session_id : list Z; host_commitment : list Z;
  key_id : list Z; binding_token : list Z; commitment : list Z; script : list Z; context : list Z }.
Record CovenantSignReveal := { rv_session_id : list Z; rv_key_id : list Z; rv_commitment : list Z; rv_host_secret : list Z }.
Record CovenantSignResponse := {
  rs_kind : ResponseKind; rs_session_id : list Z; rs_key_id : list Z; rs_pubkey_x : list Z; rs_binding_token : list Z;
  rs_commitment : list Z; rs_nonce_point : list Z; rs_signature : list Z }.

(** [as u8] and its inverses *)
Definition kind_byte (k : RequestKind) : Z := match k with KeyInfo => 0 | Known => 1 | Opaque => 2 | Bind => 3 end.
Definition scheme_byte (s : KnownScheme) : Z := match s with NoScheme => 0 | Sha256Preimage => 1 | OracleV1Scheme => 2 end.
Definition binding_byte (b : BindingHint) : Z :=
  match b with NoBinding => 0 | KeyPresent => 1 | FixedCheckSigFromStack => 2 end.
Definition response_byte (k : ResponseKind) : Z :=
  match k with KeyInfoResponse => 0 | NonceCommitment => 1 | Signature => 2 | Binding => 3 end.

Definition parse_kind (value : Z) : result RequestKind ProtocolError :=
  if value =? 0 then Ok KeyInfo else if value =? 1 then Ok Known else if value =? 2 then Ok Opaque
  else if value =? 3 then Ok Bind else Err InvalidKind.
Definition parse_scheme (value : Z) : result KnownScheme ProtocolError :=
  if value =? 0 then Ok NoScheme else if value =? 1 then Ok Sha256Preimage else if value =? 2 then Ok OracleV1Scheme
  else Err InvalidScheme.
Definition parse_binding (value : Z) : result BindingHint ProtocolError :=
  if value =? 0 then Ok NoBinding else if value =? 1 then Ok KeyPresent else if value =? 2 then Ok FixedCheckSigFromStack
  else Err InvalidBinding.
Definition parse_response_kind (value : Z) : result ResponseKind ProtocolError :=
  if value =? 0 then Ok KeyInfoResponse else if value =? 1 then Ok NonceCommitment else if value =? 2 then Ok Signature
  else if value =? 3 then Ok Binding else Err InvalidKind.

Definition expected_known_binding (s : KnownScheme) : BindingHint :=
  match s with Sha256Preimage | OracleV1Scheme => FixedCheckSigFromStack | NoScheme => NoBinding end.

Definition is_message (input : list Z) : bool :=
  (5 <=? blen input) && bool_decide (get_at input 4 = Some VERSION)
  && (begins_with REQUEST_MAGIC input || begins_with REVEAL_MAGIC input).

Definition validate_request_prefix (input : list Z) : result unit (Fault ProtocolError) :=
  if (blen input <? REQUEST_HEADER_LEN) || negb (begins_with REQUEST_MAGIC input) then fails InvalidMagic
  else let? version := byte input 4 in if negb (version =? VERSION) then fails UnsupportedVersion else Ok tt.

Definition validate_lengths (script_len context_len : Z) : result unit ProtocolError :=
  if (MAX_SCRIPT_LEN <? script_len) || (MAX_CONTEXT_LEN <? context_len) then Err InvalidLength else Ok tt.

Definition request_total_len (script_len context_len : Z) : result Z ProtocolError :=
  ok_or (value ← checked_add REQUEST_HEADER_LEN script_len; checked_add value context_len) InvalidLength.

(** [RequestValidationFields]: a request with the lengths of its script and
    its context. *)
Definition matches_opaque_binding (b : BindingHint) : bool := match b with NoBinding | KeyPresent => true | _ => false end.

Definition validate_key_info_fields (r : CovenantSignRequest) : result unit ProtocolError :=
  then_some (bool_decide (scheme r = NoScheme) && bool_decide (binding r = NoBinding) && blank 16 (session_id r)
    && blank 32 (host_commitment r) && blank 32 (key_id r) && blank 32 (binding_token r) && blank 32 (commitment r)
    && (blen (script r) =? 0) && (blen (context r) =? 0)) InvalidFields.

Definition validate_bind_fields (r : CovenantSignRequest) : result unit ProtocolError :=
  let base := blank 16 (session_id r) && blank 32 (host_commitment r) && negb (blank 32 (key_id r))
    && blank 32 (binding_token r) && negb (blen (script r) =? 0) in
  let shape :=
    if bool_decide (scheme r = NoScheme) then
      matches_opaque_binding (binding r) && blank 32 (commitment r) && (blen (context r) =? 0)
    else bool_decide (binding r = expected_known_binding (scheme r)) && negb (blen (context r) =? 0) in
  then_some (base && shape) InvalidFields.

Definition validate_known_fields (r : CovenantSignRequest) : result unit ProtocolError :=
  then_some (negb (bool_decide (scheme r = NoScheme)) && bool_decide (binding r = expected_known_binding (scheme r))
    && negb (blank 16 (session_id r)) && negb (blank 32 (host_commitment r)) && negb (blank 32 (key_id r))
    && negb (blank 32 (binding_token r)) && negb (blen (script r) =? 0) && negb (blen (context r) =? 0)) InvalidFields.

Definition validate_opaque_fields (r : CovenantSignRequest) : result unit ProtocolError :=
  then_some (bool_decide (scheme r = NoScheme) && matches_opaque_binding (binding r)
    && negb (blank 16 (session_id r)) && negb (blank 32 (host_commitment r)) && negb (blank 32 (key_id r))
    && negb (blank 32 (binding_token r)) && negb (blen (script r) =? 0) && (blen (context r) =? 0)) InvalidFields.

Definition validate_fields (r : CovenantSignRequest) : result unit ProtocolError :=
  match kind r with
  | KeyInfo => validate_key_info_fields r
  | Bind => validate_bind_fields r
  | Known => validate_known_fields r
  | Opaque => validate_opaque_fields r
  end.

Definition key_info_response_valid (r : CovenantSignResponse) : bool :=
  blank 16 (rs_session_id r) && blank 32 (rs_binding_token r) && blank 32 (rs_commitment r)
  && blank 33 (rs_nonce_point r) && blank 64 (rs_signature r).
Definition binding_response_valid (r : CovenantSignResponse) : bool :=
  blank 16 (rs_session_id r) && negb (blank 32 (rs_binding_token r)) && negb (blank 32 (rs_commitment r))
  && blank 33 (rs_nonce_point r) && blank 64 (rs_signature r).
Definition nonce_response_valid (r : CovenantSignResponse) : bool :=
  negb (blank 16 (rs_session_id r)) && negb (blank 32 (rs_binding_token r))
  && bool_decide (get_at (rs_nonce_point r) 0 = Some 2) && blank 64 (rs_signature r).
Definition signature_response_valid (r : CovenantSignResponse) : bool :=
  negb (blank 16 (rs_session_id r)) && negb (blank 32 (rs_binding_token r))
  && bool_decide (get_at (rs_nonce_point r) 0 = Some 2) && negb (blank 64 (rs_signature r)).
Definition response_shape_valid (r : CovenantSignResponse) : bool :=
  match rs_kind r with
  | KeyInfoResponse => key_info_response_valid r
  | Binding => binding_response_valid r
  | NonceCommitment => nonce_response_valid r
  | Signature => signature_response_valid r
  end.
Definition validate_response (r : CovenantSignResponse) : result unit ProtocolError :=
  if blank 32 (rs_key_id r) || blank 32 (rs_pubkey_x r) then Err InvalidFields
  else then_some (response_shape_valid r) InvalidFields.

Definition parse_request (input : list Z) : result CovenantSignRequest (Fault ProtocolError) :=
  let? _ := validate_request_prefix input in
  let? kind := (let? b := byte input 5 in lift (parse_kind b)) in
  let? scheme := (let? b := byte input 6 in lift (parse_scheme b)) in
  let? binding := (let? b := byte input 7 in lift (parse_binding b)) in
  let? session_id := part input 8 24 in
  let? host_commitment := part input 24 56 in
  let? key_id := part input 56 88 in
  let? binding_token := part input 88 120 in
  let? commitment := part input 120 152 in
  let? script_len := part input 152 154 in
  let? context_len := part input 154 156 in
  let script_len := be_val script_len in
  let context_len := be_val context_len in
  let? _ := lift (validate_lengths script_len context_len) in
  let? total := lift (request_total_len script_len context_len) in
  if negb (total =? blen input) then fails InvalidLength
  else
    let script_end := REQUEST_HEADER_LEN + script_len in
    let? script := part input REQUEST_HEADER_LEN script_end in
    let? context := part input script_end (blen input) in
    let request := {| kind := kind; scheme := scheme; binding := binding; session_id := session_id;
      host_commitment := host_commitment; key_id := key_id; binding_token := binding_token; commitment := commitment;
      script := script; context := context |} in
    let? _ := lift (validate_fields request) in
    Ok request.

Definition encode_request (r : CovenantSignRequest) : Comp (list Z) (Fault ProtocolError) Z :=
  let* _ := of_result (lift (validate_lengths (blen (script r)) (blen (context r)))) in
  let* _ := of_result (lift (validate_fields r)) in
  let* total := of_result (lift (request_total_len (blen (script r)) (blen (context r)))) in
  let* _ := ensure_output OutputTooSmall total in
  let* _ := put 0 REQUEST_MAGIC in
  let* _ := put 4 [VERSION] in
  let* _ := put 5 [kind_byte (kind r)] in
  let* _ := put 6 [scheme_byte (scheme r)] in
  let* _ := put 7 [binding_byte (binding r)] in
  let* _ := put 8 (session_id r) in
  let* _ := put 24 (host_commitment r) in
  let* _ := put 56 (key_id r) in
  let* _ := put 88 (binding_token r) in
  let* _ := put 120 (commitment r) in
  let* _ := put 152 (be_bytes 2 (blen (script r))) in
  let* _ := put 154 (be_bytes 2 (blen (context r))) in
  let* _ := put REQUEST_HEADER_LEN (script r) in
  let* _ := put (REQUEST_HEADER_LEN + blen (script r)) (context r) in
  ret total.

Definition encode_reveal (r : CovenantSignReveal) : Comp (list Z) (Fault ProtocolError) Z :=
  let* _ := ensure_output OutputTooSmall REVEAL_LEN in
  let* _ := reject_if (blank 16 (rv_session_id r) || blank 32 (rv_key_id r)) (Fails InvalidFields) in
  let* _ := put 0 REVEAL_MAGIC in
  let* _ := put 4 [VERSION] in
  let* _ := put 5 (rv_session_id r) in
  let* _ := put 21 (rv_key_id r) in
  let* _ := put 53 (rv_commitment r) in
  let* _ := put 85 (rv_host_secret r) in
  ret REVEAL_LEN.

Definition parse_reveal (input : list Z) : result CovenantSignReveal (Fault ProtocolError) :=
  if negb (blen input =? REVEAL_LEN) || negb (begins_with REVEAL_MAGIC input) then fails InvalidMagic
  else
    let? version := byte input 4 in
    if negb (version =? VERSION) then fails UnsupportedVersion
    else
      let? session_id := part input 5 21 in
      let? key_id := part input 21 53 in
      let? commitment := part input 53 85 in
      let? host_secret := part input 85 117 in
      if blank 16 session_id || blank 32 key_id then fails InvalidFields
      else Ok {| rv_session_id := session_id; rv_key_id := key_id; rv_commitment := commitment; rv_host_secret := host_secret |}.

Definition encode_response (r : CovenantSignResponse) : Comp (list Z) (Fault ProtocolError) Z :=
  let* _ := of_result (lift (validate_response r)) in
  let* _ := ensure_output OutputTooSmall RESPONSE_LEN in
  let* _ := put 0 RESPONSE_MAGIC in
  let* _ := put 4 [VERSION] in
  let* _ := put 5 [response_byte (rs_kind r)] in
  let* _ := put 6 (rs_session_id r) in
  let* _ := put 22 (rs_key_id r) in
  let* _ := put 54 (rs_pubkey_x r) in
  let* _ := put 86 (rs_binding_token r) in
  let* _ := put 118 (rs_commitment r) in
  let* _ := put 150 (rs_nonce_point r) in
  let* _ := put 183 (rs_signature r) in
  ret RESPONSE_LEN.

Definition parse_response (input : list Z) : result CovenantSignResponse (Fault ProtocolError) :=
  if negb (blen input =? RESPONSE_LEN) || negb (begins_with RESPONSE_MAGIC input) then fails InvalidMagic
  else
    let? version := byte input 4 in
    if negb (version =? VERSION) then fails UnsupportedVersion
    else
      let? kind := (let? b := byte input 5 in lift (parse_response_kind b)) in
      let? nonce_point := part input 150 183 in
      let? signature := part input 183 247 in
      let? session_id := part input 6 22 in
      let? key_id := part input 22 54 in
      let? pubkey_x := part input 54 86 in
      let? binding_token := part input 86 118 in
      let? commitment := part input 118 150 in
      let response := {| rs_kind := kind; rs_session_id := session_id; rs_key_id := key_id; rs_pubkey_x := pubkey_x;
        rs_binding_token := binding_token; rs_commitment := commitment; rs_nonce_point := nonce_point;
        rs_signature := signature |} in
      let? _ := lift (validate_response response) in
      Ok response.

(** Text of printable ASCII is valid UTF-8: the separate check for UTF-8
    refuses nothing the check of the bytes accepts. *)
Definition valid_review_context (context : list Z) (max_len : Z) (prefix : option (list Z)) : option (list Z) :=
  if bool_decide (context = []) || (max_len <? blen context) then None
  else if negb (forallb (fun byte => (0x20 <=? byte) && (byte <=? 0x7e)) context) then None
  else if match prefix with Some expected => negb (begins_with expected context) | None => false end then None
  else Some context.

Definition recompute_known_commitment (sha256 : list Z -> list Z) (s : KnownScheme) (context : list Z) : option (list Z) :=
  match s with
  | Sha256Preimage => sha256 <$> valid_review_context context MAX_CONTEXT_LEN None
  | OracleV1Scheme => sha256 <$> valid_review_context context 256 (Some (str "KaspaPortal Oracle v1 "))
  | NoScheme => None
  end.

(** [any] stops at the first match, [collect] lists what it would look at. *)
Definition script_contains_xonly_key (script pubkey_x : list Z) : bool :=
  existsb (fun element => is_push element && list_Z_eqb (data element) pubkey_x)
    (collect (S (length script)) (elements script)).1.

Definition fixed_checksigfromstack_pattern (commitment pubkey_x : list Z) : list Z :=
  [0x20] ++ commitment ++ [0x20] ++ pubkey_x ++ [0xd7].

Definition script_binds_fixed_commitment (script commitment pubkey_x : list Z) : bool :=
  list_Z_eqb script (fixed_checksigfromstack_pattern commitment pubkey_x).

Definition known_script_binds (s : KnownScheme) (script commitment pubkey_x : list Z) : bool :=
  match s with
  | Sha256Preimage => list_Z_eqb script (fixed_checksigfromstack_pattern commitment pubkey_x)
  | OracleV1Scheme => OracleV1.oracle_v1_script_commits_to script commitment pubkey_x
  | NoScheme => false
  end.

End CovenantProtocol.

(** ** [covenant/protocol/private_swap.rs] and [private_swap/mod.rs] *)

Module SwapProtocol.

Definition REQUEST_MAGIC : list Z := str "PSWG".
Definition REVEAL_MAGIC : list Z := str "PSWR".
Definition RESPONSE_MAGIC : list Z := str "PSWS".
Definition VERSION : Z := 1.
Definition REQUEST_HEADER_LEN : Z := 221.
Definition REVEAL_LEN : Z := 117.
Definition RESPONSE_LEN : Z := 280.
Definition MAX_PAYLOAD_LEN : Z := 2600.
Definition SESSION_DOMAIN : list Z := str "KaspaPortal Private Swap Session v1" ++ [0].
Definition TX_DOMAIN : list Z := str "KaspaPortal Private Swap KSPT v1" ++ [0].

Inductive RequestKind := KeyInfo | Bind | PreSign | Complete.
Inductive ResponseKind := KeyInfoResponse | Binding | Nonce | PreSignature | Completed.
Inductive ProtocolError := InvalidMagic | UnsupportedVersion | InvalidKind | InvalidLength | InvalidFields | OutputTooSmall.

Record PrivateSwapRequest := {
  kind : RequestKind; session_id : list Z; host_commitment : list Z; key_id : list Z; binding_token : list Z;
  adaptor_point : list Z; presignature : list Z; presignature_negated : bool; request_payload : list Z }.
Record PrivateSwapReveal := { rv_session_id : list Z; rv_key_id : list Z; rv_sighash : list Z; rv_host_secret : list Z }.
Record PrivateSwapResponse := {
  rs_kind : ResponseKind; rs_session_id : list Z; rs_key_id : list Z; rs_claim_pubkey : list Z; rs_binding_token : list Z;
  rs_adaptor_point : list Z; rs_commitment : list Z; rs_nonce_point : list Z; rs_signature : list Z; rs_negated : bool }.

Definition kind_byte (k : RequestKind) : Z := match k with KeyInfo => 0 | Bind => 1 | PreSign => 2 | Complete => 3 end.
Definition response_byte (k : ResponseKind) : Z :=
  match k with KeyInfoResponse => 0 | Binding => 1 | Nonce => 2 | PreSignature => 3 | Completed => 4 end.
Definition parse_request_kind (value : Z) : result RequestKind ProtocolError :=
  if value =? 0 then Ok KeyInfo else if value =? 1 then Ok Bind else if value =? 2 then Ok PreSign
  else if value =? 3 then Ok Complete else Err InvalidKind.
Definition parse_response_kind (value : Z) : result ResponseKind ProtocolError :=
  if value =? 0 then Ok KeyInfoResponse else if value =? 1 then Ok Binding else if value =? 2 then Ok Nonce
  else if value =? 3 then Ok PreSignature else if value =? 4 then Ok Completed else Err InvalidKind.
Definition parse_bool (value : Z) : result bool ProtocolError :=
  if value =? 0 then Ok false else if value =? 1 then Ok true else Err InvalidFields.
(** [u8::from(flag)] *)
Definition bool_byte (b : bool) : Z := if b then 1 else 0.

Definition is_message (input : list Z) : bool :=
  (5 <=? blen input) && bool_decide (get_at input 4 = Some VERSION)
  && (begins_with REQUEST_MAGIC input || begins_with REVEAL_MAGIC input).

Section swap.
Context (sha256 : list Z -> list Z) (keyed : list Z -> list Z -> list Z) (schnorr_verify : list Z -> list Z -> list Z -> bool).

Definition domain_hash (domain : list Z) (parts : list (list Z)) : list Z := sha256 (domain ++ concat parts).
Definition transaction_digest (transaction : list Z) : list Z := domain_hash TX_DOMAIN [transaction].

Definition claim_sighash (compact_kspt : list Z) : result (list Z) (Fault PsktError) :=
  let? transaction := decode_compact_kspt keyed schnorr_verify compact_kspt in
  if negb (num_inputs transaction =? 1) then fails InvalidModel
  else Ok (calculate_sighash keyed transaction 0 SigHashType.All).

(** [session_id], named like the field of a message. *)
Definition session_id_of (host_commitment transaction key_id adaptor_point : list Z) : list Z :=
  let tx_digest := transaction_digest transaction in
  take 16 (domain_hash SESSION_DOMAIN [host_commitment; tx_digest; key_id; adaptor_point]).

Definition validate_key_info_request (r : PrivateSwapRequest) : result unit ProtocolError :=
  then_some (blank 16 (session_id r) && blank 32 (host_commitment r) && blank 32 (key_id r) && blank 32 (binding_token r)
    && blank 32 (adaptor_point r) && blank 64 (presignature r) && negb (presignature_negated r)
    && bool_decide (request_payload r = [])) InvalidFields.
Definition validate_bind_request (r : PrivateSwapRequest) : result unit ProtocolError :=
  then_some (blank 16 (session_id r) && blank 32 (host_commitment r) && negb (blank 32 (key_id r))
    && blank 32 (binding_token r) && negb (blank 32 (adaptor_point r)) && blank 64 (presignature r)
    && negb (presignature_negated r) && negb (bool_decide (request_payload r = []))) InvalidFields.
Definition validate_presign_request (r : PrivateSwapRequest) : result unit ProtocolError :=
  let fields_valid := negb (blank 32 (host_commitment r)) && negb (blank 32 (key_id r)) && negb (blank 32 (binding_token r))
    && negb (blank 32 (adaptor_point r)) && blank 64 (presignature r) && negb (presignature_negated r)
    && negb (bool_decide (request_payload r = [])) in
  if negb fields_valid then Err InvalidFields
  else
    let expected := session_id_of (host_commitment r) (request_payload r) (key_id r) (adaptor_point r) in
    then_some (list_Z_eqb (session_id r) expected) InvalidFields.
Definition validate_complete_request (r : PrivateSwapRequest) : result unit ProtocolError :=
  then_some (blank 16 (session_id r) && blank 32 (host_commitment r) && negb (blank 32 (key_id r))
    && negb (blank 32 (binding_token r)) && negb (blank 32 (adaptor_point r)) && negb (blank 64 (presignature r))
    && negb (bool_decide (request_payload r = []))) InvalidFields.

Definition validate_request (r : PrivateSwapRequest) : result unit ProtocolError :=
  if MAX_PAYLOAD_LEN <? blen (request_payload r) then Err InvalidLength
  else
    match kind r with
    | KeyInfo => validate_key_info_request r
    | Bind => validate_bind_request r
    | PreSign => validate_presign_request r
    | Complete => validate_complete_request r
    end.

Definition validate_response_identity (r : PrivateSwapResponse) : result unit ProtocolError :=
  then_some (negb (blank 32 (rs_key_id r)) && negb (blank 32 (rs_claim_pubkey r)) && negb (blank 32 (rs_adaptor_point r))) InvalidFields.
Definition validate_key_info_response (r : PrivateSwapResponse) : result unit ProtocolError :=
  then_some (blank 16 (rs_session_id r) && blank 32 (rs_binding_token r) && blank 32 (rs_commitment r)
    && blank 33 (rs_nonce_point r) && blank 64 (rs_signature r) && negb (rs_negated r)) InvalidFields.
Definition validate_binding_response (r : PrivateSwapResponse) : result unit ProtocolError :=
  then_some (blank 16 (rs_session_id r) && negb (blank 32 (rs_binding_token r)) && negb (blank 32 (rs_commitment r))
    && blank 33 (rs_nonce_point r) && blank 64 (rs_signature r) && negb (rs_negated r)) InvalidFields.
Definition validate_nonce_response (r : PrivateSwapResponse) : result unit ProtocolError :=
  then_some (negb (blank 16 (rs_session_id r)) && negb (blank 32 (rs_binding_token r)) && negb (blank 32 (rs_commitment r))
    && negb (blank 33 (rs_nonce_point r)) && blank 64 (rs_signature r) && negb (rs_negated r)) InvalidFields.
Definition validate_presignature_response (r : PrivateSwapResponse) : result unit ProtocolError :=
  then_some (negb (blank 16 (rs_session_id r)) && negb (blank 32 (rs_binding_token r)) && negb (blank 32 (rs_commitment r))
    && negb (blank 33 (rs_nonce_point r)) && negb (blank 64 (rs_signature r))) InvalidFields.
Definition validate_completed_response (r : PrivateSwapResponse) : result unit ProtocolError :=
  then_some (blank 16 (rs_session_id r) && negb (blank 32 (rs_binding_token r)) && negb (blank 32 (rs_commitment r))
    && blank 33 (rs_nonce_point r) && negb (blank 64 (rs_signature r)) && negb (rs_negated r)) InvalidFields.

Definition validate_response (r : PrivateSwapResponse) : result unit ProtocolError :=
  let? _ := validate_response_identity r in
  match rs_kind r with
  | KeyInfoResponse => validate_key_info_response r
  | Binding => validate_binding_response r
  | Nonce => validate_nonce_response r
  | PreSignature => validate_presignature_response r
  | Completed => validate_completed_response r
  end.

Definition validate_request_prefix (input : list Z) : result unit (Fault ProtocolError) :=
  if (blen input <? REQUEST_HEADER_LEN) || negb (begins_with REQUEST_MAGIC input) then fails InvalidMagic
  else
    let? version := byte input 4 in
    if negb (version =? VERSION) then fails UnsupportedVersion
    else
      let? reserved0 := byte input 219 in
      let? reserved1 := byte input 220 in
      if negb (reserved0 =? 0) || negb (reserved1 =? 0) then fails InvalidFields else Ok tt.

Definition validate_request_payload_length (input : list Z) : result unit (Fault ProtocolError) :=
  let? length_bytes := part input 215 219 in
  let payload_len := be_val length_bytes in
  if (MAX_PAYLOAD_LEN <? payload_len) || negb (bool_decide (checked_add REQUEST_HEADER_LEN payload_len = Some (blen input)))
  then fails InvalidLength else Ok tt.

Definition encode_request (r : PrivateSwapRequest) : Comp (list Z) (Fault ProtocolError) Z :=
  let* _ := of_result (lift (validate_request r)) in
  let* total := of_result (lift (ok_or (checked_add REQUEST_HEADER_LEN (blen (request_payload r))) InvalidLength)) in
  let* _ := ensure_output OutputTooSmall total in
  let* _ := put 0 REQUEST_MAGIC in
  let* _ := put 4 [VERSION] in
  let* _ := put 5 [kind_byte (kind r)] in
  let* _ := put 6 (session_id r) in
  let* _ := put 22 (host_commitment r) in
  let* _ := put 54 (key_id r) in
  let* _ := put 86 (binding_token r) in
  let* _ := put 118 (adaptor_point r) in
  let* _ := put 150 (presignature r) in
  let* _ := put 214 [bool_byte (presignature_negated r)] in
  let* _ := put 215 (be_bytes 4 (blen (request_payload r))) in
  let* _ := put 219 [0; 0] in
  let* _ := put REQUEST_HEADER_LEN (request_payload r) in
  ret total.

Definition parse_request (input : list Z) : result PrivateSwapRequest (Fault ProtocolError) :=
  let? _ := validate_request_prefix input in
  let? kind := (let? b := byte input 5 in lift (parse_request_kind b)) in
  let? _ := validate_request_payload_length input in
  let? presignature := part input 150 214 in
  let? session_id := part input 6 22 in
  let? host_commitment := part input 22 54 in
  let? key_id := part input 54 86 in
  let? binding_token := part input 86 118 in
  let? adaptor_point := part input 118 150 in
  let? negated := (let? b := byte input 214 in lift (parse_bool b)) in
  let? payload := part input REQUEST_HEADER_LEN (blen input) in
  let request := {| kind := kind; session_id := session_id; host_commitment := host_commitment; key_id := key_id;
    binding_token := binding_token; adaptor_point := adaptor_point; presignature := presignature;
    presignature_negated := negated; request_payload := payload |} in
  let? _ := lift (validate_request request) in
  Ok request.

Definition reveal_blank (r : PrivateSwapReveal) : bool :=
  blank 16 (rv_session_id r) || blank 32 (rv_key_id r) || blank 32 (rv_sighash r) || blank 32 (rv_host_secret r).

Definition encode_reveal (r : PrivateSwapReveal) : Comp (list Z) (Fault ProtocolError) Z :=
  let* _ := ensure_output OutputTooSmall REVEAL_LEN in
  let* _ := reject_if (reveal_blank r) (Fails InvalidFields) in
  let* _ := put 0 REVEAL_MAGIC in
  let* _ := put 4 [VERSION] in
  let* _ := put 5 (rv_session_id r) in
  let* _ := put 21 (rv_key_id r) in
  let* _ := put 53 (rv_sighash r) in
  let* _ := put 85 (rv_host_secret r) in
  ret REVEAL_LEN.

Definition parse_reveal (input : list Z) : result PrivateSwapReveal (Fault ProtocolError) :=
  if negb (blen input =? REVEAL_LEN) || negb (begins_with REVEAL_MAGIC input) then fails InvalidMagic
  else
    let? version := byte input 4 in
    if negb (version =? VERSION) then fails UnsupportedVersion
    else
      let? session_id := part input 5 21 in
      let? key_id := part input 21 53 in
      let? sighash := part input 53 85 in
      let? host_secret := part input 85 117 in
      let reveal := {| rv_session_id := session_id; rv_key_id := key_id; rv_sighash := sighash; rv_host_secret := host_secret |} in
      if reveal_blank reveal then fails InvalidFields else Ok reveal.

Definition encode_response (r : PrivateSwapResponse) : Comp (list Z) (Fault ProtocolError) Z :=
  let* _ := of_result (lift (validate_response r)) in
  let* _ := ensure_output OutputTooSmall RESPONSE_LEN in
  let* _ := put 0 RESPONSE_MAGIC in
  let* _ := put 4 [VERSION] in
  let* _ := put 5 [response_byte (rs_kind r)] in
  let* _ := put 6 (rs_session_id r) in
  let* _ := put 22 (rs_key_id r) in
  let* _ := put 54 (rs_claim_pubkey r) in
  let* _ := put 86 (rs_binding_token r) in
  let* _ := put 118 (rs_adaptor_point r) in
  let* _ := put 150 (rs_commitment r) in
  let* _ := put 182 (rs_nonce_point r) in
  let* _ := put 215 (rs_signature r) in
  let* _ := put 279 [bool_byte (rs_negated r)] in
  ret RESPONSE_LEN.

Definition parse_response (input : list Z) : result PrivateSwapResponse (Fault ProtocolError) :=
  if negb (blen input =? RESPONSE_LEN) || negb (begins_with RESPONSE_MAGIC input) then fails InvalidMagic
  else
    let? version := byte input 4 in
    if negb (version =? VERSION) then fails UnsupportedVersion
    else
      let? kind := (let? b := byte input 5 in lift (parse_response_kind b)) in
      let? nonce_point := part input 182 215 in
      let? signature := part input 215 279 in
      let? session_id := part input 6 22 in
      let? key_id := part input 22 54 in
      let? claim_pubkey := part input 54 86 in
      let? binding_token := part input 86 118 in
      let? adaptor_point := part input 118 150 in
      let? commitment := part input 150 182 in
      let? negated := (let? b := byte input 279 in lift (parse_bool b)) in
      let response := {| rs_kind := kind; rs_session_id := session_id; rs_key_id := key_id; rs_claim_pubkey := claim_pubkey;
        rs_binding_token := binding_token; rs_adaptor_point := adaptor_point; rs_commitment := commitment;
        rs_nonce_point := nonce_point; rs_signature := signature; rs_negated := negated |} in
      let? _ := lift (validate_response response) in
      Ok response.

(** *** The claim a signer agrees to *)

Record PrivateSwapScript := {
  salt : list Z; claimer_pubkey : list Z; owner_pubkey : list Z; destination_spk : list Z; refund_locktime_daa : Z }.

Inductive PrivateSwapError :=
  InvalidScript | WrongClaimer | InvalidTransaction | InvalidSighash | WrongDestination | FeeTooHigh.

Definition parse_private_swap_script (script : list Z) : result PrivateSwapScript PrivateSwapError :=
  let? fields := ok_or (PrivateSwap.private_swap_script_fields script) InvalidScript in
  Ok {| salt := PrivateSwap.salt fields; claimer_pubkey := PrivateSwap.claimer_pubkey fields;
        owner_pubkey := PrivateSwap.owner_pubkey fields;
        destination_spk := PrivateSwap.fields_versioned_destination fields;
        refund_locktime_daa := PrivateSwap.refund_locktime_daa fields |}.

Definition validate_claim_transaction_shape (tx : Transaction) : result SigHashType.SigHashType PrivateSwapError :=
  if negb (num_inputs tx =? 1) || negb (num_outputs tx =? 1) || negb (bool_decide (payload tx = [])) then Err InvalidTransaction
  else
    let input := input_at tx 0 in
    if negb (sig_count input =? 0) || negb (incoming_partial_sigs_count input =? 0) then Err InvalidTransaction
    else
      let? ty := if sighash_type input =? 0 then Ok SigHashType.All
                 else ok_or (SigHashType.from_byte (sighash_type input)) InvalidSighash in
      if bool_decide (ty = SigHashType.All) then Ok ty else Err InvalidSighash.

Definition validate_claim_policy (tx : Transaction) (expected_claimer_pubkey : list Z) : result PrivateSwapScript PrivateSwapError :=
  let redeem := TxModel.redeem_bytes tx 0 in
  if bool_decide (redeem = []) then Err InvalidScript
  else
    let? policy := parse_private_swap_script redeem in
    if negb (list_Z_eqb (claimer_pubkey policy) expected_claimer_pubkey) then Err WrongClaimer else Ok policy.

Definition validate_claim_output (tx : Transaction) (policy : PrivateSwapScript) : result unit PrivateSwapError :=
  let input := input_at tx 0 in
  let output := output_at tx 0 in
  let? _ := ok_or (checked_add 2 (spk_script_len (out_script_public_key output))) InvalidScript in
  let actual_spk := le_bytes 2 (spk_version (out_script_public_key output)) ++ script_bytes (out_script_public_key output) in
  if negb (list_Z_eqb actual_spk (destination_spk policy)) then Err WrongDestination
  else
    let? fee := ok_or (checked_sub (amount (utxo_entry input)) (value output)) InvalidTransaction in
    if PrivateSwap.PRIVATE_SWAP_MAX_FEE_SOMPI <? fee then Err FeeTooHigh else Ok tt.

Definition private_swap_claim_sighash (tx : Transaction) (expected_claimer_pubkey : list Z)
  : result (list Z * PrivateSwapScript) PrivateSwapError :=
  let? ty := validate_claim_transaction_shape tx in
  let? policy := validate_claim_policy tx expected_claimer_pubkey in
  let? _ := validate_claim_output tx policy in
  Ok (calculate_sighash keyed tx 0 ty, policy).

End swap.
End SwapProtocol.

(** ** [anti_klepto/protocol.rs] *)

Module KleptoProtocol.

Definition MAGIC : list Z := str "KAKP".
Definition VERSION : Z := 1.
Definition HASH_LEN : Z := 32.
Definition HEADER_LEN : Z := 4 + 1 + 1 + SESSION_ID_LEN.
Definition REVEAL_LEN : Z := HEADER_LEN + HASH_LEN.
Definition REQUEST_FIXED_LEN : Z := HEADER_LEN + HASH_LEN + HASH_LEN + 4.
Definition COMMITMENT_FIXED_LEN : Z := HEADER_LEN + HASH_LEN + 4.
Definition COMMITMENT_RECORD_LEN : Z := 4 + 1 + 33 + 33.
Definition SIGNED_FIXED_LEN : Z := HEADER_LEN + HASH_LEN + 4.
Definition SIGNATURE_PROOF_LEN : Z := 4 + 1.
Definition HOST_COMMIT_DOMAIN : list Z := str "KaspaPortal/anti-klepto/host-commit/v1".
Definition TX_DIGEST_DOMAIN : list Z := str "KaspaPortal/anti-klepto/tx/v1".
Definition SESSION_DOMAIN : list Z := str "KaspaPortal/anti-klepto/session/v1".

Inductive MessageKind := RequestMessage | CommitmentMessage | RevealMessage | SignedMessage.
#[global] Instance MessageKind_eq_dec : EqDecision MessageKind. Proof. solve_decision. Defined.

Inductive WireError :=
  | Truncated | InvalidMagic | UnsupportedVersion | WrongKind | InvalidLength | TooManyProofs | OutputTooSmall
  | SessionMismatch | TransactionMismatch | HostCommitmentMismatch.

Definition kind_byte (k : MessageKind) : Z :=
  match k with RequestMessage => 1 | CommitmentMessage => 2 | RevealMessage => 3 | SignedMessage => 4 end.
Definition from_byte (value : Z) : result MessageKind WireError :=
  if value =? 1 then Ok RequestMessage else if value =? 2 then Ok CommitmentMessage else if value =? 3 then Ok RevealMessage
  else if value =? 4 then Ok SignedMessage else Err WrongKind.

Record Header := { version : Z; header_kind : MessageKind; header_session_id : list Z }.
Record Request := { rq_session_id : list Z; rq_host_commitment : list Z; rq_transaction_digest : list Z; rq_transaction : list Z }.
Record NonceCommitment := { input_index : Z; signature_slot : Z; public_key : list Z; nonce_point : list Z }.
Record Commitment := { cm_session_id : list Z; cm_transaction_digest : list Z; record_bytes : list Z; count : Z }.
Record SignatureProof := { pf_input_index : Z; pf_signature_slot : Z }.
Record Signed := {
  sd_session_id : list Z; sd_transaction_digest : list Z; proof_bytes : list Z; sd_proof_count : Z; sd_transaction : list Z }.

Definition is_message (input : list Z) : bool :=
  (HEADER_LEN <=? blen input) && begins_with MAGIC input && bool_decide (get_at input 4 = Some VERSION).

(** [exact_tail] *)
Definition exact_tail (input : list Z) (start length : Z) : result (list Z) (Fault WireError) :=
  match checked_add start length with
  | Some end_ => if end_ =? blen input then part input start end_ else fails InvalidLength
  | None => fails InvalidLength
  end.

Definition read_u32 (input : list Z) : result Z (Fault WireError) :=
  if blen input <? 4 then fails Truncated
  else let? bytes := part input 0 4 in Ok (le_val bytes).

Definition nonzero_count (count : Z) : result Z WireError :=
  if count =? 0 then Err TooManyProofs else if u32_max <? count then Err TooManyProofs else Ok count.

Definition parse_header (input : list Z) (expected : MessageKind) : result Header (Fault WireError) :=
  if blen input <? HEADER_LEN then fails Truncated
  else
    let? magic := part input 0 4 in
    if negb (list_Z_eqb magic MAGIC) then fails InvalidMagic
    else
      let? version := byte input 4 in
      if negb (version =? VERSION) then fails UnsupportedVersion
      else
        let? kind := (let? b := byte input 5 in lift (from_byte b)) in
        if negb (bool_decide (kind = expected)) then fails WrongKind
        else
          let? session_id := part input 6 HEADER_LEN in
          Ok {| version := VERSION; header_kind := kind; header_session_id := session_id |}.

Definition write_header (kind : MessageKind) (session_id : list Z) : Comp (list Z) (Fault WireError) unit :=
  let* _ := ensure_output OutputTooSmall HEADER_LEN in
  let* _ := put 0 MAGIC in
  let* _ := put 4 [VERSION] in
  let* _ := put 5 [kind_byte kind] in
  put 6 session_id.

Section klepto.
Context (sha256 : list Z -> list Z).

Definition domain_hash (domain : list Z) (parts : list (list Z)) : list Z := sha256 (domain ++ concat parts).
Definition host_commitment (host_secret : list Z) : list Z := domain_hash HOST_COMMIT_DOMAIN [host_secret].
Definition transaction_digest (transaction : list Z) : list Z := domain_hash TX_DIGEST_DOMAIN [transaction].
Definition session_id (commitment tx_digest : list Z) : list Z := take 16 (domain_hash SESSION_DOMAIN [commitment; tx_digest]).
Definition verify_host_secret (expected_commitment host_secret : list Z) : bool :=
  Hex.constant_time_eq expected_commitment (host_commitment host_secret).

Definition encode_request (host_secret transaction : list Z) : Comp (list Z) (Fault WireError) Z :=
  let* _ := reject_if (u32_max <? blen transaction) (Fails InvalidLength) in
  let tx_len := blen transaction in
  let* needed := of_result (lift (ok_or (checked_add REQUEST_FIXED_LEN (blen transaction)) InvalidLength)) in
  let* _ := ensure_output OutputTooSmall needed in
  let host_commit := host_commitment host_secret in
  let tx_digest := transaction_digest transaction in
  let session := session_id host_commit tx_digest in
  let* _ := write_header RequestMessage session in
  let* _ := put HEADER_LEN host_commit in
  let* _ := put (HEADER_LEN + 32) tx_digest in
  let* _ := put (HEADER_LEN + 64) (le_bytes 4 tx_len) in
  let* _ := put REQUEST_FIXED_LEN transaction in
  ret needed.

Definition validate_request_binding (header : Header) (host_commitment_value transaction_digest_value transaction : list Z)
  : result unit WireError :=
  if negb (list_Z_eqb (transaction_digest transaction) transaction_digest_value) then Err TransactionMismatch
  else if negb (list_Z_eqb (session_id host_commitment_value transaction_digest_value) (header_session_id header))
  then Err SessionMismatch else Ok tt.

Definition parse_request (input : list Z) : result Request (Fault WireError) :=
  let? header := parse_header input RequestMessage in
  if blen input <? REQUEST_FIXED_LEN then fails Truncated
  else
    let? host_commitment_value := part input HEADER_LEN (HEADER_LEN + 32) in
    let? transaction_digest_value := part input (HEADER_LEN + 32) (HEADER_LEN + 64) in
    let? transaction_len := (let? b := part input (HEADER_LEN + 64) REQUEST_FIXED_LEN in read_u32 b) in
    let? transaction := exact_tail input REQUEST_FIXED_LEN transaction_len in
    let? _ := lift (validate_request_binding header host_commitment_value transaction_digest_value transaction) in
    Ok {| rq_session_id := header_session_id header; rq_host_commitment := host_commitment_value;
          rq_transaction_digest := transaction_digest_value; rq_transaction := transaction |}.

End klepto.

(** The sub-slice of a record, then its fields. *)
Definition write_commitment_record (start : Z) (record : NonceCommitment) : Comp (list Z) (Fault WireError) unit :=
  let* _ := put start (le_bytes 4 (input_index record)) in
  let* _ := put (start + 4) [signature_slot record] in
  let* _ := put (start + 5) (public_key record) in
  put (start + 38) (nonce_point record).

(** [commitment_record_range], of which the end is implied. *)
Definition commitment_record_range (index : Z) : Z := COMMITMENT_FIXED_LEN + index * COMMITMENT_RECORD_LEN.

Definition encode_commitment (session tx_digest : list Z) (records : list NonceCommitment) : Comp (list Z) (Fault WireError) Z :=
  let* count := of_result (lift (nonzero_count (blen records))) in
  let* records_len := of_result (lift (ok_or (checked_mul (blen records) COMMITMENT_RECORD_LEN) InvalidLength)) in
  let* needed := of_result (lift (ok_or (checked_add COMMITMENT_FIXED_LEN records_len) InvalidLength)) in
  let* _ := ensure_output OutputTooSmall needed in
  let* _ := write_header CommitmentMessage session in
  let* _ := put HEADER_LEN tx_digest in
  let* _ := put (HEADER_LEN + 32) (le_bytes 4 count) in
  let* _ := for_each (imap (fun index record => (Z.of_nat index, record)) records)
    (fun '(index, record) => write_commitment_record (commitment_record_range index) record) in
  ret needed.

Definition parse_commitment (input : list Z) : result Commitment (Fault WireError) :=
  let? header := parse_header input CommitmentMessage in
  if blen input <? COMMITMENT_FIXED_LEN then fails Truncated
  else
    let? transaction_digest := part input HEADER_LEN (HEADER_LEN + 32) in
    let? count := (let? b := part input (HEADER_LEN + 32) COMMITMENT_FIXED_LEN in read_u32 b) in
    if count =? 0 then fails TooManyProofs
    else
      let? records_len := lift (ok_or (checked_mul count COMMITMENT_RECORD_LEN) InvalidLength) in
      if negb (bool_decide (checked_add COMMITMENT_FIXED_LEN records_len = Some (blen input))) then fails InvalidLength
      else
        let? record_bytes := part input COMMITMENT_FIXED_LEN (blen input) in
        Ok {| cm_session_id := header_session_id header; cm_transaction_digest := transaction_digest;
              record_bytes := record_bytes; count := count |}.

(** Within the bytes of a parsed message the slices below are in range; out of
    range, where the code panics, they are empty. *)
Definition sub (l : list Z) (i j : Z) : list Z := default [] (slice l i j).

Definition read_commitment_record (bytes : list Z) : NonceCommitment :=
  {| input_index := le_val (sub bytes 0 4); signature_slot := default 0 (get_at bytes 4);
     public_key := sub bytes 5 38; nonce_point := sub bytes 38 71 |}.

Definition len (c : Commitment) : Z := count c.
(** [Commitment::is_empty] *)
Definition is_empty (c : Commitment) : bool := false.
Definition record (c : Commitment) (index : Z) : option NonceCommitment :=
  if count c <=? index then None
  else Some (read_commitment_record (sub (record_bytes c) (index * COMMITMENT_RECORD_LEN) ((index + 1) * COMMITMENT_RECORD_LEN))).

Definition encode_reveal (session host_secret : list Z) : Comp (list Z) (Fault WireError) Z :=
  let* _ := ensure_output OutputTooSmall REVEAL_LEN in
  let* _ := write_header RevealMessage session in
  let* _ := put HEADER_LEN host_secret in
  ret REVEAL_LEN.

Definition parse_reveal (input : list Z) : result (list Z * list Z) (Fault WireError) :=
  let? header := parse_header input RevealMessage in
  if negb (blen input =? REVEAL_LEN) then fails InvalidLength
  else let? host_secret := part input HEADER_LEN REVEAL_LEN in Ok (header_session_id header, host_secret).

Definition encode_signed (session tx_digest : list Z) (proofs : list SignatureProof) (transaction : list Z)
  : Comp (list Z) (Fault WireError) Z :=
  let* count := of_result (lift (nonzero_count (blen proofs))) in
  let* _ := reject_if (u32_max <? blen transaction) (Fails InvalidLength) in
  let tx_len := blen transaction in
  let* proofs_len := of_result (lift (ok_or (checked_mul (blen proofs) SIGNATURE_PROOF_LEN) InvalidLength)) in
  let* length_offset := of_result (lift (ok_or (checked_add SIGNED_FIXED_LEN proofs_len) InvalidLength)) in
  let* tx_start := of_result (lift (ok_or (checked_add length_offset 4) InvalidLength)) in
  let* needed := of_result (lift (ok_or (checked_add tx_start (blen transaction)) InvalidLength)) in
  let* _ := ensure_output OutputTooSmall needed in
  let* _ := write_header SignedMessage session in
  let* _ := put HEADER_LEN tx_digest in
  let* _ := put (HEADER_LEN + 32) (le_bytes 4 count) in
  let* _ := for_each (imap (fun index proof => (Z.of_nat index, proof)) proofs) (fun '(index, proof) =>
    let start := SIGNED_FIXED_LEN + index * SIGNATURE_PROOF_LEN in
    let* _ := put start (le_bytes 4 (pf_input_index proof)) in
    put (start + 4) [pf_signature_slot proof]) in
  let* _ := put length_offset (le_bytes 4 tx_len) in
  let* _ := put tx_start transaction in
  ret needed.

Definition parse_signed (input : list Z) : result Signed (Fault WireError) :=
  let? header := parse_header input SignedMessage in
  if blen input <? SIGNED_FIXED_LEN then fails Truncated
  else
    let? transaction_digest := part input HEADER_LEN (HEADER_LEN + 32) in
    let? proof_count := (let? b := part input (HEADER_LEN + 32) SIGNED_FIXED_LEN in read_u32 b) in
    if proof_count =? 0 then fails TooManyProofs
    else
      let? proofs_len := lift (ok_or (checked_mul proof_count SIGNATURE_PROOF_LEN) InvalidLength) in
      let? length_offset := lift (ok_or (checked_add SIGNED_FIXED_LEN proofs_len) InvalidLength) in
      let? tx_start := lift (ok_or (checked_add length_offset 4) InvalidLength) in
      let? length_bytes := lift (ok_or (slice input length_offset tx_start) Truncated) in
      let? transaction_len := read_u32 length_bytes in
      let? transaction := exact_tail input tx_start transaction_len in
      let? proof_bytes := part input SIGNED_FIXED_LEN length_offset in
      Ok {| sd_session_id := header_session_id header; sd_transaction_digest := transaction_digest;
            proof_bytes := proof_bytes; sd_proof_count := proof_count; sd_transaction := transaction |}.

Definition proof_count (s : Signed) : Z := sd_proof_count s.
Definition proof (s : Signed) (index : Z) : option SignatureProof :=
  if sd_proof_count s <=? index then None
  else
    let offset := index * SIGNATURE_PROOF_LEN in
    let bytes := sub (proof_bytes s) offset (offset + SIGNATURE_PROOF_LEN) in
    Some {| pf_input_index := le_val (sub bytes 0 4); pf_signature_slot := default 0 (get_at bytes 4) |}.

End KleptoProtocol.

(** * What a parser and an encoder of a message promise

    What a parser and an encoder of a message promise, with the lemmas and
    tactics that read and write at fixed positions of a buffer. *)

(** ** Formats *)

(** The parser accepts exactly the texts of good messages and cannot panic. *)
Record exact_reader {R E} (parse : list Z -> result R (Fault E)) (good : R -> Prop) (bytes : R -> list Z) : Prop := {
  parse_exact : forall input r, bytes_ok input -> parse input = Ok r <-> good r /\ input = bytes r;
  parse_no_panic : forall input, bytes_ok input -> parse input <> Err Panics }.

(** The encoder writes the text of a valid message, or fails and writes nothing. *)
Record exact_writer {M E} (encode : M -> Comp (list Z) (Fault E) Z) (valid typed : M -> Prop) (bytes : M -> list Z) : Prop := {
  encode_valid : forall m out, typed m -> valid m -> blen (bytes m) <= blen out ->
    encode m out = (Ok (blen (bytes m)), bytes m ++ drop (length (bytes m)) out);
  encode_refused : forall m out, typed m -> ~ (valid m /\ blen (bytes m) <= blen out) ->
    exists e, encode m out = (Err (Fails e), out) }.

(** What a parser and an encoder of one message type promise. *)
Definition codec {R E} (parse : list Z -> result R (Fault E)) (encode : R -> Comp (list Z) (Fault E) Z)
    (valid typed : R -> Prop) (bytes : R -> list Z) : Prop :=
  exact_reader parse (fun r => typed r /\ valid r) bytes /\ exact_writer encode valid typed bytes.

Lemma codec_intro {R E} (parse : list Z -> result R (Fault E)) encode (valid typed : R -> Prop) bytes :
  (forall input r, bytes_ok input -> parse input = Ok r <-> (typed r /\ valid r) /\ input = bytes r) ->
  (forall input, bytes_ok input -> parse input <> Err Panics) ->
  (forall r out, typed r -> valid r -> blen (bytes r) <= blen out ->
    encode r out = (Ok (blen (bytes r)), bytes r ++ drop (length (bytes r)) out)) ->
  (forall r out, typed r -> ~ (valid r /\ blen (bytes r) <= blen out) -> exists e, encode r out = (Err (Fails e), out)) ->
  codec parse encode valid typed bytes.
Proof. intros. by split; split. Qed.

(** A field of zeros, which a message uses for an absent value. *)
Definition zero (field : list Z) : Prop := Forall (eq 0) field.

Lemma blank_zero n field : blen field = Z.of_nat n -> blank n field = true <-> zero field.
Proof.
  intros Hn. unfold blank, zero. rewrite list_Z_eqb_eq. split; [intros ->; by apply Forall_replicate|].
  intros Hz. apply (f_equal Z.to_nat) in Hn. unfold blen in Hn. rewrite !Nat2Z.id in Hn. subst n.
  induction Hz as [|x l <- _ IH]; [done|]. cbn [length replicate]. by f_equal.
Qed.

Lemma blank_false n field : blen field = Z.of_nat n -> blank n field = false <-> ~ zero field.
Proof. intros Hn. rewrite <- (blank_zero n) by done. destruct (blank n field); intuition congruence. Qed.

Lemma then_some_Ok {E} (b : bool) (e : E) : then_some b e = Ok tt <-> b = true.
Proof. destruct b; split; done. Qed.

Lemma lift_Ok {A E} (r : result A E) a : lift r = Ok a -> r = Ok a.
Proof. destruct r; cbn; congruence. Qed.

(** ** Reading *)

Section reading.
Context {E : Type}.
Implicit Types l p : list Z.

Lemma slice_join l i j k p p' : slice l i j = Some p -> slice l j k = Some p' -> slice l i k = Some (p ++ p').
Proof.
  intros (l1 & l3 & -> & Hi & Hj)%slice_Some (l1' & l3' & Hl' & Hi' & Hk)%slice_Some.
  rewrite app_assoc in Hl'. apply app_inj_1 in Hl' as [<- ->]; [|apply blen_length; rewrite blen_app; lia].
  rewrite blen_app in *. apply (slice_split _ l1 (p ++ p') l3'); [app_eq|lia|len].
Qed.

Lemma slice_all l p : slice l 0 (blen l) = Some p -> l = p.
Proof.
  intros (l1 & l3 & -> & Hi & Hj)%slice_Some. destruct l1; [|rewrite blen_cons in Hi; pose proof (blen_nonneg l1); lia].
  cbn [app] in *. rewrite blen_app in Hj. destruct l3; [by rewrite app_nil_r|]. rewrite blen_cons in Hj. pose proof (blen_nonneg l3). lia.
Qed.

Lemma slice_blen l i j p : slice l i j = Some p -> blen p = j - i.
Proof. intros (l1 & l3 & -> & Hi & Hj)%slice_Some. lia. Qed.

Lemma slice_bytes l i j p : bytes_ok l -> slice l i j = Some p -> bytes_of (j - i) p.
Proof.
  intros Hb Hs. split; [|by apply (slice_blen l)]. apply slice_Some in Hs as (l1 & l3 & -> & _). by apply bytes_ok_app in Hb as [_ [? _]%bytes_ok_app].
Qed.

Lemma get_slice l i x : get_at l i = Some x -> slice l i (i + 1) = Some [x].
Proof. intros (l1 & l2 & -> & Hi)%get_at_Some. apply (slice_app l1 [x] l2); [done|]. len. Qed.

Lemma begins_slice magic l : begins_with magic l = true -> slice l 0 (blen magic) = Some magic.
Proof.
  unfold begins_with. rewrite list_Z_eqb_eq. intros Ht. rewrite <- (take_drop (length magic) l), Ht. apply (slice_app [] magic); done.
Qed.

Lemma begins_app magic l : begins_with magic (magic ++ l) = true.
Proof. unfold begins_with. rewrite take_app_length. by apply list_Z_eqb_eq. Qed.

Lemma part_Ok l i j p : part (E := E) l i j = Ok p <-> slice l i j = Some p.
Proof. apply ok_or_Ok. Qed.
Lemma byte_Ok l i x : byte (E := E) l i = Ok x <-> get_at l i = Some x.
Proof. apply ok_or_Ok. Qed.

Lemma part_number l i j p : bytes_ok l -> part (E := E) l i j = Ok p -> 0 <= be_val p /\ 0 <= le_val p.
Proof. intros Hb [H _]%part_Ok%(slice_bytes l i j p Hb). split; [by apply be_val_range|by apply le_val_bound]. Qed.

(** Reading a text that is known piece by piece. *)
Lemma part_skip p l i j : blen p <= i -> i <= j -> part (E := E) (p ++ l) i j = part l (i - blen p) (j - blen p).
Proof.
  intros Hi Hj. unfold part, slice. f_equal. pose proof (blen_nonneg p). rewrite blen_app.
  destruct (Z.leb_spec 0 i), (Z.leb_spec i j), (Z.leb_spec j (blen p + blen l)), (Z.leb_spec 0 (i - blen p)), (Z.leb_spec (i - blen p) (j - blen p)),
    (Z.leb_spec (j - blen p) (blen l)); try lia; try done. cbn [andb]. rewrite drop_app_ge by (unfold blen in *; lia).
  f_equal. replace (Z.to_nat i - length p)%nat with (Z.to_nat (i - blen p)) by (unfold blen in *; lia). f_equal. lia.
Qed.

Lemma part_front p l i j : i = 0 -> j = blen p -> part (E := E) (p ++ l) i j = Ok p.
Proof. intros -> ->. apply part_Ok. by apply (slice_app [] p l). Qed.

Lemma part_end p i j : i = 0 -> j = blen p -> part (E := E) p i j = Ok p.
Proof. intros Hi Hj. rewrite <- (app_nil_r p) at 1. by apply part_front. Qed.

Lemma byte_skip p l i : blen p <= i -> byte (E := E) (p ++ l) i = byte l (i - blen p).
Proof.
  intros Hi. unfold byte, get_at. f_equal. pose proof (blen_nonneg p). destruct (Z.leb_spec 0 i), (Z.leb_spec 0 (i - blen p)); try lia.
  rewrite lookup_app_r by (unfold blen in *; lia). f_equal. unfold blen in *. lia.
Qed.

Lemma byte_front x l i : i = 0 -> byte (E := E) ([x] ++ l) i = Ok x.
Proof. by intros ->. Qed.

Lemma byte_end x i : i = 0 -> byte (E := E) [x] i = Ok x.
Proof. by intros ->. Qed.

(** No panic: a read in range succeeds. *)
Definition safe {A} (r : result A (Fault E)) : Prop := r <> Err Panics.

Lemma safe_bind {A B} (r : result A (Fault E)) (k : A -> result B (Fault E)) :
  safe r -> (forall a, r = Ok a -> safe (k a)) -> safe (rbind r k).
Proof. unfold safe. destruct r as [a|e]; cbn; intros Hr Hk; [by apply Hk|]. congruence. Qed.
Lemma safe_Ok {A} (a : A) : safe (Ok a). Proof. done. Qed.
Lemma safe_fails {A} (e : E) : safe (fails (A := A) e). Proof. done. Qed.
Lemma safe_lift {A} (r : result A E) : safe (lift r).
Proof. by destruct r. Qed.
Lemma safe_if {A} (b : bool) (r1 r2 : result A (Fault E)) :
  (b = true -> safe r1) -> (b = false -> safe r2) -> safe (if b then r1 else r2).
Proof. destruct b; auto. Qed.
Lemma safe_part l i j : 0 <= i -> i <= j -> j <= blen l -> safe (part l i j).
Proof.
  intros Hi Hj Hl. unfold safe, part, slice.
  by rewrite (proj2 (Z.leb_le _ _) Hi), (proj2 (Z.leb_le _ _) Hj), (proj2 (Z.leb_le _ _) Hl).
Qed.
Lemma safe_byte l i : 0 <= i < blen l -> safe (byte l i).
Proof. intros Hi. unfold safe, byte. by destruct (get_at_lt l i Hi) as [x ->]. Qed.
End reading.

(** ** Writing *)

(** A buffer of which the front is written. *)
Definition written (front out : list Z) : list Z := front ++ drop (length front) out.

Lemma put_written {E} i bytes front out : i = blen front -> blen front + blen bytes <= blen out ->
  put (E := E) i bytes (written front out) = (Ok tt, written (front ++ bytes) out).
Proof.
  intros -> Hfit. pose proof (blen_nonneg front). pose proof (blen_nonneg bytes). unfold put, copy_into, written.
  rewrite blen_app. assert (Hd : blen (drop (length front) out) = blen out - blen front) by (unfold blen in *; rewrite length_drop; lia).
  rewrite Hd, (proj2 (Z.leb_le _ _)), (proj2 (Z.leb_le _ _)) by lia. cbn [andb]. f_equal.
  replace (Z.to_nat (blen front)) with (length front) by (unfold blen; lia). rewrite take_app_length, <- app_assoc, length_app.
  do 2 f_equal. rewrite drop_app_ge by lia. rewrite drop_drop. f_equal. f_equal. lia.
Qed.

Lemma written_nil out : out = written [] out.
Proof. unfold written. cbn. by rewrite drop_0. Qed.

Lemma ensure_fits {E} (e : E) needed out : needed <= blen out -> ensure_output e needed out = (Ok tt, out).
Proof. intros H. unfold ensure_output. by rewrite (proj2 (Z.ltb_ge _ _)). Qed.
Lemma ensure_short {E} (e : E) needed out : blen out < needed -> ensure_output e needed out = (Err (Fails e), out).
Proof. intros H. unfold ensure_output. by rewrite (proj2 (Z.ltb_lt _ _)). Qed.
Lemma of_result_Ok {S E A} (a : A) (s : S) : of_result (E := E) (Ok a) s = (Ok a, s).
Proof. done. Qed.

Lemma enum_inv {E A} (f : Z -> result A E) input i k : (let? b := byte input i in lift (f b)) = Ok k ->
  exists b, slice input i (i + 1) = Some [b] /\ f b = Ok k.
Proof. intros (b & Hb%byte_Ok%get_slice & Hf%lift_Ok)%rbind_Ok_inv. by exists b. Qed.

Ltac compute_end H :=
  match type of H with slice _ _ (?i + 1) = _ => let v := eval vm_compute in (i + 1) in change (i + 1) with v in H end.

(** Walk the reads of a parser that succeeded, keeping each as a slice. *)
Ltac parse_inv H :=
  repeat match type of H with
  | rbind _ _ = Ok _ =>
      let x := fresh "x" in let Hx := fresh "Hx" in
      apply rbind_Ok_inv in H as (x & Hx & H);
      match type of Hx with
      | part _ _ _ = Ok _ => apply part_Ok in Hx
      | byte _ _ = Ok _ => apply byte_Ok, get_slice in Hx; compute_end Hx
      | lift _ = Ok _ => apply lift_Ok in Hx
      | rbind (byte _ _) _ = Ok _ =>
          let b := fresh "b" in let Hs := fresh "Hs" in
          apply enum_inv in Hx as (b & Hs & Hx); compute_end Hs
      | _ => idtac
      end
  | (if ?b then fails _ else _) = Ok _ => let Hb := fresh "Hb" in destruct b eqn:Hb; [discriminate H|]
  end; cbn beta zeta in *.

(** The sizes of the slices of a text of bytes. *)
Ltac slice_sizes Hb :=
  repeat match goal with
  | H : slice ?l _ _ = Some ?p |- _ =>
      lazymatch p with _ :: _ => fail | _ => idtac end;
      lazymatch goal with K : bytes_of _ p |- _ => fail | _ => idtac end;
      pose proof (slice_bytes _ _ _ _ Hb H)
  end;
  repeat match goal with
  | H : bytes_of (Zpos ?j - Zpos ?i) _ |- _ => let v := eval vm_compute in (Zpos j - Zpos i) in change (Zpos j - Zpos i) with v in H
  | H : bytes_of (Zpos ?j - 0) _ |- _ => change (Zpos j - 0) with (Zpos j) in H
  end.

(** Join the slices of a text that start at its front. *)
Ltac join_slices :=
  repeat match goal with
  | H1 : slice ?l 0 ?j = Some _, H2 : slice ?l ?j _ = Some _ |- _ =>
      pose proof (slice_join _ _ _ _ _ _ H1 H2); clear H1 H2
  end.

(** The joined slices are the text, of length [n]. *)
Ltac whole Hl :=
  join_slices; match goal with K : slice ?l 0 _ = Some _ |- _ => first [apply slice_all in K | rewrite <- Hl in K; apply slice_all in K]; rewrite K at 1 end.

(** Prove that a computation on the reads of a text cannot panic. *)
Ltac safe_tac :=
  repeat first [apply safe_Ok | apply safe_fails | apply safe_lift | (apply safe_part; lia) | (apply safe_byte; lia)
    | (apply safe_bind; [|intros ? ?]) | (apply safe_if; intros ?)]; cbn beta zeta.

(** Read a text given as its parts. *)
Ltac read_part :=
  match goal with
  | |- context [part _ _ _] =>
      first [rewrite part_front by len | rewrite part_end by len
        | (repeat (rewrite part_skip by len)); first [rewrite part_front by len | rewrite part_end by len]]
  end; cbn [rbind].
Ltac read_byte :=
  match goal with
  | |- context [byte (_ ++ _) _] => (repeat (rewrite byte_skip by len)); first [rewrite byte_front by len | rewrite byte_end by len]
  end; cbn [rbind].

(** Write the parts one after the other. *)
Ltac write_part := erewrite bind_step; [|apply put_written; len].
Ltac write_all := repeat write_part.

(** Turn a conjunction of checks into the propositions it decides. *)
Ltac fields_prop := repeat first [rewrite then_some_Ok | rewrite andb_true_iff | rewrite negb_true_iff | rewrite bool_decide_eq_true
  | rewrite bool_decide_eq_false | rewrite blank_zero by lia | rewrite blank_false by lia].

Lemma blen_empty {A} (l : list A) : (blen l =? 0) = bool_decide (l = []).
Proof. destruct l; [done|]. rewrite bool_decide_false by done. apply Z.eqb_neq. rewrite blen_cons. pose proof (blen_nonneg l). lia. Qed.

Lemma be_bytes_back n l : bytes_of (Z.of_nat n) l -> be_bytes n (be_val l) = l.
Proof.
  intros [Hb Hl]. apply be_val_inj; [apply be_bytes_ok|done|rewrite be_bytes_length; unfold blen in Hl; lia|].
  rewrite be_val_be_bytes; [done|]. pose proof (be_val_range l Hb) as Hr. rewrite Hl in Hr. exact Hr.
Qed.
