(* ===== verification/CovenantMessageProofs.v ===== *)
(** * Covenant signing messages: proofs

    Every request, reveal and response has exactly one text, the parsers accept
    nothing else and cannot panic, and the encoders write that text or leave
    the buffer alone. *)

From S2P Require Import Prelude Hd HdProofs TxModel SigningMessages.

Module CovenantFormat.
Import CovenantProtocol.

Definition request_bytes (r : CovenantSignRequest) : list Z :=
  REQUEST_MAGIC ++ [VERSION] ++ [kind_byte (kind r)] ++ [scheme_byte (scheme r)] ++ [binding_byte (binding r)] ++ session_id r
  ++ host_commitment r ++ key_id r ++ binding_token r ++ commitment r ++ be_bytes 2 (blen (script r)) ++ be_bytes 2 (blen (context r))
  ++ script r ++ context r.

Definition request_typed (r : CovenantSignRequest) : Prop :=
  bytes_of 16 (session_id r) /\ bytes_of 32 (host_commitment r) /\ bytes_of 32 (key_id r) /\ bytes_of 32 (binding_token r) /\
  bytes_of 32 (commitment r) /\ bytes_ok (script r) /\ bytes_ok (context r).

(** What each kind of request must carry and must leave out. *)
Definition request_shape (r : CovenantSignRequest) : Prop :=
  match kind r with
  | KeyInfo =>
      scheme r = NoScheme /\ binding r = NoBinding /\ zero (session_id r) /\ zero (host_commitment r) /\ zero (key_id r) /\
      zero (binding_token r) /\ zero (commitment r) /\ script r = [] /\ context r = []
  | Bind =>
      zero (session_id r) /\ zero (host_commitment r) /\ ~ zero (key_id r) /\ zero (binding_token r) /\ script r <> [] /\
      match scheme r with
      | NoScheme => binding r <> FixedCheckSigFromStack /\ zero (commitment r) /\ context r = []
      | _ => binding r = FixedCheckSigFromStack /\ context r <> []
      end
  | Known =>
      scheme r <> NoScheme /\ binding r = FixedCheckSigFromStack /\ ~ zero (session_id r) /\ ~ zero (host_commitment r) /\
      ~ zero (key_id r) /\ ~ zero (binding_token r) /\ script r <> [] /\ context r <> []
  | Opaque =>
      scheme r = NoScheme /\ binding r <> FixedCheckSigFromStack /\ ~ zero (session_id r) /\ ~ zero (host_commitment r) /\
      ~ zero (key_id r) /\ ~ zero (binding_token r) /\ script r <> [] /\ context r = []
  end.

Definition request_valid (r : CovenantSignRequest) : Prop :=
  blen (script r) <= MAX_SCRIPT_LEN /\ blen (context r) <= MAX_CONTEXT_LEN /\ request_shape r.

Lemma request_shape_spec r : request_typed r -> validate_fields r = Ok tt <-> request_shape r.
Proof.
  intros ([_ H1] & [_ H2] & [_ H3] & [_ H4] & [_ H5] & _). unfold validate_fields, request_shape, validate_key_info_fields,
    validate_bind_fields, validate_known_fields, validate_opaque_fields.
  rewrite !blen_empty. destruct (kind r); cbv zeta; destruct (scheme r), (binding r); cbn [matches_opaque_binding expected_known_binding];
    try match goal with |- context [if bool_decide ?P then _ else _] => first [rewrite (bool_decide_true P) by done|rewrite (bool_decide_false P) by done] end;
    fields_prop; intuition congruence.
Qed.
(** The bytes of the enumerations. *)
Lemma parse_kind_spec b k : parse_kind b = Ok k <-> b = kind_byte k.
Proof. unfold parse_kind. destruct (Z.eqb_spec b 0), (Z.eqb_spec b 1), (Z.eqb_spec b 2), (Z.eqb_spec b 3); destruct k; cbn; intuition congruence. Qed.
Lemma parse_scheme_spec b k : parse_scheme b = Ok k <-> b = scheme_byte k.
Proof. unfold parse_scheme. destruct (Z.eqb_spec b 0), (Z.eqb_spec b 1), (Z.eqb_spec b 2); destruct k; cbn; intuition congruence. Qed.
Lemma parse_binding_spec b k : parse_binding b = Ok k <-> b = binding_byte k.
Proof. unfold parse_binding. destruct (Z.eqb_spec b 0), (Z.eqb_spec b 1), (Z.eqb_spec b 2); destruct k; cbn; intuition congruence. Qed.
Lemma covenant_parse_response_kind_spec b k : parse_response_kind b = Ok k <-> b = response_byte k.
Proof.
  unfold parse_response_kind. destruct (Z.eqb_spec b 0), (Z.eqb_spec b 1), (Z.eqb_spec b 2), (Z.eqb_spec b 3); destruct k; cbn; intuition congruence.
Qed.

Lemma lengths_spec a b : validate_lengths a b = Ok tt <-> a <= MAX_SCRIPT_LEN /\ b <= MAX_CONTEXT_LEN.
Proof.
  unfold validate_lengths. destruct (Z.ltb_spec MAX_SCRIPT_LEN a), (Z.ltb_spec MAX_CONTEXT_LEN b); cbn; intuition (lia || congruence).
Qed.

Lemma covenant_total_len a b : 0 <= a -> 0 <= b -> a <= MAX_SCRIPT_LEN -> b <= MAX_CONTEXT_LEN -> request_total_len a b = Ok (156 + a + b).
Proof.
  intros H1 H2 H3 H4. unfold MAX_SCRIPT_LEN, MAX_CONTEXT_LEN, request_total_len, checked_add, REQUEST_HEADER_LEN in *.
  rewrite checked_u64_id by (unfold u64_ok; lia). cbn [mbind option_bind]. by rewrite checked_u64_id by (unfold u64_ok; lia).
Qed.

Lemma covenant_prefix_Ok input u : validate_request_prefix input = Ok u ->
  156 <= blen input /\ slice input 0 4 = Some REQUEST_MAGIC /\ slice input 4 5 = Some [VERSION].
Proof.
  unfold validate_request_prefix. destruct ((blen input <? REQUEST_HEADER_LEN) || _) eqn:Hb; [done|]. apply orb_false_iff in Hb as [Hl%Z.ltb_ge Hm%negb_false_iff].
  intros (v & Hv & Hrest)%rbind_Ok_inv. destruct (Z.eqb_spec v VERSION) as [->|]; [|done]. apply byte_Ok, get_slice in Hv.
  split; [done|]. split; [by apply (begins_slice REQUEST_MAGIC)|done].
Qed.

Lemma covenant_request_parsed input r : bytes_ok input -> parse_request input = Ok r -> (request_typed r /\ request_valid r) /\ input = request_bytes r.
Proof.
  intros Hb Hp. unfold parse_request in Hp. parse_inv Hp.
  apply covenant_prefix_Ok in Hx as (H156 & Hmagic & Hversion). change REQUEST_HEADER_LEN with 156 in *.
  apply parse_kind_spec in Hx0 as ->. apply parse_scheme_spec in Hx1 as ->. apply parse_binding_spec in Hx2 as ->.
  injection Hp as <-.
  destruct x10 as [], x14 as []. apply lengths_spec in Hx10 as [Hls Hlc].
  slice_sizes Hb. assert (Hn8 : 0 <= be_val x8) by (eapply be_val_range; by apply H2). assert (Hn9 : 0 <= be_val x9) by (eapply be_val_range; by apply H1).
  rewrite covenant_total_len in Hx11 by done. injection Hx11 as <-. apply negb_false_iff, Z.eqb_eq in Hb0.
  assert (Hl12 : blen x12 = be_val x8) by (destruct H0; lia). assert (Hl13 : blen x13 = be_val x9) by (destruct H; lia).
  assert (Ht : request_typed {| kind := x0; scheme := x1; binding := x2; session_id := x3; host_commitment := x4; key_id := x5;
    binding_token := x6; commitment := x7; script := x12; context := x13 |}) by (unfold request_typed; cbn; split_and!; (done || by apply H || by apply H0)).
  split; [split; [done|]|].
  - split_and!; cbn; [by rewrite Hl12|by rewrite Hl13|]. by apply request_shape_spec.
  - whole Hb0.
    unfold request_bytes. cbn [kind scheme binding session_id host_commitment key_id binding_token commitment script context].
    rewrite Hl12, Hl13, !(be_bytes_back 2) by done. app_eq.
Qed.
Lemma covenant_request_reads r : request_typed r -> request_valid r -> parse_request (request_bytes r) = Ok r.
Proof.
  intros Ht (Hls & Hlc & Hshape). pose proof Ht as ([_ H1] & [_ H2] & [_ H3] & [_ H4] & [_ H5] & _).
  pose proof (blen_nonneg (script r)). pose proof (blen_nonneg (context r)).
  assert (Hmagic : blen REQUEST_MAGIC = 4) by done. pose proof (blen_be_bytes 2 (blen (script r))). pose proof (blen_be_bytes 2 (blen (context r))).
  assert (Htotal : blen (request_bytes r) = 156 + blen (script r) + blen (context r)) by (unfold request_bytes; len).
  unfold parse_request. assert (Hpre : validate_request_prefix (request_bytes r) = Ok tt).
  { unfold validate_request_prefix. rewrite Htotal, (proj2 (Z.ltb_ge _ _)) by (unfold REQUEST_HEADER_LEN; lia).
    unfold request_bytes. rewrite begins_app. cbn [orb negb]. read_byte. done. }
  rewrite Hpre. cbn [rbind]. rewrite Htotal. unfold request_bytes. change REQUEST_HEADER_LEN with 156.
  read_byte. rewrite (proj2 (parse_kind_spec _ _) eq_refl). cbn [lift rmap_err rbind].
  read_byte. rewrite (proj2 (parse_scheme_spec _ _) eq_refl). cbn [lift rmap_err rbind].
  read_byte. rewrite (proj2 (parse_binding_spec _ _) eq_refl). cbn [lift rmap_err rbind].
  do 7 read_part. unfold MAX_SCRIPT_LEN, MAX_CONTEXT_LEN in *. rewrite !be_val_be_bytes by (change (256 ^ Z.of_nat 2) with 65536; lia).
  rewrite (proj2 (lengths_spec _ _)) by done. cbn [lift rmap_err rbind]. rewrite covenant_total_len by done. cbn [lift rmap_err rbind].
  rewrite Z.eqb_refl. cbn [negb]. do 2 read_part.
  match goal with |- context [validate_fields ?q] => replace q with r by (by destruct r) end.
  by rewrite (proj2 (request_shape_spec r Ht)).
Qed.

Lemma covenant_request_safe input : bytes_ok input -> safe (parse_request input).
Proof.
  intros Hbytes. unfold parse_request. apply safe_bind.
  - unfold validate_request_prefix. apply safe_if; intros Hb; [apply safe_fails|]. apply orb_false_iff in Hb as [Hl%Z.ltb_ge _].
    unfold REQUEST_HEADER_LEN in *. safe_tac.
  - intros u (Hl & _)%covenant_prefix_Ok. unfold REQUEST_HEADER_LEN in *. safe_tac.
    all: apply part_number in H7 as [H7 _]; [|done]; apply part_number in H8 as [H8 _]; [|done].
    all: destruct a9; apply lift_Ok, lengths_spec in H9 as [Hls Hlc]; apply lift_Ok in H10; rewrite covenant_total_len in H10 by done; injection H10 as <-.
    all: apply negb_false_iff, Z.eqb_eq in H11; apply safe_part; lia.
Qed.

Lemma request_written r out : request_typed r -> request_valid r -> blen (request_bytes r) <= blen out ->
  encode_request r out = (Ok (blen (request_bytes r)), request_bytes r ++ drop (length (request_bytes r)) out).
Proof.
  intros Ht (Hls & Hlc & Hshape) Hfit. pose proof Ht as ([_ H1] & [_ H2] & [_ H3] & [_ H4] & [_ H5] & _).
  pose proof (blen_nonneg (script r)). pose proof (blen_nonneg (context r)).
  assert (Hmagic : blen REQUEST_MAGIC = 4) by done. pose proof (blen_be_bytes 2 (blen (script r))). pose proof (blen_be_bytes 2 (blen (context r))).
  assert (Htotal : blen (request_bytes r) = 156 + blen (script r) + blen (context r)) by (unfold request_bytes; len).
  unfold encode_request. change REQUEST_HEADER_LEN with 156. rewrite (proj2 (lengths_spec _ _)), (proj2 (request_shape_spec _ Ht)), covenant_total_len by done.
  cbn [lift rmap_err]. do 3 (erewrite bind_step; [|apply of_result_Ok]). erewrite bind_step; [|apply ensure_fits; lia].
  rewrite (written_nil out) at 1. write_all. unfold ret. rewrite Htotal. f_equal. unfold written, request_bytes. app_eq.
Qed.

Lemma request_refused r out : request_typed r -> ~ (request_valid r /\ blen (request_bytes r) <= blen out) ->
  exists e, encode_request r out = (Err (Fails e), out).
Proof.
  intros Ht Hno. pose proof Ht as ([_ H1] & [_ H2] & [_ H3] & [_ H4] & [_ H5] & _).
  assert (Hmagic : blen REQUEST_MAGIC = 4) by done. pose proof (blen_be_bytes 2 (blen (script r))). pose proof (blen_be_bytes 2 (blen (context r))).
  assert (Htotal : blen (request_bytes r) = 156 + blen (script r) + blen (context r)) by (unfold request_bytes; len).
  unfold encode_request. destruct (validate_lengths _ _) as [[]|e] eqn:El; [|by exists e]. apply lengths_spec in El as [Hls Hlc].
  destruct (validate_fields r) as [[]|e] eqn:Ef; [|by exists e]. apply (request_shape_spec r Ht) in Ef. cbn [lift rmap_err].
  rewrite covenant_total_len by (done || apply blen_nonneg). do 3 (erewrite bind_step; [|apply of_result_Ok]).
  assert (Hshort : blen out < 156 + blen (script r) + blen (context r)).
  { apply Z.nle_gt. intros Hle. apply Hno. split; [done|]. lia. }
  exists OutputTooSmall. by erewrite bind_fail; [|apply ensure_short].
Qed.

Lemma covenant_request_codec : codec parse_request encode_request request_valid request_typed request_bytes.
Proof.
  apply codec_intro; [|by apply covenant_request_safe|by apply request_written|by apply request_refused].
  intros input r Hb. split; [by apply covenant_request_parsed|]. intros [[Ht Hv] ->]. by apply covenant_request_reads.
Qed.
(** ** Reveals *)

Definition reveal_bytes (r : CovenantSignReveal) : list Z :=
  REVEAL_MAGIC ++ [VERSION] ++ rv_session_id r ++ rv_key_id r ++ rv_commitment r ++ rv_host_secret r.
Definition reveal_typed (r : CovenantSignReveal) : Prop :=
  bytes_of 16 (rv_session_id r) /\ bytes_of 32 (rv_key_id r) /\ bytes_of 32 (rv_commitment r) /\ bytes_of 32 (rv_host_secret r).
Definition reveal_valid (r : CovenantSignReveal) : Prop := ~ zero (rv_session_id r) /\ ~ zero (rv_key_id r).

Lemma blank_pair a b : blen a = 16 -> blen b = 32 -> blank 16 a || blank 32 b = false <-> ~ zero a /\ ~ zero b.
Proof. intros Ha Hb. rewrite orb_false_iff, !blank_false by lia. done. Qed.

Lemma covenant_reveal_length r : reveal_typed r -> blen (reveal_bytes r) = 117.
Proof. intros ([_ H1] & [_ H2] & [_ H3] & [_ H4]). assert (blen REVEAL_MAGIC = 4) by done. unfold reveal_bytes. len. Qed.

Lemma covenant_reveal_codec : codec parse_reveal encode_reveal reveal_valid reveal_typed reveal_bytes.
Proof.
  apply codec_intro.
  - intros input r Hb. split.
    + unfold parse_reveal. intros Hp. parse_inv Hp. injection Hp as <-. apply orb_false_iff in Hb0 as [Hl%negb_false_iff%Z.eqb_eq Hm%negb_false_iff%begins_slice].
      change (blen REVEAL_MAGIC) with 4 in Hm. apply negb_false_iff, Z.eqb_eq in Hb1. subst x. slice_sizes Hb. unfold REVEAL_LEN in *.
      split; [split; [unfold reveal_typed; by split_and!|]|].
      * by apply blank_pair in Hb2; [|apply H2|apply H1].
      * whole Hl. unfold reveal_bytes. app_eq.
    + intros [[Ht Hv] ->]. pose proof (covenant_reveal_length r Ht) as Hl. destruct Ht as ([_ H1] & [_ H2] & [_ H3] & [_ H4]).
      assert (Hm : blen REVEAL_MAGIC = 4) by done. unfold parse_reveal, REVEAL_LEN. rewrite Hl, Z.eqb_refl. cbn [negb orb].
      unfold reveal_bytes. rewrite begins_app. cbn [negb]. read_byte. rewrite Z.eqb_refl. cbn [negb]. do 4 read_part.
      rewrite (proj2 (blank_pair _ _ H1 H2) Hv). by destruct r.
  - intros input _. unfold parse_reveal. apply safe_if; intros Hc; [apply safe_fails|]. apply orb_false_iff in Hc as [Hl%negb_false_iff%Z.eqb_eq _]. unfold REVEAL_LEN in Hl. safe_tac.
  - intros r out Ht Hv Hfit. rewrite covenant_reveal_length in Hfit by done. rewrite covenant_reveal_length by done. destruct Ht as ([_ H1] & [_ H2] & [_ H3] & [_ H4]).
    assert (Hm : blen REVEAL_MAGIC = 4) by done. unfold encode_reveal, REVEAL_LEN. erewrite bind_step; [|apply ensure_fits; lia].
    unfold reject_if. rewrite (proj2 (blank_pair _ _ H1 H2) Hv). erewrite bind_step; [|reflexivity].
    rewrite (written_nil out) at 1. write_all. unfold ret, written, reveal_bytes. f_equal. app_eq.
  - intros r out Ht Hno. rewrite covenant_reveal_length in Hno by done. destruct Ht as ([_ H1] & [_ H2] & [_ H3] & [_ H4]).
    unfold encode_reveal, REVEAL_LEN. destruct (Z.lt_ge_cases (blen out) 117) as [Hshort|Hfit].
    { exists OutputTooSmall. by erewrite bind_fail; [|apply ensure_short]. }
    erewrite bind_step; [|by apply ensure_fits]. exists InvalidFields. erewrite bind_fail; [done|]. unfold reject_if.
    destruct (blank 16 _ || blank 32 _) eqn:Eb; [done|]. apply blank_pair in Eb; [|done..]. by destruct Hno.
Qed.
(** ** Responses *)

Definition response_bytes (r : CovenantSignResponse) : list Z :=
  RESPONSE_MAGIC ++ [VERSION] ++ [response_byte (rs_kind r)] ++ rs_session_id r ++ rs_key_id r ++ rs_pubkey_x r
  ++ rs_binding_token r ++ rs_commitment r ++ rs_nonce_point r ++ rs_signature r.
Definition response_typed (r : CovenantSignResponse) : Prop :=
  bytes_of 16 (rs_session_id r) /\ bytes_of 32 (rs_key_id r) /\ bytes_of 32 (rs_pubkey_x r) /\ bytes_of 32 (rs_binding_token r) /\
  bytes_of 32 (rs_commitment r) /\ bytes_of 33 (rs_nonce_point r) /\ bytes_of 64 (rs_signature r).
Definition response_valid (r : CovenantSignResponse) : Prop :=
  ~ zero (rs_key_id r) /\ ~ zero (rs_pubkey_x r) /\
  match rs_kind r with
  | KeyInfoResponse =>
      zero (rs_session_id r) /\ zero (rs_binding_token r) /\ zero (rs_commitment r) /\ zero (rs_nonce_point r) /\ zero (rs_signature r)
  | Binding =>
      zero (rs_session_id r) /\ ~ zero (rs_binding_token r) /\ ~ zero (rs_commitment r) /\ zero (rs_nonce_point r) /\ zero (rs_signature r)
  | NonceCommitment =>
      ~ zero (rs_session_id r) /\ ~ zero (rs_binding_token r) /\ get_at (rs_nonce_point r) 0 = Some 2 /\ zero (rs_signature r)
  | Signature =>
      ~ zero (rs_session_id r) /\ ~ zero (rs_binding_token r) /\ get_at (rs_nonce_point r) 0 = Some 2 /\ ~ zero (rs_signature r)
  end.

Lemma covenant_response_valid_spec r : response_typed r -> validate_response r = Ok tt <-> response_valid r.
Proof.
  intros ([_ H1] & [_ H2] & [_ H3] & [_ H4] & [_ H5] & [_ H6] & [_ H7]). unfold validate_response, response_valid.
  pose proof (blank_zero 32 _ H2) as B2. pose proof (blank_zero 32 _ H3) as B3.
  destruct (blank 32 (rs_key_id r)), (blank 32 (rs_pubkey_x r)); cbn [orb]; [intuition congruence..|].
  unfold response_shape_valid, key_info_response_valid, binding_response_valid, nonce_response_valid, signature_response_valid.
  destruct (rs_kind r); fields_prop; intuition congruence.
Qed.

Lemma covenant_response_length r : response_typed r -> blen (response_bytes r) = 247.
Proof.
  intros ([_ H1] & [_ H2] & [_ H3] & [_ H4] & [_ H5] & [_ H6] & [_ H7]). assert (blen RESPONSE_MAGIC = 4) by done. unfold response_bytes. len.
Qed.

Lemma covenant_response_parsed input r : bytes_ok input -> parse_response input = Ok r -> (response_typed r /\ response_valid r) /\ input = response_bytes r.
Proof.
  intros Hb Hp. unfold parse_response in Hp. parse_inv Hp. injection Hp as <-.
  apply orb_false_iff in Hb0 as [Hl%negb_false_iff%Z.eqb_eq Hm%negb_false_iff%begins_slice].
  change (blen RESPONSE_MAGIC) with 4 in Hm. apply negb_false_iff, Z.eqb_eq in Hb1. subst x. apply covenant_parse_response_kind_spec in Hx0 as ->.
  slice_sizes Hb. unfold RESPONSE_LEN in *. destruct x8. split.
  - assert (Ht : response_typed {| rs_kind := x0; rs_session_id := x3; rs_key_id := x4; rs_pubkey_x := x5; rs_binding_token := x6;
      rs_commitment := x7; rs_nonce_point := x1; rs_signature := x2 |}) by (unfold response_typed; by split_and!).
    split; [done|]. by apply covenant_response_valid_spec.
  - whole Hl. unfold response_bytes. app_eq.
Qed.

Lemma covenant_response_codec : codec parse_response encode_response response_valid response_typed response_bytes.
Proof.
  apply codec_intro.
  - intros input r Hb. split; [by apply covenant_response_parsed|]. intros [[Ht Hv] ->]. pose proof (covenant_response_length r Ht) as Hl.
    pose proof Ht as ([_ H1] & [_ H2] & [_ H3] & [_ H4] & [_ H5] & [_ H6] & [_ H7]).
    assert (Hm : blen RESPONSE_MAGIC = 4) by done. unfold parse_response, RESPONSE_LEN. rewrite Hl, Z.eqb_refl. cbn [negb orb].
    unfold response_bytes. rewrite begins_app. cbn [negb]. read_byte. rewrite Z.eqb_refl. cbn [negb]. read_byte.
    rewrite (proj2 (covenant_parse_response_kind_spec _ _) eq_refl). cbn [lift rmap_err rbind]. do 7 read_part.
    match goal with |- context [validate_response ?q] => replace q with r by (by destruct r) end.
    by rewrite (proj2 (covenant_response_valid_spec r Ht)).
  - intros input _. unfold parse_response. apply safe_if; intros Hc; [apply safe_fails|].
    apply orb_false_iff in Hc as [Hl%negb_false_iff%Z.eqb_eq _]. unfold RESPONSE_LEN in Hl. safe_tac.
  - intros r out Ht Hv Hfit. rewrite covenant_response_length in Hfit by done. rewrite covenant_response_length by done.
    pose proof Ht as ([_ H1] & [_ H2] & [_ H3] & [_ H4] & [_ H5] & [_ H6] & [_ H7]).
    assert (Hm : blen RESPONSE_MAGIC = 4) by done. unfold encode_response, RESPONSE_LEN. rewrite (proj2 (covenant_response_valid_spec r Ht)) by done.
    cbn [lift rmap_err]. erewrite bind_step; [|apply of_result_Ok]. erewrite bind_step; [|apply ensure_fits; lia].
    rewrite (written_nil out) at 1. write_all. unfold ret, written, response_bytes. f_equal. app_eq.
  - intros r out Ht Hno. rewrite covenant_response_length in Hno by done. unfold encode_response, RESPONSE_LEN.
    destruct (validate_response r) as [[]|e] eqn:Ev; [|by exists e]. apply covenant_response_valid_spec in Ev; [|done].
    cbn [lift rmap_err]. erewrite bind_step; [|apply of_result_Ok]. exists OutputTooSmall. erewrite bind_fail; [done|]. apply ensure_short. 
    apply Z.nle_gt. intros Hle. by apply Hno.
Qed.

Lemma covenant_codecs :
  codec parse_request encode_request request_valid request_typed request_bytes /\
  codec parse_reveal encode_reveal reveal_valid reveal_typed reveal_bytes /\
  codec parse_response encode_response response_valid response_typed response_bytes.
Proof. exact (conj covenant_request_codec (conj covenant_reveal_codec covenant_response_codec)). Qed.

End CovenantFormat.
