(* ===== verification/SwapMessageProofs.v ===== *)
(** * Private swap messages: proofs

    The texts of requests, reveals and responses, what a pre-signature's
    session binds, and the claims a signer agrees to. *)

From S2P Require Import Prelude Hd HdProofs Script TxModel Covenants ContractProofs Sighash KsptCodec KsptCodecProofs SigProofs SigningMessages CovenantMessageProofs.

Module SwapFormat.
Import SwapProtocol.

Section swap.
Context (sha256 : list Z -> list Z).
Local Notation parse_request := (parse_request sha256).
Local Notation encode_request := (encode_request sha256).

Lemma parse_request_kind_spec b k : parse_request_kind b = Ok k <-> b = kind_byte k.
Proof.
  unfold parse_request_kind. destruct (Z.eqb_spec b 0), (Z.eqb_spec b 1), (Z.eqb_spec b 2), (Z.eqb_spec b 3); destruct k; cbn; intuition congruence.
Qed.
Lemma swap_parse_response_kind_spec b k : parse_response_kind b = Ok k <-> b = response_byte k.
Proof.
  unfold parse_response_kind.
  destruct (Z.eqb_spec b 0), (Z.eqb_spec b 1), (Z.eqb_spec b 2), (Z.eqb_spec b 3), (Z.eqb_spec b 4); destruct k; cbn; intuition congruence.
Qed.
Lemma parse_bool_spec b k : parse_bool b = Ok k <-> b = bool_byte k.
Proof. unfold parse_bool. destruct (Z.eqb_spec b 0), (Z.eqb_spec b 1); destruct k; cbn; intuition congruence. Qed.

(** ** Requests *)

Definition request_bytes (r : PrivateSwapRequest) : list Z :=
  REQUEST_MAGIC ++ [VERSION] ++ [kind_byte (kind r)] ++ session_id r ++ host_commitment r ++ key_id r ++ binding_token r
  ++ adaptor_point r ++ presignature r ++ [bool_byte (presignature_negated r)] ++ be_bytes 4 (blen (request_payload r)) ++ [0; 0]
  ++ request_payload r.

Definition request_typed (r : PrivateSwapRequest) : Prop :=
  bytes_of 16 (session_id r) /\ bytes_of 32 (host_commitment r) /\ bytes_of 32 (key_id r) /\ bytes_of 32 (binding_token r) /\
  bytes_of 32 (adaptor_point r) /\ bytes_of 64 (presignature r) /\ bytes_ok (request_payload r).

Definition request_shape (r : PrivateSwapRequest) : Prop :=
  match kind r with
  | KeyInfo =>
      zero (session_id r) /\ zero (host_commitment r) /\ zero (key_id r) /\ zero (binding_token r) /\ zero (adaptor_point r) /\
      zero (presignature r) /\ presignature_negated r = false /\ request_payload r = []
  | Bind =>
      zero (session_id r) /\ zero (host_commitment r) /\ ~ zero (key_id r) /\ zero (binding_token r) /\ ~ zero (adaptor_point r) /\
      zero (presignature r) /\ presignature_negated r = false /\ request_payload r <> []
  | PreSign =>
      ~ zero (host_commitment r) /\ ~ zero (key_id r) /\ ~ zero (binding_token r) /\ ~ zero (adaptor_point r) /\
      zero (presignature r) /\ presignature_negated r = false /\ request_payload r <> [] /\
      session_id r = session_id_of sha256 (host_commitment r) (request_payload r) (key_id r) (adaptor_point r)
  | Complete =>
      zero (session_id r) /\ zero (host_commitment r) /\ ~ zero (key_id r) /\ ~ zero (binding_token r) /\ ~ zero (adaptor_point r) /\
      ~ zero (presignature r) /\ request_payload r <> []
  end.
Definition request_valid (r : PrivateSwapRequest) : Prop := blen (request_payload r) <= MAX_PAYLOAD_LEN /\ request_shape r.

Lemma request_valid_spec r : request_typed r -> validate_request sha256 r = Ok tt <-> request_valid r.
Proof.
  intros ([_ H1] & [_ H2] & [_ H3] & [_ H4] & [_ H5] & [_ H6] & _). unfold validate_request, request_valid.
  destruct (Z.ltb_spec MAX_PAYLOAD_LEN (blen (request_payload r))) as [Hl|Hl]; [split; [done|lia]|].
  unfold request_shape, validate_key_info_request, validate_bind_request, validate_presign_request, validate_complete_request.
  destruct (kind r); cbv zeta; fields_prop; [intuition|intuition| |intuition].
  match goal with |- context [if negb ?b then _ else _] => destruct b eqn:Eb end; cbn [negb].
  - revert Eb. fields_prop. rewrite list_Z_eqb_eq. intuition.
  - split; [done|]. intros (_ & Hs). exfalso. apply (not_true_iff_false) in Eb. apply Eb. fields_prop. intuition.
Qed.

Lemma swap_prefix_Ok input u : validate_request_prefix input = Ok u ->
  221 <= blen input /\ slice input 0 4 = Some REQUEST_MAGIC /\ slice input 4 5 = Some [VERSION] /\ slice input 219 221 = Some [0; 0].
Proof.
  unfold validate_request_prefix. intros Hp. parse_inv Hp. apply orb_false_iff in Hb as [Hl%Z.ltb_ge Hm%negb_false_iff%begins_slice].
  apply orb_false_iff in Hb1 as [Hr0%negb_false_iff%Z.eqb_eq Hr1%negb_false_iff%Z.eqb_eq].
  apply negb_false_iff, Z.eqb_eq in Hb0. subst. split; [done|]. split; [done|]. split; [done|]. by apply (slice_join _ _ 220 _ [0] [0]).
Qed.

Lemma payload_length_spec input u : bytes_ok input -> validate_request_payload_length input = Ok u ->
  exists l, slice input 215 219 = Some l /\ be_val l <= MAX_PAYLOAD_LEN /\ blen input = 221 + be_val l.
Proof.
  intros Hb. unfold validate_request_payload_length. intros Hp. parse_inv Hp. apply orb_false_iff in Hb0 as [Hl%Z.ltb_ge Hm%negb_false_iff].
  apply bool_decide_eq_true in Hm. exists x. split; [done|]. split; [done|]. unfold checked_add in Hm. apply checked_u64_Some in Hm as [-> _]. done.
Qed.

Lemma swap_request_parsed input r : bytes_ok input -> parse_request input = Ok r -> (request_typed r /\ request_valid r) /\ input = request_bytes r.
Proof.
  intros Hb Hp. unfold SwapProtocol.parse_request in Hp. parse_inv Hp. injection Hp as <-.
  apply swap_prefix_Ok in Hx as (Hl & Hmagic & Hversion & Hreserved). apply payload_length_spec in Hx1 as (l & Hlen & Hmax & Htotal); [|done].
  apply parse_request_kind_spec in Hx0 as ->. apply parse_bool_spec in Hx8 as ->. change REQUEST_HEADER_LEN with 221 in *.
  slice_sizes Hb. destruct x10. assert (Hl9 : blen x9 = be_val l) by (destruct H; lia). split.
  - match goal with |- request_typed ?q /\ _ => assert (Ht : request_typed q) by (unfold request_typed; split_and!; (done || apply H)) end.
    split; [done|]. by apply request_valid_spec.
  - whole Hl. unfold request_bytes. cbn [kind session_id host_commitment key_id binding_token adaptor_point presignature presignature_negated request_payload].
    rewrite Hl9, (be_bytes_back 4) by done. app_eq.
Qed.

Lemma swap_request_length r : request_typed r -> blen (request_bytes r) = 221 + blen (request_payload r).
Proof.
  intros ([_ H1] & [_ H2] & [_ H3] & [_ H4] & [_ H5] & [_ H6] & _). assert (blen REQUEST_MAGIC = 4) by done.
  pose proof (blen_be_bytes 4 (blen (request_payload r))). unfold request_bytes. len.
Qed.

Lemma swap_total_len r : blen (request_payload r) <= MAX_PAYLOAD_LEN -> checked_add 221 (blen (request_payload r)) = Some (221 + blen (request_payload r)).
Proof.
  intros Hp. pose proof (blen_nonneg (request_payload r)). unfold MAX_PAYLOAD_LEN in Hp. apply checked_u64_id. unfold u64_ok. lia.
Qed.

Lemma swap_request_reads r : request_typed r -> request_valid r -> parse_request (request_bytes r) = Ok r.
Proof.
  intros Ht Hv. pose proof (swap_request_length r Ht) as Hl. pose proof Ht as ([_ H1] & [_ H2] & [_ H3] & [_ H4] & [_ H5] & [_ H6] & _).
  pose proof (blen_nonneg (request_payload r)). assert (Hmagic : blen REQUEST_MAGIC = 4) by done.
  pose proof (blen_be_bytes 4 (blen (request_payload r))). pose proof Hv as [Hmax _].
  unfold SwapProtocol.parse_request. assert (Hpre : validate_request_prefix (request_bytes r) = Ok tt).
  { unfold validate_request_prefix. rewrite Hl, (proj2 (Z.ltb_ge _ _)) by (unfold REQUEST_HEADER_LEN; lia).
    unfold request_bytes. rewrite begins_app. cbn [orb negb]. read_byte. rewrite Z.eqb_refl. cbn [negb].
    change ([0; 0] ++ request_payload r) with ([0] ++ [0] ++ request_payload r). do 2 read_byte. done. }
  rewrite Hpre. cbn [rbind]. assert (Hlen : validate_request_payload_length (request_bytes r) = Ok tt).
  { unfold validate_request_payload_length. rewrite Hl. unfold request_bytes. read_part. unfold MAX_PAYLOAD_LEN in *.
    rewrite be_val_be_bytes by (change (256 ^ Z.of_nat 4) with 4294967296; lia). rewrite (proj2 (Z.ltb_ge _ _)) by lia.
    change REQUEST_HEADER_LEN with 221. rewrite swap_total_len by done. by rewrite bool_decide_true. }
  rewrite Hlen, Hl. unfold request_bytes. change REQUEST_HEADER_LEN with 221.
  read_byte. rewrite (proj2 (parse_request_kind_spec _ _) eq_refl). cbn [lift rmap_err rbind].
  read_part. read_part. do 4 read_part. read_byte. rewrite (proj2 (parse_bool_spec _ _) eq_refl). cbn [lift rmap_err rbind]. read_part.
  match goal with |- context [validate_request sha256 ?q] => replace q with r by (by destruct r) end.
  by rewrite (proj2 (request_valid_spec r Ht)).
Qed.

Lemma swap_request_safe input : bytes_ok input -> safe (parse_request input).
Proof.
  intros Hb. unfold SwapProtocol.parse_request. apply safe_bind.
  - unfold validate_request_prefix. apply safe_if; intros Hc; [apply safe_fails|]. apply orb_false_iff in Hc as [Hl%Z.ltb_ge _].
    unfold REQUEST_HEADER_LEN in *. safe_tac.
  - intros u (Hl & _)%swap_prefix_Ok. unfold REQUEST_HEADER_LEN. unfold validate_request_payload_length. safe_tac.
Qed.

Lemma swap_request_codec : codec parse_request encode_request request_valid request_typed request_bytes.
Proof.
  apply codec_intro; [| |intros r out Ht Hv Hfit|intros r out Ht Hno].
  - intros input r Hb. split; [by apply swap_request_parsed|]. intros [[Ht Hv] ->]. by apply swap_request_reads.
  - exact swap_request_safe.
  - rewrite swap_request_length in Hfit by done. rewrite swap_request_length by done.
    pose proof Ht as ([_ H1] & [_ H2] & [_ H3] & [_ H4] & [_ H5] & [_ H6] & _). pose proof (blen_nonneg (request_payload r)).
    assert (Hmagic : blen REQUEST_MAGIC = 4) by done. pose proof (blen_be_bytes 4 (blen (request_payload r))). pose proof Hv as [Hmax _].
    unfold SwapProtocol.encode_request. change REQUEST_HEADER_LEN with 221. rewrite (proj2 (request_valid_spec r Ht)), swap_total_len by done.
    cbn [lift rmap_err ok_or]. do 2 (erewrite bind_step; [|apply of_result_Ok]). erewrite bind_step; [|apply ensure_fits; lia].
    rewrite (written_nil out) at 1. write_all. unfold ret, written, request_bytes. f_equal. app_eq.
  - rewrite swap_request_length in Hno by done. unfold SwapProtocol.encode_request. change REQUEST_HEADER_LEN with 221.
    destruct (validate_request sha256 r) as [[]|e] eqn:Ev; [|by exists e]. apply request_valid_spec in Ev; [|done].
    rewrite swap_total_len by apply Ev. cbn [lift rmap_err ok_or]. do 2 (erewrite bind_step; [|apply of_result_Ok]).
    exists OutputTooSmall. erewrite bind_fail; [done|]. apply ensure_short. apply Z.nle_gt. intros Hle. by apply Hno.
Qed.

(** ** Reveals *)

Definition reveal_bytes (r : PrivateSwapReveal) : list Z :=
  REVEAL_MAGIC ++ [VERSION] ++ rv_session_id r ++ rv_key_id r ++ rv_sighash r ++ rv_host_secret r.
Definition reveal_typed (r : PrivateSwapReveal) : Prop :=
  bytes_of 16 (rv_session_id r) /\ bytes_of 32 (rv_key_id r) /\ bytes_of 32 (rv_sighash r) /\ bytes_of 32 (rv_host_secret r).
Definition reveal_valid (r : PrivateSwapReveal) : Prop :=
  ~ zero (rv_session_id r) /\ ~ zero (rv_key_id r) /\ ~ zero (rv_sighash r) /\ ~ zero (rv_host_secret r).

Lemma reveal_valid_spec r : reveal_typed r -> reveal_blank r = false <-> reveal_valid r.
Proof.
  intros ([_ H1] & [_ H2] & [_ H3] & [_ H4]). unfold reveal_blank, reveal_valid. rewrite !orb_false_iff, !blank_false by lia. intuition.
Qed.

Lemma swap_reveal_length r : reveal_typed r -> blen (reveal_bytes r) = 117.
Proof. intros ([_ H1] & [_ H2] & [_ H3] & [_ H4]). assert (blen REVEAL_MAGIC = 4) by done. unfold reveal_bytes. len. Qed.

Lemma reveal_parsed input r : bytes_ok input -> parse_reveal input = Ok r -> (reveal_typed r /\ reveal_valid r) /\ input = reveal_bytes r.
Proof.
  unfold parse_reveal. intros Hb Hp. parse_inv Hp. injection Hp as <-.
  apply orb_false_iff in Hb0 as [Hl%negb_false_iff%Z.eqb_eq Hm%negb_false_iff%begins_slice].
  change (blen REVEAL_MAGIC) with 4 in Hm. apply negb_false_iff, Z.eqb_eq in Hb1. subst x. slice_sizes Hb. unfold REVEAL_LEN in *. split.
  - match goal with |- reveal_typed ?q /\ _ => assert (Ht : reveal_typed q) by (unfold reveal_typed; by split_and!) end.
    split; [done|]. by apply reveal_valid_spec.
  - whole Hl. unfold reveal_bytes. app_eq.
Qed.

Lemma swap_reveal_codec : codec parse_reveal encode_reveal reveal_valid reveal_typed reveal_bytes.
Proof.
  apply codec_intro.
  - intros input r Hb. split; [by apply reveal_parsed|]. intros [[Ht Hv] ->]. pose proof (swap_reveal_length r Ht) as Hl.
    pose proof Ht as ([_ H1] & [_ H2] & [_ H3] & [_ H4]).
    assert (Hm : blen REVEAL_MAGIC = 4) by done. unfold parse_reveal, REVEAL_LEN. rewrite Hl, Z.eqb_refl. cbn [negb orb].
    unfold reveal_bytes. rewrite begins_app. cbn [negb]. read_byte. rewrite Z.eqb_refl. cbn [negb]. do 4 read_part. cbv zeta.
    match goal with |- context [reveal_blank ?q] => replace q with r by (by destruct r) end. by rewrite (proj2 (reveal_valid_spec r Ht)).
  - intros input _. unfold parse_reveal. apply safe_if; intros Hc; [apply safe_fails|].
    apply orb_false_iff in Hc as [Hl%negb_false_iff%Z.eqb_eq _]. unfold REVEAL_LEN in Hl. safe_tac.
  - intros r out Ht Hv Hfit. rewrite swap_reveal_length in Hfit by done. rewrite swap_reveal_length by done. pose proof Ht as ([_ H1] & [_ H2] & [_ H3] & [_ H4]).
    assert (Hm : blen REVEAL_MAGIC = 4) by done. unfold encode_reveal, REVEAL_LEN. erewrite bind_step; [|apply ensure_fits; lia].
    unfold reject_if. rewrite (proj2 (reveal_valid_spec r Ht) Hv). erewrite bind_step; [|reflexivity].
    rewrite (written_nil out) at 1. write_all. unfold ret, written, reveal_bytes. f_equal. app_eq.
  - intros r out Ht Hno. rewrite swap_reveal_length in Hno by done.
    unfold encode_reveal, REVEAL_LEN. destruct (Z.lt_ge_cases (blen out) 117) as [Hshort|Hfit].
    { exists OutputTooSmall. by erewrite bind_fail; [|apply ensure_short]. }
    erewrite bind_step; [|by apply ensure_fits]. exists InvalidFields. erewrite bind_fail; [done|]. unfold reject_if.
    destruct (reveal_blank r) eqn:Eb; [done|]. apply reveal_valid_spec in Eb; [|done]. by destruct Hno.
Qed.

(** ** Responses *)

Definition response_bytes (r : PrivateSwapResponse) : list Z :=
  RESPONSE_MAGIC ++ [VERSION] ++ [response_byte (rs_kind r)] ++ rs_session_id r ++ rs_key_id r ++ rs_claim_pubkey r
  ++ rs_binding_token r ++ rs_adaptor_point r ++ rs_commitment r ++ rs_nonce_point r ++ rs_signature r ++ [bool_byte (rs_negated r)].
Definition response_typed (r : PrivateSwapResponse) : Prop :=
  bytes_of 16 (rs_session_id r) /\ bytes_of 32 (rs_key_id r) /\ bytes_of 32 (rs_claim_pubkey r) /\ bytes_of 32 (rs_binding_token r) /\
  bytes_of 32 (rs_adaptor_point r) /\ bytes_of 32 (rs_commitment r) /\ bytes_of 33 (rs_nonce_point r) /\ bytes_of 64 (rs_signature r).

(** Every response names its key and its adaptor point; the stage decides the
    rest. *)
Definition response_valid (r : PrivateSwapResponse) : Prop :=
  ~ zero (rs_key_id r) /\ ~ zero (rs_claim_pubkey r) /\ ~ zero (rs_adaptor_point r) /\
  match rs_kind r with
  | KeyInfoResponse =>
      zero (rs_session_id r) /\ zero (rs_binding_token r) /\ zero (rs_commitment r) /\ zero (rs_nonce_point r) /\
      zero (rs_signature r) /\ rs_negated r = false
  | Binding =>
      zero (rs_session_id r) /\ ~ zero (rs_binding_token r) /\ ~ zero (rs_commitment r) /\ zero (rs_nonce_point r) /\
      zero (rs_signature r) /\ rs_negated r = false
  | Nonce =>
      ~ zero (rs_session_id r) /\ ~ zero (rs_binding_token r) /\ ~ zero (rs_commitment r) /\ ~ zero (rs_nonce_point r) /\
      zero (rs_signature r) /\ rs_negated r = false
  | PreSignature =>
      ~ zero (rs_session_id r) /\ ~ zero (rs_binding_token r) /\ ~ zero (rs_commitment r) /\ ~ zero (rs_nonce_point r) /\
      ~ zero (rs_signature r)
  | Completed =>
      zero (rs_session_id r) /\ ~ zero (rs_binding_token r) /\ ~ zero (rs_commitment r) /\ zero (rs_nonce_point r) /\
      ~ zero (rs_signature r) /\ rs_negated r = false
  end.

Lemma then_some_bind {E} (b : bool) (e : E) (k : result unit E) : rbind (then_some b e) (fun _ => k) = Ok tt <-> b = true /\ k = Ok tt.
Proof. destruct b; cbn; intuition congruence. Qed.

Lemma swap_response_valid_spec r : response_typed r -> validate_response r = Ok tt <-> response_valid r.
Proof.
  intros ([_ H1] & [_ H2] & [_ H3] & [_ H4] & [_ H5] & [_ H6] & [_ H7] & [_ H8]).
  unfold validate_response, validate_response_identity, response_valid, validate_key_info_response, validate_binding_response,
    validate_nonce_response, validate_presignature_response, validate_completed_response.
  rewrite then_some_bind. destruct (rs_kind r); fields_prop; intuition.
Qed.

Lemma swap_response_length r : response_typed r -> blen (response_bytes r) = 280.
Proof.
  intros ([_ H1] & [_ H2] & [_ H3] & [_ H4] & [_ H5] & [_ H6] & [_ H7] & [_ H8]). assert (blen RESPONSE_MAGIC = 4) by done. unfold response_bytes. len.
Qed.

Lemma swap_response_parsed input r : bytes_ok input -> parse_response input = Ok r -> (response_typed r /\ response_valid r) /\ input = response_bytes r.
Proof.
  intros Hb Hp. unfold parse_response in Hp. parse_inv Hp. injection Hp as <-.
  apply orb_false_iff in Hb0 as [Hl%negb_false_iff%Z.eqb_eq Hm%negb_false_iff%begins_slice].
  change (blen RESPONSE_MAGIC) with 4 in Hm. apply negb_false_iff, Z.eqb_eq in Hb1. subst x.
  repeat match goal with K : parse_response_kind _ = Ok _ |- _ => apply swap_parse_response_kind_spec in K; subst
    | K : parse_bool _ = Ok _ |- _ => apply parse_bool_spec in K; subst end.
  slice_sizes Hb. unfold RESPONSE_LEN in *. match goal with K : validate_response _ = Ok ?u |- _ => destruct u end. split.
  - match goal with |- response_typed ?q /\ _ => assert (Ht : response_typed q) by (unfold response_typed; by split_and!) end.
    split; [done|]. by apply swap_response_valid_spec.
  - whole Hl. unfold response_bytes. app_eq.
Qed.

Lemma swap_response_codec : codec parse_response encode_response response_valid response_typed response_bytes.
Proof.
  apply codec_intro.
  - intros input r Hb. split; [by apply swap_response_parsed|]. intros [[Ht Hv] ->]. pose proof (swap_response_length r Ht) as Hl.
    pose proof Ht as ([_ H1] & [_ H2] & [_ H3] & [_ H4] & [_ H5] & [_ H6] & [_ H7] & [_ H8]).
    assert (Hm : blen RESPONSE_MAGIC = 4) by done. unfold parse_response, RESPONSE_LEN. rewrite Hl, Z.eqb_refl. cbn [negb orb].
    unfold response_bytes. rewrite begins_app. cbn [negb]. read_byte. rewrite Z.eqb_refl. cbn [negb]. read_byte.
    rewrite (proj2 (swap_parse_response_kind_spec _ _) eq_refl). cbn [lift rmap_err rbind]. do 8 read_part.
    read_byte. rewrite (proj2 (parse_bool_spec _ _) eq_refl). cbn [lift rmap_err rbind].
    match goal with |- context [validate_response ?q] => replace q with r by (by destruct r) end.
    by rewrite (proj2 (swap_response_valid_spec r Ht)).
  - intros input _. unfold parse_response. apply safe_if; intros Hc; [apply safe_fails|].
    apply orb_false_iff in Hc as [Hl%negb_false_iff%Z.eqb_eq _]. unfold RESPONSE_LEN in Hl. safe_tac.
  - intros r out Ht Hv Hfit. rewrite swap_response_length in Hfit by done. rewrite swap_response_length by done.
    pose proof Ht as ([_ H1] & [_ H2] & [_ H3] & [_ H4] & [_ H5] & [_ H6] & [_ H7] & [_ H8]).
    assert (Hm : blen RESPONSE_MAGIC = 4) by done. unfold encode_response, RESPONSE_LEN. rewrite (proj2 (swap_response_valid_spec r Ht)) by done.
    cbn [lift rmap_err]. erewrite bind_step; [|apply of_result_Ok]. erewrite bind_step; [|apply ensure_fits; lia].
    rewrite (written_nil out) at 1. write_all. unfold ret, written, response_bytes. f_equal. app_eq.
  - intros r out Ht Hno. rewrite swap_response_length in Hno by done. unfold encode_response, RESPONSE_LEN.
    destruct (validate_response r) as [[]|e] eqn:Ev; [|by exists e]. apply swap_response_valid_spec in Ev; [|done].
    cbn [lift rmap_err]. erewrite bind_step; [|apply of_result_Ok]. exists OutputTooSmall. erewrite bind_fail; [done|]. apply ensure_short.
    apply Z.nle_gt. intros Hle. by apply Hno.
Qed.

Lemma swap_codecs :
  codec parse_request encode_request request_valid request_typed request_bytes /\
  codec parse_reveal encode_reveal reveal_valid reveal_typed reveal_bytes /\
  codec parse_response encode_response response_valid response_typed response_bytes.
Proof. exact (conj swap_request_codec (conj swap_reveal_codec swap_response_codec)). Qed.
End swap.

(** ** The claim of a swap *)

Section claim.
Context (keyed : list Z -> list Z -> list Z).

Definition policy_of (f : PrivateSwap.PrivateSwapFields) : PrivateSwapScript := {|
  salt := PrivateSwap.salt f; claimer_pubkey := PrivateSwap.claimer_pubkey f; owner_pubkey := PrivateSwap.owner_pubkey f;
  destination_spk := [0; 0] ++ PrivateSwap.claimer_output_spk f; refund_locktime_daa := PrivateSwap.refund_locktime_daa f |}.

(** An unsigned transaction that moves the swap of [f] to its destination. *)
Definition claims (tx : Transaction) (f : PrivateSwap.PrivateSwapFields) : Prop :=
  num_inputs tx = 1 /\ num_outputs tx = 1 /\ payload tx = [] /\
  sig_count (input_at tx 0) = 0 /\ incoming_partial_sigs_count (input_at tx 0) = 0 /\
  (sighash_type (input_at tx 0) = 0 \/ sighash_type (input_at tx 0) = SigHashType.to_byte SigHashType.All) /\
  well_formed f /\ build f = Some (TxModel.redeem_bytes tx 0) /\
  spk_version (out_script_public_key (output_at tx 0)) = 0 /\
  script_bytes (out_script_public_key (output_at tx 0)) = PrivateSwap.claimer_output_spk f /\
  0 <= amount (utxo_entry (input_at tx 0)) - value (output_at tx 0) <= PrivateSwap.PRIVATE_SWAP_MAX_FEE_SOMPI.

Lemma swap_redeem_typed tx i : typed_tx tx -> bytes_ok (TxModel.redeem_bytes tx i) /\ blen (TxModel.redeem_bytes tx i) <= REDEEM_POOL_SIZE.
Proof.
  intros (_ & Hin & _ & _ & _ & _ & _ & _ & _ & _ & [Hpool Hpl] & _). unfold TxModel.redeem_bytes.
  assert (Hi : typed_tx_input (default empty_input (get_at (tx_inputs tx) i))) by (by apply get_default_typed, typed_empty_input).
  destruct Hi as (_ & _ & _ & _ & _ & _ & _ & [Hr Hrl] & _). destruct (_ =? 0); [by split|]. destruct (redeem_in_pool _).
  - split; [by apply slice_typed|]. rewrite <- Hpl. apply slice_default_len.
  - split; [by apply slice_typed|]. etransitivity; [apply slice_default_len|]. rewrite Hrl. done.
Qed.

Lemma recognized tx f : typed_tx tx ->
  PrivateSwap.private_swap_script_fields (TxModel.redeem_bytes tx 0) = Some f <-> well_formed f /\ build f = Some (TxModel.redeem_bytes tx 0).
Proof.
  intros Htx. destruct (swap_redeem_typed tx 0 Htx) as [Hb Hl]. assert (Hmax : blen (TxModel.redeem_bytes tx 0) <= usize_max).
  { etransitivity; [exact Hl|]. by unfold REDEEM_POOL_SIZE, usize_max, u64_max. }
  change (recognize (TxModel.redeem_bytes tx 0) = Some f <-> well_formed f /\ build f = Some (TxModel.redeem_bytes tx 0)).
  split; [by apply recognize_inv|]. intros [Hw Hbuild]. by apply recognize_build.
Qed.

(** The shape, the policy and the output, one check at a time. *)
Lemma shape_spec tx ty : validate_claim_transaction_shape tx = Ok ty <->
  ty = SigHashType.All /\ num_inputs tx = 1 /\ num_outputs tx = 1 /\ payload tx = [] /\ sig_count (input_at tx 0) = 0 /\
  incoming_partial_sigs_count (input_at tx 0) = 0 /\
  (sighash_type (input_at tx 0) = 0 \/ sighash_type (input_at tx 0) = SigHashType.to_byte SigHashType.All).
Proof.
  unfold validate_claim_transaction_shape. cbv zeta.
  destruct (Z.eqb_spec (num_inputs tx) 1), (Z.eqb_spec (num_outputs tx) 1); cbn [negb orb]; [|by split; [|intuition congruence]..].
  destruct (bool_decide_reflect (payload tx = [])); cbn [negb]; [|by split; [|intuition congruence]].
  destruct (Z.eqb_spec (sig_count (input_at tx 0)) 0), (Z.eqb_spec (incoming_partial_sigs_count (input_at tx 0)) 0); cbn [negb orb];
    [|by split; [|intuition congruence]..].
  assert (Htype : (let? ty := if sighash_type (input_at tx 0) =? 0 then Ok SigHashType.All
                   else ok_or (SigHashType.from_byte (sighash_type (input_at tx 0))) InvalidSighash in
      if bool_decide (ty = SigHashType.All) then Ok ty else Err InvalidSighash) = Ok ty <->
    ty = SigHashType.All /\ (sighash_type (input_at tx 0) = 0 \/ sighash_type (input_at tx 0) = SigHashType.to_byte SigHashType.All)).
  { destruct (Z.eqb_spec (sighash_type (input_at tx 0)) 0) as [->|Hne]; cbn [rbind]; [rewrite bool_decide_true by done; intuition congruence|].
    destruct (SigHashType.from_byte _) as [t|] eqn:Ef; cbn [ok_or rbind].
    - assert (Ht : sighash_type (input_at tx 0) = SigHashType.to_byte t).
      { unfold SigHashType.from_byte in Ef. repeat case_match; try done; injection Ef as <-; by apply Z.eqb_eq. }
      case_bool_decide as Hall; [subst; intuition congruence|]. split; [done|]. intros (_ & [?|Heq]); [done|]. rewrite Ht in Heq.
      destruct t; done.
    - split; [done|]. intros (_ & [?|Heq]); [done|]. by rewrite Heq in Ef. }
  rewrite Htype. intuition.
Qed.

Lemma output_spec tx policy f : typed_tx tx -> well_formed f -> destination_spk policy = [0; 0] ++ PrivateSwap.claimer_output_spk f ->
  build f <> None ->
  validate_claim_output tx policy = Ok tt <->
  spk_version (out_script_public_key (output_at tx 0)) = 0 /\
  script_bytes (out_script_public_key (output_at tx 0)) = PrivateSwap.claimer_output_spk f /\
  0 <= amount (utxo_entry (input_at tx 0)) - value (output_at tx 0) <= PrivateSwap.PRIVATE_SWAP_MAX_FEE_SOMPI.
Proof.
  intros Htx Hwf Hdest Hbuild. unfold validate_claim_output. rewrite Hdest. cbv zeta. set (spk := out_script_public_key (output_at tx 0)).
  assert (Hout : typed_tx_output (output_at tx 0)).
  { apply (get_default_typed typed_tx_output); [|apply typed_empty_output]. by destruct Htx as (_ & _ & _ & [? _] & _). }
  assert (Hin : typed_tx_input (input_at tx 0)).
  { apply (get_default_typed typed_tx_input); [|apply typed_empty_input]. by destruct Htx as (_ & ? & _). }
  destruct Hin as (_ & _ & _ & (Hamount & _) & _). destruct Hout as (Hvalue & (Hver & [_ Hsl] & Hlen) & _). fold spk in Hver, Hsl, Hlen.
  assert (Hnonempty : PrivateSwap.claimer_output_spk f <> []).
  { intros Hn. apply Hbuild. cbn [build private_swap_template]. unfold PrivateSwap.build_private_swap_script. rewrite Hn.
    destruct (_ =? 0); [done|]. by destruct (forallb _ _). }
  assert (Heq : le_bytes 2 (spk_version spk) ++ script_bytes spk = [0; 0] ++ PrivateSwap.claimer_output_spk f <->
    spk_version spk = 0 /\ script_bytes spk = PrivateSwap.claimer_output_spk f).
  { split; [|intros [-> ->]; done]. change [0; 0] with (le_bytes 2 0). intros [Hv Hs]%le_bytes_app_inj; [done|unfold u16_ok in *; cbn; lia..]. }
  destruct (list_Z_eqb (le_bytes 2 (spk_version spk) ++ script_bytes spk) _) eqn:E.
  - apply list_Z_eqb_eq, Heq in E as [Ev Es]. assert (Hfit : spk_script_len spk <= MAX_SCRIPT_SIZE).
    { rewrite <- Hsl. unfold script_bytes in Es. destruct (slice _ 0 _) as [b|] eqn:Esl; [|by cbn in Es; rewrite <- Es in Hnonempty].
      apply slice_Some in Esl as (l1 & l3 & -> & Hl1 & ->). rewrite !blen_app. pose proof (blen_nonneg l3). lia. }
    unfold checked_add. rewrite checked_u64_id by (unfold u64_ok, MAX_SCRIPT_SIZE in *; lia). cbn [ok_or rbind negb].
    unfold checked_sub. destruct (checked_u64 _) as [fee|] eqn:Ef.
    + apply checked_u64_Some in Ef as [-> Hr]. cbn [ok_or rbind]. unfold u64_ok in Hr.
      destruct (Z.ltb_spec PrivateSwap.PRIVATE_SWAP_MAX_FEE_SOMPI (amount (utxo_entry (input_at tx 0)) - value (output_at tx 0))); intuition (lia || congruence).
    + apply checked_u64_None in Ef. cbn [ok_or rbind]. split; [done|]. intros (_ & _ & Hf). exfalso. apply Ef. unfold u64_ok in *. lia.
  - cbn [negb]. split.
    + destruct (ok_or _ _); done.
    + intros (Hv & Hs & _). by rewrite (proj2 (list_Z_eqb_eq _ _) (proj2 Heq (conj Hv Hs))) in E.
Qed.

(** C16: a signer gives out a claim's signature hash exactly for an unsigned
    transaction with one input and one output whose redeem script is a
    canonical swap for this claimer, whose output pays the destination of the
    script with at most the permitted fee taken from the swap, and the hash
    commits to all of it. *)
Theorem swap_claim_iff tx claimer hash policy : typed_tx tx ->
  private_swap_claim_sighash keyed tx claimer = Ok (hash, policy) <->
  hash = calculate_sighash keyed tx 0 SigHashType.All /\
  exists f, policy = policy_of f /\ PrivateSwap.claimer_pubkey f = claimer /\ claims tx f.
Proof.
  intros Htx. unfold private_swap_claim_sighash. split.
  - intros (ty & Hshape & (p & Hp & ([] & Hout & [= <- <-])%rbind_Ok_inv)%rbind_Ok_inv)%rbind_Ok_inv.
    apply shape_spec in Hshape as (-> & H1 & H2 & H3 & H4 & H5 & H6).
    unfold validate_claim_policy in Hp. cbv zeta in Hp. case_bool_decide; [done|]. apply rbind_Ok_inv in Hp as (q & Hq & Hp).
    apply rbind_Ok_inv in Hq as (f & Hf%ok_or_Ok & [= <-]). destruct (list_Z_eqb _ claimer) eqn:Ec; [|done]. injection Hp as <-.
    apply list_Z_eqb_eq in Ec. apply (recognized tx f Htx) in Hf as [Hwf Hbuild]. split; [done|]. exists f. split; [done|]. split; [done|].
    apply (output_spec tx _ f) in Hout as (Hv & Hs & Hfee); [|done..|by rewrite Hbuild]. unfold claims. tauto.
  - intros (-> & f & -> & <- & (H1 & H2 & H3 & H4 & H5 & H6 & Hwf & Hbuild & Hv & Hs & Hfee)).
    rewrite (proj2 (shape_spec tx SigHashType.All)) by done. cbn [rbind]. unfold validate_claim_policy. cbv zeta.
    pose proof (proj2 (recognized tx f Htx) (conj Hwf Hbuild)) as Hf. rewrite bool_decide_false by (intros Hn; by rewrite Hn in Hf).
    unfold parse_private_swap_script. rewrite Hf. cbn [ok_or rbind claimer_pubkey]. rewrite (proj2 (list_Z_eqb_eq _ _) eq_refl). cbn [negb rbind].
    match goal with |- context [validate_claim_output tx ?p] => rewrite (proj2 (output_spec tx p f Htx Hwf eq_refl ltac:(by rewrite Hbuild))) by done end. done.
Qed.
End claim.

Definition demo_swap : PrivateSwap.PrivateSwapFields := {|
  PrivateSwap.owner_pubkey := replicate 32 1; PrivateSwap.claimer_pubkey := replicate 32 2;
  PrivateSwap.claimer_output_spk := Standard.p2pk_script (replicate 32 3); PrivateSwap.refund_locktime_daa := 900;
  PrivateSwap.salt := replicate 16 4 |}.
Definition demo_redeem : list Z := default [] (build demo_swap).
Definition demo_claim : Transaction := {|
  tx_version := 0;
  tx_inputs := [{|
    previous_outpoint := previous_outpoint empty_input; sequence := 0; sig_op_count := 1;
    utxo_entry := {| amount := 1000000000; script_public_key := new_spk; block_daa_score := 0 |};
    sigs := sigs empty_input; sig_count := 0; sighash_type := 0; redeem_script := pad MAX_SCRIPT_SIZE demo_redeem;
    redeem_script_len := blen demo_redeem; redeem_in_pool := false; redeem_script_offset := 0;
    incoming_partial_sigs := incoming_partial_sigs empty_input; incoming_partial_sigs_count := 0;
    has_derivation_hint := false; derivation_branch := 0; derivation_index := 0; ms45_hint := no_hint;
    covenant_execution_present := false; covenant_execution_mask := 0; covenant_execution_true_mask := 0 |}];
  num_inputs := 1;
  tx_outputs :=
    {| value := 900000000; out_script_public_key := spk_of (Standard.p2pk_script (replicate 32 3)); has_covenant := false;
       covenant_auth_input := 0; covenant_id := zeros 32; out_derivation_branch := 0; out_derivation_index := 0;
       out_has_derivation_hint := false; out_ms45_hint := no_hint |} :: replicate 7 empty_output;
  num_outputs := 1; tx_network := tx_network new_tx; locktime := 0; subnetwork_id := SUBNETWORK_ID_NATIVE; gas := 0; payload := [];
  stealth_tweak := zeros 32; has_stealth_tweak := false; redeem_pool := zeros REDEEM_POOL_SIZE; redeem_pool_used := 0;
  limits := FORMAT |}.

Lemma demo_claim_typed : typed_tx demo_claim.
Proof. by_decide. Qed.

Lemma swap_claim_iff_witness :
  private_swap_claim_sighash (fun _ => toy_hash) demo_claim (replicate 32 2) =
    Ok (calculate_sighash (fun _ => toy_hash) demo_claim 0 SigHashType.All, policy_of demo_swap).
Proof.
  apply (swap_claim_iff (fun _ => toy_hash) demo_claim (replicate 32 2) _ _ demo_claim_typed). split; [reflexivity|].
  exists demo_swap. split; [reflexivity|]. split; [reflexivity|]. unfold claims.
  split; [reflexivity|]. split; [reflexivity|]. split; [reflexivity|]. split; [reflexivity|]. split; [reflexivity|]. split; [by left|].
  split; [repeat split; by_decide|]. split; [vm_compute; reflexivity|]. split; [reflexivity|]. split; [vm_compute; reflexivity|].
  vm_compute. split; discriminate.
Defined.
End SwapFormat.

(** C15: every request, reveal and response of covenant signing and of a private
    swap has exactly one text: the parsers accept exactly the texts of
    well-formed messages and return the message, they cannot panic, and an
    encoder writes the text of a well-formed message at the front of a buffer
    that holds it; otherwise it reports an error and leaves the buffer as it
    was. A well-formed request for a pre-signature carries the session of its
    own transaction, key and adaptor point. *)
Theorem signing_messages_exact sha256 :
  (codec CovenantProtocol.parse_request CovenantProtocol.encode_request CovenantFormat.request_valid CovenantFormat.request_typed
     CovenantFormat.request_bytes /\
   codec CovenantProtocol.parse_reveal CovenantProtocol.encode_reveal CovenantFormat.reveal_valid CovenantFormat.reveal_typed
     CovenantFormat.reveal_bytes /\
   codec CovenantProtocol.parse_response CovenantProtocol.encode_response CovenantFormat.response_valid CovenantFormat.response_typed
     CovenantFormat.response_bytes) /\
  (codec (SwapProtocol.parse_request sha256) (SwapProtocol.encode_request sha256) (SwapFormat.request_valid sha256)
     SwapFormat.request_typed SwapFormat.request_bytes /\
   codec SwapProtocol.parse_reveal SwapProtocol.encode_reveal SwapFormat.reveal_valid SwapFormat.reveal_typed SwapFormat.reveal_bytes /\
   codec SwapProtocol.parse_response SwapProtocol.encode_response SwapFormat.response_valid SwapFormat.response_typed
     SwapFormat.response_bytes).
Proof. exact (conj CovenantFormat.covenant_codecs (SwapFormat.swap_codecs sha256)). Qed.
