(* ===== verification/KleptoMessageProofs.v ===== *)
(** * Host-assisted signing messages: proofs

    The texts of requests, commitments, reveals and signed transactions, their
    records, and what a session binds. *)

From S2P Require Import Prelude Bytes Hd HdProofs TxModel SigningMessages.

Module KleptoFormat.
Import KleptoProtocol.

(** ** Headers *)

Definition header_bytes (kind : MessageKind) (session : list Z) : list Z := MAGIC ++ [VERSION] ++ [kind_byte kind] ++ session.

Lemma from_byte_spec b k : from_byte b = Ok k <-> b = kind_byte k.
Proof. unfold from_byte. destruct (Z.eqb_spec b 1), (Z.eqb_spec b 2), (Z.eqb_spec b 3), (Z.eqb_spec b 4); destruct k; cbn; intuition congruence. Qed.

Lemma header_length kind session : blen session = 16 -> blen (header_bytes kind session) = 22.
Proof. intros H. assert (blen MAGIC = 4) by done. unfold header_bytes. len. Qed.

Lemma header_parsed input kind h : bytes_ok input -> parse_header input kind = Ok h ->
  bytes_of 16 (header_session_id h) /\ 22 <= blen input /\ slice input 0 22 = Some (header_bytes kind (header_session_id h)).
Proof.
  intros Hb Hp. unfold parse_header in Hp. parse_inv Hp. injection Hp as <-. apply Z.ltb_ge in Hb0.
  apply negb_false_iff, list_Z_eqb_eq in Hb1. apply negb_false_iff, Z.eqb_eq in Hb2. apply negb_false_iff, bool_decide_eq_true in Hb3. subst.
  repeat match goal with K : from_byte _ = Ok _ |- _ => apply from_byte_spec in K; subst end.
  change HEADER_LEN with 22 in *. slice_sizes Hb. cbn [header_session_id]. split; [done|]. split; [done|]. join_slices. unfold header_bytes.
  match goal with K : slice input 0 22 = Some _ |- _ => rewrite K; done end.
Qed.

Lemma header_reads kind session rest : blen session = 16 ->
  parse_header (header_bytes kind session ++ rest) kind = Ok {| version := VERSION; header_kind := kind; header_session_id := session |}.
Proof.
  intros Hs. pose proof (header_length kind session Hs) as Hl. pose proof (blen_nonneg rest). assert (Hm : blen MAGIC = 4) by done.
  unfold parse_header. change HEADER_LEN with 22. rewrite blen_app, Hl, (proj2 (Z.ltb_ge _ _)) by lia. unfold header_bytes. rewrite <- !app_assoc.
  read_part. rewrite (proj2 (list_Z_eqb_eq _ _) eq_refl). cbn [negb]. read_byte. rewrite Z.eqb_refl. cbn [negb]. read_byte.
  rewrite (proj2 (from_byte_spec _ _) eq_refl). cbn [lift rmap_err rbind]. rewrite bool_decide_true by done. cbn [negb]. by read_part.
Qed.

Lemma header_safe input kind : safe (parse_header input kind).
Proof.
  unfold parse_header. apply safe_if; intros Hl; [apply safe_fails|]. apply Z.ltb_ge in Hl. change HEADER_LEN with 22 in *. safe_tac.
Qed.

Lemma write_header_written kind session out : blen session = 16 -> 22 <= blen out ->
  write_header kind session (written [] out) = (Ok tt, written (header_bytes kind session) out).
Proof.
  intros Hs Hfit. assert (Hm : blen MAGIC = 4) by done. unfold write_header. change HEADER_LEN with 22.
  erewrite bind_step; [|apply ensure_fits; by rewrite <- written_nil]. write_all. rewrite put_written by len. do 2 f_equal.
Qed.

Lemma read_u32_spec l : blen l = 4 -> read_u32 l = Ok (le_val l).
Proof. intros Hl. unfold read_u32. rewrite Hl. change (4 <? 4) with false. by rewrite part_end by lia. Qed.

Lemma exact_tail_Ok input start n l : exact_tail input start n = Ok l -> start + n = blen input /\ slice input start (blen input) = Some l.
Proof.
  unfold exact_tail. destruct (checked_add start n) as [e|] eqn:Ee; [|done]. apply checked_u64_Some in Ee as [-> _].
  destruct (Z.eqb_spec (start + n) (blen input)) as [<-|]; [|done]. by intros Hp%part_Ok.
Qed.

Lemma exact_tail_safe input start n : 0 <= start -> 0 <= n -> safe (exact_tail input start n).
Proof.
  intros Hs Hn. unfold exact_tail. destruct (checked_add start n) as [e|] eqn:Ee; [|apply safe_fails]. apply checked_u64_Some in Ee as [-> _].
  apply safe_if; intros Hb; [|apply safe_fails]. apply Z.eqb_eq in Hb. apply safe_part; lia.
Qed.

Lemma exact_tail_reads front tail start n : start = blen front -> n = blen tail -> u64_ok (start + n) ->
  exact_tail (front ++ tail) start n = Ok tail.
Proof.
  intros -> -> H. unfold exact_tail, checked_add. rewrite checked_u64_id by done. rewrite <- blen_app, Z.eqb_refl.
  apply part_Ok, (slice_split _ front tail []); [by rewrite app_nil_r|done|by rewrite blen_app].
Qed.

Lemma le_bytes_back n l : bytes_of (Z.of_nat n) l -> le_bytes n (le_val l) = l.
Proof. intros [Hb Hl]. apply le_bytes_le_val; [done|]. unfold blen in Hl. lia. Qed.

(** The constants of the layouts. *)
Ltac layout :=
  change (HEADER_LEN + 32) with 54 in *; change (HEADER_LEN + 64) with 86 in *; change REQUEST_FIXED_LEN with 90 in *;
  change COMMITMENT_FIXED_LEN with 58 in *; change SIGNED_FIXED_LEN with 58 in *; change REVEAL_LEN with 54 in *; change HEADER_LEN with 22 in *;
  change COMMITMENT_RECORD_LEN with 71 in *; change SIGNATURE_PROOF_LEN with 5 in *.

Lemma number_field input i j n : bytes_ok input -> j = i + 4 -> (let? b := part input i j in read_u32 b) = Ok n ->
  exists l, slice input i j = Some l /\ bytes_of 4 l /\ n = le_val l /\ 0 <= n <= u32_max.
Proof.
  intros Hb -> (l & Hl%part_Ok & Hn)%rbind_Ok_inv. pose proof (slice_bytes _ _ _ _ Hb Hl) as Hs. replace (i + 4 - i) with 4 in Hs by lia.
  rewrite read_u32_spec in Hn by apply Hs. injection Hn as <-. exists l. split; [done|]. split; [done|]. split; [done|].
  destruct Hs as [Hok Hlen]. pose proof (le_val_bound l Hok) as Hr. rewrite Hlen in Hr. change (256 ^ 4) with 4294967296 in Hr. unfold u32_max. lia.
Qed.

Lemma number_safe input i j : 0 <= i -> j = i + 4 -> j <= blen input -> safe (let? b := part input i j in read_u32 b).
Proof.
  intros Hi -> Hl. apply safe_bind; [apply safe_part; lia|]. intros l Hs%part_Ok%slice_blen. rewrite read_u32_spec by lia. done.
Qed.

Lemma le_val_u32 n : 0 <= n <= u32_max -> le_val (le_bytes 4 n) = n.
Proof. intros H. apply le_val_le_bytes. change (256 ^ Z.of_nat 4) with 4294967296. unfold u32_max in H. lia. Qed.

(** ** Requests *)

Section session.
Context (sha256 : list Z -> list Z).

Definition request_bytes (r : Request) : list Z :=
  header_bytes RequestMessage (rq_session_id r) ++ rq_host_commitment r ++ rq_transaction_digest r ++ le_bytes 4 (blen (rq_transaction r)) ++ rq_transaction r.

(** The digest and the session are those of the transaction and the
    commitment; nothing else about a request is free. *)
Definition request_good (r : Request) : Prop :=
  bytes_of 16 (rq_session_id r) /\ bytes_of 32 (rq_host_commitment r) /\ bytes_of 32 (rq_transaction_digest r) /\
  bytes_ok (rq_transaction r) /\ blen (rq_transaction r) <= u32_max /\
  rq_transaction_digest r = transaction_digest sha256 (rq_transaction r) /\
  rq_session_id r = session_id sha256 (rq_host_commitment r) (rq_transaction_digest r).

Lemma binding_spec h c d t : validate_request_binding sha256 h c d t = Ok tt <->
  d = transaction_digest sha256 t /\ header_session_id h = session_id sha256 c d.
Proof.
  unfold validate_request_binding. destruct (list_Z_eqb (transaction_digest _ _) d) eqn:E1; cbn [negb].
  - apply list_Z_eqb_eq in E1. destruct (list_Z_eqb (session_id _ _ _) _) eqn:E2; cbn [negb].
    + apply list_Z_eqb_eq in E2. split; [by intros _|done].
    + split; [done|]. intros (_ & Hs). by rewrite (proj2 (list_Z_eqb_eq _ _) (eq_sym Hs)) in E2.
  - split; [done|]. intros (Hd & _). by rewrite (proj2 (list_Z_eqb_eq _ _) (eq_sym Hd)) in E1.
Qed.

Lemma klepto_request_parsed input r : bytes_ok input -> parse_request sha256 input = Ok r -> request_good r /\ input = request_bytes r.
Proof.
  intros Hb Hp. unfold parse_request in Hp. parse_inv Hp. injection Hp as <-. apply header_parsed in Hx as (Hs & Hl & Hh); [|done]. layout.
  destruct x4. apply binding_spec in Hx4 as [Hd Hsession]. apply number_field in Hx2 as (l & Hl2 & Hl4 & -> & Hr); [|done..].
  apply exact_tail_Ok in Hx3 as [Htotal Ht]. slice_sizes Hb. assert (Hlen : blen x3 = le_val l) by (destruct H; lia). split.
  - unfold request_good. cbn. split_and!; first [done | lia | apply H | apply Hs | apply H0 | apply H1].
  - whole Htotal. unfold request_bytes. cbn [rq_session_id rq_host_commitment rq_transaction_digest rq_transaction].
    rewrite Hlen, (le_bytes_back 4) by done. app_eq.
Qed.

Lemma klepto_request_length r : request_good r -> blen (request_bytes r) = 90 + blen (rq_transaction r).
Proof.
  intros ([_ H1] & [_ H2] & [_ H3] & _). pose proof (header_length RequestMessage _ H1). pose proof (blen_le_bytes 4 (blen (rq_transaction r))).
  unfold request_bytes. len.
Qed.

Lemma klepto_request_reads r : request_good r -> parse_request sha256 (request_bytes r) = Ok r.
Proof.
  intros Hg. pose proof (klepto_request_length r Hg) as Hl. pose proof Hg as ([_ H1] & [_ H2] & [_ H3] & _ & Hmax & Hd & Hs).
  pose proof (header_length RequestMessage _ H1). pose proof (blen_le_bytes 4 (blen (rq_transaction r))). pose proof (blen_nonneg (rq_transaction r)).
  unfold parse_request. rewrite Hl. unfold request_bytes at 1. rewrite header_reads by done. cbn [rbind header_session_id]. layout.
  rewrite (proj2 (Z.ltb_ge _ _)) by lia. unfold request_bytes. do 3 read_part. rewrite read_u32_spec by done. cbn [rbind].
  rewrite le_val_u32 by lia. rewrite !app_assoc, exact_tail_reads by (len || (unfold u64_ok, u32_max in *; lia)). cbn [rbind].
  rewrite (proj2 (binding_spec _ _ _ _)) by done. cbn [lift rmap_err rbind]. by destruct r.
Qed.

Lemma request_reader : exact_reader (parse_request sha256) request_good request_bytes.
Proof.
  split.
  - intros input r Hb. split; [by apply klepto_request_parsed|]. intros [Hg ->]. by apply klepto_request_reads.
  - intros input Hb. apply safe_bind; [apply header_safe|]. intros h _. apply safe_if; intros Hl; [apply safe_fails|]. apply Z.ltb_ge in Hl. layout.
    apply safe_bind; [apply safe_part; lia|intros c _]. apply safe_bind; [apply safe_part; lia|intros d _].
    apply safe_bind; [apply number_safe; lia|]. intros n (l & _ & _ & _ & Hn)%number_field; [|done|done].
    apply safe_bind; [apply exact_tail_safe; lia|intros t _]. safe_tac.
Qed.

(** The request a host writes for its secret. *)
Definition request_of (m : list Z * list Z) : Request :=
  let hc := host_commitment sha256 m.1 in
  let digest := transaction_digest sha256 m.2 in
  {| rq_session_id := session_id sha256 hc digest; rq_host_commitment := hc; rq_transaction_digest := digest; rq_transaction := m.2 |}.

Lemma session_size c d : (forall m, bytes_of 32 (sha256 m)) -> bytes_of 16 (session_id sha256 c d).
Proof.
  intros Hsha. unfold session_id, domain_hash. destruct (Hsha (SESSION_DOMAIN ++ concat [c; d])) as [Hb Hl]. split; [by apply Forall_take|].
  unfold blen in *. rewrite length_take. lia.
Qed.

Lemma request_writer : (forall m, bytes_of 32 (sha256 m)) ->
  exact_writer (fun m => encode_request sha256 m.1 m.2) (fun m => blen m.2 <= u32_max) (fun m => bytes_ok m.2)
    (fun m => request_bytes (request_of m)).
Proof.
  intros Hsha. assert (Hgood : forall m, bytes_ok m.2 -> blen m.2 <= u32_max -> request_good (request_of m)).
  { intros [secret tx] Ht Hmax. unfold request_good, request_of. cbn [fst snd rq_session_id rq_host_commitment rq_transaction_digest rq_transaction] in *.
    split; [by apply session_size|]. repeat (split; [first [apply Hsha | done]|]). done. }
  split.
  - intros [secret tx] out Ht Hmax Hfit. cbn [fst snd] in *. pose proof (Hgood (secret, tx) Ht Hmax) as Hg.
    rewrite klepto_request_length in Hfit by done. rewrite klepto_request_length by done. pose proof Hg as ([_ H1] & [_ H2] & [_ H3] & _).
    pose proof (blen_nonneg tx). unfold encode_request. unfold request_of in *. cbn [fst snd rq_session_id rq_host_commitment rq_transaction_digest rq_transaction] in *.
    unfold reject_if. rewrite (proj2 (Z.ltb_ge _ _)) by lia. layout. erewrite bind_step; [|reflexivity].
    unfold checked_add. rewrite checked_u64_id by (unfold u64_ok, u32_max in *; lia). cbn [ok_or lift rmap_err].
    erewrite bind_step; [|apply of_result_Ok]. erewrite bind_step; [|apply ensure_fits; lia].
    rewrite (written_nil out) at 1. erewrite bind_step; [|apply write_header_written; [done|lia]].
    pose proof (header_length RequestMessage _ H1). pose proof (blen_le_bytes 4 (blen tx)). write_all.
    unfold ret, written, request_bytes. cbn [rq_session_id rq_host_commitment rq_transaction_digest rq_transaction]. f_equal. app_eq.
  - intros [secret tx] out Ht Hno. cbn [fst snd] in *. unfold encode_request.
    destruct (Z.ltb_spec u32_max (blen tx)) as [Hbig|Hmax]; [by exists InvalidLength|].
    pose proof (Hgood (secret, tx) Ht Hmax) as Hg. rewrite klepto_request_length in Hno by done. cbn [request_of rq_transaction snd] in Hno. pose proof (blen_nonneg tx).
    erewrite bind_step; [|reflexivity]. layout. unfold checked_add. rewrite checked_u64_id by (unfold u64_ok, u32_max in *; lia). cbn [ok_or lift rmap_err].
    erewrite bind_step; [|apply of_result_Ok]. exists OutputTooSmall. erewrite bind_fail; [done|]. apply ensure_short.
    apply Z.nle_gt. intros Hle. by apply Hno.
Qed.
End session.

(** ** Commitments *)

Definition record_text (r : NonceCommitment) : list Z := le_bytes 4 (input_index r) ++ [signature_slot r] ++ public_key r ++ nonce_point r.
Definition record_typed (r : NonceCommitment) : Prop :=
  u32_ok (input_index r) /\ byte_ok (signature_slot r) /\ bytes_of 33 (public_key r) /\ bytes_of 33 (nonce_point r).

Definition commitment_bytes (c : Commitment) : list Z :=
  header_bytes CommitmentMessage (cm_session_id c) ++ cm_transaction_digest c ++ le_bytes 4 (count c) ++ record_bytes c.
Definition commitment_good (c : Commitment) : Prop :=
  bytes_of 16 (cm_session_id c) /\ bytes_of 32 (cm_transaction_digest c) /\ bytes_of (71 * count c) (record_bytes c) /\ 0 < count c <= u32_max.

(** The commitment of a session with these records. *)
Definition commitment_of (m : list Z * list Z * list NonceCommitment) : Commitment :=
  let '(session, digest, records) := m in
  {| cm_session_id := session; cm_transaction_digest := digest; record_bytes := concat (map record_text records); count := blen records |}.

Lemma commitment_parsed input c : bytes_ok input -> parse_commitment input = Ok c -> commitment_good c /\ input = commitment_bytes c.
Proof.
  intros Hb Hp. unfold parse_commitment in Hp. parse_inv Hp. injection Hp as <-. apply header_parsed in Hx as (Hs & Hl & Hh); [|done]. layout.
  apply number_field in Hx1 as (l & Hl2 & Hl4 & -> & Hr); [|done..]. apply Z.eqb_neq in Hb1. apply ok_or_Ok, checked_u64_Some in Hx2 as [-> _].
  apply negb_false_iff, bool_decide_eq_true, checked_u64_Some in Hb2 as [Htotal _]. slice_sizes Hb. split.
  - unfold commitment_good. cbn. split; [done|]. split; [done|]. split; [|lia]. destruct H. split; [done|lia].
  - whole Htotal. unfold commitment_bytes. cbn [cm_session_id cm_transaction_digest count record_bytes]. rewrite (le_bytes_back 4) by done. app_eq.
Qed.

Lemma commitment_bytes_ok c : commitment_good c -> bytes_ok (commitment_bytes c).
Proof.
  intros ([Hs _] & [Hd _] & [Hr _] & _). unfold commitment_bytes, header_bytes.
  rewrite !bytes_ok_app. split_and!; [by_decide|by_decide|by_decide|done|done|apply le_bytes_ok|done].
Qed.

Lemma commitment_length c : commitment_good c -> blen (commitment_bytes c) = 58 + 71 * count c.
Proof.
  intros ([_ H1] & [_ H2] & [_ H3] & _). pose proof (header_length CommitmentMessage _ H1). pose proof (blen_le_bytes 4 (count c)).
  unfold commitment_bytes. len.
Qed.

Lemma commitment_reads c : commitment_good c -> parse_commitment (commitment_bytes c) = Ok c.
Proof.
  intros Hg. pose proof (commitment_length c Hg) as Hl. pose proof Hg as ([_ H1] & [_ H2] & [_ H3] & Hn).
  pose proof (header_length CommitmentMessage _ H1). pose proof (blen_le_bytes 4 (count c)).
  unfold parse_commitment. rewrite Hl. unfold commitment_bytes at 1. rewrite header_reads by done. cbn [rbind header_session_id]. layout.
  rewrite (proj2 (Z.ltb_ge _ _)) by lia. unfold commitment_bytes. do 2 read_part. rewrite read_u32_spec by done. cbn [rbind].
  rewrite le_val_u32 by lia. rewrite (proj2 (Z.eqb_neq _ _)) by lia. unfold checked_mul, checked_add.
  rewrite checked_u64_id by (unfold u64_ok, u32_max in *; lia). cbn [ok_or lift rmap_err rbind].
  rewrite checked_u64_id by (unfold u64_ok, u32_max in *; lia). rewrite bool_decide_true by (f_equal; lia). cbn [negb].
  read_part. by destruct c.
Qed.

Lemma commitment_reader : exact_reader parse_commitment commitment_good commitment_bytes.
Proof.
  split.
  - intros input r Hb. split; [by apply commitment_parsed|]. intros [Hg ->]. by apply commitment_reads.
  - intros input Hb. apply safe_bind; [apply header_safe|]. intros h _. apply safe_if; intros Hl; [apply safe_fails|]. apply Z.ltb_ge in Hl. layout.
    apply safe_bind; [apply safe_part; lia|intros d _]. apply safe_bind; [apply number_safe; lia|]. intros n _. safe_tac.
Qed.

(** A loop that writes the texts of a list one after the other. *)
Lemma write_items {A} (text : A -> list Z) (size : Z) (items : list A) (body : Z * A -> Comp (list Z) (Fault WireError) unit) out k front :
  (forall j x front, In x items -> blen front = 58 + size * j -> blen front + size <= blen out ->
     body (j, x) (written front out) = (Ok tt, written (front ++ text x) out)) ->
  (forall x, In x items -> blen (text x) = size) -> 0 <= size ->
  blen front = 58 + size * Z.of_nat k -> blen front + size * blen items <= blen out ->
  for_each (imap (fun index item => (Z.of_nat (index + k), item)) items) body (written front out) =
    (Ok tt, written (front ++ concat (map text items)) out).
Proof.
  intros Hbody Htext Hsize. revert k front. induction items as [|x items IH]; intros k front Hk Hfit; [by rewrite app_nil_r|].
  cbn [imap]. rewrite blen_cons in Hfit. pose proof (blen_nonneg items). cbn [map concat for_each].
  erewrite bind_step; [|apply Hbody; [by left|done|nia]]. rewrite app_assoc.
  rewrite (imap_ext _ (fun index item => (Z.of_nat (index + S k), item))) by (intros; cbn; do 2 f_equal; lia).
  apply IH.
  - intros j y front' Hy. apply Hbody. by right.
  - intros y Hy. apply Htext. by right.
  - rewrite blen_app, Htext by by left. lia.
  - rewrite blen_app, Htext by by left. lia.
Qed.

Lemma concat_length {A} (text : A -> list Z) size items : (forall x, In x items -> blen (text x) = size) ->
  blen (concat (map text items)) = size * blen items.
Proof.
  induction items as [|x items IH]; intros H; [by rewrite Z.mul_0_r|]. cbn [map concat]. rewrite blen_app, blen_cons, IH, H by (try intros; try apply H; simpl; auto).
  lia.
Qed.

Lemma record_text_length r : record_typed r -> blen (record_text r) = 71.
Proof. intros (_ & _ & [_ H1] & [_ H2]). pose proof (blen_le_bytes 4 (input_index r)). unfold record_text. len. Qed.

Lemma record_text_ok r : record_typed r -> bytes_ok (record_text r).
Proof.
  intros (_ & H1 & [H2 _] & [H3 _]). unfold record_text. repeat (apply bytes_ok_app; split); try done; [apply le_bytes_ok|].
  by apply Forall_singleton.
Qed.

Lemma texts_ok {A} (text : A -> list Z) items : (forall x, In x items -> bytes_ok (text x)) -> bytes_ok (concat (map text items)).
Proof.
  induction items as [|x items IH]; intros H; [constructor|]. cbn [map concat]. apply bytes_ok_app. split; [apply H; by left|].
  apply IH. intros y Hy. apply H. by right.
Qed.

Definition commitment_typed (m : list Z * list Z * list NonceCommitment) : Prop :=
  bytes_of 16 m.1.1 /\ bytes_of 32 m.1.2 /\ Forall record_typed m.2.

Lemma commitment_of_good m : commitment_typed m -> 0 < blen m.2 <= u32_max -> commitment_good (commitment_of m).
Proof.
  destruct m as [[session digest] records]. intros (Hs & Hd & Hr) Hn. cbn [fst snd] in *. rewrite List.Forall_forall in Hr.
  split; [done|]. split; [done|]. split; [|done]. cbn [commitment_of record_bytes count]. split.
  - apply texts_ok. intros x Hx. by apply record_text_ok, Hr.
  - apply concat_length. intros x Hx. by apply record_text_length, Hr.
Qed.

Lemma write_record_written r start front out : record_typed r -> start = blen front -> blen front + 71 <= blen out ->
  write_commitment_record start r (written front out) = (Ok tt, written (front ++ record_text r) out).
Proof.
  intros (_ & _ & [_ H1] & [_ H2]) -> Hfit. pose proof (blen_le_bytes 4 (input_index r)). unfold write_commitment_record.
  write_all. rewrite put_written by len. do 2 f_equal. unfold record_text. app_eq.
Qed.

Lemma nonzero_count_spec n : 0 <= n -> nonzero_count n = if (0 <? n) && (n <=? u32_max) then Ok n else Err TooManyProofs.
Proof.
  intros Hn. unfold nonzero_count. destruct (Z.eqb_spec n 0), (Z.ltb_spec u32_max n), (Z.ltb_spec 0 n), (Z.leb_spec n u32_max); cbn; (done || lia).
Qed.

Lemma imap_from_zero {A} (items : list A) :
  imap (fun index item => (Z.of_nat index, item)) items = imap (fun index item => (Z.of_nat (index + 0), item)) items.
Proof. apply imap_ext. intros. by rewrite Nat.add_0_r. Qed.

Lemma commitment_writer :
  exact_writer (fun m => encode_commitment m.1.1 m.1.2 m.2) (fun m => 0 < blen m.2 <= u32_max) commitment_typed
    (fun m => commitment_bytes (commitment_of m)).
Proof.
  split.
  - intros [[session digest] records] out Ht Hn Hfit. pose proof (commitment_of_good _ Ht Hn) as Hg.
    rewrite commitment_length in Hfit by done. rewrite commitment_length by done. destruct Ht as ([_ Hs] & [_ Hd] & Hr).
    cbn [fst snd commitment_of count] in *. rewrite List.Forall_forall in Hr. unfold encode_commitment. layout.
    rewrite nonzero_count_spec, (proj2 (Z.ltb_lt _ _)), (proj2 (Z.leb_le _ _)) by lia. cbn [andb lift rmap_err].
    unfold checked_mul, checked_add. erewrite bind_step; [|apply of_result_Ok].
    rewrite checked_u64_id by (unfold u64_ok, u32_max in *; lia). cbn [ok_or lift rmap_err]. erewrite bind_step; [|apply of_result_Ok].
    rewrite checked_u64_id by (unfold u64_ok, u32_max in *; lia). cbn [ok_or lift rmap_err]. erewrite bind_step; [|apply of_result_Ok].
    erewrite bind_step; [|apply ensure_fits; lia]. rewrite (written_nil out) at 1. erewrite bind_step; [|apply write_header_written; [done|lia]].
    pose proof (header_length CommitmentMessage _ Hs). pose proof (blen_le_bytes 4 (blen records)). write_all.
    rewrite imap_from_zero. erewrite bind_step.
    2:{ apply (write_items record_text 71); [|intros x Hx; by apply record_text_length, Hr|lia|len|len].
        intros j x front Hx Hfront Hspace. apply write_record_written; [by apply Hr| |done]. unfold commitment_record_range. layout. lia. }
    unfold ret. replace (58 + blen records * 71) with (58 + 71 * blen records) by lia. f_equal.
    unfold written, commitment_bytes. cbn [commitment_of cm_session_id cm_transaction_digest count record_bytes]. app_eq.
  - intros [[session digest] records] out Ht Hno. cbn [fst snd] in *. unfold encode_commitment. layout. pose proof (blen_nonneg records).
    rewrite nonzero_count_spec by done. destruct (Z.ltb_spec 0 (blen records)), (Z.leb_spec (blen records) u32_max); cbn [andb lift rmap_err];
      try by exists TooManyProofs.
    pose proof (commitment_of_good _ Ht ltac:(done)) as Hg. rewrite commitment_length in Hno by done. cbn [commitment_of count] in Hno.
    unfold checked_mul, checked_add. erewrite bind_step; [|apply of_result_Ok].
    rewrite checked_u64_id by (unfold u64_ok, u32_max in *; lia). cbn [ok_or lift rmap_err]. erewrite bind_step; [|apply of_result_Ok].
    rewrite checked_u64_id by (unfold u64_ok, u32_max in *; lia). cbn [ok_or lift rmap_err]. erewrite bind_step; [|apply of_result_Ok].
    exists OutputTooSmall. erewrite bind_fail; [done|]. apply ensure_short. apply Z.nle_gt. intros Hle. apply Hno. split; [done|lia].
Qed.

(** *** The records of a commitment *)

Lemma sub_skip p l i j : blen p <= i -> i <= j -> sub (p ++ l) i j = sub l (i - blen p) (j - blen p).
Proof.
  intros Hi Hj. pose proof (part_skip (E := unit) p l i j Hi Hj) as H. unfold part, sub in *.
  destruct (slice (p ++ l) i j), (slice l _ _); cbn in *; congruence.
Qed.
Lemma sub_front p l i j : i = 0 -> j = blen p -> sub (p ++ l) i j = p.
Proof. intros Hi Hj. pose proof (part_front (E := unit) p l i j Hi Hj) as H%part_Ok. unfold sub. by rewrite H. Qed.
Lemma sub_all p i j : i = 0 -> j = blen p -> sub p i j = p.
Proof. intros Hi Hj. rewrite <- (app_nil_r p) at 1. by apply sub_front. Qed.

Lemma record_read r : record_typed r -> read_commitment_record (record_text r) = r.
Proof.
  intros (Hi & _ & [_ H1] & [_ H2]). pose proof (blen_le_bytes 4 (input_index r)) as H4. unfold read_commitment_record, record_text.
  rewrite sub_front by len. rewrite le_val_u32 by (unfold u32_ok, u32_max in *; lia). do 2 rewrite sub_skip by len. rewrite sub_front by len.
  do 3 rewrite sub_skip by len. rewrite sub_all by len.
  rewrite (get_at_split _ (le_bytes 4 (input_index r)) (public_key r ++ nonce_point r) (signature_slot r)); [by destruct r|done|by rewrite H4].
Qed.

Lemma record_shape l : bytes_of 71 l -> record_typed (read_commitment_record l) /\ record_text (read_commitment_record l) = l.
Proof.
  intros [Hb Hl]. assert (H1 : exists p, slice l 0 4 = Some p) by (eexists; unfold slice; by rewrite Hl).
  assert (H2 : exists x, get_at l 4 = Some x) by (apply get_at_lt; lia).
  assert (H3 : exists p, slice l 5 38 = Some p) by (eexists; unfold slice; by rewrite Hl).
  assert (H4 : exists p, slice l 38 71 = Some p) by (eexists; unfold slice; by rewrite Hl).
  destruct H1 as (p1 & H1), H2 as (x & H2), H3 as (p3 & H3), H4 as (p4 & H4).
  unfold read_commitment_record, sub. rewrite H1, H2, H3, H4. cbn [default from_option id]. apply get_slice in H2. compute_end H2.
  pose proof (slice_bytes _ _ _ _ Hb H2) as [Hx _].
  apply (proj1 (Forall_singleton byte_ok x)) in Hx. slice_sizes Hb. split.
  - split; [|done]. cbn [input_index]. assert (Hp : bytes_of 4 p1) by done. destruct Hp as [Hok Hlen]. pose proof (le_val_bound p1 Hok) as Hr. rewrite Hlen in Hr. done.
  - unfold record_text. cbn [input_index signature_slot public_key nonce_point]. rewrite (le_bytes_back 4) by done. symmetry. whole Hl. app_eq.
Qed.

Lemma sub_item {A} (text : A -> list Z) size items i x : (forall y, In y items -> blen (text y) = size) -> get_at items i = Some x ->
  sub (concat (map text items)) (i * size) ((i + 1) * size) = text x.
Proof.
  intros Ht (l1 & l2 & -> & Hi)%get_at_Some. unfold sub.
  rewrite (slice_split _ (concat (map text l1)) (text x) (concat (map text l2))); [done|by rewrite map_app, concat_app| |].
  - rewrite (concat_length text size) by (intros y Hy; apply Ht, in_or_app; by left). lia.
  - rewrite (concat_length text size) by (intros y Hy; apply Ht, in_or_app; by left). rewrite (Ht x) by (apply in_or_app; right; by left). lia.
Qed.

Lemma chunk_list {A} (text : A -> list Z) (read : list Z -> A) (ok : A -> Prop) size l n : 0 < size -> 0 <= n -> bytes_of (size * n) l ->
  (forall chunk, bytes_of size chunk -> ok (read chunk) /\ text (read chunk) = chunk) ->
  exists items, Forall ok items /\ blen items = n /\ concat (map text items) = l.
Proof.
  intros Hs Hn Hl Hread. revert l Hl. pattern n. apply natlike_ind; [|clear n Hn|done].
  - intros l [_ Hl]. exists []. split; [done|]. split; [done|]. destruct l; [done|]. rewrite blen_cons in Hl. pose proof (blen_nonneg l). lia.
  - intros n Hn IH l [Hb Hl]. assert (Hlen : (Z.to_nat size <= length l)%nat) by (unfold blen in Hl; nia).
    destruct (IH (drop (Z.to_nat size) l)) as (items & Hok & Hcount & Hconcat).
    { split; [by apply Forall_drop|]. unfold blen in *. rewrite length_drop. nia. }
    destruct (Hread (take (Z.to_nat size) l)) as [Ho Ht].
    { split; [by apply Forall_take|]. unfold blen. rewrite length_take. lia. }
    exists (read (take (Z.to_nat size) l) :: items). split; [by constructor|]. split; [rewrite blen_cons; lia|].
    cbn [map concat]. by rewrite Ht, Hconcat, take_drop.
Qed.

(** A parsed commitment gives back the records, and every one it can hold is
    the commitment of some records. *)
Lemma record_lookup m i : commitment_typed m -> 0 <= i -> record (commitment_of m) i = get_at m.2 i.
Proof.
  destruct m as [[session digest] records]. intros (_ & _ & Hr) Hi. cbn [fst snd] in *. unfold record. cbn [commitment_of count record_bytes]. layout.
  rewrite List.Forall_forall in Hr. destruct (Z.leb_spec (blen records) i).
  - unfold get_at. rewrite (proj2 (Z.leb_le _ _)) by done. symmetry. apply lookup_ge_None_2. unfold blen in *. lia.
  - destruct (get_at_lt records i) as [x Hx]; [lia|]. rewrite Hx. f_equal.
    rewrite (sub_item record_text 71 records i x); [|intros y Hy; by apply record_text_length, Hr|done].
    apply record_read, Hr. apply get_at_Some in Hx as (l1 & l2 & -> & _). apply in_or_app. right. by left.
Qed.

Lemma commitment_records c : commitment_good c -> exists m, commitment_typed m /\ c = commitment_of m.
Proof.
  intros (Hs & Hd & Hr & Hn). destruct (chunk_list record_text read_commitment_record record_typed 71 (record_bytes c) (count c)) as (records & Hok & Hc & Ht);
    [lia|lia|done|apply record_shape|]. exists (cm_session_id c, cm_transaction_digest c, records). split; [done|].
  destruct c. cbn in *. by rewrite Ht, Hc.
Qed.

(** ** Reveals *)

Definition reveal_bytes (m : list Z * list Z) : list Z := header_bytes RevealMessage m.1 ++ m.2.
Definition reveal_typed (m : list Z * list Z) : Prop := bytes_of 16 m.1 /\ bytes_of 32 m.2.

Lemma klepto_reveal_length m : reveal_typed m -> blen (reveal_bytes m) = 54.
Proof. intros ([_ H1] & [_ H2]). pose proof (header_length RevealMessage _ H1). unfold reveal_bytes. len. Qed.

Lemma klepto_reveal_codec : codec parse_reveal (fun m => encode_reveal m.1 m.2) (fun _ => True) reveal_typed reveal_bytes.
Proof.
  apply codec_intro.
  - intros input [session secret] Hb. split.
    + intros Hp. unfold parse_reveal in Hp. parse_inv Hp. injection Hp as <- <-. apply header_parsed in Hx as (Hs & Hl & Hh); [|done]. layout.
      apply negb_false_iff, Z.eqb_eq in Hb0. slice_sizes Hb. split; [done|]. whole Hb0. done.
    + intros [[Ht _] ->]. pose proof (klepto_reveal_length _ Ht) as Hl. destruct Ht as ([_ H1] & [_ H2]). cbn [fst snd] in *.
      pose proof (header_length RevealMessage _ H1). unfold parse_reveal. rewrite Hl. unfold reveal_bytes. cbn [fst snd]. rewrite header_reads by done.
      cbn [rbind header_session_id]. layout. rewrite Z.eqb_refl. cbn [negb]. by read_part.
  - intros input _. unfold parse_reveal. apply safe_bind; [apply header_safe|]. intros h _. layout. apply safe_if; intros Hl; [apply safe_fails|].
    apply negb_false_iff, Z.eqb_eq in Hl. safe_tac.
  - intros [session secret] out Ht _ Hfit. rewrite klepto_reveal_length in * by done. destruct Ht as ([_ H1] & [_ H2]). cbn [fst snd] in *. unfold encode_reveal. layout.
    erewrite bind_step; [|apply ensure_fits; lia]. rewrite (written_nil out) at 1. erewrite bind_step; [|apply write_header_written; [done|lia]].
    pose proof (header_length RevealMessage _ H1). write_all. done.
  - intros m out Ht Hno. rewrite klepto_reveal_length in Hno by done. unfold encode_reveal. layout. exists OutputTooSmall. erewrite bind_fail; [done|].
    apply ensure_short. apply Z.nle_gt. intros Hle. by apply Hno.
Qed.

(** ** Signed transactions *)

Definition proof_text (p : SignatureProof) : list Z := le_bytes 4 (pf_input_index p) ++ [pf_signature_slot p].
Definition proof_typed (p : SignatureProof) : Prop := u32_ok (pf_input_index p) /\ byte_ok (pf_signature_slot p).

Definition signed_bytes (s : Signed) : list Z :=
  header_bytes SignedMessage (sd_session_id s) ++ sd_transaction_digest s ++ le_bytes 4 (sd_proof_count s) ++ proof_bytes s
  ++ le_bytes 4 (blen (sd_transaction s)) ++ sd_transaction s.
Definition signed_good (s : Signed) : Prop :=
  bytes_of 16 (sd_session_id s) /\ bytes_of 32 (sd_transaction_digest s) /\ bytes_of (5 * sd_proof_count s) (proof_bytes s) /\
  0 < sd_proof_count s <= u32_max /\ bytes_ok (sd_transaction s) /\ blen (sd_transaction s) <= u32_max.

Record SignedParts := { sp_session : list Z; sp_digest : list Z; sp_proofs : list SignatureProof; sp_transaction : list Z }.
Definition signed_of (m : SignedParts) : Signed := {|
  sd_session_id := sp_session m; sd_transaction_digest := sp_digest m; proof_bytes := concat (map proof_text (sp_proofs m));
  sd_proof_count := blen (sp_proofs m); sd_transaction := sp_transaction m |}.
Definition signed_typed (m : SignedParts) : Prop :=
  bytes_of 16 (sp_session m) /\ bytes_of 32 (sp_digest m) /\ Forall proof_typed (sp_proofs m) /\ bytes_ok (sp_transaction m).
Definition signed_valid (m : SignedParts) : Prop := 0 < blen (sp_proofs m) <= u32_max /\ blen (sp_transaction m) <= u32_max.

Lemma signed_parsed input s : bytes_ok input -> parse_signed input = Ok s -> signed_good s /\ input = signed_bytes s.
Proof.
  intros Hb Hp. unfold parse_signed in Hp. parse_inv Hp. injection Hp as <-. apply header_parsed in Hx as (Hs & Hl & Hh); [|done]. layout.
  apply number_field in Hx1 as (l & Hl2 & Hl4 & -> & Hr); [|done..]. apply Z.eqb_neq in Hb1.
  apply ok_or_Ok, checked_u64_Some in Hx2 as [-> _]. apply ok_or_Ok, checked_u64_Some in Hx3 as [-> _]. apply ok_or_Ok, checked_u64_Some in Hx4 as [-> _].
  apply ok_or_Ok in Hx5. apply exact_tail_Ok in Hx7 as [Htotal Ht]. pose proof (slice_bytes _ _ _ _ Hb Hx5) as Hn.
  replace (58 + le_val l * 5 + 4 - (58 + le_val l * 5)) with 4 in Hn by lia. rewrite read_u32_spec in Hx6 by apply Hn. injection Hx6 as <-.
  slice_sizes Hb. pose proof (le_val_bound _ (proj1 Hn)) as Hbound. rewrite (proj2 Hn) in Hbound. change (256 ^ 4) with 4294967296 in Hbound.
  match goal with K : bytes_of (blen input - _) ?t |- _ => assert (Hlen : blen t = le_val x5) by (destruct K; lia); pose proof (proj1 K) end. split.
  - unfold signed_good. cbn. split; [done|]. split; [done|]. split; [|split; [lia|split; [done|unfold u32_max; lia]]].
    match goal with K : bytes_of (58 + _ - 58) _ |- _ => destruct K; split; [done|lia] end.
  - whole Htotal. unfold signed_bytes. cbn [sd_session_id sd_transaction_digest sd_proof_count proof_bytes sd_transaction].
    rewrite Hlen, !(le_bytes_back 4) by done. app_eq.
Qed.

Lemma signed_bytes_ok s : signed_good s -> bytes_ok (signed_bytes s).
Proof.
  intros ([Hs _] & [Hd _] & [Hp _] & _ & Ht & _). unfold signed_bytes, header_bytes.
  rewrite !bytes_ok_app. split_and!; [by_decide|by_decide|by_decide|done|done|apply le_bytes_ok|done|apply le_bytes_ok|done].
Qed.

Lemma signed_length s : signed_good s -> blen (signed_bytes s) = 62 + 5 * sd_proof_count s + blen (sd_transaction s).
Proof.
  intros ([_ H1] & [_ H2] & [_ H3] & _). pose proof (header_length SignedMessage _ H1). pose proof (blen_le_bytes 4 (sd_proof_count s)).
  pose proof (blen_le_bytes 4 (blen (sd_transaction s))). unfold signed_bytes. len.
Qed.

Lemma signed_reads s : signed_good s -> parse_signed (signed_bytes s) = Ok s.
Proof.
  intros Hg. pose proof (signed_length s Hg) as Hl. pose proof Hg as ([_ H1] & [_ H2] & [_ H3] & Hn & _ & Hmax).
  pose proof (header_length SignedMessage _ H1) as Hh. pose proof (blen_le_bytes 4 (sd_proof_count s)) as H4. pose proof (blen_nonneg (sd_transaction s)).
  pose proof (blen_le_bytes 4 (blen (sd_transaction s))) as H5.
  unfold parse_signed. rewrite Hl. unfold signed_bytes at 1. rewrite header_reads by done. cbn [rbind header_session_id]. layout.
  rewrite (proj2 (Z.ltb_ge _ _)) by lia. unfold signed_bytes at 1 2. do 2 read_part. rewrite read_u32_spec by done. cbn [rbind].
  rewrite le_val_u32 by lia. rewrite (proj2 (Z.eqb_neq _ _)) by lia. unfold checked_mul, checked_add.
  do 3 (rewrite checked_u64_id by (unfold u64_ok, u32_max in *; lia); cbn [ok_or lift rmap_err rbind]).
  rewrite (slice_split _ (header_bytes SignedMessage (sd_session_id s) ++ sd_transaction_digest s ++ le_bytes 4 (sd_proof_count s) ++ proof_bytes s)
    (le_bytes 4 (blen (sd_transaction s))) (sd_transaction s)); [|unfold signed_bytes; app_eq|len|len]. cbn [ok_or lift rmap_err rbind].
  rewrite read_u32_spec by done. cbn [rbind]. rewrite le_val_u32 by lia. unfold signed_bytes at 1. rewrite !app_assoc, exact_tail_reads by (len || (unfold u64_ok, u32_max in *; lia)).
  cbn [rbind]. unfold signed_bytes. rewrite <- ?app_assoc. read_part. by destruct s.
Qed.

Lemma signed_reader : exact_reader parse_signed signed_good signed_bytes.
Proof.
  split.
  - intros input r Hb. split; [by apply signed_parsed|]. intros [Hg ->]. by apply signed_reads.
  - intros input Hb. apply safe_bind; [apply header_safe|]. intros h _. apply safe_if; intros Hl; [apply safe_fails|]. apply Z.ltb_ge in Hl. layout.
    apply safe_bind; [apply safe_part; lia|intros d _]. apply safe_bind; [apply number_safe; lia|].
    intros n (l & _ & _ & _ & Hn)%number_field; [|done|done]. apply safe_if; intros Hz; [apply safe_fails|].
    apply safe_bind; [apply safe_lift|]. intros k Hk%lift_Ok%ok_or_Ok. apply checked_u64_Some in Hk as [-> _].
    apply safe_bind; [apply safe_lift|]. intros o Ho%lift_Ok%ok_or_Ok. apply checked_u64_Some in Ho as [-> _].
    apply safe_bind; [apply safe_lift|]. intros t Ht%lift_Ok%ok_or_Ok. apply checked_u64_Some in Ht as [-> _].
    apply safe_bind; [apply safe_lift|]. intros lb Hlb%lift_Ok%ok_or_Ok. pose proof (slice_bytes _ _ _ _ Hb Hlb) as [Hok Hlen].
    assert (Hfit : 58 + n * 5 + 4 <= blen input) by (apply slice_Some in Hlb as (l1 & l3 & -> & Hl1 & Hj); rewrite !blen_app; pose proof (blen_nonneg l3); lia).
    rewrite read_u32_spec by lia. cbn [rbind]. pose proof (le_val_bound lb Hok) as Hbound.
    apply safe_bind; [apply exact_tail_safe; lia|intros tx _]. safe_tac.
Qed.

Lemma proof_text_length p : blen (proof_text p) = 5.
Proof. pose proof (blen_le_bytes 4 (pf_input_index p)). unfold proof_text. len. Qed.

Lemma signed_of_good m : signed_typed m -> signed_valid m -> signed_good (signed_of m).
Proof.
  intros (Hs & Hd & Hp & Ht) (Hn & Hmax). split; [done|]. split; [done|]. split; [|done]. split.
  - apply texts_ok. intros p Hin. rewrite List.Forall_forall in Hp. destruct (Hp p Hin) as [_ Hb]. apply bytes_ok_app. split; [apply le_bytes_ok|].
    by apply Forall_singleton.
  - apply concat_length. intros p _. apply proof_text_length.
Qed.

Lemma signed_writer :
  exact_writer (fun m => encode_signed (sp_session m) (sp_digest m) (sp_proofs m) (sp_transaction m)) signed_valid signed_typed
    (fun m => signed_bytes (signed_of m)).
Proof.
  split.
  - intros m out Ht Hv Hfit. pose proof (signed_of_good m Ht Hv) as Hg. rewrite signed_length in * by done.
    destruct Ht as ([_ Hs] & [_ Hd] & Hp & _). destruct Hv as [Hn Hmax]. cbn [signed_of sd_proof_count sd_transaction] in *. unfold encode_signed. layout.
    rewrite nonzero_count_spec, (proj2 (Z.ltb_lt _ _)), (proj2 (Z.leb_le _ _)) by lia. cbn [andb lift rmap_err].
    erewrite bind_step; [|apply of_result_Ok]. unfold reject_if. rewrite (proj2 (Z.ltb_ge _ _)) by lia. erewrite bind_step; [|reflexivity].
    pose proof (blen_nonneg (sp_transaction m)). unfold checked_mul, checked_add.
    do 4 (rewrite checked_u64_id by (unfold u64_ok, u32_max in *; lia); cbn [ok_or lift rmap_err]; erewrite bind_step; [|apply of_result_Ok]).
    erewrite bind_step; [|apply ensure_fits; lia]. rewrite (written_nil out) at 1. erewrite bind_step; [|apply write_header_written; [done|lia]].
    pose proof (header_length SignedMessage _ Hs). pose proof (blen_le_bytes 4 (blen (sp_proofs m))). pose proof (blen_le_bytes 4 (blen (sp_transaction m))).
    pose proof (concat_length proof_text 5 (sp_proofs m) (fun x _ => proof_text_length x)) as Hc. do 2 write_part.
    rewrite imap_from_zero. erewrite bind_step.
    2:{ apply (write_items proof_text 5); [|intros; apply proof_text_length|lia|len|len].
        intros j p front _ Hfront Hspace. pose proof (blen_le_bytes 4 (pf_input_index p)). cbv zeta. write_all. rewrite put_written by len.
        do 2 f_equal. unfold proof_text. app_eq. }
    write_all. unfold ret, written, signed_bytes. cbn [signed_of sd_session_id sd_transaction_digest sd_proof_count proof_bytes sd_transaction].
    f_equal; [f_equal; lia|app_eq].
  - intros m out Ht Hno. unfold encode_signed. layout. pose proof (blen_nonneg (sp_proofs m)). pose proof (blen_nonneg (sp_transaction m)).
    rewrite nonzero_count_spec by done. destruct (Z.ltb_spec 0 (blen (sp_proofs m))), (Z.leb_spec (blen (sp_proofs m)) u32_max); cbn [andb lift rmap_err];
      try by exists TooManyProofs. erewrite bind_step; [|apply of_result_Ok].
    destruct (Z.ltb_spec u32_max (blen (sp_transaction m))); [by exists InvalidLength|]. erewrite bind_step; [|reflexivity].
    assert (Hv : signed_valid m) by done. pose proof (signed_of_good m Ht Hv) as Hg. rewrite signed_length in Hno by done.
    cbn [signed_of sd_proof_count sd_transaction] in Hno. unfold checked_mul, checked_add.
    do 4 (rewrite checked_u64_id by (unfold u64_ok, u32_max in *; lia); cbn [ok_or lift rmap_err]; erewrite bind_step; [|apply of_result_Ok]).
    exists OutputTooSmall. erewrite bind_fail; [done|]. apply ensure_short. apply Z.nle_gt. intros Hle. apply Hno. split; [done|lia].
Qed.

Lemma proof_lookup m i : signed_typed m -> 0 <= i -> proof (signed_of m) i = get_at (sp_proofs m) i.
Proof.
  intros (_ & _ & Hp & _) Hi. unfold proof. cbn [signed_of sd_proof_count proof_bytes]. layout. destruct (Z.leb_spec (blen (sp_proofs m)) i).
  - unfold get_at. rewrite (proj2 (Z.leb_le _ _)) by done. symmetry. apply lookup_ge_None_2. unfold blen in *. lia.
  - destruct (get_at_lt (sp_proofs m) i) as [x Hx]; [lia|]. rewrite Hx. cbv zeta. replace (i * 5 + 5) with ((i + 1) * 5) by lia.
    rewrite (sub_item proof_text 5 _ i x); [|intros; apply proof_text_length|done]. f_equal.
    pose proof (blen_le_bytes 4 (pf_input_index x)) as H4. unfold proof_text. rewrite sub_front by len.
    rewrite (get_at_split _ (le_bytes 4 (pf_input_index x)) [] (pf_signature_slot x)); [|done|by rewrite H4].
    apply get_at_Some in Hx as (l1 & l2 & Heq & _). rewrite Heq in Hp. apply Forall_app in Hp as [_ Hp]. apply Forall_cons_1 in Hp as [[Hx _] _].
    rewrite le_val_u32 by (unfold u32_ok, u32_max in *; lia). by destruct x.
Qed.

(** C17: every message of host-assisted signing has exactly one text: the
    parsers accept exactly the texts of good messages and cannot panic, and the
    encoders write the texts or fail and leave the buffer alone. A good request
    carries the digest of its own transaction and the session of that digest
    and the host's commitment; the records of a parsed commitment and the
    proofs of a parsed response are the ones that were written. *)
Theorem klepto_messages_exact sha256 : (forall m, bytes_of 32 (sha256 m)) ->
  (exact_reader (parse_request sha256) (request_good sha256) request_bytes /\
   exact_writer (fun m => encode_request sha256 m.1 m.2) (fun m => blen m.2 <= u32_max) (fun m => bytes_ok m.2)
     (fun m => request_bytes (request_of sha256 m))) /\
  (exact_reader parse_commitment commitment_good commitment_bytes /\
   exact_writer (fun m => encode_commitment m.1.1 m.1.2 m.2) (fun m => 0 < blen m.2 <= u32_max) commitment_typed
     (fun m => commitment_bytes (commitment_of m)) /\
   forall m i, commitment_typed m -> 0 <= i -> record (commitment_of m) i = get_at m.2 i) /\
  codec parse_reveal (fun m => encode_reveal m.1 m.2) (fun _ => True) reveal_typed reveal_bytes /\
  (exact_reader parse_signed signed_good signed_bytes /\
   exact_writer (fun m => encode_signed (sp_session m) (sp_digest m) (sp_proofs m) (sp_transaction m)) signed_valid signed_typed
     (fun m => signed_bytes (signed_of m)) /\
   forall m i, signed_typed m -> 0 <= i -> proof (signed_of m) i = get_at (sp_proofs m) i).
Proof.
  intros Hsha. split; [split; [apply request_reader|by apply request_writer]|].
  split; [exact (conj commitment_reader (conj commitment_writer record_lookup))|].
  split; [exact klepto_reveal_codec|exact (conj signed_reader (conj signed_writer proof_lookup))].
Qed.

(** Requests of one session are the same request, or two of the texts hashed
    for the session or for the transactions collide. *)
Lemma session_binds sha256 r1 r2 : request_good sha256 r1 -> request_good sha256 r2 -> rq_session_id r1 = rq_session_id r2 ->
  r1 = r2 \/
  collision_between (fun m => take 16 (sha256 m)) [SESSION_DOMAIN ++ rq_host_commitment r1 ++ rq_transaction_digest r1]
    [SESSION_DOMAIN ++ rq_host_commitment r2 ++ rq_transaction_digest r2] \/
  collision_between sha256 [TX_DIGEST_DOMAIN ++ rq_transaction r1] [TX_DIGEST_DOMAIN ++ rq_transaction r2].
Proof.
  intros (_ & [_ Hc1] & _ & _ & _ & Hd1 & Hs1) (_ & [_ Hc2] & _ & _ & _ & Hd2 & Hs2) Heq.
  set (m1 := SESSION_DOMAIN ++ rq_host_commitment r1 ++ rq_transaction_digest r1).
  set (m2 := SESSION_DOMAIN ++ rq_host_commitment r2 ++ rq_transaction_digest r2).
  destruct (decide (m1 = m2)) as [Hm|Hm].
  - apply app_inv_head, app_inj_1 in Hm as [Hc Hd]; [|apply blen_length; lia].
    destruct (decide (rq_transaction r1 = rq_transaction r2)) as [Ht|Ht].
    + left. destruct r1, r2. cbn in *. congruence.
    + right. right. eexists _, _. split; [apply list_elem_of_here|]. split; [apply list_elem_of_here|]. split; [intros Ha%app_inv_head; done|].
      unfold transaction_digest, domain_hash in Hd1, Hd2. cbn [concat] in Hd1, Hd2. rewrite app_nil_r in Hd1, Hd2. congruence.
  - right. left. exists m1, m2. split; [apply list_elem_of_here|]. split; [apply list_elem_of_here|]. split; [done|].
    unfold session_id, domain_hash in Hs1, Hs2. cbn [concat] in Hs1, Hs2. rewrite app_nil_r in Hs1, Hs2. unfold m1, m2. congruence.
Qed.

(** A hash to evaluate on. *)
Definition sum_hash (m : list Z) : list Z := be_bytes 32 (sum_by (fun b => b) m).

Lemma klepto_messages_exact_witness : exists r,
  parse_request sum_hash (request_bytes (request_of sum_hash (replicate 32 5, [1; 2; 3]))) = Ok r /\ rq_transaction r = [1; 2; 3].
Proof.
  destruct (klepto_messages_exact sum_hash ltac:(intros m; split; [apply be_bytes_ok|apply blen_be_bytes])) as [[[Hread _] _] _].
  exists (request_of sum_hash (replicate 32 5, [1; 2; 3])). split; [|reflexivity]. apply Hread; [by_decide|]. split; [|reflexivity].
  unfold request_good. repeat (split; [first [by_decide|vm_compute; discriminate|reflexivity]|]). reflexivity.
Defined.
End KleptoFormat.
