(* ===== verification/AntiKleptoSigning.v ===== *)
(** * Host-assisted signing of a transaction

    [src/src/transaction/interchange/kspt/signing/anti_klepto]: the records a
    device commits to ([records.rs]), the finalization of its provisional
    signatures ([finalization.rs]) and what the host checks: the commitment
    ([commitment.rs]), the keys it names ([keys.rs]), the body of the signed
    transaction ([transaction_body.rs]) and the transcript ([transcript.rs],
    [wire.rs]). An index out of range is a panic; [usize::try_from] of a [u32]
    succeeds. *)

From S2P Require Import Prelude Bytes Script Hd TxModel Sighash Schnorr SigCheck KsptCodec Adaptor Signing SigningMessages.
Import TxModel Bip32 KleptoProtocol.

Inductive AntiKleptoVerifyError :=
  | SessionMismatch | TransactionMismatch | InvalidProof | InvalidPublicKey | InvalidSignature | InvalidNonceRelation
  | Pskt (error : PsktError).

(** [From<PsktError>] under [?] *)
Definition from_pskt {A} (r : result A PsktError) : result A (Fault AntiKleptoVerifyError) :=
  rmap_err (fun error => Fails (Pskt error)) r.

(** [tx.inputs[index]], [tx.outputs[index]], [input.sigs[slot]] *)
Definition input_of {E} (tx : Transaction) (index : Z) : result TransactionInput (Fault E) := ok_or (get_at (tx_inputs tx) index) Panics.
Definition output_of {E} (tx : Transaction) (index : Z) : result TransactionOutput (Fault E) := ok_or (get_at (tx_outputs tx) index) Panics.
Definition slot_of {E} (input : TransactionInput) (slot : Z) : result InputSig (Fault E) := ok_or (get_at (sigs input) slot) Panics.

(** A loop that returns [false] at the first item that fails its test. *)
Fixpoint all_hold {A E} (test : A -> result bool E) (l : list A) : result bool E :=
  match l with
  | [] => Ok true
  | x :: l => let? holds := test x in if negb holds then Ok false else all_hold test l
  end.

#[global] Instance Ms45Hint_eq_dec : EqDecision Ms45Hint.
Proof. solve_decision. Defined.

(** ** [transaction_body.rs] *)

Definition header_fields (tx : Transaction) :=
  (tx_version tx, num_inputs tx, num_outputs tx, tx_network tx, locktime tx, subnetwork_id tx, gas tx, blen (payload tx),
   has_stealth_tweak tx, stealth_tweak tx).
Definition same_transaction_header (left right : Transaction) : bool :=
  bool_decide (header_fields left = header_fields right) && list_Z_eqb (payload left) (payload right).

Definition input_fields (i : TransactionInput) :=
  (o_transaction_id (previous_outpoint i), o_index (previous_outpoint i), sequence i, sig_op_count i, amount (utxo_entry i),
   spk_version (script_public_key (utxo_entry i)), spk_script_len (script_public_key (utxo_entry i)), ms45_hint i).
Definition output_fields (o : TransactionOutput) :=
  (value o, spk_version (out_script_public_key o), spk_script_len (out_script_public_key o), has_covenant o, covenant_auth_input o,
   covenant_id o, out_has_derivation_hint o, out_derivation_branch o, out_derivation_index o, out_ms45_hint o).
Definition slot_fields (s : InputSig) := (sg_present s, sg_signature s, sg_sighash_type s, sg_pubkey_pos s).

(** [a.script[..a.script_len] == b.script[..b.script_len]] *)
Definition same_script {E} (a b : ScriptPublicKey) : result bool (Fault E) :=
  let? script_a := part (spk_script a) 0 (spk_script_len a) in
  let? script_b := part (spk_script b) 0 (spk_script_len b) in
  Ok (list_Z_eqb script_a script_b).

Definition same_signature_slot (left right : InputSig) : bool := bool_decide (slot_fields left = slot_fields right).

Definition same_input_body {E} (left right : Transaction) (index : Z) : result bool (Fault E) :=
  let? a := input_of left index in
  let? b := input_of right index in
  if negb (bool_decide (input_fields a = input_fields b)) then Ok false
  else
    let? scripts := same_script (script_public_key (utxo_entry a)) (script_public_key (utxo_entry b)) in
    Ok (scripts && list_Z_eqb (redeem_bytes left index) (redeem_bytes right index) && (sig_count a <=? sig_count b)).

Definition same_existing_signatures {E} (left right : Transaction) (input_index : Z) : result bool (Fault E) :=
  let? a := input_of left input_index in
  all_hold (fun slot =>
    let? left_slot := slot_of a slot in
    let? b := input_of right input_index in
    let? right_slot := slot_of b slot in
    Ok (same_signature_slot left_slot right_slot)) (seqZ 0 (sig_count a)).

Definition same_transaction_inputs {E} (left right : Transaction) : result bool (Fault E) :=
  all_hold (fun index =>
    let? body := same_input_body left right index in
    if negb body then Ok false else same_existing_signatures left right index) (seqZ 0 (num_inputs left)).

Definition same_output_body {E} (left right : TransactionOutput) : result bool (Fault E) :=
  if negb (bool_decide (output_fields left = output_fields right)) then Ok false
  else same_script (out_script_public_key left) (out_script_public_key right).

Definition same_transaction_outputs {E} (left right : Transaction) : result bool (Fault E) :=
  all_hold (fun index =>
    let? a := output_of left index in
    let? b := output_of right index in
    same_output_body a b) (seqZ 0 (num_outputs left)).

Definition same_transaction_body {E} (left right : Transaction) : result bool (Fault E) :=
  if negb (same_transaction_header left right) then Ok false
  else
    let? inputs := same_transaction_inputs left right in
    if negb inputs then Ok false else same_transaction_outputs left right.

(** ** [keys.rs] *)

Definition p2pk_signing_key {E} (tx : Transaction) (input_index : Z) : result (list Z) (Fault E) :=
  let? input := input_of tx input_index in part (spk_script (script_public_key (utxo_entry input))) 1 33.

Definition pubkey_is_allowed_for_input (tx : Transaction) (input_index : Z) (target_xonly : list Z)
  : result bool (Fault AntiKleptoVerifyError) :=
  match analyze_input_script tx input_index with
  | (P2PK, _) => let? key := p2pk_signing_key tx input_index in Ok (list_Z_eqb key target_xonly)
  | (TxModel.Multisig, Some info) | (P2SH, Some info) =>
      let? keys := ok_or (slice (pubkeys info) 0 (n info)) Panics in
      Ok (existsb (fun key => list_Z_eqb key target_xonly) keys)
  | (P2SH, None) =>
      let? candidates := from_pskt (candidate_keys_for_input tx input_index) in
      Ok (existsb (fun '(key, _) => list_Z_eqb key target_xonly) candidates)
  | _ => Ok false
  end.

Definition covenant_signing_key (tx : Transaction) (input_index pubkey_pos : Z) : result (list Z) (Fault AntiKleptoVerifyError) :=
  let? candidates := from_pskt (candidate_keys_for_input tx input_index) in
  ok_or (fst <$> List.find (fun '(_, position) => position =? pubkey_pos) candidates) (Fails InvalidPublicKey).

Definition signing_pubkey_xonly (tx : Transaction) (input_index pubkey_pos : Z) : result (list Z) (Fault AntiKleptoVerifyError) :=
  match analyze_input_script tx input_index with
  | (P2PK, _) => p2pk_signing_key tx input_index
  | (TxModel.Multisig, Some info) | (P2SH, Some info) =>
      ok_or (keys ← slice (pubkeys info) 0 (n info); get_at keys pubkey_pos) (Fails InvalidPublicKey)
  | (P2SH, None) => covenant_signing_key tx input_index pubkey_pos
  | _ => fails InvalidPublicKey
  end.

(** ** [commitment.rs] *)

(** [record.public_key[1..33]] of a 33-byte array *)
Definition xonly (compressed : list Z) : list Z := drop 1 compressed.
Definition even (compressed : list Z) : bool := bool_decide (get_at compressed 0 = Some 2).

Definition position_of (record : NonceCommitment) : Z * Z := (input_index record, signature_slot record).
(** The order of pairs. *)
Definition before (a b : Z * Z) : bool := (fst a <? fst b) || ((fst a =? fst b) && (snd a <? snd b)).

Definition validate_commitment_order (previous : option (Z * Z)) (record : NonceCommitment) : result unit AntiKleptoVerifyError :=
  match previous with
  | Some value => if before value (position_of record) then Ok tt else Err InvalidProof
  | None => Ok tt
  end.

Definition commitment_position_is_valid (original : Transaction) (index slot : Z) : bool :=
  match get_at (tx_inputs original) index with
  | None => false
  | Some input =>
      if (num_inputs original <=? index) || (slot <? sig_count input) then false
      else bool_decide (is_Some (get_at (sigs input) slot))
  end.

Section verification.
Context (sha256 : list Z -> list Z) (keyed : list Z -> list Z -> list Z) `{Group} `{Bip340}.

Definition canonical_points_are_valid (record : NonceCommitment) : bool :=
  even (public_key record) && even (nonce_point record) && bool_decide (is_Some (public_key_from_sec1_bytes (public_key record)))
  && bool_decide (is_Some (public_key_from_sec1_bytes (nonce_point record))).

Definition validate_commitment_record (original : Transaction) (record : NonceCommitment)
  : result unit (Fault AntiKleptoVerifyError) :=
  let index := input_index record in
  let slot := signature_slot record in
  if negb (commitment_position_is_valid original index slot) || negb (canonical_points_are_valid record) then fails InvalidProof
  else
    let? allowed := pubkey_is_allowed_for_input original index (xonly (public_key record)) in
    if negb allowed then fails InvalidPublicKey else Ok tt.

Definition validate_host_commitment (original : Transaction) (commitment : Commitment) : result unit (Fault AntiKleptoVerifyError) :=
  let? _ := try_fold (fun previous_position index =>
    let? record := ok_or (record commitment index) (Fails InvalidProof) in
    let? _ := lift (validate_commitment_order previous_position record) in
    let? _ := validate_commitment_record original record in
    Ok (Some (position_of record))) None (seqZ 0 (len commitment)) in
  Ok tt.

(** ** [transcript.rs] *)

Definition added_signatures_for_input (original signed : Transaction) (index : Z) : result Z (Fault AntiKleptoVerifyError) :=
  let? original_input := input_of original index in
  let? signed_input := input_of signed index in
  let? added := ok_or (slice (sigs signed_input) (sig_count original_input) (sig_count signed_input)) (Fails TransactionMismatch) in
  if existsb (fun slot => negb (sg_present slot)) added then fails InvalidProof else Ok (blen added).

Definition added_signature_count (original signed : Transaction) : result Z (Fault AntiKleptoVerifyError) :=
  if negb (num_inputs original =? num_inputs signed) then fails TransactionMismatch
  else
    try_fold (fun added index =>
      let? more := added_signatures_for_input original signed index in
      ok_or (checked_add added more) (Fails TransactionMismatch)) 0 (seqZ 0 (num_inputs original)).

Definition validate_transcript_binding (original signed : Transaction) (commitment : Commitment) (signed_message : Signed)
  : result unit (Fault AntiKleptoVerifyError) :=
  if negb (list_Z_eqb (cm_session_id commitment) (sd_session_id signed_message))
     || negb (list_Z_eqb (cm_transaction_digest commitment) (sd_transaction_digest signed_message)) then fails SessionMismatch
  else
    let? same := same_transaction_body original signed in
    if negb same || negb (len commitment =? proof_count signed_message) then fails TransactionMismatch
    else
      let? added := added_signature_count original signed in
      if negb (added =? len commitment) then fails TransactionMismatch else Ok tt.

Definition validate_proof_position (signed : Transaction) (commitment : NonceCommitment) (proof : SignatureProof)
  : result unit (Fault AntiKleptoVerifyError) :=
  if negb (input_index commitment =? pf_input_index proof) || negb (signature_slot commitment =? pf_signature_slot proof)
     || (num_inputs signed <=? pf_input_index proof) then fails InvalidProof
  else
    let? input := input_of signed (pf_input_index proof) in
    if sig_count input <=? pf_signature_slot proof then fails InvalidProof else Ok tt.

Definition expected_added_sighash {E} (original : Transaction) (index : Z) : result Z (Fault E) :=
  let? input := input_of original index in
  Ok (if sig_count input =? 0 then SigHashType.to_byte SigHashType.All else sighash_type input).

Definition validate_proof_signature_metadata (original signed : Transaction) (commitment : NonceCommitment) (proof : SignatureProof)
    (actual : InputSig) : result unit (Fault AntiKleptoVerifyError) :=
  let index := pf_input_index proof in
  let? expected_sighash := expected_added_sighash original index in
  let? input := input_of signed index in
  if negb (bool_decide ((sg_present actual, sg_sighash_type actual, sg_sighash_type actual) = (true, sighash_type input, expected_sighash)))
  then fails InvalidProof
  else
    let? expected_xonly := signing_pubkey_xonly signed index (sg_pubkey_pos actual) in
    if negb (list_Z_eqb (xonly (public_key commitment)) expected_xonly) then fails InvalidPublicKey else Ok tt.

Definition verify_proof_signature (signed : Transaction) (commitment : Commitment) (host_secret : list Z)
    (commitment_record : NonceCommitment) (proof : SignatureProof) (actual : InputSig) : result unit (Fault AntiKleptoVerifyError) :=
  let index := pf_input_index proof in
  let? expected_xonly := signing_pubkey_xonly signed index (sg_pubkey_pos actual) in
  let? ty := ok_or (SigHashType.from_byte (sg_sighash_type actual)) (Fails InvalidSignature) in
  let message := calculate_sighash keyed signed index ty in
  let? _ := rmap_err (fun _ => Fails InvalidSignature) (schnorr_verify expected_xonly message (sg_signature actual)) in
  rmap_err (fun _ => Fails InvalidNonceRelation)
    (AntiKlepto.verify_nonce_relation sha256 (nonce_point commitment_record) (sg_signature actual) (cm_session_id commitment)
       host_secret (input_index commitment_record) (signature_slot commitment_record) (public_key commitment_record)).

Definition verify_transcript_proof (original signed : Transaction) (commitment : Commitment) (signed_message : Signed)
    (host_secret : list Z) (index : Z) : result unit (Fault AntiKleptoVerifyError) :=
  let? commitment_record := ok_or (record commitment index) (Fails InvalidProof) in
  let? proof := ok_or (proof signed_message index) (Fails InvalidProof) in
  let? _ := validate_proof_position signed commitment_record proof in
  let? input := input_of signed (pf_input_index proof) in
  let? actual := slot_of input (pf_signature_slot proof) in
  let? _ := validate_proof_signature_metadata original signed commitment_record proof actual in
  verify_proof_signature signed commitment host_secret commitment_record proof actual.

Definition verify_host_transcript (original signed : Transaction) (commitment : Commitment) (signed_message : Signed)
    (host_secret : list Z) : result unit (Fault AntiKleptoVerifyError) :=
  let? _ := validate_host_commitment original commitment in
  let? _ := validate_transcript_binding original signed commitment signed_message in
  for_range (len commitment) (verify_transcript_proof original signed commitment signed_message host_secret).

(** ** [wire.rs] *)

Definition decoded (bytes : list Z) : result Transaction (Fault AntiKleptoVerifyError) :=
  rmap_err (fun fault => match fault with Fails error => Fails (Pskt error) | Panics => Panics end)
    (decode_compact_kspt keyed verifies bytes).

Definition validate_host_commitment_wire (original : list Z) (commitment : Commitment) : result unit (Fault AntiKleptoVerifyError) :=
  let? original := decoded original in validate_host_commitment original commitment.

Definition verify_host_transcript_wire (original signed : list Z) (commitment : Commitment) (signed_message : Signed)
    (host_secret : list Z) : result unit (Fault AntiKleptoVerifyError) :=
  let? original := decoded original in
  let? signed := decoded signed in
  verify_host_transcript original signed commitment signed_message host_secret.

End verification.

(** ** [records.rs] *)

(** [reserved_records], of which only the bound on the capacity can fail. *)
Definition reserved_records (tx : Transaction) : result unit PsktError :=
  let? _ := ok_or (checked_mul (num_inputs tx) MAX_SIGS_PER_INPUT) SigCheck.TooManyInputs in Ok tt.

(** The slots of an input from its initial count on, with their numbers. *)
Definition added_signatures (tx : Transaction) (initial_counts : list Z) (index : Z) : result (list (Z * InputSig)) PsktError :=
  let? input := ok_or (get_at (tx_inputs tx) index) InvalidSignatureState in
  let? start := ok_or (get_at initial_counts index) InvalidSignatureState in
  let? signatures := ok_or (slice (sigs input) start (sig_count input)) InvalidSignatureState in
  Ok (imap (fun offset sig => (start + Z.of_nat offset, sig)) signatures).

(** [for input_index in 0..tx.num_inputs { for (slot, sig) in .. { records.push(..) } }] *)
Definition gather {R} (tx : Transaction) (initial_counts : list Z) (record_of : Z -> Z * InputSig -> result R PsktError)
  : result (list R) PsktError :=
  let? _ := reserved_records tx in
  let? records := try_map (fun index =>
    let? signatures := added_signatures tx initial_counts index in try_map (record_of index) signatures) (seqZ 0 (num_inputs tx)) in
  if bool_decide (concat records = []) then Err NoInputs else Ok (concat records).

(** [u32::try_from(input_index)] *)
Definition index_u32 (index : Z) : result Z PsktError := if index <=? u32_max then Ok index else Err SigCheck.TooManyInputs.

Definition nonce_commitment_record (index : Z) (added : Z * InputSig) : result NonceCommitment PsktError :=
  let '(slot, sig) := added in
  if negb (sg_present sig) || bool_decide (get_at (sg_pubkey_compressed sig) 0 = Some 0) then Err InvalidSignatureState
  else
    let? index := index_u32 index in
    Ok {| input_index := index; signature_slot := slot mod 2 ^ 8; public_key := 2 :: xonly (sg_pubkey_compressed sig);
          nonce_point := AntiKlepto.provisional_nonce_point (sg_signature sig) |}.

Definition nonce_commitment_records (tx : Transaction) (initial_counts : list Z) : result (list NonceCommitment) PsktError :=
  gather tx initial_counts nonce_commitment_record.

Definition proof_record (index : Z) (added : Z * InputSig) : result SignatureProof PsktError :=
  let '(slot, sig) := added in
  if negb (sg_present sig) then Err InvalidSignatureState
  else let? index := index_u32 index in Ok {| pf_input_index := index; pf_signature_slot := slot mod 2 ^ 8 |}.

Definition proof_records (tx : Transaction) (initial_counts : list Z) : result (list SignatureProof) PsktError :=
  gather tx initial_counts proof_record.

(** ** [finalization.rs] *)

Definition initial_signature_counts (tx : Transaction) : list Z := map sig_count (inputs tx).

Definition finalization_error (error : AntiKlepto.AntiKleptoError) : PsktError :=
  match error with AntiKlepto.ReusableProvisionalNonce => ReusableNonce | _ => SigningFailed end.

Definition with_signature (signature : list Z) (slot : InputSig) : InputSig := {|
  sg_signature := signature; sg_sighash_type := sg_sighash_type slot; sg_pubkey_pos := sg_pubkey_pos slot;
  sg_present := sg_present slot; sg_pubkey_compressed := sg_pubkey_compressed slot |}.

(** [input.sigs[slot].signature = signature] *)
Definition put_signature (slot : Z) (signature : list Z) (i : TransactionInput) : option TransactionInput :=
  sig ← get_at (sigs i) slot;
  Some (set_sigs (<[Z.to_nat slot := with_signature signature sig]> (sigs i)) (sig_count i) (sighash_type i) i).

(** A computation over the transaction in one with a second state. *)
Definition on_first {S S' E A} (m : Comp S E A) : Comp (S * S') E A := fun '(s, s') => let '(r, s) := m s in (r, (s, s')).

Section finalization.
Context (sha512 sha256 : list Z -> list Z) (keyed : list Z -> list Z -> list Z) `{Group} `{Bip340}.

Definition finalize_with_material (index slot sighash_byte : Z) (provisional private_key session_id host_secret : list Z)
  : Comp Transaction (Fault PsktError) unit :=
  let* ty := of_result (ok_or (SigHashType.from_byte sighash_byte) (Fails InvalidSigHashType)) in
  let* message := reads (fun tx => Ok (calculate_sighash keyed tx index ty)) in
  let* index_u32 := of_result (lift (index_u32 index)) in
  let* final_signature := of_result (rmap_err (fun error => Fails (finalization_error error))
    (AntiKlepto.tweak_provisional_signature sha256 private_key message provisional session_id host_secret index_u32 (slot mod 2 ^ 8))) in
  change_input index (put_signature slot final_signature).

(** The signature's slot is looked up, its key resolved, and the signature
    replaced. The state [S] is what the resolver captures. *)
Section matching.
Context {S : Type} (resolve : Transaction -> list Z -> S -> option SigningKeyMaterial * S) (session_id host_secret : list Z).

Definition resolved (compressed : list Z) : Comp (Transaction * S) (Fault PsktError) SigningKeyMaterial := fun '(tx, s) =>
  let '(found, s) := resolve tx compressed s in (ok_or found (Fails DerivationFailed), (tx, s)).

Definition finalize_signature_slot (index slot : Z) : Comp (Transaction * S) (Fault PsktError) unit :=
  let* sig := reads (fun '(tx, _) => let? input := input_of tx index in slot_of input slot) in
  if negb (sg_present sig) || bool_decide (get_at (sg_pubkey_compressed sig) 0 = Some 0) then of_result (fails InvalidSignatureState)
  else
    let* material := resolved (sg_pubkey_compressed sig) in
    if negb (list_Z_eqb (compressed_public_key material) (sg_pubkey_compressed sig)) then of_result (fails DerivationFailed)
    else
      on_first (finalize_with_material index slot (sg_sighash_type sig) (sg_signature sig) (private_key material) session_id host_secret).

Definition validate_signature_range (tx : Transaction) (index start end_ : Z) : result unit (Fault PsktError) :=
  let? input := input_of tx index in
  let? _ := ok_or (slice (sigs input) start end_) (Fails InvalidSignatureState) in Ok tt.

Definition finalize_input_signatures (index initial_count : Z) : Comp (Transaction * S) (Fault PsktError) Z :=
  let start := initial_count in
  let* end_ := reads (fun '(tx, _) => let? input := input_of tx index in Ok (sig_count input)) in
  let* _ := reads (fun '(tx, _) => validate_signature_range tx index start end_) in
  let* _ := for_each (seqZ start (end_ - start)) (fun slot => finalize_signature_slot index slot) in
  ret (end_ - start).

Definition finalize_matching (initial_counts : list Z) : Comp (Transaction * S) (Fault PsktError) Z :=
  let* counts := reads (fun '(tx, _) => ok_or (slice initial_counts 0 (num_inputs tx)) (Fails InvalidSignatureState)) in
  let* changed := for_count (imap (fun index count => (Z.of_nat index, count)) counts)
    (fun '(index, initial_count) => finalize_input_signatures index initial_count) in
  of_result (if changed =? 0 then fails NoInputs else Ok changed).

End matching.

(** The captured state is dropped afterwards. *)
Definition dropping {S A} (s : S) (m : Comp (Transaction * S) (Fault PsktError) A) : Comp Transaction (Fault PsktError) A := fun tx =>
  let '(r, (tx, _)) := m (tx, s) in (r, tx).

Definition raw_material (private_key compressed sig_pubkey : list Z) : option SigningKeyMaterial :=
  if list_Z_eqb sig_pubkey compressed then Some {| private_key := private_key; compressed_public_key := compressed |} else None.

Definition finalize_raw_key_signatures (private_key initial_counts session_id host_secret : list Z)
  : Comp Transaction (Fault PsktError) Z :=
  let* compressed := of_result (rmap_err (fun _ => Fails DerivationFailed) (compressed_pubkey_from_raw_key private_key)) in
  dropping tt (finalize_matching (fun _ sig_pubkey s => (raw_material private_key compressed sig_pubkey, s)) session_id host_secret initial_counts).

(** [context.rs]: [matching_material_with_checkpoint]. An account whose own
    key is the target answers, also with no material. *)
Fixpoint matching_material (target_xonly : list Z) (seeds : list Z) (c : SigningContext) : option SigningKeyMaterial * SigningContext :=
  match seeds with
  | [] => (None, c)
  | seed :: seeds =>
      if bool_decide (account_xonly c seed = Some target_xonly) then (account_material c seed, c)
      else
        match cached_address_material sha512 seed target_xonly c with
        | (Some material, c) => (Some material, c)
        | (None, c) => matching_material target_xonly seeds c
        end
  end.

(** As [stealth_scalar]: the tweak that cancels the key makes the code panic. *)
Definition stealth_material (c : SigningContext) (seed_index : Z) (tx : Transaction) (target_xonly : list Z)
  : option SigningKeyMaterial :=
  account ← account_material c seed_index;
  combined ← ok_option (stealth_scalar (private_key account) (stealth_tweak tx));
  let point := encode_point (generator_times combined) in
  if negb (list_Z_eqb (xonly point) target_xonly) then None
  else Some {| private_key := be_bytes 32 combined; compressed_public_key := point |}.

Fixpoint first_stealth_material (c : SigningContext) (tx : Transaction) (target_xonly : list Z) (seeds : list Z)
  : option SigningKeyMaterial :=
  match seeds with
  | [] => None
  | seed :: seeds =>
      match stealth_material c seed tx target_xonly with
      | Some material => Some material
      | None => first_stealth_material c tx target_xonly seeds
      end
  end.

Definition account_set_material (tx : Transaction) (sig_pubkey : list Z) (c : SigningContext)
  : option SigningKeyMaterial * SigningContext :=
  let target := xonly sig_pubkey in
  match matching_material target (seed_indices c) c with
  | (Some material, c) => (Some material, c)
  | (None, c) => (if has_stealth_tweak tx then first_stealth_material c tx target (seed_indices c) else None, c)
  end.

Definition finalize_account_set_signatures (accounts : list (list Z * bool)) (initial_counts session_id host_secret : list Z)
  : Comp Transaction (Fault PsktError) Z :=
  dropping (from_account_raw accounts) (finalize_matching account_set_material session_id host_secret initial_counts).

Definition finalize_account_signatures (account_key : Bip32.ExtendedPrivKey) (initial_counts session_id host_secret : list Z)
  : Comp Transaction (Fault PsktError) Z :=
  finalize_account_set_signatures [(Bip32.to_raw account_key, true)] initial_counts session_id host_secret.

End finalization.
