(* ===== verification/AntiKleptoProofs.v ===== *)
(** * Host-assisted signing: what the host's checks establish

    The comparison of transaction bodies, the commitment's records and the
    transcript: a transaction the host accepts differs from the one it sent
    only by new, valid signatures, one for each record of the commitment, whose
    nonces hold the host's contribution. *)

From S2P Require Import Prelude Bytes NetworkId Script Hd HdProofs Keys TxModel Sighash Schnorr SigCheck KsptCodec SigProofs KsptCodecProofs KsptCopy KsptAgree Adaptor AdaptorProofs Signing SigningProofs SigningMessages AntiKleptoSigning.
Import TxModel Verification KleptoProtocol AntiKleptoSigning.

(** ** Reading in range *)

Definition sig_at (input : TransactionInput) (slot : Z) : InputSig := default empty_sig (get_at (sigs input) slot).

(** What the types and a successful decoding guarantee. *)
Definition well_formed (tx : Transaction) : Prop := typed_tx tx /\ sound_tx tx.

(** What the checks need not to panic. *)
Record readable (tx : Transaction) : Prop := {
  rd_inputs : 0 <= num_inputs tx <= blen (tx_inputs tx);
  rd_outputs : 0 <= num_outputs tx <= blen (tx_outputs tx);
  rd_slots : forall i, blen (sigs (input_at tx i)) = MAX_SIGS_PER_INPUT;
  rd_count : forall i, 0 <= i < num_inputs tx -> 0 <= sig_count (input_at tx i) <= MAX_SIGS_PER_INPUT;
  rd_key : forall i, blen (spk_script (script_public_key (utxo_entry (input_at tx i)))) = MAX_SCRIPT_SIZE;
  rd_script : forall i, 0 <= i < num_inputs tx -> let spk := script_public_key (utxo_entry (input_at tx i)) in
    slice (spk_script spk) 0 (spk_script_len spk) = Some (script_bytes spk);
  rd_output_script : forall j, 0 <= j < num_outputs tx -> let spk := out_script_public_key (output_at tx j) in
    slice (spk_script spk) 0 (spk_script_len spk) = Some (script_bytes spk) }.

Lemma readable_of tx : well_formed tx -> readable tx.
Proof.
  intros [Ht [Hn _ Ho _ _ Hin Hout]]. pose proof Ht as (_ & _ & _ & [_ Hlen] & _). split.
  - lia.
  - rewrite Hlen. lia.
  - intros i. apply (input_at_typed tx i Ht).
  - intros i Hi. split; [apply (input_at_typed tx i Ht)|]. by destruct (Hin i Hi) as [[_ Hc _] _].
  - intros i. by pose proof (input_at_typed tx i Ht) as (_ & _ & _ & (_ & (_ & [_ Hl] & _) & _) & _).
  - intros i Hi spk. destruct (Hin i Hi) as [[Hl _ _] _]. apply script_slice; [|done]. apply (input_at_typed tx i Ht).
  - intros j Hj spk. destruct (Hout j Hj) as [Hl _]. apply script_slice; [|done]. apply (output_at_typed tx j Ht).
Qed.
#[local] Coercion readable_of : well_formed >-> readable.

Section reading.
Context {E : Type} (tx : Transaction) (Hrd : readable tx).

Lemma input_of_Ok i : 0 <= i < num_inputs tx -> input_of (E := E) tx i = Ok (input_at tx i).
Proof. intros Hi. unfold input_of. by rewrite (proj2 (input_at_range tx i Hi (proj2 (rd_inputs tx Hrd)))). Qed.

Lemma output_of_Ok j : 0 <= j < num_outputs tx -> output_of (E := E) tx j = Ok (output_at tx j).
Proof. intros Hj. unfold output_of, output_at. rewrite (get_at_in _ empty_output); [done|]. pose proof (rd_outputs tx Hrd). lia. Qed.

Lemma slot_of_Ok i slot : 0 <= slot < MAX_SIGS_PER_INPUT -> slot_of (E := E) (input_at tx i) slot = Ok (sig_at (input_at tx i) slot).
Proof. intros Hs. unfold slot_of. rewrite (get_at_in _ empty_sig); [done|]. by rewrite (rd_slots tx Hrd). Qed.

Lemma input_script i : 0 <= i < num_inputs tx ->
  part (E := E) (spk_script (script_public_key (utxo_entry (input_at tx i)))) 0 (spk_script_len (script_public_key (utxo_entry (input_at tx i))))
  = Ok (script_bytes (script_public_key (utxo_entry (input_at tx i)))).
Proof. intros Hi. by apply part_Ok, (rd_script tx Hrd). Qed.

Lemma output_script j : 0 <= j < num_outputs tx ->
  part (E := E) (spk_script (out_script_public_key (output_at tx j))) 0 (spk_script_len (out_script_public_key (output_at tx j)))
  = Ok (script_bytes (out_script_public_key (output_at tx j))).
Proof. intros Hj. by apply part_Ok, (rd_output_script tx Hrd). Qed.
End reading.

(** Every used slot is present and signs everything. *)
Lemma used_slot tx i slot : well_formed tx -> 0 <= i < num_inputs tx -> 0 <= slot < sig_count (input_at tx i) ->
  sg_present (sig_at (input_at tx i) slot) = true /\ sg_sighash_type (sig_at (input_at tx i) slot) = SigHashType.to_byte SigHashType.All.
Proof.
  intros Hwf Hi Hs. pose proof (rd_count tx Hwf i Hi) as Hc. pose proof (rd_slots tx Hwf i) as Hl. destruct Hwf as [_ [_ _ _ _ _ Hin _]].
  destruct (Hin i Hi) as [[_ _ Hslots] _]. unfold sig_at, get_at. rewrite (proj2 (Z.leb_le _ _)) by lia.
  destruct (lookup_lt_is_Some_2 (sigs (input_at tx i)) (Z.to_nat slot)) as [s Hlook]; [unfold blen in Hl; lia|]. rewrite Hlook.
  apply (Hslots (Z.to_nat slot) s); [lia|done|lia].
Qed.

(** ** The bodies *)

(** A computation that answers whether [P] holds, without a panic. *)
Definition answers {E} (r : result bool E) (P : Prop) : Prop := exists b, r = Ok b /\ (b = true <-> P).

Lemma answers_Ok {E} (b : bool) (P : Prop) : (b = true <-> P) -> answers (E := E) (Ok b) P.
Proof. by exists b. Qed.

Lemma answers_iff {E} (r : result bool E) P Q : (P <-> Q) -> answers r P -> answers r Q.
Proof. intros HPQ (b & -> & Hb). exists b. by rewrite <- HPQ. Qed.

Lemma answers_and {E} (r : result bool E) (k : result bool E) P Q : answers r P -> (P -> answers k Q) ->
  answers (rbind r (fun b => if negb b then Ok false else k)) (P /\ Q).
Proof.
  intros (b & -> & Hb) Hk. cbn [rbind]. destruct b; cbn [negb].
  - assert (HP : P) by by apply Hb. destruct (Hk HP) as (c & -> & Hc). exists c. split; [done|]. rewrite Hc. tauto.
  - exists false. split; [done|]. split; [done|]. intros [HP _]. by apply Hb in HP.
Qed.

Lemma answers_test {E} (b : bool) (k : result bool E) P Q : (b = true <-> P) -> (P -> answers k Q) ->
  answers (if negb b then Ok false else k) (P /\ Q).
Proof. intros Hb Hk. exact (answers_and (Ok b) k P Q (answers_Ok b P Hb) Hk). Qed.

Lemma all_hold_answers {A E} (test : A -> result bool E) (P : A -> Prop) l :
  (forall x, x ∈ l -> answers (test x) (P x)) -> answers (all_hold test l) (forall x, x ∈ l -> P x).
Proof.
  induction l as [|x l IH]; intros Hl.
  - apply answers_Ok. split; [set_solver|done].
  - cbn [all_hold]. eapply answers_iff; [|apply answers_and; [apply Hl; set_solver|intros _; apply IH; set_solver]].
    set_unfold. naive_solver.
Qed.

Lemma all_indices_answers {E} (test : Z -> result bool E) (P : Z -> Prop) n :
  (forall i, 0 <= i < n -> answers (test i) (P i)) -> answers (all_hold test (seqZ 0 n)) (forall i, 0 <= i < n -> P i).
Proof.
  intros Hall. eapply answers_iff; [|apply (all_hold_answers test P)].
  - split; intros H i Hi; apply H; [apply elem_of_seqZ; lia|apply elem_of_seqZ in Hi; lia].
  - intros i Hi%elem_of_seqZ. apply Hall. lia.
Qed.

Record same_input (left right : Transaction) (i : Z) : Prop := {
  same_fields : input_fields (input_at left i) = input_fields (input_at right i);
  same_script_of : script_bytes (script_public_key (utxo_entry (input_at left i))) = script_bytes (script_public_key (utxo_entry (input_at right i)));
  same_redeem : redeem_bytes left i = redeem_bytes right i;
  grown : sig_count (input_at left i) <= sig_count (input_at right i);
  kept : forall slot, 0 <= slot < sig_count (input_at left i) ->
    slot_fields (sig_at (input_at left i) slot) = slot_fields (sig_at (input_at right i) slot) }.

Definition same_output (left right : Transaction) (j : Z) : Prop :=
  output_fields (output_at left j) = output_fields (output_at right j) /\
  script_bytes (out_script_public_key (output_at left j)) = script_bytes (out_script_public_key (output_at right j)).

(** The second transaction is the first one with more signatures. *)
Record same_body (left right : Transaction) : Prop := {
  same_header : header_fields left = header_fields right /\ payload left = payload right;
  same_inputs : forall i, 0 <= i < num_inputs left -> same_input left right i;
  same_outputs : forall j, 0 <= j < num_outputs left -> same_output left right j }.

Lemma header_counts left right : header_fields left = header_fields right ->
  num_inputs left = num_inputs right /\ num_outputs left = num_outputs right.
Proof. by intros [=]. Qed.

Section bodies.
Context {E : Type} (left right : Transaction) (Hl : readable left) (Hr : readable right).

Lemma same_input_answers i : num_inputs left = num_inputs right -> 0 <= i < num_inputs left ->
  answers (E := Fault E) (let? body := same_input_body left right i in if negb body then Ok false else same_existing_signatures left right i)
    (same_input left right i).
Proof.
  intros Hn Hi. assert (Hi' : 0 <= i < num_inputs right) by (by rewrite <- Hn).
  set (a := input_at left i). set (b := input_at right i).
  eapply answers_iff; [|apply (answers_and (same_input_body left right i) (same_existing_signatures left right i)
    (input_fields a = input_fields b /\ script_bytes (script_public_key (utxo_entry a)) = script_bytes (script_public_key (utxo_entry b)) /\
       redeem_bytes left i = redeem_bytes right i /\ sig_count a <= sig_count b)
    (forall slot, 0 <= slot < sig_count a -> slot_fields (sig_at a slot) = slot_fields (sig_at b slot)))].
  - split; [intros ((? & ? & ? & ?) & ?); by split|]. by intros [].
  - unfold same_input_body. rewrite !input_of_Ok by done. cbn [rbind].
    eapply (answers_test (bool_decide (input_fields a = input_fields b))); [apply bool_decide_eq_true|]. intros _.
    unfold same_script, a, b. rewrite !input_script by done. cbn [rbind]. apply answers_Ok.
    rewrite !andb_true_iff, !list_Z_eqb_eq, Z.leb_le. tauto.
  - intros (_ & _ & _ & Hc). unfold same_existing_signatures. rewrite input_of_Ok by done. cbn [rbind]. apply all_indices_answers. intros slot Hs.
    pose proof (rd_count left Hl i Hi) as Hfive. rewrite slot_of_Ok by (fold a in Hfive; first [done|lia]). cbn [rbind].
    rewrite input_of_Ok by done. cbn [rbind]. rewrite slot_of_Ok by (fold a in Hfive; first [done|lia]). cbn [rbind]. apply answers_Ok. apply bool_decide_eq_true.
Qed.

Lemma same_output_answers j : num_outputs left = num_outputs right -> 0 <= j < num_outputs left ->
  answers (E := Fault E) (let? a := output_of left j in let? b := output_of right j in same_output_body a b) (same_output left right j).
Proof.
  intros Hn Hj. assert (Hj' : 0 <= j < num_outputs right) by (by rewrite <- Hn).
  rewrite !output_of_Ok by done. cbn [rbind]. unfold same_output_body. apply answers_test; [apply bool_decide_eq_true|]. intros _.
  unfold same_script. rewrite !output_script by done. cbn [rbind]. apply answers_Ok, list_Z_eqb_eq.
Qed.

(** The comparison decides [same_body]. *)
Lemma same_body_answers : answers (E := Fault E) (same_transaction_body left right) (same_body left right).
Proof.
  unfold same_transaction_body.
  eapply answers_iff; [|apply (answers_test (same_transaction_header left right) _
    (header_fields left = header_fields right /\ payload left = payload right)
    ((forall i, 0 <= i < num_inputs left -> same_input left right i) /\ (forall j, 0 <= j < num_outputs left -> same_output left right j)))].
  - split; [intros (? & ? & ?); by split|]. by intros [].
  - unfold same_transaction_header. by rewrite andb_true_iff, bool_decide_eq_true, list_Z_eqb_eq.
  - intros [Hh _]. destruct (header_counts _ _ Hh) as [Hn Hm]. apply answers_and.
    + apply all_indices_answers. intros i Hi. by apply same_input_answers.
    + intros _. apply all_indices_answers. intros j Hj. by apply same_output_answers.
Qed.
End bodies.

Lemma same_body_iff {E} left right : readable left -> readable right ->
  same_transaction_body (E := E) left right = Ok true <-> same_body left right.
Proof. intros Hl Hr. destruct (same_body_answers (E := E) left right Hl Hr) as (b & -> & Hb). rewrite <- Hb. split; congruence. Qed.

(** Equal bodies have equal signature hashes. *)
Lemma same_body_sighash keyed left right i : readable left -> readable right -> same_body left right -> 0 <= i < num_inputs left ->
  calculate_sighash keyed left i SigHashType.All = calculate_sighash keyed right i SigHashType.All.
Proof.
  intros Hl Hr [[Hh Hp] Hin Hout] Hi. destruct (header_counts _ _ Hh) as [Hn Hm].
  pose proof (rd_inputs _ Hl). pose proof (rd_inputs _ Hr). pose proof (rd_outputs _ Hl). pose proof (rd_outputs _ Hr).
  unfold header_fields in Hh. injection Hh as ? _ _ ? ? ? ? ? ? ?. apply sighash_ext; try done.
  - intros k Hk. unfold sighash_input. rewrite !inputs_indices by lia. rewrite !get_at_indices by lia. cbn [default from_option id].
    destruct (Hin k Hk) as [Hf Hs _ _ _]. injection Hf as -> -> -> -> -> -> _ _. by rewrite Hs.
  - intros j Hj. unfold sighash_output. rewrite !outputs_indices by lia. rewrite !get_at_indices by lia. cbn [default from_option id].
    destruct (Hout j Hj) as [Hf Hs]. injection Hf as -> -> _ -> -> -> _ _ _ _. by rewrite Hs.
Qed.

(** ** Positions *)

Lemma before_spec a b : before a b = true <-> a.1 < b.1 \/ (a.1 = b.1 /\ a.2 < b.2).
Proof. unfold before. rewrite orb_true_iff, andb_true_iff, !Z.ltb_lt, Z.eqb_eq. done. Qed.

Lemma before_trans a b c : before a b = true -> before b c = true -> before a c = true.
Proof. rewrite !before_spec. lia. Qed.

Lemma before_irrefl a : before a a = false.
Proof. apply not_true_iff_false. rewrite before_spec. lia. Qed.

Definition ascending : list (Z * Z) -> Prop := StronglySorted (fun a b => before a b = true).

Lemma ascending_NoDup l : ascending l -> NoDup l.
Proof.
  induction 1 as [|x l _ IH Hx]; constructor; [|done]. intros Hin. rewrite Forall_forall in Hx. specialize (Hx x Hin). by rewrite before_irrefl in Hx.
Qed.

(** The slots of [signed] beyond those of [original]. *)
Definition added_positions (original signed : Transaction) : list (Z * Z) :=
  concat (map (fun i => map (pair i) (seqZ (sig_count (input_at original i)) (sig_count (input_at signed i) - sig_count (input_at original i))))
    (seqZ 0 (num_inputs original))).
Definition added (original signed : Transaction) (i slot : Z) : Prop :=
  0 <= i < num_inputs original /\ sig_count (input_at original i) <= slot < sig_count (input_at signed i).

Lemma elem_of_added original signed i slot : (i, slot) ∈ added_positions original signed <-> added original signed i slot.
Proof.
  unfold added_positions, added. rewrite list_elem_of_In, in_concat. setoid_rewrite <- list_elem_of_In. split.
  - intros (l & Hl & Hx). apply list_elem_of_fmap in Hl as (k & -> & Hk%elem_of_seqZ).
    apply list_elem_of_fmap in Hx as (s & [= -> ->] & Hs%elem_of_seqZ). lia.
  - intros [Hi Hs]. eexists. split; [apply list_elem_of_fmap; exists i; split; [done|apply elem_of_seqZ; lia]|].
    apply list_elem_of_fmap. exists slot. split; [done|apply elem_of_seqZ; lia].
Qed.

(** ** Keys *)

Lemma names_signing tx i p key : 0 <= i < num_inputs tx -> readable tx -> signing_pubkey_xonly tx i p = Ok key ->
  (fst (analyze_input_script tx i) = P2PK -> p = 0) -> names_key tx i p key.
Proof.
  intros Hi Hwf Hkey Hp. unfold signing_pubkey_xonly in Hkey. destruct (analyze_input_script tx i) as [ty info] eqn:Han.
  assert (Hinfo : forall f, info = Some f -> ty = P2SH \/ ty = TxModel.Multisig ->
    ok_or (keys ← slice (pubkeys f) 0 (n f); get_at keys p) (Fails InvalidPublicKey) = Ok key -> names_key tx i p key).
  { intros f -> Hty Hf%ok_or_Ok. split; [|rewrite Han; by destruct Hty as [-> | ->]].
    unfold expected_xonly_for_position, multisig_xonly_for_position. rewrite Han. by destruct Hty as [-> | ->]; rewrite Hf. }
  destruct ty; cbn [fst] in Hp.
  - rewrite Hp by done. unfold p2pk_signing_key in Hkey. rewrite (input_of_Ok tx Hwf i Hi) in Hkey. cbn [rbind] in Hkey. apply part_Ok in Hkey.
    destruct (names_p2pk tx i info Han) as [Hn _]. replace key with (range (spk_script (script_public_key (utxo_entry (input_at tx i)))) 1 33); [done|].
    apply slice_Some in Hkey as (l1 & l3 & Heq & H1 & H2). rewrite Heq. unfold range. replace (Z.to_nat 1) with (length l1) by (unfold blen in H1; lia).
    rewrite drop_app_length. apply take_app_length'. unfold blen in *. lia.
  - destruct info as [f|]; [by apply (Hinfo f); [|left|]|]. unfold covenant_signing_key in Hkey.
    apply rbind_Ok_inv in Hkey as (candidates & Hc & Hf%ok_or_Ok). destruct (candidate_keys_for_input tx i) as [l|] eqn:Hcand; [|done]. injection Hc as ->.
    apply fmap_Some in Hf as ([k q] & Hfind & ->). apply List.find_some in Hfind as [Hin Hq%Z.eqb_eq]. subst q.
    eapply candidates_named; [done|done|]. by apply list_elem_of_In.
  - destruct info as [f|]; [by apply (Hinfo f); [|right|]|done].
  - by destruct info.
Qed.

(** ** The transcript *)

Section transcript.
Context (sha256 : list Z -> list Z) (keyed : list Z -> list Z -> list Z) `{GroupLaws} `{!CurveLaws} `{Bip340}.
Context (original signed : Transaction) (Ho : well_formed original) (Hs : well_formed signed).

(** What the host may rely on for one new signature: the key is one of the
    script's and was promised, the signature is valid for it over what the
    host sent, and its nonce is the promised one with the host's contribution
    added, up to the sign that makes it even. *)
Record assisted (session host_secret : list Z) (i slot : Z) (r : NonceCommitment) : Prop := {
  as_position : position_of r = (i, slot);
  as_allowed : pubkey_is_allowed_for_input original i (xonly (public_key r)) = Ok true;
  as_key : signing_pubkey_xonly signed i (sg_pubkey_pos (sig_at (input_at signed i) slot)) = Ok (xonly (public_key r));
  as_valid : schnorr_verify (xonly (public_key r)) (calculate_sighash keyed original i SigHashType.All)
               (sg_signature (sig_at (input_at signed i) slot)) = Ok tt;
  as_good : (fst (analyze_input_script signed i) = P2PK -> sg_pubkey_pos (sig_at (input_at signed i) slot) = 0) ->
    good_slot keyed verifies signed i (sig_at (input_at signed i) slot);
  as_nonce : exists base h, public_key_from_sec1_bytes (nonce_point r) = Some base /\
    AntiKlepto.host_scalar sha256 session host_secret i slot (public_key r) (nonce_point r) = Ok h /\
    (Adaptor.xonly_to_point (r_bytes (sg_signature (sig_at (input_at signed i) slot))) = Ok (point_add base (generator_times h)) \/
     Adaptor.xonly_to_point (r_bytes (sg_signature (sig_at (input_at signed i) slot))) = Ok (point_neg (point_add base (generator_times h)))) }.

(** The records of a commitment that was validated. *)
Lemma validated_records c indices previous last :
  try_fold (fun previous_position index =>
    let? record := ok_or (record c index) (Fails InvalidProof) in
    let? _ := lift (validate_commitment_order previous_position record) in
    let? _ := validate_commitment_record original record in
    Ok (Some (position_of record))) previous indices = Ok last ->
  exists rs, Forall2 (fun k r => record c k = Some r) indices rs /\ Forall (fun r => validate_commitment_record original r = Ok tt) rs /\
    ascending (map position_of rs) /\ forall p, previous = Some p -> Forall (fun q => before p q = true) (map position_of rs).
Proof.
  revert previous. induction indices as [|k indices IH]; intros previous; cbn [try_fold].
  - intros _. exists []. repeat split; constructor.
  - intros (p & (r & Hr%ok_or_Ok & ([] & Hord%lift_Ok & ([] & Hrec & [= <-])%rbind_Ok_inv)%rbind_Ok_inv)%rbind_Ok_inv & Hrest)%rbind_Ok_inv.
    destruct (IH _ Hrest) as (rs & Hrs & Hval & Hasc & Hprev). specialize (Hprev _ eq_refl). exists (r :: rs).
    split; [by constructor|]. split; [by constructor|]. split; [by constructor|]. intros q ->. unfold validate_commitment_order in Hord.
    destruct (before q (position_of r)) eqn:Hq; [|done]. constructor; [done|]. eapply Forall_impl; [exact Hprev|].
    intros x Hx. by apply (before_trans q (position_of r)).
Qed.

Lemma validated_commitment c : validate_host_commitment original c = Ok tt ->
  exists rs, Forall2 (fun k r => record c k = Some r) (seqZ 0 (len c)) rs /\ NoDup (map position_of rs) /\
    Forall (fun r => validate_commitment_record original r = Ok tt) rs.
Proof.
  intros (last & Hfold & _)%rbind_Ok_inv. destruct (validated_records _ _ _ _ Hfold) as (rs & Hrs & Hval & Hasc & _).
  exists rs. split; [done|]. split; [by apply ascending_NoDup|done].
Qed.

Lemma record_position r : validate_commitment_record original r = Ok tt ->
  0 <= input_index r < num_inputs original /\ sig_count (input_at original (input_index r)) <= signature_slot r /\
  pubkey_is_allowed_for_input original (input_index r) (xonly (public_key r)) = Ok true.
Proof.
  unfold validate_commitment_record. destruct (_ || _) eqn:Hb; [done|]. apply orb_false_iff in Hb as [Hpos%negb_false_iff _].
  intros (b & Hallowed & Hb)%rbind_Ok_inv. destruct b; [|done]. unfold commitment_position_is_valid in Hpos.
  destruct (get_at (tx_inputs original) (input_index r)) as [input|] eqn:Hin; [|done]. pose proof (get_at_range _ _ _ Hin).
  destruct (_ || _) eqn:Hor; [done|]. apply orb_false_iff in Hor as [Hn%Z.leb_gt Hc%Z.ltb_ge]. split; [lia|]. split; [|done].
  unfold input_at. by rewrite Hin.
Qed.

(** One proof of the transcript. *)
Lemma proof_checked c m secret k r : same_body original signed -> record c k = Some r ->
  validate_commitment_record original r = Ok tt ->
  verify_transcript_proof sha256 keyed original signed c m secret k = Ok tt ->
  added original signed (input_index r) (signature_slot r) /\ assisted (cm_session_id c) secret (input_index r) (signature_slot r) r.
Proof.
  intros Hbody Hr Hrec Hproof. destruct (record_position r Hrec) as (Hi & Hslot & Hallowed).
  assert (Hi' : 0 <= input_index r < num_inputs signed) by (destruct (header_counts _ _ (proj1 (same_header _ _ Hbody))) as [<- _]; done).
  assert (Hnonneg : 0 <= signature_slot r) by (pose proof (rd_count original Ho _ Hi); lia).
  unfold verify_transcript_proof in Hproof. rewrite Hr in Hproof. cbn [ok_or rbind] in Hproof.
  apply rbind_Ok_inv in Hproof as (p & _ & ([] & Hpos & Hproof)%rbind_Ok_inv). unfold validate_proof_position in Hpos.
  destruct (_ || _) eqn:Hor in Hpos; [done|]. apply orb_false_iff in Hor as [[Hpi%negb_false_iff%Z.eqb_eq Hps%negb_false_iff%Z.eqb_eq]%orb_false_iff _].
  rewrite <- Hpi, <- Hps in *. rewrite (input_of_Ok signed Hs) in Hpos by done. cbn [rbind] in Hpos.
  destruct (Z.leb_spec (sig_count (input_at signed (input_index r))) (signature_slot r)) as [|Hused]; [done|].
  pose proof (rd_count signed Hs _ Hi') as Hfive. rewrite (input_of_Ok signed Hs) in Hproof by done. cbn [rbind] in Hproof.
  rewrite (slot_of_Ok signed Hs) in Hproof by lia. cbn [rbind] in Hproof. set (slot := sig_at _ _) in *.
  apply rbind_Ok_inv in Hproof as ([] & Hmeta & Hsig). unfold validate_proof_signature_metadata in Hmeta. rewrite <- Hpi in Hmeta. cbv zeta in Hmeta.
  apply rbind_Ok_inv in Hmeta as (ty & _ & Hmeta). rewrite (input_of_Ok signed Hs) in Hmeta by done. cbn [rbind] in Hmeta.
  destruct (negb (bool_decide _)) in Hmeta; [done|]. apply rbind_Ok_inv in Hmeta as (key & Hkey & Hmeta).
  destruct (list_Z_eqb _ key) eqn:Ek; [|done]. apply list_Z_eqb_eq in Ek as <-.
  unfold verify_proof_signature in Hsig. rewrite <- Hpi, Hkey in Hsig. cbv zeta in Hsig. cbn [rbind] in Hsig.
  destruct (used_slot signed (input_index r) (signature_slot r) Hs) as [Hpresent Hall]; [done|lia|]. fold slot in Hpresent, Hall. rewrite Hall in Hsig.
  change (SigHashType.from_byte (SigHashType.to_byte SigHashType.All)) with (Some SigHashType.All) in Hsig. cbn [ok_or rbind] in Hsig.
  rewrite <- (same_body_sighash keyed original signed _ Ho Hs Hbody Hi) in Hsig. apply rbind_Ok_inv in Hsig as ([] & Hver & Hrel).
  assert (Hverify : schnorr_verify (xonly (public_key r)) (calculate_sighash keyed original (input_index r) SigHashType.All) (sg_signature slot) = Ok tt)
    by by destruct (schnorr_verify _ _ _) as [[]|].
  assert (Hnonce : AntiKlepto.verify_nonce_relation sha256 (nonce_point r) (sg_signature slot) (cm_session_id c) secret (input_index r)
    (signature_slot r) (public_key r) = Ok tt) by by destruct (AntiKlepto.verify_nonce_relation _ _ _ _ _ _ _ _) as [[]|].
  assert (H64 : bytes_of 64 (sg_signature slot)).
  { pose proof (input_at_typed signed (input_index r) (proj1 Hs)) as (_ & _ & _ & _ & (Hsigs & _) & _).
    apply (get_default_typed typed_sig _ (signature_slot r) empty_sig); [done|apply typed_empty_sig]. }
  split; [split; [done|fold slot in Hused; lia]|]. split; try done; fold slot.
  - intros Hp2pk. split; [done|]. unfold verify_signature_bytes. rewrite Hall, Z.eqb_refl. cbn [negb].
    destruct (names_signing signed (input_index r) _ _ Hi' Hs Hkey Hp2pk) as [-> Hcov]. cbn [rbind].
    assert (Hok : verifies (xonly (public_key r)) (calculate_sighash keyed signed (input_index r) SigHashType.All) (sg_signature slot) = true).
    { unfold verifies. rewrite <- (same_body_sighash keyed original signed _ Ho Hs Hbody Hi). by rewrite Hverify. }
    destruct (analyze_input_script signed (input_index r)) as [[] [info|]] eqn:Hscript; cbn [rbind]; try (by rewrite Hok).
    rewrite Hcov by done. cbn [rbind]. by rewrite Hok.
  - destruct (nonce_relation_sound sha256 _ _ _ _ _ _ _ H64 Hnonce) as (base & h & Hb & Hh & Hor). by exists base, h.
Qed.

(** Counting the new signatures. *)
Lemma added_for_input i n : 0 <= i < num_inputs original -> 0 <= i < num_inputs signed ->
  added_signatures_for_input original signed i = Ok n -> n = sig_count (input_at signed i) - sig_count (input_at original i) /\ 0 <= n.
Proof.
  intros Hi Hi'. unfold added_signatures_for_input. rewrite (input_of_Ok original Ho) by done. rewrite (input_of_Ok signed Hs) by done. cbn [rbind].
  intros (l & Hl%ok_or_Ok & Hn)%rbind_Ok_inv. destruct (existsb _ l); [done|]. injection Hn as <-. split; [|apply blen_nonneg].
  apply slice_Some in Hl as (? & ? & _ & _ & Hl). lia.
Qed.

Lemma added_count n : added_signature_count original signed = Ok n -> n = blen (added_positions original signed).
Proof.
  unfold added_signature_count. destruct (Z.eqb_spec (num_inputs original) (num_inputs signed)) as [Hn|]; [|done]. cbn [negb]. unfold added_positions.
  assert (Hall : Forall (fun i => 0 <= i < num_inputs original) (seqZ 0 (num_inputs original))) by (apply Forall_forall; intros i Hi%elem_of_seqZ; lia).
  enough (Hgen : forall l acc, Forall (fun i => 0 <= i < num_inputs original) l -> forall n,
    try_fold (fun added index => let? more := added_signatures_for_input original signed index in ok_or (checked_add added more) (Fails TransactionMismatch)) acc l = Ok n ->
    n = acc + blen (concat (map (fun i => map (pair i) (seqZ (sig_count (input_at original i)) (sig_count (input_at signed i) - sig_count (input_at original i)))) l))).
  { intros Hfold. by apply (Hgen _ 0 Hall) in Hfold. }
  clear n Hall. induction l as [|i l IH]; intros acc Hl n; cbn [try_fold map concat]; [intros [= <-]; change (blen []) with 0; lia|].
  apply Forall_cons in Hl as [Hi Hl]. intros (sum & (more & Hmore & Hsum%ok_or_Ok)%rbind_Ok_inv & Hrest)%rbind_Ok_inv.
  apply added_for_input in Hmore as [-> H0']; [|lia..]. apply checked_u64_Some in Hsum as [-> _]. apply (IH _ Hl) in Hrest as ->.
  rewrite blen_app. unfold blen at 2. rewrite length_map, length_seqZ. lia.
Qed.

Lemma transcript_parts c m secret : verify_host_transcript sha256 keyed original signed c m secret = Ok tt ->
  validate_host_commitment original c = Ok tt /\ same_body original signed /\ blen (added_positions original signed) = len c /\
  forall k, 0 <= k < len c -> verify_transcript_proof sha256 keyed original signed c m secret k = Ok tt.
Proof.
  intros ([] & Hcommit & ([] & Hbind & Hproofs)%rbind_Ok_inv)%rbind_Ok_inv. split; [done|]. unfold validate_transcript_binding in Hbind.
  destruct (_ || _) in Hbind; [done|]. apply rbind_Ok_inv in Hbind as (b & Hb & Hbind). destruct b; [cbn [negb orb] in Hbind|done].
  apply (same_body_iff original signed Ho Hs) in Hb. split; [done|]. destruct (negb (len c =? _)); [done|].
  apply rbind_Ok_inv in Hbind as (n & Hn & Hbind). apply added_count in Hn as ->. destruct (Z.eqb_spec (blen (added_positions original signed)) (len c)); [|done].
  split; [done|]. intros k Hk. by apply (for_range_each _ _ k Hproofs).
Qed.

(** Distinct positions among the added ones, as many as there are, are all of
    them. *)
Lemma all_covered rs : NoDup (map position_of rs) -> blen rs = blen (added_positions original signed) ->
  Forall (fun r => added original signed (input_index r) (signature_slot r)) rs ->
  forall i slot, added original signed i slot -> exists r, r ∈ rs /\ position_of r = (i, slot).
Proof.
  intros Hnd Hlen Hadded i slot Hin. apply elem_of_added, list_elem_of_In in Hin.
  assert (Hincl : List.incl (added_positions original signed) (map position_of rs)).
  { apply List.NoDup_length_incl; [by apply NoDup_ListNoDup|unfold blen in Hlen; rewrite length_map; lia|].
    intros [i' slot'] Hp%list_elem_of_In. apply list_elem_of_fmap in Hp as (r & [= -> ->] & Hr). apply list_elem_of_In, elem_of_added.
    rewrite Forall_forall in Hadded. by apply Hadded. }
  apply Hincl, list_elem_of_In, list_elem_of_fmap in Hin as (r & -> & Hr). by exists r.
Qed.
End transcript.

(** ** No check panics *)

Lemma safe_try_fold {A B E} (f : B -> A -> result B (Fault E)) acc l :
  (forall b x, x ∈ l -> safe (f b x)) -> safe (try_fold f acc l).
Proof.
  revert acc. induction l as [|x l IH]; intros acc Hf; [done|]. cbn [try_fold]. apply safe_bind; [apply Hf; set_solver|].
  intros b _. apply IH. set_solver.
Qed.

Lemma safe_ok_or {A E} (o : option A) (e : E) : safe (ok_or o (Fails e)).
Proof. by destruct o. Qed.

Lemma safe_rmap {A E E'} (r : result A E) (e : E -> E') : safe (rmap_err (fun error => Fails (e error)) r).
Proof. by destruct r. Qed.

Lemma safe_answers {E} (r : result bool (Fault E)) P : answers r P -> safe r.
Proof. intros (b & -> & _). done. Qed.

Section safety.
Context (sha256 : list Z -> list Z) (keyed : list Z -> list Z -> list Z) `{Group} `{Bip340}.

Section keys.
Context (tx : Transaction) (Hwf : well_formed tx) (i : Z) (Hi : 0 <= i < num_inputs tx).

Lemma safe_p2pk : safe (E := AntiKleptoVerifyError) (p2pk_signing_key tx i).
Proof.
  unfold p2pk_signing_key. rewrite (input_of_Ok tx Hwf i Hi). cbn [rbind]. apply safe_part; [done..|].
  pose proof (input_at_typed tx i (proj1 Hwf)) as (_ & _ & _ & (_ & (_ & [_ Hl] & _) & _) & _). rewrite Hl. done.
Qed.

Lemma safe_info ty info : analyze_input_script tx i = (ty, Some info) -> ty = P2SH \/ ty = TxModel.Multisig ->
  exists keys, slice (pubkeys info) 0 (n info) = Some keys.
Proof.
  intros Han Hty. destruct (info_shape tx i ty info Han Hty) as [Hl Hn]. destruct (slice _ 0 _) as [keys|] eqn:Hk; [by exists keys|].
  apply slice_None in Hk; lia.
Qed.

Lemma safe_allowed target : safe (pubkey_is_allowed_for_input tx i target).
Proof.
  unfold pubkey_is_allowed_for_input. destruct (analyze_input_script tx i) as [ty info] eqn:Han.
  assert (Hinfo : forall f, info = Some f -> ty = P2SH \/ ty = TxModel.Multisig -> safe (E := AntiKleptoVerifyError)
    (let? keys := ok_or (slice (pubkeys f) 0 (n f)) Panics in Ok (existsb (fun key => list_Z_eqb key target) keys))).
  { intros f -> Hty. destruct (safe_info ty f Han Hty) as [keys ->]. done. }
  destruct ty; [apply safe_bind; [apply safe_p2pk|done]| |destruct info; [by apply Hinfo; [|right]|done]|by destruct info].
  destruct info; [by apply Hinfo; [|left]|]. apply safe_bind; [apply safe_rmap|done].
Qed.

Lemma safe_signing p : safe (signing_pubkey_xonly tx i p).
Proof.
  unfold signing_pubkey_xonly. destruct (analyze_input_script tx i) as [[] [info|]]; try apply safe_p2pk; try apply safe_ok_or; try done.
  apply safe_bind; [apply safe_rmap|]. intros. apply safe_ok_or.
Qed.
End keys.

Lemma safe_commitment original c : well_formed original -> safe (validate_host_commitment original c).
Proof.
  intros Ho. apply safe_bind; [|done]. apply safe_try_fold. intros prev k _. apply safe_bind; [apply safe_ok_or|]. intros r _.
  apply safe_bind; [apply safe_lift|]. intros _ _. apply safe_bind; [|done]. unfold validate_commitment_record.
  apply safe_if; [done|]. intros [Hpos%negb_false_iff _]%orb_false_iff. unfold commitment_position_is_valid in Hpos.
  destruct (get_at (tx_inputs original) (input_index r)) eqn:Hin; [|done]. apply get_at_range in Hin.
  destruct (_ || _) eqn:Hor in Hpos; [done|]. apply orb_false_iff in Hor as [Hn%Z.leb_gt _].
  apply safe_bind; [apply safe_allowed; [done|lia]|]. intros b _. by apply safe_if.
Qed.

Lemma safe_added original signed : well_formed original -> well_formed signed -> safe (added_signature_count original signed).
Proof.
  intros Ho Hs. unfold added_signature_count. destruct (Z.eqb_spec (num_inputs original) (num_inputs signed)) as [Hn|]; [|done]. cbn [negb].
  apply safe_try_fold. intros acc i Hi%elem_of_seqZ. apply safe_bind; [|intros; apply safe_ok_or]. unfold added_signatures_for_input.
  rewrite (input_of_Ok original Ho) by lia. rewrite (input_of_Ok signed Hs) by lia. cbn [rbind]. apply safe_bind; [apply safe_ok_or|].
  intros l _. by apply safe_if.
Qed.

Lemma safe_proof original signed c m secret k : well_formed original -> well_formed signed -> num_inputs original = num_inputs signed ->
  (forall r, record c k = Some r -> 0 <= input_index r /\ 0 <= signature_slot r) ->
  safe (verify_transcript_proof sha256 keyed original signed c m secret k).
Proof.
  intros Ho Hs Hn Hrec. unfold verify_transcript_proof. apply safe_bind; [apply safe_ok_or|]. intros r Hr%ok_or_Ok. destruct (Hrec r Hr) as [Hi0 Hs0].
  apply safe_bind; [apply safe_ok_or|]. intros p _. unfold validate_proof_position.
  destruct (_ || _) eqn:Hor; [done|]. apply orb_false_iff in Hor as [[Hpi%negb_false_iff%Z.eqb_eq Hps%negb_false_iff%Z.eqb_eq]%orb_false_iff Hnum%Z.leb_gt].
  rewrite <- Hpi in *. assert (Hi : 0 <= input_index r < num_inputs signed) by lia. assert (Hi' : 0 <= input_index r < num_inputs original) by lia.
  rewrite (input_of_Ok signed Hs) by done. cbn [rbind]. apply safe_bind; [by apply safe_if|]. intros [] Hused.
  destruct (Z.leb_spec (sig_count (input_at signed (input_index r))) (pf_signature_slot p)) as [|Hlt]; [done|].
  cbn [rbind]. rewrite (slot_of_Ok signed Hs) by (pose proof (rd_count signed Hs _ Hi); lia). cbn [rbind].
  apply safe_bind.
  - unfold validate_proof_signature_metadata. rewrite <- Hpi. cbv zeta. unfold expected_added_sighash. rewrite (input_of_Ok original Ho) by done. cbn [rbind].
    rewrite (input_of_Ok signed Hs) by done. cbn [rbind]. apply safe_if; [done|]. intros _. apply safe_bind; [by apply safe_signing|]. intros key _. by apply safe_if.
  - intros _ _. unfold verify_proof_signature. rewrite <- Hpi. cbv zeta. apply safe_bind; [by apply safe_signing|]. intros key _.
    apply safe_bind; [apply safe_ok_or|]. intros ty _. apply safe_bind; [|intros; apply safe_rmap]. apply safe_rmap.
Qed.

Lemma safe_transcript original signed c m secret : well_formed original -> well_formed signed ->
  safe (verify_host_transcript sha256 keyed original signed c m secret).
Proof.
  intros Ho Hs. apply safe_bind; [by apply safe_commitment|]. intros [] Hc. apply safe_bind.
  - unfold validate_transcript_binding. apply safe_if; [done|]. intros _. destruct (same_body_answers (E := AntiKleptoVerifyError) original signed Ho Hs) as (b & -> & _).
    cbn [rbind]. apply safe_if; [done|]. intros _. apply safe_bind; [by apply safe_added|]. intros n _. by apply safe_if.
  - intros [] Hb. unfold validate_transcript_binding in Hb. destruct (_ || _) in Hb; [done|].
    apply rbind_Ok_inv in Hb as (b & Hb & Hrest). destruct b; [|done]. apply (same_body_iff original signed Ho Hs) in Hb.
    destruct (header_counts _ _ (proj1 (same_header _ _ Hb))) as [Hn _].
    destruct (validated_commitment original c Hc) as (rs & Hrs & _ & Hval). apply safe_try_fold. intros _ k Hk. apply safe_proof; [done..|].
    intros r Hr. apply list_elem_of_lookup in Hk as [j Hj]. destruct (Forall2_lookup_l _ _ _ _ _ Hrs Hj) as (r' & Hj' & Hr'). rewrite Hr in Hr'. injection Hr' as <-.
    rewrite Forall_lookup in Hval. destruct (record_position original r (Hval j r Hj')) as (Hi & Hslot & _).
    pose proof (rd_count original Ho _ Hi). lia.
Qed.
End safety.

(** What a decoder accepts is well formed. *)
Lemma decoded_well_formed keyed schnorr_verify data tx : bytes_ok data -> blen data <= usize_max ->
  decode_compact_kspt keyed schnorr_verify data = Ok tx -> well_formed tx.
Proof.
  intros Hb Hlen. unfold decode_compact_kspt. destruct (parse_compact_kspt keyed schnorr_verify data new_tx) as [[[]|] t] eqn:Hp; [|done]. intros [= ->].
  assert (Hnew : typed_tx new_tx) by by_decide.
  destruct (parse_compact_inv keyed schnorr_verify data new_tx tx Hnew Hb Hlen ltac:(by vm_compute) Hp) as (d & [Henc _] & Hstore & _ & Hbuilt & _ & Hvalid).
  assert (Ht : typed_tx tx) by (rewrite Hbuilt; apply (typed_built _ _ _ (codec_limits new_tx)); [done|done|apply Hnew|done]).
  split; [done|]. by apply validated_sound.
Qed.

(** C18: a transaction the host accepts after a host-assisted signing session is
    the one it sent with more signatures: the bodies agree, so every signature
    hash is unchanged, the signatures that were there are kept, and each new
    one has exactly one record of the commitment, made for a key the script
    allows, is valid for that key, and has the committed nonce with the host's
    contribution added. The check cannot panic. *)
Theorem host_transcript_sound (sha256 : list Z -> list Z) (keyed : list Z -> list Z -> list Z) `{GroupLaws} `{!CurveLaws} `{Bip340}
    original signed commitment message host_secret : well_formed original -> well_formed signed ->
  verify_host_transcript sha256 keyed original signed commitment message host_secret <> Err Panics /\
  (verify_host_transcript sha256 keyed original signed commitment message host_secret = Ok tt ->
   same_body original signed /\
   (forall i, 0 <= i < num_inputs original ->
      calculate_sighash keyed signed i SigHashType.All = calculate_sighash keyed original i SigHashType.All) /\
   blen (added_positions original signed) = len commitment /\
   forall i slot, added original signed i slot ->
     exists k r, record commitment k = Some r /\ assisted sha256 keyed original signed (cm_session_id commitment) host_secret i slot r /\
       forall k' r', 0 <= k' -> record commitment k' = Some r' -> position_of r' = (i, slot) -> k' = k).
Proof.
  intros Ho Hs. split; [by apply safe_transcript|]. intros Hok.
  destruct (transcript_parts sha256 keyed original signed Ho Hs _ _ _ Hok) as (Hcommit & Hbody & Hcount & Hproofs).
  destruct (validated_commitment original commitment Hcommit) as (rs & Hrs & Hnd & Hval).
  split; [done|]. split; [intros i Hi; symmetry; exact (same_body_sighash keyed original signed i Ho Hs Hbody Hi)|]. split; [done|].
  assert (Hall : forall j r, rs !! j = Some r -> record commitment (Z.of_nat j) = Some r /\ 0 <= Z.of_nat j < len commitment).
  { intros j r Hj. destruct (Forall2_lookup_r _ _ _ _ _ Hrs Hj) as (k & Hk & Hr). apply lookup_seqZ in Hk as [-> Hk]. rewrite Z.add_0_l in *. split; [done|lia]. }
  assert (Hchecked : forall j r, rs !! j = Some r -> added original signed (input_index r) (signature_slot r) /\
    assisted sha256 keyed original signed (cm_session_id commitment) host_secret (input_index r) (signature_slot r) r).
  { intros j r Hj. destruct (Hall j r Hj) as [Hr Hk]. rewrite Forall_lookup in Hval.
    exact (proof_checked sha256 keyed original signed Ho Hs _ _ _ _ _ Hbody Hr (Hval j r Hj) (Hproofs _ Hk)). }
  assert (Hsize : blen rs = len commitment).
  { apply Forall2_length in Hrs. rewrite length_seqZ in Hrs. unfold blen. rewrite <- Hrs. pose proof (blen_nonneg (added_positions original signed)). lia. }
  intros i slot Hadd. destruct (all_covered original signed rs Hnd) with (i := i) (slot := slot) as (r & Hr & Hpos); [lia| |done|].
  { apply Forall_lookup. intros j r Hj. by apply (Hchecked j). }
  apply list_elem_of_lookup in Hr as [j Hj]. destruct (Hall j r Hj) as [Hrj _]. exists (Z.of_nat j), r. split; [done|]. split.
  - injection Hpos as <- <-. by apply (Hchecked j).
  - intros k' r' Hk' Hr' Hpos'. assert (Hlt : k' < len commitment) by (unfold record in Hr'; destruct (Z.leb_spec (count commitment) k'); [done|]; unfold len; lia).
    destruct (lookup_lt_is_Some_2 rs (Z.to_nat k')) as [r2 Hj2]; [unfold blen in Hsize; lia|]. destruct (Hall _ _ Hj2) as [Hr2 _].
    rewrite Z2Nat.id in Hr2 by done. rewrite Hr' in Hr2. injection Hr2 as <-.
    enough (Z.to_nat k' = j) by lia. apply (NoDup_lookup (map position_of rs) _ _ (i, slot)); [done|..]; rewrite list_lookup_fmap; [rewrite Hj2|rewrite Hj]; cbn; congruence.
Qed.
