(* ===== verification/AntiKleptoSession.v ===== *)
(** * A host-assisted session, from the device's signatures to the host's check

    The device signs provisionally, commits to the nonces, finalizes every new
    signature with the host's secret, and the host accepts the result. *)

From S2P Require Import Prelude Bytes NetworkId Script Hd HdProofs Keys KeysProofs KsptEncode TxModel Sighash Schnorr SigCheck KsptCodec SigProofs KsptCodecProofs KsptCopy KsptAgree Adaptor AdaptorProofs Signing SigningProofs SigningComplete SigningMessages KleptoMessageProofs AntiKleptoSigning AntiKleptoProofs CovenantKeys.
Import TxModel Bip32 Verification KleptoProtocol AntiKleptoSigning.

(** ** Transactions with the same content *)

Lemma candidates_bare tx i : candidate_keys_for_input (bare_tx tx) i = candidate_keys_for_input tx i.
Proof.
  unfold candidate_keys_for_input. rewrite get_at_bare, redeem_bare. by destruct (get_at (tx_inputs tx) i).
Qed.

Lemma signing_bare tx i p : signing_pubkey_xonly (bare_tx tx) i p = signing_pubkey_xonly tx i p.
Proof.
  unfold signing_pubkey_xonly, p2pk_signing_key, covenant_signing_key, input_of. rewrite analyze_bare, get_at_bare, candidates_bare.
  by destruct (get_at (tx_inputs tx) i).
Qed.

Lemma signing_content tx tx' i p : bare_tx tx = bare_tx tx' -> signing_pubkey_xonly tx i p = signing_pubkey_xonly tx' i p.
Proof. intros Heq. by rewrite <- signing_bare, Heq, signing_bare. Qed.

Lemma sighash_content keyed tx tx' i ty : bare_tx tx = bare_tx tx' -> calculate_sighash keyed tx i ty = calculate_sighash keyed tx' i ty.
Proof. intros Heq. by rewrite <- sighash_bare, Heq, sighash_bare. Qed.

Lemma bare_at tx i : bare (input_at (bare_tx tx) i) = bare (input_at tx i).
Proof. unfold input_at. rewrite get_at_bare. by destruct (get_at (tx_inputs tx) i). Qed.

Lemma bare_same tx tx' i : bare_tx tx = bare_tx tx' -> bare (input_at tx i) = bare (input_at tx' i).
Proof. intros Heq. by rewrite <- bare_at, Heq, bare_at. Qed.

Lemma bare_lengths tx tx' : bare_tx tx = bare_tx tx' ->
  num_inputs tx = num_inputs tx' /\ num_outputs tx = num_outputs tx' /\ blen (tx_inputs tx) = blen (tx_inputs tx') /\ tx_outputs tx = tx_outputs tx'.
Proof.
  intros Heq. split; [exact (f_equal num_inputs Heq)|]. split; [exact (f_equal num_outputs Heq)|]. split; [|exact (f_equal tx_outputs Heq)].
  apply (f_equal (fun t => length (tx_inputs t))) in Heq. cbn in Heq. rewrite !length_map in Heq. unfold blen. by rewrite Heq.
Qed.

Lemma redeem_bytes_bare tx i : redeem_bytes (bare_tx tx) i = redeem_bytes tx i.
Proof. unfold redeem_bytes. rewrite get_at_bare. by destruct (get_at (tx_inputs tx) i). Qed.

(** The same content with the same sizes is as readable. *)
Lemma readable_content tx tx' : bare_tx tx = bare_tx tx' -> readable tx ->
  (forall i, blen (sigs (input_at tx' i)) = MAX_SIGS_PER_INPUT) ->
  (forall i, 0 <= i < num_inputs tx' -> 0 <= sig_count (input_at tx' i) <= MAX_SIGS_PER_INPUT) -> readable tx'.
Proof.
  intros Heq [H1 H2 _ _ H3 H4 H5] Hslots Hcount. destruct (bare_lengths _ _ Heq) as (Hn & Hm & Hl & Ho).
  assert (Hu : forall i, utxo_entry (input_at tx i) = utxo_entry (input_at tx' i)) by (intros i; exact (f_equal utxo_entry (bare_same tx tx' i Heq))).
  split; try done.
  - by rewrite <- Hn, <- Hl.
  - by rewrite <- Hm, <- Ho.
  - intros i. by rewrite <- Hu.
  - intros i. rewrite <- Hn, <- Hu. apply H4.
  - intros j. unfold output_at. rewrite <- Hm, <- Ho. apply H5.
Qed.

(** Transactions with the same content have the same body, when the second one
    keeps the signatures of the first one. *)
Lemma same_body_content tx tx' : bare_tx tx = bare_tx tx' -> readable tx ->
  (forall i, 0 <= i < num_inputs tx -> sig_count (input_at tx i) <= sig_count (input_at tx' i) /\
     forall slot, 0 <= slot < sig_count (input_at tx i) -> slot_fields (sig_at (input_at tx i) slot) = slot_fields (sig_at (input_at tx' i) slot)) ->
  same_body tx tx'.
Proof.
  intros Heq Hrd Hsig. assert (Hhead : forall t, header_fields (bare_tx t) = header_fields t /\ payload (bare_tx t) = payload t) by done. split.
  - destruct (Hhead tx) as [<- <-], (Hhead tx') as [<- <-]. by rewrite Heq.
  - intros i Hi. pose proof (bare_same tx tx' i Heq) as Hb. destruct (Hsig i Hi) as [Hc Hk]. split; try done.
    + assert (Hf : forall x, input_fields (bare x) = input_fields x) by done. by rewrite <- (Hf (input_at tx i)), Hb, Hf.
    + by rewrite (f_equal (fun x => script_bytes (script_public_key (utxo_entry x))) Hb : script_bytes (script_public_key (utxo_entry (input_at tx i))) = _).
    + by rewrite <- redeem_bytes_bare, Heq, redeem_bytes_bare.
  - intros j Hj. unfold same_output, output_at. destruct (bare_lengths _ _ Heq) as (_ & _ & _ & ->). done.
Qed.

(** ** The device's signatures *)

Section session.
Context (sha256 : list Z -> list Z) (keyed : list Z -> list Z -> list Z) `{GroupLaws} `{!CurveLaws} `{!Bip340} `{!Bip340Laws}.
Hypothesis library : decides_valid sha256.
Context (original : Transaction).

Local Notation all := (SigHashType.to_byte SigHashType.All).
Local Notation message i := (calculate_sighash keyed original i SigHashType.All).
Local Notation key_of s := (xonly (sg_pubkey_compressed s)).

(** A slot filled by a signer of the original transaction. *)
Record provisional_slot (i : Z) (s : InputSig) : Prop := {
  pr_present : sg_present s = true;
  pr_type : sg_sighash_type s = all;
  pr_compressed : bytes_of 33 (sg_pubkey_compressed s) /\ get_at (sg_pubkey_compressed s) 0 <> Some 0;
  pr_size : bytes_of 64 (sg_signature s);
  pr_valid : bip340_valid sha256 (key_of s) (message i) (sg_signature s);
  pr_key : signing_pubkey_xonly original i (sg_pubkey_pos s) = Ok (key_of s);
  pr_allowed : pubkey_is_allowed_for_input original i (key_of s) = Ok true }.

(** The original transaction with some more signatures. *)
Record provisional (tx : Transaction) : Prop := {
  pv_content : bare_tx original = bare_tx tx;
  pv_original : readable original;
  pv_readable : readable tx;
  pv_few : num_inputs original <= MAX_INPUTS;
  pv_grown : forall i, 0 <= i < num_inputs original -> sig_count (input_at original i) <= sig_count (input_at tx i);
  pv_kept : forall i slot, 0 <= i < num_inputs original -> 0 <= slot < sig_count (input_at original i) ->
    slot_fields (sig_at (input_at original i) slot) = slot_fields (sig_at (input_at tx i) slot);
  pv_types : forall i, 0 <= i < num_inputs original -> sig_count (input_at original i) < sig_count (input_at tx i) ->
    sighash_type (input_at tx i) = all /\ (sig_count (input_at original i) = 0 \/ sighash_type (input_at original i) = all);
  pv_added : forall i slot, added original tx i slot -> provisional_slot i (sig_at (input_at tx i) slot) }.

Context (provisional_tx : Transaction) (Hprov : provisional provisional_tx) (session_id host_secret : list Z).

Lemma added_bounds i slot : added original provisional_tx i slot ->
  0 <= i < num_inputs provisional_tx /\ 0 <= slot < MAX_SIGS_PER_INPUT.
Proof.
  intros [Hi Hs]. destruct (bare_lengths _ _ (pv_content _ Hprov)) as (Hn & _). pose proof (rd_count _ (pv_original _ Hprov) i Hi).
  assert (Hi' : 0 <= i < num_inputs provisional_tx) by (by rewrite <- Hn). pose proof (rd_count _ (pv_readable _ Hprov) i Hi'). lia.
Qed.

(** What the host's contribution turns a provisional signature into. *)
Record finished (i slot : Z) (signature : list Z) : Prop := {
  fin_size : bytes_of 64 signature;
  fin_valid : bip340_valid sha256 (key_of (sig_at (input_at provisional_tx i) slot)) (message i) signature;
  fin_nonce : AntiKlepto.verify_nonce_relation sha256
    (AntiKlepto.provisional_nonce_point (sg_signature (sig_at (input_at provisional_tx i) slot))) signature session_id host_secret i slot
    (2 :: key_of (sig_at (input_at provisional_tx i) slot)) = Ok tt }.

(** The provisional transaction with the slots at [done] finalized. *)
Record advanced (done : list (Z * Z)) (tx : Transaction) : Prop := {
  ad_content : bare_tx original = bare_tx tx;
  ad_readable : readable tx;
  ad_frame : forall i, 0 <= i < num_inputs original -> sig_count (input_at tx i) = sig_count (input_at provisional_tx i) /\
    sighash_type (input_at tx i) = sighash_type (input_at provisional_tx i);
  ad_done : forall i slot, 0 <= i < num_inputs original -> 0 <= slot -> (i, slot) ∈ done -> exists signature,
    sig_at (input_at tx i) slot = with_signature signature (sig_at (input_at provisional_tx i) slot) /\ finished i slot signature;
  ad_rest : forall i slot, 0 <= i < num_inputs original -> 0 <= slot -> (i, slot) ∉ done ->
    sig_at (input_at tx i) slot = sig_at (input_at provisional_tx i) slot }.

Lemma advanced_start : advanced [] provisional_tx.
Proof. split; try apply Hprov; [done|set_solver|done]. Qed.

Lemma advanced_same done done' tx : (forall x, x ∈ done <-> x ∈ done') -> advanced done tx -> advanced done' tx.
Proof.
  intros Hsame [Hc Hr Hf Hd Hrest]. split; try done.
  - intros i slot Hi Hs Hin. apply Hd; [done|done|]. by apply Hsame.
  - intros i slot Hi Hs Hin. apply Hrest; [done|done|]. by rewrite Hsame.
Qed.

(** *** The key of a finalization *)

Lemma raw_key_normalized {E} (error : E) private_key compressed : bytes_of 32 private_key ->
  compressed_pubkey_from_raw_key private_key = Ok compressed ->
  valid_secret private_key /\ exists d, normalized_secret_and_public_x error private_key = Ok (d, xonly compressed).
Proof.
  intros Hb. unfold compressed_pubkey_from_raw_key. rewrite secret_key_spec by done.
  destruct (Z.ltb_spec 0 (be_val private_key)); [|done]. destruct (Z.ltb_spec (be_val private_key) order); [|done]. cbn [andb ok_or rbind].
  intros [= <-]. split; [by split|]. unfold normalized_secret_and_public_x. rewrite scalar_value_spec, (proj2 (Z.ltb_lt _ _)) by done.
  cbn [ok_or rbind]. rewrite (proj2 (Z.eqb_neq _ _)) by lia. by eexists.
Qed.

(** Why a finalization may fail. *)
Definition refused (missing : Prop) (e : PsktError) : Prop := e = ReusableNonce \/ e = SigCheck.SigningFailed \/ (e = DerivationFailed /\ missing).

(** Replacing the signature of one slot. *)
Definition resigned (input : TransactionInput) (slot : Z) (signature : list Z) : TransactionInput :=
  set_sigs (<[Z.to_nat slot := with_signature signature (sig_at input slot)]> (sigs input)) (sig_count input) (sighash_type input) input.

Lemma sig_at_resigned input slot signature slot' : blen (sigs input) = MAX_SIGS_PER_INPUT -> 0 <= slot < MAX_SIGS_PER_INPUT -> 0 <= slot' ->
  sig_at (resigned input slot signature) slot' = if decide (slot' = slot) then with_signature signature (sig_at input slot) else sig_at input slot'.
Proof.
  intros Hl Hs Hs'. unfold sig_at at 1, get_at. cbn [resigned set_sigs sigs]. rewrite (proj2 (Z.leb_le 0 slot')) by done.
  destruct (decide (slot' = slot)) as [->|].
  - rewrite list_lookup_insert_eq by (unfold blen in Hl; lia). done.
  - rewrite list_lookup_insert_ne by lia. unfold sig_at, get_at. by rewrite (proj2 (Z.leb_le 0 slot')).
Qed.

Lemma advanced_put done tx i slot signature : advanced done tx -> added original provisional_tx i slot -> (i, slot) ∉ done ->
  finished i slot signature -> advanced ((i, slot) :: done) (put_input i (resigned (input_at tx i) slot signature) tx).
Proof.
  intros Had Hadd Hnew Hfin. destruct (added_bounds i slot Hadd) as [Hi' Hslot]. pose proof Hadd as [Hi _].
  pose proof Had as [Hc Hr Hf Hd Hrest]. destruct (bare_lengths _ _ Hc) as (Hn & _). assert (Hin : 0 <= i < num_inputs tx) by (by rewrite <- Hn).
  pose proof (rd_inputs _ Hr) as Hnum. pose proof (rd_slots _ Hr i) as Hfive.
  assert (Hput : forall j, 0 <= j -> input_at (put_input i (resigned (input_at tx i) slot signature) tx) j =
    if decide (j = i) then resigned (input_at tx i) slot signature else input_at tx j) by (intros; apply input_at_put; (done || lia)).
  assert (Hcontent : bare_tx tx = bare_tx (put_input i (resigned (input_at tx i) slot signature) tx)) by (symmetry; apply bare_put; [done|lia|done]).
  assert (Hsig : forall j k, 0 <= j -> 0 <= k -> sig_at (input_at (put_input i (resigned (input_at tx i) slot signature) tx) j) k =
    if decide ((j, k) = (i, slot)) then with_signature signature (sig_at (input_at tx i) slot) else sig_at (input_at tx j) k).
  { intros j k Hj Hk. rewrite Hput by done. destruct (decide (j = i)) as [->|Hji].
    - rewrite sig_at_resigned by done. destruct (decide (k = slot)) as [->|]; [by rewrite decide_True|]. rewrite decide_False by congruence. done.
    - by rewrite decide_False by congruence. }
  assert (Hcount : forall j, 0 <= j -> sig_count (input_at (put_input i (resigned (input_at tx i) slot signature) tx) j) = sig_count (input_at tx j) /\
    sighash_type (input_at (put_input i (resigned (input_at tx i) slot signature) tx) j) = sighash_type (input_at tx j)).
  { intros j Hj. rewrite Hput by done. by destruct (decide (j = i)) as [->|]. }
  split.
  - congruence.
  - apply (readable_content tx); [done..| |].
    + intros j. destruct (Z.leb_spec 0 j) as [Hj|Hj].
      * rewrite Hput by done. destruct (decide (j = i)) as [->|]; [|apply Hr]. cbn [resigned set_sigs sigs]. unfold blen in *. by rewrite length_insert.
      * unfold input_at, get_at. rewrite (proj2 (Z.leb_gt 0 j)) by lia. done.
    + intros j Hj. rewrite (proj1 (Hcount j ltac:(lia))). apply Hr. by rewrite (proj1 (bare_lengths _ _ Hcontent)).
  - intros j Hj. destruct (Hcount j ltac:(lia)) as [-> ->]. by apply Hf.
  - intros j k Hj Hk. rewrite Hsig by lia. destruct (decide ((j, k) = (i, slot))) as [[= -> ->]|Hne].
    + intros _. exists signature. by rewrite (Hrest i slot).
    + intros [?|Hold]%elem_of_cons; [done|]. by apply Hd.
  - intros j k Hj Hk Hnot. rewrite Hsig by lia. rewrite decide_False by set_solver. apply Hrest; [done|done|set_solver].
Qed.

(** Finalizing one slot with a key that made its signature. *)
Lemma finalize_material_step missing done tx i slot private_key : advanced done tx -> added original provisional_tx i slot -> (i, slot) ∉ done ->
  bytes_of 32 private_key ->
  compressed_pubkey_from_raw_key private_key = Ok (sg_pubkey_compressed (sig_at (input_at provisional_tx i) slot)) ->
  let s := sig_at (input_at tx i) slot in
  exists r tx', finalize_with_material sha256 keyed i slot (sg_sighash_type s) (sg_signature s) private_key session_id host_secret tx = (r, tx') /\
    ((r = Ok tt /\ advanced ((i, slot) :: done) tx') \/ exists e, r = Err (Fails e) /\ refused missing e).
Proof.
  intros Had Hadd Hnew Hkey Hpub s. destruct (added_bounds i slot Hadd) as [Hi' Hslot]. pose proof Hadd as [Hi _].
  pose proof (pv_added _ Hprov i slot Hadd) as Hps. assert (Hs : s = sig_at (input_at provisional_tx i) slot) by (apply (ad_rest _ _ Had); [done|lia|done]).
  destruct (raw_key_normalized AntiKlepto.InvalidPrivateKey _ _ Hkey Hpub) as [Hsec [d Hnorm]]. rewrite Hs in *. clear s Hs.
  set (s := sig_at (input_at provisional_tx i) slot) in *. pose proof (pv_few _ Hprov) as Hfew. unfold MAX_INPUTS, u16_max in Hfew.
  unfold finalize_with_material. rewrite (pr_type _ _ Hps). change (SigHashType.from_byte all) with (Some SigHashType.All).
  unfold MAX_SIGS_PER_INPUT in Hslot. cbn [ok_or]. erewrite bind_step; [|apply of_result_Ok]. erewrite bind_step; [|reflexivity].
  unfold index_u32. rewrite (proj2 (Z.leb_le i u32_max)) by (unfold u32_max; lia). cbn [lift rmap_err]. erewrite bind_step; [|apply of_result_Ok].
  rewrite Z.mod_small by lia. rewrite <- (sighash_content keyed original tx) by apply Had.
  destruct (tweak_values sha256 private_key (message i) (sg_signature s) session_id host_secret i slot d (key_of s)) as [(signature & Hok & Hv & H64 & Hrel)|[Herr|Herr]].
  - intros px m sig Hpx Hsig Hval. by apply library.
  - done.
  - apply Hps.
  - done.
  - apply Hps.
  - cbn zeta in Hok. rewrite Hok. unfold bind, of_result. cbn [rmap_err]. unfold change_input.
    assert (Hin : 0 <= i < num_inputs tx) by (by rewrite <- (proj1 (bare_lengths _ _ (ad_content _ _ Had)))).
    destruct (input_at_range tx i Hin (proj2 (rd_inputs _ (ad_readable _ _ Had)))) as [_ Hget]. rewrite Hget.
    unfold put_signature. rewrite (get_at_in _ empty_sig) by (rewrite (rd_slots _ (ad_readable _ _ Had)); unfold MAX_SIGS_PER_INPUT; lia).
    change (default empty_sig (get_at (sigs (input_at tx i)) slot)) with (sig_at (input_at tx i) slot). cbn [mbind option_bind]. eexists _, _. split; [done|]. left. split; [done|].
    rewrite (ad_rest _ _ Had i slot) by (done || lia). fold s.
    pose proof (advanced_put done tx i slot signature Had Hadd Hnew) as Hput. unfold resigned, put_input in Hput.
    rewrite (ad_rest _ _ Had i slot) in Hput by (done || lia). fold s in Hput. apply Hput. by split.
  - cbn zeta in Herr. rewrite Herr. eexists _, _. split; [done|]. right. exists ReusableNonce. split; [done|]. by left.
  - cbn zeta in Herr. rewrite Herr. eexists _, _. split; [done|]. right. exists SigCheck.SigningFailed. split; [done|]. right. by left.
Qed.
(** *** The loops *)

Section loops.
Context {S : Type} (resolve : Transaction -> list Z -> S -> option SigningKeyMaterial * S) (missing : Prop).

(** A resolver finds the private key behind the key of a new slot, or it is
    missing. *)
Hypothesis resolves : forall tx s i slot, added original provisional_tx i slot ->
  let compressed := sg_pubkey_compressed (sig_at (input_at provisional_tx i) slot) in
  match fst (resolve tx compressed s) with
  | Some m => if decide (compressed_public_key m = compressed)
              then bytes_of 32 (private_key m) /\ compressed_pubkey_from_raw_key (private_key m) = Ok compressed else missing
  | None => missing
  end.

Local Notation slot_step := (finalize_signature_slot sha256 keyed resolve session_id host_secret).
Local Notation outcome done r tx := ((r = Ok tt /\ advanced done tx) \/ exists e, r = Err (Fails e) /\ refused missing e).

Lemma finalize_slot_step done tx s i slot : advanced done tx -> added original provisional_tx i slot -> (i, slot) ∉ done ->
  exists r tx' s', slot_step i slot (tx, s) = (r, (tx', s')) /\ outcome ((i, slot) :: done) r tx'.
Proof.
  intros Had Hadd Hnew. destruct (added_bounds i slot Hadd) as [Hi' Hslot]. pose proof Hadd as [Hi _]. pose proof (pv_added _ Hprov i slot Hadd) as Hps.
  assert (Hin : 0 <= i < num_inputs tx) by (by rewrite <- (proj1 (bare_lengths _ _ (ad_content _ _ Had)))).
  assert (Hs : sig_at (input_at tx i) slot = sig_at (input_at provisional_tx i) slot) by (apply (ad_rest _ _ Had); [done|lia|done]).
  unfold finalize_signature_slot. erewrite bind_step; [|unfold reads; rewrite (input_of_Ok tx (ad_readable _ _ Had)) by done; cbn [rbind];
    rewrite (slot_of_Ok tx (ad_readable _ _ Had)) by done; reflexivity].
  pose proof (finalize_material_step missing done tx i slot) as Hstep. rewrite Hs in *. rewrite (pr_present _ _ Hps).
  rewrite bool_decide_false by apply (pr_compressed _ _ Hps). cbn [negb orb].
  pose proof (resolves tx s i slot Hadd) as Hres. cbn zeta in Hres. unfold bind at 1, resolved.
  destruct (resolve tx _ s) as [[m|] s']; cbn [fst ok_or] in *.
  - case_decide as Hm; cbn [ok_or].
    + rewrite Hm, (proj2 (list_Z_eqb_eq _ _) eq_refl). cbn [negb]. destruct Hres as [H32 Hpub].
      destruct (Hstep (private_key m) Had Hadd Hnew H32 Hpub) as (r & tx' & Hrun & Hout). unfold on_first. rewrite Hrun. by exists r, tx', s'.
    + destruct (list_Z_eqb _ _) eqn:Eq; [by apply list_Z_eqb_eq in Eq|]. cbn [negb]. eexists _, _, _. split; [done|]. right.
      exists DerivationFailed. split; [done|]. by right; right.
  - eexists _, _, _. split; [done|]. right. exists DerivationFailed. split; [done|]. by right; right.
Qed.

Lemma finalize_slots_step slots : forall done tx s i, advanced done tx -> NoDup slots ->
  (forall slot, slot ∈ slots -> added original provisional_tx i slot /\ (i, slot) ∉ done) ->
  exists r tx' s', for_each slots (fun slot => slot_step i slot) (tx, s) = (r, (tx', s')) /\ outcome (map (pair i) slots ++ done) r tx'.
Proof.
  induction slots as [|slot slots IH]; intros done tx s i Had Hnd Hall.
  - exists (Ok tt), tx, s. split; [done|]. by left.
  - apply NoDup_cons in Hnd as [Hnin Hnd]. destruct (Hall slot) as [Hadd Hnew]; [set_solver|].
    destruct (finalize_slot_step done tx s i slot Had Hadd Hnew) as (r & tx1 & s1 & Hrun & Hout). rewrite for_each_cons, Hrun.
    destruct Hout as [[-> Had1]|(e & -> & He)]; [|eexists _, _, _; split; [done|]; right; by exists e].
    destruct (IH ((i, slot) :: done) tx1 s1 i Had1 Hnd) as (r & tx2 & s2 & Hrun2 & Hout).
    { intros k Hk. destruct (Hall k) as [Ha Hn]; [set_solver|]. split; [done|]. intros [[= ->]|?]%elem_of_cons; [done|set_solver]. }
    exists r, tx2, s2. split; [done|]. destruct Hout as [[-> Had2]|Hout]; [|by right]. left. split; [done|].
    eapply advanced_same; [|exact Had2]. intros x. cbn [map]. set_unfold. naive_solver.
Qed.

Lemma imap_indices {A} (f : Z -> A) n :
  imap (fun index x => (Z.of_nat index, x)) (map f (seqZ 0 n)) = map (fun i => (i, f i)) (seqZ 0 n).
Proof.
  apply list_eq. intros k. rewrite list_lookup_imap. change (map f) with (fmap (M := list) f). change (map (fun i => (i, f i))) with (fmap (M := list) (fun i => (i, f i))).
  rewrite !list_lookup_fmap. destruct (seqZ 0 n !! k) as [i|] eqn:Hk; [|done]. apply lookup_seqZ in Hk as [-> _]. cbn. by rewrite Z.add_0_l.
Qed.

(** The new slots of some inputs. *)
Definition new_slots (l : list Z) : list (Z * Z) :=
  concat (map (fun i => map (pair i) (seqZ (sig_count (input_at original i)) (sig_count (input_at provisional_tx i) - sig_count (input_at original i)))) l).

Lemma finalize_input_step done tx s i : advanced done tx -> 0 <= i < num_inputs original -> (forall slot, (i, slot) ∉ done) ->
  exists r tx' s', finalize_input_signatures sha256 keyed resolve session_id host_secret i (sig_count (input_at original i)) (tx, s) = (r, (tx', s')) /\
    ((r = Ok (blen (new_slots [i])) /\ advanced (new_slots [i] ++ done) tx') \/ exists e, r = Err (Fails e) /\ refused missing e).
Proof.
  intros Had Hi Hnew. assert (Hin : 0 <= i < num_inputs tx) by (by rewrite <- (proj1 (bare_lengths _ _ (ad_content _ _ Had)))).
  pose proof (rd_count _ (ad_readable _ _ Had) i Hin) as Hcount. pose proof (rd_slots _ (ad_readable _ _ Had) i) as Hfive.
  pose proof (rd_count _ (pv_original _ Hprov) i Hi) as Hcount0. pose proof (pv_grown _ Hprov i Hi) as Hgrown.
  destruct (ad_frame _ _ Had i Hi) as [Hc _]. unfold finalize_input_signatures. cbv zeta.
  erewrite bind_step; [|unfold reads; rewrite (input_of_Ok tx (ad_readable _ _ Had)) by done; reflexivity]. cbn [rbind]. rewrite Hc.
  erewrite bind_step.
  2:{ unfold reads, validate_signature_range. rewrite (input_of_Ok tx (ad_readable _ _ Had)) by done. cbn [rbind].
      destruct (slice (sigs (input_at tx i)) _ _) eqn:Hslice; [reflexivity|]. apply slice_None in Hslice; lia. }
  set (start := sig_count (input_at original i)) in *. set (end_ := sig_count (input_at provisional_tx i)) in *.
  destruct (finalize_slots_step (seqZ start (end_ - start)) done tx s i Had (NoDup_seqZ _ _)) as (r & tx' & s' & Hrun & Hout).
  { intros slot Hs%elem_of_seqZ. split; [|done]. split; [done|]. fold start end_. lia. }
  unfold new_slots. cbn [map concat]. rewrite app_nil_r. fold start end_. unfold bind. rewrite Hrun. destruct Hout as [[-> Had2]|(e & -> & He)].
  - exists (Ok (end_ - start)), tx', s'. split; [done|]. left. split; [|done]. unfold blen. rewrite length_map, length_seqZ. f_equal. lia.
  - eexists _, _, _. split; [done|]. right. by exists e.
Qed.

Lemma finalize_inputs_step l : forall done tx s, advanced done tx -> NoDup l ->
  (forall i, i ∈ l -> 0 <= i < num_inputs original /\ forall slot, (i, slot) ∉ done) ->
  exists r tx' s', for_count (map (fun i => (i, sig_count (input_at original i))) l)
      (fun '(index, initial_count) => finalize_input_signatures sha256 keyed resolve session_id host_secret index initial_count) (tx, s) = (r, (tx', s')) /\
    ((r = Ok (blen (new_slots l)) /\ advanced (new_slots l ++ done) tx') \/ exists e, r = Err (Fails e) /\ refused missing e).
Proof.
  induction l as [|i l IH]; intros done tx s Had Hnd Hall.
  - exists (Ok 0), tx, s. split; [done|]. by left.
  - apply NoDup_cons in Hnd as [Hnin Hnd]. destruct (Hall i) as [Hi Hnew]; [set_solver|]. cbn [map for_count].
    destruct (finalize_input_step done tx s i Had Hi Hnew) as (r & tx1 & s1 & Hrun & Hout). unfold bind at 1. rewrite Hrun.
    destruct Hout as [[-> Had1]|(e & -> & He)]; [|eexists _, _, _; split; [done|]; right; by exists e].
    destruct (IH (new_slots [i] ++ done) tx1 s1 Had1 Hnd) as (r & tx2 & s2 & Hrun2 & Hout).
    { intros j Hj. destruct (Hall j) as [Hjr Hjn]; [set_solver|]. split; [done|]. intros slot [Hbad|?]%elem_of_app; [|by eapply Hjn].
      unfold new_slots in Hbad. cbn [map concat] in Hbad. rewrite app_nil_r in Hbad. apply list_elem_of_fmap in Hbad as (? & [= -> ->] & _). done. }
    unfold bind. rewrite Hrun2. assert (Hsplit : new_slots (i :: l) = new_slots [i] ++ new_slots l) by (unfold new_slots; cbn [map concat]; by rewrite app_nil_r).
    destruct Hout as [[-> Had2]|(e & -> & He)].
    + eexists _, _, _. split; [reflexivity|]. left. split; [by rewrite Hsplit, blen_app|].
      eapply advanced_same; [|exact Had2]. intros x. rewrite Hsplit. set_unfold. naive_solver.
    + eexists _, _, _. split; [done|]. right. by exists e.
Qed.

(** Finalizing every new signature, or refusing one of them. *)
Lemma finalize_all tx' s r s' : added_positions original provisional_tx <> [] ->
  finalize_matching sha256 keyed resolve session_id host_secret (initial_signature_counts original) (provisional_tx, s) = (r, (tx', s')) ->
  (r = Ok (blen (added_positions original provisional_tx)) /\ advanced (added_positions original provisional_tx) tx') \/
  exists e, r = Err (Fails e) /\ refused missing e.
Proof.
  intros Hsome. destruct (bare_lengths _ _ (pv_content _ Hprov)) as (Hn & _). pose proof (rd_inputs _ (pv_original _ Hprov)) as Hnum.
  assert (Hcounts : initial_signature_counts original = map (fun i => sig_count (input_at original i)) (seqZ 0 (num_inputs original))).
  { unfold initial_signature_counts. rewrite inputs_indices by done. by rewrite map_map. }
  assert (Hslice : slice (initial_signature_counts original) 0 (num_inputs provisional_tx) = Some (initial_signature_counts original)).
  { rewrite <- Hn. assert (Hlen : blen (initial_signature_counts original) = num_inputs original) by (rewrite Hcounts; unfold blen; rewrite length_map, length_seqZ; lia).
    rewrite <- Hlen. unfold slice. rewrite !(proj2 (Z.leb_le _ _)) by (pose proof (blen_nonneg (initial_signature_counts original)); lia). cbn [andb].
    rewrite drop_0, take_ge; [done|unfold blen; lia]. }
  unfold finalize_matching. erewrite bind_step; [|unfold reads; rewrite Hslice; reflexivity]. rewrite Hcounts, imap_indices.
  destruct (finalize_inputs_step (seqZ 0 (num_inputs original)) [] provisional_tx s advanced_start (NoDup_seqZ _ _)) as (r1 & tx1 & s1 & Hrun & Hout).
  { intros i Hi%elem_of_seqZ. split; [lia|set_solver]. }
  rewrite app_nil_r in Hout. unfold bind. rewrite Hrun. destruct Hout as [[-> Had]|(e & -> & He)].
  - change (new_slots (seqZ 0 (num_inputs original))) with (added_positions original provisional_tx) in *.
    rewrite (proj2 (Z.eqb_neq _ _)); [|by destruct (added_positions original provisional_tx)]. intros [= <- <- <-]. by left.
  - intros [= <- <- <-]. right. by exists e.
Qed.
End loops.

(** *** The records of a session *)

Lemma slice_slots input start end_ : blen (sigs input) = MAX_SIGS_PER_INPUT -> 0 <= start -> start <= end_ -> end_ <= MAX_SIGS_PER_INPUT ->
  exists l, slice (sigs input) start end_ = Some l /\
    imap (fun offset sig => (start + Z.of_nat offset, sig)) l = map (fun slot => (slot, sig_at input slot)) (seqZ start (end_ - start)).
Proof.
  intros Hl Hs He Hm. destruct (slice (sigs input) start end_) as [l|] eqn:Hslice; [|apply slice_None in Hslice; lia]. exists l. split; [done|].
  apply slice_Some in Hslice as (l1 & l3 & Heq & H1' & H2'). apply list_eq. intros k. rewrite list_lookup_imap.
  change (map (fun slot => (slot, sig_at input slot))) with (fmap (M := list) (fun slot => (slot, sig_at input slot))). rewrite list_lookup_fmap.
  destruct (seqZ start (end_ - start) !! k) as [j|] eqn:Hk.
  - apply lookup_seqZ in Hk as [-> Hk]. destruct (lookup_lt_is_Some_2 l k) as [x Hx]; [unfold blen in *; lia|]. rewrite Hx. cbn [fmap option_fmap option_map].
    unfold sig_at, get_at. rewrite (proj2 (Z.leb_le _ _)), Heq by lia. rewrite lookup_app_r by (unfold blen in *; lia).
    rewrite lookup_app_l by (apply lookup_lt_Some in Hx; unfold blen in *; lia). replace (Z.to_nat (start + Z.of_nat k) - length l1)%nat with k by (unfold blen in *; lia).
    by rewrite Hx.
  - apply lookup_ge_None in Hk. rewrite length_seqZ in Hk. rewrite (lookup_ge_None_2 l) by (unfold blen in *; lia). done.
Qed.

Lemma try_map_each {A B E} (f : A -> result B E) (g : A -> B) l : (forall x, x ∈ l -> f x = Ok (g x)) -> try_map f l = Ok (map g l).
Proof. intros Hf. apply try_map_Ok. induction l as [|x l IH]; cbn [map]; constructor; [apply Hf; set_solver|]. apply IH. set_solver. Qed.

Lemma try_map_map {A B C E} (f : B -> result C E) (h : A -> B) l : try_map f (map h l) = try_map (fun x => f (h x)) l.
Proof. induction l as [|x l IH]; [done|]. cbn [map try_map]. by rewrite IH. Qed.

Lemma gather_new {R} tx (record_of : Z -> Z * InputSig -> result R PsktError) (f : Z * Z -> R) done :
  advanced done tx -> added_positions original provisional_tx <> [] ->
  (forall i slot, added original provisional_tx i slot -> record_of i (slot, sig_at (input_at tx i) slot) = Ok (f (i, slot))) ->
  gather tx (initial_signature_counts original) record_of = Ok (map f (added_positions original provisional_tx)).
Proof.
  intros Had Hsome Hrec. destruct (bare_lengths _ _ (ad_content _ _ Had)) as (Hn & _). pose proof (rd_inputs _ (pv_original _ Hprov)) as Hnum.
  pose proof (pv_few _ Hprov) as Hfew. unfold gather, reserved_records. unfold checked_mul. rewrite checked_u64_id by (unfold u64_ok, MAX_SIGS_PER_INPUT, MAX_INPUTS, u16_max in *; lia).
  cbn [ok_or rbind]. set (of_input := fun i => map f (map (pair i) (seqZ (sig_count (input_at original i)) (sig_count (input_at provisional_tx i) - sig_count (input_at original i))))).
  rewrite (try_map_each _ of_input).
  - cbn [rbind]. assert (Hconcat : concat (map of_input (seqZ 0 (num_inputs tx))) = map f (added_positions original provisional_tx)).
    { unfold of_input, added_positions. rewrite <- Hn, concat_map, map_map. done. }
    rewrite Hconcat. rewrite bool_decide_false; [done|]. by destruct (added_positions original provisional_tx).
  - intros i Hi%elem_of_seqZ. assert (Hio : 0 <= i < num_inputs original) by lia. assert (Hit : 0 <= i < num_inputs tx) by lia.
    destruct (ad_frame _ _ Had i Hio) as [Hc _]. pose proof (rd_count _ (ad_readable _ _ Had) i Hit) as Hcount.
    pose proof (rd_count _ (pv_original _ Hprov) i Hio). pose proof (pv_grown _ Hprov i Hio) as Hgrown.
    unfold added_signatures. destruct (input_at_range tx i Hit (proj2 (rd_inputs _ (ad_readable _ _ Had)))) as [_ ->]. cbn [ok_or rbind].
    unfold initial_signature_counts. rewrite inputs_indices by done. rewrite map_map, get_at_indices by done. cbn [ok_or rbind]. rewrite Hc.
    destruct (slice_slots (input_at tx i) (sig_count (input_at original i)) (sig_count (input_at provisional_tx i)) (rd_slots _ (ad_readable _ _ Had) i)) as (l & -> & Himap); [lia..|].
    cbn [ok_or rbind]. rewrite Himap. unfold of_input. rewrite map_map, try_map_map. apply try_map_each. intros slot Hs%elem_of_seqZ. apply Hrec. split; [done|lia].
Qed.

(** *** What the host accepts *)

Local Notation positions := (added_positions original provisional_tx).
Local Notation slot_at p := (sig_at (input_at provisional_tx (fst p)) (snd p)).

Definition record_for (p : Z * Z) : NonceCommitment := {|
  input_index := fst p; signature_slot := snd p; public_key := 2 :: key_of (slot_at p);
  nonce_point := AntiKlepto.provisional_nonce_point (sg_signature (slot_at p)) |}.
Definition proof_for (p : Z * Z) : SignatureProof := {| pf_input_index := fst p; pf_signature_slot := snd p |}.

Lemma position_of_record p : position_of (record_for p) = p.
Proof. by destruct p. Qed.

Lemma new_slots_cons i l : new_slots (i :: l) =
  map (pair i) (seqZ (sig_count (input_at original i)) (sig_count (input_at provisional_tx i) - sig_count (input_at original i))) ++ new_slots l.
Proof. done. Qed.

Lemma positions_ascending : ascending positions.
Proof.
  change positions with (new_slots (seqZ 0 (num_inputs original))). pose proof (seqZ_sorted' 0 (num_inputs original)) as Hsorted.
  induction Hsorted as [|i l _ IH Hi]; [constructor|]. rewrite new_slots_cons. apply StronglySorted_app_2; [| |done].
  - intros [a x] [b y] Ha Hb. apply list_elem_of_fmap in Ha as (? & [= -> ->] & _). apply before_spec. left. cbn [fst].
    unfold new_slots in Hb. apply list_elem_of_In, in_concat in Hb as (block & Hblock & Hb). apply list_elem_of_In, list_elem_of_fmap in Hblock as (j & -> & Hj).
    apply list_elem_of_In, list_elem_of_fmap in Hb as (? & [= -> ->] & _). rewrite Forall_forall in Hi. by apply Hi.
  - pose proof (seqZ_sorted' (sig_count (input_at original i)) (sig_count (input_at provisional_tx i) - sig_count (input_at original i))) as Hs.
    induction Hs as [|x xs _ IHs Hx]; [constructor|]. cbn [map]. constructor; [done|]. apply Forall_forall. intros p Hp.
    apply list_elem_of_fmap in Hp as (y & -> & Hy). apply before_spec. right. split; [done|]. rewrite Forall_forall in Hx. by apply Hx.
Qed.

Lemma position_added p : p ∈ positions -> added original provisional_tx (fst p) (snd p).
Proof. destruct p as [i slot]. intros Hp. by apply elem_of_added in Hp. Qed.

Lemma lift_key x p : Adaptor.xonly_to_point x = Ok p -> public_key_from_sec1_bytes (2 :: x) = Some p.
Proof. unfold Adaptor.xonly_to_point, Adaptor.public_key_to_point. destruct (public_key_from_sec1_bytes _); [|done]. by intros [= ->]. Qed.

Lemma record_accepted p : p ∈ positions -> validate_commitment_record original (record_for p) = Ok tt.
Proof.
  intros Hp%position_added. pose proof (pv_added _ Hprov _ _ Hp) as Hps. destruct (added_bounds _ _ Hp) as [_ Hslot]. destruct Hp as [Hi Hs].
  unfold validate_commitment_record. cbn [record_for input_index signature_slot public_key xonly drop].
  destruct (input_at_range original (fst p) Hi (proj2 (rd_inputs _ (pv_original _ Hprov)))) as [_ Hget].
  assert (Hpos : commitment_position_is_valid original (fst p) (snd p) = true).
  { unfold commitment_position_is_valid. rewrite Hget, (proj2 (Z.leb_gt _ _)), (proj2 (Z.ltb_ge _ _)) by lia. cbn [orb].
    apply bool_decide_eq_true. destruct (get_at_lt (sigs (input_at original (fst p))) (snd p)) as [x Hx]; [|by exists x].
    by rewrite (rd_slots _ (pv_original _ Hprov)). }
  destruct (pr_valid _ _ Hps) as (point & s & Hlift & Hvalid). destruct (G_log point) as [d ->].
  destruct (valid_nonce sha256 d _ _ _ (pr_size _ _ Hps) Hlift (pr_valid _ _ Hps)) as (response & _ & Hnonce & _).
  assert (Hcanon : canonical_points_are_valid (record_for p) = true).
  { unfold canonical_points_are_valid, even. cbn [record_for public_key nonce_point]. unfold AntiKlepto.provisional_nonce_point.
    rewrite (lift_key _ _ Hlift), (lift_key _ _ Hnonce). done. }
  rewrite Hpos, Hcanon. cbn [negb orb]. rewrite drop_0. by rewrite (pr_allowed _ _ Hps).
Qed.

(** The bounds that let a record be written and read back. *)
Lemma record_for_typed p : p ∈ positions -> KleptoFormat.record_typed (record_for p) /\ KleptoFormat.proof_typed (proof_for p).
Proof.
  intros Hp%position_added. pose proof (pv_added _ Hprov _ _ Hp) as Hps. destruct (added_bounds _ _ Hp) as [_ Hslot]. destruct Hp as [Hi Hs].
  pose proof (pv_few _ Hprov). unfold MAX_INPUTS, u16_max, MAX_SIGS_PER_INPUT in *.
  assert (Hidx : u32_ok (fst p) /\ byte_ok (snd p)) by (unfold u32_ok, byte_ok; lia). split; [|exact Hidx].
  destruct (pr_compressed _ _ Hps) as [[Hb Hl] _]. destruct (signature_halves _ (pr_size _ _ Hps)) as [Hr _].
  split; [apply Hidx|]. split; [apply Hidx|]. cbn [record_for public_key nonce_point]. unfold AntiKlepto.provisional_nonce_point. split.
  - split; [constructor; [by unfold byte_ok|by apply Forall_drop]|]. rewrite blen_cons. unfold xonly, blen in *. rewrite length_drop. lia.
  - destruct Hr as [Hrb Hrl]. split; [by constructor; [unfold byte_ok|]|]. rewrite blen_cons. lia.
Qed.

Lemma records_sent : positions <> [] ->
  nonce_commitment_records provisional_tx (initial_signature_counts original) = Ok (map record_for positions).
Proof.
  intros Hsome. apply (gather_new provisional_tx nonce_commitment_record record_for [] advanced_start Hsome). intros i slot Hadd.
  pose proof (pv_added _ Hprov i slot Hadd) as Hps. destruct (added_bounds i slot Hadd) as [_ Hslot]. pose proof Hadd as [Hi _].
  pose proof (pv_few _ Hprov) as Hfew. unfold MAX_INPUTS, u16_max, MAX_SIGS_PER_INPUT in *. unfold nonce_commitment_record.
  rewrite (pr_present _ _ Hps), bool_decide_false by apply (pr_compressed _ _ Hps). cbn [negb orb]. unfold index_u32.
  rewrite (proj2 (Z.leb_le i u32_max)) by (unfold u32_max; lia). cbn [rbind]. by rewrite Z.mod_small by lia.
Qed.

Lemma proofs_sent final : positions <> [] -> advanced positions final ->
  proof_records final (initial_signature_counts original) = Ok (map proof_for positions).
Proof.
  intros Hsome Had. apply (gather_new final proof_record proof_for positions Had Hsome). intros i slot Hadd.
  pose proof (pv_added _ Hprov i slot Hadd) as Hps. destruct (added_bounds i slot Hadd) as [_ Hslot]. pose proof Hadd as [Hi _].
  pose proof (pv_few _ Hprov) as Hfew. unfold MAX_INPUTS, u16_max, MAX_SIGS_PER_INPUT in *. unfold proof_record.
  destruct (ad_done _ _ Had i slot Hi ltac:(lia) (proj2 (elem_of_added _ _ _ _) Hadd)) as (signature & -> & _).
  cbn [with_signature sg_present]. rewrite (pr_present _ _ Hps). cbn [negb]. unfold index_u32.
  rewrite (proj2 (Z.leb_le i u32_max)) by (unfold u32_max; lia). cbn [rbind]. by rewrite Z.mod_small by lia.
Qed.

(** The messages of the session, for any digest and transaction text. *)
Context (digest text : list Z) (Hsession : bytes_of 16 session_id) (Hdigest : bytes_of 32 digest) (Htext : bytes_ok text).

Definition commitment_sent : list Z * list Z * list NonceCommitment := (session_id, digest, map record_for positions).
Definition signed_sent : KleptoFormat.SignedParts := {| KleptoFormat.sp_session := session_id; KleptoFormat.sp_digest := digest;
  KleptoFormat.sp_proofs := map proof_for positions; KleptoFormat.sp_transaction := text |}.

Lemma commitment_sent_typed : KleptoFormat.commitment_typed commitment_sent.
Proof.
  split; [done|]. split; [done|]. cbn [commitment_sent snd]. apply Forall_forall. intros r Hr.
  apply list_elem_of_fmap in Hr as (p & -> & Hp). by apply record_for_typed.
Qed.

Lemma signed_sent_typed : KleptoFormat.signed_typed signed_sent.
Proof.
  split; [done|]. split; [done|]. split; [|done]. cbn [signed_sent KleptoFormat.sp_proofs]. apply Forall_forall. intros r Hr.
  apply list_elem_of_fmap in Hr as (p & -> & Hp). by apply record_for_typed.
Qed.

Local Notation c := (KleptoFormat.commitment_of commitment_sent).
Local Notation m := (KleptoFormat.signed_of signed_sent).

Lemma len_sent : len c = blen positions.
Proof. unfold len. cbn [KleptoFormat.commitment_of commitment_sent count]. unfold blen. by rewrite length_map. Qed.

Lemma record_sent (k : nat) p : positions !! k = Some p -> record c (Z.of_nat k) = Some (record_for p) /\ proof m (Z.of_nat k) = Some (proof_for p).
Proof.
  intros Hk. rewrite KleptoFormat.record_lookup, KleptoFormat.proof_lookup by (first [apply commitment_sent_typed|apply signed_sent_typed|lia]).
  rewrite !get_at_nat. cbn [commitment_sent signed_sent KleptoFormat.sp_proofs snd].
  change (map record_for) with (fmap (M := list) record_for). change (map proof_for) with (fmap (M := list) proof_for). by rewrite !list_lookup_fmap, Hk.
Qed.

Lemma commitment_accepted : validate_host_commitment original c = Ok tt.
Proof.
  unfold validate_host_commitment. rewrite len_sent.
  assert (Hgen : forall l (k : nat) previous, (forall j p, l !! j = Some p -> positions !! (k + j)%nat = Some p) -> ascending l ->
    (forall q, previous = Some q -> Forall (fun p => before q p = true) l) -> exists last,
    try_fold (fun previous_position index =>
      let? record := ok_or (record c index) (Fails InvalidProof) in
      let? _ := lift (validate_commitment_order previous_position record) in
      let? _ := validate_commitment_record original record in
      Ok (Some (position_of record))) previous (seqZ (Z.of_nat k) (blen l)) = Ok last).
  { induction l as [|p l IH]; intros k previous Hl Hasc Hprev.
    - change (blen []) with 0. rewrite seqZ_nil by lia. by exists previous.
    - rewrite blen_cons, seqZ_cons by (pose proof (blen_nonneg l); lia). cbn [try_fold].
      pose proof (Hl 0%nat p eq_refl) as Hk. rewrite Nat.add_0_r in Hk. rewrite (proj1 (record_sent k p Hk)). cbn [ok_or rbind].
      assert (Hord : validate_commitment_order previous (record_for p) = Ok tt).
      { unfold validate_commitment_order. destruct previous as [q|]; [|done]. pose proof (Hprev q eq_refl) as Hq. apply Forall_cons in Hq as [Hq _].
        rewrite position_of_record. by rewrite Hq. }
      rewrite Hord. cbn [lift rmap_err rbind]. rewrite record_accepted by (apply list_elem_of_lookup; by exists k). cbn [rbind].
      apply StronglySorted_inv in Hasc as [Hasc Hp]. replace (Z.succ (Z.of_nat k)) with (Z.of_nat (S k)) by lia.
      replace (Z.pred (1 + blen l)) with (blen l) by lia. apply IH; [|done|].
      + intros j q Hj. rewrite <- (Hl (S j) q Hj). f_equal. lia.
      + intros q [= <-]. by rewrite position_of_record. }
  destruct (Hgen positions 0%nat None) as [last Hfold]; [done|apply positions_ascending|done|]. change (Z.of_nat 0) with 0 in Hfold. by rewrite Hfold.
Qed.

Context (final : Transaction) (Hfinal : advanced positions final).

Lemma final_body : same_body original final.
Proof.
  apply same_body_content; [apply Hfinal|apply Hprov|]. intros i Hi. destruct (ad_frame _ _ Hfinal i Hi) as [Hc _]. rewrite Hc. split; [by apply Hprov|].
  intros slot Hs. rewrite (ad_rest _ _ Hfinal i slot); [by apply Hprov|done|lia|]. intros [_ Hadd]%elem_of_added. lia.
Qed.

Lemma final_added l : forall acc, 0 <= acc -> Forall (fun i => 0 <= i < num_inputs original) l -> acc + 5 * blen l <= u64_max ->
  try_fold (fun added index => let? more := added_signatures_for_input original final index in
    ok_or (checked_add added more) (Fails TransactionMismatch)) acc l = Ok (acc + blen (new_slots l)).
Proof.
  destruct (bare_lengths _ _ (ad_content _ _ Hfinal)) as (Hn & _).
  induction l as [|i l IH]; intros acc Hacc Hl Hmax; [cbn [try_fold]; change (blen (new_slots [])) with 0; f_equal; lia|].
  apply Forall_cons in Hl as [Hi Hl]. rewrite blen_cons in Hmax. pose proof (blen_nonneg l). cbn [try_fold]. assert (Hif : 0 <= i < num_inputs final) by lia.
  unfold added_signatures_for_input at 1. rewrite (input_of_Ok original (pv_original _ Hprov)) by done. rewrite (input_of_Ok final (ad_readable _ _ Hfinal)) by done. cbn [rbind].
  destruct (ad_frame _ _ Hfinal i Hi) as [Hc _]. pose proof (rd_count _ (ad_readable _ _ Hfinal) i Hif) as Hcount. pose proof (rd_slots _ (ad_readable _ _ Hfinal) i) as Hfive.
  pose proof (rd_count _ (pv_original _ Hprov) i Hi). pose proof (pv_grown _ Hprov i Hi). rewrite Hc in *.
  set (start := sig_count (input_at original i)) in *. set (end_ := sig_count (input_at provisional_tx i)) in *.
  destruct (slice_slots (input_at final i) start end_ Hfive) as (sl & Hslice & Himap); [lia..|]. rewrite Hslice. cbn [ok_or rbind].
  assert (Hlen : blen sl = end_ - start) by (apply slice_Some in Hslice as (? & ? & _ & _ & He); lia).
  assert (Hpresent : existsb (fun slot => negb (sg_present slot)) sl = false).
  { apply not_true_iff_false. intros (x & Hx & Hneg)%existsb_exists. apply list_elem_of_In, list_elem_of_lookup in Hx as [k Hk].
    assert (Hkey : (start + Z.of_nat k, x) ∈ map (fun slot => (slot, sig_at (input_at final i) slot)) (seqZ start (end_ - start))).
    { rewrite <- Himap. apply elem_of_lookup_imap. by exists k, x. }
    apply list_elem_of_fmap in Hkey as (slot & [= <- ->] & Hs%elem_of_seqZ).
    assert (Hadd : added original provisional_tx i (start + Z.of_nat k)) by (split; [done|fold start end_; lia]).
    destruct (ad_done _ _ Hfinal i (start + Z.of_nat k) Hi ltac:(lia) (proj2 (elem_of_added _ _ _ _) Hadd)) as (signature & Heq & _).
    rewrite Heq in Hneg. cbn [with_signature sg_present] in Hneg. by rewrite (pr_present _ _ (pv_added _ Hprov _ _ Hadd)) in Hneg. }
  rewrite Hpresent. cbn [rbind]. unfold checked_add. unfold MAX_SIGS_PER_INPUT in *. rewrite checked_u64_id by (unfold u64_ok, u64_max in *; lia). cbn [ok_or rbind].
  rewrite IH; [|lia|done|lia]. f_equal. rewrite new_slots_cons, blen_app. fold start end_. unfold blen at 3. rewrite length_map, length_seqZ. lia.
Qed.

Lemma binding_accepted : validate_transcript_binding original final c m = Ok tt.
Proof.
  unfold validate_transcript_binding. change (cm_session_id c) with session_id. change (sd_session_id m) with session_id.
  change (cm_transaction_digest c) with digest. change (sd_transaction_digest m) with digest.
  rewrite !(proj2 (list_Z_eqb_eq _ _) eq_refl). cbn [negb orb].
  rewrite (proj2 (same_body_iff original final (pv_original _ Hprov) (ad_readable _ _ Hfinal)) final_body). cbn [rbind negb orb].
  assert (Hcount : proof_count m = len c).
  { rewrite len_sent. unfold proof_count. cbn [KleptoFormat.signed_of signed_sent sd_proof_count KleptoFormat.sp_proofs]. unfold blen. by rewrite length_map. }
  rewrite Hcount, Z.eqb_refl. cbn [negb]. unfold added_signature_count. destruct (bare_lengths _ _ (ad_content _ _ Hfinal)) as (Hn & _). rewrite Hn at 1.
  rewrite Z.eqb_refl. cbn [negb]. pose proof (pv_few _ Hprov) as Hfew. pose proof (rd_inputs _ (pv_original _ Hprov)).
  rewrite (final_added (seqZ 0 (num_inputs original)) 0).
  - cbn [rbind]. change (new_slots (seqZ 0 (num_inputs original))) with positions. rewrite len_sent, Z.add_0_l, Z.eqb_refl. done.
  - done.
  - apply Forall_forall. intros i Hi%elem_of_seqZ. lia.
  - unfold blen. rewrite length_seqZ. unfold MAX_INPUTS, u16_max, u64_max in *. lia.
Qed.

Lemma proof_accepted k : 0 <= k < len c -> verify_transcript_proof sha256 keyed original final c m host_secret k = Ok tt.
Proof.
  rewrite len_sent. intros Hk. destruct (lookup_lt_is_Some_2 positions (Z.to_nat k)) as [p Hp]; [unfold blen in Hk; lia|].
  destruct (record_sent _ _ Hp) as [Hrec Hproof]. rewrite Z2Nat.id in Hrec, Hproof by lia.
  assert (Hadd : added original provisional_tx (fst p) (snd p)) by (apply position_added, list_elem_of_lookup; by eexists).
  pose proof (pv_added _ Hprov _ _ Hadd) as Hps. destruct (added_bounds _ _ Hadd) as [_ Hslot]. pose proof Hadd as [Hi Hs].
  destruct (bare_lengths _ _ (ad_content _ _ Hfinal)) as (Hn & _). assert (Hif : 0 <= fst p < num_inputs final) by lia.
  destruct (ad_frame _ _ Hfinal _ Hi) as [Hc Ht]. destruct (ad_done _ _ Hfinal (fst p) (snd p) Hi ltac:(lia)) as (signature & Hsig & Hfin).
  { apply elem_of_added. by destruct p. }
  unfold verify_transcript_proof. rewrite Hrec, Hproof. cbn [ok_or rbind].
  assert (Hpos : validate_proof_position final (record_for p) (proof_for p) = Ok tt).
  { unfold validate_proof_position. cbn [record_for proof_for input_index signature_slot pf_input_index pf_signature_slot]. rewrite !Z.eqb_refl. cbn [negb orb].
    rewrite (proj2 (Z.leb_gt _ _)) by lia. rewrite (input_of_Ok final (ad_readable _ _ Hfinal)) by done. cbn [rbind]. by rewrite (proj2 (Z.leb_gt _ _)) by lia. }
  rewrite Hpos. cbn [rbind proof_for pf_input_index pf_signature_slot]. rewrite (input_of_Ok final (ad_readable _ _ Hfinal)) by done. cbn [rbind].
  rewrite (slot_of_Ok final (ad_readable _ _ Hfinal)) by done. cbn [rbind]. rewrite Hsig.
  set (s := slot_at p) in *. assert (Hkey : signing_pubkey_xonly final (fst p) (sg_pubkey_pos s) = Ok (key_of s)).
  { rewrite <- (signing_content original final) by apply Hfinal. apply Hps. }
  destruct (pv_types _ Hprov (fst p) Hi ltac:(lia)) as [Hall Hexp].
  assert (Hmeta : validate_proof_signature_metadata original final (record_for p) (proof_for p) (with_signature signature s) = Ok tt).
  { unfold validate_proof_signature_metadata. cbn [proof_for pf_input_index]. cbv zeta. unfold expected_added_sighash.
    rewrite (input_of_Ok original (pv_original _ Hprov)) by done. cbn [rbind]. rewrite (input_of_Ok final (ad_readable _ _ Hfinal)) by done. cbn [rbind].
    rewrite Ht, Hall. cbn [with_signature sg_present sg_sighash_type sg_pubkey_pos]. rewrite (pr_present _ _ Hps), (pr_type _ _ Hps).
    assert (Hexp2 : (if sig_count (input_at original (fst p)) =? 0 then all else sighash_type (input_at original (fst p))) = all).
    { destruct Hexp as [-> | ->]; [done|]. by destruct (_ =? 0). }
    rewrite Hexp2, bool_decide_true by done. cbn [negb]. rewrite Hkey. cbn [rbind record_for public_key xonly drop].
    change (drop 1 (sg_pubkey_compressed s)) with (key_of s). fold s. unfold xonly. cbn [drop]. by rewrite drop_0, (proj2 (list_Z_eqb_eq _ _) eq_refl). }
  rewrite Hmeta. cbn [rbind]. unfold verify_proof_signature. cbn [proof_for pf_input_index with_signature sg_pubkey_pos sg_sighash_type sg_signature]. cbv zeta.
  rewrite Hkey, (pr_type _ _ Hps). change (SigHashType.from_byte all) with (Some SigHashType.All). cbn [rbind ok_or].
  rewrite <- (sighash_content keyed original final) by apply Hfinal.
  assert (Hok : schnorr_verify (key_of s) (message (fst p)) signature = Ok tt).
  { apply library; [|apply Hfin|apply Hfin]. destruct (pr_compressed _ _ Hps) as [[Hb Hl] _]. split; [by apply Forall_drop|]. unfold xonly, blen in *. rewrite length_drop. lia. }
  rewrite Hok. cbn [rmap_err rbind]. cbn [record_for nonce_point input_index signature_slot public_key]. change (cm_session_id c) with session_id.
  fold s. pose proof (fin_nonce _ _ _ Hfin) as Hnonce. fold s in Hnonce. by rewrite Hnonce.
Qed.

(** The host accepts the finalized transaction. *)
Lemma session_accepted : verify_host_transcript sha256 keyed original final c m host_secret = Ok tt.
Proof.
  unfold verify_host_transcript. rewrite commitment_accepted. cbn [rbind]. rewrite binding_accepted. cbn [rbind].
  apply for_range_intro, proof_accepted.
Qed.
End session.

(** ** A device with one key *)

Section raw_key.
Context (sha256 : list Z -> list Z) (keyed : list Z -> list Z -> list Z) `{GroupLaws} `{!CurveLaws} `{!Bip340} `{!Bip340Laws}.
Hypothesis library : decides_valid sha256.
Context (original : Transaction) (Hwf : well_formed original) (Hunsigned : forall i, 0 <= i < num_inputs original -> sig_count (input_at original i) = 0).
Context (private_key compressed entropy : list Z) (Hkey : bytes_of 32 private_key) (Hpub : compressed_pubkey_from_raw_key private_key = Ok compressed).

Local Notation all := (SigHashType.to_byte SigHashType.All).
Local Notation message i := (calculate_sighash keyed original i SigHashType.All).
Local Notation own i := (input_matches_xonly original i (x_coordinate compressed)).

Lemma compressed_shape : bytes_of 33 compressed /\ get_at compressed 0 <> Some 0.
Proof.
  unfold compressed_pubkey_from_raw_key in Hpub. rewrite secret_key_spec in Hpub by done.
  destruct (Z.ltb_spec 0 (be_val private_key)); [|done]. destruct (Z.ltb_spec (be_val private_key) order); [|done]. cbn [andb ok_or rbind] in Hpub.
  injection Hpub as <-. assert (Hid : is_identity (generator_times (be_val private_key)) = false).
  { rewrite generator_identity by lia. apply Z.eqb_neq. lia. }
  split; [by apply encode_size|]. destruct (coordinates_spec _ Hid) as (x & y & _ & _ & ->). by destruct (is_odd y).
Qed.

(** A signature of this key is one of the standard's. *)
Lemma raw_signature tx i signature : bare_tx original = bare_tx tx ->
  sign_one sha256 keyed tx i private_key SigHashType.All (Some entropy) = Ok signature ->
  bytes_of 64 signature /\ bip340_valid sha256 (x_coordinate compressed) (message i) signature.
Proof.
  intros Hc. unfold sign_one, sign_input_with_entropy. cbv zeta. rewrite <- (sighash_content keyed original tx) by done.
  destruct (schnorr_sign_with_aux_rand _ _ _) as [s|] eqn:Hs; [|done]. intros [= <-].
  assert (H64 : bytes_of 64 s) by (unfold schnorr_sign_with_aux_rand in Hs; apply rbind_Ok_inv in Hs as (sk & _ & Hs%ok_or_Ok); by eapply sign_size, Hs).
  split; [done|]. pose proof (signature_verifies _ _ _ _ _ Hpub Hs) as Hok. destruct compressed_shape as [[Hb Hl] _]. apply library; [|done|].
  - split; [by apply Forall_drop|]. unfold x_coordinate, blen in *. rewrite length_drop. lia.
  - unfold verifies in Hok. by destruct (schnorr_verify _ _ s) as [[]|].
Qed.

(** The inputs before [k] that pay to the key are signed, the others are as
    they were. *)
Record signed_upto (k : Z) (tx : Transaction) : Prop := {
  su_content : bare_tx original = bare_tx tx;
  su_own : forall i, 0 <= i < num_inputs original -> i < k -> own i = true -> exists signature,
    input_at tx i = set_single_signature signature all 0 compressed (input_at original i) /\
    bytes_of 64 signature /\ bip340_valid sha256 (x_coordinate compressed) (message i) signature;
  su_rest : forall i, (k <= i \/ own i = false \/ i < 0 \/ num_inputs original <= i) -> input_at tx i = input_at original i }.

Lemma matches_content tx i : bare_tx original = bare_tx tx -> input_matches_xonly tx i (x_coordinate compressed) = own i.
Proof.
  intros Hc. unfold input_matches_xonly, p2pk_target. by rewrite (f_equal utxo_entry (bare_same _ _ i Hc) : utxo_entry (input_at original i) = utxo_entry (input_at tx i)).
Qed.

Lemma sign_raw_loop (count : nat) : forall k tx r tx', 0 <= k -> k + Z.of_nat count = num_inputs original -> signed_upto k tx ->
  for_count (seqZ k (Z.of_nat count)) (fun input_index =>
    let* matching := reads (fun tx => Ok (input_matches_xonly tx input_index (x_coordinate compressed))) in
    if negb matching then ret 0
    else let* _ := sign_single sha256 keyed input_index 0 private_key compressed SigHashType.All (Some entropy) in ret 1) tx = (r, tx') ->
  r = Err SigCheck.SigningFailed \/
  exists n, r = Ok n /\ 0 <= n /\ signed_upto (num_inputs original) tx' /\ (0 < n -> exists i, k <= i < num_inputs original /\ own i = true).
Proof.
  induction count as [|count IH]; intros k tx r tx' Hk Hn Hup.
  - rewrite seqZ_nil by lia. intros [= <- <-]. right. exists 0. split; [done|]. split; [done|]. split; [|lia]. by replace (num_inputs original) with k by lia.
  - rewrite (seqZ_cons k) by lia. replace (Z.pred (Z.of_nat (S count))) with (Z.of_nat count) by lia. cbn [for_count].
    pose proof Hup as [Hc Hown Hrest]. unfold bind at 1 2, reads at 1. rewrite (matches_content tx k Hc). destruct (own k) eqn:Hm; cbn [negb].
    + unfold bind at 1. unfold sign_single at 1. destruct (sign_one sha256 keyed tx k private_key SigHashType.All (Some entropy)) as [signature|e] eqn:Hs.
      2:{ intros [= <- <-]. left. unfold sign_one in Hs. destruct (sign_input_with_entropy _ _ _ _ _ _ _); [done|]. by injection Hs as <-. }
      cbn [ret]. destruct (raw_signature tx k signature Hc Hs) as [H64 Hv]. rewrite (Hrest k) by (left; lia).
      set (after := set_single_signature signature all 0 compressed (input_at original k)).
      destruct (bare_lengths _ _ Hc) as (Hnum & _). pose proof (rd_inputs _ (readable_of _ Hwf)) as Hlen. destruct (bare_lengths _ _ Hc) as (_ & _ & Hblen & _).
      assert (Hup' : signed_upto (k + 1) (put_input k after tx)).
      { split.
        - rewrite Hc. symmetry. apply bare_put; [lia|lia|]. by rewrite (Hrest k) by (left; lia).
        - intros i Hi Hik Ho. rewrite input_at_put by lia. destruct (decide (i = k)) as [->|]; [by exists signature|]. apply Hown; [done|lia|done].
        - intros i Hi. destruct (decide (i = k)) as [->|]; [destruct Hi as [|[|[|]]]; [lia|congruence|lia|lia]|].
          destruct (Z.leb_spec 0 i) as [H0i|H0i].
          + rewrite input_at_put by lia. rewrite decide_False by done. apply Hrest. destruct Hi as [|[|[|]]]; [left; lia|by right; left|lia|by right; right; right].
          + unfold input_at, get_at. by rewrite (proj2 (Z.leb_gt 0 i)) by lia. }
      unfold bind. destruct (for_count _ _ (put_input k after tx)) as [r2 tx2] eqn:Hl. apply IH in Hl as [-> |(n & -> & Hn0 & Hup2 & Hsome)]; [| |lia|lia|done].
      * intros [= <- <-]. by left.
      * intros [= <- <-]. right. exists (1 + n). split; [done|]. split; [lia|]. split; [done|]. intros _. exists k. split; [lia|done].
    + cbn [ret]. unfold bind. destruct (for_count _ _ tx) as [r2 tx2] eqn:Hl. apply IH in Hl as [-> |(n & -> & Hn0 & Hup2 & Hsome)]; [| |lia|lia|].
      * intros [= <- <-]. by left.
      * intros [= <- <-]. right. exists (0 + n). split; [done|]. split; [lia|]. split; [done|]. intros Hp. destruct Hsome as (i & Hi & Ho); [lia|]. exists i. split; [lia|done].
      * split; [done| |].
        -- intros i Hi Hik Ho. apply Hown; [done| |done]. destruct (decide (i = k)) as [->|]; [congruence|lia].
        -- intros i Hi. apply Hrest. destruct (decide (i = k)) as [->|]; [by right; left|]. destruct Hi as [|[|[|]]]; [left; lia|auto..].
Qed.

Lemma own_script i : 0 <= i < num_inputs original -> own i = true ->
  signing_pubkey_xonly original i 0 = Ok (xonly compressed) /\ pubkey_is_allowed_for_input original i (xonly compressed) = Ok true.
Proof.
  intros Hi Ho. unfold input_matches_xonly in Ho. destruct (p2pk_target original i) as [target|] eqn:Ht; [|done]. apply list_Z_eqb_eq in Ho as ->.
  assert (Hs : signable original) by (split; [apply (rd_inputs _ (readable_of _ Hwf))|by apply typed_slots, Hwf]).
  destruct (p2pk_target_named original i _ Hs Hi Ht) as [Han He]. destruct (names_p2pk original i None Han) as [_ He']. rewrite He in He'. injection He' as Hx.
  assert (Hp2pk : p2pk_signing_key (E := AntiKleptoVerifyError) original i = Ok (xonly compressed)).
  { unfold p2pk_signing_key. rewrite (input_of_Ok original (readable_of _ Hwf)) by done. cbn [rbind]. apply part_Ok.
    pose proof (rd_key _ (readable_of _ Hwf) i) as Hl. unfold slice. rewrite Hl. unfold MAX_SCRIPT_SIZE. cbn [Z.leb Z.compare Pos.compare Pos.compare_cont andb]. f_equal. symmetry. exact Hx. }
  unfold signing_pubkey_xonly, pubkey_is_allowed_for_input. rewrite Han, Hp2pk. split; [done|]. cbn [rbind]. by rewrite (proj2 (list_Z_eqb_eq _ _) eq_refl).
Qed.

Lemma single_slots signature input slot : sig_at (set_single_signature signature all 0 compressed input) 0 = filled_slot signature all 0 compressed /\
  (blen (sigs input) = MAX_SIGS_PER_INPUT -> blen (sigs (set_single_signature signature all 0 compressed input)) = slot -> slot = MAX_SIGS_PER_INPUT).
Proof.
  split; [done|]. intros Hl <-. cbn [set_single_signature set_sigs sigs]. rewrite blen_cons. unfold blen in *. rewrite length_map, length_drop. unfold MAX_SIGS_PER_INPUT in *. lia.
Qed.

Lemma signed_provisional tx : num_inputs original <= MAX_INPUTS -> signed_upto (num_inputs original) tx -> provisional sha256 keyed original tx.
Proof.
  intros Hfew [Hc Hown Hrest]. pose proof (readable_of _ Hwf) as Hrd. destruct (bare_lengths _ _ Hc) as (Hn & _).
  assert (Hcases : forall i, (exists signature, 0 <= i < num_inputs original /\ own i = true /\
      input_at tx i = set_single_signature signature all 0 compressed (input_at original i) /\
      bytes_of 64 signature /\ bip340_valid sha256 (x_coordinate compressed) (message i) signature) \/ input_at tx i = input_at original i).
  { intros i. destruct (decide (0 <= i < num_inputs original)) as [Hi|Hi]; [|right; apply Hrest; lia]. destruct (own i) eqn:Ho; [left|right; apply Hrest; auto].
    destruct (Hown i Hi (proj2 Hi) Ho) as (signature & ?). by exists signature. }
  assert (Hslots : forall i, blen (sigs (input_at tx i)) = MAX_SIGS_PER_INPUT).
  { intros i. destruct (Hcases i) as [(signature & _ & _ & -> & _)| ->]; [|apply Hrd]. by apply (proj2 (single_slots signature (input_at original i) _) (rd_slots _ Hrd i)). }
  assert (Hcount : forall i, 0 <= i < num_inputs original -> sig_count (input_at tx i) = 0 \/ sig_count (input_at tx i) = 1 /\ sighash_type (input_at tx i) = all).
  { intros i Hi. destruct (Hcases i) as [(signature & _ & _ & -> & _)| ->]; [by right|left; by apply Hunsigned]. }
  split; try done.
  - apply (readable_content original); [done..|]. intros i Hi. rewrite <- Hn in Hi. destruct (Hcount i Hi) as [-> |[-> _]]; done.
  - intros i Hi. rewrite (Hunsigned i Hi). destruct (Hcount i Hi) as [-> |[-> _]]; lia.
  - intros i slot Hi Hs. rewrite (Hunsigned i Hi) in Hs. lia.
  - intros i Hi Hs. rewrite (Hunsigned i Hi) in *. destruct (Hcount i Hi) as [Hz|[_ ->]]; [lia|]. split; [done|by left].
  - intros i slot [Hi Hs]. rewrite (Hunsigned i Hi) in Hs. destruct (Hcases i) as [(signature & _ & Ho & Heq & H64 & Hv)|Heq]; rewrite Heq in *.
    2:{ rewrite (Hunsigned i Hi) in Hs. lia. }
    cbn [set_single_signature set_sigs sig_count] in Hs. assert (slot = 0) as -> by lia. rewrite (proj1 (single_slots signature (input_at original i) 0)).
    destruct (own_script i Hi Ho) as [Hkey' Hallowed]. split; try done. exact compressed_shape.
Qed.

Lemma raw_resolves tx' : signed_upto (num_inputs original) tx' -> forall (tx : Transaction) (s : unit) i slot, added original tx' i slot ->
  let key := sg_pubkey_compressed (sig_at (input_at tx' i) slot) in
  match fst (raw_material private_key compressed key, s) with
  | Some m => if decide (compressed_public_key m = key)
              then bytes_of 32 (Signing.private_key m) /\ compressed_pubkey_from_raw_key (Signing.private_key m) = Ok key else False
  | None => False
  end.
Proof.
  intros [Hc Hown Hrest] tx s i slot [Hi Hs]. rewrite (Hunsigned i Hi) in Hs. destruct (own i) eqn:Ho.
  - destruct (Hown i Hi (proj2 Hi) Ho) as (signature & Heq & _). rewrite Heq in *. cbn [set_single_signature set_sigs sig_count] in Hs. assert (slot = 0) as -> by lia.
    rewrite (proj1 (single_slots signature (input_at original i) 0)). cbn [filled_slot sg_pubkey_compressed]. cbv zeta. unfold raw_material.
    rewrite (proj2 (list_Z_eqb_eq _ _) eq_refl). cbn [fst compressed_public_key Signing.private_key]. by rewrite decide_True.
  - rewrite (Hrest i), (Hunsigned i Hi) in Hs by auto. lia.
Qed.
End raw_key.

(** What an encoder writes is what the parser reads. *)
Definition transmits {R E E'} (encode : Comp (list Z) (Fault E) Z) (parse : list Z -> result R (Fault E')) (r : R) : Prop :=
  exists n, forall out, n <= blen out -> exists out', encode out = (Ok n, out') /\ parse (take (Z.to_nat n) out') = Ok r.

Lemma codec_transmits {M R E E'} (encode : M -> Comp (list Z) (Fault E) Z) (parse : list Z -> result R (Fault E')) valid typed bytes (good : R -> Prop) text m r :
  exact_writer encode valid typed bytes -> exact_reader parse good text -> typed m -> valid m -> good r -> bytes m = text r -> bytes_ok (text r) ->
  transmits (encode m) parse r.
Proof.
  intros [Hw _] [Hr _] Ht Hv Hg Heq Hb. exists (blen (text r)). intros out Hfit. exists (text r ++ drop (length (text r)) out). split.
  - rewrite <- Heq. apply Hw; [done..|]. by rewrite Heq.
  - unfold blen. rewrite Nat2Z.id, take_app_length. by apply Hr.
Qed.

(** ** The whole session *)

Section exchange.
Context (sha256 : list Z -> list Z) (keyed : list Z -> list Z -> list Z) `{GroupLaws} `{!CurveLaws} `{!Bip340} `{!Bip340Laws}.
Hypothesis library : decides_valid sha256.
Context (original prov : Transaction) (private_key entropy : list Z) (n : Z).
Context (Hwf : well_formed original) (Hfew : num_inputs original <= MAX_INPUTS)
  (Hunsigned : forall i, 0 <= i < num_inputs original -> sig_count (input_at original i) = 0) (Hkey : bytes_of 32 private_key)
  (Hsigned : sign_matching_inputs_in_place_with_entropy sha256 keyed private_key SigHashType.All entropy original = (Ok n, prov)).

Lemma device_signed : exists compressed, compressed_pubkey_from_raw_key private_key = Ok compressed /\
  signed_upto sha256 keyed original compressed (num_inputs original) prov /\ added_positions original prov <> [].
Proof.
  unfold sign_matching_inputs_in_place_with_entropy in Hsigned. revert Hsigned. unfold bind at 1, reads at 1.
  destruct (validate_base_transaction original) as [[]|]; [|done]. unfold bind at 1, of_result at 1, compressed_or_fail.
  destruct (compressed_pubkey_from_raw_key private_key) as [compressed|] eqn:Hpub; [|done]. cbn [rmap_err]. unfold bind at 1, reads at 1, input_indices.
  pose proof (rd_inputs _ (readable_of _ Hwf)) as Hnum. intros Hrun. exists compressed. split; [done|]. revert Hrun. unfold bind at 1.
  destruct (for_count _ _ original) as [r tx'] eqn:Hloop. intros Hrun.
  assert (Hstart : signed_upto sha256 keyed original compressed 0 original) by (split; [done|lia|done]).
  pose proof (sign_raw_loop sha256 keyed library original Hwf private_key compressed entropy Hkey Hpub (Z.to_nat (num_inputs original)) 0 original r tx') as Hall.
  rewrite Z2Nat.id in Hall by lia. destruct (Hall ltac:(lia) ltac:(lia) Hstart Hloop) as [-> |(total & -> & Hpos & Hup & Hsome)]; [done|].
  unfold of_result, signed_count_result in Hrun. destruct (Z.eqb_spec total 0); [done|]. injection Hrun as _ <-. split; [done|].
  destruct (Hsome ltac:(lia)) as (i & Hi & Ho). destruct (su_own _ _ _ _ _ _ Hup i Hi (proj2 Hi) Ho) as (signature & Heq & _).
  assert (Hin : (i, 0) ∈ added_positions original tx').
  { apply elem_of_added. split; [done|]. rewrite Hunsigned, Heq by done. cbn [set_single_signature set_sigs sig_count]. lia. }
  intros Hnil. rewrite Hnil in Hin. by apply not_elem_of_nil in Hin.
Qed.

Lemma positions_few tx : provisional sha256 keyed original tx -> blen (added_positions original tx) <= 5 * num_inputs original.
Proof.
  intros Hprov. change (added_positions original tx) with (new_slots original tx (seqZ 0 (num_inputs original))).
  assert (Hgen : forall l, Forall (fun i => 0 <= i < num_inputs original) l -> blen (new_slots original tx l) <= 5 * blen l).
  { induction 1 as [|i l Hi _ IH]; [done|]. rewrite new_slots_cons, blen_app, blen_cons. unfold blen at 1. rewrite length_map, length_seqZ.
    destruct (bare_lengths _ _ (pv_content _ _ _ _ Hprov)) as (Hn & _). pose proof (rd_count _ (pv_readable _ _ _ _ Hprov) i ltac:(lia)).
    pose proof (rd_count _ (readable_of _ Hwf) i Hi). unfold MAX_SIGS_PER_INPUT in *. lia. }
  pose proof (rd_inputs _ (readable_of _ Hwf)). etransitivity; [apply Hgen|unfold blen; rewrite length_seqZ; lia].
  apply Forall_forall. intros i Hi%elem_of_seqZ. lia.
Qed.

Context (session secret digest text : list Z) (Hsession : bytes_of 16 session) (Hdigest : bytes_of 32 digest) (Htext : bytes_ok text).

Lemma messages_transmitted : let cs := commitment_sent original prov session digest in let ss := signed_sent original prov session digest text in
  provisional sha256 keyed original prov -> added_positions original prov <> [] -> blen text <= u32_max ->
  transmits (encode_commitment session digest cs.2) parse_commitment (KleptoFormat.commitment_of cs) /\
  transmits (encode_signed session digest (KleptoFormat.sp_proofs ss) text) parse_signed (KleptoFormat.signed_of ss).
Proof.
  intros cs ss Hprov Hsome Hmax. pose proof (positions_few prov Hprov) as Hcount.
  assert (Hpos : 0 < blen (added_positions original prov) <= u32_max).
  { unfold MAX_INPUTS, u16_max, u32_max in *. destruct (added_positions original prov); [done|]. rewrite blen_cons in *. pose proof (blen_nonneg l). lia. }
  pose proof (commitment_sent_typed _ _ _ _ Hprov session digest Hsession Hdigest) as Hct.
  pose proof (signed_sent_typed _ _ _ _ Hprov session digest text Hsession Hdigest Htext) as Hst. fold cs in Hct. fold ss in Hst.
  assert (Hcv : 0 < blen cs.2 <= u32_max) by (unfold cs; cbn [commitment_sent snd]; unfold blen in *; by rewrite length_map).
  assert (Hsv : KleptoFormat.signed_valid ss) by (split; [unfold ss; cbn [signed_sent KleptoFormat.sp_proofs]; unfold blen in *; by rewrite length_map|done]).
  split.
  - eapply (codec_transmits (fun m => encode_commitment m.1.1 m.1.2 m.2) parse_commitment _ _ _ _ _ cs _ KleptoFormat.commitment_writer KleptoFormat.commitment_reader);
      [done|done|by apply KleptoFormat.commitment_of_good|done|]. by apply KleptoFormat.commitment_bytes_ok, KleptoFormat.commitment_of_good.
  - eapply (codec_transmits (fun m => encode_signed (KleptoFormat.sp_session m) (KleptoFormat.sp_digest m) (KleptoFormat.sp_proofs m) (KleptoFormat.sp_transaction m))
      parse_signed _ _ _ _ _ ss _ KleptoFormat.signed_writer KleptoFormat.signed_reader);
      [done|done|by apply KleptoFormat.signed_of_good|done|]. by apply KleptoFormat.signed_bytes_ok, KleptoFormat.signed_of_good.
Qed.
End exchange.


(** ** Witnesses *)

#[local] Existing Instances parity_curve parity_group parity_laws parity_group_laws parity_bip340 parity_bip340_laws.

Definition demo_key : list Z := toy_secret 0x123456789.
Definition demo_tx : Transaction := unsigned_tx (unsigned_input (Standard.p2pk_script (toy_secret 0x123456789)) []).
Definition demo_signed : result Z PsktError * Transaction :=
  sign_matching_inputs_in_place_with_entropy toy_sha toy_keyed demo_key SigHashType.All (replicate 32 2) demo_tx.
#[local] Notation demo_final :=
  (finalize_raw_key_signatures toy_sha toy_keyed demo_key (initial_signature_counts demo_tx) (replicate 16 4) (replicate 32 5) (snd demo_signed)).
Definition demo_commitment : Commitment := KleptoFormat.commitment_of (commitment_sent demo_tx (snd demo_signed) (replicate 16 4) (replicate 32 6)).
Definition demo_message : Signed := KleptoFormat.signed_of (signed_sent demo_tx (snd demo_signed) (replicate 16 4) (replicate 32 6) [1]).

Lemma demo_ok tx : bool_decide (typed_tx tx) = true -> validate_partial_signed tx = Ok tt -> well_formed tx.
Proof. intros Ht%bool_decide_eq_true Hv. split; [done|]. by eapply validated_sound. Qed.

Lemma run_of {A B} (run : A * B) r : fst run = r -> run = (r, snd run).
Proof. intros <-. apply surjective_pairing. Qed.

Lemma host_transcript_sound_witness : exists k r,
  record demo_commitment k = Some r /\ assisted toy_sha toy_keyed demo_tx (snd demo_final) (replicate 16 4) (replicate 32 5) 0 0 r.
Proof.
  destruct (host_transcript_sound toy_sha toy_keyed demo_tx (snd demo_final) demo_commitment demo_message (replicate 32 5)) as [_ Hthm].
  - apply demo_ok; vm_compute; reflexivity.
  - apply demo_ok; vm_compute; reflexivity.
  - destruct Hthm as (_ & _ & _ & Hall); [vm_compute; reflexivity|]. destruct (Hall 0 0) as (k & r & Hr & Ha & _); [split; [vm_compute; split; congruence|vm_compute; split; congruence]|]. exact (ex_intro _ k (ex_intro _ r (conj Hr Ha))).
Defined.

