(* ===== verification/Stealth.v ===== *)
(** * Stealth addresses

    [src/src/privacy/stealth]: the metadata a receiver publishes
    ([metadata.rs], [keys.rs]), the payments made to it ([payment.rs],
    [derivation.rs]), the announcement address and the search for a preimage in
    the bytes of a transaction ([scanner.rs]). SHA-256, the HMAC of the
    derivation, the decoding of hexadecimal text and the group are parameters;
    an index out of range is a panic. *)

From S2P Require Import Prelude Bytes Script Address Hd HdProofs TxModel Keys KeysProofs WalletKeys Descriptor DescriptorProofs SigCheck Signing Adaptor AdaptorProofs SigningMessages.
Import Opcode Bip32.

Module Stealth.

(** The texts of the errors. *)
Inductive StealthError :=
  | XonlyLength (length : Z)
  | InvalidPubkey
  | InvalidScalar
  | BadEphemeralPoint
  | MetaLength (length : Z)
  | InvalidHex
  | Account (error : WalletError).

Definition ANNOUNCEMENT_SEED : list Z := str "KaspaPortal-Stealth-Announce-v1".
Definition STEALTH_TAG : list Z := str "KasStealth".
Definition VIEW_TAG : list Z := str "KasStealthViewTag".

Section stealth.
Context (sha256 : list Z -> list Z) (mac : list Z -> list Z -> list Z) (hex_decode : list Z -> option (list Z)) `{Group}.

(** ** [announcement.rs] *)

Definition announcement_address (prefix : list Z) : list Z := encode_p2pk_address (sha256 (ANNOUNCEMENT_SEED ++ prefix)) prefix.

(** ** [derivation.rs] *)

Definition view_tag (shared_secret_x : list Z) : Z := default 0 (get_at (sha256 (VIEW_TAG ++ shared_secret_x)) 0).

(** A hash that is no scalar is shortened to its first 31 bytes. *)
Definition stealth_tweak {E} (shared_secret_x : list Z) (counter : Z) : result (Z * Z) (Fault E) :=
  let hash := sha256 (STEALTH_TAG ++ shared_secret_x ++ be_bytes 4 counter) in
  let? primitive := match scalar_value hash with
                    | Some scalar => Ok scalar
                    | None => ok_or (scalar_value (0 :: take 31 hash)) Panics
                    end in
  let index := Z.land (be_val (take 4 hash)) 0x7fffffff in
  Ok (primitive, index).

(** ** [keys.rs] *)

Definition x_coordinate {E} (compressed : list Z) : result (list Z) (Fault E) := part compressed 1 33.
Definition x_only_bytes {E} (public_key : point) : result (list Z) (Fault E) := x_coordinate (encode_point public_key).
Definition x_only_from_affine {E} (affine : point) : result (list Z) (Fault E) := x_coordinate (encode_point affine).
Definition x_only_pub {E} (public_key : point) : result (list Z) (Fault E) := x_only_bytes public_key.

Definition pubkey_from_xonly (bytes : list Z) : result point StealthError :=
  if negb (blen bytes =? 32) then Err (XonlyLength (blen bytes))
  else ok_or (public_key_from_sec1_bytes (2 :: bytes)) InvalidPubkey.

Definition scalar_from_bytes (bytes : list Z) : result Z StealthError := ok_or (scalar_value bytes) InvalidScalar.

(** ** [metadata.rs] *)

Record StealthMeta := { scan_pubkey : point; spend_pubkey : point }.

Definition derive_stealth_meta (account_key : ExtPubKey) : result StealthMeta (Fault StealthError) :=
  let? scan_key := rmap_err (fun e => Fails (Account e))
    (let? chain := epk_derive_child mac account_key 2 in epk_derive_child mac chain 0) in
  let? scan_x := x_only_bytes (epk_key scan_key) in
  let? spend_x := x_only_bytes (epk_key account_key) in
  let? scan := lift (pubkey_from_xonly scan_x) in
  let? spend := lift (pubkey_from_xonly spend_x) in
  Ok {| scan_pubkey := scan; spend_pubkey := spend |}.

Definition derive_stealth_meta_from_kpub (kpub : list Z) : result StealthMeta (Fault StealthError) :=
  let? account_key := rmap_err (fun e => Fails (Account e)) (from_kpub sha256 kpub) in derive_stealth_meta account_key.

Definition encode_stealth_meta (meta : StealthMeta) : result (list Z) (Fault StealthError) :=
  let? scan_x := x_only_bytes (scan_pubkey meta) in
  let? spend_x := x_only_bytes (spend_pubkey meta) in
  Ok (Hex.hex_text scan_x ++ Hex.hex_text spend_x).

Definition decode_stealth_meta (value : list Z) : result StealthMeta (Fault StealthError) :=
  if negb (blen value =? 128) then fails (MetaLength (blen value))
  else
    let? bytes := ok_or (hex_decode value) (Fails InvalidHex) in
    let? scan_x := part bytes 0 32 in
    let? scan := lift (pubkey_from_xonly scan_x) in
    let? spend_x := part bytes 32 (blen bytes) in
    let? spend := lift (pubkey_from_xonly spend_x) in
    Ok {| scan_pubkey := scan; spend_pubkey := spend |}.

(** ** [payment.rs] *)

Record StealthPayment := { one_time_pubkey : list Z; ephemeral_pubkey : list Z; stealth_index : Z; payment_view_tag : Z }.

Definition generate_stealth_payment (meta : StealthMeta) (entropy : list Z) : result StealthPayment (Fault StealthError) :=
  let? ephemeral_secret := lift (scalar_from_bytes entropy) in
  let ephemeral_point := generator_times ephemeral_secret in
  if is_identity ephemeral_point then fails BadEphemeralPoint
  else
    let shared := point_times (scan_pubkey meta) ephemeral_secret in
    let? shared_x := x_only_from_affine shared in
    let? (tweak, index) := stealth_tweak shared_x 0 in
    let one_time := point_add (spend_pubkey meta) (generator_times tweak) in
    let? one_time_x := x_only_from_affine one_time in
    let? ephemeral_x := x_only_bytes ephemeral_point in
    Ok {| one_time_pubkey := one_time_x; ephemeral_pubkey := ephemeral_x; stealth_index := index;
          payment_view_tag := view_tag shared_x |}.

End stealth.

(** ** [scanner.rs] *)

Definition valid_push_length (length : Z) : bool := (1 <=? length) && (length <=? 200).

Definition first_push (script : list Z) : option (list Z) :=
  '(element, _) ← read_element script 0;
  if (opcode element <=? OP_PUSHDATA2) && valid_push_length (blen (data element)) then Some (data element) else None.

Definition read_u32_length (bytes : list Z) (start : Z) : option Z :=
  end_ ← checked_add start 4;
  encoded ← slice bytes start end_;
  Some (le_val encoded).

Definition script_after_outpoint (raw : list Z) (position : Z) : option (list Z) :=
  after_outpoint ← checked_add position 37;
  script_length ← read_u32_length raw after_outpoint;
  if negb ((10 <=? script_length) && (script_length <=? 1000)) then None
  else
    script_start ← checked_add after_outpoint 4;
    script_end ← checked_add script_start script_length;
    slice raw script_start script_end.

(** [usize] arithmetic below zero, a panic in a debug build, wraps. *)
Definition candidate_outpoint_matches {E} (raw transaction_id : list Z) (position : Z) : result bool (Fault E) :=
  let? first := byte raw position in
  if negb (first =? 1) then Ok false
  else
    let? id := part raw (position + 1) (position + 33) in
    Ok (list_Z_eqb id transaction_id && bool_decide (read_u32_length raw ((position - 4) mod 2 ^ 64) = Some 37)).

Definition candidate_script {E} (raw transaction_id : list Z) (position : Z) : result (option (list Z)) (Fault E) :=
  let? matches := candidate_outpoint_matches raw transaction_id position in
  Ok (if negb matches then None else script_after_outpoint raw position).

Fixpoint scan_positions {E} (raw transaction_id : list Z) (positions : list Z) : result (option (list Z)) (Fault E) :=
  match positions with
  | [] => Ok None
  | position :: positions =>
      let? script := candidate_script raw transaction_id position in
      match script ≫= first_push with
      | Some preimage => Ok (Some preimage)
      | None => scan_positions raw transaction_id positions
      end
  end.

Definition scan_raw_for_preimage {E} (raw transaction_id : list Z) : result (option (list Z)) (Fault E) :=
  let end_ := Z.max 0 (blen raw - 50) in
  scan_positions raw transaction_id (seqZ 4 (end_ - 4)).

End Stealth.

(** ** Points and their x-coordinates *)

Module StealthProofs.
Import Stealth.

Section points.
Context `{GroupLaws} `{!CurveLaws}.

Lemma x_only_of {E} p x : bytes_of 32 x -> (exists tag, encode_point p = tag :: x) -> x_only_bytes (E := E) p = Ok x.
Proof.
  intros [_ Hl] [tag He]. unfold x_only_bytes, x_coordinate, part. rewrite He.
  rewrite (slice_split (tag :: x) [tag] x []); [done|by rewrite app_nil_r|done|]. change (blen [tag]) with 1. lia.
Qed.

(** What an x-coordinate says of a point, and of the key lifted from it. *)
Lemma x_only_parity {E} p : is_identity p = false -> exists x odd, point_x_and_parity p = Some (x, odd) /\ x_only_bytes (E := E) p = Ok x /\
  bytes_of 32 x /\ encode_point p = (if odd then 3 else 2) :: x /\ pubkey_from_xonly x = Ok (if odd then point_neg p else p).
Proof.
  intros Hp. destruct (coordinates_spec p Hp) as (x & y & Hc & Hx & He). exists x, (is_odd y).
  assert (Hpar : point_x_and_parity p = Some (x, is_odd y)) by (unfold point_x_and_parity; by rewrite Hp, Hc).
  split; [done|]. split; [by apply x_only_of; [|eexists]|]. split; [done|]. split; [done|].
  destruct (lift_point p x _ Hpar) as (_ & _ & Hlift). unfold pubkey_from_xonly. destruct Hx as [_ ->]. cbn [Z.eqb Pos.eqb negb].
  unfold Adaptor.xonly_to_point, Adaptor.public_key_to_point in Hlift. destruct (public_key_from_sec1_bytes _); [|done]. by injection Hlift as ->.
Qed.

(** A point and its negation have the same x-coordinate. *)
Lemma x_only_neg {E} a : x_only_bytes (E := E) (G (- a)) = x_only_bytes (G a).
Proof.
  destruct (is_identity (G a)) eqn:Hid.
  - apply G_identity in Hid. rewrite (G_proper (- a) (- 0)), (G_proper a 0) by (by rewrite Hid). done.
  - rewrite <- G_neg. destruct (coordinates_spec _ Hid) as (x & y & Hc & Hx & He). destruct (coordinates_neg _ x y Hid Hc) as (y' & Hc' & _).
    destruct (coordinates_spec _ (neg_identity _ Hid)) as (x2 & y2 & Hc2 & _ & He2). rewrite Hc' in Hc2. injection Hc2 as <- <-.
    rewrite !(x_only_of _ x) by (done || by eexists). done.
Qed.

Lemma x_only_panics {E} p e : x_only_bytes (E := E) p = Err e -> e = Panics.
Proof. unfold x_only_bytes, x_coordinate, part. destruct (slice _ _ _); [done|]. by injection 1. Qed.

(** Only the identity has no x-coordinate. *)
Lemma x_only_identity {E} p e : x_only_bytes (E := E) p = Err e -> is_identity p = true.
Proof. destruct (is_identity p) eqn:Hp; [done|]. destruct (x_only_parity (E := E) p Hp) as (x & odd & _ & -> & _). done. Qed.

(** The sign of a lifted key. *)
Definition signed (odd : bool) (a : Z) : Z := if odd then - a else a.

Lemma lifted_log (odd : bool) a : (if odd then point_neg (G a) else G a) = G (signed odd a).
Proof. destruct odd; [apply G_neg|done]. Qed.

Lemma x_only_signed {E} (odd : bool) a e : x_only_bytes (E := E) (G (signed odd a * e)) = x_only_bytes (G (a * e)).
Proof. destruct odd; [|done]. cbn [signed]. rewrite Z.mul_opp_l. apply x_only_neg. Qed.
End points.

(** ** Payments *)

Section payments.
Context (sha256 sha512 : list Z -> list Z) (mac : list Z -> list Z -> list Z) `{GroupLaws} `{!CurveLaws}.
Hypothesis sha256_size : forall l, bytes_of 32 (sha256 l).
Hypothesis sha512_size : forall l, bytes_of 64 (sha512 l).
Hypothesis mac_hmac : forall k m, mac k m = hmac_sha512 sha512 k m.

Lemma tweak_total {E} shared_x counter : exists tweak index, stealth_tweak (E := E) sha256 shared_x counter = Ok (tweak, index) /\ 0 <= tweak < order.
Proof.
  unfold stealth_tweak. set (hash := sha256 _). destruct (sha256_size (STEALTH_TAG ++ shared_x ++ be_bytes 4 counter)) as [Hb Hl]. fold hash in Hb, Hl.
  assert (Hs : exists t, match scalar_value hash with Some scalar => Ok scalar | None => ok_or (scalar_value (0 :: take 31 hash)) Panics end = Ok (E := Fault E) t /\ 0 <= t < order).
  { destruct (scalar_value hash) as [t|] eqn:Ht.
    - exists t. split; [done|]. by apply (scalar_of_bytes hash).
    - assert (Hshort : bytes_of 32 (0 :: take 31 hash)).
      { split; [constructor; [by_decide|by apply Forall_take]|]. rewrite blen_cons. unfold blen in *. rewrite length_take. lia. }
      assert (Hlt : 0 <= be_val (0 :: take 31 hash) < order).
      { rewrite be_val_cons, Z.mul_0_l, Z.add_0_l. pose proof (be_val_range (take 31 hash) (Forall_take _ _ _ Hb)) as Hr. split; [lia|]. etransitivity; [apply Hr|].
        assert (Hlen : blen (take 31 hash) = 31) by (unfold blen in *; rewrite length_take; lia). rewrite Hlen, order_value. by vm_compute. }
      exists (be_val (0 :: take 31 hash)). rewrite scalar_value_spec by done. rewrite (proj2 (Z.ltb_lt _ _)) by lia. done. }
  destruct Hs as (t & -> & Ht). by exists t, (Z.land (be_val (take 4 hash)) 0x7fffffff).
Qed.

(** The public key of a watched private key. *)
Lemma watched_key h k : watches h k -> epk_key h = G (be_val (key k)) /\ is_identity (epk_key h) = false /\ 0 < be_val (key k) < order /\ bytes_of 32 (key k).
Proof.
  intros (Hk & d & Hd & Hid & Hpk & _). pose proof Hk as (H32 & Hrange & _).
  unfold to_xpub in Hd. rewrite public_key_valid in Hd by done. injection Hd as <-. cbn [pubkey] in Hpk.
  assert (Heq : epk_key h = generator_times (be_val (key k))).
  { apply (inj Some). rewrite <- (decode_encode (epk_key h)), <- Hpk, decode_encode by (done || by apply generator_not_identity). done. }
  rewrite Heq in *. split; [by apply G_small; lia|]. done.
Qed.

(** The private key a device signs with has the logarithm of the spend key. *)
Lemma account_scalar (odd : bool) account a x tweak : bytes_of 32 account -> be_val account = a -> 0 < a < order -> 0 <= tweak < order ->
  encode_point (G a) = (if odd then 3 else 2) :: x ->
  stealth_scalar account (to_bytes tweak) = Ok ((signed odd a + tweak) mod order).
Proof.
  intros H32 Hv Ha Ht He. unfold stealth_scalar. rewrite scalar_value_spec, Hv, (proj2 (Z.ltb_lt _ _)) by (done || lia). cbn [ok_or rbind].
  rewrite G_small, He, scalar_to_bytes by lia. cbn [ok_or rbind]. f_equal. change (get_at (?b :: x) 0) with (Some b). destruct odd; cbn [signed].
  - rewrite bool_decide_true by done. apply Z.add_mod_idemp_l. lia.
  - by rewrite bool_decide_false.
Qed.
(** Metadata derived from an account. *)
Lemma metadata_keys h account meta : watches h account -> derive_stealth_meta mac h = Ok meta ->
  exists chain scan odd_scan odd_spend x, derive_child sha512 account 2 = Ok chain /\ derive_child sha512 chain 0 = Ok scan /\
    scan_pubkey meta = G (signed odd_scan (be_val (key scan))) /\ spend_pubkey meta = G (signed odd_spend (be_val (key account))) /\
    encode_point (G (be_val (key account))) = (if odd_spend then 3 else 2) :: x /\
    (exists sx, bytes_of 32 sx /\ pubkey_from_xonly sx = Ok (scan_pubkey meta)) /\ (exists ax, bytes_of 32 ax /\ pubkey_from_xonly ax = Ok (spend_pubkey meta)).
Proof.
  intros Hw. unfold derive_stealth_meta. intros (scan_key & Hscan & Hrest)%rbind_Ok_inv.
  destruct (let? chain := epk_derive_child mac h 2 in epk_derive_child mac chain 0) as [sk|] eqn:Hder; [|done]. injection Hscan as ->.
  apply rbind_Ok_inv in Hder as (ck & Hc1 & Hc2).
  pose proof (watch_child sha512 sha512_size mac mac_hmac h account 2 Hw ltac:(done)) as Hchain. rewrite Hc1 in Hchain.
  destruct (derive_child sha512 account 2) as [chain|] eqn:Hd1; [|done].
  pose proof (watch_child sha512 sha512_size mac mac_hmac ck chain 0 Hchain ltac:(done)) as Hsk. rewrite Hc2 in Hsk.
  destruct (derive_child sha512 chain 0) as [scan|] eqn:Hd2; [|done].
  destruct (watched_key _ _ Hsk) as (Hsp & Hsid & _ & _), (watched_key _ _ Hw) as (Hap & Haid & _ & _).
  destruct (x_only_parity (E := StealthError) _ Hsid) as (sx & so & _ & Hsx & Hsb & _ & Hslift).
  destruct (x_only_parity (E := StealthError) _ Haid) as (ax & ao & _ & Hax & Hab & Haenc & Halift).
  rewrite Hsx in Hrest. cbn [rbind] in Hrest. rewrite Hax in Hrest. cbn [rbind] in Hrest. rewrite Hslift, Halift in Hrest. cbn [lift rmap_err rbind] in Hrest.
  injection Hrest as <-. exists chain, scan, so, ao, ax. split; [done|]. split; [done|]. cbn [scan_pubkey spend_pubkey].
  split; [by rewrite Hsp, lifted_log|]. split; [by rewrite Hap, lifted_log|]. split; [by rewrite <- Hap|]. split; [by exists sx|by exists ax].
Qed.

(** Metadata is read back from its text. *)
Lemma metadata_reads_back hex_decode meta : (forall l, bytes_ok l -> hex_decode (Hex.hex_text l) = Some l) ->
  (exists x, bytes_of 32 x /\ pubkey_from_xonly x = Ok (scan_pubkey meta)) -> (exists x, bytes_of 32 x /\ pubkey_from_xonly x = Ok (spend_pubkey meta)) ->
  exists text, encode_stealth_meta meta = Ok text /\ decode_stealth_meta hex_decode text = Ok meta.
Proof.
  intros Hhex (sx & Hsx & Hs) (ax & Hax & Ha).
  assert (Hkey : forall x p, bytes_of 32 x -> pubkey_from_xonly x = Ok p -> x_only_bytes (E := StealthError) p = Ok x).
  { intros x p Hx Hp. assert (Hlift : Adaptor.xonly_to_point x = Ok p).
    { unfold pubkey_from_xonly in Hp. destruct Hx as [_ Hl]. rewrite Hl in Hp. cbn [Z.eqb Pos.eqb negb] in Hp. unfold Adaptor.xonly_to_point, Adaptor.public_key_to_point.
      destruct (public_key_from_sec1_bytes _); [|done]. by injection Hp as ->. }
    pose proof (point_of_xonly x p Hx Hlift) as Hpar. destruct (x_only_parity (E := StealthError) p (xonly_not_identity x p Hx Hlift)) as (x' & odd & Hpar' & Hb & _).
    rewrite Hpar in Hpar'. by injection Hpar' as <- _. }
  unfold encode_stealth_meta. rewrite (Hkey sx), (Hkey ax) by done. cbn [rbind]. eexists. split; [done|].
  unfold decode_stealth_meta. destruct Hsx as [Hsb Hsl], Hax as [Hab Hal].
  assert (Happ : Hex.hex_text sx ++ Hex.hex_text ax = Hex.hex_text (sx ++ ax)) by (symmetry; apply flat_map_app). rewrite Happ.
  assert (Hlen : blen (Hex.hex_text (sx ++ ax)) = 128) by (unfold blen in *; rewrite length_hex_text, length_app; lia).
  rewrite Hlen. cbn [Z.eqb Pos.eqb negb]. rewrite Hhex by (by apply bytes_ok_app). cbn [ok_or rbind]. unfold part.
  rewrite (slice_split (sx ++ ax) [] sx ax 0 32); [|done|done|change (blen []) with 0; lia]. cbn [ok_or rbind]. rewrite Hs. cbn [lift rmap_err rbind].
  rewrite (slice_split (sx ++ ax) sx ax []); [|by rewrite app_nil_r|lia|rewrite blen_app; lia]. cbn [ok_or rbind]. rewrite Ha. cbn [lift rmap_err rbind]. by destruct meta.
Qed.

(** The keys a receiver and a device compute from a payment. *)
Definition spendable (account scan : list Z) (payment : StealthPayment) : Prop :=
  exists ephemeral shared_x tweak secret,
    pubkey_from_xonly (ephemeral_pubkey payment) = Ok ephemeral /\
    x_only_bytes (E := StealthError) (point_times ephemeral (be_val scan)) = Ok shared_x /\
    view_tag sha256 shared_x = payment_view_tag payment /\
    stealth_tweak (E := StealthError) sha256 shared_x 0 = Ok (tweak, stealth_index payment) /\
    stealth_scalar account (to_bytes tweak) = Ok secret /\
    x_only_bytes (E := StealthError) (generator_times secret) = Ok (one_time_pubkey payment).

(** A shared secret or a one-time key that is no point of the plane. *)
Definition degenerate (meta : StealthMeta) (secret : Z) : Prop :=
  is_identity (point_times (scan_pubkey meta) secret) = true \/
  exists shared_x tweak index, x_only_bytes (E := StealthError) (point_times (scan_pubkey meta) secret) = Ok shared_x /\
    stealth_tweak (E := StealthError) sha256 shared_x 0 = Ok (tweak, index) /\
    is_identity (point_add (spend_pubkey meta) (generator_times tweak)) = true.

Lemma payment_spendable meta entropy account scan odd_scan odd_spend x : bytes_of 32 entropy ->
  bytes_of 32 account -> 0 < be_val account < order ->
  scan_pubkey meta = G (signed odd_scan (be_val scan)) -> spend_pubkey meta = G (signed odd_spend (be_val account)) ->
  encode_point (G (be_val account)) = (if odd_spend then 3 else 2) :: x ->
  match generate_stealth_payment sha256 meta entropy with
  | Ok payment => 0 < be_val entropy < order /\ spendable account scan payment
  | Err (Fails e) => e = InvalidScalar /\ order <= be_val entropy \/ e = BadEphemeralPoint /\ be_val entropy = 0
  | Err Panics => degenerate meta (be_val entropy)
  end.
Proof.
  intros He Ha Har Hscan Hspend Henc. unfold generate_stealth_payment, scalar_from_bytes. rewrite scalar_value_spec by done.
  pose proof (be_val_range entropy (proj1 He)) as He0. set (e := be_val entropy) in *.
  destruct (Z.ltb_spec e order) as [Hlt|]; cbn [ok_or lift rmap_err rbind]; [|by left].
  rewrite generator_identity by lia. destruct (Z.eqb_spec e 0) as [|Hne]; [by right|].
  assert (Hid : is_identity (G e) = false) by (rewrite <- G_small, generator_identity by lia; by apply Z.eqb_neq).
  change (x_only_from_affine (point_times (scan_pubkey meta) e)) with (x_only_bytes (E := StealthError) (point_times (scan_pubkey meta) e)).
  destruct (x_only_bytes (E := StealthError) (point_times (scan_pubkey meta) e)) as [shared_x|err] eqn:Hshared; cbn [rbind].
  2:{ rewrite (x_only_panics _ _ Hshared). left. by eapply x_only_identity. }
  destruct (tweak_total (E := StealthError) shared_x 0) as (t & i & Ht & Htr). rewrite Ht. cbn [rbind].
  set (one_time := point_add (spend_pubkey meta) (generator_times t)).
  change (x_only_from_affine one_time) with (x_only_bytes (E := StealthError) one_time).
  destruct (x_only_bytes (E := StealthError) one_time) as [one_x|err] eqn:Hone; cbn [rbind].
  2:{ rewrite (x_only_panics _ _ Hone). right. exists shared_x, t, i. split; [done|]. split; [done|]. by eapply x_only_identity. }
  rewrite G_small by lia. destruct (x_only_parity (E := StealthError) (G e) Hid) as (ex & odd & _ & Hex & _ & _ & Hlift). rewrite Hex. cbn [rbind].
  rewrite lifted_log in Hlift. split; [lia|]. exists (G (signed odd e)), shared_x, t, ((signed odd_spend (be_val account) + t) mod order).
  cbn [ephemeral_pubkey payment_view_tag stealth_index one_time_pubkey]. split; [done|]. split.
  { rewrite <- Hshared, Hscan, !G_times, !x_only_signed. by rewrite Z.mul_comm. }
  split; [done|]. split; [done|]. split; [by eapply account_scalar|].
  rewrite <- Hone. unfold one_time. rewrite Hspend, (G_small t), G_add by done. done.
Qed.

(** C20: whoever pays to the metadata of an account pays to a key the account's
    device can sign for: the metadata's text is read back as the metadata, and
    from a payment the receiver, with the private key of the scanning chain,
    finds the shared secret, its view tag and its index, and the device, with
    the tweak of that secret, the private key of the one-time key. A payment is
    refused exactly for entropy that is no secret key, and panics only when a
    point is the identity. *)
Theorem stealth_payment_spendable (hex_decode : list Z -> option (list Z)) account fingerprint text meta entropy :
  (forall l, bytes_ok l -> hex_decode (Hex.hex_text l) = Some l) -> valid_key account -> bytes_of 4 fingerprint ->
  serialize_account_kpub account fingerprint (zeros ACCOUNT_KEY_TEXT_LEN) = (Ok ACCOUNT_KEY_TEXT_LEN, text) ->
  derive_stealth_meta_from_kpub sha256 mac text = Ok meta -> bytes_of 32 entropy ->
  (exists published, encode_stealth_meta meta = Ok published /\ decode_stealth_meta hex_decode published = Ok meta) /\
  exists chain scan, derive_child sha512 account 2 = Ok chain /\ derive_child sha512 chain 0 = Ok scan /\
    match generate_stealth_payment sha256 meta entropy with
    | Ok payment => 0 < be_val entropy < order /\ spendable (key account) (key scan) payment
    | Err (Fails e) => e = InvalidScalar /\ order <= be_val entropy \/ e = BadEphemeralPoint /\ be_val entropy = 0
    | Err Panics => degenerate meta (be_val entropy)
    end.
Proof.
  intros Hhex Hk Hf Hser Hmeta He. destruct (exported_account sha256 _ _ _ Hk Hf Hser) as (payload & h & Hdec & _ & Hraw & Hw).
  unfold derive_stealth_meta_from_kpub, from_kpub in Hmeta. rewrite Hdec in Hmeta. cbn [rbind] in Hmeta. rewrite Hraw in Hmeta. cbn [rmap_err rbind] in Hmeta.
  destruct (metadata_keys h account meta Hw Hmeta) as (chain & scan & so & ao & x & Hd1 & Hd2 & Hs & Ha & Henc & Hsx & Hax).
  split; [by apply metadata_reads_back|]. exists chain, scan. split; [done|]. split; [done|].
  destruct Hk as (H32 & Hrange & _). by eapply payment_spendable.
Qed.
End payments.
End StealthProofs.

(** ** The search for a preimage *)

(** Where a preimage may be: after the length of the input, its version, the
    transaction and the length of the script. *)
Definition preimage_at (raw transaction_id : list Z) (position : Z) : option (list Z) :=
  if bool_decide (get_at raw position = Some 1 /\ slice raw (position + 1) (position + 33) = Some transaction_id /\
     Stealth.read_u32_length raw (position - 4) = Some 37)
  then script ← Stealth.script_after_outpoint raw position; Stealth.first_push script else None.

Lemma candidate_preimage {E} raw transaction_id position : 4 <= position -> position + 33 <= blen raw -> blen raw <= u64_max ->
  exists script, Stealth.candidate_script (E := E) raw transaction_id position = Ok script /\ script ≫= Stealth.first_push = preimage_at raw transaction_id position.
Proof.
  intros Hp Hl Hmax. unfold Stealth.candidate_script, Stealth.candidate_outpoint_matches, preimage_at, byte.
  destruct (get_at_lt raw position) as [b Hb]; [lia|]. rewrite Hb. cbn [ok_or rbind].
  destruct (Z.eqb_spec b 1) as [->|Hne]; cbn [negb].
  - unfold part. destruct (slice raw (position + 1) (position + 33)) as [id|] eqn:Hs; [|apply slice_None in Hs; lia]. cbn [ok_or rbind].
    rewrite Z.mod_small by (unfold u64_max in *; lia). eexists. split; [reflexivity|].
    destruct (list_Z_eqb id transaction_id) eqn:Hid.
    + apply list_Z_eqb_eq in Hid as ->. cbn [andb]. destruct (decide (Stealth.read_u32_length raw (position - 4) = Some 37)) as [H37|H37].
      * rewrite !bool_decide_true by done. done.
      * rewrite !bool_decide_false by (done || naive_solver). done.
    + cbn [andb negb]. rewrite bool_decide_false; [done|]. intros (_ & [= ->] & _). by rewrite (proj2 (list_Z_eqb_eq _ _) eq_refl) in Hid.
  - exists None. split; [done|]. rewrite bool_decide_false; [done|]. intros ([= ->] & _). done.
Qed.

(** The search reads within its bytes and finds the first preimage. *)
Lemma scan_finds_first {E} raw transaction_id : blen raw <= u64_max ->
  Stealth.scan_raw_for_preimage (E := E) raw transaction_id = Ok (head (omap (preimage_at raw transaction_id) (seqZ 4 (Z.max 0 (blen raw - 50) - 4)))).
Proof.
  intros Hmax. unfold Stealth.scan_raw_for_preimage.
  assert (Hall : Forall (fun i => 4 <= i /\ i + 33 <= blen raw) (seqZ 4 (Z.max 0 (blen raw - 50) - 4))) by (apply Forall_forall; intros i Hi%elem_of_seqZ; lia).
  induction Hall as [|i l [Hi Hl] _ IH]; [done|]. cbn [Stealth.scan_positions omap list_omap].
  destruct (candidate_preimage (E := E) raw transaction_id i Hi Hl Hmax) as (script & Hscript & Hpre). rewrite Hscript. cbn [rbind]. rewrite Hpre.
  by destruct (preimage_at raw transaction_id i).
Qed.

(** ** A payment *)

#[local] Existing Instances parity_curve parity_group parity_laws parity_group_laws.

Definition toy_hex_decode (text : list Z) : option (list Z) := ok (Grammar.decode_hex_bytes text (blen text / 2)).

Lemma toy_hex_reads_back l : bytes_ok l -> toy_hex_decode (Hex.hex_text l) = Some l.
Proof.
  intros Hl. unfold toy_hex_decode. rewrite blen_hex_text, Z.mul_comm, Z.div_mul by done. by rewrite decode_hex_bytes_text.
Qed.

Definition toy_kpub : list Z := snd (serialize_account_kpub toy_key [1; 2; 3; 4] (zeros ACCOUNT_KEY_TEXT_LEN)).
#[local] Notation toy_meta := (Stealth.derive_stealth_meta_from_kpub toy_hash32 (hmac_sha512 toy_hash512) toy_kpub).

Lemma toy_kpub_written : serialize_account_kpub toy_key [1; 2; 3; 4] (zeros ACCOUNT_KEY_TEXT_LEN) = (Ok ACCOUNT_KEY_TEXT_LEN, toy_kpub).
Proof. vm_compute. reflexivity. Qed.

Lemma is_ok_rbind {A B E} (r : result A E) (f : A -> result B E) : is_ok (let? x := r in f x) = true -> exists x, r = Ok x /\ is_ok (f x) = true.
Proof. destruct r as [x|]; [|done]. by exists x. Qed.

Lemma toy_payment_ok : exists meta, toy_meta = Ok meta /\ is_ok (Stealth.generate_stealth_payment toy_hash32 meta (replicate 32 3)) = true.
Proof. apply is_ok_rbind. vm_compute. reflexivity. Qed.

Lemma stealth_payment_spendable_witness : exists meta chain scan payment,
  toy_meta = Ok meta /\ derive_child toy_hash512 toy_key 2 = Ok chain /\ derive_child toy_hash512 chain 0 = Ok scan /\
  Stealth.generate_stealth_payment toy_hash32 meta (replicate 32 3) = Ok payment /\ StealthProofs.spendable toy_hash32 (key toy_key) (key scan) payment.
Proof.
  destruct toy_payment_ok as (meta & Hmeta & Hpay).
  assert (Hk : valid_key toy_key) by by_decide. assert (Hf : bytes_of 4 [1; 2; 3; 4]) by by_decide. assert (He : bytes_of 32 (replicate 32 3)) by by_decide.
  destruct (StealthProofs.stealth_payment_spendable toy_hash32 toy_hash512 (hmac_sha512 toy_hash512) toy_hash32_size toy_hash512_size (fun k m => eq_refl)
    toy_hex_decode toy_key [1; 2; 3; 4] toy_kpub meta (replicate 32 3) toy_hex_reads_back Hk Hf toy_kpub_written Hmeta He) as (_ & chain & scan & Hc & Hs & Hrest).
  destruct (Stealth.generate_stealth_payment toy_hash32 meta (replicate 32 3)) as [payment|] eqn:Hp; [|discriminate Hpay].
  exists meta, chain, scan, payment. exact (conj Hmeta (conj Hc (conj Hs (conj Hp (proj2 Hrest))))).
Defined.
